(* ===== verification/_CoqProject ===== *)
-Q . S2P
Prelude.v
StableSort.v
JsValue.v
NumFacts.v
JsCollections.v
FloatError.v
NumRounding.v
NumberText.v
AuthSession.v
AuthSessionFacts.v
HttpClient.v
PlaygroundMessage.v
PlaygroundMessageFacts.v
PlaygroundStream.v
PlaygroundStreamFacts.v
PlaygroundStorage.v
PlaygroundStorageFacts.v
StatusRules.v
ModelMapping.v
AdvancedCustom.v
AdvancedCustomFacts.v
Regex.v
RegexRun.v
BillingExpr.v
TaskExpr.v
TierExpr.v
StringFacts.v
TaskExprFacts.v
BillingExprFacts.v
TaskRoundTrip.v
RuleText.v
RuleRoundTrip.v
TierRoundTrip.v
JsonText.v
JsonParsed.v
ModelPricing.v
PricingPanel.v
PricingPanelFacts.v
ModelPricingFacts.v
TieredEditor.v
TieredEditorFacts.v
PriceSync.v
PriceSyncFacts.v
DashboardFlow.v
DashboardFlowFacts.v
DashboardFlowViews.v
Currency.v
Comparators.v
SecureVerification.v
SecureVerificationFacts.v
D2SStore.v
D2SStoreFacts.v
D2SAccount.v
D2SAccountFacts.v
Catalogue.v
CatalogueFacts.v
PlaygroundState.v
PlaygroundStateFacts.v
ChannelForm.v
ChannelFormFacts.v
ChannelUtils.v
ChannelUtilsFacts.v
AdvancedCustomEditor.v
AdvancedCustomEditorFacts.v
AdvancedCustomEditorReach.v
TableUrlState.v
TableUrlStateFacts.v
Navigation.v
NavigationSettings.v
NavigationFacts.v
NavigationViews.v
NavigationViewsFacts.v
NavigationSettingsFacts.v
ParamOverride.v
ParamOverrideFacts.v
ParamOverrideReach.v
ParamOverrideRoundTrip.v
QuotaForms.v
QuotaFormsFacts.v
