(* ===== verification/Prelude.v ===== *)
(** * Verification of the web client of Desktop2Stereo

    The repository is an API gateway with a web client and the store of the
    Desktop2Stereo software.  This library verifies the logic of the web client
    (TypeScript, [src/web/src]).  The client is a React application; the parts of
    it that decide something, as opposed to drawing it, are modelled here: plain
    [.ts] files, hooks, and the state, handlers and effects of the components that
    edit settings or take orders.

    ** Parts of the program and their files

    A file [X.v] holds the definitions of a part and [XFacts.v] (or a file named
    after its subject) the theorems about it.

    - The login session.  [lib/auth-session.ts] refreshes the access token with
      bounded retries and a single flight, applies bundles and rotations, and
      tells the other tabs ([lib/auth-session-sync.ts]); [stores/auth-store.ts]
      holds the token; [lib/session-hint.ts] reads the cookie that says whether
      asking the server is worth it.  [AuthSession.v] (modules [AuthStore],
      [SessionSync], [SessionHint], [AuthSession]) models them: the tab is the
      record [World], each uninterrupted piece of code is a function on it, and
      [step] says which pieces the event loop may run next.
    - The HTTP client, [lib/http-client.ts] and [lib/server-error-message.ts]:
      shared GET requests, the token header, one retry after a 401.
      [HttpClient.v].  It calls the login session.
    - Secure verification, [features/auth/secure-verification] and the OAuth
      popups of [features/auth/lib]: [SecureVerification.v].
    - The store of Desktop2Stereo, [features/d2s/store.tsx] and
      [lib/checkout.ts]: [D2SStore.v], a machine of renders, clicks and replies.
      Licences, withdrawals, refunds and the other forms of [features/d2s], the
      approval of a device and the support button: [D2SAccount.v].
    - The playground: messages ([features/playground/lib/message],
      [lib/streaming/payload-builder.ts]; [PlaygroundMessage.v]), requests and
      streams ([hooks/use-stream-request.ts], [hooks/use-chat-handler.ts],
      [hooks/use-playground-conversation.ts]; [PlaygroundStream.v]), stored
      histories ([lib/storage], [lib/state], [lib/options], [lib/input];
      [PlaygroundStorage.v]) and the state of the page
      ([hooks/use-playground-state.ts], [hooks/use-playground-options.ts],
      [lib/parameters]; [PlaygroundState.v]).  The stream machine calls the message
      functions; the page stores what it shows through the storage.
    - Channels: status code rules ([lib/http-status-code-rules.ts],
      [status-code-risk-guard.ts]; [StatusRules.v]), model lists and mappings
      ([model-mapping-validation.ts], [upstream-update-utils.ts];
      [ModelMapping.v]), advanced custom routes ([advanced-custom.ts];
      [AdvancedCustom.v]) and their editor ([advanced-custom-editor-dialog.tsx];
      [AdvancedCustomEditor.v], with the reachable states in
      [AdvancedCustomEditorReach.v]), the form of a channel ([channel-form.ts];
      [ChannelForm.v]), the table ([channel-utils.ts], [channel-field-update.ts];
      [ChannelUtils.v]) and the editor of parameter overrides
      ([param-override-editor-dialog.tsx]; [ParamOverride.v], with
      [ParamOverrideReach.v] and [ParamOverrideRoundTrip.v]).
    - Prices: billing expressions and request rules
      ([features/pricing/lib/billing-expr.ts]; [BillingExpr.v]), task prices
      ([task-expr.ts], [breakdown-tier-match.ts]; [TaskExpr.v]), token prices
      ([tier-expr.ts]; [TierExpr.v]) and the editor of both forms of a token price
      ([tiered-pricing-editor.tsx]; [TieredEditor.v]).  The round trips of the texts
      are in [TaskRoundTrip.v], [RuleText.v], [RuleRoundTrip.v] and
      [TierRoundTrip.v], on top of [Regex.v] (the regular expressions of the
      language: matcher and meaning), [RegexRun.v] (the match that a greedy matcher
      finds first) and [StringFacts.v] (quoted strings, printed numbers).
    - Prices in the settings: the ten stored texts and their table
      ([features/system-settings/models]: [pricing-format.ts],
      [model-pricing-core.ts], [model-pricing-snapshots.ts],
      [model-ratio-visual-editor.tsx]; [ModelPricing.v]), the panel that edits one
      model ([model-pricing-sheet.tsx]; [PricingPanel.v]) and the comparison with
      upstream prices ([upstream-ratio-sync.tsx] and its helpers; [PriceSync.v]).
      A model named [__proto__] is outside of the price maps modelled.
    - The model catalogue, [features/pricing/lib] ([filters.ts], [price.ts],
      [dynamic-price.ts]): [Catalogue.v].
    - Navigation: the sidebar, the header, the command menu and the guards of the
      routes ([hooks/use-sidebar-config.ts] and others; [Navigation.v]), the views of
      the sidebar inside and outside the system settings and the chat presets
      ([components/layout], [features/chat]; [NavigationViews.v]), and the
      settings that decide over them ([features/system-settings/maintenance];
      [NavigationSettings.v]).
    - Tables whose state is in the URL, [hooks/use-table-url-state.ts]:
      [TableUrlState.v].
    - The flow chart of the dashboard, [features/dashboard/lib/flow.ts]:
      [DashboardFlow.v], [DashboardFlowFacts.v] (what flows where),
      [DashboardFlowViews.v] (filters, limits, masks).
    - Currencies and quotas: [lib/currency.ts], [lib/format.ts],
      [stores/system-config-store.ts] ([Currency.v]) and the forms that edit
      quotas: API keys, redemption codes and plans ([QuotaForms.v]).
    - The language itself, as far as the source uses it.  This file has strings,
      tactics and lists; [JsValue.v] has numbers and JSON; [NumFacts.v],
      [FloatError.v], [NumRounding.v] and [NumberText.v] show the exactness of
      sums of integers, the error of products and quotients, the correct rounding
      of decimals and that a printed number reads back; [JsonText.v] and
      [JsonParsed.v] that printed JSON reads back; [StableSort.v],
      [Comparators.v] and [JsCollections.v] have the sorting, maps and sets.

    ** How the code is represented

    A string is the list of its 16-bit code units; a number is an IEEE binary64
    ([spec_float]) where the code computes with user-supplied numbers, and an
    integer where it only counts, keeps times in milliseconds or whole pixels; an
    object used as a map is the list of its properties in JavaScript's property
    order; a value of unknown type is a [json].  A function that may throw returns
    an [option] whose [None] is the exception.  Asynchronous code is cut at every
    [await], callback and timer into synchronous pieces; theorems about it
    quantify over every sequence of events.  A React state updater waits in
    a queue until the next render, which runs the queue in order; what an updater
    reads besides the state is read then, or already at the call where React ran it
    ahead because nothing was queued, and both are modelled where it matters
    ([PlaygroundStream.v]).  A component with effects is modelled render by render; a handler
    acts on the page that was last drawn.

    Code outside of the repository is a parameter: axios, the SSE library, zod
    schemas, [nanoid], [randomUUID], the clock, the [URL] constructor, the
    translation function, the order of [localeCompare], [Intl.NumberFormat], the
    case tables of Unicode, the room left in [localStorage], and the lock and
    channel objects of the browser.  What is relied on is a named hypothesis, with
    a witness where a theorem has one.

    ** What the theorems show

    - Session: a superseded refresh never writes; the fields of the store stand
      or fall together; every refresh settles after at most eight requests; what
      each outcome leaves behind; rotations, sign-outs and the hint.  The HTTP
      client retries at most once and shares GETs only within a session.
    - Secure verification: a proof goes only to the action it was asked for.
    - Store: an order is sent only by a click on a page that shows its exact
      amount; a key stands for one order; a failed payment can be repeated and a
      changed price must be reviewed; a refund is exact to the fen.
    - Playground: the think-tag parser loses nothing; a streamed reply ends as
      the concatenated deltas under every interleaving and timing of the updaters,
      unless a run of deltas repeats the one before; callbacks of requests
      are ordered and end once; stopping is final from the next render on; the last
      hundred messages shown reach the storage if it has room for them; restored histories and parameters are bounded.
    - Channels: validation decides a declarative notion of valid configuration,
      the route editor hands on only valid ones and repairs their order; what the
      forms and the override editor save reads back; unmanaged settings survive;
      delayed updates hand on the last values; the parser of status code rules
      agrees with a meaning of rules stated without it.
    - Prices: the generated texts of task prices, token prices and request rules
      read back, under the conditions their theorems state; parsed task tiers are well formed; saving prices and reading them
      again, syncing with upstream and editing a model unchanged keep or set
      exactly the intended numbers; the ratios committed follow the prices on the
      screen; an edit of a billing expression is what the panel then holds; the
      catalogue lists exactly the matching models.
    - Navigation: where the sidebar and the menu lead, on every page and for every
      role; the header links to what the guards let in; the saved settings decide
      as their switches stood.
    - Dashboard: the flow is conserved at every node and every stage carries the
      total; masks hide names and change nothing else; limits and filters.
    - Quotas: an amount shown in any currency and read back is the quota to the
      unit, so an unchanged edit keeps keys and plans; configurations have
      positive rates; hashes stay 32-bit integers.
    - Some theorems state behaviour the code does not intend (an expression that
      opening replaces by a price of zero, rules of a pruning operation that cannot
      be edited, a verification that goes on after its dialog was closed, an
      uncaught rejection of a lock request, rules that do not read back, and
      others); their comments say so.

    ** Fuel

    Loops that are not structural carry fuel that is proved or evidently enough:
    the think-tag scan and the task parser advance by a character per round
    (fuel: length plus one); a repetition of a regular expression consumes a
    character per round ([go_complete] shows that the fuel suffices); [unwrap]
    removes two characters per round (fuel: length); [JSON.parse] uses twice the
    length plus two; the shortest decimal has at most 17 digits (fuel 18); the
    refresh runner is driven for at most eight requests, which
    [createRefreshRunner_settles] shows to be enough; an editor with effects is
    rendered as often as its theorem says, and stays as it is from then on.

    ** Not modelled

    The drawing of React components, styles and texts; the Go server; generated
    files and translations; functions that only call the server ([api.ts] files,
    [channel-actions.ts]) or a library ([use-settings-form.ts], passkeys); code
    that compiles text with [new Function] ([evalExprLocally] of [tier-expr.ts],
    the cost estimator); the charts other than the flow chart and the invented
    statistics of [mock-stats.ts]; dates and times, which rest on [dayjs] and
    [Intl]; names inherited from [Object.prototype], except where the code uses
    [in]. *)

From Stdlib Require Export ZArith Lia.
From stdpp Require Export base numbers list strings gmap option.

#[global] Open Scope Z_scope.

(** ** JavaScript strings

    A JavaScript string is a sequence of 16-bit code units.  [jstr] is that
    sequence; [js] embeds an ASCII literal. *)

Abbreviation jstr := (list N).

Fixpoint js (s : string) : jstr :=
  match s with
  | EmptyString => []
  | String a rest => Ascii.N_of_ascii a :: js rest
  end.

Declare Scope js_scope.
Delimit Scope js_scope with js.

(** [s === t] on strings. *)
Definition jeqb (s t : jstr) : bool := bool_decide (s = t).
Infix "===" := jeqb (at level 70, no associativity) : js_scope.
#[global] Open Scope js_scope.

(** JavaScript truthiness of a string, and of an optional string. *)
Definition truthy (s : jstr) : bool := match s with [] => false | _ => true end.
Definition truthy_opt (s : option jstr) : bool := from_option truthy false s.

(** [a || b] on strings: the default is taken for the empty string. *)
Definition or_else (a b : jstr) : jstr := if truthy a then a else b.
(** [a || b] when [a] may be undefined. *)
Definition opt_or_else (a : option jstr) (b : jstr) : jstr :=
  match a with Some s => or_else s b | None => b end.

(** ECMAScript [WhiteSpace] and [LineTerminator]: what [trim] removes and what
    the class [\s] of regular expressions matches. *)
Definition is_ws (c : N) : bool :=
  ((9 <=? c) && (c <=? 13) || (c =? 32) || (c =? 160) || (c =? 5760)
   || ((8192 <=? c) && (c <=? 8202)) || (c =? 8232) || (c =? 8233)
   || (c =? 8239) || (c =? 8287) || (c =? 12288) || (c =? 65279))%N.

Definition is_digit (c : N) : bool := ((48 <=? c) && (c <=? 57))%N.

Fixpoint trim_start (s : jstr) : jstr :=
  match s with
  | c :: rest => if is_ws c then trim_start rest else s
  | [] => []
  end.

Definition trim_end (s : jstr) : jstr := reverse (trim_start (reverse s)).

(** [s.trim()] *)
Definition trim (s : jstr) : jstr := trim_end (trim_start s).

(** [s.startsWith(p)], [s.endsWith(p)]: decidable list prefix and suffix. *)
Definition startsWith (s p : jstr) : bool := bool_decide (p `prefix_of` s).
Definition endsWith (s p : jstr) : bool := bool_decide (p `suffix_of` s).

(** [s.indexOf(p)]: position of the first occurrence; [None] stands for -1. *)
Fixpoint indexOf (s p : jstr) : option nat :=
  if startsWith s p then Some 0%nat
  else match s with
       | [] => None
       | _ :: rest => S <$> indexOf rest p
       end.

(** [s.indexOf(p, from)] for [0 <= from]. *)
Definition indexOf_from (s p : jstr) (from : nat) : option nat :=
  (λ i, (from + i)%nat) <$> indexOf (drop from s) p.

(** [s.includes(p)] *)
Definition includes (s p : jstr) : bool := bool_decide (is_Some (indexOf s p)).

(** [s.slice(a, b)] for [0 <= a] and [0 <= b]. *)
Definition slice (s : jstr) (a b : nat) : jstr := take (b - a) (drop a s).

(** [s.split(c)] for a separator of one code unit. *)
Fixpoint split1 (c : N) (s : jstr) : list jstr :=
  match s with
  | [] => [[]]
  | x :: rest =>
      if (x =? c)%N then [] :: split1 c rest
      else match split1 c rest with
           | w :: ws => (x :: w) :: ws
           | [] => [[x]]
           end
  end.

(** [parts.join(sep)] *)
Fixpoint join (sep : jstr) (parts : list jstr) : jstr :=
  match parts with
  | [] => []
  | [w] => w
  | w :: ws => w ++ sep ++ join sep ws
  end.

(** [Array.from(new Set(l))]: first occurrences, in order. *)
Fixpoint dedup_go {A} `{EqDecision A} (seen : list A) (l : list A) : list A :=
  match l with
  | [] => []
  | x :: rest =>
      if decide (x ∈ seen) then dedup_go seen rest
      else x :: dedup_go (x :: seen) rest
  end.
Definition dedup {A} `{EqDecision A} (l : list A) : list A := dedup_go [] l.

(** [l.filter(Boolean)] on strings. *)
Definition filter_truthy (l : list jstr) : list jstr := filter (λ s, s ≠ []) l.

(** Decimal representation of a natural number, as [String(n)] prints it. *)
Fixpoint digits_go (fuel : nat) (n : N) (acc : jstr) : jstr :=
  match fuel with
  | O => acc
  | S f => let acc' := (48 + n mod 10)%N :: acc in
           if (n <? 10)%N then acc' else digits_go f (n / 10)%N acc'
  end.
Definition digits (n : N) : jstr := digits_go (S (N.to_nat (N.size n))) n [].
Definition digits_Z (z : Z) : jstr :=
  if z <? 0 then 45%N :: digits (Z.to_N (- z)) else digits (Z.to_N z).

(** Value of a string of decimal digits ([Number.parseInt(s, 10)] on a string
    matched by [/^\d+$/]). *)
Definition digits_value (s : jstr) : N :=
  foldl (λ acc c, acc * 10 + (c - 48))%N 0%N s.

(** ** Automation *)

Create HintDb d2s.

(** Split booleans, [decide]s and matches in the hypotheses and the goal. *)
Ltac bsplit :=
  repeat (match goal with
          | H : _ && _ = true |- _ => apply andb_true_iff in H as [? ?]
          | H : _ || _ = false |- _ => apply orb_false_iff in H as [? ?]
          | H : negb _ = true |- _ => apply negb_true_iff in H
          | H : negb _ = false |- _ => apply negb_false_iff in H
          | H : bool_decide _ = true |- _ => apply bool_decide_eq_true in H
          | H : bool_decide _ = false |- _ => apply bool_decide_eq_false in H
          | H : (_ <? _) = true |- _ => apply Z.ltb_lt in H
          | H : (_ <? _) = false |- _ => apply Z.ltb_ge in H
          | H : (_ <=? _) = true |- _ => apply Z.leb_le in H
          | H : (_ <=? _) = false |- _ => apply Z.leb_gt in H
          | H : (_ =? _) = true |- _ => apply Z.eqb_eq in H
          | H : (_ =? _) = false |- _ => apply Z.eqb_neq in H
          | H : (_ === _) = true |- _ => unfold jeqb in H
          | H : (_ === _) = false |- _ => unfold jeqb in H
          end).

(** Case analysis on the innermost scrutinee of the goal, then clean up. *)
Ltac dmatch :=
  match goal with
  | |- context [match ?x with _ => _ end] =>
      lazymatch x with
      | context [match _ with _ => _ end] => fail
      | _ => destruct x eqn:?
      end
  end.
Ltac dmatch_in H :=
  match type of H with
  | context [match ?x with _ => _ end] =>
      lazymatch x with
      | context [match _ with _ => _ end] => fail
      | _ => destruct x eqn:?
      end
  end.
Ltac crush := repeat (simplify_eq/=; try dmatch); simplify_eq/=; auto with d2s.

(** ** Lemmas on strings *)

Lemma jeqb_true s t : (s === t) = true ↔ s = t.
Proof. apply bool_decide_eq_true. Qed.
Lemma jeqb_neq s t : s ≠ t → (s === t) = false.
Proof. apply bool_decide_eq_false_2. Qed.
Lemma jeqb_refl s : (s === s) = true.
Proof. by apply jeqb_true. Qed.

Lemma truthy_true s : truthy s = true ↔ s ≠ [].
Proof. by destruct s. Qed.
Lemma truthy_false s : truthy s = false ↔ s = [].
Proof. by destruct s. Qed.

Lemma startsWith_true s p : startsWith s p = true ↔ ∃ k, s = p ++ k.
Proof. apply bool_decide_eq_true. Qed.
Lemma startsWith_app p k : startsWith (p ++ k) p = true.
Proof. apply startsWith_true. by exists k. Qed.

Lemma trim_start_head c s t : trim_start s = c :: t → is_ws c = false.
Proof. induction s as [|d s IH]; simpl; [done|]. destruct (is_ws d) eqn:E; naive_solver. Qed.

Lemma trim_start_fix s : (∀ c t, s = c :: t → is_ws c = false) → trim_start s = s.
Proof. destruct s as [|c s]; [done|]. intros H. simpl. by rewrite (H c s eq_refl). Qed.

Lemma trim_start_idemp s : trim_start (trim_start s) = trim_start s.
Proof. apply trim_start_fix. intros c t. apply trim_start_head. Qed.

Lemma trim_end_idemp s : trim_end (trim_end s) = trim_end s.
Proof. unfold trim_end. by rewrite reverse_involutive, trim_start_idemp. Qed.

Lemma trim_start_suffix s : ∃ w, s = w ++ trim_start s ∧ Forall (λ c, is_ws c = true) w.
Proof.
  induction s as [|c s (w & Hs & Hw)]; [by exists []|]. simpl.
  destruct (is_ws c) eqn:E; [|by exists []].
  exists (c :: w). split; [by rewrite Hs at 1 | by constructor].
Qed.

Lemma trim_end_prefix s : ∃ w, s = trim_end s ++ w ∧ Forall (λ c, is_ws c = true) w.
Proof.
  destruct (trim_start_suffix (reverse s)) as (w & Hs & Hw).
  exists (reverse w). split; [|by apply Forall_reverse].
  unfold trim_end. rewrite <- reverse_app, <- Hs. by rewrite reverse_involutive.
Qed.

(** Trimming the end keeps a non-blank first character. *)
Lemma trim_end_head s c t : s = c :: t → is_ws c = false → ∃ t', trim_end s = c :: t'.
Proof.
  intros -> Hc. destruct (trim_end_prefix (c :: t)) as (w & Hs & Hw).
  destruct (trim_end (c :: t)) as [|d u] eqn:E.
  - simpl in Hs. subst w. inversion Hw. congruence.
  - simpl in Hs. injection Hs as -> _. by exists u.
Qed.

Lemma trim_fix s : trim_start s = s → trim_end s = s → trim s = s.
Proof. unfold trim. by intros -> ->. Qed.

Lemma trim_start_trim_end s : trim_start s = s → trim_start (trim_end s) = trim_end s.
Proof.
  intros H. destruct s as [|c t]; [done|].
  assert (Hc : is_ws c = false) by (by apply (trim_start_head _ (c :: t) t)).
  destruct (trim_end_head (c :: t) c t eq_refl Hc) as [t' Ht]. rewrite Ht. simpl. by rewrite Hc.
Qed.

Lemma trim_idemp s : trim (trim s) = trim s.
Proof.
  unfold trim at 1 2 3. rewrite (trim_start_trim_end (trim_start s)).
  - apply trim_end_idemp.
  - apply trim_start_idemp.
Qed.

Lemma trim_nil : trim [] = [].
Proof. done. Qed.

(** The trimmed string is a block of the original. *)
Lemma trim_infix s : ∃ a b, s = a ++ trim s ++ b ∧
  Forall (λ c, is_ws c = true) a ∧ Forall (λ c, is_ws c = true) b.
Proof.
  destruct (trim_start_suffix s) as (a & Ha & Hwa).
  destruct (trim_end_prefix (trim_start s)) as (b & Hb & Hwb).
  exists a, b. split; [|done]. unfold trim. by rewrite <- Hb.
Qed.

(** A string without white space is its own trim. *)
Lemma trim_start_length s : (length (trim_start s) ≤ length s)%nat.
Proof. induction s as [|c s IH]; simpl; [done|]. destruct (is_ws c); simpl; lia. Qed.
Lemma trim_length s : (length (trim s) ≤ length s)%nat.
Proof.
  unfold trim, trim_end. rewrite length_reverse.
  pose proof (trim_start_length (reverse (trim_start s))) as H. rewrite length_reverse in H.
  pose proof (trim_start_length s). lia.
Qed.

Lemma trim_no_ws s : Forall (λ c, is_ws c = false) s → trim s = s.
Proof.
  intros H. apply trim_fix.
  - apply trim_start_fix. intros c t ->. by inversion H.
  - unfold trim_end. rewrite (trim_start_fix (reverse s)); [apply reverse_involutive|].
    intros c t E. apply Forall_reverse in H. rewrite E in H. by inversion H.
Qed.

Lemma indexOf_Some s p i :
  indexOf s p = Some i →
  s = take i s ++ p ++ drop (i + length p) s ∧
  (∀ j, (j < i)%nat → startsWith (drop j s) p = false).
Proof.
  revert i. induction s as [|c s IH]; intros i; simpl.
  - destruct (startsWith [] p) eqn:E; [|done]. intros [= <-].
    apply startsWith_true in E as [k E]. destruct p; [|done]. split; [done|lia].
  - destruct (startsWith (c :: s) p) eqn:E.
    + intros [= <-]. split; [|lia]. apply startsWith_true in E as [k E].
      simpl. rewrite E. by rewrite drop_app_length.
    + intros (j & Hj & ->)%fmap_Some. apply IH in Hj as [H1 H2]. split.
      * simpl. by f_equal.
      * intros [|k] Hk; [done|]. simpl. apply H2. lia.
Qed.

Lemma indexOf_None s p : indexOf s p = None → ∀ j, startsWith (drop j s) p = false.
Proof.
  induction s as [|c s IH]; simpl; intros H j.
  - destruct (startsWith [] p) eqn:E; [done|]. by rewrite drop_nil.
  - destruct (startsWith (c :: s) p) eqn:E; [done|].
    apply fmap_None in H. destruct j; [done|]. simpl. by apply IH.
Qed.

Lemma indexOf_bound s p i : indexOf s p = Some i → (i + length p ≤ length s)%nat.
Proof.
  revert i. induction s as [|c s IH]; intros i; cbn [indexOf];
    destruct (startsWith _ p) eqn:E;
    try (apply startsWith_true in E as [k ->]; intros [= <-]; rewrite length_app; lia); [done|].
  intros (j & Hj & ->)%fmap_Some. apply IH in Hj. simpl. lia.
Qed.

Lemma indexOf_from_Some s p from i :
  indexOf_from s p from = Some i →
  (from ≤ i)%nat ∧ (i + length p ≤ from `max` length s)%nat ∧ startsWith (drop i s) p = true.
Proof.
  unfold indexOf_from. intros (k & Hk & ->)%fmap_Some.
  pose proof (indexOf_bound _ _ _ Hk) as Hb. rewrite length_drop in Hb.
  apply indexOf_Some in Hk as [Hk _]. split_and!; [lia|lia|].
  apply startsWith_true. exists (drop (k + length p) (drop from s)).
  rewrite <- drop_drop. rewrite Hk at 1.
  rewrite drop_app_ge by (rewrite length_take; lia).
  rewrite length_take, length_drop. rewrite min_l by lia. by rewrite Nat.sub_diag.
Qed.

Lemma includes_true s p : includes s p = true ↔ ∃ a b, s = a ++ p ++ b.
Proof.
  unfold includes. rewrite bool_decide_eq_true. split.
  - intros [i [H _]%indexOf_Some]. eauto.
  - intros (a & b & ->). destruct (indexOf (a ++ p ++ b) p) eqn:E; [by eexists|].
    apply indexOf_None with (j := length a) in E. rewrite drop_app_length in E.
    by rewrite startsWith_app in E.
Qed.

Lemma slice_app_drop s a b : (a ≤ b)%nat → drop a s = slice s a b ++ drop b s.
Proof.
  intros H. unfold slice. rewrite <- (take_drop (b - a) (drop a s)) at 1.
  f_equal. rewrite drop_drop. f_equal. lia.
Qed.

(** *** [split] and [join] *)

Lemma split1_nonempty c s : split1 c s ≠ [].
Proof. destruct s as [|x s]; simpl; [done|]. destruct (x =? c)%N; [done|]. by destruct (split1 c s). Qed.

Lemma join_cons sep w ws : ws ≠ [] → join sep (w :: ws) = w ++ sep ++ join sep ws.
Proof. by destruct ws. Qed.

Lemma join_split1 c s : join [c] (split1 c s) = s.
Proof.
  induction s as [|x s IH]; [done|]. simpl.
  destruct (N.eqb_spec x c) as [->|Hne].
  - rewrite join_cons by apply split1_nonempty. simpl. by rewrite IH.
  - destruct (split1 c s) as [|w ws] eqn:E; [by destruct (split1_nonempty c s)|].
    destruct ws; simpl in *; by rewrite <- IH.
Qed.

Lemma split1_no_sep c s w : w ∈ split1 c s → c ∉ w.
Proof.
  revert w. induction s as [|x s IH]; cbn [split1]; intros w.
  - intros ->%list_elem_of_singleton. apply not_elem_of_nil.
  - destruct (N.eqb_spec x c) as [->|Hne].
    + intros [->|?]%elem_of_cons; [apply not_elem_of_nil|by apply IH].
    + destruct (split1 c s) as [|v vs] eqn:E; [by destruct (split1_nonempty c s)|].
      intros [->|?]%elem_of_cons; [|by apply IH, elem_of_cons; right].
      apply not_elem_of_cons. split; [done|]. apply IH, elem_of_cons. by left.
Qed.

Lemma split1_single c w : c ∉ w → split1 c w = [w].
Proof.
  induction w as [|x w IH]; [done|]. intros H. simpl.
  destruct (N.eqb_spec x c) as [->|Hne]; [set_solver|]. rewrite IH; set_solver.
Qed.

Lemma split1_app c w rest : c ∉ w → split1 c (w ++ c :: rest) = w :: split1 c rest.
Proof.
  induction w as [|x w IH]; intros H; simpl.
  - by rewrite N.eqb_refl.
  - destruct (N.eqb_spec x c) as [->|Hne]; [set_solver|]. rewrite IH; set_solver.
Qed.

Lemma split1_join c ws :
  ws ≠ [] → Forall (λ w, c ∉ w) ws → split1 c (join [c] ws) = ws.
Proof.
  induction ws as [|w ws IH]; [done|]. intros _ H. inversion H; subst.
  destruct ws as [|v vs]; [by apply split1_single|].
  rewrite join_cons by done. change ([c] ++ ?r) with (c :: r).
  rewrite split1_app by done. f_equal. by apply IH.
Qed.

(** *** [dedup] *)

Section dedup.
Context {A} `{EqDecision A}.
Implicit Types l seen : list A.

Lemma dedup_go_elem seen l x : x ∈ dedup_go seen l ↔ x ∈ l ∧ x ∉ seen.
Proof.
  revert seen. induction l as [|y l IH]; intros seen; simpl; [set_solver|].
  destruct (decide (y ∈ seen)); rewrite ?elem_of_cons, IH, ?not_elem_of_cons;
    destruct (decide (x = y)); naive_solver.
Qed.

Lemma dedup_go_NoDup seen l : NoDup (dedup_go seen l).
Proof.
  revert seen. induction l as [|y l IH]; intros seen; simpl; [constructor|].
  case_decide; [done|]. constructor; [rewrite dedup_go_elem; set_solver|done].
Qed.

Lemma dedup_elem l x : x ∈ dedup l ↔ x ∈ l.
Proof. unfold dedup. rewrite dedup_go_elem. set_solver. Qed.
Lemma dedup_NoDup l : NoDup (dedup l).
Proof. apply dedup_go_NoDup. Qed.

Lemma dedup_go_id seen l : NoDup l → (∀ x, x ∈ l → x ∉ seen) → dedup_go seen l = l.
Proof.
  revert seen. induction l as [|y l IH]; intros seen Hnd Hs; simpl; [done|].
  inversion Hnd; subst. rewrite decide_False by set_solver.
  f_equal. apply IH; set_solver.
Qed.
Lemma dedup_id l : NoDup l → dedup l = l.
Proof. intros. apply dedup_go_id; set_solver. Qed.
End dedup.

(** *** Decimal digits *)

Lemma digits_value_app s t :
  digits_value (s ++ t) = (digits_value s * 10 ^ N.of_nat (length t) + digits_value t)%N.
Proof.
  unfold digits_value. rewrite foldl_app.
  generalize (foldl (λ acc c : N, (acc * 10 + (c - 48))%N) 0%N s) as a.
  induction t as [|c t IH] using rev_ind; intros a; [simpl; lia|].
  rewrite !foldl_app. simpl. rewrite IH, length_app. simpl length.
  replace (N.of_nat (length t + 1)) with (N.succ (N.of_nat (length t))) by lia.
  rewrite N.pow_succ_r'. lia.
Qed.

Lemma digits_go_value fuel n acc :
  (n < 2 ^ N.of_nat fuel)%N →
  digits_value (digits_go fuel n acc) =
    (n * 10 ^ N.of_nat (length acc) + digits_value acc)%N.
Proof.
  revert n acc. induction fuel as [|f IH]; intros n acc Hn.
  - simpl in Hn. assert (n = 0%N) as -> by lia. simpl. lia.
  - cbn [digits_go]. destruct (N.ltb_spec n 10).
    + rewrite N.mod_small by done. change (?x :: acc) with ([x] ++ acc).
      rewrite digits_value_app. unfold digits_value at 1. simpl. lia.
    + rewrite IH.
      * cbn [length]. change (?x :: acc) with ([x] ++ acc). rewrite digits_value_app.
        unfold digits_value at 1. cbn [foldl].
        replace (N.of_nat (S (length acc))) with (N.succ (N.of_nat (length acc))) by lia.
        rewrite N.pow_succ_r'. rewrite (N.div_mod n 10) at 3 by lia.
        generalize (n mod 10)%N (n / 10)%N. intros r q. lia.
      * replace (N.of_nat (S f)) with (N.succ (N.of_nat f)) in Hn by lia.
        rewrite N.pow_succ_r' in Hn. apply N.Div0.div_lt_upper_bound. lia.
Qed.

Lemma digits_value_digits n : digits_value (digits n) = n.
Proof.
  unfold digits. rewrite digits_go_value.
  - simpl. unfold digits_value. simpl. lia.
  - destruct (N.eq_dec n 0%N) as [->|Hn]; [done|].
    replace (N.of_nat (S (N.to_nat (N.size n)))) with (N.succ (N.size n)) by lia.
    pose proof (N.size_gt n). rewrite N.pow_succ_r'. lia.
Qed.

Lemma digits_go_digits fuel n acc :
  Forall (λ c, is_digit c = true) acc → Forall (λ c, is_digit c = true) (digits_go fuel n acc).
Proof.
  revert n acc. induction fuel as [|f IH]; intros n acc H; [done|]. cbn [digits_go].
  assert (Forall (λ c, is_digit c = true) ((48 + n mod 10)%N :: acc)).
  { constructor; [|done]. unfold is_digit.
    assert (n mod 10 < 10)%N by (apply N.mod_upper_bound; lia).
    apply andb_true_iff. rewrite !N.leb_le. generalize dependent (n mod 10)%N. lia. }
  destruct (n <? 10)%N; auto.
Qed.

Lemma digits_digits n : Forall (λ c, is_digit c = true) (digits n).
Proof. by apply digits_go_digits. Qed.

Lemma digits_nonempty n : digits n ≠ [].
Proof.
  unfold digits. cbn [digits_go].
  assert (∀ f m acc, acc ≠ [] → digits_go f m acc ≠ []) as H.
  { induction f; intros; cbn [digits_go]; [done|]. destruct (m <? 10)%N; [done|]. by apply IHf. }
  destruct (n <? 10)%N; [done|]. by apply H.
Qed.

Lemma digit_not_ws c : is_digit c = true → is_ws c = false.
Proof.
  unfold is_digit, is_ws. intros [H1 H2]%andb_true_iff. apply N.leb_le in H1, H2.
  repeat (apply orb_false_iff; split);
    first [apply andb_false_iff; rewrite !N.leb_gt; lia | apply N.eqb_neq; lia].
Qed.

#[export] Hint Resolve jeqb_refl trim_idemp dedup_NoDup digits_digits digits_nonempty digit_not_ws : d2s.

(** ** Lemmas on lists *)

Lemma filter_absent {A} (P : A → Prop) `{!∀ x, Decision (P x)} (l : list A) :
  Forall (λ x, ¬ P x) l → filter P l = [].
Proof. induction 1 as [|x l Hx _ IH]; [done|]. by rewrite filter_cons, decide_False. Qed.

Lemma filter_everything {A} (P : A → Prop) `{!∀ x, Decision (P x)} (l : list A) :
  Forall P l → filter P l = l.
Proof. induction 1 as [|x l Hx _ IH]; [done|]. by rewrite filter_cons, decide_True, IH. Qed.


Lemma lookup_alter_cases {A} (f : A → A) i (l : list A) j y :
  alter f i l !! j = Some y → ∃ x, l !! j = Some x ∧ (y = x ∨ (i = j ∧ y = f x)).
Proof.
  destruct (decide (i = j)) as [->|Hne].
  - rewrite list_lookup_alter_eq. intros (x & Hx & ->)%fmap_Some. eauto.
  - rewrite list_lookup_alter_ne by done. eauto.
Qed.
