(* ===== verification/StableSort.v ===== *)
(** * Stable sorting

    [Array.prototype.sort] is stable: elements the comparator does not tell
    apart keep their order.  (The [merge_sort] of the library is not.)  The
    sort here inserts from the right, each element before the first one it is
    not greater than; for a total preorder its result is sorted and stable,
    which determines it. *)

From stdpp Require Import sorting.
From S2P Require Import Prelude.

Section sort.
Context {A : Type} (R : relation A) `{!RelDecision R}.

Fixpoint sorted_insert (x : A) (l : list A) : list A :=
  match l with
  | [] => [x]
  | y :: rest => if decide (R x y) then x :: l else y :: sorted_insert x rest
  end.

Fixpoint stable_sort (l : list A) : list A :=
  match l with [] => [] | x :: rest => sorted_insert x (stable_sort rest) end.

Lemma sorted_insert_perm x l : sorted_insert x l ≡ₚ x :: l.
Proof.
  induction l as [|y l IH]; cbn [sorted_insert]; [done|]. destruct (decide (R x y)); [done|].
  rewrite IH. apply Permutation_swap.
Qed.

Lemma stable_sort_perm l : stable_sort l ≡ₚ l.
Proof. induction l as [|x l IH]; cbn [stable_sort]; [done|]. by rewrite sorted_insert_perm, IH. Qed.

Lemma sorted_insert_HdRel x y l : R y x → HdRel R y l → HdRel R y (sorted_insert x l).
Proof. intros Hyx [|z l' Hz]; cbn [sorted_insert]; [by constructor|]. destruct (decide (R x z)); by constructor. Qed.

Section sorted.
Context `{!Total R}.

Lemma sorted_insert_sorted x l : Sorted R l → Sorted R (sorted_insert x l).
Proof.
  induction 1 as [|y l Hs IH Hr]; cbn [sorted_insert]; [by repeat constructor|].
  destruct (decide (R x y)) as [Hx|Hx]; [by repeat constructor|]. constructor; [done|].
  apply sorted_insert_HdRel; [|done]. by destruct (total R x y).
Qed.

Lemma Sorted_stable_sort l : Sorted R (stable_sort l).
Proof. induction l as [|x l IH]; cbn [stable_sort]; [constructor|]. by apply sorted_insert_sorted. Qed.

Lemma StronglySorted_stable_sort `{!Transitive R} l : StronglySorted R (stable_sort l).
Proof. apply Sorted_StronglySorted; [apply _|apply Sorted_stable_sort]. Qed.

(** Elements that compare equal keep their order. *)
Lemma stable_sort_stable `{!Transitive R} x l :
  filter (λ y, R x y ∧ R y x) (stable_sort l) = filter (λ y, R x y ∧ R y x) l.
Proof.
  induction l as [|z l IH]; cbn [stable_sort]; [done|]. rewrite filter_cons, <-IH. clear IH.
  induction (stable_sort l) as [|y k IHk]; cbn [sorted_insert]; [by rewrite filter_cons, filter_nil|].
  destruct (decide (R z y)) as [Hz|Hz].
  - by rewrite (filter_cons _ z).
  - rewrite !filter_cons. rewrite IHk.
    destruct (decide (R x y ∧ R y x)) as [[Hxy Hyx]|], (decide (R x z ∧ R z x)) as [[Hxz Hzx]|]; try done.
    destruct Hz. by transitivity x.
Qed.
End sorted.
End sort.

(** Sorting commutes with maps that keep the order. *)
Section sort_map.
Context {A B : Type} (f : A → B) (R : relation B) (R' : relation A) `{!RelDecision R, !RelDecision R'}
  (Hf : ∀ x y, R (f x) (f y) ↔ R' x y).

Lemma sorted_insert_map x l : sorted_insert R (f x) (map f l) = map f (sorted_insert R' x l).
Proof.
  induction l as [|y l IH]; [done|]. cbn [map sorted_insert]. rewrite IH.
  destruct (decide (R (f x) (f y))) as [H|H], (decide (R' x y)) as [H'|H']; try done; by rewrite Hf in H.
Qed.

Lemma stable_sort_map l : stable_sort R (map f l) = map f (stable_sort R' l).
Proof. induction l as [|x l IH]; [done|]. cbn [map stable_sort]. by rewrite IH, sorted_insert_map. Qed.
End sort_map.
