(* ===== verification/JsValue.v ===== *)
(** * JavaScript numbers and JSON values

    The parts of the language's own library that the modelled code uses:
    IEEE-754 binary64 numbers with [Number.isFinite], [Number.isInteger],
    comparison and [String(n)]; JSON values with property access in
    JavaScript's property order; [JSON.parse] and the string case of
    [JSON.stringify]; and [String(v)] on the values [JSON.parse] returns. *)

From S2P Require Import Prelude.
From Stdlib Require Export SpecFloat.

(** ** Numbers: binary64, as the formal floats of the standard library *)

Abbreviation jsnum := spec_float.

(** The double nearest to an integer. *)
Definition num_of_Z (z : Z) : jsnum := binary_normalize 53 1024 z 0 false.

Definition num_ltb (a b : jsnum) : bool := SFltb a b.
Definition num_leb (a b : jsnum) : bool := SFleb a b.
Definition num_eqb (a b : jsnum) : bool := SFeqb a b.

(** [Number.isFinite] *)
Definition isFinite (n : jsnum) : bool :=
  match n with S754_zero _ | S754_finite _ _ _ => true | _ => false end.

(** [Number.isInteger] *)
Definition isInteger (n : jsnum) : bool :=
  match n with
  | S754_zero _ => true
  | S754_finite _ m e => (0 <=? e) || (Zpos m mod 2 ^ (- e) =? 0)
  | _ => false
  end.

(** Truthiness of a number: everything but the zeros and NaN. *)
Definition num_truthy (n : jsnum) : bool :=
  match n with S754_zero _ | S754_nan => false | _ => true end.

(** [a + b], [a * b], [a / b] *)
Definition num_add (a b : jsnum) : jsnum := SFadd 53 1024 a b.
Definition num_mul (a b : jsnum) : jsnum := SFmul 53 1024 a b.
Definition num_div (a b : jsnum) : jsnum := SFdiv 53 1024 a b.

(** The double nearest to [± m * 10^e]: one rounding of the exact value.  The
    guards cut off exponents whose result is an infinity or a zero. *)
Definition num_of_dec (neg : bool) (m : N) (e : Z) : jsnum :=
  match m with
  | N0 => S754_zero neg
  | Npos p =>
      if 400 <? e then S754_infinity neg
      else if Z.of_nat (length (digits m)) + e <? -400 then S754_zero neg
      else if 0 <=? e then
        binary_normalize 53 1024 ((if neg then -1 else 1) * (Zpos p * 10 ^ e)) 0 neg
      else SFdiv 53 1024 (S754_finite neg p 0)
             (S754_finite false (Z.to_pos (10 ^ (- e))) 0)
  end.

(** *** [String(n)]: the shortest decimal that reads back as the same double *)

(** Exact comparison of [m * 2^e] with [10^k]. *)
Definition pow10_leb (k m e : Z) : bool :=
  m * 2 ^ Z.max e 0 * 10 ^ Z.max (- k) 0 >=? 10 ^ Z.max k 0 * 2 ^ Z.max (- e) 0.

(** Least [n >= start] with [m * 2^e < 10^n]. *)
Fixpoint dec_exponent (fuel : nat) (n m e : Z) : Z :=
  match fuel with
  | O => n
  | S f => if pow10_leb n m e then dec_exponent f (n + 1) m e else n
  end.

(** The [k]-digit decimals around [m * 2^e] that read back as it: the closest
    one, as a significand. *)
Definition shortest_at (m : positive) (e n k : Z) : option Z :=
  let num := Zpos m * 2 ^ Z.max e 0 * 10 ^ Z.max (k - n) 0 in
  let den := 2 ^ Z.max (- e) 0 * 10 ^ Z.max (n - k) 0 in
  let lo := num / den in
  let ok s := num_eqb (num_of_dec false (Z.to_N s) (n - k)) (S754_finite false m e) in
  match ok lo, ok (lo + 1) with
  | true, true => Some (if 2 * (num - lo * den) <? den then lo else lo + 1)
  | true, false => Some lo
  | false, true => Some (lo + 1)
  | false, false => None
  end.

Fixpoint shortest (fuel : nat) (m : positive) (e n k : Z) : Z * Z :=
  match fuel with
  | O => (0, k)
  | S f => match shortest_at m e n k with
           | Some s => (s, k)
           | None => shortest f m e n (k + 1)
           end
  end.

Definition zeros (n : Z) : jstr := replicate (Z.to_nat n) 48%N.

(** A lower bound of the decimal exponent of [m * 2^e], at most four too small:
    30103 / 100000 is just above the decimal logarithm of 2. *)
Definition dec_estimate (m : positive) (e : Z) : Z :=
  (Z.log2 (Zpos m) + e) * 30103 / 100000 - 1.

(** [Number::toString] on a positive finite double. *)
Definition pos_to_string (m : positive) (e : Z) : jstr :=
  let n0 := dec_exponent 8 (dec_estimate m e) (Zpos m) e in
  let '(s0, k0) := shortest 18 m e n0 1 in
  let '(s, n) := if s0 =? 10 ^ k0 then (10 ^ (k0 - 1), n0 + 1) else (s0, n0) in
  let ds := digits (Z.to_N s) in
  let k := Z.of_nat (length ds) in
  if (k <=? n) && (n <=? 21) then ds ++ zeros (n - k)
  else if (0 <? n) && (n <=? 21) then
    take (Z.to_nat n) ds ++ js "." ++ drop (Z.to_nat n) ds
  else if (-6 <? n) && (n <=? 0) then js "0." ++ zeros (- n) ++ ds
  else
    let ex := (if n - 1 <? 0 then js "-" else js "+") ++ digits (Z.to_N (Z.abs (n - 1))) in
    if k =? 1 then ds ++ js "e" ++ ex
    else take 1 ds ++ js "." ++ drop 1 ds ++ js "e" ++ ex.

(** [String(n)] *)
Definition num_to_string (n : jsnum) : jstr :=
  match n with
  | S754_nan => js "NaN"
  | S754_zero _ => js "0"
  | S754_infinity neg => (if neg then js "-" else []) ++ js "Infinity"
  | S754_finite neg m e => (if neg then js "-" else []) ++ pos_to_string m e
  end.

Example num_to_string_1 : num_to_string (num_of_Z 524) = js "524".
Proof. vm_compute. reflexivity. Qed.
Example num_to_string_2 : num_to_string (num_of_dec false 15 (-2)) = js "0.15".
Proof. vm_compute. reflexivity. Qed.
Example num_to_string_3 : num_to_string (num_of_dec true 1 (-7)) = js "-1e-7".
Proof. vm_compute. reflexivity. Qed.
Example num_to_string_4 : num_to_string (num_of_dec false 123456 20) = js "1.23456e+25".
Proof. vm_compute. reflexivity. Qed.

Example num_to_string_5 :
  num_to_string <$> [num_of_Z 1; num_of_Z 999; num_of_dec false 5 (-324); num_of_dec false 17976931348623157 292;
    num_of_dec false 1 21; num_of_dec false 1 23; num_of_dec false 1 (-6); num_of_dec false 999999999999999 (-15)]
  = [js "1"; js "999"; js "5e-324"; js "1.7976931348623157e+308";
     js "1e+21"; js "1e+23"; js "0.000001"; js "0.999999999999999"].
Proof. vm_compute. reflexivity. Qed.

(** ** JSON values *)

Inductive json :=
| JNull
| JBool (b : bool)
| JNum (n : jsnum)
| JStr (s : jstr)
| JArr (items : list json)
| JObj (fields : list (jstr * json)).

(** An own property of an object value; [None] is [undefined]. *)
Fixpoint field_get {A} (k : jstr) (fields : list (jstr * A)) : option A :=
  match fields with
  | [] => None
  | (k', v) :: rest => if k' === k then Some v else field_get k rest
  end.

(** [v.k] for a name [k] that no prototype defines. *)
Definition jget (k : jstr) (v : json) : option json :=
  match v with JObj fields => field_get k fields | _ => None end.
(** [v?.k] *)
Definition jget_opt (k : jstr) (v : option json) : option json := v ≫= jget k.

(** [Boolean(v)] *)
Definition json_truthy (v : json) : bool :=
  match v with
  | JNull => false
  | JBool b => b
  | JNum n => num_truthy n
  | JStr s => truthy s
  | JArr _ | JObj _ => true
  end.

(** [typeof v === 'object'], which holds of [null] and of arrays too. *)
Definition typeof_object (v : json) : bool :=
  match v with JNull | JArr _ | JObj _ => true | _ => false end.
Definition isArray (v : json) : bool := match v with JArr _ => true | _ => false end.

(** *** Property order

    Keys that are array indices come first, in ascending order; the others
    follow in order of insertion; assigning to an existing key keeps its
    place. *)
Definition array_index (k : jstr) : option N :=
  if forallb is_digit k && truthy k
     && (negb (bool_decide (head k = Some 48%N)) || bool_decide (length k = 1%nat))
     && (digits_value k <? 4294967295)%N
  then Some (digits_value k) else None.

Fixpoint obj_set {A} (k : jstr) (v : A) (fields : list (jstr * A)) : list (jstr * A) :=
  match fields with
  | [] => [(k, v)]
  | (k', v') :: rest =>
      if k' === k then (k, v) :: rest
      else match array_index k, array_index k' with
           | Some i, Some i' => if (i <? i')%N then (k, v) :: fields
                                else (k', v') :: obj_set k v rest
           | Some _, None => (k, v) :: fields
           | None, _ => (k', v') :: obj_set k v rest
           end
  end.

(** [Object.fromEntries]: later entries win, and keep the place of the first. *)
Definition fromEntries {A} (entries : list (jstr * A)) : list (jstr * A) :=
  foldl (λ acc '(k, v), obj_set k v acc) [] entries.

(** [Object.keys], [Object.values], [Object.entries] of a parsed object. *)
Definition obj_keys (fields : list (jstr * json)) : list jstr := fields.*1.
Definition obj_values (fields : list (jstr * json)) : list json := fields.*2.

(** *** [JSON.parse] *)

Definition json_ws (c : N) : bool := ((c =? 32) || (c =? 9) || (c =? 10) || (c =? 13))%N.
Fixpoint skip_ws (s : jstr) : jstr :=
  match s with c :: r => if json_ws c then skip_ws r else s | [] => [] end.

Definition hex_value (c : N) : option N :=
  if ((48 <=? c) && (c <=? 57))%N then Some (c - 48)%N
  else if ((97 <=? c) && (c <=? 102))%N then Some (c - 87)%N
  else if ((65 <=? c) && (c <=? 70))%N then Some (c - 55)%N
  else None.

Definition hex4 (a b c d : N) : option N :=
  a' ← hex_value a; b' ← hex_value b; c' ← hex_value c; d' ← hex_value d;
  Some (((a' * 16 + b') * 16 + c') * 16 + d')%N.

(** The character after a backslash, other than [u]. *)
Definition unescape (c : N) : option N :=
  if (c =? 34)%N then Some 34%N else if (c =? 92)%N then Some 92%N
  else if (c =? 47)%N then Some 47%N else if (c =? 98)%N then Some 8%N
  else if (c =? 102)%N then Some 12%N else if (c =? 110)%N then Some 10%N
  else if (c =? 114)%N then Some 13%N else if (c =? 116)%N then Some 9%N else None.

(** Characters up to the closing quote, and the rest of the input. *)
Fixpoint parse_chars (s : jstr) : option (jstr * jstr) :=
  match s with
  | [] => None
  | 34%N :: r => Some ([], r)
  | 92%N :: 117%N :: a :: b :: c :: d :: r =>
      x ← hex4 a b c d; '(t, r') ← parse_chars r; Some (x :: t, r')
  | 92%N :: e :: r =>
      x ← unescape e; '(t, r') ← parse_chars r; Some (x :: t, r')
  | c :: r =>
      if ((c <? 32) || (c =? 92))%N then None
      else '(t, r') ← parse_chars r; Some (c :: t, r')
  end.

(** The longest run of digits. *)
Fixpoint span_digits (s : jstr) : jstr * jstr :=
  match s with
  | c :: r => if is_digit c then let '(d, r') := span_digits r in (c :: d, r') else ([], s)
  | [] => ([], [])
  end.

Definition parse_exponent (s : jstr) : option (Z * jstr) :=
  match s with
  | c :: r =>
      if ((c =? 101) || (c =? 69))%N then
        let '(sg, r1) := match r with
                         | 43%N :: r' => (1, r') | 45%N :: r' => (-1, r') | _ => (1, r)
                         end in
        let '(ds, r2) := span_digits r1 in
        if truthy ds then Some (sg * Z.of_N (digits_value ds), r2) else None
      else Some (0, s)
  | [] => Some (0, s)
  end.

Definition parse_number (s : jstr) : option (jsnum * jstr) :=
  let '(neg, s1) := match s with 45%N :: r => (true, r) | _ => (false, s) end in
  let '(ip, s2) := span_digits s1 in
  if negb (truthy ip) || (bool_decide (head ip = Some 48%N) && (1 <? Z.of_nat (length ip)))
  then None
  else
    '(fp, s3) ← match s2 with
                | 46%N :: r => let '(d, r') := span_digits r in
                               if truthy d then Some (d, r') else None
                | _ => Some ([], s2)
                end;
    '(ex, s4) ← parse_exponent s3;
    Some (num_of_dec neg (digits_value (ip ++ fp)) (ex - Z.of_nat (length fp)), s4).

(** *** [Number(s)]: [StringToNumber] *)

Definition radix_value (radix : N) (s : jstr) : option N :=
  foldl (λ acc c, v ← acc; d ← hex_value c; if (d <? radix)%N then Some (v * radix + d)%N else None)
    (Some 0%N) s.

(** A decimal literal without sign that takes up the whole string. *)
Definition decimal (neg : bool) (s : jstr) : option jsnum :=
  let '(ip, s1) := span_digits s in
  let '(fp, s2) := match s1 with 46%N :: r => span_digits r | _ => ([], s1) end in
  if negb (truthy ip) && negb (truthy fp) then None
  else '(ex, s3) ← parse_exponent s2;
       if truthy s3 then None
       else Some (num_of_dec neg (digits_value (ip ++ fp)) (ex - Z.of_nat (length fp))).

Definition signed_decimal (neg : bool) (s : jstr) : option jsnum :=
  if s === js "Infinity" then Some (S754_infinity neg) else decimal neg s.

Definition Number (s : jstr) : jsnum :=
  let t := trim s in
  default S754_nan
    match t with
    | [] => Some (S754_zero false)
    | 48%N :: x :: r =>
        if ((x =? 120) || (x =? 88))%N
        then (if truthy r then num_of_Z ∘ Z.of_N <$> radix_value 16 r else None)
        else if ((x =? 111) || (x =? 79))%N
        then (if truthy r then num_of_Z ∘ Z.of_N <$> radix_value 8 r else None)
        else if ((x =? 98) || (x =? 66))%N
        then (if truthy r then num_of_Z ∘ Z.of_N <$> radix_value 2 r else None)
        else decimal false t
    | 43%N :: r => signed_decimal false r
    | 45%N :: r => signed_decimal true r
    | _ => signed_decimal false t
    end.

Definition parse_lit (lit : string) (v : json) (s : jstr) : option (json * jstr) :=
  if startsWith s (js lit) then Some (v, drop (length (js lit)) s) else None.

Fixpoint parse_value (fuel : nat) (s : jstr) : option (json * jstr) :=
  match fuel with
  | O => None
  | S f =>
      match skip_ws s with
      | [] => None
      | c :: r =>
          if (c =? 34)%N then '(t, r') ← parse_chars r; Some (JStr t, r')
          else if (c =? 91)%N then
            match skip_ws r with
            | 93%N :: r' => Some (JArr [], r')
            | _ => '(l, r') ← parse_items f r; Some (JArr l, r')
            end
          else if (c =? 123)%N then
            match skip_ws r with
            | 125%N :: r' => Some (JObj [], r')
            | _ => '(l, r') ← parse_members f [] r; Some (JObj l, r')
            end
          else if (c =? 116)%N then parse_lit "true" (JBool true) (c :: r)
          else if (c =? 102)%N then parse_lit "false" (JBool false) (c :: r)
          else if (c =? 110)%N then parse_lit "null" JNull (c :: r)
          else '(n, r') ← parse_number (c :: r); Some (JNum n, r')
      end
  end
with parse_items (fuel : nat) (s : jstr) : option (list json * jstr) :=
  match fuel with
  | O => None
  | S f =>
      '(v, r) ← parse_value f s;
      match skip_ws r with
      | 44%N :: r' => '(l, r'') ← parse_items f r'; Some (v :: l, r'')
      | 93%N :: r' => Some ([v], r')
      | _ => None
      end
  end
with parse_members (fuel : nat) (acc : list (jstr * json)) (s : jstr)
    : option (list (jstr * json) * jstr) :=
  match fuel with
  | O => None
  | S f =>
      match skip_ws s with
      | 34%N :: r =>
          '(k, r1) ← parse_chars r;
          match skip_ws r1 with
          | 58%N :: r2 =>
              '(v, r3) ← parse_value f r2;
              match skip_ws r3 with
              | 44%N :: r4 => parse_members f (obj_set k v acc) r4
              | 125%N :: r4 => Some (obj_set k v acc, r4)
              | _ => None
              end
          | _ => None
          end
      | _ => None
      end
  end.

(** [JSON.parse(s)]; [None] is a thrown [SyntaxError].  Every call consumes at
    least one code unit or is made once per consumed code unit, so twice the
    length of the input is enough fuel. *)
Definition JSON_parse (s : jstr) : option json :=
  '(v, r) ← parse_value (2 * length s + 2) s;
  if truthy (skip_ws r) then None else Some v.

(** *** [JSON.stringify] on strings *)

Definition hex_digit (n : N) : N := if (n <? 10)%N then (48 + n)%N else (87 + n)%N.
Definition hex_escape (c : N) : jstr :=
  js "\u" ++ [hex_digit (c / 4096); hex_digit (c / 256 mod 16);
              hex_digit (c / 16 mod 16); hex_digit (c mod 16)]%N.

Definition is_high (c : N) : bool := ((55296 <=? c) && (c <=? 56319))%N.
Definition is_low (c : N) : bool := ((56320 <=? c) && (c <=? 57343))%N.

Definition quote_unit (c : N) : jstr :=
  if (c =? 34)%N then js "\" ++ [34%N] else if (c =? 92)%N then js "\\"
  else if (c =? 8)%N then js "\b" else if (c =? 9)%N then js "\t"
  else if (c =? 10)%N then js "\n" else if (c =? 12)%N then js "\f"
  else if (c =? 13)%N then js "\r"
  else if (c <? 32)%N then hex_escape c else [c].

(** A surrogate that is not half of a pair is escaped. *)
Fixpoint quote_go (s : jstr) : jstr :=
  match s with
  | [] => []
  | c :: r =>
      match r with
      | d :: r' =>
          if is_high c && is_low d then c :: d :: quote_go r'
          else if is_high c || is_low c then hex_escape c ++ quote_go r
          else quote_unit c ++ quote_go r
      | [] => if is_high c || is_low c then hex_escape c else quote_unit c
      end
  end.
Definition quote (s : jstr) : jstr := [34%N] ++ quote_go s ++ [34%N].

(** [String(v)] on the result of [JSON.parse]. *)
Fixpoint json_to_string (v : json) : jstr :=
  match v with
  | JNull => js "null"
  | JBool true => js "true"
  | JBool false => js "false"
  | JNum n => num_to_string n
  | JStr s => s
  | JArr l => join (js ",") (map (λ x, match x with JNull => [] | _ => json_to_string x end) l)
  | JObj _ => js "[object Object]"
  end.

(** [JSON.stringify(v)] without indentation. *)
Fixpoint JSON_stringify (v : json) : jstr :=
  match v with
  | JNull => js "null"
  | JBool true => js "true"
  | JBool false => js "false"
  | JNum n => if isFinite n then num_to_string n else js "null"
  | JStr s => quote s
  | JArr l => js "[" ++ join (js ",") (map JSON_stringify l) ++ js "]"
  | JObj fs =>
      js "{" ++ join (js ",") (map (λ '(k, x), quote k ++ js ":" ++ JSON_stringify x) fs) ++ js "}"
  end.

(** ASCII text in which ['] stands for the double quote, for JSON examples. *)
Definition jq (s : string) : jstr := map (λ c, if (c =? 39)%N then 34%N else c) (js s).

Example JSON_parse_ex :
  JSON_parse (jq " {'b':[1, 2.5e1,null], '10':'x\u0041', '2':{}, 'b':true} ")
  = Some (JObj [(js "2", JObj []); (js "10", JStr (js "xA")); (js "b", JBool true)]).
Proof. vm_compute. reflexivity. Qed.
Example Number_ex :
  Number <$> [js " 12.50 "; js "-.5"; js "1e3"; js "0x1F"; js "1.2.3"; js ""]
  = [num_of_dec false 125 (-1); num_of_dec true 5 (-1); num_of_Z 1000; num_of_Z 31; S754_nan;
     S754_zero false].
Proof. vm_compute. reflexivity. Qed.
Example JSON_parse_bad : JSON_parse (jq "{'a':01}") = None.
Proof. vm_compute. reflexivity. Qed.
Example JSON_stringify_ex :
  JSON_stringify (JObj [(js "a", JArr [JNum (num_of_Z 3); JStr (js "x")])]) = jq "{'a':[3,'x']}".
Proof. vm_compute. reflexivity. Qed.

(** ** Lemmas *)

Lemma field_get_obj_set {A} k (v : A) fs k' :
  field_get k' (obj_set k v fs) = if k === k' then Some v else field_get k' fs.
Proof.
  unfold jeqb. induction fs as [|[k1 v1] fs IH]; simpl; unfold jeqb.
  - by repeat case_bool_decide.
  - destruct (bool_decide_reflect (k1 = k)) as [->|E]; simpl; unfold jeqb.
    { by case_bool_decide. }
    destruct (array_index k), (array_index k1); try destruct (_ <? _)%N;
      simpl; unfold jeqb; rewrite ?IH;
      repeat case_bool_decide; subst; done.
Qed.

Lemma field_get_elem {A} k fs (v : A) : field_get k fs = Some v → (k, v) ∈ fs.
Proof.
  induction fs as [|[k1 v1] fs IH]; simpl; [done|]. unfold jeqb.
  case_bool_decide; intros; simplify_eq; set_solver.
Qed.

Lemma obj_set_keys {A} k (v : A) fs k' : k' ∈ (obj_set k v fs).*1 ↔ k' = k ∨ k' ∈ fs.*1.
Proof.
  induction fs as [|[k1 v1] fs IH]; cbn [obj_set].
  - set_solver.
  - unfold jeqb. case_bool_decide; [set_solver|].
    destruct (array_index k), (array_index k1); try destruct (_ <? _)%N; set_solver.
Qed.

