(* ===== verification/NumFacts.v ===== *)
(** * Integer arithmetic of JavaScript numbers

    Doubles add and compare the integers up to 2^53 exactly.  The proofs follow
    the rounding of the formal floats: an integer has one normalized significand
    of 53 bits, and rounding a value that has one returns it. *)

From S2P Require Import Prelude JsValue.

(** ** Digits and shifts *)

Lemma digits2_log2 p : Zpos (digits2_pos p) = Z.log2 (Zpos p) + 1.
Proof.
  assert (digits2_pos p = Pos.size p) as ->.
  { induction p as [p IH|p IH|]; simpl; congruence. }
  destruct p; simpl; lia.
Qed.

Lemma digits2_shift m k : Zpos (digits2_pos (Pos.iter xO m k)) = Zpos (digits2_pos m) + Zpos k.
Proof.
  induction k as [|k IH] using Pos.peano_ind; [simpl; lia|].
  rewrite Pos.iter_succ. cbn [digits2_pos]. lia.
Qed.

Lemma shift_value m k : Zpos (Pos.iter xO m k) = Zpos m * 2 ^ Zpos k.
Proof.
  induction k as [|k IH] using Pos.peano_ind; [simpl; lia|].
  rewrite Pos.iter_succ, Pos2Z.inj_succ, Z.pow_succ_r by lia. lia.
Qed.

Lemma iter_pos_iter {A} (f : A → A) n x : iter_pos f n x = Pos.iter f x n.
Proof.
  revert x. induction n as [n IH|n IH|]; intros x; simpl; [|by rewrite !IH|done].
  by rewrite !IH, <-!Pos.iter_swap.
Qed.

(** Shifting a shifted number back loses nothing. *)
Lemma shr_shift m k :
  iter_pos shr_1 k (Build_shr_record (Zpos (Pos.iter xO m k)) false false)
  = Build_shr_record (Zpos m) false false.
Proof.
  rewrite iter_pos_iter. induction k as [|k IH] using Pos.peano_ind; [done|].
  rewrite Pos.iter_succ_r, (Pos.iter_succ _ _ xO). cbn [shr_1 orb]. done.
Qed.

(** ** Rounding an exact value *)

(** The exponents of the normalized integers. *)
Definition small (E : Z) : Prop := -52 ≤ E ≤ 1.

Lemma fexp_normal M E : Zpos (digits2_pos M) = 53 → small E → fexp 53 1024 (Zpos (digits2_pos M) + E) = E.
Proof. intros HM HE. unfold small in HE. unfold fexp, emin. lia. Qed.

Lemma round_normal s M E :
  Zpos (digits2_pos M) = 53 → small E →
  binary_round_aux 53 1024 s (Zpos M) E loc_Exact = S754_finite s M E.
Proof.
  intros HM HE. unfold binary_round_aux, shr_fexp. cbn [Zdigits2 shr_record_of_loc].
  rewrite fexp_normal, Z.sub_diag by done. cbn [shr shr_m loc_of_shr_record round_nearest_even Zdigits2].
  rewrite fexp_normal, Z.sub_diag by done. cbn [shr shr_m].
  unfold small in HE. by rewrite (proj2 (Z.leb_le E (1024 - 53))) by lia.
Qed.

Lemma round_down s M E k :
  Zpos (digits2_pos M) = 53 → small E →
  binary_round 53 1024 s (Pos.iter xO M k) (E - Zpos k) = S754_finite s M E.
Proof.
  intros HM HE. unfold binary_round. rewrite digits2_shift.
  replace (Zpos (digits2_pos M) + Zpos k + (E - Zpos k)) with (Zpos (digits2_pos M) + E) by lia.
  rewrite fexp_normal by done. unfold shl_align. replace (E - (E - Zpos k)) with (Zpos k) by lia.
  unfold binary_round_aux, shr_fexp at 1. cbn [Zdigits2 shr_record_of_loc]. rewrite digits2_shift.
  replace (Zpos (digits2_pos M) + Zpos k + (E - Zpos k)) with (Zpos (digits2_pos M) + E) by lia.
  rewrite fexp_normal by done. replace (E - (E - Zpos k)) with (Zpos k) by lia. cbn [shr].
  rewrite shr_shift. replace (E - Zpos k + Zpos k) with E by lia.
  cbn [shr_m loc_of_shr_record round_nearest_even]. unfold shr_fexp. cbn [Zdigits2 shr_record_of_loc].
  rewrite fexp_normal, Z.sub_diag by done. cbn [shr shr_m].
  unfold small in HE. by rewrite (proj2 (Z.leb_le E (1024 - 53))) by lia.
Qed.

Lemma round_up s m E k :
  Zpos (digits2_pos (Pos.iter xO m k)) = 53 → small E →
  binary_round 53 1024 s m (E + Zpos k) = S754_finite s (Pos.iter xO m k) E.
Proof.
  intros HM HE. unfold binary_round. pose proof (digits2_shift m k) as Hd.
  assert (fexp 53 1024 (Zpos (digits2_pos m) + (E + Zpos k)) = E) as ->.
  { unfold small in HE. unfold fexp, emin. lia. }
  unfold shl_align. replace (E - (E + Zpos k)) with (Zneg k) by lia. by apply round_normal.
Qed.

(** Rounding [m * 2^e] when it equals the normalized [M * 2^E]. *)
Lemma round_exact s m e M E :
  Zpos (digits2_pos M) = 53 → small E → small e →
  Zpos m * 2 ^ (e + 52) = Zpos M * 2 ^ (E + 52) →
  binary_round 53 1024 s m e = S754_finite s M E.
Proof.
  unfold small. intros HM HE He Heq. destruct (Z.compare_spec e E) as [->|Hlt|Hgt].
  - apply Z.mul_cancel_r in Heq; [|apply Z.pow_nonzero; lia]. injection Heq as ->. unfold binary_round.
    rewrite fexp_normal by done. unfold shl_align. rewrite Z.sub_diag. by apply round_normal.
  - assert (m = Pos.iter xO M (Z.to_pos (E - e))) as ->.
    { apply Pos2Z.inj. rewrite shift_value, Z2Pos.id by lia.
      replace (E + 52) with ((E - e) + (e + 52)) in Heq by lia. rewrite (Z.pow_add_r 2 (E - e) (e + 52)), Z.mul_assoc in Heq by lia.
      apply Z.mul_cancel_r in Heq; [done|apply Z.pow_nonzero; lia]. }
    replace e with (E - Zpos (Z.to_pos (E - e))) at 2 by (rewrite Z2Pos.id; lia). by apply round_down.
  - assert (M = Pos.iter xO m (Z.to_pos (e - E))) as ->.
    { apply Pos2Z.inj. rewrite shift_value, Z2Pos.id by lia.
      replace (e + 52) with ((e - E) + (E + 52)) in Heq by lia. rewrite (Z.pow_add_r 2 (e - E) (E + 52)), Z.mul_assoc in Heq by lia.
      apply Z.mul_cancel_r in Heq; [done|apply Z.pow_nonzero; lia]. }
    replace e with (E + Zpos (Z.to_pos (e - E))) at 1 by (rewrite Z2Pos.id; lia). by apply round_up.
Qed.

(** ** Integers *)

(** The normalized form of an integer between 1 and 2^53. *)
Lemma normal_form z :
  1 ≤ z ≤ 2 ^ 53 →
  ∃ M E, Zpos (digits2_pos M) = 53 ∧ small E ∧ z * 2 ^ 52 = Zpos M * 2 ^ (E + 52).
Proof.
  intros Hz. destruct (decide (z = 2 ^ 53)) as [->|Hne].
  { exists 4503599627370496%positive, 1. unfold small. split_and!; [done|lia|lia|done]. }
  set (d := Z.log2 z + 1). assert (1 ≤ d ≤ 53) as Hd.
  { unfold d. pose proof (Z.log2_nonneg z). assert (Z.log2 z < 53); [|lia].
    apply Z.log2_lt_pow2; lia. }
  assert (0 < 2 ^ (53 - d)) as Hpow by (apply Z.pow_pos_nonneg; lia).
  exists (Z.to_pos (z * 2 ^ (53 - d))), (d - 53). unfold small. split_and!; [|lia|lia|].
  - rewrite digits2_log2, Z2Pos.id, Z.log2_mul_pow2 by lia. unfold d. lia.
  - rewrite Z2Pos.id by lia. rewrite <-Z.mul_assoc, <-Z.pow_add_r by lia. f_equal. f_equal. lia.
Qed.

(** What [num_of_Z] is on such an integer. *)
Lemma num_of_Z_normal z M E :
  1 ≤ z → Zpos (digits2_pos M) = 53 → small E → z * 2 ^ 52 = Zpos M * 2 ^ (E + 52) →
  num_of_Z z = S754_finite false M E.
Proof.
  intros Hz HM HE Heq. unfold num_of_Z. destruct z as [|p|]; [lia| |lia].
  cbn [binary_normalize]. apply round_exact; [done|done|unfold small; lia|]. done.
Qed.

Lemma align_value m e e' :
  e' ≤ e → Zpos (shl_align m e e').1 = Zpos m * 2 ^ (e - e').
Proof.
  intros He. unfold shl_align. destruct (e' - e) as [|p|p] eqn:E; [|lia|].
  - replace (e - e') with 0 by lia. rewrite Z.pow_0_r. simpl. lia.
  - cbn [fst]. rewrite shift_value. do 2 f_equal. lia.
Qed.

Lemma num_add_exact a b :
  0 ≤ a → 0 ≤ b → a + b ≤ 2 ^ 53 → num_add (num_of_Z a) (num_of_Z b) = num_of_Z (a + b).
Proof.
  intros Ha Hb Hab. destruct (decide (a = 0)) as [->|Ha0].
  { rewrite Z.add_0_l. destruct (decide (b = 0)) as [->|Hb0]; [done|].
    destruct (normal_form b) as (M & E & HM & HE & Heq); [lia|].
    by rewrite (num_of_Z_normal b M E) by (done || lia). }
  destruct (normal_form a) as (M1 & E1 & HM1 & HE1 & Heq1); [lia|].
  destruct (decide (b = 0)) as [->|Hb0].
  { rewrite Z.add_0_r. by rewrite (num_of_Z_normal a M1 E1) by (done || lia). }
  destruct (normal_form b) as (M2 & E2 & HM2 & HE2 & Heq2); [lia|].
  destruct (normal_form (a + b)) as (M & E & HM & HE & Heq); [lia|].
  rewrite (num_of_Z_normal a M1 E1), (num_of_Z_normal b M2 E2), (num_of_Z_normal (a + b) M E) by (done || lia).
  unfold num_add, SFadd. cbn [cond_Zopp]. unfold small in *.
  set (ez := Z.min E1 E2).
  destruct (Zpos (shl_align M1 E1 ez).1 + Zpos (shl_align M2 E2 ez).1) as [|p|p] eqn:Hs; [lia| |lia].
  cbn [binary_normalize]. apply round_exact; [done|unfold small; lia..|].
  rewrite <-Hs, !align_value, Z.mul_add_distr_r, <-!Z.mul_assoc, <-!Z.pow_add_r by lia.
  replace (E1 - ez + (ez + 52)) with (E1 + 52) by lia. replace (E2 - ez + (ez + 52)) with (E2 + 52) by lia. lia.
Qed.

Lemma pos_compare_Z p q : Pos.compare_cont Eq p q = (Zpos p ?= Zpos q).
Proof. done. Qed.

Lemma num_compare_exact a b :
  0 ≤ a ≤ 2 ^ 53 → 0 ≤ b ≤ 2 ^ 53 → SFcompare (num_of_Z a) (num_of_Z b) = Some (a ?= b).
Proof.
  intros Ha Hb. destruct (decide (a = 0)) as [->|Ha0], (decide (b = 0)) as [->|Hb0]; [done|..].
  - destruct (normal_form b) as (M & E & HM & HE & Heq); [lia|].
    rewrite (num_of_Z_normal b M E) by (done || lia). by rewrite (proj2 (Z.compare_lt_iff 0 b)) by lia.
  - destruct (normal_form a) as (M & E & HM & HE & Heq); [lia|].
    rewrite (num_of_Z_normal a M E) by (done || lia). by rewrite (proj2 (Z.compare_gt_iff a 0)) by lia.
  - destruct (normal_form a) as (M1 & E1 & HM1 & HE1 & Heq1); [lia|].
    destruct (normal_form b) as (M2 & E2 & HM2 & HE2 & Heq2); [lia|].
    rewrite (num_of_Z_normal a M1 E1), (num_of_Z_normal b M2 E2) by (done || lia).
    cbn [SFcompare]. f_equal. rewrite pos_compare_Z. unfold small in *.
    rewrite digits2_log2 in HM1, HM2.
    pose proof (Z.log2_spec (Zpos M1) ltac:(lia)) as HL1. pose proof (Z.log2_spec (Zpos M2) ltac:(lia)) as HL2.
    replace (Z.log2 (Zpos M1)) with 52 in HL1 by lia. replace (Z.log2 (Zpos M2)) with 52 in HL2 by lia.
    destruct (Z.compare_spec E1 E2) as [->|Hlt|Hgt].
    + assert (0 < 2 ^ (E2 + 52)) by (apply Z.pow_pos_nonneg; lia).
      destruct (Z.compare_spec (Zpos M1) (Zpos M2)) as [Hm|Hm|Hm]; symmetry;
        [apply Z.compare_eq_iff|apply Z.compare_lt_iff|apply Z.compare_gt_iff]; nia.
    + symmetry. apply Z.compare_lt_iff.
      assert (0 < 2 ^ (E1 + 52)) by (apply Z.pow_pos_nonneg; lia).
      assert (2 ^ (E1 + 52 + 1) ≤ 2 ^ (E2 + 52)) by (apply Z.pow_le_mono_r; lia).
      rewrite Z.pow_add_r in * by lia. nia.
    + symmetry. apply Z.compare_gt_iff.
      assert (0 < 2 ^ (E2 + 52)) by (apply Z.pow_pos_nonneg; lia).
      assert (2 ^ (E2 + 52 + 1) ≤ 2 ^ (E1 + 52)) by (apply Z.pow_le_mono_r; lia).
      rewrite Z.pow_add_r in * by lia. nia.
Qed.

Lemma num_ltb_exact a b : 0 ≤ a ≤ 2 ^ 53 → 0 ≤ b ≤ 2 ^ 53 → num_ltb (num_of_Z a) (num_of_Z b) = (a <? b).
Proof. intros Ha Hb. unfold num_ltb, SFltb. rewrite num_compare_exact by done. by destruct (Z.compare_spec a b), (Z.ltb_spec a b); try lia. Qed.
