(* ===== verification/JsCollections.v ===== *)
(** * Collections of the language

    [Map] and [Set] with their insertion order, stable sorting by a comparator,
    and the number functions that go with displays: [Math.floor], [toFixed].

    A comparator returns a number of which only the sign counts; it is an
    integer here. *)

From stdpp Require Import sorting.
From S2P Require Import Prelude StableSort JsValue.

(** ** [Map]: the entries in order of insertion *)

Section maps.
Context {K V : Type} `{EqDecision K}.

Fixpoint mget (k : K) (m : list (K * V)) : option V :=
  match m with
  | [] => None
  | (k', v) :: rest => if decide (k' = k) then Some v else mget k rest
  end.

(** [map.set(k, v)]: an existing key keeps its place. *)
Fixpoint mset (k : K) (v : V) (m : list (K * V)) : list (K * V) :=
  match m with
  | [] => [(k, v)]
  | (k', v') :: rest => if decide (k' = k) then (k', v) :: rest else (k', v') :: mset k v rest
  end.

(** [map.set(k, f(map.get(k)))] *)
Definition mupdate (k : K) (f : option V → V) (m : list (K * V)) : list (K * V) :=
  mset k (f (mget k m)) m.
End maps.

(** [set.has(x)] for a set given by a list of its elements. *)
Definition has {A} `{EqDecision A} (x : A) (s : list A) : bool := bool_decide (x ∈ s).

(** ** Comparators *)

(** [a || b] on the results of comparators. *)
Definition then_by (a b : Z) : Z := if a =? 0 then b else a.

(** The sign of [a - b]; a difference that is not a number counts as zero. *)
Definition num_sign (a b : jsnum) : Z := if num_ltb b a then 1 else if num_ltb a b then -1 else 0.

Definition cmp_le {A} (cmp : A → A → Z) (a b : A) : Prop := cmp a b ≤ 0.
#[export] Instance cmp_le_dec {A} (cmp : A → A → Z) : RelDecision (cmp_le cmp).
Proof. intros a b. unfold cmp_le. apply _. Defined.

(** [list.sort(cmp)] *)
Definition sort_by {A} (cmp : A → A → Z) (l : list A) : list A := stable_sort (cmp_le cmp) l.

(** ** Numbers *)

#[export] Instance num_eq_dec : EqDecision jsnum.
Proof. solve_decision. Defined.

(** [Math.floor] of a finite number. *)
Definition num_floor (n : jsnum) : option Z :=
  match n with
  | S754_zero _ => Some 0
  | S754_finite s m e =>
      let v := if s then Zneg m else Zpos m in
      Some (if 0 <=? e then v * 2 ^ e else v / 2 ^ (- e))
  | _ => None
  end.

(** [Math.round]: the nearest integer, of two the larger one. *)
Definition num_round (n : jsnum) : jsnum :=
  match n with
  | S754_finite s m e =>
      if 0 <=? e then n
      else
        let v := if s then Zneg m else Zpos m in
        let z := (2 * v + 2 ^ (- e)) / (2 * 2 ^ (- e)) in
        if z =? 0 then S754_zero s else num_of_Z z
  | _ => n
  end.

(** The integer nearest to [m * 2^e * 10^f], the larger one of two. *)
Definition fixed_value (f : Z) (m : positive) (e : Z) : Z :=
  if 0 <=? e then Zpos m * 2 ^ e * 10 ^ f
  else (2 * (Zpos m * 10 ^ f) + 2 ^ (- e)) / (2 * 2 ^ (- e)).

Definition fixed_text (f n : Z) : jstr :=
  let ds := digits (Z.to_N n) in
  if f =? 0 then ds
  else
    let padded := zeros (f + 1 - Z.of_nat (length ds)) ++ ds in
    let k := (length padded - Z.to_nat f)%nat in
    take k padded ++ js "." ++ drop k padded.

(** [n.toFixed(f)]; from 10^21 on it is [String(n)]. *)
Definition toFixed (f : Z) (n : jsnum) : jstr :=
  match n with
  | S754_zero _ => fixed_text f 0
  | S754_finite s m e =>
      if num_ltb (S754_finite false m e) (num_of_dec false 1 21)
      then (if s then js "-" else []) ++ fixed_text f (fixed_value f m e)
      else num_to_string n
  | _ => num_to_string n
  end.

(** [Number(v)] of a JSON value: objects and arrays are converted to strings
    first. *)
Definition Number_json (v : json) : jsnum :=
  match v with
  | JNull => S754_zero false
  | JBool b => num_of_Z (if b then 1 else 0)
  | JNum n => n
  | _ => Number (json_to_string v)
  end.

(** ** Own properties of a value, as spread and [Object.entries] see them *)

Definition indexed (l : list json) : list (jstr * json) := imap (λ i v, (digits (N.of_nat i), v)) l.
Definition own_fields (v : json) : list (jstr * json) :=
  match v with
  | JObj fields => fields
  | JArr items => indexed items
  | JStr s => indexed (map (λ c, JStr [c]) s)
  | _ => []
  end.

(** [{...a, ...b}] *)
Definition spread {A} (a b : list (jstr * A)) : list (jstr * A) :=
  foldl (λ acc '(k, v), obj_set k v acc) a b.

Example toFixed_ex :
  toFixed 2 (num_of_dec false 1005 (-3)) = js "1.00" ∧ toFixed 1 (num_of_dec false 25 (-2)) = js "0.3"
  ∧ toFixed 2 (num_of_dec true 5 (-3)) = js "-0.01" ∧ toFixed 0 (num_of_dec false 25 (-1)) = js "3".
Proof. vm_compute. done. Qed.

Example num_round_ex :
  map num_round [num_of_dec false 25 (-1); num_of_dec true 25 (-1); num_of_dec true 4 (-1); num_of_Z 7]
  = [num_of_Z 3; num_of_Z (-2); S754_zero true; num_of_Z 7].
Proof. vm_compute. reflexivity. Qed.

(** ** Lemmas *)

Section map_facts.
Context {K V : Type} `{EqDecision K}.
Implicit Types (m : list (K * V)).

Lemma mget_mset k k' v m : mget k (mset k' v m) = if decide (k' = k) then Some v else mget k m.
Proof.
  induction m as [|[k0 v0] m IH]; simpl; [done|].
  destruct (decide (k0 = k')) as [->|Hne]; simpl; [by destruct (decide (k' = k))|].
  rewrite IH. destruct (decide (k0 = k)) as [->|]; [|done]. by rewrite decide_False by congruence.
Qed.

Lemma mget_mupdate k k' f m :
  mget k (mupdate k' f m) = if decide (k' = k) then Some (f (mget k m)) else mget k m.
Proof. unfold mupdate. rewrite mget_mset. by destruct (decide (k' = k)) as [->|]. Qed.

Lemma mset_keys k v m : (mset k v m).*1 = if decide (k ∈ m.*1) then m.*1 else m.*1 ++ [k].
Proof.
  induction m as [|[k0 v0] m IH]; cbn [mset].
  { by destruct (decide _) as [Hin|]; [apply elem_of_nil in Hin|]. }
  destruct (decide (k0 = k)) as [->|Hne]; rewrite !fmap_cons; cbn [fst].
  - by rewrite decide_True by set_solver.
  - rewrite IH. destruct (decide (k ∈ m.*1)) as [Hin|Hin], (decide (k ∈ k0 :: m.*1)) as [Hin'|Hin']; try done; set_solver.
Qed.

Lemma mset_elem_keys k v m k' : k' ∈ (mset k v m).*1 ↔ k' = k ∨ k' ∈ m.*1.
Proof. rewrite mset_keys. destruct (decide _); set_solver. Qed.

Lemma mset_NoDup k v m : NoDup m.*1 → NoDup (mset k v m).*1.
Proof.
  intros H. rewrite mset_keys. destruct (decide _) as [|Hin]; [done|].
  apply list.NoDup_app. split_and!; [done|set_solver|apply NoDup_singleton].
Qed.

Lemma mget_elem k v m : NoDup m.*1 → mget k m = Some v ↔ (k, v) ∈ m.
Proof.
  induction m as [|[k0 v0] m IH]; simpl; intros Hnd; [set_solver|].
  apply list.NoDup_cons in Hnd as [Hk Hnd]. rewrite elem_of_cons.
  destruct (decide (k0 = k)) as [->|Hne].
  - split; [intros [= ->]; by left|]. intros [[= ->]|Hin]; [done|].
    destruct Hk. by apply (list_elem_of_fmap_2 fst) in Hin.
  - rewrite (IH Hnd). naive_solver.
Qed.

Lemma mget_is_Some k m : is_Some (mget k m) ↔ k ∈ m.*1.
Proof.
  induction m as [|[k0 v0] m IH]; simpl; [split; [by intros []|set_solver]|].
  rewrite elem_of_cons. destruct (decide (k0 = k)) as [->|]; [split; [by left|eauto]|]. rewrite IH. naive_solver.
Qed.

(** A map whose values know their keys. *)
Lemma keyed_values (key_of : V → K) m :
  NoDup m.*1 → (∀ k v, mget k m = Some v → key_of v = k) →
  NoDup m.*2 ∧ ∀ v, v ∈ m.*2 → mget (key_of v) m = Some v.
Proof.
  intros Hnd Hk.
  assert (∀ i k v, m !! i = Some (k, v) → key_of v = k) as Hkey.
  { intros i k v Hi. apply (Hk k v), (mget_elem k v m Hnd). by eapply list_elem_of_lookup_2. }
  split.
  - apply NoDup_alt. intros i j v Hi Hj. rewrite list_lookup_fmap in Hi, Hj.
    apply fmap_Some in Hi as ([k v1] & Hi & E1), Hj as ([k' v2] & Hj & E2). cbn in E1, E2. subst.
    eapply NoDup_lookup; [exact Hnd|..]; rewrite list_lookup_fmap; [by rewrite Hi|rewrite Hj; cbn].
    by rewrite <-(Hkey _ _ _ Hi), <-(Hkey _ _ _ Hj).
  - intros v ([k v'] & E & Hv)%list_elem_of_fmap. cbn in E. subst v'.
    apply (mget_elem k v m Hnd) in Hv. by rewrite (Hk k v Hv).
Qed.

Lemma mget_None k m : mget k m = None ↔ k ∉ m.*1.
Proof. rewrite <-mget_is_Some, <-eq_None_not_Some. done. Qed.
End map_facts.

Lemma sort_by_perm {A} (cmp : A → A → Z) l : sort_by cmp l ≡ₚ l.
Proof. apply stable_sort_perm. Qed.

Lemma has_true {A} `{EqDecision A} (x : A) s : has x s = true ↔ x ∈ s.
Proof. apply bool_decide_eq_true. Qed.

(** Repeated updates: the keys, and a property of every entry. *)
Section folds.
Context {K V X : Type} `{EqDecision K} (key : X → K) (f : X → option V → V).

Abbreviation updates := (foldl (λ m x, mupdate (key x) (f x) m)).

Lemma updates_keys xs m k : k ∈ (updates m xs).*1 ↔ k ∈ m.*1 ∨ k ∈ map key xs.
Proof.
  revert m. induction xs as [|x xs IH]; intros m; cbn [foldl map]; [set_solver|].
  rewrite IH. unfold mupdate. rewrite mset_elem_keys, elem_of_cons. tauto.
Qed.

Lemma updates_NoDup xs m : NoDup m.*1 → NoDup (updates m xs).*1.
Proof. revert m. induction xs as [|x xs IH]; intros m H; cbn [foldl]; [done|]. by apply IH, mset_NoDup. Qed.

Lemma updates_inv (P : K → V → Prop) xs m :
  (∀ x old, x ∈ xs → (∀ o, old = Some o → P (key x) o) → P (key x) (f x old)) →
  (∀ k v, mget k m = Some v → P k v) → ∀ k v, mget k (updates m xs) = Some v → P k v.
Proof.
  revert m. induction xs as [|x xs IH]; intros m Hf Hm; cbn [foldl]; [done|].
  apply IH; [intros; apply Hf; set_solver|]. intros k v. rewrite mget_mupdate.
  destruct (decide (key x = k)) as [<-|]; [|apply Hm]. intros [= <-]. apply Hf; [set_solver|]. eauto.
Qed.
End folds.

(** Sorting commutes with maps that keep the order. *)
Lemma sort_by_map {A B} (f : A → B) (cmp : B → B → Z) (cmp' : A → A → Z) l :
  (∀ x y, cmp (f x) (f y) = cmp' x y) → sort_by cmp (map f l) = map f (sort_by cmp' l).
Proof. intros H. apply stable_sort_map. intros x y. unfold cmp_le. by rewrite H. Qed.
