(* ===== verification/FloatError.v ===== *)
(** * Rounding errors of JavaScript numbers

    A product or quotient of normal numbers that neither overflows nor
    underflows differs from the exact one by at most one part in 2^52.  Values
    are compared as integers, scaled by 2^2000. *)

From stdpp Require Import sorting.
From S2P Require Import Prelude StableSort JsValue NumFacts JsCollections.

(** ** Relative closeness *)

Definition parts : Z := 2 ^ 52.

(** [a] is [b] up to [k] parts in 2^52. *)
Definition within (k a b : Z) : Prop := b * (parts - k) ≤ a * parts ≤ b * (parts + k).

Lemma within_scale k a b c : 0 ≤ c → within k a b → within k (a * c) (b * c).
Proof. unfold within. nia. Qed.

Lemma within_cancel k a b c : 0 < c → within k (a * c) (b * c) → within k a b.
Proof. unfold within. nia. Qed.

Lemma within_trans k j a b c :
  0 ≤ a → 0 ≤ b → 0 ≤ c → 0 ≤ k ≤ 1000 → 0 ≤ j ≤ 1000 → within k a b → within j c a → within (k + j + 1) c b.
Proof.
  unfold within, parts. intros Ha Hb Hc Hk Hj [H1 H2] [H3 H4].
  assert (b * (2 ^ 52 - k) * (2 ^ 52 - j) ≤ a * 2 ^ 52 * (2 ^ 52 - j)) as H5 by (apply Z.mul_le_mono_nonneg_r; lia).
  assert (a * 2 ^ 52 * (2 ^ 52 + j) ≤ b * (2 ^ 52 + k) * (2 ^ 52 + j)) as H6 by (apply Z.mul_le_mono_nonneg_r; lia).
  assert (0 ≤ b * (k * j) ≤ b * 1000000) as H7 by nia. split; lia.
Qed.

(** ** The mantissa after a shift *)

Lemma shr_1_m z r s : 0 ≤ z → shr_m (shr_1 (Build_shr_record z r s)) = z / 2.
Proof.
  intros Hz. destruct z as [|p|p]; [done| |lia]. destruct p as [p|p|]; cbn [shr_1 shr_m]; [| |done].
  - rewrite Pos2Z.inj_xI. apply (Z.div_unique _ _ _ 1); lia.
  - rewrite Pos2Z.inj_xO. apply (Z.div_unique _ _ _ 0); lia.
Qed.

Lemma shr_1_eta mrs : 0 ≤ shr_m mrs → shr_m (shr_1 mrs) = shr_m mrs / 2.
Proof. destruct mrs as [z r s]. apply shr_1_m. Qed.

Lemma iter_shr_m k mrs : 0 ≤ shr_m mrs → shr_m (Pos.iter shr_1 mrs k) = shr_m mrs / 2 ^ Zpos k.
Proof.
  intros Hm. induction k as [|k IH] using Pos.peano_ind; [cbn [Pos.iter]; by rewrite shr_1_eta|].
  assert (0 < 2 ^ Zpos k) by (apply Z.pow_pos_nonneg; lia).
  rewrite Pos.iter_succ, shr_1_eta, IH.
  - rewrite Pos2Z.inj_succ, Z.pow_succ_r, Z.div_div by lia. f_equal. lia.
  - rewrite IH. apply Z.div_pos; lia.
Qed.

Lemma shr_value mrs e n :
  0 ≤ shr_m mrs → 0 ≤ n → shr_m (shr mrs e n).1 = shr_m mrs / 2 ^ n ∧ (shr mrs e n).2 = e + n.
Proof.
  intros Hm Hn. destruct n as [|p|p]; [|by rewrite <-iter_shr_m, <-iter_pos_iter|lia].
  rewrite Z.pow_0_r, Z.div_1_r. cbn [shr fst snd]. split; [done|lia].
Qed.

Lemma digits_bounds p d : Zpos (digits2_pos p) = d ↔ 2 ^ (d - 1) ≤ Zpos p < 2 ^ d.
Proof.
  rewrite digits2_log2. pose proof (Z.log2_nonneg (Zpos p)). split.
  - intros <-. replace (Z.log2 (Zpos p) + 1 - 1) with (Z.log2 (Zpos p)) by lia.
    rewrite Z.add_1_r. apply Z.log2_spec. lia.
  - intros Hb. destruct (Z.le_gt_cases d 0) as [Hd|Hd].
    { destruct (decide (d = 0)) as [->|]; [simpl in Hb; lia|]. rewrite (Z.pow_neg_r 2 d) in Hb by lia. lia. }
    rewrite (Z.log2_unique (Zpos p) (d - 1)); [lia|lia|]. replace (Z.succ (d - 1)) with d by lia. done.
Qed.

(** ** Rounding *)

Lemma round_choice m l : round_nearest_even m l = m ∨ round_nearest_even m l = m + 1.
Proof. destruct l as [|[| |]]; cbn [round_nearest_even]; auto. destruct (Z.even m); auto. Qed.

Lemma loc_record m l : shr_m (shr_record_of_loc m l) = m.
Proof. by destruct l as [|[| |]]. Qed.

(** Rounding a value with at least 53 digits keeps 53 of them, or the next
    larger number. *)
Lemma round_close s m e l d :
  Zpos (digits2_pos m) = d → 53 ≤ d → -1074 ≤ d + e - 53 → d + e - 53 ≤ 970 →
  ∃ M E c, binary_round_aux 53 1024 s (Zpos m) e l = S754_finite s M E ∧ Zpos (digits2_pos M) = 53 ∧
    (E = d + e - 53 ∨ E = d + e - 52) ∧ Zpos M * 2 ^ (E - e) = c * 2 ^ (d - 53) ∧
    (c = Zpos m / 2 ^ (d - 53) ∨ c = Zpos m / 2 ^ (d - 53) + 1).
Proof.
  intros Hd H53 Hlo Hhi. set (k := d - 53). set (m1 := Zpos m / 2 ^ k).
  assert (0 < 2 ^ k) as Hk by (apply Z.pow_pos_nonneg; lia).
  pose proof (proj1 (digits_bounds m d) Hd) as Hm.
  assert (2 ^ 52 ≤ m1 < 2 ^ 53) as Hm1.
  { unfold m1. split; [apply Z.div_le_lower_bound|apply Z.div_lt_upper_bound]; try lia; rewrite <-Z.pow_add_r by lia.
    - replace (k + 52) with (d - 1) by lia. lia.
    - replace (k + 53) with d by lia. lia. }
  unfold binary_round_aux, shr_fexp at 1. cbn [Zdigits2]. rewrite Hd.
  assert (fexp 53 1024 (d + e) - e = k) as -> by (unfold fexp, emin; lia).
  destruct (shr_value (shr_record_of_loc (Zpos m) l) e k) as [Hv He]; [by rewrite loc_record|lia|]. rewrite loc_record in Hv.
  destruct (shr _ e k) as [mrs e1]. cbn [fst snd] in Hv, He. rewrite Hv, He. fold m1.
  set (c := round_nearest_even m1 (loc_of_shr_record mrs)).
  assert (c = m1 ∨ c = m1 + 1) as Hc by apply round_choice.
  destruct (decide (c = 2 ^ 53)) as [Ec|Ec].
  - exists (Z.to_pos (2 ^ 52)), (e + k + 1), c. unfold shr_fexp. rewrite Ec. cbn [shr_record_of_loc].
    change (Zdigits2 (2 ^ 53)) with 54.
    assert (fexp 53 1024 (54 + (e + k)) - (e + k) = 1) as -> by (unfold fexp, emin; lia).
    change (shr {| shr_m := 2 ^ 53; shr_r := false; shr_s := false |} (e + k) 1)
      with ({| shr_m := 2 ^ 52; shr_r := false; shr_s := false |}, e + k + 1). cbn [shr_m].
    rewrite (proj2 (Z.leb_le (e + k + 1) (1024 - 53))) by lia.
    split_and!; [done|done|right; lia| |lia].
    rewrite Z2Pos.id by lia. replace (e + k + 1 - e) with (1 + k) by lia. rewrite Z.pow_add_r by lia. lia.
  - assert (0 < c) as Hpos by lia. exists (Z.to_pos c), (e + k), c.
    destruct c as [|cp|] eqn:Ecp; [lia| |lia]. cbn [Z.to_pos].
    assert (Zpos (digits2_pos cp) = 53) as Hdig by (apply digits_bounds; lia).
    unfold shr_fexp. cbn [shr_record_of_loc Zdigits2]. rewrite Hdig.
    assert (fexp 53 1024 (53 + (e + k)) - (e + k) = 0) as -> by (unfold fexp, emin; lia). cbn [shr shr_m].
    rewrite (proj2 (Z.leb_le (e + k) (1024 - 53))) by lia.
    split_and!; [done|done|left; lia| |done]. f_equal. f_equal. lia.
Qed.

(** ** Products and quotients *)

Definition scale_bits : Z := 2000.
Definition scale : Z := 2 ^ scale_bits.
(** The value of [m * 2^e], scaled by [scale]. *)
Definition sv (m : positive) (e : Z) : Z := Zpos m * 2 ^ (e + scale_bits).

(** A positive normal number with an exponent between two bounds. *)
Definition normal (lo hi : Z) (x : jsnum) (v : Z) : Prop :=
  ∃ m e, x = S754_finite false m e ∧ Zpos (digits2_pos m) = 53 ∧ lo ≤ e ≤ hi ∧ v = sv m e.

Lemma scale_pos : 0 < scale.
Proof. apply Z.pow_pos_nonneg; unfold scale_bits; lia. Qed.

Lemma sv_pos m e : -scale_bits ≤ e → 0 < sv m e.
Proof. intros He. unfold sv. assert (0 < 2 ^ (e + scale_bits)) by (apply Z.pow_pos_nonneg; lia). lia. Qed.

Lemma normal_pos lo hi x v : normal lo hi x v → -scale_bits ≤ lo → 0 < v.
Proof. intros (m & e & _ & _ & He & ->) Hlo. apply sv_pos. lia. Qed.

(** The kept digits against the exact value. *)
Lemma kept_close q c k n b :
  0 ≤ k → 2 ^ (52 + k) ≤ q → c = q / 2 ^ k ∨ c = q / 2 ^ k + 1 → 0 < b → q * b ≤ n < (q + 1) * b →
  within 1 (c * 2 ^ k * b) n.
Proof.
  intros Hk Hq Hc Hb Hn. assert (0 < 2 ^ k) as Hp by (apply Z.pow_pos_nonneg; lia).
  rewrite Z.pow_add_r in Hq by lia. pose proof (Z.div_mod q (2 ^ k) ltac:(lia)) as Hdm.
  pose proof (Z.mod_pos_bound q (2 ^ k) Hp) as Hmod.
  assert (q - 2 ^ k < c * 2 ^ k ≤ q + 2 ^ k) as [H1 H2] by (destruct Hc as [->| ->]; lia).
  assert (q + 1 - 2 ^ k ≤ c * 2 ^ k) as H1' by lia.
  assert ((q + 1) * b - 2 ^ k * b ≤ c * 2 ^ k * b ≤ q * b + 2 ^ k * b) as [H3 H4] by (split; nia).
  assert (2 ^ k * b * 2 ^ 52 ≤ q * b) as H5 by nia.
  unfold within, parts. split; lia.
Qed.

Lemma pow_split a b : 0 ≤ a → 0 ≤ b → 2 ^ (a + b) = 2 ^ a * 2 ^ b.
Proof. intros. by apply Z.pow_add_r. Qed.

Lemma mul_close lo1 hi1 lo2 hi2 x y v w :
  normal lo1 hi1 x v → normal lo2 hi2 y w → -900 ≤ lo1 + lo2 → hi1 + hi2 ≤ 800 → -900 ≤ lo1 → -900 ≤ lo2 →
  ∃ u, normal (lo1 + lo2 + 52) (hi1 + hi2 + 54) (num_mul x y) u ∧ within 1 (u * scale) (v * w).
Proof.
  intros (m1 & e1 & -> & Hd1 & He1 & ->) (m2 & e2 & -> & Hd2 & He2 & ->) Hlo Hhi Hl1 Hl2.
  pose proof (proj1 (digits_bounds _ _) Hd1) as B1. pose proof (proj1 (digits_bounds _ _) Hd2) as B2.
  set (d := Zpos (digits2_pos (m1 * m2))). assert (Zpos (digits2_pos (m1 * m2)) = d) as Hd by done.
  pose proof (proj1 (digits_bounds _ _) Hd) as B. rewrite Pos2Z.inj_mul in B.
  assert (105 ≤ d ≤ 106) as Hdb.
  { assert (2 ^ 104 ≤ Zpos m1 * Zpos m2 < 2 ^ 106) as [P1 P2] by (change (2 ^ 104) with (2 ^ 52 * 2 ^ 52); change (2 ^ 106) with (2 ^ 53 * 2 ^ 53); simpl in *; nia).
    assert (2 ^ 104 < 2 ^ d) as Q1 by lia. assert (2 ^ (d - 1) < 2 ^ 106) as Q2 by lia.
    apply Z.pow_lt_mono_r_iff in Q1; [|lia|lia]. apply Z.pow_lt_mono_r_iff in Q2; lia. }
  destruct (round_close (xorb false false) (m1 * m2) (e1 + e2) loc_Exact d Hd) as (M & E & c & Hr & HM & HE & Hval & Hc); [lia..|].
  exists (sv M E). split.
  - exists M, E. split_and!; [exact Hr|done|lia|lia|done].
  - assert (within 1 (c * 2 ^ (d - 53) * 1) (Zpos (m1 * m2))) as Hw.
    { apply (kept_close (Zpos (m1 * m2))); [lia| |exact Hc|lia|lia].
      rewrite Pos2Z.inj_mul. replace (52 + (d - 53)) with (d - 1) by lia. lia. }
    rewrite Z.mul_1_r, <-Hval, Pos2Z.inj_mul in Hw. unfold sv, scale.
    apply (within_scale 1 _ _ (2 ^ (e1 + e2 + 2 * scale_bits))) in Hw; [|apply Z.pow_nonneg; lia].
    replace (Zpos M * 2 ^ (E + scale_bits) * 2 ^ scale_bits) with (Zpos M * 2 ^ (E - (e1 + e2)) * 2 ^ (e1 + e2 + 2 * scale_bits)).
    2:{ rewrite <-!Z.mul_assoc, <-!pow_split by (unfold scale_bits in *; lia). f_equal. f_equal. lia. }
    replace (Zpos m1 * 2 ^ (e1 + scale_bits) * (Zpos m2 * 2 ^ (e2 + scale_bits))) with (Zpos m1 * Zpos m2 * 2 ^ (e1 + e2 + 2 * scale_bits)); [exact Hw|].
    replace (e1 + e2 + 2 * scale_bits) with ((e1 + scale_bits) + (e2 + scale_bits)) by lia. rewrite pow_split by (unfold scale_bits; lia). ring.
Qed.

Lemma div_close lo1 hi1 lo2 hi2 x y v w :
  normal lo1 hi1 x v → normal lo2 hi2 y w → -900 ≤ lo1 - hi2 → hi1 - lo2 ≤ 900 → -900 ≤ lo1 → -900 ≤ lo2 → hi1 ≤ 900 → hi2 ≤ 900 →
  ∃ u, normal (lo1 - hi2 - 53) (hi1 - lo2 - 51) (num_div x y) u ∧ within 1 (u * w) (v * scale).
Proof.
  intros (m1 & e1 & -> & Hd1 & He1 & ->) (m2 & e2 & -> & Hd2 & He2 & ->) Hlo Hhi Hl1 Hl2 Hh1 Hh2.
  pose proof (proj1 (digits_bounds _ _) Hd1) as B1. pose proof (proj1 (digits_bounds _ _) Hd2) as B2.
  change (2 ^ (53 - 1)) with (2 ^ 52) in *.
  unfold num_div, SFdiv, SFdiv_core_binary. cbn [Zdigits2]. rewrite Hd1, Hd2.
  assert (Z.min (fexp 53 1024 (53 + e1 - (53 + e2))) (e1 - e2) = e1 - e2 - 53) as -> by (unfold fexp, emin; lia).
  replace (e1 - e2 - (e1 - e2 - 53)) with 53 by lia. cbv iota. rewrite Z.shiftl_mul_pow2 by lia.
  set (n := Zpos m1 * 2 ^ 53). pose proof (Z_div_mod n (Zpos m2) ltac:(lia)) as Hdm.
  destruct (Z.div_eucl n (Zpos m2)) as [q r] eqn:Eq. destruct Hdm as [Hn Hr].
  assert (2 ^ 52 ≤ q < 2 ^ 54) as Hq by (unfold n in Hn; split; nia).
  destruct q as [|qp|]; [lia| |lia].
  set (d := Zpos (digits2_pos qp)). assert (Zpos (digits2_pos qp) = d) as Hd by done.
  pose proof (proj1 (digits_bounds _ _) Hd) as B.
  assert (53 ≤ d ≤ 54) as Hdb.
  { assert (2 ^ 52 < 2 ^ d) as Q1 by lia. assert (2 ^ (d - 1) < 2 ^ 54) as Q2 by lia.
    apply Z.pow_lt_mono_r_iff in Q1; [|lia|lia]. apply Z.pow_lt_mono_r_iff in Q2; lia. }
  destruct (round_close (xorb false false) qp (e1 - e2 - 53) (new_location (Zpos m2) r) d Hd) as (M & E & c & Hrd & HM & HE & Hval & Hc); [lia..|].
  exists (sv M E). split.
  - exists M, E. split_and!; [exact Hrd|done|lia|lia|done].
  - assert (within 1 (c * 2 ^ (d - 53) * Zpos m2) n) as Hw.
    { apply (kept_close (Zpos qp)); [lia| |exact Hc|lia|lia].
      replace (52 + (d - 53)) with (d - 1) by lia. lia. }
    rewrite <-Hval in Hw. unfold sv, scale, n in *.
    apply (within_scale 1 _ _ (2 ^ (e1 - 53 + 2 * scale_bits))) in Hw; [|apply Z.pow_nonneg; lia].
    replace (Zpos M * 2 ^ (E + scale_bits) * (Zpos m2 * 2 ^ (e2 + scale_bits))) with (Zpos M * 2 ^ (E - (e1 - e2 - 53)) * Zpos m2 * 2 ^ (e1 - 53 + 2 * scale_bits)).
    2:{ replace (Zpos M * 2 ^ (E - (e1 - e2 - 53)) * Zpos m2 * 2 ^ (e1 - 53 + 2 * scale_bits))
          with (Zpos M * Zpos m2 * (2 ^ (E - (e1 - e2 - 53)) * 2 ^ (e1 - 53 + 2 * scale_bits))) by ring.
        replace (Zpos M * 2 ^ (E + scale_bits) * (Zpos m2 * 2 ^ (e2 + scale_bits))) with (Zpos M * Zpos m2 * (2 ^ (E + scale_bits) * 2 ^ (e2 + scale_bits))) by ring.
        rewrite <-!pow_split by (unfold scale_bits in *; lia). f_equal. f_equal. lia. }
    replace (Zpos m1 * 2 ^ (e1 + scale_bits) * 2 ^ scale_bits) with (Zpos m1 * 2 ^ 53 * 2 ^ (e1 - 53 + 2 * scale_bits)); [exact Hw|].
    rewrite <-!Z.mul_assoc, <-!pow_split by (unfold scale_bits in *; lia). f_equal. f_equal. lia.
Qed.

(** ** Integers *)

Lemma integer_normal n : 1 ≤ n ≤ 2 ^ 53 → normal (-52) 1 (num_of_Z n) (n * scale).
Proof.
  intros Hn. destruct (normal_form n Hn) as (M & E & HM & HE & Heq).
  exists M, E. split_and!; [apply num_of_Z_normal; [lia|done..]|done|unfold small in HE; lia..|]. unfold small in HE.
  unfold sv, scale. apply (Z.mul_cancel_r _ _ (2 ^ 52)); [lia|].
  replace (n * 2 ^ scale_bits * 2 ^ 52) with (n * 2 ^ 52 * 2 ^ scale_bits) by ring. rewrite Heq.
  rewrite <-!Z.mul_assoc, <-!pow_split by (unfold scale_bits; lia). f_equal. f_equal. lia.
Qed.

Lemma round_near lo hi x u n :
  normal lo hi x u → -900 ≤ lo → 1 ≤ n ≤ 2 ^ 48 → 2 * Z.abs (u - n * scale) < scale → num_round x = num_of_Z n.
Proof.
  intros (m & e & -> & Hd & He & ->) Hlo Hn Habs. unfold sv, scale in Habs. cbn [num_round].
  pose proof (proj1 (digits_bounds _ _) Hd) as B. change (2 ^ (53 - 1)) with (2 ^ 52) in B.
  destruct (Z.leb_spec 0 e) as [Hpos|Hneg].
  { exfalso. rewrite (pow_split e scale_bits) in Habs by (unfold scale_bits; lia).
    assert (0 < 2 ^ scale_bits) by (apply Z.pow_pos_nonneg; unfold scale_bits; lia).
    assert (1 ≤ 2 ^ e) by (apply (Z.pow_le_mono_r 2 0 e); lia).
    assert (2 ^ 52 ≤ Zpos m * 2 ^ e) by nia. nia. }
  assert (0 < 2 ^ (e + scale_bits)) as Hp by (apply Z.pow_pos_nonneg; unfold scale_bits; lia).
  assert (0 < 2 ^ (- e)) as Hq by (apply Z.pow_pos_nonneg; lia).
  assert (2 ^ scale_bits = 2 ^ (- e) * 2 ^ (e + scale_bits)) as EK by (rewrite <-pow_split by (unfold scale_bits; lia); f_equal; lia).
  rewrite EK in Habs.
  assert (2 * Z.abs (Zpos m - n * 2 ^ (- e)) < 2 ^ (- e)) as Ha.
  { apply (Z.mul_lt_mono_pos_r (2 ^ (e + scale_bits))); [done|].
    rewrite <-Z.mul_assoc, <-(Z.abs_eq (2 ^ (e + scale_bits))) at 1 by lia. rewrite <-Z.abs_mul.
    replace ((Zpos m - n * 2 ^ (- e)) * 2 ^ (e + scale_bits)) with (Zpos m * 2 ^ (e + scale_bits) - n * (2 ^ (- e) * 2 ^ (e + scale_bits))) by ring.
    exact Habs. }
  assert ((2 * Zpos m + 2 ^ (- e)) / (2 * 2 ^ (- e)) = n) as ->.
  { symmetry. apply (Z.div_unique_pos _ _ _ (2 * Zpos m + 2 ^ (- e) - 2 * 2 ^ (- e) * n)); [|ring]. lia. }
  destruct (Z.eqb_spec n 0); [lia|done].
Qed.

(** A quotient, a product, and back: the nearest integer is the one it
    started from. *)
Lemma convert_and_back n q r vq vr :
  1 ≤ n ≤ 2 ^ 48 → normal (-150) 150 q vq → normal (-150) 150 r vr →
  num_round (num_mul (num_div (num_mul (num_div (num_of_Z n) q) r) r) q) = num_of_Z n.
Proof.
  intros Hn Hq Hr. pose proof scale_pos as HS.
  pose proof (integer_normal n ltac:(lia)) as H0.
  pose proof (normal_pos _ _ _ _ Hq ltac:(unfold scale_bits; lia)) as Hvq. pose proof (normal_pos _ _ _ _ Hr ltac:(unfold scale_bits; lia)) as Hvr.
  destruct (div_close _ _ _ _ _ _ _ _ H0 Hq) as (u1 & N1 & W1); [lia..|].
  destruct (mul_close _ _ _ _ _ _ _ _ N1 Hr) as (u2 & N2 & W2); [lia..|].
  destruct (div_close _ _ _ _ _ _ _ _ N2 Hr) as (u3 & N3 & W3); [lia..|].
  destruct (mul_close _ _ _ _ _ _ _ _ N3 Hq) as (u4 & N4 & W4); [lia..|].
  pose proof (normal_pos _ _ _ _ N1 ltac:(unfold scale_bits; lia)) as P1. pose proof (normal_pos _ _ _ _ N2 ltac:(unfold scale_bits; lia)) as P2.
  pose proof (normal_pos _ _ _ _ N3 ltac:(unfold scale_bits; lia)) as P3. pose proof (normal_pos _ _ _ _ N4 ltac:(unfold scale_bits; lia)) as P4.
  (* u1 * vq ~ n*scale*scale,  u2 * scale ~ u1 * vr,  u3 * vr ~ u2 * scale,  u4 * scale ~ u3 * vq *)
  assert (within 3 (u3 * vr) (u1 * vr)) as W13.
  { apply (within_trans 1 1 (u2 * scale)); try lia; try nia; done. }
  assert (within 3 u3 u1) as W13' by (by apply (within_cancel 3 _ _ vr)).
  assert (within 5 (u3 * vq) (n * scale * scale)) as W5.
  { apply (within_trans 1 3 (u1 * vq)); try lia; try nia; [done|]. apply within_scale; [lia|done]. }
  assert (within 7 (u4 * scale) (n * scale * scale)) as W7.
  { apply (within_trans 5 1 (u3 * vq)); try lia; try nia; done. }
  assert (within 7 u4 (n * scale)) as W by (by apply (within_cancel 7 _ _ scale)).
  apply (round_near _ _ _ _ _ N4); [lia|done|]. unfold within, parts in W. nia.
Qed.
