(* ===== verification/NumRounding.v ===== *)
(** * Correct rounding of decimals

    Reading a decimal gives the double nearest to it: the result depends on the
    value only, and every decimal that is less than half a gap away from a
    double reads as this double. *)

From stdpp Require Import sorting.
From S2P Require Import Prelude StableSort JsValue NumFacts JsCollections FloatError.

(** ** Where a value lies between two multiples of a unit *)

(** [X] is [m] units of [U] and a rest, which the two bits compare with half a
    unit. *)
Definition at_loc (U X : Z) (mrs : shr_record) : Prop :=
  let rest := X - shr_m mrs * U in
  0 < U ∧ 0 ≤ shr_m mrs ∧
  match shr_r mrs, shr_s mrs with
  | false, false => rest = 0
  | false, true => 0 < 2 * rest < U
  | true, false => 2 * rest = U
  | true, true => U < 2 * rest < 2 * U
  end.

Lemma at_loc_floor U X mrs : at_loc U X mrs → shr_m mrs * U ≤ X < (shr_m mrs + 1) * U.
Proof. destruct mrs as [m [] []]; unfold at_loc; cbn [shr_m shr_r shr_s]; lia. Qed.

Lemma at_loc_mul U X mrs c : 0 < c → at_loc U X mrs ↔ at_loc (U * c) (X * c) mrs.
Proof.
  intros Hc. destruct mrs as [m r s]. unfold at_loc. cbn [shr_m shr_r shr_s].
  assert (X * c - m * (U * c) = (X - m * U) * c) as -> by ring. generalize (X - m * U). intros rest.
  destruct r, s; split; intros (HU & Hm & H); split_and!; try done; nia.
Qed.

Lemma at_loc_unique U X mrs mrs' : at_loc U X mrs → at_loc U X mrs' → mrs = mrs'.
Proof.
  intros H H'. pose proof (at_loc_floor _ _ _ H) as B. pose proof (at_loc_floor _ _ _ H') as B'.
  destruct mrs as [m r s], mrs' as [m' r' s']. unfold at_loc in *. cbn [shr_m shr_r shr_s] in *.
  assert (m = m') as <- by nia. destruct r, s, r', s'; try done; lia.
Qed.

Lemma at_loc_half U X mrs : at_loc U X mrs → at_loc (2 * U) X (shr_1 mrs).
Proof.
  destruct mrs as [m r s]. unfold at_loc. cbn [shr_m shr_r shr_s]. intros (HU & Hm & H).
  destruct m as [|[p|p|]|]; [| | | |lia]; destruct r, s; cbn [shr_1 shr_m shr_r shr_s orb]; lia.
Qed.

Lemma at_loc_shr U X mrs e n : 0 ≤ n → at_loc U X mrs → at_loc (2 ^ n * U) X (shr mrs e n).1.
Proof.
  intros Hn H. destruct n as [|p|]; [by rewrite Z.pow_0_r, Z.mul_1_l| |lia].
  cbn [shr fst]. rewrite iter_pos_iter. clear Hn. induction p as [|p IH] using Pos.peano_ind; [by apply at_loc_half|].
  rewrite Pos.iter_succ, Pos2Z.inj_succ, Z.pow_succ_r, <-Z.mul_assoc by lia. by apply at_loc_half.
Qed.

Lemma at_loc_record mrs : shr_record_of_loc (shr_m mrs) (loc_of_shr_record mrs) = mrs.
Proof. by destruct mrs as [m [] []]. Qed.

Lemma at_loc_div n d q r : 0 < d → 0 ≤ q → n = d * q + r → 0 ≤ r < d →
  at_loc d n (shr_record_of_loc q (new_location d r)).
Proof.
  intros Hd Hq -> Hr. unfold new_location. destruct (Z.even d) eqn:Ev.
  - unfold new_location_even. destruct (Z.eqb_spec r 0) as [->|Hne]; [unfold at_loc; cbn; lia|].
    destruct (Z.compare_spec (2 * r) d); unfold at_loc; cbn [shr_record_of_loc shr_m shr_r shr_s]; lia.
  - unfold new_location_odd. destruct (Z.eqb_spec r 0) as [->|Hne]; [unfold at_loc; cbn; lia|].
    assert (Z.odd d = true) as [k Hk]%Z.odd_spec by (by rewrite <-Z.negb_even, Ev).
    destruct (Z.compare_spec (2 * r + 1) d); unfold at_loc; cbn [shr_record_of_loc shr_m shr_r shr_s]; lia.
Qed.

(** ** The position of a value among the doubles *)

(** The value [A / B] lies at [mrs] units of [2^E], where [E] is the exponent of
    the doubles around it. *)
Record position (A B E : Z) (mrs : shr_record) : Prop := {
  pos_exp : -1074 ≤ E;
  pos_top : shr_m mrs < 2 ^ 53;
  pos_norm : E = -1074 ∨ 2 ^ 52 ≤ shr_m mrs;
  pos_loc : at_loc (2 ^ (E + 1074) * B) (A * 2 ^ 1074) mrs }.

Lemma position_mul A B E mrs c : 0 < c → position A B E mrs → position (A * c) (B * c) E mrs.
Proof.
  intros Hc [He Ht Hn Hl]. split; [done..|]. apply (at_loc_mul _ _ _ c Hc) in Hl.
  by rewrite Z.mul_assoc, <-(Z.mul_assoc A), (Z.mul_comm c), Z.mul_assoc.
Qed.

Lemma position_exp_le A B E E' mrs mrs' : position A B E mrs → position A B E' mrs' → E' ≤ E.
Proof.
  intros [He Ht Hn Hl] [He' Ht' Hn' Hl']. destruct (Z.le_gt_cases E' E) as [|Hlt]; [done|exfalso].
  destruct Hn' as [|Hn']; [lia|].
  pose proof (at_loc_floor _ _ _ Hl) as [_ B1]. pose proof (at_loc_floor _ _ _ Hl') as [B2 _].
  assert (2 ^ (E' + 1074) = 2 ^ (E + 1074) * 2 ^ (E' - E)) as Ep by (rewrite <-Z.pow_add_r by lia; f_equal; lia).
  assert (2 ≤ 2 ^ (E' - E)) by (apply (Z.pow_le_mono_r 2 1); lia).
  destruct Hl as [HU _]. rewrite Ep in B2. set (U := 2 ^ (E + 1074) * B) in *.
  assert (shr_m mrs' * (2 ^ (E + 1074) * 2 ^ (E' - E) * B) = shr_m mrs' * 2 ^ (E' - E) * U) as Eq by (unfold U; ring).
  assert (2 ^ 53 * U ≤ shr_m mrs' * 2 ^ (E' - E) * U) by (apply Z.mul_le_mono_nonneg_r; nia). nia.
Qed.

(** Equal values have the same position. *)
Lemma position_unique A B A' B' E E' mrs mrs' :
  0 < B → 0 < B' → A * B' = A' * B → position A B E mrs → position A' B' E' mrs' → E = E' ∧ mrs = mrs'.
Proof.
  intros HB HB' Heq H H'. apply (position_mul _ _ _ _ B' HB') in H. apply (position_mul _ _ _ _ B HB) in H'.
  rewrite Heq in H. rewrite (Z.mul_comm B' B) in H'.
  assert (E = E') as <-.
  { apply Z.le_antisymm; [exact (position_exp_le _ _ _ _ _ _ H' H)|exact (position_exp_le _ _ _ _ _ _ H H')]. }
  split; [done|]. exact (at_loc_unique _ _ _ _ (pos_loc _ _ _ _ H) (pos_loc _ _ _ _ H')).
Qed.

(** ** What rounding makes of a position *)

Definition pack (s : bool) (M E : Z) : jsnum :=
  match M with
  | Zpos m => if E <=? 971 then S754_finite s m E else S754_infinity s
  | _ => S754_zero s
  end.

Definition finish (s : bool) (E : Z) (mrs : shr_record) : jsnum :=
  let M := round_nearest_even (shr_m mrs) (loc_of_shr_record mrs) in
  if M =? 2 ^ 53 then pack s (2 ^ 52) (E + 1) else pack s M E.

Lemma Zdigits2_bound m d : 0 ≤ m → Zdigits2 m = d → m < 2 ^ d ∧ (m = 0 ∨ 2 ^ (d - 1) ≤ m).
Proof.
  intros Hm Hd. destruct m as [|p|]; [simpl in Hd; subst d; lia| |lia].
  cbn [Zdigits2] in Hd. apply digits_bounds in Hd. lia.
Qed.

(** The second shift only puts [2^53] right. *)
Lemma round_finish s E mrs :
  -1074 ≤ E → 0 ≤ shr_m mrs < 2 ^ 53 → E = -1074 ∨ 2 ^ 52 ≤ shr_m mrs →
  (let '(mrs2, e2) := shr_fexp 53 1024 (round_nearest_even (shr_m mrs) (loc_of_shr_record mrs)) E loc_Exact in
   match shr_m mrs2 with
   | Z0 => S754_zero s
   | Zpos m => if e2 <=? 1024 - 53 then S754_finite s m e2 else S754_infinity s
   | _ => S754_nan
   end) = finish s E mrs.
Proof.
  intros He Hm Hn. unfold finish. set (M := round_nearest_even _ _).
  assert (M = shr_m mrs ∨ M = shr_m mrs + 1) as HM by apply round_choice.
  unfold shr_fexp. cbn [shr_record_of_loc]. destruct (Z.eqb_spec M (2 ^ 53)) as [Eq|Ne].
  - rewrite Eq. change (Zdigits2 (2 ^ 53)) with 54.
    assert (fexp 53 1024 (54 + E) - E = 1) as -> by (unfold fexp, emin; lia). done.
  - assert (0 ≤ M) as HM0 by lia. destruct (Zdigits2_bound M _ HM0 eq_refl) as [B1 B2].
    assert (Zdigits2 M ≤ 53) as Hd.
    { destruct M as [|p|]; [simpl; lia| |lia]. destruct B2 as [|B2]; [lia|].
      destruct (Z.le_gt_cases (Zdigits2 (Zpos p)) 53) as [|Hgt]; [done|exfalso].
      assert (2 ^ 53 ≤ 2 ^ (Zdigits2 (Zpos p) - 1)) by (apply Z.pow_le_mono_r; lia). lia. }
    assert (fexp 53 1024 (Zdigits2 M + E) - E = 0) as ->.
    { unfold fexp, emin. destruct Hn as [->|Hn]; [lia|].
      assert (53 ≤ Zdigits2 M); [|lia]. destruct (Z.le_gt_cases 53 (Zdigits2 M)) as [|Hlt]; [done|exfalso].
      assert (2 ^ Zdigits2 M ≤ 2 ^ 52) by (apply Z.pow_le_mono_r; lia). lia. }
    cbn [shr shr_m]. by destruct M as [|p|]; [| |lia].
Qed.

(** Rounding finds the position of the value and finishes it. *)
Lemma round_aux_position s m e l U X A B :
  at_loc U X (shr_record_of_loc m l) → 0 < B → -1074 ≤ e → e ≤ fexp 53 1024 (Zdigits2 m + e) →
  A * 2 ^ 1074 * U = X * B * 2 ^ (e + 1074) →
  ∃ E mrs, position A B E mrs ∧ binary_round_aux 53 1024 s m e l = finish s E mrs.
Proof.
  intros Hloc HB He Hf Hval. unfold binary_round_aux, shr_fexp at 1.
  set (E := fexp 53 1024 (Zdigits2 m + e)) in *. set (k := E - e). assert (0 ≤ k) as Hk by lia.
  assert (0 ≤ m) as Hm by (destruct Hloc as (_ & H & _); by rewrite loc_record in H).
  pose proof (at_loc_shr _ _ _ e k Hk Hloc) as Hs.
  destruct (shr_value (shr_record_of_loc m l) e k) as [Hv HE]; [by rewrite loc_record|done|].
  rewrite loc_record in Hv. destruct (shr _ e k) as [mrs e1]. cbn [fst snd] in *.
  assert (e1 = E) as -> by lia. exists E, mrs.
  assert (0 < 2 ^ k) as Hpk by (apply Z.pow_pos_nonneg; lia).
  destruct (Zdigits2_bound m _ Hm eq_refl) as [B1 B2].
  assert (-1074 ≤ E) as HE0 by (unfold E, fexp, emin; lia).
  assert (0 ≤ shr_m mrs < 2 ^ 53) as HM.
  { rewrite Hv. split; [apply Z.div_pos; lia|]. apply Z.div_lt_upper_bound; [done|]. rewrite <-Z.pow_add_r by lia.
    eapply Z.lt_le_trans; [exact B1|]. apply Z.pow_le_mono_r; [lia|]. unfold k, E, fexp, emin. lia. }
  assert (E = -1074 ∨ 2 ^ 52 ≤ shr_m mrs) as HN.
  { destruct (decide (E = -1074)) as [|Hne]; [by left|right].
    assert (E = Zdigits2 m + e - 53) as EE by (unfold E, fexp, emin in *; lia).
    destruct B2 as [->|B2]; [simpl in EE; lia|]. rewrite Hv. apply Z.div_le_lower_bound; [done|].
    rewrite <-Z.pow_add_r by lia. eapply Z.le_trans; [|exact B2]. apply Z.pow_le_mono_r; lia. }
  split; [|by apply round_finish]. split; [done|lia|done|]. destruct Hloc as [HU _].
  apply (at_loc_mul _ _ _ U HU). rewrite Hval.
  assert (0 < B * 2 ^ (e + 1074)) as Hc by (assert (0 < 2 ^ (e + 1074)) by (apply Z.pow_pos_nonneg; lia); nia).
  apply (at_loc_mul _ _ _ _ Hc) in Hs.
  replace (2 ^ (E + 1074) * B * U) with (2 ^ k * U * (B * 2 ^ (e + 1074))); [by rewrite <-(Z.mul_assoc X)|].
  replace (E + 1074) with (k + (e + 1074)) by lia. rewrite (Z.pow_add_r 2 k) by lia. ring.
Qed.

(** ** Decimals *)

(** The value of [m * 10^e] as a fraction. *)
Definition dec_num (m e : Z) : Z := m * 10 ^ Z.max e 0.
Definition dec_den (e : Z) : Z := 10 ^ Z.max (- e) 0.

Lemma dec_den_pos e : 0 < dec_den e.
Proof. apply Z.pow_pos_nonneg; lia. Qed.

Lemma normalize_position s p :
  ∃ E mrs, position (Zpos p) 1 E mrs ∧ binary_round 53 1024 s p 0 = finish s E mrs.
Proof.
  unfold binary_round. set (f := fexp 53 1024 (Zpos (digits2_pos p) + 0)).
  assert (-1074 ≤ f) as Hf by (unfold f, fexp, emin; lia).
  unfold shl_align. rewrite Z.sub_0_r. destruct f as [|k|k] eqn:Ef.
  - apply (round_aux_position s (Zpos p) 0 loc_Exact 1 (Zpos p)); [split_and!; cbn; lia|lia|lia|cbn [Zdigits2]; fold f; lia|lia].
  - apply (round_aux_position s (Zpos p) 0 loc_Exact 1 (Zpos p)); [split_and!; cbn; lia|lia|lia|cbn [Zdigits2]; fold f; lia|lia].
  - apply (round_aux_position s (Zpos (Pos.iter xO p k)) (Zneg k) loc_Exact 1 (Zpos (Pos.iter xO p k))); [split_and!; cbn; lia|lia|lia| |].
    + cbn [Zdigits2]. rewrite digits2_shift. replace (Zpos (digits2_pos p) + Zpos k + Zneg k) with (Zpos (digits2_pos p) + 0) by lia.
      fold f. lia.
    + rewrite shift_value, !Z.mul_1_r, <-Z.mul_assoc, <-Z.pow_add_r by lia. f_equal. f_equal. lia.
Qed.

Lemma div_position s p d :
  ∃ E mrs, position (Zpos p) (Zpos d) E mrs
    ∧ SFdiv 53 1024 (S754_finite s p 0) (S754_finite false d 0) = finish s E mrs.
Proof.
  unfold SFdiv, SFdiv_core_binary. cbn [Zdigits2]. rewrite xorb_false_r, !Z.add_0_r.
  set (d1 := Zpos (digits2_pos p)). set (d2 := Zpos (digits2_pos d)). change (0 - 0) with 0.
  set (e := Z.min (fexp 53 1024 (d1 - d2)) 0). assert (-1074 ≤ e ≤ 0) as He by (unfold e, fexp, emin; lia).
  pose proof (proj1 (digits_bounds p d1) eq_refl) as Bp. pose proof (proj1 (digits_bounds d d2) eq_refl) as Bd.
  set (m' := match 0 - e with Z0 => Zpos p | Zpos _ => Z.shiftl (Zpos p) (0 - e) | Zneg _ => 0 end).
  assert (m' = Zpos p * 2 ^ (- e)) as Hm'.
  { unfold m'. rewrite Z.sub_0_l. destruct (- e) as [|k|k] eqn:Ee; [lia| |lia]. by rewrite Z.shiftl_mul_pow2. }
  pose proof (Z_div_mod m' (Zpos d) ltac:(lia)) as Hdm. destruct (Z.div_eucl m' (Zpos d)) as [q r]. destruct Hdm as [Hq Hr].
  assert (0 < 2 ^ (- e)) as Hpe by (apply Z.pow_pos_nonneg; lia).
  assert (0 ≤ q) as Hq0 by nia.
  apply (round_aux_position s q e (new_location (Zpos d) r) (Zpos d) m'); [by apply at_loc_div|lia|lia| |].
  - destruct (decide (e = -1074)) as [->|Hne]; [unfold fexp, emin; lia|].
    assert (d1 - d2 + (- e) - 1 < Zdigits2 q) as Hdig.
    { destruct (Zdigits2_bound q _ Hq0 eq_refl) as [Bq _].
      destruct (Z.le_gt_cases (Zdigits2 q) (d1 - d2 + - e - 1)) as [Hle|]; [exfalso|lia].
      assert (q + 1 ≤ 2 ^ (d1 - d2 + - e - 1)) as Hq1.
      { eapply Z.le_trans; [|apply (Z.pow_le_mono_r 2 (Zdigits2 q)); lia]. lia. }
      assert (0 ≤ Zdigits2 q) by (destruct q; cbn; lia).
      assert (m' < Zpos d * (q + 1)) as H1 by lia.
      assert (Zpos d * (q + 1) ≤ 2 ^ d2 * 2 ^ (d1 - d2 + - e - 1)) as H2 by (apply Z.mul_le_mono_nonneg; lia).
      rewrite <-Z.pow_add_r in H2 by lia. replace (d2 + (d1 - d2 + - e - 1)) with ((d1 - 1) + - e) in H2 by lia.
      rewrite Z.pow_add_r in H2 by lia. nia. }
    unfold e, fexp, emin in *. lia.
  - rewrite Hm'. rewrite <-!Z.mul_assoc, (Z.mul_comm (2 ^ - e)), <-!Z.mul_assoc, <-Z.pow_add_r by lia.
    replace (e + 1074 + - e) with 1074 by lia. ring.
Qed.

Lemma dec_position neg m e : 0 < m → -400 ≤ e ≤ 400 →
  ∃ E mrs, position (dec_num m e) (dec_den e) E mrs ∧ num_of_dec neg (Z.to_N m) e = finish neg E mrs.
Proof.
  intros Hm He. destruct m as [|p|]; [lia| |lia]. cbn [Z.to_N]. unfold num_of_dec.
  destruct (Z.ltb_spec 400 e); [lia|]. destruct (Z.ltb_spec (Z.of_nat (length (digits (Npos p))) + e) (-400)); [lia|].
  unfold dec_num, dec_den. destruct (Z.leb_spec 0 e) as [Hpos|Hneg].
  - rewrite Z.max_l, (Z.max_r (- e)), Z.pow_0_r by lia.
    assert (0 < Zpos p * 10 ^ e) as Hp by (assert (0 < 10 ^ e) by (apply Z.pow_pos_nonneg; lia); lia).
    destruct (Zpos p * 10 ^ e) as [|v|]; [lia| |lia].
    destruct neg; [change (-1 * Zpos v) with (Zneg v)|rewrite Z.mul_1_l]; apply normalize_position.
  - rewrite Z.max_r, (Z.max_l (- e)), Z.pow_0_r, Z.mul_1_r by lia.
    destruct (div_position neg p (Z.to_pos (10 ^ (- e)))) as (E & mrs & Hpos & Heq).
    rewrite Z2Pos.id in Hpos by (apply Z.pow_pos_nonneg; lia). eauto.
Qed.

(** Decimals of the same value read as the same double. *)
Lemma dec_same neg m e m' e' :
  0 < m → 0 < m' → -400 ≤ e ≤ 400 → -400 ≤ e' ≤ 400 → dec_num m e * dec_den e' = dec_num m' e' * dec_den e →
  num_of_dec neg (Z.to_N m) e = num_of_dec neg (Z.to_N m') e'.
Proof.
  intros Hm Hm' He He' Heq.
  destruct (dec_position neg m e Hm He) as (E & mrs & Hp & ->). destruct (dec_position neg m' e' Hm' He') as (E' & mrs' & Hp' & ->).
  destruct (position_unique _ _ _ _ _ _ _ _ (dec_den_pos e) (dec_den_pos e') Heq Hp Hp') as [-> ->]. done.
Qed.

Lemma finish_opp E mrs : finish true E mrs = SFopp (finish false E mrs).
Proof.
  unfold finish, pack. destruct (_ =? _); [by destruct (_ <=? _)|].
  destruct (round_nearest_even _ _); try done. by destruct (_ <=? _).
Qed.

Lemma dec_opp m e : 0 < m → -400 ≤ e ≤ 400 → num_of_dec true (Z.to_N m) e = SFopp (num_of_dec false (Z.to_N m) e).
Proof.
  intros Hm He. destruct (dec_position true m e Hm He) as (E & mrs & Hp & ->).
  destruct (dec_position false m e Hm He) as (E' & mrs' & Hp' & ->). rewrite finish_opp.
  by destruct (position_unique _ _ _ _ _ _ _ _ (dec_den_pos e) (dec_den_pos e) eq_refl Hp Hp') as [-> ->].
Qed.

(** ** Nearness *)

(** A double in its one form. *)
Definition canonical (m : positive) (e : Z) : Prop :=
  -1074 ≤ e ≤ 971 ∧ Zpos m < 2 ^ 53 ∧ (e = -1074 ∨ 2 ^ 52 ≤ Zpos m).

Lemma bounded_canonical m e : bounded 53 1024 m e = true ↔ canonical m e.
Proof.
  unfold bounded, canonical_mantissa, canonical. rewrite andb_true_iff, Z.eqb_eq, Z.leb_le.
  set (d := Zpos (digits2_pos m)). pose proof (proj1 (digits_bounds m d) eq_refl) as B. unfold fexp, emin. split.
  - intros [H1 H2]. split; [lia|]. assert (d ≤ 53) as Hd by lia.
    assert (2 ^ d ≤ 2 ^ 53) by (apply Z.pow_le_mono_r; lia). split; [lia|].
    destruct (decide (e = -1074)) as [|Hne]; [by left|right]. assert (d = 53) as E by lia. rewrite E in B. lia.
  - intros (He & Ht & Hn). split; [|lia].
    assert (d ≤ 53) as Hd.
    { destruct (Z.le_gt_cases d 53) as [|Hg]; [done|]. assert (2 ^ 53 ≤ 2 ^ (d - 1)) by (apply Z.pow_le_mono_r; lia). lia. }
    destruct Hn as [->|Hn]; [lia|]. assert (53 ≤ d); [|lia].
    destruct (Z.le_gt_cases 53 d) as [|Hg]; [done|]. assert (2 ^ d ≤ 2 ^ 52) by (apply Z.pow_le_mono_r; lia). lia.
Qed.

(** The value [A / B] is less than half a gap away from the double. *)
Definition near (A B : Z) (m : positive) (e : Z) : Prop :=
  let u := 2 ^ (e + 1074) * B in
  let v := A * 2 ^ 1074 in
  2 * v < (2 * Zpos m + 1) * u ∧ (2 * Zpos m - 1) * u < 2 * v
  ∧ (Zpos m = 2 ^ 52 → (4 * Zpos m - 1) * u < 4 * v).

Lemma near_finish s A B m e E mrs :
  canonical m e → 0 < B → near A B m e → position A B E mrs → finish s E mrs = S754_finite s m e.
Proof.
  intros (He & Ht & Hn) HB (Hup & Hlow & Hbin) Hpos. set (u := 2 ^ (e + 1074) * B) in *. set (v := A * 2 ^ 1074) in *.
  assert (0 < u) as Hu by (assert (0 < 2 ^ (e + 1074)) by (apply Z.pow_pos_nonneg; lia); unfold u; nia).
  assert (∀ E' mrs', position A B E' mrs' → finish s E' mrs' = S754_finite s m e → finish s E mrs = S754_finite s m e) as Huse.
  { intros E' mrs' Hp'. by destruct (position_unique A B A B E E' mrs mrs' HB HB eq_refl Hpos Hp') as [-> ->]. }
  assert (∀ M E', M = Zpos m → E' = e → pack s M E' = S754_finite s m e) as Hpack.
  { intros M E' -> ->. unfold pack. by rewrite (proj2 (Z.leb_le e 971)) by lia. }
  destruct (Z.le_gt_cases (Zpos m * u) v) as [Hge|Hlt].
  - apply (Huse e (Build_shr_record (Zpos m) false (negb (v =? Zpos m * u)))).
    + split; [lia|done|done|]. unfold at_loc. cbn [shr_m shr_r shr_s]. fold u v.
      split_and!; [done|lia|]. destruct (Z.eqb_spec v (Zpos m * u)); cbn [negb]; lia.
    + unfold finish. cbn [shr_m]. destruct (negb _); cbn [loc_of_shr_record round_nearest_even];
        (destruct (Z.eqb_spec (Zpos m) (2 ^ 53)); [lia|by apply Hpack]).
  - destruct (decide (Zpos m = 2 ^ 52 ∧ e ≠ -1074)) as [[Em Hne]|Hint].
    + apply (Huse (e - 1) (Build_shr_record (2 ^ 53 - 1) true true)).
      * specialize (Hbin Em). split; [lia|done|right; cbn [shr_m]; lia|]. unfold at_loc. cbn [shr_m shr_r shr_s]. fold v.
        assert (u = 2 * (2 ^ (e - 1 + 1074) * B)) as Eu.
        { unfold u. rewrite Z.mul_assoc, <-Z.pow_succ_r by lia. f_equal. f_equal. lia. }
        set (h := 2 ^ (e - 1 + 1074) * B) in *. lia.
      * unfold finish. cbn [shr_m loc_of_shr_record round_nearest_even]. change (2 ^ 53 - 1 + 1 =? 2 ^ 53) with true.
        cbv iota. apply Hpack; lia.
    + apply (Huse e (Build_shr_record (Zpos m - 1) true true)).
      * split; [lia|cbn [shr_m]; lia|cbn [shr_m]; lia|]. unfold at_loc. cbn [shr_m shr_r shr_s]. fold u v. lia.
      * unfold finish. cbn [shr_m loc_of_shr_record round_nearest_even].
        destruct (Z.eqb_spec (Zpos m - 1 + 1) (2 ^ 53)); [lia|]. apply Hpack; lia.
Qed.

Lemma dec_near s m e d k :
  canonical m e → 0 < d → -400 ≤ k ≤ 400 → near (dec_num d k) (dec_den k) m e →
  num_of_dec s (Z.to_N d) k = S754_finite s m e.
Proof.
  intros Hc Hd Hk Hn. destruct (dec_position s d k Hd Hk) as (E & mrs & Hp & ->).
  by eapply near_finish; [done|apply dec_den_pos|..].
Qed.
