(* ===== verification/NumberText.v ===== *)
(** * Numbers as text

    [String(n)] of a double reads back as the same double: 17 digits are always
    enough to tell it from its neighbours, and each of the notations of the
    language denotes the value of its digits. *)

From stdpp Require Import sorting.
From S2P Require Import Prelude StableSort JsValue NumFacts JsCollections FloatError NumRounding.

(** ** The decimal exponent *)

(** A comparison of fractions does not depend on how the power is divided. *)
Lemma ratio_le c a b p q p' q' :
  1 < c → 0 ≤ p → 0 ≤ q → 0 ≤ p' → 0 ≤ q' → p - q = p' - q' → b * c ^ p ≤ a * c ^ q → b * c ^ p' ≤ a * c ^ q'.
Proof.
  intros Hc Hp Hq Hp' Hq' Heq H. destruct (Z.le_gt_cases q q') as [Hle|Hgt].
  - replace p' with (p + (q' - q)) by lia. replace q' with (q + (q' - q)) at 2 by lia.
    rewrite !Z.pow_add_r, !Z.mul_assoc by lia. apply Z.mul_le_mono_nonneg_r; [apply Z.pow_nonneg; lia|done].
  - apply (Z.mul_le_mono_pos_r _ _ (c ^ (q - q'))); [apply Z.pow_pos_nonneg; lia|].
    rewrite <-!Z.mul_assoc, <-!Z.pow_add_r by lia.
    replace (p' + (q - q')) with p by lia. by replace (q' + (q - q')) with q by lia.
Qed.

Lemma ratio_lt c a b p q p' q' :
  1 < c → 0 ≤ p → 0 ≤ q → 0 ≤ p' → 0 ≤ q' → p - q = p' - q' → a * c ^ q < b * c ^ p → a * c ^ q' < b * c ^ p'.
Proof.
  intros Hc Hp Hq Hp' Hq' Heq H. apply Z.nle_gt. intros H'. apply Z.lt_nge in H. apply H.
  apply (ratio_le c a b p' q' p q); lia.
Qed.

Lemma pow10_leb_true k m e :
  pow10_leb k m e = true ↔ 10 ^ Z.max k 0 * 2 ^ Z.max (- e) 0 ≤ m * 2 ^ Z.max e 0 * 10 ^ Z.max (- k) 0.
Proof. unfold pow10_leb. lia. Qed.

Lemma pow10_leb_false k m e :
  pow10_leb k m e = false ↔ m * 2 ^ Z.max e 0 * 10 ^ Z.max (- k) 0 < 10 ^ Z.max k 0 * 2 ^ Z.max (- e) 0.
Proof. unfold pow10_leb. lia. Qed.

(** A double lies between two powers of 2. *)
Lemma above_power k m e L : 0 < m → L = Z.log2 m + e → pow10_leb k 1 L = true → pow10_leb k m e = true.
Proof.
  rewrite !pow10_leb_true. intros Hm -> H. pose proof (Z.log2_nonneg m). pose proof (Z.log2_spec m Hm) as [Hl _].
  rewrite Z.mul_1_l in H. rewrite (Z.mul_comm (2 ^ _)) in H.
  apply (ratio_le 2 _ _ _ _ (Z.max (- e) 0) (Z.max e 0 + Z.log2 m)) in H; [|lia..].
  eapply Z.le_trans; [exact H|]. rewrite Z.pow_add_r by lia.
  rewrite (Z.mul_comm (m * _)). apply Z.mul_le_mono_nonneg_l; [apply Z.pow_nonneg; lia|].
  rewrite (Z.mul_comm m). apply Z.mul_le_mono_nonneg_l; [apply Z.pow_nonneg; lia|done].
Qed.

Lemma below_power k m e L : 0 < m → L = Z.log2 m + e → pow10_leb k 1 (L + 1) = false → pow10_leb k m e = false.
Proof.
  rewrite !pow10_leb_false. intros Hm -> H. pose proof (Z.log2_nonneg m). pose proof (Z.log2_spec m Hm) as [_ Hl].
  rewrite Z.mul_1_l in H. rewrite (Z.mul_comm (2 ^ _)) in H.
  apply (ratio_lt 2 _ _ _ _ (Z.max (- e) 0) (Z.max e 0 + (Z.log2 m + 1))) in H; [|lia..].
  eapply Z.le_lt_trans; [|exact H]. rewrite Z.pow_add_r by lia.
  rewrite (Z.mul_comm (m * _)). apply Z.mul_le_mono_nonneg_l; [apply Z.pow_nonneg; lia|].
  rewrite (Z.mul_comm m). apply Z.mul_le_mono_nonneg_l; [apply Z.pow_nonneg; lia|]. rewrite Z.add_1_r. lia.
Qed.

Lemma dec_exponent_spec fuel n m e :
  pow10_leb (n - 1) m e = true → pow10_leb (n + Z.of_nat fuel) m e = false →
  let r := dec_exponent fuel n m e in
  pow10_leb (r - 1) m e = true ∧ pow10_leb r m e = false ∧ n ≤ r ≤ n + Z.of_nat fuel.
Proof.
  revert n. induction fuel as [|f IH]; intros n Hlo Hhi; cbn [dec_exponent].
  { rewrite Z.add_0_r in Hhi. split_and!; [done..|lia|lia]. }
  destruct (pow10_leb n m e) eqn:En; [|split_and!; [done..|lia|lia]].
  destruct (IH (n + 1)) as (H1 & H2 & H3); [by replace (n + 1 - 1) with n by lia|by rewrite <-Hhi; f_equal; lia|].
  split_and!; [done..|lia|lia].
Qed.

(** The decimal logarithm of 2 is between 3/10 and 28/93. *)
Lemma pow10_le_pow2 a b : 0 ≤ a → 0 ≤ b → 10 * a ≤ 3 * b → 10 ^ a ≤ 2 ^ b.
Proof.
  intros Ha Hb H. apply Z.nlt_ge. intros Hlt.
  pose proof (Z.pow_lt_mono_l (2 ^ b) (10 ^ a) 10 ltac:(lia) (conj (Z.pow_nonneg 2 b ltac:(lia)) Hlt)) as Hp. clear Hlt. rename Hp into Hlt.
  rewrite <-!Z.pow_mul_r in Hlt by lia. apply Z.lt_nge in Hlt. apply Hlt.
  rewrite (Z.mul_comm b), (Z.pow_mul_r 2 10) by lia.
  eapply Z.le_trans; [apply (Z.pow_le_mono_r 10 _ (3 * b)); lia|]. rewrite Z.pow_mul_r by lia.
  apply Z.pow_le_mono_l. lia.
Qed.

Lemma pow2_le_pow10 a b : 0 ≤ a → 0 ≤ b → 28 * b ≤ 93 * a → 2 ^ b ≤ 10 ^ a.
Proof.
  intros Ha Hb H. apply Z.nlt_ge. intros Hlt.
  pose proof (Z.pow_lt_mono_l (10 ^ a) (2 ^ b) 93 ltac:(lia) (conj (Z.pow_nonneg 10 a ltac:(lia)) Hlt)) as Hp. clear Hlt. rename Hp into Hlt.
  rewrite <-!Z.pow_mul_r in Hlt by lia. apply Z.lt_nge in Hlt. apply Hlt.
  rewrite (Z.mul_comm b), (Z.pow_mul_r 2 93) by lia.
  eapply Z.le_trans; [|apply (Z.pow_le_mono_r 10 (28 * b)); lia]. rewrite Z.pow_mul_r by lia.
  apply Z.pow_le_mono_l. lia.
Qed.

(** The estimate is at least one below the exponent and at most eight. *)
Definition estimate_at (L : Z) : Z := L * 30103 / 100000 - 1.

Lemma estimate_bounds L : -1100 ≤ L ≤ 1100 →
  100000 * estimate_at L ≤ 30103 * L - 100000 < 100000 * estimate_at L + 100000.
Proof. intros _. unfold estimate_at. pose proof (Z.div_mod (L * 30103) 100000 ltac:(lia)). pose proof (Z.mod_pos_bound (L * 30103) 100000 ltac:(lia)). lia. Qed.

Lemma estimate_low L : -1100 ≤ L ≤ 1100 → pow10_leb (estimate_at L - 1) 1 L = true.
Proof.
  intros HL. pose proof (estimate_bounds L HL). apply pow10_leb_true. set (k := estimate_at L - 1) in *.
  destruct (Z.le_gt_cases 0 L).
  - rewrite (Z.max_r (- L)), (Z.max_l L), Z.pow_0_r, Z.mul_1_r, Z.mul_1_l by lia.
    destruct (Z.le_gt_cases k 0).
    + rewrite Z.max_r, Z.pow_0_r by lia. assert (0 < 2 ^ L) by (apply Z.pow_pos_nonneg; lia).
      assert (0 < 10 ^ Z.max (- k) 0) by (apply Z.pow_pos_nonneg; lia). nia.
    + rewrite (Z.max_l k), (Z.max_r (- k)), Z.pow_0_r, Z.mul_1_r by lia. apply pow10_le_pow2; lia.
  - rewrite (Z.max_l (- L)), (Z.max_r L), (Z.max_r k), (Z.max_l (- k)), !Z.pow_0_r, !Z.mul_1_l by lia.
    apply pow2_le_pow10; lia.
Qed.

Lemma estimate_high L : -1100 ≤ L ≤ 1100 → pow10_leb (estimate_at L + 8) 1 (L + 1) = false.
Proof.
  intros HL. pose proof (estimate_bounds L HL). apply pow10_leb_false. set (k := estimate_at L + 8) in *.
  destruct (Z.le_gt_cases 0 (L + 1)).
  - rewrite (Z.max_r (- (L + 1))), (Z.max_l (L + 1)), (Z.max_l k), (Z.max_r (- k)), !Z.pow_0_r, !Z.mul_1_r, Z.mul_1_l by lia.
    eapply Z.le_lt_trans; [apply (pow2_le_pow10 (k - 1)); lia|]. apply Z.pow_lt_mono_r; lia.
  - rewrite (Z.max_l (- (L + 1))), (Z.max_r (L + 1)), Z.pow_0_r, !Z.mul_1_l by lia.
    destruct (Z.le_gt_cases k 0).
    + rewrite (Z.max_r k), (Z.max_l (- k)), Z.pow_0_r, Z.mul_1_l by lia.
      eapply Z.le_lt_trans; [apply (pow10_le_pow2 _ (- (L + 1) - 1)); lia|]. apply Z.pow_lt_mono_r; lia.
    + rewrite (Z.max_l k), (Z.max_r (- k)), Z.pow_0_r by lia.
      assert (1 < 10 ^ k) by (apply Z.pow_gt_1; lia). assert (1 < 2 ^ (- (L + 1))) by (apply Z.pow_gt_1; lia). nia.
Qed.

Lemma log2_range m e : canonical m e → -1074 ≤ Z.log2 (Zpos m) + e ≤ 1023.
Proof.
  intros (He & Ht & _). pose proof (Z.log2_nonneg (Zpos m)).
  assert (Z.log2 (Zpos m) < 53) by (apply Z.log2_lt_pow2; lia). lia.
Qed.

Lemma decimal_exponent m e : canonical m e →
  let n := dec_exponent 8 (dec_estimate m e) (Zpos m) e in
  pow10_leb (n - 1) (Zpos m) e = true ∧ pow10_leb n (Zpos m) e = false ∧ -330 ≤ n ≤ 320.
Proof.
  intros Hc. pose proof (log2_range m e Hc) as HL. set (L := Z.log2 (Zpos m) + e) in *.
  change (dec_estimate m e) with (estimate_at L).
  destruct (dec_exponent_spec 8 (estimate_at L) (Zpos m) e) as (R1 & R2 & R3).
  - apply (above_power _ _ _ L); [done..|]. apply estimate_low. lia.
  - apply (below_power _ _ _ L); [done..|]. apply estimate_high. lia.
  - cbv zeta in *. split_and!; [done..| |].
    + assert (-325 ≤ estimate_at L); [|lia]. unfold estimate_at.
      assert (-324 ≤ L * 30103 / 100000) by (apply Z.div_le_lower_bound; lia). lia.
    + assert (estimate_at L ≤ 310); [|lia]. unfold estimate_at.
      assert (L * 30103 / 100000 < 309) by (apply Z.div_lt_upper_bound; lia). lia.
Qed.

(** ** The shortest digits *)

Definition scaled_num (m e n k : Z) : Z := m * 2 ^ Z.max e 0 * 10 ^ Z.max (k - n) 0.
Definition scaled_den (e n k : Z) : Z := 2 ^ Z.max (- e) 0 * 10 ^ Z.max (n - k) 0.

Lemma pow_pos b n : 0 < b → 0 ≤ n → 0 < b ^ n.
Proof. intros. by apply Z.pow_pos_nonneg. Qed.

Lemma scaled_den_pos e n k : 0 < scaled_den e n k.
Proof. unfold scaled_den. apply Z.mul_pos_pos; apply pow_pos; lia. Qed.

Section double.
Context (m : positive) (e n : Z).
Context (Hc : canonical m e) (Hlow : pow10_leb (n - 1) (Zpos m) e = true) (Hhigh : pow10_leb n (Zpos m) e = false).
Context (Hn : -330 ≤ n ≤ 320).

Lemma scaled_bounds k : 1 ≤ k →
  10 ^ (k - 1) * scaled_den e n k ≤ scaled_num (Zpos m) e n k < 10 ^ k * scaled_den e n k.
Proof.
  intros Hk. unfold scaled_num, scaled_den.
  rewrite !(Z.mul_comm (2 ^ Z.max (- e) 0)), !Z.mul_assoc, <-!Z.pow_add_r, !(Z.mul_comm (10 ^ _) (2 ^ Z.max (- e) 0)) by lia. split.
  - apply pow10_leb_true in Hlow. rewrite (Z.mul_comm (10 ^ _)) in Hlow.
    apply (ratio_le 10 _ _ _ _ (k - 1 + Z.max (n - k) 0) (Z.max (k - n) 0)) in Hlow; lia.
  - apply pow10_leb_false in Hhigh. rewrite (Z.mul_comm (10 ^ Z.max n 0)) in Hhigh.
    apply (ratio_lt 10 _ _ _ _ (k + Z.max (n - k) 0) (Z.max (k - n) 0)) in Hhigh; lia.
Qed.

Lemma quotient_bounds k : 1 ≤ k →
  let lo := scaled_num (Zpos m) e n k / scaled_den e n k in
  10 ^ (k - 1) ≤ lo < 10 ^ k
  ∧ lo * scaled_den e n k ≤ scaled_num (Zpos m) e n k < (lo + 1) * scaled_den e n k.
Proof.
  intros Hk lo. pose proof (scaled_den_pos e n k) as Hd. destruct (scaled_bounds k Hk) as [B1 B2]. split.
  - split; [apply Z.div_le_lower_bound|apply Z.div_lt_upper_bound]; lia.
  - pose proof (Z.div_mod (scaled_num (Zpos m) e n k) (scaled_den e n k) ltac:(lia)).
    pose proof (Z.mod_pos_bound (scaled_num (Zpos m) e n k) (scaled_den e n k) Hd). unfold lo. lia.
Qed.

(** The nearest decimal with 17 digits reads as the double. *)
Lemma nearest_17 d :
  0 < d → 2 * Z.abs (scaled_num (Zpos m) e n 17 - d * scaled_den e n 17) ≤ scaled_den e n 17 →
  num_of_dec false (Z.to_N d) (n - 17) = S754_finite false m e.
Proof.
  intros Hd Habs. pose proof Hc as (He & Ht & Hnorm). apply dec_near; [done|done|lia|].
  destruct (scaled_bounds 17 ltac:(lia)) as [Hb _].
  set (c := 2 ^ (1074 - Z.max (- e) 0)). assert (0 < c) as Hcp by (apply pow_pos; lia).
  unfold near, dec_num, dec_den. set (u := 2 ^ (e + 1074) * 10 ^ Z.max (- (n - 17)) 0).
  set (g := 10 ^ Z.max (n - 17) 0 * 2 ^ 1074).
  assert (scaled_num (Zpos m) e n 17 * c = Zpos m * u) as Enum.
  { unfold scaled_num, u, c. replace (17 - n) with (- (n - 17)) by lia.
    transitivity (Zpos m * (2 ^ Z.max e 0 * 2 ^ (1074 - Z.max (- e) 0)) * 10 ^ Z.max (- (n - 17)) 0); [ring|].
    rewrite <-Z.pow_add_r by lia. replace (Z.max e 0 + (1074 - Z.max (- e) 0)) with (e + 1074) by lia. ring. }
  assert (scaled_den e n 17 * c = g) as Eden.
  { unfold scaled_den, g, c.
    transitivity (10 ^ Z.max (n - 17) 0 * (2 ^ Z.max (- e) 0 * 2 ^ (1074 - Z.max (- e) 0))); [ring|].
    rewrite <-Z.pow_add_r by lia. f_equal. f_equal. lia. }
  assert (d * 10 ^ Z.max (n - 17) 0 * 2 ^ 1074 = d * g) as -> by (unfold g; ring).
  assert (0 < g) as Hg by (rewrite <-Eden; apply Z.mul_pos_pos; [apply scaled_den_pos|done]).
  assert (10 ^ 16 * g ≤ Zpos m * u) as Hgu.
  { rewrite <-Enum, <-Eden, Z.mul_assoc. apply Z.mul_le_mono_nonneg_r; [lia|exact Hb]. }
  assert (2 * Z.abs (Zpos m * u - d * g) ≤ g) as Hdist.
  { rewrite <-Enum, <-Eden. replace (scaled_num (Zpos m) e n 17 * c - d * (scaled_den e n 17 * c))
      with ((scaled_num (Zpos m) e n 17 - d * scaled_den e n 17) * c) by ring.
    rewrite Z.abs_mul, (Z.abs_eq c) by lia. nia. }
  assert (0 < u) as Hu by (unfold u; apply Z.mul_pos_pos; apply pow_pos; lia).
  assert (g < u) as Hlt by nia. split_and!; [lia|lia|]. intros Em. rewrite Em in *. nia.
Qed.

Lemma shortest_at_17 : shortest_at m e n 17 ≠ None.
Proof.
  unfold shortest_at. fold (scaled_num (Zpos m) e n 17) (scaled_den e n 17).
  destruct (quotient_bounds 17 ltac:(lia)) as [Hlo Hfl]. set (lo := scaled_num (Zpos m) e n 17 / scaled_den e n 17) in *.
  set (num := scaled_num (Zpos m) e n 17) in *. set (den := scaled_den e n 17) in *.
  assert (num_eqb (num_of_dec false (Z.to_N lo) (n - 17)) (S754_finite false m e) = true
    ∨ num_eqb (num_of_dec false (Z.to_N (lo + 1)) (n - 17)) (S754_finite false m e) = true) as H.
  { assert (num_eqb (S754_finite false m e) (S754_finite false m e) = true) as Hr.
    { unfold num_eqb, SFeqb, SFcompare. by rewrite Z.compare_refl, pos_compare_Z, Z.compare_refl. }
    destruct (Z.lt_ge_cases (2 * (num - lo * den)) den) as [Hh|Hh]; [left|right].
    - rewrite nearest_17; [done|lia|]. fold num den. lia.
    - rewrite nearest_17; [done|lia|]. fold num den. lia. }
  cbv zeta. destruct H as [-> | ->]; [by destruct (num_eqb _ _)|by destruct (num_eqb _ _)].
Qed.

Lemma shortest_at_sound k s : 1 ≤ k → shortest_at m e n k = Some s →
  num_of_dec false (Z.to_N s) (n - k) = S754_finite false m e ∧ 10 ^ (k - 1) ≤ s ≤ 10 ^ k.
Proof.
  intros Hk Hs. assert (∀ x, num_eqb x (S754_finite false m e) = true → x = S754_finite false m e) as Heq.
  { intros [|[]| |[] m' e']; try done. unfold num_eqb, SFeqb, SFcompare. rewrite pos_compare_Z.
    destruct (Z.compare_spec e' e) as [->| |]; [|done..]. destruct (Z.compare_spec (Zpos m') (Zpos m)) as [E| |]; [|done..].
    intros _. f_equal. lia. }
  unfold shortest_at in Hs. fold (scaled_num (Zpos m) e n k) (scaled_den e n k) in Hs.
  destruct (quotient_bounds k Hk) as [Hlo _]. set (lo := scaled_num (Zpos m) e n k / scaled_den e n k) in *. cbv zeta in Hs.
  destruct (num_eqb (num_of_dec false (Z.to_N lo) (n - k)) _) eqn:E1, (num_eqb (num_of_dec false (Z.to_N (lo + 1)) (n - k)) _) eqn:E2;
    simplify_eq; [destruct (_ <? _)| |]; split; try lia; by apply Heq.
Qed.

Lemma shortest_found fuel k : 1 ≤ k ≤ 17 → (18 - k < Z.of_nat fuel + 0) →
  ∃ s k', shortest fuel m e n k = (s, k') ∧ 1 ≤ k' ≤ 17 ∧ shortest_at m e n k' = Some s.
Proof.
  revert k. induction fuel as [|f IH]; intros k Hk Hf; [lia|]. cbn [shortest].
  destruct (shortest_at m e n k) as [s|] eqn:Es; [exists s, k; split_and!; [done|lia|lia|done]|].
  destruct (decide (k = 17)) as [->|Hne]; [by destruct (shortest_at_17)|]. apply IH; lia.
Qed.
End double.

(** The digits that [pos_to_string] writes, after a carry. *)
Definition shown_digits (m : positive) (e : Z) : Z * Z :=
  let n0 := dec_exponent 8 (dec_estimate m e) (Zpos m) e in
  let '(s0, k0) := shortest 18 m e n0 1 in
  if s0 =? 10 ^ k0 then (10 ^ (k0 - 1), n0 + 1) else (s0, n0).

Lemma shown_digits_spec m e : canonical m e →
  ∃ s n k, shown_digits m e = (s, n) ∧ 1 ≤ k ≤ 17 ∧ 10 ^ (k - 1) ≤ s < 10 ^ k ∧ -330 ≤ n ≤ 321
    ∧ num_of_dec false (Z.to_N s) (n - k) = S754_finite false m e.
Proof.
  intros Hc. destruct (decimal_exponent m e Hc) as (Hlow & Hhigh & Hn). unfold shown_digits.
  set (n0 := dec_exponent 8 (dec_estimate m e) (Zpos m) e) in *.
  destruct (shortest_found m e n0 Hc Hlow Hhigh Hn 18 1) as (s & k & -> & Hk & Hs); [lia|lia|].
  destruct (shortest_at_sound m e n0 Hlow Hhigh k s ltac:(lia) Hs) as [Hv Hb].
  destruct (Z.eqb_spec s (10 ^ k)) as [->|Hne].
  - exists (10 ^ (k - 1)), (n0 + 1), k. split_and!; [done|lia|lia|lia|apply Z.pow_lt_mono_r; lia|lia|lia|].
    rewrite <-Hv. apply dec_same; [apply pow_pos; lia|apply pow_pos; lia|lia|lia|].
    unfold dec_num, dec_den. rewrite <-!Z.pow_add_r by lia. f_equal. lia.
  - exists s, n0, k. split_and!; try done; lia.
Qed.

(** ** Decimal digits *)

Abbreviation digit_word := (Forall (λ c, is_digit c = true)).

Lemma digits_value_lt w : digit_word w → (digits_value w < 10 ^ N.of_nat (length w))%N.
Proof.
  induction w as [|c w IH] using rev_ind; intros Hw; [done|]. apply list.Forall_app in Hw as [Hw Hc].
  apply list.Forall_cons in Hc as [Hc _]. rewrite digits_value_app, length_app. cbn [length].
  replace (digits_value [c]) with (c - 48)%N by (unfold digits_value; cbn; lia).
  specialize (IH Hw). unfold is_digit in Hc. apply andb_prop in Hc as [Hc1%N.leb_le Hc2%N.leb_le].
  replace (N.of_nat (length w + 1)) with (N.succ (N.of_nat (length w))) by lia. rewrite N.pow_succ_r'. change (10 ^ N.of_nat 1)%N with 10%N. lia.
Qed.

Lemma digits_go_length f n acc k : (n < 10 ^ N.of_nat (S k))%N → (length (digits_go f n acc) ≤ S k + length acc)%nat.
Proof.
  revert n acc k. induction f as [|f IH]; intros n acc k Hn; cbn [digits_go]; [lia|].
  destruct (N.ltb_spec n 10); [cbn [length]; lia|]. destruct k as [|k].
  { exfalso. change (10 ^ N.of_nat 1)%N with 10%N in Hn. lia. }
  etransitivity; [apply (IH _ _ k)|cbn [length]; lia].
  apply N.Div0.div_lt_upper_bound. by rewrite <-N.pow_succ_r', <-Nat2N.inj_succ.
Qed.

Lemma digits_length n k : (10 ^ N.of_nat k ≤ n < 10 ^ N.of_nat (S k))%N → length (digits n) = S k.
Proof.
  intros [Hlo Hhi]. apply Nat.le_antisymm.
  - pose proof (digits_go_length (S (N.to_nat (N.size n))) n [] k Hhi) as H. cbn [length] in H. unfold digits. lia.
  - pose proof (digits_value_lt _ (digits_digits n)) as H. rewrite digits_value_digits in H.
    assert (10 ^ N.of_nat k < 10 ^ N.of_nat (length (digits n)))%N as Hp by lia.
    apply N.pow_lt_mono_r_iff in Hp; lia.
Qed.

Lemma digits_head n k : (10 ^ N.of_nat k ≤ n < 10 ^ N.of_nat (S k))%N → list.head (digits n) ≠ Some 48%N.
Proof.
  intros Hn Hh. pose proof (digits_length n k Hn) as Hl. pose proof (digits_digits n) as Hd.
  pose proof (digits_value_digits n) as Hv. destruct (digits n) as [|c w]; [done|]. injection Hh as ->.
  apply list.Forall_cons in Hd as [_ Hd]. change (48%N :: w) with ([48%N] ++ w) in Hv. rewrite digits_value_app in Hv.
  change (digits_value [48%N]) with 0%N in Hv. pose proof (digits_value_lt w Hd) as Hlt.
  cbn [length] in Hl. replace (length w) with k in Hlt by lia. lia.
Qed.

Lemma digits_value_zeros n : digits_value (zeros n) = 0%N.
Proof.
  unfold zeros. induction (Z.to_nat n) as [|k IH]; [done|]. cbn [replicate].
  change (48%N :: replicate k 48%N) with ([48%N] ++ replicate k 48%N). rewrite digits_value_app, IH. done.
Qed.

Lemma zeros_digits n : digit_word (zeros n).
Proof. unfold zeros. by apply Forall_replicate. Qed.

(** ** The notations *)

(** The text of a fraction and of an exponent, which may be missing. *)
Definition dot_text (fp : jstr) : jstr := match fp with [] => [] | _ => 46%N :: fp end.
Inductive exp_text : jstr → Z → Prop :=
| exp_none : exp_text [] 0
| exp_some sg d : d ≠ [] → digit_word d →
    exp_text (101%N :: (if sg : bool then 45%N else 43%N) :: d) ((if sg then -1 else 1) * Z.of_N (digits_value d)).

(** [w] is a decimal in the notation of JSON with the digits of [v] and the
    exponent [e]. *)
Definition decimal_word (w : jstr) (v : N) (e : Z) : Prop :=
  ∃ ip fp ex z, w = ip ++ dot_text fp ++ ex ∧ ip ≠ [] ∧ digit_word ip ∧ digit_word fp ∧ exp_text ex z
    ∧ (list.head ip = Some 48%N → length ip = 1%nat) ∧ v = digits_value (ip ++ fp) ∧ e = z - Z.of_nat (length fp).

Definition layout (s n : Z) : jstr :=
  let ds := digits (Z.to_N s) in
  let k := Z.of_nat (length ds) in
  if (k <=? n) && (n <=? 21) then ds ++ zeros (n - k)
  else if (0 <? n) && (n <=? 21) then take (Z.to_nat n) ds ++ js "." ++ drop (Z.to_nat n) ds
  else if (-6 <? n) && (n <=? 0) then js "0." ++ zeros (- n) ++ ds
  else
    let ex := (if n - 1 <? 0 then js "-" else js "+") ++ digits (Z.to_N (Z.abs (n - 1))) in
    if k =? 1 then ds ++ js "e" ++ ex else take 1 ds ++ js "." ++ drop 1 ds ++ js "e" ++ ex.

Lemma pos_to_string_layout m e : pos_to_string m e = let '(s, n) := shown_digits m e in layout s n.
Proof. unfold pos_to_string, shown_digits. by destruct (shortest _ _ _ _ _) as [s0 k0]. Qed.

Lemma exponent_text n :
  exp_text (js "e" ++ (if n - 1 <? 0 then js "-" else js "+") ++ digits (Z.to_N (Z.abs (n - 1)))) (n - 1).
Proof.
  pose proof (exp_some (n - 1 <? 0) (digits (Z.to_N (Z.abs (n - 1)))) (digits_nonempty _) (digits_digits _)) as H.
  rewrite digits_value_digits in H. rewrite Z2N.id in H by lia.
  destruct (Z.ltb_spec (n - 1) 0); [replace (-1 * Z.abs (n - 1)) with (n - 1) in H by lia|replace (1 * Z.abs (n - 1)) with (n - 1) in H by lia]; exact H.
Qed.

Lemma head_take {A} (l : list A) k : (0 < k)%nat → list.head (take k l) = list.head l.
Proof. intros Hk. destruct k; [lia|]. by destruct l. Qed.

(** Each layout denotes the digits with the exponent. *)
Lemma layout_word s n k : 1 ≤ k ≤ 17 → 10 ^ (k - 1) ≤ s < 10 ^ k → -330 ≤ n ≤ 321 →
  ∃ v e, decimal_word (layout s n) v e ∧ ∀ neg, num_of_dec neg v e = num_of_dec neg (Z.to_N s) (n - k).
Proof.
  intros Hk Hs Hn. assert (0 < 10 ^ (k - 1)) as Hp by (apply pow_pos; lia).
  assert (10 ^ N.of_nat (Z.to_nat (k - 1)) ≤ Z.to_N s < 10 ^ N.of_nat (S (Z.to_nat (k - 1))))%N as HN.
  { split; apply N2Z.inj_le || apply N2Z.inj_lt; rewrite N2Z.inj_pow, Z2N.id, nat_N_Z by lia; change (Z.of_N 10) with 10.
    - rewrite Z2Nat.id by lia. lia.
    - replace (Z.of_nat (S (Z.to_nat (k - 1)))) with k by lia. lia. }
  pose proof (digits_length _ _ HN) as Hl. pose proof (digits_head _ _ HN) as Hh. pose proof (digits_value_digits (Z.to_N s)) as Hv.
  pose proof (digits_digits (Z.to_N s)) as Hd. unfold layout. set (ds := digits (Z.to_N s)) in *.
  assert (Z.of_nat (length ds) = k) as Hlk by lia. rewrite Hlk. clearbody ds.
  destruct ((k <=? n) && (n <=? 21)) eqn:E1; [|destruct ((0 <? n) && (n <=? 21)) eqn:E2; [|destruct ((-6 <? n) && (n <=? 0)) eqn:E3]].
  - exists (Z.to_N s * 10 ^ Z.to_N (n - k))%N, 0. split.
    + exists (ds ++ zeros (n - k)), [], [], 0. cbn [dot_text app length]. rewrite !app_nil_r.
      split_and!; [done|by destruct ds|apply list.Forall_app; split; [done|apply zeros_digits]|done|constructor|by destruct ds| |done].
      rewrite digits_value_app, Hv, digits_value_zeros, N.add_0_r. unfold zeros. rewrite length_replicate. f_equal. f_equal. lia.
    + intros neg. replace (Z.to_N s * 10 ^ Z.to_N (n - k))%N with (Z.to_N (s * 10 ^ (n - k))) by (rewrite Z2N.inj_mul, Z2N.inj_pow by lia; done).
      assert (0 < 10 ^ (n - k)) by (apply pow_pos; lia).
      apply dec_same; [nia|lia|lia|lia|]. unfold dec_num, dec_den.
      rewrite (Z.max_r 0 0), (Z.max_l (n - k)), (Z.max_r (- (n - k))), (Z.max_r (- 0)), !Z.pow_0_r by lia. ring.
  - exists (Z.to_N s), (n - k). split; [|done].
    exists (take (Z.to_nat n) ds), (drop (Z.to_nat n) ds), [], 0.
    assert (length (take (Z.to_nat n) ds) = Z.to_nat n) as Hlt by (rewrite length_take; lia).
    split_and!; [|by intros H; rewrite H in Hlt; cbn in Hlt; lia|by apply Forall_take|by apply Forall_drop|constructor| | |].
    + rewrite app_nil_r. destruct (drop (Z.to_nat n) ds) eqn:Ed; [|done].
      assert (length (drop (Z.to_nat n) ds) = 0%nat) as H0 by (by rewrite Ed). rewrite length_drop in H0. lia.
    + intros H. rewrite head_take in H by lia. done.
    + by rewrite take_drop.
    + rewrite length_drop. lia.
  - exists (Z.to_N s), (n - k). split; [|done].
    exists [48%N], (zeros (- n) ++ ds), [], 0. split_and!; [| done | by repeat constructor | apply list.Forall_app; split; [apply zeros_digits|done] | constructor | done | | ].
    + rewrite app_nil_r. by destruct (zeros (- n) ++ ds) eqn:Ez; [destruct (zeros (- n)), ds|].
    + change ([48%N] ++ zeros (- n) ++ ds) with (zeros 1 ++ zeros (- n) ++ ds).
      by rewrite !digits_value_app, !digits_value_zeros, Hv.
    + rewrite length_app. unfold zeros. rewrite length_replicate. lia.
  - exists (Z.to_N s), (n - k). split; [|done]. pose proof (exponent_text n) as Hex.
    set (ex := js "e" ++ (if n - 1 <? 0 then js "-" else js "+") ++ digits (Z.to_N (Z.abs (n - 1)))) in *.
    destruct (Z.eqb_spec k 1) as [->|Hk1].
    + exists ds, [], ex, (n - 1). split_and!; [done|by destruct ds|done|done|exact Hex|done|by rewrite app_nil_r|cbn; lia].
    + exists (take 1 ds), (drop 1 ds), ex, (n - 1). split_and!; [|by destruct ds|by apply Forall_take|by apply Forall_drop|exact Hex| | |].
      * destruct ds as [|c [|c' w]]; [done|cbn in Hl; lia|done].
      * intros H. by rewrite head_take in H by lia.
      * by rewrite take_drop.
      * rewrite length_drop. lia.
Qed.

(** ** Reading *)

Definition ends_number (r : jstr) : Prop :=
  ∀ c t, r = c :: t → is_digit c = false ∧ c ≠ 46%N ∧ c ≠ 101%N ∧ c ≠ 69%N.

Lemma span_digits_app w r : digit_word w → (∀ c t, r = c :: t → is_digit c = false) → span_digits (w ++ r) = (w, r).
Proof.
  intros Hw Hr. induction Hw as [|c w Hc Hw IH]; cbn [app span_digits].
  - destruct r as [|c t]; [done|]. cbn [span_digits]. by rewrite (Hr c t eq_refl).
  - by rewrite Hc, IH.
Qed.

Lemma parse_exponent_text ex z r : exp_text ex z → ends_number r → parse_exponent (ex ++ r) = Some (z, r).
Proof.
  intros Hex Hr. destruct Hex as [|sg d Hne Hd].
  - cbn [app]. unfold parse_exponent. destruct r as [|c t]; [done|]. destruct (Hr c t eq_refl) as (_ & _ & H1 & H2).
    by rewrite (proj2 (N.eqb_neq c 101) H1), (proj2 (N.eqb_neq c 69) H2).
  - cbn [app]. assert (span_digits (d ++ r) = (d, r)) as Hsp by (apply span_digits_app; [done|intros c t E; by destruct (Hr c t E)]).
    unfold parse_exponent. cbn [orb N.eqb Pos.eqb]. destruct sg; cbn; rewrite Hsp; by destruct d.
Qed.

Lemma fraction_starts fp ex z r c t :
  exp_text ex z → ends_number r → dot_text fp ++ ex ++ r = c :: t → is_digit c = false.
Proof.
  intros Hex Hr. destruct fp as [|f fp]; [|by intros [= <- _]]. cbn [dot_text app].
  destruct Hex; [|by intros [= <- _]]. cbn [app]. intros E. by destruct (Hr c t E).
Qed.

(** What follows the digits of the integer part. *)
Lemma fraction_split fp ex z r : digit_word fp → exp_text ex z → ends_number r →
  match dot_text fp ++ ex ++ r with 46%N :: t => fp ≠ [] ∧ t = fp ++ ex ++ r ∧ span_digits t = (fp, ex ++ r) | _ => fp = [] end.
Proof.
  intros Hfp Hex Hr.
  assert (∀ c t, ex ++ r = c :: t → is_digit c = false ∧ c ≠ 46%N) as Hno.
  { intros c t. destruct Hex; [|by intros [= <- _]]. cbn [app]. intros E. by destruct (Hr c t E) as (? & ? & _). }
  destruct fp as [|f fp]; cbn [dot_text app].
  - destruct (ex ++ r) as [|c t] eqn:E; [done|]. destruct (Hno c t eq_refl) as [_ Hne].
    destruct c as [|c]; [done|]. do 6 (destruct c as [c|c|]; try done).
  - split_and!; [done|done|]. apply (span_digits_app (f :: fp)); [done|]. intros c t E. by destruct (Hno c t E).
Qed.

Lemma truthy_ne (w : jstr) : w ≠ [] → truthy w = true.
Proof. by destruct w. Qed.

Definition split_sign (s : jstr) : bool * jstr := match s with 45%N :: r => (true, r) | _ => (false, s) end.
Definition json_fraction (s : jstr) : option (jstr * jstr) :=
  match s with 46%N :: r => let '(d, r') := span_digits r in if truthy d then Some (d, r') else None | _ => Some ([], s) end.
Definition number_fraction (s : jstr) : jstr * jstr := match s with 46%N :: r => span_digits r | _ => ([], s) end.

Lemma split_sign_word neg ip r : ip ≠ [] → digit_word ip →
  split_sign ((if neg : bool then js "-" else []) ++ ip ++ r) = (neg, ip ++ r).
Proof.
  intros Hne Hip. destruct neg; [done|]. cbn [app]. destruct ip as [|c ip]; [done|]. apply list.Forall_cons in Hip as [Hc _].
  cbn [app]. destruct c as [|c]; [done|]. do 6 (destruct c as [c|c|]; try done).
Qed.

Lemma fraction_word fp ex z r : digit_word fp → exp_text ex z → ends_number r →
  json_fraction (dot_text fp ++ ex ++ r) = Some (fp, ex ++ r) ∧ number_fraction (dot_text fp ++ ex ++ r) = (fp, ex ++ r).
Proof.
  intros Hfp Hex Hr. pose proof (fraction_split fp ex z r Hfp Hex Hr) as Hsplit. destruct fp as [|f fp]; cbn [dot_text app] in *.
  - destruct (ex ++ r) as [|c t] eqn:E; [done|]. destruct c as [|c]; [done|].
    do 6 (destruct c as [c|c|]; try done). by destruct Hsplit.
  - destruct Hsplit as (_ & _ & Hsp). unfold json_fraction, number_fraction. by rewrite Hsp.
Qed.

Lemma parse_number_word w v e neg r : decimal_word w v e → ends_number r →
  parse_number ((if neg : bool then js "-" else []) ++ w ++ r) = Some (num_of_dec neg v e, r).
Proof.
  intros (ip & fp & ex & z & -> & Hne & Hip & Hfp & Hex & Hz & -> & ->) Hr.
  assert (∀ s, parse_number s = let '(neg, s1) := split_sign s in let '(ip, s2) := span_digits s1 in
    if negb (truthy ip) || (bool_decide (head ip = Some 48%N) && (1 <? Z.of_nat (length ip))) then None
    else '(fp, s3) ← json_fraction s2; '(ex, s4) ← parse_exponent s3;
         Some (num_of_dec neg (digits_value (ip ++ fp)) (ex - Z.of_nat (length fp)), s4)) as -> by done.
  rewrite <-!app_assoc, split_sign_word by done.
  rewrite span_digits_app; [|done|by intros c t; apply (fraction_starts _ _ z)].
  rewrite (truthy_ne ip) by done. cbn [negb orb].
  assert (bool_decide (list.head ip = Some 48%N) && (1 <? Z.of_nat (length ip)) = false) as ->.
  { destruct (decide (list.head ip = Some 48%N)) as [Hh|Hh]; [rewrite (Hz Hh); by rewrite andb_false_r|by rewrite bool_decide_eq_false_2]. }
  destruct (fraction_word fp ex z r Hfp Hex Hr) as [-> _]. cbn [mbind option_bind].
  by rewrite (parse_exponent_text ex z r).
Qed.

Lemma decimal_of_word w v e neg : decimal_word w v e → decimal neg w = Some (num_of_dec neg v e).
Proof.
  intros (ip & fp & ex & z & -> & Hne & Hip & Hfp & Hex & Hz & -> & ->).
  assert (∀ s, decimal neg s = let '(ip, s1) := span_digits s in let '(fp, s2) := number_fraction s1 in
    if negb (truthy ip) && negb (truthy fp) then None
    else '(ex, s3) ← parse_exponent s2;
         if truthy s3 then None else Some (num_of_dec neg (digits_value (ip ++ fp)) (ex - Z.of_nat (length fp)))) as -> by done.
  assert (ends_number []) as Hr by done. rewrite <-(app_nil_r ex).
  rewrite span_digits_app; [|done|by intros c t; apply (fraction_starts _ _ z)].
  destruct (fraction_word fp ex z [] Hfp Hex Hr) as [_ ->].
  rewrite (truthy_ne ip) by done. cbn [negb andb]. by rewrite (parse_exponent_text ex z []).
Qed.

Lemma word_no_ws w v e : decimal_word w v e → Forall (λ c, is_ws c = false) w.
Proof.
  assert (∀ d, digit_word d → Forall (λ c, is_ws c = false) d) as Hdw.
  { intros d Hd. eapply list.Forall_impl; [exact Hd|]. intros c Hc. by apply digit_not_ws. }
  intros (ip & fp & ex & z & -> & _ & Hip & Hfp & Hex & _). rewrite !list.Forall_app. split_and!; [by apply Hdw| |].
  - destruct fp as [|f fp]; [constructor|]. constructor; [done|by apply Hdw].
  - destruct Hex as [|sg d _ Hd]; [constructor|]. constructor; [done|]. constructor; [by destruct sg|by apply Hdw].
Qed.

Lemma Number_digit c w : is_digit c = true → c ≠ 48%N → trim (c :: w) = c :: w →
  Number (c :: w) = default S754_nan (signed_decimal false (c :: w)).
Proof.
  intros Hc Hne Ht. unfold Number. rewrite Ht. destruct c as [|c]; [done|]. do 6 (destruct c as [c|c|]; try done).
Qed.

Lemma Number_zero x w : x = 46%N ∨ x = 101%N → trim (48%N :: x :: w) = 48%N :: x :: w →
  Number (48%N :: x :: w) = default S754_nan (decimal false (48%N :: x :: w)).
Proof. intros Hx Ht. unfold Number. rewrite Ht. by destruct Hx as [-> | ->]. Qed.

Lemma Number_minus w : trim (45%N :: w) = 45%N :: w → Number (45%N :: w) = default S754_nan (signed_decimal true w).
Proof. intros Ht. unfold Number. by rewrite Ht. Qed.

Lemma signed_word w v e neg : decimal_word w v e → signed_decimal neg w = Some (num_of_dec neg v e).
Proof.
  intros Hw. unfold signed_decimal. rewrite (decimal_of_word w v e) by done.
  destruct Hw as (ip & fp & ex & z & -> & Hne & Hip & _). destruct ip as [|c ip]; [done|].
  apply list.Forall_cons in Hip as [Hc _]. cbn [app].
  rewrite jeqb_neq; [done|]. intros E. apply (f_equal list.head) in E. apply (inj Some) in E. by subst c.
Qed.

Lemma Number_word w v e neg : decimal_word w v e →
  Number ((if neg : bool then js "-" else []) ++ w) = num_of_dec neg v e.
Proof.
  intros Hw. pose proof (word_no_ws w v e Hw) as Hws.
  destruct neg.
  - change (js "-" ++ w) with (45%N :: w). rewrite Number_minus by (apply trim_no_ws; by constructor).
    by rewrite (signed_word w v e).
  - cbn [app]. pose proof (trim_no_ws w Hws) as Ht. pose proof (signed_word w v e false Hw) as Hs.
    pose proof (decimal_of_word w v e false Hw) as Hd.
    destruct Hw as (ip & fp & ex & z & -> & Hne & Hip & _ & Hex & Hz & Hv & He). destruct ip as [|c ip]; [done|].
    apply list.Forall_cons in Hip as [Hc _]. cbn [app] in *. destruct (decide (c = 48%N)) as [->|Hc0].
    + specialize (Hz eq_refl). destruct ip; [|done]. cbn [app] in *.
      destruct (dot_text fp ++ ex) as [|x t] eqn:Ex.
      * destruct fp; [|done]. cbn [app length] in *. destruct Hex; [|done]. subst v e. vm_compute. done.
      * rewrite Number_zero; [by rewrite Hd| |done]. destruct fp; [|left; by injection Ex].
        destruct Hex; [done|right; by injection Ex].
    + rewrite Number_digit by done. by rewrite Hs.
Qed.

(** ** Round trips *)

(** The values of the type [number]: spec_float has more mantissas. *)
Definition is_double (x : jsnum) : bool := valid_binary 53 1024 x.

Lemma zero_word : decimal_word (js "0") 0 0.
Proof. exists [48%N], [], [], 0. split_and!; try done; by repeat constructor. Qed.

Lemma number_word x : is_double x = true → isFinite x = true → x ≠ S754_zero true →
  ∃ neg w v e, num_to_string x = (if neg : bool then js "-" else []) ++ w ∧ decimal_word w v e ∧ num_of_dec neg v e = x.
Proof.
  destruct x as [[]|s| |s m e]; try done; intros Hx _ _.
  - exists false, (js "0"), 0%N, 0. split_and!; [done|apply zero_word|done].
  - apply bounded_canonical in Hx. destruct (shown_digits_spec m e Hx) as (d & n & k & Ed & Hk & Hd & Hn & Hv).
    destruct (layout_word d n k Hk Hd Hn) as (v & ex & Hw & Heq).
    exists s, (layout d n), v, ex. split_and!; [cbn [num_to_string]; by rewrite pos_to_string_layout, Ed|done|].
    rewrite Heq. destruct s; [|done]. assert (0 < 10 ^ (k - 1)) by (apply pow_pos; lia). by rewrite dec_opp, Hv by lia.
Qed.

(** The text of every number but the negative zero reads back as the number. *)
Lemma number_text x : is_double x = true → x ≠ S754_zero true → Number (num_to_string x) = x.
Proof.
  intros Hx Hz. destruct (isFinite x) eqn:Hf.
  - destruct (number_word x Hx Hf Hz) as (neg & w & v & e & -> & Hw & <-). by apply Number_word.
  - destruct x as [| | |]; [done| |done|done]. destruct s; vm_compute; done.
Qed.

(** The numbers that their text denotes: all but the negative zero. *)
Definition readable (x : jsnum) : Prop := is_double x = true ∧ x ≠ S754_zero true.
Definition readableb (x : jsnum) : bool :=
  is_double x && match x with S754_zero s => negb s | _ => true end.

Lemma readableb_true x : readableb x = true → readable x.
Proof. intros [Hd Hz]%andb_true_iff. split; [done|]. by intros ->. Qed.

Lemma readable_text x : readable x → Number (num_to_string x) = x.
Proof. intros [? ?]. by apply number_text. Qed.

Lemma number_json x r : is_double x = true → isFinite x = true → x ≠ S754_zero true → ends_number r →
  parse_number (num_to_string x ++ r) = Some (x, r).
Proof.
  intros Hx Hf Hz Hr. destruct (number_word x Hx Hf Hz) as (neg & w & v & e & -> & Hw & <-).
  rewrite <-app_assoc. by apply parse_number_word.
Qed.

(** Arithmetic gives doubles. *)
Lemma finish_double s A B E mrs : position A B E mrs → is_double (finish s E mrs) = true.
Proof.
  intros [He Ht Hn Hl]. unfold finish. set (M := round_nearest_even _ _).
  assert (M = shr_m mrs ∨ M = shr_m mrs + 1) as HM by apply round_choice.
  destruct (Z.eqb_spec M (2 ^ 53)).
  - unfold pack. change (2 ^ 52) with (Zpos (Z.to_pos (2 ^ 52))). destruct (Z.leb_spec (E + 1) 971); [|done].
    apply bounded_canonical. split_and!; [lia|lia|done|right; done].
  - unfold pack. destruct M as [|p|] eqn:EM; [done| |done]. destruct (Z.leb_spec E 971); [|done].
    apply bounded_canonical. split_and!; [lia|lia|lia|lia].
Qed.

Lemma num_of_dec_double neg m e : is_double (num_of_dec neg m e) = true.
Proof.
  unfold num_of_dec. destruct m as [|p]; [done|]. destruct (400 <? e); [done|]. destruct (_ <? -400); [done|].
  destruct (Z.leb_spec 0 e).
  - assert (0 < Zpos p * 10 ^ e) as Hp by (assert (0 < 10 ^ e) by (apply pow_pos; lia); lia).
    destruct (Zpos p * 10 ^ e) as [|q|]; [lia| |lia].
    destruct neg; [change (-1 * Zpos q) with (Zneg q)|rewrite Z.mul_1_l]; cbn [binary_normalize].
    + destruct (normalize_position true q) as (E & mrs & Hpos & ->). by eapply finish_double.
    + destruct (normalize_position false q) as (E & mrs & Hpos & ->). by eapply finish_double.
  - destruct (div_position neg p (Z.to_pos (10 ^ (- e)))) as (E & mrs & Hpos & ->). by eapply finish_double.
Qed.
