(* ===== verification/AuthSession.v ===== *)
(** * The login session of one browser tab

    [AuthStore] models [stores/auth-store.ts]; [SessionSync] models
    [lib/auth-session-sync.ts]; [SessionHint] models [lib/session-hint.ts];
    [AuthSession] models [lib/auth-session.ts]: the validation of server
    replies, the refresh state machine with its bounded retries, the
    single-flight refresh and the operations that race with it.  The tab is a
    record [World]; every synchronous block of the code is a function on it,
    and [step] says which blocks the event loop may run next. *)

From S2P Require Import Prelude JsValue.

Module AuthStore.

Record LoginSession := mkSession {
  sid : jstr;
  current : bool;
  login_method : jstr;
  ip : jstr;
  user_agent : jstr;
  created_at : jsnum;
  last_active_at : jsnum;
  expires_at : jsnum;
}.

(** The three validated fields, and the object itself: the optional fields are
    never checked and are kept as they came. *)
Record AuthUser := mkUser {
  user_id : jsnum;
  username : jstr;
  role : jsnum;
  user_object : json;
}.

Record AuthBundle := mkBundle {
  access_token : jstr;
  token_type : jstr;
  access_expires_at : jsnum;
  bundle_user : AuthUser;
  bundle_session : LoginSession;
}.

Inductive AuthBootstrapState := idle | checking | complete.

Record AuthState := mkAuth {
  user : option AuthUser;
  accessToken : option jstr;
  accessExpiresAt : option jsnum;
  session : option LoginSession;
  pending2FAFlowToken : option jstr;
  bootstrapState : AuthBootstrapState;
}.

Definition initial : AuthState := mkAuth None None None None None idle.

Definition setBundle (b : AuthBundle) (s : AuthState) : AuthState :=
  mkAuth (Some (bundle_user b)) (Some (access_token b)) (Some (access_expires_at b))
    (Some (bundle_session b)) None complete.

Definition setUser (u : option AuthUser) (s : AuthState) : AuthState :=
  mkAuth u (accessToken s) (accessExpiresAt s) (session s)
    (pending2FAFlowToken s) (bootstrapState s).

Definition setPending2FAFlowToken (t : option jstr) (s : AuthState) : AuthState :=
  mkAuth (user s) (accessToken s) (accessExpiresAt s) (session s) t (bootstrapState s).

Definition setBootstrapState (b : AuthBootstrapState) (s : AuthState) : AuthState :=
  mkAuth (user s) (accessToken s) (accessExpiresAt s) (session s)
    (pending2FAFlowToken s) b.

Definition reset (b : AuthBootstrapState) (s : AuthState) : AuthState :=
  mkAuth None None None None None b.

(** [auth.session?.sid] *)
Definition session_sid (s : AuthState) : option jstr := sid <$> session s.

End AuthStore.
Import AuthStore.

(** ** Cross-tab events *)
Module SessionSync.

Inductive kind := authenticated_kind | signed_out_kind.

Record AuthSessionSyncEvent := mkEvent {
  ev_kind : kind;
  ev_sid : jstr;
  ev_source : jstr;
  ev_nonce : jstr;
  ev_timestamp : jsnum;
}.

Definition kind_name (k : kind) : jstr :=
  match k with authenticated_kind => js "authenticated" | signed_out_kind => js "signed_out" end.

(** The object the channel carries (structured clone or JSON text). *)
Definition event_object (e : AuthSessionSyncEvent) : json :=
  JObj [(js "kind", JStr (kind_name (ev_kind e))); (js "sid", JStr (ev_sid e));
        (js "source", JStr (ev_source e)); (js "nonce", JStr (ev_nonce e));
        (js "timestamp", JNum (ev_timestamp e))].

Definition as_kind (v : option json) : option kind :=
  match v with
  | Some (JStr k) => if k === js "authenticated" then Some authenticated_kind
                     else if k === js "signed_out" then Some signed_out_kind else None
  | _ => None
  end.

(** The type guard: the event the value denotes when it accepts it. *)
Definition isAuthSessionSyncEvent (v : json) : option AuthSessionSyncEvent :=
  if negb (json_truthy v) || negb (typeof_object v) then None
  else
    k ← as_kind (jget (js "kind") v);
    match jget (js "sid") v, jget (js "source") v, jget (js "nonce") v,
          jget (js "timestamp") v with
    | Some (JStr s), Some (JStr src), Some (JStr n), Some (JNum t) =>
        if truthy s then Some (mkEvent k s src n t) else None
    | _, _, _, _ => None
    end.

(** [publishAuthSessionEvent]: the event put on the channel, if any. *)
Definition publishAuthSessionEvent (has_window : bool) (source nonce : jstr) (now : Z)
    (k : kind) (s : jstr) : option AuthSessionSyncEvent :=
  if negb has_window || negb (truthy s) then None
  else Some (mkEvent k s source nonce (num_of_Z now)).

Definition num_abs (n : jsnum) : jsnum :=
  match n with
  | S754_zero _ => S754_zero false
  | S754_infinity _ => S754_infinity false
  | S754_finite _ m e => S754_finite false m e
  | S754_nan => S754_nan
  end.

(** [Math.abs(Date.now() - timestamp) < 60_000] *)
Definition recent (now : Z) (t : jsnum) : bool :=
  num_ltb (num_abs (SFsub 53 1024 (num_of_Z now) t)) (num_of_Z 60000).

(** The [deliver] closure of [subscribeAuthSessionEvents]: the event handed to
    the listener of the tab whose identifier is [source], if any. *)
Definition deliver (source : jstr) (now : Z) (v : json) : option AuthSessionSyncEvent :=
  e ← isAuthSessionSyncEvent v;
  if negb (ev_source e === source) && recent now (ev_timestamp e) then Some e else None.

End SessionSync.

(** ** The session hint cookie *)
Module SessionHint.

Definition SESSION_HINT_COOKIE_NAME : jstr := js "new_api_has_session".

Fixpoint read_parts (parts : list jstr) (name : jstr) : option jstr :=
  match parts with
  | [] => None
  | part :: rest =>
      match indexOf part (js "=") with
      | None => read_parts rest name
      | Some i => if trim (take i part) === name then Some (trim (drop (i + 1) part))
                  else read_parts rest name
      end
  end.

Definition readCookie (cookieHeader name : jstr) : option jstr :=
  read_parts (split1 59%N cookieHeader) name.

(** [document_cookie] is [None] where there is no [document]. *)
Definition hasSessionHint (document_cookie : option jstr) : bool :=
  match document_cookie with
  | None => true
  | Some c => bool_decide (is_Some (readCookie c SESSION_HINT_COOKIE_NAME))
  end.

End SessionHint.

Module AuthSession.
Import SessionSync SessionHint.

(** ** Validation of what the server sends *)

Definition isRecord (v : option json) : bool :=
  match v with Some w => json_truthy w && typeof_object w | None => false end.

Definition get (k : string) (v : option json) : option json := jget_opt (js k) v.

Definition is_string (v : option json) : bool :=
  match v with Some (JStr _) => true | _ => false end.
Definition is_number (v : option json) : bool :=
  match v with Some (JNum _) => true | _ => false end.
Definition is_boolean (v : option json) : bool :=
  match v with Some (JBool _) => true | _ => false end.
(** [typeof v === 'string' && v.length > 0] *)
Definition nonempty_string (v : option json) : bool :=
  match v with Some (JStr s) => truthy s | _ => false end.

Definition isAuthUser (v : option json) : bool :=
  isRecord v &&
  match get "id" v with
  | Some (JNum n) => isInteger n && num_ltb (num_of_Z 0) n
  | _ => false
  end &&
  is_string (get "username" v) && is_number (get "role" v).

Definition isLoginSession (v : option json) : bool :=
  isRecord v &&
  nonempty_string (get "sid" v) &&
  is_boolean (get "current" v) &&
  is_string (get "login_method" v) &&
  is_string (get "ip" v) &&
  is_string (get "user_agent" v) &&
  is_number (get "created_at" v) &&
  is_number (get "last_active_at" v) &&
  is_number (get "expires_at" v).

Definition hasValidTokenFields (v : option json) : bool :=
  nonempty_string (get "access_token" v) &&
  nonempty_string (get "token_type" v) &&
  match get "access_expires_at" v with
  | Some (JNum n) => isFinite n && num_ltb (num_of_Z 0) n
  | _ => false
  end.

Definition isAuthBundle (v : option json) : bool :=
  isRecord v && hasValidTokenFields v &&
  isAuthUser (get "user" v) && isLoginSession (get "session" v).

(** The typed view of an accepted value (TypeScript's type predicates). *)
Definition as_string (v : option json) : option jstr :=
  match v with Some (JStr s) => Some s | _ => None end.
Definition as_number (v : option json) : option jsnum :=
  match v with Some (JNum n) => Some n | _ => None end.
Definition as_bool (v : option json) : option bool :=
  match v with Some (JBool b) => Some b | _ => None end.

Definition as_session (v : option json) : option LoginSession :=
  s ← as_string (get "sid" v); c ← as_bool (get "current" v);
  m ← as_string (get "login_method" v); i ← as_string (get "ip" v);
  u ← as_string (get "user_agent" v); ca ← as_number (get "created_at" v);
  la ← as_number (get "last_active_at" v); ea ← as_number (get "expires_at" v);
  Some (mkSession s c m i u ca la ea).

Definition as_user (v : option json) : option AuthUser :=
  o ← v; i ← as_number (get "id" v); n ← as_string (get "username" v);
  r ← as_number (get "role" v); Some (mkUser i n r o).

Definition as_bundle (v : option json) : option AuthBundle :=
  t ← as_string (get "access_token" v); ty ← as_string (get "token_type" v);
  e ← as_number (get "access_expires_at" v); u ← as_user (get "user" v);
  s ← as_session (get "session" v); Some (mkBundle t ty e u s).

(** [parseBundle] of [runRefresh]. *)
Definition parseBundle (v : option json) : option AuthBundle :=
  if isAuthBundle v then as_bundle v else None.

Definition isAuthTokenRotation (v : option json) : bool :=
  isRecord v && hasValidTokenFields v &&
  match get "token_type" v with Some (JStr t) => t === js "Bearer" | _ => false end &&
  isLoginSession (get "session" v) &&
  match get "current" (get "session" v) with Some (JBool b) => b | _ => false end.

(** ** Refresh outcomes and the generic refresh runner *)

(** The [unknown] error value of a transient outcome: the superseded marker,
    the exception of the request, or the response body. *)
Inductive RefreshError :=
| Superseded
| RequestError (e : jstr)
| ResponseData (d : option json)
| LockError.

Inductive RefreshOutcome :=
| authenticated (bundle : AuthBundle)
| anonymous
| transient_error (error : RefreshError)
| out_of_sync (code : option jstr).

Record AuthRefreshHTTPResponse := mkResponse {
  status : Z;
  data : option json;
  error : option jstr;
}.

(** [AuthRefreshRuntime], over an explicit state [S]. *)
Record AuthRefreshRuntime (S : Type) := mkRuntime {
  getExpectedSID : S → option jstr;
  parse_bundle : option json → option AuthBundle;
  acceptBundle : AuthBundle → S → S;
  clear : bool → option AuthBootstrapState → S → S;
  markTransient : S → S;
  isCurrent : option (S → bool);
}.
Arguments getExpectedSID {S}.
Arguments parse_bundle {S}.
Arguments acceptBundle {S}.
Arguments clear {S}.
Arguments markTransient {S}.
Arguments isCurrent {S}.

Definition refreshRaceDelays : list Z := [80; 200; 500].

(** Where a run of the refresh is suspended: on the request sent with an
    expected session id, on a race delay, or nowhere any more. *)
Inductive Phase :=
| Requesting (raceAttempt : nat) (allowMismatchRetry : bool) (expectedSID : option jstr)
| Waiting (delay : Z) (raceAttempt : nat) (allowMismatchRetry : bool)
| Settled (outcome : RefreshOutcome).

Section runner.
Context {S : Type} (rt : AuthRefreshRuntime S).

Definition notCurrent (s : S) : bool :=
  match isCurrent rt with Some f => negb (f s) | None => false end.

(** The head of [run], up to the [await] of the request. *)
Definition run_enter (raceAttempt : nat) (allow : bool) (s : S) : Phase :=
  if notCurrent s then Settled (transient_error Superseded)
  else Requesting raceAttempt allow (getExpectedSID rt s).

(** The rest of [run], from the response to the next suspension. *)
Definition run_response (raceAttempt : nat) (allow : bool)
    (response : AuthRefreshHTTPResponse) (s : S) : S * Phase :=
  if notCurrent s then (s, Settled (transient_error Superseded))
  else
    let responseData := if isRecord (data response) then data response else None in
    let code := as_string (get "code" responseData) in
    let bundle := parse_bundle rt (get "data" responseData) in
    match get "success" responseData, bundle with
    | Some (JBool true), Some b => (acceptBundle rt b s, Settled (authenticated b))
    | _, _ =>
        if (status response =? 409) && bool_decide (code = Some (js "AUTH_REFRESH_RACE")) then
          match refreshRaceDelays !! raceAttempt with
          | Some delay => (s, Waiting delay (raceAttempt + 1) allow)
          | None => (clear rt false None s, Settled (out_of_sync code))
          end
        else if (status response =? 409)
                && bool_decide (code = Some (js "AUTH_SESSION_MISMATCH")) then
          if allow then
            let s' := clear rt false (Some idle) s in (s', run_enter 0 false s')
          else (clear rt false None s, Settled (out_of_sync code))
        else if status response =? 401 then (clear rt true None s, Settled anonymous)
        else if (status response =? 0) || (500 <=? status response)
                || (status response =? 429) then
          (markTransient rt s,
           Settled (transient_error
             match error response with
             | Some e => RequestError e
             | None => ResponseData (data response)
             end))
        else (clear rt false None s,
              Settled (out_of_sync (Some (default (js "AUTH_INVALID_REFRESH_RESPONSE") code))))
    end.

(** After [runtime.wait(delay)]. *)
Definition run_timer (ph : Phase) (s : S) : option Phase :=
  match ph with
  | Waiting _ raceAttempt allow => Some (run_enter raceAttempt allow s)
  | _ => None
  end.
End runner.

Section drive.
Context {S : Type} (rt : AuthRefreshRuntime S).
(** The [n]-th reply, and what the rest of the application does to the state
    before the [n]-th resumption of the run. *)
Context (reply : nat → AuthRefreshHTTPResponse) (meanwhile : nat → S → S).

(** Runs the refresh to its end; [n] counts the resumptions and [k] the
    requests sent. *)
Fixpoint drive (fuel n k : nat) (ph : Phase) (s : S) : option (nat * S * RefreshOutcome) :=
  match ph, fuel with
  | Settled o, _ => Some (k, s, o)
  | _, O => None
  | Requesting a allow _, Datatypes.S f =>
      let '(s', ph') := run_response rt a allow (reply k) (meanwhile n s) in
      drive f (n + 1) (k + 1) ph' s'
  | Waiting _ a allow, Datatypes.S f =>
      let s' := meanwhile n s in drive f (n + 1) k (run_enter rt a allow s') s'
  end.

(** [createRefreshRunner(runtime)()] *)
Definition createRefreshRunner (fuel : nat) (s : S) : option (nat * S * RefreshOutcome) :=
  drive fuel 0 0 (run_enter rt 0 true s) s.
End drive.

(** ** One tab *)

(** What [navigator.locks] offers: absent, present, or present and throwing. *)
Inductive LockSupport := NoLocks | Locks | LocksThrow.

Inductive RefreshState :=
| QueuedOnLock                  (* [navigator.locks.request] has not called back *)
| Running (ph : Phase)
| Rejected.                     (* the promise is rejected *)

Record Refresh := mkRefresh { refreshEpoch : Z; refresh_state : RefreshState }.

Record World := mkWorld {
  store : AuthState;
  authEpoch : Z;
  refreshPromise : option Refresh;
  published : list AuthSessionSyncEvent;   (* events put on the channel, newest first *)
  clock : Z;                               (* Date.now(), milliseconds *)
}.

(** The browser, as far as this code sees it. *)
Record Browser := mkBrowser {
  has_window : bool;
  locks : LockSupport;
  authSyncSource : jstr;
  randomIdentifier : Z → jstr;             (* by the time of the call *)
  document_cookie : option jstr;
}.

Section tab.
Context (br : Browser).

Definition set_store (f : AuthState → AuthState) (w : World) : World :=
  mkWorld (f (store w)) (authEpoch w) (refreshPromise w) (published w) (clock w).
Definition set_promise (p : option Refresh) (w : World) : World :=
  mkWorld (store w) (authEpoch w) p (published w) (clock w).
Definition bump_epoch (w : World) : World :=
  mkWorld (store w) (authEpoch w + 1) (refreshPromise w) (published w) (clock w).

Definition publish (k : kind) (s : jstr) (w : World) : World :=
  match publishAuthSessionEvent (has_window br) (authSyncSource br)
          (randomIdentifier br (clock w)) (clock w) k s with
  | Some e => mkWorld (store w) (authEpoch w) (refreshPromise w) (e :: published w) (clock w)
  | None => w
  end.

Definition applyAuthBundle (b : AuthBundle) (synchronizeTabs : bool) (w : World) : World :=
  let previousSID := session_sid (store w) in
  let w' := set_store (setBundle b) (bump_epoch w) in
  if synchronizeTabs && negb (bool_decide (previousSID = Some (sid (bundle_session b))))
  then publish authenticated_kind (sid (bundle_session b)) w'
  else w'.

Inductive RotationError := InvalidRotation | NoActiveSession | SessionMismatch.

Definition applyAuthRotation (v : option json) (w : World) : World + RotationError :=
  if negb (isAuthTokenRotation v) then inr InvalidRotation
  else match user (store w), session (store w) with
       | Some u, Some cur =>
           match as_string (get "access_token" v), as_string (get "token_type" v),
                 as_number (get "access_expires_at" v), as_session (get "session" v) with
           | Some t, Some ty, Some e, Some s =>
               if negb (sid s === sid cur) then inr SessionMismatch
               else inl (applyAuthBundle (mkBundle t ty e u s) false w)
           | _, _, _, _ => inr InvalidRotation
           end
       | _, _ => inr NoActiveSession
       end.

Definition clearAuthentication (synchronizeTabs : bool) (b : AuthBootstrapState)
    (w : World) : World :=
  let old := session_sid (store w) in
  let w' := set_store (reset b) (bump_epoch w) in
  match old with
  | Some s => if synchronizeTabs && truthy s then publish signed_out_kind s w' else w'
  | None => w'
  end.

(** The runtime object of [runRefresh]. *)
Definition runtime (epoch : Z) : AuthRefreshRuntime World := {|
  getExpectedSID := λ w, session_sid (store w);
  parse_bundle := parseBundle;
  acceptBundle := λ b w, applyAuthBundle b false w;
  clear := λ synchronizeTabs bs w,
    match synchronizeTabs, bs with
    | false, Some idle => set_store (reset idle) w
    | _, _ => clearAuthentication synchronizeTabs (default complete bs) w
    end;
  markTransient := λ w, set_store (setBootstrapState idle) w;
  isCurrent := Some (λ w, authEpoch w =? epoch);
|}.

(** [runRefresh(epoch)], up to its first suspension. *)
Definition runRefresh (epoch : Z) (w : World) : Phase := run_enter (runtime epoch) 0 true w.

(** The synchronous part of [performRefreshWithBrowserLock]. *)
Definition performRefreshWithBrowserLock (epoch : Z) (w : World) : World * RefreshState :=
  match locks br with
  | NoLocks => (w, Running (runRefresh epoch w))
  | Locks => (w, QueuedOnLock)
  | LocksThrow => (set_store (setBootstrapState idle) w,
                   Running (Settled (transient_error LockError)))
  end.

Definition refreshAuthentication (w : World) : World :=
  match refreshPromise w with
  | Some _ => w
  | None =>
      let '(w', st) := performRefreshWithBrowserLock (authEpoch w) w in
      set_promise (Some (mkRefresh (authEpoch w) st)) w'
  end.

(** [Math.floor(Date.now() / 1000)] *)
Definition now_seconds (w : World) : jsnum := num_of_Z (clock w / 1000).

Definition currentValidAuthBundle (w : World) : option AuthBundle :=
  let auth := store w in
  match user auth, accessToken auth, accessExpiresAt auth, session auth with
  | Some u, Some t, Some e, Some s =>
      if negb (truthy t) || negb (num_truthy e) || num_leb e (now_seconds w) then None
      else Some (mkBundle t (js "Bearer") e u s)
  | _, _, _, _ => None
  end.

(** An asynchronous result: known now, or that of the refresh in flight. *)
Inductive Answer := Now (o : RefreshOutcome) | OfRefresh.

Definition resolveAuthentication (w : World) : World * Answer :=
  match currentValidAuthBundle w with
  | Some b => (set_store (setBootstrapState complete) w, Now (authenticated b))
  | None =>
      let auth := store w in
      let hasStaleSession := match user auth, session auth with
                             | Some _, Some _ => true | _, _ => false end in
      match bootstrapState auth, hasStaleSession with
      | complete, false => (w, Now anonymous)
      | _, _ => (refreshAuthentication (set_store (setBootstrapState checking) w), OfRefresh)
      end
  end.

Definition bootstrapAuthentication (w : World) : World * Answer :=
  match currentValidAuthBundle w, hasSessionHint (document_cookie br),
        user (store w), session (store w) with
  | None, false, None, None => (w, Now anonymous)
  | _, _, _, _ => resolveAuthentication w
  end.

Definition getCommonHeaders (w : World) : list (jstr * jstr) :=
  (js "Content-Type", js "application/json") ::
  match accessToken (store w) with
  | Some t => if truthy t then [(js "Authorization", js "Bearer " ++ t)] else []
  | None => []
  end.

(** [auth.accessToken && auth.accessExpiresAt && auth.accessExpiresAt > limit] *)
Definition token_outlives (limit : Z) (w : World) : bool :=
  match accessToken (store w), accessExpiresAt (store w) with
  | Some t, Some e => truthy t && num_truthy e && num_ltb (num_of_Z limit) e
  | _, _ => false
  end.

(** [getFreshAuthHeaders] before its [await]: the headers, or the refresh. *)
Definition getFreshAuthHeaders (w : World) : World * option (list (jstr * jstr)) :=
  if token_outlives (clock w / 1000 + 60) w then (w, Some (getCommonHeaders w))
  else (refreshAuthentication w, None).

Inductive HeadersError := RequestFailed (cause : RefreshError) | SessionExpired.

(** [getFreshAuthHeaders] after its [await]. *)
Definition getFreshAuthHeaders_resume (outcome : RefreshOutcome) (w : World)
    : list (jstr * jstr) + HeadersError :=
  match outcome with
  | authenticated _ => inl (getCommonHeaders w)
  | _ =>
      if token_outlives (clock w / 1000) w then inl (getCommonHeaders w)
      else match outcome with
           | transient_error e => inr (RequestFailed e)
           | _ => inr SessionExpired
           end
  end.

(** The listener the root route subscribes ([routes/__root.tsx]): the new
    state, and whether the page is reloaded. *)
Definition onSessionEvent (e : AuthSessionSyncEvent) (w : World) : World * bool :=
  let currentSID := session_sid (store w) in
  match ev_kind e with
  | authenticated_kind =>
      if bool_decide (Some (ev_sid e) = currentSID) then (w, false)
      else ((if truthy_opt currentSID then clearAuthentication false complete w else w), true)
  | signed_out_kind =>
      if truthy_opt currentSID && bool_decide (Some (ev_sid e) = currentSID)
      then (clearAuthentication false complete w, false) else (w, false)
  end.

(** ** The event loop *)

Inductive Event :=
| Login (b : AuthBundle) (synchronizeTabs : bool)
| Rotate (v : option json)
| Clear (synchronizeTabs : bool) (b : AuthBootstrapState)
| SetUser (u : option AuthUser)
| SetPending (t : option jstr)
| CallRefresh
| CallResolve
| CallBootstrap
| LockGranted
| LockRejected
| Response (r : AuthRefreshHTTPResponse)
| Timer
| Finally
| Broadcast (v : json)          (* a message on the channel *)
| Tick (now : Z).

Definition set_refresh_state (st : RefreshState) (w : World) : World :=
  match refreshPromise w with
  | Some r => set_promise (Some (mkRefresh (refreshEpoch r) st)) w
  | None => w
  end.

(** One turn of the event loop; [None] when the event cannot happen. *)
Definition step (w : World) (ev : Event) : option World :=
  match ev with
  | Login b sync => Some (applyAuthBundle b sync w)
  | Rotate v => match applyAuthRotation v w with inl w' => Some w' | inr _ => Some w end
  | Clear sync b => Some (clearAuthentication sync b w)
  | SetUser u => Some (set_store (setUser u) w)
  | SetPending t => Some (set_store (setPending2FAFlowToken t) w)
  | CallRefresh => Some (refreshAuthentication w)
  | CallResolve => Some (resolveAuthentication w).1
  | CallBootstrap => Some (bootstrapAuthentication w).1
  | LockGranted =>
      match refreshPromise w with
      | Some (mkRefresh ep QueuedOnLock) =>
          Some (set_refresh_state (Running (runRefresh ep w)) w)
      | _ => None
      end
  | LockRejected =>
      match refreshPromise w with
      | Some (mkRefresh ep QueuedOnLock) => Some (set_refresh_state Rejected w)
      | _ => None
      end
  | Response r =>
      match refreshPromise w with
      | Some (mkRefresh ep (Running (Requesting a allow _))) =>
          let '(w', ph) := run_response (runtime ep) a allow r w in
          Some (set_refresh_state (Running ph) w')
      | _ => None
      end
  | Timer =>
      match refreshPromise w with
      | Some (mkRefresh ep (Running ph)) =>
          ph' ← run_timer (runtime ep) ph w; Some (set_refresh_state (Running ph') w)
      | _ => None
      end
  | Finally =>
      match refreshPromise w with
      | Some (mkRefresh _ (Running (Settled _))) | Some (mkRefresh _ Rejected) =>
          Some (set_promise None w)
      | _ => None
      end
  | Broadcast v => match deliver (authSyncSource br) (clock w) v with
                   | Some e => Some (onSessionEvent e w).1
                   | None => Some w
                   end
  | Tick now => if clock w <=? now
                then Some (mkWorld (store w) (authEpoch w) (refreshPromise w) (published w) now)
                else None
  end.

Definition initial_world (now : Z) : World := mkWorld AuthStore.initial 0 None [] now.

Inductive reachable : World → Prop :=
| reach_init now : reachable (initial_world now)
| reach_step w ev w' : reachable w → step w ev = Some w' → reachable w'.
End tab.

End AuthSession.
