(* ===== verification/AuthSessionFacts.v ===== *)
(** * Properties of the login session

    Validation accepts exactly the well-formed bundles; the token fields of
    the store stand or fall together; a refresh that was superseded never
    writes; every refresh settles after at most eight requests; what each
    outcome leaves behind; rotation; cross-tab events. *)

From S2P Require Import Prelude JsValue AuthSession.
Import AuthStore SessionSync SessionHint AuthSession.

#[local] Arguments applyAuthBundle : simpl never.
#[local] Arguments clearAuthentication : simpl never.
#[local] Arguments publish : simpl never.

(** ** Validation *)

Record wf_session (s : LoginSession) : Prop := { wf_sid : sid s ≠ [] }.

Record wf_bundle (b : AuthBundle) : Prop := {
  wf_token : access_token b ≠ [];
  wf_type : token_type b ≠ [];
  wf_expiry : isFinite (access_expires_at b) = true
              ∧ num_ltb (num_of_Z 0) (access_expires_at b) = true;
  wf_user : isInteger (user_id (bundle_user b)) = true
            ∧ num_ltb (num_of_Z 0) (user_id (bundle_user b)) = true;
  wf_sess : wf_session (bundle_session b);
}.

(** Destructs the JSON scrutinees of accepted values. *)
Ltac json_cases :=
  repeat match goal with
  | H : context [match ?x with _ => _ end] |- _ =>
      lazymatch x with context [match _ with _ => _ end] => fail | _ => destruct x; try done end
  end.

Lemma isLoginSession_as_session v :
  isLoginSession v = true → ∃ s, as_session v = Some s ∧ wf_session s.
Proof.
  unfold isLoginSession, as_session, nonempty_string, is_string, is_number, is_boolean,
    as_string, as_number, as_bool. intros H. bsplit. json_cases.
  eexists. split; [done|]. constructor. by apply truthy_true.
Qed.

Lemma isAuthUser_as_user v :
  isAuthUser v = true → ∃ u, as_user v = Some u ∧
    isInteger (user_id u) = true ∧ num_ltb (num_of_Z 0) (user_id u) = true.
Proof.
  unfold isAuthUser, as_user, is_string, is_number, as_string, as_number.
  intros H. bsplit. destruct v as [o|]; [|done]. json_cases. bsplit.
  eexists. by split.
Qed.

Lemma parseBundle_accepts v :
  isAuthBundle v = true → ∃ b, parseBundle v = Some b ∧ wf_bundle b.
Proof.
  intros H. unfold parseBundle. rewrite H. revert H.
  unfold isAuthBundle, hasValidTokenFields, as_bundle. intros H. bsplit.
  destruct (isAuthUser_as_user (get "user" v)) as (u & -> & Hid & Hpos); [done|].
  destruct (isLoginSession_as_session (get "session" v)) as (s & -> & Hs); [done|].
  unfold nonempty_string, as_string, as_number in *. json_cases. bsplit.
  eexists. split; [done|]. constructor; try done; by apply truthy_true.
Qed.

(** The refresh accepts exactly the replies [isAuthBundle] accepts, and
    every accepted bundle has a non-empty token, token type and session id, a
    finite positive expiry and a positive integer user id. *)
Theorem parseBundle_spec v :
  match parseBundle v with
  | Some b => isAuthBundle v = true ∧ wf_bundle b
  | None => isAuthBundle v = false
  end.
Proof.
  destruct (isAuthBundle v) eqn:E.
  - by destruct (parseBundle_accepts v E) as (b & -> & Hb).
  - unfold parseBundle. by rewrite E.
Qed.

(** ** The store *)

(** Token, expiry and session are set together and cleared together. *)
Definition token_session_inv (s : AuthState) : Prop :=
  match accessToken s, accessExpiresAt s, session s with
  | Some t, Some e, Some ss => t ≠ [] ∧ isFinite e = true ∧ num_ltb (num_of_Z 0) e = true
                               ∧ wf_session ss
  | None, None, None => True
  | _, _, _ => False
  end.

(** Bundles reach [applyAuthBundle] through [isAuthBundle] only. *)
Definition valid_event (ev : Event) : Prop :=
  match ev with Login b _ => wf_bundle b | _ => True end.

(** ** The cases of one reply *)

(** What one reply can do, for any runtime: the specification of
    [run_response] that the other proofs use. *)
Inductive response_case {S} (rt : AuthRefreshRuntime S) (a : nat) (allow : bool) (s : S)
    : S * Phase → Prop :=
| rc_superseded : notCurrent rt s = true →
    response_case rt a allow s (s, Settled (transient_error Superseded))
| rc_accept v b : notCurrent rt s = false → parse_bundle rt v = Some b →
    response_case rt a allow s (acceptBundle rt b s, Settled (authenticated b))
| rc_race delay : notCurrent rt s = false → refreshRaceDelays !! a = Some delay →
    response_case rt a allow s (s, Waiting delay (a + 1) allow)
| rc_out_of_sync code : notCurrent rt s = false →
    response_case rt a allow s (clear rt false None s, Settled (out_of_sync code))
| rc_mismatch : notCurrent rt s = false → allow = true →
    response_case rt a allow s
      (clear rt false (Some idle) s, run_enter rt 0 false (clear rt false (Some idle) s))
| rc_anonymous : notCurrent rt s = false →
    response_case rt a allow s (clear rt true None s, Settled anonymous)
| rc_transient e : notCurrent rt s = false → e ≠ Superseded →
    response_case rt a allow s (markTransient rt s, Settled (transient_error e)).

Lemma run_response_cases {S} (rt : AuthRefreshRuntime S) a allow r s :
  response_case rt a allow s (run_response rt a allow r s).
Proof.
  unfold run_response. destruct (notCurrent rt s) eqn:Hc; [by constructor|]. cbn zeta.
  set (rd := if isRecord (data r) then data r else None).
  assert (Hrest : response_case rt a allow s
    (if (status r =? 409) && bool_decide (as_string (get "code" rd) = Some (js "AUTH_REFRESH_RACE"))
     then match refreshRaceDelays !! a with
          | Some delay => (s, Waiting delay (a + 1) allow)
          | None => (clear rt false None s, Settled (out_of_sync (as_string (get "code" rd))))
          end
     else if (status r =? 409)
             && bool_decide (as_string (get "code" rd) = Some (js "AUTH_SESSION_MISMATCH"))
     then if allow
          then (clear rt false (Some idle) s, run_enter rt 0 false (clear rt false (Some idle) s))
          else (clear rt false None s, Settled (out_of_sync (as_string (get "code" rd))))
     else if status r =? 401 then (clear rt true None s, Settled anonymous)
     else if (status r =? 0) || (500 <=? status r) || (status r =? 429)
     then (markTransient rt s, Settled (transient_error
             match error r with Some e => RequestError e | None => ResponseData (data r) end))
     else (clear rt false None s, Settled (out_of_sync
             (Some (default (js "AUTH_INVALID_REFRESH_RESPONSE") (as_string (get "code" rd)))))))).
  { repeat case_match; try by constructor. }
  destruct (get "success" rd) as [[| [] | | | |]|]; try exact Hrest.
  destruct (parse_bundle rt (get "data" rd)) eqn:E; [by eapply rc_accept|exact Hrest].
Qed.

Section facts.
Context (br : Browser).

Inductive reaches : World → Prop :=
| reaches_init now : reaches (initial_world now)
| reaches_step w ev w' : reaches w → valid_event ev → step br w ev = Some w' → reaches w'.

(** *** What the operations leave alone *)

Lemma publish_store k s w : store (publish br k s w) = store w.
Proof. unfold publish. by destruct publishAuthSessionEvent. Qed.
Lemma publish_epoch k s w : authEpoch (publish br k s w) = authEpoch w.
Proof. unfold publish. by destruct publishAuthSessionEvent. Qed.
Lemma publish_promise k s w : refreshPromise (publish br k s w) = refreshPromise w.
Proof. unfold publish. by destruct publishAuthSessionEvent. Qed.

Lemma applyAuthBundle_spec b sync w :
  store (applyAuthBundle br b sync w) = setBundle b (store w) ∧
  authEpoch (applyAuthBundle br b sync w) = authEpoch w + 1 ∧
  refreshPromise (applyAuthBundle br b sync w) = refreshPromise w.
Proof.
  unfold applyAuthBundle. cbn zeta. destruct (_ && _);
    rewrite ?publish_store, ?publish_epoch, ?publish_promise; done.
Qed.

Lemma clearAuthentication_spec sync b w :
  store (clearAuthentication br sync b w) = reset b (store w) ∧
  authEpoch (clearAuthentication br sync b w) = authEpoch w + 1 ∧
  refreshPromise (clearAuthentication br sync b w) = refreshPromise w.
Proof.
  unfold clearAuthentication. destruct (session_sid (store w)); [|done].
  destruct (_ && _); rewrite ?publish_store, ?publish_epoch, ?publish_promise; done.
Qed.

Lemma set_refresh_state_store st w : store (set_refresh_state st w) = store w.
Proof. unfold set_refresh_state. by destruct (refreshPromise w). Qed.
Lemma set_refresh_state_epoch st w : authEpoch (set_refresh_state st w) = authEpoch w.
Proof. unfold set_refresh_state. by destruct (refreshPromise w). Qed.
Lemma set_refresh_state_published st w : published (set_refresh_state st w) = published w.
Proof. unfold set_refresh_state. by destruct (refreshPromise w). Qed.

Lemma refreshAuthentication_epoch w : authEpoch (refreshAuthentication br w) = authEpoch w.
Proof.
  unfold refreshAuthentication, performRefreshWithBrowserLock.
  destruct (refreshPromise w); [done|]. by destruct (locks br).
Qed.
Lemma refreshAuthentication_published w : published (refreshAuthentication br w) = published w.
Proof.
  unfold refreshAuthentication, performRefreshWithBrowserLock.
  destruct (refreshPromise w); [done|]. by destruct (locks br).
Qed.
Lemma refreshAuthentication_promise w : is_Some (refreshPromise (refreshAuthentication br w)).
Proof.
  unfold refreshAuthentication, performRefreshWithBrowserLock.
  destruct (refreshPromise w) eqn:E; [by rewrite E|]. destruct (locks br); by eexists.
Qed.

(** *** The invariant of the store *)

Lemma inv_reset b s : token_session_inv (reset b s).
Proof. done. Qed.
Lemma inv_setBootstrap b s : token_session_inv s → token_session_inv (setBootstrapState b s).
Proof. done. Qed.

Lemma applyAuthRotation_spec v w w' :
  applyAuthRotation br v w = inl w' →
  ∃ b cur, w' = applyAuthBundle br b false w ∧
    user (store w) = Some (bundle_user b) ∧ session (store w) = Some cur ∧
    sid (bundle_session b) = sid cur ∧ token_type b = js "Bearer" ∧
    access_token b ≠ [] ∧ isFinite (access_expires_at b) = true ∧
    num_ltb (num_of_Z 0) (access_expires_at b) = true ∧ wf_session (bundle_session b).
Proof.
  unfold applyAuthRotation. destruct (isAuthTokenRotation v) eqn:Hv; [|done]. simpl.
  destruct (user (store w)) as [u|]; [|done].
  destruct (session (store w)) as [cur|]; [|done].
  unfold isAuthTokenRotation, hasValidTokenFields in Hv. bsplit.
  destruct (isLoginSession_as_session (get "session" v)) as (s & -> & Hs); [done|].
  unfold nonempty_string, as_string, as_number in *. json_cases.
  destruct (sid s === sid cur) eqn:E; simpl; [|done]. intros [= <-]. bsplit.
  eexists _, cur. split; [reflexivity|]. simpl. split_and!; try done. by apply truthy_true.
Qed.






End facts.


(** ** A superseded refresh never writes *)

(** The events of the refresh itself and of the clock. *)
Definition refresh_event (ev : Event) : Prop :=
  match ev with
  | LockGranted | LockRejected | Response _ | Timer | Finally | Tick _ => True
  | _ => False
  end.

Inductive refresh_run (br : Browser) : World → World → Prop :=
| run_nil w : refresh_run br w w
| run_cons w ev w' w'' : refresh_event ev → step br w ev = Some w' →
    refresh_run br w' w'' → refresh_run br w w''.

Definition superseded (w : World) : Prop :=
  ∀ r, refreshPromise w = Some r → refreshEpoch r ≠ authEpoch w.

(** The session as the rest of the application and the other tabs see it. *)
Definition same_session (w w' : World) : Prop :=
  store w' = store w ∧ authEpoch w' = authEpoch w ∧ published w' = published w.

#[export] Instance same_session_preorder : PreOrder same_session.
Proof. split; [done|]. intros a b c (?&?&?) (?&?&?). split_and!; congruence. Qed.

Section superseded.
Context (br : Browser).

Lemma set_refresh_state_same st w : same_session w (set_refresh_state st w).
Proof.
  split_and!; [apply set_refresh_state_store|apply set_refresh_state_epoch
              |apply set_refresh_state_published].
Qed.

Lemma set_refresh_state_superseded st w : superseded w → superseded (set_refresh_state st w).
Proof.
  unfold superseded, set_refresh_state. destruct (refreshPromise w) as [r|] eqn:E; [|by rewrite E].
  intros H r' [= <-]. simpl. by apply H.
Qed.

Lemma superseded_step w ev w' :
  superseded w → refresh_event ev → step br w ev = Some w' →
  same_session w w' ∧ superseded w'.
Proof.
  intros Hs Hev. destruct ev; try done; simpl.
  - repeat case_match; try done. intros [= <-].
    auto using set_refresh_state_same, set_refresh_state_superseded.
  - repeat case_match; try done. intros [= <-].
    auto using set_refresh_state_same, set_refresh_state_superseded.
  - destruct (refreshPromise w) as [[ep [| [a al x| |]|]]|] eqn:Ep; try done.
    assert (authEpoch w =? ep = false) as Hep.
    { apply Z.eqb_neq. intros Heq. by apply (Hs _ Ep). }
    unfold run_response, notCurrent. simpl. rewrite Hep. simpl. intros [= <-].
    auto using set_refresh_state_same, set_refresh_state_superseded.
  - destruct (refreshPromise w) as [[ep [| ph|]]|]; try done.
    intros (ph' & _ & [= <-])%bind_Some.
    auto using set_refresh_state_same, set_refresh_state_superseded.
  - repeat case_match; try done; intros [= <-]; done.
  - case_match; [|done]. intros [= <-]. done.
Qed.

Lemma superseded_run w w' : refresh_run br w w' → superseded w → same_session w w'.
Proof.
  induction 1 as [|w ev w1 w2 Hev Hst _ IH]; intros Hs; [reflexivity|].
  destruct (superseded_step _ _ _ Hs Hev Hst) as [H1 H2].
  etrans; [exact H1|by apply IH].
Qed.

(** The refresh in flight was started at the current epoch or before. *)
Definition epoch_inv (w : World) : Prop :=
  ∀ r, refreshPromise w = Some r → refreshEpoch r ≤ authEpoch w.

Lemma set_refresh_state_epoch_inv st w : epoch_inv w → epoch_inv (set_refresh_state st w).
Proof.
  unfold epoch_inv, set_refresh_state. destruct (refreshPromise w) as [r|] eqn:E; [|by rewrite E].
  intros H r' [= <-]. simpl. by apply H.
Qed.

Lemma refreshAuthentication_epoch_inv w : epoch_inv w → epoch_inv (refreshAuthentication br w).
Proof.
  unfold epoch_inv. rewrite refreshAuthentication_epoch.
  unfold refreshAuthentication. destruct (refreshPromise w) eqn:E; [by rewrite E|].
  destruct (performRefreshWithBrowserLock _ _ _). intros _ ? [= <-]. simpl. lia.
Qed.

Lemma resolveAuthentication_epoch_inv w :
  epoch_inv w → epoch_inv (resolveAuthentication br w).1.
Proof.
  intros H. unfold resolveAuthentication. cbn zeta.
  repeat case_match; simpl; try done; by apply refreshAuthentication_epoch_inv.
Qed.

Lemma same_promise_epoch_inv w w' :
  refreshPromise w' = refreshPromise w → authEpoch w ≤ authEpoch w' →
  epoch_inv w → epoch_inv w'.
Proof. intros Hp He H r Hr. rewrite Hp in Hr. apply H in Hr. lia. Qed.

Lemma applyAuthBundle_epoch_inv b sync w :
  epoch_inv w → epoch_inv (applyAuthBundle br b sync w).
Proof.
  destruct (applyAuthBundle_spec br b sync w) as (_ & He & Hp).
  apply same_promise_epoch_inv; [done|lia].
Qed.
Lemma clearAuthentication_epoch_inv sync b w :
  epoch_inv w → epoch_inv (clearAuthentication br sync b w).
Proof.
  destruct (clearAuthentication_spec br sync b w) as (_ & He & Hp).
  apply same_promise_epoch_inv; [done|lia].
Qed.
Hint Resolve applyAuthBundle_epoch_inv clearAuthentication_epoch_inv
  refreshAuthentication_epoch_inv resolveAuthentication_epoch_inv
  set_refresh_state_epoch_inv : core.

Lemma run_response_epoch_inv ep a allow r w :
  epoch_inv w → epoch_inv (run_response (runtime br ep) a allow r w).1.
Proof.
  intros Hw. pose proof (run_response_cases (runtime br ep) a allow r w) as H.
  inversion H; subst; simpl; auto.
Qed.

Lemma step_epoch_inv w ev w' : epoch_inv w → step br w ev = Some w' → epoch_inv w'.
Proof.
  intros Hw. destruct ev; simpl.
  - intros [= <-]. auto.
  - destruct (applyAuthRotation br v w) as [w1|] eqn:E; intros [= <-]; [|done].
    apply applyAuthRotation_spec in E as (b & cur & -> & _). auto.
  - intros [= <-]. auto.
  - intros [= <-]. done.
  - intros [= <-]. done.
  - intros [= <-]. auto.
  - intros [= <-]. auto.
  - intros [= <-]. unfold bootstrapAuthentication. repeat case_match; simpl; auto.
  - repeat case_match; try done. intros [= <-]. auto.
  - repeat case_match; try done. intros [= <-]. auto.
  - destruct (refreshPromise w) as [[ep [| [a al x| |]|]]|] eqn:Ep; try done.
    pose proof (run_response_epoch_inv ep a al r w Hw) as Hr.
    destruct (run_response _ _ _ _ _). intros [= <-]. auto.
  - destruct (refreshPromise w) as [[ep [| ph|]]|]; try done.
    intros (ph' & _ & [= <-])%bind_Some. auto.
  - repeat case_match; try done; intros [= <-]; done.
  - destruct (deliver _ _ v) as [e|]; intros [= <-]; [|done].
    unfold onSessionEvent. cbn zeta. repeat case_match; simpl; auto.
  - case_match; [|done]. intros [= <-]. done.
Qed.

Lemma reaches_epoch_inv w : reaches br w → epoch_inv w.
Proof. induction 1 as [|w ev w' _ IH _ Hs]; [done|]. by eapply step_epoch_inv. Qed.

Lemma bumped_superseded w w' :
  epoch_inv w → refreshPromise w' = refreshPromise w → authEpoch w' = authEpoch w + 1 →
  superseded w'.
Proof. intros H Hp He r Hr. rewrite Hp in Hr. apply H in Hr. lia. Qed.
End superseded.

(** [C1] A sign-in or a sign-out that happens while a refresh is in flight is
    final: whatever that refresh goes on to do (lock, replies, retries, its
    completion), the store, the epoch and the published events stay as the
    sign-in or sign-out left them. *)
Theorem refresh_never_overwrites br w w1 w2 :
  reaches br w →
  (∃ b sync, w1 = applyAuthBundle br b sync w) ∨
  (∃ sync st, w1 = clearAuthentication br sync st w) →
  refresh_run br w1 w2 →
  same_session w1 w2.
Proof.
  intros Hr Hw1 Hrun. apply (superseded_run br); [done|].
  apply reaches_epoch_inv in Hr. destruct Hw1 as [(b & sync & ->)|(sync & st & ->)].
  - destruct (applyAuthBundle_spec br b sync w) as (_ & He & Hp). by eapply bumped_superseded.
  - destruct (clearAuthentication_spec br sync st w) as (_ & He & Hp). by eapply bumped_superseded.
Qed.

(** ** Every refresh settles *)

Section drive.
Context {S : Type} (rt : AuthRefreshRuntime S).
Context (reply : nat → AuthRefreshHTTPResponse) (meanwhile : nat → S → S).

Definition mismatch_budget (allow : bool) : nat := if allow then 4 else 0.
(** Requests the run can still send, the pending one included. *)
Definition budget (ph : Phase) : nat :=
  match ph with
  | Requesting a allow _ => (4 - a) + mismatch_budget allow
  | Waiting _ a allow => (4 - a) + mismatch_budget allow
  | Settled _ => 0
  end.
Definition attempt_ok (ph : Phase) : Prop :=
  match ph with
  | Requesting a _ _ => (a ≤ 3)%nat
  | Waiting _ a _ => (1 ≤ a ≤ 3)%nat
  | Settled _ => True
  end.
(** Resumptions the run can still have. *)
Definition fuel_for (ph : Phase) : nat :=
  match ph with Waiting _ _ _ => 2 * budget ph + 1 | _ => 2 * budget ph end.

Lemma run_enter_budget a allow s :
  (a ≤ 3)%nat → attempt_ok (run_enter rt a allow s) ∧
    (budget (run_enter rt a allow s) ≤ (4 - a) + mismatch_budget allow)%nat ∧
    (fuel_for (run_enter rt a allow s) ≤ 2 * ((4 - a) + mismatch_budget allow))%nat.
Proof. unfold run_enter. destruct (notCurrent rt s); simpl; lia. Qed.

Lemma run_response_budget a allow r s :
  (a ≤ 3)%nat →
  attempt_ok (run_response rt a allow r s).2 ∧
  (budget (run_response rt a allow r s).2 < (4 - a) + mismatch_budget allow)%nat ∧
  (fuel_for (run_response rt a allow r s).2 < 2 * ((4 - a) + mismatch_budget allow))%nat.
Proof.
  intros Ha. pose proof (run_response_cases rt a allow r s) as H.
  inversion H as [Hc HH|v b Hc Hb HH|delay Hc Hd HH|code Hc HH|Hc Hal HH|Hc HH|e Hc He HH];
    simpl; try lia.
  - assert (a < 3)%nat by (apply lookup_lt_Some in Hd; simpl in Hd; lia). lia.
  - destruct (run_enter_budget 0 false (clear rt false (Some idle) s)) as (?&?&?); [lia|].
    rewrite Hal. cbn [mismatch_budget] in *. split_and!; [done|lia|lia].
Qed.

Lemma drive_settles fuel n k ph s :
  (fuel_for ph ≤ fuel)%nat → attempt_ok ph →
  ∃ k' s' o, drive rt reply meanwhile fuel n k ph s = Some (k', s', o) ∧ (k' ≤ k + budget ph)%nat.
Proof.
  revert n k ph s. induction fuel as [|f IH]; intros n k ph s Hf Hok.
  - destruct ph as [a allow e|d a allow|o]; simpl in *; [lia|lia|eauto with lia].
  - destruct ph as [a allow e|d a allow|o]; simpl in *; [| |eauto with lia].
    + destruct (run_response_budget a allow (reply k) (meanwhile n s) Hok) as (H1 & H2 & H3).
      destruct (run_response rt a allow (reply k) (meanwhile n s)) as [s' ph']; simpl in *.
      destruct (IH (n + 1)%nat (k + 1)%nat ph' s') as (k' & s2 & o & -> & Hk); [lia|done|].
      eexists _, _, _. split; [done|]. lia.
    + destruct (run_enter_budget a allow (meanwhile n s)) as (H1 & H2 & H3); [lia|].
      destruct (IH (n + 1)%nat k (run_enter rt a allow (meanwhile n s)) (meanwhile n s))
        as (k' & s2 & o & -> & Hk); [lia|done|].
      eexists _, _, _. split; [done|]. lia.
Qed.
End drive.

(** [C12] A refresh always settles, after at most eight requests (four race
    attempts, and four more after the single session-mismatch retry), whatever
    the server answers and whatever the application does in between. *)
Theorem createRefreshRunner_settles {S} (rt : AuthRefreshRuntime S) reply meanwhile s :
  ∃ k s' o, createRefreshRunner rt reply meanwhile 16 s = Some (k, s', o) ∧ (k ≤ 8)%nat.
Proof.
  unfold createRefreshRunner.
  destruct (run_enter_budget rt 0 true s) as (H1 & H2 & H3); [lia|]. simpl in H2, H3.
  destruct (drive_settles rt reply meanwhile 16 0 0 (run_enter rt 0 true s) s)
    as (k & s' & o & HH & Hk); [lia|done|].
  exists k, s', o. split; [done|lia].
Qed.

(** The bound is reached. *)
Example createRefreshRunner_eight :
  let race := mkResponse 409 (Some (JObj [(js "code", JStr (js "AUTH_REFRESH_RACE"))])) None in
  let mismatch := mkResponse 409 (Some (JObj [(js "code", JStr (js "AUTH_SESSION_MISMATCH"))])) None in
  let br := mkBrowser true NoLocks (js "tab") (λ _, js "n") None in
  (λ '(k, s, o), (k, o)) <$>
  createRefreshRunner (runtime br 0) (λ k, if decide (k = 3%nat) then mismatch else race)
    (λ _ w, w) 16 (initial_world 0)
  = Some (8%nat, out_of_sync (Some (js "AUTH_REFRESH_RACE"))).
Proof. vm_compute. reflexivity. Qed.

(** ** What each outcome leaves behind *)

Definition promise_outcome (w : World) : option RefreshOutcome :=
  match refreshPromise w with
  | Some (mkRefresh _ (Running (Settled o))) => Some o
  | _ => None
  end.

(** The token fields of the store. *)
Definition credentials (s : AuthState) :=
  (user s, accessToken s, accessExpiresAt s, session s).

Definition outcome_effect (w w' : World) (o : RefreshOutcome) : Prop :=
  match o with
  | authenticated b => wf_bundle b ∧ store w' = setBundle b (store w) ∧
                       published w' = published w
  | anonymous =>
      store w' = reset complete (store w) ∧
      (∀ s, session_sid (store w) = Some s → s ≠ [] →
        ∃ e, published w' = e :: published w ∧ ev_kind e = signed_out_kind ∧ ev_sid e = s)
  | out_of_sync _ => store w' = reset complete (store w) ∧ published w' = published w
  | transient_error Superseded => published w' = published w
  | transient_error _ =>
      credentials (store w') = credentials (store w) ∧
      bootstrapState (store w') = idle ∧ published w' = published w
  end.

Lemma set_refresh_state_outcome st w o :
  promise_outcome (set_refresh_state st w) = Some o → st = Running (Settled o).
Proof.
  unfold promise_outcome, set_refresh_state. destruct (refreshPromise w) as [[ep st']|] eqn:E.
  - simpl. destruct st as [|[]|]; congruence.
  - by rewrite E.
Qed.

(** When a reply settles the refresh of a browser tab, the outcome says
    what happened to the store: authenticated means the validated bundle is
    stored; anonymous means the session is cleared and the other tabs are told;
    out-of-sync means it is cleared and they are not; a transient error keeps
    the credentials and lets the next check try again. *)
Theorem settled_outcome_effect br w r w' o :
  has_window br = true →
  step br w (Response r) = Some w' → promise_outcome w' = Some o → outcome_effect w w' o.
Proof.
  intros Hwin. simpl. destruct (refreshPromise w) as [[ep [| [a al x| |]|]]|] eqn:Ep; try done.
  pose proof (run_response_cases (runtime br ep) a al r w) as Hc.
  destruct (run_response (runtime br ep) a al r w) as [w1 ph].
  intros [= <-] Ho%set_refresh_state_outcome. injection Ho as ->.
  unfold outcome_effect. rewrite !set_refresh_state_store, !set_refresh_state_published.
  inversion Hc as [Hn|v b Hn Hb|delay Hn Hd|code Hn|Hn Hal Hph|Hn|e Hn He]; subst; simpl in *.
  - done.
  - split_and!; [|done|done].
    pose proof (parseBundle_spec v) as Hp. rewrite Hb in Hp. apply Hp.
  - split; [apply clearAuthentication_spec|].
    unfold clearAuthentication. by destruct (session_sid (store w)).
  - unfold run_enter in *. destruct (notCurrent _ _); [|done]. by simplify_eq.
  - split; [apply clearAuthentication_spec|]. intros s Hs Hne.
    unfold clearAuthentication. rewrite Hs. simpl. apply truthy_true in Hne. rewrite Hne.
    unfold publish, publishAuthSessionEvent. rewrite Hwin, Hne. simpl. eauto.
  - destruct e; done.
Qed.

Definition demo_session : LoginSession :=
  mkSession (js "s1") true (js "password") (js "ip") (js "ua") (num_of_Z 1) (num_of_Z 1) (num_of_Z 9).
Definition demo_user : AuthUser := mkUser (num_of_Z 7) (js "u") (num_of_Z 1) (JObj []).
Definition demo_bundle : AuthBundle :=
  mkBundle (js "tok") (js "Bearer") (num_of_Z 5000) demo_user demo_session.
Definition demo_browser : Browser := mkBrowser true NoLocks (js "tabA") (λ _, js "n") (Some []).

Lemma demo_bundle_wf : wf_bundle demo_bundle.
Proof. by repeat constructor. Qed.

(** A signed-in tab with a refresh in flight. *)
Definition demo_world : World :=
  refreshAuthentication demo_browser (applyAuthBundle demo_browser demo_bundle true (initial_world 0)).

Lemma demo_world_reaches : reaches demo_browser demo_world.
Proof.
  eapply (reaches_step _ _ CallRefresh); [|exact I|reflexivity].
  eapply (reaches_step _ (initial_world 0) (Login demo_bundle true));
    [constructor|apply demo_bundle_wf|reflexivity].
Qed.


Lemma refresh_never_overwrites_witness :
  same_session (clearAuthentication demo_browser true complete demo_world)
    (default demo_world (step demo_browser (clearAuthentication demo_browser true complete demo_world)
       (Response (mkResponse 401 None None)))).
Proof.
  apply (refresh_never_overwrites demo_browser demo_world).
  - exact demo_world_reaches.
  - right. exists true, complete. reflexivity.
  - refine (run_cons _ _ (Response (mkResponse 401 None None)) _ _ I _ (run_nil _ _)).
    vm_compute. reflexivity.
Defined.

Lemma settled_outcome_effect_witness :
  ∃ w', step demo_browser demo_world (Response (mkResponse 401 None None)) = Some w'
        ∧ outcome_effect demo_world w' anonymous.
Proof.
  eexists. split; [vm_compute; reflexivity|].
  apply (settled_outcome_effect demo_browser demo_world (mkResponse 401 None None));
    [reflexivity|vm_compute; reflexivity|vm_compute; reflexivity].
Defined.

(** ** Token rotation *)

(** A rotation reply is applied only to the session it names: it needs a
    signed-in tab with the same session id, keeps the user, installs a valid
    Bearer token, starts a new epoch and tells no other tab. *)
Theorem applyAuthRotation_same_session br v w w' :
  applyAuthRotation br v w = inl w' →
  user (store w') = user (store w) ∧
  session_sid (store w') = session_sid (store w) ∧ is_Some (session_sid (store w)) ∧
  token_session_inv (store w') ∧
  authEpoch w' = authEpoch w + 1 ∧ published w' = published w.
Proof.
  intros (b & cur & -> & Hu & Hs & Heq & _ & Ht & Hf & Hp & Hss)%applyAuthRotation_spec.
  destruct (applyAuthBundle_spec br b false w) as (Hst & He & _).
  rewrite Hst, He, Hu. unfold session_sid. rewrite Hs. simpl. rewrite Heq.
  split_and!; try done.
Qed.

Definition demo_rotation : json := JObj [
  (js "access_token", JStr (js "tok2")); (js "token_type", JStr (js "Bearer"));
  (js "access_expires_at", JNum (num_of_Z 9000));
  (js "session", JObj [
    (js "sid", JStr (js "s1")); (js "current", JBool true); (js "login_method", JStr []);
    (js "ip", JStr []); (js "user_agent", JStr []); (js "created_at", JNum (num_of_Z 1));
    (js "last_active_at", JNum (num_of_Z 2)); (js "expires_at", JNum (num_of_Z 3))])].

Lemma applyAuthRotation_same_session_witness :
  ∃ w', applyAuthRotation demo_browser (Some demo_rotation) demo_world = inl w' ∧
        authEpoch w' = 2 ∧ user (store w') = Some demo_user.
Proof.
  eexists. split; [vm_compute; reflexivity|].
  edestruct (applyAuthRotation_same_session demo_browser (Some demo_rotation) demo_world)
    as (Hu & _ & _ & _ & He & _); [vm_compute; reflexivity|].
  split; [rewrite He; reflexivity|rewrite Hu; reflexivity].
Defined.

(** ** Cross-tab events *)

Lemma isAuthSessionSyncEvent_object e :
  ev_sid e ≠ [] → isAuthSessionSyncEvent (event_object e) = Some e.
Proof.
  destruct e as [[] s src n t]; simpl; intros Hs%truthy_true;
    unfold isAuthSessionSyncEvent; simpl; by rewrite Hs.
Qed.

Lemma publish_spec br k s w :
  has_window br = true → s ≠ [] →
  published (publish br k s w) =
    mkEvent k s (authSyncSource br) (randomIdentifier br (clock w)) (num_of_Z (clock w)) :: published w.
Proof.
  intros Hw Hs%truthy_true. unfold publish, publishAuthSessionEvent. by rewrite Hw, Hs.
Qed.

(** Signing out in one tab signs out every other tab of the same session:
    the event the first tab publishes is delivered to any tab with another
    identifier that sees it in time, and clears that tab's session without
    publishing anything further; the first tab ignores its own event. *)
Theorem signout_reaches_other_tabs brA brB wA wB s :
  has_window brA = true → s ≠ [] →
  session_sid (store wA) = Some s → session_sid (store wB) = Some s →
  authSyncSource brA ≠ authSyncSource brB →
  recent (clock wB) (num_of_Z (clock wA)) = true →
  ∃ e, published (clearAuthentication brA true complete wA) = e :: published wA ∧
    deliver (authSyncSource brA) (clock wA) (event_object e) = None ∧
    (∃ wB', step brB wB (Broadcast (event_object e)) = Some wB' ∧
       store wB' = reset complete (store wB) ∧ published wB' = published wB).
Proof.
  intros Hw Hs HA HB Hne Hrec. eexists. split_and!.
  - unfold clearAuthentication. rewrite HA. simpl. apply truthy_true in Hs as Ht. rewrite Ht.
    rewrite publish_spec by done. reflexivity.
  - unfold deliver. rewrite isAuthSessionSyncEvent_object by done. simpl. by rewrite jeqb_refl.
  - eexists. split.
    + cbn [step]. unfold deliver. rewrite isAuthSessionSyncEvent_object by done. cbn -[recent].
      rewrite jeqb_neq by done.
      simpl. rewrite Hrec. reflexivity.
    + unfold onSessionEvent. simpl. rewrite HB. simpl.
      apply truthy_true in Hs as Ht. rewrite Ht, bool_decide_eq_true_2 by done. simpl.
      split; [apply clearAuthentication_spec|].
      unfold clearAuthentication. by rewrite HB.
Qed.

Definition demo_browser_b : Browser := mkBrowser true Locks (js "tabB") (λ _, js "m") None.

Lemma signout_reaches_other_tabs_witness :
  ∃ e, published (clearAuthentication demo_browser true complete demo_world)
       = e :: published demo_world ∧
    deliver (js "tabA") 0 (event_object e) = None ∧
    (∃ wB', step demo_browser_b demo_world (Broadcast (event_object e)) = Some wB' ∧
       store wB' = reset complete (store demo_world) ∧ published wB' = published demo_world).
Proof.
  apply (signout_reaches_other_tabs demo_browser demo_browser_b demo_world demo_world (js "s1"));
    solve [vm_compute; reflexivity | discriminate].
Defined.

(** ** The session hint *)

(** The boot path may skip the server when the hint cookie is missing, but
    the skip changes nothing: the state stays unresolved, and the next
    [resolveAuthentication] still starts a refresh. *)
Theorem missing_hint_is_not_a_verdict br w :
  bootstrapState (store w) ≠ complete →
  user (store w) = None → session (store w) = None →
  hasSessionHint (document_cookie br) = false →
  bootstrapAuthentication br w = (w, Now anonymous) ∧
  (resolveAuthentication br w).2 = OfRefresh ∧
  is_Some (refreshPromise (resolveAuthentication br w).1).
Proof.
  intros Hb Hu Hs Hh.
  assert (currentValidAuthBundle w = None) as Hv
    by (unfold currentValidAuthBundle; by rewrite Hu).
  unfold bootstrapAuthentication, resolveAuthentication. rewrite Hv, Hu, Hs, Hh. split; [done|].
  destruct (bootstrapState (store w)); [| |done]; simpl;
    (split; [done|apply refreshAuthentication_promise]).
Qed.

Lemma missing_hint_is_not_a_verdict_witness :
  bootstrapAuthentication demo_browser (initial_world 0) = (initial_world 0, Now anonymous).
Proof.
  apply (missing_hint_is_not_a_verdict demo_browser (initial_world 0));
    solve [vm_compute; reflexivity | discriminate].
Defined.

(** ** A rejected lock request *)

(** A rejection of [navigator.locks.request] is not handled by the [catch]
    of [performRefreshWithBrowserLock], whose [return] does not await it: the
    store keeps the bootstrap state [checking] and the refresh promise is
    rejected instead of resolving to a transient error. *)
Theorem lock_rejection_leaves_checking :
  ∃ w1 w2,
    step demo_browser_b (initial_world 0) CallResolve = Some w1 ∧
    step demo_browser_b w1 LockRejected = Some w2 ∧
    bootstrapState (store w2) = checking ∧ promise_outcome w2 = None ∧
    refresh_state <$> refreshPromise w2 = Some Rejected.
Proof.
  eexists _, _. split; [vm_compute; reflexivity|]. split; [vm_compute; reflexivity|].
  vm_compute. done.
Qed.
