(* ===== verification/HttpClient.v ===== *)
(** * The HTTP client shared by every request

    Models [lib/http-client.ts] and [lib/server-error-message.ts]: the sharing
    of identical GET requests in flight, the token header, the interceptors of
    the response, and the single retry after an expired access token.  axios
    itself is the environment: it sends a request and answers with a reply. *)

From S2P Require Import Prelude JsValue AuthSession AuthSessionFacts.
Import AuthStore SessionSync AuthSession.

Module ServerErrorMessage.

(** The translation keys of the error codes the server documents. *)
Definition serverErrorMessageKeys : list (jstr * jstr) := [
  (js "EMAIL_VERIFICATION_REQUIRED", js "Email verification is required before sign-in.");
  (js "AUTH_SESSION_LIMIT",
   js "Too many active login sessions. On a device where you are already signed in, open Login sessions and use "
   ++ [8220%N] ++ js "Sign out other sessions" ++ [8221%N]
   ++ js " to revoke them. If you cannot access a signed-in device, reset your password to sign out all sessions.");
  (js "AUTH_SESSION_ISSUANCE_LIMIT",
   js "Too many login sessions were created recently. Please wait for the rolling window to pass, then try again.");
  (js "TELEGRAM_BIND_DISABLED", js "Telegram binding is disabled.");
  (js "TELEGRAM_BIND_INVALID_REQUEST",
   js "The Telegram authorization request is invalid or expired.");
  (js "TELEGRAM_BIND_FLOW_INVALID",
   js "This Telegram binding request has expired or has already been used.");
  (js "TELEGRAM_BIND_SESSION_INVALID",
   js "The login session that started this Telegram binding is no longer valid.");
  (js "TELEGRAM_BIND_ALREADY_BOUND", js "This Telegram account is already bound.");
  (js "TELEGRAM_BIND_USER_DELETED", js "This user account no longer exists.");
  (js "TELEGRAM_BIND_USER_DISABLED", js "This user account is disabled.");
  (js "TELEGRAM_BIND_INTERNAL_ERROR", js "Telegram binding failed. Please try again.")].

Fixpoint assoc {A} (k : jstr) (l : list (jstr * A)) : option A :=
  match l with
  | [] => None
  | (k', v) :: rest => if k' === k then Some v else assoc k rest
  end.

Definition serverErrorPayload (v : option json) : option json :=
  if negb (isRecord v) then None
  else
    let response := get "response" v in
    if isRecord response && isRecord (get "data" response) then get "data" response else v.

Definition getServerErrorMessageKey (v : option json) : option jstr :=
  match get "code" (serverErrorPayload v) with
  | Some (JStr code) => assoc code serverErrorMessageKeys
  | _ => None
  end.

End ServerErrorMessage.
Import ServerErrorMessage.

Module HttpClient.

(** The options of this client, the GET parameters and the bearer header. *)
Record ApiRequestConfig := mkConfig {
  params : option json;
  skipBusinessError : bool;
  skipErrorHandler : bool;
  disableDuplicate : bool;
  skipAuthRefresh : bool;
  authRetry : bool;
  acceptAuthRotation : bool;
  authorization : option jstr;
}.

Definition set_retry (c : ApiRequestConfig) : ApiRequestConfig :=
  mkConfig (params c) (skipBusinessError c) (skipErrorHandler c) (disableDuplicate c)
    (skipAuthRefresh c) true (acceptAuthRotation c) (authorization c).
Definition set_authorization (h : jstr) (c : ApiRequestConfig) : ApiRequestConfig :=
  mkConfig (params c) (skipBusinessError c) (skipErrorHandler c) (disableDuplicate c)
    (skipAuthRefresh c) (authRetry c) (acceptAuthRotation c) (Some h).

(** ** Shared GET requests *)

(** [inFlightGet], and the requests handed to axios so far (newest first); a
    promise is the position of its request. *)
Record Gets := mkGets { inFlightGet : gmap jstr nat; issued : list (jstr * ApiRequestConfig) }.

Definition request_key (auth : AuthState) (url : jstr) (c : ApiRequestConfig) : jstr :=
  let ps := match params c with
            | Some p => if json_truthy p then JSON_stringify p else js "{}"
            | None => js "{}"
            end in
  let sessionSID := opt_or_else (session_sid auth) (js "anonymous") in
  sessionSID ++ js ":" ++ url ++ js "?" ++ ps.

Definition originalGet (url : jstr) (c : ApiRequestConfig) (g : Gets) : Gets * nat :=
  (mkGets (inFlightGet g) ((url, c) :: issued g), length (issued g)).

(** [api.get] *)
Definition api_get (auth : AuthState) (url : jstr) (c : ApiRequestConfig) (g : Gets)
    : Gets * nat :=
  if disableDuplicate c then originalGet url c g
  else
    let key := request_key auth url c in
    match inFlightGet g !! key with
    | Some existing => (g, existing)
    | None => let '(g', request) := originalGet url c g in
              (mkGets (<[key := request]> (inFlightGet g')) (issued g'), request)
    end.

(** The [finally] of a shared request. *)
Definition get_finally (key : jstr) (g : Gets) : Gets :=
  mkGets (delete key (inFlightGet g)) (issued g).

(** ** Interceptors *)

Inductive Toast := ToastSessionExpired | ToastKey (key : jstr) | ToastValue (v : json)
                 | ToastRequestFailed.

(** [window.location.pathname] when there is a window. *)
Definition redirectToSignIn (pathname : option jstr) : bool :=
  match pathname with Some p => negb (p === js "/sign-in") | None => false end.

(** [response.data.message || t('Request failed')] *)
Definition message_or_default (m : option json) : Toast :=
  match m with Some v => if json_truthy v then ToastValue v else ToastRequestFailed
             | None => ToastRequestFailed end.

(** The fulfilled interceptor: the new state and a toast, or the exception of
    a refused rotation. *)
Definition onFulfilled (br : Browser) (c : ApiRequestConfig) (body : option json) (w : World)
    : (World * option Toast) + RotationError :=
  let success := get "success" body in
  let rotated :=
    match acceptAuthRotation c, success with
    | true, Some (JBool true) => applyAuthRotation br (get "data" body) w
    | _, _ => inl w
    end in
  match rotated with
  | inr e => inr e
  | inl w' =>
      match skipBusinessError c, success with
      | false, Some (JBool false) =>
          inl (w', Some match getServerErrorMessageKey body with
                        | Some k => ToastKey k
                        | None => message_or_default (get "message" body)
                        end)
      | _, _ => inl (w', None)
      end
  end.

(** The rejected value: status and body of the reply, if there was one, and
    the message of the exception. *)
Record ApiError := mkError {
  err_config : option ApiRequestConfig;
  err_status : option Z;
  err_body : option json;
  err_code : option jstr;
  err_message : jstr;
}.

(** The part of the error object [getServerErrorMessageKey] looks at. *)
Definition error_object (e : ApiError) : json :=
  JObj (match err_code e with Some c => [(js "code", JStr c)] | None => [] end ++
        match err_status e, err_body e with
        | Some _, Some b => [(js "response", JObj [(js "data", b)])]
        | Some _, None => [(js "response", JObj [])]
        | None, _ => []
        end).

Inductive Rejected :=
| AwaitRefresh (c : ApiRequestConfig)
| Throw (toast : option Toast) (redirect : bool).

Definition unless (skip : bool) (t : Toast) : option Toast := if skip then None else Some t.

(** The rejected interceptor, up to its [await]. *)
Definition onRejected (br : Browser) (pathname : option jstr) (e : ApiError) (w : World)
    : World * Rejected :=
  let skip := from_option skipErrorHandler false (err_config e) in
  if bool_decide (err_status e = Some 401) then
    match err_config e with
    | Some c =>
        if negb (skipAuthRefresh c) && negb (authRetry c) then
          (refreshAuthentication br w, AwaitRefresh (set_retry c))
        else if authRetry c then
          (clearAuthentication br false complete w,
           Throw (unless skip ToastSessionExpired) (redirectToSignIn pathname))
        else (w, Throw (unless skip ToastSessionExpired) false)
    | None => (w, Throw (unless skip ToastSessionExpired) false)
    end
  else
    let toast := match getServerErrorMessageKey (Some (error_object e)) with
                 | Some k => ToastKey k
                 | None =>
                     match message_or_default (get "message" (err_body e)) with
                     | ToastRequestFailed => message_or_default (Some (JStr (err_message e)))
                     | t => t
                     end
                 end in
    (w, Throw (unless skip toast) false).

Inductive Resumed := Retry (c : ApiRequestConfig) | GiveUp (toast : option Toast) (redirect : bool).

(** The rejected interceptor, after the refresh it waited for. *)
Definition onRefreshed (pathname : option jstr) (c : ApiRequestConfig)
    (outcome : RefreshOutcome) (w : World) : Resumed :=
  match outcome with
  | authenticated _ =>
      Retry match accessToken (store w) with
            | Some t => if truthy t then set_authorization (js "Bearer " ++ t) c else c
            | None => c
            end
  | anonymous | out_of_sync _ =>
      GiveUp (unless (skipErrorHandler c) ToastSessionExpired) (redirectToSignIn pathname)
  | transient_error _ => GiveUp None false
  end.

(** The request interceptor. *)
Definition onRequest (w : World) (c : ApiRequestConfig) : ApiRequestConfig :=
  match accessToken (store w) with
  | Some t => if truthy t then set_authorization (js "Bearer " ++ t) c else c
  | None => c
  end.

(** One call of the client against a server: the requests that reach the
    server, each with its configuration, in order. *)
Section execute.
Context (br : Browser) (pathname : option jstr).
(** The server's answer to the [n]-th request ([None] is success), and the
    outcome and the state with which the [n]-th refresh comes back. *)
Context (server : nat → option (option Z * option json)).
Context (refreshed : nat → World → World * RefreshOutcome).

Fixpoint execute (fuel n : nat) (c : ApiRequestConfig) (w : World) : list ApiRequestConfig :=
  match fuel with
  | O => []
  | S f =>
      let sent := onRequest w c in
      sent ::
      match server n with
      | None => []
      | Some (st, body) =>
          let e := mkError (Some sent) st body None [] in
          match onRejected br pathname e w with
          | (w', AwaitRefresh c') =>
              let '(w2, o) := refreshed n w' in
              match onRefreshed pathname c' o w2 with
              | Retry c2 => execute f (S n) c2 w2
              | GiveUp _ _ => []
              end
          | (_, Throw _ _) => []
          end
      end
  end.
End execute.

(** ** Properties *)

Lemma onRequest_authRetry w c : authRetry (onRequest w c) = authRetry c.
Proof. unfold onRequest. repeat case_match; done. Qed.

Lemma onRefreshed_retry p c o w c2 : onRefreshed p c o w = Retry c2 → authRetry c2 = authRetry c.
Proof. destruct o; simpl; try done. intros [= <-]. repeat case_match; done. Qed.

Lemma onRejected_await br p e w w' c' :
  onRejected br p e w = (w', AwaitRefresh c') →
  ∃ c, err_config e = Some c ∧ authRetry c = false ∧ authRetry c' = true ∧ err_status e = Some 401.
Proof.
  unfold onRejected. case_bool_decide; [|by intros [= ]].
  destruct (err_config e) as [c|]; [|by intros [= ]].
  destruct (negb (skipAuthRefresh c) && negb (authRetry c)) eqn:E.
  - intros [= _ <-]. bsplit. exists c. done.
  - destruct (authRetry c); by intros [= ].
Qed.

Lemma execute_retried br p server refreshed fuel n c w :
  authRetry c = true → (length (execute br p server refreshed fuel n c w) ≤ 1)%nat.
Proof.
  intros Hc. destruct fuel as [|f]; simpl; [lia|].
  destruct (server n) as [[st body]|]; simpl; [|lia].
  destruct (onRejected _ _ _ _) as [w' [c'|t r]] eqn:E; simpl; [|lia].
  apply onRejected_await in E as (c0 & Hc0 & Hr & _). simpl in Hc0. simplify_eq.
  rewrite onRequest_authRetry in Hr. congruence.
Qed.

(** One call of the client reaches the server at most twice: a reply 401
    starts one refresh and one retry, and a second 401 ends the session instead
    of looping; every answer of the server and every outcome of the refresh
    included, with any fuel. *)
Theorem at_most_one_retry br p server refreshed fuel n c w :
  (length (execute br p server refreshed fuel n c w) ≤ 2)%nat.
Proof.
  destruct fuel as [|f]; simpl; [lia|].
  destruct (server n) as [[st body]|]; simpl; [|lia].
  destruct (onRejected _ _ _ _) as [w' [c'|t r]] eqn:E; simpl; [|lia].
  apply onRejected_await in E as (c0 & _ & _ & Hr & _).
  destruct (refreshed n w') as [w2 o].
  destruct (onRefreshed p c' o w2) as [c2|] eqn:E2; simpl; [|lia].
  apply onRefreshed_retry in E2. apply le_n_S. apply execute_retried. congruence.
Qed.

(** The second 401 clears the session, without telling the other tabs. *)
Lemma second_401_clears br p e c w :
  err_config e = Some c → authRetry c = true → err_status e = Some 401 →
  ∃ t r, onRejected br p e w = (clearAuthentication br false complete w, Throw t r).
Proof.
  intros Hc Hr Hs. unfold onRejected. rewrite Hs, Hc, Hr. simpl.
  rewrite andb_false_r. eauto.
Qed.

(** *** Sharing *)

Definition gets_inv (g : Gets) : Prop :=
  map_Forall (λ _ i, (i < length (issued g))%nat) (inFlightGet g).

Lemma no_colon_prefix (a b u v : jstr) :
  58%N ∉ a → 58%N ∉ b → a ++ 58%N :: u = b ++ 58%N :: v → a = b ∧ u = v.
Proof.
  revert b. induction a as [|x a IH]; intros [|y b] Ha Hb; simpl; intros H; simplify_eq.
  - done.
  - set_solver.
  - set_solver.
  - destruct (IH b) as [-> ->]; set_solver.
Qed.

(** Identical GET requests in flight share one network request only within
    one login session: for session ids without a colon, two requests get the
    same promise from the table only if they were made under the same session
    id. *)
Theorem shared_get_same_session s s' auth auth' url url' c c' :
  session_sid auth = Some s → session_sid auth' = Some s' →
  s ≠ [] → s' ≠ [] → 58%N ∉ s → 58%N ∉ s' →
  request_key auth url c = request_key auth' url' c' → s = s'.
Proof.
  unfold request_key. intros -> -> Hs Hs' Hn Hn'. simpl.
  apply truthy_true in Hs, Hs'. unfold or_else. rewrite Hs, Hs'.
  intros H. by apply no_colon_prefix in H as [? _].
Qed.

Lemma api_get_inv auth url c g : gets_inv g → gets_inv (api_get auth url c g).1.
Proof.
  unfold gets_inv, api_get, originalGet. intros H.
  assert (H' : map_Forall (λ _ i, (i < S (length (issued g)))%nat) (inFlightGet g)).
  { eapply map_Forall_impl; [exact H|]. simpl. lia. }
  destruct (disableDuplicate c); simpl; [done|].
  destruct (inFlightGet g !! request_key auth url c); simpl; [done|].
  apply map_Forall_insert_2; [lia|done].
Qed.

(** While a shared GET is in flight, every further identical GET of the
    same session returns its promise and sends nothing; once it has finished,
    the next one is sent. *)
Theorem get_single_flight auth url c g :
  gets_inv g → disableDuplicate c = false →
  let '(g1, i) := api_get auth url c g in
  let key := request_key auth url c in
  api_get auth url c g1 = (g1, i) ∧
  (api_get auth url c (get_finally key g1)).2 = length (issued g1) ∧
  (api_get auth url c (get_finally key g1)).2 ≠ i.
Proof.
  intros Hinv Hd. unfold api_get at 1, originalGet. rewrite Hd.
  destruct (inFlightGet g !! request_key auth url c) as [i|] eqn:E; cbn zeta.
  - unfold api_get. rewrite Hd, E. split; [done|]. simpl. rewrite lookup_delete_eq. simpl.
    apply Hinv in E. simpl in *. split; [done|lia].
  - unfold api_get. rewrite Hd. simpl. rewrite lookup_insert_eq. split; [done|].
    rewrite lookup_delete_eq. simpl. split; [done|lia].
Qed.

Definition demo_config : ApiRequestConfig :=
  mkConfig (Some (JObj [(js "p", JNum (num_of_Z 1))])) false false false false false false None.

Lemma shared_get_same_session_witness :
  request_key (store demo_world) (js "/api/user") demo_config = js "s1:/api/user?" ++ jq "{'p':1}"
  ∧ js "s1" = js "s1".
Proof.
  split; [vm_compute; reflexivity|].
  apply (shared_get_same_session (js "s1") (js "s1") (store demo_world) (store demo_world)
           (js "/api/user") (js "/api/user") demo_config demo_config);
    solve [reflexivity | discriminate | vm_compute; set_solver].
Defined.

Lemma get_single_flight_witness :
  let g1 := (api_get (store demo_world) (js "/u") demo_config (mkGets ∅ [])).1 in
  api_get (store demo_world) (js "/u") demo_config g1 = (g1, 0%nat).
Proof.
  exact (proj1 (get_single_flight (store demo_world) (js "/u") demo_config (mkGets ∅ [])
    (map_Forall_empty _) eq_refl)).
Defined.

End HttpClient.
