(* ===== verification/PlaygroundMessage.v ===== *)
(** * Playground messages

    Models [features/playground/types.ts] and the libraries under
    [features/playground/lib/message], [lib/streaming/payload-builder.ts] and
    [lib/streaming/stream-utils.ts]: the message record, its versions, timing,
    reasoning ("think" tags), streaming, completion, conversation edits and the
    request payload.  [Date.now()] and [nanoid()] are arguments ([now], fresh
    ids); times are integers in milliseconds. *)

From S2P Require Import Prelude JsValue.

Module Types.

Inductive MessageRole := user | assistant | system.
Inductive MessageStatus := LOADING | STREAMING | COMPLETE | ERROR.
Inductive PlaygroundMessageLayoutMode := alternating | left_mode.

Record MessageVersion := mkVersion { id : jstr; content : jstr }.
Record Source := mkSource { href : jstr; title : jstr }.
Record Reasoning := mkReasoning {
  r_content : jstr;
  r_duration : Z;
  r_startedAt : option Z;
  r_completedAt : option Z;
  r_durationMs : option Z;
}.

Record Message := mkMessage {
  key : jstr;
  from : MessageRole;
  versions : list MessageVersion;
  createdAt : option Z;
  startedAt : option Z;
  completedAt : option Z;
  durationMs : option Z;
  sources : option (list Source);
  reasoning : option Reasoning;
  isReasoningStreaming : option bool;
  isReasoningComplete : option bool;
  isContentComplete : option bool;
  status : option MessageStatus;
  errorCode : option json;      (* [None] is undefined; whatever the server sent *)
}.

#[export] Instance MessageRole_eq_dec : EqDecision MessageRole.
Proof. solve_decision. Defined.
#[export] Instance MessageStatus_eq_dec : EqDecision MessageStatus.
Proof. solve_decision. Defined.
#[export] Instance MessageVersion_eq_dec : EqDecision MessageVersion.
Proof. solve_decision. Defined.
#[export] Instance Source_eq_dec : EqDecision Source.
Proof. solve_decision. Defined.
#[export] Instance Reasoning_eq_dec : EqDecision Reasoning.
Proof. solve_decision. Defined.

(** Object spread with one or more fields replaced. *)
Definition with_versions (v : list MessageVersion) (m : Message) : Message :=
  mkMessage (key m) (from m) v (createdAt m) (startedAt m) (completedAt m) (durationMs m)
    (sources m) (reasoning m) (isReasoningStreaming m) (isReasoningComplete m)
    (isContentComplete m) (status m) (errorCode m).
Definition with_createdAt (c : option Z) (m : Message) : Message :=
  mkMessage (key m) (from m) (versions m) c (startedAt m) (completedAt m) (durationMs m)
    (sources m) (reasoning m) (isReasoningStreaming m) (isReasoningComplete m)
    (isContentComplete m) (status m) (errorCode m).
Definition with_timing (s c d : option Z) (m : Message) : Message :=
  mkMessage (key m) (from m) (versions m) (createdAt m) s c d
    (sources m) (reasoning m) (isReasoningStreaming m) (isReasoningComplete m)
    (isContentComplete m) (status m) (errorCode m).
Definition with_reasoning (r : option Reasoning) (m : Message) : Message :=
  mkMessage (key m) (from m) (versions m) (createdAt m) (startedAt m) (completedAt m) (durationMs m)
    (sources m) r (isReasoningStreaming m) (isReasoningComplete m)
    (isContentComplete m) (status m) (errorCode m).
Definition with_streaming (b : bool) (m : Message) : Message :=
  mkMessage (key m) (from m) (versions m) (createdAt m) (startedAt m) (completedAt m) (durationMs m)
    (sources m) (reasoning m) (Some b) (isReasoningComplete m)
    (isContentComplete m) (status m) (errorCode m).
Definition with_status (s : MessageStatus) (m : Message) : Message :=
  mkMessage (key m) (from m) (versions m) (createdAt m) (startedAt m) (completedAt m) (durationMs m)
    (sources m) (reasoning m) (isReasoningStreaming m) (isReasoningComplete m)
    (isContentComplete m) (Some s) (errorCode m).
Definition with_errorCode (e : json) (m : Message) : Message :=
  mkMessage (key m) (from m) (versions m) (createdAt m) (startedAt m) (completedAt m) (durationMs m)
    (sources m) (reasoning m) (isReasoningStreaming m) (isReasoningComplete m)
    (isContentComplete m) (status m) (Some e).

End Types.
Import Types.

Module Constants.
(** [ERROR_MESSAGES] *)
Definition API_REQUEST_ERROR : jstr := js "Request error occurred".
Definition NETWORK_ERROR : jstr := js "Network connection failed or server not responding".
Definition PARSE_ERROR : jstr := js "Error parsing response data".
Definition STREAM_START_ERROR : jstr := js "Error establishing connection".
Definition CONNECTION_CLOSED : jstr := js "Connection closed".
Definition INTERRUPTED : jstr := js "Generation was interrupted".
Definition ERROR_MESSAGES : list jstr :=
  [API_REQUEST_ERROR; NETWORK_ERROR; PARSE_ERROR; STREAM_START_ERROR; CONNECTION_CLOSED; INTERRUPTED].
End Constants.
Import Constants.

(** ** message-utils.ts *)
Module MessageUtils.

Definition createMessageVersion (nanoid c : jstr) : MessageVersion := mkVersion nanoid c.

Definition getCurrentVersion (m : Message) : MessageVersion :=
  match versions m with v :: _ => v | [] => mkVersion (js "default") [] end.

Definition getMessageContent (m : Message) : jstr := content (getCurrentVersion m).

Definition hasMessageContent (m : Message) : bool := negb (trim (getMessageContent m) === []).

Definition updateCurrentVersionContent (m : Message) (c : jstr) : Message :=
  with_versions [mkVersion (id (getCurrentVersion m)) c] m.

Definition createUserMessage (k vid c : jstr) (now : Z) : Message :=
  mkMessage k user [createMessageVersion vid c] (Some now) None None None None None
    None None None None None.

Definition createLoadingAssistantMessage (k vid : jstr) (now : Z) : Message :=
  mkMessage k assistant [createMessageVersion vid []] (Some now) (Some now) None None None None
    (Some false) (Some false) (Some false) (Some LOADING) None.

Inductive ContentPart := TextPart (text : option jstr) | ImagePart (url : jstr).

Definition buildMessageContent (text : jstr) (imageUrls : list jstr) : jstr + list ContentPart :=
  let validImages := filter (λ u, trim u ≠ []) imageUrls in
  match validImages with
  | [] => inl text
  | _ => inr (TextPart (Some text) :: map (λ u, ImagePart (trim u)) validImages)
  end.

Definition is_text_part (p : ContentPart) : bool :=
  match p with TextPart _ => true | ImagePart _ => false end.

Definition getTextContent (c : jstr + list ContentPart) : jstr :=
  match c with
  | inl s => s
  | inr parts => match List.find is_text_part parts with
                 | Some (TextPart (Some t)) => t
                 | _ => []
                 end
  end.

Record ChatCompletionMessage := mkChat { chat_role : MessageRole; chat_content : jstr }.

Definition formatMessageForAPI (m : Message) : ChatCompletionMessage :=
  mkChat (from m) (content (getCurrentVersion m)).

Definition isValidMessage (m : Message) : bool :=
  match versions m with
  | [] => false
  | _ => negb (bool_decide (from m = assistant) && negb (hasMessageContent m))
  end.

End MessageUtils.
Import MessageUtils.

(** ** message-timing-utils.ts *)
Module Timing.

Definition or_now (a b : option Z) (d : Z) : Z := default d (match a with Some x => Some x | None => b end).

Definition completeAssistantTiming (m : Message) (done_at : Z) : Message :=
  if negb (bool_decide (from m = assistant)) then m
  else
    let s := or_now (startedAt m) (createdAt m) done_at in
    with_timing (Some s) (Some done_at) (Some (Z.max 0 (done_at - s))) m.

Definition startReasoningTiming (m : Message) (now : Z) : Reasoning :=
  match reasoning m with
  | Some r => mkReasoning (r_content r) (r_duration r) (Some (default now (r_startedAt r)))
                (r_completedAt r) (r_durationMs r)
  | None => mkReasoning [] 0 (Some now) None None
  end.

(** [Math.ceil(ms / 1000)] for an integer [ms >= 0]. *)
Definition ceil_seconds (ms : Z) : Z := (ms + 999) / 1000.

Definition completeReasoningTiming (m : Message) (done_at : Z) : Message :=
  match reasoning m with
  | None => m
  | Some r =>
      match r_durationMs r with
      | Some _ => m
      | None =>
          let s := or_now (r_startedAt r) (startedAt m) done_at in
          let d := Z.max 0 (done_at - s) in
          with_reasoning (Some (mkReasoning (r_content r) (ceil_seconds d) (Some s)
                                  (Some done_at) (Some d))) m
      end
  end.

End Timing.
Import Timing.

(** ** message-reasoning-utils.ts *)
Module ReasoningUtils.

Definition open_tag : jstr := js "<think>".
Definition close_tag : jstr := js "</think>".

Record ParsedThinkTags := mkParsed {
  visibleContent : jstr;
  parsed_reasoning : jstr;
  hasUnclosedTag : bool;
}.

(** The loop: visible parts, reasoning parts and whether the last tag is
    unclosed; [None] if the fuel does not suffice. *)
Fixpoint think_loop (fuel : nat) (s : jstr) (currentPos : nat) (vis reas : list jstr)
    : option (list jstr * list jstr * bool) :=
  match fuel with
  | O => None
  | S f =>
      match indexOf_from s open_tag currentPos with
      | None =>
          Some ((if bool_decide (currentPos < length s)%nat then vis ++ [drop currentPos s] else vis),
                reas, false)
      | Some openPos =>
          let vis' := if bool_decide (currentPos < openPos)%nat
                      then vis ++ [slice s currentPos openPos] else vis in
          match indexOf_from s close_tag (openPos + 7) with
          | None => Some (vis', reas ++ [drop (openPos + 7) s], true)
          | Some closePos =>
              think_loop f s (closePos + 8) vis' (reas ++ [slice s (openPos + 7) closePos])
          end
      end
  end.

(** The empty result stands for fuel running out, which [parseThinkTags_spec]
    rules out. *)
Definition parseThinkTags (s : jstr) : ParsedThinkTags :=
  if negb (includes s open_tag) then mkParsed s [] false
  else match think_loop (S (length s)) s 0 [] [] with
       | Some (vis, reas, unclosed) =>
           mkParsed (trim (join [] vis)) (trim (join [10%N; 10%N] reas)) unclosed
       | None => mkParsed [] [] false
       end.

End ReasoningUtils.
Import ReasoningUtils.

(** ** message-streaming-utils.ts *)
Module Streaming.

(** [contentChunk] undefined or empty adds nothing. *)
Definition processStreamingContent (m : Message) (contentChunk : jstr) (now : Z) : Message :=
  let fullContent := content (getCurrentVersion m) ++ contentChunk in
  if negb (bool_decide (is_Some (reasoning m))) && negb (includes fullContent open_tag)
  then with_streaming false (updateCurrentVersionContent m fullContent)
  else
    let p := parseThinkTags fullContent in
    let finalReasoning :=
      if truthy (parsed_reasoning p) then
        let r := startReasoningTiming m now in
        Some (mkReasoning (parsed_reasoning p) (r_duration r) (r_startedAt r)
                (r_completedAt r) (r_durationMs r))
      else reasoning m in
    with_streaming (hasUnclosedTag p)
      (with_reasoning finalReasoning (updateCurrentVersionContent m fullContent)).

Inductive StreamChunkType := reasoning_chunk | content_chunk.

Definition getAppendableChunk (currentContent chunk : jstr) : jstr :=
  if negb (truthy currentContent) || negb (startsWith chunk currentContent) then chunk
  else drop (length currentContent) chunk.

Definition applyStreamingChunk (m : Message) (type : StreamChunkType) (chunk : jstr) (now : Z)
    : Message :=
  if bool_decide (status m = Some ERROR) then m
  else
    match type with
    | reasoning_chunk =>
        let r := startReasoningTiming m now in
        let appendableChunk := getAppendableChunk (r_content r) chunk in
        with_status STREAMING (with_streaming true
          (with_reasoning (Some (mkReasoning (r_content r ++ appendableChunk) (r_duration r)
              (r_startedAt r) (r_completedAt r) (r_durationMs r))) m))
    | content_chunk =>
        let appendableChunk := getAppendableChunk (content (getCurrentVersion m)) chunk in
        let contentMessage := processStreamingContent m appendableChunk now in
        with_status STREAMING
          (if bool_decide (isReasoningStreaming contentMessage = Some true) then contentMessage
           else completeReasoningTiming contentMessage now)
    end.

(** [apiReasoningContent || message.reasoning?.content || parsed?.reasoning || ''] *)
Definition pick_reasoning (api : option jstr) (m : Message) (parsed : option ParsedThinkTags) : jstr :=
  opt_or_else api (opt_or_else (r_content <$> reasoning m)
    (opt_or_else (parsed_reasoning <$> parsed) [])).

Definition finalizeMessage (m : Message) (apiReasoningContent : option jstr) (now : Z) : Message :=
  let c := content (getCurrentVersion m) in
  let parsed := if includes c open_tag then Some (parseThinkTags c) else None in
  let visible := default c (visibleContent <$> parsed) in
  let finalReasoning := pick_reasoning apiReasoningContent m parsed in
  let r := startReasoningTiming m now in
  let finalized :=
    with_streaming false
      (with_reasoning
        (if truthy finalReasoning
         then Some (mkReasoning finalReasoning (r_duration r) (r_startedAt r)
                      (r_completedAt r) (r_durationMs r))
         else None)
        (updateCurrentVersionContent m visible)) in
  completeReasoningTiming finalized now.

Definition completeAssistantMessage (m : Message) (now : Z) : Message :=
  completeAssistantTiming (with_status COMPLETE (finalizeMessage m None now)) now.

Definition isAssistantMessageFinal (m : Message) : bool :=
  bool_decide (status m = Some COMPLETE) || bool_decide (status m = Some ERROR).

Definition isAssistantMessagePending (m : Message) : bool :=
  bool_decide (status m = Some LOADING) || bool_decide (status m = Some STREAMING).

Definition isPendingAssistantMessage (m : option Message) : bool :=
  match m with
  | Some m => bool_decide (from m = assistant) && isAssistantMessagePending m
  | None => false
  end.

(** A choice of a completion: content and reasoning of its message, if any. *)
Record ChatCompletionChoice := mkChoice {
  choice_content : option jstr;
  choice_reasoning : option jstr;
}.

Definition hasChatCompletionChoice (choices : list ChatCompletionChoice) : bool :=
  match choices with [] => false | _ => true end.

Definition applyChatCompletionChoice (m : Message) (c : ChatCompletionChoice) (now : Z) : Message :=
  completeAssistantTiming
    (with_status COMPLETE
      (finalizeMessage (updateCurrentVersionContent m (default [] (choice_content c)))
         (choice_reasoning c) now)) now.

Definition applyChatCompletionResponse (m : Message) (choices : list ChatCompletionChoice) (now : Z)
    : option Message :=
  match choices with
  | [] => None
  | c :: _ => Some (applyChatCompletionChoice m c now)
  end.

(** Index of the last pending assistant message, searched from the end. *)
Fixpoint last_pending (n : nat) (ms : list Message) : option nat :=
  match n with
  | O => None
  | S i => if isPendingAssistantMessage (ms !! i) then Some i else last_pending i ms
  end.

Section i18n.
Context (t : jstr → jstr).

(** The stable form of a pending message. *)
Definition settle_pending (m : Message) (now : Z) : Message :=
  let finalized := finalizeMessage m None now in
  let hasReasoning := truthy (trim (default [] (r_content <$> reasoning finalized))) in
  if hasMessageContent finalized || hasReasoning
  then completeAssistantTiming (with_streaming false (with_status COMPLETE finalized)) now
  else completeAssistantTiming
         (with_streaming false (with_status ERROR
           (updateCurrentVersionContent finalized
              (t API_REQUEST_ERROR ++ js ": " ++ t INTERRUPTED)))) now.

Definition sanitizeMessagesOnLoad (ms : list Message) (now : Z) : list Message :=
  match last_pending (length ms) ms with
  | None => ms
  | Some i => match ms !! i with
              | Some m => <[i := settle_pending m now]> ms
              | None => ms
              end
  end.
End i18n.

End Streaming.
Import Streaming.

(** ** message-update-utils.ts *)
Module UpdateUtils.

Definition updateLastAssistantMessage (ms : list Message) (updater : Message → Message)
    : list Message :=
  match ms !! (length ms - 1)%nat with
  | Some m => if bool_decide (from m = assistant)
              then <[(length ms - 1)%nat := updater m]> ms else ms
  | None => ms
  end.

Definition updateAssistantMessageWithError (ms : list Message) (errorMessage : jstr)
    (code : option json) (errorTitle : jstr) (now : Z) : list Message :=
  updateLastAssistantMessage ms (λ m,
    completeAssistantTiming
      (with_errorCode (match code with Some c => if json_truthy c then c else JNull | None => JNull end)
        (with_streaming false (with_status ERROR
          (updateCurrentVersionContent m (errorTitle ++ js ": " ++ errorMessage))))) now).

End UpdateUtils.
Import UpdateUtils.

(** ** conversation-message-utils.ts *)
Module Conversation.

(** Fresh identifiers: one per call of [nanoid()], in order. *)
Definition appendUserMessagePair (nanoid : nat → jstr) (ms : list Message) (text : jstr) (now : Z)
    : list Message :=
  ms ++ [createUserMessage (nanoid 0%nat) (nanoid 1%nat) text now;
         createLoadingAssistantMessage (nanoid 2%nat) (nanoid 3%nat) now].

Fixpoint findIndex {A} (P : A → bool) (l : list A) : option nat :=
  match l with
  | [] => None
  | x :: rest => if P x then Some 0%nat else S <$> findIndex P rest
  end.

Definition has_key (k : jstr) (m : Message) : bool := key m === k.

Definition createRegeneratedMessages (nanoid : nat → jstr) (ms : list Message) (messageKey : jstr)
    (now : Z) : option (list Message) :=
  i ← findIndex (has_key messageKey) ms;
  m ← ms !! i;
  let fresh := createLoadingAssistantMessage (nanoid 0%nat) (nanoid 1%nat) now in
  Some (if bool_decide (from m = user) then take (i + 1) ms ++ [fresh] else take i ms ++ [fresh]).

Definition removeMessageByKey (ms : list Message) (messageKey : jstr) : list Message :=
  filter (λ m, key m ≠ messageKey) ms.

Fixpoint getPreviousUserMessage (ms : list Message) (beforeIndex : nat) : option Message :=
  match beforeIndex with
  | O => None
  | S i => match ms !! i with
           | Some m => if bool_decide (from m = user) then Some m else getPreviousUserMessage ms i
           | None => getPreviousUserMessage ms i
           end
  end.

Definition edit_message (messageKey text : jstr) (shouldSubmit : bool) (now : Z) (m : Message)
    : Message :=
  if has_key messageKey m
  then with_createdAt (if shouldSubmit then Some now else createdAt m)
         (updateCurrentVersionContent m text)
  else m.

(** The edited messages, and whether they are to be sent. *)
Definition applyMessageEdit (nanoid : nat → jstr) (ms : list Message) (messageKey text : jstr)
    (shouldSubmit : bool) (now : Z) : option (list Message * bool) :=
  i ← findIndex (has_key messageKey) ms;
  let updated := map (edit_message messageKey text shouldSubmit now) ms in
  m ← updated !! i;
  Some (if negb shouldSubmit || negb (bool_decide (from m = user)) then (updated, false)
        else (take (i + 1) updated
              ++ [createLoadingAssistantMessage (nanoid 0%nat) (nanoid 1%nat) now], true)).

Definition getEditingMessageContent (ms : list Message) (editingKey : option jstr) : jstr :=
  match editingKey with
  | Some k => if truthy k then from_option getMessageContent [] (List.find (has_key k) ms) else []
  | None => []
  end.

Record ChatMessageRenderState := mkRender {
  alwaysShowActions : bool;
  render_content : jstr;
  isEditing : bool;
}.

Definition getChatMessageRenderState (ms : list Message) (m : Message) (messageIndex : nat)
    (editingKey : option jstr) : ChatMessageRenderState :=
  mkRender (bool_decide (Z.of_nat messageIndex = Z.of_nat (length ms) - 1)
            && bool_decide (from m = assistant))
    (getMessageContent m) (bool_decide (editingKey = Some (key m))).

End Conversation.
Import Conversation.

(** ** What the chat view derives from a message *)
Module View.

Record MessageActionState := mkAction {
  action_content : jstr; hasContent : bool; isAssistant : bool; isLoading : bool; isUser : bool;
}.
Definition getMessageActionState (m : Message) : MessageActionState :=
  mkAction (getMessageContent m) (hasMessageContent m) (bool_decide (from m = assistant))
    (bool_decide (status m = Some LOADING) || bool_decide (status m = Some STREAMING))
    (bool_decide (from m = user)).

Definition reasoning_streaming (m : Message) : bool := default false (isReasoningStreaming m).

Definition shouldShowMessageLoader (m : Message) (is_assistant : bool) (versionContent : jstr) : bool :=
  is_assistant && negb (reasoning_streaming m)
  && (bool_decide (status m = Some LOADING)
      || (bool_decide (status m = Some STREAMING) && negb (truthy versionContent))).

Definition shouldShowMessageContent (m : Message) (versionContent : jstr) : bool :=
  (bool_decide (from m = user) || negb (reasoning_streaming m)) && truthy versionContent.

Definition getDisplayContent (m : Message) (versionContent : jstr) : jstr :=
  if negb (bool_decide (from m = assistant)) then versionContent
  else if negb (includes versionContent open_tag) then versionContent
  else visibleContent (parseThinkTags versionContent).

(** [reasoningContent] is present exactly when [hasReasoning] is true. *)
Record MessageContentState := mkContentState {
  displayContent : jstr; hasSources : bool; cs_isAssistant : bool; showLoader : bool;
  showMessageContent : bool; cs_sources : list Source; reasoningContent : option jstr;
}.
Definition getMessageContentState (m : Message) (versionContent : jstr) : MessageContentState :=
  let is_assistant := bool_decide (from m = assistant) in
  let srcs := default [] (sources m) in
  let rc := if is_assistant then r_content <$> reasoning m else None in
  mkContentState (getDisplayContent m versionContent)
    (match srcs with [] => false | _ => true end) is_assistant
    (shouldShowMessageLoader m is_assistant versionContent)
    (shouldShowMessageContent m versionContent) srcs
    (if truthy_opt rc then rc else None).

Record MessageEditorState := mkEditor { canSave : bool; hasChanged : bool; showSaveAndSubmit : bool }.
Definition getMessageEditorState (m : Message) (editText originalText : jstr) : MessageEditorState :=
  let hasText := truthy (trim editText) in
  let changed := negb (editText === originalText) in
  mkEditor (hasText && changed) changed (bool_decide (from m = user)).

Definition FALLBACK_ERROR_CONTENT : jstr := js "An unknown error occurred".
Definition isAdminRole (role : option Z) : bool :=
  match role with Some r => 10 <=? r | None => false end.
Definition isErrorMessage (m : Message) : bool := bool_decide (status m = Some ERROR).

Inductive ErrorKind := generic | model_price.
Record MessageErrorState := mkErrorState {
  es_content : jstr; es_kind : ErrorKind; showSettingsLink : bool;
}.
Definition getMessageErrorState (m : Message) (isAdmin : bool) : option MessageErrorState :=
  if negb (isErrorMessage m) then None
  else
    let isModelPriceError := match errorCode m with Some (JStr c) => c === js "model_price_error" | _ => false end in
    Some (mkErrorState (or_else (getMessageContent m) FALLBACK_ERROR_CONTENT)
            (if isModelPriceError then model_price else generic) (isModelPriceError && isAdmin)).

Inductive MessageAlignment := align_left | align_right.
Definition getMessageAlignment (m : Message) (mode : PlaygroundMessageLayoutMode) : MessageAlignment :=
  match mode with
  | left_mode => align_left
  | alternating => if bool_decide (from m = user) then align_right else align_left
  end.

End View.

(** ** payload-builder.ts *)
Module Payload.

Record PlaygroundConfig := mkPlaygroundConfig {
  model : jstr; group : jstr; temperature : jsnum; top_p : jsnum; max_tokens : jsnum;
  frequency_penalty : jsnum; presence_penalty : jsnum; seed : option jsnum; stream : bool;
}.
Record ParameterEnabled := mkEnabled {
  e_temperature : bool; e_top_p : bool; e_max_tokens : bool; e_frequency_penalty : bool;
  e_presence_penalty : bool; e_seed : bool;
}.
Record ChatCompletionRequest := mkRequest {
  p_model : jstr; p_group : jstr; p_messages : list ChatCompletionMessage; p_stream : bool;
  p_temperature : option jsnum; p_top_p : option jsnum; p_max_tokens : option jsnum;
  p_frequency_penalty : option jsnum; p_presence_penalty : option jsnum; p_seed : option jsnum;
}.

Definition DEFAULT_CONFIG : PlaygroundConfig :=
  mkPlaygroundConfig (js "gpt-4o") (js "default") (num_of_dec false 7 (-1)) (num_of_Z 1) (num_of_Z 4096)
    (num_of_Z 0) (num_of_Z 0) None true.
Definition DEFAULT_PARAMETER_ENABLED : ParameterEnabled :=
  mkEnabled true true false true true false.

Definition when {A} (b : bool) (x : A) : option A := if b then Some x else None.

Definition buildChatCompletionPayload (ms : list Message) (c : PlaygroundConfig)
    (en : ParameterEnabled) : ChatCompletionRequest :=
  mkRequest (model c) (group c)
    (map formatMessageForAPI (filter (λ m, isValidMessage m = true) ms)) (stream c)
    (when (e_temperature en) (temperature c)) (when (e_top_p en) (top_p c))
    (when (e_max_tokens en) (max_tokens c))
    (when (e_frequency_penalty en) (frequency_penalty c))
    (when (e_presence_penalty en) (presence_penalty c))
    (if e_seed en then seed c else None).

End Payload.
