(* ===== verification/PlaygroundMessageFacts.v ===== *)
(** * Properties of playground messages

    The think-tag parser loses nothing and always ends; what a stream of chunks
    adds up to, for snapshots and for deltas; finished messages; the repair of
    messages loaded from storage; conversation edits and the request payload. *)

From S2P Require Import Prelude JsValue PlaygroundMessage.
Import Types Constants MessageUtils Timing ReasoningUtils Streaming UpdateUtils Conversation.

(** ** Think tags *)

(** The text whose closed blocks are [blocks], each with the text before it,
    and whose rest is [v], followed by the unclosed block [r] if any. *)
Fixpoint weave (blocks : list (jstr * jstr)) (v : jstr) (r : option jstr) : jstr :=
  match blocks with
  | [] => v ++ match r with Some x => open_tag ++ x | None => [] end
  | (v0, r0) :: rest => v0 ++ open_tag ++ r0 ++ close_tag ++ weave rest v r
  end.

Definition nonempty (v : jstr) : list jstr := if truthy v then [v] else [].

(** What the loop has collected from such a text. *)
Definition visible_parts (blocks : list (jstr * jstr)) (v : jstr) : list jstr :=
  concat (map (λ b, nonempty b.1) blocks) ++ nonempty v.
Definition reasoning_parts (blocks : list (jstr * jstr)) (r : option jstr) : list jstr :=
  map snd blocks ++ option_list r.

(** No tag is hidden inside a part. *)
Definition tag_free (blocks : list (jstr * jstr)) (v : jstr) (r : option jstr) : Prop :=
  Forall (λ b, includes b.1 open_tag = false ∧ includes b.2 close_tag = false) blocks ∧
  includes v open_tag = false ∧ (∀ x, r = Some x → includes x close_tag = false).

Lemma before_first_occurrence s p k :
  p ≠ [] → indexOf s p = Some k → includes (take k s) p = false.
Proof.
  intros Hp Hk. apply not_true_iff_false. rewrite includes_true. intros (a & b & Hab).
  pose proof (indexOf_bound _ _ _ Hk) as Hb. apply indexOf_Some in Hk as [_ Hmin].
  assert (length p > 0)%nat by (destruct p; simpl; [done|lia]).
  assert (HL := f_equal length Hab). rewrite length_take, !length_app in HL.
  specialize (Hmin (length a)). rewrite <- not_true_iff_false in Hmin.
  apply Hmin; [lia|]. apply startsWith_true.
  exists (b ++ drop k s). rewrite <- (take_drop k s) at 1.
  by rewrite Hab, <- !app_assoc, drop_app_length.
Qed.

Lemma no_occurrence s p : indexOf s p = None → includes s p = false.
Proof.
  intros H. unfold includes. rewrite H. apply bool_decide_eq_false. by intros [? ?].
Qed.

Lemma concat_nonempty_join l : join [] l = concat l.
Proof.
  induction l as [|w [|w' l] IH]; [done|simpl; by rewrite app_nil_r|].
  rewrite join_cons by done. by rewrite IH.
Qed.

Lemma nonempty_slice s a b :
  (a ≤ b ≤ length s)%nat →
  (if bool_decide (a < b)%nat then [slice s a b] else []) = nonempty (slice s a b).
Proof.
  intros H. unfold nonempty, slice. destruct (truthy _) eqn:E.
  - apply truthy_true in E. rewrite bool_decide_eq_true_2; [done|].
    destruct (decide (a < b)%nat); [done|]. destruct E. by replace (b - a)%nat with 0%nat by lia.
  - apply truthy_false in E. rewrite bool_decide_eq_false_2; [done|]. intros Hab.
    apply (f_equal length) in E. rewrite length_take, length_drop in E. simpl in E. lia.
Qed.

Lemma nonempty_drop s a :
  (if bool_decide (a < length s)%nat then [drop a s] else []) = nonempty (drop a s).
Proof.
  unfold nonempty. destruct (truthy _) eqn:E.
  - apply truthy_true in E. rewrite bool_decide_eq_true_2; [done|].
    destruct (decide (a < length s)%nat); [done|]. destruct E. apply drop_ge. lia.
  - apply truthy_false in E. rewrite bool_decide_eq_false_2; [done|]. intros Ha.
    apply (f_equal length) in E. rewrite length_drop in E. simpl in E. lia.
Qed.

Lemma if_app {A} (b : bool) (l m : list A) : (if b then l ++ m else l) = l ++ (if b then m else []).
Proof. destruct b; [done|by rewrite app_nil_r]. Qed.

Lemma think_loop_spec fuel s pos vis reas :
  (pos ≤ length s)%nat → (length s - pos < fuel)%nat →
  ∃ blocks v r,
    think_loop fuel s pos vis reas =
      Some (vis ++ visible_parts blocks v, reas ++ reasoning_parts blocks r,
            bool_decide (is_Some r)) ∧
    drop pos s = weave blocks v r ∧ tag_free blocks v r.
Proof.
  revert pos vis reas. induction fuel as [|f IH]; intros pos vis reas Hpos Hf; [lia|].
  cbn [think_loop]. unfold indexOf_from at 1.
  destruct (indexOf (drop pos s) open_tag) as [k|] eqn:Ek; simpl fmap.
  2:{ exists [], (drop pos s), None. unfold visible_parts, reasoning_parts.
      rewrite if_app, nonempty_drop. simpl. rewrite !app_nil_r.
      split; [done|]. split; [done|]. split; [constructor|].
      split; [by apply no_occurrence|done]. }
  pose proof (indexOf_bound _ _ _ Ek) as Hb. rewrite length_drop in Hb. simpl in Hb.
  pose proof (before_first_occurrence _ open_tag _ ltac:(discriminate) Ek) as Hv.
  apply indexOf_Some in Ek as [Ek _].
  assert (Hslice : slice s pos (pos + k) = take k (drop pos s)).
  { unfold slice. f_equal. lia. }
  rewrite if_app, nonempty_slice, Hslice by lia.
  assert (Hdrop : drop (k + length open_tag) (drop pos s) = drop (pos + k + 7) s).
  { rewrite drop_drop. f_equal. simpl. lia. }
  rewrite Hdrop in Ek. unfold indexOf_from.
  destruct (indexOf (drop (pos + k + 7) s) close_tag) as [j|] eqn:Ej; simpl fmap.
  2:{ exists [], (take k (drop pos s)), (Some (drop (pos + k + 7) s)).
      unfold visible_parts, reasoning_parts. simpl.
      split; [done|]. split; [done|]. split; [constructor|]. split; [done|].
      intros x [= <-]. by apply no_occurrence. }
  pose proof (indexOf_bound _ _ _ Ej) as Hbj. rewrite length_drop in Hbj. simpl in Hbj.
  pose proof (before_first_occurrence _ close_tag _ ltac:(discriminate) Ej) as Hr.
  apply indexOf_Some in Ej as [Ej _].
  assert (Hslice2 : slice s (pos + k + 7) (pos + k + 7 + j) = take j (drop (pos + k + 7) s)).
  { unfold slice. f_equal. lia. }
  rewrite Hslice2.
  destruct (IH (pos + k + 7 + j + 8)%nat (vis ++ nonempty (take k (drop pos s)))
              (reas ++ [take j (drop (pos + k + 7) s)])) as (bs & v & r & -> & Hw & Ht); [lia|lia|].
  exists ((take k (drop pos s), take j (drop (pos + k + 7) s)) :: bs), v, r.
  unfold visible_parts, reasoning_parts. cbn [map concat fst snd weave]. rewrite <- !app_assoc.
  split; [done|]. split.
  - rewrite Ek at 1. f_equal. f_equal. rewrite Ej at 1. f_equal. f_equal.
    rewrite drop_drop, <- Hw. f_equal. simpl. lia.
  - destruct Ht as (H1 & H2 & H3). split; [by constructor|]. by split.
Qed.

Lemma concat_visible blocks v : concat (visible_parts blocks v) = concat (map fst blocks) ++ v.
Proof.
  unfold visible_parts, nonempty. induction blocks as [|[v0 r0] bs IH]; simpl.
  - destruct v; simpl; [done|by rewrite app_nil_r].
  - rewrite <- app_assoc. destruct v0; simpl in *; by rewrite IH, ?app_assoc.
Qed.

(** [C25] Parsing think tags is total and loses nothing: the text is a sequence
    of closed blocks, each preceded by visible text, and a rest with possibly
    one unclosed block; no part hides a tag; the visible content is the
    trimmed concatenation of the visible texts, the reasoning is the blocks
    joined by blank lines and trimmed, and the flag says whether the last tag
    is unclosed. *)
Theorem parseThinkTags_spec s :
  includes s open_tag = true →
  ∃ blocks v r,
    s = weave blocks v r ∧ tag_free blocks v r ∧
    parseThinkTags s =
      mkParsed (trim (concat (map fst blocks) ++ v))
        (trim (join [10%N; 10%N] (map snd blocks ++ option_list r)))
        (bool_decide (is_Some r)).
Proof.
  intros Hs. unfold parseThinkTags. rewrite Hs. simpl negb. cbn iota.
  destruct (think_loop_spec (S (length s)) s 0 [] []) as (bs & v & r & -> & Hw & Ht); [lia|lia|].
  exists bs, v, r. split_and!; [done|done|]. simpl app.
  rewrite concat_nonempty_join, concat_visible. done.
Qed.

Lemma parseThinkTags_spec_witness :
  ∃ blocks v r, js "a<think>x</think>b<think>y" = weave blocks v r ∧ tag_free blocks v r ∧
    mkParsed (js "ab") (js "x" ++ [10%N; 10%N] ++ js "y") true
    = mkParsed (trim (concat (map fst blocks) ++ v))
        (trim (join [10%N; 10%N] (map snd blocks ++ option_list r))) (bool_decide (is_Some r)).
Proof.
  destruct (parseThinkTags_spec (js "a<think>x</think>b<think>y")) as (bs & v & r & H1 & H2 & H3);
    [vm_compute; reflexivity|].
  exists bs, v, r. split_and!; [exact H1|apply H2..|]. rewrite <- H3. vm_compute. reflexivity.
Defined.

(** A text without the tag is shown as it is. *)
Lemma parseThinkTags_plain s :
  includes s open_tag = false → parseThinkTags s = mkParsed s [] false.
Proof. intros H. unfold parseThinkTags. by rewrite H. Qed.

(** ** Streams of chunks *)

Lemma getMessageContent_update m c : getMessageContent (updateCurrentVersionContent m c) = c.
Proof. done. Qed.

Lemma completeReasoningTiming_content m now :
  getMessageContent (completeReasoningTiming m now) = getMessageContent m.
Proof. unfold completeReasoningTiming. by repeat case_match. Qed.
Lemma completeReasoningTiming_status m now : status (completeReasoningTiming m now) = status m.
Proof. unfold completeReasoningTiming. by repeat case_match. Qed.
Lemma completeReasoningTiming_from m now : from (completeReasoningTiming m now) = from m.
Proof. unfold completeReasoningTiming. by repeat case_match. Qed.

Lemma processStreamingContent_content m c now :
  getMessageContent (processStreamingContent m c now) = getMessageContent m ++ c.
Proof. unfold processStreamingContent. cbn zeta. by case_match. Qed.

(** The text after one more chunk: a chunk that repeats the whole text so far
    replaces it, any other chunk is appended. *)
Definition extend (acc chunk : jstr) : jstr :=
  if truthy acc && startsWith chunk acc then chunk else acc ++ chunk.

Lemma getAppendableChunk_extend acc chunk : acc ++ getAppendableChunk acc chunk = extend acc chunk.
Proof.
  unfold getAppendableChunk, extend. destruct (truthy acc); simpl; [|done].
  destruct (startsWith chunk acc) eqn:E; simpl; [|done].
  apply startsWith_true in E as [k ->]. by rewrite drop_app_length.
Qed.

Lemma applyStreamingChunk_content m chunk now :
  status m ≠ Some ERROR →
  getMessageContent (applyStreamingChunk m content_chunk chunk now)
    = extend (getMessageContent m) chunk ∧
  status (applyStreamingChunk m content_chunk chunk now) = Some STREAMING.
Proof.
  intros Hs. unfold applyStreamingChunk. rewrite bool_decide_eq_false_2 by done. cbn zeta.
  split; [|done]. rewrite <- getAppendableChunk_extend, <- processStreamingContent_content with (now := now).
  case_bool_decide; [done|].
  transitivity (getMessageContent (completeReasoningTiming
    (processStreamingContent m (getAppendableChunk (getMessageContent m) chunk) now) now)); [done|].
  apply completeReasoningTiming_content.
Qed.

(** A stream of content chunks, applied in order. *)
Definition stream_chunks (m : Message) (chunks : list jstr) (now : Z) : Message :=
  foldl (λ m c, applyStreamingChunk m content_chunk c now) m chunks.

Lemma stream_chunks_content m chunks now :
  status m ≠ Some ERROR →
  getMessageContent (stream_chunks m chunks now) = foldl extend (getMessageContent m) chunks.
Proof.
  revert m. induction chunks as [|c cs IH]; intros m Hs; [done|]. simpl.
  destruct (applyStreamingChunk_content m c now Hs) as [Hc Hst].
  rewrite IH by (by rewrite Hst). by rewrite Hc.
Qed.

(** Each element is a non-empty prefix of the next. *)
Fixpoint snapshots (acc : jstr) (chunks : list jstr) : Prop :=
  match chunks with
  | [] => True
  | c :: cs => acc `prefix_of` c ∧ snapshots c cs
  end.

(** No chunk repeats the text collected before it. *)
Fixpoint deltas (acc : jstr) (chunks : list jstr) : Prop :=
  match chunks with
  | [] => True
  | c :: cs => (acc = [] ∨ startsWith c acc = false) ∧ deltas (acc ++ c) cs
  end.

Lemma foldl_extend_snapshots acc chunks :
  snapshots acc chunks → foldl extend acc chunks = List.last chunks acc.
Proof.
  revert acc. induction chunks as [|c cs IH]; intros acc; [done|]. simpl. intros [Hp Hs].
  assert (extend acc c = c) as ->.
  { unfold extend. destruct acc as [|x acc]; [done|]. simpl.
    unfold startsWith. by rewrite bool_decide_eq_true_2. }
  rewrite IH by done. destruct cs as [|d cs]; [done|]. clear. revert d.
  induction cs as [|e cs IH]; intros d; [done|]. apply IH.
Qed.

Lemma foldl_extend_deltas acc chunks :
  deltas acc chunks → foldl extend acc chunks = acc ++ concat chunks.
Proof.
  revert acc. induction chunks as [|c cs IH]; intros acc; simpl; [by rewrite app_nil_r|].
  intros [Hd Hs]. assert (extend acc c = acc ++ c) as ->.
  { unfold extend. destruct Hd as [-> | ->]; [done|]. by rewrite andb_false_r. }
  rewrite IH by done. by rewrite app_assoc.
Qed.

(** A provider may stream snapshots (each chunk repeats the text so far)
    or deltas: for snapshots the message ends with the last one, and for deltas
    that never repeat the whole text before them it ends with their
    concatenation. *)
Theorem stream_chunks_snapshots_or_deltas m chunks now :
  status m ≠ Some ERROR →
  (snapshots (getMessageContent m) chunks →
     getMessageContent (stream_chunks m chunks now) = List.last chunks (getMessageContent m)) ∧
  (deltas (getMessageContent m) chunks →
     getMessageContent (stream_chunks m chunks now) = getMessageContent m ++ concat chunks).
Proof.
  intros Hs. rewrite stream_chunks_content by done.
  split; [apply foldl_extend_snapshots|apply foldl_extend_deltas].
Qed.

Definition demo_loading : Message := createLoadingAssistantMessage (js "k") (js "v") 0.

Lemma stream_chunks_snapshots_or_deltas_witness :
  getMessageContent (stream_chunks demo_loading [js "Hel"; js "lo"] 5) = js "Hello".
Proof.
  apply (stream_chunks_snapshots_or_deltas demo_loading [js "Hel"; js "lo"] 5); [done|].
  vm_compute. split; [by left|]. split; [by right|done].
Defined.

(** A delta that happens to repeat the whole text before it is taken for a
    snapshot and lost: after the deltas "1" and "1" the message reads "1". *)
Theorem repeated_delta_is_dropped :
  getMessageContent (stream_chunks demo_loading [js "1"; js "1"] 5) = js "1".
Proof. vm_compute. reflexivity. Qed.

(** ** Finished messages *)

(** Timing is closed and no duration is negative. *)
Definition timing_closed (m : Message) (now : Z) : Prop :=
  completedAt m = Some now ∧ (∃ d, durationMs m = Some d ∧ 0 ≤ d) ∧
  isReasoningStreaming m = Some false ∧
  (∀ r, reasoning m = Some r → is_Some (r_durationMs r) ∧ r_content r ≠ []).

Definition finished (m : Message) (now : Z) : Prop :=
  isAssistantMessageFinal m = true ∧ isAssistantMessagePending m = false ∧ timing_closed m now.

Lemma completeAssistantTiming_closed m now :
  from m = assistant →
  completedAt (completeAssistantTiming m now) = Some now ∧
  (∃ d, durationMs (completeAssistantTiming m now) = Some d ∧ 0 ≤ d) ∧
  status (completeAssistantTiming m now) = status m ∧
  reasoning (completeAssistantTiming m now) = reasoning m ∧
  versions (completeAssistantTiming m now) = versions m ∧
  isReasoningStreaming (completeAssistantTiming m now) = isReasoningStreaming m.
Proof.
  intros H. unfold completeAssistantTiming. rewrite bool_decide_eq_true_2 by done. simpl.
  split_and!; try done. eexists. split; [done|]. lia.
Qed.

Lemma finalizeMessage_closed m api now :
  isReasoningStreaming (finalizeMessage m api now) = Some false ∧
  from (finalizeMessage m api now) = from m ∧
  (∀ r, reasoning (finalizeMessage m api now) = Some r →
     is_Some (r_durationMs r) ∧ r_content r ≠ []).
Proof.
  unfold finalizeMessage. cbn zeta. unfold completeReasoningTiming at 1 2 3.
  destruct (truthy (pick_reasoning _ _ _)) eqn:E; simpl; [|done].
  destruct (r_durationMs (startReasoningTiming m now)) eqn:Ed; simpl;
    (split; [done|split; [done|]]); intros r [= <-]; simpl; rewrite ?Ed;
    (split; [by eexists|by apply truthy_true]).
Qed.

(** What a finished reply shows of its text. *)
Definition final_text (s : jstr) : jstr :=
  if includes s open_tag then visibleContent (parseThinkTags s) else s.

Lemma finalizeMessage_versions m api now :
  versions (finalizeMessage m api now) =
    [mkVersion (id (getCurrentVersion m)) (final_text (getMessageContent m))].
Proof.
  unfold finalizeMessage. cbn zeta.
  assert (∀ x, versions (completeReasoningTiming x now) = versions x) as ->
    by (intros x; unfold completeReasoningTiming; by repeat case_match).
  unfold final_text, getMessageContent. simpl. by destruct (includes _ _).
Qed.

Lemma completeAssistantTiming_versions m now :
  versions (completeAssistantTiming m now) = versions m.
Proof. unfold completeAssistantTiming. by case_match. Qed.

Lemma completeAssistantMessage_content m now :
  getMessageContent (completeAssistantMessage m now) = final_text (getMessageContent m).
Proof.
  unfold completeAssistantMessage, getMessageContent at 1, getCurrentVersion.
  rewrite completeAssistantTiming_versions. simpl versions. by rewrite finalizeMessage_versions.
Qed.

Lemma finalized_finished m api now :
  from m = assistant →
  finished (completeAssistantTiming (with_status COMPLETE (finalizeMessage m api now)) now) now.
Proof.
  intros Hx. destruct (finalizeMessage_closed m api now) as (Hs & Hf & Hr).
  destruct (completeAssistantTiming_closed (with_status COMPLETE (finalizeMessage m api now)) now)
    as (H1 & H2 & H3 & H4 & _ & H6); [by rewrite <- Hx, <- Hf|].
  unfold finished, isAssistantMessageFinal, isAssistantMessagePending, timing_closed.
  rewrite H1, H3, H4, H6. split_and!; done.
Qed.

Lemma completeAssistantMessage_finished m now :
  from m = assistant → finished (completeAssistantMessage m now) now.
Proof. apply finalized_finished. Qed.

(** Completing an assistant message, from a stream or from a whole reply,
    leaves it finished: final status, closed timing with non-negative
    durations, no reasoning still streaming, and any reasoning non-empty and
    timed. *)
Theorem completed_message_finished m choices now :
  from m = assistant →
  finished (completeAssistantMessage m now) now ∧
  (∀ m', applyChatCompletionResponse m choices now = Some m' → finished m' now).
Proof.
  intros H. split; [by apply finalized_finished|].
  intros m'. destruct choices as [|c cs]; [done|]. intros [= <-]. by apply finalized_finished.
Qed.

Lemma completed_message_finished_witness :
  finished (completeAssistantMessage (stream_chunks demo_loading [js "<think>a</think>b"] 5) 9) 9.
Proof.
  refine (proj1 (completed_message_finished
    (stream_chunks demo_loading [js "<think>a</think>b"] 5) [] 9 _)).
  vm_compute. reflexivity.
Defined.

(** ** Messages loaded from storage *)

Lemma last_pending_spec n ms :
  match last_pending n ms with
  | Some i => (i < n)%nat ∧ isPendingAssistantMessage (ms !! i) = true ∧
              (∀ j, (i < j < n)%nat → isPendingAssistantMessage (ms !! j) = false)
  | None => ∀ j, (j < n)%nat → isPendingAssistantMessage (ms !! j) = false
  end.
Proof.
  induction n as [|n IH]; simpl; [lia|].
  destruct (isPendingAssistantMessage (ms !! n)) eqn:E.
  - split_and!; [lia|done|lia].
  - destruct (last_pending n ms) as [i|].
    + destruct IH as (H1 & H2 & H3). split_and!; [lia|done|].
      intros j Hj. destruct (decide (j = n)) as [->|]; [done|]. apply H3. lia.
    + intros j Hj. destruct (decide (j = n)) as [->|]; [done|]. apply IH. lia.
Qed.

Lemma settle_pending_not_pending t m now :
  from m = assistant → isPendingAssistantMessage (Some (settle_pending t m now)) = false.
Proof.
  intros H. destruct (finalizeMessage_closed m None now) as (_ & Hf & _).
  unfold settle_pending, isPendingAssistantMessage, isAssistantMessagePending. cbn zeta.
  destruct (_ || _); unfold completeAssistantTiming; simpl; rewrite Hf, H; simpl;
    apply andb_false_r.
Qed.

(** Repairing loaded messages replaces the last pending assistant message
    by a settled one and touches nothing else; nothing after it was pending, so
    a history with at most one pending message has none left. *)
Theorem sanitizeMessagesOnLoad_spec t ms now :
  length (sanitizeMessagesOnLoad t ms now) = length ms ∧
  match last_pending (length ms) ms with
  | None => sanitizeMessagesOnLoad t ms now = ms
  | Some i =>
      isPendingAssistantMessage (sanitizeMessagesOnLoad t ms now !! i) = false ∧
      (∀ j, j ≠ i → sanitizeMessagesOnLoad t ms now !! j = ms !! j) ∧
      (∀ j, (i < j)%nat → isPendingAssistantMessage (sanitizeMessagesOnLoad t ms now !! j) = false)
  end.
Proof.
  unfold sanitizeMessagesOnLoad. pose proof (last_pending_spec (length ms) ms) as Hp.
  destruct (last_pending (length ms) ms) as [i|]; [|done].
  destruct Hp as (Hi & Hpend & Hafter).
  destruct (lookup_lt_is_Some_2 ms i Hi) as [m Hm]. rewrite Hm in *.
  rewrite length_insert. split; [done|].
  rewrite list_lookup_insert_eq by done.
  assert (from m = assistant) by (simpl in Hpend; bsplit; done).
  split; [by apply settle_pending_not_pending|].
  assert (Hne : ∀ j, j ≠ i → <[i:=settle_pending t m now]> ms !! j = ms !! j)
    by (intros; by apply list_lookup_insert_ne).
  split; [done|]. intros j Hj. rewrite Hne by lia.
  destruct (decide (j < length ms)%nat); [apply Hafter; lia|].
  by rewrite lookup_ge_None_2 by lia.
Qed.

(** Only the last pending message is repaired: with two interrupted
    replies in the history the first one stays pending after loading. *)
Theorem earlier_pending_message_stays_pending :
  isPendingAssistantMessage
    (sanitizeMessagesOnLoad (λ s, s) [demo_loading; demo_loading] 5 !! 0%nat) = true.
Proof. vm_compute. reflexivity. Qed.

(** ** Conversation edits *)

Lemma findIndex_Some {A} (P : A → bool) l i :
  findIndex P l = Some i →
  ∃ x, l !! i = Some x ∧ P x = true ∧ (∀ j y, (j < i)%nat → l !! j = Some y → P y = false).
Proof.
  revert i. induction l as [|x l IH]; intros i; simpl; [done|].
  destruct (P x) eqn:E.
  - intros [= <-]. exists x. split_and!; [done|done|lia].
  - intros (j & Hj & ->)%fmap_Some. destruct (IH j Hj) as (y & H1 & H2 & H3).
    exists y. split_and!; [done|done|]. intros [|n] z Hn; simpl; [by intros [= <-]|].
    apply H3. lia.
Qed.

Lemma createLoading_not_valid k v now :
  isValidMessage (createLoadingAssistantMessage k v now) = false.
Proof. done. Qed.

Lemma payload_app ms ms' c en :
  Payload.p_messages (Payload.buildChatCompletionPayload (ms ++ ms') c en) =
  Payload.p_messages (Payload.buildChatCompletionPayload ms c en) ++
  Payload.p_messages (Payload.buildChatCompletionPayload ms' c en).
Proof. simpl. by rewrite list.filter_app, map_app. Qed.

(** Sending a text appends a user message and a placeholder, and the
    request carries the valid messages so far followed by exactly that text:
    the empty placeholder is never sent. *)
Theorem appendUserMessagePair_payload nanoid ms text now c en :
  Payload.p_messages (Payload.buildChatCompletionPayload (appendUserMessagePair nanoid ms text now) c en)
  = Payload.p_messages (Payload.buildChatCompletionPayload ms c en) ++ [mkChat user text].
Proof. unfold appendUserMessagePair. rewrite payload_app. done. Qed.

(** Submitting an edit of a user message keeps the messages before it,
    replaces its text, drops everything after it and ends with one fresh
    placeholder; messages with other keys are unchanged. *)
Theorem applyMessageEdit_submit nanoid ms k text now out :
  applyMessageEdit nanoid ms k text true now = Some (out, true) →
  ∃ i m, ms !! i = Some m ∧ key m = k ∧ from m = user ∧
    out = take i ms ++ [with_createdAt (Some now) (updateCurrentVersionContent m text);
                        createLoadingAssistantMessage (nanoid 0%nat) (nanoid 1%nat) now].
Proof.
  unfold applyMessageEdit. intros (i & Hi & H)%bind_Some.
  apply findIndex_Some in Hi as (m & Hm & Hk & Hbefore). cbn zeta in H.
  rewrite list_lookup_fmap, Hm in H. simpl in H.
  assert (from (edit_message k text true now m) = from m) as Hf
    by (unfold edit_message; by destruct (has_key k m)).
  rewrite Hf in H. case_bool_decide as Hu; simpl in H; [|done]. injection H as <-.
  exists i, m. split_and!; [done|by apply jeqb_true|done|].
  rewrite Nat.add_1_r.
  rewrite (take_S_r _ i (edit_message k text true now m)).
  2:{ rewrite list_lookup_fmap, Hm. done. }
  rewrite <- app_assoc. f_equal.
  - rewrite firstn_map. transitivity (map (λ y, y) (take i ms)); [|by rewrite map_id].
    apply map_ext_in. intros y [j Hy]%list_elem_of_In%list_elem_of_lookup.
    apply lookup_take_Some in Hy as [Hy Hj].
    unfold edit_message. by rewrite (Hbefore j y Hj Hy).
  - unfold edit_message. by rewrite Hk.
Qed.

Lemma applyMessageEdit_submit_witness :
  let m := createUserMessage (js "a") (js "v") (js "old") 1 in
  ∃ i m0, [m; demo_loading] !! i = Some m0 ∧ key m0 = js "a" ∧ from m0 = user ∧
    [with_createdAt (Some 9) (updateCurrentVersionContent m (js "new"));
     createLoadingAssistantMessage (js "n") (js "n") 9]
    = take i [m; demo_loading] ++
      [with_createdAt (Some 9) (updateCurrentVersionContent m0 (js "new"));
       createLoadingAssistantMessage (js "n") (js "n") 9].
Proof.
  intros m. apply (applyMessageEdit_submit (λ _, js "n") [m; demo_loading] (js "a") (js "new") 9).
  vm_compute. reflexivity.
Defined.
