(* ===== verification/PlaygroundStream.v ===== *)
(** * Playground requests: the SSE controller and the chat handler

    Models [lib/streaming/stream-utils.ts], [lib/streaming/request-error-utils.ts],
    [hooks/use-stream-request.ts] and [hooks/use-chat-handler.ts].  Promises,
    timers and SSE events are explicit events of a state machine: a step runs
    one uninterrupted piece of JavaScript.  A callback returns its new state and
    whether it threw.  A state updater joins React's queue and its result is seen
    at the next render, which runs the queue in order.  React may run an updater
    already when it joins an empty queue and keep the result for the render; the
    updaters read refs and the clock, so this matters, and the event
    [Precompute] lets React choose either before any call. *)

From S2P Require Import Prelude JsValue PlaygroundMessage.
Import Types Constants MessageUtils Timing ReasoningUtils Streaming UpdateUtils Conversation.

(** ** stream-utils.ts and request-error-utils.ts *)
Module StreamUtils.

Definition STREAM_DONE_MESSAGE : jstr := js "[DONE]".
Definition STREAM_CLOSED_READY_STATE : Z := 2.

Record StreamErrorDetails := mkDetails {
  d_errorCode : option json;
  d_errorMessage : json;
}.

(** [x || undefined] and [x || fallback] on a property that may be absent. *)
Definition truthy_or_undefined (v : option json) : option json :=
  match v with Some x => if json_truthy x then Some x else None | None => None end.
Definition json_or (v : option json) (d : json) : json := default d (truthy_or_undefined v).

Definition parseStreamErrorDetails (data : option jstr) : StreamErrorDetails :=
  let fallbackMessage := JStr (opt_or_else data API_REQUEST_ERROR) in
  if negb (truthy_opt data) then mkDetails None fallbackMessage
  else match JSON_parse (default [] data) with
       | None => mkDetails None fallbackMessage
       | Some parsed =>
           match truthy_or_undefined (jget (js "error") parsed) with
           | None => mkDetails None fallbackMessage
           | Some err => mkDetails (truthy_or_undefined (jget (js "code") err))
                           (json_or (jget (js "message") err) fallbackMessage)
           end
       end.

(** [v?.[0]] *)
Definition first_item (v : json) : option json :=
  match v with
  | JArr (x :: _) => Some x
  | JStr (c :: _) => Some (JStr [c])
  | JObj fields => field_get (js "0") fields
  | _ => None
  end.

Definition update_of (type : StreamChunkType) (v : option json) : list (StreamChunkType * json) :=
  match truthy_or_undefined v with Some chunk => [(type, chunk)] | None => [] end.

(** [chunk.choices?.[0]?.delta], if truthy. *)
Definition chunk_delta (chunk : json) : option json :=
  choices ← jget (js "choices") chunk;
  choice ← first_item choices;
  truthy_or_undefined (jget (js "delta") choice).

Definition is_null (v : json) : bool := match v with JNull => true | _ => false end.

(** [None]: [JSON.parse], or the property access on [null], throws. *)
Definition parseStreamMessageUpdates (data : jstr) : option (list (StreamChunkType * json)) :=
  chunk ← JSON_parse data;
  if is_null chunk then None
  else Some (match chunk_delta chunk with
             | None => []
             | Some d => update_of reasoning_chunk (jget (js "reasoning_content") d)
                         ++ update_of content_chunk (jget (js "content") d)
             end).

Definition isStreamDoneMessage (data : jstr) : bool := data === STREAM_DONE_MESSAGE.
Definition isStreamClosedReadyState (readyState : option Z) : bool :=
  bool_decide (readyState = Some STREAM_CLOSED_READY_STATE).

Definition getStreamReadyStateError (eventReadyState status : option Z) : option jstr :=
  match eventReadyState, status with
  | Some r, Some s =>
      if (STREAM_CLOSED_READY_STATE <=? r) && negb (s =? 200)
      then Some (js "HTTP " ++ digits_Z s ++ js ": " ++ CONNECTION_CLOSED) else None
  | _, _ => None
  end.

(** The error is seen through the properties the function reads. *)
Definition parseRequestErrorDetails (error : option json) : StreamErrorDetails :=
  let data := jget_opt (js "data") (jget_opt (js "response") error) in
  mkDetails
    (truthy_or_undefined (jget_opt (js "code") (jget_opt (js "error") data)))
    (json_or (jget_opt (js "message") data)
       (json_or (jget_opt (js "message") error) (JStr API_REQUEST_ERROR))).

End StreamUtils.
Import StreamUtils.

(** ** use-stream-request.ts: [createStreamRequestController]

    [W] is the state the callbacks act on.  Event sources are numbered in the
    order of creation; a source keeps what it was created with, the payload, and
    the variables its listeners close over: the generation and callbacks of its
    request and [completed]. *)
Module StreamRequest.

Record StreamRequestCallbacks (W : Type) := mkCallbacks {
  onUpdate : StreamChunkType → json → W → W * bool;
  onComplete : W → W * bool;
  onError : json → option json → W → W * bool;
}.
Arguments mkCallbacks {W}.
Arguments onUpdate {W}.
Arguments onComplete {W}.
Arguments onError {W}.

Record StreamEventSource (W : Type) := mkSource {
  payload : Payload.ChatCompletionRequest;
  requestGeneration : Z;
  callbacks : StreamRequestCallbacks W;
  completed : bool;
  closed : bool;
}.
Arguments mkSource {W}.
Arguments payload {W}.
Arguments requestGeneration {W}.
Arguments callbacks {W}.
Arguments completed {W}.
Arguments closed {W}.

Record controller (W : Type) := mkController {
  source : option nat;
  generation : Z;
  sources : list (StreamEventSource W);
  awaiting_headers : gmap Z (Payload.ChatCompletionRequest * StreamRequestCallbacks W);
  world : W;
}.
Arguments mkController {W}.
Arguments source {W}.
Arguments generation {W}.
Arguments sources {W}.
Arguments awaiting_headers {W}.
Arguments world {W}.

Section controller.
Context {W : Type} (setStreaming : bool → W → W).
Implicit Types st : controller W.

Definition init (w : W) : controller W := mkController None 0 [] ∅ w.

Definition with_world (w : W) st : controller W :=
  mkController (source st) (generation st) (sources st) (awaiting_headers st) w.
Definition with_source (s : option nat) st : controller W :=
  mkController s (generation st) (sources st) (awaiting_headers st) (world st).
Definition set_streaming (b : bool) st : controller W :=
  with_world (setStreaming b (world st)) st.

(** [target.close()] and [completed = true]. *)
Definition close (id : nat) st : controller W :=
  mkController (source st) (generation st)
    (alter (λ s, mkSource (payload s) (requestGeneration s) (callbacks s) (completed s) true) id (sources st))
    (awaiting_headers st) (world st).
Definition complete (id : nat) st : controller W :=
  mkController (source st) (generation st)
    (alter (λ s, mkSource (payload s) (requestGeneration s) (callbacks s) true (closed s)) id (sources st))
    (awaiting_headers st) (world st).

Definition closeActiveSource (target : nat) st : controller W :=
  let st := close target st in
  if bool_decide (source st = Some target)
  then set_streaming false (with_source None st) else st.

(** [previousSource?.close()] after [source = null]. *)
Definition drop_source st : controller W :=
  match source st with
  | Some id => close id (with_source None st)
  | None => with_source None st
  end.

(** [send] up to the await of the headers. *)
Definition send (pl : Payload.ChatCompletionRequest) (cbs : StreamRequestCallbacks W) st : controller W :=
  let g := generation st + 1 in
  let st := mkController (source st) g (sources st) (awaiting_headers st) (world st) in
  let st := set_streaming false (drop_source st) in
  mkController (source st) (generation st) (sources st)
    (<[g := (pl, cbs)]> (awaiting_headers st)) (world st).

Definition take_request (g : Z) st
    : option (Payload.ChatCompletionRequest * StreamRequestCallbacks W * controller W) :=
  request ← awaiting_headers st !! g;
  Some (request, mkController (source st) (generation st) (sources st)
               (delete g (awaiting_headers st)) (world st)).

(** [getHeaders] rejected; [error] is the message of an [Error]. *)
Definition headers_failed (g : Z) (error : option jstr) st : controller W :=
  match take_request g st with
  | None => st
  | Some (_, cbs, st) =>
      if negb (generation st =? g) then st
      else with_world
             (onError cbs (JStr (default STREAM_START_ERROR error)) None (world st)).1 st
  end.

(** [getHeaders] resolved: the source is created and its listeners added. *)
Definition headers_ready (g : Z) st : controller W :=
  match take_request g st with
  | None => st
  | Some (pl, cbs, st) =>
      if negb (generation st =? g) then st
      else set_streaming true
             (mkController (Some (length (sources st))) (generation st)
                (sources st ++ [mkSource pl g cbs false false]) (awaiting_headers st) (world st))
  end.

Definition isCurrent (id : nat) (s : StreamEventSource W) st : bool :=
  (generation st =? requestGeneration s) && bool_decide (source st = Some id).

(** The source and its callbacks, when its listeners still act. *)
Definition live (id : nat) st : option (StreamRequestCallbacks W) :=
  s ← sources st !! id;
  if negb (isCurrent id s st) || completed s then None else Some (callbacks s).

(** A callback that throws skips the close that follows it. *)
Definition handleError (id : nat) (errorMessage : json) (errorCode : option json) st
    : controller W :=
  match live id st with
  | None => st
  | Some cbs =>
      let st := complete id st in
      let '(w, threw) := onError cbs errorMessage errorCode (world st) in
      let st := with_world w st in
      if threw then st else closeActiveSource id st
  end.

(** The calls of [onUpdate], until one throws. *)
Fixpoint run_updates (cbs : StreamRequestCallbacks W) (us : list (StreamChunkType * json)) (w : W)
    : W * bool :=
  match us with
  | [] => (w, false)
  | (type, chunk) :: rest =>
      let '(w, threw) := onUpdate cbs type chunk w in
      if threw then (w, true) else run_updates cbs rest w
  end.

Definition on_message (id : nat) (data : option jstr) st : controller W :=
  match live id st with
  | None => st
  | Some cbs =>
      let data := default [] data in
      if isStreamDoneMessage data then
        let st := closeActiveSource id (complete id st) in
        with_world (onComplete cbs (world st)).1 st
      else
        match parseStreamMessageUpdates data with
        | None => handleError id (JStr PARSE_ERROR) None st
        | Some us =>
            let '(w, threw) := run_updates cbs us (world st) in
            let st := with_world w st in
            if threw then handleError id (JStr PARSE_ERROR) None st else st
        end
  end.

Definition on_error (id : nat) (data : option jstr) (readyState : option Z) st : controller W :=
  match live id st with
  | None => st
  | Some _ =>
      if isStreamClosedReadyState readyState then st
      else let d := parseStreamErrorDetails data in
           handleError id (d_errorMessage d) (d_errorCode d) st
  end.

Definition on_readystatechange (id : nat) (eventReadyState status : option Z) st : controller W :=
  match live id st with
  | None => st
  | Some _ =>
      match getStreamReadyStateError eventReadyState status with
      | Some msg => if truthy msg then handleError id (JStr msg) None st else st
      | None => st
      end
  end.

(** [nextSource.stream()] threw. *)
Definition stream_threw (id : nat) st : controller W :=
  match live id st with
  | None => st
  | Some _ => handleError id (JStr STREAM_START_ERROR) None st
  end.

Definition cancel (notify : bool) st : controller W :=
  let st := mkController (source st) (generation st + 1) (sources st) (awaiting_headers st) (world st) in
  let st := drop_source st in
  if notify then set_streaming false st else st.

Definition stop st : controller W := cancel true st.
Definition dispose st : controller W := cancel false st.

(** What the environment does to a controller between two calls. *)
Inductive SourceEvent :=
| HeadersReady (g : Z)
| HeadersFailed (g : Z) (error : option jstr)
| Message (id : nat) (data : option jstr)
| Error (id : nat) (data : option jstr) (readyState : option Z)
| ReadyStateChange (id : nat) (eventReadyState status : option Z)
| StreamThrew (id : nat).

Definition dispatch (ev : SourceEvent) st : controller W :=
  match ev with
  | HeadersReady g => headers_ready g st
  | HeadersFailed g e => headers_failed g e st
  | Message id data => on_message id data st
  | Error id data rs => on_error id data rs st
  | ReadyStateChange id ers status => on_readystatechange id ers status st
  | StreamThrew id => stream_threw id st
  end.
End controller.

End StreamRequest.
Import StreamRequest.

(** ** use-chat-handler.ts

    [W] of the controller is the state of the hook: its refs, its React state
    and the messages with the updaters React has not run yet. *)
Module ChatHandler.

(** [mergePendingStreamChunk]; [None] when [nextChunk.startsWith] is called on
    a value that is not a string. *)
Definition mergePendingStreamChunk (currentChunk : jstr) (nextChunk : json) : option jstr :=
  if negb (truthy currentChunk) then Some (currentChunk ++ json_to_string nextChunk)
  else match nextChunk with
       | JStr next => Some (if negb (startsWith next currentChunk) then currentChunk ++ next else next)
       | _ => None
       end.

Record PendingStreamChunks := mkPending {
  p_generation : Z;
  p_content : jstr;
  p_reasoning : jstr;
}.

(** The updaters passed to [onMessageUpdate], with what they close over. *)
Inductive Update :=
| UpdFlush (g : Z) (reasoning content : jstr)
| UpdComplete (g : Z)
| UpdError (g : Z) (displayError : jstr) (errorCode : option json) (errorTitle : jstr)
| UpdResponse (g : Z) (choices : list ChatCompletionChoice)
| UpdStop (idleGeneration : Z)
| UpdReplace (ms : list Types.Message)
| UpdRemove (messageKey : jstr).

Record chat := mkChat {
  requestGenerationRef : Z;
  pendingStreamChunksRef : PendingStreamChunks;
  streamFlushTimerRef : option Z;      (* the generation its callback closes over *)
  abortControllerRef : option Z;       (* a controller, named by its request *)
  aborted : list Z;                    (* the controllers aborted so far *)
  posted : list (Z * Payload.ChatCompletionRequest);  (* the completions requested *)
  isRequesting : bool;
  isStreaming : bool;
  toasts : list jstr;
  messages : list Types.Message;
  clock : Z;                           (* [Date.now()] *)
  queue : list (Update * option (Z * Z));  (* since the last render; see [run_queued] *)
  eager : bool;                        (* React runs an updater that joins an empty queue *)
}.

Definition set_generation (g : Z) (w : chat) : chat :=
  mkChat g (pendingStreamChunksRef w) (streamFlushTimerRef w) (abortControllerRef w) (aborted w)
    (posted w) (isRequesting w) (isStreaming w) (toasts w) (messages w) (clock w) (queue w) (eager w).
Definition set_pending (p : PendingStreamChunks) (w : chat) : chat :=
  mkChat (requestGenerationRef w) p (streamFlushTimerRef w) (abortControllerRef w) (aborted w)
    (posted w) (isRequesting w) (isStreaming w) (toasts w) (messages w) (clock w) (queue w) (eager w).
Definition set_timer (t : option Z) (w : chat) : chat :=
  mkChat (requestGenerationRef w) (pendingStreamChunksRef w) t (abortControllerRef w) (aborted w)
    (posted w) (isRequesting w) (isStreaming w) (toasts w) (messages w) (clock w) (queue w) (eager w).
Definition set_abort (a : option Z) (w : chat) : chat :=
  mkChat (requestGenerationRef w) (pendingStreamChunksRef w) (streamFlushTimerRef w) a (aborted w)
    (posted w) (isRequesting w) (isStreaming w) (toasts w) (messages w) (clock w) (queue w) (eager w).
Definition abort (w : chat) : chat :=
  mkChat (requestGenerationRef w) (pendingStreamChunksRef w) (streamFlushTimerRef w)
    (abortControllerRef w) (option_list (abortControllerRef w) ++ aborted w)
    (posted w) (isRequesting w) (isStreaming w) (toasts w) (messages w) (clock w) (queue w) (eager w).
Definition setIsRequesting (b : bool) (w : chat) : chat :=
  mkChat (requestGenerationRef w) (pendingStreamChunksRef w) (streamFlushTimerRef w)
    (abortControllerRef w) (aborted w) (posted w) b (isStreaming w) (toasts w) (messages w) (clock w) (queue w) (eager w).
Definition setIsStreaming (b : bool) (w : chat) : chat :=
  mkChat (requestGenerationRef w) (pendingStreamChunksRef w) (streamFlushTimerRef w)
    (abortControllerRef w) (aborted w) (posted w) (isRequesting w) b (toasts w) (messages w) (clock w) (queue w) (eager w).
Definition toast_error (s : jstr) (w : chat) : chat :=
  mkChat (requestGenerationRef w) (pendingStreamChunksRef w) (streamFlushTimerRef w)
    (abortControllerRef w) (aborted w) (posted w) (isRequesting w) (isStreaming w) (s :: toasts w) (messages w) (clock w)
    (queue w) (eager w).
Definition post (g : Z) (pl : Payload.ChatCompletionRequest) (w : chat) : chat :=
  mkChat (requestGenerationRef w) (pendingStreamChunksRef w) (streamFlushTimerRef w)
    (abortControllerRef w) (aborted w) ((g, pl) :: posted w) (isRequesting w) (isStreaming w) (toasts w)
    (messages w) (clock w) (queue w) (eager w).
Definition set_messages (ms : list Types.Message) (q : list (Update * option (Z * Z))) (w : chat) : chat :=
  mkChat (requestGenerationRef w) (pendingStreamChunksRef w) (streamFlushTimerRef w)
    (abortControllerRef w) (aborted w) (posted w) (isRequesting w) (isStreaming w) (toasts w) ms
    (clock w) q (eager w).

Section chat.
Context (t : jstr → jstr) (config : Payload.PlaygroundConfig)
  (parameterEnabled : Payload.ParameterEnabled).
Implicit Types (w : chat) (now g : Z).

(** The two [applyStreamingChunk] calls of the flush updater. *)
Definition flush_message (reas cont : jstr) now (m : Types.Message) : Types.Message :=
  let m := if truthy reas then applyStreamingChunk m reasoning_chunk reas now else m in
  if truthy cont then applyStreamingChunk m content_chunk cont now else m.

(** An updater run while the current generation is [cur]. *)
Definition run_update (cur now : Z) (u : Update) (prev : list Types.Message) : list Types.Message :=
  match u with
  | UpdFlush g reas cont =>
      if negb (g =? cur) then prev
      else updateLastAssistantMessage prev (flush_message reas cont now)
  | UpdComplete g =>
      if negb (g =? cur) then prev
      else updateLastAssistantMessage prev (λ m,
             if isAssistantMessageFinal m then m else completeAssistantMessage m now)
  | UpdError g displayError errorCode errorTitle =>
      if negb (g =? cur) then prev
      else updateAssistantMessageWithError prev displayError errorCode errorTitle now
  | UpdResponse g choices =>
      if negb (cur =? g) then prev
      else updateLastAssistantMessage prev (λ m,
             default m (applyChatCompletionResponse m choices now))
  | UpdStop g =>
      if negb (cur =? g) then prev
      else updateLastAssistantMessage prev (λ m,
             if isAssistantMessagePending m then completeAssistantMessage m now else m)
  | UpdReplace ms => ms
  | UpdRemove k => removeMessageByKey prev k
  end.

(** A queued updater at a render: one that ran when it was queued keeps the
    generation and the time it saw then. *)
Definition run_queued (cur now : Z) (prev : list Types.Message) (e : Update * option (Z * Z))
    : list Types.Message :=
  let '(cur, now) := default (cur, now) e.2 in run_update cur now e.1 prev.

Definition onMessageUpdate (u : Update) w : chat :=
  let ran := if eager w && bool_decide (queue w = [])
             then Some (requestGenerationRef w, clock w) else None in
  set_messages (messages w) (queue w ++ [(u, ran)]) w.

(** React renders: the queue is run on the messages of the last render. *)
Definition render w : chat :=
  set_messages (foldl (run_queued (requestGenerationRef w) (clock w)) (messages w) (queue w)) [] w.

Definition discardPendingStreamUpdates g w : chat :=
  set_pending (mkPending g [] []) (set_timer None w).

Definition flushStreamUpdates g w : chat :=
  if negb (g =? requestGenerationRef w) then w
  else
    let w := set_timer None w in
    let pendingChunks := pendingStreamChunksRef w in
    if negb (p_generation pendingChunks =? g) then w
    else if negb (truthy (p_reasoning pendingChunks)) && negb (truthy (p_content pendingChunks))
    then w
    else onMessageUpdate (UpdFlush g (p_reasoning pendingChunks) (p_content pendingChunks))
           (set_pending (mkPending g [] []) w).

Definition scheduleStreamFlush g w : chat :=
  if negb (g =? requestGenerationRef w) then w
  else match streamFlushTimerRef w with
       | Some _ => w
       | None => set_timer (Some g) w
       end.

(** [None]: [error.endsWith] is called on a value that is not a string. *)
Definition getDisplayError (error : json) : option jstr :=
  match error with
  | JStr e =>
      let suffix := js ": " ++ CONNECTION_CLOSED in
      Some (if bool_decide (e ∈ ERROR_MESSAGES) then t e
            else if endsWith e suffix
            then take (length e - length CONNECTION_CLOSED) e ++ t CONNECTION_CLOSED
            else e)
  | _ => None
  end.

Definition pending_of (type : StreamChunkType) (p : PendingStreamChunks) : jstr :=
  match type with reasoning_chunk => p_reasoning p | content_chunk => p_content p end.
Definition set_pending_of (type : StreamChunkType) (s : jstr) (p : PendingStreamChunks)
    : PendingStreamChunks :=
  match type with
  | reasoning_chunk => mkPending (p_generation p) (p_content p) s
  | content_chunk => mkPending (p_generation p) s (p_reasoning p)
  end.

Definition handleStreamUpdate g (type : StreamChunkType) (chunk : json) w : chat * bool :=
  if negb (g =? requestGenerationRef w) then (w, false)
  else
    let p := pendingStreamChunksRef w in
    if negb (p_generation p =? g) then (w, false)
    else match mergePendingStreamChunk (pending_of type p) chunk with
         | None => (w, true)
         | Some merged =>
             (scheduleStreamFlush g (set_pending (set_pending_of type merged p) w), false)
         end.

Definition handleStreamComplete g w : chat :=
  if negb (g =? requestGenerationRef w) then w
  else onMessageUpdate (UpdComplete g) (setIsRequesting false (flushStreamUpdates g w)).

Definition handleStreamError g (error : json) (errorCode : option json) w : chat * bool :=
  if negb (g =? requestGenerationRef w) then (w, false)
  else
    let w := setIsRequesting false (flushStreamUpdates g w) in
    match getDisplayError error with
    | None => (w, true)
    | Some displayError =>
        (onMessageUpdate (UpdError g displayError errorCode (t API_REQUEST_ERROR))
           (toast_error displayError w), false)
    end.

(** The callbacks [sendStreamingChat] passes to the controller. *)
Definition stream_callbacks g : StreamRequestCallbacks chat :=
  mkCallbacks (handleStreamUpdate g) (λ w, (handleStreamComplete g w, false))
    (λ error errorCode w, handleStreamError g error errorCode w).

Definition on_chat (f : chat → chat) (st : controller chat) : controller chat :=
  with_world (f (world st)) st.

Definition sendStreamingChat (ms : list Types.Message) (st : controller chat) : controller chat :=
  let g := requestGenerationRef (world st) + 1 in
  let st := on_chat (λ w, setIsRequesting true (discardPendingStreamUpdates g
              (set_abort None (abort (set_generation g w))))) st in
  send setIsStreaming (Payload.buildChatCompletionPayload ms config parameterEnabled)
    (stream_callbacks g) st.

(** [sendNonStreamingChat] up to the await of the response. *)
Definition sendNonStreamingChat (ms : list Types.Message) (st : controller chat) : controller chat :=
  let pl := Payload.buildChatCompletionPayload ms config parameterEnabled in
  let g := requestGenerationRef (world st) + 1 in
  let st := stop setIsStreaming (on_chat (set_generation g) st) in
  on_chat (λ w, post g pl (setIsRequesting true
    (set_abort (Some g) (abort (discardPendingStreamUpdates g w))))) st.

Definition is_aborted g w : bool := bool_decide (g ∈ aborted w).

(** The [finally] block. *)
Definition request_finally g w : chat :=
  if requestGenerationRef w =? g then setIsRequesting false (set_abort None w) else w.

Definition response_arrived g (choices : list ChatCompletionChoice) w : chat :=
  request_finally g
    (if is_aborted g w || negb (requestGenerationRef w =? g) then w
     else if negb (hasChatCompletionChoice choices)
     then (handleStreamError g (JStr API_REQUEST_ERROR) None w).1
     else onMessageUpdate (UpdResponse g choices) w).

Definition response_failed g (error : option json) w : chat :=
  request_finally g
    (if is_aborted g w || negb (requestGenerationRef w =? g) then w
     else let d := parseRequestErrorDetails error in
          (handleStreamError g (d_errorMessage d) (d_errorCode d) w).1).

Definition sendChat (ms : list Types.Message) (st : controller chat) : controller chat :=
  if Payload.stream config then sendStreamingChat ms st else sendNonStreamingChat ms st.

Definition stopGeneration (st : controller chat) : controller chat :=
  let stoppedGeneration := requestGenerationRef (world st) in
  let idleGeneration := stoppedGeneration + 1 in
  let st := on_chat (λ w, discardPendingStreamUpdates idleGeneration
              (set_generation idleGeneration (flushStreamUpdates stoppedGeneration w))) st in
  on_chat (λ w, onMessageUpdate (UpdStop idleGeneration)
                  (setIsRequesting false (set_abort None (abort w))))
    (stop setIsStreaming st).

(** The cleanups of the two hooks when the page unmounts.  The flush timer is
    cleared but its ref keeps the value; in the model it may still fire, with
    no effect, because the generation has moved on. *)
Definition unmount (st : controller chat) : controller chat :=
  on_chat (λ w, set_abort None (abort (set_generation (requestGenerationRef w + 1) w)))
    (dispose setIsStreaming st).

(** The flush timer fires. *)
Definition timer_fired w : chat :=
  match streamFlushTimerRef w with
  | Some g => flushStreamUpdates g w
  | None => w
  end.

Definition isGenerating w : bool := isStreaming w || isRequesting w.
End chat.

Definition init_chat (ms : list Types.Message) (now : Z) (eager : bool) : chat :=
  mkChat 0 (mkPending 0 [] []) None None [] [] false false [] ms now [] eager.

Definition set_clock (now : Z) (w : chat) : chat :=
  mkChat (requestGenerationRef w) (pendingStreamChunksRef w) (streamFlushTimerRef w)
    (abortControllerRef w) (aborted w) (posted w) (isRequesting w) (isStreaming w) (toasts w) (messages w) now
    (queue w) (eager w).
Definition set_eager (b : bool) (w : chat) : chat :=
  mkChat (requestGenerationRef w) (pendingStreamChunksRef w) (streamFlushTimerRef w)
    (abortControllerRef w) (aborted w) (posted w) (isRequesting w) (isStreaming w) (toasts w)
    (messages w) (clock w) (queue w) b.

End ChatHandler.
Import ChatHandler.

(** ** use-playground-conversation.ts

    The handlers read the messages of the last render, replace them and start
    a request. *)
Module PlaygroundConversation.

Record conversation := mkConversation {
  editingMessageKey : option jstr;
  handler : controller chat;
}.

Section conversation.
Context (t : jstr → jstr) (nanoid : nat → jstr) (config : Payload.PlaygroundConfig)
  (parameterEnabled : Payload.ParameterEnabled).
Implicit Types c : conversation.

Definition rendered c : list Types.Message := messages (world (handler c)).
Definition now_of c : Z := clock (world (handler c)).
Definition updateMessages (u : Update) c : conversation :=
  mkConversation (editingMessageKey c) (on_chat (onMessageUpdate u) (handler c)).
Definition send_chat (ms : list Types.Message) c : conversation :=
  mkConversation (editingMessageKey c) (sendChat t config parameterEnabled ms (handler c)).
Definition setEditingMessageKey (k : option jstr) c : conversation := mkConversation k (handler c).

Definition handleSendMessage (text : jstr) c : conversation :=
  let nextMessages := appendUserMessagePair nanoid (rendered c) text (now_of c) in
  send_chat nextMessages (updateMessages (UpdReplace nextMessages) c).

Definition handleRegenerateMessage (m : Types.Message) c : conversation :=
  match createRegeneratedMessages nanoid (rendered c) (key m) (now_of c) with
  | None => c
  | Some nextMessages => send_chat nextMessages (updateMessages (UpdReplace nextMessages) c)
  end.

Definition handleEditMessage (m : Types.Message) c : conversation :=
  setEditingMessageKey (Some (key m)) c.
Definition handleEditOpenChange (open : bool) c : conversation :=
  if open then c else setEditingMessageKey None c.

Definition applyEdit (newContent : jstr) (shouldSubmit : bool) c : conversation :=
  match editingMessageKey c with
  | None => c
  | Some k =>
      if negb (truthy k) then c
      else match applyMessageEdit nanoid (rendered c) k newContent shouldSubmit (now_of c) with
           | None => c
           | Some (ms, shouldSend) =>
               let c := updateMessages (UpdReplace ms) (setEditingMessageKey None c) in
               if shouldSend then send_chat ms c else c
           end
  end.

Definition handleDeleteMessage (m : Types.Message) c : conversation :=
  updateMessages (UpdRemove (key m)) c.
End conversation.

(** Everything that can happen to a mounted playground, one step at a time. *)
Inductive Event :=
| SendMessage (text : jstr)
| Regenerate (m : Types.Message)
| EditMessage (m : Types.Message)
| EditOpenChange (open : bool)
| ApplyEdit (newContent : jstr) (shouldSubmit : bool)
| DeleteMessage (m : Types.Message)
| StopGeneration
| StreamEvent (ev : SourceEvent)
| ResponseArrived (g : Z) (choices : list ChatCompletionChoice)
| ResponseFailed (g : Z) (error : option json)
| TimerFired
| Render
| Tick (now : Z)
| Precompute (b : bool).               (* what React does at the next calls *)

Definition on_handler (f : controller chat → controller chat) (c : conversation) : conversation :=
  mkConversation (editingMessageKey c) (f (handler c)).

Definition step (t : jstr → jstr) (nanoid : nat → jstr)
    (config : Payload.PlaygroundConfig) (parameterEnabled : Payload.ParameterEnabled) (ev : Event)
    (c : conversation) : conversation :=
  match ev with
  | SendMessage text => handleSendMessage t nanoid config parameterEnabled text c
  | Regenerate m => handleRegenerateMessage t nanoid config parameterEnabled m c
  | EditMessage m => handleEditMessage m c
  | EditOpenChange open => handleEditOpenChange open c
  | ApplyEdit text submit => applyEdit t nanoid config parameterEnabled text submit c
  | DeleteMessage m => handleDeleteMessage m c
  | StopGeneration => on_handler stopGeneration c
  | StreamEvent e => on_handler (dispatch setIsStreaming e) c
  | ResponseArrived g choices => on_handler (on_chat (response_arrived t g choices)) c
  | ResponseFailed g error => on_handler (on_chat (response_failed t g error)) c
  | TimerFired => on_handler (on_chat timer_fired) c
  | Render => on_handler (on_chat render) c
  | Tick now => on_handler (on_chat (set_clock now)) c
  | Precompute b => on_handler (on_chat (set_eager b)) c
  end.

Definition run (t : jstr → jstr) (nanoid : nat → jstr)
    (config : Payload.PlaygroundConfig) (parameterEnabled : Payload.ParameterEnabled) (evs : list Event)
    (c : conversation) : conversation :=
  foldl (λ c ev, step t nanoid config parameterEnabled ev c) c evs.

Definition initial (ms : list Types.Message) (now : Z) (eager : bool) : conversation :=
  mkConversation None (init (init_chat ms now eager)).

End PlaygroundConversation.
