(* ===== verification/PlaygroundStreamFacts.v ===== *)
(** * Properties of playground requests

    The SSE controller: what a request may call back and when, which sources
    are open, when the page shows a running stream.  The chat handler: a whole
    streamed reply under every interleaving of the flush timer, what stopping
    does, and that nothing of an old request reaches the messages. *)

From S2P Require Import Prelude JsValue PlaygroundMessage PlaygroundMessageFacts PlaygroundStream.
Import Types Constants MessageUtils Timing ReasoningUtils Streaming UpdateUtils Conversation.
Import StreamUtils StreamRequest ChatHandler PlaygroundConversation.

(** ** Two runs of the chat handler on concrete events *)

Definition delta_data (c : string) : jstr :=
  jq "{'choices':[{'delta':{'content':'" ++ js c ++ jq "'}}]}".
Definition chunk_event (c : string) : Event := StreamEvent (Message 0 (Some (delta_data c))).
Definition done_event : Event := StreamEvent (Message 0 (Some (js "[DONE]"))).
Definition demo_run (eager : bool) (evs : list Event) : conversation :=
  run (λ s, s) (λ i, digits (N.of_nat i)) Payload.DEFAULT_CONFIG
    Payload.DEFAULT_PARAMETER_ENABLED
    ([SendMessage (js "q"); Render; StreamEvent (HeadersReady 1)] ++ evs) (initial [] 7 eager).
Definition last_text (c : conversation) : jstr :=
  from_option getMessageContent [] (rendered c !! (length (rendered c) - 1)%nat).

(** Stopping flushes the buffered chunks, but the updater checks the
    generation when React runs it: run at once it keeps the chunk, run after
    [stopGeneration] has moved the generation on it drops it. *)
Theorem stop_loses_buffered_chunk_when_deferred :
  last_text (demo_run true [chunk_event "Hi"; StopGeneration; Render]) = js "Hi" ∧
  last_text (demo_run false [chunk_event "Hi"; StopGeneration; Render]) = [].
Proof. vm_compute. done. Qed.

(** The text of a reply depends on when the flush timer fires: the deltas
    "x", "ha" and "ha" add up to "xhaha" if the timer fires between them and
    to "xha" if it does not. *)
Theorem flush_timing_changes_the_text :
  last_text (demo_run true [chunk_event "x"; TimerFired; chunk_event "ha"; TimerFired;
                            chunk_event "ha"; done_event; Render]) = js "xhaha" ∧
  last_text (demo_run true [chunk_event "x"; TimerFired; chunk_event "ha"; chunk_event "ha";
                            done_event; Render]) = js "xha".
Proof. vm_compute. done. Qed.

(** ** What a controller calls back

    The controller run with callbacks that log each call under the generation
    of its request, and that throw whenever [throws] says so. *)

Inductive call := CUpdate (type : StreamChunkType) (chunk : json) | CComplete | CError (e : json).
Definition terminal (c : call) : Prop := match c with CUpdate _ _ => False | _ => True end.

Record log := mkLog { calls : list (Z * call); streaming : bool }.
Definition push (e : Z * call) (w : log) : log := mkLog (calls w ++ [e]) (streaming w).
Definition log_streaming (b : bool) (w : log) : log := mkLog (calls w) b.

Section trace.
Context (throws : list (Z * call) → bool).

Definition log_cbs (g : Z) : StreamRequestCallbacks log :=
  mkCallbacks (λ type chunk w, (push (g, CUpdate type chunk) w, throws (calls w)))
    (λ w, (push (g, CComplete) w, throws (calls w)))
    (λ e _ w, (push (g, CError e) w, throws (calls w))).

Inductive ControllerEvent := CSend (pl : Payload.ChatCompletionRequest) | CStop | CDispose | CEvent (ev : SourceEvent).
Definition controller_step (ev : ControllerEvent) (st : controller log) : controller log :=
  match ev with
  | CSend pl => send log_streaming pl (log_cbs (generation st + 1)) st
  | CStop => stop log_streaming st
  | CDispose => dispose log_streaming st
  | CEvent e => dispatch log_streaming e st
  end.
Definition controller_run (evs : list ControllerEvent) : controller log :=
  foldl (λ st ev, controller_step ev st) (init (mkLog [] false)) evs.

(** Calls of newer requests come after those of older ones, and a request
    calls nothing after it completed or failed. *)
Definition calls_ok (l : list (Z * call)) : Prop :=
  ∀ i j g c g' c', (i < j)%nat → l !! i = Some (g, c) → l !! j = Some (g', c') →
    g ≤ g' ∧ (g = g' → ¬ terminal c).

(** [notified] is false once the controller was disposed of, which does not
    tell the page that streaming has ended. *)
Record inv (notified : bool) (st : controller log) : Prop := {
  inv_calls : calls_ok (calls (world st));
  inv_tags : ∀ g c, (g, c) ∈ calls (world st) → g ≤ generation st;
  inv_await : ∀ g pl cbs, awaiting_headers st !! g = Some (pl, cbs) →
    cbs = log_cbs g ∧ g ≤ generation st;
  inv_sources : ∀ id s, sources st !! id = Some s → callbacks s = log_cbs (requestGeneration s);
  inv_current : ∀ id, source st = Some id →
    ∃ s, sources st !! id = Some s ∧ requestGeneration s = generation st ∧ closed s = false;
  inv_closed : ∀ id s, sources st !! id = Some s → source st ≠ Some id → closed s = true;
  inv_waiting : is_Some (awaiting_headers st !! generation st) → source st = None;
  inv_done : ∀ c, (generation st, c) ∈ calls (world st) → terminal c →
    awaiting_headers st !! generation st = None ∧
    ∀ id s, source st = Some id → sources st !! id = Some s → completed s = true;
  inv_streaming : notified = true → streaming (world st) = bool_decide (is_Some (source st));
}.

Lemma calls_ok_app l g new :
  calls_ok l → calls_ok new →
  (∀ g' c', (g', c') ∈ l → g' ≤ g ∧ (g' = g → ¬ terminal c')) →
  (∀ g' c', (g', c') ∈ new → g' = g) →
  calls_ok (l ++ new).
Proof.
  intros Hl Hn Hle Heq i j g1 c1 g2 c2 Hij H1 H2.
  apply lookup_app_Some in H1 as [H1|[Hi H1]]; apply lookup_app_Some in H2 as [H2|[Hj H2]].
  - by eapply Hl.
  - apply list_elem_of_lookup_2 in H1, H2. apply Heq in H2 as ->. by apply Hle in H1.
  - apply lookup_lt_Some in H2. lia.
  - eapply (Hn (i - length l)%nat (j - length l)%nat); [lia|done|done].
Qed.

Lemma calls_ok_updates g l :
  (∀ g' c', (g', c') ∈ l → g' = g ∧ ¬ terminal c') → calls_ok l.
Proof.
  intros H i j g1 c1 g2 c2 _ H1%list_elem_of_lookup_2%H H2%list_elem_of_lookup_2%H.
  naive_solver lia.
Qed.

Lemma calls_ok_single e : calls_ok [e].
Proof. intros [|i] [|j] *; simpl; (lia || done). Qed.

Lemma run_updates_log g us w :
  ∃ new, (run_updates (log_cbs g) us w).1 = mkLog (calls w ++ new) (streaming w) ∧
    ∀ g' c', (g', c') ∈ new → g' = g ∧ ¬ terminal c'.
Proof.
  revert w. induction us as [|[type chunk] us IH]; intros w; simpl.
  - exists []. destruct w. simpl. rewrite app_nil_r. split; [done|]. set_solver.
  - destruct (throws (calls w)); simpl.
    + exists [(g, CUpdate type chunk)]. split; [done|]. intros g' c' [= -> ->]%list_elem_of_singleton.
      split; [done|intros []].
    + destruct (IH (push (g, CUpdate type chunk) w)) as (new & -> & H).
      exists ((g, CUpdate type chunk) :: new). simpl. rewrite <- app_assoc. split; [done|].
      intros g' c' [[= -> ->]|H']%elem_of_cons; [split; [done|intros []]|by apply H].
Qed.

(** A source that may act belongs to the current request, which has not
    ended. *)
Lemma live_inv n id st cbs :
  inv n st → live id st = Some cbs →
  source st = Some id ∧ cbs = log_cbs (generation st) ∧
  awaiting_headers st !! generation st = None ∧
  (∃ s, sources st !! id = Some s ∧ requestGeneration s = generation st ∧
        completed s = false ∧ closed s = false) ∧
  (∀ g c, (g, c) ∈ calls (world st) → g ≤ generation st ∧ (g = generation st → ¬ terminal c)).
Proof.
  intros I (s & Hs & H)%bind_Some. unfold isCurrent in H.
  destruct (Z.eqb_spec (generation st) (requestGeneration s)) as [Hg|]; [|done].
  destruct (bool_decide_reflect (source st = Some id)) as [Hsrc|]; [|done].
  destruct (completed s) eqn:Hcomp; [done|]. injection H as <-.
  destruct (inv_current _ _ I id Hsrc) as (s' & Hs' & _ & Hcl).
  rewrite Hs in Hs'. injection Hs' as <-.
  assert (awaiting_headers st !! generation st = None) as Haw.
  { destruct (awaiting_headers st !! generation st) eqn:E; [|done].
    rewrite (inv_waiting _ _ I) in Hsrc; [done|by rewrite E]. }
  split_and!; [done| |done|by exists s|].
  - rewrite Hg. by eapply inv_sources.
  - intros g c Hin. split; [by eapply inv_tags|]. intros -> Ht.
    destruct (inv_done _ _ I c Hin Ht) as [_ H]. by rewrite (H id s) in Hcomp.
Qed.

Lemma inv_updates n id st cbs us :
  inv n st → live id st = Some cbs →
  inv n (with_world (run_updates cbs us (world st)).1 st).
Proof.
  intros I L. destruct (live_inv _ _ _ _ I L) as (Hsrc & -> & Haw & _ & Hle).
  destruct (run_updates_log (generation st) us (world st)) as (new & -> & Hnew).
  destruct I. split; simpl; try done.
  - eapply calls_ok_app; [done|by eapply calls_ok_updates|done|]. naive_solver.
  - intros g c [?|[-> _]%Hnew]%elem_of_app; [eauto|lia].
  - intros c [?|[_ ?]%Hnew]%elem_of_app Ht; [eauto|done].
Qed.

(** A request that ends: its source completed, one terminal call logged, and
    the source closed unless the callback threw. *)
Definition ended (id : nat) (c : call) (st : controller log) : controller log :=
  with_world (push (generation st, c) (world st)) (complete id st).
Definition ended_closed (id : nat) (c : call) (st : controller log) : controller log :=
  closeActiveSource log_streaming id (ended id c st).

Lemma inv_ended n id st cbs c :
  inv n st → live id st = Some cbs → terminal c → inv n (ended id c st).
Proof.
  intros I L Ht. destruct (live_inv _ _ _ _ I L) as (Hsrc & -> & Haw & (s & Hs & Hg & Hcomp & Hcl) & Hle).
  destruct I. split; simpl; try done.
  - eapply calls_ok_app; [done|apply calls_ok_single|done|]. set_solver.
  - intros g c' [?|[= -> ->]%list_elem_of_singleton]%elem_of_app; [eauto|lia].
  - intros id' s' (s0 & Hs0 & [->|[_ ->]])%lookup_alter_cases; simpl; eauto.
  - intros id' Hid'. simplify_eq. rewrite list_lookup_alter_eq, Hs. by eexists.
  - intros id' s' Hs' Hne. rewrite list_lookup_alter_ne in Hs' by congruence. eauto.
  - intros c' _ _. split; [done|]. intros id' s' Hid'. simplify_eq.
    rewrite list_lookup_alter_eq, Hs. by intros [= <-].
Qed.

Lemma inv_ended_closed n id st cbs c :
  inv n st → live id st = Some cbs → terminal c → inv n (ended_closed id c st).
Proof.
  intros I L Ht. pose proof (inv_ended n id st cbs c I L Ht) as I'.
  destruct (live_inv _ _ _ _ I L) as (Hsrc & _).
  unfold ended_closed, closeActiveSource. cbn zeta. simpl source.
  rewrite bool_decide_eq_true_2 by done. destruct I'. split; simpl in *; try done.
  - intros id' s' (s0 & Hs0 & [->|[_ ->]])%lookup_alter_cases; simpl; eauto.
  - intros id' s' Hs' _. destruct (decide (id' = id)) as [->|Hne].
    + rewrite list_lookup_alter_eq in Hs'. by apply fmap_Some in Hs' as (? & _ & ->).
    + rewrite list_lookup_alter_ne in Hs' by congruence. eapply inv_closed0; [done|congruence].
  - intros c' Hin Hc'. destruct (inv_done0 c' Hin Hc'). done.
Qed.

Lemma inv_handleError n id e code st :
  inv n st → inv n (handleError log_streaming id e code st).
Proof.
  intros I. unfold handleError. destruct (live id st) as [cbs|] eqn:L; [|done].
  destruct (live_inv _ _ _ _ I L) as (_ & -> & _). simpl.
  destruct (throws _); [by eapply (inv_ended n id st _ (CError e))|
                        by eapply (inv_ended_closed n id st _ (CError e))].
Qed.

(** [send], [stop] and [dispose] as one operation: the generation moves on,
    the source is dropped and closed, and [send] registers a request. *)
Definition bump (notify : bool) 
    (cbs : option (Payload.ChatCompletionRequest * StreamRequestCallbacks log)) (st : controller log)
    : controller log :=
  mkController None (generation st + 1)
    (match source st with
     | Some id => alter (λ s, mkSource (payload s) (requestGeneration s) (callbacks s) (completed s) true) id
                    (sources st)
     | None => sources st
     end)
    (match cbs with
     | Some c => <[generation st + 1 := c]> (awaiting_headers st)
     | None => awaiting_headers st
     end)
    (if notify then log_streaming false (world st) else world st).

Lemma send_bump pl cbs st : send log_streaming pl cbs st = bump true (Some (pl, cbs)) st.
Proof. unfold send, drop_source, bump. simpl. by destruct (source st). Qed.
Lemma cancel_bump b st : cancel log_streaming b st = bump b None st.
Proof. unfold cancel, drop_source, bump. simpl. by destruct (source st), b. Qed.

Lemma inv_bump n notify cbs st :
  (∀ pl c, cbs = Some (pl, c) → c = log_cbs (generation st + 1)) →
  inv n st → inv (n && notify) (bump notify cbs st).
Proof.
  intros Hc I. assert (Hfresh : ∀ g c, (g, c) ∈ calls (world st) → g < generation st + 1).
  { intros g c H. apply (inv_tags _ _ I) in H. lia. }
  destruct I. unfold bump.
  assert (Hw : calls (if notify then log_streaming false (world st) else world st)
               = calls (world st)) by by destruct notify.
  split; simpl; rewrite ?Hw; try done.
  - intros g c H. apply Hfresh in H. lia.
  - intros g pl c H. destruct cbs as [[pl0 c0]|].
    + apply lookup_insert_Some in H as [[<- [= <- <-]]|[_ H]]; [split; [by eapply Hc|lia]|].
      apply inv_await0 in H. naive_solver lia.
    + apply inv_await0 in H. naive_solver lia.
  - intros id s H. destruct (source st); [|eauto].
    apply lookup_alter_cases in H as (s0 & Hs0 & [->|[_ ->]]); simpl; eauto.
  - intros id s H _. destruct (source st) as [cur|] eqn:Hs.
    + destruct (decide (cur = id)) as [->|Hne].
      * rewrite list_lookup_alter_eq in H. by apply fmap_Some in H as (? & _ & ->).
      * rewrite list_lookup_alter_ne in H by done. eapply inv_closed0; [done|congruence].
    + eapply inv_closed0; [done|congruence].
  - intros c H _. apply Hfresh in H. lia.
  - intros [Hn Hb]%andb_true_iff. by rewrite Hb.
Qed.

Lemma take_request_Some g (st : controller log) request st' :
  take_request g st = Some (request, st') →
  awaiting_headers st !! g = Some request ∧
  st' = mkController (source st) (generation st) (sources st)
          (delete g (awaiting_headers st)) (world st).
Proof. unfold take_request. intros (c & Hc & [= <- <-])%bind_Some. done. Qed.

(** Forgetting an awaited request keeps the invariant. *)
Lemma inv_forget n g st :
  inv n st → inv n (mkController (source st) (generation st) (sources st)
                      (delete g (awaiting_headers st)) (world st)).
Proof.
  intros []. split; simpl; try done.
  - intros g' pl c [_ H]%lookup_delete_Some. eauto.
  - intros [c [_ H]%lookup_delete_Some]. eauto.
  - intros c H Ht. destruct (inv_done0 c H Ht) as [H1 H2]. split; [|done].
    destruct (decide (g = generation st)) as [->|]; [apply lookup_delete_eq|].
    by rewrite lookup_delete_ne.
Qed.

Lemma not_ended n g pl cbs st :
  inv n st → awaiting_headers st !! g = Some (pl, cbs) → g = generation st →
  cbs = log_cbs (generation st) ∧ source st = None ∧
  ∀ g c, (g, c) ∈ calls (world st) → g ≤ generation st ∧ (g = generation st → ¬ terminal c).
Proof.
  intros I H ->. split_and!; [by eapply inv_await|eapply inv_waiting; [done|by eexists]|].
  intros g c Hin. split; [by eapply inv_tags|]. intros -> Ht.
  destruct (inv_done _ _ I c Hin Ht). congruence.
Qed.

Lemma inv_headers_ready n g pl cbs st st' :
  inv n st → take_request g st = Some (pl, cbs, st') →
  inv n (if negb (generation st' =? g) then st'
         else set_streaming log_streaming true
                (mkController (Some (length (sources st'))) (generation st')
                   (sources st' ++ [mkSource pl g cbs false false]) (awaiting_headers st') (world st'))).
Proof.
  intros I [Haw ->]%take_request_Some. pose proof (inv_forget n g st I) as I'.
  simpl. destruct (Z.eqb_spec (generation st) g) as [Hg|]; simpl; [|done].
  destruct (not_ended n g pl cbs st I Haw) as (-> & Hsrc & Hle); [done|].
  subst g. destruct I'. split; simpl in *; try done.
  - intros id s [H|[_ [_ <-]%list_lookup_singleton_Some]]%lookup_app_Some; [eauto|done].
  - intros id [= <-]. rewrite lookup_app_r, Nat.sub_diag by done. by eexists.
  - intros id s [H|[Hi [Hid _]%list_lookup_singleton_Some]]%lookup_app_Some Hne.
    + eapply inv_closed0; [done|congruence].
    + destruct Hne. f_equal. lia.
  - rewrite lookup_delete_eq. by intros [].
  - intros c H Ht. by destruct (Hle _ _ H) as [_ []].
Qed.

Lemma inv_headers_failed n g pl cbs e st st' :
  inv n st → take_request g st = Some (pl, cbs, st') →
  inv n (if negb (generation st' =? g) then st'
         else with_world
                (onError cbs (JStr (default STREAM_START_ERROR e)) None (world st')).1 st').
Proof.
  intros I [Haw ->]%take_request_Some. pose proof (inv_forget n g st I) as I'.
  simpl. destruct (Z.eqb_spec (generation st) g) as [Hg|]; simpl; [|done].
  destruct (not_ended n g pl cbs st I Haw) as (-> & Hsrc & Hle); [done|].
  subst g. destruct I'. split; simpl in *; try done.
  - eapply calls_ok_app; [done|apply calls_ok_single|done|]. set_solver.
  - intros g c' [?|[= -> ->]%list_elem_of_singleton]%elem_of_app; [eauto|lia].
  - intros c _ _. split; [apply lookup_delete_eq|]. congruence.
Qed.

Lemma inv_dispatch n ev st : inv n st → inv n (dispatch log_streaming ev st).
Proof.
  intros I. destruct ev as [g|g e|id data|id data rs|id ers status|id]; simpl.
  - unfold headers_ready. destruct (take_request g st) as [[[pl cbs] st']|] eqn:E; [|done].
    by apply (inv_headers_ready n g pl cbs st st').
  - unfold headers_failed. destruct (take_request g st) as [[[pl cbs] st']|] eqn:E; [|done].
    by apply (inv_headers_failed n g pl cbs e st st').
  - unfold on_message. destruct (live id st) as [cbs|] eqn:L; [|done]. cbn zeta.
    destruct (isStreamDoneMessage _).
    { destruct (live_inv _ _ _ _ I L) as (Hsrc & -> & _).
      unfold closeActiveSource. cbn zeta. simpl source. rewrite bool_decide_eq_true_2 by done.
      pose proof (inv_ended_closed n id st _ CComplete I L Logic.I) as I'.
      unfold ended_closed, closeActiveSource in I'. cbn zeta in I'. simpl source in I'.
      by rewrite bool_decide_eq_true_2 in I' by done. }
    destruct (parseStreamMessageUpdates _) as [us|]; [|by apply inv_handleError].
    pose proof (inv_updates n id st cbs us I L) as I'.
    destruct (run_updates cbs us (world st)) as [w [|]]; [by apply inv_handleError|done].
  - unfold on_error. destruct (live id st), (isStreamClosedReadyState rs); try done.
    by apply inv_handleError.
  - unfold on_readystatechange. destruct (live id st), (getStreamReadyStateError ers status); try done.
    destruct (truthy _); [by apply inv_handleError|done].
  - unfold stream_threw. destruct (live id st); [by apply inv_handleError|done].
Qed.

Lemma inv_step n ev st :
  inv n st → inv (n && match ev with CDispose => false | _ => true end) (controller_step ev st).
Proof.
  intros I. destruct ev as [pl| | |ev]; simpl; rewrite ?andb_true_r, ?andb_false_r.
  - rewrite send_bump, <- (andb_true_r n). apply inv_bump; naive_solver.
  - unfold stop. rewrite cancel_bump, <- (andb_true_r n). by apply inv_bump.
  - unfold dispose. rewrite cancel_bump. pose proof (inv_bump n false None st) as H.
    rewrite andb_false_r in H. by apply H.
  - by apply inv_dispatch.
Qed.

Definition no_dispose (evs : list ControllerEvent) : bool :=
  forallb (λ ev, match ev with CDispose => false | _ => true end) evs.

Lemma inv_run evs : inv (no_dispose evs) (controller_run evs).
Proof.
  unfold controller_run. induction evs as [|ev evs IH] using rev_ind.
  - split; simpl; done || set_solver.
  - rewrite foldl_app. simpl. unfold no_dispose. rewrite forallb_app. simpl.
    rewrite andb_true_r. by apply inv_step.
Qed.
End trace.

(** [C10] Whatever the order of sends, stops, header replies and SSE events, and
    whichever callbacks throw: the calls of a request never come after those
    of a newer one, and after a request completed or failed it calls nothing
    more, so it ends at most once. *)
Theorem request_calls_ordered throws evs i j g c g' c' :
  (i < j)%nat →
  calls (world (controller_run throws evs)) !! i = Some (g, c) →
  calls (world (controller_run throws evs)) !! j = Some (g', c') →
  g ≤ g' ∧ (g = g' → ∃ type chunk, c = CUpdate type chunk).
Proof.
  intros Hij H1 H2.
  destruct (inv_calls _ _ _ (inv_run throws evs) i j g c g' c' Hij H1 H2) as [Hle Ht].
  split; [done|]. intros Hg. destruct c; [by eexists _, _|by destruct (Ht Hg)..].
Qed.

Definition demo_payload : Payload.ChatCompletionRequest :=
  Payload.buildChatCompletionPayload [] Payload.DEFAULT_CONFIG Payload.DEFAULT_PARAMETER_ENABLED.
Definition demo_controller_events : list ControllerEvent :=
  [CSend demo_payload; CEvent (HeadersReady 1); CEvent (Message 0 (Some (delta_data "a")));
   CEvent (Message 0 (Some (js "[DONE]"))); CEvent (Message 0 (Some (delta_data "b")))].

Lemma request_calls_ordered_witness :
  1 ≤ 1 ∧ (1 = 1 → ∃ type chunk, CUpdate content_chunk (JStr (js "a")) = CUpdate type chunk).
Proof.
  apply (request_calls_ordered (λ _, false) demo_controller_events 0 1 1
           (CUpdate content_chunk (JStr (js "a"))) 1 CComplete); [lia|vm_compute; reflexivity..].
Defined.

(** Every event source except the current one has been closed, the current
    one is open and belongs to the newest generation, and, unless the
    controller was disposed of, the page shows a running stream exactly while
    there is a current source. *)
Theorem only_current_source_open throws evs :
  let st := controller_run throws evs in
  (∀ id s, sources st !! id = Some s →
     closed s = negb (bool_decide (source st = Some id)) ∧
     (source st = Some id → requestGeneration s = generation st)) ∧
  (no_dispose evs = true → streaming (world st) = bool_decide (is_Some (source st))).
Proof.
  intros st. pose proof (inv_run throws evs) as I. split; [|apply (inv_streaming _ _ _ I)].
  intros id s Hs. case_bool_decide as Hc.
  - destruct (inv_current _ _ _ I id Hc) as (s' & Hs' & Hg & Hcl). fold st in Hs'.
    rewrite Hs in Hs'. by injection Hs' as <-.
  - split; [by eapply inv_closed|done].
Qed.

(** ** A whole streamed reply *)

Lemma updateLast_app base u m f :
  from m = assistant →
  updateLastAssistantMessage (base ++ [u; m]) f = base ++ [u; f m].
Proof.
  intros Hm. unfold updateLastAssistantMessage.
  assert (length (base ++ [u; m]) - 1 = length base + 1)%nat as -> by (rewrite length_app; simpl; lia).
  rewrite lookup_app_r by lia. replace (length base + 1 - length base)%nat with 1%nat by lia. simpl.
  rewrite bool_decide_eq_true_2 by done.
  by rewrite insert_app_r.
Qed.

Lemma applyStreamingChunk_from m type c now : from (applyStreamingChunk m type c now) = from m.
Proof.
  unfold applyStreamingChunk, processStreamingContent. cbn zeta.
  repeat (case_match || case_bool_decide); try done; simpl; by rewrite completeReasoningTiming_from.
Qed.

(** No run of deltas starts by repeating the run before it. *)
Definition unambiguous (chunks : list jstr) : Prop :=
  ∀ a ps qs b, chunks = a ++ ps ++ qs ++ b → concat ps ≠ [] →
    startsWith (concat qs) (concat ps) = false.

(** What happens by itself: timer firings, renders, clock ticks and React's
    choice of running the next updaters at the call. *)
Definition passive (ev : Event) : Prop :=
  match ev with TimerFired | Render | Tick _ | Precompute _ => True | _ => False end.

(** Events of the source [id] that deliver the content deltas [chunks], with
    passive events in between. *)
Inductive delivers (id : nat) : list jstr → list Event → Prop :=
| delivers_nil : delivers id [] []
| delivers_chunk c data cs evs :
    parseStreamMessageUpdates data = Some [(content_chunk, JStr c)] →
    isStreamDoneMessage data = false →
    delivers id cs evs → delivers id (c :: cs) (StreamEvent (Message id (Some data)) :: evs)
| delivers_passive ev cs evs : passive ev → delivers id cs evs → delivers id cs (ev :: evs).

(** The messages a render at time [now] would show. *)
Definition upcoming (now : Z) (w : chat) : list Types.Message :=
  foldl (run_queued (requestGenerationRef w) now) (messages w) (queue w).

Lemma upcoming_update now u w :
  ∃ now', upcoming now (onMessageUpdate u w)
          = run_update (requestGenerationRef w) now' u (upcoming now w).
Proof.
  unfold upcoming, onMessageUpdate. simpl. rewrite foldl_app. simpl. unfold run_queued at 1. simpl.
  destruct (eager w && bool_decide (queue w = [])); simpl; by eexists.
Qed.

Lemma upcoming_render now w : upcoming now (render w) = upcoming (clock w) w.
Proof. done. Qed.

Section reply.
Context (t : jstr → jstr) (id : nat) (base : list Types.Message) (u : Types.Message).

(** The reply under way: [ps] are the deltas the next render shows, whenever
    it comes, and [qs] those waiting for the timer. *)
Record reply_state (ps qs : list jstr) (w : chat) : Prop := {
  rs_pending : pendingStreamChunksRef w = mkPending (requestGenerationRef w) (concat qs) [];
  rs_message : ∀ now, ∃ m, upcoming now w = base ++ [u; m] ∧ from m = assistant ∧
                 isAssistantMessageFinal m = false ∧ getMessageContent m = concat ps;
}.

(** The source of the request is the current one and will call back. *)
Record stream_open (st : controller chat) : Prop := {
  so_source : source st = Some id;
  so_entry : ∃ pl, sources st !! id = Some (mkSource pl (generation st)
               (stream_callbacks t (requestGenerationRef (world st))) false false);
}.

Lemma stream_open_live st :
  stream_open st → live id st = Some (stream_callbacks t (requestGenerationRef (world st))).
Proof.
  intros [Hs [pl He]]. unfold live. rewrite He. simpl. unfold isCurrent.
  rewrite Hs, bool_decide_eq_true_2, Z.eqb_refl; done.
Qed.

Lemma stream_open_chat f st :
  requestGenerationRef (f (world st)) = requestGenerationRef (world st) →
  stream_open st → stream_open (on_chat f st).
Proof. intros Hf [Hs [pl He]]. split; [done|]. exists pl. simpl. by rewrite Hf. Qed.

(** A flush moves the waiting deltas into the messages to come. *)
Lemma reply_flush ps qs w :
  unambiguous (ps ++ qs) → reply_state ps qs w →
  reply_state (ps ++ qs) [] (flushStreamUpdates (requestGenerationRef w) w).
Proof.
  intros U [Hp Hm]. unfold flushStreamUpdates. rewrite Z.eqb_refl. simpl. rewrite Hp. simpl.
  rewrite Z.eqb_refl. simpl. destruct (truthy (concat qs)) eqn:E; simpl.
  - split; [done|]. intros now.
    destruct (Hm now) as (m & Hup & Hf & Hfin & Hc).
    match goal with |- context [onMessageUpdate ?x ?y] =>
      destruct (upcoming_update now x y) as [now' ->]; change (upcoming now y) with (upcoming now w) end.
    rewrite Hup. simpl. rewrite Z.eqb_refl. simpl. rewrite updateLast_app by done.
    assert (status m ≠ Some ERROR) as Hst.
    { intros Hst. unfold isAssistantMessageFinal in Hfin. rewrite Hst in Hfin. done. }
    destruct (applyStreamingChunk_content m (concat qs) now' Hst) as [Hc' Hst'].
    unfold flush_message. simpl. rewrite E.
    eexists. split; [done|]. rewrite applyStreamingChunk_from. split; [done|].
    unfold isAssistantMessageFinal. rewrite Hst'. split; [done|].
    rewrite Hc', Hc, concat_app. unfold extend.
    destruct (truthy (concat ps)) eqn:Ep; [|by apply truthy_false in Ep as ->].
    apply truthy_true in Ep. by rewrite (U [] ps qs []) by (by rewrite ?app_nil_r).
  - apply truthy_false in E. split; simpl; [by rewrite Hp, E|].
    intros now. destruct (Hm now) as (m & ?). exists m. by rewrite concat_app, E, app_nil_r.
Qed.

Lemma flush_frame g w :
  requestGenerationRef (flushStreamUpdates g w) = requestGenerationRef w ∧
  isStreaming (flushStreamUpdates g w) = isStreaming w.
Proof. unfold flushStreamUpdates, onMessageUpdate. by repeat case_match. Qed.

Lemma reply_timer ps qs w :
  unambiguous (ps ++ qs) → reply_state ps qs w →
  ∃ ps' qs', ps ++ qs = ps' ++ qs' ∧ reply_state ps' qs' (timer_fired w).
Proof.
  intros U S. unfold timer_fired. destruct (streamFlushTimerRef w) as [g|] eqn:E; [|by exists ps, qs].
  destruct (decide (g = requestGenerationRef w)) as [->|Hne].
  - exists (ps ++ qs), []. split; [by rewrite app_nil_r|]. by apply reply_flush.
  - exists ps, qs. split; [done|]. unfold flushStreamUpdates.
    apply Z.eqb_neq in Hne. by rewrite Hne.
Qed.

(** A passive event as a function on the state of the hook. *)
Definition passive_chat (ev : Event) : chat → chat :=
  match ev with
  | TimerFired => timer_fired
  | Render => render
  | Tick now => set_clock now
  | Precompute b => set_eager b
  | _ => λ w, w
  end.

Lemma passive_step nanoid config en ev c :
  passive ev → handler (step t nanoid config en ev c) = on_chat (passive_chat ev) (handler c).
Proof. by destruct ev. Qed.

Lemma passive_generation ev w :
  requestGenerationRef (passive_chat ev w) = requestGenerationRef w.
Proof.
  destruct ev; try done. simpl. unfold timer_fired. case_match; [|done]. apply flush_frame.
Qed.

Lemma reply_passive ev ps qs w :
  passive ev → unambiguous (ps ++ qs) → reply_state ps qs w →
  ∃ ps' qs', ps ++ qs = ps' ++ qs' ∧ reply_state ps' qs' (passive_chat ev w).
Proof.
  intros Hev U S. destruct ev; try done; simpl; [by apply reply_timer|exists ps, qs; split; [done|]..];
    destruct S as [Hp Hm]; split; try done. intros now. rewrite upcoming_render. apply Hm.
Qed.

Lemma reply_chunk ps qs c data st :
  unambiguous (ps ++ qs ++ [c]) →
  parseStreamMessageUpdates data = Some [(content_chunk, JStr c)] →
  isStreamDoneMessage data = false →
  stream_open st → reply_state ps qs (world st) →
  let st' := on_message setIsStreaming id (Some data) st in
  stream_open st' ∧ reply_state ps (qs ++ [c]) (world st').
Proof.
  intros U Hp Hd O [Hpe Hm]. unfold on_message. rewrite (stream_open_live _ O). cbn zeta. simpl default.
  rewrite Hd, Hp. simpl run_updates. unfold handleStreamUpdate. rewrite Z.eqb_refl. simpl negb. cbn iota.
  rewrite Hpe. simpl. rewrite Z.eqb_refl. simpl.
  assert (mergePendingStreamChunk (concat qs) (JStr c) = Some (concat (qs ++ [c]))) as ->.
  { rewrite concat_app. simpl. rewrite app_nil_r. unfold mergePendingStreamChunk.
    destruct (truthy (concat qs)) eqn:E; simpl; [|done].
    apply truthy_true in E. pose proof (U ps qs [c] []) as U'. simpl in U'.
    by rewrite app_nil_r in U'; rewrite U'. }
  unfold scheduleStreamFlush. simpl. rewrite Z.eqb_refl. simpl. destruct O as [Hs He].
  destruct (streamFlushTimerRef (world st)); by split.
Qed.

Lemma unambiguous_prefix l r : unambiguous (l ++ r) → unambiguous l.
Proof. intros U a p q b ->. apply (U a p q (b ++ r)). by rewrite <- !app_assoc. Qed.

Lemma reply_delivers nanoid config en chunks evs c ps qs :
  delivers id chunks evs → unambiguous (ps ++ qs ++ chunks) →
  stream_open (handler c) → reply_state ps qs (world (handler c)) →
  let st := handler (run t nanoid config en evs c) in
  ∃ ps' qs', ps' ++ qs' = ps ++ qs ++ chunks ∧ stream_open st ∧ reply_state ps' qs' (world st).
Proof.
  intros D. revert c ps qs. induction D as [|ch data cs evs Hp Hd _ IH|ev cs evs Hev _ IH];
    intros c ps qs U O S.
  - exists ps, qs. by rewrite app_nil_r.
  - destruct (reply_chunk ps qs ch data (handler c)) as [O' S'];
      [apply (unambiguous_prefix _ cs); by rewrite <- !app_assoc|done..|].
    destruct (IH (step t nanoid config en (StreamEvent (Message id (Some data))) c) ps (qs ++ [ch]))
      as (ps' & qs' & Heq & H'); [by rewrite <- app_assoc|done..|].
    exists ps', qs'. by rewrite Heq, <- app_assoc.
  - rewrite app_assoc in U. pose proof (unambiguous_prefix _ _ U) as U1.
    destruct (reply_passive ev ps qs (world (handler c)) Hev U1 S) as (ps1 & qs1 & H1 & S1).
    destruct (IH (step t nanoid config en ev c) ps1 qs1) as (ps' & qs' & Heq & H').
    + by rewrite app_assoc, <- H1.
    + rewrite passive_step by done. apply stream_open_chat; [apply passive_generation|done].
    + by rewrite passive_step by done.
    + exists ps', qs'. split; [|done]. by rewrite Heq, !app_assoc, H1.
Qed.

(** The end of the stream: the page stops generating at once, and the render
    that follows shows the finished reply. *)
Lemma reply_done ps qs st :
  unambiguous (ps ++ qs) → stream_open st → reply_state ps qs (world st) →
  let w := world (on_message setIsStreaming id (Some STREAM_DONE_MESSAGE) st) in
  isGenerating w = false ∧
  ∀ now, ∃ m now', upcoming now w = base ++ [u; m] ∧ finished m now' ∧
       getMessageContent m = final_text (concat (ps ++ qs)).
Proof.
  intros U O S. cbn zeta. unfold on_message. rewrite (stream_open_live _ O). cbn zeta.
  replace (isStreamDoneMessage (default [] (Some STREAM_DONE_MESSAGE))) with true by reflexivity.
  unfold closeActiveSource. simpl source. rewrite (so_source _ O), bool_decide_eq_true_2 by done.
  simpl. unfold handleStreamComplete. simpl. rewrite Z.eqb_refl. simpl.
  set (w := setIsStreaming false (world st)).
  assert (S' : reply_state ps qs w) by (by destruct S).
  apply reply_flush in S' as [_ Hm]; [|done].
  change (requestGenerationRef w) with (requestGenerationRef (world st)) in Hm.
  destruct (flush_frame (requestGenerationRef (world st)) w) as (Hg & Hst).
  set (w' := flushStreamUpdates _ w) in *.
  split; [unfold isGenerating; simpl; by rewrite Hst|]. intros now.
  destruct (Hm now) as (m & Hup & Hf & Hfin & Hc).
  destruct (upcoming_update now (UpdComplete (requestGenerationRef (world st))) (setIsRequesting false w'))
    as [now' ->].
  change (upcoming now (setIsRequesting false w')) with (upcoming now w'). rewrite Hup.
  simpl. rewrite Hg, Z.eqb_refl. simpl. rewrite updateLast_app, Hfin by done.
  exists (completeAssistantMessage m now'), now'. split; [done|].
  split; [by apply completeAssistantMessage_finished|].
  by rewrite completeAssistantMessage_content, Hc.
Qed.

(** A request sent, its headers awaited; [id] is the number of the source it
    will open. *)
Record stream_awaited (g : Z) (st : controller chat) : Prop := {
  sa_generation : generation st = g;
  sa_sources : length (sources st) = id;
  sa_request : ∃ pl, awaiting_headers st !! g
                 = Some (pl, stream_callbacks t (requestGenerationRef (world st)));
}.

Lemma awaited_passive nanoid config en g evs c :
  Forall passive evs → stream_awaited g (handler c) → reply_state [] [] (world (handler c)) →
  let st := handler (run t nanoid config en evs c) in
  stream_awaited g st ∧ reply_state [] [] (world st).
Proof.
  intros H. revert c. induction H as [|ev evs Hev _ IH]; intros c A S; [done|].
  destruct (reply_passive ev [] [] (world (handler c)) Hev) as (ps & qs & Hps & S'); [|done|].
  { intros a p q b Hab Hp. symmetry in Hab. apply app_eq_nil in Hab as [_ [-> _]%app_eq_nil]. done. }
  symmetry in Hps. apply app_eq_nil in Hps as [-> ->].
  apply (IH (step t nanoid config en ev c)); rewrite passive_step by done; [|done].
  destruct A as [Hg Hl [pl Hr]]. split; [done..|]. exists pl. simpl. by rewrite passive_generation.
Qed.

Lemma awaited_opens g st :
  stream_awaited g st → reply_state [] [] (world st) →
  let st' := headers_ready setIsStreaming g st in
  stream_open st' ∧ reply_state [] [] (world st').
Proof.
  intros [Hg Hl [pl Hr]] [Hp Hm]. cbn zeta. unfold headers_ready, take_request.
  rewrite Hr. simpl. rewrite Hg, Z.eqb_refl. simpl. split; [|done]. split; simpl; [by rewrite Hl|].
  exists pl. by rewrite <- Hl, lookup_app_r, Nat.sub_diag by done.
Qed.
End reply.

Lemma reply_start t nanoid config en c0 text :
  Payload.stream config = true →
  let st := handler (step t nanoid config en (SendMessage text) c0) in
  stream_awaited t (length (sources (handler c0))) (generation (handler c0) + 1) st ∧
  reply_state (rendered c0) (createUserMessage (nanoid 0%nat) (nanoid 1%nat) text (now_of c0)) [] []
    (world st).
Proof.
  intros Hstream. cbn [step]. unfold handleSendMessage, send_chat, updateMessages, sendChat, sendStreamingChat.
  rewrite Hstream. cbn [handler editingMessageKey]. unfold send, drop_source. simpl.
  destruct (source (handler c0)) as [k|]; simpl; (split;
    [split; simpl; [done|by rewrite ?length_alter|eexists; apply lookup_insert_eq]
    |split; [done|]; intros now; unfold upcoming; simpl; rewrite foldl_app; simpl;
     unfold run_queued at 1; simpl; destruct (eager _ && _); simpl; eexists; by split_and!]).
Qed.

(** [C9] A streamed reply arrives whole.  After a text is sent from any state,
    for every interleaving of the header reply and the SSE deltas with firings
    of the flush timer, renders and clock ticks, and whether React runs an
    updater at the call or at the render: once the end of the stream is
    followed by a render, the messages are those shown when the text was sent,
    the question and one finished answer, whose text is what the concatenated
    deltas show, and the page is no longer generating.  Condition on the
    deltas: no run of them starts by repeating the run before it, since such a
    repetition is taken for a cumulative chunk. *)
Theorem streamed_reply t nanoid config en c0 text chunks waiting evs :
  let h := handler c0 in
  let id := length (sources h) in
  Payload.stream config = true →
  Forall passive waiting → delivers id chunks evs → unambiguous chunks →
  let c := run t nanoid config en
    ([SendMessage text] ++ waiting ++ [StreamEvent (HeadersReady (generation h + 1))] ++ evs
     ++ [StreamEvent (Message id (Some STREAM_DONE_MESSAGE)); Render]) c0 in
  isGenerating (world (handler c)) = false ∧
  ∃ m now, rendered c = rendered c0 ++
      [createUserMessage (nanoid 0%nat) (nanoid 1%nat) text (clock (world h)); m] ∧
    finished m now ∧ getMessageContent m = final_text (concat chunks).
Proof.
  intros h id Hstream Hw D U c.
  destruct (reply_start t nanoid config en c0 text Hstream) as [A1 S1].
  set (c1 := step t nanoid config en (SendMessage text) c0) in *.
  destruct (awaited_passive t _ _ _ nanoid config en _ waiting c1 Hw A1 S1) as [A2 S2].
  set (c2 := run t nanoid config en waiting c1) in *.
  destruct (awaited_opens _ _ _ _ _ _ A2 S2) as [O3 S3].
  set (c3 := step t nanoid config en (StreamEvent (HeadersReady (generation h + 1))) c2) in *.
  destruct (reply_delivers t id _ _ nanoid config en chunks evs c3 [] [] D U O3 S3)
    as (ps & qs & Heq & O4 & S4). simpl in Heq.
  set (c4 := run t nanoid config en evs c3) in *.
  assert (c = step t nanoid config en Render
    (step t nanoid config en (StreamEvent (Message id (Some STREAM_DONE_MESSAGE))) c4)) as ->.
  { unfold c, run. by rewrite !foldl_app. }
  rewrite <- Heq in *.
  destruct (reply_done t id _ _ ps qs (handler c4) U O4 S4) as (Hgen & Hm).
  split; [done|]. apply (Hm (clock (world (handler
    (step t nanoid config en (StreamEvent (Message id (Some STREAM_DONE_MESSAGE))) c4))))).
Qed.

Lemma streamed_reply_witness :
  isGenerating (world (handler (demo_run false
    [chunk_event "Hel"; TimerFired; Precompute true; chunk_event "lo"; done_event; Render]))) = false.
Proof.
  refine (proj1 (streamed_reply (λ s, s) (λ i, digits (N.of_nat i)) Payload.DEFAULT_CONFIG
    Payload.DEFAULT_PARAMETER_ENABLED (initial [] 7 false) (js "q")
    [js "Hel"; js "lo"] [Render]
    [chunk_event "Hel"; TimerFired; Precompute true; chunk_event "lo"] eq_refl _ _ _)).
  - by repeat constructor.
  - repeat (constructor; [vm_compute; done..|] || constructor).
  - intros a ps qs b H Hne. apply not_true_iff_false. intros [k Hk]%startsWith_true.
    destruct a as [|? [|? [|]]], ps as [|? [|? [|]]], qs as [|? [|? [|]]]; simplify_list_eq; done.
Defined.

(** ** Stopping *)

(** No awaited request is newer than the controller's generation. *)
Definition await_le {W} (st : controller W) : Prop :=
  ∀ g, is_Some (awaiting_headers st !! g) → g ≤ generation st.

Section await.
Context {W : Type} (ss : bool → W → W).
Implicit Types st : controller W.

Lemma await_bump_frame st st' :
  awaiting_headers st' = awaiting_headers st → generation st ≤ generation st' →
  await_le st → await_le st'.
Proof. unfold await_le. intros -> Hle H g Hg. specialize (H g Hg). lia. Qed.

Lemma drop_source_frame st :
  awaiting_headers (drop_source st) = awaiting_headers st ∧
  generation (drop_source st) = generation st ∧ source (drop_source st) = None.
Proof. unfold drop_source. by destruct (source st). Qed.

Lemma await_send pl cbs st : await_le st → await_le (send ss pl cbs st).
Proof.
  intros H g. unfold send. destruct (drop_source_frame (mkController (source st) (generation st + 1)
    (sources st) (awaiting_headers st) (world st))) as (H1 & H2 & _). simpl.
  rewrite H1, H2. simpl. intros [c [[<- _]|[_ Hc]]%lookup_insert_Some]; [lia|].
  specialize (H g (ex_intro _ c Hc)). lia.
Qed.

Lemma await_cancel b st : await_le st → await_le (cancel ss b st).
Proof.
  apply await_bump_frame; unfold cancel, drop_source; simpl; destruct (source st), b; simpl; (done || lia).
Qed.

Lemma handleError_frame id e code st :
  awaiting_headers (handleError ss id e code st) = awaiting_headers st ∧
  generation (handleError ss id e code st) = generation st.
Proof.
  unfold handleError, closeActiveSource. destruct (live id st); [|done]. cbn zeta.
  destruct (onError _ _ _ _) as [w [|]]; [done|]. by case_bool_decide.
Qed.

(** Events never add an awaited request and never change the generation. *)
Lemma dispatch_frame ev st :
  awaiting_headers (dispatch ss ev st) ⊆ awaiting_headers st ∧
  generation (dispatch ss ev st) = generation st.
Proof.
  assert (∀ id e code st', awaiting_headers st' = awaiting_headers st → generation st' = generation st →
    awaiting_headers (handleError ss id e code st') ⊆ awaiting_headers st ∧
    generation (handleError ss id e code st') = generation st) as HE.
  { intros id e code st' <- <-. by destruct (handleError_frame id e code st') as [-> ->]. }
  destruct ev as [g|g e|id data|id data rs|id ers status|id]; simpl.
  - unfold headers_ready, take_request. destruct (awaiting_headers st !! g) as [[pl cbs]|]; simpl; [|done].
    case_match; simpl; by split; [apply delete_subseteq|].
  - unfold headers_failed, take_request. destruct (awaiting_headers st !! g) as [[pl cbs]|]; simpl; [|done].
    case_match; simpl; by split; [apply delete_subseteq|].
  - unfold on_message, closeActiveSource. destruct (live id st); [|done]. cbn zeta.
    destruct (isStreamDoneMessage _); [by case_bool_decide|].
    destruct (parseStreamMessageUpdates _); [|by apply HE].
    destruct (run_updates _ _ _) as [w [|]]; [by apply HE|done].
  - unfold on_error. destruct (live id st); [|done]. case_match; [done|by apply HE].
  - unfold on_readystatechange. destruct (live id st); [|done].
    repeat case_match; (done || by apply HE).
  - unfold stream_threw. destruct (live id st); [|done]. by apply HE.
Qed.

Lemma await_dispatch ev st : await_le st → await_le (dispatch ss ev st).
Proof.
  intros H g [c Hc]. destruct (dispatch_frame ev st) as [Hs ->]. apply H. exists c.
  by eapply lookup_weaken.
Qed.
End await.

Lemma await_step t nanoid config en ev c :
  await_le (handler c) → await_le (handler (step t nanoid config en ev c)).
Proof.
  intros H. assert (∀ ms c', await_le (handler c') → await_le (handler (send_chat t config en ms c'))) as Hsend.
  { intros ms c' H'. unfold send_chat, sendChat. destruct (Payload.stream config); [by apply await_send|].
    exact (await_cancel setIsStreaming true (on_chat (set_generation _) (handler c')) H'). }
  destruct ev; cbn [step]; try exact H.
  - by apply Hsend.
  - unfold handleRegenerateMessage. case_match; [by apply Hsend|done].
  - unfold handleEditOpenChange. by case_match.
  - unfold applyEdit. repeat case_match; try done. by apply Hsend.
  - exact (await_cancel setIsStreaming true (on_chat _ (handler c)) H).
  - by apply await_dispatch.
Qed.

Lemma await_run t nanoid config en evs ms now e :
  await_le (handler (run t nanoid config en evs (initial ms now e))).
Proof.
  unfold run. induction evs as [|ev evs IH] using rev_ind; [intros g [c Hc]; done|].
  rewrite foldl_app. by apply await_step.
Qed.

(** What may still happen after a stop: events of old sources and requests,
    timers, renders and clock ticks. *)
Definition leftover (g : Z) (ev : Event) : Prop :=
  match ev with
  | StreamEvent _ | TimerFired | Render | Tick _ | Precompute _ => True
  | ResponseArrived g' _ | ResponseFailed g' _ => g' < g
  | _ => False
  end.

(** Nothing is under way: [ms] are the messages of the last render and [q] the
    updaters queued since. *)
Record quiet (g : Z) (ms : list Types.Message) (q : list (Update * option (Z * Z)))
    (st : controller chat) : Prop := {
  q_source : source st = None;
  q_await : ∀ g', is_Some (awaiting_headers st !! g') → g' < generation st;
  q_generation : requestGenerationRef (world st) = g;
  q_timer : streamFlushTimerRef (world st) = None;
  q_queue : queue (world st) = q;
  q_idle : isGenerating (world st) = false;
  q_messages : messages (world st) = ms;
}.

Lemma quiet_dispatch g ms q ev st : quiet g ms q st → quiet g ms q (dispatch setIsStreaming ev st).
Proof.
  intros Q. assert (∀ id, live id st = None) as HL.
  { intros id. unfold live. destruct (sources st !! id) as [s|]; [|done]. simpl. unfold isCurrent.
    by rewrite (q_source _ _ _ _ Q), andb_false_r. }
  assert (∀ g' c, awaiting_headers st !! g' = Some c → (generation st =? g') = false) as Hne.
  { intros g' c Hc. apply Z.eqb_neq. pose proof (q_await _ _ _ _ Q g' (ex_intro _ c Hc)). lia. }
  destruct ev as [g'|g' e|id data|id data rs|id ers status|id]; simpl;
    unfold on_message, on_error, on_readystatechange, stream_threw; rewrite ?HL; try done.
  all: unfold headers_ready, headers_failed, take_request;
    destruct (awaiting_headers st !! g') as [[pl c]|] eqn:E; simpl; [|done];
    rewrite (Hne g' _ E); simpl; destruct Q; split; simpl; try done;
    intros g'' [c'' [_ H]%lookup_delete_Some]; eauto.
Qed.

Lemma quiet_render g ms q st :
  quiet g ms q st → quiet g (upcoming (clock (world st)) (world st)) [] (on_chat render st).
Proof. by intros []. Qed.

Lemma quiet_step t nanoid config en g ms q ev c :
  quiet g ms q (handler c) → leftover g ev → (ev = Render → q = []) →
  quiet g ms q (handler (step t nanoid config en ev c)).
Proof.
  intros Q L HR. destruct ev; cbn [step]; try done.
  - by apply quiet_dispatch.
  - simpl in L. destruct Q. split; simpl; try done; unfold response_arrived, request_finally;
      rewrite q_generation0, (proj2 (Z.eqb_neq g g0)), orb_true_r by lia; simpl;
      by rewrite ?q_generation0, ?(proj2 (Z.eqb_neq g g0)) by lia.
  - simpl in L. destruct Q. split; simpl; try done; unfold response_failed, request_finally;
      rewrite q_generation0, (proj2 (Z.eqb_neq g g0)), orb_true_r by lia; simpl;
      by rewrite ?q_generation0, ?(proj2 (Z.eqb_neq g g0)) by lia.
  - destruct Q. split; simpl; try done; unfold timer_fired; by rewrite q_timer0.
  - rewrite HR in * by done. destruct Q. split; simpl; try done. by rewrite q_queue0.
  - by destruct Q.
  - by destruct Q.
Qed.

Lemma quiet_run t nanoid config en g ms q evs c :
  quiet g ms q (handler c) → Forall (leftover g) evs → (Render ∈ evs → q = []) →
  quiet g ms q (handler (run t nanoid config en evs c)).
Proof.
  intros Q L HR. revert c Q. induction L as [|ev evs Hev _ IH]; intros c Q; [done|].
  apply IH; [intros H; apply HR; by right|]. apply quiet_step; [done..|].
  intros ->. apply HR. by left.
Qed.

(** What stopping leaves of the messages. *)
Definition settled_last (ms : list Types.Message) : Prop :=
  isPendingAssistantMessage (ms !! (length ms - 1)%nat) = false.

Lemma settled_stop cur now ms : settled_last (run_update cur now (UpdStop cur) ms).
Proof.
  unfold settled_last. simpl. rewrite Z.eqb_refl. simpl. unfold updateLastAssistantMessage.
  destruct (ms !! (length ms - 1)%nat) as [m|] eqn:E; [|by rewrite E].
  case_bool_decide as Hm.
  - rewrite length_insert, list_lookup_insert_eq by (by eapply lookup_lt_Some).
    unfold isPendingAssistantMessage. destruct (isAssistantMessagePending m) eqn:Ep.
    + destruct (completeAssistantMessage_finished m now Hm) as (_ & -> & _). by rewrite andb_false_r.
    + by rewrite Ep, andb_false_r.
  - rewrite E. simpl. by rewrite bool_decide_eq_false_2.
Qed.

(** After a stop nothing is under way, and the updater it queued last was run,
    or will be, in its own generation. *)
Lemma quiet_stop st0 :
  let st1 := stopGeneration st0 in
  let g := requestGenerationRef (world st1) in
  await_le st0 →
  quiet g (messages (world st1)) (queue (world st1)) st1 ∧
  ∃ q ran, queue (world st1) = q ++ [(UpdStop g, ran)] ∧ ∀ g' n, ran = Some (g', n) → g' = g.
Proof.
  intros st1 g Haw. set (g0 := requestGenerationRef (world st0)).
  set (st := on_chat (λ w, discardPendingStreamUpdates (g0 + 1)
    (set_generation (g0 + 1) (flushStreamUpdates g0 w))) st0).
  set (stopped := stop setIsStreaming st).
  assert (world stopped = setIsStreaming false (world st) ∧ source stopped = None ∧
    awaiting_headers stopped = awaiting_headers st0 ∧ generation stopped = generation st0 + 1)
    as (Hw & Hs & Ha & Hg) by (unfold stopped, stop, cancel, drop_source; simpl; by case_match).
  assert (st1 = on_chat (λ w, onMessageUpdate (UpdStop (g0 + 1))
    (setIsRequesting false (set_abort None (abort w)))) stopped) as E1 by done.
  assert (g = g0 + 1) as -> by (unfold g; rewrite E1; cbn -[stopped]; by rewrite Hw).
  rewrite E1. clearbody stopped. split.
  - split; simpl; rewrite ?Hw; try done. rewrite Ha, Hg. intros g' H'. apply Haw in H'. lia.
  - cbn -[flushStreamUpdates]. rewrite Hw. eexists _, _. split; [done|]. intros g' n.
    case_match; [by intros [= <- _]|done].
Qed.

(** [C36] Stopping is final.  Whatever happened before the user stops, and
    whenever React runs the updaters: the page is no longer generating; the
    first render after the stop shows what the updaters queued up to the stop
    make of the messages, with no reply pending at the end; and nothing that
    arrives after the stop, late SSE events, header replies and responses of
    older requests, timers and renders, changes the messages or the indicator
    again. *)
Theorem stop_is_final t nanoid config en ms now eager before early late :
  let c1 := run t nanoid config en (before ++ [StopGeneration]) (initial ms now eager) in
  let g := requestGenerationRef (world (handler c1)) in
  Forall (leftover g) early → Render ∉ early → Forall (leftover g) late →
  let c2 := run t nanoid config en (early ++ [Render]) c1 in
  let c3 := run t nanoid config en late c2 in
  isGenerating (world (handler c1)) = false ∧
  rendered c2 = upcoming (now_of c2) (world (handler c1)) ∧ settled_last (rendered c2) ∧
  rendered c3 = rendered c2 ∧ isGenerating (world (handler c3)) = false.
Proof.
  intros c1 g He HR HL c2 c3.
  set (c0 := run t nanoid config en before (initial ms now eager)).
  pose proof (await_run t nanoid config en before ms now eager : await_le (handler c0)) as Haw.
  assert (c1 = step t nanoid config en StopGeneration c0) as E1
    by (unfold c1, run; by rewrite foldl_app).
  destruct (quiet_stop (handler c0) Haw) as [Q1 (q & ran & Hq & Hran)].
  change (stopGeneration (handler c0)) with (handler (step t nanoid config en StopGeneration c0)) in *.
  rewrite <- E1 in *. fold g in Q1, Hq, Hran.
  assert (Q2 : quiet g (messages (world (handler c1))) (queue (world (handler c1)))
    (handler (run t nanoid config en early c1))) by (apply quiet_run; [done..|intros; contradiction]).
  set (ce := run t nanoid config en early c1) in *.
  assert (c2 = step t nanoid config en Render ce) as E2 by (unfold c2, run; by rewrite foldl_app).
  assert (rendered c2 = upcoming (now_of c2) (world (handler c1))) as Hup.
  { rewrite E2. unfold rendered, now_of, upcoming. simpl.
    by rewrite (q_messages _ _ _ _ Q2), (q_queue _ _ _ _ Q2), (q_generation _ _ _ _ Q2). }
  assert (Q3 : quiet g (rendered c2) [] (handler c2)).
  { rewrite E2. exact (quiet_render _ _ _ _ Q2). }
  assert (Q4 : quiet g (rendered c2) [] (handler c3)) by by apply quiet_run.
  split_and!; [apply (q_idle _ _ _ _ Q1)|done| |apply (q_messages _ _ _ _ Q4)|apply (q_idle _ _ _ _ Q4)].
  rewrite Hup. unfold upcoming. rewrite Hq, foldl_app. simpl. unfold run_queued at 1.
  destruct ran as [[g' n]|]; simpl; [rewrite (Hran g' n eq_refl)|]; apply settled_stop.
Qed.

Lemma stop_is_final_witness :
  let c1 := demo_run false [chunk_event "Hi"; StopGeneration] in
  let c2 := run (λ s, s) (λ i, digits (N.of_nat i)) Payload.DEFAULT_CONFIG
    Payload.DEFAULT_PARAMETER_ENABLED ([chunk_event "late"; Tick 9] ++ [Render]) c1 in
  let c3 := run (λ s, s) (λ i, digits (N.of_nat i)) Payload.DEFAULT_CONFIG
    Payload.DEFAULT_PARAMETER_ENABLED [chunk_event "later"; TimerFired; Render] c2 in
  isGenerating (world (handler c1)) = false ∧
  rendered c2 = upcoming (now_of c2) (world (handler c1)) ∧ settled_last (rendered c2) ∧
  rendered c3 = rendered c2 ∧ isGenerating (world (handler c3)) = false.
Proof.
  apply (stop_is_final (λ s, s) (λ i, digits (N.of_nat i)) Payload.DEFAULT_CONFIG
    Payload.DEFAULT_PARAMETER_ENABLED [] 7 false
    [SendMessage (js "q"); Render; StreamEvent (HeadersReady 1); chunk_event "Hi"]
    [chunk_event "late"; Tick 9] [chunk_event "later"; TimerFired; Render]);
    [by repeat constructor| |by repeat constructor].
  intros [H|[H|[]%elem_of_nil]%elem_of_cons]%elem_of_cons; discriminate.
Defined.
