(* ===== verification/PlaygroundStorage.v ===== *)
(** * Playground storage

    Models [features/playground/lib/storage/storage.ts], the limits of
    [storage-schema.ts], [lib/state/playground-state-utils.ts],
    [lib/options/playground-option-utils.ts] and [lib/input/input-control-utils.ts].
    [localStorage] is a finite map from keys to strings; whether it has room for a
    value and what the zod schemas accept are parameters. *)

From S2P Require Import Prelude JsValue PlaygroundMessage.
Import Types Constants MessageUtils Timing Streaming Payload.

Module Storage.

Definition STORAGE_VERSION : Z := 1.
Definition MAX_STORED_MESSAGES : nat := 100.
Definition MAX_STORED_MESSAGES_BYTES : Z := 1024 * 1024.
Definition MAX_LOADED_MESSAGES_CHARS : Z := 120000.
Definition MAX_LOADED_MESSAGE_CHARS : Z := 40000.
Definition TRUNCATED_CONTENT_SUFFIX : jstr := [10%N; 10%N] ++ js "[...]".
Definition MIN_PREFIX_COLLAPSE_LENGTH : Z := 2000.
Definition MIN_REPEATED_SECTION_COUNT : nat := 3.
Definition KEY_CONFIG : jstr := js "playground_config".
Definition KEY_MESSAGES : jstr := js "playground_messages".
Definition KEY_PARAMETER_ENABLED : jstr := js "playground_parameter_enabled".

Definition len {A} (l : list A) : Z := Z.of_nat (length l).

(** ** Bounding a history *)

Definition trimMessages (ms : list Message) : list Message :=
  if bool_decide (length ms ≤ MAX_STORED_MESSAGES)%nat then ms
  else drop (length ms - MAX_STORED_MESSAGES) ms.

Definition getMessageSize (m : Message) : Z :=
  foldl (λ total v, total + len (content v)) 0 (versions m)
  + default 0 ((λ r, len (r_content r)) <$> reasoning m).

Definition truncateText (text : jstr) (maxLength : Z) : jstr :=
  if len text <=? maxLength then text
  else if maxLength <=? len TRUNCATED_CONTENT_SUFFIX then take (Z.to_nat maxLength) text
  else take (Z.to_nat (maxLength - len TRUNCATED_CONTENT_SUFFIX)) text ++ TRUNCATED_CONTENT_SUFFIX.

(** The loop runs over the messages from the last one; [result] is the array it
    pushes to. *)
Fixpoint trim_size_loop (rev_ms : list Message) (totalSize : Z) (result : list Message)
    : list Message :=
  match rev_ms with
  | [] => result
  | m :: rest =>
      let messageSize := getMessageSize m in
      if bool_decide (result ≠ []) && (MAX_LOADED_MESSAGES_CHARS <? totalSize + messageSize)
      then result
      else trim_size_loop rest (totalSize + messageSize) (result ++ [m])
  end.
Definition trimMessagesByContentSize (ms : list Message) : list Message :=
  reverse (trim_size_loop (reverse ms) 0 []).

(** ** Repeated sections

    The pattern [/^#{2,6}\s+\d+\.\s+.+$/gm].  A space is neither [#] nor a
    digit, so the first two repetitions take maximal runs; the last [\s+] gives
    back what [.+] needs, which then runs to the end of the line. *)

Definition is_line_end (c : N) : bool := ((c =? 10) || (c =? 13) || (c =? 8232) || (c =? 8233))%N.

Fixpoint span (P : N → bool) (s : jstr) : nat :=
  match s with
  | c :: rest => if P c then S (span P rest) else 0%nat
  | [] => 0%nat
  end.

(** The largest [k] in [1..n] after which a character of the line follows. *)
Fixpoint last_space (s : jstr) (n : nat) : option nat :=
  match n with
  | O => None
  | S k => match drop n s with
           | c :: _ => if is_line_end c then last_space s k else Some n
           | [] => last_space s k
           end
  end.

(** Length of the match at the start of [s]. *)
Definition heading_at (s : jstr) : option nat :=
  let h := span (λ c, c =? 35)%N s in
  if bool_decide (2 ≤ h ≤ 6)%nat then
    let w := span is_ws (drop h s) in
    let d := span is_digit (drop (h + w) s) in
    let rest := drop (h + w + d) s in
    if bool_decide (0 < w)%nat && bool_decide (0 < d)%nat then
      match rest with
      | 46%N :: after =>
          k ← last_space after (span is_ws after);
          Some (h + w + d + 1 + k + span (λ c, negb (is_line_end c)) (drop k after))%nat
      | _ => None
      end
    else None
  else None.

Record SectionOccurrence := mkOccurrence { heading : jstr; index : nat }.

(** [matchAll]: [bol] says that a line starts here, [skip] counts the rest of
    the match just found. *)
Fixpoint scan_headings (s : jstr) (pos : nat) (bol : bool) (skip : nat) : list SectionOccurrence :=
  match s with
  | [] => []
  | c :: rest =>
      match skip with
      | S k => scan_headings rest (S pos) (is_line_end c) k
      | O =>
          match (if bol then heading_at s else None) with
          | Some n => mkOccurrence (take n s) pos :: scan_headings rest (S pos) (is_line_end c) (n - 1)
          | None => scan_headings rest (S pos) (is_line_end c) 0
          end
      end
  end.
Definition getSectionOccurrences (text : jstr) : list SectionOccurrence :=
  scan_headings text 0 true 0.

Definition getHeadingCounts (occurrences : list SectionOccurrence) : gmap jstr nat :=
  foldl (λ counts o, <[heading o := (default 0%nat (counts !! heading o) + 1)%nat]> counts)
    ∅ occurrences.

(** The loop from the last occurrence: indexes of the last occurrence of each
    heading that is repeated often enough. *)
Fixpoint last_repeated (counts : gmap jstr nat) (rev_occ : list SectionOccurrence) (seen : list jstr)
    : list nat :=
  match rev_occ with
  | [] => []
  | o :: rest =>
      if bool_decide (default 0%nat (counts !! heading o) < MIN_REPEATED_SECTION_COUNT)%nat
         || bool_decide (heading o ∈ seen)
      then last_repeated counts rest seen
      else index o :: last_repeated counts rest (heading o :: seen)
  end.

(** [None] stands for -1. *)
Definition findLastRepeatedSectionRunStart (text : jstr) : option nat :=
  let occurrences := getSectionOccurrences text in
  match last_repeated (getHeadingCounts occurrences) (reverse occurrences) [] with
  | [] => None
  | i :: rest => Some (foldl Nat.min i rest)
  end.

Definition collapseRepeatedSectionSnapshots (text : jstr) : jstr :=
  if len text <? MIN_PREFIX_COLLAPSE_LENGTH then text
  else match findLastRepeatedSectionRunStart text with
       | None => text
       | Some i => drop i text
       end.

(** ** Messages read from storage *)

(** The new content of a version and whether the version object is replaced. *)
Definition normalize_version (v : MessageVersion) : MessageVersion * bool :=
  let collapsedContent := collapseRepeatedSectionSnapshots (content v) in
  let c := truncateText collapsedContent MAX_LOADED_MESSAGE_CHARS in
  if (c === content v) && (collapsedContent === content v) then (v, false)
  else (mkVersion (id v) c, true).

Definition normalize_reasoning (r : Reasoning) : Reasoning * bool :=
  let c := truncateText (r_content r) MAX_LOADED_MESSAGE_CHARS in
  (mkReasoning c (r_duration r) (r_startedAt r) (r_completedAt r) (r_durationMs r),
   negb (c === r_content r)).

Definition first_some (a b : option Z) : option Z := match a with Some _ => a | None => b end.

(** The message, and whether it is a new object. *)
Definition normalizeStoredMessageForLoad (now : Z) (m : Message) : Message * bool :=
  let vs := map normalize_version (versions m) in
  let r := normalize_reasoning <$> reasoning m in
  let changed := existsb snd vs || from_option snd false r in
  let normalized := if changed then with_reasoning (fst <$> r) (with_versions (map fst vs) m) else m in
  if negb (isAssistantMessagePending normalized) then (normalized, changed)
  else
    let hasReasoning := truthy (trim (default [] (r_content <$> reasoning normalized))) in
    if negb (hasMessageContent normalized) && negb hasReasoning then (normalized, changed)
    else
      let done_at := default now
        (first_some (completedAt normalized)
          (first_some (reasoning normalized ≫= r_completedAt)
            (first_some (startedAt normalized) (createdAt normalized)))) in
      (completeAssistantTiming
         (with_streaming false (with_status COMPLETE (finalizeMessage normalized None now))) done_at,
       true).

(** ** JSON form of the stored values: undefined fields are left out *)

Definition field (k : string) (v : option json) : list (jstr * json) :=
  match v with Some x => [(js k, x)] | None => [] end.
Definition jZ (z : Z) : json := JNum (num_of_Z z).

Definition role_name (r : MessageRole) : jstr :=
  match r with user => js "user" | assistant => js "assistant" | system => js "system" end.
Definition status_name (s : MessageStatus) : jstr :=
  match s with
  | LOADING => js "loading" | STREAMING => js "streaming"
  | COMPLETE => js "complete" | ERROR => js "error"
  end.

Definition version_json (v : MessageVersion) : json :=
  JObj [(js "id", JStr (id v)); (js "content", JStr (content v))].
Definition source_json (s : Source) : json :=
  JObj [(js "href", JStr (href s)); (js "title", JStr (title s))].
Definition reasoning_json (r : Reasoning) : json :=
  JObj ([(js "content", JStr (r_content r)); (js "duration", jZ (r_duration r))]
        ++ field "startedAt" (jZ <$> r_startedAt r) ++ field "completedAt" (jZ <$> r_completedAt r)
        ++ field "durationMs" (jZ <$> r_durationMs r)).
Definition message_json (m : Message) : json :=
  JObj ([(js "key", JStr (key m)); (js "from", JStr (role_name (from m)));
         (js "versions", JArr (map version_json (versions m)))]
        ++ field "createdAt" (jZ <$> createdAt m) ++ field "startedAt" (jZ <$> startedAt m)
        ++ field "completedAt" (jZ <$> completedAt m) ++ field "durationMs" (jZ <$> durationMs m)
        ++ field "sources" ((λ l, JArr (map source_json l)) <$> sources m)
        ++ field "reasoning" (reasoning_json <$> reasoning m)
        ++ field "isReasoningStreaming" (JBool <$> isReasoningStreaming m)
        ++ field "isReasoningComplete" (JBool <$> isReasoningComplete m)
        ++ field "isContentComplete" (JBool <$> isContentComplete m)
        ++ field "status" ((λ s, JStr (status_name s)) <$> status m)
        ++ field "errorCode" (errorCode m)).
Definition messages_json (ms : list Message) : json := JArr (map message_json ms).

(** ** Reading and writing *)

Abbreviation store := (gmap jstr jstr).

(** An outcome of [readStoredValue]: nothing usable, a value, or an exception. *)
Inductive read := Nothing | Value (v : json) | Threw.

Definition parse_saved (saved : jstr) : read :=
  match JSON_parse saved with
  | None => Threw
  | Some v => if json_truthy v then Value v else Nothing
  end.

(** Followed by the caller's [if (!saved)]. *)
Definition readStoredValue (k : jstr) (s : store) : read :=
  match s !! k with
  | Some saved => if truthy saved then parse_saved saved else Nothing
  | None => Nothing
  end.

Definition readStoredMessagesValue (s : store) : read * store :=
  match s !! KEY_MESSAGES with
  | None => (Nothing, s)
  | Some saved =>
      if negb (truthy saved) then (Nothing, s)
      else if MAX_STORED_MESSAGES_BYTES <? len saved then (Nothing, delete KEY_MESSAGES s)
      else (parse_saved saved, s)
  end.

Definition unwrapStoredValue (value : json) : json :=
  match value with
  | JObj fields =>
      match field_get (js "version") fields, field_get (js "data") fields with
      | Some _, Some data => data
      | _, _ => value
      end
  | _ => value
  end.

Definition envelope (data : json) : json :=
  JObj [(js "version", jZ STORAGE_VERSION); (js "data", data)].

Section io.
(** Whether [setItem] succeeds, and the zod schemas ([None]: [parse] throws). *)
Context (has_room : store → jstr → jstr → bool).
Context (messagesSchema : json → option (list Message)).
Context {C P : Type} (playgroundConfigSchema : json → option C) (config_json : C → json)
  (parameterEnabledSchema : json → option P) (parameter_json : P → json).
Context (t : jstr → jstr).

(** [setItem] either stores the value or throws. *)
Definition writeStoredValue (k : jstr) (data : json) (s : store) : option store :=
  let payload := JSON_stringify (envelope data) in
  if has_room s k payload then Some (<[k := payload]> s) else None.

(** The schema is applied to the value itself; [JSON.stringify] then prints
    what it returned. *)
Definition saveMessages (ms : list Message) (s : store) : store :=
  match messagesSchema (messages_json (trimMessages ms)) with
  | None => s
  | Some parsed => default s (writeStoredValue KEY_MESSAGES (messages_json parsed) s)
  end.

(** The steps of [loadMessages] after parsing. *)
Definition restore (now : Z) (parsed : list Message) : list Message :=
  let normalized := map (λ m, (normalizeStoredMessageForLoad now m).1) parsed in
  sanitizeMessagesOnLoad t (trimMessagesByContentSize (trimMessages normalized)) now.

(** [normalizedChanged || trimmed !== normalized || sizeTrimmed !== trimmed ||
    sanitized !== sizeTrimmed]: array and object identities.
    [trimMessagesByContentSize] always returns an array of its own. *)
Definition load_changed (now : Z) (parsed : list Message) : bool :=
  let normalized := map (normalizeStoredMessageForLoad now) parsed in
  let normalizedChanged := existsb snd normalized in
  let trimmed_is_new := negb (bool_decide (length parsed ≤ MAX_STORED_MESSAGES)%nat) in
  let sizeTrimmed_is_new := true in
  let sizeTrimmed := trimMessagesByContentSize (trimMessages (map fst normalized)) in
  let sanitized_is_new := bool_decide (is_Some (last_pending (length sizeTrimmed) sizeTrimmed)) in
  normalizedChanged || trimmed_is_new || sizeTrimmed_is_new || sanitized_is_new.

Definition loadMessages (now : Z) (s : store) : option (list Message) * store :=
  let '(r, s) := readStoredMessagesValue s in
  match r with
  | Nothing | Threw => (None, s)
  | Value saved =>
      match messagesSchema (unwrapStoredValue saved) with
      | None => (None, s)
      | Some parsed =>
          let sanitized := restore now parsed in
          (Some sanitized, if load_changed now parsed then saveMessages sanitized s else s)
      end
  end.

Definition load_with {A} (schema : json → option A) (k : jstr) (s : store) : option A :=
  match readStoredValue k s with
  | Value saved => schema (unwrapStoredValue saved)
  | Nothing | Threw => None
  end.
Definition save_with {A} (schema : json → option A) (to_json : A → json) (k : jstr) (v : json)
    (s : store) : store :=
  match schema v with
  | Some parsed => default s (writeStoredValue k (to_json parsed) s)
  | None => s
  end.

(** [None] stands for the empty object. *)
Definition loadConfig (s : store) : option C := load_with playgroundConfigSchema KEY_CONFIG s.
Definition saveConfig (config : json) (s : store) : store :=
  save_with playgroundConfigSchema config_json KEY_CONFIG config s.
Definition loadParameterEnabled (s : store) : option P :=
  load_with parameterEnabledSchema KEY_PARAMETER_ENABLED s.
Definition saveParameterEnabled (parameterEnabled : json) (s : store) : store :=
  save_with parameterEnabledSchema parameter_json KEY_PARAMETER_ENABLED parameterEnabled s.

Definition clearPlaygroundData (s : store) : store :=
  delete KEY_MESSAGES (delete KEY_PARAMETER_ENABLED (delete KEY_CONFIG s)).

Definition getInitialMessages (now : Z) (s : store) : list Message * store :=
  let '(ms, s) := loadMessages now s in (default [] ms, s).
End io.

End Storage.

(** ** playground-option-utils.ts and input-control-utils.ts *)
Module Options.

Definition getModelFallback (models : list jstr) (currentModel : jstr) : option jstr :=
  match models with
  | [] => None
  | m :: _ => if bool_decide (currentModel ∈ models) then None else Some m
  end.

Definition shouldClearModelForGroup (models : list jstr) (currentModel : jstr) : bool :=
  if currentModel === [] then false else negb (bool_decide (currentModel ∈ models)).

Definition getGroupFallback (groups : list jstr) (currentGroup : jstr) : option jstr :=
  match groups with
  | [] => None
  | g :: _ => if bool_decide (currentGroup ∈ groups) then None
              else Some (if bool_decide (js "default" ∈ groups) then js "default" else g)
  end.

Definition getSubmittableInputText (text : option jstr) (disabled : bool) : option jstr :=
  match text with
  | Some s => if disabled || negb (truthy (trim s)) then None else Some s
  | None => None
  end.

Record InputControlState := mkInput { canSubmit : bool; isSelectorDisabled : bool; shouldShowStop : bool }.
Definition getInputControlState (disabled : bool) (groups : list jstr) (hasStopHandler isGenerating
    isModelLoading : bool) (models : list jstr) (text : jstr) : InputControlState :=
  mkInput (negb disabled && bool_decide (models ≠ []) && truthy (trim text))
    (disabled || isModelLoading || bool_decide (groups = []))
    (isGenerating && hasStopHandler).

End Options.
