(* ===== verification/PlaygroundStorageFacts.v ===== *)
(** * Properties of playground storage

    The bounds on a restored history, which messages and which sections
    trimming keeps, and when loading writes the storage back. *)

From S2P Require Import Prelude JsValue PlaygroundMessage PlaygroundMessageFacts PlaygroundStorage.
Import Types Constants MessageUtils Timing ReasoningUtils Streaming Storage.

(** ** Trimming by size *)

Definition total_size (ms : list Message) : Z := foldr (λ m acc, getMessageSize m + acc) 0 ms.

Lemma total_size_app l l' : total_size (l ++ l') = total_size l + total_size l'.
Proof. induction l as [|m l IH]; simpl; [done|]. rewrite IH. lia. Qed.

(** What the loop collects: a prefix of the reversed messages that fits (or is
    a single message), and that the next message would overflow. *)
Lemma trim_size_loop_spec rest acc :
  (total_size acc ≤ MAX_LOADED_MESSAGES_CHARS ∨ (length acc ≤ 1)%nat) →
  ∃ kept dropped, rest = kept ++ dropped ∧
    trim_size_loop rest (total_size acc) acc = acc ++ kept ∧
    (total_size (acc ++ kept) ≤ MAX_LOADED_MESSAGES_CHARS ∨ (length (acc ++ kept) ≤ 1)%nat) ∧
    (∀ m more, dropped = m :: more →
       acc ++ kept ≠ [] ∧ MAX_LOADED_MESSAGES_CHARS < total_size (acc ++ kept) + getMessageSize m).
Proof.
  revert acc. induction rest as [|m rest IH]; intros acc Hacc; cbn [trim_size_loop].
  - exists [], []. rewrite !app_nil_r. by split_and!.
  - cbn zeta. destruct (bool_decide_reflect (acc ≠ [])) as [Hne|Hne]; simpl.
    + destruct (MAX_LOADED_MESSAGES_CHARS <? total_size acc + getMessageSize m) eqn:E.
      * exists [], (m :: rest). rewrite !app_nil_r. split_and!; [done..|].
        intros ? ? [= <- <-]. bsplit. by split; [|lia].
      * bsplit. destruct (IH (acc ++ [m])) as (kept & dropped & -> & Hl & Hb & Hd).
        { left. rewrite total_size_app. simpl. lia. }
        rewrite total_size_app in Hl. simpl in Hl. rewrite Z.add_0_r in Hl.
        exists (m :: kept), dropped. rewrite Hl, <- !app_assoc. simpl.
        rewrite <- !app_assoc in Hb, Hd. by split_and!.
    + assert (acc = []) as -> by (by destruct acc; [|destruct Hne]). simpl.
      destruct (IH [m]) as (kept & dropped & -> & Hl & Hb & Hd); [right; simpl; lia|].
      simpl in Hl. rewrite Z.add_0_r in Hl. exists (m :: kept), dropped.
      change (0 + getMessageSize m) with (getMessageSize m). split_and!; done.
Qed.

Lemma trimMessagesByContentSize_facts ms :
  ∃ dropped, ms = dropped ++ trimMessagesByContentSize ms ∧
    (ms ≠ [] → trimMessagesByContentSize ms ≠ []) ∧
    (total_size (trimMessagesByContentSize ms) ≤ MAX_LOADED_MESSAGES_CHARS ∨
     (length (trimMessagesByContentSize ms) ≤ 1)%nat) ∧
    (∀ more m, dropped = more ++ [m] →
       MAX_LOADED_MESSAGES_CHARS < total_size (m :: trimMessagesByContentSize ms)).
Proof.
  unfold trimMessagesByContentSize.
  destruct (trim_size_loop_spec (reverse ms) []) as (kept & dropped & Hr & Hl & Hb & Hd);
    [right; simpl; lia|].
  simpl in Hl, Hb, Hd. rewrite Hl. clear Hl. exists (reverse dropped).
  assert (Hsz : total_size (reverse kept) = total_size kept).
  { clear. induction kept as [|m l IH]; [done|].
    rewrite reverse_cons, total_size_app, IH. simpl. lia. }
  split_and!.
  - by rewrite <- reverse_app, <- Hr, reverse_involutive.
  - intros Hne Hk. apply (f_equal reverse) in Hk. rewrite reverse_involutive in Hk. simpl in Hk.
    subst kept. destruct dropped as [|m more].
    + destruct Hne. apply (f_equal reverse) in Hr. rewrite reverse_involutive in Hr. by rewrite Hr.
    + by destruct (Hd m more eq_refl) as [[] _].
  - by rewrite Hsz, length_reverse.
  - intros more m Hm. apply (f_equal reverse) in Hm.
    rewrite reverse_involutive, reverse_app in Hm. simpl in Hm.
    destruct (Hd m (reverse more) Hm) as [_ H]. cbn [total_size foldr] in *.
    fold (total_size (reverse kept)). rewrite Hsz. lia.
Qed.

(** Trimming by size keeps the end of the history: the longest run of the
    last messages whose texts fit in the limit, but always at least the last
    message. *)
Theorem trimMessagesByContentSize_spec ms :
  ∃ dropped, ms = dropped ++ trimMessagesByContentSize ms ∧
    (ms ≠ [] → trimMessagesByContentSize ms ≠ []) ∧
    (total_size (trimMessagesByContentSize ms) ≤ MAX_LOADED_MESSAGES_CHARS ∨
     (length (trimMessagesByContentSize ms) ≤ 1)%nat) ∧
    (∀ more m, dropped = more ++ [m] →
       MAX_LOADED_MESSAGES_CHARS < total_size (m :: trimMessagesByContentSize ms)).
Proof. apply trimMessagesByContentSize_facts. Qed.

(** ** Truncation *)

Lemma truncateText_length text maxLength :
  0 ≤ maxLength → len (truncateText text maxLength) ≤ maxLength.
Proof.
  intros H. unfold truncateText, len. dmatch; bsplit; [done|]. dmatch; bsplit.
  - rewrite length_take. lia.
  - rewrite length_app, length_take. unfold len in *. lia.
Qed.

(** ** Repeated sections *)

Definition copies (h : jstr) (occ : list SectionOccurrence) : nat :=
  length (filter (λ o, heading o = h) occ).

Lemma getHeadingCounts_copies occ h : default 0%nat (getHeadingCounts occ !! h) = copies h occ.
Proof.
  unfold getHeadingCounts. induction occ as [|o occ IH] using rev_ind; [done|].
  rewrite foldl_app. simpl. unfold copies. rewrite list.filter_app, length_app. fold (copies h occ).
  rewrite <- IH. destruct (decide (heading o = h)) as [<-|Hne].
  - rewrite lookup_insert_eq. simpl. by rewrite filter_cons_True.
  - rewrite lookup_insert_ne by done. by rewrite filter_cons_False.
Qed.

(** An occurrence is repeated and the last of its heading. *)
Definition last_copy (occ : list SectionOccurrence) (o : SectionOccurrence) : Prop :=
  (MIN_REPEATED_SECTION_COUNT ≤ copies (heading o) occ)%nat ∧
  ∃ l1 l2, occ = l1 ++ o :: l2 ∧ heading o ∉ map heading l2.

Lemma last_repeated_spec counts rev_occ seen i :
  i ∈ last_repeated counts rev_occ seen ↔
  ∃ l1 o l2, rev_occ = l1 ++ o :: l2 ∧ index o = i ∧
    (MIN_REPEATED_SECTION_COUNT ≤ default 0%nat (counts !! heading o))%nat ∧
    heading o ∉ seen ∧ heading o ∉ map heading l1.
Proof.
  revert seen. induction rev_occ as [|o rest IH]; intros seen; cbn [last_repeated].
  - split; [set_solver|]. intros ([|] & ? & ? & ? & _); done.
  - destruct (bool_decide_reflect (default 0%nat (counts !! heading o) < MIN_REPEATED_SECTION_COUNT)%nat)
      as [Hc|Hc]; [|destruct (bool_decide_reflect (heading o ∈ seen)) as [Hs|Hs]]; cbn [orb].
    + rewrite IH. split.
      * intros (l1 & o' & l2 & -> & ? & ? & ? & ?). exists (o :: l1), o', l2. split_and!; try done.
        simpl. intros [Heq|?]%elem_of_cons; [|done]. rewrite Heq in *. lia.
      * intros ([|o1 l1] & o' & l2 & [= -> ->] & ? & ? & ? & Hn); [lia|].
        exists l1, o', l2. split_and!; try done. simpl in Hn. set_solver.
    + rewrite IH. split.
      * intros (l1 & o' & l2 & -> & ? & ? & ? & ?). exists (o :: l1), o', l2. split_and!; try done.
        simpl. intros [Heq|?]%elem_of_cons; [|done]. by rewrite Heq in *.
      * intros ([|o1 l1] & o' & l2 & [= -> ->] & ? & ? & ? & Hn); [done|].
        exists l1, o', l2. split_and!; try done. simpl in Hn. set_solver.
    + rewrite elem_of_cons, IH. split.
      * intros [->|(l1 & o' & l2 & -> & ? & ? & ? & ?)].
        { exists [], o, rest. split_and!; [done|done|lia|done|set_solver]. }
        exists (o :: l1), o', l2. split_and!; try done; simpl; set_solver.
      * intros ([|o1 l1] & o' & l2 & [= -> ->] & ? & ? & ? & Hn); [by left|]. right.
        exists l1, o', l2. simpl in Hn. split_and!; try done; set_solver.
Qed.

Lemma foldl_min_spec i l :
  foldl Nat.min i l ∈ i :: l ∧ ∀ j, j ∈ i :: l → (foldl Nat.min i l ≤ j)%nat.
Proof.
  revert i. induction l as [|k l IH]; intros i; simpl.
  - set_solver.
  - destruct (IH (Nat.min i k)) as [H1 H2]. split.
    + destruct (Nat.min_spec i k) as [[_ Hm]|[_ Hm]]; rewrite Hm in *; set_solver.
    + assert (foldl Nat.min (Nat.min i k) l ≤ Nat.min i k)%nat by (apply H2; set_solver).
      intros j [->|[->|Hj]%elem_of_cons]%elem_of_cons; [lia|lia|]. apply H2. set_solver.
Qed.

Lemma last_copy_reverse occ o :
  last_copy occ o ↔ (MIN_REPEATED_SECTION_COUNT ≤ copies (heading o) occ)%nat ∧
    ∃ l1 l2, reverse occ = l1 ++ o :: l2 ∧ heading o ∉ map heading l1.
Proof.
  unfold last_copy. split; intros [Hc (l1 & l2 & Heq & Hn)]; (split; [done|]);
    exists (reverse l2), (reverse l1).
  - rewrite Heq, reverse_app, reverse_cons, <- app_assoc. split; [done|].
    intros H. apply Hn. apply list_elem_of_In in H. apply list_elem_of_In.
    rewrite in_map_iff in *. destruct H as (x & Hx & Hi). exists x. split; [done|].
    apply list_elem_of_In. apply list_elem_of_In in Hi. by rewrite elem_of_reverse in Hi.
  - rewrite <- (reverse_involutive occ), Heq, reverse_app, reverse_cons, <- app_assoc.
    split; [done|]. intros H. apply Hn. apply list_elem_of_In in H. apply list_elem_of_In.
    rewrite in_map_iff in *. destruct H as (x & Hx & Hi). exists x. split; [done|].
    apply list_elem_of_In. apply list_elem_of_In in Hi. by rewrite elem_of_reverse in Hi.
Qed.

Lemma findLastRepeated_spec text :
  let occ := getSectionOccurrences text in
  match findLastRepeatedSectionRunStart text with
  | None => ∀ o, ¬ last_copy occ o
  | Some i => (∃ o, index o = i ∧ last_copy occ o) ∧ ∀ o, last_copy occ o → (i ≤ index o)%nat
  end.
Proof.
  intros occ. unfold findLastRepeatedSectionRunStart. fold occ.
  assert (∀ i, i ∈ last_repeated (getHeadingCounts occ) (reverse occ) [] ↔
               ∃ o, index o = i ∧ last_copy occ o) as H.
  { intros i. rewrite last_repeated_spec. setoid_rewrite last_copy_reverse.
    setoid_rewrite getHeadingCounts_copies. split.
    - intros (l1 & o & l2 & ? & ? & ? & _ & ?). exists o. split_and!; [done|done|]. by exists l1, l2.
    - intros (o & ? & ? & l1 & l2 & ? & ?). exists l1, o, l2. split_and!; try done. set_solver. }
  destruct (last_repeated _ _ _) as [|i rest] eqn:E.
  - intros o Ho. assert (index o ∈ @nil nat) as Hin by (apply H; by exists o). set_solver.
  - destruct (foldl_min_spec i rest) as [H1 H2]. split; [by apply H|].
    intros o Ho. apply H2. apply H. by exists o.
Qed.

Lemma scan_headings_at s pos bol skip o :
  o ∈ scan_headings s pos bol skip →
  ∃ k, index o = (pos + k)%nat ∧ startsWith (drop k s) (heading o) = true.
Proof.
  revert pos bol skip. induction s as [|c s IH]; intros pos bol skip; [set_solver|].
  assert (∀ b n, o ∈ scan_headings s (S pos) b n →
    ∃ k, index o = (pos + k)%nat ∧ startsWith (drop k (c :: s)) (heading o) = true) as Hrest.
  { intros b n (k & -> & Hk)%IH. exists (S k). split; [lia|done]. }
  cbn [scan_headings]. destruct skip as [|k]; [|apply Hrest].
  destruct (if bol then heading_at (c :: s) else None) as [n|]; [|apply Hrest].
  intros [->|H]%elem_of_cons; [|by eapply Hrest].
  exists 0%nat. split; [simpl; lia|]. cbn [heading drop]. apply startsWith_true.
  exists (drop n (c :: s)). by rewrite take_drop.
Qed.

(** Collapsing the repeated sections of a long text cuts it at the start of
    a numbered heading that occurs at least three times, and the cut keeps the
    last copy of every such heading; short texts and texts without repeated
    headings are left alone. *)
Theorem collapse_keeps_last_copies text :
  let occ := getSectionOccurrences text in
  collapseRepeatedSectionSnapshots text = text ∨
  ∃ o, last_copy occ o ∧
    collapseRepeatedSectionSnapshots text = drop (index o) text ∧
    startsWith (collapseRepeatedSectionSnapshots text) (heading o) = true ∧
    (∀ o', last_copy occ o' → (index o ≤ index o')%nat).
Proof.
  intros occ. unfold collapseRepeatedSectionSnapshots.
  destruct (len text <? MIN_PREFIX_COLLAPSE_LENGTH); [by left|].
  pose proof (findLastRepeated_spec text) as H. cbn zeta in H. fold occ in H.
  destruct (findLastRepeatedSectionRunStart text) as [i|]; [|by left]. right.
  destruct H as [(o & <- & Ho) Hmin]. exists o. split_and!; [done|done| |done].
  assert (o ∈ occ) as Hin.
  { destruct Ho as [_ (l1 & l2 & -> & _)]. set_solver. }
  apply scan_headings_at in Hin as (k & -> & Hk). done.
Qed.

(** ** What loading restores *)

Definition within (n : Z) (m : Message) : Prop := Forall (λ v, len (content v) ≤ n) (versions m).

Lemma weave_length blocks v r :
  (length (concat (map fst blocks) ++ v) ≤ length (weave blocks v r))%nat.
Proof.
  induction blocks as [|[v0 r0] bs IH]; cbn [weave map concat fst].
  - simpl app at 1. rewrite length_app. lia.
  - rewrite !length_app in *. lia.
Qed.

Lemma normalized_versions vs :
  Forall (λ v, len (content v) ≤ MAX_LOADED_MESSAGE_CHARS) (map fst (map normalize_version vs)).
Proof.
  induction vs as [|v vs IH]; simpl; constructor; [|done].
  unfold normalize_version. cbn zeta.
  assert (H : len (truncateText (collapseRepeatedSectionSnapshots (content v)) MAX_LOADED_MESSAGE_CHARS)
              ≤ MAX_LOADED_MESSAGE_CHARS) by (by apply truncateText_length).
  dmatch; [|done]. bsplit. simpl. congruence.
Qed.

Lemma unchanged_versions vs :
  existsb snd (map normalize_version vs) = false → map fst (map normalize_version vs) = vs.
Proof.
  induction vs as [|v vs IH]; simpl; [done|]. intros [H1 H2]%orb_false_iff.
  rewrite IH by done. f_equal. unfold normalize_version in *. cbn zeta in *. by dmatch_in H1; rewrite ?Heqb.
Qed.

Lemma final_text_length s : len (final_text s) ≤ len s.
Proof.
  unfold final_text, len. destruct (includes s open_tag) eqn:E; [|done].
  destruct (think_loop_spec (S (length s)) s 0 [] []) as (bs & v & r & Hl & Hw & _); [lia|lia|].
  unfold parseThinkTags. rewrite E. cbn [negb]. rewrite Hl. cbn [visibleContent app].
  rewrite concat_nonempty_join, concat_visible, drop_0 in *.
  pose proof (trim_length (concat (map fst bs) ++ v)). pose proof (weave_length bs v r).
  apply (f_equal length) in Hw. lia.
Qed.

Lemma normalize_within now m :
  within MAX_LOADED_MESSAGE_CHARS (normalizeStoredMessageForLoad now m).1.
Proof.
  unfold normalizeStoredMessageForLoad. cbn zeta.
  set (changed := _ || _).
  set (n := if changed then _ else m).
  assert (Hn : within MAX_LOADED_MESSAGE_CHARS n).
  { subst n. destruct changed eqn:E; unfold within; simpl; [apply normalized_versions|].
    subst changed. apply orb_false_iff in E as [E _].
    rewrite <- (unchanged_versions _ E). apply normalized_versions. }
  destruct (negb (isAssistantMessagePending n)); [done|].
  destruct (negb (hasMessageContent n) && _); [done|]. simpl.
  unfold within. rewrite completeAssistantTiming_versions. simpl versions.
  rewrite finalizeMessage_versions. constructor; [|done]. simpl.
  pose proof (final_text_length (getMessageContent n)) as H.
  assert (len (getMessageContent n) ≤ MAX_LOADED_MESSAGE_CHARS); [|lia].
  unfold getMessageContent, getCurrentVersion. unfold within in Hn.
  destruct (versions n) as [|v vs]; [done|]. by inversion Hn.
Qed.

Lemma trimMessages_spec ms :
  (length (trimMessages ms) ≤ MAX_STORED_MESSAGES)%nat ∧ trimMessages ms `suffix_of` ms.
Proof.
  unfold trimMessages. case_bool_decide as H; [done|]. rewrite length_drop. split; [lia|].
  exists (take (length ms - MAX_STORED_MESSAGES) ms). by rewrite take_drop.
Qed.

Lemma sanitize_length t ms now : length (sanitizeMessagesOnLoad t ms now) = length ms.
Proof. unfold sanitizeMessagesOnLoad. repeat case_match; by rewrite ?length_insert. Qed.

Section load.
Context (has_room : store → jstr → jstr → bool) (messagesSchema : json → option (list Message)).
Context (t : jstr → jstr) (now : Z).

(** A restored history is bounded: at most 100 messages, and before the
    repair of an interrupted reply no version longer than 40000 characters
    and at most 120000 characters in all unless a single message remains. *)
Theorem loadMessages_bounded s out s' :
  loadMessages has_room messagesSchema t now s = (Some out, s') →
  (length out ≤ MAX_STORED_MESSAGES)%nat ∧
  ∃ history, out = sanitizeMessagesOnLoad t history now ∧
    Forall (within MAX_LOADED_MESSAGE_CHARS) history ∧
    (total_size history ≤ MAX_LOADED_MESSAGES_CHARS ∨ (length history ≤ 1)%nat).
Proof.
  unfold loadMessages. destruct (readStoredMessagesValue s) as [[|v|] s1]; [done| |done].
  destruct (messagesSchema _) as [parsed|]; [|done]. intros [= <- <-]. unfold restore.
  set (ns := map _ parsed).
  destruct (trimMessagesByContentSize_facts (trimMessages ns)) as (dropped & Hd & _ & Hb & _).
  destruct (trimMessages_spec ns) as [Hl [pre Hs]].
  rewrite sanitize_length. split.
  - apply (f_equal length) in Hd. rewrite length_app in Hd. lia.
  - eexists. split; [done|]. split; [|done].
    assert (Forall (within MAX_LOADED_MESSAGE_CHARS) ns) as Hns.
    { subst ns. apply Forall_map. apply Forall_true. intros. apply normalize_within. }
    rewrite Hs, Hd, app_assoc in Hns. by apply Forall_app in Hns as [_ ?].
Qed.

(** Loading always writes the history back: the test that is meant to
    save only a changed history compares the result of
    [trimMessagesByContentSize], a fresh array, with its argument. *)
Theorem load_always_writes_back s out s' :
  loadMessages has_room messagesSchema t now s = (Some out, s') →
  s' = saveMessages has_room messagesSchema out s.
Proof.
  unfold loadMessages. destruct (readStoredMessagesValue s) as [[|v|] s1] eqn:E; [done| |done].
  assert (s1 = s) as ->.
  { unfold readStoredMessagesValue in E. by repeat case_match; simplify_eq. }
  destruct (messagesSchema _) as [parsed|]; [|done]. intros [= <- <-].
  unfold load_changed. by rewrite orb_true_r.
Qed.
End load.

(** A schema that accepts an array and reads each element as the same user
    message, and a storage that holds one. *)
Definition demo_message : Message := createUserMessage (js "k") (js "v") (js "hello") 1.
Definition demo_schema (v : json) : option (list Message) :=
  match v with JArr l => Some (map (λ _, demo_message) l) | _ => None end.
Definition demo_store : store :=
  {[ KEY_MESSAGES := JSON_stringify (envelope (messages_json [demo_message])) ]}.
Definition demo_load : option (list Message) * store :=
  loadMessages (λ _ _ _, true) demo_schema (λ s, s) 5 demo_store.

Lemma loadMessages_bounded_witness :
  demo_load.1 = Some [demo_message] ∧ (length [demo_message] ≤ MAX_STORED_MESSAGES)%nat.
Proof.
  split; [vm_compute; reflexivity|].
  apply (loadMessages_bounded (λ _ _ _, true) demo_schema (λ s, s) 5 demo_store
           [demo_message] demo_load.2).
  vm_compute. reflexivity.
Defined.

Lemma load_always_writes_back_witness :
  demo_load.2 = saveMessages (λ _ _ _, true) demo_schema [demo_message] demo_store.
Proof.
  apply (load_always_writes_back (λ _ _ _, true) demo_schema (λ s, s) 5 demo_store
           [demo_message] demo_load.2).
  vm_compute. reflexivity.
Defined.
