(* ===== verification/StatusRules.v ===== *)
(** * HTTP status code rules

    Models [lib/http-status-code-rules.ts] (lists such as "401, 500-503" that
    say which upstream errors disable a channel or are retried) and
    [features/channels/lib/status-code-risk-guard.ts] (redirects of status codes
    that must not be redirected), with their properties. *)

From stdpp Require Import sorting.
From S2P Require Import Prelude StableSort JsValue.

Module HttpStatusCodeRules.

Record StatusCodeRange := mkRange { start : Z; end_ : Z }.

#[export] Instance StatusCodeRange_eq_dec : EqDecision StatusCodeRange.
Proof. solve_decision. Defined.

Record ParsedHttpStatusCodeRules := mkRules {
  ok : bool;
  ranges : list StatusCodeRange;
  tokens : list jstr;
  normalized : jstr;
  invalidTokens : list jstr;
}.

(** [/^\d+$/.test(s)] *)
Definition isNumber (s : jstr) : bool := truthy s && forallb is_digit s.

(** [Number.parseInt(s, 10)] on a string of digits. *)
Definition parseInt (s : jstr) : Z := Z.of_N (digits_value s).

Definition isValidCode (code : Z) : bool := (100 <=? code) && (code <=? 599).

(** [token.trim().replace(/\s/g, '')] *)
Definition cleaned (token : jstr) : jstr := List.filter (λ c, negb (is_ws c)) (trim token).

(** The two parts that [const [a, b] = cleaned.split('-')] binds. *)
Definition parseToken (token : jstr) : option StatusCodeRange :=
  let c := cleaned token in
  if negb (truthy c) then None
  else if includes c (js "-") then
    match split1 45 c with
    | a :: b :: _ =>
        if negb (isNumber a) || negb (isNumber b) then None
        else
          let s := parseInt a in
          let e := parseInt b in
          if negb (isValidCode s) || negb (isValidCode e) || (e <? s) then None
          else Some (mkRange s e)
    | _ => None
    end
  else if negb (isNumber c) then None
  else if negb (isValidCode (parseInt c)) then None
  else Some (mkRange (parseInt c) (parseInt c)).

Definition range_le (a b : StatusCodeRange) : Prop :=
  start a < start b ∨ (start a = start b ∧ end_ a ≤ end_ b).
#[export] Instance range_le_dec : RelDecision range_le.
Proof. intros a b. unfold range_le. apply _. Defined.

(** The reducer: [merged] with its last element updated in place. *)
Definition merge_step (merged : list StatusCodeRange) (current : StatusCodeRange)
    : list StatusCodeRange :=
  match merged !! (length merged - 1)%nat with
  | None => merged ++ [current]
  | Some last =>
      if end_ last + 1 <? start current then merged ++ [current]
      else take (length merged - 1) merged
           ++ [mkRange (start last) (Z.max (end_ last) (end_ current))]
  end.

Definition mergeRanges (rs : list StatusCodeRange) : list StatusCodeRange :=
  match rs with
  | [] => []
  | _ => foldl merge_step [] (stable_sort range_le rs)
  end.

Definition token_of (r : StatusCodeRange) : jstr :=
  if start r =? end_ r then digits_Z (start r) else digits_Z (start r) ++ js "-" ++ digits_Z (end_ r).

(** U+FF0C, the fullwidth comma. *)
Definition replace_fullwidth (s : jstr) : jstr := map (λ c, if (c =? 65292)%N then 44%N else c) s.

Definition segments (raw : jstr) : list jstr :=
  filter_truthy (map trim (split1 44 (replace_fullwidth raw))).

(** The loop over the segments: the parsed ranges and the invalid tokens. *)
Definition parse_segments (segs : list jstr) : list StatusCodeRange * list jstr :=
  foldl (λ '(rs, inv) seg,
    match parseToken seg with
    | None => (rs, inv ++ [seg])
    | Some r => (rs ++ [r], inv)
    end) ([], []) segs.

(** The input after [(input ?? '').toString()]. *)
Definition parseHttpStatusCodeRules (input : jstr) : ParsedHttpStatusCodeRules :=
  let raw := trim input in
  if negb (truthy raw) then mkRules true [] [] [] []
  else
    let '(rs, inv) := parse_segments (segments raw) in
    match inv with
    | _ :: _ => mkRules false [] [] raw inv
    | [] =>
        let merged := mergeRanges rs in
        let toks := map token_of merged in
        mkRules true merged toks (join (js ",") toks) []
    end.

End HttpStatusCodeRules.

Module StatusCodeRiskGuard.

Definition NON_REDIRECTABLE_STATUS_CODES : list Z := [504; 524].

(** [/^[1-5]\d{2}$/] *)
Definition is_code (s : jstr) : bool :=
  match s with
  | [a; b; c] => ((49 <=? a) && (a <=? 53))%N && is_digit b && is_digit c
  | _ => false
  end.

Definition parseStatusCodeKey (rawKey : jstr) : option Z :=
  let n := trim rawKey in
  if negb (is_code n) then None else Some (Z.of_N (digits_value n)).

(** An integer between 100 and 599, as an integer. *)
Definition code_of_num (n : jsnum) : option Z :=
  if isInteger n && num_leb (num_of_Z 100) n && num_leb n (num_of_Z 599)
  then List.find (λ z, num_eqb (num_of_Z z) n) (map Z.of_nat (seq 100 500))
  else None.

Definition parseStatusCodeMappingTarget (rawValue : json) : option Z :=
  match rawValue with
  | JNum n => code_of_num n
  | JStr s =>
      let n := trim s in
      if negb (is_code n) then None
      else let code := Z.of_N (digits_value n) in
           if (100 <=? code) && (code <=? 599) then Some code else None
  | _ => None
  end.

(** [None] where the functions return early. *)
Definition mapping_entries (s : jstr) : option (list (jstr * json)) :=
  if negb (truthy (trim s)) then None
  else match JSON_parse s with Some (JObj fields) => Some fields | _ => None end.

Definition collectInvalidStatusCodeEntries (s : jstr) : list jstr :=
  match mapping_entries s with
  | None => []
  | Some fields =>
      concat (map (λ '(rawKey, rawValue),
        match parseStatusCodeKey rawKey, parseStatusCodeMappingTarget rawValue with
        | Some _, Some _ => []
        | _, _ => [rawKey ++ [32%N; 8594%N; 32%N] ++ json_to_string rawValue]
        end) fields)
  end.

Definition risky_mapping (e : jstr * json) : list jstr :=
  match parseStatusCodeKey e.1, parseStatusCodeMappingTarget e.2 with
  | Some fromCode, Some toCode =>
      if negb (bool_decide (fromCode ∈ NON_REDIRECTABLE_STATUS_CODES)) then []
      else if fromCode =? toCode then []
      else [digits_Z fromCode ++ js " -> " ++ digits_Z toCode]
  | _, _ => []
  end.

(** The default order of [sort()]: by code units. *)
Fixpoint str_leb (a b : jstr) : bool :=
  match a, b with
  | [], _ => true
  | _ :: _, [] => false
  | x :: a', y :: b' => (x <? y)%N || ((x =? y)%N && str_leb a' b')
  end.
Definition str_le (a b : jstr) : Prop := str_leb a b = true.
#[export] Instance str_le_dec : RelDecision str_le.
Proof. intros a b. unfold str_le. apply _. Defined.

Definition collectDisallowedStatusCodeRedirects (s : jstr) : list jstr :=
  match mapping_entries s with
  | None => []
  | Some fields => stable_sort str_le (dedup (concat (map risky_mapping fields)))
  end.

Definition collectNewDisallowedStatusCodeRedirects (originalStr currentStr : jstr) : list jstr :=
  let currentRisky := collectDisallowedStatusCodeRedirects currentStr in
  match currentRisky with
  | [] => []
  | _ => filter (λ m, m ∉ collectDisallowedStatusCodeRedirects originalStr) currentRisky
  end.

End StatusCodeRiskGuard.

Import HttpStatusCodeRules.

(** ** Merging *)

Definition covers (rs : list StatusCodeRange) (c : Z) : Prop := ∃ r, r ∈ rs ∧ start r ≤ c ≤ end_ r.

(** Non-empty ranges in ascending order with a gap between neighbours. *)
Fixpoint canonical (rs : list StatusCodeRange) : Prop :=
  match rs with
  | [] => True
  | r :: rest => start r ≤ end_ r ∧
                 match rest with [] => True | r' :: _ => end_ r + 1 < start r' end ∧ canonical rest
  end.

#[export] Instance range_le_total : Total range_le.
Proof. intros a b. unfold range_le. lia. Qed.
#[export] Instance range_le_trans : Transitive range_le.
Proof. intros a b c. unfold range_le. lia. Qed.

Lemma canonical_cons a b l :
  canonical (a :: b :: l) ↔ start a ≤ end_ a ∧ end_ a + 1 < start b ∧ canonical (b :: l).
Proof. done. Qed.

Lemma canonical_snoc l r :
  canonical (l ++ [r]) ↔ canonical l ∧ start r ≤ end_ r ∧
    ∀ x, l !! (length l - 1)%nat = Some x → end_ x + 1 < start r.
Proof.
  induction l as [|a [|b l] IH].
  - simpl. naive_solver.
  - simpl. naive_solver.
  - change ((a :: b :: l) ++ [r]) with (a :: b :: (l ++ [r])). rewrite !canonical_cons.
    rewrite app_comm_cons, IH.
    replace (length (a :: b :: l) - 1)%nat with (S (length (b :: l) - 1)) by (simpl; lia).
    change ((a :: b :: l) !! S (length (b :: l) - 1)) with ((b :: l) !! (length (b :: l) - 1)%nat).
    naive_solver.
Qed.

Lemma covers_app l l' c : covers (l ++ l') c ↔ covers l c ∨ covers l' c.
Proof. unfold covers. set_solver. Qed.
Lemma covers_single r c : covers [r] c ↔ start r ≤ c ≤ end_ r.
Proof. unfold covers. set_solver. Qed.

Lemma last_split {A} (l : list A) x :
  l !! (length l - 1)%nat = Some x → l = take (length l - 1) l ++ [x].
Proof.
  intros H. rewrite <- (take_drop (length l - 1) l) at 1. f_equal.
  apply lookup_lt_Some in H as Hlt.
  rewrite (drop_S l x (length l - 1)) by done.
  rewrite drop_ge; [done|]. lia.
Qed.

(** One step of the reduction, on ranges that start no earlier than the last. *)
Lemma merge_step_spec merged r :
  canonical merged → start r ≤ end_ r →
  (∀ x, merged !! (length merged - 1)%nat = Some x → start x ≤ start r) →
  canonical (merge_step merged r) ∧
  (∀ x, merge_step merged r !! (length (merge_step merged r) - 1)%nat = Some x → start x ≤ start r) ∧
  ∀ c, covers (merge_step merged r) c ↔ covers merged c ∨ start r ≤ c ≤ end_ r.
Proof.
  intros Hc Hr Hord. unfold merge_step.
  destruct (merged !! (length merged - 1)%nat) as [x|] eqn:Hl.
  - pose proof (last_split merged x Hl) as Hsp. specialize (Hord x eq_refl).
    destruct (end_ x + 1 <? start r) eqn:E; bsplit.
    + split_and!.
      * apply canonical_snoc. split_and!; [done|done|]. rewrite Hl. by intros ? [= <-].
      * rewrite length_app. simpl. rewrite lookup_app_r by lia.
        replace (length merged + 1 - 1 - length merged)%nat with 0%nat by lia. by intros ? [= <-].
      * intros c. by rewrite covers_app, covers_single.
    + set (init := take (length merged - 1) merged) in *.
      rewrite Hsp in Hc. apply canonical_snoc in Hc as (Hci & Hx & Hgap). split_and!.
      * apply canonical_snoc. split_and!; [done|simpl; lia|]. simpl. done.
      * rewrite length_app. simpl. rewrite lookup_app_r by lia.
        replace (length init + 1 - 1 - length init)%nat with 0%nat by lia. by intros ? [= <-].
      * intros c. rewrite Hsp at 1. rewrite !covers_app, !covers_single. simpl.
        split; intros; [destruct H; [tauto|lia]|destruct H as [[?|?]|?]; [tauto|lia|lia]].
  - assert (merged = []) as ->.
    { apply lookup_ge_None_1 in Hl. destruct merged; [done|simpl in Hl; lia]. }
    simpl. split_and!; [done..|by intros ? [= <-]|].
    intros c. rewrite covers_single. unfold covers. set_solver.
Qed.

Lemma foldl_merge_spec rs merged :
  StronglySorted range_le rs → Forall (λ r, start r ≤ end_ r) rs →
  canonical merged →
  (∀ x r, merged !! (length merged - 1)%nat = Some x → r ∈ rs → start x ≤ start r) →
  canonical (foldl merge_step merged rs) ∧
  ∀ c, covers (foldl merge_step merged rs) c ↔ covers merged c ∨ covers rs c.
Proof.
  revert merged. induction rs as [|r rs IH]; intros merged Hs Hv Hc Hord; simpl.
  { split; [done|]. unfold covers at 3. set_solver. }
  inversion Hs as [|? ? Hs' Hall]; subst. inversion Hv; subst.
  destruct (merge_step_spec merged r) as (Hc1 & Hl1 & Hv1); [done|done| |].
  { intros x Hx. apply (Hord x r Hx). set_solver. }
  destruct (IH (merge_step merged r)) as [I1 I2]; [done|done|done| |].
  { intros x r' Hx Hr'. apply Hl1 in Hx. rewrite list.Forall_forall in Hall.
    specialize (Hall r' Hr'). unfold range_le in Hall. lia. }
  split; [done|]. intros c. rewrite I2, Hv1.
  change (r :: rs) with ([r] ++ rs). rewrite covers_app, covers_single. tauto.
Qed.

Lemma mergeRanges_facts rs :
  Forall (λ r, start r ≤ end_ r) rs →
  canonical (mergeRanges rs) ∧ ∀ c, covers (mergeRanges rs) c ↔ covers rs c.
Proof.
  intros Hv. assert (mergeRanges rs = foldl merge_step [] (stable_sort range_le rs)) as ->
    by by destruct rs.
  pose proof (stable_sort_perm range_le rs) as Hp.
  destruct (foldl_merge_spec (stable_sort range_le rs) []) as [H1 H2].
  - apply StronglySorted_stable_sort; apply _.
  - by rewrite Hp.
  - done.
  - done.
  - split; [done|]. intros c. rewrite H2. unfold covers. setoid_rewrite Hp. set_solver.
Qed.

(** Merging any list of non-empty ranges gives ascending, disjoint ranges
    with a gap between neighbours that cover exactly the same codes. *)
Theorem mergeRanges_spec rs :
  Forall (λ r, start r ≤ end_ r) rs →
  canonical (mergeRanges rs) ∧ ∀ c, covers (mergeRanges rs) c ↔ covers rs c.
Proof. apply mergeRanges_facts. Qed.

Lemma mergeRanges_spec_witness :
  canonical (mergeRanges [mkRange 500 503; mkRange 401 401; mkRange 504 599]) ∧
  ∀ c, covers (mergeRanges [mkRange 500 503; mkRange 401 401; mkRange 504 599]) c ↔
       covers [mkRange 500 503; mkRange 401 401; mkRange 504 599] c.
Proof. apply mergeRanges_spec. repeat constructor; simpl; lia. Defined.

(** ** Parsing *)

Lemma parseToken_valid token r :
  parseToken token = Some r → 100 ≤ start r ∧ start r ≤ end_ r ∧ end_ r ≤ 599.
Proof.
  unfold parseToken, isValidCode. cbn zeta. intros H.
  repeat (dmatch_in H; try done); simplify_eq; bsplit; simpl; lia.
Qed.

Lemma parsed_nonempty segs : Forall (λ r, start r ≤ end_ r) (omap parseToken segs).
Proof. apply list.Forall_forall. intros r (s & _ & Hr)%list_elem_of_omap. apply parseToken_valid in Hr. lia. Qed.

Lemma parse_segments_spec segs rs0 inv0 :
  foldl (λ '(rs, inv) seg,
    match parseToken seg with
    | None => (rs, inv ++ [seg])
    | Some r => (rs ++ [r], inv)
    end) (rs0, inv0) segs =
  (rs0 ++ omap parseToken segs, inv0 ++ filter (λ s, parseToken s = None) segs).
Proof.
  revert rs0 inv0. induction segs as [|seg segs IH]; intros rs0 inv0; simpl.
  { by rewrite !app_nil_r. }
  destruct (parseToken seg) as [r|] eqn:E; simpl; rewrite IH, <- app_assoc.
  - by rewrite filter_cons_False by (by rewrite E).
  - by rewrite filter_cons_True.
Qed.

(** A third part of a range is ignored: "400-500-999" is accepted and means
    400-500, although the server's parser rejects it. *)
Theorem extra_range_parts_are_ignored :
  parseHttpStatusCodeRules (js "400-500-999") =
    mkRules true [mkRange 400 500] [js "400-500"] (js "400-500") [].
Proof. vm_compute. reflexivity. Qed.

(** ** The normalized text parses back *)

Lemma digits_Z_nonneg z : 0 ≤ z → digits_Z z = digits (Z.to_N z).
Proof. intros H. unfold digits_Z. by rewrite (proj2 (Z.ltb_ge z 0)). Qed.

Lemma isNumber_digits n : isNumber (digits n) = true.
Proof.
  unfold isNumber. rewrite (proj2 (truthy_true _) (digits_nonempty n)). simpl.
  apply forallb_forall. intros c Hc. pose proof (digits_digits n) as H.
  rewrite list.Forall_forall in H. apply H. by apply list_elem_of_In.
Qed.

Lemma parseInt_digits z : 0 ≤ z → parseInt (digits_Z z) = z.
Proof.
  intros H. unfold parseInt. rewrite digits_Z_nonneg, digits_value_digits by done. lia.
Qed.

(** The characters of a token: digits and the dash. *)
Definition token_char (c : N) : Prop := is_digit c = true ∨ c = 45%N.

Lemma digits_Z_chars z : 0 ≤ z → Forall (λ c, is_digit c = true) (digits_Z z).
Proof. intros H. rewrite digits_Z_nonneg by done. apply digits_digits. Qed.

Lemma token_of_chars r : 0 ≤ start r → 0 ≤ end_ r → Forall token_char (token_of r).
Proof.
  intros Hs He. unfold token_of, token_char.
  assert (∀ z, 0 ≤ z → Forall (λ c, is_digit c = true ∨ c = 45%N) (digits_Z z)) as H.
  { intros z Hz. eapply list.Forall_impl; [by apply digits_Z_chars|]. tauto. }
  case_match; [by apply H|]. apply Forall_app. split; [by apply H|].
  apply Forall_app. split; [|by apply H]. constructor; [by right|constructor].
Qed.

Lemma token_char_plain c : token_char c → is_ws c = false ∧ c ≠ 44%N ∧ c ≠ 65292%N.
Proof.
  intros [H| ->]; [|done]. split; [by apply digit_not_ws|].
  unfold is_digit in H. apply andb_true_iff in H as [H1 H2]. apply N.leb_le in H1, H2. lia.
Qed.

Lemma cleaned_plain s : Forall token_char s → cleaned s = s.
Proof.
  intros H. unfold cleaned. rewrite trim_no_ws.
  - induction H as [|c s Hc _ IH]; [done|]. simpl.
    destruct (token_char_plain c Hc) as [-> _]. simpl. by rewrite IH.
  - eapply list.Forall_impl; [done|]. intros c Hc. by apply token_char_plain.
Qed.

Lemma no_dash s : Forall (λ c, is_digit c = true) s → 45%N ∉ s.
Proof. rewrite list.Forall_forall. intros H Hin. by specialize (H _ Hin). Qed.

Lemma includes_dash s : includes s (js "-") = true ↔ 45%N ∈ s.
Proof.
  rewrite includes_true. split.
  - intros (a & b & ->). set_solver.
  - intros (a & b & ->)%list_elem_of_split. by exists a, b.
Qed.

Lemma parseToken_token_of r :
  100 ≤ start r → start r ≤ end_ r → end_ r ≤ 599 → parseToken (token_of r) = Some r.
Proof.
  intros H1 H2 H3. unfold parseToken. rewrite cleaned_plain by (apply token_of_chars; lia). cbn zeta.
  unfold token_of. destruct r as [s e]. cbn [start end_] in *. destruct (Z.eqb_spec s e) as [->|Hne].
  - assert (truthy (digits_Z e) = true) as -> .
    { rewrite digits_Z_nonneg by lia. apply truthy_true, digits_nonempty. }
    assert (includes (digits_Z e) (js "-") = false) as ->.
    { apply not_true_iff_false. rewrite includes_dash. apply no_dash. apply digits_Z_chars. lia. }
    assert (isNumber (digits_Z e) = true) as ->.
    { rewrite digits_Z_nonneg by lia. apply isNumber_digits. }
    rewrite parseInt_digits by lia. unfold isValidCode.
    rewrite (proj2 (Z.leb_le 100 e)), (proj2 (Z.leb_le e 599)) by lia. done.
  - assert (includes (digits_Z s ++ js "-" ++ digits_Z e) (js "-") = true) as ->.
    { apply includes_dash. simpl. set_solver. }
    change (js "-" ++ digits_Z e) with (45%N :: digits_Z e).
    rewrite split1_app, split1_single by (apply no_dash, digits_Z_chars; lia).
    assert (∀ z, 0 ≤ z → isNumber (digits_Z z) = true) as Hnum.
    { intros z Hz. rewrite digits_Z_nonneg by lia. apply isNumber_digits. }
    rewrite !Hnum, !parseInt_digits by lia. unfold isValidCode.
    rewrite (proj2 (Z.leb_le 100 s)), (proj2 (Z.leb_le s 599)), (proj2 (Z.leb_le 100 e)),
      (proj2 (Z.leb_le e 599)), (proj2 (Z.ltb_ge e s)) by lia. cbn [negb orb andb].
    assert (truthy (digits_Z s ++ 45%N :: digits_Z e) = true) as ->; [|done].
    apply truthy_true. by destruct (digits_Z s).
Qed.

Lemma foldl_merge_canonical rs merged :
  canonical (merged ++ rs) → foldl merge_step merged rs = merged ++ rs.
Proof.
  revert merged. induction rs as [|r rs IH]; intros merged Hc; simpl; [by rewrite app_nil_r|].
  assert (merge_step merged r = merged ++ [r]) as ->.
  { change (r :: rs) with ([r] ++ rs) in Hc. rewrite app_assoc in Hc.
    assert (canonical (merged ++ [r])) as Hcr.
    { clear IH. revert Hc. generalize (merged ++ [r]). intros l. induction rs as [|x rs IHr] using rev_ind.
      - by rewrite app_nil_r.
      - rewrite app_assoc, canonical_snoc. naive_solver. }
    apply canonical_snoc in Hcr as (_ & _ & Hgap). unfold merge_step.
    destruct (merged !! _) as [x|]; [|done]. specialize (Hgap x eq_refl).
    by rewrite (proj2 (Z.ltb_lt _ _)) by lia. }
  rewrite IH; by rewrite <- app_assoc.
Qed.

Lemma canonical_sorted rs : canonical rs → StronglySorted range_le rs.
Proof.
  intros H. apply Sorted_StronglySorted; [apply _|].
  induction rs as [|a [|b rs] IH]; [constructor|constructor; constructor|].
  apply canonical_cons in H as (H1 & H2 & H3). constructor; [by apply IH|].
  constructor. unfold range_le. simpl in H3. lia.
Qed.

Lemma mergeRanges_canonical rs : canonical rs → mergeRanges rs = rs.
Proof.
  intros H. assert (mergeRanges rs = foldl merge_step [] (stable_sort range_le rs)) as ->
    by by destruct rs.
  assert (stable_sort range_le rs = rs) as ->.
  { apply (StronglySorted_unique_strong range_le).
    - intros [s e] [s' e'] _ _. unfold range_le. simpl. intros. f_equal; lia.
    - apply StronglySorted_stable_sort; apply _.
    - by apply canonical_sorted.
    - apply stable_sort_perm. }
  by apply (foldl_merge_canonical rs []).
Qed.

Definition in_bounds (r : StatusCodeRange) : Prop := 100 ≤ start r ∧ start r ≤ end_ r ∧ end_ r ≤ 599.

Lemma token_of_nonempty r : token_of r ≠ [].
Proof.
  unfold token_of, digits_Z. intros H. assert (∀ n, digits n ≠ []) as Hd by apply digits_nonempty.
  repeat case_match; try done; try (by apply app_eq_nil in H as [? _]; eapply Hd); by eapply Hd.
Qed.

Lemma segments_tokens rs :
  rs ≠ [] → Forall in_bounds rs →
  let text := join (js ",") (map token_of rs) in
  trim text = text ∧ truthy text = true ∧ segments text = map token_of rs.
Proof.
  intros Hne Hb text.
  assert (Htok : Forall (λ w, Forall token_char w ∧ w ≠ []) (map token_of rs)).
  { apply Forall_map. eapply list.Forall_impl; [done|]. intros r (? & ? & ?). split; [|apply token_of_nonempty].
    apply token_of_chars; lia. }
  assert (Hplain : Forall (λ c, is_ws c = false ∧ c ≠ 65292%N) text).
  { subst text. clear Hne Hb. induction Htok as [|w ws [Hw _] _ IH]; [done|].
    assert (Forall (λ c, is_ws c = false ∧ c ≠ 65292%N) w).
    { eapply list.Forall_impl; [done|]. intros c Hc%token_char_plain. tauto. }
    destruct ws as [|w' ws]; [done|]. rewrite join_cons by done.
    apply Forall_app; split; [done|]. constructor; [done|]. exact IH. }
  split_and!.
  - apply trim_no_ws. eapply list.Forall_impl; [done|]. by intros c [? _].
  - apply truthy_true. subst text. destruct rs as [|r rs]; [done|]. simpl.
    destruct (map token_of rs); [apply token_of_nonempty|].
    pose proof (token_of_nonempty r). by destruct (token_of r).
  - unfold segments.
    assert (replace_fullwidth text = text) as ->.
    { unfold replace_fullwidth. clear -Hplain. induction Hplain as [|c s [_ Hc] _ IH]; [done|]. simpl.
      rewrite IH. by destruct (N.eqb_spec c 65292). }
    subst text. change (js ",") with [44%N]. rewrite split1_join.
    + unfold filter_truthy. clear -Htok. induction Htok as [|w ws [Hw Hwn] _ IH]; [done|]. simpl.
      assert (trim w = w) as ->.
      { apply trim_no_ws. eapply list.Forall_impl; [done|]. intros c Hc%token_char_plain. tauto. }
      rewrite filter_cons_True by done. by rewrite IH.
    + by destruct rs.
    + eapply list.Forall_impl; [done|]. intros w [Hw _] Hin. rewrite list.Forall_forall in Hw.
      apply Hw, token_char_plain in Hin. tauto.
Qed.

Lemma canonical_rules_parse rs :
  canonical rs → Forall in_bounds rs →
  parseHttpStatusCodeRules (join (js ",") (map token_of rs)) =
    mkRules true rs (map token_of rs) (join (js ",") (map token_of rs)) [].
Proof.
  intros Hc Hb. destruct (decide (rs = [])) as [->|Hne]; [done|].
  destruct (segments_tokens rs Hne Hb) as (Ht & Htr & Hseg).
  unfold parseHttpStatusCodeRules. cbn zeta. rewrite Ht, Htr. simpl negb. cbn iota.
  rewrite Hseg. unfold parse_segments. rewrite parse_segments_spec. simpl.
  assert (omap parseToken (map token_of rs) = rs ∧ filter (λ s, parseToken s = None) (map token_of rs) = [])
    as [-> ->].
  { clear -Hb. induction Hb as [|r rs (H1 & H2 & H3) _ [IH1 IH2]]; [done|].
    cbn [map]. split.
    - cbn [omap list_omap]. rewrite parseToken_token_of by done. f_equal. exact IH1.
    - rewrite filter_cons_False; [exact IH2|]. by rewrite parseToken_token_of. }
  by rewrite mergeRanges_canonical.
Qed.

Lemma parsed_ranges_bounded input :
  canonical (ranges (parseHttpStatusCodeRules input)) ∧
  Forall in_bounds (ranges (parseHttpStatusCodeRules input)).
Proof.
  unfold parseHttpStatusCodeRules. cbn zeta. destruct (negb _); [done|].
  unfold parse_segments. rewrite parse_segments_spec. simpl.
  destruct (filter _ _); [|done]. simpl.
  set (rs := omap parseToken _).
  assert (Hb : Forall in_bounds rs).
  { apply list.Forall_forall. intros r (s & _ & Hr)%list_elem_of_omap. by apply parseToken_valid in Hr. }
  destruct (mergeRanges_facts rs) as [Hc Hcov].
  { eapply list.Forall_impl; [done|]. intros r (? & ? & ?). lia. }
  split; [done|]. apply list.Forall_forall. intros r Hr.
  assert (start r ≤ end_ r) as Hle.
  { clear -Hc Hr. induction (mergeRanges rs) as [|a [|b l] IH]; [set_solver| |].
    - apply list_elem_of_singleton in Hr as ->. simpl in Hc. lia.
    - apply canonical_cons in Hc as (? & _ & ?). apply elem_of_cons in Hr as [->|]; [done|]. by apply IH. }
  assert (∀ c, start r ≤ c ≤ end_ r → 100 ≤ c ≤ 599) as Hin.
  { intros c Hcr. assert (covers (mergeRanges rs) c) as (r' & Hr' & ?)%Hcov by (by exists r).
    rewrite list.Forall_forall in Hb. destruct (Hb r' Hr') as (? & ? & ?). lia. }
  pose proof (Hin (start r)). pose proof (Hin (end_ r)). unfold in_bounds. lia.
Qed.

(** The normalized text of accepted rules parses back to the same rules:
    saving and reopening a rule list changes nothing. *)
Theorem normalized_rules_round_trip input :
  ok (parseHttpStatusCodeRules input) = true →
  parseHttpStatusCodeRules (normalized (parseHttpStatusCodeRules input)) = parseHttpStatusCodeRules input.
Proof.
  intros Hok. destruct (parsed_ranges_bounded input) as [Hc Hb].
  assert (parseHttpStatusCodeRules input =
    mkRules true (ranges (parseHttpStatusCodeRules input))
      (map token_of (ranges (parseHttpStatusCodeRules input)))
      (join (js ",") (map token_of (ranges (parseHttpStatusCodeRules input)))) []) as E.
  { clear Hc Hb. revert Hok. unfold parseHttpStatusCodeRules. cbn zeta. destruct (negb _); [done|].
    destruct (parse_segments _) as [rs [|]]; done. }
  rewrite E at 1. simpl normalized. rewrite canonical_rules_parse by done. by rewrite E at 4.
Qed.

Lemma normalized_rules_round_trip_witness :
  parseHttpStatusCodeRules (js "401,500-503") = parseHttpStatusCodeRules (js "502-503, 401 ,500 - 502").
Proof. apply (normalized_rules_round_trip (js "502-503, 401 ,500 - 502")). vm_compute. reflexivity. Defined.

(** ** What a rule list means *)

(** A decimal numeral and its value. *)
Inductive decimal : jstr → Z → Prop :=
| decimal_digit c : (48 ≤ c ≤ 57)%N → decimal [c] (Z.of_N c - 48)
| decimal_more s n c : decimal s n → (48 ≤ c ≤ 57)%N → decimal (s ++ [c]) (10 * n + (Z.of_N c - 48)).

(** A text without its white space. *)
Definition squeezed (s : jstr) : jstr := List.filter (λ c, negb (is_ws c)) s.

(** White space left aside, a rule is a code or two codes in ascending order with
    a dash between them, all from 100 to 599; whatever follows a second dash is
    not looked at. *)
Definition denotes (rule : jstr) (lo hi : Z) : Prop :=
  100 ≤ lo ∧ lo ≤ hi ∧ hi ≤ 599 ∧
  ((decimal (squeezed rule) lo ∧ hi = lo) ∨
   ∃ a b rest, squeezed rule = a ++ js "-" ++ b ++ rest ∧ decimal a lo ∧ decimal b hi ∧
               (rest = [] ∨ ∃ more, rest = js "-" ++ more)).

(** The pieces of a text between its commas, ASCII or fullwidth. *)
Definition comma (c : N) : Prop := c = 44%N ∨ c = 65292%N.
Inductive comma_pieces : jstr → list jstr → Prop :=
| pieces_last s : Forall (λ c, ¬ comma c) s → comma_pieces s [s]
| pieces_more s c text ps : Forall (λ c, ¬ comma c) s → comma c → comma_pieces text ps →
    comma_pieces (s ++ c :: text) (s :: ps).

(** The pieces that are neither blank nor rules, trimmed, in order. *)
Inductive reported : list jstr → list jstr → Prop :=
| reported_nil : reported [] []
| reported_skip s ps invalid : squeezed s = [] ∨ (∃ lo hi, denotes s lo hi) → reported ps invalid →
    reported (s :: ps) invalid
| reported_keep s ps invalid : squeezed s ≠ [] → (∀ lo hi, ¬ denotes s lo hi) → reported ps invalid →
    reported (s :: ps) (trim s :: invalid).

Lemma is_digit_iff c : is_digit c = true ↔ (48 ≤ c ≤ 57)%N.
Proof. unfold is_digit. rewrite andb_true_iff, !N.leb_le. done. Qed.

Lemma decimal_iff s n : decimal s n ↔ isNumber s = true ∧ parseInt s = n.
Proof.
  assert (∀ s c, parseInt (s ++ [c]) = 10 * parseInt s + Z.of_N (c - 48)) as Hsnoc.
  { intros s' c. unfold parseInt. rewrite digits_value_app. unfold digits_value at 2. simpl. lia. }
  unfold isNumber. rewrite andb_true_iff, truthy_true, forallb_forall. split.
  - induction 1 as [c Hc|s n c _ [[_ IH] <-] Hc].
    + split; [split; [done|]; intros x [<-|[]]; by apply is_digit_iff|].
      change [c] with ([] ++ [c]). rewrite Hsnoc. change (parseInt []) with 0. lia.
    + split; [split; [by destruct s|]|].
      * intros x [Hx|[<-|[]]]%in_app_or; [by apply IH|by apply is_digit_iff].
      * rewrite Hsnoc. lia.
  - intros [[Hne Hd] <-]. induction s as [|c s IH] using rev_ind; [done|].
    assert (48 ≤ c ≤ 57)%N as Hc by (apply is_digit_iff, Hd, in_or_app; right; by left).
    rewrite Hsnoc. replace (Z.of_N (c - 48)) with (Z.of_N c - 48) by lia.
    destruct s as [|x s].
    + change (parseInt []) with 0. replace (10 * 0 + (Z.of_N c - 48)) with (Z.of_N c - 48) by lia. by constructor.
    + constructor; [|done]. apply IH; [done|]. intros y Hy. apply Hd, in_or_app. by left.
Qed.

Lemma squeezed_blank w : Forall (λ c, is_ws c = true) w → squeezed w = [].
Proof. induction 1 as [|c w Hc _ IH]; [done|]. simpl. by rewrite Hc. Qed.

Lemma squeezed_trim s : squeezed (trim s) = squeezed s.
Proof.
  destruct (trim_infix s) as (a & b & E & Ha & Hb). rewrite E at 2. unfold squeezed. rewrite !List.filter_app.
  pose proof (squeezed_blank a Ha) as Ea. pose proof (squeezed_blank b Hb) as Eb. unfold squeezed in Ea, Eb.
  by rewrite Ea, Eb, app_nil_r.
Qed.

Lemma squeezed_nil s : squeezed s = [] ↔ trim s = [].
Proof.
  rewrite <- squeezed_trim. split; [|by intros ->].
  intros H. destruct (trim s) as [|c t] eqn:E; [done|].
  assert (is_ws c = false) as Hc.
  { apply (trim_start_head c (trim s) t). rewrite <- E. apply trim_start_trim_end, trim_start_idemp. }
  simpl in H. by rewrite Hc in H.
Qed.

Lemma no_dash_decimal s n : decimal s n → 45%N ∉ s.
Proof.
  rewrite decimal_iff. intros [[_ Hd]%andb_true_iff _] Hin. rewrite forallb_forall in Hd.
  apply list_elem_of_In, Hd in Hin. done.
Qed.

(** The pieces a text has at its dashes. *)
Lemma split1_two c s a b more :
  split1 c s = a :: b :: more → ∃ rest, s = a ++ c :: b ++ rest ∧ (rest = [] ∨ ∃ r, rest = c :: r).
Proof.
  intros H. pose proof (join_split1 c s) as Hj. rewrite H in Hj. destruct more as [|d more].
  - exists []. split; [|by left]. by rewrite <- Hj, app_nil_r.
  - exists (c :: join [c] (d :: more)). split; [|right; by eexists]. rewrite <- Hj. done.
Qed.

(** [parseToken] decides the meaning. *)
Lemma parseToken_denotes rule lo hi : parseToken rule = Some (mkRange lo hi) ↔ denotes rule lo hi.
Proof.
  unfold parseToken, denotes, cleaned. cbn zeta. fold (squeezed (trim rule)). rewrite squeezed_trim.
  set (text := squeezed rule). unfold isValidCode. split.
  - intros H. destruct (truthy text) eqn:Et; [cbn [negb] in H|done].
    destruct (includes text (js "-")) eqn:Ei.
    + destruct (split1 45 text) as [|a [|b more]] eqn:Es; [done|done|].
      destruct (isNumber a) eqn:Ha; [|done]. destruct (isNumber b) eqn:Hb; [|done].
      cbn [negb orb] in H. destruct (_ || _) eqn:Eb in H; [done|]. injection H as <- <-. bsplit.
      split_and!; [lia|lia|lia|]. right.
      destruct (split1_two _ _ _ _ _ Es) as (rest & -> & Hr). exists a, b, rest.
      split_and!; [done|by apply decimal_iff|by apply decimal_iff|done].
    + destruct (isNumber text) eqn:En; [cbn [negb] in H|done].
      destruct (_ && _) eqn:Eb in H; [|done]. injection H as <- <-. bsplit.
      split_and!; [lia|lia|lia|]. left. split; [by apply decimal_iff|done].
  - intros (H1 & H2 & H3 & [[Hd ->]|(a & b & rest & Htext & Ha & Hb & Hr)]).
    + pose proof (no_dash_decimal _ _ Hd) as Hn. apply decimal_iff in Hd as [Hnum <-].
      assert (truthy text = true) as -> by (by apply andb_true_iff in Hnum as [? _]).
      assert (includes text (js "-") = false) as -> by (apply not_true_iff_false; by rewrite includes_dash).
      rewrite Hnum. cbn [negb].
      by rewrite (proj2 (Z.leb_le _ _) H1), (proj2 (Z.leb_le _ _) H3).
    + pose proof (no_dash_decimal _ _ Ha) as Hna. pose proof (no_dash_decimal _ _ Hb) as Hnb.
      change (a ++ js "-" ++ b ++ rest) with (a ++ 45%N :: b ++ rest) in Htext. rewrite Htext.
      assert (∃ more, split1 45 (a ++ 45%N :: b ++ rest) = a :: b :: more) as [more ->].
      { rewrite split1_app by done. destruct Hr as [->|[r ->]].
        - rewrite app_nil_r, split1_single by done. by eexists.
        - change (js "-" ++ r) with (45%N :: r). rewrite split1_app by done. by eexists. }
      assert (truthy (a ++ 45%N :: b ++ rest) = true) as -> by (apply truthy_true; by destruct a).
      assert (includes (a ++ 45%N :: b ++ rest) (js "-") = true) as -> by (apply includes_dash; set_solver).
      apply decimal_iff in Ha as [-> <-], Hb as [-> <-]. cbn [negb orb].
      by rewrite !(proj2 (Z.leb_le _ _)), (proj2 (Z.ltb_ge _ _)) by lia.
Qed.

Lemma parseToken_trim s : parseToken (trim s) = parseToken s.
Proof. unfold parseToken, cleaned. by rewrite trim_idemp. Qed.

Lemma parseToken_None s : parseToken s = None ↔ ∀ lo hi, ¬ denotes s lo hi.
Proof.
  setoid_rewrite <- parseToken_denotes. destruct (parseToken s) as [[lo hi]|]; [|done].
  split; [done|]. intros H. by destruct (H lo hi).
Qed.

(** Splitting at commas. *)
Lemma split_comma_pieces raw : comma_pieces raw (split1 44 (replace_fullwidth raw)).
Proof.
  induction raw as [|x raw IH]; [by repeat constructor|]. cbn [replace_fullwidth map].
  fold (replace_fullwidth raw). cbn [split1]. destruct (decide (comma x)) as [Hx|Hx].
  - replace ((if (x =? 65292)%N then 44%N else x) =? 44)%N with true
      by (destruct Hx as [->| ->]; done).
    apply (pieces_more [] x); [constructor|done|done].
  - assert (x ≠ 44%N ∧ x ≠ 65292%N) as [H1 H2] by (unfold comma in Hx; tauto).
    apply N.eqb_neq in H1, H2. rewrite H2, H1.
    inversion IH as [s Hs E1 E2|s c text ps Hs Hc Hps E1 E2].
    + apply pieces_last. by constructor.
    + apply (pieces_more (x :: s) c); [by constructor|done|done].
Qed.

(** The segments of the code report and cover what the pieces do. *)
Lemma segments_reported ps :
  reported ps (filter (λ s, parseToken s = None) (filter_truthy (map trim ps))) ∧
  ∀ lo hi, (∃ s, s ∈ filter_truthy (map trim ps) ∧ parseToken s = Some (mkRange lo hi)) ↔
           ∃ s, s ∈ ps ∧ denotes s lo hi.
Proof.
  unfold filter_truthy. induction ps as [|s ps [IH1 IH2]]; [split; [constructor|set_solver]|].
  cbn [map]. destruct (decide (trim s = [])) as [E|E].
  - rewrite (filter_cons_False (λ s, s ≠ [])) by naive_solver. split.
    + apply reported_skip; [left; by apply squeezed_nil|done].
    + intros lo hi. rewrite IH2. split; [set_solver|]. intros (s' & [->|Hs]%elem_of_cons & Hd); [|eauto].
      apply parseToken_denotes in Hd. rewrite <- parseToken_trim, E in Hd. done.
  - rewrite (filter_cons_True (λ s, s ≠ [])) by done. split.
    + destruct (parseToken (trim s)) as [[lo hi]|] eqn:Ep.
      * rewrite filter_cons_False by (by rewrite Ep). apply reported_skip; [|done]. right. exists lo, hi.
        apply parseToken_denotes. by rewrite <- parseToken_trim.
      * rewrite filter_cons_True by done. apply reported_keep; [by rewrite squeezed_nil| |done].
        apply parseToken_None. by rewrite <- parseToken_trim.
    + intros lo hi. setoid_rewrite elem_of_cons. specialize (IH2 lo hi).
      pose proof (parseToken_denotes s lo hi) as Hs. rewrite <- parseToken_trim in Hs. naive_solver.
Qed.

(** [C37] What parsing a rule list gives, for every text: cut at its commas, ASCII
    or fullwidth, its pieces are blank, rules, or invalid.  A rule is, white space
    left aside, a decimal code or two with a dash between, ascending, all from
    100 to 599; what follows a second dash is not looked at (the server rejects
    such a rule).  The invalid pieces are reported in order, trimmed; parsing
    succeeds exactly if there are none, and then the ranges are ascending,
    disjoint, with a gap between neighbours, and cover exactly the codes some rule
    denotes; otherwise there are no ranges. *)
Theorem parseHttpStatusCodeRules_spec input :
  let p := parseHttpStatusCodeRules input in
  ∃ ps, comma_pieces (trim input) ps ∧ reported ps (invalidTokens p) ∧
    ok p = bool_decide (invalidTokens p = []) ∧
    if ok p
    then canonical (ranges p) ∧
         ∀ c, covers (ranges p) c ↔ ∃ s lo hi, s ∈ ps ∧ denotes s lo hi ∧ lo ≤ c ≤ hi
    else ranges p = [].
Proof.
  intros p. subst p. unfold parseHttpStatusCodeRules. cbn zeta.
  set (raw := trim input). exists (split1 44 (replace_fullwidth raw)).
  split; [apply split_comma_pieces|]. destruct (segments_reported (split1 44 (replace_fullwidth raw))) as [Hrep Hden].
  fold (segments raw) in Hrep, Hden.
  destruct (truthy raw) eqn:Et; cbn [negb].
  - unfold parse_segments. rewrite parse_segments_spec. simpl.
    destruct (filter (λ s, parseToken s = None) (segments raw)) as [|x l] eqn:E; simpl; [|done].
    split_and!; [done|done| |].
    + apply mergeRanges_facts, parsed_nonempty.
    + intros c. rewrite (proj2 (mergeRanges_facts _ (parsed_nonempty (segments raw)))). unfold covers.
      setoid_rewrite list_elem_of_omap. split.
      * intros ([lo hi] & (s & Hs & Hp) & Hc). destruct (proj1 (Hden lo hi)) as (s' & ? & ?); [by exists s|].
        by exists s', lo, hi.
      * intros (s & lo & hi & Hs & Hd & Hc). destruct (proj2 (Hden lo hi)) as (s' & ? & ?); [by exists s|].
        exists (mkRange lo hi). split; [by exists s'|done].
  - apply truthy_false in Et. rewrite Et in *. simpl. split_and!; [|done|done|].
    + apply reported_skip; [by left|constructor].
    + intros c. split; [intros (r & Hr & _); set_solver|].
      intros (s & lo & hi & ->%list_elem_of_singleton & Hd & _). by apply parseToken_denotes in Hd.
Qed.

(** ** Status codes that must not be redirected *)

Import StatusCodeRiskGuard.

Lemma str_leb_total a b : str_leb a b = true ∨ str_leb b a = true.
Proof.
  revert b. induction a as [|x a IH]; intros [|y b]; simpl; [tauto..|].
  destruct (N.ltb_spec x y), (N.ltb_spec y x), (N.eqb_spec x y), (N.eqb_spec y x);
    simpl; try lia; subst; auto.
Qed.

#[export] Instance str_le_total : Total str_le.
Proof. intros a b. apply str_leb_total. Qed.

Lemma disallowed_elem s m :
  m ∈ collectDisallowedStatusCodeRedirects s ↔
  ∃ fields k v fromCode toCode, mapping_entries s = Some fields ∧ (k, v) ∈ fields ∧
    parseStatusCodeKey k = Some fromCode ∧ parseStatusCodeMappingTarget v = Some toCode ∧
    fromCode ∈ NON_REDIRECTABLE_STATUS_CODES ∧ fromCode ≠ toCode ∧
    m = digits_Z fromCode ++ js " -> " ++ digits_Z toCode.
Proof.
  unfold collectDisallowedStatusCodeRedirects. destruct (mapping_entries s) as [fields|].
  2:{ split; [set_solver|naive_solver]. }
  rewrite stable_sort_perm, dedup_elem. rewrite list_elem_of_In, in_concat.
  setoid_rewrite in_map_iff. setoid_rewrite <- list_elem_of_In. split.
  - intros (l & ([k v] & <- & Hkv) & Hm). unfold risky_mapping in Hm. simpl in Hm.
    destruct (parseStatusCodeKey k) as [f|] eqn:Ef; [|set_solver].
    destruct (parseStatusCodeMappingTarget v) as [g|] eqn:Eg; [|set_solver].
    case_bool_decide; simpl in Hm; [|set_solver].
    destruct (Z.eqb_spec f g); [set_solver|]. apply list_elem_of_singleton in Hm.
    by exists fields, k, v, f, g.
  - intros (? & k & v & f & g & [= <-] & Hkv & Ef & Eg & Hin & Hne & ->).
    exists (risky_mapping (k, v)). split; [by exists (k, v)|]. unfold risky_mapping. simpl.
    rewrite Ef, Eg, bool_decide_eq_true_2 by done. simpl.
    rewrite (proj2 (Z.eqb_neq f g)) by done. by apply list_elem_of_singleton.
Qed.

(** The reported redirects are exactly those of a non-redirectable code to a
    different valid code, in order and without repetition; an edit is warned
    about exactly for those it adds. *)
Theorem disallowed_redirects_spec original current m :
  (m ∈ collectNewDisallowedStatusCodeRedirects original current ↔
   m ∈ collectDisallowedStatusCodeRedirects current ∧
   m ∉ collectDisallowedStatusCodeRedirects original) ∧
  NoDup (collectDisallowedStatusCodeRedirects current) ∧
  Sorted str_le (collectDisallowedStatusCodeRedirects current) ∧
  (m ∈ collectDisallowedStatusCodeRedirects current ↔
   ∃ fields k v fromCode toCode, mapping_entries current = Some fields ∧ (k, v) ∈ fields ∧
     parseStatusCodeKey k = Some fromCode ∧ parseStatusCodeMappingTarget v = Some toCode ∧
     fromCode ∈ NON_REDIRECTABLE_STATUS_CODES ∧ fromCode ≠ toCode ∧
     m = digits_Z fromCode ++ js " -> " ++ digits_Z toCode).
Proof.
  split_and!; [| | |apply disallowed_elem].
  - unfold collectNewDisallowedStatusCodeRedirects. cbn zeta.
    destruct (collectDisallowedStatusCodeRedirects current) as [|x l] eqn:E; [set_solver|].
    rewrite list_elem_of_filter. tauto.
  - unfold collectDisallowedStatusCodeRedirects. destruct (mapping_entries current); [|constructor].
    rewrite stable_sort_perm. apply dedup_NoDup.
  - unfold collectDisallowedStatusCodeRedirects. destruct (mapping_entries current); [|constructor].
    apply Sorted_stable_sort. apply _.
Qed.

Example disallowed_redirects_ex :
  collectDisallowedStatusCodeRedirects (jq "{'504':'200','524':500,'404':'200','504 ':504}")
  = [js "504 -> 200"; js "524 -> 500"].
Proof. vm_compute. reflexivity. Qed.
