(* ===== verification/ModelMapping.v ===== *)
(** * Model lists and model mappings of a channel

    Models [features/channels/lib/model-mapping-validation.ts] and
    [features/channels/lib/upstream-update-utils.ts], with their properties.  A JavaScript [Set] is
    the list of its elements in insertion order. *)

From S2P Require Import Prelude JsValue.

Module ModelMappingValidation.

Definition parseModelsString (modelsStr : jstr) : list jstr :=
  if truthy modelsStr then filter_truthy (map trim (split1 44 modelsStr)) else [].

Definition formatModelsArray (models : list jstr) : jstr := join (js ",") (dedup models).

Definition normalizeModelName (model : jstr) : jstr := trim model.

(** A JSON object, where the functions go on; [None] where they give up. *)
Definition parse_object (s : jstr) : option (list (jstr * json)) :=
  match JSON_parse s with Some (JObj fields) => Some fields | _ => None end.

Definition extractMappingSourceModels (modelMapping : jstr) : list jstr :=
  let trimmed := trim modelMapping in
  if negb (truthy trimmed) then []
  else match parse_object trimmed with
       | None => []
       | Some fields => dedup (filter_truthy (map trim (obj_keys fields)))
       end.

(** [typeof value === 'string' ? value.trim() : undefined], then the truthy
    ones. *)
Definition string_values (vs : list json) : list jstr :=
  omap (λ v, match v with
             | JStr s => if truthy (trim s) then Some (trim s) else None
             | _ => None
             end) vs.

Definition extractRedirectModels (modelMapping : jstr) : list jstr :=
  let trimmed := trim modelMapping in
  if negb (truthy trimmed) then []
  else match parse_object trimmed with
       | None => []
       | Some fields => dedup (string_values (obj_values fields))
       end.

Definition hasModelConfigChanged (currentModels : list jstr) (currentModelMapping : jstr)
    (initialModels : list jstr) (initialModelMapping : jstr) : bool :=
  if bool_decide (initialModels = []) && negb (truthy initialModelMapping) then true
  else if negb (bool_decide (length currentModels = length initialModels)) then true
  else if existsb (λ '(a, b), negb (a === b)) (zip currentModels initialModels) then true
  else negb (trim currentModelMapping === trim initialModelMapping).

Definition findMissingModelsInMapping (modelMapping : jstr) (currentModels : list jstr) : list jstr :=
  if negb (truthy modelMapping) || (trim modelMapping === []) then []
  else match parse_object modelMapping with
       | None => []
       | Some fields =>
           let modelSet := dedup (map normalizeModelName currentModels) in
           dedup (filter (λ key, key ≠ [] ∧ key ∉ modelSet) (map normalizeModelName (obj_keys fields)))
       end.

Record validation := mkValidation { valid : bool; error : option jstr }.

Definition is_string (v : json) : bool := match v with JStr _ => true | _ => false end.

Definition validateModelMappingJson (modelMapping : jstr) : validation :=
  if negb (truthy modelMapping) || (trim modelMapping === []) then mkValidation true None
  else match JSON_parse modelMapping with
       | None => mkValidation false (Some (js "Model mapping must be valid JSON format"))
       | Some (JObj fields) =>
           if existsb (λ v, negb (is_string v)) (obj_values fields)
           then mkValidation false (Some (js "Model mapping values must be strings"))
           else mkValidation true None
       | Some _ => mkValidation false (Some (js "Model mapping must be a valid JSON object"))
       end.

Definition findExposedTargetModels (modelMapping : jstr) (currentModels : list jstr) : list jstr :=
  let redirectModels := extractRedirectModels modelMapping in
  match redirectModels with
  | [] => []
  | _ => let modelSet := dedup (map normalizeModelName currentModels) in
         filter (λ m, normalizeModelName m ∈ modelSet) redirectModels
  end.

Record categories := mkCategories {
  normalizedCurrentModels : list jstr;
  normalizedRedirectModels : list jstr;
  classificationSet : list jstr;
  redirectOnlySet : list jstr;
}.

Definition categorizeModelsWithRedirect (currentModels redirectModels : list jstr) : categories :=
  let current := dedup (filter_truthy (map normalizeModelName currentModels)) in
  let redirect := dedup (filter_truthy (map normalizeModelName redirectModels)) in
  mkCategories current redirect (dedup (current ++ redirect))
    (dedup (filter (λ m, m ∉ current) redirect)).

End ModelMappingValidation.

Module UpstreamUpdate.

(** [String(model || '').trim()] *)
Definition model_text (model : json) : jstr :=
  trim (if json_truthy model then json_to_string model else []).

(** [None]: [(models || []).map] is not a function. *)
Definition normalizeModelList (models : json) : option (list jstr) :=
  if negb (json_truthy models) then Some []
  else match models with
       | JArr l => Some (dedup (filter_truthy (map model_text l)))
       | _ => None
       end.

Record meta := mkMeta {
  enabled : bool;
  pendingAddModels : list jstr;
  pendingRemoveModels : list jstr;
}.

Definition settings_object (settings : option json) : option json :=
  match settings with
  | Some (JObj fields) => Some (JObj fields)
  | Some (JStr s) => JSON_parse s
  | _ => None
  end.

Definition detected_key : jstr := js "upstream_model_update_last_detected_models".
Definition removed_key : jstr := js "upstream_model_update_last_removed_models".

(** [None]: the function throws. *)
Definition parseUpstreamUpdateMeta (settings : option json) : option meta :=
  match settings_object settings with
  | Some parsed =>
      if json_truthy parsed && typeof_object parsed then
        adds ← normalizeModelList (default JNull (jget detected_key parsed));
        removes ← normalizeModelList (default JNull (jget removed_key parsed));
        Some (mkMeta (match jget (js "upstream_model_update_check_enabled") parsed with
                      | Some (JBool true) => true
                      | _ => false
                      end) adds removes)
      else Some (mkMeta false [] [])
  | None => Some (mkMeta false [] [])
  end.

End UpstreamUpdate.

Import ModelMappingValidation.

(** ** Properties *)

Lemma filter_truthy_elem l s : s ∈ filter_truthy l ↔ s ≠ [] ∧ s ∈ l.
Proof. unfold filter_truthy. by rewrite list_elem_of_filter. Qed.

Lemma map_elem {A B} (f : A → B) l y : y ∈ map f l ↔ ∃ x, y = f x ∧ x ∈ l.
Proof. rewrite list_elem_of_In, in_map_iff. setoid_rewrite list_elem_of_In. naive_solver. Qed.

(** The names of a list, trimmed and without the empty one. *)
Definition names (l : list jstr) (s : jstr) : Prop := s ≠ [] ∧ ∃ x, x ∈ l ∧ s = trim x.

Lemma names_elem l s : s ∈ filter_truthy (map trim l) ↔ names l s.
Proof. rewrite filter_truthy_elem, map_elem. unfold names. naive_solver. Qed.

(** Categorizing the models of a channel computes the intended sets: both
    lists trimmed, without empty names or repetitions, their union, and the
    redirect targets that are not offered. *)
Theorem categorizeModelsWithRedirect_spec currentModels redirectModels :
  let c := categorizeModelsWithRedirect currentModels redirectModels in
  NoDup (normalizedCurrentModels c) ∧ NoDup (normalizedRedirectModels c) ∧
  NoDup (classificationSet c) ∧ NoDup (redirectOnlySet c) ∧
  (∀ s, s ∈ classificationSet c ↔ names currentModels s ∨ names redirectModels s) ∧
  (∀ s, s ∈ redirectOnlySet c ↔ names redirectModels s ∧ ¬ names currentModels s).
Proof.
  intros c. subst c. simpl. split_and!; try apply dedup_NoDup; intros s; rewrite dedup_elem.
  - rewrite elem_of_app, !dedup_elem, !names_elem. done.
  - rewrite list_elem_of_filter, !dedup_elem, !names_elem. tauto.
Qed.

(** For a mapping that is a JSON object, the missing models are its source
    names that the list does not offer, and the exposed ones its string targets
    that the list does offer; without such a mapping there are none. *)
Theorem mapping_checks_spec modelMapping currentModels s :
  (s ∈ findMissingModelsInMapping modelMapping currentModels ↔
   ∃ fields, parse_object modelMapping = Some fields ∧ trim modelMapping ≠ [] ∧
     names (obj_keys fields) s ∧ s ∉ map trim currentModels) ∧
  (s ∈ findExposedTargetModels modelMapping currentModels ↔
   ∃ fields v, parse_object (trim modelMapping) = Some fields ∧ JStr v ∈ obj_values fields ∧
     trim modelMapping ≠ [] ∧ s = trim v ∧ s ≠ [] ∧ s ∈ map trim currentModels).
Proof.
  split.
  - unfold findMissingModelsInMapping.
    destruct (truthy modelMapping) eqn:Et; simpl.
    2:{ apply truthy_false in Et as ->. split; [set_solver|]. by intros (? & _ & [] & _). }
    destruct (trim modelMapping === []) eqn:Ee.
    { apply jeqb_true in Ee. split; [set_solver|]. by intros (? & _ & [] & _). }
    assert (trim modelMapping ≠ []) by (intros E; by rewrite E in Ee).
    destruct (parse_object modelMapping) as [fields|]; [|split; [set_solver|naive_solver]].
    rewrite dedup_elem, list_elem_of_filter, dedup_elem, (map_elem _ (obj_keys fields)).
    unfold names, normalizeModelName. split.
    + intros [[Hne Hn] (x & -> & Hx)]. exists fields. split_and!; try done. by exists x.
    + intros (? & [= <-] & _ & [Hne (x & Hx & ->)] & Hn). split; [done|]. by exists x.
  - assert (s ∈ findExposedTargetModels modelMapping currentModels ↔
            s ∈ extractRedirectModels modelMapping ∧ trim s ∈ map trim currentModels) as ->.
    { unfold findExposedTargetModels. cbn zeta.
      destruct (extractRedirectModels modelMapping) as [|x l] eqn:E; [set_solver|].
      rewrite list_elem_of_filter, dedup_elem. unfold normalizeModelName. tauto. }
    unfold extractRedirectModels. cbn zeta. destruct (truthy (trim modelMapping)) eqn:Et; simpl.
    2:{ apply truthy_false in Et. split; [by intros [?%elem_of_nil _]|]. by intros (? & ? & _ & _ & [] & _). }
    apply truthy_true in Et. destruct (parse_object (trim modelMapping)) as [fields|].
    2:{ split; [by intros [?%elem_of_nil _]|]. by intros (? & ? & ? & _). }
    rewrite dedup_elem. unfold string_values. rewrite list_elem_of_omap. split.
    + intros [(v & Hv & Hs) Hin]. destruct v; try done.
      destruct (truthy (trim s0)) eqn:Ev; [|done]. injection Hs as <-. apply truthy_true in Ev.
      rewrite trim_idemp in Hin. by exists fields, s0.
    + intros (? & v & [= <-] & Hv & _ & -> & Hne & Hin). rewrite trim_idemp. split; [|done].
      exists (JStr v). split; [done|]. apply truthy_true in Hne. by rewrite Hne.
Qed.

Lemma trimmed_part c s w : w ∈ map trim (split1 c s) → c ∉ w ∧ trim w = w.
Proof.
  intros (x & -> & Hx)%map_elem. split; [|by rewrite trim_idemp].
  intros Hin. apply (split1_no_sep c s x Hx).
  destruct (trim_infix x) as (a & b & -> & _). set_solver.
Qed.

(** A model list survives the text field: formatting the parsed names and
    parsing the text again gives the same names without repetitions. *)
Theorem models_string_round_trip modelsStr :
  parseModelsString (formatModelsArray (parseModelsString modelsStr)) = dedup (parseModelsString modelsStr).
Proof.
  set (l := parseModelsString modelsStr).
  assert (Hl : ∀ w, w ∈ dedup l → w ≠ [] ∧ 44%N ∉ w ∧ trim w = w).
  { intros w Hw. rewrite dedup_elem in Hw. subst l. unfold parseModelsString in Hw.
    destruct (truthy modelsStr); [|set_solver]. apply filter_truthy_elem in Hw as [Hne Hw].
    split; [done|]. by apply (trimmed_part 44 modelsStr). }
  unfold formatModelsArray. generalize dependent (dedup l). clear l. intros l Hl.
  unfold parseModelsString. destruct (decide (l = [])) as [->|Hne]; [done|].
  assert (truthy (join (js ",") l) = true) as ->.
  { apply truthy_true. destruct l as [|w [|w' l]]; [done| |]; simpl.
    - apply Hl. set_solver.
    - intros [-> _]%app_eq_nil. by destruct (Hl []) as [[] _]; [set_solver|]. }
  change (js ",") with [44%N]. rewrite split1_join; [|done|].
  2:{ apply list.Forall_forall. intros w Hw. by destruct (Hl w Hw) as (_ & ? & _). }
  clear Hne. unfold filter_truthy. induction l as [|w l IH]; [done|]. simpl.
  destruct (Hl w) as (H1 & _ & ->); [set_solver|]. rewrite filter_cons_True by done. f_equal.
  apply IH. set_solver.
Qed.
