(* ===== verification/AdvancedCustom.v ===== *)
(** * Advanced custom channels

    Models [features/channels/lib/advanced-custom.ts] and the types it uses
    ([features/channels/types.ts]): the routes of an "advanced custom" channel,
    their normalization, validation, templates and defaults.  The [URL]
    constructor is a parameter that gives the host and the protocol of a URL, or
    nothing when it throws.  An optional field that is absent is [None]. *)

From S2P Require Import Prelude JsValue.

Module AdvancedCustom.

(** ** Data *)

Record AdvancedCustomRouteAuth := mkAuth {
  auth_type : option jstr;
  auth_name : option jstr;
  auth_value : option jstr;
}.

Record AdvancedCustomRoute := mkRoute {
  incoming_path : option jstr;
  upstream_path : option jstr;
  converter : option jstr;
  models : option (list jstr);
  auth : option AdvancedCustomRouteAuth;
}.

Record AdvancedCustomConfig := mkConfig { advanced_routes : option (list AdvancedCustomRoute) }.

Record AdvancedCustomValidationError := mkError { message : jstr; routeIndex : option nat }.

Record AdvancedCustomConverterDefaults := mkDefaults {
  default_upstream_path : jstr;
  default_auth : option AdvancedCustomRouteAuth;
}.

#[export] Instance Auth_eq_dec : EqDecision AdvancedCustomRouteAuth.
Proof. solve_decision. Defined.
#[export] Instance Route_eq_dec : EqDecision AdvancedCustomRoute.
Proof. solve_decision. Defined.

(** ** Constants *)

Definition ADVANCED_CUSTOM_MODEL_LIST_PATH : jstr := js "/v1/models".
Definition ADVANCED_CUSTOM_MODEL_LIST_LABEL : jstr := js "OpenAI Models".
Definition ADVANCED_CUSTOM_BALANCE_PATH : jstr := js "/v1/dashboard/billing/credit_grants".
Definition ADVANCED_CUSTOM_BALANCE_LABEL : jstr := js "Balance Query".

Definition conv_none : jstr := js "none".
Definition anthropic_to_chat : jstr := js "anthropic_messages_to_openai_chat_completions".
Definition chat_to_anthropic : jstr := js "openai_chat_completions_to_anthropic_messages".
Definition chat_to_responses : jstr := js "openai_chat_completions_to_openai_responses".
Definition responses_to_chat : jstr := js "openai_responses_to_openai_chat_completions".
Definition responses_to_gemini : jstr := js "openai_responses_to_gemini_generate_content".
Definition gemini_to_chat : jstr := js "gemini_generate_content_to_openai_chat_completions".
Definition chat_to_gemini : jstr := js "openai_chat_completions_to_gemini_generate_content".

Record ConverterOption := mkConverterOption {
  conv_value : jstr; conv_label : jstr; triggerLabel : jstr;
}.
Definition ADVANCED_CUSTOM_CONVERTER_OPTIONS : list ConverterOption := [
  mkConverterOption conv_none (js "Native forwarding") (js "Native forwarding");
  mkConverterOption anthropic_to_chat (js "Anthropic Messages to OpenAI Chat") (js "To OpenAI Chat");
  mkConverterOption chat_to_anthropic (js "OpenAI Chat to Anthropic Messages")
    (js "To Anthropic Messages");
  mkConverterOption chat_to_responses (js "OpenAI Chat to OpenAI Responses")
    (js "To OpenAI Responses");
  mkConverterOption responses_to_chat (js "OpenAI Responses to OpenAI Chat") (js "To OpenAI Chat");
  mkConverterOption responses_to_gemini (js "OpenAI Responses to Gemini Generate Content")
    (js "To Gemini Generate Content");
  mkConverterOption gemini_to_chat (js "Gemini Generate Content to OpenAI Chat")
    (js "To OpenAI Chat");
  mkConverterOption chat_to_gemini (js "OpenAI Chat to Gemini Generate Content")
    (js "To Gemini Generate Content")].

Record PathOption := mkPathOption { path_value : jstr; path_label : jstr }.
Definition ADVANCED_CUSTOM_INCOMING_PATH_OPTIONS : list PathOption := [
  mkPathOption (js "/v1/chat/completions") (js "OpenAI Chat");
  mkPathOption (js "/v1/responses") (js "OpenAI Responses");
  mkPathOption (js "/v1/responses/compact") (js "OpenAI Responses Compact");
  mkPathOption (js "/v1/alpha/search") (js "Codex Alpha Search");
  mkPathOption (js "/v1/embeddings") (js "OpenAI Embeddings");
  mkPathOption (js "/v1/images/generations") (js "OpenAI Image Generations");
  mkPathOption (js "/v1/images/edits") (js "OpenAI Image Edits");
  mkPathOption (js "/v1/completions") (js "OpenAI Completions");
  mkPathOption (js "/v1/audio/speech") (js "OpenAI Audio Speech");
  mkPathOption (js "/v1/audio/transcriptions") (js "OpenAI Audio Transcriptions");
  mkPathOption (js "/v1/audio/translations") (js "OpenAI Audio Translations");
  mkPathOption (js "/v1/rerank") (js "Rerank");
  mkPathOption (js "/v1/realtime") (js "OpenAI Realtime");
  mkPathOption (js "/v1/messages") (js "Claude Messages");
  mkPathOption (js "/v1beta/models/{model}:generateContent") (js "Gemini Generate Content");
  mkPathOption (js "/v1beta/models/{model}:embedContent") (js "Gemini Embed Content");
  mkPathOption (js "/v1beta/models/{model}:batchEmbedContents") (js "Gemini Batch Embed Contents")].

Definition ADVANCED_CUSTOM_ROUTE_SUMMARY_LABELS : list (jstr * jstr) := [
  (js "/v1/chat/completions", js "OpenAI Chat");
  (ADVANCED_CUSTOM_MODEL_LIST_PATH, ADVANCED_CUSTOM_MODEL_LIST_LABEL);
  (ADVANCED_CUSTOM_BALANCE_PATH, ADVANCED_CUSTOM_BALANCE_LABEL)].

Definition ADVANCED_CUSTOM_MODEL_REGEX_PREFIX : jstr := js "re:".
Definition openAIChatPath : jstr := js "/v1/chat/completions".
Definition openAIResponsesPath : jstr := js "/v1/responses".
Definition claudeMessagesPath : jstr := js "/v1/messages".
Definition geminiGenerateContentPath : jstr := js "/v1beta/models/{model}:generateContent".

Definition bearerHeaderAuth : AdvancedCustomRouteAuth :=
  mkAuth (Some (js "header")) (Some (js "Authorization")) (Some (js "Bearer {api_key}")).
Definition apiKeyHeaderAuth : AdvancedCustomRouteAuth :=
  mkAuth (Some (js "header")) (Some (js "x-api-key")) (Some (js "{api_key}")).
Definition geminiQueryAuth : AdvancedCustomRouteAuth :=
  mkAuth (Some (js "query")) (Some (js "key")) (Some (js "{api_key}")).

(** ** Templates *)

Definition native_route (a : AdvancedCustomRouteAuth) (path : jstr) : AdvancedCustomRoute :=
  mkRoute (Some path) (Some path) (Some conv_none) None (Some a).

Definition createOpenAINativeRoutes : list AdvancedCustomRoute :=
  map (native_route bearerHeaderAuth)
    [js "/v1/chat/completions"; js "/v1/completions"; js "/v1/responses"; js "/v1/responses/compact";
     js "/v1/embeddings"; js "/v1/images/generations"; js "/v1/images/edits"; js "/v1/audio/speech";
     js "/v1/audio/transcriptions"; js "/v1/audio/translations"; js "/v1/realtime"].
Definition createClaudeNativeRoutes : list AdvancedCustomRoute :=
  [native_route apiKeyHeaderAuth (js "/v1/messages")].
Definition createGeminiNativeRoutes : list AdvancedCustomRoute :=
  map (native_route geminiQueryAuth)
    [js "/v1beta/models/{model}:generateContent"; js "/v1beta/models/{model}:embedContent";
     js "/v1beta/models/{model}:batchEmbedContents"].
Definition createGatewayNativeRoutes : list AdvancedCustomRoute :=
  map (native_route bearerHeaderAuth) [js "/v1/alpha/search"; js "/v1/rerank"].

Record TemplateOption := mkTemplate { t_value : jstr; t_label : jstr; t_config : AdvancedCustomConfig }.
Definition all_protocols : TemplateOption :=
  mkTemplate (js "all_protocols") (js "All routes")
    (mkConfig (Some (createOpenAINativeRoutes ++ createClaudeNativeRoutes
                     ++ createGeminiNativeRoutes ++ createGatewayNativeRoutes))).
Definition ADVANCED_CUSTOM_TEMPLATE_OPTIONS : list TemplateOption := [
  all_protocols;
  mkTemplate (js "openai_only") (js "OpenAI only") (mkConfig (Some createOpenAINativeRoutes));
  mkTemplate (js "claude_only") (js "Claude only") (mkConfig (Some createClaudeNativeRoutes));
  mkTemplate (js "gemini_only") (js "Gemini only") (mkConfig (Some createGeminiNativeRoutes))].

(** The clone of a value is the value. *)
Definition cloneAdvancedCustomConfig (c : AdvancedCustomConfig) : AdvancedCustomConfig := c.

Definition getAdvancedCustomTemplateConfig (templateKey : jstr) : AdvancedCustomConfig :=
  cloneAdvancedCustomConfig (t_config (default all_protocols
    (List.find (λ o, t_value o === templateKey) ADVANCED_CUSTOM_TEMPLATE_OPTIONS))).

(** ** Normalization *)

(** [(x || '').trim()] and [x?.trim() || ''] agree. *)
Definition trimmed (s : option jstr) : jstr := trim (default [] s).

Definition getAdvancedCustomRouteUpstreamPath (r : AdvancedCustomRoute) : jstr :=
  trimmed (upstream_path r).

Definition normalizeAdvancedCustomRouteModels (ms : option (list jstr)) : list jstr :=
  match ms with
  | None => []
  | Some l => filter_truthy (map trim l)
  end.

Definition normalize_auth (a : AdvancedCustomRouteAuth) : AdvancedCustomRouteAuth :=
  mkAuth (auth_type a) (Some (default [] (auth_name a))) (Some (default [] (auth_value a))).

Definition normalizeAdvancedCustomRoute (r : AdvancedCustomRoute) : AdvancedCustomRoute :=
  let ms := normalizeAdvancedCustomRouteModels (models r) in
  mkRoute (Some (default [] (incoming_path r)))
    (Some (getAdvancedCustomRouteUpstreamPath r))
    (Some (opt_or_else (converter r) conv_none))
    (match ms with [] => None | _ => Some ms end)
    (normalize_auth <$> auth r).

Definition normalizeAdvancedCustomConfig (c : AdvancedCustomConfig) : AdvancedCustomConfig :=
  mkConfig (Some (map normalizeAdvancedCustomRoute (default [] (advanced_routes c)))).

Definition normalized_routes (c : AdvancedCustomConfig) : list AdvancedCustomRoute :=
  default [] (advanced_routes (normalizeAdvancedCustomConfig c)).

Definition parseAdvancedCustomRouteModels (value : jstr) : list jstr :=
  dedup (filter_truthy (map trim (split1 44 value))).

Inductive AdvancedCustomModelRuleKind := exact_rule | regex_rule.
Definition getAdvancedCustomModelRuleKind (modelRule : jstr) : AdvancedCustomModelRuleKind :=
  if startsWith modelRule ADVANCED_CUSTOM_MODEL_REGEX_PREFIX then regex_rule else exact_rule.
Definition getAdvancedCustomRegexModelPattern (modelRule : jstr) : jstr :=
  drop (length ADVANCED_CUSTOM_MODEL_REGEX_PREFIX) modelRule.

(** ** Management and forwarding routes *)

Definition isAdvancedCustomManagementPath (path : jstr) : bool :=
  (path === ADVANCED_CUSTOM_MODEL_LIST_PATH) || (path === ADVANCED_CUSTOM_BALANCE_PATH).

Definition route_path (r : AdvancedCustomRoute) : jstr := trimmed (incoming_path r).
Definition has_path (path : jstr) (r : AdvancedCustomRoute) : bool := route_path r === path.
Definition is_management (r : AdvancedCustomRoute) : bool :=
  isAdvancedCustomManagementPath (route_path r).

Definition getAdvancedCustomManagementRoute (c : AdvancedCustomConfig) (path : jstr)
    : option AdvancedCustomRoute :=
  List.find (has_path path) (normalized_routes c).

Fixpoint find_index {A} (P : A → bool) (l : list A) : option nat :=
  match l with
  | [] => None
  | x :: rest => if P x then Some 0%nat else S <$> find_index P rest
  end.

Definition management_route (path : jstr) (r : AdvancedCustomRoute) : AdvancedCustomRoute :=
  mkRoute (Some path) (Some (default [] (upstream_path r))) (Some conv_none) (Some []) (auth r).

Definition replaceAdvancedCustomManagementRoute (c : AdvancedCustomConfig) (path : jstr)
    (route : option AdvancedCustomRoute) : AdvancedCustomConfig :=
  let routes := normalized_routes c in
  let index := find_index (has_path path) routes in
  mkConfig (Some
    (match route, index with
     | None, Some i => take i routes ++ drop (S i) routes
     | None, None => routes
     | Some r, Some i => <[i := management_route path r]> routes
     | Some r, None => routes ++ [management_route path r]
     end)).

Definition replaceAdvancedCustomForwardingRoutes (c : AdvancedCustomConfig)
    (forwardingRoutes : list AdvancedCustomRoute) : AdvancedCustomConfig :=
  let routes := normalized_routes c in
  let managementRoutes := List.filter is_management routes in
  match find_index (λ r, negb (is_management r)) routes with
  | None => mkConfig (Some (managementRoutes ++ forwardingRoutes))
  | Some i => mkConfig (Some (List.filter is_management (take i routes) ++ forwardingRoutes
                              ++ List.filter is_management (drop i routes)))
  end.

Definition createAdvancedCustomRoute : AdvancedCustomRoute :=
  mkRoute (Some openAIChatPath) (Some openAIChatPath) (Some conv_none) None None.
Definition createAdvancedCustomConfig : AdvancedCustomConfig :=
  mkConfig (Some [createAdvancedCustomRoute]).
Definition createAdvancedCustomManagementRoute (path : jstr) : AdvancedCustomRoute :=
  mkRoute (Some path) (Some path) (Some conv_none) (Some []) None.

(** ** Converters *)

Definition isConverterPathAllowed (incomingPath conv : jstr) : bool :=
  if conv === conv_none then true
  else if incomingPath === js "/v1/alpha/search" then false
  else if conv === anthropic_to_chat then incomingPath === js "/v1/messages"
  else if (conv === chat_to_anthropic) || (conv === chat_to_responses) || (conv === chat_to_gemini)
  then incomingPath === js "/v1/chat/completions"
  else if conv === responses_to_chat then incomingPath === js "/v1/responses"
  else if conv === responses_to_gemini then incomingPath === js "/v1/responses"
  else includes incomingPath (js ":generateContent")
       || includes incomingPath (js ":streamGenerateContent").

Definition isAdvancedCustomConverter (value : jstr) : bool :=
  existsb (λ o, conv_value o === value) ADVANCED_CUSTOM_CONVERTER_OPTIONS.

Definition getAdvancedCustomIncomingPathOptions (conv : jstr) : list PathOption :=
  List.filter (λ o, isConverterPathAllowed (path_value o) conv) ADVANCED_CUSTOM_INCOMING_PATH_OPTIONS.

Definition getDefaultAdvancedCustomIncomingPath (conv : jstr) : jstr :=
  opt_or_else (path_value <$> head (getAdvancedCustomIncomingPathOptions conv))
    (js "/v1/chat/completions").

Definition isAdvancedCustomIncomingPathAllowed (incomingPath conv : jstr) : bool :=
  isConverterPathAllowed incomingPath conv.

Definition getAdvancedCustomConverterOptions (incomingPath : jstr) : list ConverterOption :=
  List.filter (λ o, (conv_value o === conv_none)
                    || isConverterPathAllowed (trim incomingPath) (conv_value o))
    ADVANCED_CUSTOM_CONVERTER_OPTIONS.

Definition getAdvancedCustomIncomingPathLabel (value : jstr) : jstr :=
  opt_or_else (path_label <$> List.find (λ o, path_value o === value)
                                ADVANCED_CUSTOM_INCOMING_PATH_OPTIONS) value.

Definition getAdvancedCustomNativeAuth (incomingPath : jstr) : AdvancedCustomRouteAuth :=
  if incomingPath === claudeMessagesPath then apiKeyHeaderAuth
  else if includes incomingPath (js ":generateContent")
          || includes incomingPath (js ":streamGenerateContent")
          || includes incomingPath (js ":embedContent")
          || includes incomingPath (js ":batchEmbedContents")
  then geminiQueryAuth
  else bearerHeaderAuth.

Definition getAdvancedCustomConverterDefaults (conv incomingPath : jstr)
    : AdvancedCustomConverterDefaults :=
  let normalizedIncomingPath :=
    or_else (trim incomingPath) (getDefaultAdvancedCustomIncomingPath conv) in
  if conv === conv_none
  then mkDefaults normalizedIncomingPath (Some (getAdvancedCustomNativeAuth normalizedIncomingPath))
  else if (conv === anthropic_to_chat) || (conv === gemini_to_chat) || (conv === responses_to_chat)
  then mkDefaults openAIChatPath (Some bearerHeaderAuth)
  else if conv === chat_to_responses then mkDefaults openAIResponsesPath (Some bearerHeaderAuth)
  else if conv === chat_to_anthropic then mkDefaults claudeMessagesPath (Some apiKeyHeaderAuth)
  else if (conv === chat_to_gemini) || (conv === responses_to_gemini)
  then mkDefaults geminiGenerateContentPath (Some geminiQueryAuth)
  else mkDefaults (or_else normalizedIncomingPath openAIChatPath)
         (Some (getAdvancedCustomNativeAuth normalizedIncomingPath)).

Definition getAdvancedCustomUpstreamPathPlaceholder (conv : jstr) (incomingPath : option jstr) : jstr :=
  default_upstream_path (getAdvancedCustomConverterDefaults conv
    (default (getDefaultAdvancedCustomIncomingPath conv) incomingPath)).

(** ** Authentication *)

Definition getAdvancedCustomAuthMode (r : AdvancedCustomRoute) : jstr :=
  opt_or_else (auth r ≫= auth_type) (js "default").

Definition buildAdvancedCustomAuth (mode : jstr) (previousAuth : option AdvancedCustomRouteAuth)
    : option AdvancedCustomRouteAuth :=
  let prev_name := previousAuth ≫= auth_name in
  let prev_value := previousAuth ≫= auth_value in
  if mode === js "default" then None
  else if mode === js "none" then Some (mkAuth (Some (js "none")) None None)
  else if mode === js "header" then
    Some (mkAuth (Some (js "header")) (Some (opt_or_else prev_name (js "Authorization")))
            (Some (opt_or_else prev_value (js "Bearer {api_key}"))))
  else Some (mkAuth (Some (js "query")) (Some (opt_or_else prev_name (js "api_key")))
               (Some (opt_or_else prev_value (js "{api_key}")))).

Definition validateRouteAuth (a : option AdvancedCustomRouteAuth) : option jstr :=
  match a with
  | None => None
  | Some a =>
      let type_is (s : jstr) := bool_decide (auth_type a = Some s) in
      if type_is (js "none") then None
      else if negb (type_is (js "header")) && negb (type_is (js "query"))
      then Some (js "Auth type is invalid")
      else if negb (truthy (trimmed (auth_name a))) then Some (js "Auth name is required")
      else if negb (truthy (trimmed (auth_value a))) then Some (js "Auth value is required")
      else None
  end.

(** ** Validation *)

(** What is known of an incoming path: the index of its catch-all route, and
    the route of each model rule. *)
Record path_state := mkPathState { catchAllIndex : option nat; path_models : gmap jstr nat }.

(** The loop over the models of one route. *)
Fixpoint check_models (index : nat) (ms : list jstr) (seenInRoute : list jstr)
    (known : gmap jstr nat) : jstr + gmap jstr nat :=
  match ms with
  | [] => inr known
  | m :: rest =>
      if match getAdvancedCustomModelRuleKind m with
         | regex_rule => getAdvancedCustomRegexModelPattern m === []
         | exact_rule => false
         end
      then inl (js "Model regex cannot be empty")
      else if bool_decide (m ∈ seenInRoute) then inl (js "Duplicate model in route models")
      else if bool_decide (is_Some (known !! m))
      then inl (js "Route models must be unique for the same incoming path")
      else check_models index rest (m :: seenInRoute) (<[m := index]> known)
  end.

(** The error, or the updated map; after an error the map is not used again. *)
Definition validateAdvancedCustomRouteModels (index : nat) (incomingPath : jstr) (ms : list jstr)
    (routeModelsByPath : gmap jstr path_state) : jstr + gmap jstr path_state :=
  let state := default (mkPathState None ∅) (routeModelsByPath !! incomingPath) in
  match ms with
  | [] =>
      match catchAllIndex state with
      | Some _ => inl (js "Only one catch-all route is allowed for the same incoming path")
      | None => inr (<[incomingPath := mkPathState (Some index) (path_models state)]> routeModelsByPath)
      end
  | _ =>
      match catchAllIndex state with
      | Some _ => inl (js "Catch-all route must be last for the same incoming path")
      | None =>
          match check_models index ms [] (path_models state) with
          | inl e => inl e
          | inr known => inr (<[incomingPath := mkPathState None known]> routeModelsByPath)
          end
      end
  end.

Record validation_state := mkState {
  routeModelsByPath : gmap jstr path_state;
  modelListRouteIndex : option nat;
  balanceRouteIndex : option nat;
}.

Section validate.
(** [new URL(value)]: host and protocol, or nothing when it throws. *)
Context (URL : jstr → option (jstr * jstr)).

Definition isFullHttpURLOrAbsolutePath (value : jstr) : bool :=
  if startsWith value (js "/") then negb (startsWith value (js "//"))
  else match URL value with
       | Some (host, protocol) =>
           truthy host && ((protocol === js "http:") || (protocol === js "https:"))
       | None => false
       end.

(** The checks of a management route. *)
Definition check_management (index : nat) (incomingPath upstreamPath conv : jstr)
    (routeModels : list jstr) (st : validation_state) : jstr + validation_state :=
  if negb (isAdvancedCustomManagementPath incomingPath) then inr st
  else
    let isModelListRoute := incomingPath === ADVANCED_CUSTOM_MODEL_LIST_PATH in
    let existingIndex := if isModelListRoute then modelListRouteIndex st else balanceRouteIndex st in
    let routeLabel := if isModelListRoute then js "OpenAI Models" else js "Balance Query" in
    if bool_decide (is_Some existingIndex) then inl (js "Only one " ++ routeLabel ++ js " route is allowed")
    else if negb (bool_decide (routeModels = []))
    then inl (routeLabel ++ js " route does not support client model rules")
    else if negb (conv === conv_none) then inl (routeLabel ++ js " route must use native forwarding")
    else if includes upstreamPath (js "{model}")
    then inl (routeLabel ++ js " upstream path must not contain {model}")
    else inr (if isModelListRoute
              then mkState (routeModelsByPath st) (Some index) (balanceRouteIndex st)
              else mkState (routeModelsByPath st) (modelListRouteIndex st) (Some index)).

(** One iteration of the loop: the message of the error, or the next state. *)
Definition validate_route (index : nat) (r : AdvancedCustomRoute) (st : validation_state)
    : jstr + validation_state :=
  let incomingPath := route_path r in
  let upstreamPath := getAdvancedCustomRouteUpstreamPath r in
  let conv := opt_or_else (converter r) conv_none in
  let routeModels := normalizeAdvancedCustomRouteModels (models r) in
  if negb (truthy incomingPath) then inl (js "Incoming path is required")
  else if negb (startsWith incomingPath (js "/")) then inl (js "Incoming path must start with /")
  else if includes incomingPath (js "?") then inl (js "Incoming path must not include query")
  else
    match check_management index incomingPath upstreamPath conv routeModels st with
    | inl e => inl e
    | inr st =>
        match validateAdvancedCustomRouteModels index incomingPath routeModels (routeModelsByPath st) with
        | inl e => inl e
        | inr byPath =>
            if negb (truthy upstreamPath) then inl (js "Upstream path is required")
            else if negb (isFullHttpURLOrAbsolutePath upstreamPath)
            then inl (js "Upstream path must be a full URL or a path starting with /")
            else if negb (isAdvancedCustomConverter conv) then inl (js "Converter is not registered")
            else if negb (isConverterPathAllowed incomingPath conv)
            then inl (js "Converter does not match incoming path")
            else match validateRouteAuth (auth r) with
                 | Some e => inl e
                 | None => inr (mkState byPath (modelListRouteIndex st) (balanceRouteIndex st))
                 end
        end
    end.

Fixpoint validate_routes (index : nat) (routes : list AdvancedCustomRoute) (st : validation_state)
    : option AdvancedCustomValidationError :=
  match routes with
  | [] => None
  | r :: rest =>
      match validate_route index r st with
      | inl e => Some (mkError e (Some index))
      | inr st => validate_routes (S index) rest st
      end
  end.

Definition validateAdvancedCustomConfig (config : option AdvancedCustomConfig)
    : option AdvancedCustomValidationError :=
  match config with
  | None => Some (mkError (js "Advanced custom configuration is required") None)
  | Some c =>
      match normalized_routes c with
      | [] => Some (mkError (js "Advanced custom configuration requires at least one route") None)
      | routes => validate_routes 0 routes (mkState ∅ None None)
      end
  end.

Definition hasValidAdvancedCustomModelListRoute (config : option AdvancedCustomConfig) : bool :=
  match config with
  | None => false
  | Some c =>
      match validateAdvancedCustomConfig (Some c) with
      | Some _ => false
      | None => existsb (has_path ADVANCED_CUSTOM_MODEL_LIST_PATH) (normalized_routes c)
      end
  end.

Definition advancedCustomConfigUsesRelativeUpstreamPath (config : option AdvancedCustomConfig) : bool :=
  match config with
  | None => false
  | Some c => existsb (λ r, startsWith (getAdvancedCustomRouteUpstreamPath r) (js "/"))
                (normalized_routes c)
  end.

(** ** Text form

    A JSON value is read into the declared types; [None] marks a value with
    a field of another type, which this model leaves out. *)

Definition opt_string (v : option json) : option (option jstr) :=
  match v with
  | None | Some JNull => Some None
  | Some (JStr s) => Some (Some s)
  | Some _ => None
  end.
Definition opt_strings (v : option json) : option (option (list jstr)) :=
  match v with
  | None | Some JNull => Some None
  | Some (JArr l) => Some <$> mapM (λ x, match x with JStr s => Some s | _ => None end) l
  | Some _ => None
  end.
Definition auth_of_json (v : option json) : option (option AdvancedCustomRouteAuth) :=
  match v with
  | None | Some JNull => Some None
  | Some (JObj fs) =>
      ty ← opt_string (field_get (js "type") fs);
      n ← opt_string (field_get (js "name") fs);
      x ← opt_string (field_get (js "value") fs);
      Some (Some (mkAuth ty n x))
  | Some _ => None
  end.
Definition route_of_json (v : json) : option AdvancedCustomRoute :=
  match v with
  | JObj fs =>
      i ← opt_string (field_get (js "incoming_path") fs);
      u ← opt_string (field_get (js "upstream_path") fs);
      c ← opt_string (field_get (js "converter") fs);
      ms ← opt_strings (field_get (js "models") fs);
      a ← auth_of_json (field_get (js "auth") fs);
      Some (mkRoute i u c ms a)
  | _ => None
  end.
Definition config_of_json (fields : list (jstr * json)) : option AdvancedCustomConfig :=
  match field_get (js "advanced_routes") fields with
  | Some (JArr l) => (λ rs, mkConfig (Some rs)) <$> mapM route_of_json l
  | _ => Some (mkConfig None)
  end.

(** The outer option is [None] for a value outside the declared types; the
    inner one is the result. *)
Definition parseAdvancedCustomConfig (value : option jstr) : option (option AdvancedCustomConfig) :=
  if negb (truthy (trimmed value)) then Some None
  else match JSON_parse (default [] value) with
       | Some (JObj fields) =>
           c ← config_of_json fields;
           Some (Some (normalizeAdvancedCustomConfig c))
       | _ => Some None
       end.

Definition getAdvancedCustomRouteSummaryLabel (r : AdvancedCustomRoute) : option jstr :=
  let incomingPath := route_path r in
  if negb (truthy incomingPath) then None
  else Some (opt_or_else
               (snd <$> List.find (λ '(k, _), k === incomingPath) ADVANCED_CUSTOM_ROUTE_SUMMARY_LABELS)
               (getAdvancedCustomIncomingPathLabel incomingPath)).

Record stats := mkStats { routeCount : nat; valid : bool; routeTypeLabels : list jstr }.

Definition getAdvancedCustomStats (value : option jstr) : option stats :=
  config ← parseAdvancedCustomConfig value;
  Some (match config with
        | None => mkStats 0 false []
        | Some c =>
            let normalized := normalizeAdvancedCustomConfig c in
            let routes := default [] (advanced_routes normalized) in
            mkStats (length routes)
              (bool_decide (validateAdvancedCustomConfig (Some normalized) = None))
              (dedup (filter_truthy (omap getAdvancedCustomRouteSummaryLabel routes)))
        end).
End validate.

End AdvancedCustom.
