(* ===== verification/AdvancedCustomFacts.v ===== *)
(** * Properties of advanced custom channels

    Validation decides a declarative notion of valid configuration; templates
    and converter defaults are valid; normalization is idempotent and does not
    change the verdict; the two route editors change what they should. *)

From S2P Require Import Prelude JsValue AdvancedCustom.
Import AdvancedCustom.

Definition route_models (r : AdvancedCustomRoute) : list jstr :=
  normalizeAdvancedCustomRouteModels (models r).
Definition route_converter (r : AdvancedCustomRoute) : jstr := opt_or_else (converter r) conv_none.

(** ** What a valid configuration is *)

Definition valid_auth (a : AdvancedCustomRouteAuth) : Prop :=
  auth_type a = Some (js "none") ∨
  ((auth_type a = Some (js "header") ∨ auth_type a = Some (js "query")) ∧
   trimmed (auth_name a) ≠ [] ∧ trimmed (auth_value a) ≠ []).

Section valid.
Context (URL : jstr → option (jstr * jstr)).

(** An absolute path that does not start with two slashes, or an HTTP URL
    with a host. *)
Definition valid_upstream (u : jstr) : Prop :=
  (∃ rest, u = js "/" ++ rest ∧ ∀ rest', rest ≠ js "/" ++ rest') ∨
  ((∀ rest, u ≠ js "/" ++ rest) ∧
   ∃ host protocol, URL u = Some (host, protocol) ∧ host ≠ [] ∧
     (protocol = js "http:" ∨ protocol = js "https:")).

Record ValidRoute (r : AdvancedCustomRoute) : Prop := {
  vr_path : ∃ rest, route_path r = js "/" ++ rest;
  vr_query : ∀ a b, route_path r ≠ a ++ js "?" ++ b;
  vr_management : is_management r = true →
    route_models r = [] ∧ route_converter r = conv_none ∧
    ∀ a b, getAdvancedCustomRouteUpstreamPath r ≠ a ++ js "{model}" ++ b;
  vr_rules : js "re:" ∉ route_models r;
  vr_nodup : NoDup (route_models r);
  vr_upstream_set : getAdvancedCustomRouteUpstreamPath r ≠ [];
  vr_upstream : valid_upstream (getAdvancedCustomRouteUpstreamPath r);
  vr_converter : route_converter r ∈ map conv_value ADVANCED_CUSTOM_CONVERTER_OPTIONS;
  vr_allowed : isConverterPathAllowed (route_path r) (route_converter r) = true;
  vr_auth : ∀ a, auth r = Some a → valid_auth a;
}.

(** Two routes in this order: for one incoming path, a catch-all route comes
    last and no model rule is given twice. *)
Definition compatible (q r : AdvancedCustomRoute) : Prop :=
  route_path q = route_path r →
  route_models q ≠ [] ∧ ∀ m, m ∈ route_models q → m ∉ route_models r.

Record ValidConfig (c : AdvancedCustomConfig) : Prop := {
  vc_nonempty : normalized_routes c ≠ [];
  vc_routes : Forall ValidRoute (normalized_routes c);
  vc_compatible : ∀ i j q r, (i < j)%nat → normalized_routes c !! i = Some q →
    normalized_routes c !! j = Some r → compatible q r;
}.

(** ** The checks of one route *)

Lemma validateRouteAuth_spec a :
  validateRouteAuth a = None ↔ ∀ x, a = Some x → valid_auth x.
Proof.
  destruct a as [a|]; simpl; [|naive_solver]. unfold valid_auth.
  split.
  - intros H x [= <-]. destruct (decide (auth_type a = Some (js "none"))) as [?|Hn]; [by left|].
    right. rewrite (bool_decide_eq_false_2 (auth_type a = Some (js "none"))) in H by done.
    destruct (negb _ && negb _) eqn:Et; [done|]. apply andb_false_iff in Et.
    rewrite !negb_false_iff, !bool_decide_eq_true in Et. split; [done|].
    rewrite <- !truthy_true. by destruct (truthy (trimmed (auth_name a))), (truthy (trimmed (auth_value a))).
  - intros H. specialize (H a eq_refl). destruct H as [H|[Ht [Hn Hv]]].
    + by rewrite bool_decide_eq_true_2.
    + rewrite (bool_decide_eq_false_2 (auth_type a = Some (js "none"))).
      2:{ intros E. rewrite E in Ht. by destruct Ht. }
      apply truthy_true in Hn, Hv. rewrite Hn, Hv. simpl.
      destruct Ht as [-> | ->]; simpl; by rewrite ?andb_false_r.
Qed.

Lemma isFull_spec u : isFullHttpURLOrAbsolutePath URL u = true ↔ valid_upstream u.
Proof.
  unfold isFullHttpURLOrAbsolutePath, valid_upstream.
  destruct (startsWith u (js "/")) eqn:E.
  - apply startsWith_true in E as [k ->]. rewrite negb_true_iff. split.
    + intros H. left. exists k. split; [done|]. intros k' ->.
      apply not_true_iff_false in H. destruct H. apply startsWith_true. by exists k'.
    + intros [(k' & Hk & Hn)|[Hn _]]; [|by destruct (Hn k)]. apply app_inv_head in Hk as <-.
      apply not_true_iff_false. intros [k'' Hk'']%startsWith_true.
      apply (Hn k''). by injection Hk''.
  - assert (Hn : ∀ k, u ≠ js "/" ++ k) by (intros k ->; by rewrite startsWith_app in E).
    split.
    + intros H. right. split; [done|]. destruct (URL u) as [[h p]|]; [|done].
      apply andb_true_iff in H as [Hh Hp]. exists h, p.
      apply truthy_true in Hh. apply orb_true_iff in Hp. rewrite !jeqb_true in Hp. done.
    + intros [(k & -> & _)|[_ (h & p & -> & Hh & Hp)]]; [by destruct (Hn k)|].
      apply truthy_true in Hh. rewrite Hh. simpl. apply orb_true_iff. by rewrite !jeqb_true.
Qed.

Lemma isConverter_spec v :
  isAdvancedCustomConverter v = true ↔ v ∈ map conv_value ADVANCED_CUSTOM_CONVERTER_OPTIONS.
Proof.
  unfold isAdvancedCustomConverter. rewrite existsb_exists, list_elem_of_In, in_map_iff.
  setoid_rewrite jeqb_true. split; intros (x & H1 & H2); by exists x.
Qed.

Lemma empty_regex m :
  match getAdvancedCustomModelRuleKind m with
  | regex_rule => getAdvancedCustomRegexModelPattern m === []
  | exact_rule => false
  end = true ↔ m = js "re:".
Proof.
  unfold getAdvancedCustomModelRuleKind, getAdvancedCustomRegexModelPattern.
  destruct (startsWith m ADVANCED_CUSTOM_MODEL_REGEX_PREFIX) eqn:E.
  - apply startsWith_true in E as [k ->]. rewrite drop_app_length, jeqb_true.
    split; [by intros ->|]. intros H. by apply (app_inv_head ADVANCED_CUSTOM_MODEL_REGEX_PREFIX k []).
  - split; [done|]. intros ->. by vm_compute in E.
Qed.

(** The loop over the models of a route. *)
Definition models_ok (ms seen : list jstr) (known : gmap jstr nat) : Prop :=
  js "re:" ∉ ms ∧ NoDup ms ∧ ∀ m, m ∈ ms → m ∉ seen ∧ known !! m = None.

Lemma check_models_spec index ms seen known :
  match check_models index ms seen known with
  | inr known' => models_ok ms seen known ∧
      ∀ m, is_Some (known' !! m) ↔ is_Some (known !! m) ∨ m ∈ ms
  | inl _ => ¬ models_ok ms seen known
  end.
Proof.
  revert seen known. induction ms as [|m ms IH]; intros seen known; cbn [check_models].
  { split; [|set_solver]. unfold models_ok. split_and!; [set_solver|constructor|set_solver]. }
  destruct (match getAdvancedCustomModelRuleKind m with
            | exact_rule => false | regex_rule => _ end) eqn:Er.
  { apply empty_regex in Er as ->. intros (H & _). set_solver. }
  assert (m ≠ js "re:") as Hre by (intros ->; by vm_compute in Er).
  case_bool_decide as Hs; [intros (_ & _ & H); destruct (H m); set_solver|].
  case_bool_decide as Hk.
  { intros (_ & _ & H). destruct (H m) as [_ Hn]; [set_solver|]. rewrite Hn in Hk. by destruct Hk. }
  specialize (IH (m :: seen) (<[m := index]> known)).
  assert (Hok : models_ok ms (m :: seen) (<[m:=index]> known) ↔ models_ok (m :: ms) seen known).
  { unfold models_ok. rewrite list.NoDup_cons. split.
    - intros (H1 & H2 & H3). split_and!.
      + set_solver.
      + intros Hin. destruct (H3 m Hin). set_solver.
      + done.
      + intros m' [->|Hin]%elem_of_cons.
        { split; [done|]. destruct (known !! m) eqn:E; [|done]. destruct Hk. by eexists. }
        destruct (H3 m' Hin) as [Hn Hl]. split; [set_solver|].
        apply lookup_insert_None in Hl. tauto.
    - intros (H1 & [H2 H2'] & H3). split_and!; [set_solver|done|].
      intros m' Hin. destruct (H3 m') as [? ?]; [set_solver|]. split; [set_solver|].
      apply lookup_insert_None. split; [done|]. intros ->. done. }
  destruct (check_models index ms (m :: seen) (<[m := index]> known)) as [e|known'].
  - by rewrite <- Hok.
  - destruct IH as [IH1 IH2]. split; [by apply Hok|]. intros m'. rewrite IH2.
    rewrite lookup_insert_is_Some, elem_of_cons. destruct (decide (m = m')); naive_solver.
Qed.

(** What the state of the loop knows of the routes seen so far. *)
Definition path_knows (ps : list AdvancedCustomRoute) (p : jstr) (s : path_state) : Prop :=
  (is_Some (catchAllIndex s) ↔ ∃ q, q ∈ ps ∧ route_path q = p ∧ route_models q = []) ∧
  ∀ m, is_Some (path_models s !! m) ↔ ∃ q, q ∈ ps ∧ route_path q = p ∧ m ∈ route_models q.
Definition state_of (p : jstr) (byPath : gmap jstr path_state) : path_state :=
  default (mkPathState None ∅) (byPath !! p).
Definition has_route (ps : list AdvancedCustomRoute) (p : jstr) : Prop :=
  ∃ q, q ∈ ps ∧ route_path q = p.

Record knows (ps : list AdvancedCustomRoute) (st : validation_state) : Prop := {
  k_paths : ∀ p, path_knows ps p (state_of p (routeModelsByPath st));
  k_model_list : is_Some (modelListRouteIndex st) ↔ has_route ps ADVANCED_CUSTOM_MODEL_LIST_PATH;
  k_balance : is_Some (balanceRouteIndex st) ↔ has_route ps ADVANCED_CUSTOM_BALANCE_PATH;
}.

(** The constraints a route adds for its path. *)
Definition fits (ps : list AdvancedCustomRoute) (p : jstr) (ms : list jstr) : Prop :=
  js "re:" ∉ ms ∧ NoDup ms ∧
  ∀ q, q ∈ ps → route_path q = p → route_models q ≠ [] ∧ ∀ m, m ∈ route_models q → m ∉ ms.

Lemma path_knows_other ps r p s : route_path r ≠ p → path_knows ps p s → path_knows (ps ++ [r]) p s.
Proof.
  intros Hne [H1 H2]. split; [rewrite H1|intros m; rewrite H2]; split; intros (q & Hq & Hp & Hm);
    exists q; (split_and!; [|done|done]); set_solver.
Qed.

Lemma has_route_app ps r p : has_route (ps ++ [r]) p ↔ has_route ps p ∨ route_path r = p.
Proof. unfold has_route. set_solver. Qed.

Lemma validateModels_spec index r ps byPath :
  (∀ p, path_knows ps p (state_of p byPath)) →
  match validateAdvancedCustomRouteModels index (route_path r) (route_models r) byPath with
  | inr byPath' => fits ps (route_path r) (route_models r) ∧
      ∀ p, path_knows (ps ++ [r]) p (state_of p byPath')
  | inl _ => ¬ fits ps (route_path r) (route_models r)
  end.
Proof.
  intros K. unfold validateAdvancedCustomRouteModels. cbn zeta.
  fold (state_of (route_path r) byPath). destruct (K (route_path r)) as [K1 K2].
  set (s := state_of (route_path r) byPath) in *.
  assert (Kpath : ∀ s', path_knows (ps ++ [r]) (route_path r) s' →
    ∀ p, path_knows (ps ++ [r]) p (state_of p (<[route_path r := s']> byPath))).
  { intros s' Hs' p. unfold state_of. destruct (decide (route_path r = p)) as [<-|Hne].
    - by rewrite lookup_insert_eq.
    - rewrite lookup_insert_ne by done. apply path_knows_other; [done|]. apply K. }
  destruct (catchAllIndex s) as [i|] eqn:Ec.
  - assert (¬ fits ps (route_path r) (route_models r)) as Hnf.
    { intros (_ & _ & H). destruct (proj1 K1) as (q & Hq & Hp & Hm); [by eexists|].
      by destruct (H q Hq Hp). }
    by destruct (route_models r).
  - assert (Hcatch : ∀ q, q ∈ ps → route_path q = route_path r → route_models q ≠ []).
    { intros q Hq Hp Hm. destruct (proj2 K1) as [? [=]]. by exists q. }
    destruct (route_models r) as [|m0 ms] eqn:Em.
    + split.
      { split_and!; [set_solver|constructor|]. intros q Hq Hp. split; [by apply Hcatch|set_solver]. }
      apply Kpath. split; simpl.
      * split; [|by eexists]. intros _. exists r. set_solver.
      * intros m. rewrite K2. split; intros (q & Hq & Hp & Hm).
        { exists q. set_solver. }
        apply elem_of_app in Hq as [Hq|Hq%list_elem_of_singleton]; [by exists q|].
        subst q. rewrite Em in Hm. set_solver.
    + pose proof (check_models_spec index (m0 :: ms) [] (path_models s)) as Hc.
      assert (Hfit : fits ps (route_path r) (m0 :: ms) ↔ models_ok (m0 :: ms) [] (path_models s)).
      { unfold fits, models_ok. split; intros (H1 & H2 & H3); split_and!; try done.
        - intros m Hm. split; [set_solver|]. apply eq_None_not_Some. rewrite K2.
          intros (q & Hq & Hp & Hmq). destruct (H3 q Hq Hp) as [_ Hd]. by destruct (Hd m Hmq).
        - intros q Hq Hp. split; [by apply Hcatch|]. intros m Hmq Hm.
          destruct (H3 m Hm) as [_ Hn]. apply eq_None_not_Some in Hn. apply Hn, K2. by exists q. }
      destruct (check_models index (m0 :: ms) [] (path_models s)) as [e|known].
      { by rewrite Hfit. }
      destruct Hc as [Hok Hknown]. split; [by apply Hfit|]. apply Kpath. split; simpl.
      * split; [by intros [? [=]]|]. intros (q & Hq & Hp & Hm).
        apply elem_of_app in Hq as [Hq|Hq%list_elem_of_singleton]; [by destruct (Hcatch q Hq Hp)|].
        subst q. by rewrite Em in Hm.
      * intros m. rewrite Hknown, K2. split.
        { intros [(q & Hq & Hp & Hm)|Hm]; [exists q; set_solver|].
          exists r. rewrite Em. set_solver. }
        intros (q & [Hq|Hq%list_elem_of_singleton]%elem_of_app & Hp & Hm); [left; by exists q|].
        subst q. rewrite Em in Hm. by right.
Qed.

Definition management_ok (r : AdvancedCustomRoute) : Prop :=
  route_models r = [] ∧ route_converter r = conv_none ∧
  ∀ a b, getAdvancedCustomRouteUpstreamPath r ≠ a ++ js "{model}" ++ b.

Lemma not_includes s p : includes s p = false ↔ ∀ a b, s ≠ a ++ p ++ b.
Proof.
  rewrite <- not_true_iff_false, includes_true. split.
  - intros H a b ->. apply H. by exists a, b.
  - intros H (a & b & E). by destruct (H a b).
Qed.

Lemma check_management_spec index r ps st :
  knows ps st →
  match check_management index (route_path r) (getAdvancedCustomRouteUpstreamPath r)
          (route_converter r) (route_models r) st with
  | inr st' =>
      (is_management r = true → management_ok r ∧ ¬ has_route ps (route_path r)) ∧
      routeModelsByPath st' = routeModelsByPath st ∧
      (is_Some (modelListRouteIndex st') ↔ has_route (ps ++ [r]) ADVANCED_CUSTOM_MODEL_LIST_PATH) ∧
      (is_Some (balanceRouteIndex st') ↔ has_route (ps ++ [r]) ADVANCED_CUSTOM_BALANCE_PATH)
  | inl _ => is_management r = true ∧ (¬ management_ok r ∨ has_route ps (route_path r))
  end.
Proof.
  intros K. unfold check_management, is_management.
  destruct (isAdvancedCustomManagementPath (route_path r)) eqn:Em; cbn [negb].
  2:{ split; [done|]. split; [done|]. rewrite !has_route_app, (k_model_list _ _ K), (k_balance _ _ K).
      unfold isAdvancedCustomManagementPath in Em. apply orb_false_iff in Em as [E1 E2].
      assert (route_path r ≠ ADVANCED_CUSTOM_MODEL_LIST_PATH) by (intros E; by rewrite E in E1).
      assert (route_path r ≠ ADVANCED_CUSTOM_BALANCE_PATH) by (intros E; by rewrite E in E2).
      tauto. }
  cbn zeta.
  set (existing := if route_path r === _ then modelListRouteIndex st else balanceRouteIndex st).
  assert (Hex : is_Some existing ↔ has_route ps (route_path r)).
  { subst existing. destruct (route_path r === ADVANCED_CUSTOM_MODEL_LIST_PATH) eqn:E1.
    - apply jeqb_true in E1. rewrite E1. apply (k_model_list _ _ K).
    - unfold isAdvancedCustomManagementPath in Em. rewrite E1 in Em. simpl in Em.
      apply jeqb_true in Em. rewrite Em. apply (k_balance _ _ K). }
  destruct (bool_decide_reflect (is_Some existing)) as [Hs|Hs]; [split; [done|]; tauto|].
  destruct (bool_decide_reflect (route_models r = [])) as [Hm|Hm]; cbn [negb].
  2:{ split; [done|]. left. by intros [? _]. }
  destruct (route_converter r === conv_none) eqn:Ec; cbn [negb].
  2:{ split; [done|]. left. intros (_ & E & _). by rewrite E in Ec. }
  apply jeqb_true in Ec.
  destruct (includes (getAdvancedCustomRouteUpstreamPath r) (js "{model}")) eqn:Ei.
  { split; [done|]. left. intros (_ & _ & H). by rewrite (proj2 (not_includes _ _) H) in Ei. }
  pose proof (proj1 (not_includes _ _) Ei) as Ei'. split; [intros _; split; [done|tauto]|].
  rewrite !has_route_app.
  destruct (route_path r === ADVANCED_CUSTOM_MODEL_LIST_PATH) eqn:E1; simpl.
  - apply jeqb_true in E1. rewrite (k_balance _ _ K), E1. split; [done|].
    split; [split; [by right|by eexists]|]. split; [tauto|]. by intros [?|?].
  - unfold isAdvancedCustomManagementPath in Em. rewrite E1 in Em. simpl in Em.
    apply jeqb_true in Em. rewrite (k_model_list _ _ K), Em. split; [done|].
    split; [split; [tauto|]; by intros [?|?]|]. split; [by right|by eexists].
Qed.

(** One iteration accepts a route exactly if it is valid and compatible with
    the routes before it. *)
Lemma validate_route_spec index r ps st :
  Forall ValidRoute ps → knows ps st →
  match validate_route URL index r st with
  | inr st' => ValidRoute r ∧ (∀ q, q ∈ ps → compatible q r) ∧ knows (ps ++ [r]) st'
  | inl _ => ¬ (ValidRoute r ∧ ∀ q, q ∈ ps → compatible q r)
  end.
Proof.
  intros Hps K. unfold validate_route. cbn zeta. fold (route_models r). fold (route_converter r).
  destruct (truthy (route_path r)) eqn:Et; cbn [negb].
  2:{ apply truthy_false in Et. intros [V _]. destruct (vr_path _ V) as [k Hk]. by rewrite Et in Hk. }
  destruct (startsWith (route_path r) (js "/")) eqn:Ep; cbn [negb].
  2:{ intros [V _]. destruct (vr_path _ V) as [k Hk]. rewrite Hk, startsWith_app in Ep. done. }
  apply startsWith_true in Ep.
  destruct (includes (route_path r) (js "?")) eqn:Eq.
  { intros [V _]. pose proof (vr_query _ V) as H. by rewrite (proj2 (not_includes _ _) H) in Eq. }
  pose proof (proj1 (not_includes _ _) Eq) as Eq'.
  pose proof (check_management_spec index r ps st K) as Hm.
  destruct (check_management _ _ _ _ _ _) as [e|st1].
  { destruct Hm as [Him [Hnot|(q & Hq & Hqp)]]; intros [V C].
    - by destruct Hnot, (vr_management _ V Him).
    - destruct (C q Hq Hqp) as [Hne _]. rewrite Forall_forall in Hps.
      assert (Hqv : ValidRoute q) by (apply Hps; by apply list_elem_of_In).
      destruct (vr_management _ Hqv) as [? _]; [|done].
      unfold is_management in *. by rewrite Hqp. }
  destruct Hm as (Hman & Hby & Hml & Hbal). rewrite Hby.
  pose proof (validateModels_spec index r ps _ (k_paths _ _ K)) as Hf.
  assert (Hfits : ValidRoute r → (∀ q, q ∈ ps → compatible q r) →
                  fits ps (route_path r) (route_models r)).
  { intros V C. split_and!; [apply (vr_rules _ V)|apply (vr_nodup _ V)|]. intros q Hq Hp. by apply C. }
  destruct (validateAdvancedCustomRouteModels _ _ _ _) as [e|byPath].
  { intros [V C]. by apply Hf, Hfits. }
  destruct Hf as [(F1 & F2 & F3) Hk].
  assert (Hup : isFullHttpURLOrAbsolutePath URL (getAdvancedCustomRouteUpstreamPath r) = true ↔
                valid_upstream (getAdvancedCustomRouteUpstreamPath r)) by apply isFull_spec.
  destruct (truthy (getAdvancedCustomRouteUpstreamPath r)) eqn:Eu; cbn [negb].
  2:{ intros [V _]. apply truthy_false in Eu. by destruct (vr_upstream_set _ V). }
  destruct (isFullHttpURLOrAbsolutePath URL (getAdvancedCustomRouteUpstreamPath r)) eqn:Ef;
    cbn [negb].
  2:{ intros [V _]. by apply vr_upstream, Hup in V. }
  destruct (isAdvancedCustomConverter (route_converter r)) eqn:Ec; cbn [negb].
  2:{ intros [V _]. by apply vr_converter, isConverter_spec in V; rewrite V in Ec. }
  destruct (isConverterPathAllowed (route_path r) (route_converter r)) eqn:Ea; cbn [negb].
  2:{ intros [V _]. apply vr_allowed in V. congruence. }
  destruct (validateRouteAuth (auth r)) as [e|] eqn:Eauth.
  { intros [V _]. pose proof (proj2 (validateRouteAuth_spec _) (vr_auth _ V)). congruence. }
  split_and!.
  - split; try done; [intros H; by apply Hman|by apply truthy_true|by apply Hup|by apply isConverter_spec|].
    by apply validateRouteAuth_spec.
  - intros q Hq Hp. by apply F3.
  - by split.
Qed.

(** Valid routes, each compatible with all before it. *)
Definition ValidRoutes (rs : list AdvancedCustomRoute) : Prop :=
  Forall ValidRoute rs ∧
  ∀ i j q r, (i < j)%nat → rs !! i = Some q → rs !! j = Some r → compatible q r.

Lemma ValidRoutes_snoc ps r :
  ValidRoutes (ps ++ [r]) ↔ ValidRoutes ps ∧ ValidRoute r ∧ ∀ q, q ∈ ps → compatible q r.
Proof.
  unfold ValidRoutes. rewrite list.Forall_app, list.Forall_cons. split.
  - intros [[Hp [Hr _]] C]. split_and!; [done| |done|].
    + intros i j q r' Hij Hi Hj. apply (C i j); [done|by apply lookup_app_l_Some..].
    + intros q [i Hi]%list_elem_of_lookup. apply (C i (length ps)).
      * by apply lookup_lt_Some in Hi.
      * by apply lookup_app_l_Some.
      * by rewrite lookup_app_r, Nat.sub_diag.
  - intros ([Hp C] & Hr & Hq). split; [by split; [|split; [|constructor]]|].
    intros i j q r' Hij Hi Hj. apply lookup_app_Some in Hj as [Hj|[Hlen Hj]].
    + apply lookup_app_Some in Hi as [Hi|[Hli Hi]]; [by eapply (C i j)|].
      apply lookup_lt_Some in Hj. lia.
    + apply list_lookup_singleton_Some in Hj as [Hj <-].
      apply lookup_app_Some in Hi as [Hi|[Hli Hi]].
      * apply Hq. by eapply list_elem_of_lookup_2.
      * apply list_lookup_singleton_Some in Hi as [Hi _]. lia.
Qed.

Lemma ValidRoutes_app_l l k : ValidRoutes (l ++ k) → ValidRoutes l.
Proof.
  induction k as [|x k IH] using rev_ind; [by rewrite app_nil_r|].
  rewrite app_assoc, ValidRoutes_snoc. tauto.
Qed.

(** The loop stops at the first route that makes the list invalid. *)
Lemma validate_routes_spec rest ps st :
  ValidRoutes ps → knows ps st →
  match validate_routes URL (length ps) rest st with
  | None => ValidRoutes (ps ++ rest)
  | Some e => ∃ l1 r l2, rest = l1 ++ r :: l2 ∧ routeIndex e = Some (length (ps ++ l1)) ∧
                ValidRoutes (ps ++ l1) ∧ ¬ ValidRoutes (ps ++ l1 ++ [r])
  end.
Proof.
  revert ps st. induction rest as [|r rest IH]; intros ps st V K; cbn [validate_routes].
  { by rewrite app_nil_r. }
  pose proof (validate_route_spec (length ps) r ps st (proj1 V) K) as Hr.
  destruct (validate_route URL (length ps) r st) as [e|st'].
  - exists [], r, rest. rewrite app_nil_r. split_and!; [done|done|done|]. simpl.
    rewrite ValidRoutes_snoc. tauto.
  - destruct Hr as (Hv & Hc & Hk). specialize (IH (ps ++ [r]) st').
    rewrite length_app in IH. simpl in IH. rewrite Nat.add_1_r in IH.
    destruct (validate_routes URL (S (length ps)) rest st') as [e|].
    + destruct IH as (l1 & r' & l2 & -> & Hi & H1 & H2); [by apply ValidRoutes_snoc|done|].
      exists (r :: l1), r', l2. rewrite <- !app_assoc in *. by split_and!.
    + rewrite <- app_assoc in IH. apply IH; [by apply ValidRoutes_snoc|done].
Qed.

Lemma knows_nil : knows [] (mkState ∅ None None).
Proof.
  split; simpl.
  - intros p. unfold state_of. rewrite lookup_empty. split; simpl.
    + split; [by intros []|set_solver].
    + intros m. rewrite lookup_empty. split; [by intros []|set_solver].
  - split; [by intros []|intros (q & Hq & _); set_solver].
  - split; [by intros []|intros (q & Hq & _); set_solver].
Qed.

(** A configuration is accepted exactly if it is valid; otherwise the error
    names the first route that makes it invalid. *)
Lemma validate_config_spec c :
  match validateAdvancedCustomConfig URL (Some c) with
  | None => ValidConfig c
  | Some e =>
      (normalized_routes c = [] ∧ routeIndex e = None) ∨
      ∃ l1 r l2, normalized_routes c = l1 ++ r :: l2 ∧ routeIndex e = Some (length l1) ∧
        ValidRoutes l1 ∧ ¬ ValidRoutes (l1 ++ [r])
  end.
Proof.
  unfold validateAdvancedCustomConfig. destruct (normalized_routes c) as [|r0 rs] eqn:E; [by left|].
  pose proof (validate_routes_spec (r0 :: rs) [] (mkState ∅ None None)) as H. cbn [length] in H.
  destruct (validate_routes URL 0 (r0 :: rs) _) as [e|].
  - right. destruct H as (l1 & r & l2 & Hrs & Hi & H1 & H2); [|apply knows_nil|].
    { split; [constructor|]. intros i j q r _ Hi. by rewrite lookup_nil in Hi. }
    by exists l1, r, l2.
  - destruct H as [H1 H2]; [|apply knows_nil|].
    { split; [constructor|]. intros i j q r _ Hi. by rewrite lookup_nil in Hi. }
    split; rewrite E; done.
Qed.

Lemma accepts_valid c : validateAdvancedCustomConfig URL (Some c) = None ↔ ValidConfig c.
Proof.
  pose proof (validate_config_spec c) as H.
  destruct (validateAdvancedCustomConfig URL (Some c)) as [e|]; [|done].
  split; [done|]. intros V. destruct H as [[He _]|(l1 & r & l2 & He & _ & _ & Hn)].
  - by destruct (vc_nonempty _ V).
  - destruct Hn. apply (ValidRoutes_app_l _ l2). rewrite <- app_assoc. simpl. rewrite <- He.
    destruct V. by split.
Qed.
End valid.

(** [C6] Validation decides validity: a configuration passes exactly if it has
    a route, every route is valid on its own, and for each incoming path the
    catch-all route comes last and no model rule is given twice. *)
Theorem validation_decides_validity URL c :
  validateAdvancedCustomConfig URL (Some c) = None ↔ ValidConfig URL c.
Proof. apply accepts_valid. Qed.

(** A rejected configuration with routes is reported at the first route
    that makes it invalid: all routes before it are valid together, and they
    are not valid together with it. *)
Theorem error_names_first_offending_route URL c e i :
  validateAdvancedCustomConfig URL (Some c) = Some e → routeIndex e = Some i →
  ValidRoutes URL (take i (normalized_routes c)) ∧
  ¬ ValidRoutes URL (take (S i) (normalized_routes c)) ∧ (i < length (normalized_routes c))%nat.
Proof.
  intros He Hi. pose proof (validate_config_spec URL c) as H. rewrite He in H.
  destruct H as [[_ H]|(l1 & r & l2 & -> & H & H1 & H2)]; [congruence|].
  rewrite H in Hi. injection Hi as <-. rewrite take_app_length. split_and!; [done| |].
  - replace (S (length l1)) with (length (l1 ++ [r])) by (rewrite length_app; simpl; lia).
    change (r :: l2) with ([r] ++ l2). rewrite app_assoc, take_app_length. done.
  - rewrite length_app. simpl. lia.
Qed.

Definition no_URL (s : jstr) : option (jstr * jstr) := None.
Definition two_catch_alls : AdvancedCustomConfig :=
  mkConfig (Some [createAdvancedCustomRoute; createAdvancedCustomRoute]).

Lemma error_names_first_offending_route_witness :
  ValidRoutes no_URL (take 1 (normalized_routes two_catch_alls)) ∧
  ¬ ValidRoutes no_URL (take 2 (normalized_routes two_catch_alls)) ∧
  (1 < length (normalized_routes two_catch_alls))%nat.
Proof.
  apply (error_names_first_offending_route no_URL two_catch_alls
    (mkError (js "Only one catch-all route is allowed for the same incoming path") (Some 1%nat)));
    vm_compute; reflexivity.
Defined.

(** ** Normalization *)

Lemma trimmed_Some s : trimmed (Some s) = trim s.
Proof. done. Qed.

Lemma normalize_models_idem ms :
  normalizeAdvancedCustomRouteModels (Some (normalizeAdvancedCustomRouteModels ms)) =
  normalizeAdvancedCustomRouteModels ms.
Proof.
  destruct ms as [l|]; [|done]. simpl. unfold filter_truthy.
  induction l as [|m l IH]; [done|]. simpl. rewrite filter_cons.
  destruct (decide (trim m ≠ [])); [|done]. simpl.
  rewrite trim_idemp, filter_cons_True, IH by done. done.
Qed.

Lemma normalized_models r : route_models (normalizeAdvancedCustomRoute r) = route_models r.
Proof.
  unfold route_models, normalizeAdvancedCustomRoute. cbn zeta. simpl.
  pose proof (normalize_models_idem (models r)) as H.
  destruct (normalizeAdvancedCustomRouteModels (models r)) as [|m ms]; [done|]. exact H.
Qed.

Lemma normalize_route_idem r :
  normalizeAdvancedCustomRoute (normalizeAdvancedCustomRoute r) = normalizeAdvancedCustomRoute r.
Proof.
  pose proof (normalized_models r) as Hm. unfold route_models in Hm.
  unfold normalizeAdvancedCustomRoute at 1. cbn zeta. rewrite Hm.
  unfold normalizeAdvancedCustomRoute, getAdvancedCustomRouteUpstreamPath. cbn zeta. simpl.
  f_equal.
  - unfold trimmed. simpl. by rewrite trim_idemp.
  - f_equal. unfold opt_or_else, or_else. destruct (converter r) as [c|]; [|done].
    by destruct (truthy c) eqn:E; rewrite ?E.
  - by destruct (auth r).
Qed.

Lemma normalized_routes_idem c :
  normalized_routes (normalizeAdvancedCustomConfig c) = normalized_routes c.
Proof.
  unfold normalized_routes. simpl. rewrite map_map. apply map_ext. apply normalize_route_idem.
Qed.

(** Normalization is idempotent and does not change what validation says,
    so a stored configuration that was accepted stays accepted. *)
Theorem normalization_is_stable URL c :
  normalizeAdvancedCustomConfig (normalizeAdvancedCustomConfig c) = normalizeAdvancedCustomConfig c ∧
  validateAdvancedCustomConfig URL (Some (normalizeAdvancedCustomConfig c)) =
  validateAdvancedCustomConfig URL (Some c).
Proof.
  split.
  - pose proof (normalized_routes_idem c) as H. unfold normalized_routes in H. simpl in H.
    unfold normalizeAdvancedCustomConfig at 1. simpl. by rewrite H.
  - unfold validateAdvancedCustomConfig. by rewrite normalized_routes_idem.
Qed.

(** ** Templates and defaults *)

(** A route as the editor fills it in for a converter and an incoming path. *)
Definition default_route (conv path : jstr) : AdvancedCustomRoute :=
  let d := getAdvancedCustomConverterDefaults conv path in
  mkRoute (Some path) (Some (default_upstream_path d)) (Some conv) None (default_auth d).

Definition offered_routes : list AdvancedCustomRoute :=
  concat (map (λ p, map (λ o, default_route (conv_value o) (path_value p))
                      (getAdvancedCustomConverterOptions (path_value p)))
            ADVANCED_CUSTOM_INCOMING_PATH_OPTIONS).

(** What the editor offers is valid, whatever the [URL] constructor does:
    every template, the configuration of a new channel, every management route,
    and the default route of every converter offered for every incoming
    path. *)
Theorem offered_configurations_are_valid URL :
  (∀ key, validateAdvancedCustomConfig URL (Some (getAdvancedCustomTemplateConfig key)) = None) ∧
  validateAdvancedCustomConfig URL (Some createAdvancedCustomConfig) = None ∧
  (∀ path, isAdvancedCustomManagementPath path = true →
     validateAdvancedCustomConfig URL
       (Some (mkConfig (Some [createAdvancedCustomManagementRoute path]))) = None) ∧
  Forall (λ r, validateAdvancedCustomConfig URL (Some (mkConfig (Some [r]))) = None) offered_routes.
Proof.
  split_and!.
  - intros key. unfold getAdvancedCustomTemplateConfig, cloneAdvancedCustomConfig.
    destruct (List.find _ _) as [o|] eqn:E; [|vm_compute; reflexivity].
    apply find_some in E as [Hin _]. simpl default.
    repeat (destruct Hin as [<-|Hin]; [vm_compute; reflexivity|]). done.
  - vm_compute. reflexivity.
  - intros path H. unfold isAdvancedCustomManagementPath in H.
    apply orb_true_iff in H as [->%jeqb_true| ->%jeqb_true]; vm_compute; reflexivity.
  - apply list.Forall_forall. intros r Hr.
    assert (forallb (λ r, bool_decide (validateAdvancedCustomConfig URL (Some (mkConfig (Some [r]))) = None))
              offered_routes = true) as H by (vm_compute; reflexivity).
    rewrite forallb_forall in H. apply list_elem_of_In, H in Hr. by apply bool_decide_eq_true in Hr.
Qed.

(** ** The route editors *)

Lemma find_index_Some {A} (P : A → bool) l i :
  find_index P l = Some i → ∃ x, l = take i l ++ x :: drop (S i) l ∧ P x = true ∧
    Forall (λ y, P y = false) (take i l).
Proof.
  revert i. induction l as [|x l IH]; intros i; simpl; [done|].
  destruct (P x) eqn:E.
  - intros [= <-]. by exists x.
  - intros (j & Hj & ->)%fmap_Some. destruct (IH j Hj) as (y & H1 & H2 & H3).
    exists y. simpl. split_and!; [by f_equal|done|by constructor].
Qed.
Lemma find_index_None {A} (P : A → bool) l :
  find_index P l = None → Forall (λ y, P y = false) l.
Proof.
  induction l as [|x l IH]; simpl; [constructor|]. destruct (P x) eqn:E; [done|].
  intros H%fmap_None. constructor; auto.
Qed.

Lemma filter_all {A} (P : A → bool) l : Forall (λ y, P y = true) l → List.filter P l = l.
Proof. induction 1 as [|x l H _ IH]; simpl; [done|]. by rewrite H, IH. Qed.
Lemma filter_none {A} (P : A → bool) l : Forall (λ y, P y = false) l → List.filter P l = [].
Proof. induction 1 as [|x l H _ IH]; simpl; [done|]. by rewrite H. Qed.
Lemma filter_filter_negb {A} (P : A → bool) l : List.filter (λ x, negb (P x)) (List.filter P l) = [].
Proof. induction l as [|x l IH]; simpl; [done|]. destruct (P x) eqn:E; simpl; by rewrite ?E. Qed.
Lemma filter_filter_same {A} (P : A → bool) l : List.filter P (List.filter P l) = List.filter P l.
Proof. induction l as [|x l IH]; simpl; [done|]. destruct (P x) eqn:E; simpl; by rewrite ?E, ?IH. Qed.

(** Replacing the forwarding routes keeps the management routes in their
    order and installs exactly the given forwarding routes, next to each
    other. *)
Theorem replaceForwardingRoutes_spec c forwardingRoutes :
  Forall (λ r, is_management r = false) forwardingRoutes →
  let out := default [] (advanced_routes (replaceAdvancedCustomForwardingRoutes c forwardingRoutes)) in
  List.filter is_management out = List.filter is_management (normalized_routes c) ∧
  List.filter (λ r, negb (is_management r)) out = forwardingRoutes ∧
  ∃ before after, out = before ++ forwardingRoutes ++ after.
Proof.
  intros Hf. assert (Hneg : List.filter (λ r, negb (is_management r)) forwardingRoutes = forwardingRoutes).
  { apply filter_all. eapply list.Forall_impl; [done|]. intros r ->. done. }
  unfold replaceAdvancedCustomForwardingRoutes. cbn zeta.
  destruct (find_index _ _) as [i|]; simpl.
  - rewrite !List.filter_app, !filter_filter_same, !filter_filter_negb, Hneg, (filter_none _ _ Hf), app_nil_r.
    simpl. rewrite <- List.filter_app, take_drop. split_and!; [done|done|]. by eexists _, _.
  - rewrite !List.filter_app, filter_filter_same, filter_filter_negb, Hneg, (filter_none _ _ Hf), app_nil_r.
    split_and!; [done|done|]. eexists _, []. by rewrite app_nil_r.
Qed.

Lemma replaceForwardingRoutes_spec_witness :
  let out := default [] (advanced_routes (replaceAdvancedCustomForwardingRoutes
    (mkConfig (Some [createAdvancedCustomManagementRoute ADVANCED_CUSTOM_MODEL_LIST_PATH]))
    [createAdvancedCustomRoute])) in
  List.filter (λ r, negb (is_management r)) out = [createAdvancedCustomRoute].
Proof.
  apply (replaceForwardingRoutes_spec
    (mkConfig (Some [createAdvancedCustomManagementRoute ADVANCED_CUSTOM_MODEL_LIST_PATH]))
    [createAdvancedCustomRoute]).
  constructor; [vm_compute; reflexivity|constructor].
Defined.
