(* ===== verification/Regex.v ===== *)
(** * Regular expressions of JavaScript

    The backtracking matcher of ECMAScript for the constructs the modelled code
    uses, and its meaning as a relation on words.  [go] is the matcher of the
    standard in continuation style: an alternative is tried from the left, a
    repetition prefers another round, a round that consumes nothing fails.
    [exec] is [RegExp.prototype.exec]: the leftmost position with a match.

    The expressions used here have no capture group inside a repetition, no
    repetition of an expression that matches the empty word, and neither the
    [m] nor the [i] nor the [u] flag. *)

From S2P Require Import Prelude.

Inductive re :=
| Eps
| Str (w : jstr)
| Chr (p : N → bool)
| Cat (a b : re)
| Alt (a b : re)
| Star (a : re)
| Cap (n : nat) (a : re)
| Ref (n : nat)
| Bol
| Eol
| Wordb.

Definition Plus (a : re) : re := Cat a (Star a).
Definition Opt (a : re) : re := Alt a Eps.
Definition cats (rs : list re) : re := foldr Cat Eps rs.
(** [w1|w2|...] for literal words. *)
Fixpoint alts (words : list string) : re :=
  match words with
  | [] => Eps
  | [w] => Str (js w)
  | w :: more => Alt (Str (js w)) (alts more)
  end.

(** *** Character classes *)
Definition line_terminator (c : N) : bool :=
  ((c =? 10) || (c =? 13) || (c =? 8232) || (c =? 8233))%N.
(** [.] *)
Definition dot : re := Chr (λ c, negb (line_terminator c)).
(** [\s] *)
Definition ws : re := Chr is_ws.
(** [\d] *)
Definition dig : re := Chr is_digit.
(** [\w], and the classes of the form [[...]] and [[^...]] *)
Definition is_word (c : N) : bool :=
  (is_digit c || ((65 <=? c) && (c <=? 90)) || ((97 <=? c) && (c <=? 122)) || (c =? 95))%N.
Definition one_of (cs : jstr) : re := Chr (λ c, bool_decide (c ∈ cs)).
Definition none_of (cs : jstr) : re := Chr (λ c, negb (bool_decide (c ∈ cs))).

(** *** The matcher *)

Abbreviation captures := (list (nat * jstr)).

(** A position in the input: the character before it, the input after it, and
    what the groups have captured so far. *)
Record place := mkPlace { prev : option N; rest : jstr; caps : captures }.

Definition after (before : option N) (w : jstr) : option N :=
  match list.last w with Some c => Some c | None => before end.

(** The last capture of group [n]; [None] is [undefined]. *)
Fixpoint grp (n : nat) (cs : captures) : option jstr :=
  match cs with
  | [] => None
  | (k, w) :: more => if (k =? n)%nat then Some w else grp n more
  end.

Definition go_str (w : jstr) (st : place) (k : place → option place) : option place :=
  if startsWith (rest st) w
  then k (mkPlace (after (prev st) w) (drop (length w) (rest st)) (caps st))
  else None.

(** A repetition, given the matcher of its body.  Each round consumes
    something, so the fuel [S (length (rest st))] is never used up. *)
Fixpoint go_star (body : place → (place → option place) → option place)
    (fuel : nat) (st : place) (k : place → option place) : option place :=
  match fuel with
  | O => k st
  | S f =>
      match body st (λ st', if (length (rest st') <? length (rest st))%nat
                            then go_star body f st' k else None) with
      | Some x => Some x
      | None => k st
      end
  end.

Fixpoint go (r : re) (st : place) (k : place → option place) : option place :=
  match r with
  | Eps => k st
  | Str w => go_str w st k
  | Chr p =>
      match rest st with
      | c :: t => if p c then k (mkPlace (Some c) t (caps st)) else None
      | [] => None
      end
  | Cat a b => go a st (λ st', go b st' k)
  | Alt a b => match go a st k with Some x => Some x | None => go b st k end
  | Star a => go_star (go a) (S (length (rest st))) st k
  | Cap n a =>
      go a st (λ st', k (mkPlace (prev st') (rest st')
        ((n, take (length (rest st) - length (rest st')) (rest st)) :: caps st')))
  | Ref n => match grp n (caps st) with Some w => go_str w st k | None => k st end
  | Bol => match prev st with None => k st | Some _ => None end
  | Eol => match rest st with [] => k st | _ => None end
  | Wordb =>
      if xorb (from_option is_word false (prev st)) (from_option is_word false (head (rest st)))
      then k st else None
  end.

(** A match: the text before it in what was searched, the text of the match,
    the captures and the text after it. *)
Record match_result :=
  mkMatch { skipped : jstr; matched_text : jstr; groups : captures; remaining : jstr }.

(** [re.exec(s)] from a position: the first position where the expression
    matches. *)
Fixpoint exec_from (r : re) (before : option N) (skip s : jstr) : option match_result :=
  match go r (mkPlace before s []) Some with
  | Some st' =>
      Some (mkMatch skip (take (length s - length (rest st')) s) (caps st') (rest st'))
  | None =>
      match s with
      | [] => None
      | c :: t => exec_from r (Some c) (skip ++ [c]) t
      end
  end.

(** [s.match(re)] without the [g] flag. *)
Definition exec (r : re) (s : jstr) : option match_result := exec_from r None [] s.
(** [re.test(s)] *)
Definition test (r : re) (s : jstr) : bool := bool_decide (is_Some (exec r s)).

(** The successive results of [re.exec(s)] with the [g] flag; the expressions
    used match no empty word, so every round consumes a character. *)
Fixpoint exec_all (fuel : nat) (r : re) (before : option N) (s : jstr) : list match_result :=
  match fuel with
  | O => []
  | S f =>
      match exec_from r before [] s with
      | None => []
      | Some m =>
          m :: exec_all f r (after before (skipped m ++ matched_text m)) (remaining m)
      end
  end.
Definition matchAll (r : re) (s : jstr) : list match_result := exec_all (S (length s)) r None s.

(** [s.replaceAll(re, by)] for a replacement without [$]. *)
Definition replaceAll (r : re) (by_ : jstr) (s : jstr) : jstr :=
  let ms := matchAll r s in
  concat (map (λ m, skipped m ++ by_) ms)
  ++ match list.last ms with Some m => remaining m | None => s end.

(** [s.split(re)] *)
Definition split_re (r : re) (s : jstr) : list jstr :=
  let ms := matchAll r s in
  map skipped ms ++ [match list.last ms with Some m => remaining m | None => s end].

(** [s.match(/^r$/)], the captures of a match of the whole string. *)
Definition whole (r : re) : re := Cat Bol (Cat r Eol).
Definition match_whole (r : re) (s : jstr) : option captures := groups <$> exec (whole r) s.

(** The group [n] of a match in which it took part. *)
Definition cap (n : nat) (cs : captures) : jstr := default [] (grp n cs).

(** ** Meaning

    [den r c w c']: [r] matches the word [w] and turns the captures [c] into
    [c'].  It is defined for the expressions that do not look around. *)

Inductive den_star (body : captures → jstr → captures → Prop) : captures → jstr → captures → Prop :=
| den_star_nil c : den_star body c [] c
| den_star_step c w c1 v c2 :
    w ≠ [] → body c w c1 → den_star body c1 v c2 → den_star body c (w ++ v) c2.

Fixpoint den (r : re) (c : captures) (w : jstr) (c' : captures) : Prop :=
  match r with
  | Eps => w = [] ∧ c' = c
  | Str v => w = v ∧ c' = c
  | Chr p => ∃ x, w = [x] ∧ p x = true ∧ c' = c
  | Cat a b => ∃ w1 w2 c1, w = w1 ++ w2 ∧ den a c w1 c1 ∧ den b c1 w2 c'
  | Alt a b => den a c w c' ∨ den b c w c'
  | Star a => den_star (den a) c w c'
  | Cap n a => ∃ c1, den a c w c1 ∧ c' = (n, w) :: c1
  | Ref n => w = default [] (grp n c) ∧ c' = c
  | Bol | Eol | Wordb => False
  end.

(** The expressions [den] covers. *)
Fixpoint no_look (r : re) : bool :=
  match r with
  | Cat a b | Alt a b => no_look a && no_look b
  | Star a | Cap _ a => no_look a
  | Bol | Eol | Wordb => false
  | _ => true
  end.

(** The place reached from [st] by the word [w] with captures [c']. *)
Definition reached (st : place) (w t : jstr) (c' : captures) : place :=
  mkPlace (after (prev st) w) t c'.

Lemma after_app b v w : after (after b v) w = after b (v ++ w).
Proof.
  unfold after. rewrite last_app. by destruct (list.last w).
Qed.

Lemma reached_app st v w t t' c c' : reached (reached st v t c) w t' c' = reached st (v ++ w) t' c'.
Proof. unfold reached. simpl. by rewrite after_app. Qed.

Lemma reached_nil st : reached st [] (rest st) (caps st) = st.
Proof. by destruct st. Qed.

Definition sound_at (body : place → (place → option place) → option place)
    (D : captures → jstr → captures → Prop) : Prop :=
  ∀ st k x, body st k = Some x →
  ∃ w t c', rest st = w ++ t ∧ D (caps st) w c' ∧ k (reached st w t c') = Some x.

Lemma go_str_sound w st k x :
  go_str w st k = Some x →
  ∃ t, rest st = w ++ t ∧ k (reached st w t (caps st)) = Some x.
Proof.
  unfold go_str. destruct (startsWith (rest st) w) eqn:E; [|done].
  apply startsWith_true in E as [t Ht]. intros Hk. exists t. split; [done|].
  unfold reached. rewrite Ht, drop_app_length in Hk. done.
Qed.

Lemma go_star_sound body D : sound_at body D →
  ∀ fuel st k x, go_star body fuel st k = Some x →
  ∃ w t c', rest st = w ++ t ∧ den_star D (caps st) w c' ∧ k (reached st w t c') = Some x.
Proof.
  intros Hb. induction fuel as [|f IH]; simpl; intros st k x H.
  - exists [], (rest st), (caps st). rewrite reached_nil. split_and!; [done|constructor|done].
  - destruct (body st _) as [y|] eqn:E; simplify_eq.
    + apply Hb in E as (w & t & c1 & Hw & HD & Hk). cbv beta in Hk.
      destruct (Nat.ltb_spec (length (rest (reached st w t c1))) (length (rest st))) as [Hl|]; [|done].
      apply IH in Hk as (v & t' & c2 & Hv & HS & Hk). simpl in *. subst t.
      exists (w ++ v), t', c2. rewrite reached_app in Hk. split_and!; [by rewrite <-app_assoc| |done].
      econstructor; [|done|done]. intros ->. simpl in *. rewrite Hw in Hl. simpl in Hl. lia.
    + exists [], (rest st), (caps st). rewrite reached_nil. split_and!; [done|constructor|done].
Qed.

Lemma go_sound r : no_look r = true → sound_at (go r) (den r).
Proof.
  induction r as [|w|p|a IHa b IHb|a IHa b IHb|a IHa|n a IHa|n| | |]; simpl; intros Hn st k x H;
    try discriminate; try apply andb_true_iff in Hn as [Hna Hnb].
  - exists [], (rest st), (caps st). rewrite reached_nil. done.
  - apply go_str_sound in H as (t & Ht & Hk). exists w, t, (caps st). done.
  - destruct (rest st) as [|c t] eqn:Hr; [done|]. destruct (p c) eqn:Hp; [|done].
    exists [c], t, (caps st). split_and!; [done| |done]. by exists c.
  - apply (IHa Hna) in H as (w & t & c1 & Hw & Ha & Hk).
    apply (IHb Hnb) in Hk as (v & t' & c2 & Hv & Hb & Hk). simpl in *. subst t.
    exists (w ++ v), t', c2. rewrite reached_app in Hk. split_and!; [by rewrite <-app_assoc| |done].
    by exists w, v, c1.
  - destruct (go a st k) as [y|] eqn:E; simplify_eq.
    + apply (IHa Hna) in E as (w & t & c1 & ? & ? & ?). exists w, t, c1. auto.
    + apply (IHb Hnb) in H as (w & t & c1 & ? & ? & ?). exists w, t, c1. auto.
  - by apply (go_star_sound (go a) (den a) (IHa Hn) (S (length (rest st)))).
  - apply (IHa Hn) in H as (w & t & c1 & Hw & Ha & Hk). simpl in Hk.
    exists w, t, ((n, w) :: c1). split_and!; [done|by exists c1|].
    rewrite Hw, length_app in Hk.
    replace (length w + length t - length t)%nat with (length w) in Hk by lia.
    by rewrite take_app_length in Hk.
  - destruct (grp n (caps st)) as [w|] eqn:E.
    + apply go_str_sound in H as (t & Ht & Hk). by exists w, t, (caps st).
    + exists [], (rest st), (caps st). by rewrite reached_nil.
Qed.

Definition complete_at (body : place → (place → option place) → option place)
    (D : captures → jstr → captures → Prop) : Prop :=
  ∀ st k w t c', rest st = w ++ t → D (caps st) w c' → is_Some (k (reached st w t c')) →
  is_Some (body st k).

Lemma go_str_complete w st k t :
  rest st = w ++ t → is_Some (k (reached st w t (caps st))) → is_Some (go_str w st k).
Proof.
  intros Ht Hk. unfold go_str. rewrite Ht, startsWith_app, drop_app_length. done.
Qed.

Lemma go_star_complete body D : complete_at body D →
  ∀ w c c', den_star D c w c' → ∀ fuel st k t,
  caps st = c → rest st = w ++ t → (length w < fuel)%nat →
  is_Some (k (reached st w t c')) → is_Some (go_star body fuel st k).
Proof.
  intros Hb w c c' HS. induction HS as [c|c w c1 v c2 Hw HD HS IH]; intros fuel st k t Hc Hr Hf Hk.
  - destruct fuel; [lia|]. cbn [go_star].
    destruct (body st _); [eauto|]. simpl in Hr. subst. by rewrite reached_nil in Hk.
  - destruct fuel as [|f]; [lia|]. cbn [go_star].
    match goal with |- is_Some (match body st ?k' with _ => _ end) =>
      assert (is_Some (body st k')) as [y ->]; [|eauto] end.
    rewrite length_app in Hf.
    assert (0 < length w)%nat by (destruct w; [done|simpl; lia]).
    eapply (Hb _ _ w (v ++ t)); [by rewrite Hr, <-app_assoc|by subst|]. cbn [rest reached].
    destruct (Nat.ltb_spec (length (v ++ t)) (length (rest st))) as [_|Hl].
    + eapply IH; [done|done|lia|]. by rewrite reached_app.
    + rewrite Hr, !length_app in Hl. lia.
Qed.

Lemma go_complete r : no_look r = true → complete_at (go r) (den r).
Proof.
  induction r as [|w|p|a IHa b IHb|a IHa b IHb|a IHa|n a IHa|n| | |]; simpl;
    intros Hn st k v t c' Hr Hd Hk;
    try discriminate; try apply andb_true_iff in Hn as [Hna Hnb].
  - destruct Hd as [-> ->]. simpl in Hr. subst. by rewrite reached_nil in Hk.
  - destruct Hd as [-> ->]. by eapply go_str_complete.
  - destruct Hd as (c & -> & Hp & ->). rewrite Hr. simpl. by rewrite Hp.
  - destruct Hd as (w1 & w2 & c1 & -> & Ha & Hb).
    eapply (IHa Hna); [by rewrite Hr, <-app_assoc|done|].
    eapply (IHb Hnb); [done|done|]. by rewrite reached_app.
  - destruct Hd as [Ha|Hb].
    + by destruct (IHa Hna st k v t c' Hr Ha Hk) as [y ->].
    + destruct (go a st k); [eauto|]. by eapply (IHb Hnb).
  - eapply (go_star_complete (go a) (den a) (IHa Hn) v (caps st) c' Hd (S (length (rest st))));
      [done|done|rewrite Hr, length_app; lia|done].
  - destruct Hd as (c1 & Ha & ->). eapply (IHa Hn); [done|done|]. cbn [rest reached prev].
    rewrite Hr, length_app. replace (length v + length t - length t)%nat with (length v) by lia.
    by rewrite take_app_length.
  - destruct Hd as [-> ->]. destruct (grp n (caps st)) as [w|].
    + by eapply go_str_complete.
    + simpl in Hr. subst. by rewrite reached_nil in Hk.
Qed.

(** ** Matching the whole string *)

Lemma exec_from_bol r c skip s : exec_from (Cat Bol r) (Some c) skip s = None.
Proof. revert c skip. induction s as [|d s IH]; intros; simpl; [done|]. apply IH. Qed.

Lemma match_whole_go r s : match_whole r s = caps <$> go (Cat r Eol) (mkPlace None s []) Some.
Proof.
  unfold match_whole, exec, whole. destruct s as [|c s]; cbn [exec_from].
  - change (go (Cat Bol (Cat r Eol)) (mkPlace None [] []) Some)
      with (go (Cat r Eol) (mkPlace None [] []) Some).
    by destruct (go _ _ _).
  - change (go (Cat Bol (Cat r Eol)) (mkPlace None (c :: s) []) Some)
      with (go (Cat r Eol) (mkPlace None (c :: s) []) Some).
    destruct (go _ _ _); [done|]. by rewrite exec_from_bol.
Qed.

Lemma match_whole_sound r s c :
  no_look r = true → match_whole r s = Some c → den r [] s c.
Proof.
  intros Hn. rewrite match_whole_go. cbn [go].
  destruct (go r _ _) as [st|] eqn:E; simpl; intros; simplify_eq.
  apply (go_sound r Hn) in E as (w & t & c' & Hs & Hd & Hk). cbn [rest reached] in *.
  destruct t; [|done]. simplify_eq/=. by rewrite app_nil_r.
Qed.

Lemma match_whole_complete r s c :
  no_look r = true → den r [] s c → is_Some (match_whole r s).
Proof.
  intros Hn Hd. rewrite match_whole_go. cbn [go]. apply fmap_is_Some.
  eapply (go_complete r Hn); [by rewrite app_nil_r|done|]. simpl. eauto.
Qed.

(** A string that [r] matches with only one outcome is matched so. *)
Lemma match_whole_unique r s c :
  no_look r = true → den r [] s c → (∀ c', den r [] s c' → c' = c) → match_whole r s = Some c.
Proof.
  intros Hn Hd Hu. destruct (match_whole_complete r s c Hn Hd) as [c' E]. rewrite E. f_equal.
  apply Hu. by apply match_whole_sound.
Qed.

Lemma match_whole_None r s :
  no_look r = true → (∀ c', ¬ den r [] s c') → match_whole r s = None.
Proof.
  intros Hn Hu. destruct (match_whole r s) as [c|] eqn:E; [|done].
  by apply match_whole_sound in E; [apply Hu in E|].
Qed.

(** ** Repetitions of a character class *)

Lemma den_star_chr p c w c' :
  den (Star (Chr p)) c w c' ↔ Forall (λ x, p x = true) w ∧ c' = c.
Proof.
  cbn [den]. split.
  - induction 1 as [c|c w c1 v c2 _ (x & -> & Hx & ->) _ [IH ->]]; [done|].
    split; [|done]. by constructor.
  - intros [Hw ->]. induction Hw as [|x w Hx _ IH]; [constructor|].
    eapply (den_star_step _ _ [x]); [done|by exists x|done].
Qed.

Lemma den_plus_chr p c w c' :
  den (Plus (Chr p)) c w c' ↔ w ≠ [] ∧ Forall (λ x, p x = true) w ∧ c' = c.
Proof.
  unfold Plus. cbn [den]. fold (den (Star (Chr p))). split.
  - intros (w1 & w2 & c1 & -> & (x & -> & Hx & ->) & H).
    apply den_star_chr in H as [Hw ->]. split_and!; [done|by constructor|done].
  - intros (Hne & Hw & ->). destruct w as [|x w]; [done|]. apply list.Forall_cons in Hw as [Hx Hw].
    exists [x], w, c. split_and!; [done|by exists x|]. by apply den_star_chr.
Qed.
