(* ===== verification/RegexRun.v ===== *)
(** * The first path of the matcher

    The matcher tries alternatives from the left and repeats as long as it can.
    [run r w t c c'] says that on [w ++ t] the first path of [r] that [r] itself
    does not close consumes [w]; if what follows succeeds there, so does the
    match.  [dead r s c] says that [r] matches at no prefix of [s].  Both compose
    along the structure of [r], which gives the result of [exec] and [matchAll]
    on generated texts. *)

From S2P Require Import Prelude Regex.

Definition run (r : re) (w t : jstr) (c c' : captures) : Prop :=
  ∀ before k x, k (mkPlace (after before w) t c') = Some x → go r (mkPlace before (w ++ t) c) k = Some x.

Definition dead (r : re) (s : jstr) (c : captures) : Prop :=
  ∀ before k, go r (mkPlace before s c) k = None.

(** The text does not go on with a character of the class. *)
Definition stops (P : N → bool) (t : jstr) : Prop := ∀ c t', t = c :: t' → P c = false.

Lemma stops_cons P c t : P c = false → stops P (c :: t).
Proof. intros H c' t' [= <- <-]. done. Qed.
Lemma stops_nil P : stops P [].
Proof. done. Qed.

(** ** Dead ends *)

Lemma dead_den r s c :
  no_look r = true → (∀ w t c', s = w ++ t → ¬ den r c w c') → dead r s c.
Proof.
  intros Hn H before k. destruct (go r _ k) as [x|] eqn:E; [|done].
  apply (go_sound r Hn) in E as (w & t & c' & Hs & Hd & _). by destruct (H w t c').
Qed.

Lemma dead_chr p t c : stops p t → dead (Chr p) t c.
Proof. intros H before k. cbn [go rest]. destruct t as [|x t]; [done|]. by rewrite (H x t). Qed.

Lemma dead_str w r s c : startsWith s w = false → dead (Cat (Str w) r) s c.
Proof. intros H before k. cbn [go]. unfold go_str. cbn [rest]. by rewrite H. Qed.

Lemma dead_after w r s c : dead r s c → dead (Cat (Str w) r) (w ++ s) c.
Proof.
  intros H before k. cbn [go]. unfold go_str. cbn [rest prev caps].
  rewrite startsWith_app, drop_app_length. apply H.
Qed.

Lemma dead_alt a b s c : dead a s c → dead b s c → dead (Alt a b) s c.
Proof. intros Ha Hb before k. cbn [go]. by rewrite Ha, Hb. Qed.

Lemma dead_cat a b s c : dead a s c → dead (Cat a b) s c.
Proof. intros Ha before k. cbn [go]. apply Ha. Qed.

Lemma dead_cap n a s c : dead a s c → dead (Cap n a) s c.
Proof. intros Ha before k. cbn [go]. apply Ha. Qed.

(** ** Paths *)

Lemma run_eps t c : run Eps [] t c c.
Proof. by intros before k x H. Qed.

Lemma run_str w t c : run (Str w) w t c c.
Proof.
  intros before k x H. cbn [go]. unfold go_str. cbn [rest prev caps].
  by rewrite startsWith_app, drop_app_length.
Qed.

Lemma run_chr (p : N → bool) x t c : p x = true → run (Chr p) [x] t c c.
Proof. intros Hp before k y H. cbn [go rest app]. by rewrite Hp. Qed.

Lemma run_cat a b w1 w2 t c c1 c2 :
  run a w1 (w2 ++ t) c c1 → run b w2 t c1 c2 → run (Cat a b) (w1 ++ w2) t c c2.
Proof.
  intros Ha Hb before k x H. cbn [go]. rewrite <-app_assoc. apply Ha, Hb. by rewrite after_app.
Qed.

Lemma run_alt_l a b w t c c' : run a w t c c' → run (Alt a b) w t c c'.
Proof. intros Ha before k x H. cbn [go]. by rewrite (Ha before k x H). Qed.

Lemma run_alt_r a b w t c c' : dead a (w ++ t) c → run b w t c c' → run (Alt a b) w t c c'.
Proof. intros Ha Hb before k x H. cbn [go]. rewrite Ha. by apply Hb. Qed.

(** An alternative that only fails with what comes after it. *)
Lemma run_alt_cat a b r w t c c' :
  dead (Cat a r) (w ++ t) c → run (Cat b r) w t c c' → run (Cat (Alt a b) r) w t c c'.
Proof.
  intros Ha Hb before k x H. cbn [go]. specialize (Ha before k). cbn [go] in Ha. rewrite Ha.
  by apply Hb.
Qed.

Lemma run_alt_cat_l a b r w t c c' : run (Cat a r) w t c c' → run (Cat (Alt a b) r) w t c c'.
Proof. intros Ha before k x H. pose proof (Ha before k x H) as E. cbn [go] in E |- *. by rewrite E. Qed.

Lemma run_cat_eps a w t c c' : run a w t c c' → run (Cat a Eps) w t c c'.
Proof. intros Ha before k x H. cbn [go]. by apply Ha. Qed.

Lemma run_cap n a w t c c' : run a w t c c' → run (Cap n a) w t c ((n, w) :: c').
Proof.
  intros Ha before k x H. cbn [go]. apply Ha. cbn [rest prev caps]. rewrite length_app.
  replace (length w + length t - length t)%nat with (length w) by lia. by rewrite take_app_length.
Qed.

Fixpoint runs (a : re) (ws : list jstr) (t : jstr) (c : captures) : Prop :=
  match ws with
  | [] => dead a t c
  | w :: rest => w ≠ [] ∧ run a w (concat rest ++ t) c c ∧ runs a rest t c
  end.

Lemma go_star_runs a ws t c : runs a ws t c →
  ∀ fuel before k x, (length (concat ws) < fuel)%nat → k (mkPlace (after before (concat ws)) t c) = Some x →
  go_star (go a) fuel (mkPlace before (concat ws ++ t) c) k = Some x.
Proof.
  induction ws as [|w ws IH]; intros Hr fuel before k x Hf H; (destruct fuel as [|f]; [lia|]); cbn [go_star concat] in *.
  - cbn [app]. by rewrite (Hr before).
  - destruct Hr as (Hne & Hw & Hr). rewrite <-app_assoc.
    rewrite (Hw before _ x); [done|]. cbn [rest].
    assert (0 < length w)%nat by (destruct w; [done|cbn; lia]). rewrite length_app in Hf.
    destruct (Nat.ltb_spec (length (concat ws ++ t)) (length (w ++ concat ws ++ t))) as [_|Hl];
      [|rewrite !length_app in Hl; lia].
    apply IH; [done|lia|by rewrite after_app].
Qed.

Lemma run_star a ws t c : runs a ws t c → run (Star a) (concat ws) t c c.
Proof.
  intros Hr before k x H. cbn [go rest]. apply go_star_runs; [done|rewrite length_app; lia|done].
Qed.

Lemma run_star_chr p w t c : Forall (λ x, p x = true) w → stops p t → run (Star (Chr p)) w t c c.
Proof.
  intros Hw Ht. assert (w = concat (map (λ x, [x]) w)) as E.
  { clear. induction w as [|x w IH]; [done|]. cbn [map concat app]. by rewrite <-IH. }
  rewrite E. apply run_star. clear E. induction Hw as [|x w Hx _ IH]; cbn [map runs]; [by apply dead_chr|].
  split_and!; [done|by apply run_chr|done].
Qed.

Lemma run_plus_chr p w t c :
  w ≠ [] → Forall (λ x, p x = true) w → stops p t → run (Plus (Chr p)) w t c c.
Proof.
  intros Hne Hw Ht. destruct w as [|x w]; [done|]. apply list.Forall_cons in Hw as [Hx Hw].
  apply (run_cat _ _ [x] w t c c c); [by apply run_chr|by apply run_star_chr].
Qed.

Lemma run_opt_none a t c : dead a t c → run (Opt a) [] t c c.
Proof. intros H. apply run_alt_r; [done|apply run_eps]. Qed.

(** ** Searching *)

Lemma exec_here r w t c' before skip :
  run r w t [] c' → exec_from r before skip (w ++ t) = Some (mkMatch skip w c' t).
Proof.
  intros Hr. pose proof (Hr before Some _ eq_refl) as E.
  destruct (w ++ t) as [|x s] eqn:Es; cbn [exec_from]; rewrite E; cbn [rest caps]; f_equal; f_equal.
  - by destruct w.
  - rewrite <-Es, length_app. replace (length w + length t - length t)%nat with (length w) by lia.
    by rewrite take_app_length.
Qed.

(** Positions without a match are passed over. *)
Definition skips (r : re) (u s : jstr) : Prop :=
  ∀ u1 u2, u = u1 ++ u2 → u2 ≠ [] → dead r (u2 ++ s) [].

Lemma skips_cons r x u s : skips r (x :: u) s → dead r (x :: u ++ s) [] ∧ skips r u s.
Proof.
  intros H. split; [by apply (H [] (x :: u))|]. intros u1 u2 -> Hne. by apply (H (x :: u1) u2).
Qed.

Lemma exec_skip r u s before skip :
  skips r u s → exec_from r before skip (u ++ s) = exec_from r (after before u) (skip ++ u) s.
Proof.
  revert before skip. induction u as [|x u IH]; intros before skip H.
  { by rewrite app_nil_r. }
  apply skips_cons in H as [Hd Hs]. cbn [app exec_from]. rewrite Hd. rewrite IH by done.
  rewrite <-app_assoc. f_equal. change (x :: u) with ([x] ++ u). by rewrite <-after_app.
Qed.

Lemma exec_none r s before skip : skips r s [] → dead r [] [] → exec_from r before skip s = None.
Proof.
  intros Hs H0. rewrite <-(app_nil_r s), exec_skip by done. cbn [exec_from]. by rewrite H0.
Qed.

(** The results of [matchAll]: the texts before each match, the matches with
    their captures, and a rest without a match. *)
Fixpoint finds (r : re) (ms : list (jstr * jstr * captures)) (rest : jstr) : Prop :=
  match ms with
  | [] => skips r rest [] ∧ dead r [] []
  | (u, w, c) :: more =>
      let t := concat (map (λ m, m.1.1 ++ m.1.2) more) ++ rest in
      w ≠ [] ∧ skips r u (w ++ t) ∧ run r w t [] c ∧ finds r more rest
  end.

Fixpoint found (ms : list (jstr * jstr * captures)) (rest : jstr) : list match_result :=
  match ms with
  | [] => []
  | (u, w, c) :: more =>
      mkMatch u w c (concat (map (λ m, m.1.1 ++ m.1.2) more) ++ rest) :: found more rest
  end.

Lemma exec_all_finds r ms t fuel before :
  finds r ms t → (length ms < fuel)%nat →
  exec_all fuel r before (concat (map (λ m, m.1.1 ++ m.1.2) ms) ++ t) = found ms t.
Proof.
  revert fuel before. induction ms as [|[[u w] c] ms IH]; intros fuel before Hf Hl; (destruct fuel as [|f]; [cbn in Hl; lia|]);
    cbn [exec_all finds found map concat] in *.
  - destruct Hf as [Hs H0]. cbn [app]. by rewrite exec_none.
  - destruct Hf as (Hne & Hs & Hr & Hf). cbn [fst snd]. rewrite <-!app_assoc.
    rewrite exec_skip by done. cbn [app]. rewrite (exec_here r w _ c) by done. cbn [skipped matched_text remaining].
    f_equal. apply IH; [done|cbn in Hl; lia].
Qed.

Lemma matchAll_finds r ms t :
  finds r ms t → matchAll r (concat (map (λ m, m.1.1 ++ m.1.2) ms) ++ t) = found ms t.
Proof.
  intros Hf. apply exec_all_finds; [done|]. apply Nat.lt_succ_r.
  rewrite length_app. apply Nat.le_trans with (length (concat (map (λ m, m.1.1 ++ m.1.2) ms))); [|lia].
  clear -Hf. induction ms as [|[[u w] c] ms IH]; [done|]. cbn [finds map concat length] in *.
  destruct Hf as (Hne & _ & _ & Hf). specialize (IH Hf). rewrite !length_app. cbn [fst snd].
  destruct w; [done|]. cbn [length]. lia.
Qed.

(** ** Characters *)

(** Every character the expression can match satisfies [P]. *)
Fixpoint over (P : N → Prop) (r : re) : Prop :=
  match r with
  | Eps => True
  | Str w => Forall P w
  | Chr p => ∀ x, p x = true → P x
  | Cat a b | Alt a b => over P a ∧ over P b
  | Star a | Cap _ a => over P a
  | _ => False
  end.

Lemma over_den P r c w c' : over P r → den r c w c' → Forall P w.
Proof.
  revert c w c'. induction r as [|v|p|a IHa b IHb|a IHa b IHb|a IHa|n a IHa|n| | |]; intros c w c' Ho Hd; cbn [over den] in *; try done.
  - destruct Hd as [-> _]. constructor.
  - by destruct Hd as [-> _].
  - destruct Hd as (x & -> & Hx & _). constructor; [by apply Ho|constructor].
  - destruct Ho as [Ha Hb]. destruct Hd as (w1 & w2 & c1 & -> & H1 & H2). apply list.Forall_app.
    split; [by eapply IHa|by eapply IHb].
  - destruct Ho as [Ha Hb]. destruct Hd as [H|H]; [by eapply IHa|by eapply IHb].
  - induction Hd as [c|c w c1 v c2 _ Hw _ IH]; [constructor|]. apply list.Forall_app. split; [by eapply IHa|done].
  - destruct Hd as (c1 & H & ->). by eapply IHa.
Qed.

Lemma match_whole_run r w c : run r w [] [] c → match_whole r w = Some c.
Proof.
  intros Hr. rewrite match_whole_go. specialize (Hr None (λ st', go Eol st' Some) _ eq_refl).
  rewrite app_nil_r in Hr.
  change (go (Cat r Eol) (mkPlace None w []) Some) with (go r (mkPlace None w []) (λ st', go Eol st' Some)).
  by rewrite Hr.
Qed.

(** One of several literal words. *)
Lemma den_alts ws c w c' : ws ≠ [] → den (alts ws) c w c' ↔ w ∈ map js ws ∧ c' = c.
Proof.
  induction ws as [|v [|v2 ws] IH]; intros Hne; [done| |].
  - cbn [alts den map]. rewrite list_elem_of_singleton. done.
  - change (alts (v :: v2 :: ws)) with (Alt (Str (js v)) (alts (v2 :: ws))).
    change (den (Alt ?a ?b) c w c') with (den a c w c' ∨ den b c w c').
    rewrite IH by done. cbn [den map]. rewrite !elem_of_cons. tauto.
Qed.

(** A sequence of expressions. *)
Inductive trail : list re → jstr → jstr → captures → captures → Prop :=
| trail_nil t c : trail [] [] t c c
| trail_cons r rs w1 w2 t c c1 c2 :
    run r w1 (w2 ++ t) c c1 → trail rs w2 t c1 c2 → trail (r :: rs) (w1 ++ w2) t c c2.

Lemma trail_run rs w t c c' : trail rs w t c c' → run (cats rs) w t c c'.
Proof. induction 1; [apply run_eps|by eapply run_cat]. Qed.

Lemma trail_app rs rs' w w' t c c1 c2 :
  trail rs w (w' ++ t) c c1 → trail rs' w' t c1 c2 → trail (rs ++ rs') (w ++ w') t c c2.
Proof.
  intros H H'. remember (w' ++ t) as u eqn:E. revert w' H' E.
  induction H as [u c|r rs w1 w2 u c c1 c3 Hr _ IH]; intros w' H' ->; [done|].
  cbn [app]. rewrite <-app_assoc. apply trail_cons with c1; [by rewrite <-app_assoc|]. by apply IH.
Qed.

Lemma skips_nil r s : skips r [] s.
Proof. intros u1 u2 H Hne. by destruct u1, u2. Qed.

Lemma skips_step r x u s : dead r (x :: u ++ s) [] → skips r u s → skips r (x :: u) s.
Proof.
  intros Hd Hs u1 u2 Heq Hne. destruct u1 as [|y u1]; cbn [app] in Heq; [by subst u2|].
  injection Heq as _ Heq. by apply (Hs u1 u2).
Qed.

Lemma den_cats_app rs rs' c w c' :
  den (cats (rs ++ rs')) c w c' → ∃ w1 w2 c1, w = w1 ++ w2 ∧ den (cats rs) c w1 c1 ∧ den (cats rs') c1 w2 c'.
Proof.
  revert c w. induction rs as [|r rs IH]; intros c w H; [by exists [], w, c|].
  destruct H as (w1 & w2 & c1 & -> & H1 & H2). apply IH in H2 as (w3 & w4 & c2 & -> & H3 & H4).
  exists (w1 ++ w3), w4, c2. rewrite <-app_assoc. split_and!; [done| |done]. by exists w1, w3, c1.
Qed.
