(* ===== verification/BillingExpr.v ===== *)
(** * Billing expressions

    Models [features/pricing/lib/billing-expr.ts] and the types it uses from
    [features/pricing/types.ts]: the price of a model as an expression such as
    [tier("base", p * 2.5 + c * 10)], with conditional tiers, multiplied by
    request rules such as [(hour("UTC") >= 9 ? 2 : 1)].  The parsers keep the
    regular expressions of the source.

    A function that may let an exception of [JSON.parse] escape returns an
    [option] whose [None] is the exception; the [null] of the source is the
    inner [None]. *)

From S2P Require Import Prelude JsValue Regex.

Module BillingExpr.

(** ** Variables *)

Inductive VarSide := side_input | side_output | side_condition.

Record BillingVar := mkVar {
  key : jstr; field : option jstr; tierField : option jstr; var_label : jstr; shortLabel : jstr;
  side : VarSide; isBase : bool; isConditionOnly : bool; group : option jstr }.

Definition BILLING_VARS : list BillingVar := [
  mkVar (js "p") (Some (js "inputPrice")) (Some (js "input_unit_cost"))
    (js "Input price") (js "Input") side_input true false None;
  mkVar (js "c") (Some (js "outputPrice")) (Some (js "output_unit_cost"))
    (js "Completion price") (js "Output") side_output true false None;
  mkVar (js "len") None None (js "Input length") (js "Length") side_condition false true None;
  mkVar (js "cr") (Some (js "cacheReadPrice")) (Some (js "cache_read_unit_cost"))
    (js "Cache read price") (js "Cache Read") side_input false false (Some (js "cache"));
  mkVar (js "cc") (Some (js "cacheCreatePrice")) (Some (js "cache_create_unit_cost"))
    (js "Cache create price") (js "Cache Write") side_input false false (Some (js "cache"));
  mkVar (js "cc1h") (Some (js "cacheCreate1hPrice")) (Some (js "cache_create_1h_unit_cost"))
    (js "Cache create (1h) price") (js "Cache Write (1h)") side_input false false (Some (js "cache"));
  mkVar (js "img") (Some (js "imagePrice")) (Some (js "image_unit_cost"))
    (js "Image input price") (js "Image In") side_input false false (Some (js "media"));
  mkVar (js "img_o") (Some (js "imageOutputPrice")) (Some (js "image_output_unit_cost"))
    (js "Image output price") (js "Image Out") side_output false false (Some (js "media"));
  mkVar (js "ai") (Some (js "audioInputPrice")) (Some (js "audio_input_unit_cost"))
    (js "Audio input price") (js "Audio In") side_input false false (Some (js "media"));
  mkVar (js "ao") (Some (js "audioOutputPrice")) (Some (js "audio_output_unit_cost"))
    (js "Audio output price") (js "Audio Out") side_output false false (Some (js "media")) ].

Definition BILLING_PRICING_VARS : list BillingVar :=
  filter (λ v, isConditionOnly v = false) BILLING_VARS.
Definition BILLING_CONDITION_VARS : list jstr :=
  map key (filter (λ v, isBase v || isConditionOnly v = true) BILLING_VARS).
Definition BILLING_VAR_KEY_TO_FIELD : list (jstr * jstr) :=
  map (λ v, (key v, default [] (field v))) BILLING_PRICING_VARS.
Definition BILLING_EXTRA_VARS : list BillingVar :=
  filter (λ v, isBase v || isConditionOnly v = false) BILLING_VARS.
(** Pairs of the field of a visual tier and the variable of the expression. *)
Definition BILLING_CACHE_VAR_MAP : list (jstr * jstr) :=
  map (λ v, (default [] (tierField v), key v)) BILLING_EXTRA_VARS.

(** [[\d.eE+-]] and [[\d.eE+]] *)
Definition num_char (c : N) : bool :=
  is_digit c || bool_decide (c ∈ js ".eE+-").
Definition cond_num_char (c : N) : bool :=
  is_digit c || bool_decide (c ∈ js ".eE+").
(** [w1|w2|...] *)
Fixpoint alt_of (words : list jstr) : re :=
  match words with
  | [] => Eps
  | [w] => Str w
  | w :: more => Alt (Str w) (alt_of more)
  end.

Definition BILLING_VAR_REGEX : re :=
  cats [Wordb; Cap 1 (alt_of (map key BILLING_PRICING_VARS)); Star ws; Str (js "*"); Star ws;
        Cap 2 (Plus (Chr num_char))].

(** ** Request rules: constants and data *)

Definition SOURCE_PARAM := js "param".
Definition SOURCE_HEADER := js "header".
Definition SOURCE_TIME := js "time".
Definition MATCH_EQ := js "eq".
Definition MATCH_CONTAINS := js "contains".
Definition MATCH_GT := js "gt".
Definition MATCH_GTE := js "gte".
Definition MATCH_LT := js "lt".
Definition MATCH_LTE := js "lte".
Definition MATCH_EXISTS := js "exists".
Definition MATCH_RANGE := js "range".

Inductive TimeFunc := hour | minute | weekday | month | day.
#[export] Instance TimeFunc_eq_dec : EqDecision TimeFunc.
Proof. solve_decision. Defined.

Definition TIME_FUNCS : list TimeFunc := [hour; minute; weekday; month; day].
Definition timeFunc_text (f : TimeFunc) : jstr :=
  match f with
  | hour => js "hour" | minute => js "minute" | weekday => js "weekday"
  | month => js "month" | day => js "day"
  end.
(** [isTimeFunc], with the value it recognizes. *)
Definition isTimeFunc (s : jstr) : option TimeFunc :=
  head (filter (λ f, timeFunc_text f = s) TIME_FUNCS).

(** [-?(?:\d+\.?\d*|\.\d+)(?:[eE][+-]?\d+)?] *)
Definition numeric_literal : re :=
  cats [Opt (Str (js "-"));
        Alt (cats [Plus dig; Opt (Str (js ".")); Star dig]) (cats [Str (js "."); Plus dig]);
        Opt (cats [one_of (js "eE"); Opt (one_of (js "+-")); Plus dig])].
(** [NUMERIC_LITERAL_REGEX.test(s)] *)
Definition is_numeric (s : jstr) : bool := bool_decide (is_Some (match_whole numeric_literal s)).

Inductive Source := param | header.
#[export] Instance Source_eq_dec : EqDecision Source.
Proof. solve_decision. Defined.
Definition source_text (s : Source) : jstr :=
  match s with param => SOURCE_PARAM | header => SOURCE_HEADER end.

Record ParamHeaderCondition :=
  mkParamHeader { source : Source; path : jstr; ph_mode : jstr; ph_value : jstr }.
Record TimeCondition := mkTime {
  timeFunc : TimeFunc; timezone : jstr; t_mode : jstr; t_value : jstr;
  rangeStart : jstr; rangeEnd : jstr }.
Inductive RequestCondition := CTime (t : TimeCondition) | CParamHeader (c : ParamHeaderCondition).

Record RequestRuleGroup := mkGroup {
  conditions : list RequestCondition; multiplier : jstr;
  conditionText : option jstr; matched : option bool }.

Record RequestRuleTrace := mkTrace { cond : jstr; trace_multiplier : jsnum; trace_matched : bool }.

Record TierCondition := mkTierCond { tc_var : jstr; tc_op : jstr; tc_value : jsnum }.
(** The price fields of a parsed tier are the values of [BILLING_VAR_KEY_TO_FIELD]. *)
Record ParsedTier := mkParsedTier {
  tier_label : jstr; tier_conditions : list TierCondition; tier_prices : list (jstr * jsnum) }.

Record TaskTierCondition := mkTaskCond { task_field : jstr; task_value : jstr }.
#[export] Instance TaskTierCondition_eq_dec : EqDecision TaskTierCondition.
Proof. solve_decision. Defined.
Record ParsedTaskTier := mkTaskTier {
  task_label : jstr; task_conditions : list TaskTierCondition;
  constant : jsnum; unitPrices : list (jstr * jsnum) }.

(** [BillingUsageSchema]: the usage fields a task model reports. *)
Inductive UsageType := type_number | type_boolean.
Inductive BillingUsageUnit := unit_second | unit_count | unit_token | unit_credit.
#[export] Instance UsageType_eq_dec : EqDecision UsageType.
Proof. solve_decision. Defined.
#[export] Instance BillingUsageUnit_eq_dec : EqDecision BillingUsageUnit.
Proof. solve_decision. Defined.
Record BillingUsageFieldSchema := mkField {
  type_ : option UsageType; unit_ : option BillingUsageUnit; enum : option (list jstr) }.
Abbreviation BillingUsageSchema := (list (jstr * BillingUsageFieldSchema)).

(** ** Tiers *)

Definition any : re := Chr (λ _, true).

Definition stripExprVersion (exprStr : jstr) : jsnum * jstr :=
  if negb (truthy exprStr) then (num_of_Z 1, [])
  else match match_whole (cats [Str (js "v"); Cap 1 (Plus dig); Str (js ":"); Cap 2 (Star any)]) exprStr with
       | Some m => (Number (cap 1 m), cap 2 m)
       | None => (num_of_Z 1, exprStr)
       end.

(** The coefficient of each variable: its first occurrence counts. *)
Definition tier_coeffs (bodyStr : jstr) : list (jstr * jsnum) :=
  foldl (λ coeffs m,
    let v := cap 1 (groups m) in
    match field_get v coeffs with
    | Some _ => coeffs
    | None => obj_set v (Number (cap 2 (groups m))) coeffs
    end) [] (matchAll BILLING_VAR_REGEX bodyStr).

(** [n || 0] *)
Definition num_or_zero (n : jsnum) : jsnum := if num_truthy n then n else S754_zero false.

Definition parseTierBody (bodyStr : jstr) : list (jstr * jsnum) :=
  let coeffs := tier_coeffs bodyStr in
  foldl (λ tier '(varName, field),
    obj_set field (from_option num_or_zero (S754_zero false) (field_get varName coeffs)) tier)
    [] BILLING_VAR_KEY_TO_FIELD.

Definition cond_var : re := alts ["p"; "c"; "len"].
Definition cond_op : re := alts ["<"; "<="; ">"; ">="].
(** One comparison, and a conjunction of them. *)
Definition cond_atom : re := cats [cond_var; Star ws; cond_op; Star ws; Plus (Chr cond_num_char)].
Definition condGroup : re :=
  Cat cond_atom (Star (cats [Star ws; Str (js "&&"); Star ws; cond_atom])).
Definition cond_separator : re := cats [Star ws; Str (js "&&"); Star ws].

Definition tierRe : re :=
  cats [Opt (cats [Cap 1 condGroup; Star ws; Str (js "?"); Star ws]);
        Str (jq "tier('"); Cap 2 (Star (none_of [34%N])); Str (jq "',"); Star ws;
        Cap 3 (Plus (none_of (js ")"))); Str (js ")")].

(** [^(p|c|len)\s*(<|<=|>|>=)\s*([\d.eE+]+)$] *)
Definition cond_part : re :=
  cats [Cap 1 cond_var; Star ws; Cap 2 cond_op; Star ws; Cap 3 (Plus (Chr cond_num_char))].

Definition parse_tier_conditions (condStr : jstr) : list TierCondition :=
  if truthy condStr
  then omap (λ cp, m ← match_whole cond_part (trim cp);
                   Some (mkTierCond (cap 1 m) (cap 2 m) (Number (cap 3 m))))
         (split_re cond_separator condStr)
  else [].

Definition parseTiersFromExpr (exprStr : jstr) : list ParsedTier :=
  if negb (truthy exprStr) then []
  else map (λ m, mkParsedTier (cap 2 (groups m)) (parse_tier_conditions (cap 1 (groups m)))
                   (parseTierBody (cap 3 (groups m))))
         (matchAll tierRe (stripExprVersion exprStr).2).

(** ** Request rules: splitting and parsing *)

(** The change of nesting depth at a character. *)
Definition paren_depth (c : N) (depth : Z) : Z :=
  if (c =? 40)%N then depth + 1 else if (c =? 41)%N then depth - 1 else depth.

(** The loop of [splitTopLevelMultiply] and [splitTopLevelAnd]: [cur] is the
    text since [start], [skip] counts the characters of a separator that are
    still to be passed over. *)
Fixpoint split_top (sep : jstr) (skip : nat) (depth : Z) (cur s : jstr) : list jstr :=
  match s with
  | [] => [trim cur]
  | c :: t =>
      match skip with
      | S k => split_top sep k depth cur t
      | O =>
          let depth := paren_depth c depth in
          if (depth =? 0) && startsWith s sep
          then trim cur :: split_top sep (length sep - 1) depth [] t
          else split_top sep O depth (cur ++ [c]) t
      end
  end.

Definition splitTopLevelMultiply (expr : jstr) : list jstr :=
  filter_truthy (split_top (js " * ") O 0 [] expr).
Definition splitTopLevelAnd (expr : jstr) : list jstr :=
  filter_truthy (split_top (js " && ") O 0 [] expr).

(** [JSON.parse(text) as string]; [None] is [null]. *)
Definition parseExprLiteral (raw : jstr) : option json :=
  let text := trim raw in
  if (text === js "true") || (text === js "false") then Some (JStr text)
  else if is_numeric text then Some (JStr text)
  else match JSON_parse text with Some JNull | None => None | Some v => Some v end.

Definition TIME_FUNC_RANGES (f : TimeFunc) : Z * Z :=
  match f with
  | hour => (0, 23) | minute => (0, 59) | weekday => (0, 6) | month => (1, 12) | day => (1, 31)
  end.

Definition isTimeValueInRange (f : TimeFunc) (text : jstr) : bool :=
  is_numeric text &&
  let value := Number text in
  isInteger value &&
  let '(min, max) := TIME_FUNC_RANGES f in
  num_leb (num_of_Z min) value && num_leb value (num_of_Z max).

Definition time_func_re : re := alts ["hour"; "minute"; "weekday"; "month"; "day"].
Definition not_quote : re := none_of [34%N].
Definition num_text : re := Plus (Chr num_char).

Definition time_range_re : re :=
  cats [Cap 1 time_func_re; Str (jq "('"); Cap 2 (Plus not_quote); Str (jq "') >= ");
        Cap 3 num_text; Str (js " "); alts ["&&"; "||"]; Str (js " ");
        Ref 1; Str (jq "('"); Ref 2; Str (jq "') < "); Cap 4 num_text].
Definition time_range_paren_re : re := cats [Str (js "("); time_range_re; Str (js ")")].
Definition time_scalar_re : re :=
  cats [Cap 1 time_func_re; Str (jq "('"); Cap 2 (Plus not_quote); Str (jq "') ");
        Cap 3 (alts ["=="; ">="; "<"]); Str (js " "); Cap 4 num_text].

(** The function named by group 1 of the expressions above. *)
Definition time_func_of (m : captures) : TimeFunc := default hour (isTimeFunc (cap 1 m)).

Definition time_op_mode (op : jstr) : jstr :=
  if op === js "==" then MATCH_EQ else if op === js ">=" then MATCH_GTE
  else if op === js "<" then MATCH_LT else MATCH_EQ.

Definition tryParseTimeCondition (expr : jstr) : option TimeCondition :=
  let m := match match_whole time_range_re expr with
           | Some m => Some m
           | None => match_whole time_range_paren_re expr
           end in
  match m with
  | Some m =>
      let f := time_func_of m in
      if negb (isTimeValueInRange f (cap 3 m)) || negb (isTimeValueInRange f (cap 4 m)) then None
      else Some (mkTime f (cap 2 m) MATCH_RANGE [] (cap 3 m) (cap 4 m))
  | None =>
      match match_whole time_scalar_re expr with
      | Some m =>
          let f := time_func_of m in
          if negb (isTimeValueInRange f (cap 4 m)) then None
          else Some (mkTime f (cap 2 m) (time_op_mode (cap 3 m)) (cap 4 m) [] [])
      | None => None
      end
  end.

(** A quoted string: characters other than quote and backslash, or a backslash
    with the character after it. *)
Definition string_literal : re :=
  cats [Str [34%N]; Star (Alt (none_of [34%N; 92%N]) (cats [Str [92%N]; dot])); Str [34%N]].

Definition header_exists_re : re :=
  cats [Str (jq "header('"); Cap 1 (Plus not_quote); Str (jq "') != ''")].
Definition param_exists_re : re :=
  cats [Str (jq "param('"); Cap 1 (Plus not_quote); Str (jq "') != nil")].
Definition header_has_re : re :=
  cats [Str (jq "has(header('"); Cap 1 (Plus not_quote); Str (jq "'), "); Cap 2 string_literal;
        Str (js ")")].
Definition param_has_re : re :=
  cats [Str (jq "param('"); Cap 1 (Plus not_quote); Str (jq "') != nil && has(param('");
        Cap 2 (Plus not_quote); Str (jq "'), "); Cap 3 string_literal; Str (js ")")].
Definition param_compare_re : re :=
  cats [Str (jq "param('"); Cap 1 (Plus not_quote); Str (jq "') != nil && param('");
        Cap 2 (Plus not_quote); Str (jq "') "); Cap 3 (alts [">"; ">="; "<"; "<="]); Str (js " ");
        Cap 4 num_text].
Definition equals_re : re :=
  cats [Cap 1 (alts ["param"; "header"]); Str (jq "('"); Cap 2 (Plus not_quote); Str (jq "') == ");
        Cap 3 (Plus dot)].

Definition compare_mode (op : jstr) : jstr :=
  if op === js ">" then MATCH_GT else if op === js ">=" then MATCH_GTE
  else if op === js "<" then MATCH_LT else MATCH_LTE.

Definition ph (s : Source) (p mode value : jstr) : RequestCondition :=
  CParamHeader (mkParamHeader s p mode value).

(** The last alternative of [tryParseRequestCondition]. *)
Definition parse_equals (expr : jstr) : option RequestCondition :=
  m ← match_whole equals_re expr;
  v ← parseExprLiteral (cap 3 m);
  Some (ph (if cap 1 m === SOURCE_PARAM then param else header) (cap 2 m) MATCH_EQ
          (json_to_string v)).

Definition parse_compare (expr : jstr) : option RequestCondition :=
  match match_whole param_compare_re expr with
  | Some m =>
      if cap 1 m === cap 2 m
      then Some (ph param (cap 1 m) (compare_mode (cap 3 m)) (cap 4 m))
      else parse_equals expr
  | None => parse_equals expr
  end.

Definition parse_param_has (expr : jstr) : option (option RequestCondition) :=
  match match_whole param_has_re expr with
  | Some m =>
      if cap 1 m === cap 2 m
      then v ← JSON_parse (cap 3 m);
           Some (Some (ph param (cap 1 m) MATCH_CONTAINS (json_to_string v)))
      else Some (parse_compare expr)
  | None => Some (parse_compare expr)
  end.

Definition tryParseRequestCondition (expr : jstr) : option (option RequestCondition) :=
  match tryParseTimeCondition expr with
  | Some tc => Some (Some (CTime tc))
  | None =>
      match match_whole header_exists_re expr with
      | Some m => Some (Some (ph header (cap 1 m) MATCH_EXISTS []))
      | None =>
          match match_whole param_exists_re expr with
          | Some m => Some (Some (ph param (cap 1 m) MATCH_EXISTS []))
          | None =>
              match match_whole header_has_re expr with
              | Some m =>
                  v ← JSON_parse (cap 2 m);
                  Some (Some (ph header (cap 1 m) MATCH_CONTAINS (json_to_string v)))
              | None => parse_param_has expr
              end
          end
      end
  end.

Definition tryParseTimeRangePair (lower upper : jstr) : option RequestCondition :=
  ta ← tryParseTimeCondition lower;
  tb ← tryParseTimeCondition upper;
  if negb (bool_decide (timeFunc ta = timeFunc tb)) || negb (timezone ta === timezone tb) then None
  else if negb (t_mode ta === MATCH_GTE) || negb (t_mode tb === MATCH_LT) then None
  else Some (CTime (mkTime (timeFunc ta) (timezone ta) MATCH_RANGE [] (t_value ta) (t_value tb))).

(** [list.push(x)] on a list that may be [null]. *)
Definition push {A} (x : A) (l : option (list A)) : option (list A) :=
  match l with Some l => Some (x :: l) | None => None end.

(** The loop over the parts of a conjunction. *)
Fixpoint parse_parts (andParts : list jstr) : option (option (list RequestCondition)) :=
  match andParts with
  | [] => Some (Some [])
  | part :: more =>
      let single :=
        c ← tryParseRequestCondition (trim part);
        match c with
        | None => Some None
        | Some c => cs ← parse_parts more; Some (push c cs)
        end in
      match more with
      | [] => single
      | next :: more' =>
          match (if truthy (trim next) then tryParseTimeRangePair (trim part) (trim next) else None) with
          | Some c => cs ← parse_parts more'; Some (push c cs)
          | None => single
          end
      end
  end.

Definition tryParseRequestConditions (conditionStr : jstr) : option (option (list RequestCondition)) :=
  match tryParseTimeCondition (trim conditionStr) with
  | Some tc => Some (Some [CTime tc])
  | None =>
      cs ← parse_parts (splitTopLevelAnd conditionStr);
      Some match cs with Some [] | None => None | Some cs => Some cs end
  end.

Definition factor_re : re :=
  cats [Str (js "("); Cap 1 (Plus any); Str (js " ? "); Cap 2 num_text; Str (js " : 1)")].

Definition tryParseRuleGroupFactor (part : jstr) : option (option RequestRuleGroup) :=
  match match_whole factor_re part with
  | None => Some None
  | Some m =>
      cs ← tryParseRequestConditions (cap 1 m);
      Some match cs with
           | Some cs => Some (mkGroup cs (cap 2 m) None None)
           | None => None
           end
  end.

Definition group_of_trace (rule : RequestRuleTrace) : option RequestRuleGroup :=
  let conditionText := trim (cond rule) in
  cs ← tryParseRequestConditions conditionText;
  Some (mkGroup (default [] cs) (num_to_string (trace_multiplier rule)) (Some conditionText)
          (Some (trace_matched rule))).
Definition requestRuleGroupsFromTrace (requestRules : list RequestRuleTrace)
    : option (list RequestRuleGroup) := mapM group_of_trace requestRules.

Fixpoint parse_factors (parts : list jstr) : option (option (list RequestRuleGroup)) :=
  match parts with
  | [] => Some (Some [])
  | part :: more =>
      g ← tryParseRuleGroupFactor part;
      match g with
      | None => Some None
      | Some g => gs ← parse_factors more; Some (push g gs)
      end
  end.

Definition tryParseRequestRuleExpr (expr : jstr) : option (option (list RequestRuleGroup)) :=
  let trimmed := trim expr in
  if negb (truthy trimmed) then Some (Some [])
  else parse_factors (splitTopLevelMultiply trimmed).

(** ** Combining and splitting *)

(** The loop of [hasFullOuterParens] over the characters from the current one
    on. *)
Fixpoint outer_parens (depth : Z) (s : jstr) : bool :=
  match s with
  | [] => depth =? 0
  | c :: t =>
      let depth := paren_depth c depth in
      if (depth =? 0) && truthy t then false else outer_parens depth t
  end.
Definition hasFullOuterParens (expr : jstr) : bool :=
  startsWith expr (js "(") && endsWith expr (js ")") && outer_parens 0 expr.

(** Each round removes two characters, so the length is enough fuel. *)
Fixpoint unwrap (fuel : nat) (current : jstr) : jstr :=
  match fuel with
  | O => current
  | S f => if hasFullOuterParens current
           then unwrap f (trim (slice current 1 (length current - 1))) else current
  end.
Definition unwrapOuterParens (expr : jstr) : jstr := unwrap (length expr) (trim expr).

(** Whether a factor parses as request rules. *)
Definition is_rule_part (part : jstr) : option bool :=
  parsed ← tryParseRequestRuleExpr part;
  Some (match parsed with Some (_ :: _) => true | _ => false end).

(** [parts.forEach]: the rule parts and the other parts. *)
Fixpoint partition_parts (parts : list jstr) : option (list jstr * list jstr) :=
  match parts with
  | [] => Some ([], [])
  | part :: more =>
      is_rule ← is_rule_part part;
      '(rules, bases) ← partition_parts more;
      Some (if (is_rule : bool) then (part :: rules, bases) else (rules, part :: bases))
  end.

(** The pair of [billingExpr] and [requestRuleExpr]. *)
Definition splitBillingExprAndRequestRules (expr : jstr) : option (jstr * jstr) :=
  let trimmed := trim expr in
  if negb (truthy trimmed) then Some ([], [])
  else
    match splitTopLevelMultiply trimmed with
    | [] | [_] => Some (trimmed, [])
    | parts =>
        '(ruleParts, baseParts) ← partition_parts parts;
        Some match ruleParts, baseParts with
             | _ :: _, [base] => (unwrapOuterParens base, join (js " * ") ruleParts)
             | _, _ => (trimmed, [])
             end
    end.

Definition combineBillingExpr (baseExpr requestRuleExpr : jstr) : jstr :=
  let base := trim baseExpr in
  let rules := trim requestRuleExpr in
  if negb (truthy base) then []
  else if negb (truthy rules) then base
  else js "(" ++ base ++ js ") * " ++ rules.

(** ** Task tiers

    The scanners of the source share their handling of quoted strings. *)

Inductive quoting := unquoted | in_string | after_backslash.

(** Inside a string: the state after the character. *)
Definition quote_step (q : quoting) (c : N) : quoting :=
  match q with
  | after_backslash => in_string
  | _ => if (c =? 92)%N then after_backslash else if (c =? 34)%N then unquoted else in_string
  end.

(** The loop of [findTaskTopLevelCharacter]; the result counts from the current
    character. *)
Fixpoint find_char (target : N) (depth : Z) (q : quoting) (s : jstr) : option nat :=
  match s with
  | [] => None
  | c :: t =>
      match q with
      | unquoted =>
          if (c =? 34)%N then S <$> find_char target depth in_string t
          else if (c =? 40)%N then S <$> find_char target (depth + 1) unquoted t
          else if (c =? 41)%N then
            if depth - 1 <? 0 then None else S <$> find_char target (depth - 1) unquoted t
          else if (depth =? 0) && (c =? target)%N then Some O
          else S <$> find_char target depth unquoted t
      | _ => S <$> find_char target depth (quote_step q c) t
      end
  end.
Definition findTaskTopLevelCharacter (expression : jstr) (target : N) : option nat :=
  find_char target 0 unquoted expression.

(** The loop of [findTaskTernaryColon] over the text after the question mark. *)
Fixpoint find_colon (depth ternaryDepth : Z) (q : quoting) (s : jstr) : option nat :=
  match s with
  | [] => None
  | c :: t =>
      match q with
      | unquoted =>
          if (c =? 34)%N then S <$> find_colon depth ternaryDepth in_string t
          else if (c =? 40)%N then S <$> find_colon (depth + 1) ternaryDepth unquoted t
          else if (c =? 41)%N then
            if depth - 1 <? 0 then None else S <$> find_colon (depth - 1) ternaryDepth unquoted t
          else if negb (depth =? 0) then S <$> find_colon depth ternaryDepth unquoted t
          else if (c =? 63)%N then S <$> find_colon depth (ternaryDepth + 1) unquoted t
          else if negb (c =? 58)%N then S <$> find_colon depth ternaryDepth unquoted t
          else if ternaryDepth =? 0 then Some O
          else S <$> find_colon depth (ternaryDepth - 1) unquoted t
      | _ => S <$> find_colon depth ternaryDepth (quote_step q c) t
      end
  end.
Definition findTaskTernaryColon (expression : jstr) (questionIndex : nat) : option nat :=
  Nat.add (S questionIndex) <$> find_colon 0 0 unquoted (drop (S questionIndex) expression).

Inductive task_operator := op_and | op_plus.

(** The loop of [splitTaskTopLevel]: [before] is the previous character, [skip]
    is set on the second character of [&&]. *)
Fixpoint split_task (op : task_operator) (before : option N) (skip : bool) (depth : Z)
    (q : quoting) (cur s : jstr) : list jstr :=
  match s with
  | [] => [trim cur]
  | c :: t =>
      if skip then split_task op (Some c) false depth q cur t
      else
        match q with
        | unquoted =>
            if (c =? 34)%N then split_task op (Some c) false depth in_string (cur ++ [c]) t
            else if (c =? 40)%N then split_task op (Some c) false (depth + 1) q (cur ++ [c]) t
            else if (c =? 41)%N then split_task op (Some c) false (depth - 1) q (cur ++ [c]) t
            else if negb (depth =? 0) then split_task op (Some c) false depth q (cur ++ [c]) t
            else
              match op with
              | op_and =>
                  if startsWith s (js "&&")
                  then trim cur :: split_task op (Some c) true depth q [] t
                  else split_task op (Some c) false depth q (cur ++ [c]) t
              | op_plus =>
                  if (c =? 43)%N && negb (bool_decide (before = Some 101%N))
                     && negb (bool_decide (before = Some 69%N))
                  then trim cur :: split_task op (Some c) false depth q [] t
                  else split_task op (Some c) false depth q (cur ++ [c]) t
              end
        | _ => split_task op (Some c) false depth (quote_step q c) (cur ++ [c]) t
        end
  end.
Definition splitTaskTopLevel (expression : jstr) (op : task_operator) : list jstr :=
  filter_truthy (split_task op None false 0 unquoted [] expression).

(** [u("field")], with the literal in group [n]. *)
Definition usage_re (n : nat) : re :=
  cats [Str (js "u("); Star ws; Cap n string_literal; Star ws; Str (js ")")].
Definition task_condition_re : re :=
  cats [usage_re 1; Star ws; Str (js "=="); Star ws; Cap 2 string_literal].
Definition bare_term_re : re :=
  cats [usage_re 1; Star ws; Str (js "*"); Star ws; Cap 2 numeric_literal].
Definition scaled_term_re : re :=
  cats [bare_term_re; Star ws; Str (js "/"); Star ws; Str (js "1000000")].

(** [JSON.parse(literal) as string] on a matched string literal; [None] is the
    exception, which the callers catch. *)
Definition parse_literal (s : jstr) : option jstr :=
  match JSON_parse s with Some (JStr v) => Some v | _ => None end.

Definition declared (schema : BillingUsageSchema) (field value : jstr) : bool :=
  match field_get field schema with
  | Some d => match enum d with Some values => bool_decide (value ∈ values) | None => false end
  | None => false
  end.

Definition parse_task_condition (schema : BillingUsageSchema) (part : jstr)
    : option TaskTierCondition :=
  m ← match_whole task_condition_re part;
  f ← parse_literal (cap 1 m);
  v ← parse_literal (cap 2 m);
  if declared schema f v then Some (mkTaskCond f v) else None.

Definition parseTaskConditions (expression : jstr) (schema : BillingUsageSchema)
    : option (list TaskTierCondition) :=
  match mapM (parse_task_condition schema) (splitTaskTopLevel expression op_and) with
  | Some [] | None => None
  | Some cs => Some cs
  end.

(** Names every object inherits, which [in] finds in an empty object too. *)
Definition inherited_names : list jstr :=
  map js ["constructor"; "__defineGetter__"; "__defineSetter__"; "hasOwnProperty";
          "__lookupGetter__"; "__lookupSetter__"; "isPrototypeOf"; "propertyIsEnumerable";
          "toString"; "valueOf"; "__proto__"; "toLocaleString"]%string.
(** [k in o] *)
Definition in_object {A} (k : jstr) (o : list (jstr * A)) : bool :=
  bool_decide (is_Some (field_get k o)) || bool_decide (k ∈ inherited_names).

(** What the loop over the terms has found: the constant and the unit prices. *)
Definition terms_so_far : Type := option jsnum * list (jstr * jsnum).

Definition parse_term (schema : BillingUsageSchema) (acc : terms_so_far) (term : jstr)
    : option terms_so_far :=
  let '(found, prices) := acc in
  if is_numeric term then
    let value := Number term in
    if bool_decide (is_Some found) || negb (isFinite value) || num_ltb value (S754_zero false)
    then None else Some (Some value, prices)
  else
    let scaledMatch := match_whole scaled_term_re term in
    m ← match scaledMatch with Some m => Some m | None => match_whole bare_term_re term end;
    f ← parse_literal (cap 1 m);
    let value := Number (cap 2 m) in
    d ← field_get f schema;
    if negb (bool_decide (type_ d = Some type_number)) || negb (bool_decide (is_Some (unit_ d)))
       || in_object f prices || negb (isFinite value) || num_ltb value (S754_zero false)
    then None
    else if Bool.eqb (bool_decide (unit_ d = Some unit_token)) (bool_decide (is_Some scaledMatch))
    then Some (found, obj_set f value prices) else None.

Fixpoint parse_terms (schema : BillingUsageSchema) (acc : terms_so_far) (terms : list jstr)
    : option terms_so_far :=
  match terms with
  | [] => Some acc
  | t :: more => acc ← parse_term schema acc t; parse_terms schema acc more
  end.

Definition parseTaskTierCall (expression : jstr) (conditions : list TaskTierCondition)
    (schema : BillingUsageSchema) : option ParsedTaskTier :=
  let trimmed := trim expression in
  if negb (startsWith trimmed (js "tier(")) || negb (endsWith trimmed (js ")")) then None
  else
    let inner := slice trimmed 5 (length trimmed - 1) in
    commaIndex ← findTaskTopLevelCharacter inner 44;
    label ← parse_literal (trim (take commaIndex inner));
    '(found, prices) ← parse_terms schema (None, [])
                         (splitTaskTopLevel (drop (S commaIndex) inner) op_plus);
    if negb (bool_decide (prices = [])) then
      Some (mkTaskTier label conditions (default (S754_zero false) found) prices)
    else None.

(** The [while] loop; every round removes at least the colon, so the length of
    the text plus one is enough fuel.  [None] is the empty result of a text the
    parser does not know. *)
Fixpoint parse_task_loop (fuel : nat) (schema : BillingUsageSchema) (remaining : jstr)
    : option (list ParsedTaskTier) :=
  match fuel with
  | O => None
  | S f =>
      if negb (truthy remaining) then Some []
      else
        match findTaskTopLevelCharacter remaining 63 with
        | None => tier ← parseTaskTierCall remaining [] schema; Some [tier]
        | Some questionIndex =>
            colonIndex ← findTaskTernaryColon remaining questionIndex;
            conditions ← parseTaskConditions (trim (take questionIndex remaining)) schema;
            tier ← parseTaskTierCall (trim (slice remaining (S questionIndex) colonIndex))
                     conditions schema;
            tiers ← parse_task_loop f schema (trim (drop (S colonIndex) remaining));
            Some (tier :: tiers)
        end
  end.

Definition parseTaskTiersFromExpr (exprStr : jstr) (schema : option BillingUsageSchema)
    : list ParsedTaskTier :=
  match schema with
  | Some ((_ :: _) as schema) =>
      if negb (truthy exprStr) then []
      else
        match splitBillingExprAndRequestRules exprStr with
        | None => []
        | Some (billingExpr, _) =>
            let versioned := trim (stripExprVersion billingExpr).2 in
            default [] (parse_task_loop (S (length versioned)) schema versioned)
        end
  | _ => []
  end.

(** [toLowerCase] rests on the Unicode tables. *)
Definition normalizeTierLabel (toLowerCase : jstr → jstr) (label : option jstr) : jstr :=
  match label with
  | None | Some [] => []
  | Some label =>
      let eq_sign := Opt (one_of [61; 65309]%N) in
      toLowerCase (replaceAll (Plus ws) []
        (replaceAll (Alt (Cat (Str (js ">")) eq_sign) (Alt (Str [8805%N]) (Cat (Str [65310%N]) eq_sign)))
           (js ">")
        (replaceAll (Alt (Cat (Str (js "<")) eq_sign) (Alt (Str [8804%N]) (Cat (Str [65308%N]) eq_sign)))
           (js "<") label)))
  end.

(** ** The rule editor *)

Definition createEmptyCondition : ParamHeaderCondition := mkParamHeader param [] MATCH_EQ [].
Definition createEmptyTimeCondition : TimeCondition :=
  mkTime hour (js "Asia/Shanghai") MATCH_GTE [] [] [].
Definition createEmptyRuleGroup : RequestRuleGroup :=
  mkGroup [CParamHeader createEmptyCondition] [] None None.
Definition createEmptyTimeRuleGroup : RequestRuleGroup :=
  mkGroup [CTime createEmptyTimeCondition] [] None None.

(** Pairs of value and label key. *)
Definition getRequestRuleMatchOptions (src : jstr) : list (jstr * jstr) :=
  if src === SOURCE_TIME then
    [(MATCH_EQ, js "Equals"); (MATCH_GTE, js "Greater than or equal");
     (MATCH_LT, js "Less than"); (MATCH_RANGE, js "Overnight range")]
  else
    let base := [(MATCH_EQ, js "Equals"); (MATCH_CONTAINS, js "Contains");
                 (MATCH_EXISTS, js "Exists")] in
    if src === SOURCE_HEADER then base
    else base ++ [(MATCH_GT, js "Greater than"); (MATCH_GTE, js "Greater than or equal");
                  (MATCH_LT, js "Less than"); (MATCH_LTE, js "Less than or equal")].

(** [Partial<RequestCondition>]: every property may be missing. *)
Record PartialCondition := mkPartial {
  p_source : option jstr; p_path : option jstr; p_mode : option jstr; p_value : option jstr;
  p_timeFunc : option jstr; p_timezone : option jstr;
  p_rangeStart : option jstr; p_rangeEnd : option jstr }.

Definition partial_of (c : RequestCondition) : PartialCondition :=
  match c with
  | CTime t => mkPartial (Some SOURCE_TIME) None (Some (t_mode t)) (Some (t_value t))
                 (Some (timeFunc_text (timeFunc t))) (Some (timezone t))
                 (Some (rangeStart t)) (Some (rangeEnd t))
  | CParamHeader c => mkPartial (Some (source_text (source c))) (Some (path c)) (Some (ph_mode c))
                        (Some (ph_value c)) None None None None
  end.

Definition has_mode (options : list (jstr * jstr)) (mode : option jstr) : option jstr :=
  m ← mode; if bool_decide (m ∈ options.*1) then Some m else None.

Definition normalizeTime (c : PartialCondition) : TimeCondition :=
  mkTime (default hour (p_timeFunc c ≫= isTimeFunc))
    (opt_or_else (p_timezone c) (js "Asia/Shanghai"))
    (default MATCH_GTE (has_mode (getRequestRuleMatchOptions SOURCE_TIME) (p_mode c)))
    (default [] (p_value c)) (default [] (p_rangeStart c)) (default [] (p_rangeEnd c)).

Definition normalizeParamHeader (src : Source) (c : PartialCondition) : ParamHeaderCondition :=
  mkParamHeader src (default [] (p_path c))
    (default MATCH_EQ (has_mode (getRequestRuleMatchOptions (source_text src)) (p_mode c)))
    (default [] (p_value c)).

Definition normalizeCondition (c : PartialCondition) : RequestCondition :=
  if bool_decide (p_source c = Some SOURCE_TIME) then CTime (normalizeTime c)
  else CParamHeader (normalizeParamHeader
    (if bool_decide (p_source c = Some SOURCE_HEADER) then header else param) c).

Definition buildExprLiteral (mode value : jstr) : jstr :=
  let text := trim value in
  if mode === MATCH_CONTAINS then quote text
  else if (text === js "true") || (text === js "false") then text
  else if is_numeric text then text
  else quote text.

Definition time_mode_op (mode : jstr) : jstr :=
  if mode === MATCH_EQ then js "==" else if mode === MATCH_GTE then js ">="
  else if mode === MATCH_LT then js "<" else js "==".

Definition buildTimeConditionExpr (c : TimeCondition) : jstr :=
  let n := normalizeTime (partial_of (CTime c)) in
  let fn := timeFunc_text (timeFunc n) ++ js "(" ++ quote (timezone n) ++ js ")" in
  if t_mode n === MATCH_RANGE then
    let s := trim (rangeStart n) in
    let e := trim (rangeEnd n) in
    if negb (isTimeValueInRange (timeFunc n) s) || negb (isTimeValueInRange (timeFunc n) e) then []
    else if num_ltb (Number e) (Number s)
    then fn ++ js " >= " ++ s ++ js " || " ++ fn ++ js " < " ++ e
    else fn ++ js " >= " ++ s ++ js " && " ++ fn ++ js " < " ++ e
  else
    let v := trim (t_value n) in
    if negb (isTimeValueInRange (timeFunc n) v) then []
    else fn ++ js " " ++ time_mode_op (t_mode n) ++ js " " ++ v.

Definition compare_op (mode : jstr) : option jstr :=
  if mode === MATCH_GT then Some (js ">") else if mode === MATCH_GTE then Some (js ">=")
  else if mode === MATCH_LT then Some (js "<") else if mode === MATCH_LTE then Some (js "<=")
  else None.

Definition buildParamHeaderExpr (c : ParamHeaderCondition) : jstr :=
  let n := normalizeParamHeader (source c) (partial_of (CParamHeader c)) in
  let path := trim (path n) in
  if negb (truthy path) then []
  else
    let sourceExpr := source_text (source n) ++ js "(" ++ quote path ++ js ")" in
    if ph_mode n === MATCH_EXISTS then
      match source n with
      | header => sourceExpr ++ jq " != ''"
      | param => sourceExpr ++ js " != nil"
      end
    else if ph_mode n === MATCH_CONTAINS then
      let has := js "has(" ++ sourceExpr ++ js ", " ++ buildExprLiteral (ph_mode n) (ph_value n) ++ js ")" in
      match source n with
      | header => has
      | param => sourceExpr ++ js " != nil && " ++ has
      end
    else match compare_op (ph_mode n) with
         | Some op =>
             let numText := trim (ph_value n) in
             if negb (is_numeric numText) then []
             else sourceExpr ++ js " != nil && " ++ sourceExpr ++ js " " ++ op ++ js " " ++ numText
         | None => sourceExpr ++ js " == " ++ buildExprLiteral (ph_mode n) (ph_value n)
         end.

Definition buildRequestConditionExpr (c : RequestCondition) : jstr :=
  match c with
  | CTime t => buildTimeConditionExpr t
  | CParamHeader c => buildParamHeaderExpr c
  end.

Definition wrap_or (e : jstr) : jstr :=
  if includes e (js " || ") then js "(" ++ e ++ js ")" else e.

Definition buildRuleGroupFactor (g : RequestRuleGroup) : jstr :=
  let mult := trim (multiplier g) in
  if negb (is_numeric mult) then []
  else
    let factor combined := js "(" ++ combined ++ js " ? " ++ mult ++ js " : 1)" in
    match filter_truthy (map buildRequestConditionExpr (conditions g)) with
    | [] => []
    | [e] => factor e
    | condExprs => factor (join (js " && ") (map wrap_or condExprs))
    end.

Definition buildRequestRuleExpr (groups : list RequestRuleGroup) : jstr :=
  join (js " * ") (filter_truthy (map buildRuleGroupFactor groups)).

(** ** Examples *)

Example parseTiers_ex :
  parseTiersFromExpr (jq "v1:len <= 200000 && p > 5 ? tier('std', p * 1.5 + c * 10 + cr * 0.3) : tier('long', p * 3 + c * 20)")
  = [mkParsedTier (js "std") [mkTierCond (js "len") (js "<=") (num_of_Z 200000); mkTierCond (js "p") (js ">") (num_of_Z 5)]
       (parseTierBody (js "p * 1.5 + c * 10 + cr * 0.3"));
     mkParsedTier (js "long") [] (parseTierBody (js "p * 3 + c * 20"))].
Proof. vm_compute. reflexivity. Qed.

Example parseTierBody_ex :
  num_to_string ∘ snd <$> parseTierBody (js "p * 1.5 + c * 10 + img_o * 0.3")
  = [js "1.5"; js "10"; js "0"; js "0"; js "0"; js "0"; js "0.3"; js "0"; js "0"].
Proof. vm_compute. reflexivity. Qed.

Example split_ex :
  splitBillingExprAndRequestRules (jq "(tier('b', p * 1 + c * 2)) * (header('x') == 'a' ? 2 : 1) * (hour('UTC') >= 9 && hour('UTC') < 12 ? 0.5 : 1)")
  = Some (jq "tier('b', p * 1 + c * 2)",
          jq "(header('x') == 'a' ? 2 : 1) * (hour('UTC') >= 9 && hour('UTC') < 12 ? 0.5 : 1)").
Proof. vm_compute. reflexivity. Qed.

Example rules_ex :
  tryParseRequestRuleExpr (jq "(hour('UTC') >= 9 && hour('UTC') < 12 && (minute('UTC') >= 50 || minute('UTC') < 5) && header('x') == 'a' ? 0.5 : 1)")
  = Some (Some [mkGroup [CTime (mkTime hour (js "UTC") MATCH_RANGE [] (js "9") (js "12"));
                         CTime (mkTime minute (js "UTC") MATCH_RANGE [] (js "50") (js "5"));
                         ph header (js "x") MATCH_EQ (js "a")] (js "0.5") None None]).
Proof. vm_compute. reflexivity. Qed.

Example task_ex :
  let schema := [(js "sec", mkField (Some type_number) (Some unit_second) None);
                 (js "tok", mkField (Some type_number) (Some unit_token) None);
                 (js "mode", mkField None None (Some [js "a"; js "b:?"]))] in
  let prices := [(js "sec", num_of_dec false 5 (-1)); (js "tok", num_of_dec false 1 21)] in
  parseTaskTiersFromExpr
    (jq "u('mode') == 'b:?' ? tier('x', 2 + u('sec') * 0.5 + u('tok') * 1e+21 / 1000000) : tier('y', u('sec') * 0.5)")
    (Some schema)
  = [mkTaskTier (js "x") [mkTaskCond (js "mode") (js "b:?")] (num_of_Z 2) prices;
     mkTaskTier (js "y") [] (S754_zero false) [(js "sec", num_of_dec false 5 (-1))]].
Proof. vm_compute. reflexivity. Qed.

Example label_ex :
  normalizeTierLabel (λ s, s) (Some (js "a <= b " ++ [8805%N] ++ js " c >d")) = js "a<b>c>d".
Proof. vm_compute. reflexivity. Qed.

End BillingExpr.
