(* ===== verification/TaskExpr.v ===== *)
(** * Prices of task models

    Models [features/pricing/lib/task-expr.ts] and
    [features/pricing/lib/breakdown-tier-match.ts]: the visual editor of task
    prices, the matrix of enum combinations, the local evaluation of a price and
    the generation of billing expressions.  The order of [localeCompare] depends
    on the browser's locale and is a parameter.  An object is the list of its
    properties in property order. *)

From stdpp Require Import sorting.
From S2P Require Import Prelude StableSort JsValue Regex BillingExpr.
Import BillingExpr.

Module TaskExpr.

Definition TASK_TOKEN_PRICE_SCALE : jsnum := num_of_Z 1000000.

(** [TaskVisualTier] has the properties of [ParsedTaskTier]. *)
Abbreviation TaskVisualTier := ParsedTaskTier.
Abbreviation TaskVisualCondition := TaskTierCondition.
Record TaskVisualConfig := mkVisual { tiers : list TaskVisualTier }.

Record TaskMatrixRow := mkRow {
  combination : list (jstr * jstr); row_constant : jsnum; row_prices : list (jstr * jsnum) }.
Record TaskMatrixConfig := mkMatrix { rows : list TaskMatrixRow }.

(** A usage fact: a number or a string. *)
Inductive fact := FNum (n : jsnum) | FStr (s : jstr).
Definition fact_number (f : option fact) : jsnum :=
  match f with Some (FNum n) => n | Some (FStr s) => Number s | None => S754_nan end.
Definition fact_string (f : fact) : jstr :=
  match f with FNum n => num_to_string n | FStr s => s end.

Inductive part_kind := kind_constant | kind_usage.
Record PreviewPart := mkPart {
  kind : part_kind; part_field : option jstr; amount : jsnum;
  quantity : option jsnum; unitPrice : option jsnum }.
Record TaskPreviewResult := mkPreview {
  tier : TaskVisualTier; total : jsnum; parts : list PreviewPart }.

Record BillingUsageExample := mkExample { ex_label : jstr; facts : list (jstr * fact) }.

Definition zero : jsnum := S754_zero false.

(** [a === b] where both may be [undefined]. *)
Definition opt_num_eqb (a b : option jsnum) : bool :=
  match a, b with
  | Some a, Some b => num_eqb a b
  | None, None => true
  | _, _ => false
  end.

Section locale.
(** [left.localeCompare(right) <= 0] *)
Context (locale_le : jstr → jstr → bool).

Definition entry_le {A} (a b : jstr * A) : Prop := locale_le a.1 b.1 = true.
#[local] Instance entry_le_dec {A} : RelDecision (@entry_le A).
Proof. intros a b. unfold entry_le. apply _. Defined.

(** [Object.entries(o).sort(([l], [r]) => l.localeCompare(r))]; the sort is
    stable. *)
Definition sort_entries {A} (l : list (jstr * A)) : list (jstr * A) := stable_sort entry_le l.

Definition is_number_field (d : BillingUsageFieldSchema) : bool :=
  bool_decide (type_ d = Some type_number) && bool_decide (is_Some (unit_ d)).
Definition enum_values (d : BillingUsageFieldSchema) : list jstr := default [] (enum d).

Definition getTaskNumberFields (schema : option BillingUsageSchema)
    : list (jstr * BillingUsageFieldSchema) :=
  match schema with
  | None => []
  | Some schema => sort_entries (filter (λ e, is_number_field e.2 = true) schema)
  end.

Definition getTaskEnumFields (schema : option BillingUsageSchema)
    : list (jstr * BillingUsageFieldSchema) :=
  match schema with
  | None => []
  | Some schema => sort_entries (filter (λ e, enum_values e.2 ≠ []) schema)
  end.

(** Every combination with one more field. *)
Definition extend_combinations (combinations : list (list (jstr * jstr)))
    (e : jstr * BillingUsageFieldSchema) : list (list (jstr * jstr)) :=
  c ← combinations; v ← enum_values e.2; [obj_set e.1 v c].

Definition getTaskEnumCombinations (schema : option BillingUsageSchema)
    : list (list (jstr * jstr)) :=
  foldl extend_combinations [[]] (getTaskEnumFields schema).

Definition zero_prices (schema : BillingUsageSchema) : list (jstr * jsnum) :=
  fromEntries (map (λ e, (e.1, zero)) (getTaskNumberFields (Some schema))).

Definition createDefaultTaskVisualConfig (schema : BillingUsageSchema) : TaskVisualConfig :=
  mkVisual [mkTaskTier (js "base") [] zero (zero_prices schema)].

Definition createDefaultTaskMatrixConfig (schema : BillingUsageSchema) : TaskMatrixConfig :=
  mkMatrix (map (λ c, mkRow c zero (zero_prices schema)) (getTaskEnumCombinations (Some schema))).

Definition taskMatrixRowLabel (c : list (jstr * jstr)) : jstr :=
  match (sort_entries c).*2 with
  | [] => js "base"
  | values => join [183%N] values
  end.

Definition taskMatrixCombinationKey (c : list (jstr * jstr))
    (enumFields : list (jstr * BillingUsageFieldSchema)) : jstr :=
  JSON_stringify (JArr (map (λ e, from_option JStr JNull (field_get e.1 c)) enumFields)).

(** The prices of the number fields, 0 where there is none. *)
Definition prices_of (numberFields : list (jstr * BillingUsageFieldSchema))
    (prices : list (jstr * jsnum)) : list (jstr * jsnum) :=
  fromEntries (map (λ e, (e.1, default zero (field_get e.1 prices))) numberFields).

Definition same_prices (numberFields : list (jstr * BillingUsageFieldSchema))
    (a b : TaskMatrixRow) : bool :=
  num_eqb (row_constant a) (row_constant b)
  && forallb (λ e, opt_num_eqb (field_get e.1 (row_prices a)) (field_get e.1 (row_prices b)))
       numberFields.

Definition conditions_of (c : list (jstr * jstr)) : list TaskVisualCondition :=
  map (λ e, mkTaskCond e.1 e.2) (sort_entries c).

(** The tier of a row; the last row is the fallback without conditions. *)
Definition row_tier (numberFields : list (jstr * BillingUsageFieldSchema)) (is_last : bool)
    (row : TaskMatrixRow) : TaskVisualTier :=
  mkTaskTier (taskMatrixRowLabel (combination row))
    (if is_last then [] else conditions_of (combination row))
    (row_constant row) (prices_of numberFields (row_prices row)).

Definition taskMatrixToTiers (config : TaskMatrixConfig) (schema : BillingUsageSchema)
    : list TaskVisualTier :=
  let numberFields := getTaskNumberFields (Some schema) in
  match numberFields, rows config with
  | _ :: _, firstRow :: _ =>
      if forallb (λ row, same_prices numberFields row firstRow) (rows config) then
        [mkTaskTier (js "base") [] (row_constant firstRow)
           (prices_of numberFields (row_prices firstRow))]
      else
        imap (λ index row,
          row_tier numberFields (index =? length (rows config) - 1)%nat row) (rows config)
  | _, _ => []
  end.

(** The values the conditions of a tier give to the fields; [None] for a
    repeated or unknown one. *)
Fixpoint values_by_field (schema : BillingUsageSchema) (acc : gmap jstr jstr)
    (cs : list TaskTierCondition) : option (gmap jstr jstr) :=
  match cs with
  | [] => Some acc
  | c :: more =>
      if bool_decide (is_Some (acc !! task_field c))
         || negb (declared schema (task_field c) (task_value c)) then None
      else values_by_field schema (<[task_field c := task_value c]> acc) more
  end.

Fixpoint tiers_by_combination (schema : BillingUsageSchema)
    (enumFields : list (jstr * BillingUsageFieldSchema)) (acc : gmap jstr ParsedTaskTier)
    (ts : list ParsedTaskTier) : option (gmap jstr ParsedTaskTier) :=
  match ts with
  | [] => Some acc
  | t :: more =>
      if negb (length (task_conditions t) =? length enumFields)%nat then None
      else
        values ← values_by_field schema ∅ (task_conditions t);
        if negb (size values =? length enumFields)%nat then None
        else
          let c := fromEntries (map (λ e, (e.1, default [] (values !! e.1))) enumFields) in
          let key := taskMatrixCombinationKey c enumFields in
          if bool_decide (is_Some (acc !! key)) then None
          else tiers_by_combination schema enumFields (<[key := t]> acc) more
  end.

Definition matrix_row (numberFields : list (jstr * BillingUsageFieldSchema))
    (t : ParsedTaskTier) (c : list (jstr * jstr)) : TaskMatrixRow :=
  mkRow c (constant t) (prices_of numberFields (unitPrices t)).

(** The rows of a list of tiers that covers every combination once. *)
Definition matrix_of_tiers (schema : BillingUsageSchema) (ts : list ParsedTaskTier)
    : option TaskMatrixConfig :=
  let enumFields := getTaskEnumFields (Some schema) in
  let numberFields := getTaskNumberFields (Some schema) in
  let combinations := getTaskEnumCombinations (Some schema) in
  if negb (length ts =? length combinations)%nat then None
  else
    fallbackTier ← list.last ts;
    if negb (bool_decide (task_conditions fallbackTier = [])) then None
    else
      byKey ← tiers_by_combination schema enumFields ∅ (take (length ts - 1) ts);
      match filter (λ c, byKey !! taskMatrixCombinationKey c enumFields = None) combinations with
      | [missing] =>
          let byKey := <[taskMatrixCombinationKey missing enumFields := fallbackTier]> byKey in
          rs ← mapM (λ c, t ← byKey !! taskMatrixCombinationKey c enumFields;
                          Some (matrix_row numberFields t c)) combinations;
          Some (mkMatrix rs)
      | _ => None
      end.

Definition tryParseTaskMatrixConfig (expression : option jstr) (schema : BillingUsageSchema)
    : option TaskMatrixConfig :=
  match expression with
  | None | Some [] => None
  | Some expression =>
      match parseTaskTiersFromExpr expression (Some schema) with
      | [] => None
      | [t] =>
          if bool_decide (task_conditions t = [])
          then Some (mkMatrix (map (matrix_row (getTaskNumberFields (Some schema)) t)
                                 (getTaskEnumCombinations (Some schema))))
          else matrix_of_tiers schema [t]
      | ts => matrix_of_tiers schema ts
      end
  end.

(** *** Local evaluation *)

Definition condition_holds (sample : list (jstr * fact)) (c : TaskVisualCondition) : bool :=
  match field_get (task_field c) sample with
  | Some (FStr s) => s === task_value c
  | _ => false
  end.

(** The first tier before the last whose conditions hold, or the last tier. *)
Definition matched_tier (sample : list (jstr * fact)) (fallback : TaskVisualTier)
    (ts : list TaskVisualTier) : TaskVisualTier :=
  default fallback
    (head (filter (λ t, forallb (condition_holds sample) (task_conditions t) = true)
             (take (length ts - 1) ts))).

(** [Number.isFinite(n) && n >= 0], as the code tests it. *)
Definition usable (n : jsnum) : bool := isFinite n && negb (num_ltb n zero).

(** The usage parts and the running total. *)
Fixpoint usage_parts (sample : list (jstr * fact)) (schema : option BillingUsageSchema)
    (sofar : jsnum) (prices : list (jstr * jsnum)) : option (list PreviewPart * jsnum) :=
  match prices with
  | [] => Some ([], sofar)
  | (field, unitPrice) :: more =>
      if negb (usable unitPrice) then None
      else if num_eqb unitPrice zero then usage_parts sample schema sofar more
      else
        let quantity := fact_number (field_get field sample) in
        if negb (usable quantity) then None
        else
          let by_token := bool_decide ((schema ≫= field_get field) ≫= unit_ = Some unit_token) in
          let amount := if by_token then num_div (num_mul quantity unitPrice) TASK_TOKEN_PRICE_SCALE
                        else num_mul quantity unitPrice in
          if negb (isFinite amount) then None
          else
            '(ps, total) ← usage_parts sample schema (num_add sofar amount) more;
            Some (mkPart kind_usage (Some field) amount (Some quantity) (Some unitPrice) :: ps, total)
  end.

Definition evaluateTaskVisualConfig (config : TaskVisualConfig) (sample : list (jstr * fact))
    (schema : option BillingUsageSchema) : option TaskPreviewResult :=
  fallback ← list.last (tiers config);
  let matchedTier := matched_tier sample fallback (tiers config) in
  let c := constant matchedTier in
  if negb (usable c) then None
  else
    let '(first, start) :=
      if num_ltb zero c then ([mkPart kind_constant None c None None], num_add zero c)
      else ([], zero) in
    '(ps, total) ← usage_parts sample schema start (unitPrices matchedTier);
    if negb (isFinite total) then None
    else Some (mkPreview matchedTier total (first ++ ps)).

(** *** Normalization and generation *)

Definition number_or_zero (n : option jsnum) : jsnum :=
  match n with
  | Some n => if isFinite n && num_leb zero n then n else zero
  | None => zero
  end.

Definition normalize_tier (schema : BillingUsageSchema) (index : nat) (t : TaskVisualTier)
    : TaskVisualTier :=
  let enumFields := getTaskEnumFields (Some schema) in
  mkTaskTier
    (or_else (task_label t)
       (if (index =? 0)%nat then js "base" else js "tier_" ++ digits_Z (Z.of_nat index + 1)))
    (filter (λ c, from_option (λ d, bool_decide (task_value c ∈ enum_values d)) false
                    (field_get (task_field c) enumFields) = true) (task_conditions t))
    (number_or_zero (Some (constant t)))
    (fromEntries (map (λ e, (e.1, number_or_zero (field_get e.1 (unitPrices t))))
       (getTaskNumberFields (Some schema)))).

Definition normalizeTaskVisualConfig (config : option TaskVisualConfig)
    (schema : BillingUsageSchema) : TaskVisualConfig :=
  match config with
  | None | Some (mkVisual []) => createDefaultTaskVisualConfig schema
  | Some (mkVisual ts) => mkVisual (imap (normalize_tier schema) ts)
  end.

Definition generate_term (t : TaskVisualTier) (e : jstr * BillingUsageFieldSchema) : jstr :=
  let price := num_to_string (default zero (field_get e.1 (unitPrices t))) in
  js "u(" ++ quote e.1 ++ js ") * " ++ price
  ++ (if bool_decide (unit_ e.2 = Some unit_token)
      then js " / " ++ num_to_string TASK_TOKEN_PRICE_SCALE else []).

Definition generateTaskTierBody (t : TaskVisualTier)
    (numberFields : list (jstr * BillingUsageFieldSchema)) : jstr :=
  join (js " + ")
    ((if num_ltb zero (constant t) then [num_to_string (constant t)] else [])
     ++ map (generate_term t) numberFields).

Definition generateTaskTierCall (t : TaskVisualTier)
    (numberFields : list (jstr * BillingUsageFieldSchema)) : jstr :=
  js "tier(" ++ quote (task_label t) ++ js ", " ++ generateTaskTierBody t numberFields ++ js ")".

Definition generateTaskCondition (cs : list TaskVisualCondition) : jstr :=
  join (js " && ")
    (map (λ c, js "u(" ++ quote (task_field c) ++ js ") == " ++ quote (task_value c)) cs).

(** The texts of the tiers; [None] when one before the last has no condition. *)
Fixpoint generate_parts (numberFields : list (jstr * BillingUsageFieldSchema))
    (ts : list TaskVisualTier) : option (list jstr) :=
  match ts with
  | [] => Some []
  | [t] => Some [generateTaskTierCall t numberFields]
  | t :: more =>
      let condition := generateTaskCondition (task_conditions t) in
      if negb (truthy condition) then None
      else ps ← generate_parts numberFields more;
           Some ((condition ++ js " ? " ++ generateTaskTierCall t numberFields) :: ps)
  end.

Definition generateTaskExprFromConfig (config : option TaskVisualConfig)
    (schema : BillingUsageSchema) : jstr :=
  match getTaskNumberFields (Some schema) with
  | [] => []
  | numberFields =>
      let normalized := normalizeTaskVisualConfig config schema in
      match tiers normalized with
      | [t] => generateTaskTierCall t numberFields
      | ts => from_option (join (js " : ")) [] (generate_parts numberFields ts)
      end
  end.

Definition tryParseTaskVisualConfig (expression : option jstr) (schema : BillingUsageSchema)
    : option TaskVisualConfig :=
  match expression with
  | None | Some [] => None
  | Some expression =>
      match parseTaskTiersFromExpr expression (Some schema) with
      | [] => None
      | ts => Some (normalizeTaskVisualConfig (Some (mkVisual ts)) schema)
      end
  end.

(** [None] is an exception of [splitBillingExprAndRequestRules]. *)
Definition evaluateTaskUsageExamples (expression : option jstr)
    (schema : option BillingUsageSchema) (examples : option (list BillingUsageExample))
    : option (list (jstr * jsnum)) :=
  match expression, schema, examples with
  | Some ((_ :: _) as expression), Some schema, Some ((_ :: _) as examples) =>
      '(billingExpr, _) ← splitBillingExprAndRequestRules expression;
      Some match tryParseTaskVisualConfig (Some billingExpr) schema with
           | None => []
           | Some config =>
               omap (λ ex, r ← evaluateTaskVisualConfig config (facts ex) (Some schema);
                           Some (ex_label ex, total r)) examples
           end
  | _, _, _ => Some []
  end.
End locale.

End TaskExpr.

(** ** Which row of a price table was charged *)

Module BreakdownTierMatch.
Import TaskExpr.

Inductive BreakdownMatchTier := MTier (t : ParsedTier) | MTask (t : ParsedTaskTier).
Definition match_label (t : BreakdownMatchTier) : jstr :=
  match t with MTier t => tier_label t | MTask t => task_label t end.

Section match_tier.
Context (toLowerCase : jstr → jstr).

Definition tierMatchesNormalizedLabel (t : BreakdownMatchTier) (normalized : jstr) : bool :=
  truthy normalized && (normalizeTierLabel toLowerCase (Some (match_label t)) === normalized).

(** [String(usageFacts[condition.field]) === condition.value] for a condition
    with a field; the conditions of a token tier have none. *)
Definition facts_match (usageFacts : list (jstr * fact)) (t : BreakdownMatchTier) : bool :=
  match t with
  | MTier _ => false
  | MTask t =>
      negb (bool_decide (task_conditions t = []))
      && forallb (λ c, match field_get (task_field c) usageFacts with
                       | None => false
                       | Some f => fact_string f === task_value c
                       end) (task_conditions t)
  end.

Definition isBreakdownTierMatched (t : BreakdownMatchTier) (ts : list BreakdownMatchTier)
    (matchedTierLabel : option jstr) (usageFacts : option (list (jstr * fact))) : bool :=
  let normalized := normalizeTierLabel toLowerCase matchedTierLabel in
  if tierMatchesNormalizedLabel t normalized then true
  else if existsb (λ candidate, tierMatchesNormalizedLabel candidate normalized) ts then false
  else match usageFacts with
       | None => false
       | Some usageFacts => facts_match usageFacts t
       end.
End match_tier.

End BreakdownTierMatch.
