(* ===== verification/TierExpr.v ===== *)
(** * Visual editor of token prices

    Models [features/pricing/lib/tier-expr.ts] up to the local evaluator, which
    compiles the expression with [new Function]: normalization of the visual
    configuration, the generation of the billing expression and its recognition. *)

From S2P Require Import Prelude JsValue Regex BillingExpr.
Import BillingExpr.

Module TierExpr.

Inductive CacheMode := CACHE_MODE_TIMED | CACHE_MODE_GENERIC.
#[export] Instance CacheMode_eq_dec : EqDecision CacheMode.
Proof. solve_decision. Defined.

(** [number | string] *)
Inductive cond_value := VNum (n : jsnum) | VStr (s : jstr).
Definition value_text (v : cond_value) : jstr :=
  match v with VNum n => num_to_string n | VStr s => s end.
Record TierConditionInput := mkCond { var : jstr; op : jstr; value : option cond_value }.

(** [Partial<VisualTier>]: a missing property is [None]; [extra] holds the
    prices of [BILLING_CACHE_VAR_MAP] by their field name. *)
Record PartialTier := mkPartialTier {
  p_label : option jstr; p_conditions : option (list TierConditionInput);
  p_input : option jsnum; p_output : option jsnum; p_cache_mode : option CacheMode;
  p_extra : list (jstr * jsnum) }.
Record VisualTier := mkTier {
  label : jstr; conditions : list TierConditionInput;
  input_unit_cost : jsnum; output_unit_cost : jsnum; cache_mode : CacheMode;
  extra : list (jstr * jsnum) }.
Record VisualConfig := mkConfig { tiers : list VisualTier }.

Definition partial_tier (t : VisualTier) : PartialTier :=
  mkPartialTier (Some (label t)) (Some (conditions t)) (Some (input_unit_cost t))
    (Some (output_unit_cost t)) (Some (cache_mode t)) (extra t).

Definition zero : jsnum := S754_zero false.

(** [Number(x) || 0] for a price that may be missing. *)
Definition price_or_zero (n : option jsnum) : jsnum := from_option num_or_zero zero n.

Definition getTierCacheMode (t : PartialTier) : CacheMode :=
  match p_cache_mode t with
  | Some m => m
  | None =>
      match field_get (js "cache_create_1h_unit_cost") (p_extra t) with
      | Some n => if num_ltb zero n then CACHE_MODE_TIMED else CACHE_MODE_GENERIC
      | None => CACHE_MODE_GENERIC
      end
  end.

Definition extra_fields : list jstr :=
  map js ["cache_read_unit_cost"; "cache_create_unit_cost"; "cache_create_1h_unit_cost";
          "image_unit_cost"; "image_output_unit_cost"; "audio_input_unit_cost";
          "audio_output_unit_cost"]%string.

(** [...tier] comes after the defaults of the first five properties and before
    the extra prices: a property that is present keeps its value. *)
Definition normalizeVisualTier (t : PartialTier) : VisualTier :=
  mkTier (default [] (p_label t)) (default [] (p_conditions t))
    (default zero (p_input t)) (default zero (p_output t))
    (getTierCacheMode t)
    (map (λ f, (f, price_or_zero (field_get f (p_extra t)))) extra_fields).

Definition createDefaultVisualConfig : VisualConfig :=
  mkConfig [normalizeVisualTier
    (mkPartialTier (Some (js "base")) (Some []) (Some zero) (Some zero) (Some CACHE_MODE_GENERIC) [])].

Definition normalizeVisualConfig (config : option VisualConfig) : VisualConfig :=
  match config with
  | None | Some (mkConfig []) => createDefaultVisualConfig
  | Some c => mkConfig (map (normalizeVisualTier ∘ partial_tier) (tiers c))
  end.

Definition usable_condition (c : TierConditionInput) : bool :=
  truthy (var c) && truthy (op c) &&
  match value c with None => false | Some (VStr s) => truthy s | Some (VNum _) => true end.

Definition condition_text (c : TierConditionInput) : jstr :=
  var c ++ js " " ++ op c ++ js " " ++ from_option value_text [] (value c).

Definition buildConditionStr (cs : list TierConditionInput) : jstr :=
  join (js " && ") (map condition_text (filter (λ c, usable_condition c = true) cs)).

Definition extra_terms (t : VisualTier) : list jstr :=
  omap (λ '(field, exprVar),
    let v := price_or_zero (field_get field (extra t)) in
    if num_eqb v zero then None else Some (exprVar ++ js " * " ++ num_to_string v))
    BILLING_CACHE_VAR_MAP.

Definition buildTierBodyExpr (t : VisualTier) : jstr :=
  join (js " + ")
    ((js "p * " ++ num_to_string (num_or_zero (input_unit_cost t)))
     :: (js "c * " ++ num_to_string (num_or_zero (output_unit_cost t)))
     :: extra_terms t).

Definition tier_call (l : jstr) (t : VisualTier) : jstr :=
  jq "tier('" ++ l ++ jq "', " ++ buildTierBodyExpr t ++ js ")".

(** The text of the tier with index [i] of several. *)
Definition tier_part (count i : nat) (t : VisualTier) : jstr :=
  let body := tier_call (or_else (label t) (js "tier_" ++ digits_Z (Z.of_nat i + 1))) t in
  let cond := buildConditionStr (conditions t) in
  if (i <? count - 1)%nat && truthy cond then cond ++ js " ? " ++ body else body.

Definition generateExprFromVisualConfig (config : option VisualConfig) : jstr :=
  match config with
  | None | Some (mkConfig []) => js "p * 0 + c * 0"
  | Some (mkConfig [t]) =>
      let body := tier_call (or_else (label t) (js "default")) t in
      let cond := buildConditionStr (conditions t) in
      if truthy cond then cond ++ js " ? " ++ body ++ js " : p * 0 + c * 0" else body
  | Some (mkConfig ts) => join (js " : ") (imap (tier_part (length ts)) ts)
  end.

(** *** Recognition *)

Definition star_ws_around (w : string) : list re := [Star ws; Str (js w); Star ws].

(** The optional terms of the extra variables, captured from group [n] on. *)
Definition optCache (n : nat) : list re :=
  imap (λ i '(_, v), Opt (cats ([Star ws; Str (js "+"); Star ws; Str v] ++ star_ws_around "*"
                                ++ [Cap (n + i) num_text]))) BILLING_CACHE_VAR_MAP.

(** [bodyPat], with its groups from [n] on. *)
Definition bodyPat (n : nat) : list re :=
  [Str (js "p")] ++ star_ws_around "*" ++ [Cap n num_text] ++ star_ws_around "+"
  ++ [Str (js "c")] ++ star_ws_around "*" ++ [Cap (n + 1) num_text] ++ optCache (n + 2).

Definition singleRe : re :=
  cats ([Str (jq "tier('"); Cap 1 (Star not_quote); Str (jq "',"); Star ws] ++ bodyPat 2
        ++ [Str (js ")")]).

Definition visualTierRe : re :=
  cats ([Opt (cats [Cap 1 condGroup; Star ws; Str (js "?"); Star ws]);
         Str (jq "tier('"); Cap 2 (Star not_quote); Str (jq "',"); Star ws] ++ bodyPat 3
        ++ [Str (js ")")]).

(** The prices of the extra variables whose groups, from [n] on, took part. *)
Definition captured_extra (n : nat) (m : captures) : list (jstr * jsnum) :=
  omap (λ '(i, (field, _)), v ← grp (n + i) m; Some (field, Number v))
    (imap pair BILLING_CACHE_VAR_MAP).

Definition parse_visual_conditions (condStr : jstr) : list TierConditionInput :=
  map (λ c, mkCond (tc_var c) (tc_op c) (Some (VNum (tc_value c)))) (parse_tier_conditions condStr).

Definition visual_tier_of (m : captures) : VisualTier :=
  normalizeVisualTier (mkPartialTier (Some (cap 2 m)) (Some (parse_visual_conditions (cap 1 m)))
    (Some (Number (cap 3 m))) (Some (Number (cap 4 m))) None (captured_extra 5 m)).

(** [s.replace(/\s+/g, '')] *)
Definition strip_spaces (s : jstr) : jstr := replaceAll (Plus ws) [] s.

Definition tryParseVisualConfig (exprStr : option jstr) : option VisualConfig :=
  match exprStr with
  | None | Some [] => None
  | Some exprStr =>
      let body :=
        from_option (cap 1) exprStr
          (match_whole (cats [Str (js "v"); Plus dig; Str (js ":"); Cap 1 (Star any)]) exprStr) in
      match match_whole singleRe body with
      | Some m =>
          Some (normalizeVisualConfig (Some (mkConfig
            [normalizeVisualTier (mkPartialTier (Some (cap 1 m)) (Some [])
               (Some (Number (cap 2 m))) (Some (Number (cap 3 m))) None (captured_extra 4 m))])))
      | None =>
          match matchAll visualTierRe body with
          | [] => None
          | ms =>
              let cfg := normalizeVisualConfig
                           (Some (mkConfig (map (visual_tier_of ∘ groups) ms))) in
              let regenerated := generateExprFromVisualConfig (Some cfg) in
              if strip_spaces regenerated === strip_spaces body then Some cfg else None
          end
      end
  end.

Definition ESTIMATOR_VARS : list (jstr * jstr) :=
  [(js "cr", js "cacheReadTokens"); (js "cc", js "cacheCreateTokens");
   (js "cc1h", js "cacheCreate1hTokens"); (js "img", js "imageTokens");
   (js "img_o", js "imageOutputTokens"); (js "ai", js "audioInputTokens");
   (js "ao", js "audioOutputTokens")].

Definition exprUsesExtraVars (exprStr : jstr) : bool :=
  truthy exprStr && test (cats [Wordb; Cap 1 (alt_of ESTIMATOR_VARS.*1); Wordb]) exprStr.

Example visual_ex :
  let e := jq "len <= 1000 && p > 5 ? tier('a', p * 1 + c * 2 + img_o * 0.5) : tier('b', p * 3 + c * 4)" in
  from_option (λ c, generateExprFromVisualConfig (Some c)) [] (tryParseVisualConfig (Some e)) = e.
Proof. vm_compute. reflexivity. Qed.

Example single_ex :
  let e := jq "tier('a', p * 1 + c * 2 + cc1h * 7 + ao * 1e-7)" in
  from_option (λ c, generateExprFromVisualConfig (Some c)) [] (tryParseVisualConfig (Some (js "v1:" ++ e))) = e
  ∧ cache_mode <$> (from_option tiers [] (tryParseVisualConfig (Some e))) = [CACHE_MODE_TIMED].
Proof. vm_compute. done. Qed.

Example raw_ex : tryParseVisualConfig (Some (jq "tier('a', p * 1 + c * 2) * 3")) = None.
Proof. vm_compute. reflexivity. Qed.

Example uses_ex : map exprUsesExtraVars [js "p * 1 + cr*2"; js "p * 1 + crx * 2"] = [true; false].
Proof. vm_compute. reflexivity. Qed.

End TierExpr.
