(* ===== verification/StringFacts.v ===== *)
(** * Facts about quoted strings and printed numbers

    [JSON.parse] undoes [JSON.stringify] on strings; quoted strings are the
    words of the literal expression of the billing parsers and are prefix-free;
    printed prices are numeric literals. *)

From Stdlib Require Import ZifyN ZifyBool.
From S2P Require Import Prelude JsValue Regex BillingExpr.
Import BillingExpr.

(** Code units are 16 bits wide. *)
Definition units (s : jstr) : Prop := Forall (λ c, (c < 65536)%N) s.

Lemma units_infix a b c : units (a ++ b ++ c) → units b.
Proof. unfold units. rewrite !list.Forall_app. tauto. Qed.
Lemma units_trim s : units s → units (trim s).
Proof. intros H. destruct (trim_infix s) as (a & b & E & _). rewrite E in H. by eapply units_infix. Qed.
Lemma units_js s : units (js s).
Proof.
  induction s as [|a s IH]; [constructor|]. cbn [js]. constructor; [|exact IH].
  pose proof (Ascii.N_ascii_bounded a). lia.
Qed.

Lemma hex_value_digit n : (n < 16)%N → hex_value (hex_digit n) = Some n.
Proof.
  intros H. unfold hex_value, hex_digit. destruct (N.ltb_spec n 10).
  - replace ((48 <=? 48 + n) && (48 + n <=? 57))%N with true by lia. f_equal. lia.
  - replace ((48 <=? 87 + n) && (87 + n <=? 57))%N with false by lia.
    replace ((97 <=? 87 + n) && (87 + n <=? 102))%N with true by lia. f_equal. lia.
Qed.

Lemma hex4_escape c :
  (c < 65536)%N →
  hex4 (hex_digit (c / 4096)) (hex_digit (c / 256 mod 16)) (hex_digit (c / 16 mod 16))
    (hex_digit (c mod 16)) = Some c.
Proof.
  intros H. unfold hex4.
  assert (c / 4096 < 16)%N by (apply N.Div0.div_lt_upper_bound; lia).
  rewrite !hex_value_digit by (try apply N.mod_upper_bound; lia). simpl. f_equal.
  replace (c / 4096)%N with (c / 16 / 16 / 16)%N by (by rewrite !N.Div0.div_div).
  replace (c / 256)%N with (c / 16 / 16)%N by (by rewrite N.Div0.div_div).
  pose proof (N.div_mod' c 16). pose proof (N.div_mod' (c / 16) 16).
  pose proof (N.div_mod' (c / 16 / 16) 16). lia.
Qed.

(** ** [JSON.parse] on quoted strings *)

Lemma parse_chars_plain c r :
  c ≠ 34%N → c ≠ 92%N → (32 <= c)%N →
  parse_chars (c :: r) = '(t, r') ← parse_chars r; Some (c :: t, r').
Proof.
  intros H1 H2 H3. cbn [parse_chars].
  assert (((c <? 32) || (c =? 92))%N = false) as -> by lia.
  destruct c as [|p]; [done|].
  do 7 (destruct p as [p|p|]; try done).
Qed.

Lemma quote_unit_parse c r :
  (c < 65536)%N →
  parse_chars (quote_unit c ++ r) = '(t, r') ← parse_chars r; Some (c :: t, r').
Proof.
  intros Hc. unfold quote_unit.
  repeat match goal with |- context [if (c =? ?k)%N then _ else _] =>
    destruct (N.eqb_spec c k); [subst; reflexivity|] end.
  destruct (N.ltb_spec c 32).
  - unfold hex_escape. cbn [app js]. change (Ascii.N_of_ascii _) with 92%N at 1.
    change (Ascii.N_of_ascii _) with 117%N.
    cbn [parse_chars]. by rewrite hex4_escape.
  - simpl app. by apply parse_chars_plain.
Qed.

Lemma hex_escape_parse c r :
  (c < 65536)%N →
  parse_chars (hex_escape c ++ r) = '(t, r') ← parse_chars r; Some (c :: t, r').
Proof.
  intros Hc. unfold hex_escape. cbn [app js]. change (Ascii.N_of_ascii _) with 92%N at 1.
  change (Ascii.N_of_ascii _) with 117%N. cbn [parse_chars]. by rewrite hex4_escape.
Qed.

(** [quote_go] one code unit or one surrogate pair at a time. *)
Lemma quote_go_ind (P : jstr → jstr → Prop) :
  P [] [] →
  (∀ c d s, is_high c = true → is_low d = true → P s (quote_go s) →
     P (c :: d :: s) (c :: d :: quote_go s)) →
  (∀ c s, is_high c || is_low c = true → P s (quote_go s) → P (c :: s) (hex_escape c ++ quote_go s)) →
  (∀ c s, is_high c || is_low c = false → P s (quote_go s) → P (c :: s) (quote_unit c ++ quote_go s)) →
  ∀ s, P s (quote_go s).
Proof.
  intros H0 H2 Hh Hu s. remember (length s) as n eqn:Hn.
  assert (length s ≤ n)%nat as Hle by lia. clear Hn. revert s Hle.
  induction n as [|n IH]; intros [|c [|d s]] Hle; try done; simpl in Hle; try lia.
  - cbn [quote_go]. destruct (is_high c || is_low c) eqn:E.
    + rewrite <-(app_nil_r (hex_escape c)). by apply (Hh c []).
    + rewrite <-(app_nil_r (quote_unit c)). by apply (Hu c []).
  - change (quote_go (c :: d :: s)) with
      (if is_high c && is_low d then c :: d :: quote_go s
       else if is_high c || is_low c then hex_escape c ++ quote_go (d :: s)
       else quote_unit c ++ quote_go (d :: s)).
    destruct (is_high c && is_low d) eqn:E.
    { apply andb_true_iff in E as [? ?]. apply H2; [done|done|]. apply IH. lia. }
    destruct (is_high c || is_low c) eqn:E'; [apply Hh|apply Hu]; try done; apply IH; simpl; lia.
Qed.

Lemma parse_chars_quote s r : units s → parse_chars (quote_go s ++ 34%N :: r) = Some (s, r).
Proof.
  revert s. apply (quote_go_ind (λ s q, units s → parse_chars (q ++ 34%N :: r) = Some (s, r))).
  - done.
  - intros c d s Hc Hd IH [_ [_ Hs]%list.Forall_cons]%list.Forall_cons.
    unfold is_high in Hc. unfold is_low in Hd. cbn [app].
    rewrite !parse_chars_plain by lia. by rewrite IH.
  - intros c s _ IH [Hc Hs]%list.Forall_cons. rewrite <-app_assoc, hex_escape_parse by done.
    by rewrite IH.
  - intros c s _ IH [Hc Hs]%list.Forall_cons. rewrite <-app_assoc, quote_unit_parse by done.
    by rewrite IH.
Qed.

Lemma JSON_parse_quote s : units s → JSON_parse (quote s) = Some (JStr s).
Proof.
  intros Hs. unfold JSON_parse, quote. cbn [app].
  replace (2 * length (34%N :: quote_go s ++ [34%N]) + 2)%nat
    with (S (2 * length (34%N :: quote_go s ++ [34%N]) + 1)) by lia.
  cbn [parse_value skip_ws]. change (json_ws 34) with false. cbn iota.
  change (34 =? 34)%N with true. cbn iota. by rewrite parse_chars_quote.
Qed.

Lemma parse_literal_quote s : units s → parse_literal (quote s) = Some s.
Proof. intros Hs. unfold parse_literal. by rewrite JSON_parse_quote. Qed.

(** ** String literals as words *)

(** The text between the quotes of a literal. *)
Inductive body : jstr → Prop :=
| body_nil : body []
| body_plain c w : c ≠ 34%N → c ≠ 92%N → body w → body (c :: w)
| body_escape c w : line_terminator c = false → body w → body (92%N :: c :: w).

Definition literal (w : jstr) : Prop := ∃ b, w = 34%N :: b ++ [34%N] ∧ body b.

Lemma body_app v w : body v → body w → body (v ++ w).
Proof.
  induction 1 as [|c v H1 H2 _ IH|c v H _ IH]; intros Hw; simpl; [done| |].
  - by apply body_plain; [..|apply IH].
  - by apply body_escape; [|apply IH].
Qed.

Lemma hex_digit_plain n w : body w → body (hex_digit n :: w).
Proof. intros Hw. unfold hex_digit. destruct (N.ltb_spec n 10); apply body_plain; [lia..|done|lia|lia|done]. Qed.

Lemma hex_escape_body c : body (hex_escape c).
Proof. apply (body_escape 117); [done|]. do 4 apply hex_digit_plain. constructor. Qed.

Lemma quote_unit_body c : body (quote_unit c).
Proof.
  unfold quote_unit.
  repeat match goal with |- context [if (c =? ?k)%N then _ else _] =>
    destruct (N.eqb_spec c k); [by apply body_escape; [|constructor]|] end.
  destruct (c <? 32)%N; [apply hex_escape_body|]. apply body_plain; [done|done|constructor].
Qed.

Lemma quote_body s : body (quote_go s).
Proof.
  apply (quote_go_ind (λ _ q, body q)); [constructor| | |].
  - intros c d s' Hc Hd IH. unfold is_high in Hc. unfold is_low in Hd.
    apply body_plain; [lia|lia|]. by apply body_plain; [lia|lia|].
  - intros c s' _ IH. apply body_app; [apply hex_escape_body|done].
  - intros c s' _ IH. apply body_app; [apply quote_unit_body|done].
Qed.

Lemma quote_literal s : literal (quote s).
Proof. exists (quote_go s). split; [done|apply quote_body]. Qed.

Lemma body_prefix b1 b2 t1 t2 :
  body b1 → body b2 → b1 ++ 34%N :: t1 = b2 ++ 34%N :: t2 → b1 = b2 ∧ t1 = t2.
Proof.
  intros H1. revert b2. induction H1 as [|c v Hc1 Hc2 _ IH|c v Hc _ IH];
    intros b2 H2 Heq; inversion H2; subst; simplify_eq/=; try done.
  - destruct (IH w) as [-> ->]; done.
  - destruct (IH w) as [-> ->]; done.
Qed.

(** A literal is determined by the text it starts. *)
Lemma literal_prefix w1 w2 t1 t2 :
  literal w1 → literal w2 → w1 ++ t1 = w2 ++ t2 → w1 = w2 ∧ t1 = t2.
Proof.
  intros (b1 & -> & H1) (b2 & -> & H2) Heq. simpl in Heq. simplify_eq.
  rewrite <-!app_assoc in Heq. simpl in Heq.
  by destruct (body_prefix b1 b2 t1 t2 H1 H2 Heq) as [-> ->].
Qed.

Lemma den_body c w c' :
  den (Star (Alt (none_of [34; 92]%N) (cats [Str [92%N]; dot]))) c w c' ↔ body w ∧ c' = c.
Proof.
  cbn [den]. split.
  - induction 1 as [c|c w c1 v c2 _ Hw _ [IH ->]]; [split; [constructor|done]|].
    destruct Hw as [(x & -> & Hx & ->)|Hw].
    + split; [|done]. apply negb_true_iff, bool_decide_eq_false in Hx.
      apply body_plain; [set_solver|set_solver|done].
    + destruct Hw as (w1 & w2 & c3 & -> & [-> ->] & w3 & w4 & c4 & -> & (x & -> & Hx & ->) & [-> ->]).
      split; [|done]. simpl. apply body_escape; [by apply negb_true_iff in Hx|done].
  - intros [Hw ->]. induction Hw as [|x w H1 H2 _ IH|x w Hx _ IH]; [constructor| |].
    + eapply (den_star_step _ _ [x]); [done| |exact IH]. left. exists x. split_and!; [done| |done].
      apply negb_true_iff, bool_decide_eq_false. set_solver.
    + eapply (den_star_step _ _ [92%N; x]); [done| |exact IH]. right.
      exists [92%N], [x], c. split_and!; [done|done|]. exists [x], [], c. split_and!; [done| |done].
      exists x. rewrite Hx. done.
Qed.

Lemma den_literal c w c' : den string_literal c w c' ↔ literal w ∧ c' = c.
Proof.
  unfold string_literal. cbn [cats foldr]. split.
  - intros (w1 & w2 & c1 & -> & [-> ->] & w3 & w4 & c2 & -> & Hb & w5 & w6 & c3 & -> & [-> ->] & [-> ->]).
    apply den_body in Hb as [Hb ->]. split; [|done]. by exists w3.
  - intros [(b & -> & Hb) ->]. exists [34%N], (b ++ [34%N]), c. split_and!; [done|done|].
    exists b, [34%N], c. split_and!; [done|by apply den_body|]. by exists [34%N], [], c.
Qed.

(** ** Numeric literals *)

Abbreviation all_digits := (Forall (λ c, is_digit c = true)).

(** The words [String(n)] gives for a finite number that is not negative. *)
Definition price_word (w : jstr) : Prop :=
  ∃ ip fp ex, w = ip ++ fp ++ ex ∧ ip ≠ [] ∧ all_digits ip ∧
  (fp = [] ∨ ∃ d, fp = 46%N :: d ∧ all_digits d) ∧
  (ex = [] ∨ ∃ sg d, ex = 101%N :: sg :: d ∧ (sg = 43%N ∨ sg = 45%N) ∧ d ≠ [] ∧ all_digits d).

Lemma all_digits_zeros n : all_digits (zeros n).
Proof. unfold zeros. by apply Forall_replicate. Qed.

Lemma pos_word m e : price_word (pos_to_string m e).
Proof.
  unfold pos_to_string.
  destruct (shortest _ _ _ _ _) as [s0 k0]. destruct (if s0 =? 10 ^ k0 then _ else _) as [s n].
  pose proof (digits_digits (Z.to_N s)) as Hd. pose proof (digits_nonempty (Z.to_N s)) as Hne.
  set (ds := digits (Z.to_N s)) in *.
  pose proof (Forall_take _ (Z.to_nat n) _ Hd) as Ht. pose proof (Forall_drop _ (Z.to_nat n) _ Hd) as Hr.
  set (ex := (if n - 1 <? 0 then js "-" else js "+") ++ digits (Z.to_N (Z.abs (n - 1)))).
  assert (∃ sg d, 101%N :: ex = 101%N :: sg :: d ∧ (sg = 43%N ∨ sg = 45%N) ∧ d ≠ [] ∧ all_digits d) as Hex.
  { unfold ex. destruct (n - 1 <? 0);
      [exists 45%N|exists 43%N]; exists (digits (Z.to_N (Z.abs (n - 1))));
      (split_and!; [reflexivity|by auto|apply digits_nonempty|apply digits_digits]). }
  destruct ((_ <=? n) && _) eqn:E1.
  { exists (ds ++ zeros (n - Z.of_nat (length ds))), [], []. rewrite !app_nil_r. split_and!; auto.
    - by destruct ds.
    - apply list.Forall_app. split; [done|apply all_digits_zeros]. }
  destruct ((0 <? n) && _) eqn:E2.
  { exists (take (Z.to_nat n) ds), (46%N :: drop (Z.to_nat n) ds), []. rewrite app_nil_r.
    split_and!; eauto. destruct ds; [done|]. destruct (Z.to_nat n) eqn:En; [lia|done]. }
  destruct ((-6 <? n) && _) eqn:E3.
  { exists [48%N], (46%N :: zeros (- n) ++ ds), []. rewrite app_nil_r.
    split_and!; [reflexivity|done|by constructor| |by left].
    right. eexists. split; [done|]. apply list.Forall_app. split; [apply all_digits_zeros|done]. }
  destruct (Z.of_nat (length ds) =? 1).
  { exists ds, [], (101%N :: ex). split_and!; [reflexivity|done|done|by left|by right]. }
  exists (take 1 ds), (46%N :: drop 1 ds), (101%N :: ex).
  split_and!; [reflexivity|by destruct ds|by apply Forall_take| |by right].
  right. eexists. split; [done|]. by apply Forall_drop.
Qed.

Lemma price_text n :
  isFinite n && negb (num_ltb n (S754_zero false)) = true → price_word (num_to_string n).
Proof.
  destruct n as [s|s| |s m e]; simpl; try done.
  - intros _. exists [48%N], [], []. by split_and!; auto.
  - destruct s; [done|]. intros _. apply pos_word.
Qed.

Lemma den_digits c w c' : den (Plus dig) c w c' ↔ w ≠ [] ∧ all_digits w ∧ c' = c.
Proof. apply den_plus_chr. Qed.

(** Every price word is a numeric literal. *)
Lemma price_word_numeric w c : price_word w → den numeric_literal c w c.
Proof.
  intros (ip & fp & ex & -> & Hne & Hip & Hfp & Hex). unfold numeric_literal. cbn [cats foldr].
  exists [], (ip ++ fp ++ ex), c. split_and!; [done|by right|].
  exists (ip ++ fp), ex, c. split_and!; [by rewrite app_assoc| |].
  - left. exists ip, fp, c. split_and!; [done|by apply den_digits|].
    destruct Hfp as [->|(d & -> & Hd)].
    + exists [], [], c. split_and!; [done|by right|]. exists [], [], c.
      split_and!; [done|by apply den_star_chr|done].
    + exists [46%N], d, c. split_and!; [done|by left|]. exists d, [], c.
      split_and!; [by rewrite app_nil_r|by apply den_star_chr|done].
  - exists ex, [], c. split_and!; [by rewrite app_nil_r| |done].
    destruct Hex as [->|(sg & d & -> & Hsg & Hdne & Hd)]; [by right|left].
    exists [101%N], (sg :: d), c. split_and!; [done|by exists 101%N|].
    exists [sg], d, c. split_and!; [done| |].
    + left. exists sg. by destruct Hsg as [->| ->].
    + exists d, [], c. split_and!; [by rewrite app_nil_r|by apply den_digits|done].
Qed.

Lemma digit_num_char c : is_digit c = true → num_char c = true.
Proof. intros H. unfold num_char. by rewrite H. Qed.

Lemma digits_num_chars w : all_digits w → Forall (λ c, num_char c = true) w.
Proof. intros H. eapply list.Forall_impl; [exact H|]. apply digit_num_char. Qed.

(** The characters of a numeric literal, and that it captures nothing. *)
Lemma numeric_chars c w c' :
  den numeric_literal c w c' → Forall (λ x, num_char x = true) w ∧ w ≠ [] ∧ c' = c.
Proof.
  unfold numeric_literal. cbn [cats foldr].
  intros (sg & w1 & c1 & -> & Hsg & num & w2 & c2 & -> & Hnum & ex & w3 & c3 & -> & Hex & -> & ->).
  assert (Forall (λ x, num_char x = true) sg ∧ c1 = c) as [Hs ->].
  { destruct Hsg as [[-> ->]|[-> ->]]; [|done]. split; [|done]. by repeat constructor. }
  assert (Forall (λ x, num_char x = true) num ∧ num ≠ [] ∧ c2 = c) as (Hn & Hne & ->).
  { destruct Hnum as [(ip & w4 & c4 & -> & Hip & fp & w5 & c5 & -> & Hfp & d & w6 & c6 & -> & Hd & -> & ->)
                     |(dt & w4 & c4 & -> & [-> ->] & d & w5 & c5 & -> & Hd & -> & ->)].
    - apply den_digits in Hip as (? & Hip & ->). apply den_star_chr in Hd as [Hd ->].
      split_and!; [|by destruct ip|by destruct Hfp as [[_ ->]|[_ ->]]].
      apply list.Forall_app; split; [by apply digits_num_chars|].
      apply list.Forall_app; split; [|rewrite app_nil_r; by apply digits_num_chars].
      destruct Hfp as [[-> _]|[-> _]]; by repeat constructor.
    - apply den_digits in Hd as (? & Hd & ->). split_and!; [|done|done].
      rewrite app_nil_r. simpl. constructor; [done|]. by apply digits_num_chars. }
  assert (Forall (λ x, num_char x = true) ex ∧ c3 = c) as [He ->].
  { destruct Hex as [(e & w4 & c4 & -> & (x & -> & Hx & ->) & sgn & w5 & c5 & -> & Hsgn & d & w6 & c6 & -> & Hd & -> & ->)
                    |[-> ->]]; [|done].
    apply den_digits in Hd as (_ & Hd & ->). rewrite app_nil_r. split.
    - apply bool_decide_eq_true in Hx. simpl. constructor; [unfold num_char; by set_unfold in Hx; destruct_or?; subst|].
      apply list.Forall_app. split; [|by apply digits_num_chars].
      destruct Hsgn as [(y & -> & Hy & _)|[-> _]]; [|done]. constructor; [|done].
      apply bool_decide_eq_true in Hy. unfold num_char. by set_unfold in Hy; destruct_or?; subst.
    - by destruct Hsgn as [(y & _ & _ & ->)|[_ ->]]. }
  split_and!; [|by destruct sg, num|done].
  rewrite app_nil_r, !list.Forall_app. done.
Qed.
