(* ===== verification/TaskExprFacts.v ===== *)
(** * Properties of task prices

    The matrix editor: the tiers generated from a matrix charge every
    combination what its row says.  The local evaluation as one formula.
    Normalization is idempotent. *)

From stdpp Require Import sorting.
From S2P Require Import Prelude StableSort JsValue Regex BillingExpr TaskExpr.
Import BillingExpr TaskExpr.

(** ** Objects *)

Lemma filter_keys {A} (P : jstr * A → Prop) `{!∀ x, Decision (P x)} (l : list (jstr * A)) :
  NoDup l.*1 → NoDup (filter P l).*1.
Proof.
  induction l as [|e l IH]; [done|]. intros [He Hl]%list.NoDup_cons.
  rewrite filter_cons. destruct (decide (P e)); [|by apply IH].
  apply list.NoDup_cons. split; [|by apply IH].
  intros (x & Hx & [_ Hin]%list_elem_of_filter)%list_elem_of_fmap. apply He. rewrite Hx.
  by apply list_elem_of_fmap_2.
Qed.

Lemma field_get_None {A} f (l : list (jstr * A)) : f ∉ l.*1 → field_get f l = None.
Proof.
  induction l as [|[k v] l IH]; simpl; [done|]. intros H.
  rewrite jeqb_neq by set_solver. apply IH. set_solver.
Qed.

Lemma field_get_Some {A} f v (l : list (jstr * A)) :
  NoDup l.*1 → (f, v) ∈ l → field_get f l = Some v.
Proof.
  induction l as [|[k w] l IH]; simpl; [set_solver|]. intros Hn Hin.
  apply list.NoDup_cons in Hn as [Hk Hn]. apply elem_of_cons in Hin as [?|Hin]; simplify_eq.
  - by rewrite jeqb_refl.
  - rewrite jeqb_neq; [by apply IH|]. intros ->. apply Hk, list_elem_of_fmap. by exists (f, v).
Qed.

Lemma fromEntries_snoc {A} (l : list (jstr * A)) k v :
  fromEntries (l ++ [(k, v)]) = obj_set k v (fromEntries l).
Proof. unfold fromEntries. by rewrite foldl_app. Qed.

(** Looking up in [Object.fromEntries] of entries with different keys. *)
Lemma field_get_fromEntries {A} (l : list (jstr * A)) f :
  NoDup l.*1 → field_get f (fromEntries l) = field_get f l.
Proof.
  induction l as [|[k v] l IH] using rev_ind; [done|]. intros Hn.
  rewrite fromEntries_snoc, field_get_obj_set.
  rewrite fmap_app in Hn. apply list.NoDup_app in Hn as (Hl & Hd & _). rewrite IH by done.
  clear IH. induction l as [|[k' v'] l IH]; simpl; [by destruct (k === f)|].
  destruct (bool_decide_reflect (k' = f)) as [->|Hf]; unfold jeqb at 2 3.
  - rewrite bool_decide_true by done. rewrite jeqb_neq; [done|].
    intros ->. apply (Hd f); simpl; set_solver.
  - rewrite bool_decide_false by done. apply IH; [by apply list.NoDup_cons in Hl as [_ ?]|].
    intros x Hx. apply Hd. simpl. set_solver.
Qed.

Lemma map_keys_fst {A B} (g : jstr * A → B) (l : list (jstr * A)) :
  (map (λ e, (e.1, g e)) l).*1 = l.*1.
Proof. induction l as [|e l IH]; simpl; [done|]. by f_equal. Qed.

Lemma field_get_map_keys {A B} (g : jstr * A → B) (l : list (jstr * A)) e :
  NoDup l.*1 → e ∈ l → field_get e.1 (fromEntries (map (λ e, (e.1, g e)) l)) = Some (g e).
Proof.
  intros Hn He. rewrite field_get_fromEntries by by rewrite map_keys_fst.
  apply field_get_Some; [by rewrite map_keys_fst|].
  apply list_elem_of_fmap. by exists e.
Qed.

Section locale.
Context (locale_le : jstr → jstr → bool).

Lemma sort_entries_elem {A} (l : list (jstr * A)) e : e ∈ sort_entries locale_le l ↔ e ∈ l.
Proof. unfold sort_entries. by rewrite (stable_sort_perm _ l). Qed.

Lemma sort_entries_keys {A} (l : list (jstr * A)) :
  NoDup l.*1 → NoDup (sort_entries locale_le l).*1.
Proof. unfold sort_entries. by rewrite (stable_sort_perm _ l). Qed.

(** ** Enum combinations *)

Abbreviation fields := (list (jstr * BillingUsageFieldSchema)).

(** The values a combination gives to the fields. *)
Definition vector (fs : fields) (c : list (jstr * jstr)) : list (option jstr) :=
  map (λ e, field_get e.1 c) fs.

Lemma vector_obj_set fs e v c :
  e.1 ∉ fs.*1 → vector (fs ++ [e]) (obj_set e.1 v c) = vector fs c ++ [Some v].
Proof.
  intros He. unfold vector. rewrite map_app. simpl. rewrite field_get_obj_set, jeqb_refl. f_equal.
  apply map_ext_in. intros e' Hin. rewrite field_get_obj_set, jeqb_neq; [done|].
  intros Heq. apply He. rewrite Heq. apply list_elem_of_fmap_2. by apply list_elem_of_In.
Qed.

Lemma vectors_extend fs e cs :
  e.1 ∉ fs.*1 →
  map (vector (fs ++ [e])) (extend_combinations cs e)
  = x ← map (vector fs) cs; map (λ v, x ++ [Some v]) (enum_values e.2).
Proof.
  intros He. unfold extend_combinations. induction cs as [|c cs IH]; [done|].
  cbn [mbind list_bind map]. rewrite map_app, IH. f_equal. clear IH.
  induction (enum_values e.2) as [|v vs IHv]; [done|].
  cbn [mbind list_bind map app]. f_equal; [by apply vector_obj_set|exact IHv].
Qed.

Lemma NoDup_extend (xs : list (list (option jstr))) (vs : list jstr) :
  NoDup xs → NoDup vs → NoDup (x ← xs; map (λ v, x ++ [Some v]) vs).
Proof.
  intros Hx Hv. induction xs as [|x xs IH]; [constructor|].
  apply list.NoDup_cons in Hx as [Hni Hx]. cbn [mbind list_bind]. apply list.NoDup_app.
  split_and!; [|intros y Hy Hy'|by apply IH].
  - apply NoDup_fmap_2; [|done]. intros a b Hab. by simplify_list_eq.
  - apply list_elem_of_fmap in Hy as (v & -> & _).
    apply list_elem_of_bind in Hy' as (x' & Hy' & Hin).
    apply list_elem_of_fmap in Hy' as (v' & Heq & _).
    apply app_inj_tail in Heq as [-> _]. done.
Qed.

Definition assigns (fs : fields) (c : list (jstr * jstr)) : Prop :=
  Forall (λ e, ∃ v, v ∈ enum_values e.2 ∧ field_get e.1 c = Some v) fs.

Lemma combinations_spec fs :
  NoDup fs.*1 → Forall (λ e, NoDup (enum_values e.2)) fs →
  NoDup (map (vector fs) (foldl extend_combinations [[]] fs))
  ∧ Forall (assigns fs) (foldl extend_combinations [[]] fs).
Proof.
  induction fs as [|e fs IH] using rev_ind; intros Hn He.
  { split; [apply NoDup_singleton|]. repeat constructor. }
  rewrite fmap_app in Hn. apply list.NoDup_app in Hn as (Hn & Hd & _).
  apply list.Forall_app in He as [Hfs [Hv _]%list.Forall_cons].
  destruct (IH Hn Hfs) as [IH1 IH2]. rewrite foldl_app. cbn [foldl].
  assert (e.1 ∉ fs.*1) as Hni by (intros H; apply (Hd _ H); simpl; set_solver).
  split; [by rewrite vectors_extend; [apply NoDup_extend|]|].
  apply list.Forall_forall. intros c Hc. unfold extend_combinations in Hc.
  apply list_elem_of_bind in Hc as (c0 & Hc & Hc0).
  apply list_elem_of_bind in Hc as (v & Hc & Hv').
  apply list_elem_of_singleton in Hc as ->.
  apply list.Forall_app. split.
  - rewrite list.Forall_forall in IH2. specialize (IH2 c0 Hc0). unfold assigns in IH2.
    rewrite list.Forall_forall in IH2. apply list.Forall_forall. intros e' He'.
    destruct (IH2 e' He') as (w & Hw & Hg). exists w. split; [done|].
    rewrite field_get_obj_set, jeqb_neq; [done|]. intros Heq. apply Hni. rewrite Heq.
    by apply list_elem_of_fmap_2.
  - constructor; [|constructor]. exists v. by rewrite field_get_obj_set, jeqb_refl.
Qed.

Lemma vector_neq fs c c' :
  vector fs c ≠ vector fs c' → ∃ e, e ∈ fs ∧ field_get e.1 c ≠ field_get e.1 c'.
Proof.
  unfold vector. induction fs as [|e fs IH]; [done|]. simpl. intros H.
  destruct (decide (field_get e.1 c = field_get e.1 c')) as [Heq|Hne].
  - destruct IH as (e' & ? & ?); [congruence|]. exists e'. set_solver.
  - exists e. set_solver.
Qed.

(** ** Evaluation of one tier *)

(** What a tier charges: the parts and their sum. *)
Definition price (t : TaskVisualTier) (sample : list (jstr * fact))
    (schema : option BillingUsageSchema) : option (list PreviewPart * jsnum) :=
  if negb (usable (constant t)) then None
  else
    let '(first, start) :=
      if num_ltb zero (constant t)
      then ([mkPart kind_constant None (constant t) None None], num_add zero (constant t))
      else ([], zero) in
    '(ps, total) ← usage_parts sample schema start (unitPrices t);
    if negb (isFinite total) then None else Some (first ++ ps, total).

Definition charged (r : TaskPreviewResult) : list PreviewPart * jsnum := (parts r, total r).

Lemma evaluate_price config sample schema fallback :
  list.last (tiers config) = Some fallback →
  charged <$> evaluateTaskVisualConfig config sample schema
  = price (matched_tier sample fallback (tiers config)) sample schema.
Proof.
  intros Hl. unfold evaluateTaskVisualConfig, price. rewrite Hl. cbn [mbind option_bind].
  destruct (negb _); [done|]. destruct (num_ltb _ _);
    destruct (usage_parts _ _ _ _) as [[ps tot]|]; simpl; try done; by destruct (isFinite tot).
Qed.

(** Numbers that [===] identifies: equal, or both a zero. *)
Definition same_num (a b : jsnum) : Prop :=
  a = b ∨ (∃ s s', a = S754_zero s ∧ b = S754_zero s').

Lemma num_eqb_same a b : num_eqb a b = true → same_num a b.
Proof.
  unfold num_eqb, SFeqb, SFcompare, same_num.
  destruct a as [s|s| |s m e], b as [s'|s'| |s' m' e']; try (destruct s); try (destruct s');
    try discriminate; eauto 10.
  all: destruct (Z.compare_spec e e'); try discriminate; subst.
  all: change (Pcompare m m' Eq) with (Pos.compare m m').
  all: destruct (Pos.compare_spec m m'); simpl; intros; try discriminate; subst; auto.
Qed.

Lemma same_num_refl a : same_num a a.
Proof. by left. Qed.

Definition same_entries (l l' : list (jstr * jsnum)) : Prop :=
  Forall2 (λ a b, a.1 = b.1 ∧ same_num a.2 b.2) l l'.

Lemma same_num_tests a b :
  same_num a b → usable a = usable b ∧ num_eqb a zero = num_eqb b zero ∧
                 num_ltb zero a = num_ltb zero b ∧ (num_eqb a zero = false → a = b).
Proof. intros [->|(s & s' & -> & ->)]; [done|]. by destruct s, s'. Qed.

Lemma usage_parts_same sample schema l l' sofar :
  same_entries l l' → usage_parts sample schema sofar l = usage_parts sample schema sofar l'.
Proof.
  intros H. revert sofar. induction H as [|[f a] [f' b] l l' [Hf Hs] _ IH]; intros; [done|].
  simpl in Hf, Hs. subst f'. apply same_num_tests in Hs as (Hu & Hz & _ & Heq). cbn [usage_parts].
  rewrite Hu, Hz. destruct (negb (usable b)); [done|].
  destruct (num_eqb b zero) eqn:Eb; [by apply IH|]. rewrite Heq by congruence.
  destruct (negb (usable _)); [done|]. destruct (negb (isFinite _)); [done|]. by rewrite IH.
Qed.

Lemma price_same t t' sample schema :
  same_num (constant t) (constant t') → same_entries (unitPrices t) (unitPrices t') →
  price t sample schema = price t' sample schema.
Proof.
  intros Hc Hp. unfold price. pose proof (same_num_tests _ _ Hc) as (Hu & Hz & Hl & Heq).
  rewrite Hu, Hl. destruct (negb _); [done|].
  destruct (num_ltb zero (constant t')) eqn:E.
  - assert (constant t = constant t') as ->.
    { apply Heq. rewrite Hz. by destruct (constant t') as [[]|[]| |[]]. }
    by rewrite (usage_parts_same _ _ _ _ _ Hp).
  - by rewrite (usage_parts_same _ _ _ _ _ Hp).
Qed.

Lemma same_obj_set k a b l l' :
  same_num a b → same_entries l l' → same_entries (obj_set k a l) (obj_set k b l').
Proof.
  intros Hab H. induction H as [|[f x] [f' y] l l' [Hf Hs] Hl IH]; simpl in *.
  { repeat first [done | constructor]. }
  subst f'. destruct (f === k); [repeat first [done | constructor]|].
  destruct (array_index k), (array_index f); try destruct (_ <? _)%N;
    repeat first [done | constructor].
Qed.

Lemma same_fromEntries l l' : same_entries l l' → same_entries (fromEntries l) (fromEntries l').
Proof.
  unfold fromEntries. assert (same_entries [] []) as H0 by constructor. revert H0.
  generalize (@nil (jstr * jsnum)) at 1 3 as acc. generalize (@nil (jstr * jsnum)) as acc'.
  intros acc' acc Hacc H. revert acc acc' Hacc.
  induction H as [|[f x] [f' y] l l' [Hf Hs] _ IH]; intros acc acc' Hacc; [done|].
  simpl in *. subst f'. apply IH. by apply same_obj_set.
Qed.

(** ** Which tier applies *)

Lemma head_filter {A} (P : A → Prop) `{!∀ x, Decision (P x)} (l : list A) i x :
  l !! i = Some x → P x → (∀ k y, (k < i)%nat → l !! k = Some y → ¬ P y) →
  head (filter P l) = Some x.
Proof.
  revert i. induction l as [|y l IH]; intros i Hi Hx Hk; [done|]. rewrite filter_cons.
  destruct i as [|i]; simplify_eq/=; [by rewrite decide_True|].
  rewrite decide_False by (apply (Hk O); [lia|done]).
  apply (IH i); [done|done|]. intros k z Hlt. apply (Hk (S k)). lia.
Qed.

Lemma matched_tier_at sample fallback ts i t :
  list.last ts = Some fallback → ts !! i = Some t →
  (i = length ts - 1)%nat ∨ forallb (condition_holds sample) (task_conditions t) = true →
  (∀ k t', (k < i)%nat → ts !! k = Some t' →
     forallb (condition_holds sample) (task_conditions t') = false) →
  matched_tier sample fallback ts = t.
Proof.
  intros Hl Hi Hc Hk. unfold matched_tier. pose proof (lookup_lt_Some _ _ _ Hi) as Hlt.
  destruct (decide (i = length ts - 1)%nat) as [->|Hne].
  - rewrite list.last_lookup in Hl. replace (pred (length ts)) with (length ts - 1)%nat in Hl by lia.
    simplify_eq. assert (filter (λ t, forallb (condition_holds sample) (task_conditions t) = true)
      (take (length ts - 1) ts) = []) as ->; [|done].
    apply filter_absent, list.Forall_forall. intros t' (k & Hk')%list_elem_of_lookup.
    apply lookup_take_Some in Hk' as [Hk' Hlt']. rewrite (Hk k t') by done. done.
  - destruct Hc as [|Hc]; [done|].
    rewrite (head_filter _ _ i t); [done| |done|].
    + apply lookup_take_Some. split; [done|lia].
    + intros k t' Hlt' [Hk' _]%lookup_take_Some. rewrite (Hk k t') by done. done.
Qed.

(** ** The matrix *)

Lemma row_conditions_hold sample c :
  NoDup c.*1 → (∀ f v, field_get f c = Some v → field_get f sample = Some (FStr v)) →
  forallb (condition_holds sample) (conditions_of locale_le c) = true.
Proof.
  intros Hn Hs. apply forallb_forall. intros x Hx. unfold conditions_of in Hx.
  apply list_elem_of_In, list_elem_of_fmap in Hx as ([f v] & -> & Hin).
  rewrite sort_entries_elem in Hin. unfold condition_holds. simpl.
  rewrite (Hs f v (field_get_Some f v c Hn Hin)). apply jeqb_refl.
Qed.

Lemma other_row_fails sample c c' e v v' :
  field_get e c = Some v → field_get e c' = Some v' → v ≠ v' →
  (∀ f w, field_get f c = Some w → field_get f sample = Some (FStr w)) →
  forallb (condition_holds sample) (conditions_of locale_le c') = false.
Proof.
  intros He He' Hne Hs. apply not_true_iff_false. rewrite forallb_forall. intros Hall.
  specialize (Hall (mkTaskCond e v')). unfold condition_holds in Hall. simpl in Hall.
  rewrite (Hs e v He) in Hall. rewrite jeqb_neq in Hall by done. discriminate Hall.
  apply list_elem_of_In, list_elem_of_fmap. exists (e, v'). split; [done|].
  rewrite sort_entries_elem. by apply field_get_elem.
Qed.

(** Property order: array indices ascending, then the other keys. *)
Definition key_lt (a b : jstr) : Prop :=
  a ≠ b ∧ match array_index a, array_index b with
          | Some i, Some j => (i <= j)%N
          | None, Some _ => False
          | _, _ => True
          end.
Definition ordered {A} (l : list (jstr * A)) : Prop := StronglySorted key_lt l.*1.

Lemma ordered_NoDup {A} (l : list (jstr * A)) : ordered l → NoDup l.*1.
Proof.
  unfold ordered. induction 1 as [|k ks _ IH Hk]; [constructor|].
  apply list.NoDup_cons. split; [|done]. intros Hin.
  rewrite list.Forall_forall in Hk. by destruct (Hk k Hin).
Qed.

Lemma obj_set_below {A} f k (v : A) l :
  key_lt f k → Forall (key_lt f) l.*1 → Forall (key_lt f) (obj_set k v l).*1.
Proof.
  intros Hk Hl. apply list.Forall_forall. intros x [->|Hx]%obj_set_keys; [done|].
  rewrite list.Forall_forall in Hl. by apply Hl.
Qed.

Lemma obj_set_ordered {A} k (v : A) l : ordered l → ordered (obj_set k v l).
Proof.
  unfold ordered. induction l as [|[f x] l IH]; cbn [obj_set fmap list_fmap fst]; intros Hn.
  { repeat constructor. }
  apply StronglySorted_inv in Hn as [Hn Hf].
  unfold jeqb. case_bool_decide as E; [subst; by constructor|].
  destruct (array_index k) as [i|] eqn:Ek, (array_index f) as [i'|] eqn:Ef.
  1: destruct (N.ltb_spec i i') as [Hlt|Hge].
  all: cbn [fmap list_fmap fst].
  2, 4, 5: constructor; [by apply IH|]; apply obj_set_below; [|done]; split; [done|];
    rewrite Ek, Ef; done.
  - constructor; [by constructor|]. constructor; [split; [done|]; rewrite Ek, Ef; lia|].
    eapply list.Forall_impl; [exact Hf|]. intros y [Hy Hj]. rewrite Ef in Hj. split.
    + intros ->. rewrite Ek in Hj. lia.
    + rewrite Ek. destruct (array_index y); [lia|done].
  - constructor; [by constructor|]. constructor; [split; [done|]; by rewrite Ek, Ef|].
    eapply list.Forall_impl; [exact Hf|]. intros y [Hy Hj]. rewrite Ef in Hj. split.
    + intros ->. by rewrite Ek in Hj.
    + rewrite Ek. by destruct (array_index y).
Qed.

Lemma combinations_ordered fs : Forall ordered (foldl extend_combinations [[]] fs).
Proof.
  induction fs as [|e fs IH] using rev_ind; [repeat constructor|].
  rewrite foldl_app. simpl. apply list.Forall_forall. intros c Hc. unfold extend_combinations in Hc.
  apply list_elem_of_bind in Hc as (c0 & Hc & Hc0).
  apply list_elem_of_bind in Hc as (v & Hc & _).
  apply list_elem_of_singleton in Hc as ->. apply obj_set_ordered.
  rewrite list.Forall_forall in IH. by apply IH.
Qed.

(** The enum fields of a schema whose names and values do not repeat. *)
Definition proper_schema (schema : BillingUsageSchema) : Prop :=
  NoDup schema.*1 ∧ Forall (λ e, NoDup (enum_values e.2)) schema.

Lemma enum_fields_proper schema :
  proper_schema schema →
  let fs := getTaskEnumFields locale_le (Some schema) in
  NoDup fs.*1 ∧ Forall (λ e, NoDup (enum_values e.2)) fs.
Proof.
  intros [Hn Hv]. split; simpl; [by apply sort_entries_keys, filter_keys|].
  apply list.Forall_forall. intros e He. rewrite sort_entries_elem in He.
  apply list_elem_of_filter in He as [_ He]. rewrite list.Forall_forall in Hv. by apply Hv.
Qed.

(** Two rows of a matrix differ in a field to which both give a value. *)
Lemma combinations_differ schema i j c c' :
  proper_schema schema →
  getTaskEnumCombinations locale_le (Some schema) !! i = Some c →
  getTaskEnumCombinations locale_le (Some schema) !! j = Some c' → i ≠ j →
  ∃ f v v', field_get f c = Some v ∧ field_get f c' = Some v' ∧ v ≠ v'.
Proof.
  intros Hp Hc Hc' Hne. destruct (enum_fields_proper schema Hp) as [Hn Hv].
  destruct (combinations_spec _ Hn Hv) as [Hd Ha]. unfold getTaskEnumCombinations in *.
  set (fs := getTaskEnumFields locale_le (Some schema)) in *.
  assert (vector fs c ≠ vector fs c') as Hvec.
  { intros Heq. apply Hne. eapply NoDup_lookup; [exact Hd| |].
    - rewrite list_lookup_fmap, Hc. done.
    - rewrite list_lookup_fmap, Hc'. simpl. by rewrite Heq. }
  apply vector_neq in Hvec as (e & He & Hfe). rewrite list.Forall_forall in Ha.
  pose proof (Ha c (list_elem_of_lookup_2 _ _ _ Hc)) as Hac.
  pose proof (Ha c' (list_elem_of_lookup_2 _ _ _ Hc')) as Hac'.
  unfold assigns in Hac, Hac'. rewrite list.Forall_forall in Hac, Hac'.
  destruct (Hac e He) as (v & _ & Hg), (Hac' e He) as (v' & _ & Hg').
  exists e.1, v, v'. split_and!; [done|done|congruence].
Qed.

Lemma same_prices_of nf a b :
  forallb (λ e, opt_num_eqb (field_get e.1 a) (field_get e.1 b)) nf = true →
  same_entries (prices_of nf a) (prices_of nf b).
Proof.
  intros H. apply same_fromEntries. unfold same_entries.
  induction nf as [|e nf IH]; simpl in *; [constructor|]. apply andb_true_iff in H as [He H].
  constructor; [|by apply IH]. split; [done|]. simpl.
  destruct (field_get e.1 a), (field_get e.1 b); try discriminate; [by apply num_eqb_same|].
  apply same_num_refl.
Qed.

Lemma same_entries_sym l l' : same_entries l l' → same_entries l' l.
Proof.
  intros H. induction H as [|x y l l' [Hk Hs] _ IH]; constructor; [|done]. split; [done|].
  destruct Hs as [->|(s & s' & -> & ->)]; [by left|right; eauto].
Qed.

Lemma taskMatrixToTiers_cases schema rs first :
  let nf := getTaskNumberFields locale_le (Some schema) in
  nf ≠ [] → rs !! O = Some first →
  taskMatrixToTiers locale_le (mkMatrix rs) schema
  = if forallb (λ row, same_prices nf row first) rs
    then [mkTaskTier (js "base") [] (row_constant first) (prices_of nf (row_prices first))]
    else imap (λ index row, row_tier locale_le nf (index =? length rs - 1)%nat row) rs.
Proof.
  cbv zeta. unfold taskMatrixToTiers. cbn [rows].
  destruct (getTaskNumberFields locale_le (Some schema)); [done|].
  destruct rs; [done|]. intros _ [= ->]. done.
Qed.

Lemma same_entries_refl l : same_entries l l.
Proof. unfold same_entries. induction l; constructor; auto using same_num_refl. Qed.

(** The tier of row [i] is the one that applies to the values of row [i]. *)
Lemma row_tier_applies schema nf rs i row sample fb :
  proper_schema schema →
  map combination rs = getTaskEnumCombinations locale_le (Some schema) →
  rs !! i = Some row →
  (∀ f v, field_get f (combination row) = Some v → field_get f sample = Some (FStr v)) →
  let ts := imap (λ index row, row_tier locale_le nf (index =? length rs - 1)%nat row) rs in
  list.last ts = Some fb →
  matched_tier sample fb ts = row_tier locale_le nf (i =? length rs - 1)%nat row.
Proof.
  intros Hp Hrs Hi Hs ts El.
  assert (∀ k r, rs !! k = Some r →
    getTaskEnumCombinations locale_le (Some schema) !! k = Some (combination r)) as Hcomb.
  { intros k r Hk. rewrite <-Hrs, list_lookup_fmap, Hk. done. }
  apply (matched_tier_at sample fb ts i); [done| | |].
  - unfold ts. by rewrite list_lookup_imap, Hi.
  - unfold ts. rewrite length_imap. simpl. destruct (Nat.eqb_spec i (length rs - 1)); [by left|right].
    apply row_conditions_hold; [|done]. apply ordered_NoDup.
    pose proof (combinations_ordered (getTaskEnumFields locale_le (Some schema))) as Ho.
    rewrite list.Forall_forall in Ho. apply Ho. eapply list_elem_of_lookup_2, (Hcomb _ _ Hi).
  - intros k t' Hk Ht. pose proof (lookup_lt_Some _ _ _ Hi) as Hlt.
    unfold ts in Ht. rewrite list_lookup_imap in Ht. apply fmap_Some in Ht as (r & Hr & ->). simpl.
    rewrite (proj2 (Nat.eqb_neq k (length rs - 1))) by lia.
    destruct (combinations_differ schema i k _ _ Hp (Hcomb _ _ Hi) (Hcomb _ _ Hr)) as (f & v & v' & Hv & Hv' & Hne);
      [lia|]. eapply other_row_fails; [exact Hv|exact Hv'|exact Hne|exact Hs].
Qed.

(** The tiers the matrix editor generates charge every combination of enum
    values what its row says: for a matrix with one row per combination, the
    evaluation of the tiers on usage facts with the values of row [i] gives the
    parts and the total of a single tier with the prices of that row. *)
Theorem matrix_charges_each_combination schema rs i row sample sch :
  proper_schema schema →
  getTaskNumberFields locale_le (Some schema) ≠ [] →
  map combination rs = getTaskEnumCombinations locale_le (Some schema) →
  rs !! i = Some row →
  (∀ f v, field_get f (combination row) = Some v → field_get f sample = Some (FStr v)) →
  charged <$> evaluateTaskVisualConfig
    (mkVisual (taskMatrixToTiers locale_le (mkMatrix rs) schema)) sample sch
  = charged <$> evaluateTaskVisualConfig
      (mkVisual [row_tier locale_le (getTaskNumberFields locale_le (Some schema)) true row])
      sample sch.
Proof.
  intros Hp Hnf Hrs Hi Hs. rewrite (evaluate_price (mkVisual [_]) sample sch _ eq_refl).
  destruct (lookup_lt_is_Some_2 rs 0) as [first Hf]; [apply lookup_lt_Some in Hi; lia|].
  rewrite (taskMatrixToTiers_cases schema rs first Hnf Hf).
  set (nf := getTaskNumberFields locale_le (Some schema)) in *.
  destruct (forallb (λ row, same_prices nf row first) rs) eqn:Eu.
  - rewrite (evaluate_price (mkVisual [_]) sample sch _ eq_refl).
    rewrite forallb_forall in Eu. specialize (Eu row).
    apply andb_true_iff in Eu as [Ec Ep];
      [|apply list_elem_of_In, (list_elem_of_lookup_2 _ _ _ Hi)].
    symmetry. by apply price_same; [apply num_eqb_same|apply same_prices_of].
  - set (ts := imap _ rs). destruct (list.last ts) as [fb|] eqn:El.
    + rewrite (evaluate_price (mkVisual ts) sample sch fb El). cbn [tiers]. unfold ts in *.
      rewrite (row_tier_applies schema nf rs i row sample fb Hp Hrs Hi Hs El).
      by apply price_same; [apply same_num_refl|apply same_entries_refl].
    + apply list.last_None in El. apply (f_equal length) in El. unfold ts in El.
      rewrite length_imap in El. apply lookup_lt_Some in Hi. simpl in El. lia.
Qed.

(** ** Evaluation in closed form *)

(** The part a usage field with a non-zero price contributes. *)
Definition usage_part (sample : list (jstr * fact)) (schema : option BillingUsageSchema)
    (e : jstr * jsnum) : PreviewPart :=
  let q := fact_number (field_get e.1 sample) in
  mkPart kind_usage (Some e.1)
    (if bool_decide ((schema ≫= field_get e.1) ≫= unit_ = Some unit_token)
     then num_div (num_mul q e.2) TASK_TOKEN_PRICE_SCALE else num_mul q e.2)
    (Some q) (Some e.2).

Definition priced (t : TaskVisualTier) : list (jstr * jsnum) :=
  filter (λ e, num_eqb e.2 zero = false) (unitPrices t).

Definition all_parts (t : TaskVisualTier) (sample : list (jstr * fact))
    (schema : option BillingUsageSchema) : list PreviewPart :=
  (if num_ltb zero (constant t) then [mkPart kind_constant None (constant t) None None] else [])
  ++ map (usage_part sample schema) (priced t).

Definition sum (ps : list PreviewPart) : jsnum := foldl num_add zero (map amount ps).

(** Nothing in the way of a price: usable numbers and no overflow. *)
Definition chargeable (t : TaskVisualTier) (sample : list (jstr * fact))
    (schema : option BillingUsageSchema) : bool :=
  usable (constant t) && forallb (λ e, usable e.2) (unitPrices t)
  && forallb (λ e, usable (fact_number (field_get e.1 sample))) (priced t)
  && forallb (λ e, isFinite (amount (usage_part sample schema e))) (priced t)
  && isFinite (sum (all_parts t sample schema)).

Lemma usage_parts_formula sample schema l sofar :
  let pr := filter (λ e, num_eqb e.2 zero = false) l in
  usage_parts sample schema sofar l
  = if forallb (λ e, usable e.2) l
       && forallb (λ e, usable (fact_number (field_get e.1 sample))) pr
       && forallb (λ e, isFinite (amount (usage_part sample schema e))) pr
    then Some (map (usage_part sample schema) pr,
               foldl num_add sofar (map amount (map (usage_part sample schema) pr)))
    else None.
Proof.
  cbv zeta. revert sofar. induction l as [|[f p] l IH]; intros sofar; [done|].
  cbn [usage_parts forallb snd]. rewrite filter_cons. cbn [snd].
  destruct (usable p) eqn:Ep; [|done]. cbn [negb andb].
  destruct (num_eqb p zero) eqn:Ez; [rewrite IH; by rewrite decide_False|].
  rewrite decide_True by done. cbn [forallb map foldl fst snd].
  destruct (usable (fact_number (field_get f sample))) eqn:Eq; cbn [negb];
    [|by rewrite andb_false_r].
  match goal with |- (if negb (isFinite ?a) then _ else _) = _ =>
    change (isFinite a) with (isFinite (amount (usage_part sample schema (f, p)))) end.
  destruct (isFinite (amount (usage_part sample schema (f, p)))) eqn:Ea; cbn [negb andb];
    [|by rewrite andb_false_r].
  rewrite IH. by destruct (forallb _ l && _ && _).
Qed.

Lemma applying_tier sample fallback ts :
  list.last ts = Some fallback →
  ∃ i t, ts !! i = Some t ∧
    ((i = length ts - 1)%nat ∨ forallb (condition_holds sample) (task_conditions t) = true) ∧
    (∀ k t', (k < i)%nat → ts !! k = Some t' →
       forallb (condition_holds sample) (task_conditions t') = false).
Proof.
  intros Hl. rewrite list.last_lookup in Hl.
  destruct (list_find (λ t, forallb (condition_holds sample) (task_conditions t) = true) ts)
    as [[i t]|] eqn:E.
  - apply list_find_Some in E as (Hi & Ht & Hk). exists i, t. split_and!; [done|by right|].
    intros k t' Hlt Ht'. apply not_true_iff_false. by apply (Hk k t').
  - apply list_find_None in E. exists (pred (length ts)), fallback. split_and!; [done|left; lia|].
    intros k t' _ Ht'. apply not_true_iff_false. rewrite list.Forall_forall in E.
    apply E. by eapply list_elem_of_lookup_2.
Qed.

(** The local evaluation is: the first tier, the last aside, whose
    conditions hold, or the last tier; its constant if positive and then, in
    the order of the unit prices and leaving out zero prices, quantity times
    price (per million for tokens); the total is the sum of these parts in
    order.  It gives no result exactly when a number is unusable or overflows. *)
Theorem evaluation_formula config sample schema fallback :
  list.last (tiers config) = Some fallback →
  ∃ i t, tiers config !! i = Some t ∧
    ((i = length (tiers config) - 1)%nat ∨
     forallb (condition_holds sample) (task_conditions t) = true) ∧
    (∀ k t', (k < i)%nat → tiers config !! k = Some t' →
       forallb (condition_holds sample) (task_conditions t') = false) ∧
    evaluateTaskVisualConfig config sample schema
    = if chargeable t sample schema
      then Some (mkPreview t (sum (all_parts t sample schema)) (all_parts t sample schema))
      else None.
Proof.
  intros Hl. destruct (applying_tier sample fallback (tiers config) Hl) as (i & t & Hi & Hc & Hk).
  exists i, t. split_and!; [done|done|done|].
  pose proof (matched_tier_at sample fallback _ i t Hl Hi Hc Hk) as Hm.
  unfold evaluateTaskVisualConfig, chargeable, all_parts, sum. rewrite Hl. cbn [mbind option_bind].
  rewrite Hm. destruct (usable (constant t)); [|done]. cbn [negb andb].
  rewrite map_app, foldl_app. unfold priced.
  destruct (num_ltb zero (constant t)); rewrite usage_parts_formula; cbn [map foldl amount app];
    destruct (_ && _ && _); cbn [mbind option_bind andb]; try done; by destruct (isFinite _).
Qed.

(** ** Normalization *)

Lemma or_else_idem l d : truthy d = true → or_else (or_else l d) d = or_else l d.
Proof. intros Hd. unfold or_else. destruct (truthy l) eqn:E; by rewrite ?E, ?Hd. Qed.

Lemma default_label_truthy (index : nat) :
  truthy (if (index =? 0)%nat then js "base" else js "tier_" ++ digits_Z (Z.of_nat index + 1)) = true.
Proof. by destruct (index =? 0)%nat. Qed.

Lemma number_or_zero_idem n : number_or_zero (Some (number_or_zero n)) = number_or_zero n.
Proof.
  unfold number_or_zero. destruct n as [n|]; [|done].
  destruct (isFinite n && num_leb zero n) eqn:E; [by rewrite E|done].
Qed.

Lemma number_or_zero_usable n : usable (number_or_zero n) = true.
Proof.
  unfold number_or_zero, usable. destruct n as [n|]; [|done].
  destruct (isFinite n && num_leb zero n) eqn:E; [|done].
  apply andb_true_iff in E as [Hf Hl]. rewrite Hf. by destruct n as [[]|[]| |[]].
Qed.

Lemma number_fields_keys schema :
  NoDup schema.*1 → NoDup (getTaskNumberFields locale_le (Some schema)).*1.
Proof. intros Hn. by apply sort_entries_keys, filter_keys. Qed.

Lemma refilled_prices nf (g : option jsnum → jsnum) prices :
  NoDup nf.*1 → (∀ p, g (Some (g p)) = g p) →
  let filled := fromEntries (map (λ e : jstr * BillingUsageFieldSchema, (e.1, g (field_get e.1 prices))) nf) in
  fromEntries (map (λ e, (e.1, g (field_get e.1 filled))) nf) = filled.
Proof.
  intros Hn Hg filled. unfold filled at 2. f_equal. apply map_ext_in. intros e He. f_equal.
  unfold filled. rewrite (field_get_map_keys (λ e, g (field_get e.1 prices))); [by rewrite Hg|done|].
  by apply list_elem_of_In.
Qed.

Lemma normalize_tier_idem schema i t :
  NoDup schema.*1 →
  normalize_tier locale_le schema i (normalize_tier locale_le schema i t)
  = normalize_tier locale_le schema i t.
Proof.
  intros Hn. unfold normalize_tier. cbn [task_label task_conditions constant unitPrices]. f_equal.
  - apply or_else_idem, default_label_truthy.
  - apply filter_everything, list.Forall_forall. intros c Hc. by apply list_elem_of_filter in Hc as [].
  - apply number_or_zero_idem.
  - apply refilled_prices; [by apply number_fields_keys|apply number_or_zero_idem].
Qed.

(** A tier the editor may hold: a label, declared conditions and exactly the
    number fields with usable prices. *)
Definition tier_wf (schema : BillingUsageSchema) (t : TaskVisualTier) : Prop :=
  task_label t ≠ [] ∧ usable (constant t) = true ∧
  Forall (λ c, declared schema (task_field c) (task_value c) = true) (task_conditions t) ∧
  ∀ f, (∃ p, field_get f (unitPrices t) = Some p)
       ↔ (∃ d, (f, d) ∈ schema ∧ is_number_field d = true).

Definition usable_prices (t : TaskVisualTier) : Prop :=
  ∀ f p, field_get f (unitPrices t) = Some p → usable p = true.

Lemma enum_condition_declared schema c :
  NoDup schema.*1 →
  from_option (λ d, bool_decide (task_value c ∈ enum_values d)) false
    (field_get (task_field c) (getTaskEnumFields locale_le (Some schema))) = true →
  declared schema (task_field c) (task_value c) = true.
Proof.
  intros Hn. destruct (field_get _ _) as [d|] eqn:E; [|done]. simpl.
  apply field_get_elem in E. simpl in E. rewrite sort_entries_elem in E.
  apply list_elem_of_filter in E as [_ E]. unfold declared.
  rewrite (field_get_Some _ _ _ Hn E). unfold enum_values.
  destruct (enum d); [done|]. intros H%bool_decide_eq_true. set_solver.
Qed.

Lemma filled_keys schema (g : jstr → jsnum) f :
  NoDup schema.*1 →
  (∃ p, field_get f (fromEntries (map (λ e, (e.1, g e.1)) (getTaskNumberFields locale_le (Some schema))))
        = Some p)
  ↔ (∃ d, (f, d) ∈ schema ∧ is_number_field d = true).
Proof.
  intros Hn. pose proof (number_fields_keys schema Hn) as Hk.
  rewrite field_get_fromEntries by by rewrite (map_keys_fst (λ e, g e.1)).
  split.
  - intros [p Hp]. apply field_get_elem, list_elem_of_fmap in Hp as ([f' d] & Heq & Hin).
    simpl in Heq. simplify_eq. simpl in Hin. rewrite sort_entries_elem in Hin.
    apply list_elem_of_filter in Hin as [Hd Hin]. eauto.
  - intros (d & Hin & Hd). exists (g f). apply field_get_Some; [by rewrite (map_keys_fst (λ e, g e.1))|].
    apply list_elem_of_fmap. exists (f, d). split; [done|]. simpl. rewrite sort_entries_elem.
    apply list_elem_of_filter. done.
Qed.

Lemma filled_usable schema (g : jstr → jsnum) f p :
  NoDup schema.*1 → (∀ k, usable (g k) = true) →
  field_get f (fromEntries (map (λ e, (e.1, g e.1)) (getTaskNumberFields locale_le (Some schema))))
  = Some p → usable p = true.
Proof.
  intros Hn Hg. pose proof (number_fields_keys schema Hn) as Hk.
  rewrite field_get_fromEntries by by rewrite (map_keys_fst (λ e, g e.1)).
  intros Hp. apply field_get_elem, list_elem_of_fmap in Hp as (e & Heq & _). simplify_eq. apply Hg.
Qed.

Lemma normalize_tier_wf schema i t :
  NoDup schema.*1 →
  let t' := normalize_tier locale_le schema i t in tier_wf schema t' ∧ usable_prices t'.
Proof.
  intros Hn. split; [split_and!|].
  - simpl. unfold or_else. destruct (truthy (task_label t)) eqn:E; [by apply truthy_true|].
    apply truthy_true, default_label_truthy.
  - apply number_or_zero_usable.
  - apply list.Forall_forall. intros c Hc. apply list_elem_of_filter in Hc as [Hc _].
    by apply enum_condition_declared.
  - intros f. apply (filled_keys schema (λ k, number_or_zero (field_get k (unitPrices t)))). done.
  - intros f p. apply (filled_usable schema (λ k, number_or_zero (field_get k (unitPrices t)))); [done|].
    intros k. apply number_or_zero_usable.
Qed.

(** A normalized configuration is made of normalized tiers. *)
Lemma normalized_tiers config schema :
  NoDup schema.*1 →
  ∃ ts, ts ≠ [] ∧ normalizeTaskVisualConfig locale_le config schema
                  = mkVisual (imap (normalize_tier locale_le schema) ts).
Proof.
  intros Hn. set (base := createDefaultTaskVisualConfig locale_le schema).
  assert (base = mkVisual (imap (normalize_tier locale_le schema)
    [mkTaskTier (js "base") [] zero (zero_prices locale_le schema)])) as Hbase.
  { unfold base, createDefaultTaskVisualConfig. simpl. unfold normalize_tier. simpl. do 3 f_equal.
    symmetry. apply (refilled_prices _ number_or_zero []); [by apply number_fields_keys|].
    apply number_or_zero_idem. }
  destruct config as [[[|t ts]]|]; [|by exists (t :: ts)|]; eexists; (split; [|exact Hbase]); done.
Qed.

Lemma normalize_idem config schema :
  NoDup schema.*1 →
  let c := normalizeTaskVisualConfig locale_le config schema in
  normalizeTaskVisualConfig locale_le (Some c) schema = c.
Proof.
  intros Hn. destruct (normalized_tiers config schema Hn) as (ts & Hne & ->). cbv zeta.
  destruct ts as [|t ts]; [done|]. cbn [normalizeTaskVisualConfig imap]. f_equal.
  change (imap (normalize_tier locale_le schema) (imap (normalize_tier locale_le schema) (t :: ts))
    = imap (normalize_tier locale_le schema) (t :: ts)).
  apply list_eq. intros i. rewrite !list_lookup_imap. destruct ((t :: ts) !! i); [|done].
  simpl. by rewrite normalize_tier_idem.
Qed.

(** Normalizing the configuration of the editor gives well-formed tiers:
    each with a label, with conditions the schema declares and with a usable
    price for exactly the number fields; and normalizing again changes nothing. *)
Theorem normalization_spec config schema :
  NoDup schema.*1 →
  let c := normalizeTaskVisualConfig locale_le config schema in
  tiers c ≠ [] ∧ Forall (tier_wf schema) (tiers c) ∧ Forall usable_prices (tiers c) ∧
  normalizeTaskVisualConfig locale_le (Some c) schema = c.
Proof.
  intros Hn c. pose proof (normalize_idem config schema Hn) as Hidem.
  destruct (normalized_tiers config schema Hn) as (ts & Hne & Hc).
  split_and!; [| | |exact Hidem]; unfold c; rewrite Hc; cbn [tiers].
  - by destruct ts.
  - apply list.Forall_lookup. intros i x Hx. rewrite list_lookup_imap in Hx.
    apply fmap_Some in Hx as (t & _ & ->). by apply normalize_tier_wf.
  - apply list.Forall_lookup. intros i x Hx. rewrite list_lookup_imap in Hx.
    apply fmap_Some in Hx as (t & _ & ->). by apply (normalize_tier_wf schema i t).
Qed.

End locale.
