(* ===== verification/BillingExprFacts.v ===== *)
(** * Properties of billing expressions

    What the task parser returns; the scanners and regular expressions on the
    texts the editors generate; the round trips between editor and text. *)

From S2P Require Import Prelude JsValue Regex BillingExpr TaskExpr.
Import BillingExpr TaskExpr.

(** ** The tiers of a task expression *)

(** The prices are usable prices of number fields of the schema. *)
Definition prices_wf (schema : BillingUsageSchema) (prices : list (jstr * jsnum)) : Prop :=
  ∀ f p, field_get f prices = Some p →
  usable p = true ∧ ∃ d, field_get f schema = Some d ∧ is_number_field d = true.

Definition task_tier_wf (schema : BillingUsageSchema) (t : ParsedTaskTier) : Prop :=
  usable (constant t) = true ∧ unitPrices t ≠ [] ∧ prices_wf schema (unitPrices t) ∧
  Forall (λ c, declared schema (task_field c) (task_value c) = true) (task_conditions t).

Lemma parse_term_wf schema found prices term found' prices' :
  parse_term schema (found, prices) term = Some (found', prices') →
  prices_wf schema prices → (∀ n, found = Some n → usable n = true) →
  prices_wf schema prices' ∧ (∀ n, found' = Some n → usable n = true).
Proof.
  unfold parse_term. destruct (is_numeric term).
  - destruct (bool_decide _) eqn:?; [done|]. cbn [orb].
    destruct (isFinite (Number term)) eqn:Hf; [|done]. cbn [negb orb].
    destruct (num_ltb _ _) eqn:Hl; [done|]. intros [= <- <-] Hp Hc. split; [done|].
    intros n [= <-]. unfold usable, zero. by rewrite Hf, Hl.
  - intros H Hp Hc.
    destruct (match match_whole scaled_term_re term with Some m => _ | None => _ end) as [m|]; [|done].
    cbn [mbind option_bind] in H. destruct (parse_literal (cap 1 m)) as [f|]; [|done].
    cbn [mbind option_bind] in H. destruct (field_get f schema) as [d|] eqn:Ed; [|done].
    cbn [mbind option_bind] in H.
    destruct (negb (bool_decide (type_ d = Some type_number)) || _ || _ || _ || _) eqn:E; [done|].
    destruct (Bool.eqb _ _); [|done]. simplify_eq. split; [|done].
    apply orb_false_iff in E as [E Hl]. apply orb_false_iff in E as [E Hf].
    apply orb_false_iff in E as [E _]. apply orb_false_iff in E as [Ht Hu].
    intros k p. rewrite field_get_obj_set. destruct (bool_decide_reflect (f = k)) as [->|Hk].
    + rewrite jeqb_refl. intros [= <-]. split.
      * unfold usable, zero. apply negb_false_iff in Hf. by rewrite Hf, Hl.
      * exists d. split; [done|]. unfold is_number_field.
        apply negb_false_iff in Ht, Hu. by rewrite Ht, Hu.
    + rewrite jeqb_neq by done. apply Hp.
Qed.

Lemma parse_terms_wf schema terms found prices found' prices' :
  parse_terms schema (found, prices) terms = Some (found', prices') →
  prices_wf schema prices → (∀ n, found = Some n → usable n = true) →
  prices_wf schema prices' ∧ (∀ n, found' = Some n → usable n = true).
Proof.
  revert found prices. induction terms as [|t terms IH]; intros found prices; cbn [parse_terms].
  { by intros [= <- <-]. }
  destruct (parse_term _ _ _) as [[found1 prices1]|] eqn:E; [|done]. cbn [mbind option_bind].
  intros H Hp Hc. destruct (parse_term_wf _ _ _ _ _ _ E Hp Hc) as [Hp1 Hc1]. by eapply IH.
Qed.

Lemma parseTaskTierCall_wf expr cs schema t :
  parseTaskTierCall expr cs schema = Some t →
  Forall (λ c, declared schema (task_field c) (task_value c) = true) cs →
  task_tier_wf schema t ∧ task_conditions t = cs.
Proof.
  unfold parseTaskTierCall. destruct (_ || _); [done|]. intros H Hcs.
  destruct (findTaskTopLevelCharacter _ _) as [i|]; [|done]. cbn [mbind option_bind] in H.
  destruct (parse_literal _) as [l|]; [|done]. cbn [mbind option_bind] in H.
  destruct (parse_terms _ _ _) as [[found prices]|] eqn:E; [|done]. cbn [mbind option_bind] in H.
  case_bool_decide as Hne; [done|]. cbn [negb] in H. simplify_eq. split; [|done].
  apply parse_terms_wf in E as [Hp Hc]; [|done|done].
  split_and!; [|done|done|done]. simpl. destruct found; [by apply Hc|done].
Qed.

Lemma parse_task_condition_wf schema part c :
  parse_task_condition schema part = Some c → declared schema (task_field c) (task_value c) = true.
Proof.
  unfold parse_task_condition. intros H.
  destruct (match_whole _ _) as [m|]; [|done]. cbn [mbind option_bind] in H.
  destruct (parse_literal (cap 1 m)) as [f|]; [|done]. cbn [mbind option_bind] in H.
  destruct (parse_literal (cap 2 m)) as [v|]; [|done]. cbn [mbind option_bind] in H.
  destruct (declared schema f v) eqn:E; [|done]. by simplify_eq.
Qed.

Lemma parseTaskConditions_wf expr schema cs :
  parseTaskConditions expr schema = Some cs →
  cs ≠ [] ∧ Forall (λ c, declared schema (task_field c) (task_value c) = true) cs.
Proof.
  unfold parseTaskConditions. destruct (mapM _ _) as [[|c cs']|] eqn:E; [done| |done].
  intros [= <-]. split; [done|]. apply mapM_Some in E.
  apply list.Forall_forall. intros x Hx. apply list_elem_of_lookup in Hx as [i Hi].
  destruct (Forall2_lookup_r _ _ _ _ _ E Hi) as (part & _ & Hp).
  by eapply parse_task_condition_wf.
Qed.

(** Every tier but the last has conditions. *)
Definition fallback_last (ts : list ParsedTaskTier) : Prop :=
  ∀ i t, ts !! i = Some t → task_conditions t = [] → (i = length ts - 1)%nat.

Lemma parse_task_loop_wf fuel schema s ts :
  parse_task_loop fuel schema s = Some ts → Forall (task_tier_wf schema) ts ∧ fallback_last ts.
Proof.
  revert s ts. induction fuel as [|f IH]; intros s ts; [done|]. cbn [parse_task_loop].
  destruct (negb (truthy s)); [by intros [= <-]|].
  destruct (findTaskTopLevelCharacter s 63) as [q|].
  - intros H. destruct (findTaskTernaryColon s q) as [c|]; [|done]. cbn [mbind option_bind] in H.
    destruct (parseTaskConditions _ _) as [cs|] eqn:Ec; [|done]. cbn [mbind option_bind] in H.
    destruct (parseTaskTierCall _ _ _) as [t|] eqn:Et; [|done]. cbn [mbind option_bind] in H.
    destruct (parse_task_loop f _ _) as [ts'|] eqn:El; [|done]. cbn [mbind option_bind] in H.
    simplify_eq. apply parseTaskConditions_wf in Ec as [Hne Hd].
    apply parseTaskTierCall_wf in Et as [Hw Hcs]; [|done]. apply IH in El as [Hts Hl].
    split; [by constructor|]. intros i t' Hi He.
    destruct i as [|i]; simplify_eq/=.
    specialize (Hl i t' Hi He). apply lookup_lt_Some in Hi. lia.
  - intros H. destruct (parseTaskTierCall _ _ _) as [t|] eqn:Et; [|done].
    cbn [mbind option_bind] in H. simplify_eq.
    apply parseTaskTierCall_wf in Et as [Hw _]; [|done]. split; [by constructor|].
    intros [|i] t' Hi He; simplify_eq/=. done.
Qed.

Lemma find_colon_length s q i : findTaskTernaryColon s q = Some i → (S i <= length s)%nat.
Proof.
  unfold findTaskTernaryColon. intros H.
  apply fmap_Some in H as (k & Hk & ->).
  assert (∀ d n qu w j, find_colon d n qu w = Some j → (j < length w)%nat) as Hlt.
  { clear. intros d n qu w. revert d n qu. induction w as [|c w IH]; intros d n qu j; [done|].
    cbn [find_colon length]. intros H. repeat case_match; simplify_eq/=; try lia;
      apply fmap_Some in H as (j' & Hj & ->); apply IH in Hj; lia. }
  apply Hlt in Hk. rewrite length_drop in Hk. lia.
Qed.

(** More fuel than the length of the text does not matter. *)
Lemma parse_task_loop_fuel f f' schema s :
  (length s < f)%nat → (length s < f')%nat →
  parse_task_loop f schema s = parse_task_loop f' schema s.
Proof.
  revert f' s. induction f as [|f IH]; intros f' s Hf Hf'; [lia|].
  destruct f' as [|f']; [lia|]. cbn [parse_task_loop].
  destruct (negb (truthy s)); [done|].
  destruct (findTaskTopLevelCharacter s 63) as [q|]; [|done].
  destruct (findTaskTernaryColon s q) as [c|] eqn:Ec; [|done]. cbn [mbind option_bind].
  destruct (parseTaskConditions _ _); [|done]. cbn [mbind option_bind].
  destruct (parseTaskTierCall _ _ _); [|done]. cbn [mbind option_bind].
  apply find_colon_length in Ec.
  pose proof (trim_length (drop (S c) s)) as Ht. rewrite length_drop in Ht.
  rewrite (IH f') by lia. done.
Qed.

(** [C38] Whatever text it is given, the task parser ends and its tiers are
    sound: the constant and every unit price are finite and not negative, every
    price belongs to a number field with a unit, every condition names a
    declared enum value, and only the last tier may have no condition. *)
Theorem parsed_task_tiers_sound exprStr schema :
  (∀ fuel s, (length s < fuel)%nat →
     parse_task_loop fuel schema s = parse_task_loop (S (length s)) schema s) ∧
  let ts := parseTaskTiersFromExpr exprStr (Some schema) in
  Forall (task_tier_wf schema) ts ∧ fallback_last ts.
Proof.
  split; [intros fuel s Hf; apply parse_task_loop_fuel; lia|]. cbv zeta.
  assert (Forall (task_tier_wf schema) [] ∧ fallback_last []) as H0 by done.
  unfold parseTaskTiersFromExpr. destruct schema as [|e schema]; [done|].
  destruct (negb (truthy exprStr)); [done|].
  destruct (splitBillingExprAndRequestRules exprStr) as [[b r]|]; [|done].
  destruct (parse_task_loop _ _ _) as [ts|] eqn:E; [|done].
  by apply parse_task_loop_wf in E.
Qed.
