(* ===== verification/TaskRoundTrip.v ===== *)
(** * The text of a task price reads back

    The generated billing expression of a task configuration is parsed back to
    the configuration: the regular expressions on generated conditions and
    terms, the scanners on generated text, and the round trip. *)

From Stdlib Require Import ZifyN ZifyBool.
From stdpp Require Import sorting.
From S2P Require Import Prelude StableSort JsValue NumFacts JsCollections FloatError NumRounding NumberText Regex RegexRun BillingExpr TaskExpr StringFacts TaskExprFacts BillingExprFacts.
Import BillingExpr TaskExpr.

(** ** Splitting a text at the end of a run of characters *)

Lemma span_unique P w1 w2 t1 t2 :
  Forall (λ c, P c = true) w1 → Forall (λ c, P c = true) w2 → stops P t1 → stops P t2 →
  w1 ++ t1 = w2 ++ t2 → w1 = w2 ∧ t1 = t2.
Proof.
  intros H1. revert w2. induction H1 as [|c w1 Hc _ IH]; intros w2 H2 Ht1 Ht2 Heq.
  - destruct w2 as [|c w2]; [done|]. apply list.Forall_cons in H2 as [Hc _].
    rewrite (Ht1 c (w2 ++ t2)) in Hc; done.
  - destruct w2 as [|c' w2]; simpl in Heq.
    + rewrite (Ht2 c (w1 ++ t1)) in Hc; done.
    + apply list.Forall_cons in H2 as [_ H2]. injection Heq as -> Heq.
      by destruct (IH w2 H2 Ht1 Ht2 Heq) as [-> ->].
Qed.

Abbreviation spaces := (Forall (λ c, is_ws c = true)).

Lemma stops_literal w t : literal w → stops is_ws (w ++ t).
Proof. intros (b & -> & _). by apply stops_cons. Qed.
#[local] Hint Resolve stops_cons stops_literal : d2s.

(** ** The regular expressions of the task parser *)

Lemma den_spaces c w c' : den (Star ws) c w c' ↔ spaces w ∧ c' = c.
Proof. apply den_star_chr. Qed.

Lemma den_usage n c w c' :
  den (usage_re n) c w c' ↔
  ∃ a l b, w = js "u(" ++ a ++ l ++ b ++ js ")" ∧ spaces a ∧ literal l ∧ spaces b ∧ c' = (n, l) :: c.
Proof.
  unfold usage_re. cbn [cats foldr den]. fold (den (Star ws)). split.
  - intros (w1 & w2 & c1 & -> & [-> ->] & a & w3 & c2 & -> & Ha & l & w4 & c3 & -> & (c4 & Hl & ->)
      & b & w5 & c5 & -> & Hb & w6 & w7 & c6 & -> & [-> ->] & [-> ->]).
    apply den_spaces in Ha as [Ha ->]. apply den_literal in Hl as [Hl ->].
    apply den_spaces in Hb as [Hb ->]. exists a, l, b. by rewrite app_nil_r.
  - intros (a & l & b & -> & Ha & Hl & Hb & ->).
    eexists (js "u("), _, c. split_and!; [done..|].
    exists a, (l ++ b ++ js ")"), c. split_and!; [done|by apply den_spaces|].
    exists l, (b ++ js ")"), ((n, l) :: c). split_and!; [done|exists c; split; [by apply den_literal|done]|].
    exists b, (js ")"), ((n, l) :: c). split_and!; [done|by apply den_spaces|].
    by exists (js ")"), [], ((n, l) :: c).
Qed.

(** How a text that starts with [u("name")] is divided. *)
Lemma usage_prefix a l b t f t0 :
  spaces a → literal l → spaces b →
  js "u(" ++ a ++ l ++ b ++ js ")" ++ t = js "u(" ++ quote f ++ js ")" ++ t0 →
  l = quote f ∧ t = t0.
Proof.
  intros Ha Hl Hb Heq. apply (app_inv_head (js "u(")) in Heq.
  apply (span_unique is_ws a [] _ _ Ha) in Heq as [-> Heq];
    [|constructor|auto with d2s|apply stops_literal, quote_literal].
  apply literal_prefix in Heq as [-> Heq]; [|done|apply quote_literal]. split; [done|].
  apply (span_unique is_ws b [] _ _ Hb) in Heq as [-> Heq];
    [|constructor|by apply stops_cons|by apply stops_cons].
  by simplify_eq/=.
Qed.

Lemma task_condition_match f v :
  match_whole task_condition_re (js "u(" ++ quote f ++ js ") == " ++ quote v)
  = Some [(2%nat, quote v); (1%nat, quote f)].
Proof.
  apply match_whole_unique; [done| |].
  - unfold task_condition_re. cbn [cats foldr den]. fold (den (usage_re 1)).
    exists (js "u(" ++ quote f ++ js ")"), (js " == " ++ quote v), [(1%nat, quote f)].
    split_and!; [by rewrite <-!app_assoc| |].
    { apply den_usage. exists [], (quote f), []. split_and!; [done|constructor|apply quote_literal|constructor|done]. }
    exists (js " "), (js "== " ++ quote v), [(1%nat, quote f)].
    split_and!; [done|apply den_spaces; split; [by repeat constructor|done]|].
    eexists (js "=="), _, _. split_and!; [done..|].
    exists (js " "), (quote v), [(1%nat, quote f)].
    split_and!; [done|apply den_spaces; split; [by repeat constructor|done]|].
    exists (quote v), [], [(2%nat, quote v); (1%nat, quote f)].
    split_and!; [by rewrite app_nil_r| |done..]. exists [(1%nat, quote f)].
    split; [|done]. apply den_literal. split; [apply quote_literal|done].
  - intros c'. unfold task_condition_re. cbn [cats foldr den]. fold (den (usage_re 1)).
    intros (w1 & w2 & c1 & Heq & Hu & a & w3 & c2 & -> & Ha & w4 & w5 & c3 & -> & [-> ->]
      & b & w6 & c4 & -> & Hb & l & w7 & c5 & -> & (c6 & Hl & ->) & [-> ->]).
    apply den_usage in Hu as (a0 & l0 & b0 & -> & Ha0 & Hl0 & Hb0 & ->).
    apply den_spaces in Ha as [Ha ->]. apply den_spaces in Hb as [Hb ->].
    apply den_literal in Hl as [Hl ->].
    rewrite <-!app_assoc in Heq. symmetry in Heq.
    change (js ") == " ++ quote v) with (js ")" ++ js " " ++ js "==" ++ js " " ++ quote v) in Heq.
    apply usage_prefix in Heq as [-> Heq]; [|done..].
    apply (span_unique is_ws a (js " ") _ _ Ha) in Heq as [-> Heq];
      [|by repeat constructor|by apply stops_cons|by apply stops_cons].
    apply (app_inv_head (js "==")) in Heq.
    apply (span_unique is_ws b (js " ") _ _ Hb) in Heq as [-> Heq];
      [|by repeat constructor|by apply stops_literal|].
    2:{ rewrite <-(app_nil_r (quote v)). apply stops_literal, quote_literal. }
    rewrite app_nil_r in Heq. by subst l.
Qed.

(** A generated term up to its number, and the way such a text is divided. *)
Definition term_text (f n : jstr) : jstr := js "u(" ++ quote f ++ js ") * " ++ n.

Lemma den_bare c w c' :
  den bare_term_re c w c' →
  ∃ a l b a2 a3 n, w = js "u(" ++ a ++ l ++ b ++ js ")" ++ a2 ++ js "*" ++ a3 ++ n ∧
    spaces a ∧ literal l ∧ spaces b ∧ spaces a2 ∧ spaces a3 ∧
    Forall (λ x, num_char x = true) n ∧ n ≠ [] ∧ c' = (2%nat, n) :: (1%nat, l) :: c.
Proof.
  unfold bare_term_re. cbn [cats foldr den]. fold (den (usage_re 1)).
  intros (w1 & w2 & c1 & -> & Hu & a2 & w3 & c2 & -> & Ha2 & w4 & w5 & c3 & -> & [-> ->]
    & a3 & w6 & c4 & -> & Ha3 & n & w7 & c5 & -> & (c6 & Hn & ->) & [-> ->]).
  apply den_usage in Hu as (a & l & b & -> & Ha & Hl & Hb & ->).
  apply den_spaces in Ha2 as [Ha2 ->]. apply den_spaces in Ha3 as [Ha3 ->].
  apply numeric_chars in Hn as (Hn & Hne & ->).
  exists a, l, b, a2, a3, n. rewrite app_nil_r, <-!app_assoc. done.
Qed.

Lemma bare_intro f n c :
  price_word n → den bare_term_re c (term_text f n) ((2%nat, n) :: (1%nat, quote f) :: c).
Proof.
  intros Hn. unfold bare_term_re, term_text. cbn [cats foldr den]. fold (den (usage_re 1)).
  exists (js "u(" ++ quote f ++ js ")"), (js " * " ++ n), ((1%nat, quote f) :: c).
  split_and!; [by rewrite <-!app_assoc| |].
  { apply den_usage. exists [], (quote f), []. split_and!; [done|constructor|apply quote_literal|constructor|done]. }
  exists (js " "), (js "* " ++ n), ((1%nat, quote f) :: c).
  split_and!; [done|apply den_spaces; split; [by repeat constructor|done]|].
  eexists (js "*"), _, _. split_and!; [done..|].
  exists (js " "), n, ((1%nat, quote f) :: c).
  split_and!; [done|apply den_spaces; split; [by repeat constructor|done]|].
  exists n, [], ((2%nat, n) :: (1%nat, quote f) :: c).
  split_and!; [by rewrite app_nil_r| |done..]. eexists.
  split; [by apply price_word_numeric|done].
Qed.

Lemma price_word_chars n : price_word n → Forall (λ x, num_char x = true) n ∧ n ≠ [].
Proof. intros H. by destruct (numeric_chars _ _ _ (price_word_numeric _ [] H)) as (? & ? & _). Qed.

Lemma num_char_not_ws x : num_char x = true → is_ws x = false.
Proof.
  unfold num_char. intros [H|H%bool_decide_eq_true]%orb_true_iff; [by apply digit_not_ws|].
  set_unfold in H. by destruct_or?; subst.
Qed.

Lemma stops_numeric n t : Forall (λ x, num_char x = true) n → n ≠ [] → stops is_ws (n ++ t).
Proof.
  intros Hn Hne. destruct n as [|x n]; [done|]. apply list.Forall_cons in Hn as [Hx _].
  apply stops_cons. by apply num_char_not_ws.
Qed.

(** A text divided as a term, compared with a generated one. *)
Lemma term_prefix a l b a2 a3 n t f n0 t0 :
  spaces a → literal l → spaces b → spaces a2 → spaces a3 →
  Forall (λ x, num_char x = true) n → n ≠ [] → stops num_char t →
  price_word n0 → stops num_char t0 →
  js "u(" ++ a ++ l ++ b ++ js ")" ++ a2 ++ js "*" ++ a3 ++ n ++ t = term_text f n0 ++ t0 →
  l = quote f ∧ n = n0 ∧ t = t0.
Proof.
  intros Ha Hl Hb Ha2 Ha3 Hn Hne Ht [Hn0 Hne0]%price_word_chars Ht0 Heq. unfold term_text in Heq.
  rewrite <-!app_assoc in Heq.
  change (js ") * " ++ n0 ++ t0) with (js ")" ++ js " " ++ js "*" ++ js " " ++ n0 ++ t0) in Heq.
  apply usage_prefix in Heq as [-> Heq]; [|done..]. split; [done|].
  apply (span_unique is_ws a2 (js " ") _ _ Ha2) in Heq as [-> Heq];
    [|by repeat constructor|by apply stops_cons|by apply stops_cons].
  apply (app_inv_head (js "*")) in Heq.
  apply (span_unique is_ws a3 (js " ") _ _ Ha3) in Heq as [-> Heq];
    [|by repeat constructor|by apply stops_numeric|by apply stops_numeric].
  by apply (span_unique num_char) in Heq.
Qed.

#[local] Hint Resolve stops_nil : d2s.

Lemma bare_term_match f n :
  price_word n →
  match_whole bare_term_re (term_text f n) = Some [(2%nat, n); (1%nat, quote f)].
Proof.
  intros Hn. apply match_whole_unique; [done|by apply bare_intro|].
  intros c' (a & l & b & a2 & a3 & n' & Heq & Ha & Hl & Hb & Ha2 & Ha3 & Hn' & Hne & ->)%den_bare.
  symmetry in Heq. rewrite <-(app_nil_r (term_text f n)), <-(app_nil_r n') in Heq.
  apply term_prefix in Heq as (-> & -> & _); auto with d2s.
Qed.

Lemma den_scaled c w c' :
  den scaled_term_re c w c' →
  ∃ v a4 a5, w = v ++ a4 ++ js "/" ++ a5 ++ js "1000000" ∧ den bare_term_re c v c' ∧
    spaces a4 ∧ spaces a5.
Proof.
  unfold scaled_term_re. cbn [cats foldr den]. fold (den bare_term_re).
  intros (v & w2 & c1 & -> & Hv & a4 & w3 & c2 & -> & Ha4 & w4 & w5 & c3 & -> & [-> ->]
    & a5 & w6 & c4 & -> & Ha5 & w7 & w8 & c5 & -> & [-> ->] & [-> ->]).
  apply den_spaces in Ha4 as [Ha4 ->]. apply den_spaces in Ha5 as [Ha5 ->].
  exists v, a4, a5. by rewrite app_nil_r.
Qed.

Lemma stops_slash a t : spaces a → stops num_char (a ++ 47%N :: t).
Proof.
  intros Ha. destruct a as [|x a]; [by apply stops_cons|]. apply stops_cons.
  apply list.Forall_cons in Ha as [Hx _]. destruct (num_char x) eqn:E; [|done].
  by rewrite (num_char_not_ws x E) in Hx.
Qed.

(** A text divided as a scaled term, compared with a generated term. *)
Lemma scaled_prefix c' f n0 t0 :
  price_word n0 → stops num_char t0 → den scaled_term_re [] (term_text f n0 ++ t0) c' →
  c' = [(2%nat, n0); (1%nat, quote f)] ∧ ∃ a4 a5, t0 = a4 ++ 47%N :: a5 ++ js "1000000".
Proof.
  intros Hn Ht0 (v & a4 & a5 & Heq & Hv & Ha4 & Ha5)%den_scaled.
  apply den_bare in Hv as (a & l & b & a2 & a3 & n' & -> & Ha & Hl & Hb & Ha2 & Ha3 & Hn' & Hne & ->).
  symmetry in Heq. rewrite <-!app_assoc in Heq.
  apply term_prefix in Heq as (-> & -> & <-); auto with d2s.
  - split; [done|]. by exists a4, a5.
  - by apply (stops_slash a4).
Qed.

Lemma scaled_term_none f n : price_word n → match_whole scaled_term_re (term_text f n) = None.
Proof.
  intros Hn. apply match_whole_None; [done|]. intros c' H.
  rewrite <-(app_nil_r (term_text f n)) in H.
  apply scaled_prefix in H as [_ (a4 & a5 & H)]; auto with d2s. by destruct a4.
Qed.

Lemma scaled_term_match f n :
  price_word n →
  match_whole scaled_term_re (term_text f n ++ js " / 1000000") = Some [(2%nat, n); (1%nat, quote f)].
Proof.
  intros Hn. apply match_whole_unique; [done| |].
  - unfold scaled_term_re. cbn [cats foldr den]. fold (den bare_term_re).
    exists (term_text f n), (js " / 1000000"), [(2%nat, n); (1%nat, quote f)].
    split_and!; [done|by apply bare_intro|].
    exists (js " "), (js "/ 1000000"), [(2%nat, n); (1%nat, quote f)].
    split_and!; [done|apply den_spaces; split; [by repeat constructor|done]|].
    eexists (js "/"), _, _. split_and!; [done..|].
    exists (js " "), (js "1000000"), [(2%nat, n); (1%nat, quote f)].
    split_and!; [done|apply den_spaces; split; [by repeat constructor|done]|].
    by eexists (js "1000000"), [], _.
  - intros c' H. by apply scaled_prefix in H as [-> _]; [|done|apply stops_cons].
Qed.

(** ** Conditions and terms *)

Definition condition_source (c : TaskTierCondition) : jstr :=
  js "u(" ++ quote (task_field c) ++ js ") == " ++ quote (task_value c).

Lemma parse_generated_condition schema c :
  units (task_field c) → units (task_value c) → declared schema (task_field c) (task_value c) = true →
  parse_task_condition schema (condition_source c) = Some c.
Proof.
  intros Hf Hv Hd. unfold parse_task_condition, condition_source. rewrite task_condition_match.
  cbn [mbind option_bind cap grp]. change (cap 1 _) with (quote (task_field c)).
  change (cap 2 _) with (quote (task_value c)).
  rewrite !parse_literal_quote by done. cbn [mbind option_bind]. rewrite Hd. by destruct c.
Qed.

(** A usable price, which its own decimal text denotes. *)
Definition exact_price (p : jsnum) : Prop := usable p = true ∧ readable p.

Lemma exact_price_word p : exact_price p → price_word (num_to_string p).
Proof. intros [Hu _]. by apply price_text. Qed.

Lemma is_numeric_price w : price_word w → is_numeric w = true.
Proof.
  intros Hw. unfold is_numeric. apply bool_decide_eq_true.
  by eapply match_whole_complete; [|apply (price_word_numeric w [])].
Qed.

Lemma is_numeric_chars w : is_numeric w = true → Forall (λ x, num_char x = true) w ∧ w ≠ [].
Proof.
  unfold is_numeric. intros [c H%match_whole_sound]%bool_decide_eq_true; [|done].
  by apply numeric_chars in H as (? & ? & _).
Qed.

Lemma is_numeric_term f n : is_numeric (term_text f n) = false.
Proof.
  apply not_true_iff_false. intros [H _]%is_numeric_chars. apply list.Forall_cons in H as [H _]. done.
Qed.

Lemma is_numeric_scaled f n t : is_numeric (term_text f n ++ t) = false.
Proof.
  apply not_true_iff_false. intros [H _]%is_numeric_chars. apply list.Forall_cons in H as [H _]. done.
Qed.

Lemma scale_text : num_to_string TASK_TOKEN_PRICE_SCALE = js "1000000".
Proof. vm_compute. reflexivity. Qed.

Lemma generate_term_text t e :
  generate_term t e
  = term_text e.1 (num_to_string (default zero (field_get e.1 (unitPrices t))))
    ++ (if bool_decide (unit_ e.2 = Some unit_token) then js " / 1000000" else []).
Proof.
  unfold generate_term, term_text. rewrite scale_text, <-!app_assoc. by case_bool_decide.
Qed.

Lemma parse_generated_term schema t e p found prices :
  field_get e.1 schema = Some e.2 → is_number_field e.2 = true → units e.1 →
  field_get e.1 (unitPrices t) = Some p → exact_price p → in_object e.1 prices = false →
  parse_term schema (found, prices) (generate_term t e) = Some (found, obj_set e.1 p prices).
Proof.
  intros Hs Hd Hu Hp Hex Hin. pose proof (exact_price_word p Hex) as Hw. destruct Hex as [Hus Hnum%readable_text].
  apply andb_true_iff in Hd as [Hty Hun]. apply andb_true_iff in Hus as [Hfin Hneg].
  apply negb_true_iff in Hneg. unfold zero in Hneg.
  unfold parse_term. rewrite generate_term_text, Hp. change (default zero (Some p)) with p.
  destruct (bool_decide (unit_ e.2 = Some unit_token)) eqn:Htok.
  - rewrite is_numeric_scaled, scaled_term_match by done. cbn [mbind option_bind].
    change (cap 1 _) with (quote e.1). change (cap 2 _) with (num_to_string p).
    rewrite parse_literal_quote by done. cbn [mbind option_bind]. rewrite Hs. cbn [mbind option_bind].
    by rewrite Hnum, Hty, Hun, Hin, Hfin, Hneg, Htok.
  - rewrite app_nil_r, is_numeric_term, scaled_term_none, bare_term_match by done.
    cbn [mbind option_bind].
    change (cap 1 _) with (quote e.1). change (cap 2 _) with (num_to_string p).
    rewrite parse_literal_quote by done. cbn [mbind option_bind]. rewrite Hs. cbn [mbind option_bind].
    by rewrite Hnum, Hty, Hun, Hin, Hfin, Hneg, Htok.
Qed.

Lemma parse_generated_constant schema p prices :
  exact_price p →
  parse_term schema (None, prices) (num_to_string p) = Some (Some p, prices).
Proof.
  intros Hex. unfold parse_term. rewrite (is_numeric_price _ (exact_price_word p Hex)).
  destruct Hex as [[Hfin Hneg]%andb_true_iff ->%readable_text]. apply negb_true_iff in Hneg. unfold zero in Hneg.
  by rewrite Hfin, Hneg.
Qed.

(** ** The scanners

    A text is passed over by a scanner when it ends in the state it started in
    and the scanner finds nothing in it. *)

Definition passed_char (target : N) (d : Z) (w : jstr) : Prop :=
  ∀ t, find_char target d unquoted (w ++ t) = Nat.add (length w) <$> find_char target d unquoted t.
Definition passed_colon (d : Z) (w : jstr) : Prop :=
  ∀ t, find_colon d 0 unquoted (w ++ t) = Nat.add (length w) <$> find_colon d 0 unquoted t.
Definition passed_split (op : task_operator) (d : Z) (w : jstr) : Prop :=
  ∀ b cur t, split_task op b false d unquoted cur (w ++ t)
             = split_task op (after b w) false d unquoted (cur ++ w) t.

(** Inside a string. *)
Lemma find_char_string target d w t :
  body w → find_char target d in_string (w ++ 34%N :: t)
           = Nat.add (S (length w)) <$> find_char target d unquoted t.
Proof.
  induction 1 as [|c w H1 H2 _ IH|c w _ _ IH]; cbn [app find_char].
  - by destruct (find_char _ _ _ t).
  - unfold quote_step. rewrite (proj2 (N.eqb_neq c 92)), (proj2 (N.eqb_neq c 34)), IH by done.
    by destruct (find_char _ _ _ t).
  - change (quote_step in_string 92) with after_backslash. cbn [find_char].
    change (quote_step after_backslash c) with in_string. rewrite IH.
    by destruct (find_char _ _ _ t).
Qed.

Lemma find_colon_string d n w t :
  body w → find_colon d n in_string (w ++ 34%N :: t)
           = Nat.add (S (length w)) <$> find_colon d n unquoted t.
Proof.
  induction 1 as [|c w H1 H2 _ IH|c w _ _ IH]; cbn [app find_colon].
  - by destruct (find_colon _ _ _ t).
  - unfold quote_step. rewrite (proj2 (N.eqb_neq c 92)), (proj2 (N.eqb_neq c 34)), IH by done.
    by destruct (find_colon _ _ _ t).
  - change (quote_step in_string 92) with after_backslash. cbn [find_colon].
    change (quote_step after_backslash c) with in_string. rewrite IH.
    by destruct (find_colon _ _ _ t).
Qed.

Lemma split_task_string op b d cur w t :
  body w → split_task op b false d in_string cur (w ++ 34%N :: t)
           = split_task op (Some 34%N) false d unquoted (cur ++ w ++ [34%N]) t.
Proof.
  intros Hw. revert b cur. induction Hw as [|c w H1 H2 _ IH|c w _ _ IH]; intros b cur;
    cbn [app split_task].
  - done.
  - unfold quote_step. rewrite (proj2 (N.eqb_neq c 92)), (proj2 (N.eqb_neq c 34)), IH by done.
    by rewrite <-app_assoc.
  - change (quote_step in_string 92) with after_backslash. cbn [split_task].
    change (quote_step after_backslash c) with in_string. rewrite IH. by rewrite <-!app_assoc.
Qed.

Lemma passed_char_app target d v w :
  passed_char target d v → passed_char target d w → passed_char target d (v ++ w).
Proof.
  intros Hv Hw t. rewrite <-app_assoc, Hv, Hw, length_app. destruct (find_char _ _ _ t); simpl; [|done].
  f_equal. lia.
Qed.
Lemma passed_colon_app d v w : passed_colon d v → passed_colon d w → passed_colon d (v ++ w).
Proof.
  intros Hv Hw t. rewrite <-app_assoc, Hv, Hw, length_app. destruct (find_colon _ _ _ t); simpl; [|done].
  f_equal. lia.
Qed.
Lemma passed_split_app op d v w : passed_split op d v → passed_split op d w → passed_split op d (v ++ w).
Proof. intros Hv Hw b cur t. by rewrite <-app_assoc, Hv, Hw, after_app, <-app_assoc. Qed.

Lemma passed_char_quote target d s : passed_char target d (quote s).
Proof.
  intros t. unfold quote. cbn [app find_char]. change (34 =? 34)%N with true. cbn iota.
  rewrite <-app_assoc. cbn [app]. rewrite find_char_string by apply quote_body.
  cbn [length]. rewrite length_app. destruct (find_char _ _ _ t); simpl; [|done]. f_equal. lia.
Qed.
Lemma passed_colon_quote d s : passed_colon d (quote s).
Proof.
  intros t. unfold quote. cbn [app find_colon]. change (34 =? 34)%N with true. cbn iota.
  rewrite <-app_assoc. cbn [app]. rewrite find_colon_string by apply quote_body.
  cbn [length]. rewrite length_app. destruct (find_colon _ _ _ t); simpl; [|done]. f_equal. lia.
Qed.
Lemma passed_split_quote op d s : passed_split op d (quote s).
Proof.
  intros b cur t. unfold quote. cbn [app split_task]. change (34 =? 34)%N with true. cbn iota.
  rewrite <-app_assoc. cbn [app]. rewrite split_task_string by apply quote_body.
  f_equal; [|by rewrite <-app_assoc]. unfold after. by rewrite app_comm_cons, list.last_snoc.
Qed.

(** Characters that no scanner reacts to at depth [d]: neither quotes nor
    parentheses and, outside of parentheses, none of [special]. *)
Definition plain_at (special : jstr) (d : Z) (w : jstr) : Prop :=
  Forall (λ c, c ≠ 34%N ∧ c ≠ 40%N ∧ c ≠ 41%N ∧ (d = 0 → c ∉ special)) w.

Ltac not_special c := 
  rewrite (proj2 (N.eqb_neq c 34)), (proj2 (N.eqb_neq c 40)), (proj2 (N.eqb_neq c 41)) by done.

Lemma passed_char_plain target d w : plain_at [target] d w → passed_char target d w.
Proof.
  induction 1 as [|c w (H1 & H2 & H3 & H4) _ IH]; intros t.
  { cbn [app]. by destruct (find_char _ _ _ t). }
  cbn [app find_char]. not_special c. rewrite IH.
  replace ((d =? 0) && (c =? target)%N) with false; [by destruct (find_char _ _ _ t)|].
  destruct (Z.eqb_spec d 0) as [Hd|]; [|done]. symmetry. apply N.eqb_neq. specialize (H4 Hd). set_solver.
Qed.
Lemma passed_colon_plain d w : plain_at [63; 58]%N d w → passed_colon d w.
Proof.
  induction 1 as [|c w (H1 & H2 & H3 & H4) _ IH]; intros t.
  { cbn [app]. by destruct (find_colon _ _ _ t). }
  cbn [app find_colon]. not_special c. rewrite IH.
  destruct (Z.eqb_spec d 0) as [Hd|]; [|by destruct (find_colon _ _ _ t)]. specialize (H4 Hd).
  rewrite (proj2 (N.eqb_neq c 63)), (proj2 (N.eqb_neq c 58)) by set_solver.
  cbn [negb]. rewrite ?(IH t). by destruct (find_colon d 0 unquoted t).
Qed.
Lemma passed_split_plain op d w :
  plain_at (match op with op_and => [38%N] | op_plus => [43%N] end) d w → passed_split op d w.
Proof.
  induction 1 as [|c w (H1 & H2 & H3 & H4) _ IH]; intros b cur t.
  { by rewrite app_nil_r. }
  cbn [app split_task]. not_special c.
  assert (∀ cur, split_task op (Some c) false d unquoted (cur ++ [c]) (w ++ t)
    = split_task op (after b (c :: w)) false d unquoted (cur ++ c :: w) t) as Hgo.
  { intros cur'. rewrite IH, <-app_assoc. f_equal. unfold after.
    destruct w as [|c' w] using rev_ind; [done|]. by rewrite app_comm_cons, !list.last_snoc. }
  destruct (Z.eqb_spec d 0) as [Hd|]; cbn [negb]; [|apply Hgo]. specialize (H4 Hd).
  destruct op.
  - assert (startsWith (c :: w ++ t) (js "&&") = false) as ->; [|apply Hgo].
    apply not_true_iff_false. intros [k Hk]%startsWith_true. simplify_eq/=. set_solver.
  - rewrite (proj2 (N.eqb_neq c 43)) by set_solver. apply Hgo.
Qed.

Lemma passed_char_parens target d w :
  0 ≤ d → passed_char target (d + 1) w → passed_char target d (js "(" ++ w ++ js ")").
Proof.
  intros Hd Hw t. change (js "(") with [40%N]. change (js ")") with [41%N]. rewrite <-!app_assoc.
  cbn [app find_char N.eqb Pos.eqb]. rewrite Hw. cbn [find_char N.eqb Pos.eqb].
  replace (d + 1 - 1) with d by lia. rewrite (proj2 (Z.ltb_ge d 0)) by lia.
  cbn [length]. rewrite length_app. destruct (find_char _ _ _ t); simpl; [|done]. f_equal. lia.
Qed.
Lemma passed_colon_parens d w :
  0 ≤ d → passed_colon (d + 1) w → passed_colon d (js "(" ++ w ++ js ")").
Proof.
  intros Hd Hw t. change (js "(") with [40%N]. change (js ")") with [41%N]. rewrite <-!app_assoc.
  cbn [app find_colon N.eqb Pos.eqb]. rewrite Hw. cbn [find_colon N.eqb Pos.eqb].
  replace (d + 1 - 1) with d by lia. rewrite (proj2 (Z.ltb_ge d 0)) by lia.
  cbn [length]. rewrite length_app. destruct (find_colon _ _ _ t); simpl; [|done]. f_equal. lia.
Qed.
Lemma passed_split_parens op d w :
  passed_split op (d + 1) w → passed_split op d (js "(" ++ w ++ js ")").
Proof.
  intros Hw b cur t. change (js "(") with [40%N]. change (js ")") with [41%N]. rewrite <-!app_assoc.
  cbn [app split_task N.eqb Pos.eqb]. rewrite Hw. cbn [split_task N.eqb Pos.eqb].
  replace (d + 1 - 1) with d by lia. rewrite <-!app_assoc. cbn [app]. f_equal.
  unfold after. by rewrite app_comm_cons, list.last_snoc.
Qed.

(** [u("name")] *)
Definition usage_text (f : jstr) : jstr := js "u(" ++ quote f ++ js ")".

Lemma plain_u special d : 117%N ∉ special → plain_at special d (js "u").
Proof. intros H. constructor; [|constructor]. done. Qed.

Lemma usage_passed_char target d f : target ≠ 117%N → 0 ≤ d → passed_char target d (usage_text f).
Proof.
  intros Ht Hd. apply (passed_char_app _ _ (js "u")).
  - apply passed_char_plain, plain_u. set_solver.
  - by apply passed_char_parens, passed_char_quote.
Qed.
Lemma usage_passed_colon d f : 0 ≤ d → passed_colon d (usage_text f).
Proof.
  intros Hd. apply (passed_colon_app _ (js "u")).
  - apply passed_colon_plain, plain_u. set_solver.
  - by apply passed_colon_parens, passed_colon_quote.
Qed.
Lemma usage_passed_split op d f : passed_split op d (usage_text f).
Proof.
  apply (passed_split_app _ _ (js "u")).
  - apply passed_split_plain, plain_u. destruct op; set_solver.
  - by apply passed_split_parens, passed_split_quote.
Qed.

(** Checking that a fixed text is plain. *)
Definition plainb (special w : jstr) : bool :=
  forallb (λ c, negb (bool_decide (c ∈ [34; 40; 41]%N ++ special))) w.

Lemma plainb_plain special d w : plainb special w = true → plain_at special d w.
Proof.
  unfold plainb, plain_at. rewrite forallb_forall. intros H. apply list.Forall_forall. intros c Hc.
  apply list_elem_of_In, H, negb_true_iff, bool_decide_eq_false in Hc. set_solver.
Qed.

Lemma join_closed (P : jstr → Prop) sep ts :
  P [] → (∀ v w, P v → P w → P (v ++ w)) → P sep → Forall P ts → P (join sep ts).
Proof.
  intros H0 Happ Hsep. induction 1 as [|t ts Ht _ IH]; [done|].
  destruct ts as [|t' ts]; [done|]. rewrite join_cons by done. auto.
Qed.

Lemma passed_char_nil target d : passed_char target d [].
Proof. apply passed_char_plain. constructor. Qed.
Lemma passed_colon_nil d : passed_colon d [].
Proof. apply passed_colon_plain. constructor. Qed.

Lemma num_char_plain d w :
  d ≠ 0 → ∀ special, Forall (λ x, num_char x = true) w → plain_at special d w.
Proof.
  intros Hd special H. eapply list.Forall_impl; [exact H|]. intros c Hc.
  split_and!; [by intros ->..|done].
Qed.

(** *** Conditions *)

Lemma condition_source_eq c :
  condition_source c = usage_text (task_field c) ++ js " == " ++ quote (task_value c).
Proof. unfold condition_source, usage_text. by rewrite <-!app_assoc. Qed.

Lemma condition_passed_char c : passed_char 63 0 (condition_source c).
Proof.
  rewrite condition_source_eq. apply passed_char_app.
  - by apply usage_passed_char.
  - apply passed_char_app; [|apply passed_char_quote]. by apply passed_char_plain, plainb_plain.
Qed.

Lemma condition_passed_split c : passed_split op_and 0 (condition_source c).
Proof.
  rewrite condition_source_eq. apply passed_split_app.
  - apply usage_passed_split.
  - apply passed_split_app; [|apply passed_split_quote].
    by apply (passed_split_plain op_and), plainb_plain.
Qed.

Lemma conditions_passed_char cs : passed_char 63 0 (generateTaskCondition cs).
Proof.
  apply (join_closed (passed_char 63 0)).
  - apply passed_char_nil.
  - apply passed_char_app.
  - by apply passed_char_plain, plainb_plain.
  - apply list.Forall_forall. intros x (c & -> & _)%list_elem_of_fmap. apply condition_passed_char.
Qed.

(** *** Terms *)

Lemma price_passed_split w : price_word w → passed_split op_plus 0 w.
Proof.
  intros (ip & fp & ex & -> & _ & Hip & Hfp & Hex).
  assert (∀ v, all_digits v → plain_at [43%N] 0 v) as Hdig.
  { intros v Hv. eapply list.Forall_impl; [exact Hv|]. intros c Hc.
    split_and!; [by intros ->..|]. intros _ ->%list_elem_of_singleton. done. }
  apply passed_split_app; [by apply (passed_split_plain op_plus), Hdig|].
  apply passed_split_app.
  - apply (passed_split_plain op_plus). destruct Hfp as [->|(d & -> & Hd)]; [constructor|].
    apply (Forall_app_2 _ [46%N]); [by apply plainb_plain|by apply Hdig].
  - destruct Hex as [->|(sg & d & -> & Hsg & _ & Hd)]; [apply (passed_split_plain op_plus); constructor|].
    intros b cur t.
    transitivity (split_task op_plus (Some sg) false 0 unquoted ((cur ++ [101%N]) ++ [sg]) (d ++ t));
      [by destruct Hsg as [->| ->]|].
    rewrite (passed_split_plain op_plus 0 d (Hdig d Hd)), <-!app_assoc. f_equal.
    unfold after. destruct d as [|c d _] using rev_ind; [done|].
    by rewrite !app_comm_cons, !list.last_snoc.
Qed.

(** What follows the number of a term. *)
Definition scale_suffix (e : jstr * BillingUsageFieldSchema) : jstr :=
  if bool_decide (unit_ e.2 = Some unit_token) then js " / 1000000" else [].

Lemma generate_term_eq t e p :
  field_get e.1 (unitPrices t) = Some p →
  generate_term t e = usage_text e.1 ++ js " * " ++ num_to_string p ++ scale_suffix e.
Proof.
  intros Hp. rewrite generate_term_text, Hp. unfold term_text, usage_text. by rewrite <-!app_assoc.
Qed.

Lemma term_passed_split t e p :
  field_get e.1 (unitPrices t) = Some p → exact_price p → passed_split op_plus 0 (generate_term t e).
Proof.
  intros Hp Hex. rewrite (generate_term_eq t e p Hp).
  apply passed_split_app; [apply usage_passed_split|].
  apply passed_split_app; [by apply (passed_split_plain op_plus), plainb_plain|].
  apply passed_split_app; [by apply price_passed_split, exact_price_word|].
  apply (passed_split_plain op_plus). unfold scale_suffix. by case_bool_decide; apply plainb_plain.
Qed.

(** *** Splitting joined texts *)

(** A text without white space around it. *)
Definition tight (t : jstr) : Prop :=
  stops is_ws t ∧ stops is_ws (reverse t).

Lemma trim_start_spaces a t : spaces a → stops is_ws t → trim_start (a ++ t) = t.
Proof.
  intros Ha Ht. induction Ha as [|c a Hc _ IH]; simpl; [|by rewrite Hc].
  apply trim_start_fix. intros c s ->. by apply (Ht c s).
Qed.

Lemma trim_pad a t b : spaces a → spaces b → tight t → trim (a ++ t ++ b) = t.
Proof.
  intros Ha Hb [Ht Hr]. unfold trim, trim_end. destruct t as [|c t].
  - cbn [app]. assert (trim_start (a ++ b) = []) as ->; [|done].
    rewrite <-(app_nil_r (a ++ b)). apply trim_start_spaces; [by apply Forall_app_2|done].
  - rewrite (trim_start_spaces a (_ ++ b)); [|done|].
    + rewrite reverse_app, trim_start_spaces; [by rewrite reverse_involutive| |done].
      by apply Forall_reverse.
    + apply stops_cons. by apply (Ht c t).
Qed.

Lemma trim_tight t : tight t → trim t = t.
Proof. intros Ht. rewrite <-(trim_pad [] t [] ltac:(constructor) ltac:(constructor) Ht) at 2.
  by rewrite app_nil_r. Qed.

Lemma tight_ends c w c' : is_ws c = false → is_ws c' = false → tight (c :: w ++ [c']).
Proof.
  intros Hc Hc'. split; [by apply stops_cons|]. rewrite app_comm_cons, reverse_snoc.
  by apply stops_cons.
Qed.

Lemma split_joined_plus ts b cur :
  spaces cur → ts ≠ [] → Forall (passed_split op_plus 0) ts → Forall tight ts →
  split_task op_plus b false 0 unquoted cur (join (js " + ") ts) = ts.
Proof.
  intros Hcur Hne Hp Ht. revert b cur Hcur Hne. induction Hp as [|t ts Hpt _ IH]; [done|].
  intros b cur Hcur _. apply list.Forall_cons in Ht as [Htt Ht].
  destruct ts as [|t' ts].
  - cbn [join]. rewrite <-(app_nil_r t), Hpt. cbn [split_task]. f_equal.
    rewrite <-(trim_pad cur t [] Hcur) at 2; [by rewrite !app_nil_r|constructor|done].
  - rewrite join_cons, Hpt by done.
    change (js " + " ++ join (js " + ") (t' :: ts)) with (32%N :: 43%N :: 32%N :: join (js " + ") (t' :: ts)).
    change (split_task op_plus (after b t) false 0 unquoted (cur ++ t)
              (32%N :: 43%N :: 32%N :: join (js " + ") (t' :: ts)))
      with (trim ((cur ++ t) ++ [32%N])
            :: split_task op_plus (Some 32%N) false 0 unquoted [32%N] (join (js " + ") (t' :: ts))).
    f_equal; [|apply IH; [done|by repeat constructor|done]].
    rewrite <-app_assoc. by apply trim_pad; [done|repeat constructor|].
Qed.

Lemma split_joined_and ts b cur :
  spaces cur → ts ≠ [] → Forall (passed_split op_and 0) ts → Forall tight ts →
  split_task op_and b false 0 unquoted cur (join (js " && ") ts) = ts.
Proof.
  intros Hcur Hne Hp Ht. revert b cur Hcur Hne. induction Hp as [|t ts Hpt _ IH]; [done|].
  intros b cur Hcur _. apply list.Forall_cons in Ht as [Htt Ht].
  destruct ts as [|t' ts].
  - cbn [join]. rewrite <-(app_nil_r t), Hpt. cbn [split_task]. f_equal.
    rewrite <-(trim_pad cur t [] Hcur) at 2; [by rewrite !app_nil_r|constructor|done].
  - rewrite join_cons, Hpt by done. set (r := join (js " && ") (t' :: ts)).
    transitivity (trim ((cur ++ t) ++ [32%N]) :: split_task op_and (Some 32%N) false 0 unquoted [32%N] r).
    { change (js " && " ++ r) with (32%N :: 38%N :: 38%N :: 32%N :: r). cbn [split_task N.eqb Pos.eqb].
      change (startsWith (32%N :: 38%N :: 38%N :: 32%N :: r) (js "&&")) with false.
      assert (startsWith (38%N :: 38%N :: 32%N :: r) (js "&&") = true) as ->
        by apply (startsWith_app (js "&&") (32%N :: r)).
      cbn [Z.eqb negb]. done. }
    f_equal; [|apply IH; [done|by repeat constructor|done]].
    rewrite <-app_assoc. by apply trim_pad; [done|repeat constructor|].
Qed.

(** *** Ends of generated texts *)

Definition ends_solid (t : jstr) : Prop := t ≠ [] ∧ stops is_ws (reverse t).

Lemma ends_solid_app v w : ends_solid w → ends_solid (v ++ w).
Proof.
  intros [Hne Hw]. split; [by destruct v|]. rewrite reverse_app.
  destruct w as [|c w] using rev_ind; [done|]. clear IHw. rewrite reverse_snoc in *. cbn [app].
  apply stops_cons. by eapply Hw.
Qed.

Lemma ends_solid_snoc v c : is_ws c = false → ends_solid (v ++ [c]).
Proof. intros Hc. apply ends_solid_app. split; [done|]. by apply stops_cons. Qed.

Lemma quote_ends s : ends_solid (quote s).
Proof. unfold quote. rewrite app_assoc. by apply ends_solid_snoc. Qed.

Lemma price_ends w : price_word w → ends_solid w.
Proof.
  intros [Hw Hne]%price_word_chars. split; [done|].
  destruct w as [|c w _] using rev_ind; [done|]. rewrite reverse_snoc. apply stops_cons.
  apply list.Forall_app in Hw as [_ [Hc _]%list.Forall_cons]. by apply num_char_not_ws.
Qed.

Lemma tight_solid c w : is_ws c = false → ends_solid (c :: w) → tight (c :: w).
Proof. intros Hc [_ Hr]. split; [by apply stops_cons|done]. Qed.

Lemma condition_tight c : tight (condition_source c).
Proof.
  apply (tight_solid 117 (js "(" ++ quote (task_field c) ++ js ") == " ++ quote (task_value c))); [done|].
  change (117%N :: _) with (condition_source c). unfold condition_source.
  do 3 apply ends_solid_app. apply quote_ends.
Qed.

Lemma term_tight t e p :
  field_get e.1 (unitPrices t) = Some p → exact_price p → tight (generate_term t e).
Proof.
  intros Hp Hex. rewrite (generate_term_eq t e p Hp).
  split; [by apply stops_cons|]. apply ends_solid_app, ends_solid_app. unfold scale_suffix. case_bool_decide.
  - apply ends_solid_app. by apply (ends_solid_snoc (js " / 100000")).
  - rewrite app_nil_r. by apply price_ends, exact_price_word.
Qed.

(** ** One tier *)

Section tier.
Context (schema : BillingUsageSchema) (nf : list (jstr * BillingUsageFieldSchema)).

(** A number field of the schema that the parser recognizes. *)
Definition good_field (e : jstr * BillingUsageFieldSchema) : Prop :=
  field_get e.1 schema = Some e.2 ∧ is_number_field e.2 = true ∧ units e.1 ∧
  e.1 ∉ inherited_names.

Context (Hgood : Forall good_field nf) (Hnd : NoDup nf.*1) (Hnf : nf ≠ []).

(** The prices of a tier: one exact price per number field. *)
Definition good_prices (t : TaskVisualTier) : Prop :=
  unitPrices t = fromEntries (map (λ e, (e.1, default zero (field_get e.1 (unitPrices t)))) nf) ∧
  Forall (λ e, ∃ p, field_get e.1 (unitPrices t) = Some p ∧ exact_price p) nf.

Lemma parse_generated_terms t found prices fs :
  Forall good_field fs → NoDup fs.*1 →
  Forall (λ e, ∃ p, field_get e.1 (unitPrices t) = Some p ∧ exact_price p) fs →
  Forall (λ e, field_get e.1 prices = None) fs →
  parse_terms schema (found, prices) (map (generate_term t) fs)
  = Some (found, foldl (λ acc '(k, v), obj_set k v acc) prices
                   (map (λ e, (e.1, default zero (field_get e.1 (unitPrices t)))) fs)).
Proof.
  revert prices. induction fs as [|e fs IH]; intros prices Hg Hn Hp Hfree; [done|].
  apply list.Forall_cons in Hg as [(Hs & Hd & Hu & Hi) Hg].
  apply list.Forall_cons in Hp as [(p & Hp & Hex) Hps].
  apply list.Forall_cons in Hfree as [Hfe Hfree]. apply list.NoDup_cons in Hn as [He Hn].
  cbn [map parse_terms]. rewrite (parse_generated_term schema t e p); [|done..|].
  2:{ unfold in_object. rewrite Hfe, !bool_decide_false; [done|done|by intros []]. }
  cbn [mbind option_bind]. rewrite IH; [by cbn [foldl]; rewrite Hp|done|done|done|].
  apply list.Forall_forall. intros e' He'. rewrite field_get_obj_set, jeqb_neq.
  - rewrite list.Forall_forall in Hfree. by apply Hfree.
  - intros Heq. apply He. rewrite Heq. by apply list_elem_of_fmap_2.
Qed.

(** The texts of the terms of a tier, the constant first. *)
Definition term_texts (t : TaskVisualTier) : list jstr :=
  (if num_ltb zero (constant t) then [num_to_string (constant t)] else [])
  ++ map (generate_term t) nf.

Lemma zero_constant c : exact_price c → num_ltb zero c = false → c = zero.
Proof.
  intros [Hu [_ Hz]] Hl. by destruct c as [[]|s| |[] m e].
Qed.

Lemma parse_term_texts t :
  exact_price (constant t) → good_prices t →
  ∃ found, parse_terms schema (None, []) (term_texts t) = Some (found, unitPrices t) ∧
           default zero found = constant t.
Proof.
  intros Hc [Hp Hps]. unfold term_texts.
  assert (∀ found, parse_terms schema (found, []) (map (generate_term t) nf)
    = Some (found, unitPrices t)) as Hterms.
  { intros found. rewrite parse_generated_terms; [by do 2 f_equal|done|done|done|].
    by apply list.Forall_forall. }
  destruct (num_ltb zero (constant t)) eqn:El.
  - exists (Some (constant t)). cbn [app parse_terms].
    rewrite parse_generated_constant by done. cbn [mbind option_bind]. by rewrite Hterms.
  - exists None. cbn [app]. rewrite Hterms. split; [done|]. symmetry. by apply zero_constant.
Qed.

Lemma term_texts_fine t :
  exact_price (constant t) → good_prices t →
  Forall (passed_split op_plus 0) (term_texts t) ∧ Forall tight (term_texts t) ∧
  Forall (λ x, x ≠ []) (term_texts t).
Proof.
  intros Hc [_ Hps]. pose proof (exact_price_word _ Hc) as Hw.
  pose proof (price_word_chars _ Hw) as [Hch Hne]. pose proof (price_ends _ Hw) as [_ He].
  unfold term_texts. rewrite !list.Forall_app. rewrite list.Forall_forall in Hps.
  assert (∀ P : jstr → Prop,
    (∀ e p, field_get e.1 (unitPrices t) = Some p → exact_price p → P (generate_term t e)) →
    Forall P (map (generate_term t) nf)) as Hmap.
  { intros P HP. apply list.Forall_forall. intros x (e & -> & Hin)%list_elem_of_fmap.
    destruct (Hps e Hin) as (p & ? & ?). by eapply HP. }
  split_and!; [|apply Hmap, term_passed_split| |apply Hmap, term_tight| |apply Hmap; done];
    destruct (num_ltb _ _); repeat constructor; try done.
  - by apply price_passed_split.
  - pose proof (stops_numeric _ [] Hch Hne) as Hst. by rewrite app_nil_r in Hst.
Qed.

Definition call (t : TaskVisualTier) : jstr := generateTaskTierCall t nf.

Lemma call_eq t :
  call t = js "tier(" ++ (quote (task_label t) ++ js ", " ++ join (js " + ") (term_texts t)) ++ js ")".
Proof. unfold call, generateTaskTierCall, generateTaskTierBody, term_texts. by rewrite <-!app_assoc. Qed.

Lemma call_tight t : tight (call t).
Proof.
  rewrite call_eq. split; [by apply stops_cons|]. rewrite app_assoc. by apply ends_solid_snoc.
Qed.

Lemma slice_middle a x b n m :
  n = length a → m = (length (a ++ x ++ b) - length b)%nat → slice (a ++ x ++ b) n m = x.
Proof.
  intros -> ->. unfold slice. rewrite drop_app_length, !length_app.
  replace (length a + (length x + length b) - length b - length a)%nat with (length x) by lia.
  apply take_app_length.
Qed.

Lemma filter_nonempty (l : list jstr) : Forall (λ x, x ≠ []) l → filter_truthy l = l.
Proof. apply filter_everything. Qed.

Lemma fromEntries_nonempty {A} (l : list (jstr * A)) : l ≠ [] → fromEntries l ≠ [].
Proof.
  destruct l as [|[k v] l _] using rev_ind; [done|]. intros _. rewrite fromEntries_snoc. intros Hnil.
  assert (k ∈ (obj_set k v (fromEntries l)).*1) as Hin by (apply obj_set_keys; by left).
  rewrite Hnil in Hin. set_solver.
Qed.

Lemma parse_generated_call t cs :
  units (task_label t) → exact_price (constant t) → good_prices t →
  parseTaskTierCall (call t) cs schema
  = Some (mkTaskTier (task_label t) cs (constant t) (unitPrices t)).
Proof.
  intros Hl Hc Hp. unfold parseTaskTierCall. rewrite (trim_tight _ (call_tight t)).
  set (x := quote (task_label t) ++ js ", " ++ join (js " + ") (term_texts t)).
  assert (call t = js "tier(" ++ x ++ js ")") as Hcall by apply call_eq. rewrite Hcall.
  rewrite startsWith_app. unfold endsWith at 1.
  rewrite (bool_decide_true (js ")" `suffix_of` _)) by (exists (js "tier(" ++ x); by rewrite <-app_assoc).
  cbn [negb orb]. rewrite (slice_middle (js "tier(") x (js ")")) by done.
  assert (findTaskTopLevelCharacter x 44 = Some (length (quote (task_label t)))) as ->.
  { unfold findTaskTopLevelCharacter, x. rewrite passed_char_quote.
    change (js ", " ++ ?y) with (44%N :: 32%N :: y). cbn. f_equal. lia. }
  cbn [mbind option_bind].
  assert (take (length (quote (task_label t))) x = quote (task_label t)) as -> by apply take_app_length.
  rewrite trim_tight by (split; [by apply stops_cons|apply quote_ends]).
  rewrite parse_literal_quote by done. cbn [mbind option_bind].
  assert (drop (S (length (quote (task_label t)))) x = 32%N :: join (js " + ") (term_texts t)) as ->.
  { unfold x. change (js ", " ++ ?y) with ([44%N] ++ 32%N :: y). rewrite app_assoc.
    apply drop_app_length'. rewrite length_app. simpl. lia. }
  unfold splitTaskTopLevel.
  destruct (term_texts_fine t Hc Hp) as (Hpass & Htight & Hne).
  change (split_task op_plus None false 0 unquoted [] (32%N :: join (js " + ") (term_texts t)))
    with (split_task op_plus (Some 32%N) false 0 unquoted [32%N] (join (js " + ") (term_texts t))).
  rewrite split_joined_plus; [|by repeat constructor| |done|done].
  2:{ unfold term_texts. destruct nf; [done|]. by destruct (num_ltb _ _). }
  rewrite filter_nonempty by done.
  destruct (parse_term_texts t Hc Hp) as (found & -> & Hfound). cbn [mbind option_bind].
  rewrite bool_decide_false; [by unfold zero in Hfound; rewrite Hfound|].
  destruct Hp as [-> _]. by apply fromEntries_nonempty; destruct nf.
Qed.

(** Inside the parentheses of a call no scanner at depth 0 finds anything. *)
Lemma term_passed_inside t e p d :
  field_get e.1 (unitPrices t) = Some p → exact_price p → 0 < d →
  passed_char 63 d (generate_term t e) ∧ passed_colon d (generate_term t e).
Proof.
  intros Hp Hex Hd. rewrite (generate_term_eq t e p Hp).
  destruct (price_word_chars _ (exact_price_word p Hex)) as [Hch _].
  assert (∀ special, plain_at special d (js " * " ++ num_to_string p ++ scale_suffix e)) as Hplain.
  { intros special. unfold plain_at. rewrite !list.Forall_app.
    split_and!; [|by apply num_char_plain; [lia|]|].
    - eapply list.Forall_impl; [exact (plainb_plain [] d (js " * ") eq_refl)|].
      intros c (? & ? & ? & _). split_and!; [done..|lia].
    - unfold scale_suffix. case_bool_decide; [|constructor].
      eapply list.Forall_impl; [exact (plainb_plain [] d (js " / 1000000") eq_refl)|].
      intros c (? & ? & ? & _). split_and!; [done..|lia]. }
  split.
  - apply passed_char_app; [apply usage_passed_char; [done|lia]|]. by apply passed_char_plain.
  - apply passed_colon_app; [apply usage_passed_colon; lia|]. by apply passed_colon_plain.
Qed.

Lemma inside_call t :
  exact_price (constant t) → good_prices t →
  let x := quote (task_label t) ++ js ", " ++ join (js " + ") (term_texts t) in
  passed_char 63 1 x ∧ passed_colon 1 x.
Proof.
  intros Hc [_ Hps] x. rewrite list.Forall_forall in Hps.
  destruct (price_word_chars _ (exact_price_word _ Hc)) as [Hch _].
  assert (Forall (λ w, passed_char 63 1 w ∧ passed_colon 1 w) (term_texts t)) as Hall.
  { unfold term_texts. apply list.Forall_app. split.
    - destruct (num_ltb _ _); [|constructor]. constructor; [|constructor].
      split; [apply passed_char_plain|apply passed_colon_plain]; by apply num_char_plain.
    - apply list.Forall_forall. intros w (e & -> & Hin)%list_elem_of_fmap.
      destruct (Hps e Hin) as (p & ? & ?). by eapply term_passed_inside. }
  split.
  - apply passed_char_app; [apply passed_char_quote|].
    apply passed_char_app; [by apply passed_char_plain, plainb_plain|].
    apply (join_closed (passed_char 63 1)); [apply passed_char_nil|apply passed_char_app| |].
    + by apply passed_char_plain, plainb_plain.
    + eapply list.Forall_impl; [exact Hall|]. by intros w [].
  - apply passed_colon_app; [apply passed_colon_quote|].
    apply passed_colon_app; [by apply passed_colon_plain, plainb_plain|].
    apply (join_closed (passed_colon 1)); [apply passed_colon_nil|apply passed_colon_app| |].
    + by apply passed_colon_plain, plainb_plain.
    + eapply list.Forall_impl; [exact Hall|]. by intros w [].
Qed.

Lemma call_passed t :
  exact_price (constant t) → good_prices t → passed_char 63 0 (call t) ∧ passed_colon 0 (call t).
Proof.
  intros Hc Hp. destruct (inside_call t Hc Hp) as [H1 H2]. rewrite call_eq.
  set (x := quote _ ++ _) in *.
  change (js "tier(" ++ x ++ js ")") with (js "tier" ++ (js "(" ++ x ++ js ")")). split.
  - apply passed_char_app; [by apply passed_char_plain, plainb_plain|by apply passed_char_parens].
  - apply passed_colon_app; [by apply passed_colon_plain, plainb_plain|by apply passed_colon_parens].
Qed.

(** ** A list of tiers *)

Definition good_condition (c : TaskTierCondition) : Prop :=
  units (task_field c) ∧ units (task_value c) ∧ declared schema (task_field c) (task_value c) = true.
Definition good_tier (t : TaskVisualTier) : Prop :=
  units (task_label t) ∧ exact_price (constant t) ∧ good_prices t ∧
  Forall good_condition (task_conditions t).

(** Every tier but the last has conditions, the last has none. *)
Fixpoint chain (ts : list TaskVisualTier) : Prop :=
  match ts with
  | [] => False
  | [t] => task_conditions t = []
  | t :: more => task_conditions t ≠ [] ∧ chain more
  end.

Lemma generate_parts_cons fs t t2 ts :
  generate_parts fs (t :: t2 :: ts)
  = if negb (truthy (generateTaskCondition (task_conditions t))) then None
    else ps ← generate_parts fs (t2 :: ts);
         Some ((generateTaskCondition (task_conditions t) ++ js " ? "
                ++ generateTaskTierCall t fs) :: ps).
Proof. reflexivity. Qed.

Lemma condition_text_solid cs : cs ≠ [] → tight (generateTaskCondition cs) ∧ generateTaskCondition cs ≠ [].
Proof.
  intros Hne. unfold generateTaskCondition. fold condition_source.
  change (map _ cs) with (map condition_source cs).
  assert (ends_solid (join (js " && ") (map condition_source cs))) as Hs.
  { induction cs as [|c cs IH]; [done|]. destruct cs as [|c' cs].
    - cbn [map join]. unfold condition_source. do 3 apply ends_solid_app. apply quote_ends.
    - cbn [map]. rewrite join_cons by done. apply ends_solid_app, ends_solid_app, IH. done. }
  destruct cs as [|c cs]; [done|]. split; [|apply Hs]. split; [|apply Hs].
  destruct cs; cbn [map join]; by apply stops_cons.
Qed.

Lemma parse_generated_conditions cs :
  cs ≠ [] → Forall good_condition cs →
  parseTaskConditions (generateTaskCondition cs) schema = Some cs.
Proof.
  intros Hne Hcs. unfold parseTaskConditions, splitTaskTopLevel, generateTaskCondition.
  change (map _ cs) with (map condition_source cs).
  rewrite split_joined_and; [|constructor|by destruct cs| |].
  - rewrite filter_nonempty.
    2:{ apply list.Forall_forall. by intros x (c & -> & _)%list_elem_of_fmap. }
    assert (mapM (parse_task_condition schema) (map condition_source cs) = Some cs) as ->.
    { apply mapM_Some. clear Hne. induction Hcs as [|c cs (Hf & Hv & Hd) _ IH]; constructor; [|done].
      by apply parse_generated_condition. }
    by destruct cs.
  - apply list.Forall_forall. intros x (c & -> & _)%list_elem_of_fmap. apply condition_passed_split.
  - apply list.Forall_forall. intros x (c & -> & _)%list_elem_of_fmap. apply condition_tight.
Qed.

(** One round of the loop on [condition ? call : rest]. *)
Lemma parse_loop_round f t R :
  good_tier t → task_conditions t ≠ [] → tight R →
  parse_task_loop (S f) schema (generateTaskCondition (task_conditions t) ++ js " ? " ++ call t
                                ++ js " : " ++ R)
  = ts ← parse_task_loop f schema R; Some (t :: ts).
Proof.
  intros (Hl & Hc & Hp & Hcs) Hne HR. set (C := generateTaskCondition (task_conditions t)).
  destruct (condition_text_solid _ Hne) as [HCt HCne]. fold C in HCt, HCne.
  destruct (call_passed t Hc Hp) as [_ Hcol].
  set (text := C ++ js " ? " ++ call t ++ js " : " ++ R).
  assert (text = (C ++ js " ") ++ js "?" ++ (js " " ++ call t ++ js " ") ++ js ":" ++ js " " ++ R) as Htext.
  { unfold text. by rewrite <-!app_assoc. }
  assert (findTaskTopLevelCharacter text 63 = Some (length (C ++ js " "))) as Hq.
  { rewrite Htext. unfold findTaskTopLevelCharacter.
    rewrite (passed_char_app 63 0 C (js " ") (conditions_passed_char _));
      [|by apply passed_char_plain, plainb_plain].
    change (find_char 63 0 unquoted (js "?" ++ ?y)) with (Some 0%nat).
    cbn [fmap option_fmap option_map]. f_equal. lia. }
  assert (findTaskTernaryColon text (length (C ++ js " "))
    = Some (length ((C ++ js " ") ++ js "?" ++ (js " " ++ call t ++ js " ")))) as Hcolon.
  { unfold findTaskTernaryColon. rewrite Htext.
    rewrite (app_assoc (C ++ js " ") (js "?")), drop_app_length' by (rewrite !length_app; simpl; lia).
    rewrite (passed_colon_app 0 (js " ") (call t ++ js " ")).
    - change (find_colon 0 0 unquoted (js ":" ++ ?y)) with (Some 0%nat).
      cbn [fmap option_fmap option_map]. f_equal. rewrite !length_app. simpl. lia.
    - by apply passed_colon_plain, plainb_plain.
    - apply passed_colon_app; [done|]. by apply passed_colon_plain, plainb_plain. }
  cbn [parse_task_loop]. fold C text.
  assert (truthy text = true) as -> by (by apply truthy_true; unfold text; destruct C). cbn [negb].
  rewrite Hq, Hcolon. cbn [mbind option_bind].
  assert (take (length (C ++ js " ")) text = C ++ js " ") as ->.
  { rewrite Htext. apply take_app_length. }
  assert (trim (C ++ js " ") = C) as ->.
  { apply (trim_pad [] C (js " ")); [constructor|by repeat constructor|done]. }
  assert (parseTaskConditions C schema = Some (task_conditions t)) as ->
    by by apply parse_generated_conditions.
  cbn [mbind option_bind].
  assert (slice text (S (length (C ++ js " ")))
    (length ((C ++ js " ") ++ js "?" ++ (js " " ++ call t ++ js " "))) = js " " ++ call t ++ js " ") as ->.
  { rewrite Htext. rewrite (app_assoc (C ++ js " ") (js "?")). apply slice_middle.
    - rewrite !length_app. simpl. lia.
    - rewrite !length_app. simpl. rewrite !length_app. simpl. lia. }
  rewrite (trim_pad (js " ") (call t) (js " ")); [|by repeat constructor..|apply call_tight].
  rewrite parse_generated_call by done. cbn [mbind option_bind].
  assert (drop (S (length ((C ++ js " ") ++ js "?" ++ (js " " ++ call t ++ js " ")))) text = js " " ++ R) as ->.
  { rewrite Htext. rewrite !app_assoc. rewrite <-(app_assoc _ (js " ") R). apply drop_app_length'.
    rewrite !length_app. simpl. lia. }
  assert (trim (js " " ++ R) = R) as ->.
  { rewrite <-(app_nil_r R) at 1. apply (trim_pad (js " ") R []); [by repeat constructor|constructor|done]. }
  by destruct t.
Qed.

Lemma generated_tiers_parse ts :
  Forall good_tier ts → chain ts →
  ∃ ps, generate_parts nf ts = Some ps ∧ ps ≠ [] ∧ tight (join (js " : ") ps) ∧
        join (js " : ") ps ≠ [] ∧
        ∀ fuel, (length (join (js " : ") ps) < fuel)%nat →
                parse_task_loop fuel schema (join (js " : ") ps) = Some ts.
Proof.
  intros Hg. induction Hg as [|t ts Ht _ IH]; [done|]. intros Hch.
  destruct Ht as (Hl & Hc & Hp & Hcs) eqn:Et. pose proof Ht as Ht'.
  destruct (call_passed t Hc Hp) as [Hq _].
  destruct ts as [|t2 ts].
  - exists [call t]. cbn [generate_parts join]. simpl in Hch.
    split_and!; [done|done|apply call_tight|by rewrite call_eq|].
    intros [|f] Hf; [lia|]. cbn [parse_task_loop].
    assert (truthy (call t) = true) as -> by by rewrite call_eq. cbn [negb].
    assert (findTaskTopLevelCharacter (call t) 63 = None) as ->.
    { unfold findTaskTopLevelCharacter. rewrite <-(app_nil_r (call t)), Hq. done. }
    rewrite parse_generated_call by done. cbn [mbind option_bind]. rewrite <-Hch. by destruct t.
  - destruct Hch as [Hne Hch]. destruct (IH Hch) as (ps & Hps & Hpne & Hpt & Hpn & Hparse).
    destruct (condition_text_solid _ Hne) as [HCt HCne].
    exists ((generateTaskCondition (task_conditions t) ++ js " ? " ++ call t) :: ps).
    assert (generate_parts nf (t :: t2 :: ts)
      = Some ((generateTaskCondition (task_conditions t) ++ js " ? " ++ call t) :: ps)) as ->.
    { rewrite generate_parts_cons.
      rewrite (proj2 (truthy_true _) HCne), Hps. done. }
    rewrite join_cons by done. split_and!; [done|done| | |].
    + split.
      * destruct HCt as [HCs _]. destruct (generateTaskCondition _) as [|c w] eqn:E; [done|].
        apply stops_cons. by eapply HCs.
      * apply ends_solid_app, ends_solid_app. split; [done|apply Hpt].
    + by destruct (generateTaskCondition _).
    + intros [|f] Hf; [lia|]. rewrite <-!app_assoc, parse_loop_round by done.
      rewrite Hparse; [done|]. rewrite !length_app in Hf.
      change (length (js " : ")) with 3%nat in Hf. lia.
Qed.

End tier.

(** ** Texts without request rules

    A factor with request rules starts with a parenthesis.  [opens_ok b s]: no
    opening parenthesis of [s] stands at its start or after white space; [b]
    tells whether the text before [s] ends in something else. *)

Fixpoint opens_ok (b : bool) (s : jstr) : bool :=
  match s with
  | [] => true
  | c :: t => (negb (c =? 40)%N || b) && opens_ok (negb (is_ws c)) t
  end.

Definition end_state (b : bool) (s : jstr) : bool :=
  match list.last s with Some c => negb (is_ws c) | None => b end.

Lemma opens_ok_app b v w : opens_ok b (v ++ w) = opens_ok b v && opens_ok (end_state b v) w.
Proof.
  revert b. induction v as [|c v IH]; intros b; [done|]. cbn [app opens_ok]. rewrite IH, andb_assoc.
  do 2 f_equal. unfold end_state. rewrite list.last_cons. by destruct (list.last v).
Qed.

Lemma opens_ok_trim s : opens_ok false s = true → opens_ok false (trim s) = true.
Proof.
  destruct (trim_infix s) as (a & b & Hs & Ha & _). rewrite Hs at 1.
  rewrite !opens_ok_app, !andb_true_iff. intros [_ [H _]].
  assert (end_state false a = false) as E; [|by rewrite E in H].
  unfold end_state. destruct a as [|c a _] using rev_ind; [done|]. rewrite list.last_snoc.
  apply list.Forall_app in Ha as [_ [Hc _]%list.Forall_cons]. by rewrite Hc.
Qed.

Lemma split_top_opens sep w skip d cur s :
  sep = w ++ [32%N] → w ≠ [] →
  (skip = O → opens_ok false (cur ++ s) = true) →
  (skip ≠ O → cur = [] ∧ opens_ok false (drop skip s) = true) →
  Forall (λ p, opens_ok false p = true) (split_top sep skip d cur s).
Proof.
  intros Hsep Hw. revert skip d cur. induction s as [|c t IH]; intros skip d cur H0 H1.
  - cbn [split_top]. constructor; [|constructor]. destruct skip.
    + apply opens_ok_trim. specialize (H0 eq_refl). by rewrite app_nil_r in H0.
    + by destruct (H1 ltac:(done)) as [-> _].
  - cbn [split_top]. destruct skip as [|k].
    + specialize (H0 eq_refl). destruct ((paren_depth c d =? 0) && startsWith (c :: t) sep) eqn:E.
      * apply andb_true_iff in E as [_ [s' Hs]%startsWith_true]. rewrite Hs, opens_ok_app in H0.
        apply andb_true_iff in H0 as [Hcur H0]. constructor; [by apply opens_ok_trim|].
        apply IH; intros Hk.
        -- exfalso. rewrite Hsep, length_app in Hk. destruct w; [done|]. simpl in Hk. lia.
        -- split; [done|]. rewrite opens_ok_app in H0. apply andb_true_iff in H0 as [_ H0].
           assert (end_state (end_state false cur) sep = false) as E.
           { unfold end_state at 1. by rewrite Hsep, list.last_snoc. }
           rewrite E in H0. replace (drop (length sep - 1) t) with s'; [done|].
           assert (drop (length sep) (c :: t) = s') as <- by (rewrite Hs; apply drop_app_length).
           rewrite Hsep, length_app. cbn [length].
           rewrite Nat.add_1_r. cbn [drop]. f_equal. lia.
      * apply IH; [|done]. intros _. by rewrite <-app_assoc.
    + destruct (H1 ltac:(done)) as [-> H]. apply IH; [|done]. intros ->. done.
Qed.

Lemma no_rule_factor p :
  opens_ok false p = true → tryParseRuleGroupFactor p = Some None.
Proof.
  intros Hp. unfold tryParseRuleGroupFactor. rewrite match_whole_None; [done|done|].
  intros c' (w1 & w2 & c1 & -> & [-> ->] & _). done.
Qed.

Lemma no_rules p : opens_ok false p = true → is_rule_part p = Some false.
Proof.
  intros Hp. unfold is_rule_part, tryParseRequestRuleExpr.
  destruct (truthy (trim p)) eqn:E; [|done]. cbn [negb].
  assert (Forall (λ p, opens_ok false p = true) (splitTopLevelMultiply (trim p))) as Hall.
  { apply list.Forall_forall. intros x [_ Hx]%list_elem_of_filter.
    pose proof (split_top_opens (js " * ") (js " *") 0 0 [] (trim p) eq_refl) as H.
    rewrite list.Forall_forall in H. apply H; [done| |done|done].
    intros _. by apply opens_ok_trim. }
  destruct Hall as [|x l Hx Hl]; [done|]. cbn [parse_factors]. by rewrite no_rule_factor.
Qed.

Lemma split_without_rules s :
  tight s → s ≠ [] → opens_ok false s = true → splitBillingExprAndRequestRules s = Some (s, []).
Proof.
  intros Ht Hne Ho. unfold splitBillingExprAndRequestRules. rewrite (trim_tight s Ht).
  rewrite (proj2 (truthy_true s) Hne). cbn [negb].
  assert (Forall (λ p, opens_ok false p = true) (splitTopLevelMultiply s)) as Hall.
  { apply list.Forall_forall. intros x [_ Hx]%list_elem_of_filter.
    pose proof (split_top_opens (js " * ") (js " *") 0 0 [] s eq_refl) as H.
    rewrite list.Forall_forall in H. by apply H. }
  assert (∃ bs, partition_parts (splitTopLevelMultiply s) = Some ([], bs)) as [bs Hbs].
  { induction Hall as [|x l Hx _ [bs IH]]; [by exists []|]. cbn [partition_parts].
    rewrite no_rules by done. cbn [mbind option_bind]. rewrite IH. cbn [mbind option_bind]. eauto. }
  destruct (splitTopLevelMultiply s) as [|x [|y l]]; [done|done|]. by rewrite Hbs.
Qed.

Definition safe (w : jstr) : Prop := ∀ b, opens_ok b w = true.

Lemma safe_app v w : safe v → safe w → safe (v ++ w).
Proof. intros Hv Hw b. by rewrite opens_ok_app, Hv, Hw. Qed.

Lemma safe_no_paren w : 40%N ∉ w → safe w.
Proof.
  intros H b. revert b H. induction w as [|c w IH]; intros b H; [done|]. cbn [opens_ok].
  rewrite (proj2 (N.eqb_neq c 40)) by set_solver. cbn. apply IH. set_solver.
Qed.

Lemma quote_no_paren s : 40%N ∉ s → 40%N ∉ quote s.
Proof.
  intros H. unfold quote. assert (40%N ∉ quote_go s) as Hq; [|set_solver].
  assert (∀ n, hex_digit n ≠ 40%N) as Hh by (intros n; unfold hex_digit; destruct (n <? 10)%N; lia).
  assert (∀ c, 40%N ∉ hex_escape c) as He.
  { intros c. unfold hex_escape. rewrite !not_elem_of_app, !not_elem_of_cons.
    split_and!; try done; [vm_compute; set_solver|..]; apply not_elem_of_nil. }
  revert s H. apply (quote_go_ind (λ s q, 40%N ∉ s → 40%N ∉ q)).
  - done.
  - intros c d s _ _ IH H. rewrite !not_elem_of_cons in *. naive_solver.
  - intros c s _ IH H. rewrite not_elem_of_cons in H. rewrite not_elem_of_app. naive_solver.
  - intros c s _ IH H. rewrite not_elem_of_cons in H. rewrite not_elem_of_app. split; [|naive_solver].
    unfold quote_unit.
    repeat match goal with |- context [if (c =? ?k)%N then _ else _] =>
      destruct (N.eqb_spec c k); [vm_compute; set_solver|] end.
    destruct (c <? 32)%N; [apply He|]. set_solver.
Qed.

Lemma safe_quote s : 40%N ∉ s → safe (quote s).
Proof. intros H. by apply safe_no_paren, quote_no_paren. Qed.

Lemma safe_usage f : 40%N ∉ f → safe (usage_text f).
Proof.
  intros H. apply safe_app; [by intros []|]. apply safe_app; [by apply safe_quote|by intros []].
Qed.

(** ** The round trip *)

(** A name of 16-bit code units without an opening parenthesis. *)
Definition name_ok (s : jstr) : Prop := units s ∧ 40%N ∉ s.

Definition printable_schema (schema : BillingUsageSchema) : Prop :=
  NoDup schema.*1 ∧
  Forall (λ e, name_ok e.1 ∧ e.1 ∉ inherited_names ∧ Forall name_ok (enum_values e.2)) schema.

Definition printable_tier (t : TaskVisualTier) : Prop :=
  name_ok (task_label t) ∧ exact_price (constant t) ∧
  ∀ f p, field_get f (unitPrices t) = Some p → exact_price p.

Lemma parse_with_schema exprStr schema :
  schema ≠ [] → exprStr ≠ [] →
  parseTaskTiersFromExpr exprStr (Some schema)
  = match splitBillingExprAndRequestRules exprStr with
    | None => []
    | Some (billingExpr, _) =>
        let versioned := trim (stripExprVersion billingExpr).2 in
        default [] (parse_task_loop (S (length versioned)) schema versioned)
    end.
Proof. by destruct schema, exprStr. Qed.

Section round_trip.
Context (locale_le : jstr → jstr → bool) (schema : BillingUsageSchema).
Context (Hschema : printable_schema schema).

Let nf := getTaskNumberFields locale_le (Some schema).

Lemma number_field_in e : e ∈ nf → e ∈ schema ∧ is_number_field e.2 = true.
Proof.
  unfold nf. simpl. rewrite sort_entries_elem. by intros [? ?]%list_elem_of_filter.
Qed.

Lemma number_fields_good : Forall (good_field schema) nf.
Proof.
  destruct Hschema as [Hn Hs]. rewrite list.Forall_forall in Hs.
  apply list.Forall_forall. intros e [Hin Hd]%number_field_in.
  destruct (Hs e Hin) as ([Hu _] & Hi & _). split_and!; [|done..].
  apply (field_get_Some e.1 e.2); [done|by destruct e].
Qed.

Lemma declared_names c :
  declared schema (task_field c) (task_value c) = true →
  name_ok (task_field c) ∧ name_ok (task_value c).
Proof.
  destruct Hschema as [Hn Hs]. rewrite list.Forall_forall in Hs. unfold declared.
  destruct (field_get _ _) as [d|] eqn:E; [|done]. apply field_get_elem in E.
  destruct (Hs _ E) as (Hf & _ & Hv). simpl in Hf, Hv. unfold enum_values in Hv.
  destruct (enum d) as [vs|]; [|done]. intros H%bool_decide_eq_true. simpl in Hv.
  rewrite list.Forall_forall in Hv. auto.
Qed.

Lemma normalized_good i t :
  let t' := normalize_tier locale_le schema i t in
  printable_tier t' → good_tier schema nf t'.
Proof.
  intros t' (Hl & Hc & Hp). destruct Hschema as [Hn _].
  destruct (normalize_tier_wf locale_le schema i t Hn) as [(_ & _ & Hd & _) _].
  assert (∀ e, e ∈ nf → field_get e.1 (unitPrices t')
    = Some (number_or_zero (field_get e.1 (unitPrices t)))) as Hget.
  { intros e He. apply (field_get_map_keys (λ e, number_or_zero (field_get e.1 (unitPrices t))));
      [by apply number_fields_keys|done]. }
  split_and!; [apply Hl|done|split|].
  - unfold t' at 1. cbn [unitPrices normalize_tier]. f_equal. apply map_ext_in.
    intros e He%list_elem_of_In. by rewrite Hget.
  - apply list.Forall_forall. intros e He. rewrite (Hget e He). eexists. split; [done|].
    by eapply Hp, Hget.
  - eapply list.Forall_impl; [exact Hd|]. intros c Hc'.
    destruct (declared_names c Hc') as [[? _] [? _]]. done.
Qed.

Lemma call_safe t : name_ok (task_label t) → good_prices nf t → exact_price (constant t) → safe (call nf t).
Proof.
  intros [_ Hl] [_ Hp] Hc. rewrite call_eq. apply safe_app; [by intros []|].
  assert (∀ p, exact_price p → safe (num_to_string p)) as Hnum.
  { intros p [Hch _]%exact_price_word%price_word_chars. apply safe_no_paren.
    intros Hin. rewrite list.Forall_forall in Hch. by specialize (Hch _ Hin). }
  apply safe_app; [|by intros []]. apply safe_app; [by apply safe_quote|].
  apply safe_app; [by intros []|].
  apply (join_closed safe); [done|apply safe_app|by intros []|].
  unfold term_texts. apply list.Forall_app. split.
  - destruct (num_ltb _ _); [|constructor]. constructor; [by apply Hnum|constructor].
  - apply list.Forall_forall. intros w (e & -> & He)%list_elem_of_fmap.
    rewrite list.Forall_forall in Hp. destruct (Hp e He) as (p & Hg & Hex).
    rewrite (generate_term_eq t e p Hg).
    apply number_field_in in He as [He _]. destruct Hschema as [_ Hs].
    rewrite list.Forall_forall in Hs. destruct (Hs e He) as ([_ Hne] & _).
    repeat (apply safe_app; [first [by apply safe_usage | by intros [] | by apply Hnum]|]).
    unfold scale_suffix. by case_bool_decide; intros [].
Qed.

Lemma condition_safe cs : Forall (good_condition schema) cs → safe (generateTaskCondition cs).
Proof.
  intros Hcs. apply (join_closed safe); [done|apply safe_app|by intros []|].
  apply list.Forall_forall. intros w (c & -> & Hin)%list_elem_of_fmap.
  rewrite list.Forall_forall in Hcs. destruct (Hcs c Hin) as (_ & _ & Hd).
  destruct (declared_names c Hd) as [[_ Hf] [_ Hv]].
  change (safe (condition_source c)). rewrite condition_source_eq.
  apply safe_app; [by apply safe_usage|]. apply safe_app; [by intros []|by apply safe_quote].
Qed.

Lemma generated_safe ts ps :
  Forall (λ t, name_ok (task_label t)) ts → Forall (good_tier schema nf) ts →
  generate_parts nf ts = Some ps → safe (join (js " : ") ps).
Proof.
  intros Hn Hg Hps. apply (join_closed safe); [done|apply safe_app|by intros []|].
  revert ps Hps. induction ts as [|t ts IH]; intros ps Hps; [by simplify_eq/=; constructor|].
  apply list.Forall_cons in Hn as [Hl Hn]. apply list.Forall_cons in Hg as [(_ & Hc & Hp & Hcs) Hg].
  pose proof (call_safe t Hl Hp Hc) as Hcall.
  destruct ts as [|t2 ts]; [by simplify_eq/=; constructor|].
  rewrite generate_parts_cons in Hps. destruct (negb _); [done|].
  destruct (generate_parts nf (t2 :: ts)) as [ps'|] eqn:E; [|done].
  cbn [mbind option_bind] in Hps. apply (inj Some) in Hps. subst ps. constructor; [|by apply IH]. apply safe_app; [by apply condition_safe|].
  apply safe_app; [by intros []|done].
Qed.

Lemma not_versioned s : list.head s ≠ Some 118%N → s ≠ [] → (stripExprVersion s).2 = s.
Proof.
  intros Hh Hne. unfold stripExprVersion. rewrite (proj2 (truthy_true s) Hne). cbn [negb].
  rewrite match_whole_None; [done|done|]. intros c' (w1 & w2 & c1 & -> & [-> ->] & _). by simpl in Hh.
Qed.

(** Generated texts start with [u] or [t]. *)
Lemma generated_head ts ps :
  ts ≠ [] → generate_parts nf ts = Some ps → list.head (join (js " : ") ps) ≠ Some 118%N.
Proof.
  intros Hne Hps. destruct ts as [|t [|t2 ts]]; [done|by simplify_eq/=|].
  rewrite generate_parts_cons in Hps.
  destruct (generateTaskCondition (task_conditions t)) as [|x w] eqn:E; [done|].
  cbn [truthy negb] in Hps. destruct (generate_parts nf (t2 :: ts)) as [ps'|]; [|done].
  assert (x = 117%N) as ->.
  { destruct (task_conditions t) as [|c [|c2 cs]]; [done|..]; injection E as <- _; reflexivity. }
  cbn [mbind option_bind] in Hps. apply (inj Some) in Hps. subst ps. by destruct ps'.
Qed.

(** [C26] The billing expression generated from a task configuration reads back
    as the normalized configuration, if in the latter exactly the last tier has
    no condition and all prices are finite and neither negative nor [-0], and
    the schema has a number field and distinct names. Names, enum values and
    labels are texts of 16-bit units without an opening parenthesis, and no
    field has the name of an inherited property. *)
Theorem task_expression_round_trip config :
  let c := normalizeTaskVisualConfig locale_le config schema in
  getTaskNumberFields locale_le (Some schema) ≠ [] →
  Forall printable_tier (tiers c) → chain (tiers c) →
  tryParseTaskVisualConfig locale_le (Some (generateTaskExprFromConfig locale_le config schema)) schema
  = Some c.
Proof.
  intros c Hnf Hpt Hch. destruct Hschema as [Hn _].
  pose proof (normalize_idem locale_le config schema Hn) as Hidem. fold c in Hidem.
  assert (Forall (good_tier schema nf) (tiers c)) as Hg.
  { destruct (normalized_tiers locale_le config schema Hn) as (ts & _ & Hc). fold c in Hc.
    rewrite Hc in *. cbn [tiers] in *. apply list.Forall_lookup. intros i x Hx.
    rewrite list.Forall_lookup in Hpt. specialize (Hpt i x Hx). rewrite list_lookup_imap in Hx.
    apply fmap_Some in Hx as (t & _ & ->). by apply normalized_good. }
  pose proof (number_fields_keys locale_le schema Hn) as Hk.
  destruct (generated_tiers_parse schema nf number_fields_good Hk Hnf (tiers c) Hg Hch)
    as (ps & Hps & Hpne & Htight & Hne & Hparse).
  set (text := join (js " : ") ps) in *.
  assert (generateTaskExprFromConfig locale_le config schema = text) as ->.
  { unfold generateTaskExprFromConfig. fold nf c. fold nf in Hnf.
    destruct nf as [|e0 nf0] eqn:Enf; [done|]. rewrite <-Enf in *.
    destruct (tiers c) as [|t [|t2 ts]] eqn:Et; [done| |by rewrite Hps].
    unfold text. by simplify_eq/=. }
  unfold tryParseTaskVisualConfig. destruct text as [|x text'] eqn:Etext; [done|].
  rewrite <-Etext in *. clear Etext x text'.
  assert (parseTaskTiersFromExpr text (Some schema) = tiers c) as ->.
  { rewrite parse_with_schema; [|by intros Hs; rewrite Hs in Hnf|done].
    rewrite split_without_rules; [|done|done|].
    2:{ apply (generated_safe (tiers c) ps); [|done|done].
        eapply list.Forall_impl; [exact Hpt|]. by intros t (? & _). }
    rewrite not_versioned; [|apply (generated_head (tiers c) ps); [by destruct (tiers c)|done]|done].
    cbv zeta. rewrite (trim_tight text Htight), Hparse by lia. done. }
  destruct c as [[|t ts]]; [done|]. cbn [tiers]. f_equal. exact Hidem.
Qed.
End round_trip.

(** ** Witnesses *)

Definition demo_le (a b : jstr) : bool :=
  match a, b with x :: _, y :: _ => (x <=? y)%N | [], _ => true | _, _ => false end.
Definition demo_schema : BillingUsageSchema :=
  [(js "seconds", mkField (Some type_number) (Some unit_second) None);
   (js "tokens", mkField (Some type_number) (Some unit_token) None);
   (js "mode", mkField None None (Some [jq "'fast': x?"; js "slow"]))].
Definition demo_config : TaskVisualConfig :=
  mkVisual [mkTaskTier (js "quick") [mkTaskCond (js "mode") (jq "'fast': x?")] (num_of_Z 2)
              [(js "seconds", num_of_dec false 15 (-2)); (js "tokens", num_of_dec false 1 21)];
            mkTaskTier (js "rest") [] (S754_zero false) [(js "seconds", num_of_dec false 3 (-7))]].
Definition demo_sample : list (jstr * fact) :=
  [(js "seconds", FNum (num_of_Z 10)); (js "mode", FStr (js "slow")); (js "tokens", FStr (js "7"))].

Lemma demo_units s : forallb (λ c, (c <? 65536)%N && negb (c =? 40)%N) s = true → name_ok s.
Proof.
  rewrite forallb_forall. intros H. split.
  - apply list.Forall_forall. intros c Hc%list_elem_of_In%H. lia.
  - intros Hc%list_elem_of_In%H. lia.
Qed.

Lemma demo_printable : printable_schema demo_schema.
Proof.
  split; [apply (bool_decide_unpack _); vm_compute; exact I|].
  repeat constructor; try (apply demo_units; reflexivity);
    apply (bool_decide_unpack _); vm_compute; exact I.
Qed.

Definition exactb (p : jsnum) : bool := usable p && readableb p.
Definition printableb (t : TaskVisualTier) : bool :=
  forallb (λ c, (c <? 65536)%N && negb (c =? 40)%N) (task_label t)
  && exactb (constant t) && forallb (λ e, exactb e.2) (unitPrices t).

Lemma exactb_exact p : exactb p = true → exact_price p.
Proof. intros [? ?%readableb_true]%andb_true_iff. done. Qed.

Lemma printableb_printable ts : forallb printableb ts = true → Forall printable_tier ts.
Proof.
  rewrite forallb_forall. intros H. apply list.Forall_forall.
  intros t [[Hl Hc]%andb_true_iff Hp]%list_elem_of_In%H%andb_true_iff.
  split_and!; [by apply demo_units|by apply exactb_exact|].
  intros f p Hin%field_get_elem. rewrite forallb_forall in Hp.
  apply exactb_exact, (Hp (f, p)). by apply list_elem_of_In.
Qed.

Lemma task_expression_round_trip_witness :
  tryParseTaskVisualConfig demo_le
    (Some (generateTaskExprFromConfig demo_le (Some demo_config) demo_schema)) demo_schema
  = Some (normalizeTaskVisualConfig demo_le (Some demo_config) demo_schema).
Proof.
  apply (task_expression_round_trip demo_le demo_schema demo_printable (Some demo_config)).
  - vm_compute. discriminate.
  - apply printableb_printable. vm_compute. reflexivity.
  - vm_compute. split; [discriminate|reflexivity].
Defined.

Definition demo_rows : list TaskMatrixRow :=
  imap (λ i c, mkRow c (num_of_Z (Z.of_nat i)) [(js "seconds", num_of_Z 2)])
    (getTaskEnumCombinations demo_le (Some demo_schema)).

Lemma demo_proper : proper_schema demo_schema.
Proof.
  split; [apply (bool_decide_unpack _); vm_compute; exact I|].
  repeat constructor; apply (bool_decide_unpack _); vm_compute; exact I.
Qed.

Lemma matrix_charges_each_combination_witness :
  charged <$> evaluateTaskVisualConfig
    (mkVisual (taskMatrixToTiers demo_le (mkMatrix demo_rows) demo_schema)) demo_sample (Some demo_schema)
  = charged <$> evaluateTaskVisualConfig
      (mkVisual [row_tier demo_le (getTaskNumberFields demo_le (Some demo_schema)) true
        (mkRow [(js "mode", js "slow")] (num_of_Z 1) [(js "seconds", num_of_Z 2)])])
      demo_sample (Some demo_schema).
Proof.
  apply (matrix_charges_each_combination demo_le demo_schema demo_rows 1).
  - exact demo_proper.
  - vm_compute. discriminate.
  - vm_compute. reflexivity.
  - vm_compute. reflexivity.
  - intros f v. simpl. unfold jeqb. case_bool_decide; [|done]. subst. intros [= <-]. reflexivity.
Defined.

Lemma evaluation_formula_witness :
  ∃ i t, [mkTaskTier (js "a") [] (num_of_Z 3) [(js "seconds", num_of_Z 2)]] !! i = Some t ∧
    total <$> evaluateTaskVisualConfig
      (mkVisual [mkTaskTier (js "a") [] (num_of_Z 3) [(js "seconds", num_of_Z 2)]]) demo_sample None
    = Some (num_of_Z 23).
Proof.
  destruct (evaluation_formula (mkVisual [mkTaskTier (js "a") [] (num_of_Z 3) [(js "seconds", num_of_Z 2)]])
    demo_sample None (mkTaskTier (js "a") [] (num_of_Z 3) [(js "seconds", num_of_Z 2)]) eq_refl)
    as (i & t & Hi & _ & _ & ->).
  exists i, t. split; [exact Hi|]. destruct i; [|discriminate Hi].
  injection Hi as <-. vm_compute. reflexivity.
Defined.

Lemma normalization_spec_witness :
  tiers (normalizeTaskVisualConfig demo_le None demo_schema) ≠ [].
Proof.
  apply (normalization_spec demo_le None demo_schema (proj1 demo_proper)).
Defined.
