(* ===== verification/RuleText.v ===== *)
(** * Texts of request rules

    The conditions of request rules as texts, what the regular expressions of
    the parser make of them, and that the splitters do not divide them. *)

From Stdlib Require Import ZifyN ZifyBool.
From stdpp Require Import sorting.
From S2P Require Import Prelude StableSort JsValue Regex RegexRun BillingExpr TaskExpr StringFacts TaskExprFacts BillingExprFacts TaskRoundTrip.
Import BillingExpr.

(** ** Characters of generated texts *)

(** Characters of a path or a time zone: printable, no quote, no backslash, no
    parenthesis, neither [&] nor [|]. *)
Definition path_char (c : N) : bool :=
  (32 <=? c)%N && (c <? 55296)%N && negb (bool_decide (c ∈ [34; 92; 40; 41; 38; 124]%N)).
(** Characters of a value: no parenthesis, neither [&] nor [|], no line
    separator. *)
Definition value_char (c : N) : bool :=
  (c <? 65536)%N && negb (bool_decide (c ∈ [40; 41; 38; 124; 8232; 8233]%N)).
(** Characters a quoted value may have. *)
Definition text_char (c : N) : bool :=
  negb (bool_decide (c ∈ [40; 41; 38; 124]%N)) && negb (line_terminator c).

Lemma quote_path p : Forall (λ c, path_char c = true) p → quote p = 34%N :: p ++ [34%N].
Proof.
  intros H. unfold quote. cbn [app]. f_equal. f_equal.
  induction H as [|c p Hc _ IH]; [done|]. unfold path_char in Hc.
  apply andb_true_iff in Hc as [Hc Hs%negb_true_iff%bool_decide_eq_false].
  assert (is_high c || is_low c = false) as E by (unfold is_high, is_low; lia).
  assert (quote_unit c = [c]) as Hq.
  { unfold quote_unit. rewrite !(proj2 (N.eqb_neq c _)) by (first [lia|set_solver]).
    rewrite (proj2 (N.ltb_ge c 32)) by lia. done. }
  cbn [quote_go]. destruct p as [|d p]; [by rewrite E, Hq|].
  assert (is_high c = false) as -> by (destruct (is_high c); done).
  cbn [andb orb]. assert (is_low c = false) as -> by (destruct (is_low c); [by rewrite orb_true_r in E|done]).
  by rewrite Hq, IH.
Qed.

(** Membership in a fixed list. *)
Ltac in_list := apply (bool_decide_unpack _); vm_compute; exact I.

Lemma quote_chars (P : N → bool) s :
  forallb P ([34; 92; 98; 116; 110; 102; 114; 117]%N ++ js "0123456789abcdef") = true →
  (∀ c, c ∈ s → (32 <= c)%N → P c = true) → units s → Forall (λ c, P c = true) (quote s).
Proof.
  intros Hfix Hs Hu. rewrite forallb_forall in Hfix.
  assert (∀ c, c ∈ [34; 92; 98; 116; 110; 102; 114; 117]%N ++ js "0123456789abcdef" → P c = true) as Hf.
  { intros c Hc. by apply Hfix, list_elem_of_In. }
  assert (∀ n, (n < 16)%N → P (hex_digit n) = true) as Hh.
  { intros n Hn. apply Hf. apply elem_of_app. right.
    assert (hex_digit n ∈ map hex_digit (map N.of_nat (seq 0 16))) as Hin.
    { apply list_elem_of_fmap_2. rewrite <-(N2Nat.id n). apply list_elem_of_fmap_2, elem_of_seq. lia. }
    exact Hin. }
  assert (∀ c, (c < 65536)%N → Forall (λ c, P c = true) (hex_escape c)) as He.
  { intros c Hc. unfold hex_escape. change (js "\u") with [92%N; 117%N]. cbn [app].
    assert (c / 4096 < 16)%N by (apply N.Div0.div_lt_upper_bound; lia).
    rewrite !list.Forall_cons. split_and!;
      [apply Hf; in_list|apply Hf; in_list|by apply Hh|
       by apply Hh, N.mod_upper_bound..|constructor]. }
  unfold quote. apply list.Forall_app. split; [by constructor; [apply Hf; in_list|]|].
  apply list.Forall_app. split; [|by constructor; [apply Hf; in_list|]].
  revert s Hs Hu. apply (quote_go_ind (λ s q, (∀ c, c ∈ s → (32 <= c)%N → P c = true) → units s →
    Forall (λ c, P c = true) q)).
  - done.
  - intros c d s Hc Hd IH Hs [_ [_ Hu]%list.Forall_cons]%list.Forall_cons.
    unfold is_high in Hc. unfold is_low in Hd.
    constructor; [apply Hs; [set_solver|lia]|]. constructor; [apply Hs; [set_solver|lia]|].
    apply IH; [set_solver|done].
  - intros c s _ IH Hs [Hc Hu]%list.Forall_cons. apply list.Forall_app.
    split; [by apply He|]. apply IH; [set_solver|done].
  - intros c s _ IH Hs [Hc Hu]%list.Forall_cons. apply list.Forall_app.
    split; [|apply IH; [set_solver|done]]. unfold quote_unit.
    repeat match goal with |- context [if (c =? ?k)%N then _ else _] =>
      destruct (N.eqb_spec c k);
        [by apply (list.Forall_cons_2 _ 92%N); [apply Hf; in_list|];
         apply list.Forall_singleton, Hf; in_list|] end.
    destruct (N.ltb_spec c 32); [by apply He|]. constructor; [apply Hs; [set_solver|done]|constructor].
Qed.

Lemma quote_value v :
  Forall (λ c, value_char c = true) v → units v ∧ Forall (λ c, text_char c = true) (quote v).
Proof.
  intros Hv. rewrite list.Forall_forall in Hv. unfold value_char in Hv. assert (units v) as Hu.
  { apply list.Forall_forall. intros c Hc. specialize (Hv c Hc). lia. }
  split; [done|]. apply quote_chars; [done| |done]. intros c Hc Hlow. specialize (Hv c Hc).
  apply andb_true_iff in Hv as [_ Hv%negb_true_iff%bool_decide_eq_false].
  unfold text_char, line_terminator. rewrite bool_decide_false by set_solver. cbn [negb andb].
  rewrite !(proj2 (N.eqb_neq c _)) by (first [lia|set_solver]). done.
Qed.

(** ** Splitting at the top level *)

Definition passed_top (sep : jstr) (d : Z) (w : jstr) : Prop :=
  ∀ cur t, split_top sep 0 d cur (w ++ t) = split_top sep 0 d (cur ++ w) t.

Lemma passed_top_app sep d v w : passed_top sep d v → passed_top sep d w → passed_top sep d (v ++ w).
Proof. intros Hv Hw cur t. by rewrite <-app_assoc, Hv, Hw, <-app_assoc. Qed.

Lemma passed_top_nil sep d : passed_top sep d [].
Proof. intros cur t. by rewrite app_nil_r. Qed.

(** Inside parentheses every text without parentheses is passed over. *)
Lemma passed_top_deep sep d w : d ≠ 0 → 40%N ∉ w → 41%N ∉ w → passed_top sep d w.
Proof.
  intros Hd. induction w as [|c w IH]; intros H1 H2; [apply passed_top_nil|].
  intros cur t. cbn [app split_top]. unfold paren_depth.
  rewrite (proj2 (N.eqb_neq c 40)), (proj2 (N.eqb_neq c 41)) by set_solver.
  rewrite (proj2 (Z.eqb_neq d 0)) by done. cbn [andb]. rewrite IH by set_solver. by rewrite <-app_assoc.
Qed.

Lemma passed_top_parens s0 sep d w :
  0 ≤ d → s0 ≠ 41%N → s0 ≠ 40%N → passed_top (s0 :: sep) (d + 1) w →
  passed_top (s0 :: sep) d (js "(" ++ w ++ js ")").
Proof.
  intros Hd Hs Hs' Hw cur t. change (js "(") with [40%N]. change (js ")") with [41%N].
  rewrite <-!app_assoc. cbn [app split_top]. unfold paren_depth at 1. cbn [N.eqb Pos.eqb].
  rewrite (proj2 (Z.eqb_neq (d + 1) 0)) by lia. cbn [andb].
  assert (∀ cur, split_top (s0 :: sep) 0 (paren_depth 40 d) cur (w ++ 41%N :: t)
    = split_top (s0 :: sep) 0 (d + 1) cur (w ++ 41%N :: t)) as -> by done.
  rewrite Hw. cbn [split_top].
  assert (startsWith (41%N :: t) (s0 :: sep) = false) as ->.
  { apply not_true_iff_false. intros [k Hk]%startsWith_true. by simplify_eq/=. }
  rewrite andb_false_r. change (paren_depth 41 (d + 1)) with (d + 1 - 1).
  replace (d + 1 - 1) with d by lia. by rewrite <-!app_assoc.
Qed.

(** Outside of parentheses: a text that does not contain the second character
    of the separator and does not end in a space. *)
Lemma passed_top_flat s1 sep w :
  s1 ≠ 32%N → s1 ∉ w → 40%N ∉ w → 41%N ∉ w → list.last w ≠ Some 32%N →
  passed_top (32%N :: s1 :: sep) 0 w.
Proof.
  intros Hs. induction w as [|c w IH]; intros H0 H1 H2 H3; [apply passed_top_nil|].
  intros cur t. cbn [app split_top]. unfold paren_depth.
  rewrite (proj2 (N.eqb_neq c 40)), (proj2 (N.eqb_neq c 41)) by set_solver.
  assert (startsWith (c :: w ++ t) (32%N :: s1 :: sep) = false) as ->.
  { apply not_true_iff_false. intros [k Hk]%startsWith_true. cbn [app] in Hk.
    injection Hk as -> Hk. destruct w as [|c' w]; [done|]. cbn [app] in Hk.
    injection Hk as -> _. set_solver. }
  rewrite andb_false_r, IH; [by rewrite <-app_assoc|set_solver..|].
  destruct w as [|c' w]; [done|]. intros Hl. apply H3. rewrite list.last_cons, Hl. done.
Qed.

(** ** Reading a text by an expression, piece by piece *)

Lemma den_cat_str v r c t c' : den (Cat (Str v) r) c (v ++ t) c' ↔ den r c t c'.
Proof.
  cbn [den]. split.
  - by intros (w1 & w2 & c1 & Heq & [-> ->] & Hd); apply app_inv_head in Heq as ->.
  - intros Hd. by exists v, t, c.
Qed.

Lemma den_cat_str_no v r c t c' : startsWith t v = false → ¬ den (Cat (Str v) r) c t c'.
Proof. intros H (w1 & w2 & c1 & -> & [-> ->] & _). by rewrite startsWith_app in H. Qed.

(** The expression matches no text that starts with a character of the class. *)
Definition no_start (p : N → bool) (r : re) : Prop :=
  ∀ c x t c', p x = true → ¬ den r c (x :: t) c'.

Lemma no_start_str p x v r : p x = false → no_start p (Cat (Str (x :: v)) r).
Proof.
  intros Hx c y t c' Hy (w1 & w2 & c1 & Heq & [-> ->] & _). cbn [app] in Heq.
  injection Heq as -> _. by rewrite Hy in Hx.
Qed.

Lemma no_start_eps p : no_start p Eps.
Proof. by intros c x t c' _ [? _]. Qed.

Lemma no_start_stops p r c t c' : no_start p r → den r c t c' → stops p t.
Proof. intros H Hd x t' ->. destruct (p x) eqn:E; [|done]. by apply (H c x t' c') in E. Qed.

Lemma den_cat_span k p r c w t c' :
  w ≠ [] → Forall (λ x, p x = true) w → stops p t → no_start p r →
  den (Cat (Cap k (Plus (Chr p))) r) c (w ++ t) c' ↔ den r ((k, w) :: c) t c'.
Proof.
  intros Hne Hw Ht Hr. split.
  - intros (w1 & w2 & c1 & Heq & (c2 & Hp & ->) & Hd). apply den_plus_chr in Hp as (_ & Hw1 & ->).
    apply (span_unique p) in Heq as [-> ->]; [done..|]. by eapply no_start_stops.
  - intros Hd. exists w, t, ((k, w) :: c). split_and!; [done| |done].
    exists c. split; [by apply den_plus_chr|done].
Qed.

(** A word of a class among alternatives, when what follows is not of the class. *)
Lemma den_cat_alts k p ws r c w t c' :
  ws ≠ [] → Forall (Forall (λ x, p x = true)) (map js ws) → w ∈ map js ws → stops p t → no_start p r →
  den (Cat (Cap k (alts ws)) r) c (w ++ t) c' ↔ den r ((k, w) :: c) t c'.
Proof.
  intros Hne Hws Hw Ht Hr. rewrite list.Forall_forall in Hws. split.
  - intros (w1 & w2 & c1 & Heq & (c2 & Hp & ->) & Hd). apply den_alts in Hp as [Hw1 ->]; [|done].
    apply (span_unique p) in Heq as [-> ->]; [done|by apply Hws..|done|]. by eapply no_start_stops.
  - intros Hd. exists w, t, ((k, w) :: c). split_and!; [done| |done].
    exists c. split; [by apply den_alts|done].
Qed.

Lemma den_cat_ref n r c w t c' :
  grp n c = Some w → den (Cat (Ref n) r) c (w ++ t) c' ↔ den r c t c'.
Proof.
  intros Hn. cbn [den]. rewrite Hn. split.
  - by intros (w1 & w2 & c1 & Heq & [-> ->] & Hd); apply app_inv_head in Heq as ->.
  - intros Hd. by exists w, t, c.
Qed.

(** ** Texts of time conditions *)

Definition lower (c : N) : bool := ((97 <=? c) && (c <=? 122))%N.
Definition op_char (c : N) : bool := bool_decide (c ∈ js "=<>").
Definition num_word (w : jstr) : Prop := Forall (λ x, num_char x = true) w ∧ w ≠ [].
(** What a quoted group of the expressions captures. *)
Definition quotable (p : jstr) : Prop := p ≠ [] ∧ Forall (λ x, negb (bool_decide (x ∈ [34%N])) = true) p.

(** A call of one quoted argument. *)
Definition call_text (h p : jstr) : jstr := h ++ jq "('" ++ p ++ jq "')".
Definition time_text (f : TimeFunc) (tz : jstr) : jstr := call_text (timeFunc_text f) tz.
Definition scalar_text (f : TimeFunc) (tz op n : jstr) : jstr :=
  time_text f tz ++ js " " ++ op ++ js " " ++ n.
Definition range_text (f : TimeFunc) (tz n o m : jstr) : jstr :=
  scalar_text f tz (js ">=") n ++ js " " ++ o ++ js " " ++ scalar_text f tz (js "<") m.

Lemma timeFunc_in f : timeFunc_text f ∈ map js ["hour"; "minute"; "weekday"; "month"; "day"].
Proof. by destruct f; in_list. Qed.

Lemma isTimeFunc_text f : isTimeFunc (timeFunc_text f) = Some f.
Proof. by destruct f. Qed.

(** What every call of the parsers starts with. *)
Lemma den_call k p v r c t c' :
  quotable p →
  den (Cat (Str (jq "('")) (Cat (Cap k (Plus not_quote)) (Cat (Str (34%N :: 41%N :: v)) r)))
    c (jq "('" ++ p ++ jq "')" ++ t) c'
  ↔ den (Cat (Str v) r) ((k, p) :: c) t c'.
Proof.
  intros [Hne Hp]. rewrite den_cat_str. unfold not_quote, none_of.
  rewrite den_cat_span; [|done|done|by apply stops_cons|by apply no_start_str].
  split; intros (w1 & w2 & c1 & Heq & [-> ->] & Hd).
  - injection Heq as Heq. by exists v, w2, ((k, p) :: c).
  - subst t. by exists (34%N :: 41%N :: v), w2, ((k, p) :: c).
Qed.

Lemma den_time_call f tz v r c t c' :
  quotable tz →
  den (Cat (Cap 1 time_func_re) (Cat (Str (jq "('")) (Cat (Cap 2 (Plus not_quote))
    (Cat (Str (34%N :: 41%N :: v)) r)))) c (time_text f tz ++ t) c'
  ↔ den (Cat (Str v) r) ((2%nat, tz) :: (1%nat, timeFunc_text f) :: c) t c'.
Proof.
  intros Htz. unfold time_text, call_text, time_func_re. rewrite <-!app_assoc.
  rewrite (den_cat_alts 1 lower); [by apply den_call|done| |apply timeFunc_in|by apply stops_cons|by apply no_start_str].
  repeat constructor.
Qed.

Lemma den_eps c w c' : den Eps c w c' ↔ w = [] ∧ c' = c.
Proof. done. Qed.

Lemma scalar_ops op : op ∈ map js ["=="; ">="; "<"] → Forall (λ x, op_char x = true) op ∧ op ≠ [].
Proof.
  cbn [map]. rewrite !elem_of_cons, elem_of_nil.
  by intros [->|[->|[->|[]]]]; (split; [in_list|]).
Qed.

Lemma den_scalar f tz op n Z c :
  quotable tz → op ∈ map js ["=="; ">="; "<"] → num_word n → stops num_char Z →
  den time_scalar_re [] (scalar_text f tz op n ++ Z) c
  ↔ Z = [] ∧ c = [(4%nat, n); (3%nat, op); (2%nat, tz); (1%nat, timeFunc_text f)].
Proof.
  intros Htz Hop [Hn Hne] HZ. unfold scalar_text, time_scalar_re. rewrite <-!app_assoc. cbn [cats foldr].
  change (jq "') ") with (34%N :: 41%N :: js " ").
  rewrite den_time_call, den_cat_str by done.
  rewrite (den_cat_alts 3 op_char); [|done|by repeat constructor|done|by apply stops_cons|by apply no_start_str].
  rewrite den_cat_str. unfold num_text. rewrite den_cat_span; [|done..|apply no_start_eps]. done.
Qed.

Lemma den_range f tz n Z c :
  quotable tz → num_word n → stops num_char Z →
  den time_range_re [] (scalar_text f tz (js ">=") n ++ Z) c
  ↔ ∃ o m, o ∈ map js ["&&"; "||"] ∧ num_word m ∧
      Z = js " " ++ o ++ js " " ++ scalar_text f tz (js "<") m ∧
      c = [(4%nat, m); (3%nat, n); (2%nat, tz); (1%nat, timeFunc_text f)].
Proof.
  intros Htz [Hn Hne] HZ. unfold scalar_text at 1, time_range_re. rewrite <-!app_assoc. cbn [cats foldr].
  change (jq "') >= ") with (34%N :: 41%N :: js " >= ").
  rewrite den_time_call by done.
  change (js " " ++ js ">=" ++ js " " ++ n ++ Z) with (js " >= " ++ n ++ Z). rewrite den_cat_str.
  unfold num_text. rewrite den_cat_span; [|done..|by apply no_start_str].
  set (cs := [(3%nat, n); (2%nat, tz); (1%nat, timeFunc_text f)]). split.
  - intros (w1 & w2 & c1 & -> & [-> ->] & o & w3 & c2 & -> & Ho & w4 & w5 & c3 & -> & [-> ->]
      & w6 & w7 & c4 & -> & [-> ->] & w8 & w9 & c5 & -> & [-> ->] & w10 & w11 & c6 & -> & [-> ->]
      & w12 & w13 & c7 & -> & [-> ->] & m & w14 & c8 & -> & (c9 & Hm & ->) & [-> ->]).
    apply den_alts in Ho as [Ho ->]; [|done]. apply den_plus_chr in Hm as (Hmne & Hm & ->).
    exists o, m. split_and!; [done|done| |done]. rewrite app_nil_r.
    unfold scalar_text, time_text, call_text. rewrite <-!app_assoc. done.
  - intros (o & m & Ho & [Hm Hmne] & -> & ->). rewrite den_cat_str.
    eexists o, _, cs. split_and!; [done|by apply den_alts|]. rewrite den_cat_str.
    unfold scalar_text, time_text, call_text. rewrite <-!app_assoc.
    rewrite (den_cat_ref 1 _ _ (timeFunc_text f)), den_cat_str, (den_cat_ref 2 _ _ tz) by done.
    change (jq "')" ++ js " " ++ js "<" ++ js " " ++ m) with (jq "') < " ++ m). rewrite den_cat_str.
    rewrite <-(app_nil_r m), den_cat_span; [by rewrite app_nil_r|done..|apply no_start_eps].
Qed.

Lemma no_range f tz op n Z c :
  quotable tz → op ∈ map js ["=="; "<"] → ¬ den time_range_re [] (scalar_text f tz op n ++ Z) c.
Proof.
  intros Htz Hop. unfold scalar_text at 1, time_range_re. rewrite <-!app_assoc. cbn [cats foldr].
  change (jq "') >= ") with (34%N :: 41%N :: js " >= "). rewrite den_time_call by done.
  apply den_cat_str_no. cbn [map] in Hop. rewrite !elem_of_cons, elem_of_nil in Hop.
  by destruct Hop as [->|[->|[]]].
Qed.

Lemma den_paren X c :
  den time_range_paren_re [] (js "(" ++ X) c ↔ ∃ Y, X = Y ++ js ")" ∧ den time_range_re [] Y c.
Proof.
  unfold time_range_paren_re. cbn [cats foldr]. rewrite den_cat_str. split.
  - intros (Y & w & c1 & -> & HY & w1 & w2 & c2 & -> & [-> ->] & [-> ->]). by exists Y.
  - intros (Y & -> & HY). exists Y, (js ")"), c. split_and!; [done|done|]. by exists (js ")"), [], c.
Qed.

Lemma no_paren X c : startsWith X (js "(") = false → ¬ den time_range_paren_re [] X c.
Proof. apply den_cat_str_no. Qed.

Lemma time_no_paren f tz t : startsWith (time_text f tz ++ t) (js "(") = false.
Proof. by destruct f. Qed.

Lemma tryParseTimeCondition_none s :
  (∀ c, ¬ den time_range_re [] s c) → (∀ c, ¬ den time_range_paren_re [] s c) →
  (∀ c, ¬ den time_scalar_re [] s c) → tryParseTimeCondition s = None.
Proof. intros H1 H2 H3. unfold tryParseTimeCondition. by rewrite !match_whole_None. Qed.

Lemma try_scalar_if f tz op n :
  quotable tz → op ∈ map js ["=="; ">="; "<"] → num_word n →
  tryParseTimeCondition (scalar_text f tz op n)
  = if isTimeValueInRange f n then Some (mkTime f tz (time_op_mode op) n [] []) else None.
Proof.
  intros Htz Hop Hn. unfold tryParseTimeCondition.
  assert (match_whole time_range_re (scalar_text f tz op n) = None) as ->.
  { apply match_whole_None; [done|]. intros c. rewrite <-(app_nil_r (scalar_text f tz op n)).
    cbn [map] in Hop. rewrite !elem_of_cons, elem_of_nil in Hop. destruct Hop as [->|[->|[->|[]]]].
    - apply no_range; [done|in_list].
    - rewrite den_range by done. intros (o & m & _ & _ & ? & _). done.
    - apply no_range; [done|in_list]. }
  rewrite (match_whole_None time_range_paren_re); [|done|by intros c; apply no_paren, time_no_paren].
  rewrite (match_whole_unique time_scalar_re _ [(4%nat, n); (3%nat, op); (2%nat, tz); (1%nat, timeFunc_text f)]).
  - unfold time_func_of. change (cap 1 _) with (timeFunc_text f). rewrite isTimeFunc_text. change (default hour (Some f)) with f.
    change (cap 4 _) with n. by destruct (isTimeValueInRange f n).
  - done.
  - rewrite <-(app_nil_r (scalar_text f tz op n)). by rewrite den_scalar.
  - intros c. rewrite <-(app_nil_r (scalar_text f tz op n)), den_scalar by done. by intros [_ ->].
Qed.

Lemma try_scalar f tz op n :
  quotable tz → op ∈ map js ["=="; ">="; "<"] → num_word n → isTimeValueInRange f n = true →
  tryParseTimeCondition (scalar_text f tz op n) = Some (mkTime f tz (time_op_mode op) n [] []).
Proof. intros Htz Hop Hn Hr. by rewrite try_scalar_if, Hr. Qed.

Lemma scalar_more_none f tz op n Z :
  quotable tz → op ∈ map js ["=="; ">="; "<"] → num_word n → stops num_char Z → Z ≠ [] →
  (∀ o m, op = js ">=" → o ∈ map js ["&&"; "||"] → num_word m →
     Z ≠ js " " ++ o ++ js " " ++ scalar_text f tz (js "<") m) →
  tryParseTimeCondition (scalar_text f tz op n ++ Z) = None.
Proof.
  intros Htz Hop Hn HZ Hne Hno. apply tryParseTimeCondition_none; intros c.
  - cbn [map] in Hop. rewrite !elem_of_cons, elem_of_nil in Hop. destruct Hop as [->|[->|[->|[]]]].
    + apply no_range; [done|in_list].
    + rewrite den_range by done. intros (o & m & Ho & Hm & -> & _). by eapply Hno.
    + apply no_range; [done|in_list].
  - apply no_paren. unfold scalar_text. rewrite <-!app_assoc. apply time_no_paren.
  - rewrite den_scalar by done. by intros [? _].
Qed.

(** What the range expressions find in a range with something after it. *)
Lemma den_range_exact f tz n o m Z c :
  quotable tz → num_word n → num_word m → o ∈ map js ["&&"; "||"] → stops num_char Z →
  den time_range_re [] (range_text f tz n o m ++ Z) c →
  Z = [] ∧ c = [(4%nat, m); (3%nat, n); (2%nat, tz); (1%nat, timeFunc_text f)].
Proof.
  intros Htz Hn [Hm Hmne] Ho HZ. unfold range_text. rewrite <-app_assoc, den_range by (first [done|by apply stops_cons]).
  intros (o' & m' & Ho' & [Hm' _] & Heq & ->). rewrite <-!app_assoc in Heq.
  apply app_inv_head in Heq. assert (o' = o) as ->.
  { cbn [map] in Ho, Ho'. rewrite !elem_of_cons, elem_of_nil in Ho, Ho'.
    destruct Ho as [->|[->|[]]], Ho' as [->|[->|[]]]; done. }
  apply app_inv_head, app_inv_head in Heq. unfold scalar_text in Heq. rewrite <-!app_assoc in Heq.
  do 4 apply app_inv_head in Heq. rewrite <-(app_nil_r m') in Heq.
  apply (span_unique num_char) in Heq as [-> ->]; done.
Qed.

Lemma den_range_text f tz n o m :
  quotable tz → num_word n → num_word m → o ∈ map js ["&&"; "||"] →
  den time_range_re [] (range_text f tz n o m) [(4%nat, m); (3%nat, n); (2%nat, tz); (1%nat, timeFunc_text f)].
Proof.
  intros Htz Hn Hm Ho. unfold range_text. apply den_range; [done..|by apply stops_cons|]. by exists o, m.
Qed.

Lemma range_solid f tz n o m Z Y :
  num_word m → range_text f tz n o m ++ Z = Y ++ js ")" → ∃ Z1, Z = Z1 ++ js ")" ∧ Y = range_text f tz n o m ++ Z1.
Proof.
  intros [Hm Hne] Heq. destruct Z as [|z Z _] using rev_ind.
  - exfalso. rewrite app_nil_r in Heq. destruct m as [|x m _] using rev_ind; [done|].
    apply list.Forall_app in Hm as [_ [Hx _]%list.Forall_cons].
    unfold range_text, scalar_text in Heq. rewrite !app_assoc in Heq.
    apply app_inj_tail in Heq as [_ ->]. done.
  - rewrite app_assoc in Heq. change (js ")") with [41%N] in *. apply app_inj_tail in Heq as [<- ->]. by exists Z.
Qed.

Lemma den_paren_exact f tz n o m Z c :
  quotable tz → num_word n → num_word m → o ∈ map js ["&&"; "||"] → stops num_char Z →
  den time_range_paren_re [] (js "(" ++ range_text f tz n o m ++ Z) c →
  Z = js ")" ∧ c = [(4%nat, m); (3%nat, n); (2%nat, tz); (1%nat, timeFunc_text f)].
Proof.
  intros Htz Hn Hm Ho HZ. rewrite den_paren. intros (Y & Heq & HY).
  apply range_solid in Heq as (Z1 & -> & ->); [|done].
  apply den_range_exact in HY as [-> ->]; [done..|]. intros x t ->. by eapply HZ.
Qed.

Lemma range_captured f tz n m :
  isTimeValueInRange f n = true → isTimeValueInRange f m = true →
  let c := [(4%nat, m); (3%nat, n); (2%nat, tz); (1%nat, timeFunc_text f)] in
  (if negb (isTimeValueInRange (time_func_of c) (cap 3 c)) || negb (isTimeValueInRange (time_func_of c) (cap 4 c))
   then None
   else Some (mkTime (time_func_of c) (cap 2 c) MATCH_RANGE [] (cap 3 c) (cap 4 c)))
  = Some (mkTime f tz MATCH_RANGE [] n m).
Proof.
  intros Hn Hm c. unfold time_func_of. change (cap 1 c) with (timeFunc_text f). rewrite isTimeFunc_text.
  change (default hour (Some f)) with f. change (cap 3 c) with n. change (cap 4 c) with m.
  by rewrite Hn, Hm.
Qed.

Lemma try_range f tz n o m :
  quotable tz → num_word n → num_word m → o ∈ map js ["&&"; "||"] →
  isTimeValueInRange f n = true → isTimeValueInRange f m = true →
  tryParseTimeCondition (range_text f tz n o m) = Some (mkTime f tz MATCH_RANGE [] n m).
Proof.
  intros Htz Hn Hm Ho Hrn Hrm. unfold tryParseTimeCondition.
  rewrite (match_whole_unique time_range_re _ [(4%nat, m); (3%nat, n); (2%nat, tz); (1%nat, timeFunc_text f)]).
  - by apply (range_captured f tz n m).
  - done.
  - by apply den_range_text.
  - intros c. rewrite <-(app_nil_r (range_text f tz n o m)). by intros [_ ->]%den_range_exact.
Qed.

(** A text with a parenthesis in front is no range and no comparison. *)
Lemma paren_no_range X c : ¬ den time_range_re [] (js "(" ++ X) c ∧ ¬ den time_scalar_re [] (js "(" ++ X) c.
Proof.
  split; intros (w1 & w2 & c1 & Heq & (c2 & [Hw ->]%den_alts & ->) & _); try done;
    apply list_elem_of_fmap in Hw as (w & -> & Hw);
    repeat (apply elem_of_cons in Hw as [->|Hw]; [done|]); by apply elem_of_nil in Hw.
Qed.

Lemma try_paren f tz n o m :
  quotable tz → num_word n → num_word m → o ∈ map js ["&&"; "||"] →
  isTimeValueInRange f n = true → isTimeValueInRange f m = true →
  tryParseTimeCondition (js "(" ++ range_text f tz n o m ++ js ")") = Some (mkTime f tz MATCH_RANGE [] n m).
Proof.
  intros Htz Hn Hm Ho Hrn Hrm. unfold tryParseTimeCondition.
  rewrite (match_whole_None time_range_re); [|done|by intros c; apply paren_no_range].
  rewrite (match_whole_unique time_range_paren_re _ [(4%nat, m); (3%nat, n); (2%nat, tz); (1%nat, timeFunc_text f)]).
  - by apply (range_captured f tz n m).
  - done.
  - apply den_paren. eexists. split; [done|]. by apply den_range_text.
  - intros c [_ ->]%den_paren_exact; try done. by apply stops_cons.
Qed.

Lemma range_more_none f tz n o m Z :
  quotable tz → num_word n → num_word m → o ∈ map js ["&&"; "||"] → stops num_char Z → Z ≠ [] →
  tryParseTimeCondition (range_text f tz n o m ++ Z) = None.
Proof.
  intros Htz Hn Hm Ho HZ Hne. apply tryParseTimeCondition_none; intros c.
  - by intros [? _]%den_range_exact.
  - apply no_paren. unfold range_text, scalar_text. rewrite <-!app_assoc. apply time_no_paren.
  - unfold range_text. rewrite <-app_assoc, den_scalar; [|done|in_list|done|by apply stops_cons]. by intros [? _].
Qed.

Lemma paren_more_none f tz n o m Z :
  quotable tz → num_word n → num_word m → o ∈ map js ["&&"; "||"] → stops num_char Z → Z ≠ js ")" →
  tryParseTimeCondition (js "(" ++ range_text f tz n o m ++ Z) = None.
Proof.
  intros Htz Hn Hm Ho HZ Hne. apply tryParseTimeCondition_none; intros c.
  - apply paren_no_range.
  - by intros [? _]%den_paren_exact.
  - apply paren_no_range.
Qed.

(** Texts that start like no time condition. *)
Definition not_time (s : jstr) : bool :=
  forallb (λ f, negb (startsWith s (timeFunc_text f))) TIME_FUNCS && negb (startsWith s (js "(")).

Lemma not_time_none s : not_time s = true → tryParseTimeCondition s = None.
Proof.
  intros [Hf Hp%negb_true_iff]%andb_true_iff. rewrite forallb_forall in Hf.
  assert (∀ r c, ¬ den (Cat (Cap 1 time_func_re) r) [] s c) as Hno.
  { intros r c (w1 & w2 & c1 & -> & (c2 & [Hw ->]%den_alts & ->) & _); [|done].
    assert (∃ f, w1 = timeFunc_text f) as [f ->].
    { cbn [map] in Hw. rewrite !elem_of_cons, elem_of_nil in Hw.
      destruct Hw as [->|[->|[->|[->|[->|[]]]]]];
        [by exists hour|by exists minute|by exists weekday|by exists month|by exists day]. }
    assert (In f TIME_FUNCS) as Hin by (destruct f; simpl; tauto).
    apply Hf in Hin. by rewrite startsWith_app in Hin. }
  apply tryParseTimeCondition_none; intros c; [apply Hno|by apply no_paren|apply Hno].
Qed.

(** ** Texts of parameter and header conditions *)

Lemma den_named h k p v r c t c' :
  quotable p →
  den (Cat (Str (h ++ jq "('")) (Cat (Cap k (Plus not_quote)) (Cat (Str (34%N :: 41%N :: v)) r)))
    c (call_text h p ++ t) c'
  ↔ den (Cat (Str v) r) ((k, p) :: c) t c'.
Proof.
  intros Hp. rewrite <-(den_call k p v r c t c' Hp). unfold call_text. rewrite <-!app_assoc.
  rewrite (app_assoc h), !den_cat_str. done.
Qed.

(** The text does not start like the expression. *)
Ltac other_head := intros ?; apply den_cat_str_no; reflexivity.
Lemma header_exists_match p :
  quotable p → match_whole header_exists_re (call_text SOURCE_HEADER p ++ jq " != ''") = Some [(1%nat, p)].
Proof.
  intros Hp. assert (∀ c, den header_exists_re [] (call_text SOURCE_HEADER p ++ jq " != ''") c ↔ c = [(1%nat, p)]) as H.
  { intros c. unfold header_exists_re. cbn [cats foldr].
    rewrite (den_named SOURCE_HEADER 1 p (jq " != ''")) by done.
    rewrite <-(app_nil_r (jq " != ''")), den_cat_str. cbn [den]. naive_solver. }
  apply match_whole_unique; [done|by apply H|]. intros c. apply H.
Qed.

Lemma param_exists_match p :
  quotable p → match_whole param_exists_re (call_text SOURCE_PARAM p ++ js " != nil") = Some [(1%nat, p)].
Proof.
  intros Hp. assert (∀ c, den param_exists_re [] (call_text SOURCE_PARAM p ++ js " != nil") c ↔ c = [(1%nat, p)]) as H.
  { intros c. unfold param_exists_re. cbn [cats foldr].
    rewrite (den_named SOURCE_PARAM 1 p (js " != nil")) by done.
    rewrite <-(app_nil_r (js " != nil")), den_cat_str. cbn [den]. naive_solver. }
  apply match_whole_unique; [done|by apply H|]. intros c. apply H.
Qed.

Definition has_text (h p v : jstr) : jstr := js "has(" ++ call_text h p ++ js ", " ++ quote v ++ js ")".

Lemma header_has_match p v :
  quotable p →
  match_whole header_has_re (has_text SOURCE_HEADER p v) = Some [(2%nat, quote v); (1%nat, p)].
Proof.
  intros Hp. assert (∀ c, den header_has_re [] (has_text SOURCE_HEADER p v) c
    ↔ c = [(2%nat, quote v); (1%nat, p)]) as H.
  { intros c. unfold header_has_re, has_text. cbn [cats foldr].
    change (js "has(" ++ call_text SOURCE_HEADER p ++ js ", " ++ quote v ++ js ")")
      with (call_text (js "has(" ++ SOURCE_HEADER) p ++ js ", " ++ quote v ++ js ")").
    rewrite (den_named (js "has(" ++ SOURCE_HEADER) 1 p (js ", ")), den_cat_str by done. split.
    - intros (l & w2 & c1 & Heq & (c2 & [Hl ->]%den_literal & ->) & w3 & w4 & c3 & -> & [-> ->] & [-> ->]).
      apply literal_prefix in Heq as [-> _]; [done|apply quote_literal|done].
    - intros ->. exists (quote v), (js ")"), [(2%nat, quote v); (1%nat, p)]. split_and!; [done| |].
      + eexists. split; [apply den_literal; split; [apply quote_literal|done]|done].
      + by eexists (js ")"), [], _. }
  apply match_whole_unique; [done|by apply H|]. intros c. apply H.
Qed.

Definition eq_text (h p lit : jstr) : jstr := call_text h p ++ js " == " ++ lit.
(** What the last group of an equation captures. *)
Definition line_text (w : jstr) : Prop := w ≠ [] ∧ Forall (λ x, negb (line_terminator x) = true) w.

Lemma equals_match s p lit :
  quotable p → line_text lit →
  match_whole equals_re (eq_text (source_text s) p lit)
  = Some [(3%nat, lit); (2%nat, p); (1%nat, source_text s)].
Proof.
  intros Hp [Hne Hl]. assert (∀ c, den equals_re [] (eq_text (source_text s) p lit) c
    ↔ c = [(3%nat, lit); (2%nat, p); (1%nat, source_text s)]) as H.
  { intros c. unfold equals_re, eq_text, call_text. cbn [cats foldr]. rewrite <-!app_assoc.
    rewrite (den_cat_alts 1 lower); [|done|by repeat constructor|by destruct s; in_list|by apply stops_cons|by apply no_start_str].
    change (jq "') == ") with (34%N :: 41%N :: js " == "). rewrite den_call, den_cat_str by done.
    unfold dot. rewrite <-(app_nil_r lit) at 1. rewrite den_cat_span; [|done..|apply no_start_eps].
    cbn [den]. naive_solver. }
  apply match_whole_unique; [done|by apply H|]. intros c. apply H.
Qed.

Lemma not_time_call s p t : not_time (call_text (source_text s) p ++ t) = true.
Proof. by destruct s. Qed.

Lemma parse_header_exists p :
  quotable p →
  tryParseRequestCondition (call_text SOURCE_HEADER p ++ jq " != ''") = Some (Some (ph header p MATCH_EXISTS [])).
Proof.
  intros Hp. unfold tryParseRequestCondition.
  by rewrite (not_time_none _ (not_time_call header p _)), header_exists_match.
Qed.

Lemma parse_param_exists p :
  quotable p →
  tryParseRequestCondition (call_text SOURCE_PARAM p ++ js " != nil") = Some (Some (ph param p MATCH_EXISTS [])).
Proof.
  intros Hp. unfold tryParseRequestCondition.
  rewrite (not_time_none _ (not_time_call param p _)).
  rewrite (match_whole_None header_exists_re); [|done|other_head]. by rewrite param_exists_match.
Qed.

Lemma parse_header_has p v :
  quotable p → units v →
  tryParseRequestCondition (has_text SOURCE_HEADER p v) = Some (Some (ph header p MATCH_CONTAINS v)).
Proof.
  intros Hp Hv. unfold tryParseRequestCondition. rewrite not_time_none by done.
  rewrite (match_whole_None header_exists_re), (match_whole_None param_exists_re); [|done|other_head|done|other_head].
  rewrite header_has_match by done. change (cap 2 _) with (quote v). rewrite JSON_parse_quote by done. done.
Qed.

Lemma parse_built_literal v :
  trim v = v → units v → parseExprLiteral (buildExprLiteral MATCH_EQ v) = Some (JStr v).
Proof.
  intros Ht Hu. unfold buildExprLiteral. change (MATCH_EQ === MATCH_CONTAINS) with false. cbv iota.
  rewrite Ht. destruct (_ || _) eqn:E1; unfold parseExprLiteral; [by rewrite Ht, E1|].
  destruct (is_numeric v) eqn:E2; [by rewrite Ht, E1, E2|].
  rewrite trim_tight; [|apply tight_ends; done].
  assert ((quote v === js "true") || (quote v === js "false") = false) as ->.
  { unfold jeqb. rewrite !bool_decide_false; [done|..]; unfold quote; discriminate. }
  assert (is_numeric (quote v) = false) as ->.
  { apply not_true_iff_false. intros [H _]%is_numeric_chars. apply list.Forall_cons in H as [H _]. done. }
  by rewrite JSON_parse_quote.
Qed.

Lemma parse_equation s p v :
  quotable p → trim v = v → units v → line_text (buildExprLiteral MATCH_EQ v) →
  tryParseRequestCondition (eq_text (source_text s) p (buildExprLiteral MATCH_EQ v))
  = Some (Some (ph s p MATCH_EQ v)).
Proof.
  intros Hp Ht Hu Hl. unfold tryParseRequestCondition.
  set (lit := buildExprLiteral MATCH_EQ v) in *. unfold eq_text at 1. rewrite (not_time_none _ (not_time_call s p _)).
  assert (∀ v' t c, startsWith (js " == " ++ lit) v' = false →
    ¬ den (Cat (Str (source_text s ++ jq "('")) (Cat (Cap 1 (Plus not_quote)) (Cat (Str (34%N :: 41%N :: v')) t)))
        [] (eq_text (source_text s) p lit) c) as Htail.
  { intros v' t c Hv'. unfold eq_text. rewrite den_named by done. by apply den_cat_str_no. }
  rewrite (match_whole_None header_exists_re); [|done|].
  2:{ destruct s; [other_head|]. intros c. by apply (Htail (jq " != ''") Eps c). }
  rewrite (match_whole_None param_exists_re); [|done|].
  2:{ destruct s; [|other_head]. intros c. by apply (Htail (js " != nil") Eps c). }
  rewrite (match_whole_None header_has_re); [|done|by destruct s; other_head].
  unfold parse_param_has. rewrite (match_whole_None param_has_re); [|done|].
  2:{ destruct s; [|other_head]. intros c. by apply (Htail (js " != nil && has(" ++ SOURCE_PARAM ++ jq "('")). }
  unfold parse_compare. rewrite (match_whole_None param_compare_re); [|done|].
  2:{ destruct s; [|other_head]. intros c. by apply (Htail (js " != nil && " ++ SOURCE_PARAM ++ jq "('")). }
  unfold parse_equals. rewrite equals_match by done. cbn [mbind option_bind].
  change (cap 3 _) with lit. unfold lit. rewrite parse_built_literal by done. by destruct s.
Qed.

(** ** Generated texts are not split inside *)

Definition no_paren_in (w : jstr) : Prop := 40%N ∉ w ∧ 41%N ∉ w.

Lemma no_paren_app v w : no_paren_in v → no_paren_in w → no_paren_in (v ++ w).
Proof. unfold no_paren_in. rewrite !not_elem_of_app. naive_solver. Qed.

Lemma class_absent (P : N → bool) c w : Forall (λ x, P x = true) w → P c = false → c ∉ w.
Proof. rewrite list.Forall_forall. intros Hw Hc Hin%Hw. by rewrite Hc in Hin. Qed.

Lemma class_no_paren P w :
  Forall (λ x, P x = true) w → P 40%N = false → P 41%N = false → no_paren_in w.
Proof. intros Hw H1 H2. by split; eapply class_absent. Qed.

Lemma last_not_space (P : N → bool) v w :
  Forall (λ x, P x = true) w → w ≠ [] → P 32%N = false → list.last (v ++ w) ≠ Some 32%N.
Proof.
  intros Hw Hne Hp. destruct w as [|x w _] using rev_ind; [done|].
  apply list.Forall_app in Hw as [_ [Hx _]%list.Forall_cons].
  rewrite app_assoc, list.last_snoc. intros [= ->]. by rewrite Hx in Hp.
Qed.

Lemma timeFunc_lower f : Forall (λ x, lower x = true) (timeFunc_text f) ∧ timeFunc_text f ≠ [].
Proof. by destruct f; (split; [in_list|]). Qed.
Lemma source_lower s : Forall (λ x, lower x = true) (source_text s) ∧ source_text s ≠ [].
Proof. by destruct s; (split; [in_list|]). Qed.

Section pieces.
(** The separators [ && ] and [ * ]. *)
Context (s1 : N) (sep : jstr) (Hs1 : s1 ∈ [38; 42]%N).
Let sp : jstr := 32%N :: s1 :: sep.

Lemma passed_piece d w :
  0 ≤ d → no_paren_in w → (d = 0 → s1 ∉ w ∧ list.last w ≠ Some 32%N) → passed_top sp d w.
Proof.
  intros Hd [H1 H2] H0. destruct (decide (d = 0)) as [->|Hne]; [|by apply passed_top_deep].
  destruct H0 as [Hs Hl]; [done|]. apply passed_top_flat; [|done..]. by intros ->; vm_compute in Hs1; set_solver.
Qed.

Lemma sep_class (P : N → bool) w :
  Forall (λ x, P x = true) w → P 38%N = false → P 42%N = false → s1 ∉ w.
Proof.
  intros Hw H1 H2. eapply class_absent; [done|]. rewrite !elem_of_cons, elem_of_nil in Hs1.
  by destruct Hs1 as [->|[->|[]]].
Qed.

Lemma passed_call d h p :
  0 ≤ d → Forall (λ x, lower x = true) h ∧ h ≠ [] → no_paren_in p → passed_top sp d (call_text h p).
Proof.
  intros Hd [Hh Hne] [Hp1 Hp2]. apply passed_top_app.
  - apply passed_piece; [done|by eapply class_no_paren|]. intros _. split; [by eapply sep_class|].
    by apply (last_not_space lower []).
  - change (jq "('" ++ p ++ jq "')") with (js "(" ++ 34%N :: p ++ jq "')").
    replace (34%N :: p ++ jq "')") with ((34%N :: p ++ [34%N]) ++ js ")") by (cbn [app]; by rewrite <-app_assoc).
    apply passed_top_parens; [done..|].
    apply passed_top_deep; [lia|..]; rewrite elem_of_cons, elem_of_app, list_elem_of_singleton; naive_solver.
Qed.

Lemma passed_scalar d f tz op n :
  0 ≤ d → no_paren_in tz → op ∈ map js ["=="; ">="; "<"] → num_word n →
  passed_top sp d (scalar_text f tz op n).
Proof.
  intros Hd Htz [Hop Hone]%scalar_ops [Hn Hne]. apply passed_top_app; [apply passed_call; [done|apply timeFunc_lower|done]|].
  assert (no_paren_in (js " ")) as Hsp by (split; in_list).
  apply passed_piece; [done| |].
  - repeat apply no_paren_app; try done; by eapply class_no_paren.
  - intros _. split.
    + rewrite !not_elem_of_app. split_and!; [by apply (sep_class (N.eqb 32)); [in_list|..]|by eapply sep_class| |by eapply sep_class].
      by apply (sep_class (N.eqb 32)); [in_list|..].
    + rewrite !app_assoc. by apply (last_not_space num_char).
Qed.

Lemma passed_range d f tz n o m :
  0 < d → no_paren_in tz → num_word n → num_word m → o ∈ map js ["&&"; "||"] →
  passed_top sp d (range_text f tz n o m).
Proof.
  intros Hd Htz Hn Hm Ho. unfold range_text.
  apply passed_top_app; [apply passed_scalar; [lia|done|in_list|done]|].
  rewrite !app_assoc. apply passed_top_app; [|apply passed_scalar; [lia|done|in_list|done]].
  apply passed_piece; [lia| |lia]. cbn [map] in Ho. rewrite !elem_of_cons, elem_of_nil in Ho.
  destruct Ho as [->|[->|[]]]; (split; in_list).
Qed.

Lemma passed_has d s p v :
  0 ≤ d → no_paren_in p → no_paren_in (quote v) → passed_top sp d (has_text (source_text s) p v).
Proof.
  intros Hd Hp Hv. unfold has_text. change (js "has(") with (js "has" ++ js "("). rewrite <-app_assoc.
  apply passed_top_app.
  - apply passed_piece; [done|split; in_list|]. intros _. split; [|done].
    by apply (sep_class lower); [in_list|..].
  - rewrite !(app_assoc _ _ (js ")")). apply passed_top_parens; [done..|].
    apply passed_top_app; [apply passed_call; [lia|apply source_lower|done]|].
    apply passed_piece; [lia| |lia]. apply no_paren_app; [split; in_list|done].
Qed.

(** A call with a piece of text after it. *)
Lemma passed_call_tail d s p t :
  0 ≤ d → no_paren_in p → no_paren_in t → (d = 0 → s1 ∉ t) → list.last t ≠ Some 32%N →
  passed_top sp d (call_text (source_text s) p ++ t).
Proof.
  intros Hd Hp Ht Hs Hl. apply passed_top_app; [apply passed_call; [done|apply source_lower|done]|].
  apply passed_piece; [done..|]. intros H0. by split; [apply Hs|].
Qed.
End pieces.
