(* ===== verification/RuleRoundTrip.v ===== *)
(** * Request rules read back

    The request rules the editor builds are parsed back to the rows of the
    editor, and a base price combined with them is split again; the rows that
    never read back. *)

From Stdlib Require Import ZifyN ZifyBool.
From stdpp Require Import sorting.
From S2P Require Import Prelude StableSort JsValue Regex RegexRun BillingExpr TaskExpr StringFacts TaskExprFacts BillingExprFacts TaskRoundTrip RuleText.
Import BillingExpr.

(** ** Rows of the rule editor *)

Definition trimmed (s : jstr) : bool := trim s === s.

(** A complete time row: a time zone, and bounds in the range of the function. *)
Definition good_time (t : TimeCondition) : bool :=
  truthy (timezone t) && forallb path_char (timezone t) &&
  if t_mode t === MATCH_RANGE
  then (t_value t === []) && isTimeValueInRange (timeFunc t) (rangeStart t)
       && isTimeValueInRange (timeFunc t) (rangeEnd t)
  else bool_decide (t_mode t ∈ [MATCH_EQ; MATCH_GTE; MATCH_LT])
       && isTimeValueInRange (timeFunc t) (t_value t)
       && (rangeStart t === []) && (rangeEnd t === []).

Definition good_value (v : jstr) : bool := trimmed v && forallb value_char v.

(** A complete parameter or header row of the kinds that read back: a path, and
    a value where the kind has one. *)
Definition good_ph (c : ParamHeaderCondition) : bool :=
  truthy (path c) && forallb path_char (path c) && trimmed (path c) &&
  (if ph_mode c === MATCH_EXISTS then ph_value c === []
   else if ph_mode c === MATCH_CONTAINS then bool_decide (source c = header) && good_value (ph_value c)
   else (ph_mode c === MATCH_EQ) && good_value (ph_value c)).

Definition good_row (c : RequestCondition) : bool :=
  match c with CTime t => good_time t | CParamHeader c => good_ph c end.

(** Whether the range of a time row wraps around. *)
Definition overnight (t : TimeCondition) : bool := num_ltb (Number (rangeEnd t)) (Number (rangeStart t)).

Definition time_row_text (t : TimeCondition) : jstr :=
  if t_mode t === MATCH_RANGE
  then range_text (timeFunc t) (timezone t) (rangeStart t)
         (if overnight t then js "||" else js "&&") (rangeEnd t)
  else scalar_text (timeFunc t) (timezone t) (time_mode_op (t_mode t)) (t_value t).

Definition ph_row_text (c : ParamHeaderCondition) : jstr :=
  if ph_mode c === MATCH_EXISTS
  then call_text (source_text (source c)) (path c)
       ++ match source c with header => jq " != ''" | param => js " != nil" end
  else if ph_mode c === MATCH_CONTAINS then has_text SOURCE_HEADER (path c) (ph_value c)
  else eq_text (source_text (source c)) (path c) (buildExprLiteral MATCH_EQ (ph_value c)).

Lemma path_chars p : forallb path_char p = true → Forall (λ c, path_char c = true) p.
Proof. rewrite forallb_forall, list.Forall_forall. intros H c Hc. by apply H, list_elem_of_In. Qed.

Lemma path_quotable p : truthy p = true → forallb path_char p = true → quotable p ∧ no_paren_in p.
Proof.
  intros Hne Hp%path_chars. split; [split|by eapply class_no_paren].
  - by destruct p.
  - eapply list.Forall_impl; [exact Hp|]. intros c. unfold path_char. cbv beta. rewrite andb_true_iff.
    intros [_ H%negb_true_iff%bool_decide_eq_false]. apply negb_true_iff, bool_decide_eq_false. set_solver.
Qed.

Lemma call_quote h p : forallb path_char p = true → h ++ js "(" ++ quote p ++ js ")" = call_text h p.
Proof. intros Hp%path_chars. rewrite quote_path by done. unfold call_text. cbn [app]. by rewrite <-app_assoc. Qed.

Lemma in_range_word f v : isTimeValueInRange f v = true → num_word v ∧ trim v = v.
Proof.
  unfold isTimeValueInRange. intros [[Hv Hne]%is_numeric_chars _]%andb_true_iff. split; [done|].
  apply trim_no_ws. eapply list.Forall_impl; [exact Hv|]. apply num_char_not_ws.
Qed.

Lemma build_time t : good_time t = true → buildTimeConditionExpr t = time_row_text t.
Proof.
  destruct t as [f tz mode v a b]. unfold good_time, buildTimeConditionExpr, time_row_text, overnight, normalizeTime, partial_of.
  cbn [timeFunc timezone t_mode t_value rangeStart rangeEnd p_timeFunc p_timezone p_mode p_value p_rangeStart
    p_rangeEnd mbind option_bind opt_or_else default from_option id].
  intros [[Htz Hp]%andb_true_iff H]%andb_true_iff. unfold or_else. rewrite Htz, isTimeFunc_text.
  change (default hour (Some f)) with f. destruct (mode === MATCH_RANGE) eqn:Em.
  - apply jeqb_true in Em as ->. apply andb_true_iff in H as [[_ Ha]%andb_true_iff Hb].
    change (default MATCH_GTE _) with MATCH_RANGE. cbn [negb].
    destruct (in_range_word _ _ Ha) as [_ ->], (in_range_word _ _ Hb) as [_ ->]. rewrite Ha, Hb. cbn [negb orb].
    change (MATCH_RANGE === MATCH_RANGE) with true. cbv iota.
    rewrite !(call_quote (timeFunc_text f)) by done. unfold range_text, scalar_text, time_text.
    by destruct (num_ltb _ _); rewrite <-!app_assoc.
  - apply andb_true_iff in H as [[[Hm Hv]%andb_true_iff _]%andb_true_iff _].
    assert (has_mode (getRequestRuleMatchOptions SOURCE_TIME) (Some mode) = Some mode) as Hmode.
    { apply bool_decide_eq_true in Hm. rewrite !elem_of_cons, elem_of_nil in Hm.
      by destruct Hm as [->|[->|[->|[]]]]. }
    rewrite Hmode. change (default MATCH_GTE (Some mode)) with mode. rewrite Em.
    destruct (in_range_word _ _ Hv) as [_ ->]. rewrite Hv. cbn [negb].
    rewrite (call_quote (timeFunc_text f)) by done. unfold scalar_text, time_text. done.
Qed.

Lemma build_ph c : good_ph c = true → buildParamHeaderExpr c = ph_row_text c.
Proof.
  destruct c as [s p mode v]. unfold good_ph, buildParamHeaderExpr, ph_row_text, normalizeParamHeader, partial_of.
  cbn [source path ph_mode ph_value p_path p_mode p_value default from_option id].
  intros [[[Htp Hp]%andb_true_iff Ht%jeqb_true]%andb_true_iff H]%andb_true_iff. rewrite Ht, Htp. cbn [negb].
  destruct (mode === MATCH_EXISTS) eqn:E1; [|destruct (mode === MATCH_CONTAINS) eqn:E2].
  - apply jeqb_true in E1 as ->.
    assert (default MATCH_EQ (has_mode (getRequestRuleMatchOptions (source_text s)) (Some MATCH_EXISTS)) = MATCH_EXISTS)
      as -> by by destruct s.
    change (MATCH_EXISTS === MATCH_EXISTS) with true. cbv iota.
    destruct s; by rewrite <-(call_quote _ p Hp), <-!app_assoc.
  - apply jeqb_true in E2 as ->. apply andb_true_iff in H as [->%bool_decide_eq_true [Hv%jeqb_true _]%andb_true_iff].
    change (default MATCH_EQ _) with MATCH_CONTAINS.
    change (MATCH_CONTAINS === MATCH_EXISTS) with false. change (MATCH_CONTAINS === MATCH_CONTAINS) with true.
    cbv iota. unfold has_text, buildExprLiteral. change (MATCH_CONTAINS === MATCH_CONTAINS) with true. cbv iota.
    by rewrite Hv, <-(call_quote _ p Hp), <-!app_assoc.
  - apply andb_true_iff in H as [->%jeqb_true Hv].
    assert (default MATCH_EQ (has_mode (getRequestRuleMatchOptions (source_text s)) (Some MATCH_EQ)) = MATCH_EQ) as Hm
      by by destruct s.
    rewrite Hm.
    change (MATCH_EQ === MATCH_EXISTS) with false. change (MATCH_EQ === MATCH_CONTAINS) with false. cbv iota.
    change (compare_op MATCH_EQ) with (@None jstr). unfold eq_text. by rewrite <-(call_quote _ p Hp), <-!app_assoc.
Qed.

Definition row_text (c : RequestCondition) : jstr :=
  match c with CTime t => time_row_text t | CParamHeader c => ph_row_text c end.

(** The conjuncts of a row: a range within a day has two. *)
Definition row_parts (c : RequestCondition) : list jstr :=
  match c with
  | CTime t =>
      if t_mode t === MATCH_RANGE
      then if overnight t then [js "(" ++ time_row_text t ++ js ")"]
           else [scalar_text (timeFunc t) (timezone t) (js ">=") (rangeStart t);
                 scalar_text (timeFunc t) (timezone t) (js "<") (rangeEnd t)]
      else [time_row_text t]
  | CParamHeader c => [ph_row_text c]
  end.

Lemma build_row c : good_row c = true → buildRequestConditionExpr c = row_text c.
Proof. destruct c; [apply build_time|apply build_ph]. Qed.

Lemma ends_solid_last t : ends_solid t → list.last t ≠ Some 32%N.
Proof.
  intros [Hne Ht]. destruct t as [|x t _] using rev_ind; [done|]. rewrite reverse_snoc in Ht.
  rewrite list.last_snoc. intros [= ->]. by specialize (Ht _ _ eq_refl).
Qed.

Lemma class_solid (P : N → bool) w :
  Forall (λ x, P x = true) w → w ≠ [] → (∀ c, P c = true → is_ws c = false) → ends_solid w.
Proof.
  intros Hw Hne HP. split; [done|]. destruct w as [|x w _] using rev_ind; [done|]. rewrite reverse_snoc.
  apply list.Forall_app in Hw as [_ [Hx _]%list.Forall_cons]. by apply stops_cons, HP.
Qed.

Lemma word_solid n : num_word n → ends_solid n.
Proof. intros [Hn Hne]. eapply class_solid; [done..|]. apply num_char_not_ws. Qed.

Lemma lower_tight h w : Forall (λ x, lower x = true) h ∧ h ≠ [] → ends_solid w → tight (h ++ w).
Proof.
  intros [Hh Hne] Hw. destruct h as [|c h]; [done|]. apply list.Forall_cons in Hh as [Hc _].
  apply tight_solid; [|by apply (ends_solid_app (c :: h))].
  unfold lower in Hc. unfold is_ws. lia.
Qed.

(** *** Literals of equations *)

Lemma value_literal v :
  good_value v = true →
  let lit := buildExprLiteral MATCH_EQ v in
  Forall (λ c, text_char c = true) lit ∧ ends_solid lit ∧ units v ∧ trim v = v.
Proof.
  intros [Ht%jeqb_true Hv]%andb_true_iff lit. rewrite forallb_forall in Hv.
  assert (Forall (λ c, value_char c = true) v) as Hc.
  { apply list.Forall_forall. intros c Hc. by apply Hv, list_elem_of_In. }
  destruct (quote_value v Hc) as [Hu Hq]. subst lit. unfold buildExprLiteral.
  change (MATCH_EQ === MATCH_CONTAINS) with false. cbv iota. rewrite Ht.
  destruct (_ || _) eqn:E1.
  { split_and!; [|..|done|done]; apply orb_true_iff in E1 as [->%jeqb_true| ->%jeqb_true];
      first [in_list|by split; [|apply stops_cons]]. }
  destruct (is_numeric v) eqn:E2.
  { apply is_numeric_chars in E2. split_and!; [|by apply word_solid|done|done].
    eapply list.Forall_impl; [apply E2|]. intros c Hn. destruct (text_char c) eqn:E; [done|exfalso].
    unfold num_char, is_digit in Hn. unfold text_char, line_terminator in E.
    apply orb_true_iff in Hn as [Hn|Hn%bool_decide_eq_true].
    - apply andb_false_iff in E as [E%negb_false_iff%bool_decide_eq_true|E]; [|lia].
      rewrite !elem_of_cons, elem_of_nil in E. lia.
    - change (js ".eE+-") with [46; 101; 69; 43; 45]%N in Hn.
      rewrite !elem_of_cons, elem_of_nil in Hn. by destruct_or?; subst. }
  split_and!; [done|apply quote_ends|done|done].
Qed.

Lemma text_char_line w : Forall (λ c, text_char c = true) w → w ≠ [] → line_text w.
Proof.
  intros Hw Hne. split; [done|]. eapply list.Forall_impl; [exact Hw|].
  by intros c [_ ?]%andb_true_iff.
Qed.

Lemma contains_value v :
  good_value v = true → units v ∧ no_paren_in (quote v) ∧ 124%N ∉ quote v.
Proof.
  intros [_ Hv]%andb_true_iff. rewrite forallb_forall in Hv.
  assert (Forall (λ c, value_char c = true) v) as Hc.
  { apply list.Forall_forall. intros c Hc. by apply Hv, list_elem_of_In. }
  destruct (quote_value v Hc) as [Hu Hq].
  split_and!; [done|by eapply class_no_paren|by eapply class_absent].
Qed.

(** *** The texts of good rows *)

(** The two kinds of good time rows. *)
Inductive time_kind : TimeCondition → Prop :=
| kind_range f tz a b :
    isTimeValueInRange f a = true → isTimeValueInRange f b = true →
    time_kind (mkTime f tz MATCH_RANGE [] a b)
| kind_scalar f tz op v :
    op ∈ map js ["=="; ">="; "<"] → isTimeValueInRange f v = true →
    time_kind (mkTime f tz (time_op_mode op) v [] []).

Lemma good_time_kind t :
  good_time t = true →
  quotable (timezone t) ∧ no_paren_in (timezone t) ∧ 124%N ∉ timezone t ∧ time_kind t.
Proof.
  destruct t as [f tz mode v a b]. unfold good_time. cbn [timeFunc timezone t_mode t_value rangeStart rangeEnd].
  intros [[Htz Hp]%andb_true_iff H]%andb_true_iff. destruct (path_quotable _ Htz Hp) as [Hq Hn].
  split_and!; [done|done|by eapply class_absent; [apply path_chars|]|].
  destruct (mode === MATCH_RANGE) eqn:E.
  - apply jeqb_true in E as ->. apply andb_true_iff in H as [[->%jeqb_true Ha]%andb_true_iff Hb]. by constructor.
  - apply andb_true_iff in H as [[[Hm Hv]%andb_true_iff ->%jeqb_true]%andb_true_iff ->%jeqb_true].
    apply bool_decide_eq_true in Hm. rewrite !elem_of_cons, elem_of_nil in Hm.
    destruct Hm as [->|[->|[->|[]]]].
    + by apply (kind_scalar f tz (js "==")); [in_list|].
    + by apply (kind_scalar f tz (js ">=")); [in_list|].
    + by apply (kind_scalar f tz (js "<")); [in_list|].
Qed.

Lemma op_mode op :
  op ∈ map js ["=="; ">="; "<"] →
  time_mode_op (time_op_mode op) = op ∧ (time_op_mode op === MATCH_RANGE) = false.
Proof. cbn [map]. rewrite !elem_of_cons, elem_of_nil. by intros [->|[->|[->|[]]]]. Qed.

Definition fine (w : jstr) : Prop :=
  tight w ∧ w ≠ [] ∧ passed_top (js " && ") 0 w ∧ passed_top (js " * ") 1 w.

Lemma scalar_head f tz op n :
  scalar_text f tz op n = timeFunc_text f ++ (jq "('" ++ tz ++ jq "')" ++ js " " ++ op ++ js " ") ++ n.
Proof. unfold scalar_text, time_text, call_text. by rewrite <-!app_assoc. Qed.

Lemma scalar_fine f tz op n :
  no_paren_in tz → op ∈ map js ["=="; ">="; "<"] → num_word n → fine (scalar_text f tz op n).
Proof.
  intros Htz Hop Hn. split_and!.
  - rewrite scalar_head. apply lower_tight; [apply timeFunc_lower|]. by apply ends_solid_app, word_solid.
  - rewrite scalar_head. by destruct f.
  - apply (passed_scalar 38 (js "& ")); [in_list|done..].
  - apply (passed_scalar 42 (js " ")); [in_list|done..].
Qed.

Lemma scalar_no_pipe f tz op n :
  124%N ∉ tz → op ∈ map js ["=="; ">="; "<"] → num_word n → 124%N ∉ scalar_text f tz op n.
Proof.
  intros Htz [Hop _]%scalar_ops [Hn _]. rewrite scalar_head, !not_elem_of_app.
  split_and!; try done; try (by eapply class_absent); [|in_list..].
  eapply class_absent; [apply timeFunc_lower|done].
Qed.

Lemma overnight_fine f tz a b :
  no_paren_in tz → num_word a → num_word b → fine (js "(" ++ range_text f tz a (js "||") b ++ js ")").
Proof.
  intros Htz Ha Hb. split_and!; [by apply tight_ends|done|..].
  - apply passed_top_parens; [done..|]. apply (passed_range 38 (js "& ")); first [done|in_list].
  - apply passed_top_parens; [done..|]. apply (passed_range 42 (js " ")); first [done|in_list].
Qed.

Lemma ph_fine c : good_ph c = true → fine (ph_row_text c) ∧ 124%N ∉ ph_row_text c.
Proof.
  destruct c as [s p mode v]. unfold good_ph, ph_row_text. cbn [source path ph_mode ph_value].
  intros [[[Htp Hp]%andb_true_iff _]%andb_true_iff H]%andb_true_iff.
  destruct (path_quotable p Htp Hp) as [_ Hnp].
  assert (124%N ∉ p) as Hpp by (by eapply class_absent; [apply path_chars|]).
  assert (∀ h, 124%N ∉ h → 124%N ∉ call_text h p) as Hcall.
  { intros h Hh. unfold call_text. rewrite !not_elem_of_app. split_and!; [done|in_list|done|in_list]. }
  assert (124%N ∉ source_text s) as Hsrc by (eapply class_absent; [apply source_lower|done]).
  assert (∀ t, no_paren_in t → 38%N ∉ t → ends_solid t → 124%N ∉ t →
    fine (call_text (source_text s) p ++ t) ∧ 124%N ∉ call_text (source_text s) p ++ t) as Htail.
  { intros t Ht Ha Hl Hpt. split; [|rewrite not_elem_of_app; auto]. split_and!.
    - unfold call_text. rewrite <-app_assoc. apply lower_tight; [apply source_lower|]. by apply ends_solid_app.
    - by destruct s.
    - apply (passed_call_tail 38 (js "& ")); [in_list|done..|]. by apply ends_solid_last.
    - apply (passed_call_tail 42 (js " ")); [in_list|done..|]. by apply ends_solid_last. }
  destruct (mode === MATCH_EXISTS); [|destruct (mode === MATCH_CONTAINS)].
  - destruct s; (apply Htail; [split; in_list|in_list|split; [done|by apply stops_cons]|in_list]).
  - apply andb_true_iff in H as [_ (_ & Hq & Hqp)%contains_value]. unfold has_text. split; [split_and!|].
    + rewrite !app_assoc. by apply (tight_ends 104).
    + done.
    + by apply (passed_has 38 (js "& ") ltac:(in_list) 0 header).
    + by apply (passed_has 42 (js " ") ltac:(in_list) 1 header).
    + rewrite !not_elem_of_app. split_and!; [in_list|apply Hcall; in_list|in_list|done|in_list].
  - apply andb_true_iff in H as [_ (Ht & Hs & _)%value_literal].
    apply Htail.
    + apply no_paren_app; [split; in_list|by eapply class_no_paren].
    + rewrite not_elem_of_app. split; [in_list|by eapply class_absent].
    + by apply ends_solid_app.
    + rewrite not_elem_of_app. split; [in_list|by eapply class_absent].
Qed.

Lemma row_fine c : good_row c = true → Forall fine (row_parts c).
Proof.
  destruct c as [t|c]; cbn [good_row row_parts].
  - intros (_ & Hn & _ & Hk)%good_time_kind. destruct Hk as [f tz a b Ha Hb|f tz op v Hop Hv];
      cbn [timeFunc timezone t_mode t_value rangeStart rangeEnd] in *; unfold time_row_text;
      cbn [timeFunc timezone t_mode t_value rangeStart rangeEnd].
    + change (MATCH_RANGE === MATCH_RANGE) with true. cbv iota.
      apply in_range_word in Ha as [Ha _], Hb as [Hb _]. destruct (overnight _).
      * constructor; [by apply overnight_fine|constructor].
      * constructor; [apply scalar_fine; [done|in_list|done]|].
        constructor; [apply scalar_fine; [done|in_list|done]|constructor].
    + destruct (op_mode op Hop) as [-> ->]. constructor; [|constructor].
      apply scalar_fine; [done..|]. by eapply in_range_word.
  - intros [Hf _]%ph_fine. by repeat constructor; apply Hf.
Qed.

Lemma wrap_plain e : 124%N ∉ e → wrap_or e = e.
Proof.
  intros He. unfold wrap_or. destruct (includes e (js " || ")) eqn:E; [|done].
  apply includes_true in E as (a & b & ->). rewrite !not_elem_of_app in He.
  destruct He as (_ & [] & _). in_list.
Qed.

Lemma row_wrap c : good_row c = true → wrap_or (row_text c) = join (js " && ") (row_parts c).
Proof.
  destruct c as [t|c]; cbn [good_row row_parts row_text]; [|by intros [_ Hp]%ph_fine; apply wrap_plain].
  intros (_ & _ & Hp & Hk)%good_time_kind. destruct Hk as [f tz a b Ha Hb|f tz op v Hop Hv];
    unfold time_row_text; cbn [timeFunc timezone t_mode t_value rangeStart rangeEnd] in *.
  - change (MATCH_RANGE === MATCH_RANGE) with true. cbv iota. destruct (overnight _).
    + unfold wrap_or. rewrite (proj2 (includes_true _ _)); [done|].
      eexists (scalar_text f tz (js ">=") a), (scalar_text f tz (js "<") b).
      unfold range_text. done.
    + apply in_range_word in Ha as [Ha _], Hb as [Hb _]. rewrite wrap_plain; [done|].
      unfold range_text. rewrite !not_elem_of_app.
      split_and!; [apply scalar_no_pipe; [done|in_list|done]|in_list..|apply scalar_no_pipe; [done|in_list|done]].
  - destruct (op_mode op Hop) as [-> ->]. apply wrap_plain, scalar_no_pipe; [done..|]. by eapply in_range_word.
Qed.

(** *** Reading one row *)

(** What the first conjunct of a row is as a time condition of its own. *)
Definition lead (c : RequestCondition) : option TimeCondition :=
  match c with
  | CTime t =>
      if (t_mode t === MATCH_RANGE) && negb (overnight t)
      then Some (mkTime (timeFunc t) (timezone t) MATCH_GTE (rangeStart t) [] []) else Some t
  | CParamHeader _ => None
  end.

Lemma ph_not_time c t : not_time (ph_row_text c ++ t) = true.
Proof.
  unfold ph_row_text. destruct c as [s p mode v]. cbn [source path ph_mode ph_value].
  destruct (mode === MATCH_EXISTS); [rewrite <-app_assoc; apply not_time_call|].
  destruct (mode === MATCH_CONTAINS); [done|].
  unfold eq_text. rewrite <-app_assoc. apply not_time_call.
Qed.

Lemma ph_time_none c : tryParseTimeCondition (ph_row_text c) = None.
Proof. rewrite <-(app_nil_r (ph_row_text c)). apply not_time_none, ph_not_time. Qed.

Lemma ph_parse c :
  good_ph c = true → tryParseRequestCondition (ph_row_text c) = Some (Some (CParamHeader c)).
Proof.
  destruct c as [s p mode v]. unfold good_ph, ph_row_text. cbn [source path ph_mode ph_value].
  intros [[[Htp Hp]%andb_true_iff _]%andb_true_iff H]%andb_true_iff.
  destruct (path_quotable p Htp Hp) as [Hq _].
  destruct (mode === MATCH_EXISTS) eqn:E1; [|destruct (mode === MATCH_CONTAINS) eqn:E2].
  - apply jeqb_true in E1 as ->. apply jeqb_true in H as ->.
    destruct s; [by apply parse_param_exists|by apply parse_header_exists].
  - apply jeqb_true in E2 as ->. apply andb_true_iff in H as [->%bool_decide_eq_true (Hu & _)%contains_value].
    by apply parse_header_has.
  - apply andb_true_iff in H as [->%jeqb_true (Ht & [Hne _] & Hu & Htr)%value_literal].
    apply parse_equation; [done..|]. by apply text_char_line.
Qed.

Lemma lead_parse c :
  good_row c = true → ∃ p ps, row_parts c = p :: ps ∧ tryParseTimeCondition p = lead c.
Proof.
  destruct c as [t|c]; cbn [good_row row_parts lead]; [|intros H; eexists _, []; split; [done|apply ph_time_none]].
  intros (Hq & _ & _ & Hk)%good_time_kind. destruct Hk as [f tz a b Ha Hb|f tz op v Hop Hv];
    unfold time_row_text; cbn [timeFunc timezone t_mode t_value rangeStart rangeEnd] in *.
  - change (MATCH_RANGE === MATCH_RANGE) with true. cbv iota. cbn [andb].
    destruct (in_range_word _ _ Ha) as [Hwa _], (in_range_word _ _ Hb) as [Hwb _].
    destruct (overnight _); cbn [negb]; eexists _, _; (split; [done|]).
    + apply try_paren; [done..|in_list|done|done].
    + apply try_scalar; [done|in_list|done|done].
  - destruct (op_mode op Hop) as [-> ->]. eexists _, []. split; [done|].
    apply try_scalar; [done..| |done]. by eapply in_range_word.
Qed.

(** ** The rows of a group *)

(** A row [>=] followed by a row [<] of the same function and time zone, which
    read as one range. *)
Definition merges (c c' : RequestCondition) : bool :=
  match c, c' with
  | CTime t, CTime t' =>
      (t_mode t === MATCH_GTE) && (t_mode t' === MATCH_LT)
      && bool_decide (timeFunc t = timeFunc t') && (timezone t === timezone t')
  | _, _ => false
  end.
Fixpoint no_merge (cs : list RequestCondition) : bool :=
  match cs with
  | c :: (c' :: _) as rest => negb (merges c c') && no_merge rest
  | _ => true
  end.

(** A range within a day. *)
Definition daytime (c : RequestCondition) : bool :=
  match c with CTime t => (t_mode t === MATCH_RANGE) && negb (overnight t) | CParamHeader _ => false end.

Lemma daytime_parts t :
  good_time t = true → daytime (CTime t) = true →
  ∃ g l, row_parts (CTime t) = [g; l] ∧ tryParseTimeRangePair g l = Some (CTime t) ∧
    time_row_text t = g ++ js " && " ++ l.
Proof.
  intros (Hq & _ & _ & Hk)%good_time_kind. destruct Hk as [f tz a b Ha Hb|f tz op v Hop Hv];
    unfold time_row_text; cbn [row_parts daytime timeFunc timezone t_mode t_value rangeStart rangeEnd] in *.
  - change (MATCH_RANGE === MATCH_RANGE) with true. cbn [andb].
    intros Hd%negb_true_iff. rewrite Hd. cbv iota. eexists _, _. split_and!; [done| |done].
    destruct (in_range_word _ _ Ha) as [Hwa _], (in_range_word _ _ Hb) as [Hwb _].
    unfold tryParseTimeRangePair. rewrite (try_scalar f tz (js ">=") a); [|done|in_list|done|done].
    cbn [mbind option_bind]. rewrite (try_scalar f tz (js "<") b); [|done|in_list|done|done].
    cbn [mbind option_bind timeFunc timezone t_mode t_value]. rewrite bool_decide_true, jeqb_refl by done. done.
  - destruct (op_mode op Hop) as [_ ->]. done.
Qed.

Lemma single_parts c :
  good_row c = true → daytime c = false →
  ∃ p, row_parts c = [p] ∧ tryParseRequestCondition p = Some (Some c) ∧
    tryParseTimeCondition p = match c with CTime t => Some t | CParamHeader _ => None end.
Proof.
  intros Hg Hd. destruct (lead_parse c Hg) as (p & ps & Hp & Hl). exists p.
  destruct c as [t|c]; cbn [lead daytime row_parts good_row] in *.
  - rewrite Hd in Hl. split_and!; [|by unfold tryParseRequestCondition; rewrite Hl|done].
    rewrite Hp. destruct (t_mode t === MATCH_RANGE); [|by simplify_eq/=].
    destruct (overnight t); by simplify_eq/=.
  - apply (inj2 cons) in Hp as [Hp Hps]. subst p. split_and!; [done|by apply ph_parse|done].
Qed.

Lemma pair_none c c' p p' :
  tryParseTimeCondition p = match c with CTime t => Some t | CParamHeader _ => None end →
  tryParseTimeCondition p' = lead c' → merges c c' = false → tryParseTimeRangePair p p' = None.
Proof.
  intros Hp Hp' Hm. unfold tryParseTimeRangePair. rewrite Hp, Hp'.
  destruct c as [t|]; [|done]. destruct c' as [t'|]; [|done]. cbn [lead mbind option_bind].
  unfold merges in Hm. destruct ((t_mode t' === MATCH_RANGE) && _) eqn:E; cbn [mbind option_bind].
  - cbn [timeFunc timezone t_mode]. change (MATCH_GTE === MATCH_LT) with false. cbn [negb].
    rewrite orb_true_r. by destruct (_ || _).
  - destruct (t_mode t === MATCH_GTE); cbn [negb orb andb] in *; [|by destruct (_ || _)].
    destruct (t_mode t' === MATCH_LT); cbn [negb orb andb] in *; [|by destruct (_ || _)].
    destruct (bool_decide _); cbn [negb orb andb] in *; [|done]. by rewrite Hm.
Qed.

Lemma parse_rows cs :
  Forall (λ c, good_row c = true) cs → no_merge cs = true →
  parse_parts (concat (map row_parts cs)) = Some (Some cs).
Proof.
  induction cs as [|c cs IH]; [done|]. intros [Hc Hcs]%list.Forall_cons Hm.
  assert (no_merge cs = true) as Hms.
  { destruct cs; [done|]. by apply andb_true_iff in Hm as [_ Hm]. }
  specialize (IH Hcs Hms). cbn [map concat]. pose proof (row_fine c Hc) as Hf.
  destruct (daytime c) eqn:Hd.
  - destruct c as [t|]; [|done]. destruct (daytime_parts t Hc Hd) as (g & l & Hp & Hpair & _).
    rewrite Hp in *. apply list.Forall_cons in Hf as [(Hg & _) [(Hl & Hlne & _) _]%list.Forall_cons].
    cbn [app parse_parts]. rewrite !trim_tight, (proj2 (truthy_true l)), Hpair by done.
    by rewrite IH.
  - destruct (single_parts c Hc Hd) as (p & Hp & Hone & Htime). rewrite Hp in *.
    apply list.Forall_cons in Hf as [(Ht & _) _]. cbn [app].
    destruct cs as [|c' cs].
    { cbn [map concat parse_parts]. rewrite trim_tight by done. by rewrite Hone. }
    apply list.Forall_cons in Hcs as [Hc' _]. destruct (lead_parse c' Hc') as (p' & ps & Hp' & Hlead).
    pose proof (row_fine c' Hc') as Hf'. cbn [map concat] in *. rewrite Hp' in *. cbn [app] in *.
    apply list.Forall_cons in Hf' as [(Ht' & Hne' & _) _].
    apply andb_true_iff in Hm as [Hm%negb_true_iff _].
    cbn [parse_parts] in *. rewrite !(trim_tight p), !(trim_tight p') in * by done.
    rewrite (proj2 (truthy_true p')), (pair_none c c' p p'), Hone by done.
    cbn [mbind option_bind]. by rewrite IH.
Qed.

(** ** Splitting joined texts *)

Lemma split_top_skip sep v d cur r : split_top sep (length v) d cur (v ++ r) = split_top sep 0 d cur r.
Proof. induction v as [|c v IH]; [done|]. cbn [length app split_top]. apply IH. Qed.

Lemma split_top_sep sep cur r :
  split_top (32%N :: sep) 0 0 cur (32%N :: sep ++ r) = trim cur :: split_top (32%N :: sep) 0 0 [] r.
Proof.
  cbn [split_top]. change (paren_depth 32 0) with 0. cbn [Z.eqb andb].
  change (32%N :: sep ++ r) with ((32%N :: sep) ++ r). rewrite startsWith_app. f_equal.
  cbn [length]. rewrite Nat.sub_succ, Nat.sub_0_r. apply split_top_skip.
Qed.

Lemma split_top_joined sep ts :
  ts ≠ [] → Forall (passed_top (32%N :: sep) 0) ts → Forall tight ts →
  split_top (32%N :: sep) 0 0 [] (join (32%N :: sep) ts) = ts.
Proof.
  intros Hne Hp Ht. induction Hp as [|t ts Hpt _ IH]; [done|]. apply list.Forall_cons in Ht as [Htt Ht].
  destruct ts as [|t' ts].
  - cbn [join]. rewrite <-(app_nil_r t), Hpt. cbn [split_top app]. by rewrite trim_tight, app_nil_r.
  - rewrite join_cons, Hpt by done. cbn [app]. rewrite split_top_sep, trim_tight by done. f_equal. by apply IH.
Qed.

Lemma split_and ts : ts ≠ [] → Forall fine ts → splitTopLevelAnd (join (js " && ") ts) = ts.
Proof.
  intros Hne Hf. unfold splitTopLevelAnd. change (js " && ") with (32%N :: js "&& ").
  rewrite split_top_joined; [|done|by eapply list.Forall_impl; [exact Hf|intros w (_ & _ & ? & _)]
    |by eapply list.Forall_impl; [exact Hf|intros w (? & _)]].
  apply filter_nonempty. eapply list.Forall_impl; [exact Hf|]. by intros w (_ & ? & _).
Qed.

Lemma joined_tight sep ts : ts ≠ [] → Forall fine ts → tight (join sep ts).
Proof.
  intros Hne Hf. induction Hf as [|t ts (Ht & Htne & _) Hf IH]; [done|].
  destruct ts as [|t' ts]; [done|]. rewrite join_cons by done. destruct IH as [_ Hend]; [done|].
  assert (join sep (t' :: ts) ≠ []) as Hj.
  { apply list.Forall_cons in Hf as [(_ & Ht' & _) _]. destruct ts; [done|].
    rewrite join_cons by done. by destruct t'. }
  destruct t as [|c t]; [done|]. cbn [app]. apply tight_solid; [by apply (proj1 Ht c t eq_refl)|].
  apply (ends_solid_app (c :: t)), ends_solid_app. by split.
Qed.

Lemma rows_fine cs : Forall (λ c, good_row c = true) cs → Forall fine (concat (map row_parts cs)).
Proof.
  induction 1 as [|c cs Hc _ IH]; [constructor|]. cbn [map concat]. apply Forall_app_2; [by apply row_fine|done].
Qed.

Lemma row_parts_nonempty c : row_parts c ≠ [].
Proof. destruct c as [t|]; [|done]. cbn [row_parts]. destruct (_ === _); [|done]. by destruct (overnight t). Qed.

Lemma join_app sep (v w : list jstr) : v ≠ [] → w ≠ [] → join sep (v ++ w) = join sep v ++ sep ++ join sep w.
Proof.
  intros Hv Hw. induction v as [|x v IH]; [done|]. destruct v as [|y v].
  - cbn [app]. by rewrite join_cons.
  - change ((x :: y :: v) ++ w) with (x :: (y :: v) ++ w).
    rewrite !join_cons by (by destruct w). rewrite IH by done. by rewrite <-!app_assoc.
Qed.

Lemma join_joined sep (pss : list (list jstr)) :
  Forall (λ ps, ps ≠ []) pss → join sep (map (join sep) pss) = join sep (concat pss).
Proof.
  induction 1 as [|ps pss Hps Hpss IH]; [done|]. cbn [map concat]. destruct pss as [|ps' pss].
  - cbn [map join concat]. by rewrite app_nil_r.
  - rewrite join_cons by done. rewrite IH, join_app; [done|done|].
    apply list.Forall_cons in Hpss as [? _]. cbn [concat]. by destruct ps'.
Qed.

(** ** One group *)

Definition rows_text (cs : list RequestCondition) : jstr :=
  match cs with
  | [c] => row_text c
  | _ => join (js " && ") (concat (map row_parts cs))
  end.

(** The only way two texts of rows read as one range. *)
Lemma scalar_then_rows f tz m c' cs :
  quotable tz → no_paren_in tz → num_word m → Forall (λ c, good_row c = true) (c' :: cs) →
  join (js " && ") (concat (map row_parts (c' :: cs))) = scalar_text f tz (js "<") m →
  ∃ t, c' = CTime t ∧ t_mode t = MATCH_LT ∧ timeFunc t = f ∧ timezone t = tz.
Proof.
  intros Hq Hn Hm Hg Heq. pose proof (rows_fine _ Hg) as Hf.
  assert (concat (map row_parts (c' :: cs)) = [scalar_text f tz (js "<") m]) as Hparts.
  { rewrite <-(split_and (concat _)); [|intros H; by rewrite H in Heq; destruct f|done]. rewrite Heq.
    change (scalar_text f tz (js "<") m) with (join (js " && ") [scalar_text f tz (js "<") m]).
    apply split_and; [done|]. constructor; [|constructor]. apply scalar_fine; [done|in_list|done]. }
  apply list.Forall_cons in Hg as [Hc' _]. destruct (lead_parse c' Hc') as (p & ps & Hp & Hl).
  cbn [map concat] in Hparts. rewrite Hp in Hparts. cbn [app] in Hparts. apply (inj2 cons) in Hparts as [-> _].
  rewrite try_scalar_if in Hl; [|done|in_list|done].
  destruct c' as [t|c]; cbn [lead] in Hl.
  - exists t. split; [done|]. destruct (isTimeValueInRange f m), ((t_mode t === MATCH_RANGE) && _); try done.
    apply (inj Some) in Hl. by subst t.
  - cbn [row_parts] in Hp. apply (inj2 cons) in Hp as [Hp _]. pose proof (ph_not_time c []) as H.
    rewrite app_nil_r, Hp in H. unfold scalar_text, time_text, call_text in H. rewrite <-!app_assoc in H.
    apply andb_true_iff in H as [H _]. rewrite forallb_forall in H. specialize (H f).
    rewrite startsWith_app in H. destruct f; (discriminate H; simpl; tauto).
Qed.

Lemma many_rows_no_time c c' cs :
  Forall (λ c, good_row c = true) (c :: c' :: cs) → no_merge (c :: c' :: cs) = true →
  tryParseTimeCondition (join (js " && ") (concat (map row_parts (c :: c' :: cs)))) = None.
Proof.
  intros [Hc Hcs]%list.Forall_cons [Hm%negb_true_iff _]%andb_true_iff.
  change (concat (map row_parts (c :: c' :: cs))) with (row_parts c ++ concat (map row_parts (c' :: cs))).
  rewrite join_app; [|apply row_parts_nonempty|].
  2:{ cbn [map concat]. pose proof (row_parts_nonempty c'). by destruct (row_parts c'). }
  destruct c as [t|c]; cbn [row_parts good_row] in *; [|by apply not_time_none, ph_not_time].
  destruct (good_time_kind t Hc) as (Hq & Hn & _ & Hk).
  remember (join (js " && ") (concat (map row_parts (c' :: cs)))) as R eqn:HR.
  destruct Hk as [f tz a b Ha Hb|f tz op v Hop Hv];
    unfold time_row_text; cbn [timeFunc timezone t_mode t_value rangeStart rangeEnd] in *.
  - change (MATCH_RANGE === MATCH_RANGE) with true. cbv iota.
    destruct (in_range_word _ _ Ha) as [Hwa _], (in_range_word _ _ Hb) as [Hwb _].
    destruct (overnight _); cbn [join].
    + rewrite <-!app_assoc. apply paren_more_none; [done..|in_list|by apply stops_cons|].
      change (js ")" ++ js " && " ++ R) with (41%N :: js " && " ++ R). done.
    + apply (range_more_none f tz a (js "&&") b); [done..|in_list|by apply stops_cons|done].
  - destruct (op_mode op Hop) as [-> ->]. destruct (in_range_word _ _ Hv) as [Hwv _]. cbn [join].
    apply scalar_more_none; [done..|by apply stops_cons|done|].
    intros o m -> Ho Hwm Heq. cbn [map] in Ho. rewrite !elem_of_cons, elem_of_nil in Ho.
    destruct Ho as [->|[->|[]]]; [|done]. apply (app_inv_head (js " && ")) in Heq. subst R.
    destruct (scalar_then_rows f tz m c' cs Hq Hn Hwm Hcs Heq) as (t' & -> & Hmode & Hf & Htz).
    unfold merges in Hm. cbn [t_mode timeFunc timezone] in Hm. rewrite Hmode, Hf, Htz in Hm.
    by rewrite bool_decide_true, !jeqb_refl in Hm.
Qed.

Lemma single_row_time t : good_time t = true → tryParseTimeCondition (time_row_text t) = Some t.
Proof.
  intros (Hq & _ & _ & Hk)%good_time_kind. destruct Hk as [f tz a b Ha Hb|f tz op v Hop Hv];
    unfold time_row_text; cbn [timeFunc timezone t_mode t_value rangeStart rangeEnd] in *.
  - change (MATCH_RANGE === MATCH_RANGE) with true. cbv iota.
    destruct (in_range_word _ _ Ha) as [Hwa _], (in_range_word _ _ Hb) as [Hwb _].
    apply try_range; [done..| |done|done]. destruct (overnight _); in_list.
  - destruct (op_mode op Hop) as [-> ->]. apply try_scalar; [done..| |done]. by eapply in_range_word.
Qed.

Lemma row_text_fine c :
  good_row c = true → row_text c ≠ [] ∧ tight (row_text c) ∧ passed_top (js " * ") 1 (row_text c).
Proof.
  destruct c as [t|c]; cbn [good_row row_text]; [|by intros [(? & ? & _ & ?) _]%ph_fine].
  intros (_ & Hn & _ & Hk)%good_time_kind. destruct Hk as [f tz a b Ha Hb|f tz op v Hop Hv];
    unfold time_row_text; cbn [timeFunc timezone t_mode t_value rangeStart rangeEnd] in *.
  - change (MATCH_RANGE === MATCH_RANGE) with true. cbv iota.
    apply in_range_word in Ha as [Ha _], Hb as [Hb _]. split_and!.
    + unfold range_text. rewrite scalar_head. by destruct f.
    + unfold range_text. rewrite scalar_head, <-!app_assoc. apply lower_tight; [apply timeFunc_lower|].
      do 10 apply ends_solid_app. rewrite scalar_head. by apply ends_solid_app, ends_solid_app, word_solid.
    + apply (passed_range 42 (js " ")); [in_list|done..|]. destruct (overnight _); in_list.
  - destruct (op_mode op Hop) as [-> ->]. apply in_range_word in Hv as [Hv _].
    by destruct (scalar_fine f tz op v Hn Hop Hv) as (? & ? & _ & ?).
Qed.

Lemma rows_text_eq cs :
  Forall (λ c, good_row c = true) cs →
  match filter_truthy (map buildRequestConditionExpr cs) with
  | [e] => e
  | es => join (js " && ") (map wrap_or es)
  end = rows_text cs.
Proof.
  intros Hg.
  assert (map buildRequestConditionExpr cs = map row_text cs) as ->.
  { apply map_ext_in. intros c Hc%list_elem_of_In. rewrite list.Forall_forall in Hg. by apply build_row, Hg. }
  rewrite filter_nonempty.
  2:{ apply Forall_map. eapply list.Forall_impl; [exact Hg|]. by intros c [? _]%row_text_fine. }
  assert (map wrap_or (map row_text cs) = map (join (js " && ")) (map row_parts cs)) as Hw.
  { rewrite !map_map. apply map_ext_in. intros c Hc%list_elem_of_In.
    rewrite list.Forall_forall in Hg. by apply row_wrap, Hg. }
  destruct cs as [|c [|c' cs]]; [done|done|].
  cbn [map] in Hw |- *. rewrite Hw. unfold rows_text.
  apply (join_joined (js " && ") (map row_parts (c :: c' :: cs))).
  apply Forall_map, list.Forall_forall. intros x _. apply row_parts_nonempty.
Qed.

Lemma rows_text_fine cs :
  cs ≠ [] → Forall (λ c, good_row c = true) cs → rows_text cs ≠ [] ∧ passed_top (js " * ") 1 (rows_text cs).
Proof.
  intros Hne Hg. destruct cs as [|c [|c' cs]]; [done| |].
  - apply list.Forall_cons in Hg as [Hc _]. by destruct (row_text_fine c Hc) as (? & _ & ?).
  - pose proof (rows_fine _ Hg) as Hf. unfold rows_text. split.
    + destruct (row_parts c) as [|p ps] eqn:E; [by apply row_parts_nonempty in E|].
      cbn [map concat] in *. rewrite E in *. cbn [app] in *.
      apply list.Forall_cons in Hf as [(_ & Hp & _) _]. intros H. apply Hp.
      destruct (ps ++ _); cbn [join] in H; [done|]. by destruct p.
    + apply (join_closed (passed_top (js " * ") 1)).
      * apply passed_top_nil.
      * intros v w. apply passed_top_app.
      * apply passed_top_deep; [done|in_list|in_list].
      * eapply list.Forall_impl; [exact Hf|]. by intros w (_ & _ & _ & ?).
Qed.

Lemma rows_parse cs :
  cs ≠ [] → Forall (λ c, good_row c = true) cs → no_merge cs = true →
  tryParseRequestConditions (rows_text cs) = Some (Some cs).
Proof.
  intros Hne Hg Hm. unfold tryParseRequestConditions.
  pose proof (rows_fine _ Hg) as Hf. pose proof (parse_rows cs Hg Hm) as Hp.
  destruct cs as [|c [|c' cs]]; [done| |].
  - apply list.Forall_cons in Hg as [Hc _]. cbn [rows_text].
    destruct (row_text_fine c Hc) as (_ & Ht & _). rewrite (trim_tight _ Ht).
    destruct c as [t|c]; cbn [row_text good_row] in *; [by rewrite single_row_time|].
    rewrite ph_time_none. cbn [map concat row_parts] in Hp, Hf. rewrite app_nil_r in Hp, Hf.
    change (ph_row_text c) with (join (js " && ") [ph_row_text c]). rewrite split_and by done. by rewrite Hp.
  - assert (concat (map row_parts (c :: c' :: cs)) ≠ []) as Hcne.
    { cbn [map concat]. pose proof (row_parts_nonempty c). by destruct (row_parts c). }
    assert (tryParseTimeCondition (trim (rows_text (c :: c' :: cs))) = None) as ->.
    { rewrite trim_tight; [by apply many_rows_no_time|].
      unfold rows_text. by apply joined_tight. }
    unfold rows_text. rewrite split_and by done. by rewrite Hp.
Qed.

(** ** Factors *)

Definition factor_text (cond mult : jstr) : jstr :=
  js "(" ++ cond ++ js " ? " ++ mult ++ js " : 1)".

Lemma tail_unique x a b n n' :
  num_char x = false → Forall (λ c, num_char c = true) n → Forall (λ c, num_char c = true) n' →
  a ++ x :: n = b ++ x :: n' → a = b ∧ n = n'.
Proof.
  intros Hx Hn Hn' Heq. apply (f_equal reverse) in Heq. rewrite !reverse_app, !reverse_cons, <-!app_assoc in Heq.
  apply (span_unique num_char) in Heq as [Hr Heq]; [|by apply Forall_reverse..|by apply stops_cons|by apply stops_cons].
  apply (inj reverse) in Hr. cbn [app] in Heq. injection Heq as Heq. apply (inj reverse) in Heq. done.
Qed.

Lemma factor_match cond mult :
  cond ≠ [] → num_word mult → match_whole factor_re (factor_text cond mult) = Some [(2%nat, mult); (1%nat, cond)].
Proof.
  intros Hc [Hm Hne]. apply match_whole_unique; [done| |].
  - unfold factor_re, factor_text. cbn [cats foldr]. rewrite den_cat_str.
    eexists cond, _, [(1%nat, cond)]. split_and!; [done| |].
    { exists []. split; [|done]. apply den_plus_chr. split_and!; [done|by apply list.Forall_forall|done]. }
    rewrite den_cat_str. unfold num_text.
    rewrite den_cat_span; [|done|done|by apply stops_cons|by apply no_start_str].
    rewrite <-(app_nil_r (js " : 1)")), den_cat_str. done.
  - intros c. unfold factor_re, factor_text. cbn [cats foldr]. rewrite den_cat_str.
    intros (w & w1 & c1 & Heq & (c2 & (_ & _ & ->)%den_plus_chr & ->) & w2 & w3 & c3 & -> & [-> ->]
      & n & w4 & c4 & -> & (c5 & (_ & Hn & ->)%den_plus_chr & ->) & w5 & w6 & c6 & -> & [-> ->] & [-> ->]).
    rewrite app_nil_r, !app_assoc in Heq. apply app_inv_tail in Heq.
    change (js " ? ") with (js " ?" ++ [32%N]) in Heq. rewrite !(app_assoc _ (js " ?")), <-!(app_assoc _ [32%N]) in Heq.
    cbn [app] in Heq. apply tail_unique in Heq as [Heq <-]; [|done..]. by apply app_inv_tail in Heq as <-.
Qed.

(** A complete group of the editor. *)
Definition good_group (g : RequestRuleGroup) : bool :=
  is_numeric (multiplier g) && bool_decide (conditions g ≠ []) && forallb good_row (conditions g)
  && no_merge (conditions g) && bool_decide (conditionText g = None) && bool_decide (matched g = None).

Definition group_text (g : RequestRuleGroup) : jstr := factor_text (rows_text (conditions g)) (multiplier g).

Lemma good_group_spec g :
  good_group g = true →
  num_word (multiplier g) ∧ is_numeric (multiplier g) = true ∧ conditions g ≠ [] ∧
  Forall (λ c, good_row c = true) (conditions g) ∧ no_merge (conditions g) = true ∧
  g = mkGroup (conditions g) (multiplier g) None None.
Proof.
  destruct g as [cs m ct mt]. unfold good_group. cbn [conditions multiplier conditionText matched].
  rewrite !andb_true_iff, !bool_decide_eq_true. intros [[[[[Hn Hne] Hg] Hm] ->] ->].
  split_and!; try done; [by apply is_numeric_chars..|].
  rewrite forallb_forall in Hg. apply list.Forall_forall. intros c Hc. by apply Hg, list_elem_of_In.
Qed.

Lemma build_group g : good_group g = true → buildRuleGroupFactor g = group_text g.
Proof.
  intros (Hw & Hn & Hne & Hg & _)%good_group_spec. unfold buildRuleGroupFactor, group_text.
  assert (trim (multiplier g) = multiplier g) as ->.
  { apply trim_no_ws. eapply list.Forall_impl; [apply Hw|]. apply num_char_not_ws. }
  rewrite Hn. cbn [negb]. rewrite <-(rows_text_eq _ Hg).
  destruct (filter_truthy (map buildRequestConditionExpr (conditions g))) as [|e [|e' es]] eqn:E; [|done|done].
  exfalso. pose proof (rows_text_eq _ Hg) as H. rewrite E in H.
  by destruct (rows_text_fine _ Hne Hg) as [[] _].
Qed.

Lemma parse_group g : good_group g = true → tryParseRuleGroupFactor (group_text g) = Some (Some g).
Proof.
  intros (Hw & _ & Hne & Hg & Hm & Heq)%good_group_spec. unfold tryParseRuleGroupFactor, group_text.
  rewrite factor_match; [|by apply rows_text_fine|done].
  change (cap 1 _) with (rows_text (conditions g)). change (cap 2 _) with (multiplier g).
  rewrite rows_parse by done. cbn [mbind option_bind]. by rewrite <-Heq.
Qed.

Lemma group_passed g : good_group g = true → passed_top (js " * ") 0 (group_text g) ∧ tight (group_text g).
Proof.
  intros (Hw & _ & Hne & Hg & _)%good_group_spec. unfold group_text, factor_text. split.
  - change (js " : 1)") with (js " : 1" ++ js ")"). rewrite !(app_assoc _ _ (js ")")).
    apply passed_top_parens; [done..|]. apply passed_top_app; [by apply rows_text_fine|].
    apply passed_top_deep; [done|..]; rewrite !not_elem_of_app; split_and!;
      try in_list; (eapply class_absent; [apply Hw|done]).
  - change (js " : 1)") with (js " : 1" ++ [41%N]). rewrite !app_assoc. by apply (tight_ends 40).
Qed.

Lemma rules_text gs :
  Forall (λ g, good_group g = true) gs → buildRequestRuleExpr gs = join (js " * ") (map group_text gs).
Proof.
  intros Hg. unfold buildRequestRuleExpr.
  assert (map buildRuleGroupFactor gs = map group_text gs) as ->.
  { apply map_ext_in. intros g Hin%list_elem_of_In. rewrite list.Forall_forall in Hg. by apply build_group, Hg. }
  rewrite filter_nonempty; [done|]. by apply Forall_map, list.Forall_forall.
Qed.

Lemma split_rules gs :
  gs ≠ [] → Forall (λ g, good_group g = true) gs →
  splitTopLevelMultiply (join (js " * ") (map group_text gs)) = map group_text gs.
Proof.
  intros Hne Hg. unfold splitTopLevelMultiply. change (js " * ") with (32%N :: js "* ").
  rewrite split_top_joined; [apply filter_nonempty; by apply Forall_map, list.Forall_forall|by destruct gs|..];
    apply Forall_map; (eapply list.Forall_impl; [exact Hg|]); by intros g [? ?]%group_passed.
Qed.

Lemma parse_groups gs :
  Forall (λ g, good_group g = true) gs → parse_factors (map group_text gs) = Some (Some gs).
Proof.
  induction 1 as [|g gs Hg _ IH]; [done|]. cbn [map parse_factors]. rewrite parse_group by done.
  cbn [mbind option_bind]. by rewrite IH.
Qed.

Lemma rules_tight gs :
  gs ≠ [] → Forall (λ g, good_group g = true) gs →
  tight (join (js " * ") (map group_text gs)) ∧ join (js " * ") (map group_text gs) ≠ [].
Proof.
  intros Hne Hg. destruct gs as [|g gs]; [done|]. clear Hne. revert g Hg.
  induction gs as [|g' gs IH]; intros g [Hg Hgs]%list.Forall_cons.
  - split; [by apply group_passed|done].
  - destruct (IH g' Hgs) as [[_ Hr] Hne]. cbn [map]. rewrite join_cons by done. split; [|done].
    change (group_text g) with (40%N :: rows_text (conditions g) ++ js " ? " ++ multiplier g ++ js " : 1)").
    cbn [app]. apply tight_solid; [done|]. rewrite app_comm_cons. apply ends_solid_app, ends_solid_app. done.
Qed.

Lemma good_groups gs : forallb good_group gs = true → Forall (λ g, good_group g = true) gs.
Proof. rewrite forallb_forall, list.Forall_forall. intros H g Hg. by apply H, list_elem_of_In. Qed.

(** ** Round trips *)

Lemma rules_read_back gs :
  forallb good_group gs = true → tryParseRequestRuleExpr (buildRequestRuleExpr gs) = Some (Some gs).
Proof.
  intros Hg%good_groups. rewrite rules_text by done. unfold tryParseRequestRuleExpr.
  destruct gs as [|g gs]; [done|]. destruct (rules_tight (g :: gs)) as [Ht Hne]; [done..|].
  rewrite trim_tight, (proj2 (truthy_true _) Hne) by done. cbn [negb].
  rewrite split_rules by done. by apply parse_groups.
Qed.


(** *** The base price and the rules *)

Lemma passed_outer sep s d cur t :
  d ≠ 0 → outer_parens d s = true →
  split_top (32%N :: sep) 0 d cur (s ++ t) = split_top (32%N :: sep) 0 0 (cur ++ s) t.
Proof.
  revert d cur. induction s as [|c s IH]; intros d cur Hd Ho; cbn [outer_parens] in Ho; [lia|].
  cbn [app split_top]. destruct (Z.eqb_spec (paren_depth c d) 0) as [E|E]; cbn [andb] in *.
  - destruct s as [|c' s]; [|done]. rewrite E. assert (c ≠ 32%N) as Hc by (by intros ->; apply Hd).
    assert (startsWith (c :: [] ++ t) (32%N :: sep) = false) as ->; [|done].
    apply not_true_iff_false. intros [k Hk]%startsWith_true. cbn [app] in Hk. by injection Hk.
  - rewrite IH, <-app_assoc by done. done.
Qed.

Lemma passed_full sep s : hasFullOuterParens s = true → passed_top (32%N :: sep) 0 s.
Proof.
  intros [[Hs _]%andb_true_iff Ho]%andb_true_iff cur t. apply startsWith_true in Hs as [k ->].
  change (js "(" ++ k) with (40%N :: k) in *. cbn [outer_parens] in Ho. change (paren_depth 40 0) with 1 in Ho.
  cbn [Z.eqb andb] in Ho. cbn [app split_top]. change (paren_depth 40 0) with 1. cbn [Z.eqb andb].
  by rewrite passed_outer, <-app_assoc.
Qed.

Lemma unwrap_step s :
  hasFullOuterParens s = true → (length (trim (slice s 1 (length s - 1))) < length s)%nat.
Proof.
  intros [[Hs _]%andb_true_iff _]%andb_true_iff. apply startsWith_true in Hs as [k ->].
  eapply Nat.le_lt_trans; [apply trim_length|]. unfold slice. rewrite length_take, length_drop. simpl. lia.
Qed.

Lemma unwrap_fuel f f' s : (length s ≤ f)%nat → (length s ≤ f')%nat → unwrap f s = unwrap f' s.
Proof.
  revert f' s. induction f as [|f IH]; intros f' s Hf Hf'.
  - destruct s; [|simpl in Hf; lia]. by destruct f'.
  - cbn [unwrap]. destruct (hasFullOuterParens s) eqn:E.
    + pose proof (unwrap_step s E). destruct f' as [|f']; [lia|]. cbn [unwrap]. rewrite E. apply IH; lia.
    + destruct f' as [|f']; [done|]. cbn [unwrap]. by rewrite E.
Qed.

Lemma unwrap_parens b :
  hasFullOuterParens (js "(" ++ trim b ++ js ")") = true →
  unwrapOuterParens (js "(" ++ trim b ++ js ")") = unwrapOuterParens b.
Proof.
  intros H. unfold unwrapOuterParens.
  rewrite (trim_tight (js "(" ++ trim b ++ js ")")) by by apply (tight_ends 40).
  change (length (js "(" ++ trim b ++ js ")")) with (S (length (trim b ++ js ")"))). cbn [unwrap]. rewrite H.
  assert (slice (js "(" ++ trim b ++ js ")") 1 (length (js "(" ++ trim b ++ js ")") - 1) = trim b) as ->.
  { unfold slice. change (js "(") with [40%N]. change (js ")") with [41%N]. cbn [app drop length].
    rewrite length_app. cbn [length].
    replace (S (length (trim b) + 1) - 1 - 1)%nat with (length (trim b)) by lia. apply take_app_length. }
  rewrite trim_idemp. apply unwrap_fuel; [rewrite length_app; lia|apply trim_length].
Qed.

Lemma rule_parts gs :
  Forall (λ g, good_group g = true) gs → partition_parts (map group_text gs) = Some (map group_text gs, []).
Proof.
  induction 1 as [|g gs Hg _ IH]; [done|]. cbn [map partition_parts].
  assert (is_rule_part (group_text g) = Some true) as ->.
  { unfold is_rule_part. pose proof (rules_read_back [g]) as H.
    rewrite rules_text in H by (by constructor; [|constructor]). cbn [map join forallb] in H.
    by rewrite H by (by rewrite Hg). }
  cbn [mbind option_bind]. by rewrite IH.
Qed.

(** A base price combined with the request rules of the editor is divided
    again into the base, without parentheses around it, and the same rules, for
    every base whose parentheses balance and that is not itself a rule. *)
Theorem combined_expression_splits base gs :
  trim base ≠ [] → hasFullOuterParens (js "(" ++ trim base ++ js ")") = true →
  is_rule_part (js "(" ++ trim base ++ js ")") = Some false →
  gs ≠ [] → forallb good_group gs = true →
  splitBillingExprAndRequestRules (combineBillingExpr base (buildRequestRuleExpr gs))
  = Some (unwrapOuterParens base, buildRequestRuleExpr gs).
Proof.
  intros Hb Hp Hnr Hne Hg%good_groups. rewrite (rules_text gs Hg).
  destruct (rules_tight gs Hne Hg) as [Ht Hrne].
  set (B := js "(" ++ trim base ++ js ")") in *. set (R := join (js " * ") (map group_text gs)) in *.
  assert (combineBillingExpr base R = join (js " * ") (B :: map group_text gs)) as ->.
  { unfold combineBillingExpr. rewrite (trim_tight R Ht), !(proj2 (truthy_true _)) by done. cbn [negb].
    rewrite join_cons by (by destruct gs). unfold B. by rewrite <-!app_assoc. }
  assert (tight (join (js " * ") (B :: map group_text gs))) as HT.
  { rewrite join_cons by (by destruct gs). fold R. apply (tight_solid 40); [done|].
    apply (ends_solid_app B), ends_solid_app. split; [done|apply Ht]. }
  unfold splitBillingExprAndRequestRules. rewrite (trim_tight _ HT).
  rewrite (proj2 (truthy_true _)) by (rewrite join_cons by (by destruct gs); done). cbn [negb].
  assert (splitTopLevelMultiply (join (js " * ") (B :: map group_text gs)) = B :: map group_text gs) as ->.
  { unfold splitTopLevelMultiply. change (js " * ") with (32%N :: js "* ").
    rewrite split_top_joined; [apply filter_nonempty; constructor; [done|]; by apply Forall_map, list.Forall_forall|done|..].
    - constructor; [by apply passed_full|]. apply Forall_map. eapply list.Forall_impl; [exact Hg|]. by intros g [? _]%group_passed.
    - constructor; [by apply (tight_ends 40)|]. apply Forall_map. eapply list.Forall_impl; [exact Hg|]. by intros g [_ ?]%group_passed. }
  destruct (map group_text gs) as [|r rs] eqn:E; [by destruct gs|]. rewrite <-E.
  cbn [partition_parts]. rewrite Hnr. cbn [mbind option_bind]. rewrite rule_parts by done. cbn [mbind option_bind].
  rewrite E. by rewrite <-(unwrap_parens base Hp).
Qed.

(** ** Rows that do not read back *)

Lemma equals_other t : startsWith t SOURCE_PARAM = false → startsWith t SOURCE_HEADER = false → match_whole equals_re t = None.
Proof.
  intros Hp Hh. apply match_whole_None; [done|]. intros c (w1 & w2 & c1 & -> & (c2 & [Hw ->]%den_alts & ->) & _); [|done].
  cbn [map] in Hw. rewrite !elem_of_cons, elem_of_nil in Hw.
  destruct Hw as [->|[->|[]]]; [by rewrite startsWith_app in Hp|by rewrite startsWith_app in Hh].
Qed.

Lemma param_has_alone p v : tryParseRequestCondition (has_text SOURCE_PARAM p v) = Some None.
Proof.
  unfold tryParseRequestCondition, parse_param_has, parse_compare, parse_equals. rewrite not_time_none by done.
  rewrite (match_whole_None header_exists_re), (match_whole_None param_exists_re), (match_whole_None header_has_re),
    (match_whole_None param_has_re), (match_whole_None param_compare_re); try done; try other_head.
  by rewrite equals_other.
Qed.

Lemma param_compare_alone p op n :
  quotable p → op ∈ map js [">"; ">="; "<"; "<="] →
  tryParseRequestCondition (call_text SOURCE_PARAM p ++ js " " ++ op ++ js " " ++ n) = Some None.
Proof.
  intros Hp Hop. set (t := js " " ++ op ++ js " " ++ n).
  assert (∀ w, w ∈ [js " != nil"; js " != nil && has(" ++ SOURCE_PARAM ++ jq "('";
      js " != nil && " ++ SOURCE_PARAM ++ jq "('"; js " == "] → startsWith t w = false) as Ht.
  { intros w Hw. cbn [map] in Hop. rewrite !elem_of_cons, elem_of_nil in Hop, Hw.
    destruct Hop as [->|[->|[->|[->|[]]]]], Hw as [->|[->|[->|[->|[]]]]]; done. }
  assert (∀ w r c, startsWith t w = false →
    ¬ den (Cat (Str (SOURCE_PARAM ++ jq "('")) (Cat (Cap 1 (Plus not_quote)) (Cat (Str (34%N :: 41%N :: w)) r)))
        [] (call_text SOURCE_PARAM p ++ t) c) as Htail.
  { intros w r c Hw. rewrite den_named by done. by apply den_cat_str_no. }
  unfold tryParseRequestCondition. rewrite not_time_none by exact (not_time_call param p t).
  rewrite (match_whole_None header_exists_re); [|done|other_head].
  rewrite (match_whole_None param_exists_re); [|done|intros c; by apply (Htail (js " != nil")), Ht; in_list].
  rewrite (match_whole_None header_has_re); [|done|other_head].
  unfold parse_param_has. rewrite (match_whole_None param_has_re); [|done|].
  2:{ intros c. by apply (Htail (js " != nil && has(" ++ SOURCE_PARAM ++ jq "('")), Ht; in_list. }
  unfold parse_compare. rewrite (match_whole_None param_compare_re); [|done|].
  2:{ intros c. by apply (Htail (js " != nil && " ++ SOURCE_PARAM ++ jq "('")), Ht; in_list. }
  unfold parse_equals. rewrite (match_whole_None equals_re); [done|done|]. intros c.
  unfold equals_re, call_text. cbn [cats foldr]. rewrite <-!app_assoc.
  rewrite (den_cat_alts 1 lower); [|done|by repeat constructor|in_list|by apply stops_cons|by apply no_start_str].
  change (jq "') == ") with (34%N :: 41%N :: js " == "). rewrite den_call by done.
  apply den_cat_str_no, Ht. in_list.
Qed.

(** A presence test of a parameter followed by a text that is no condition. *)
Lemma guarded_none p X mult :
  quotable p → no_paren_in p → fine X → tryParseRequestCondition X = Some None → num_word mult →
  tryParseRequestRuleExpr (factor_text ((call_text SOURCE_PARAM p ++ js " != nil") ++ js " && " ++ X) mult) = Some None.
Proof.
  intros Hq Hn HX Hno Hm. set (A := call_text SOURCE_PARAM p ++ js " != nil").
  assert (fine A) as HA.
  { split_and!.
    - unfold A, call_text. rewrite <-app_assoc. apply (lower_tight SOURCE_PARAM); [split; [in_list|done]|].
      apply ends_solid_app. by split; [|apply stops_cons].
    - done.
    - apply (passed_call_tail 38 (js "& ") ltac:(in_list) 0 param); [done..|split; in_list|intros _; in_list|done].
    - apply (passed_call_tail 42 (js " ") ltac:(in_list) 1 param); [done..|split; in_list|lia|done]. }
  assert (Forall fine [A; X]) as Hfs by (constructor; [done|]; constructor; [done|constructor]).
  assert (tryParseRequestConditions (A ++ js " && " ++ X) = Some None) as Hc.
  { unfold tryParseRequestConditions. change (A ++ js " && " ++ X) with (join (js " && ") [A; X]).
    rewrite (trim_tight (join _ _)) by by apply joined_tight.
    rewrite split_and by done.
    cbn [join]. unfold A at 1. rewrite <-app_assoc, not_time_none by exact (not_time_call param p _).
    cbn [parse_parts]. destruct HA as [HA _]. destruct HX as (HX & HXne & _).
    rewrite !(trim_tight A), (trim_tight X), (proj2 (truthy_true X)) by done.
    unfold tryParseTimeRangePair. rewrite (not_time_none A) by exact (not_time_call param p _).
    cbn [mbind option_bind]. unfold A. rewrite parse_param_exists by done. cbn [mbind option_bind]. by rewrite Hno. }
  assert (passed_top (js " * ") 0 (factor_text (A ++ js " && " ++ X) mult)) as Hpass.
  { unfold factor_text. change (js " : 1)") with (js " : 1" ++ js ")"). rewrite !(app_assoc _ _ (js ")")).
    apply passed_top_parens; [done..|]. destruct HA as (_ & _ & _ & HA), HX as (_ & _ & _ & HX).
    apply passed_top_app.
    - apply passed_top_app; [exact HA|]. apply passed_top_app; [|exact HX].
      apply passed_top_deep; [done|in_list|in_list].
    - apply passed_top_deep; [done|..]; rewrite !not_elem_of_app; split_and!;
        try in_list; (eapply class_absent; [apply Hm|done]). }
  assert (tight (factor_text (A ++ js " && " ++ X) mult)) as Ht.
  { unfold factor_text. change (js " : 1)") with (js " : 1" ++ [41%N]). rewrite !app_assoc. by apply (tight_ends 40). }
  unfold tryParseRequestRuleExpr. rewrite (trim_tight _ Ht), (proj2 (truthy_true _)) by done. cbn [negb].
  change (js " * ") with (32%N :: js "* ") in Hpass. unfold splitTopLevelMultiply.
  change (js " * ") with (32%N :: js "* ").
  pose proof (split_top_joined (js "* ") [factor_text (A ++ js " && " ++ X) mult]) as Hs. cbn [join] in Hs.
  rewrite Hs; [|done|by constructor; [|constructor]..].
  rewrite filter_nonempty by (by repeat constructor). cbn [parse_factors]. unfold tryParseRuleGroupFactor.
  rewrite factor_match by done. change (cap 1 _) with (A ++ js " && " ++ X). by rewrite Hc.
Qed.

(** The texts of such rows. *)
Lemma has_fine p v : no_paren_in p → good_value v = true → fine (has_text SOURCE_PARAM p v).
Proof.
  intros Hn (_ & Hq & _)%contains_value. split_and!.
  - unfold has_text. rewrite !app_assoc. by apply (tight_ends 104).
  - done.
  - by apply (passed_has 38 (js "& ") ltac:(in_list) 0 param).
  - by apply (passed_has 42 (js " ") ltac:(in_list) 1 param).
Qed.

Lemma compare_fine p op n :
  no_paren_in p → op ∈ map js [">"; ">="; "<"; "<="] → is_numeric n = true →
  fine (call_text SOURCE_PARAM p ++ js " " ++ op ++ js " " ++ n).
Proof.
  intros Hn Hop [Hc Hne]%is_numeric_chars.
  assert (Forall (λ x, op_char x = true) op) as Ho.
  { cbn [map] in Hop. rewrite !elem_of_cons, elem_of_nil in Hop. destruct Hop as [->|[->|[->|[->|[]]]]]; in_list. }
  assert (no_paren_in (js " " ++ op ++ js " " ++ n)) as Ht.
  { repeat apply no_paren_app; try (split; in_list); by eapply class_no_paren. }
  assert (ends_solid (js " " ++ op ++ js " " ++ n)) as He by (do 3 apply ends_solid_app; by apply word_solid).
  split_and!.
  - unfold call_text. rewrite <-!app_assoc. apply (lower_tight SOURCE_PARAM); [split; [in_list|done]|].
    do 3 apply ends_solid_app. done.
  - done.
  - apply (passed_call_tail 38 (js "& ") ltac:(in_list) 0 param); [done..| |by apply ends_solid_last].
    intros _. rewrite !not_elem_of_app. split_and!; [in_list|by eapply class_absent|in_list|by eapply class_absent].
  - apply (passed_call_tail 42 (js " ") ltac:(in_list) 1 param); [done..|lia|by apply ends_solid_last].
Qed.

Lemma build_param_has p v :
  truthy p = true → forallb path_char p = true → trim p = p → good_value v = true →
  buildParamHeaderExpr (mkParamHeader param p MATCH_CONTAINS v)
  = (call_text SOURCE_PARAM p ++ js " != nil") ++ js " && " ++ has_text SOURCE_PARAM p v.
Proof.
  intros Htp Hp Ht [Hv%jeqb_true _]%andb_true_iff. unfold buildParamHeaderExpr, normalizeParamHeader, partial_of.
  cbn [source path ph_mode ph_value p_path p_mode p_value default from_option id].
  change (default MATCH_EQ _) with MATCH_CONTAINS. rewrite Ht, Htp. cbn [negb].
  change (MATCH_CONTAINS === MATCH_EXISTS) with false. change (MATCH_CONTAINS === MATCH_CONTAINS) with true. cbv iota.
  unfold buildExprLiteral. change (MATCH_CONTAINS === MATCH_CONTAINS) with true. cbv iota.
  unfold has_text. rewrite Hv, <-(call_quote _ p Hp), <-!app_assoc. done.
Qed.

Lemma compare_row p mode v :
  truthy p = true → forallb path_char p = true → trim p = p →
  mode ∈ [MATCH_GT; MATCH_GTE; MATCH_LT; MATCH_LTE] → is_numeric v = true →
  ∃ op, op ∈ map js [">"; ">="; "<"; "<="] ∧
    buildParamHeaderExpr (mkParamHeader param p mode v)
    = (call_text SOURCE_PARAM p ++ js " != nil") ++ js " && " ++ call_text SOURCE_PARAM p ++ js " " ++ op ++ js " " ++ v.
Proof.
  intros Htp Hp Ht Hmode Hv. destruct (is_numeric_chars v Hv) as [Hc _].
  assert (trim v = v) as Hvt by (apply trim_no_ws; eapply list.Forall_impl; [exact Hc|apply num_char_not_ws]).
  assert (∃ op, compare_op mode = Some op ∧ op ∈ map js [">"; ">="; "<"; "<="] ∧
    default MATCH_EQ (has_mode (getRequestRuleMatchOptions SOURCE_PARAM) (Some mode)) = mode ∧
    (mode === MATCH_EXISTS) = false ∧ (mode === MATCH_CONTAINS) = false) as (op & Hop & Hin & Hd & E1 & E2).
  { rewrite !elem_of_cons, elem_of_nil in Hmode. destruct Hmode as [->|[->|[->|[->|[]]]]];
      (eexists; split_and!; [reflexivity|in_list|reflexivity|reflexivity|reflexivity]). }
  exists op. split; [done|]. unfold buildParamHeaderExpr, normalizeParamHeader, partial_of.
  cbn [source path ph_mode ph_value p_path p_mode p_value default from_option id source_text].
  change (default [] (Some p)) with p. rewrite Hd, Ht, Htp, E1, E2, Hop. cbn [negb].
  change (default [] (Some v)) with v. rewrite Hvt, Hv. cbn [negb].
  rewrite <-(call_quote _ p Hp), <-!app_assoc. done.
Qed.

(** The rows of the editor that compare a request parameter or look for a
    text in it do not read back, whatever their path and value: their text has a
    presence test in front, joined with [&&], and the reader divides at [&&]
    before it tries the two expressions for such rows. *)
Theorem guarded_parameter_rows_are_lost p mode v mult :
  truthy p && forallb path_char p && trimmed p = true →
  (mode = MATCH_CONTAINS ∧ good_value v = true) ∨
  (mode ∈ [MATCH_GT; MATCH_GTE; MATCH_LT; MATCH_LTE] ∧ is_numeric v = true) →
  is_numeric mult = true →
  tryParseRequestRuleExpr
    (buildRequestRuleExpr [mkGroup [CParamHeader (mkParamHeader param p mode v)] mult None None]) = Some None.
Proof.
  intros [[Htp Hp]%andb_true_iff Ht%jeqb_true]%andb_true_iff Hrow Hm.
  destruct (path_quotable p Htp Hp) as [Hq Hn]. destruct (is_numeric_chars mult Hm) as [Hmc Hmne].
  set (A := call_text SOURCE_PARAM p ++ js " != nil").
  assert (∃ X, buildParamHeaderExpr (mkParamHeader param p mode v) = A ++ js " && " ++ X ∧ fine X ∧
    tryParseRequestCondition X = Some None) as (X & HX & Hf & Hno).
  { destruct Hrow as [[-> Hv]|[Hmode Hv]].
    - exists (has_text SOURCE_PARAM p v). split_and!; [|by apply has_fine|apply param_has_alone].
      by apply build_param_has.
    - destruct (compare_row p mode v Htp Hp Ht Hmode Hv) as (op & Hop & Heq).
      eexists. split_and!; [exact Heq| |by apply param_compare_alone]. by apply compare_fine. }
  unfold buildRequestRuleExpr, buildRuleGroupFactor. cbn [map conditions multiplier buildRequestConditionExpr].
  rewrite (trim_no_ws mult) by (eapply list.Forall_impl; [exact Hmc|apply num_char_not_ws]).
  rewrite Hm, HX. cbn [negb]. rewrite (filter_nonempty [A ++ js " && " ++ X]) by (by constructor; [|constructor]).
  rewrite filter_nonempty by (by constructor; [|constructor]). cbn [join].
  by apply guarded_none.
Qed.

(** ** Examples *)

(** A literal with an escape that JSON does not have passes the expression for
    header rows and makes [JSON.parse] throw. *)
Example unknown_escape_throws :
  tryParseRequestRuleExpr (jq "(has(header('x'), '\q') ? 2 : 1)") = None.
Proof. vm_compute. reflexivity. Qed.

Definition demo_groups : list RequestRuleGroup :=
  [mkGroup [CTime (mkTime hour (js "Asia/Shanghai") MATCH_RANGE [] (js "22") (js "6"));
            CTime (mkTime weekday (js "UTC") MATCH_RANGE [] (js "1") (js "5"));
            CTime (mkTime hour (js "UTC") MATCH_GTE (js "9") [] []);
            CTime (mkTime hour (js "Asia/Tokyo") MATCH_LT (js "7") [] []);
            ph header (js "x-plan") MATCH_CONTAINS (jq "say 'hi' * 2");
            ph param (js "stream") MATCH_EQ (js "true")] (js "0.5") None None;
   mkGroup [CTime (mkTime minute (js "UTC") MATCH_RANGE [] (js "50") (js "5"))] (js "2") None None;
   mkGroup [ph param (js "tools.0") MATCH_EXISTS []; ph header (js "a") MATCH_EQ (js "b ? 2 : 1")] (js "1.5e1") None None].


Lemma combined_expression_splits_witness :
  splitBillingExprAndRequestRules
    (combineBillingExpr (jq " (tier('base', p * 2 + c * 8)) ") (buildRequestRuleExpr demo_groups))
  = Some (jq "tier('base', p * 2 + c * 8)", buildRequestRuleExpr demo_groups).
Proof.
  apply (combined_expression_splits (jq " (tier('base', p * 2 + c * 8)) ") demo_groups);
    vm_compute; first [reflexivity|discriminate].
Defined.

Lemma guarded_parameter_rows_are_lost_witness :
  tryParseRequestRuleExpr
    (buildRequestRuleExpr
       [mkGroup [CParamHeader (mkParamHeader param (js "max_tokens") MATCH_GT (js "4096"))] (js "2") None None])
  = Some None.
Proof.
  apply guarded_parameter_rows_are_lost;
    [vm_compute; reflexivity|right; split; [apply (bool_decide_unpack _); vm_compute; exact I|vm_compute; reflexivity]|].
  vm_compute. reflexivity.
Defined.
