(* ===== verification/TierRoundTrip.v ===== *)
(** * The text of a token price reads back

    The billing expression the visual editor of token prices generates is
    recognized again, as the same tiers.  The recognition searches for tiers with
    an unanchored expression; its steps on the generated text are followed with
    [run] and [dead]. *)

From Stdlib Require Import ZifyN ZifyBool.
From stdpp Require Import sorting.
From S2P Require Import Prelude StableSort JsValue NumFacts JsCollections FloatError NumRounding NumberText Regex RegexRun BillingExpr TierExpr StringFacts TaskRoundTrip.
Import BillingExpr TierExpr.

#[local] Hint Resolve run_eps run_str run_cat_eps run_cap stops_cons stops_nil : d2s.

Lemma run_ws t cs : stops is_ws t → run (Star ws) (js " ") t cs cs.
Proof. intros Ht. apply run_star_chr; [by repeat constructor|done]. Qed.

Lemma run_no_ws t cs : stops is_ws t → run (Star ws) [] t cs cs.
Proof. intros Ht. apply run_star_chr; [constructor|done]. Qed.

(** ** Comparisons *)

Definition cond_vars : list jstr := [js "p"; js "c"; js "len"].
Definition cond_ops : list jstr := [js "<"; js "<="; js ">"; js ">="].

(** The text of a number that a condition can hold: no minus sign in it. *)
Definition cond_word (n : jstr) : Prop := n ≠ [] ∧ Forall (λ c, cond_num_char c = true) n.

Lemma cond_char_not_ws c : cond_num_char c = true → is_ws c = false.
Proof.
  unfold cond_num_char. intros [H|H%bool_decide_eq_true]%orb_true_iff; [by apply digit_not_ws|].
  set_unfold in H. by destruct_or?; subst.
Qed.

Lemma cond_word_stops n t : cond_word n → stops is_ws (n ++ t).
Proof.
  intros [Hne Hn]. destruct n as [|x n]; [done|]. apply list.Forall_cons in Hn as [Hx _].
  by apply stops_cons, cond_char_not_ws.
Qed.

Lemma run_var v t cs : v ∈ cond_vars → run cond_var v t cs cs.
Proof.
  intros Hv. set_unfold in Hv. destruct Hv as [->|[->|[->|[]]]].
  - apply run_alt_l, run_str.
  - apply run_alt_r; [intros before k; reflexivity|]. apply run_alt_l, run_str.
  - apply run_alt_r; [intros before k; reflexivity|]. apply run_alt_r; [intros before k; reflexivity|]. apply run_str.
Qed.

(** What follows an operator. *)
Definition atom_rest : re := Cat (Star ws) (Cat (Plus (Chr cond_num_char)) Eps).

Lemma run_atom_rest n t cs :
  cond_word n → stops cond_num_char t → run atom_rest (js " " ++ n) t cs cs.
Proof.
  intros Hn Ht. apply (run_cat _ _ (js " ") n t cs cs cs).
  - apply run_ws. by apply cond_word_stops.
  - apply run_cat_eps, run_plus_chr; [by destruct Hn..|done].
Qed.

Lemma dead_atom_rest t cs : dead atom_rest (61%N :: t) cs.
Proof.
  apply dead_den; [done|]. intros w t' c' Heq (w1 & w2 & c1 & -> & H1 & w3 & w4 & c2 & -> & H2 & _).
  apply den_spaces in H1 as [H1 ->]. apply den_plus_chr in H2 as (Hne & H2 & _).
  destruct w1 as [|x w1].
  - destruct w3 as [|x w3]; [done|]. apply list.Forall_cons in H2 as [Hx _].
    cbn [app] in Heq. injection Heq as <- _. by vm_compute in Hx.
  - apply list.Forall_cons in H1 as [Hx _]. cbn [app] in Heq. injection Heq as <- _. by vm_compute in Hx.
Qed.

Lemma run_op o n t cs :
  o ∈ cond_ops → cond_word n → stops cond_num_char t →
  run (Cat cond_op atom_rest) (o ++ js " " ++ n) t cs cs.
Proof.
  intros Ho Hn Ht. pose proof (run_atom_rest n t cs Hn Ht) as Hr.
  assert (∀ o, run (Cat (Str o) atom_rest) (o ++ js " " ++ n) t cs cs) as Hone
    by (intros o'; eapply run_cat; [apply run_str|done]).
  set_unfold in Ho. destruct Ho as [->|[->|[->|[->|[]]]]].
  - by apply run_alt_cat_l.
  - apply run_alt_cat; [apply (dead_after (js "<")), dead_atom_rest|]. by apply run_alt_cat_l.
  - apply run_alt_cat; [by apply dead_str|]. apply run_alt_cat; [by apply dead_str|]. by apply run_alt_cat_l.
  - apply run_alt_cat; [by apply dead_str|]. apply run_alt_cat; [by apply dead_str|].
    apply run_alt_cat; [apply (dead_after (js ">")), dead_atom_rest|]. done.
Qed.

Definition comparison_text (v o n : jstr) : jstr := v ++ js " " ++ o ++ js " " ++ n.

Lemma op_stops o t : o ∈ cond_ops → stops is_ws (o ++ t).
Proof. intros Ho. set_unfold in Ho. by destruct Ho as [->|[->|[->|[->|[]]]]]; apply stops_cons. Qed.

Lemma run_atom v o n t cs :
  v ∈ cond_vars → o ∈ cond_ops → cond_word n → stops cond_num_char t →
  run cond_atom (comparison_text v o n) t cs cs.
Proof.
  intros Hv Ho Hn Ht. unfold cond_atom, comparison_text. eapply run_cat; [by apply run_var|].
  eapply run_cat; [|by apply run_op]. apply run_ws. rewrite <-!app_assoc. by apply op_stops.
Qed.

(** A condition the editor offers, with a number whose text has no minus sign. *)
Definition comparison (c : TierConditionInput) : Prop :=
  var c ∈ cond_vars ∧ op c ∈ cond_ops ∧
  ∃ n, value c = Some (VNum n) ∧ cond_word (num_to_string n) ∧ readable n.

Lemma comparison_inv c :
  comparison c → ∃ n, condition_text c = comparison_text (var c) (op c) (num_to_string n) ∧
    usable_condition c = true ∧ value c = Some (VNum n) ∧ cond_word (num_to_string n) ∧ Number (num_to_string n) = n.
Proof.
  intros (Hv & Ho & n & E & Hw & Hn%readable_text). exists n. unfold condition_text, usable_condition. rewrite E.
  split_and!; [done| |done..]. set_unfold in Hv. set_unfold in Ho.
  destruct Hv as [->|[->|[->|[]]]], Ho as [->|[->|[->|[->|[]]]]]; reflexivity.
Qed.

(** ** Conjunctions *)

Definition and_part : re := cats [Star ws; Str (js "&&"); Star ws; cond_atom].

Lemma var_stops v t : v ∈ cond_vars → stops is_ws (v ++ t).
Proof. intros Hv. set_unfold in Hv. by destruct Hv as [->|[->|[->|[]]]]; apply stops_cons. Qed.

Lemma run_and v o n t cs :
  v ∈ cond_vars → o ∈ cond_ops → cond_word n → stops cond_num_char t →
  run and_part (js " && " ++ comparison_text v o n) t cs cs.
Proof.
  intros Hv Ho Hn Ht. unfold and_part.
  change (js " && " ++ comparison_text v o n) with (js " " ++ js "&&" ++ js " " ++ comparison_text v o n).
  eapply run_cat; [apply run_ws; by apply stops_cons|]. eapply run_cat; [apply run_str|].
  eapply run_cat; [|by apply run_cat_eps, run_atom].
  apply run_ws. unfold comparison_text. rewrite <-!app_assoc. by apply var_stops.
Qed.

Lemma dead_and t cs : dead and_part (js " ?" ++ t) cs.
Proof.
  apply dead_den; [done|]. intros w t' c' Heq (w1 & w2 & c1 & -> & H1 & w3 & w4 & c2 & -> & [-> ->] & _).
  apply den_spaces in H1 as [H1 ->]. rewrite <-!app_assoc in Heq.
  apply (span_unique is_ws (js " ") w1) in Heq as [_ Heq];
    [discriminate Heq|by repeat constructor|done|by apply stops_cons|by apply stops_cons].
Qed.

Lemma join_concat sep w ws : join sep (w :: ws) = w ++ concat (map (app sep) ws).
Proof.
  revert w. induction ws as [|v ws IH]; intros w; [by rewrite app_nil_r|].
  rewrite join_cons by done. rewrite IH. cbn [map concat]. by rewrite <-app_assoc.
Qed.

Definition conjunction (cs : list TierConditionInput) : jstr := join (js " && ") (map condition_text cs).

Lemma run_group c cs t caps :
  Forall comparison (c :: cs) → run condGroup (conjunction (c :: cs)) (js " ?" ++ t) caps caps.
Proof.
  intros [Hc Hcs]%list.Forall_cons. unfold conjunction. cbn [map]. rewrite join_concat.
  assert (stops cond_num_char (concat (map (app (js " && ")) (map condition_text cs)) ++ js " ?" ++ t)) as Hs.
  { destruct cs; by apply stops_cons. }
  destruct (comparison_inv c Hc) as (n & -> & _ & _ & Hn & _). destruct Hc as (Hv & Ho & _).
  eapply run_cat; [by apply run_atom|]. apply run_star. clear c n Hn Hv Ho Hs.
  induction Hcs as [|c cs Hc _ IH]; cbn [map runs]; [apply dead_and|]. split_and!; [done| |done].
  destruct (comparison_inv c Hc) as (n & -> & _ & _ & Hn & _). destruct Hc as (Hv & Ho & _).
  apply run_and; [done..|]. destruct cs; by apply stops_cons.
Qed.

(** *** Reading a conjunction back *)

Lemma cond_part_match v o n :
  v ∈ cond_vars → o ∈ cond_ops → cond_word n →
  match_whole cond_part (comparison_text v o n) = Some [(3%nat, n); (2%nat, o); (1%nat, v)].
Proof.
  intros Hv Ho Hn. unfold comparison_text. apply match_whole_unique; [done| |].
  - unfold cond_part. cbn [cats foldr]. exists v, (js " " ++ o ++ js " " ++ n), [(1%nat, v)].
    split_and!; [done|exists []; split; [by apply den_alts|done]|].
    exists (js " "), (o ++ js " " ++ n), [(1%nat, v)]. split_and!; [done|apply den_spaces; split; [by repeat constructor|done]|].
    exists o, (js " " ++ n), [(2%nat, o); (1%nat, v)]. split_and!; [done|eexists; split; [by apply den_alts|done]|].
    exists (js " "), n, [(2%nat, o); (1%nat, v)]. split_and!; [done|apply den_spaces; split; [by repeat constructor|done]|].
    exists n, [], [(3%nat, n); (2%nat, o); (1%nat, v)]. split_and!; [by rewrite app_nil_r| |done].
    eexists; split; [|done]. apply den_plus_chr. destruct Hn. done.
  - intros c'. unfold cond_part. cbn [cats foldr].
    intros (v' & w1 & c1 & Heq & (c2 & Hv' & ->) & s1 & w2 & c3 & -> & Hs1 & o' & w3 & c4 & -> & (c5 & Ho' & ->)
      & s2 & w4 & c6 & -> & Hs2 & n' & w5 & c7 & -> & (c8 & Hn' & ->) & [-> ->]).
    apply den_alts in Hv' as [Hv' ->]; [|done]. apply den_alts in Ho' as [Ho' ->]; [|done].
    apply den_spaces in Hs1 as [Hs1 ->]. apply den_spaces in Hs2 as [Hs2 ->].
    apply den_plus_chr in Hn' as (Hne' & Hn' & ->). rewrite app_nil_r in Heq.
    set (opc := λ c : N, bool_decide (c ∈ js "<=>")).
    assert (∀ v, v ∈ cond_vars → Forall (λ c, is_word c = true) v) as Hword
      by (intros x Hx; set_unfold in Hx; by destruct Hx as [->|[->|[->|[]]]]; repeat constructor).
    assert (∀ o, o ∈ cond_ops → Forall (λ c, opc c = true) o) as Hopc
      by (intros x Hx; set_unfold in Hx; by destruct Hx as [->|[->|[->|[->|[]]]]]; repeat constructor).
    assert (∀ s o t, spaces s → o ∈ cond_ops → stops is_word (s ++ o ++ t)) as Hst.
    { intros s x y Hs Hx. destruct s as [|a s].
      - set_unfold in Hx. by destruct Hx as [->|[->|[->|[->|[]]]]]; apply stops_cons.
      - apply stops_cons. apply list.Forall_cons in Hs as [Ha _]. destruct (is_word a) eqn:E; [|done].
        unfold is_ws, is_word, is_digit in *. lia. }
    apply (span_unique is_word) in Heq as [<- Heq]; [|by apply Hword|by apply Hword|by apply (Hst (js " ")), Ho; repeat constructor|by apply Hst].
    apply (span_unique is_ws) in Heq as [<- Heq]; [|by repeat constructor|done|by apply op_stops|by apply op_stops].
    assert (∀ s n, spaces s → cond_word n → stops opc (s ++ n)) as Hst2.
    { intros s x Hs [Hx1 Hx2]. destruct s as [|a s].
      - destruct x as [|a x]; [done|]. apply stops_cons. apply list.Forall_cons in Hx2 as [Ha _].
        destruct (opc a) eqn:E; [|done]. apply bool_decide_eq_true in E. set_unfold in E. by destruct_or?; subst.
      - apply stops_cons. apply list.Forall_cons in Hs as [Ha _]. destruct (opc a) eqn:E; [|done].
        apply bool_decide_eq_true in E. set_unfold in E. by destruct_or?; subst. }
    apply (span_unique opc) in Heq as [<- Heq];
      [|by apply Hopc|by apply Hopc|by apply (Hst2 (js " ")); [repeat constructor|]|by apply Hst2].
    apply (span_unique is_ws) in Heq as [<- Heq];
      [|by repeat constructor|done|rewrite <-(app_nil_r n); by apply cond_word_stops
       |rewrite <-(app_nil_r n'); by apply cond_word_stops].
    by subst n'.
Qed.

Lemma sep_absent s1 u s y :
  38%N ∉ u → u ≠ [] → (∀ x, list.last u = Some x → is_ws x = false) → spaces s1 → s1 ++ 38%N :: y ≠ u ++ s.
Proof.
  revert u. induction s1 as [|a s1 IH]; intros u Hu Hne Hl Hs Heq; (destruct u as [|b u]; [done|]); cbn [app] in Heq.
  - injection Heq as <- _. set_solver.
  - injection Heq as <- Heq. apply list.Forall_cons in Hs as [Ha Hs]. destruct u as [|b u].
    + by rewrite (Hl a eq_refl) in Ha.
    + apply (IH (b :: u)); [set_solver|done|exact Hl|done|done].
Qed.

Lemma skips_sep u s :
  38%N ∉ u → (∀ x, list.last u = Some x → is_ws x = false) → skips cond_separator u s.
Proof.
  intros Hu Hl u1 u2 -> Hne. apply dead_den; [done|].
  intros w t c' Heq (w1 & w2 & c1 & -> & H1 & w3 & w4 & c2 & -> & [-> ->] & _).
  apply den_spaces in H1 as [H1 ->]. rewrite <-!app_assoc in Heq. symmetry in Heq. revert Heq.
  apply sep_absent; [set_solver|done| |done].
  intros x Hx. apply Hl. rewrite list.last_app. by rewrite Hx.
Qed.

Lemma comparison_shape c :
  comparison c → 38%N ∉ condition_text c ∧ (∀ x, list.last (condition_text c) = Some x → is_ws x = false)
    ∧ stops is_ws (condition_text c) ∧ condition_text c ≠ [].
Proof.
  intros Hc. destruct (comparison_inv c Hc) as (v & -> & _ & _ & [Hne Hn] & _). destruct Hc as (Hv & Ho & _).
  unfold comparison_text. revert Hne Hn. generalize (num_to_string v). intros n Hne Hn. split_and!.
  - rewrite !not_elem_of_app. split_and!;
      [by set_unfold in Hv; destruct Hv as [->|[->|[->|[]]]]; apply (bool_decide_unpack _); vm_compute; exact I
      |by apply (bool_decide_unpack _); vm_compute; exact I
      |by set_unfold in Ho; destruct Ho as [->|[->|[->|[->|[]]]]]; apply (bool_decide_unpack _); vm_compute; exact I
      |by apply (bool_decide_unpack _); vm_compute; exact I|].
    intros Hin. rewrite list.Forall_forall in Hn. by specialize (Hn _ Hin).
  - intros x. destruct n as [|y n _] using rev_ind; [done|]. rewrite !app_assoc, list.last_snoc. intros [= <-].
    apply list.Forall_app in Hn as [_ [Hx _]%list.Forall_cons]. by apply cond_char_not_ws.
  - by apply var_stops.
  - set_unfold in Hv. by destruct Hv as [->|[->|[->|[]]]].
Qed.

Lemma run_separator t cs : stops is_ws t → run cond_separator (js " && ") t cs cs.
Proof.
  intros Ht. change (js " && ") with (js " " ++ js "&&" ++ js " "). unfold cond_separator. cbn [cats foldr].
  eapply run_cat; [apply run_ws; by apply stops_cons|]. eapply run_cat; [apply run_str|].
  by apply run_cat_eps, run_ws.
Qed.

Lemma join_snoc sep ws w : join sep (ws ++ [w]) = concat (map (λ v, v ++ sep) ws) ++ w.
Proof.
  induction ws as [|v ws IH]; [done|]. change ((v :: ws) ++ [w]) with (v :: (ws ++ [w])).
  rewrite join_cons by (by destruct ws). rewrite IH. cbn [map concat]. by rewrite <-!app_assoc.
Qed.

Lemma split_conjunction cs :
  cs ≠ [] → Forall comparison cs → split_re cond_separator (conjunction cs) = map condition_text cs.
Proof.
  induction cs as [|c cs _] using rev_ind; [done|]. intros _ Hcs.
  apply list.Forall_app in Hcs as [Hcs [Hc _]%list.Forall_cons].
  unfold conjunction. rewrite !map_app. cbn [map]. rewrite join_snoc.
  set (ms := map (λ c, (condition_text c, js " && ", [] : captures)) cs).
  assert (concat (map (λ v, v ++ js " && ") (map condition_text cs)) = concat (map (λ m : jstr * jstr * captures, m.1.1 ++ m.1.2) ms)) as E.
  { unfold ms. by rewrite !map_map. }
  assert (finds cond_separator ms (condition_text c)) as Hf.
  { clear E. unfold ms. clear ms. induction Hcs as [|c' cs Hc' Hcs IH]; cbn [map finds].
    - destruct (comparison_shape c Hc) as (H1 & H2 & _). split; [by apply skips_sep|]. by intros before k.
    - destruct (comparison_shape c' Hc') as (H1 & H2 & _). split_and!; [done|by apply skips_sep| |done].
      apply run_separator. destruct cs as [|c2 cs]; cbn [map concat app fst snd].
      + by destruct (comparison_shape c Hc) as (_ & _ & ? & _).
      + apply list.Forall_cons in Hcs as [(_ & _ & H3 & H4)%comparison_shape _].
        destruct (condition_text c2) as [|x w]; [done|]. intros y t' [= <- _]. by apply (H3 x w). }
  unfold split_re. rewrite E, matchAll_finds by done.
  assert (map skipped (found ms (condition_text c)) = map condition_text cs) as ->.
  { clear. unfold ms. clear ms. induction cs as [|c' cs IH]; [done|]. cbn [map found skipped]. by f_equal. }
  f_equal. f_equal. clear. unfold ms. clear ms. induction cs as [|c1 cs _] using rev_ind; [done|].
  rewrite map_app. assert (∀ ms u w d t, list.last (found (ms ++ [(u, w, d)]) t) = Some (mkMatch u w d t)) as Hlast.
  { clear. induction ms as [|[[u1 w1] d1] ms IH]; intros u w d t; [done|]. cbn [app found].
    rewrite list.last_cons, IH. done. }
  cbn [map]. by rewrite Hlast.
Qed.

Lemma conjunction_parses cs :
  Forall comparison cs → parse_visual_conditions (conjunction cs) = cs.
Proof.
  intros Hcs. unfold parse_visual_conditions, parse_tier_conditions.
  destruct cs as [|c0 cs0] eqn:Ecs; [done|]. rewrite <-Ecs in *.
  assert (truthy (conjunction cs) = true) as ->.
  { rewrite Ecs in *. apply list.Forall_cons in Hcs as [(_ & _ & _ & Hne)%comparison_shape _].
    unfold conjunction. cbn [map]. rewrite join_concat. by destruct (condition_text c0). }
  rewrite split_conjunction; [|by rewrite Ecs|done]. clear Ecs c0 cs0.
  induction Hcs as [|c cs Hc _ IH]; [done|]. cbn [map omap list_omap].
  destruct (comparison_shape c Hc) as (_ & Hl & Hs & _).
  rewrite trim_tight.
  2:{ split; [done|]. intros x t E. apply Hl. rewrite <-head_reverse, E. done. }
  destruct (comparison_inv c Hc) as (n & E & _ & Hval & Hn & Hnum). rewrite E.
  destruct Hc as (Hv & Ho & _). rewrite cond_part_match by done. cbn [mbind option_bind map tc_var tc_op tc_value].
  f_equal; [|exact IH]. change (cap 1 _) with (var c). change (cap 2 _) with (op c).
  change (cap 3 _) with (num_to_string n). rewrite Hnum, <-Hval. by destruct c.
Qed.

(** ** Prices *)

Definition num_word (n : jstr) : Prop := n ≠ [] ∧ Forall (λ c, num_char c = true) n.

Lemma num_word_stops n t : num_word n → stops is_ws (n ++ t).
Proof. intros [Hne Hn]. by apply stops_numeric. Qed.

Lemma run_number k n t cs :
  num_word n → stops num_char t → run (Cap k num_text) n t cs ((k, n) :: cs).
Proof. intros [Hne Hn] Ht. by apply run_cap, run_plus_chr. Qed.

(** The optional terms: variables with the text of their price, if any. *)
Definition opt_term (k : nat) (v : jstr) : re :=
  Opt (cats ([Star ws; Str (js "+"); Star ws; Str v] ++ star_ws_around "*" ++ [Cap k num_text])).
Fixpoint opt_terms (k : nat) (vs : list jstr) : list re :=
  match vs with [] => [] | v :: rest => opt_term k v :: opt_terms (S k) rest end.

Fixpoint opt_text (l : list (jstr * option jstr)) : jstr :=
  match l with
  | [] => []
  | (v, Some n) :: rest => (js " + " ++ v ++ js " * " ++ n) ++ opt_text rest
  | (_, None) :: rest => opt_text rest
  end.
Fixpoint opt_caps (k : nat) (l : list (jstr * option jstr)) (c : captures) : captures :=
  match l with
  | [] => c
  | (_, Some n) :: rest => opt_caps (S k) rest ((k, n) :: c)
  | (_, None) :: rest => opt_caps (S k) rest c
  end.

Definition term_name (v : jstr) : Prop := v ≠ [] ∧ Forall (λ c, is_word c = true) v.

Lemma name_stops v t : term_name v → stops is_ws (v ++ t).
Proof.
  intros [Hne Hv]. destruct v as [|x v]; [done|]. apply list.Forall_cons in Hv as [Hx _]. apply stops_cons.
  destruct (is_ws x) eqn:E; [|done]. unfold is_ws, is_word, is_digit in *. lia.
Qed.

Lemma word_stops a s t : spaces a → s = 42%N → stops is_word (a ++ s :: t).
Proof.
  intros Ha ->. destruct a as [|x a]; [by apply stops_cons|]. apply list.Forall_cons in Ha as [Hx _]. apply stops_cons.
  destruct (is_word x) eqn:E; [|done]. unfold is_ws, is_word, is_digit in *. lia.
Qed.

Lemma run_opt_some k v n t c :
  term_name v → num_word n → stops num_char t →
  run (opt_term k v) (js " + " ++ v ++ js " * " ++ n) t c ((k, n) :: c).
Proof.
  intros Hv Hn Ht. apply run_alt_l, trail_run.
  change (js " + " ++ v ++ js " * " ++ n) with (js " " ++ js "+" ++ js " " ++ v ++ js " " ++ js "*" ++ js " " ++ n).
  cbn [app star_ws_around].
  eapply (trail_cons _ _ (js " ")); [apply run_ws; by apply stops_cons|].
  eapply (trail_cons _ _ (js "+")); [apply run_str|].
  eapply (trail_cons _ _ (js " ")); [apply run_ws; rewrite <-!app_assoc; by apply name_stops|].
  eapply trail_cons; [apply run_str|].
  eapply (trail_cons _ _ (js " ")); [apply run_ws; by apply stops_cons|].
  eapply (trail_cons _ _ (js "*")); [apply run_str|].
  eapply (trail_cons _ _ (js " ")); [apply run_ws; by apply num_word_stops|].
  rewrite <-(app_nil_r n) at 1. eapply trail_cons; [|apply trail_nil]. by apply run_number.
Qed.

(** What can follow an optional term that is absent. *)
Definition opt_end (v s : jstr) : Prop :=
  (∃ t, s = 41%N :: t) ∨ ∃ v2 t, s = js " + " ++ v2 ++ js " * " ++ t ∧ v2 ≠ v ∧ term_name v2.

Lemma run_opt_absent k v s c : term_name v → opt_end v s → run (opt_term k v) [] s c c.
Proof.
  intros Hv Hend. apply run_opt_none, dead_den; [done|]. cbn [app star_ws_around cats foldr].
  intros w t c' Heq (s1 & w1 & c1 & -> & H1 & w2 & w3 & c2 & -> & [-> ->] & s2 & w4 & c3 & -> & H2
    & w5 & w6 & c4 & -> & [-> ->] & s3 & w7 & c5 & -> & H3 & w8 & w9 & c6 & -> & [-> ->] & _).
  apply den_spaces in H1 as [H1 ->]. apply den_spaces in H2 as [H2 ->]. apply den_spaces in H3 as [H3 ->].
  rewrite <-!app_assoc in Heq. destruct Hend as [[t' ->]|(v2 & t' & -> & Hne & Hv2)].
  - destruct s1 as [|x s1]; cbn [app] in Heq; [discriminate Heq|]. injection Heq as <- _.
    apply list.Forall_cons in H1 as [H1 _]. by vm_compute in H1.
  - change (js " + " ++ v2 ++ js " * " ++ t') with (js " " ++ js "+" ++ js " " ++ v2 ++ js " " ++ js "*" ++ js " " ++ t') in Heq.
    apply (span_unique is_ws) in Heq as [_ Heq]; [|by repeat constructor|done|by apply stops_cons|by apply stops_cons].
    apply (app_inv_head (js "+")) in Heq.
    apply (span_unique is_ws) in Heq as [_ Heq]; [|by repeat constructor|done|by apply name_stops|by apply name_stops].
    apply (span_unique is_word) in Heq as [? _]; [done|apply Hv2|apply Hv| |by apply (word_stops s3)].
    by apply (word_stops (js " ")); [repeat constructor|].
Qed.

Lemma opt_text_end v l t :
  (∀ v2, v2 ∈ l.*1 → v2 ≠ v ∧ term_name v2) → opt_end v (opt_text l ++ 41%N :: t).
Proof.
  induction l as [|[v2 [n|]] l IH]; intros Hl; cbn [opt_text].
  - left. by exists t.
  - right. exists v2, (n ++ opt_text l ++ 41%N :: t). rewrite <-!app_assoc. split; [done|]. apply Hl. by left.
  - apply IH. intros v3 Hv3. apply Hl. by right.
Qed.

Lemma opt_text_stops l t : stops num_char (opt_text l ++ 41%N :: t).
Proof. induction l as [|[v2 [n|]] l IH]; cbn [opt_text]; [by apply stops_cons|by apply stops_cons|done]. Qed.

Lemma trail_opt k l t c :
  NoDup l.*1 → Forall term_name l.*1 → Forall (λ e, from_option num_word True e.2) l →
  trail (opt_terms k l.*1) (opt_text l) (41%N :: t) c (opt_caps k l c).
Proof.
  revert k c. induction l as [|[v o] l IH]; intros k c Hnd Hw Hn; [apply trail_nil|].
  rewrite fmap_cons in *. cbn [fst] in *. apply list.NoDup_cons in Hnd as [Hv Hnd].
  apply list.Forall_cons in Hw as [Hvw Hw]. apply list.Forall_cons in Hn as [Ho Hn]. cbn [opt_terms opt_text opt_caps].
  destruct o as [n|].
  - eapply trail_cons; [|by apply IH]. apply run_opt_some; [done|done|apply opt_text_stops].
  - eapply (trail_cons _ _ []); [|by apply IH]. apply run_opt_absent; [done|]. apply opt_text_end.
    intros v2 Hv2. split; [by intros ->|]. rewrite list.Forall_forall in Hw. by apply Hw.
Qed.

Lemma trail_prices k n1 n2 t c :
  num_word n1 → num_word n2 → stops num_char t →
  trail ([Str (js "p")] ++ star_ws_around "*" ++ [Cap k num_text] ++ star_ws_around "+"
        ++ [Str (js "c")] ++ star_ws_around "*" ++ [Cap (k + 1) num_text])
    (js "p * " ++ n1 ++ js " + c * " ++ n2) t c (((k + 1)%nat, n2) :: (k, n1) :: c).
Proof.
  intros H1 H2 Ht. cbn [app star_ws_around].
  change (js "p * " ++ n1 ++ js " + c * " ++ n2)
    with (js "p" ++ js " " ++ js "*" ++ js " " ++ n1 ++ js " " ++ js "+" ++ js " " ++ js "c" ++ js " " ++ js "*" ++ js " " ++ n2).
  eapply (trail_cons _ _ (js "p")); [apply run_str|].
  eapply (trail_cons _ _ (js " ")); [apply run_ws; by apply stops_cons|].
  eapply (trail_cons _ _ (js "*")); [apply run_str|].
  eapply (trail_cons _ _ (js " ")); [apply run_ws; rewrite <-!app_assoc; by apply num_word_stops|].
  eapply trail_cons; [apply run_number; [done|by apply stops_cons]|].
  eapply (trail_cons _ _ (js " ")); [apply run_ws; by apply stops_cons|].
  eapply (trail_cons _ _ (js "+")); [apply run_str|].
  eapply (trail_cons _ _ (js " ")); [apply run_ws; by apply stops_cons|].
  eapply (trail_cons _ _ (js "c")); [apply run_str|].
  eapply (trail_cons _ _ (js " ")); [apply run_ws; by apply stops_cons|].
  eapply (trail_cons _ _ (js "*")); [apply run_str|].
  eapply (trail_cons _ _ (js " ")); [apply run_ws; by apply num_word_stops|].
  rewrite <-(app_nil_r n2) at 1. eapply trail_cons; [|apply trail_nil]. by apply run_number.
Qed.

(** ** Tiers *)

(** A finite price that its decimal text denotes (every one but -0). *)
Definition exact_num (p : jsnum) : Prop := isFinite p = true ∧ readable p.

Lemma exact_num_word p : exact_num p → num_word (num_to_string p).
Proof.
  intros [Hf _]. destruct p as [s|s| |s m e]; [by repeat constructor|done|done|].
  destruct s; cbn [num_to_string].
  - destruct (price_word_chars _ (pos_word m e)) as [Hc Hne]. split; [done|]. by constructor.
  - destruct (price_word_chars _ (pos_word m e)) as [Hc Hne]. done.
Qed.

Lemma exact_num_or_zero p : exact_num p → num_or_zero p = p.
Proof.
  intros [Hf [_ Hn]]. destruct p as [s|s| |s m e]; [|done|done|done]. by destruct s.
Qed.

(** A tier as the editor leaves it after normalization, with a label, prices
    and conditions that can be written down.  The cache mode is the one the
    prices tell. *)
Definition writable_tier (t : VisualTier) : Prop :=
  label t ≠ [] ∧ 34%N ∉ label t ∧ exact_num (input_unit_cost t) ∧ exact_num (output_unit_cost t) ∧
  (extra t).*1 = extra_fields ∧ Forall (λ e, exact_num e.2) (extra t) ∧ Forall comparison (conditions t) ∧
  cache_mode t = getTierCacheMode (mkPartialTier None None None None None (extra t)).

Definition price_at (f : jstr) (t : VisualTier) : jsnum := price_or_zero (field_get f (extra t)).
Definition price_texts (t : VisualTier) : list (jstr * option jstr) :=
  map (λ '(f, v), (v, if num_eqb (price_at f t) zero then None else Some (num_to_string (price_at f t))))
    BILLING_CACHE_VAR_MAP.

Lemma extra_terms_text t : concat (map (app (js " + ")) (extra_terms t)) = opt_text (price_texts t).
Proof.
  unfold extra_terms, price_texts. induction BILLING_CACHE_VAR_MAP as [|[f v] l IH]; [done|].
  cbn [omap list_omap map opt_text]. fold (price_at f t). destruct (num_eqb (price_at f t) zero); [done|].
  cbn [map concat opt_text]. rewrite IH. by rewrite <-!app_assoc.
Qed.

Lemma body_text t :
  exact_num (input_unit_cost t) → exact_num (output_unit_cost t) →
  buildTierBodyExpr t
  = (js "p * " ++ num_to_string (input_unit_cost t) ++ js " + c * " ++ num_to_string (output_unit_cost t))
    ++ opt_text (price_texts t).
Proof.
  intros Hi Ho. unfold buildTierBodyExpr. rewrite !exact_num_or_zero by done.
  rewrite join_concat. cbn [map concat]. rewrite extra_terms_text. rewrite <-!app_assoc. done.
Qed.

Lemma field_get_exact f (l : list (jstr * jsnum)) p : Forall (λ e, exact_num e.2) l → field_get f l = Some p → exact_num p.
Proof. intros Hl H%field_get_elem. rewrite list.Forall_forall in Hl. by apply (Hl (f, p)). Qed.

Lemma price_at_exact f t : Forall (λ e, exact_num e.2) (extra t) → exact_num (price_at f t).
Proof.
  intros Hl. unfold price_at. destruct (field_get f (extra t)) as [p|] eqn:E; [|done].
  cbn [price_or_zero from_option]. apply (field_get_exact _ _ _ Hl) in E. by rewrite exact_num_or_zero.
Qed.

Lemma price_texts_names t :
  (price_texts t).*1 = BILLING_CACHE_VAR_MAP.*2 ∧ NoDup (price_texts t).*1 ∧ Forall term_name (price_texts t).*1.
Proof.
  assert ((price_texts t).*1 = BILLING_CACHE_VAR_MAP.*2) as E.
  { unfold price_texts. induction BILLING_CACHE_VAR_MAP as [|[f v] l IH]; [done|]. cbn [map]. rewrite !fmap_cons. by f_equal. }
  rewrite E. split_and!; [done|apply (bool_decide_unpack _); vm_compute; exact I|].
  apply list.Forall_forall. intros v Hv. assert (v ∈ [js "cr"; js "cc"; js "cc1h"; js "img"; js "img_o"; js "ai"; js "ao"]) as H by exact Hv.
  set_unfold in H. by destruct_or? H; subst; repeat constructor.
Qed.

Lemma price_texts_words t :
  Forall (λ e, exact_num e.2) (extra t) → Forall (λ e, from_option num_word True e.2) (price_texts t).
Proof.
  intros Hl. unfold price_texts. apply Forall_map, list.Forall_forall. intros [f v] _. cbv beta iota. cbn [snd].
  destruct (num_eqb _ _); [done|]. cbn [from_option]. by apply exact_num_word, price_at_exact.
Qed.

Lemma trail_body k t s c :
  writable_tier t →
  trail (bodyPat k) (buildTierBodyExpr t) (41%N :: s) c
    (opt_caps (k + 2) (price_texts t) (((k + 1)%nat, num_to_string (output_unit_cost t))
       :: (k, num_to_string (input_unit_cost t)) :: c)).
Proof.
  intros (_ & _ & Hi & Ho & _ & Hp & _). rewrite body_text by done.
  destruct (price_texts_names t) as (E & Hnd & Hw).
  assert (bodyPat k = ([Str (js "p")] ++ star_ws_around "*" ++ [Cap k num_text] ++ star_ws_around "+"
        ++ [Str (js "c")] ++ star_ws_around "*" ++ [Cap (k + 1) num_text]) ++ opt_terms (k + 2) (price_texts t).*1) as ->.
  { rewrite E. unfold bodyPat. rewrite <-!app_assoc. do 7 f_equal. unfold optCache.
    generalize (k + 2)%nat. clear. intros n. revert n. induction BILLING_CACHE_VAR_MAP as [|[f v] l IH]; intros n; [done|].
    rewrite imap_cons, fmap_cons. cbn [opt_terms snd]. f_equal; [by rewrite Nat.add_0_r|].
    rewrite <-IH. apply imap_ext. intros i [f' v'] _. unfold compose.
    by replace (n + S i)%nat with (S n + i)%nat by lia. }
  eapply trail_app; [apply trail_prices; [by apply exact_num_word..|apply opt_text_stops]|].
  apply trail_opt; [done|done|by apply price_texts_words].
Qed.

(** *** Captured prices *)

(** The prices read from the groups from [k] on, with the conversion [num]. *)
Definition captured (num : jstr → jsnum) (k : nat) (m : captures) : list (jstr * jsnum) :=
  omap (λ '(i, (field, _)), v ← grp (k + i) m; Some (field, num v)) (imap pair BILLING_CACHE_VAR_MAP).

Lemma captured_fields num k base o1 o2 o3 o4 o5 o6 o7 :
  (k = 4%nat ∧ (∃ a b c, base = [(3%nat, a); (2%nat, b); (1%nat, c)])) ∨
  (k = 5%nat ∧ (∃ a b c, base = [(4%nat, a); (3%nat, b); (2%nat, c)]
                       ∨ ∃ d, base = [(4%nat, a); (3%nat, b); (2%nat, c); (1%nat, d)])) →
  map (λ f, field_get f (captured num k (opt_caps k (zip BILLING_CACHE_VAR_MAP.*2 [o1; o2; o3; o4; o5; o6; o7]) base)))
    extra_fields
  = map (fmap num) [o1; o2; o3; o4; o5; o6; o7].
Proof.
  intros [[-> (a & b & c & ->)]|[-> (a & b & c & [->|[d ->]])]];
    destruct o1, o2, o3, o4, o5, o6, o7; vm_compute; reflexivity.
Qed.

Lemma price_read p :
  exact_num p →
  price_or_zero (Number <$> (if num_eqb (price_or_zero (Some p)) zero then None else Some (num_to_string (price_or_zero (Some p))))) = p.
Proof.
  intros Hp. cbn [price_or_zero from_option]. rewrite (exact_num_or_zero p Hp). destruct (num_eqb p zero) eqn:E.
  - destruct Hp as [Hf [_ Hn]]. destruct p as [s|s| |s m e]; [|done|done|by destruct s, m, e]. by destruct s.
  - cbn [fmap option_fmap option_map price_or_zero from_option].
    by rewrite (readable_text p (proj2 Hp)), exact_num_or_zero.
Qed.

Lemma read_mode p :
  exact_num p →
  match Number <$> (if num_eqb (price_or_zero (Some p)) zero then None else Some (num_to_string (price_or_zero (Some p)))) with
  | Some n => if num_ltb zero n then CACHE_MODE_TIMED else CACHE_MODE_GENERIC
  | None => CACHE_MODE_GENERIC
  end = if num_ltb zero p then CACHE_MODE_TIMED else CACHE_MODE_GENERIC.
Proof.
  intros Hp. cbn [price_or_zero from_option]. rewrite (exact_num_or_zero p Hp). destruct (num_eqb p zero) eqn:E.
  - destruct p as [s|s| |s m e]; [done|by destruct s|done|by destruct s, m, e].
  - cbn [fmap option_fmap option_map]. by rewrite (readable_text p (proj2 Hp)).
Qed.

Lemma extra_inv (l : list (jstr * jsnum)) :
  l.*1 = extra_fields → ∃ p1 p2 p3 p4 p5 p6 p7, l = zip extra_fields [p1; p2; p3; p4; p5; p6; p7].
Proof.
  intros E. do 7 (destruct l as [|[? ?] l]; [discriminate E|]). destruct l; [|discriminate E].
  injection E as -> -> -> -> -> -> ->. by do 7 eexists.
Qed.

Lemma map_seven {A B} (g : A → B) f1 f2 f3 f4 f5 f6 f7 x1 x2 x3 x4 x5 x6 x7 :
  map g [f1; f2; f3; f4; f5; f6; f7] = [x1; x2; x3; x4; x5; x6; x7] →
  g f1 = x1 ∧ g f2 = x2 ∧ g f3 = x3 ∧ g f4 = x4 ∧ g f5 = x5 ∧ g f6 = x6 ∧ g f7 = x7.
Proof. by intros [= -> -> -> -> -> -> ->]. Qed.

(** A tier made of what the groups captured. *)
Lemma read_tier t k base cs :
  writable_tier t →
  (k = 4%nat ∧ (∃ a b c, base = [(3%nat, a); (2%nat, b); (1%nat, c)])) ∨
  (k = 5%nat ∧ (∃ a b c, base = [(4%nat, a); (3%nat, b); (2%nat, c)]
                       ∨ ∃ d, base = [(4%nat, a); (3%nat, b); (2%nat, c); (1%nat, d)])) →
  normalizeVisualTier (mkPartialTier (Some (label t)) (Some cs) (Some (input_unit_cost t)) (Some (output_unit_cost t))
    None (captured_extra k (opt_caps k (price_texts t) base)))
  = mkTier (label t) cs (input_unit_cost t) (output_unit_cost t) (cache_mode t) (extra t).
Proof.
  intros (_ & _ & _ & _ & Hf & Hp & _ & Hm) Hk. unfold normalizeVisualTier, getTierCacheMode.
  cbn [p_label p_conditions p_input p_output p_cache_mode p_extra default from_option].
  change (captured_extra k (opt_caps k (price_texts t) base)) with (captured Number k (opt_caps k (price_texts t) base)).
  rewrite Hm. clear Hm. unfold getTierCacheMode. cbn [p_cache_mode p_extra]. unfold price_texts, price_at.
  destruct (extra_inv _ Hf) as (q1 & q2 & q3 & q4 & q5 & q6 & q7 & Ex). clear Hf.
  rewrite Ex in *.
  change (zip extra_fields [q1; q2; q3; q4; q5; q6; q7]) with
    [(js "cache_read_unit_cost", q1); (js "cache_create_unit_cost", q2); (js "cache_create_1h_unit_cost", q3);
     (js "image_unit_cost", q4); (js "image_output_unit_cost", q5); (js "audio_input_unit_cost", q6);
     (js "audio_output_unit_cost", q7)] in *.
  set (o q := if num_eqb (price_or_zero (Some q)) zero then None else Some (num_to_string (price_or_zero (Some q)))).
  match goal with |- context [opt_caps k ?l base] =>
    change l with (zip BILLING_CACHE_VAR_MAP.*2 [o q1; o q2; o q3; o q4; o q5; o q6; o q7]) end.
  pose proof (captured_fields Number k base (o q1) (o q2) (o q3) (o q4) (o q5) (o q6) (o q7) Hk) as E.
  set (m := captured Number k _) in *.
  do 7 (apply list.Forall_cons in Hp as [? Hp]). cbn [snd] in *.
  apply map_seven in E as (E1 & E2 & E3 & E4 & E5 & E6 & E7). unfold extra_fields. cbn [map].
  rewrite E1, E2, E3, E4, E5, E6, E7. unfold o. rewrite !price_read, read_mode by done. done.
Qed.

(** *** One tier *)

Definition call_re (k : nat) : list re :=
  [Str (jq "tier('"); Cap k (Star not_quote); Str (jq "',"); Star ws] ++ bodyPat (S k) ++ [Str (js ")")].

Definition call_caps (k : nat) (t : VisualTier) (c : captures) : captures :=
  opt_caps (S k + 2) (price_texts t) (((S k + 1)%nat, num_to_string (output_unit_cost t))
    :: (S k, num_to_string (input_unit_cost t)) :: (k, label t) :: c).

Lemma body_head t : stops is_ws (buildTierBodyExpr t).
Proof. unfold buildTierBodyExpr. rewrite join_concat. by apply stops_cons. Qed.

Lemma no_quote_chars s : 34%N ∉ s → Forall (λ x, negb (bool_decide (x ∈ [34%N])) = true) s.
Proof.
  intros Hs. apply list.Forall_forall. intros x Hx. apply negb_true_iff, bool_decide_eq_false. set_solver.
Qed.

Lemma trail_call k t s c :
  writable_tier t → trail (call_re k) (tier_call (label t) t) s c (call_caps k t c).
Proof.
  intros Ht. unfold tier_call, call_re.
  change (jq "', " ++ buildTierBodyExpr t ++ js ")") with (jq "'," ++ js " " ++ buildTierBodyExpr t ++ js ")").
  change ([Str (jq "tier('"); Cap k (Star not_quote); Str (jq "',"); Star ws] ++ bodyPat (S k) ++ [Str (js ")")])
    with (Str (jq "tier('") :: Cap k (Star not_quote) :: Str (jq "',") :: Star ws :: bodyPat (S k) ++ [Str (js ")")]).
  eapply (trail_cons _ _ (jq "tier('")); [apply run_str|].
  eapply trail_cons.
  { apply run_cap, run_star_chr; [apply no_quote_chars; apply Ht|by apply stops_cons]. }
  eapply (trail_cons _ _ (jq "',")); [apply run_str|].
  eapply (trail_cons _ _ (js " ")).
  { apply run_ws. pose proof (body_head t) as Hb. unfold buildTierBodyExpr in *. rewrite join_concat in *. by apply stops_cons. }
  eapply trail_app; [by apply trail_body|].
  rewrite <-(app_nil_r (js ")")). eapply trail_cons; [apply run_str|apply trail_nil].
Qed.

(** The conditions as they are written before a tier. *)
Definition guard_text (cs : list TierConditionInput) : jstr :=
  match cs with [] => [] | _ => conjunction cs ++ js " ? " end.
Definition guard_caps (cs : list TierConditionInput) : captures :=
  match cs with [] => [] | _ => [(1%nat, conjunction cs)] end.
Definition part_text (cs : list TierConditionInput) (t : VisualTier) : jstr :=
  guard_text cs ++ tier_call (label t) t.

Lemma run_guard cs s :
  Forall comparison cs → run (Opt (cats [Cap 1 condGroup; Star ws; Str (js "?"); Star ws]))
    (guard_text cs) (116%N :: s) [] (guard_caps cs).
Proof.
  intros Hcs. destruct cs as [|c cs]; cbn [guard_text guard_caps].
  - apply run_opt_none. intros before k. reflexivity.
  - apply run_alt_l, trail_run.
    change (js " ? ") with (js " " ++ js "?" ++ js " ").
    eapply trail_cons; [by apply run_cap, (run_group c cs)|].
    eapply (trail_cons _ _ (js " ")); [apply run_ws; by apply stops_cons|].
    eapply (trail_cons _ _ (js "?")); [apply run_str|].
    rewrite <-(app_nil_r (js " ")). eapply trail_cons; [apply run_ws; by apply stops_cons|apply trail_nil].
Qed.

Lemma run_tier cs t s :
  writable_tier t → Forall comparison cs →
  run visualTierRe (part_text cs t) s [] (call_caps 2 t (guard_caps cs)).
Proof.
  intros Ht Hcs. change visualTierRe with (cats (Opt (cats [Cap 1 condGroup; Star ws; Str (js "?"); Star ws]) :: call_re 2)).
  apply trail_run. unfold part_text. eapply trail_cons; [|by apply trail_call].
  unfold tier_call. by apply run_guard.
Qed.

Lemma grp_opt_caps j k l c : (j < k)%nat → grp j (opt_caps k l c) = grp j c.
Proof.
  revert k c. induction l as [|[v [n|]] l IH]; intros k c Hj; cbn [opt_caps]; [done| |apply IH; lia].
  rewrite IH by lia. cbn [grp]. destruct (Nat.eqb_spec k j); [lia|done].
Qed.

Definition with_conditions (t : VisualTier) (cs : list TierConditionInput) : VisualTier :=
  mkTier (label t) cs (input_unit_cost t) (output_unit_cost t) (cache_mode t) (extra t).

Lemma read_visual_tier cs t :
  writable_tier t → Forall comparison cs →
  visual_tier_of (call_caps 2 t (guard_caps cs)) = with_conditions t cs.
Proof.
  intros Ht Hcs. unfold visual_tier_of, cap, call_caps. rewrite !grp_opt_caps by lia. cbn [grp Nat.eqb Nat.add default from_option id].
  pose proof Ht as (_ & _ & [_ ->%readable_text] & [_ ->%readable_text] & _).
  assert (parse_visual_conditions (default [] (grp 1 (guard_caps cs))) = cs) as ->.
  { destruct cs as [|c cs]; [done|]. cbn [guard_caps grp Nat.eqb default from_option id]. by apply conjunction_parses. }
  apply read_tier; [done|]. right. split; [done|]. do 3 eexists. destruct cs; [by left|right; by eexists].
Qed.

Lemma read_single_tier t :
  writable_tier t →
  let m := call_caps 1 t [] in
  normalizeVisualTier (mkPartialTier (Some (cap 1 m)) (Some []) (Some (Number (cap 2 m))) (Some (Number (cap 3 m)))
    None (captured_extra 4 m)) = with_conditions t [].
Proof.
  intros Ht m. unfold m, cap, call_caps. rewrite !grp_opt_caps by lia. cbn [grp Nat.eqb Nat.add default from_option id].
  pose proof Ht as (_ & _ & [_ ->%readable_text] & [_ ->%readable_text] & _).
  apply read_tier; [done|]. left. split; [done|]. by do 3 eexists.
Qed.

(** *** The whole text *)

Lemma condition_string cs : Forall comparison cs → buildConditionStr cs = conjunction cs.
Proof.
  intros Hcs. unfold buildConditionStr. rewrite filter_everything; [done|].
  eapply list.Forall_impl; [exact Hcs|]. intros c Hc. by destruct (comparison_inv c Hc) as (n & _ & ? & _).
Qed.

Lemma conjunction_truthy cs : Forall comparison cs → truthy (conjunction cs) = bool_decide (cs ≠ []).
Proof.
  intros Hcs. destruct cs as [|c cs]; [done|]. apply list.Forall_cons in Hcs as [(_ & _ & _ & Hne)%comparison_shape _].
  unfold conjunction. cbn [map]. rewrite join_concat. by destruct (condition_text c).
Qed.

Lemma tier_part_text count i t :
  writable_tier t → (i < count - 1)%nat ∨ conditions t = [] → tier_part count i t = part_text (conditions t) t.
Proof.
  intros (Hl & _ & _ & _ & _ & _ & Hcs & _) Hi. unfold tier_part, part_text. cbv zeta.
  rewrite condition_string, conjunction_truthy by done.
  assert (or_else (label t) (js "tier_" ++ digits_Z (Z.of_nat i + 1)) = label t) as -> by (by destruct (label t)).
  destruct (conditions t) as [|c cs] eqn:E; [by rewrite andb_false_r|]. destruct Hi as [Hi|]; [|done].
  rewrite (proj2 (Nat.ltb_lt _ _) Hi). cbn [guard_text]. by rewrite <-app_assoc.
Qed.

(** The first tier, and the separator and a tier for each of the others. *)
Definition tier_matches (ts : list VisualTier) : list (jstr * jstr * captures) :=
  match ts with
  | [] => []
  | t :: rest =>
      ([], part_text (conditions t) t, call_caps 2 t (guard_caps (conditions t)))
      :: map (λ t, (js " : ", part_text (conditions t) t, call_caps 2 t (guard_caps (conditions t)))) rest
  end.

Lemma skips_colon s : skips visualTierRe (js " : ") s.
Proof.
  do 3 (apply skips_step; [intros before k; reflexivity|]). apply skips_nil.
Qed.

Lemma part_nonempty cs t : part_text cs t ≠ [].
Proof. unfold part_text, tier_call. by destruct (guard_text cs). Qed.

Lemma tier_finds ts rest :
  Forall writable_tier ts → skips visualTierRe rest [] → finds visualTierRe (tier_matches ts) rest.
Proof.
  intros Hts Hr. assert (dead visualTierRe [] []) as H0 by (intros before k; reflexivity).
  assert (∀ ts, Forall writable_tier ts → finds visualTierRe
    (map (λ t, (js " : ", part_text (conditions t) t, call_caps 2 t (guard_caps (conditions t)))) ts) rest) as Hrest.
  { induction 1 as [|t l Ht _ IH]; [done|]. cbn [map finds].
    split_and!; [apply part_nonempty|apply skips_colon|apply run_tier; [done|apply Ht]|done]. }
  destruct Hts as [|t l Ht Hts]; [done|]. cbn [tier_matches finds].
  split_and!; [apply part_nonempty|apply skips_nil|apply run_tier; [done|apply Ht]|by apply Hrest].
Qed.

Lemma tier_matches_text t ts rest :
  concat (map (λ m : jstr * jstr * captures, m.1.1 ++ m.1.2) (tier_matches (t :: ts))) ++ rest
  = join (js " : ") (map (λ t, part_text (conditions t) t) (t :: ts)) ++ rest.
Proof.
  cbn [tier_matches map concat fst snd app]. rewrite map_map. cbn [fst snd]. rewrite join_concat. by rewrite !map_map.
Qed.

Lemma found_groups ms rest : map groups (found ms rest) = map snd ms.
Proof. induction ms as [|[[u w] c] ms IH]; [done|]. cbn [found map groups snd]. by f_equal. Qed.

Lemma with_own_conditions t : with_conditions t (conditions t) = t.
Proof. by destruct t. Qed.

Lemma tiers_read ts rest :
  Forall writable_tier ts → map (visual_tier_of ∘ groups) (found (tier_matches ts) rest) = ts.
Proof.
  intros Hts. rewrite <-(map_map groups visual_tier_of), found_groups.
  assert (∀ l, Forall writable_tier l →
    map visual_tier_of (map snd (map (λ t, (js " : ", part_text (conditions t) t, call_caps 2 t (guard_caps (conditions t)))) l)) = l) as H.
  { induction 1 as [|t l Ht _ IH]; [done|]. cbn [map snd]. rewrite read_visual_tier, with_own_conditions by (done || apply Ht). by f_equal. }
  destruct Hts as [|t l Ht Hts]; [done|]. cbn [tier_matches map snd].
  rewrite read_visual_tier, with_own_conditions by (done || apply Ht). f_equal. by apply H.
Qed.

(** Normalization changes nothing. *)
Lemma writable_normal t : writable_tier t → normalizeVisualTier (partial_tier t) = t.
Proof.
  intros (_ & _ & _ & _ & Hf & Hp & _ & Hm). unfold normalizeVisualTier, partial_tier.
  cbn [p_label p_conditions p_input p_output p_cache_mode p_extra default from_option getTierCacheMode].
  destruct (extra_inv _ Hf) as (q1 & q2 & q3 & q4 & q5 & q6 & q7 & Ex). clear Hf Hm.
  destruct t as [l cs i o m ex]. cbn [extra label conditions input_unit_cost output_unit_cost cache_mode] in *. subst ex.
  change (zip extra_fields [q1; q2; q3; q4; q5; q6; q7]) with
    [(js "cache_read_unit_cost", q1); (js "cache_create_unit_cost", q2); (js "cache_create_1h_unit_cost", q3);
     (js "image_unit_cost", q4); (js "image_output_unit_cost", q5); (js "audio_input_unit_cost", q6);
     (js "audio_output_unit_cost", q7)] in *.
  do 7 (apply list.Forall_cons in Hp as [? Hp]). cbn [snd] in *.
  unfold extra_fields. cbn [map]. unfold price_or_zero.
  change (field_get (js "cache_read_unit_cost") _) with (Some q1).
  change (field_get (js "cache_create_unit_cost") _) with (Some q2).
  change (field_get (js "cache_create_1h_unit_cost") _) with (Some q3).
  change (field_get (js "image_unit_cost") _) with (Some q4).
  change (field_get (js "image_output_unit_cost") _) with (Some q5).
  change (field_get (js "audio_input_unit_cost") _) with (Some q6).
  change (field_get (js "audio_output_unit_cost") _) with (Some q7).
  cbn [from_option]. by rewrite !exact_num_or_zero.
Qed.

Lemma config_normal ts :
  ts ≠ [] → Forall writable_tier ts → normalizeVisualConfig (Some (mkConfig ts)) = mkConfig ts.
Proof.
  intros Hne Hts. unfold normalizeVisualConfig. destruct ts as [|t l]; [done|]. f_equal. cbn [tiers].
  clear Hne. induction Hts as [|t' l' Ht _ IH]; [done|]. cbn [map compose]. f_equal; [by apply writable_normal|done].
Qed.

(** *** The single form *)

Definition not_paren (c : N) : bool := negb (c =? 41)%N.

Lemma body_no_paren t : writable_tier t → Forall (λ c, not_paren c = true) (buildTierBodyExpr t).
Proof.
  intros (_ & _ & Hi & Ho & _ & Hp & _). rewrite body_text by done.
  assert (∀ n, num_word n → Forall (λ c, not_paren c = true) n) as Hn.
  { intros n [_ Hn]. eapply list.Forall_impl; [exact Hn|]. intros c Hc. unfold not_paren, num_char in *.
    destruct (N.eqb_spec c 41) as [->|]; [by vm_compute in Hc|done]. }
  pose proof (price_texts_words t Hp) as Hw. destruct (price_texts_names t) as (_ & _ & Hnm).
  rewrite !list.Forall_app. split_and!; [by repeat constructor|by apply Hn, exact_num_word|by repeat constructor|by apply Hn, exact_num_word|].
  induction (price_texts t) as [|[v [n|]] l IH]; cbn [opt_text]; [constructor| |].
  - apply list.Forall_cons in Hw as [Hx Hw]. rewrite fmap_cons in Hnm. apply list.Forall_cons in Hnm as [[_ Hv] Hnm].
    rewrite !list.Forall_app. split_and!; [by repeat constructor| |by repeat constructor|by apply Hn|by apply IH].
    eapply list.Forall_impl; [exact Hv|]. intros c Hc. unfold not_paren.
    destruct (N.eqb_spec c 41) as [->|]; [by vm_compute in Hc|done].
  - apply list.Forall_cons in Hw as [_ Hw]. rewrite fmap_cons in Hnm. apply list.Forall_cons in Hnm as [_ Hnm]. by apply IH.
Qed.

Lemma single_head w : 
  list.head w ≠ Some 116%N → match_whole singleRe w = None.
Proof.
  intros Hh. apply match_whole_None; [done|]. intros c' (w1 & w2 & c1 & -> & [-> ->] & _). by cbn in Hh.
Qed.

Lemma single_longer t s : writable_tier t → s ≠ [] → match_whole singleRe (tier_call (label t) t ++ s) = None.
Proof.
  intros Ht Hs. apply match_whole_None; [done|]. intros c' H.
  change singleRe with (cats ([Str (jq "tier('"); Cap 1 (Star not_quote); Str (jq "',")] ++ (Star ws :: bodyPat 2) ++ [Str (js ")")])) in H.
  apply den_cats_app in H as (w1 & w2 & c1 & Heq & H1 & H2).
  apply den_cats_app in H2 as (w3 & w4 & c2 & -> & H3 & (w5 & w6 & c3 & -> & [-> ->] & [-> ->])).
  destruct H1 as (u1 & v1 & d1 & -> & [-> ->] & u2 & v2 & d2 & -> & (d3 & Hl & ->) & u3 & v3 & d4 & -> & [-> ->] & [-> ->]).
  apply den_star_chr in Hl as [Hl _].
  assert (Forall (λ c, not_paren c = true) w3) as Hw3.
  { eapply (over_den (λ c, not_paren c = true)); [|exact H3]. unfold bodyPat, optCache.
    assert (∀ x : N, is_ws x = true → not_paren x = true) as Hws.
    { intros x Hx. unfold not_paren. destruct (N.eqb_spec x 41) as [->|]; [by vm_compute in Hx|done]. }
    assert (∀ x : N, num_char x = true → not_paren x = true) as Hnum.
    { intros x Hx. unfold not_paren. destruct (N.eqb_spec x 41) as [->|]; [by vm_compute in Hx|done]. }
    cbn -[js is_ws num_char not_paren]. split_and!; auto; by repeat constructor. }
  unfold tier_call in Heq. rewrite <-!app_assoc in Heq.
  apply (app_inv_head (jq "tier('")) in Heq. pose proof Ht as (_ & Hq & _).
  apply (span_unique (λ x, negb (bool_decide (x ∈ [34%N])))) in Heq as [_ Heq];
    [|by apply no_quote_chars|done|by apply stops_cons|by apply stops_cons].
  change (jq "', " ++ buildTierBodyExpr t ++ js ")" ++ s) with (jq "'," ++ (js " " ++ buildTierBodyExpr t) ++ js ")" ++ s) in Heq.
  cbn [app] in Heq. change (jq "'," ++ w3 ++ js ")") with (jq "'," ++ w3 ++ js ")" ++ []) in Heq.
  apply (app_inv_head (jq "',")) in Heq.
  apply (span_unique not_paren) in Heq as [_ Heq];
    [|constructor; [done|by apply body_no_paren]|done|by apply stops_cons|by apply stops_cons].
  by apply (app_inv_head (js ")")) in Heq.
Qed.

(** ** The round trip *)

Lemma part_head cs t s : Forall comparison cs → cs ≠ [] → list.head (part_text cs t ++ s) ≠ Some 116%N ∧ list.head (part_text cs t ++ s) ≠ Some 118%N.
Proof.
  intros Hcs Hne. destruct cs as [|c cs]; [done|]. apply list.Forall_cons in Hcs as [Hc _].
  unfold part_text, guard_text, conjunction. cbn [map]. rewrite join_concat.
  destruct (comparison_inv c Hc) as (n & -> & _). destruct Hc as (Hv & _). unfold comparison_text. rewrite <-!app_assoc.
  set_unfold in Hv. by destruct Hv as [->|[->|[->|[]]]].
Qed.

Lemma not_version w : list.head w ≠ Some 118%N → match_whole (cats [Str (js "v"); Plus dig; Str (js ":"); Cap 1 (Star any)]) w = None.
Proof.
  intros Hh. apply match_whole_None; [done|]. intros c' (w1 & w2 & c1 & -> & [-> ->] & _). by cbn in Hh.
Qed.

(** Texts that are not of the single form and in which the tiers are found. *)
Lemma recognized t ts rest :
  Forall writable_tier (t :: ts) → skips visualTierRe rest [] →
  let text := join (js " : ") (map (λ t, part_text (conditions t) t) (t :: ts)) ++ rest in
  list.head text ≠ Some 118%N → match_whole singleRe text = None →
  generateExprFromVisualConfig (Some (mkConfig (t :: ts))) = text →
  tryParseVisualConfig (Some text) = Some (mkConfig (t :: ts)).
Proof.
  intros Hts Hr text Hv Hs Hg. unfold tryParseVisualConfig. rewrite not_version by done. cbn [from_option id].
  destruct text as [|x text'] eqn:Etext.
  { unfold text in Etext. apply app_eq_nil in Etext as [Etext _]. cbn [map] in Etext. rewrite join_concat in Etext.
    apply app_eq_nil in Etext as [E _]. by apply part_nonempty in E. }
  rewrite <-Etext in *. clear Etext x text'. cbv zeta. rewrite Hs.
  assert (matchAll visualTierRe text = found (tier_matches (t :: ts)) rest) as ->.
  { unfold text. rewrite <-tier_matches_text. by apply matchAll_finds, tier_finds. }
  pose proof (tiers_read (t :: ts) rest Hts) as E. cbn [tier_matches found] in *.
  rewrite E. rewrite config_normal, Hg by done. by rewrite jeqb_refl.
Qed.

(** [C28] The billing expression the visual editor of token prices writes reads
    back as the same tiers, for every non-empty list of tiers in normal form in
    which the last of several has no condition: labels are not empty and have no
    quotation mark, every price field has a finite price other than [-0], the
    cache mode is the one the prices imply, and the conditions compare [p], [c]
    or [len] with numbers whose text has no minus sign, neither before the
    number nor in an exponent. *)
Theorem visual_expression_round_trip ts :
  ts ≠ [] → Forall writable_tier ts →
  ((1 < length ts)%nat → from_option conditions [] (list.last ts) = []) →
  tryParseVisualConfig (Some (generateExprFromVisualConfig (Some (mkConfig ts)))) = Some (mkConfig ts).
Proof.
  intros Hne Hts Hlast. destruct ts as [|t [|t2 ts]]; [done| |].
  - apply list.Forall_cons in Hts as [Ht _]. pose proof Ht as (Hl & _ & _ & _ & _ & _ & Hcs & _).
    assert (generateExprFromVisualConfig (Some (mkConfig [t])) =
      if bool_decide (conditions t ≠ []) then part_text (conditions t) t ++ js " : p * 0 + c * 0" else tier_call (label t) t) as Hg.
    { cbn [generateExprFromVisualConfig]. cbv zeta. rewrite condition_string, conjunction_truthy by done.
      assert (or_else (label t) (js "default") = label t) as -> by (by destruct (label t)).
      destruct (conditions t) as [|c cs]; [done|]. unfold part_text. cbn [guard_text]. by rewrite <-!app_assoc. }
    destruct (conditions t) as [|c cs] eqn:Ec.
    + rewrite Hg. cbn [bool_decide_reflect].
      change (bool_decide (@nil TierConditionInput ≠ [])) with false. cbv iota.
      unfold tryParseVisualConfig. rewrite not_version by done. cbn [from_option id].
      destruct (tier_call (label t) t) as [|x text'] eqn:Etext; [done|]. rewrite <-Etext in *. clear Etext x text'. cbv zeta.
      rewrite (match_whole_run singleRe _ (call_caps 1 t [])).
      2:{ change singleRe with (cats (call_re 1)). by apply trail_run, trail_call. }
      pose proof (read_single_tier t Ht) as E. cbv zeta in E. rewrite E, <-Ec, with_own_conditions.
      f_equal. apply config_normal; [done|]. by constructor.
    + rewrite Hg. rewrite <-Ec in *. rewrite bool_decide_true in * by (by rewrite Ec).
      destruct (part_head (conditions t) t (js " : p * 0 + c * 0") Hcs) as [H1 H2]; [by rewrite Ec|].
      apply (recognized t [] (js " : p * 0 + c * 0")); [by constructor| |done|by apply single_head|done].
      repeat (apply skips_step; [intros before k; reflexivity|]). apply skips_nil.
  - assert (generateExprFromVisualConfig (Some (mkConfig (t :: t2 :: ts)))
      = join (js " : ") (map (λ t, part_text (conditions t) t) (t :: t2 :: ts))) as Hg.
    { cbn [generateExprFromVisualConfig]. f_equal. apply list_eq. intros i. rewrite list_lookup_imap.
      change (map ?f ?l !! i) with ((f <$> l) !! i). rewrite list_lookup_fmap.
      destruct ((t :: t2 :: ts) !! i) as [x|] eqn:Ei; [|done]. cbn [fmap option_fmap option_map]. f_equal.
      rewrite list.Forall_lookup in Hts. apply tier_part_text; [by apply (Hts i)|].
      apply lookup_lt_Some in Ei as Hi. destruct (decide (i < length (t :: t2 :: ts) - 1)%nat) as [|Hge]; [by left|right].
      rewrite list.last_lookup in Hlast. replace (pred (length (t :: t2 :: ts))) with i in Hlast by lia.
      rewrite Ei in Hlast. apply Hlast. cbn [length]. lia. }
    rewrite Hg, <-(app_nil_r (join _ _)).
    assert (∃ s, s ≠ [] ∧ join (js " : ") (map (λ t, part_text (conditions t) t) (t :: t2 :: ts)) ++ []
      = part_text (conditions t) t ++ s) as (s & Hs & Etext).
    { eexists. cbn [map]. rewrite join_cons by done. rewrite <-!app_assoc. by split; [|reflexivity]. }
    apply list.Forall_cons in Hts as Hts'. destruct Hts' as [Ht _]. pose proof Ht as (_ & _ & _ & _ & _ & _ & Hcs & _).
    apply recognized; [done|apply skips_nil| | |by rewrite app_nil_r].
    + rewrite Etext. destruct (conditions t) as [|c cs] eqn:Ec; [done|]. by apply part_head.
    + rewrite Etext. destruct (conditions t) as [|c cs] eqn:Ec; [by apply single_longer|].
      by apply single_head, part_head.
Qed.

(** ** Samples *)

Definition sample_tier (l : string) (cs : list TierConditionInput) (i o : jsnum) (x : jsnum) : VisualTier :=
  normalizeVisualTier (mkPartialTier (Some (js l)) (Some cs) (Some i) (Some o) None
    [(js "cache_create_1h_unit_cost", x); (js "audio_input_unit_cost", num_of_dec false 5 (-7))]).
Definition sample_tiers : list VisualTier :=
  [sample_tier "short" [mkCond (js "len") (js "<=") (Some (VNum (num_of_Z 32000)));
                        mkCond (js "p") (js ">") (Some (VNum (num_of_dec false 15 (-1))))]
     (num_of_dec false 25 (-1)) (num_of_Z 10) (num_of_Z 4);
   sample_tier "rest" [] (num_of_Z 5) (num_of_Z 20) (num_of_Z 0)].

Lemma sample_comparison v o n :
  bool_decide (v ∈ cond_vars) && bool_decide (o ∈ cond_ops) && forallb cond_num_char (num_to_string n)
  && truthy (num_to_string n) && readableb n = true →
  comparison (mkCond v o (Some (VNum n))).
Proof.
  rewrite !andb_true_iff. intros [[[[Hv%bool_decide_eq_true Ho%bool_decide_eq_true] Hc] Ht] Hn%readableb_true].
  split_and!; [done|done|]. exists n. split_and!; [done| |done]. split; [by destruct (num_to_string n)|].
  apply list.Forall_forall. intros x Hx. rewrite forallb_forall in Hc. by apply Hc, list_elem_of_In.
Qed.

Lemma visual_expression_round_trip_witness :
  tryParseVisualConfig (Some (generateExprFromVisualConfig (Some (mkConfig sample_tiers)))) = Some (mkConfig sample_tiers).
Proof.
  apply (visual_expression_round_trip sample_tiers); [discriminate| |reflexivity].
  repeat (apply list.Forall_cons; split); [| |by constructor];
    (split_and!; [discriminate|apply (bool_decide_unpack _); vm_compute; exact I|split; [vm_compute; reflexivity|apply readableb_true; vm_compute; reflexivity]
      |split; [vm_compute; reflexivity|apply readableb_true; vm_compute; reflexivity]|vm_compute; reflexivity
      |repeat (apply list.Forall_cons; split; [split; [vm_compute; reflexivity|apply readableb_true; vm_compute; reflexivity]|]); constructor
      | |vm_compute; reflexivity]).
  - repeat (apply list.Forall_cons; split; [apply sample_comparison; vm_compute; reflexivity|]). constructor.
  - constructor.
Defined.

(** The single form is accepted without the check that the others undergo: an
    expression with a sum in the place of a price is shown, and written back,
    with the price 0. *)
Example single_form_loses_price :
  let e := jq "tier('base', p * 2+1 + c * 3)" in
  (λ c, generateExprFromVisualConfig (Some c)) <$> tryParseVisualConfig (Some e)
  = Some (jq "tier('base', p * 0 + c * 3)").
Proof. vm_compute. reflexivity. Qed.

(** Numbers below 1e-6 are written with a minus sign, which the expression for
    conditions does not admit. *)
Example tiny_condition_is_not_recognized :
  let t := sample_tier "a" [mkCond (js "p") (js "<") (Some (VNum (num_of_dec false 1 (-7))))] (num_of_Z 1) (num_of_Z 2) (num_of_Z 0) in
  tryParseVisualConfig (Some (generateExprFromVisualConfig (Some (mkConfig [t])))) = None.
Proof. vm_compute. reflexivity. Qed.
