(* ===== verification/JsonText.v ===== *)
(** * JSON as text

    [JSON.stringify] with and without indentation, and that [JSON.parse] gives
    back the value: for every value without infinite numbers and negative
    zeros, whose objects have their properties in the order of the language. *)

From Stdlib Require Import ZifyN ZifyBool.
From stdpp Require Import sorting.
From S2P Require Import Prelude StableSort JsValue NumFacts JsCollections FloatError NumRounding NumberText Regex BillingExpr StringFacts.

(** ** Induction on values *)

Section json_induction.
Context (P : json → Prop).
Context (Hnull : P JNull) (Hbool : ∀ b, P (JBool b)) (Hnum : ∀ n, P (JNum n)) (Hstr : ∀ s, P (JStr s)).
Context (Harr : ∀ l, Forall P l → P (JArr l)) (Hobj : ∀ fs, Forall (λ e, P e.2) fs → P (JObj fs)).

Fixpoint json_nested_ind (v : json) : P v :=
  match v with
  | JNull => Hnull | JBool b => Hbool b | JNum n => Hnum n | JStr s => Hstr s
  | JArr l => Harr l ((fix go l : Forall P l := match l with
                                   | [] => Forall_nil_2 _
                                   | v :: l => Forall_cons_2 _ _ _ (json_nested_ind v) (go l)
                                   end) l)
  | JObj fs => Hobj fs ((fix go fs : Forall (λ e, P e.2) fs := match fs with
                                      | [] => Forall_nil_2 _
                                      | (k, v) :: fs => Forall_cons_2 _ (k, v) _ (json_nested_ind v) (go fs)
                                      end) fs)
  end.
End json_induction.

(** ** Printing *)

Section gap.
Context (gap : jstr).

(** A new line with its indentation, and the text after a key; nothing and a
    colon when there is no indentation. *)
Definition new_line (indent : jstr) : jstr := match gap with [] => [] | _ => 10%N :: indent end.
Definition colon_text : jstr := match gap with [] => [58%N] | _ => [58%N; 32%N] end.

(** The text of an array or object around its parts. *)
Definition block (open close : N) (indent : jstr) (parts : list jstr) : jstr :=
  match parts with
  | [] => [open; close]
  | _ => [open] ++ new_line (indent ++ gap) ++ join ([44%N] ++ new_line (indent ++ gap)) parts
         ++ new_line indent ++ [close]
  end.

Fixpoint JSON_print (indent : jstr) (v : json) : jstr :=
  match v with
  | JNull => js "null"
  | JBool true => js "true"
  | JBool false => js "false"
  | JNum n => if isFinite n then num_to_string n else js "null"
  | JStr s => quote s
  | JArr l => block 91 93 indent (map (JSON_print (indent ++ gap)) l)
  | JObj fs =>
      block 123 125 indent (map (λ '(k, x), quote k ++ colon_text ++ JSON_print (indent ++ gap) x) fs)
  end.
End gap.

(** [JSON.stringify(v, null, 2)] *)
Definition JSON_stringify_2 (v : json) : jstr := JSON_print (js "  ") [] v.

Example JSON_stringify_2_ex :
  JSON_stringify_2 (JObj [(js "a", JArr [JNum (num_of_Z 3); JObj []]); (js "b", JNull)])
  = jq "{" ++ [10%N] ++ jq "  'a': [" ++ [10%N] ++ jq "    3," ++ [10%N] ++ jq "    {}" ++ [10%N] ++ jq "  ]," ++ [10%N]
    ++ jq "  'b': null" ++ [10%N] ++ jq "}".
Proof. vm_compute. reflexivity. Qed.

Lemma block_compact o c parts : block [] o c [] parts = [o] ++ join [44%N] parts ++ [c].
Proof. by destruct parts. Qed.

(** Without a gap it is [JSON.stringify(v)]. *)
Lemma print_compact v : JSON_print [] [] v = JSON_stringify v.
Proof.
  induction v as [| | | |l IH|fs IH] using json_nested_ind; try done.
  - cbn [JSON_print JSON_stringify]. rewrite block_compact. do 2 f_equal. f_equal.
    induction IH as [|x l Hx _ IHl]; [done|]. cbn [map]. cbn [app] in *. by rewrite Hx, IHl.
  - cbn [JSON_print JSON_stringify]. rewrite block_compact. do 2 f_equal. f_equal.
    induction IH as [|[k x] fs Hx _ IHl]; [done|]. cbn [map]. cbn [app snd] in *. by rewrite Hx, IHl.
Qed.

(** ** Values that can be stored *)

Fixpoint storable (v : json) : Prop :=
  match v with
  | JNull | JBool _ => True
  | JNum n => isFinite n = true ∧ readable n
  | JStr s => units s
  | JArr l => (fix go l := match l with [] => True | v :: l => storable v ∧ go l end) l
  | JObj fs => fromEntries fs = fs
               ∧ (fix go fs := match fs with [] => True | (k, v) :: fs => (units k ∧ storable v) ∧ go fs end) fs
  end.

Lemma storable_arr l : storable (JArr l) ↔ Forall storable l.
Proof. cbn [storable]. induction l as [|v l IH]; [by rewrite list.Forall_nil|]. by rewrite list.Forall_cons, IH. Qed.

Lemma storable_obj fs :
  storable (JObj fs) ↔ fromEntries fs = fs ∧ Forall (λ e, units e.1 ∧ storable e.2) fs.
Proof.
  cbn [storable]. f_equiv. induction fs as [|[k v] fs IH]; [by rewrite list.Forall_nil|]. by rewrite list.Forall_cons, IH.
Qed.

(** ** Steps of the parser *)

Abbreviation blank := (Forall (λ c, json_ws c = true)).

Lemma skip_ws_app w r : blank w → skip_ws (w ++ r) = skip_ws r.
Proof. intros Hw. induction Hw as [|c w Hc _ IH]; [done|]. cbn [app skip_ws]. by rewrite Hc. Qed.

Lemma skip_ws_solid c r : json_ws c = false → skip_ws (c :: r) = c :: r.
Proof. intros Hc. cbn [skip_ws]. by rewrite Hc. Qed.

Lemma parse_value_string f s t r :
  skip_ws s = quote t ++ r → units t → parse_value (S f) s = Some (JStr t, r).
Proof.
  intros Hs Ht. cbn [parse_value]. rewrite Hs. unfold quote. rewrite <-!app_assoc. cbn [app]. rewrite N.eqb_refl.
  by rewrite (parse_chars_quote t r Ht).
Qed.

Lemma parse_value_number f s n r :
  skip_ws s = num_to_string n ++ r → isFinite n = true → readable n → ends_number r → parse_value (S f) s = Some (JNum n, r).
Proof.
  intros Hs Hf [Hd Hz] Hr. pose proof (number_json n r Hd Hf Hz Hr) as Hp.
  destruct (number_word n Hd Hf Hz) as (neg & w & v & e & E & Hw & _).
  assert (∃ c t, num_to_string n ++ r = c :: t ∧ (is_digit c = true ∨ c = 45%N)) as (c & t & Ec & Hc).
  { rewrite E. destruct neg; [eexists _, _; split; [reflexivity|by right]|].
    destruct Hw as (ip & fp & ex & z & -> & Hne & Hip & _). destruct ip as [|c ip]; [done|].
    apply list.Forall_cons in Hip as [Hc _]. eexists _, _. split; [reflexivity|by left]. }
  cbn [parse_value]. rewrite Hs, Ec. rewrite Ec in Hp.
  assert (∀ x, is_digit x = false → x ≠ 45%N → (c =? x)%N = false) as Hno by (intros x H1 H2; apply N.eqb_neq; destruct Hc; congruence).
  rewrite !Hno by done. by rewrite Hp.
Qed.

Lemma match_not_93 {A} c t (a : jstr → A) (b : A) : c ≠ 93%N → match c :: t with 93%N :: r => a r | _ => b end = b.
Proof. intros Hc. destruct c as [|c]; [done|]. do 7 (destruct c as [c|c|]; try done). Qed.

Lemma match_not_125 {A} c t (a : jstr → A) (b : A) : c ≠ 125%N → match c :: t with 125%N :: r => a r | _ => b end = b.
Proof. intros Hc. destruct c as [|c]; [done|]. do 7 (destruct c as [c|c|]; try done). Qed.

Lemma parse_value_array f s r c t :
  skip_ws s = 91%N :: r → skip_ws r = c :: t → c ≠ 93%N →
  parse_value (S f) s = '(l, r') ← parse_items f r; Some (JArr l, r').
Proof.
  intros Hs Hr Hc. cbn [parse_value]. rewrite Hs. cbn [N.eqb Pos.eqb]. rewrite Hr.
  apply (match_not_93 c t (λ r', Some (JArr [], r'))). done.
Qed.

Lemma parse_value_object f s r c t :
  skip_ws s = 123%N :: r → skip_ws r = c :: t → c ≠ 125%N →
  parse_value (S f) s = '(l, r') ← parse_members f [] r; Some (JObj l, r').
Proof.
  intros Hs Hr Hc. cbn [parse_value]. rewrite Hs. cbn [N.eqb Pos.eqb]. rewrite Hr.
  apply (match_not_125 c t (λ r', Some (JObj [], r'))). done.
Qed.

Lemma parse_items_last f s v r r' :
  parse_value f s = Some (v, r) → skip_ws r = 93%N :: r' → parse_items (S f) s = Some ([v], r').
Proof. intros Hv Hr. cbn [parse_items]. rewrite Hv. cbn [mbind option_bind]. by rewrite Hr. Qed.

Lemma parse_items_next f s v r r' :
  parse_value f s = Some (v, r) → skip_ws r = 44%N :: r' →
  parse_items (S f) s = '(l, r'') ← parse_items f r'; Some (v :: l, r'').
Proof. intros Hv Hr. cbn [parse_items]. rewrite Hv. cbn [mbind option_bind]. by rewrite Hr. Qed.

Lemma parse_members_step f acc s k r1 r2 v r3 r4 c :
  skip_ws s = quote k ++ r1 → units k → skip_ws r1 = 58%N :: r2 → parse_value f r2 = Some (v, r3) →
  skip_ws r3 = c :: r4 → c = 44%N ∨ c = 125%N →
  parse_members (S f) acc s
  = if (c =? 44)%N then parse_members f (obj_set k v acc) r4 else Some (obj_set k v acc, r4).
Proof.
  intros Hs Hk H1 Hv H3 Hc. cbn [parse_members]. rewrite Hs. unfold quote. rewrite <-!app_assoc. cbn [app].
  rewrite (parse_chars_quote k r1 Hk). cbn [mbind option_bind]. rewrite H1, Hv. cbn [mbind option_bind]. rewrite H3.
  by destruct Hc as [-> | ->].
Qed.

(** ** Reading what was printed *)

(** Fuel that is enough for a value. *)
Fixpoint need (v : json) : nat :=
  match v with
  | JArr l => S (sum_list_with (λ x, S (need x)) l)
  | JObj fs => S (sum_list_with (λ e, S (need e.2)) fs)
  | _ => 1
  end.

Section reading.
Context (gap : jstr) (Hgap : blank gap).

Definition reads (v : json) : Prop :=
  ∀ indent w fuel r, blank indent → blank w → ends_number r → (need v ≤ fuel)%nat →
  parse_value fuel (w ++ JSON_print gap indent v ++ r) = Some (v, r).

Lemma new_line_blank indent : blank indent → blank (new_line gap indent).
Proof. intros Hi. unfold new_line. destruct gap; by repeat constructor. Qed.

Lemma indent_blank indent : blank indent → blank (indent ++ gap).
Proof. intros Hi. by apply list.Forall_app. Qed.

Lemma ends_solid c r : is_digit c = false → c ≠ 46%N → c ≠ 101%N → c ≠ 69%N → ends_number (c :: r).
Proof. intros H1 H2 H3 H4 c' t [= <- _]. done. Qed.

Lemma ends_after w c r : blank w → is_digit c = false → c ≠ 46%N → c ≠ 101%N → c ≠ 69%N → ends_number (w ++ c :: r).
Proof.
  intros Hw H1 H2 H3 H4. destruct Hw as [|x w Hx _]; [by apply ends_solid|]. cbn [app]. unfold json_ws in Hx.
  apply ends_solid; [unfold is_digit; lia|lia..].
Qed.

(** A printed value starts with neither a space nor a closing bracket. *)
Lemma print_head indent v : storable v →
  ∃ c t, JSON_print gap indent v = c :: t ∧ json_ws c = false ∧ c ≠ 93%N ∧ c ≠ 125%N.
Proof.
  intros Hv. destruct v as [|[]|n|s|l|fs]; try (by eexists _, _; split; [reflexivity|]).
  - destruct Hv as [Hf [Hd Hz]]. cbn [JSON_print]. rewrite Hf.
    destruct (number_word n Hd Hf Hz) as (neg & w & x & e & -> & (ip & fp & ex & z & -> & Hne & Hip & _) & _).
    destruct neg; [by eexists _, _; split; [reflexivity|]|]. destruct ip as [|c ip]; [done|].
    apply list.Forall_cons in Hip as [Hc _]. eexists _, _. split; [reflexivity|]. unfold is_digit, json_ws in *. lia.
  - cbn [JSON_print]. unfold block. destruct (map _ l); by eexists _, _; split; [reflexivity|].
  - cbn [JSON_print]. unfold block. destruct (map _ fs); by eexists _, _; split; [reflexivity|].
Qed.

Lemma items_read inner tail l w fuel r :
  blank inner → blank tail → blank w → l ≠ [] → Forall reads l → (sum_list_with (λ x, S (need x)) l ≤ fuel)%nat →
  parse_items fuel (w ++ join ([44%N] ++ new_line gap inner) (map (JSON_print gap inner) l) ++ tail ++ 93%N :: r) = Some (l, r).
Proof.
  intros Hi Htl Hw Hne Hl. revert w Hw fuel. induction Hl as [|v l Hv Hl IH]; [done|]. intros w Hw fuel Hf.
  cbn [sum_list_with] in Hf. destruct fuel as [|fuel]; [lia|]. destruct l as [|v' l].
  - cbn [map join]. eapply parse_items_last; [apply Hv; [done..|by apply ends_after|lia]|].
    by rewrite skip_ws_app, skip_ws_solid.
  - cbn [map]. rewrite join_cons by done. rewrite <-!app_assoc.
    erewrite parse_items_next; [|apply Hv; [done..|by apply (ends_after [])|lia]|cbn [app]; by rewrite skip_ws_solid].
    change (JSON_print gap inner v' :: map (JSON_print gap inner) l) with (map (JSON_print gap inner) (v' :: l)).
    rewrite IH; [done|done|by apply new_line_blank|lia].
Qed.

Definition member_text (inner : jstr) (e : jstr * json) : jstr :=
  let '(k, x) := e in quote k ++ colon_text gap ++ JSON_print gap inner x.

Lemma members_read inner tail fs acc w fuel r :
  blank inner → blank tail → blank w → fs ≠ [] → Forall (λ e, units e.1 ∧ reads e.2) fs →
  (sum_list_with (λ e, S (need e.2)) fs ≤ fuel)%nat →
  parse_members fuel acc (w ++ join ([44%N] ++ new_line gap inner) (map (member_text inner) fs) ++ tail ++ 125%N :: r)
  = Some (foldl (λ acc '(k, v), obj_set k v acc) acc fs, r).
Proof.
  intros Hi Htl Hw Hne Hfs. revert acc w Hw fuel. induction Hfs as [|[k v] fs [Hk Hv] Hfs IH]; [done|]. intros acc w Hw fuel Hf.
  cbn [sum_list_with snd] in Hf. destruct fuel as [|fuel]; [lia|]. cbn [fst snd] in *.
  assert (∀ r', skip_ws (w ++ quote k ++ r') = quote k ++ r') as Hstart by (intros r'; by rewrite skip_ws_app).
  assert (∃ sp, colon_text gap = 58%N :: sp ∧ blank sp) as (sp & Hcol & Hsp).
  { unfold colon_text. destruct gap; [by exists []|exists [32%N]; split; [done|by repeat constructor]]. }
  destruct fs as [|e' fs].
  - cbn [map join member_text]. rewrite Hcol, <-!app_assoc.
    erewrite parse_members_step; [| apply Hstart | done | reflexivity | apply Hv; [done|done|by apply ends_after|lia]
      | by rewrite skip_ws_app, skip_ws_solid | by right]. done.
  - cbn [map]. rewrite join_cons by done. cbn [member_text]. rewrite Hcol, <-!app_assoc.
    erewrite parse_members_step; [| apply Hstart | done | reflexivity | apply Hv; [done|done|by apply (ends_after [])|lia]
      | cbn [app]; by rewrite skip_ws_solid | by left]. rewrite N.eqb_refl.
    change (member_text inner e' :: map (member_text inner) fs) with (map (member_text inner) (e' :: fs)).
    rewrite IH; [done|done|by apply new_line_blank|lia].
Qed.

(** A block of parts, opened and closed. *)
Lemma block_text o c indent parts r : parts ≠ [] →
  block gap o c indent parts ++ r
  = o :: (new_line gap (indent ++ gap) ++ join ([44%N] ++ new_line gap (indent ++ gap)) parts
          ++ new_line gap indent ++ c :: r).
Proof. intros Hp. unfold block. destruct parts; [done|]. rewrite <-!app_assoc. done. Qed.

Lemma join_head sep p ps c t : p = c :: t → ∃ t', join sep (p :: ps) = c :: t'.
Proof. intros ->. destruct ps; eexists; reflexivity. Qed.

Lemma value_reads v : storable v → reads v.
Proof.
  induction v as [|[]|n|s|l IH|fs IH] using json_nested_ind; intros Hs indent w fuel r Hi Hw Hr Hf;
    (destruct fuel as [|fuel]; [cbn [need] in Hf; lia|]).
  - cbn [parse_value]. by rewrite skip_ws_app.
  - cbn [parse_value]. by rewrite skip_ws_app.
  - cbn [parse_value]. by rewrite skip_ws_app.
  - destruct Hs as [Hfin Hn]. cbn [JSON_print]. rewrite Hfin. apply parse_value_number; [|done..].
    rewrite skip_ws_app by done. destruct (print_head indent (JNum n)) as (c & t & E & Hc & _); [done|].
    cbn [JSON_print] in E. rewrite Hfin in E. rewrite E. cbn [app]. by apply skip_ws_solid.
  - cbn [JSON_print]. apply parse_value_string; [|done]. by rewrite skip_ws_app.
  - apply storable_arr in Hs. destruct l as [|v l]; [cbn [parse_value]; by rewrite skip_ws_app|].
    cbn [JSON_print]. rewrite block_text by done.
    assert (Forall reads (v :: l)) as Hall.
    { clear -IH Hs. induction IH; [constructor|]. apply list.Forall_cons in Hs as [? ?]. constructor; auto. }
    pose proof (proj1 (proj1 (list.Forall_cons _ _ _) Hs)) as Hv.
    destruct (print_head (indent ++ gap) v Hv) as (c & t & E & Hc & H93 & _).
    cbn [map]. destruct (join_head ([44%N] ++ new_line gap (indent ++ gap)) _ (map (JSON_print gap (indent ++ gap)) l) c t E) as [t' Ej].
    erewrite parse_value_array; [| rewrite skip_ws_app by done; by apply skip_ws_solid
      | rewrite skip_ws_app by (by apply new_line_blank, indent_blank); rewrite Ej; cbn [app]; by apply skip_ws_solid | done].
    change (JSON_print gap (indent ++ gap) v :: map (JSON_print gap (indent ++ gap)) l) with (map (JSON_print gap (indent ++ gap)) (v :: l)).
    rewrite items_read; [done|by apply indent_blank|by apply new_line_blank|by apply new_line_blank, indent_blank|done|done|cbn [need] in Hf; lia].
  - apply storable_obj in Hs as [Hcan Hs]. destruct fs as [|[k v] fs]; [cbn [parse_value]; by rewrite skip_ws_app|].
    cbn [JSON_print]. rewrite block_text by done.
    assert (Forall (λ e, units e.1 ∧ reads e.2) ((k, v) :: fs)) as Hall.
    { clear -IH Hs. induction IH; [constructor|]. apply list.Forall_cons in Hs as [[? ?] ?]. constructor; auto. }
    change (map (λ '(k, x), quote k ++ colon_text gap ++ JSON_print gap (indent ++ gap) x) ((k, v) :: fs))
      with (map (member_text (indent ++ gap)) ((k, v) :: fs)).
    destruct (join_head ([44%N] ++ new_line gap (indent ++ gap)) _ (map (member_text (indent ++ gap)) fs) 34%N _ (eq_refl : member_text (indent ++ gap) (k, v) = _)) as [t' Ej].
    erewrite parse_value_object; [| rewrite skip_ws_app by done; by apply skip_ws_solid
      | rewrite skip_ws_app by (by apply new_line_blank, indent_blank); cbn [map]; rewrite Ej; cbn [app]; by apply skip_ws_solid | done].
    rewrite members_read; [|by apply indent_blank|by apply new_line_blank|by apply new_line_blank, indent_blank|done|done|cbn [need] in Hf; lia].
    cbn [mbind option_bind]. by rewrite <-Hcan at 2.
Qed.
End reading.

Lemma join_length c sep parts :
  (sum_list_with length parts + length parts ≤ S (length (join (c :: sep) parts)))%nat.
Proof.
  induction parts as [|p parts IH]; [cbn; lia|]. destruct parts as [|q parts]; [cbn; lia|].
  rewrite join_cons by done. rewrite !length_app. cbn [sum_list_with length] in *. lia.
Qed.

Lemma block_length gap o c indent parts :
  parts ≠ [] → (sum_list_with length parts + length parts < length (block gap o c indent parts))%nat.
Proof.
  intros Hp. unfold block. destruct parts as [|p parts]; [done|]. rewrite !length_app.
  pose proof (join_length 44 (new_line gap (indent ++ gap)) (p :: parts)) as H.
  change (44%N :: new_line gap (indent ++ gap)) with ([44%N] ++ new_line gap (indent ++ gap)) in H. cbn [length] in *. lia.
Qed.

Lemma need_length gap indent v : storable v → (need v ≤ 2 * length (JSON_print gap indent v))%nat.
Proof.
  revert indent. induction v as [|[]|n|s|l IH|fs IH] using json_nested_ind; intros indent Hs; try (cbn; lia).
  - destruct (print_head gap indent (JNum n) Hs) as (c & t & -> & _). cbn. lia.
  - apply storable_arr in Hs. destruct l as [|v l]; [cbn; lia|]. cbn [JSON_print need].
    eapply Nat.le_trans; [|apply Nat.mul_le_mono_l, Nat.lt_le_incl, block_length; done].
    assert (sum_list_with (λ x, S (need x)) (v :: l) ≤
            2 * sum_list_with length (map (JSON_print gap (indent ++ gap)) (v :: l)) + length (v :: l))%nat as H.
    { clear -IH Hs. revert Hs. induction IH as [|x xs Hx _ IHl]; intros Hs; [done|]. apply list.Forall_cons in Hs as [Hsx Hs].
      cbn [map sum_list_with length]. specialize (Hx (indent ++ gap) Hsx). specialize (IHl Hs). lia. }
    rewrite length_map. cbn [length] in *. lia.
  - apply storable_obj in Hs as [_ Hs]. destruct fs as [|e fs]; [cbn; lia|]. cbn [JSON_print need].
    eapply Nat.le_trans; [|apply Nat.mul_le_mono_l, Nat.lt_le_incl, block_length; done].
    assert (sum_list_with (λ x, S (need x.2)) (e :: fs) ≤
            2 * sum_list_with length (map (member_text gap (indent ++ gap)) (e :: fs)) + length (e :: fs))%nat as H.
    { clear -IH Hs. revert Hs. induction IH as [|[k x] xs Hx _ IHl]; intros Hs; [done|]. apply list.Forall_cons in Hs as [[_ Hsx] Hs].
      cbn [map sum_list_with length member_text snd] in *. rewrite !length_app. specialize (Hx (indent ++ gap) Hsx). specialize (IHl Hs). lia. }
    unfold member_text in H. rewrite length_map. cbn [length] in *. lia.
Qed.

(** What [JSON.stringify] writes, with or without indentation, [JSON.parse]
    reads back. *)
Lemma print_parse gap v : blank gap → storable v → JSON_parse (JSON_print gap [] v) = Some v.
Proof.
  intros Hg Hv. unfold JSON_parse. pose proof (value_reads gap Hg v Hv [] [] (2 * length (JSON_print gap [] v) + 2)%nat []) as H.
  cbn [app] in H. rewrite app_nil_r in H. rewrite H; [done|done|done|done|]. pose proof (need_length gap [] v Hv). lia.
Qed.

Lemma stringify_parse v : storable v → JSON_parse (JSON_stringify v) = Some v.
Proof. intros Hv. rewrite <-print_compact. by apply print_parse. Qed.

Lemma stringify_2_parse v : storable v → JSON_parse (JSON_stringify_2 v) = Some v.
Proof. intros Hv. apply print_parse; [by repeat constructor|done]. Qed.

(** ** Printed texts have no blanks around them *)

Lemma trim_enclosed c s d : is_ws c = false → is_ws d = false → trim (c :: s ++ [d]) = c :: s ++ [d].
Proof.
  intros Hc Hd. apply trim_fix.
  - apply trim_start_fix. by intros c' t [= <- _].
  - unfold trim_end. change (c :: s ++ [d]) with ((c :: s) ++ [d]). rewrite reverse_snoc.
    rewrite trim_start_fix by (by intros c' t [= <- _]). by rewrite reverse_cons, reverse_involutive.
Qed.

Lemma block_trim gap o c indent parts : is_ws o = false → is_ws c = false → trim (block gap o c indent parts) = block gap o c indent parts.
Proof.
  intros Ho Hc. unfold block. destruct parts as [|p ps]; [by apply (trim_enclosed o [] c)|].
  rewrite !app_assoc. cbn [app]. by apply trim_enclosed.
Qed.

Lemma printed_trim gap v : storable v → trim (JSON_print gap [] v) = JSON_print gap [] v.
Proof.
  destruct v as [|[]|n|s|l|fs]; intros Hv; [by vm_compute..| | | |].
  - destruct Hv as [Hf [Hd Hz]]. cbn [JSON_print]. rewrite Hf.
    destruct (number_word n Hd Hf Hz) as (neg & w & x & e & -> & Hw & _). apply word_no_ws in Hw.
    apply trim_no_ws, list.Forall_app. split; [|done]. destruct neg; by repeat constructor.
  - cbn [JSON_print]. unfold quote. by apply (trim_enclosed 34 (quote_go s) 34).
  - by apply block_trim.
  - by apply block_trim.
Qed.

(** ** Objects in property order *)

Definition key_before (k k' : jstr) : Prop :=
  k ≠ k' ∧ match array_index k, array_index k' with
           | Some i, Some i' => (i ≤ i')%N | Some _, None => True | None, Some _ => False | None, None => True
           end.

Definition ordered {A} (fs : list (jstr * A)) : Prop := StronglySorted key_before fs.*1.

Lemma obj_set_append {A} k (v : A) acc : Forall (λ k', key_before k' k) acc.*1 → obj_set k v acc = acc ++ [(k, v)].
Proof.
  induction acc as [|[k' v'] acc IH]; [done|]. cbn [fmap list_fmap fst]. intros [[Hne Hb] Hacc]%list.Forall_cons.
  cbn [obj_set]. rewrite (jeqb_neq k' k) by done. cbn [app]. rewrite <-(IH Hacc).
  destruct (array_index k'), (array_index k); try done. by rewrite (proj2 (N.ltb_ge _ _)).
Qed.

Lemma obj_set_in_order {A} k (v : A) fs : ordered fs → ordered (obj_set k v fs).
Proof.
  unfold ordered. induction fs as [|[k' v'] fs IH]; [by repeat constructor|]. cbn [fmap list_fmap fst].
  intros [Hs Hall]%StronglySorted_inv. cbn [obj_set]. destruct (k' === k) eqn:E.
  { apply jeqb_true in E as ->. cbn [fmap list_fmap fst]. by constructor. }
  assert (k' ≠ k) as Hne by (intros ->; by rewrite jeqb_refl in E).
  assert (Forall (key_before k') (obj_set k v fs).*1 ↔ key_before k' k) as Hrec.
  { rewrite list.Forall_forall. split; [intros H; apply H, obj_set_keys; by left|].
    intros Hk x Hx%obj_set_keys. destruct Hx as [->|Hx]; [done|]. rewrite list.Forall_forall in Hall. by apply Hall. }
  rewrite list.Forall_forall in Hall.
  destruct (array_index k) as [i|] eqn:Ei, (array_index k') as [i'|] eqn:Ei'.
  - destruct (N.ltb_spec i i') as [Hlt|Hge].
    + cbn [fmap list_fmap fst]. constructor; [constructor; [done|by rewrite list.Forall_forall]|]. apply list.Forall_cons. split.
      { split; [done|]. rewrite Ei, Ei'. lia. }
      apply list.Forall_forall. intros x Hx. destruct (Hall x Hx) as [_ Hb]. rewrite Ei' in Hb. unfold key_before.
      rewrite Ei. destruct (array_index x) as [j|] eqn:Ej; [|split; [congruence|done]].
      split; [intros ->; rewrite Ei in Ej; injection Ej; lia|lia].
    + cbn [fmap list_fmap fst]. constructor; [by apply IH|]. apply Hrec. split; [done|]. by rewrite Ei, Ei'.
  - cbn [fmap list_fmap fst]. constructor; [constructor; [done|by rewrite list.Forall_forall]|]. apply list.Forall_cons. split.
    { split; [done|]. by rewrite Ei, Ei'. }
    apply list.Forall_forall. intros x Hx. destruct (Hall x Hx) as [_ Hb]. rewrite Ei' in Hb. unfold key_before.
    rewrite Ei. destruct (array_index x) as [j|] eqn:Ej; [done|split; [congruence|done]].
  - cbn [fmap list_fmap fst]. constructor; [by apply IH|]. apply Hrec. split; [done|]. by rewrite Ei, Ei'.
  - cbn [fmap list_fmap fst]. constructor; [by apply IH|]. apply Hrec. split; [done|]. by rewrite Ei, Ei'.
Qed.

Lemma foldl_obj_set_ordered {A} (acc fs : list (jstr * A)) :
  ordered acc → ordered (foldl (λ acc '(k, v), obj_set k v acc) acc fs).
Proof. revert acc. induction fs as [|[k v] fs IH]; intros acc Ha; [done|]. by apply IH, obj_set_in_order. Qed.

Lemma fromEntries_ordered {A} (fs : list (jstr * A)) : ordered fs ↔ fromEntries fs = fs.
Proof.
  split; [|intros <-; apply foldl_obj_set_ordered; constructor].
  unfold fromEntries. assert (∀ acc, ordered (acc ++ fs) → foldl (λ acc '(k, v), obj_set k v acc) acc fs = acc ++ fs) as H.
  { induction fs as [|[k v] fs IH]; intros acc Ha; [by rewrite app_nil_r|]. cbn [foldl].
    rewrite obj_set_append.
    - rewrite IH; [by rewrite <-app_assoc|]. by rewrite <-app_assoc.
    - unfold ordered in Ha. rewrite fmap_app in Ha. clear IH. induction acc as [|[k' v'] acc IHa]; [constructor|].
      cbn [fmap list_fmap fst app] in *. apply StronglySorted_inv in Ha as [Ha Hall]. constructor; [|by apply IHa].
      rewrite list.Forall_forall in Hall. apply Hall, elem_of_app. right. left. }
  intros Hf. by apply (H []).
Qed.

Lemma filter_ordered {A} (P : jstr * A → Prop) `{∀ e, Decision (P e)} fs : ordered fs → ordered (filter P fs).
Proof.
  unfold ordered. induction fs as [|e fs IH]; [done|]. cbn [fmap list_fmap]. intros [Hs Hall]%StronglySorted_inv.
  rewrite filter_cons. destruct (decide (P e)); [|by apply IH]. cbn [fmap list_fmap]. constructor; [by apply IH|].
  rewrite list.Forall_forall in Hall |- *. intros x Hx. apply Hall.
  apply list_elem_of_fmap in Hx as (e' & -> & He'). apply list_elem_of_filter in He' as [_ He']. by apply list_elem_of_fmap_2.
Qed.

Lemma obj_set_elem {A} k (v : A) fs e : e ∈ obj_set k v fs → e = (k, v) ∨ e ∈ fs.
Proof.
  induction fs as [|[k' v'] fs IH]; cbn [obj_set]; [rewrite list_elem_of_singleton; by left|].
  destruct (k' === k); [rewrite !elem_of_cons; tauto|].
  assert (e ∈ (k', v') :: obj_set k v fs → e = (k, v) ∨ e ∈ (k', v') :: fs) as Hrec.
  { rewrite !elem_of_cons. intros [?|H]; [by right; left|]. destruct (IH H); tauto. }
  destruct (array_index k), (array_index k'); try done; [|rewrite (elem_of_cons ((k', v') :: fs)); tauto].
  destruct (_ <? _)%N; [rewrite (elem_of_cons ((k', v') :: fs)); tauto|done].
Qed.

Lemma storable_set n v fs : units n → storable v → storable (JObj fs) → storable (JObj (obj_set n v fs)).
Proof.
  rewrite !storable_obj, <-!fromEntries_ordered. intros Hn Hv [Ho Hs]. split; [by apply obj_set_in_order|].
  rewrite list.Forall_forall in Hs |- *. intros e [->|He]%obj_set_elem; [done|by apply Hs].
Qed.

(** ** Checking that a value can be stored *)

Definition key_beforeb (k k' : jstr) : bool :=
  negb (k === k') && match array_index k, array_index k' with
                     | Some i, Some i' => (i <=? i')%N | Some _, None => true | None, Some _ => false | None, None => true
                     end.
Fixpoint orderedb (ks : list jstr) : bool :=
  match ks with [] => true | k :: ks => forallb (key_beforeb k) ks && orderedb ks end.
Definition unitsb (s : jstr) : bool := forallb (λ c, (c <? 65536)%N) s.

Fixpoint storableb (v : json) : bool :=
  match v with
  | JNull | JBool _ => true
  | JNum n => isFinite n && readableb n
  | JStr s => unitsb s
  | JArr l => forallb storableb l
  | JObj fs => orderedb fs.*1 && forallb (λ '(k, v), unitsb k && storableb v) fs
  end.

Lemma forallb_Forall {A} (f : A → bool) l : forallb f l = true ↔ Forall (λ x, f x = true) l.
Proof.
  induction l as [|x l IH]; [split; [constructor|done]|]. cbn [forallb].
  by rewrite andb_true_iff, list.Forall_cons, IH.
Qed.

Lemma unitsb_true s : unitsb s = true → units s.
Proof. intros H%forallb_Forall. eapply list.Forall_impl; [exact H|]. cbv beta. intros c Hc. lia. Qed.

Lemma orderedb_true ks : orderedb ks = true → StronglySorted key_before ks.
Proof.
  induction ks as [|k ks IH]; [constructor|]. cbn [orderedb]. intros [Hk%forallb_Forall Hs]%andb_true_iff.
  constructor; [by apply IH|]. eapply list.Forall_impl; [exact Hk|]. cbv beta. intros k'. unfold key_beforeb, key_before.
  intros [Hne Hb]%andb_true_iff. split; [intros ->; by rewrite jeqb_refl in Hne|].
  destruct (array_index k), (array_index k'); try done. lia.
Qed.

Lemma storableb_true v : storableb v = true → storable v.
Proof.
  induction v as [| |n|s|l IH|fs IH] using json_nested_ind; try done.
  - cbn [storableb]. intros [Hf Hr%readableb_true]%andb_true_iff. done.
  - apply unitsb_true.
  - cbn [storableb]. rewrite storable_arr. intros H%forallb_Forall.
    induction IH as [|x l Hx _ IHl]; [constructor|]. apply list.Forall_cons in H as [? ?]. constructor; auto.
  - cbn [storableb]. rewrite storable_obj, <-fromEntries_ordered. intros [Ho H%forallb_Forall]%andb_true_iff.
    split; [by apply orderedb_true|]. clear Ho.
    induction IH as [|[k x] fs Hx _ IHl]; [constructor|]. apply list.Forall_cons in H as [[Hk%unitsb_true Hv]%andb_true_iff H].
    constructor; [split; [done|by apply Hx]|auto].
Qed.
