(* ===== verification/JsonParsed.v ===== *)
(** * Values read from JSON text

    What [JSON.parse] returns on a text of 16-bit units: in every object the
    names are 16-bit too, all different, and in property order. *)

From Stdlib Require Import ZifyN ZifyBool.
From stdpp Require Import sorting.
From S2P Require Import Prelude StableSort JsValue JsonText StringFacts.

Fixpoint tidy (v : json) : Prop :=
  match v with
  | JStr s => units s
  | JArr l => (fix go l := match l with [] => True | v :: l => tidy v ∧ go l end) l
  | JObj fs => ordered fs
               ∧ (fix go fs := match fs with [] => True | (k, v) :: fs => (units k ∧ tidy v) ∧ go fs end) fs
  | _ => True
  end.

Lemma tidy_arr l : tidy (JArr l) ↔ Forall tidy l.
Proof. cbn [tidy]. induction l as [|v l IH]; [by rewrite list.Forall_nil|]. by rewrite list.Forall_cons, IH. Qed.

Lemma tidy_obj fs : tidy (JObj fs) ↔ ordered fs ∧ Forall (λ e, units e.1 ∧ tidy e.2) fs.
Proof.
  cbn [tidy]. f_equiv. induction fs as [|[k v] fs IH]; [by rewrite list.Forall_nil|]. by rewrite list.Forall_cons, IH.
Qed.

Lemma ordered_nodup {A} (fs : list (jstr * A)) : ordered fs → NoDup fs.*1.
Proof.
  unfold ordered. induction fs as [|e fs IH]; [constructor|]. cbn [fmap list_fmap].
  intros [Hs Hall]%StronglySorted_inv. apply list.NoDup_cons. split; [|by apply IH].
  rewrite list.Forall_forall in Hall. intros [Hne _]%Hall. done.
Qed.

(** ** The parser stays within the text *)

Lemma skip_ws_units s : units s → units (skip_ws s).
Proof.
  unfold units. induction s as [|c s IH]; [done|]. intros H. cbn [skip_ws]. destruct (json_ws c); [|done].
  apply IH. by apply list.Forall_cons in H as [_ ?].
Qed.

Lemma hex_value_small c n : hex_value c = Some n → (n < 16)%N.
Proof. unfold hex_value. intros H. repeat case_match; simplify_eq; lia. Qed.

Lemma hex4_small a b c d n : hex4 a b c d = Some n → (n < 65536)%N.
Proof.
  unfold hex4. intros (a' & Ha & (b' & Hb & (c' & Hc & (d' & Hd & H)%bind_Some)%bind_Some)%bind_Some)%bind_Some.
  apply hex_value_small in Ha, Hb, Hc, Hd. apply (inj Some) in H as <-. lia.
Qed.

Lemma unescape_small c n : unescape c = Some n → (n < 65536)%N.
Proof. unfold unescape. intros H. repeat case_match; simplify_eq; lia. Qed.

Lemma parse_chars_units n s t r : (length s ≤ n)%nat → units s → parse_chars s = Some (t, r) → units t ∧ units r.
Proof.
  revert s t r. induction n as [|n IH]; intros s t r Hlen Hs H.
  { destruct s; [discriminate H|cbn in Hlen; lia]. }
  assert (∀ s' x t' r' , (length s' ≤ n)%nat → units s' → (x < 65536)%N →
            ('(t, r) ← parse_chars s'; Some (x :: t, r)) = Some (t', r') → units t' ∧ units r') as Hstep.
  { intros s' x t' r' Hl Hu Hx ([t1 r1] & H1 & H2)%bind_Some. simplify_eq.
    destruct (IH _ _ _ Hl Hu H1). split; [by apply list.Forall_cons|done]. }
  destruct s as [|c s]; [discriminate H|]. cbn in Hlen. apply list.Forall_cons in Hs as [Hc Hs].
  assert ((c = 34%N ∧ (t, r) = ([], s)) ∨
          (∃ a b c' d s' x, s = 117%N :: a :: b :: c' :: d :: s' ∧ hex4 a b c' d = Some x
             ∧ ('(t, r) ← parse_chars s'; Some (x :: t, r)) = Some (t, r)) ∨
          (∃ e s' x, s = e :: s' ∧ unescape e = Some x ∧ ('(t, r) ← parse_chars s'; Some (x :: t, r)) = Some (t, r)) ∨
          ('(t, r) ← parse_chars s; Some (c :: t, r)) = Some (t, r)) as Hcases.
  { clear -H. destruct (N.eq_dec c 34%N) as [->|H34]; [left; cbn in H; by simplify_eq|right].
    destruct (N.eq_dec c 92%N) as [->|H92].
    - destruct s as [|e s]; [discriminate H|]. destruct (N.eq_dec e 117%N) as [->|H117].
      + left. destruct s as [|a [|b [|c' [|d s]]]]; try (cbn in H; discriminate H).
        cbn [parse_chars] in H. apply bind_Some in H as (x & Hx & H). by exists a, b, c', d, s, x.
      + right; left. exists e, s.
        assert ((x ← unescape e; '(t, r') ← parse_chars s; Some (x :: t, r')) = Some (t, r)) as He.
        { rewrite <-H. clear -H117. cbn [parse_chars]. repeat (case_match; try done). }
        apply bind_Some in He as (x & Hx & He). by exists x.
    - right; right. cbn [parse_chars] in H.
      assert ((if ((c <? 32) || (c =? 92))%N then None else '(t, r') ← parse_chars s; Some (c :: t, r')) = Some (t, r)) as He.
      { rewrite <-H. clear -H34 H92. repeat (case_match; try done). }
      by destruct (_ || _). }
  destruct Hcases as [[-> Heq]|[(a & b & c' & d & s' & x & -> & Hx & H')|[(e & s' & x & -> & Hx & H')|H']]].
  - simplify_eq. split; [constructor|done].
  - eapply Hstep; [| | |exact H']; [cbn in Hlen; lia| |by eapply hex4_small].
    by do 5 (apply list.Forall_cons in Hs as [_ Hs]).
  - eapply Hstep; [| | |exact H']; [cbn in Hlen; lia| |by eapply unescape_small].
    by apply list.Forall_cons in Hs as [_ Hs].
  - eapply Hstep; [| | |exact H']; [lia|done|done].
Qed.

Lemma span_digits_units s d r : units s → span_digits s = (d, r) → units r.
Proof.
  unfold units. revert d r. induction s as [|c s IH]; intros d r Hs H; cbn [span_digits] in H; [by simplify_eq|].
  destruct (is_digit c); [|by simplify_eq]. apply list.Forall_cons in Hs as [_ Hs].
  destruct (span_digits s) as [d' r'] eqn:E. simplify_eq. by eapply IH.
Qed.

Lemma tail_units c s : units (c :: s) → units s.
Proof. by intros [_ ?]%list.Forall_cons. Qed.

Lemma parse_exponent_units s e r : units s → parse_exponent s = Some (e, r) → units r.
Proof.
  intros Hs H. unfold parse_exponent in H. destruct s as [|c s]; [by simplify_eq|].
  destruct (_ || _); [|by simplify_eq]. apply tail_units in Hs.
  destruct (match s with 43%N :: r' => (1, r') | 45%N :: r' => (-1, r') | _ => (1, s) end) as [sg r1] eqn:E.
  assert (units r1) as Hr1.
  { clear H. destruct s as [|c' s']; [by simplify_eq|]. pose proof (tail_units _ _ Hs).
    repeat case_match; by simplify_eq. }
  destruct (span_digits r1) as [ds r2] eqn:E2. destruct (truthy ds); [|done]. simplify_eq.
  by eapply span_digits_units.
Qed.

Lemma parse_number_units s n r : units s → parse_number s = Some (n, r) → units r.
Proof.
  intros Hs H. unfold parse_number in H.
  destruct (match s with 45%N :: r => (true, r) | _ => (false, s) end) as [neg s1] eqn:E.
  assert (units s1) as Hs1.
  { clear H. destruct s as [|c' s']; [by simplify_eq|]. pose proof (tail_units _ _ Hs).
    repeat case_match; by simplify_eq. }
  destruct (span_digits s1) as [ip s2] eqn:E2. apply span_digits_units in E2; [|done].
  destruct (_ || _); [done|]. apply bind_Some in H as ([fp s3] & H3 & H).
  assert (units s3) as Hs3.
  { clear H. destruct s2 as [|c' s']; [by simplify_eq|]. pose proof (tail_units _ _ E2).
    destruct (N.eq_dec c' 46%N) as [->|Hc].
    - destruct (span_digits s') as [d r'] eqn:E3. destruct (truthy d); [|done]. simplify_eq. by eapply span_digits_units.
    - assert (Some ([], c' :: s') = Some (fp, s3)) as He by (rewrite <-H3; clear -Hc; by repeat (case_match; try done)).
      by simplify_eq. }
  apply bind_Some in H as ([ex s4] & H4 & H). simplify_eq. by eapply parse_exponent_units.
Qed.

Lemma parse_lit_units lit x s v r : units s → parse_lit lit x s = Some (v, r) → v = x ∧ units r.
Proof. unfold parse_lit. intros Hs H. destruct (startsWith _ _); [|done]. simplify_eq. split; [done|by apply list.Forall_drop]. Qed.

Lemma tidy_set k v fs : units k → tidy v → tidy (JObj fs) → tidy (JObj (obj_set k v fs)).
Proof.
  rewrite !tidy_obj. intros Hk Hv [Ho Hs]. split; [by apply obj_set_in_order|].
  rewrite list.Forall_forall in Hs |- *. intros e He. destruct (obj_set_elem _ _ _ _ He) as [->|?]; [done|by apply Hs].
Qed.


(** ** The values *)

Definition tidy_at (fuel : nat) : Prop :=
  (∀ s v r, units s → parse_value fuel s = Some (v, r) → tidy v ∧ units r)
  ∧ (∀ s l r, units s → parse_items fuel s = Some (l, r) → Forall tidy l ∧ units r)
  ∧ (∀ acc s fs r, units s → tidy (JObj acc) → parse_members fuel acc s = Some (fs, r) → tidy (JObj fs) ∧ units r).

Lemma tidy_items f s l r : tidy_at f → units s → parse_items (S f) s = Some (l, r) → Forall tidy l ∧ units r.
Proof.
  intros (IHv & IHi & _) Hs H. cbn [parse_items] in H. apply bind_Some in H as ([v r1] & Hv & H).
  apply IHv in Hv as [Hv Hr1%skip_ws_units]; [|done]. destruct (skip_ws r1) as [|c r2]; [done|].
  apply tail_units in Hr1. destruct (N.eq_dec c 44%N) as [->|H44].
  - apply bind_Some in H as ([l' r3] & Hl & H). simplify_eq. apply IHi in Hl as [Hl Hr]; [|done].
    split; [by constructor|done].
  - destruct (N.eq_dec c 93%N) as [->|H93]; [simplify_eq; split; [by repeat constructor|done]|].
    exfalso. clear -H H44 H93. by repeat (case_match; try done).
Qed.

Lemma tidy_members f acc s fs r : tidy_at f → units s → tidy (JObj acc) →
  parse_members (S f) acc s = Some (fs, r) → tidy (JObj fs) ∧ units r.
Proof.
  intros (IHv & _ & IHm) Hs%skip_ws_units Hacc H. cbn [parse_members] in H. destruct (skip_ws s) as [|c s1]; [done|].
  apply tail_units in Hs. destruct (N.eq_dec c 34%N) as [->|Hc]; [|exfalso; clear -H Hc; by repeat (case_match; try done)].
  apply bind_Some in H as ([k r1] & Hk & H). apply (parse_chars_units (length s1)) in Hk as [Hk Hr1%skip_ws_units]; [|done..].
  destruct (skip_ws r1) as [|c r2]; [done|]. apply tail_units in Hr1.
  destruct (N.eq_dec c 58%N) as [->|Hc]; [|exfalso; clear -H Hc; by repeat (case_match; try done)].
  apply bind_Some in H as ([v r3] & Hv & H). apply IHv in Hv as [Hv Hr3%skip_ws_units]; [|done].
  destruct (skip_ws r3) as [|c r4]; [done|]. apply tail_units in Hr3.
  destruct (N.eq_dec c 44%N) as [->|H44]; [exact (IHm _ _ _ _ Hr3 (tidy_set _ _ _ Hk Hv Hacc) H)|].
  destruct (N.eq_dec c 125%N) as [->|H125]; [simplify_eq; split; [by apply tidy_set|done]|].
  exfalso. clear -H H44 H125. by repeat (case_match; try done).
Qed.

Lemma tidy_value f s v r : tidy_at f → units s → parse_value (S f) s = Some (v, r) → tidy v ∧ units r.
Proof.
  intros (_ & IHi & IHm) Hs%skip_ws_units H. cbn [parse_value] in H. destruct (skip_ws s) as [|c s1]; [done|].
  pose proof (tail_units _ _ Hs) as Hs1. pose proof (skip_ws_units _ Hs1) as Hs2.
  destruct (c =? 34)%N.
  { apply bind_Some in H as ([t r1] & Ht & H). apply (parse_chars_units (length s1)) in Ht as [? ?]; [|done..]. by simplify_eq. }
  destruct (c =? 91)%N.
  { assert ((∃ r', skip_ws s1 = 93%N :: r' ∧ (v, r) = (JArr [], r'))
            ∨ ('(l, r') ← parse_items f s1; Some (JArr l, r')) = Some (v, r)) as [(r' & E & ?)|H'].
    { clear -H. destruct (skip_ws s1) as [|c r']; [by right|]. destruct (N.eq_dec c 93%N) as [->|Hc].
      - left. exists r'. by simplify_eq.
      - right. rewrite <-H. clear -Hc. by repeat (case_match; try done). }
    - simplify_eq. rewrite E in Hs2. by apply tail_units in Hs2.
    - apply bind_Some in H' as ([l r1] & Hl & H'). apply IHi in Hl as [Hl ?]; [|done]. simplify_eq. by rewrite tidy_arr. }
  destruct (c =? 123)%N.
  { assert ((∃ r', skip_ws s1 = 125%N :: r' ∧ (v, r) = (JObj [], r'))
            ∨ ('(l, r') ← parse_members f [] s1; Some (JObj l, r')) = Some (v, r)) as [(r' & E & ?)|H'].
    { clear -H. destruct (skip_ws s1) as [|c r']; [by right|]. destruct (N.eq_dec c 125%N) as [->|Hc].
      - left. exists r'. by simplify_eq.
      - right. rewrite <-H. clear -Hc. by repeat (case_match; try done). }
    - simplify_eq. rewrite E in Hs2. apply tail_units in Hs2. split; [|done]. apply tidy_obj. split; constructor.
    - apply bind_Some in H' as ([l r1] & Hl & H'). apply IHm in Hl as [Hl ?]; [by simplify_eq|done|].
      apply tidy_obj. split; constructor. }
  destruct (c =? 116)%N; [apply parse_lit_units in H as [-> ?]; [done|done]|].
  destruct (c =? 102)%N; [apply parse_lit_units in H as [-> ?]; [done|done]|].
  destruct (c =? 110)%N; [apply parse_lit_units in H as [-> ?]; [done|done]|].
  apply bind_Some in H as ([n r1] & Hn & H). apply parse_number_units in Hn; [|done]. by simplify_eq.
Qed.

Lemma tidy_parser f : tidy_at f.
Proof.
  induction f as [|f IH]; [done|]. repeat split_and!; intros *.
  - by apply tidy_value.
  - by apply tidy_items.
  - by apply tidy_members.
Qed.

(** What [JSON.parse] gives is tidy. *)
Theorem parsed_tidy s v : units s → JSON_parse s = Some v → tidy v.
Proof.
  unfold JSON_parse. intros Hs ([v' r] & Hv & H)%bind_Some. apply (tidy_parser _) in Hv as [Hv _]; [|done].
  destruct (truthy _); [done|]. by simplify_eq.
Qed.

Lemma storable_tidy v : storable v → tidy v.
Proof.
  induction v as [| |n|s|l IH|fs IH] using json_nested_ind; try done.
  - rewrite storable_arr, tidy_arr. intros H. induction IH as [|x l Hx _ IHl]; [constructor|].
    apply list.Forall_cons in H as [? ?]. constructor; auto.
  - rewrite storable_obj, tidy_obj, <-fromEntries_ordered. intros [Ho H]. split; [done|]. clear Ho.
    induction IH as [|[k x] fs Hx _ IHl]; [constructor|]. apply list.Forall_cons in H as [[? ?] ?]. constructor; auto.
Qed.
