(* ===== verification/ModelPricing.v ===== *)
(** * Model prices of the system settings

    Models [features/system-settings/models]: [pricing-format.ts],
    [model-pricing-core.ts], [model-pricing-snapshots.ts], the rows, edits and
    deletions of [model-ratio-visual-editor.tsx], the editor panel of
    [model-pricing-sheet.tsx] and [safeJsonParse] of [utils/json-parser.ts].

    The prices of all models are ten JSON texts, each an object from model names
    to numbers or strings; the editor reads one model out of them and writes it
    back.  A text that holds something other than an object is outside of the
    declared type; functions that read it have no result.  The translation
    function and the order of [localeCompare] are parameters. *)

From stdpp Require Import sorting.
From S2P Require Import Prelude StableSort JsValue NumFacts JsCollections FloatError NumRounding NumberText Regex BillingExpr StringFacts JsonText TaskExpr.
Import BillingExpr TaskExpr.

Module ModelPricing.

(** ** Numbers *)

(** [Number.parseFloat(s)]: the longest prefix that is a decimal. *)
Definition parseFloat (s : jstr) : jsnum :=
  let t := trim_start s in
  let '(neg, t1) := match t with 43%N :: r => (false, r) | 45%N :: r => (true, r) | _ => (false, t) end in
  if startsWith t1 (js "Infinity") then S754_infinity neg
  else
    let '(ip, r1) := span_digits t1 in
    let '(fp, _) as fr := match r1 with 46%N :: r => span_digits r | _ => ([], r1) end in
    if negb (truthy ip) && negb (truthy fp) then S754_nan
    else
      let ex := match parse_exponent fr.2 with Some (ex, _) => ex | None => 0 end in
      num_of_dec neg (digits_value (ip ++ fp)) (ex - Z.of_nat (length fp)).

(** [a - b], [Math.max(a, b)] of numbers that are not NaN, [Number.EPSILON] *)
Definition num_sub (a b : jsnum) : jsnum := SFsub 53 1024 a b.
Definition num_max (a b : jsnum) : jsnum := if num_ltb a b then b else a.
Definition EPSILON : jsnum := S754_finite false 4503599627370496 (-104).

Definition DISPLAY_DECIMALS : Z := 12.
Definition SNAP_DECIMALS : Z := 8.
Definition SNAP_EPSILON : jsnum := num_of_dec false 1 (-12).

Definition roundToDecimals (value : jsnum) (decimals : Z) : jsnum :=
  let factor := num_of_Z (10 ^ decimals) in
  num_div (num_round (num_mul value factor)) factor.

(** The loop of [snapFloatDrift] over the remaining decimals. *)
Fixpoint snap_loop (value tolerance : jsnum) (decimals : list Z) : jsnum :=
  match decimals with
  | [] => value
  | d :: rest =>
      let rounded := roundToDecimals value d in
      if num_leb (SFabs (num_sub value rounded)) tolerance then rounded else snap_loop value tolerance rest
  end.

Definition snapFloatDrift (value : jsnum) : jsnum :=
  let tolerance := num_max SNAP_EPSILON (num_mul (num_mul (SFabs value) EPSILON) (num_of_Z 8)) in
  snap_loop value tolerance (seqZ 0 (SNAP_DECIMALS + 1)).

Definition formatPricingNumber (value : jsnum) : jstr :=
  if isFinite value
  then num_to_string (parseFloat (toFixed DISPLAY_DECIMALS (snapFloatDrift value)))
  else [].

Example formatPricingNumber_ex :
  map formatPricingNumber [num_mul (num_of_dec false 1 (-1)) (num_of_Z 3); num_of_dec false 375 (-2);
    num_div (num_of_Z 1) (num_of_Z 3); num_of_Z 15; S754_nan]
  = [js "0.3"; js "3.75"; js "0.333333333333"; js "15"; []].
Proof. vm_compute. reflexivity. Qed.

(** [toNumberOrNull] of a text that may be missing. *)
Definition toNumberOrNull (value : option jstr) : option jsnum :=
  match value with
  | None | Some [] => None
  | Some s => let num := Number s in if isFinite num then Some num else None
  end.

(** [hasValue], [hasPricingValue] of a text that may be missing. *)
Definition hasValue (value : option jstr) : bool := truthy_opt value.

(** ** Settings and snapshots *)

Inductive NumKey :=
| kPrice | kRatio | kCache | kCreateCache | kCompletion | kImage | kAudio | kAudioCompletion.
#[export] Instance NumKey_eq_dec : EqDecision NumKey.
Proof. solve_decision. Defined.

(** The options the prices are stored in. *)
Inductive OptionKey := opt_num (k : NumKey) | opt_mode | opt_expr.
#[export] Instance OptionKey_eq_dec : EqDecision OptionKey.
Proof. solve_decision. Defined.

Definition num_keys : list NumKey :=
  [kPrice; kRatio; kCache; kCreateCache; kCompletion; kImage; kAudio; kAudioCompletion].
Definition option_keys : list OptionKey := map opt_num num_keys ++ [opt_mode; opt_expr].

(** The ten texts, by option. *)
Definition Texts := OptionKey → jstr.
Definition Fields := list (jstr * json).
Definition Maps := OptionKey → Fields.

Inductive PricingMode := per_token | per_request | tiered_expr.
#[export] Instance PricingMode_eq_dec : EqDecision PricingMode.
Proof. solve_decision. Defined.

(** [ModelPricingSnapshot] and [ModelRatioData]: the eight optional texts are
    given by key. *)
Record ModelPricingSnapshot := mkSnapshot {
  name : jstr; values : NumKey → option jstr; billingMode : option PricingMode;
  billingExpr : option jstr; requestRuleExpr : option jstr; hasConflict : bool }.

Definition safeJsonParse (value : jstr) (fallback : json) : json :=
  if truthy (trim value) then default fallback (JSON_parse (trim value)) else fallback.

(** The object of a text, [None] for a value of another type. *)
Definition fields_of (value : jstr) : option Fields :=
  match safeJsonParse value (JObj []) with JObj fs => Some fs | _ => None end.

Definition is_record (value : jstr) : bool := bool_decide (is_Some (fields_of value)).

Definition parse_maps (texts : Texts) : option Maps :=
  if forallb (λ k, is_record (texts k)) option_keys
  then Some (λ k, default [] (fields_of (texts k))) else None.

Definition isBasePricingUnset (snapshot : option ModelPricingSnapshot) : bool :=
  match snapshot with
  | None => true
  | Some s => negb (bool_decide (billingMode s = Some tiered_expr))
              && negb (hasValue (values s kPrice)) && negb (hasValue (values s kRatio))
  end.

(** [map[name]?.toString() || ''] *)
Definition number_text_of (v : option json) : jstr :=
  match v with None | Some JNull => [] | Some v => json_to_string v end.

Definition modelNames (maps : Maps) : list jstr := dedup (concat (map (λ k, obj_keys (maps k)) option_keys)).

Definition is_tiered (maps : Maps) (n : jstr) : bool :=
  match field_get n (maps opt_mode) with Some (JStr m) => m === js "tiered_expr" | _ => false end.

Definition full_expr (maps : Maps) (n : jstr) : jstr :=
  match field_get n (maps opt_expr) with Some (JStr e) => e | _ => [] end.

Definition ratio_keys : list NumKey :=
  [kRatio; kCompletion; kCache; kCreateCache; kImage; kAudio; kAudioCompletion].

(** The callback of [buildModelSnapshots]; [None] when the reading of the rules
    throws. *)
Definition model_snapshot (maps : Maps) (n : jstr) : option ModelPricingSnapshot :=
  let text k := number_text_of (field_get n (maps (opt_num k))) in
  if is_tiered maps n
  then
    '(pureExpr, rules) ← splitBillingExprAndRequestRules (full_expr maps n);
    Some (mkSnapshot n (λ k, Some (text k)) (Some tiered_expr) (Some pureExpr) (Some rules) false)
  else
    Some (mkSnapshot n (λ k, Some (text k)) (Some (if truthy (text kPrice) then per_request else per_token)) None None
            (truthy (text kPrice) && existsb (λ k, truthy (text k)) ratio_keys)).

Definition buildModelSnapshots (texts : Texts) : option (list ModelPricingSnapshot) :=
  maps ← parse_maps texts;
  mapM (model_snapshot maps) (modelNames maps).

(** The eleven texts [getSnapshotSignature] serializes. *)
Definition mode_text (m : PricingMode) : jstr :=
  match m with per_token => js "per-token" | per_request => js "per-request" | tiered_expr => js "tiered_expr" end.
Definition signature_fields (s : ModelPricingSnapshot) : list (jstr * json) :=
  zip [js "price"; js "ratio"; js "cacheRatio"; js "createCacheRatio"; js "completionRatio"; js "imageRatio";
       js "audioRatio"; js "audioCompletionRatio"; js "billingMode"; js "billingExpr"; js "requestRuleExpr"]
    (map JStr (map (λ k, default [] (values s k)) num_keys
       ++ [mode_text (default per_token (billingMode s)); default [] (billingExpr s); default [] (requestRuleExpr s)])).

Definition getSnapshotSignature (snapshot : option ModelPricingSnapshot) : jstr :=
  match snapshot with None => [] | Some s => JSON_stringify (JObj (signature_fields s)) end.

(** ** Summaries *)

Section labels.
Context (t : jstr → jstr).

(** [(text.match(/tier\(/g) || []).length] *)
Fixpoint count_tiers (fuel : nat) (s : jstr) : nat :=
  match fuel with
  | O => O
  | S f => match indexOf s (js "tier(") with
           | Some i => S (count_tiers f (drop (i + 5) s))
           | None => O
           end
  end.

Definition dot_separator : jstr := [32%N; 183%N; 32%N].

Definition ratioToPrice (ratio denominator : option jstr) : jstr :=
  let denominatorNumber := if truthy_opt denominator then toNumberOrNull denominator else Some (num_of_Z 2) in
  match toNumberOrNull ratio, denominatorNumber with
  | Some r, Some d => formatPricingNumber (num_mul r d)
  | _, _ => []
  end.

Definition getModeLabel (mode : option PricingMode) : jstr :=
  match mode with
  | Some per_request => js "Per-request" | Some tiered_expr => js "Expression" | _ => js "Per-token"
  end.

Definition getModeVariant (mode : option PricingMode) : jstr :=
  match mode with Some per_request => js "warning" | Some tiered_expr => js "info" | _ => js "success" end.

Definition getExpressionSummary (row : ModelPricingSnapshot) : jstr :=
  let expr := default [] (billingExpr row) in
  let tierCount := count_tiers (length expr) expr in
  if (0 <? tierCount)%nat
  then t (js "Tiered pricing") ++ dot_separator ++ digits_Z (Z.of_nat tierCount) ++ js " " ++ t (js "tiers")
  else t (js "Expression pricing").

Definition extra_keys : list NumKey := [kCompletion; kCache; kCreateCache; kImage; kAudio; kAudioCompletion].

Definition getPriceSummary (row : ModelPricingSnapshot) : jstr :=
  match billingMode row with
  | Some tiered_expr => getExpressionSummary row
  | Some per_request =>
      match values row kPrice with
      | Some (_ :: _ as p) => js "$" ++ p ++ js " / " ++ t (js "request")
      | _ => t (js "Unset price")
      end
  | _ =>
      let inputPrice := ratioToPrice (values row kRatio) None in
      if negb (truthy inputPrice) then t (js "Unset price")
      else
        let extraCount := length (filter (λ k, hasValue (values row k) = true) extra_keys) in
        t (js "Input") ++ js " $" ++ inputPrice
        ++ (if (0 <? extraCount)%nat
            then dot_separator ++ digits_Z (Z.of_nat extraCount) ++ js " " ++ t (js "extras") else [])
  end.

Definition getPriceDetail (row : ModelPricingSnapshot) : jstr :=
  match billingMode row with
  | Some tiered_expr =>
      if truthy_opt (requestRuleExpr row) then t (js "Includes request rules") else t (js "Expression based")
  | Some per_request => t (js "Fixed request price")
  | _ =>
      let inputPrice := ratioToPrice (values row kRatio) None in
      if negb (truthy inputPrice) then t (js "No base input price")
      else
        let details :=
          take 2 (omap (λ '(k, label),
            if hasValue (values row k)
            then Some (t label ++ js " $" ++ ratioToPrice (values row k) (Some inputPrice)) else None)
            [(kCompletion, js "Output"); (kCache, js "Cache"); (kCreateCache, js "Cache write")]) in
        match details with [] => t (js "Base input price only") | _ => join dot_separator details end
  end.
End labels.

(** ** The table *)

Record ModelRow := mkRow {
  displayed : ModelPricingSnapshot; saved : option ModelPricingSnapshot; draft : option ModelPricingSnapshot;
  isDraftChanged : bool; isDraftDeleted : bool; isDraftNew : bool }.

Definition find_row (n : jstr) (rows : list ModelPricingSnapshot) : option ModelPricingSnapshot :=
  list.head (filter (λ r, name r = n) rows).

Definition new_row (n : jstr) : ModelPricingSnapshot := mkSnapshot n (λ _, None) (Some per_token) None None false.

Definition model_row (savedRows draftRows : list ModelPricingSnapshot) (n : jstr) : ModelRow :=
  let s := find_row n savedRows in
  let d := find_row n draftRows in
  mkRow (match s, d with Some r, _ => r | None, Some r => r | None, None => new_row n end) s d
    (negb (getSnapshotSignature s === getSnapshotSignature d))
    (bool_decide (is_Some s) && negb (bool_decide (is_Some d)))
    (negb (bool_decide (is_Some s)) && bool_decide (is_Some d)).

(** The rows of the table; [candidates] are given when only unset models are
    shown. *)
Definition models (localeCompare : jstr → jstr → Z) (savedTexts texts : Texts) (candidates : option (list jstr))
    : option (list ModelRow) :=
  savedRows ← buildModelSnapshots savedTexts;
  draftRows ← buildModelSnapshots texts;
  let names := match candidates with
               | Some l => dedup l
               | None => dedup (map name savedRows ++ map name draftRows)
               end in
  Some (sort_by (λ a b, localeCompare (name (displayed a)) (name (displayed b)))
    (filter (λ r, candidates = None ∨ isBasePricingUnset (saved r) = true)
      (filter (λ r, isDraftDeleted r = false) (map (model_row savedRows draftRows) names)))).

(** The data [handleEdit] opens the editor with. *)
Definition editDataOf (row : ModelRow) : ModelPricingSnapshot :=
  let m := match draft row, saved row with Some r, _ => r | None, Some r => r | None, None => displayed row end in
  let mode := if bool_decide (billingMode m = Some tiered_expr) then tiered_expr
              else if hasValue (values m kPrice) then per_request else per_token in
  mkSnapshot (name m) (values m) (Some mode) (billingExpr m) (requestRuleExpr m) false.

(** ** Writing *)

Definition obj_delete {A} (k : jstr) (fs : list (jstr * A)) : list (jstr * A) := filter (λ e, e.1 ≠ k) fs.

Definition set_map (k : OptionKey) (fs : Fields) (maps : Maps) : Maps :=
  λ k', if decide (k' = k) then fs else maps k'.

(** [delete map[name]] on the ten maps. *)
Definition delete_model (n : jstr) (maps : Maps) : Maps := λ k, obj_delete n (maps k).

Definition setIfPresent (n : jstr) (data : ModelPricingSnapshot) (maps : Maps) (k : NumKey) : Maps :=
  match values data k with
  | None | Some [] => maps
  | Some v =>
      let parsed := parseFloat v in
      if isFinite parsed
      then set_map (opt_num k) (obj_set n (JNum parsed) (maps (opt_num k))) maps else maps
  end.

(** The body of the loop over the target names. *)
Definition persist_model (data : ModelPricingSnapshot) (maps : Maps) (n : jstr) : Maps :=
  let cleared := delete_model n maps in
  if bool_decide (billingMode data = Some tiered_expr)
  then
    let combined := combineBillingExpr (default [] (billingExpr data)) (default [] (requestRuleExpr data)) in
    let moded := if truthy combined
                 then set_map opt_expr (obj_set n (JStr combined) (cleared opt_expr))
                        (set_map opt_mode (obj_set n (JStr (js "tiered_expr")) (cleared opt_mode)) cleared)
                 else cleared in
    foldl (setIfPresent n data) moded num_keys
  else if hasValue (values data kPrice)
  then setIfPresent n data cleared kPrice
  else foldl (setIfPresent n data) cleared [kRatio; kCache; kCreateCache; kCompletion; kImage; kAudio; kAudioCompletion].

(** The texts [onChange] stores. *)
Definition texts_of (maps : Maps) : Texts := λ k, JSON_stringify_2 (JObj (maps k)).

Definition persistPricingData (texts : Texts) (data : ModelPricingSnapshot) (targetNames : list jstr) : option Texts :=
  maps ← parse_maps texts; Some (texts_of (foldl (persist_model data) maps targetNames)).

(** What [handleDelete] does to the texts. *)
Definition deleteModel (texts : Texts) (n : jstr) : option Texts :=
  maps ← parse_maps texts; Some (texts_of (delete_model n maps)).

(** The targets of [handleBatchCopy]. *)
Definition batch_targets (source : ModelPricingSnapshot) (selected : list jstr) : list jstr :=
  dedup (name source :: selected).

(** ** The editor beside the table *)

Record EditorState := mkEditor { editData : option ModelPricingSnapshot; editorOpen : bool; sheetOpen : bool }.

Definition closedEditor : EditorState := mkEditor None false false.

Definition handleEdit (isMobile : bool) (row : ModelRow) (e : EditorState) : EditorState :=
  mkEditor (Some (editDataOf row)) true (if isMobile then true else sheetOpen e).

Definition handleAdd (isMobile : bool) (e : EditorState) : EditorState :=
  mkEditor None true (if isMobile then true else sheetOpen e).

(** The new filter and the editor, which a changed filter closes. *)
Definition handleGlobalFilterChange (previous next : jstr) (e : EditorState) : jstr * EditorState :=
  (next, if next === previous then e else closedEditor).

Definition handleDelete (n : jstr) (texts : Texts) (e : EditorState) : option (Texts * EditorState) :=
  texts' ← deleteModel texts n;
  Some (texts', if bool_decide (name <$> editData e = Some n) then closedEditor else e).

(** [modeCounts]: the rows by mode, and those with a task expression. *)
Definition modeCounts (taskModelNames : list jstr) (rows : list ModelRow) : nat * nat * nat * nat :=
  let mode r := default per_token (billingMode (displayed r)) in
  let count m := length (filter (λ r, mode r = m) rows) in
  (count per_token, count per_request, count tiered_expr,
   length (filter (λ r, name (displayed r) ∈ taskModelNames ∧ billingMode (displayed r) = Some tiered_expr
                        ∧ truthy_opt (billingExpr (displayed r)) = true) rows)).

(** The rows the search field keeps. *)
Definition globalFilterFn (toLowerCase : jstr → jstr) (filterValue : jstr) (row : ModelRow) : bool :=
  includes (toLowerCase (name (displayed row))) (toLowerCase filterValue).

End ModelPricing.
