(* ===== verification/PricingPanel.v ===== *)
(** * The editor panel of a model's prices

    Models the state and handlers of [ModelPricingEditorPanel] in
    [features/system-settings/models/model-pricing-sheet.tsx] with the lanes of
    [model-pricing-core.ts].

    The administrator enters prices; the settings store ratios.  The panel keeps
    both: the drafts of the prices in its state, the ratios in the form.  The
    usage schemas of the models, the order of [localeCompare] and the translation
    function are parameters. *)

From stdpp Require Import sorting.
From S2P Require Import Prelude StableSort JsValue NumFacts JsCollections FloatError NumRounding NumberText Regex BillingExpr StringFacts JsonText TaskExpr ModelPricing.
Import BillingExpr TaskExpr ModelPricing.

Module PricingPanel.

(** ** Lanes *)

Inductive LaneKey := completion | cache | createCache | image | audioInput | audioOutput.
#[export] Instance LaneKey_eq_dec : EqDecision LaneKey.
Proof. solve_decision. Defined.

(** The keys of [laneConfigs], in order. *)
Definition lane_keys : list LaneKey := [completion; cache; createCache; image; audioInput; audioOutput].

Definition EMPTY_LANE_PRICES : LaneKey → jstr := λ _, [].
Definition EMPTY_LANE_ENABLED : LaneKey → bool := λ _, false.

Definition ratioFieldByLane (lane : LaneKey) : NumKey :=
  match lane with
  | completion => kCompletion | cache => kCache | createCache => kCreateCache | image => kImage
  | audioInput => kAudio | audioOutput => kAudioCompletion
  end.

Definition titleKey (lane : LaneKey) : jstr :=
  match lane with
  | completion => js "Completion price" | cache => js "Cache read price" | createCache => js "Cache write price"
  | image => js "Image input price" | audioInput => js "Audio input price" | audioOutput => js "Audio output price"
  end.

(** [numericDraftRegex.test(value)]: digits, of which a point may precede some. *)
Definition numericDraft (value : jstr) : bool :=
  match (span_digits value).2 with [] => true | 46%N :: r => forallb is_digit r | _ => false end.

Definition ratioToBasePrice (ratio : option jstr) : jstr :=
  match toNumberOrNull ratio with None => [] | Some num => formatPricingNumber (num_mul num (num_of_Z 2)) end.

Definition deriveLanePrice (ratio denominator : option jstr) : jstr :=
  match toNumberOrNull ratio, toNumberOrNull denominator with
  | Some r, Some d => formatPricingNumber (num_mul r d)
  | _, _ => []
  end.

Definition createInitialLaneState (data : option ModelPricingSnapshot)
    : jstr * (LaneKey → jstr) * (LaneKey → bool) :=
  match data with
  | None => ([], EMPTY_LANE_PRICES, EMPTY_LANE_ENABLED)
  | Some d =>
      let promptPrice := ratioToBasePrice (values d kRatio) in
      let audioInputPrice := deriveLanePrice (values d kAudio) (Some promptPrice) in
      (promptPrice,
       λ lane, match lane with
               | audioOutput => deriveLanePrice (values d kAudioCompletion) (Some audioInputPrice)
               | _ => deriveLanePrice (values d (ratioFieldByLane lane)) (Some promptPrice)
               end,
       λ lane, hasValue (values d (ratioFieldByLane lane)))
  end.

(** ** State *)

Record Panel := mkPanel {
  pricingMode : PricingMode; promptPrice : jstr; lanePrices : LaneKey → jstr; laneEnabled : LaneKey → bool;
  panelExpr : jstr; panelRules : jstr; editorReloadToken : Z; autoSwitchedFor : option jstr;
  formName : jstr; formValues : NumKey → jstr }.

Definition update {K V} `{EqDecision K} (k : K) (v : V) (f : K → V) : K → V := λ k', if decide (k' = k) then v else f k'.

Definition setPricingMode (m : PricingMode) (p : Panel) : Panel :=
  mkPanel m (promptPrice p) (lanePrices p) (laneEnabled p) (panelExpr p) (panelRules p) (editorReloadToken p)
    (autoSwitchedFor p) (formName p) (formValues p).
Definition setPromptPrice (v : jstr) (p : Panel) : Panel :=
  mkPanel (pricingMode p) v (lanePrices p) (laneEnabled p) (panelExpr p) (panelRules p) (editorReloadToken p)
    (autoSwitchedFor p) (formName p) (formValues p).
Definition setLanePrices (f : LaneKey → jstr) (p : Panel) : Panel :=
  mkPanel (pricingMode p) (promptPrice p) f (laneEnabled p) (panelExpr p) (panelRules p) (editorReloadToken p)
    (autoSwitchedFor p) (formName p) (formValues p).
Definition setLaneEnabled (f : LaneKey → bool) (p : Panel) : Panel :=
  mkPanel (pricingMode p) (promptPrice p) (lanePrices p) f (panelExpr p) (panelRules p) (editorReloadToken p)
    (autoSwitchedFor p) (formName p) (formValues p).
Definition setBillingExpr (v : jstr) (p : Panel) : Panel :=
  mkPanel (pricingMode p) (promptPrice p) (lanePrices p) (laneEnabled p) v (panelRules p) (editorReloadToken p)
    (autoSwitchedFor p) (formName p) (formValues p).
Definition setRequestRuleExpr (v : jstr) (p : Panel) : Panel :=
  mkPanel (pricingMode p) (promptPrice p) (lanePrices p) (laneEnabled p) (panelExpr p) v (editorReloadToken p)
    (autoSwitchedFor p) (formName p) (formValues p).
Definition setAutoSwitched (v : option jstr) (p : Panel) : Panel :=
  mkPanel (pricingMode p) (promptPrice p) (lanePrices p) (laneEnabled p) (panelExpr p) (panelRules p)
    (editorReloadToken p) v (formName p) (formValues p).
Definition setFormName (v : jstr) (p : Panel) : Panel :=
  mkPanel (pricingMode p) (promptPrice p) (lanePrices p) (laneEnabled p) (panelExpr p) (panelRules p)
    (editorReloadToken p) (autoSwitchedFor p) v (formValues p).
Definition setFormValue (k : NumKey) (v : jstr) (p : Panel) : Panel :=
  mkPanel (pricingMode p) (promptPrice p) (lanePrices p) (laneEnabled p) (panelExpr p) (panelRules p)
    (editorReloadToken p) (autoSwitchedFor p) (formName p) (update k v (formValues p)).

Section panel.
Context (locale_le : jstr → jstr → bool) (usageSchemaByModel : jstr → option BillingUsageSchema) (t : jstr → jstr).

(** The effect that loads the edited model, or an empty form. *)
Definition loadEditData (editData : option ModelPricingSnapshot) (p : Panel) : Panel :=
  let '(prompt, prices, enabled) := createInitialLaneState editData in
  match editData with
  | Some d =>
      mkPanel (if bool_decide (billingMode d = Some tiered_expr) then tiered_expr
               else if hasValue (values d kPrice) then per_request else per_token)
        prompt prices enabled (default [] (billingExpr d)) (default [] (requestRuleExpr d))
        (editorReloadToken p + 1) None (name d) (λ k, default [] (values d k))
  | None => mkPanel per_token prompt prices enabled [] [] (editorReloadToken p + 1) None [] (λ _, [])
  end.

(** The effect that switches a task model without prices to expressions, once. *)
Definition autoSwitch (editData : option ModelPricingSnapshot) (p : Panel) : Panel :=
  match editData with
  | None => p
  | Some d =>
      if bool_decide (billingMode d = Some tiered_expr) then p
      else if hasValue (values d kPrice) || hasValue (values d kRatio) then p
      else match usageSchemaByModel (name d) with
           | None | Some [] => p
           | Some _ => if bool_decide (autoSwitchedFor p = Some (name d)) then p
                       else setAutoSwitched (Some (name d)) (setPricingMode tiered_expr p)
           end
  end.

Definition deriveLaneRatio (lane : LaneKey) (price nextPromptPrice : jstr) (nextLanePrices : LaneKey → jstr) : jstr :=
  let base := match lane with audioOutput => nextLanePrices audioInput | _ => nextPromptPrice end in
  match toNumberOrNull (Some price), toNumberOrNull (Some base) with
  | Some priceNumber, Some basePrice =>
      if num_eqb basePrice (S754_zero false) then [] else formatPricingNumber (num_div priceNumber basePrice)
  | _, _ => []
  end.

Definition ratioOfPrompt (prompt : jstr) : jstr :=
  match toNumberOrNull (Some prompt) with
  | Some inputPrice => formatPricingNumber (num_div inputPrice (num_of_Z 2))
  | None => []
  end.

Definition sync_lane (prompt : jstr) (prices : LaneKey → jstr) (enabled : LaneKey → bool) (p : Panel) (lane : LaneKey) : Panel :=
  if enabled lane
  then setFormValue (ratioFieldByLane lane) (deriveLaneRatio lane (prices lane) prompt prices) p
  else setFormValue (ratioFieldByLane lane) [] p.

Definition syncLaneRatios (prompt : jstr) (prices : LaneKey → jstr) (enabled : LaneKey → bool) (p : Panel) : Panel :=
  foldl (sync_lane prompt prices enabled) (setFormValue kRatio (ratioOfPrompt prompt) p) lane_keys.

Definition handlePromptPriceChange (value : jstr) (p : Panel) : Panel :=
  if numericDraft value
  then syncLaneRatios value (lanePrices p) (laneEnabled p) (setPromptPrice value p) else p.

Definition handleLanePriceChange (lane : LaneKey) (value : jstr) (p : Panel) : Panel :=
  if negb (numericDraft value) then p
  else
    let nextLanePrices := update lane value (lanePrices p) in
    let p1 := setLanePrices nextLanePrices p in
    let p2 := if laneEnabled p lane
              then setFormValue (ratioFieldByLane lane) (deriveLaneRatio lane value (promptPrice p) nextLanePrices) p1
              else p1 in
    if bool_decide (lane = audioInput) && laneEnabled p audioOutput
    then setFormValue kAudioCompletion
           (deriveLaneRatio audioOutput (nextLanePrices audioOutput) (promptPrice p) nextLanePrices) p2
    else p2.

Definition handleLaneToggle (lane : LaneKey) (checked : bool) (p : Panel) : Panel :=
  let enabled1 := update lane checked (laneEnabled p) in
  if checked
  then
    setFormValue (ratioFieldByLane lane) (deriveLaneRatio lane (lanePrices p lane) (promptPrice p) (lanePrices p))
      (setLanePrices (lanePrices p) (setLaneEnabled enabled1 p))
  else
    let prices1 := update lane [] (lanePrices p) in
    let p1 := setFormValue (ratioFieldByLane lane) [] p in
    if bool_decide (lane = audioInput)
    then setLanePrices (update audioOutput [] prices1)
           (setLaneEnabled (update audioOutput false enabled1) (setFormValue kAudioCompletion [] p1))
    else setLanePrices prices1 (setLaneEnabled enabled1 p1).

(** ** Expressions *)

Definition DEFAULT_TOKEN_BILLING_EXPR : jstr := jq "tier('base', p * 0 + c * 0)".

Definition defaultTaskBillingExpr (p : Panel) : jstr :=
  match usageSchemaByModel (trim (formName p)) with
  | Some schema => generateTaskExprFromConfig locale_le (Some (createDefaultTaskVisualConfig locale_le schema)) schema
  | None => []
  end.

Definition resolvedBillingExpr (p : Panel) : jstr :=
  if bool_decide (is_Some (usageSchemaByModel (trim (formName p))))
     && (negb (truthy (panelExpr p)) || (panelExpr p === DEFAULT_TOKEN_BILLING_EXPR))
  then defaultTaskBillingExpr p else panelExpr p.

Definition handleModeChange (nextMode : PricingMode) (p : Panel) : Panel :=
  let p1 := setPricingMode nextMode p in
  if bool_decide (nextMode = tiered_expr) && negb (truthy (panelExpr p))
  then setBillingExpr (or_else (defaultTaskBillingExpr p) DEFAULT_TOKEN_BILLING_EXPR) p1 else p1.

(** The price field, and the name field, of the form. *)
Definition handlePriceChange (value : jstr) (p : Panel) : Panel :=
  if numericDraft value then setFormValue kPrice value p else p.

(** ** Submitting *)

Inductive Warning := conflicting_settings | input_price_required | audio_input_required.

(** The conditions that [warnings] and [validatePricingValues] share. *)
Definition input_missing (p : Panel) : bool :=
  bool_decide (pricingMode p = per_token) && negb (bool_decide (is_Some (toNumberOrNull (Some (promptPrice p)))))
  && existsb (λ lane, laneEnabled p lane && truthy (lanePrices p lane)) lane_keys.
Definition audio_missing (p : Panel) : bool :=
  bool_decide (pricingMode p = per_token) && laneEnabled p audioOutput && negb (truthy (lanePrices p audioInput)).

Definition warnings (editData : option ModelPricingSnapshot) (p : Panel) : list Warning :=
  (if match editData with
      | Some d => hasValue (values d kPrice) && existsb (λ k, hasValue (values d k)) ratio_keys
      | None => false
      end then [conflicting_settings] else [])
  ++ (if input_missing p then [input_price_required] else [])
  ++ (if audio_missing p then [audio_input_required] else []).

Definition validatePricingValues (p : Panel) : bool := negb (input_missing p) && negb (audio_missing p).

Definition buildSubmitData (p : Panel) : ModelPricingSnapshot :=
  mkSnapshot (trim (formName p)) (λ k, Some (formValues p k)) (Some (pricingMode p))
    (if bool_decide (pricingMode p = tiered_expr) then Some (resolvedBillingExpr p) else None)
    (if bool_decide (pricingMode p = tiered_expr) then Some (panelRules p) else None) false.

(** [createModelPricingSchema] asks for a name only. *)
Definition createModelPricingSchema (p : Panel) : bool := truthy (formName p).

Definition commitDraft (p : Panel) : option ModelPricingSnapshot :=
  if createModelPricingSchema p && validatePricingValues p then Some (buildSubmitData p) else None.

(** [commitOpenEditor]: the texts and the editor after it, and whether the
    settings may be saved; [hasPanel] tells whether the panel is mounted. *)
Definition commitOpenEditor (hasPanel : bool) (p : Panel) (texts : Texts) (e : EditorState)
    : option (Texts * EditorState * bool) :=
  if negb (editorOpen e) || negb hasPanel then Some (texts, e, true)
  else match commitDraft p with
       | None => Some (texts, e, false)
       | Some data =>
           texts' ← persistPricingData texts data [name data];
           Some (texts', mkEditor (Some data) (editorOpen e) (sheetOpen e), true)
       end.

Inductive BatchResult := no_source | not_valid | no_targets | applied (source : jstr) (count : nat).

(** [handleBatchCopy] with the selected rows of the filtered table. *)
Definition handleBatchCopy (hasPanel : bool) (p : Panel) (selected : list jstr) (texts : Texts) (e : EditorState)
    : option (Texts * EditorState * BatchResult) :=
  match editData e with
  | None => Some (texts, e, no_source)
  | Some d =>
      let committed := if editorOpen e && hasPanel then commitDraft p else Some d in
      match committed with
      | None => Some (texts, e, not_valid)
      | Some sourceData =>
          let e' := if editorOpen e && hasPanel then mkEditor (Some sourceData) (editorOpen e) (sheetOpen e) else e in
          match selected with
          | [] => Some (texts, e', no_targets)
          | _ =>
              texts' ← persistPricingData texts sourceData (batch_targets sourceData selected);
              Some (texts', e', applied (name sourceData) (length selected))
          end
      end
  end.

(** ** Preview *)

Record PreviewRow := mkPreview { row_key : jstr; row_label : jstr; row_value : jstr; multiline : bool }.

Definition dollars_or_empty (shown : bool) (price : jstr) : jstr :=
  if shown && truthy price then js "$" ++ price else t (js "Empty").

Definition preview_key (lane : LaneKey) : jstr :=
  match lane with
  | completion => js "completion" | cache => js "cache" | createCache => js "createCache" | image => js "image"
  | audioInput => js "audio" | audioOutput => js "audioCompletion"
  end.

Definition buildPreviewRows (p : Panel) : list PreviewRow :=
  match pricingMode p with
  | tiered_expr =>
      [mkPreview (js "mode") (js "BillingMode") (js "tiered_expr") false;
       mkPreview (js "expr") (t (js "Expression"))
         (or_else (combineBillingExpr (resolvedBillingExpr p) (panelRules p)) (t (js "Empty"))) true]
  | per_request => [mkPreview (js "price") (js "ModelPrice") (or_else (formValues p kPrice) (t (js "Empty"))) false]
  | per_token =>
      mkPreview (js "inputPrice") (t (js "Input price")) (dollars_or_empty true (promptPrice p)) false
      :: map (λ lane, mkPreview (preview_key lane) (t (titleKey lane))
                (dollars_or_empty (laneEnabled p lane) (lanePrices p lane)) false) lane_keys
  end.
End panel.

End PricingPanel.
