(* ===== verification/PricingPanelFacts.v ===== *)
(** * The price panel keeps its ratios in step with its prices

    The administrator edits prices, the form stores ratios: whatever the handlers
    do, in any order, the ratios are those of the prices. *)

From stdpp Require Import sorting.
From S2P Require Import Prelude StableSort JsValue NumFacts JsCollections FloatError NumRounding NumberText Regex BillingExpr StringFacts JsonText TaskExpr ModelPricing PricingPanel.
Import BillingExpr TaskExpr ModelPricing PricingPanel.

Section panel_facts.
Context (locale_le : jstr → jstr → bool) (usageSchemaByModel : jstr → option BillingUsageSchema).

(** ** The actions of the panel *)

Inductive Action :=
| act_prompt (value : jstr) | act_lane (lane : LaneKey) (value : jstr) | act_toggle (lane : LaneKey) (checked : bool)
| act_mode (mode : PricingMode) | act_price (value : jstr) | act_name (value : jstr)
| act_expr (value : jstr) | act_rules (value : jstr).

Definition act (p : Panel) (a : Action) : Panel :=
  match a with
  | act_prompt v => handlePromptPriceChange v p
  | act_lane l v => handleLanePriceChange l v p
  | act_toggle l b => handleLaneToggle l b p
  | act_mode m => handleModeChange locale_le usageSchemaByModel m p
  | act_price v => handlePriceChange v p
  | act_name v => setFormName v p
  | act_expr v => setBillingExpr v p
  | act_rules v => setRequestRuleExpr v p
  end.

(** The ratio a lane must have. *)
Definition lane_ratio (p : Panel) (lane : LaneKey) : jstr :=
  if laneEnabled p lane then deriveLaneRatio lane (lanePrices p lane) (promptPrice p) (lanePrices p) else [].

Record synced (p : Panel) : Prop := {
  synced_prompt : formValues p kRatio = ratioOfPrompt (promptPrice p);
  synced_lane lane : formValues p (ratioFieldByLane lane) = lane_ratio p lane }.

(** ** Updates *)

Lemma update_same {K V} `{EqDecision K} (k : K) (v : V) f : update k v f k = v.
Proof. unfold update. by rewrite decide_True. Qed.
Lemma update_other {K V} `{EqDecision K} (k k' : K) (v : V) f : k' ≠ k → update k v f k' = f k'.
Proof. intros ?. unfold update. by rewrite decide_False. Qed.

#[local] Instance ratioField_inj : Inj (=) (=) ratioFieldByLane.
Proof. by intros [] []. Qed.

Lemma ratioField_not_base lane : ratioFieldByLane lane ≠ kRatio ∧ ratioFieldByLane lane ≠ kPrice.
Proof. by destruct lane. Qed.

(** A ratio depends on the price of its own lane, the input price and, for the
    audio output, the price of the audio input. *)
Lemma deriveLaneRatio_ext lane price prompt f g :
  (lane = audioOutput → f audioInput = g audioInput) → deriveLaneRatio lane price prompt f = deriveLaneRatio lane price prompt g.
Proof. unfold deriveLaneRatio. destruct lane; try done. intros H. by rewrite H. Qed.

(** The loop over the lanes writes each lane's field and no other. *)
Lemma sync_lanes_fields prompt prices enabled ks p :
  let q := foldl (sync_lane prompt prices enabled) p ks in
  formValues q kRatio = formValues p kRatio
  ∧ (∀ lane, formValues q (ratioFieldByLane lane)
       = if decide (lane ∈ ks) then (if enabled lane then deriveLaneRatio lane (prices lane) prompt prices else [])
         else formValues p (ratioFieldByLane lane))
  ∧ promptPrice q = promptPrice p ∧ lanePrices q = lanePrices p ∧ laneEnabled q = laneEnabled p.
Proof.
  revert p. induction ks as [|l ks IH]; intros p; cbn [foldl].
  { split; [done|]. split; [|done]. intros lane. by rewrite decide_False by (by intros ?%elem_of_nil). }
  destruct (IH (sync_lane prompt prices enabled p l)) as (Hr & Hl & Hp & Hq & He). cbv zeta in *.
  rewrite Hr, Hp, Hq, He. split; [by unfold sync_lane; destruct l, (enabled _)|]. split; [|by unfold sync_lane; destruct (enabled l)].
  intros lane. rewrite Hl. destruct (decide (lane ∈ ks)) as [Hin|Hin]; [by rewrite decide_True by (by right)|].
  unfold sync_lane. destruct (decide (lane = l)) as [->|Hne].
  - rewrite decide_True by left. destruct (enabled l); cbn [setFormValue formValues]; by rewrite update_same.
  - rewrite decide_False by (rewrite elem_of_cons; tauto).
    destruct (enabled l); cbn [setFormValue formValues]; rewrite update_other; try done; by intros ?%(inj ratioFieldByLane).
Qed.

(** Changing the input price puts every ratio in step, from any state. *)
Lemma prompt_change_syncs v p : numericDraft v = true → synced (handlePromptPriceChange v p).
Proof.
  intros Hv. unfold handlePromptPriceChange. rewrite Hv. unfold syncLaneRatios.
  set (p1 := setFormValue kRatio (ratioOfPrompt v) (setPromptPrice v p)).
  destruct (sync_lanes_fields v (lanePrices p) (laneEnabled p) lane_keys p1) as (Hr & Hl & Hp & Hq & He). cbv zeta in *.
  split.
  - rewrite Hr, Hp. done.
  - intros lane. unfold lane_ratio. rewrite Hl, Hp, Hq, He. rewrite decide_True; [done|].
    apply (bool_decide_unpack _). destruct lane; vm_compute; exact I.
Qed.

Lemma set_field_lane k v p lane :
  formValues (setFormValue k v p) (ratioFieldByLane lane)
  = if decide (ratioFieldByLane lane = k) then v else formValues p (ratioFieldByLane lane).
Proof. done. Qed.

(** ** Each handler keeps the ratios in step *)

(** Panels that agree on the prices and the ratio fields. *)
Lemma synced_ext p q :
  promptPrice p = promptPrice q → lanePrices p = lanePrices q → laneEnabled p = laneEnabled q →
  (∀ k, k ≠ kPrice → formValues p k = formValues q k) → synced p → synced q.
Proof.
  intros Hp Hl He Hf [H0 H1]. split.
  - rewrite <-Hf, <-Hp by done. done.
  - intros lane. rewrite <-Hf by apply ratioField_not_base. rewrite H1. unfold lane_ratio. by rewrite Hp, Hl, He.
Qed.

#[local] Opaque toNumberOrNull formatPricingNumber.

(** The cases of a handler: which lane it touches, which lane is looked at, and
    which of the two are enabled. *)
Ltac lane_cases p H :=
  try case_bool_decide; try done; cbn [andb];
  destruct (laneEnabled p audioOutput) eqn:?;
  match goal with
  | |- ∀ lane : LaneKey, _ => let l := fresh "lane" in intros l; specialize (H l); destruct l
  end; unfold lane_ratio, deriveLaneRatio in *; cbn in *;
  repeat first [rewrite update_same | rewrite update_other by done];
  repeat match goal with |- context [laneEnabled p ?l] => destruct (laneEnabled p l) eqn:?; cbn in * end;
  repeat first [rewrite update_same | rewrite update_other by done]; congruence.

Lemma lane_change_synced l v p : synced p → synced (handleLanePriceChange l v p).
Proof.
  intros [H0 H1]. unfold handleLanePriceChange. destruct (numericDraft v); [|done]. cbn [negb].
  split; [by destruct (bool_decide _ && _), (laneEnabled p l), l|]. destruct l; lane_cases p H1.
Qed.

Lemma toggle_synced l b p : synced p → synced (handleLaneToggle l b p).
Proof.
  intros [H0 H1]. unfold handleLaneToggle. split; [by destruct b, l|]. destruct b, l; lane_cases p H1.
Qed.

Lemma act_synced p a : synced p → synced (act p a).
Proof.
  intros Hp. destruct a as [v|l v|l b|m|v|v|v|v]; cbn [act].
  - destruct (numericDraft v) eqn:Hv; [by apply prompt_change_syncs|]. unfold handlePromptPriceChange. by rewrite Hv.
  - by apply lane_change_synced.
  - by apply toggle_synced.
  - unfold handleModeChange. destruct (_ && _); by apply (synced_ext p).
  - unfold handlePriceChange. destruct (numericDraft v); [|done]. apply (synced_ext p); try done.
    intros k Hk. cbn [setFormValue formValues]. by rewrite update_other.
  - by apply (synced_ext p).
  - by apply (synced_ext p).
  - by apply (synced_ext p).
Qed.

Lemma acts_synced acts p : synced p → synced (foldl act p acts).
Proof. revert p. induction acts as [|a acts IH]; intros p Hp; [done|]. apply IH, act_synced, Hp. Qed.

Lemma empty_synced p : synced (loadEditData None p).
Proof. split; [done|]. intros lane. by destruct lane. Qed.

(** [C32] Whatever is typed and toggled in the panel of a new model, or in the
    panel of any model once its input price has been set, the data it commits
    holds the ratios of the prices on the screen: half the input price, and for
    each enabled lane its price over its base (the audio input price for the
    audio output, the input price for the others), nothing for a lane that is
    off. *)
Theorem committed_ratios_follow_prices p0 start acts data :
  start = loadEditData None p0 ∨ (∃ v, numericDraft v = true ∧ start = handlePromptPriceChange v p0) →
  let p := foldl act start acts in
  commitDraft locale_le usageSchemaByModel p = Some data →
  values data kRatio = Some (ratioOfPrompt (promptPrice p))
  ∧ ∀ lane, values data (ratioFieldByLane lane) = Some (lane_ratio p lane).
Proof.
  intros Hstart p Hc. assert (synced p) as [H0 H1].
  { apply acts_synced. destruct Hstart as [->|(v & Hv & ->)]; [apply empty_synced|by apply prompt_change_syncs]. }
  unfold commitDraft in Hc. destruct (_ && _); [|done]. apply (inj Some) in Hc. subst data. cbn [buildSubmitData values].
  rewrite H0. split; [done|]. intros lane. by rewrite H1.
Qed.

End panel_facts.

(** ** Runs *)

Definition no_order : jstr → jstr → bool := λ _ _, true.
Definition no_schema : jstr → option BillingUsageSchema := λ _, None.
Definition empty_panel : Panel := mkPanel per_token [] EMPTY_LANE_PRICES EMPTY_LANE_ENABLED [] [] 0 None [] (λ _, []).

Definition typed : list Action :=
  [act_name (js "m"); act_prompt (js "3"); act_toggle completion true; act_lane completion (js "15");
   act_toggle audioInput true; act_lane audioInput (js "6"); act_toggle audioOutput true;
   act_lane audioOutput (js "12"); act_lane audioInput (js "4")].

Lemma committed_ratios_follow_prices_witness :
  ∃ data, commitDraft no_order no_schema (foldl (act no_order no_schema) (loadEditData None empty_panel) typed) = Some data
    ∧ values data kRatio = Some (js "1.5") ∧ values data kCompletion = Some (js "5")
    ∧ values data kAudioCompletion = Some (js "3").
Proof.
  set (p := foldl _ _ _). exists (buildSubmitData no_order no_schema p).
  assert (commitDraft no_order no_schema p = Some (buildSubmitData no_order no_schema p)) as Hc by (vm_compute; reflexivity).
  destruct (committed_ratios_follow_prices no_order no_schema empty_panel (loadEditData None empty_panel) typed _ (or_introl eq_refl) Hc) as [H0 H1].
  split; [exact Hc|]. split; [rewrite H0; vm_compute; reflexivity|].
  split; [rewrite (H1 completion : values _ kCompletion = _); vm_compute; reflexivity|].
  rewrite (H1 audioOutput : values _ kAudioCompletion = _). vm_compute. reflexivity.
Defined.

(** An input price of zero is accepted, and the prices that depend on it are
    not saved: their ratios have no value. *)
Example free_input_drops_lanes :
  let p := foldl (act no_order no_schema) empty_panel
             [act_name (js "m"); act_prompt (js "0"); act_toggle completion true; act_lane completion (js "15")] in
  warnings None p = []
  ∧ (λ d, (values d kRatio, values d kCompletion)) <$> commitDraft no_order no_schema p = Some (Some (js "0"), Some []).
Proof. vm_compute. done. Qed.
