(* ===== verification/ModelPricingFacts.v ===== *)
(** * What an edit of a model's prices does

    The prices of a model written into the ten texts read back; the other models
    keep theirs; a model that is opened and saved unchanged keeps its prices. *)

From stdpp Require Import sorting.
From S2P Require Import Prelude StableSort JsValue NumFacts JsCollections FloatError NumRounding NumberText Regex BillingExpr StringFacts JsonText TaskExpr ModelPricing PricingPanel.
Import BillingExpr TaskExpr ModelPricing PricingPanel.

(** ** [parseFloat] reads what [String] writes *)

Lemma parseFloat_word w v e neg : decimal_word w v e →
  parseFloat ((if neg : bool then js "-" else []) ++ w) = num_of_dec neg v e.
Proof.
  intros Hw. pose proof (word_no_ws w v e Hw) as Hws.
  destruct Hw as (ip & fp & ex & z & -> & Hne & Hip & Hfp & Hex & _ & -> & ->).
  set (w := ip ++ dot_text fp ++ ex) in *. unfold parseFloat.
  assert (trim_start ((if neg then js "-" else []) ++ w) = (if neg then js "-" else []) ++ w) as ->.
  { apply trim_start_fix. intros c t. destruct neg; [by intros [= <- _]|]. cbn [app]. intros E. rewrite E in Hws. by apply list.Forall_cons in Hws as [? _]. }
  assert (∃ c t, w = c :: t ∧ is_digit c = true) as (c & t & Ew & Hc).
  { unfold w. destruct ip as [|c ip]; [done|]. apply list.Forall_cons in Hip as [Hc _]. by eexists _, _. }
  assert (match (if neg then js "-" else []) ++ w with
          | 43%N :: r => (false, r) | 45%N :: r => (true, r) | _ => (false, (if neg then js "-" else []) ++ w) end = (neg, w)) as ->.
  { destruct neg; [done|]. cbn [app]. rewrite Ew. destruct c as [|c]; [done|]. do 6 (destruct c as [c|c|]; try done). }
  assert (startsWith w (js "Infinity") = false) as ->.
  { rewrite Ew. cbn [js startsWith]. destruct (startsWith (c :: t) (js "Infinity")) eqn:E; [|done].
    apply startsWith_true in E as [r E]. injection E as -> _. done. }
  assert (ends_number []) as Hr by done. unfold w. rewrite <-(app_nil_r ex).
  rewrite span_digits_app; [|done|by intros c' t'; apply (fraction_starts _ _ z)].
  destruct (fraction_word fp ex z [] Hfp Hex Hr) as [_ Hf]. unfold number_fraction in Hf. rewrite Hf.
  rewrite (truthy_ne ip) by done. cbn [negb andb snd]. by rewrite (parse_exponent_text ex z []).
Qed.

Lemma parseFloat_text x : readable x → isFinite x = true → parseFloat (num_to_string x) = x.
Proof.
  intros [Hd Hz] Hf. destruct (number_word x Hd Hf Hz) as (neg & w & v & e & -> & Hw & <-). by apply parseFloat_word.
Qed.

Lemma number_text_nonempty x : num_to_string x ≠ [].
Proof.
  destruct x as [| [] | |[] m e]; try done. cbn [num_to_string app].
  pose proof (pos_word m e) as (ip & fp & ex & -> & Hne & _). by destruct ip.
Qed.

(** ** The maps *)

Lemma field_get_delete {A} k k' (fs : list (jstr * A)) :
  field_get k' (obj_delete k fs) = if decide (k = k') then None else field_get k' fs.
Proof.
  unfold obj_delete. induction fs as [|[k1 v1] fs IH]; [by destruct (decide _)|]. rewrite filter_cons. cbn [fst].
  destruct (decide (k1 ≠ k)) as [Hk|Hk]; cbn [field_get].
  - rewrite IH. destruct (k1 === k') eqn:E; [|done]. apply jeqb_true in E as <-. by rewrite decide_False by congruence.
  - rewrite IH. apply dec_stable in Hk as ->. destruct (decide (k = k')); [done|]. by rewrite jeqb_neq.
Qed.

Lemma field_get_set {A} k k' (v : A) fs :
  field_get k' (obj_set k v fs) = if decide (k = k') then Some v else field_get k' fs.
Proof.
  rewrite field_get_obj_set. destruct (decide (k = k')) as [->|Hne]; [by rewrite jeqb_refl|by rewrite jeqb_neq].
Qed.

Lemma field_get_keys {A} k (fs : list (jstr * A)) : k ∈ fs.*1 ↔ is_Some (field_get k fs).
Proof.
  induction fs as [|[k1 v1] fs IH]; cbn [fmap list_fmap fst field_get].
  - split; [by intros ?%elem_of_nil|by intros [? ?]].
  - rewrite elem_of_cons, IH. destruct (k1 === k) eqn:E.
    + apply jeqb_true in E as ->. split; [by eexists|by left].
    + split; [intros [->|?]; [by rewrite jeqb_refl in E|done]|by right].
Qed.

(** Maps that JSON can hold. *)
Definition storable_maps (maps : Maps) : Prop := ∀ k, storable (JObj (maps k)).

Lemma storable_delete n fs : storable (JObj fs) → storable (JObj (obj_delete n fs)).
Proof.
  rewrite !storable_obj, <-!fromEntries_ordered. intros [Ho Hs]. split; [by apply filter_ordered|].
  rewrite list.Forall_forall in Hs |- *. intros e [_ He]%list_elem_of_filter. by apply Hs.
Qed.

(** ** The texts *)

Lemma fields_of_text fs : storable (JObj fs) → fields_of (JSON_stringify_2 (JObj fs)) = Some fs.
Proof.
  intros Hs. unfold fields_of, safeJsonParse.
  assert (trim (JSON_stringify_2 (JObj fs)) = JSON_stringify_2 (JObj fs)) as Ht by by apply printed_trim.
  rewrite Ht, truthy_ne.
  - by rewrite stringify_2_parse.
  - unfold JSON_stringify_2. cbn [JSON_print]. unfold block. by destruct (map _ fs).
Qed.

Lemma all_option_keys k : k ∈ option_keys.
Proof. apply (bool_decide_unpack _). destruct k as [[]| |]; vm_compute; exact I. Qed.

(** What was written is read back, option by option. *)
Lemma parse_written texts maps : (∀ k, texts k = texts_of maps k) → storable_maps maps →
  ∃ maps', parse_maps texts = Some maps' ∧ ∀ k, maps' k = maps k.
Proof.
  intros Ht Hs. unfold parse_maps.
  assert (forallb (λ k, is_record (texts k)) option_keys = true) as ->.
  { apply forallb_forall. intros k _. unfold is_record. rewrite Ht. unfold texts_of. by rewrite fields_of_text. }
  eexists. split; [done|]. intros k. cbv beta. rewrite Ht. unfold texts_of. by rewrite fields_of_text.
Qed.

Lemma parse_texts_of maps : storable_maps maps → ∃ maps', parse_maps (texts_of maps) = Some maps' ∧ ∀ k, maps' k = maps k.
Proof. by apply parse_written. Qed.

(** ** Snapshots up to their texts *)

#[export] Instance snapshot_equiv : Equiv ModelPricingSnapshot := λ a b,
  name a = name b ∧ (∀ k, values a k = values b k) ∧ billingMode a = billingMode b
  ∧ billingExpr a = billingExpr b ∧ requestRuleExpr a = requestRuleExpr b ∧ hasConflict a = hasConflict b.

#[export] Instance snapshot_equivalence : Equivalence (≡@{ModelPricingSnapshot}).
Proof.
  split.
  - intros a. by split_and!.
  - intros a b (? & Hv & ? & ? & ? & ?). split_and!; try done; intros k; by rewrite Hv.
  - intros a b c (? & Hv & ? & ? & ? & ?) (? & Hw & ? & ? & ? & ?). split_and!; try (by etrans); intros k; by rewrite Hv, Hw.
Qed.

(** A snapshot depends only on the entries of its model. *)
Lemma model_snapshot_ext maps maps' n :
  (∀ K, field_get n (maps K) = field_get n (maps' K)) → model_snapshot maps n ≡ model_snapshot maps' n.
Proof.
  intros H. unfold model_snapshot, is_tiered, full_expr. rewrite (H opt_mode), (H opt_expr).
  assert (∀ k, number_text_of (field_get n (maps (opt_num k))) = number_text_of (field_get n (maps' (opt_num k)))) as Ht by (intros k; by rewrite H).
  destruct (match field_get n (maps' opt_mode) with Some (JStr m) => _ | _ => _ end).
  - destruct (splitBillingExprAndRequestRules _) as [[e r]|]; [|constructor]. constructor. split_and!; try done; intros k; cbn [values]; by rewrite Ht.
  - constructor. split_and!; try done.
    + intros k. cbn [values]. by rewrite Ht.
    + cbn [billingMode]. by rewrite Ht.
    + cbn [hasConflict existsb ratio_keys]. by rewrite !Ht.
Qed.

(** ** What is stored for a model *)

Definition stored_number (v : option jstr) : option jsnum :=
  match v with
  | None | Some [] => None
  | Some s => let x := parseFloat s in if isFinite x then Some x else None
  end.

(** The numbers that are stored: all of them beside an expression, else the
    price if there is one, else the ratios. *)
Definition stored_keys (data : ModelPricingSnapshot) : list NumKey :=
  if bool_decide (billingMode data = Some tiered_expr) then num_keys
  else if hasValue (values data kPrice) then [kPrice]
  else [kRatio; kCache; kCreateCache; kCompletion; kImage; kAudio; kAudioCompletion].

Definition stored_expr (data : ModelPricingSnapshot) : option jstr :=
  if bool_decide (billingMode data = Some tiered_expr)
  then let e := combineBillingExpr (default [] (billingExpr data)) (default [] (requestRuleExpr data)) in
       if truthy e then Some e else None
  else None.

Definition stored_at (data : ModelPricingSnapshot) (K : OptionKey) : option json :=
  match K with
  | opt_num k => if decide (k ∈ stored_keys data) then JNum <$> stored_number (values data k) else None
  | opt_mode => (λ _, JStr (js "tiered_expr")) <$> stored_expr data
  | opt_expr => JStr <$> stored_expr data
  end.

Lemma setIfPresent_stored n data maps k :
  setIfPresent n data maps k = match stored_number (values data k) with
                               | Some x => set_map (opt_num k) (obj_set n (JNum x) (maps (opt_num k))) maps
                               | None => maps
                               end.
Proof. unfold setIfPresent, stored_number. destruct (values data k) as [[|c s]|]; [done| |done]. by destruct (isFinite _). Qed.

Lemma set_numbers_get n data maps ks m k :
  field_get m (foldl (setIfPresent n data) maps ks (opt_num k))
  = match (if decide (m = n ∧ k ∈ ks) then stored_number (values data k) else None) with
    | Some x => Some (JNum x)
    | None => field_get m (maps (opt_num k))
    end.
Proof.
  revert maps. induction ks as [|k0 ks IH]; intros maps; cbn [foldl].
  { rewrite decide_False; [done|]. by intros [_ ?%elem_of_nil]. }
  rewrite IH, setIfPresent_stored. destruct (decide (m = n ∧ k ∈ ks)) as [[-> Hk]|Hno].
  - rewrite (decide_True (P := n = n ∧ k ∈ k0 :: ks)) by (split; [done|by right]). destruct (stored_number (values data k)) as [x|] eqn:E; [done|].
    destruct (stored_number (values data k0)) as [x0|] eqn:E0; [|done]. unfold set_map.
    destruct (decide (opt_num k = opt_num k0)) as [[= ->]|]; [congruence|done].
  - destruct (stored_number (values data k0)) as [x0|] eqn:E0; unfold set_map.
    + destruct (decide (opt_num k = opt_num k0)) as [[= ->]|Hne].
      * rewrite field_get_set. destruct (decide (n = m)) as [->|Hnm].
        -- rewrite decide_True by (split; [done|by left]). by rewrite E0.
        -- rewrite decide_False by naive_solver. done.
      * rewrite decide_False; [done|]. rewrite elem_of_cons. naive_solver.
    + destruct (decide (m = n ∧ k ∈ k0 :: ks)) as [[-> [->|?]%elem_of_cons]|]; [by rewrite E0|naive_solver|done].
Qed.

Lemma set_numbers_other n data maps ks K :
  (∀ k, K ≠ opt_num k) → foldl (setIfPresent n data) maps ks K = maps K.
Proof.
  intros HK. revert maps. induction ks as [|k0 ks IH]; intros maps; [done|]. cbn [foldl]. rewrite IH, setIfPresent_stored.
  destruct (stored_number _); [|done]. unfold set_map. by rewrite decide_False.
Qed.

Lemma persist_model_get data maps n m K :
  field_get m (persist_model data maps n K) = if decide (m = n) then stored_at data K else field_get m (maps K).
Proof.
  unfold persist_model, stored_at, stored_keys, stored_expr.
  assert (∀ K', field_get m (delete_model n maps K') = if decide (m = n) then None else field_get m (maps K')) as Hdel.
  { intros K'. unfold delete_model. rewrite field_get_delete. destruct (decide (n = m)), (decide (m = n)); congruence. }
  destruct (bool_decide _) eqn:Em.
  - set (e := combineBillingExpr _ _). destruct K as [k| |].
    + rewrite set_numbers_get. destruct (decide (m = n)) as [->|Hne].
      * rewrite decide_True by (split; [done|apply (bool_decide_unpack _); destruct k; vm_compute; exact I]).
        rewrite (decide_True (P := k ∈ num_keys)) by (apply (bool_decide_unpack _); destruct k; vm_compute; exact I).
        destruct (stored_number (values data k)); [done|]. destruct (truthy e); unfold set_map; rewrite ?decide_False by done; by rewrite Hdel.
      * rewrite decide_False by naive_solver. destruct (truthy e); unfold set_map; rewrite ?decide_False by done; by rewrite Hdel.
    + rewrite set_numbers_other by done. destruct (truthy e); unfold set_map.
      * rewrite decide_False, decide_True by done. rewrite field_get_set, Hdel. destruct (decide (n = m)), (decide (m = n)); done || congruence.
      * rewrite Hdel. by destruct (decide _).
    + rewrite set_numbers_other by done. destruct (truthy e); unfold set_map.
      * rewrite decide_True by done. rewrite field_get_set, Hdel. destruct (decide (n = m)), (decide (m = n)); done || congruence.
      * rewrite Hdel. by destruct (decide _).
  - assert (∀ ks, field_get m (foldl (setIfPresent n data) (delete_model n maps) ks K)
      = if decide (m = n) then match K with opt_num k => if decide (k ∈ ks) then JNum <$> stored_number (values data k) else None
                               | _ => None end else field_get m (maps K)) as Hks.
    { intros ks. destruct K as [k| |].
      - rewrite set_numbers_get, Hdel. destruct (decide (m = n)) as [->|Hne].
        + destruct (decide (k ∈ ks)).
          * rewrite decide_True by done. by destruct (stored_number _).
          * rewrite decide_False by naive_solver. done.
        + by rewrite decide_False by naive_solver.
      - rewrite set_numbers_other, Hdel by done. by destruct (decide _).
      - rewrite set_numbers_other, Hdel by done. by destruct (decide _). }
    destruct (hasValue (values data kPrice)).
    + change (setIfPresent n data (delete_model n maps) kPrice) with (foldl (setIfPresent n data) (delete_model n maps) [kPrice]).
      rewrite Hks. destruct (decide (m = n)); [|done]. by destruct K.
    + rewrite Hks. destruct (decide (m = n)); [|done]. by destruct K.
Qed.

Lemma persist_models_get data maps targets m K :
  field_get m (foldl (persist_model data) maps targets K)
  = if decide (m ∈ targets) then stored_at data K else field_get m (maps K).
Proof.
  revert maps. induction targets as [|n targets IH]; intros maps; cbn [foldl].
  { by rewrite decide_False by (by intros ?%elem_of_nil). }
  rewrite IH, persist_model_get. destruct (decide (m ∈ targets)).
  - by rewrite decide_True by (by right).
  - destruct (decide (m = n)) as [->|]; [by rewrite decide_True by left|]. rewrite decide_False; [done|]. rewrite elem_of_cons. tauto.
Qed.

(** ** Saving *)

(** Data that JSON can hold: no negative zero, and an expression of code units. *)
Definition good_data (data : ModelPricingSnapshot) : Prop :=
  (∀ k, stored_number (values data k) ≠ Some (S754_zero true)) ∧ (∀ e, stored_expr data = Some e → units e).

Lemma parseFloat_double s : is_double (parseFloat s) = true.
Proof.
  unfold parseFloat. destruct (match trim_start s with 43%N :: r => _ | _ => _ end) as [neg t].
  destruct (startsWith _ _); [done|]. destruct (span_digits t) as [ip r].
  destruct (match r with 46%N :: r' => _ | _ => _ end) as [fp r']. destruct (_ && _); [done|]. apply num_of_dec_double.
Qed.

Lemma stored_number_storable data k x : good_data data → stored_number (values data k) = Some x → storable (JNum x).
Proof.
  intros [Hz _] Hx. specialize (Hz k). rewrite Hx in Hz. unfold stored_number in Hx.
  destruct (values data k) as [[|c s]|]; [done| |done]. destruct (isFinite _) eqn:Hf; [|done]. injection Hx as <-.
  split; [done|]. split; [apply parseFloat_double|by intros E; rewrite E in Hz].
Qed.

Lemma set_map_storable k fs maps : storable (JObj fs) → storable_maps maps → storable_maps (set_map k fs maps).
Proof. intros Hf Hm k'. unfold set_map. by destruct (decide (k' = k)). Qed.

Lemma set_numbers_storable n data maps ks :
  units n → good_data data → storable_maps maps → storable_maps (foldl (setIfPresent n data) maps ks).
Proof.
  intros Hn Hd. revert maps. induction ks as [|k ks IH]; intros maps Hm; [done|]. cbn [foldl]. apply IH.
  rewrite setIfPresent_stored. destruct (stored_number (values data k)) as [x|] eqn:Ex; [|done].
  apply set_map_storable; [|done]. apply storable_set; [done|by eapply stored_number_storable|apply Hm].
Qed.

Lemma persist_models_storable data maps targets :
  Forall units targets → good_data data → storable_maps maps → storable_maps (foldl (persist_model data) maps targets).
Proof.
  intros Ht Hd. revert maps. induction Ht as [|n targets Hn _ IH]; intros maps Hm; [done|]. cbn [foldl]. apply IH.
  assert (storable_maps (delete_model n maps)) as Hdel by (intros K; apply storable_delete, Hm).
  unfold persist_model. destruct (bool_decide _) eqn:Em.
  - apply set_numbers_storable; [done|done|]. destruct (truthy _) eqn:Et; [|done].
    assert (units (combineBillingExpr (default [] (billingExpr data)) (default [] (requestRuleExpr data)))) as Hu.
    { apply (proj2 Hd). unfold stored_expr. by rewrite Em, Et. }
    apply set_map_storable; [apply storable_set; [done|exact Hu|apply Hdel]|].
    apply set_map_storable; [apply storable_set; [done|by repeat constructor|apply Hdel]|done].
  - destruct (hasValue _); [|by apply set_numbers_storable].
    change (setIfPresent n data (delete_model n maps) kPrice) with (foldl (setIfPresent n data) (delete_model n maps) [kPrice]).
    by apply set_numbers_storable.
Qed.

(** The texts a saved model is shown with. *)
Definition saved_text (data : ModelPricingSnapshot) (k : NumKey) : jstr :=
  if decide (k ∈ stored_keys data) then from_option num_to_string [] (stored_number (values data k)) else [].

Definition saved_snapshot (data : ModelPricingSnapshot) (n : jstr) : option ModelPricingSnapshot :=
  match stored_expr data with
  | Some e =>
      '(pureExpr, rules) ← splitBillingExprAndRequestRules e;
      Some (mkSnapshot n (λ k, Some (saved_text data k)) (Some tiered_expr) (Some pureExpr) (Some rules) false)
  | None =>
      Some (mkSnapshot n (λ k, Some (saved_text data k))
              (Some (if truthy (saved_text data kPrice) then per_request else per_token)) None None
              (truthy (saved_text data kPrice) && existsb (λ k, truthy (saved_text data k)) ratio_keys))
  end.

Lemma stored_text data k : number_text_of (stored_at data (opt_num k)) = saved_text data k.
Proof. unfold stored_at, saved_text. destruct (decide _); [|done]. by destruct (stored_number _). Qed.

Lemma snapshot_of_stored maps data n :
  (∀ K, field_get n (maps K) = stored_at data K) → model_snapshot maps n ≡ saved_snapshot data n.
Proof.
  intros H. unfold model_snapshot, saved_snapshot, is_tiered, full_expr. rewrite (H opt_mode), (H opt_expr).
  assert (∀ k, number_text_of (field_get n (maps (opt_num k))) = saved_text data k) as Ht by (intros k; by rewrite H, stored_text).
  cbn [stored_at]. destruct (stored_expr data) as [e|]; cbn [fmap option_fmap option_map].
  - rewrite jeqb_refl. destruct (splitBillingExprAndRequestRules e) as [[a b]|]; [|constructor].
    constructor. split_and!; try done; intros k; cbn [values]; by rewrite Ht.
  - constructor. split_and!; try done.
    + intros k. cbn [values]. by rewrite Ht.
    + cbn [billingMode]. by rewrite Ht.
    + cbn [hasConflict existsb ratio_keys]. by rewrite !Ht.
Qed.

Lemma modelNames_elem maps n : n ∈ modelNames maps ↔ ∃ K, is_Some (field_get n (maps K)).
Proof.
  unfold modelNames, obj_keys. rewrite dedup_elem. rewrite list_elem_of_In, in_concat. split.
  - intros (l & Hl & Hn). apply in_map_iff in Hl as (K & <- & _). exists K. by apply field_get_keys, list_elem_of_In.
  - intros (K & HK). exists (maps K).*1. split; [|by apply list_elem_of_In, field_get_keys].
    apply in_map_iff. exists K. split; [done|]. apply list_elem_of_In, all_option_keys.
Qed.

(** [C16] Saving a model's prices, for itself or for a batch of models, writes
    texts that parse again; each target is then shown with exactly the saved
    numbers and expression, and every other model as before, and listed if it
    was listed before. *)
Theorem save_then_read texts maps data targets :
  parse_maps texts = Some maps → storable_maps maps → good_data data → Forall units targets →
  ∃ texts' maps', persistPricingData texts data targets = Some texts' ∧ parse_maps texts' = Some maps'
    ∧ (∀ n, n ∈ targets → model_snapshot maps' n ≡ saved_snapshot data n)
    ∧ (∀ n, n ∉ targets → model_snapshot maps' n ≡ model_snapshot maps n ∧ (n ∈ modelNames maps' ↔ n ∈ modelNames maps)).
Proof.
  intros Hp Hs Hd Ht. unfold persistPricingData. rewrite Hp. cbn [mbind option_bind].
  destruct (parse_texts_of _ (persist_models_storable data maps targets Ht Hd Hs)) as (maps' & Hp' & Heq).
  eexists _, maps'. split_and!; [done|done| |].
  - intros n Hn. apply snapshot_of_stored. intros K. by rewrite Heq, persist_models_get, decide_True.
  - intros n Hn. assert (∀ K, field_get n (maps' K) = field_get n (maps K)) as Hsame.
    { intros K. by rewrite Heq, persist_models_get, decide_False. }
    split; [by apply model_snapshot_ext|]. rewrite !modelNames_elem. by setoid_rewrite Hsame.
Qed.

(** Deleting a model removes it from the texts, closes the editor if it shows
    the model, and leaves every other model as it was. *)
Theorem delete_removes_model texts maps d e :
  parse_maps texts = Some maps → storable_maps maps →
  ∃ texts' maps' e', handleDelete d texts e = Some (texts', e') ∧ parse_maps texts' = Some maps'
    ∧ d ∉ modelNames maps' ∧ name <$> editData e' ≠ Some d
    ∧ ∀ n, n ≠ d → model_snapshot maps' n ≡ model_snapshot maps n ∧ (n ∈ modelNames maps' ↔ n ∈ modelNames maps).
Proof.
  intros Hp Hs. unfold handleDelete, deleteModel. rewrite Hp. cbn [mbind option_bind].
  assert (storable_maps (delete_model d maps)) as Hdel by (intros K; apply storable_delete, Hs).
  destruct (parse_texts_of _ Hdel) as (maps' & Hp' & Heq). eexists _, maps', _. split_and!; [done|done| |by case_bool_decide|].
  - rewrite modelNames_elem. intros [K [v HK]]. rewrite Heq in HK. unfold delete_model in HK.
    by rewrite field_get_delete, decide_True in HK.
  - intros n Hn. assert (∀ K, field_get n (maps' K) = field_get n (maps K)) as Hsame.
    { intros K. rewrite Heq. unfold delete_model. by rewrite field_get_delete, decide_False. }
    split; [by apply model_snapshot_ext|]. rewrite !modelNames_elem. by setoid_rewrite Hsame.
Qed.

(** ** Opening and saving *)

Section edit.
Context (texts : Texts) (maps : Maps) (n : jstr) (s : ModelPricingSnapshot).
Context (Hparse : parse_maps texts = Some maps) (Hstore : storable_maps maps).
Context (Hnum : ∀ k v, field_get n (maps (opt_num k)) = Some v → ∃ x, v = JNum x).
Context (Hs : model_snapshot maps n = Some s) (Htier : billingMode s ≠ Some tiered_expr) (Hconf : hasConflict s = false).

Definition model_text (k : NumKey) : jstr := number_text_of (field_get n (maps (opt_num k))).

(** What the snapshot of a model without expression is made of. *)
Lemma plain_snapshot :
  s = mkSnapshot n (λ k, Some (model_text k)) (Some (if truthy (model_text kPrice) then per_request else per_token)) None None false
  ∧ (truthy (model_text kPrice) = true → ∀ k, k ≠ kPrice → model_text k = []).
Proof.
  revert Hs Htier Hconf. unfold model_snapshot. destruct (is_tiered maps n).
  - destruct (splitBillingExprAndRequestRules _) as [[a b]|]; [|done]. cbn [mbind option_bind]. intros [= <-]. by intros [].
  - intros Hsome _. apply (inj Some) in Hsome. subst s. cbn [hasConflict]. intros Hc. fold model_text in *. split.
    + by rewrite Hc.
    + intros Hp k Hk. change (number_text_of (field_get n (maps (opt_num kPrice)))) with (model_text kPrice) in Hc.
      rewrite Hp in Hc. cbn [andb] in Hc. destruct (model_text k) as [|c r] eqn:E; [done|exfalso].
      assert (existsb (λ k, truthy (number_text_of (field_get n (maps (opt_num k))))) ratio_keys = true) as Ht; [|congruence].
      apply existsb_exists. exists k. split; [by destruct k; cbn; auto 10|]. change (number_text_of (field_get n (maps (opt_num k)))) with (model_text k). by rewrite E.
Qed.

Lemma model_text_number k :
  from_option num_to_string [] (stored_number (Some (model_text k))) = model_text k
  ∧ stored_number (Some (model_text k)) ≠ Some (S754_zero true).
Proof.
  unfold model_text. destruct (field_get n (maps (opt_num k))) as [v|] eqn:E; [|done].
  destruct (Hnum k v E) as [x ->]. pose proof (Hstore (opt_num k)) as [_ Hall]%storable_obj.
  apply field_get_elem in E. rewrite list.Forall_forall in Hall. destruct (Hall _ E) as [_ [Hf Hr]]. cbn [number_text_of json_to_string].
  unfold stored_number. destruct (num_to_string x) as [|c r] eqn:Et; [by destruct (number_text_nonempty x)|]. rewrite <-Et.
  rewrite parseFloat_text, Hf by done. split; [done|]. intros [= Ex]. by destruct Hr.
Qed.

(** The data of an unchanged form has the texts of the model. *)
Lemma saved_text_same data :
  (∀ k, values data k = Some (model_text k)) → billingMode data ≠ Some tiered_expr →
  ∀ k, saved_text data k = model_text k.
Proof.
  intros Hv Hm k. unfold saved_text, stored_keys. rewrite bool_decide_eq_false_2 by done.
  rewrite !Hv. cbn [hasValue truthy_opt from_option]. destruct (truthy (model_text kPrice)) eqn:Ep.
  - destruct (decide (k ∈ [kPrice])) as [Hk|Hk]; [apply model_text_number|].
    symmetry. apply (proj2 plain_snapshot Ep). intros ->. apply Hk. left.
  - destruct (decide (k ∈ _)) as [Hk|Hk]; [apply model_text_number|].
    destruct k; try (exfalso; apply Hk, (bool_decide_unpack _); vm_compute; exact I). by destruct (model_text kPrice).
Qed.

Lemma saved_same data :
  name data = n → (∀ k, values data k = Some (model_text k)) → billingMode data ≠ Some tiered_expr →
  saved_snapshot data n ≡ Some s ∧ good_data data.
Proof.
  intros Hn Hv Hm. pose proof (saved_text_same data Hv Hm) as Ht.
  assert (stored_expr data = None) as He by (unfold stored_expr; by rewrite bool_decide_eq_false_2).
  unfold saved_snapshot, good_data. rewrite He. split; [|split; [|done]].
  - destruct plain_snapshot as [E Hz]. rewrite E. constructor. split_and!; try done.
    + intros k. cbn [values]. by rewrite Ht.
    + cbn [billingMode]. by rewrite Ht.
    + cbn [hasConflict existsb ratio_keys]. rewrite !Ht. destruct (truthy (model_text kPrice)) eqn:Ep; [|done].
      by rewrite !(Hz eq_refl) by done.
  - intros k. rewrite Hv. apply model_text_number.
Qed.
End edit.

Section panel_edit.
Context (locale_le : jstr → jstr → bool) (usageSchemaByModel : jstr → option BillingUsageSchema).

(** The panel after both effects have run for the model that is opened. *)
Definition opened (row : ModelRow) (p : Panel) : Panel :=
  autoSwitch usageSchemaByModel (Some (editDataOf row)) (loadEditData (Some (editDataOf row)) p).

Lemma opened_data row s p :
  draft row = Some s → trim (name s) = name s → pricingMode (opened row p) ≠ tiered_expr →
  let data := buildSubmitData locale_le usageSchemaByModel (opened row p) in
  name data = name s ∧ (∀ k, values data k = Some (default [] (values s k))) ∧ billingMode data ≠ Some tiered_expr.
Proof.
  intros Hd Ht Hm. unfold opened in *. set (e := editDataOf row) in *.
  assert (name e = name s ∧ ∀ k, values e k = values s k) as [Hn Hv] by (unfold e, editDataOf; by rewrite Hd).
  set (p1 := loadEditData (Some e) p) in *.
  assert (formName p1 = name s ∧ ∀ k, formValues p1 k = default [] (values s k)) as [Hfn Hfv].
  { unfold p1, loadEditData. destruct (createInitialLaneState (Some e)) as [[a b] c]. cbn [formName formValues]. by setoid_rewrite Hv. }
  assert (autoSwitch usageSchemaByModel (Some e) p1 = p1) as Eq.
  { revert Hm. unfold autoSwitch. destruct (bool_decide (billingMode e = _)); [done|]. destruct (_ || _); [done|].
    destruct (usageSchemaByModel (name e)) as [[|]|]; [done| |done]. destruct (bool_decide _); [done|]. by intros []. }
  rewrite Eq in *. cbn [buildSubmitData name values billingMode]. rewrite Hfn, Ht.
  split_and!; [done|intros k; by rewrite Hfv|]. intros [= E]. done.
Qed.

(** [C31] Opening a model in the editor and saving it unchanged keeps the prices
    of every model: the numbers go through two conversions to text, the form and
    the printed JSON, and come back the same. Conditions: the model is neither
    billed by an expression nor switched to one when it is opened, does not mix
    a price with ratios, has only numbers among its stored prices and no blanks
    around its name; the ten texts hold data that JSON can print. *)
Theorem unchanged_edit_keeps_prices texts maps n s row p data :
  parse_maps texts = Some maps → storable_maps maps →
  (∀ k v, field_get n (maps (opt_num k)) = Some v → ∃ x, v = JNum x) →
  model_snapshot maps n = Some s → billingMode s ≠ Some tiered_expr → hasConflict s = false →
  units n → trim n = n → draft row = Some s → pricingMode (opened row p) ≠ tiered_expr →
  commitDraft locale_le usageSchemaByModel (opened row p) = Some data →
  ∃ texts' maps', persistPricingData texts data [name data] = Some texts' ∧ parse_maps texts' = Some maps'
    ∧ ∀ m, model_snapshot maps' m ≡ model_snapshot maps m.
Proof.
  intros Hp Hst Hnum Hs Htier Hconf Hu Ht Hd Hmode Hc. unfold commitDraft in Hc.
  destruct (_ && _); [|done]. apply (inj Some) in Hc. subst data.
  destruct (plain_snapshot maps n s Hs Htier Hconf) as [Es _]. assert (name s = n) as En by (by rewrite Es).
  destruct (opened_data row s p Hd ltac:(by rewrite En) Hmode) as (Hname & Hvals & Hnt). cbv zeta in *.
  set (data := buildSubmitData _ _ _) in *. rewrite En in Hname.
  assert (∀ k, values data k = Some (model_text maps n k)) as Hv by (intros k; by rewrite Hvals, Es).
  destruct (saved_same maps n s Hst Hnum Hs Htier Hconf data Hname Hv Hnt) as [Hsame Hgood]. rewrite Hname.
  assert (Forall units [n]) as Hun by (by repeat constructor).
  unfold persistPricingData. rewrite Hp. cbn [mbind option_bind].
  destruct (parse_texts_of _ (persist_models_storable data maps [n] Hun Hgood Hst)) as (maps' & Hp' & Heq).
  eexists _, maps'. split_and!; [done|done|]. intros m. destruct (decide (m = n)) as [->|Hne].
  - rewrite Hs, <-Hsame. apply snapshot_of_stored. intros K. by rewrite Heq, persist_models_get, decide_True by left.
  - apply model_snapshot_ext. intros K. rewrite Heq, persist_models_get, decide_False; [done|]. by intros ?%list_elem_of_singleton.
Qed.

(** The mode that the administrator chooses does not decide what is saved: a
    model with a price left in the form is saved by request although the panel
    says by token, and its ratios are dropped. *)
Theorem price_overrides_chosen_mode p n :
  pricingMode p = per_token → isFinite (parseFloat (formValues p kPrice)) = true → formValues p kPrice ≠ [] →
  ∃ s, saved_snapshot (buildSubmitData locale_le usageSchemaByModel p) n = Some s
    ∧ billingMode s = Some per_request ∧ ∀ k, k ≠ kPrice → values s k = Some [].
Proof.
  intros Hm Hf Hne. set (data := buildSubmitData _ _ p).
  assert (billingMode data = Some per_token) as Hd by (unfold data; cbn [buildSubmitData billingMode]; by rewrite Hm).
  assert (values data kPrice = Some (formValues p kPrice)) as Hv by done.
  assert (stored_keys data = [kPrice]) as Hk.
  { unfold stored_keys. rewrite Hd, bool_decide_eq_false_2 by done. rewrite Hv. cbn [hasValue truthy_opt from_option]. by rewrite truthy_ne. }
  unfold saved_snapshot, stored_expr. rewrite Hd, bool_decide_eq_false_2 by done. eexists. split; [done|]. cbn [billingMode values]. split.
  - unfold saved_text. rewrite Hk, decide_True by left. rewrite Hv. unfold stored_number.
    destruct (formValues p kPrice); [done|]. rewrite Hf. cbn [from_option]. by rewrite truthy_ne by apply number_text_nonempty.
  - intros k Hkk. unfold saved_text. rewrite Hk, decide_False; [done|]. by intros ?%list_elem_of_singleton.
Qed.
End panel_edit.

(** ** Runs *)

Definition shop (k : OptionKey) : jstr :=
  match k with
  | opt_num kPrice => jq "{'dall': 0.04}"
  | opt_num kRatio => jq "{'gpt': 1.25, 'o1': 7.5}"
  | opt_num kCompletion => jq "{'gpt': 4}"
  | _ => []
  end.
Definition shop_maps : Maps := λ k, default [] (fields_of (shop k)).

Lemma shop_parses : parse_maps shop = Some shop_maps.
Proof. unfold parse_maps. by replace (forallb _ option_keys) with true by (vm_compute; reflexivity). Qed.

Lemma shop_storable : storable_maps shop_maps.
Proof. intros k. apply storableb_true. destruct k as [[]| |]; vm_compute; reflexivity. Qed.

Definition any_order : jstr → jstr → bool := λ _ _, true.
Definition no_usage : jstr → option BillingUsageSchema := λ _, None.
Definition fresh_panel : Panel := mkPanel per_token [] EMPTY_LANE_PRICES EMPTY_LANE_ENABLED [] [] 0 None [] (λ _, []).

(** A request price is given to two models. *)
Definition flat_price : ModelPricingSnapshot :=
  mkSnapshot (js "o1") (λ k, match k with kPrice => Some (js "0.5") | _ => Some [] end) (Some per_request) None None false.

Lemma save_then_read_witness :
  ∃ texts' maps', persistPricingData shop flat_price [js "o1"; js "new"] = Some texts' ∧ parse_maps texts' = Some maps'
    ∧ model_snapshot maps' (js "o1") ≡ saved_snapshot flat_price (js "o1")
    ∧ model_snapshot maps' (js "gpt") ≡ model_snapshot shop_maps (js "gpt").
Proof.
  assert (good_data flat_price) as Hg by (split; [intros []; vm_compute; congruence|done]).
  assert (Forall units [js "o1"; js "new"]) as Hu by (repeat constructor).
  destruct (save_then_read shop shop_maps flat_price [js "o1"; js "new"] shop_parses shop_storable Hg Hu)
    as (texts' & maps' & H1 & H2 & H3 & H4).
  exists texts', maps'. split_and!; [done|done| |].
  - apply H3. left.
  - apply H4. apply (bool_decide_unpack _). vm_compute. exact I.
Defined.

Lemma delete_removes_model_witness :
  ∃ texts' maps' e', handleDelete (js "gpt") shop closedEditor = Some (texts', e') ∧ parse_maps texts' = Some maps'
    ∧ js "gpt" ∉ modelNames maps' ∧ js "o1" ∈ modelNames maps'.
Proof.
  destruct (delete_removes_model shop shop_maps (js "gpt") closedEditor shop_parses shop_storable) as (texts' & maps' & e' & H1 & H2 & H3 & _ & H4).
  exists texts', maps', e'. split_and!; [done|done|done|].
  apply H4; [done|]. apply (bool_decide_unpack _). vm_compute. exact I.
Defined.

Definition gpt_snapshot : ModelPricingSnapshot := 
  default flat_price (model_snapshot shop_maps (js "gpt")).
Definition gpt_row : ModelRow := mkRow gpt_snapshot (Some gpt_snapshot) (Some gpt_snapshot) false false false.
Definition gpt_panel : Panel := opened no_usage gpt_row fresh_panel.

Lemma unchanged_edit_keeps_prices_witness :
  ∃ texts' maps', persistPricingData shop (buildSubmitData any_order no_usage gpt_panel) [js "gpt"] = Some texts'
    ∧ parse_maps texts' = Some maps' ∧ ∀ m, model_snapshot maps' m ≡ model_snapshot shop_maps m.
Proof.
  assert (∀ k v, field_get (js "gpt") (shop_maps (opt_num k)) = Some v → ∃ x, v = JNum x) as Hnum.
  { intros k v Hv. destruct k; vm_compute in Hv; try discriminate; apply (inj Some) in Hv; subst v; by eexists. }
  assert (model_snapshot shop_maps (js "gpt") = Some gpt_snapshot) as Hs.
  { unfold gpt_snapshot, model_snapshot. by replace (is_tiered shop_maps (js "gpt")) with false by (vm_compute; reflexivity). }
  assert (billingMode gpt_snapshot ≠ Some tiered_expr) as Ht by (vm_compute; congruence).
  assert (hasConflict gpt_snapshot = false) as Hc by (vm_compute; reflexivity).
  assert (units (js "gpt")) as Hu by (repeat constructor).
  assert (trim (js "gpt") = js "gpt") as Htrim by (vm_compute; reflexivity).
  assert (pricingMode (opened no_usage gpt_row fresh_panel) ≠ tiered_expr) as Hm by (vm_compute; congruence).
  assert (commitDraft any_order no_usage (opened no_usage gpt_row fresh_panel)
          = Some (buildSubmitData any_order no_usage gpt_panel)) as Hcommit.
  { unfold commitDraft. by replace (createModelPricingSchema _ && _) with true by (vm_compute; reflexivity). }
  assert (name (buildSubmitData any_order no_usage gpt_panel) = js "gpt") as Hn by (vm_compute; reflexivity).
  pose proof (unchanged_edit_keeps_prices any_order no_usage shop shop_maps (js "gpt") gpt_snapshot gpt_row fresh_panel
           _ shop_parses shop_storable Hnum Hs Ht Hc Hu Htrim eq_refl Hm Hcommit) as H.
  rewrite Hn in H. exact H.
Defined.

Definition dall_snapshot : ModelPricingSnapshot := default flat_price (model_snapshot shop_maps (js "dall")).

(** The request-priced model is opened, set to token prices, given an input
    price. *)
Definition dall_panel : Panel :=
  handlePromptPriceChange (js "3") (handleModeChange any_order no_usage per_token
    (opened no_usage (mkRow dall_snapshot (Some dall_snapshot) (Some dall_snapshot) false false false) fresh_panel)).

Lemma price_overrides_chosen_mode_witness :
  pricingMode dall_panel = per_token ∧ validatePricingValues dall_panel = true
  ∧ ∃ s, saved_snapshot (buildSubmitData any_order no_usage dall_panel) (js "dall") = Some s
      ∧ billingMode s = Some per_request ∧ ∀ k, k ≠ kPrice → values s k = Some [].
Proof.
  split; [vm_compute; reflexivity|]. split; [vm_compute; reflexivity|].
  apply (price_overrides_chosen_mode any_order no_usage dall_panel (js "dall")); vm_compute; congruence.
Defined.

(** The whole run on the texts: the price of 0.04 a request is still there and
    no ratio has been written. *)
Example chosen_mode_is_lost :
  (λ texts', (texts' (opt_num kPrice), field_get (js "dall") (default [] (fields_of (texts' (opt_num kRatio))))))
  <$> (data ← commitDraft any_order no_usage dall_panel; persistPricingData shop data [name data])
  = Some (JSON_stringify_2 (JObj [(js "dall", JNum (num_of_dec false 4 (-2)))]), None).
Proof. vm_compute. reflexivity. Qed.
