(* ===== verification/TieredEditor.v ===== *)
(** * The editor of billing expressions

    Models [features/system-settings/models/tiered-pricing-editor.tsx]: the
    visual and the raw form of a token price with its request rules, the presets
    and the number fields.

    The two expressions belong to the panel around the editor, which passes them
    down and stores what it is handed ([setBillingExpr], [setRequestRuleExpr]).
    A render computes what is shown from the state; after it React runs the
    effects whose dependencies changed, in order, on the values of that render,
    while [initRef] is read and written at once.  [None] is a thrown exception
    (from the parser of request rules). *)

From S2P Require Import Prelude JsValue JsCollections Regex BillingExpr TierExpr.

Module TieredEditor.
Import TierExpr.

(** ** Number fields *)

Definition unitCostToPrice (uc : jsnum) : jsnum := BillingExpr.num_or_zero uc.
Definition priceToUnitCost (price : jsnum) : jsnum := BillingExpr.num_or_zero price.

Definition formatNumberDraft (v : cond_value) : jstr :=
  match v with
  | VStr s => s
  | VNum n => if isFinite n then num_to_string n else js "0"
  end.
Definition parseNumberDraft (value : jstr) : jsnum :=
  if trim value === [] then zero else let next := Number value in if isFinite next then next else zero.
Definition isZeroDraft (value : jstr) : bool := negb (trim value === []) && num_eqb (parseNumberDraft value) zero.

(** [DraftNumberInput]: the text, and whether the field has the focus. *)
Record DraftInput := mkDraft { draft : jstr; focused : bool }.
Definition mountDraft (v : cond_value) : DraftInput := mkDraft (formatNumberDraft v) false.
(** The effect after a change of the focus or of the value. *)
Definition syncDraft (v : cond_value) (d : DraftInput) : DraftInput :=
  if focused d then d else mkDraft (formatNumberDraft v) false.
(** The new field and the number that is handed on. *)
Definition changeDraft (text : jstr) (d : DraftInput) : DraftInput * jsnum := (mkDraft text (focused d), parseNumberDraft text).
Definition focusDraft (d : DraftInput) : DraftInput := mkDraft (draft d) true.
Definition blurDraft (d : DraftInput) : DraftInput * jsnum :=
  let normalized := parseNumberDraft (draft d) in (mkDraft (num_to_string normalized) false, normalized).

(** ** Tiers *)

(** [{ ...tier, [field]: value }] for the price fields. *)
Definition handlePriceChange (field : jstr) (v : jsnum) (t : VisualTier) : VisualTier :=
  let '(mkTier l cs i o m ex) := t in
  if field === js "input_unit_cost" then mkTier l cs v o m ex
  else if field === js "output_unit_cost" then mkTier l cs i v m ex
  else mkTier l cs i o m (obj_set field v ex).

Definition with_conditions (cs : list TierConditionInput) (t : VisualTier) : VisualTier :=
  mkTier (label t) cs (input_unit_cost t) (output_unit_cost t) (cache_mode t) (extra t).
Definition with_label (l : jstr) (t : VisualTier) : VisualTier :=
  mkTier l (TierExpr.conditions t) (input_unit_cost t) (output_unit_cost t) (cache_mode t) (extra t).

(** An index comes from the list that is drawn. *)
Definition handleConditionChange (i : nat) (next : TierConditionInput) (t : VisualTier) : VisualTier :=
  with_conditions (<[i := next]> (TierExpr.conditions t)) t.
Definition handleConditionRemove (i : nat) (t : VisualTier) : VisualTier :=
  with_conditions (delete i (TierExpr.conditions t)) t.

Definition handleCacheModeChange (m : CacheMode) (t : VisualTier) : VisualTier :=
  let field := js "cache_create_1h_unit_cost" in
  mkTier (label t) (TierExpr.conditions t) (input_unit_cost t) (output_unit_cost t) m
    (obj_set field (match m with
                    | CACHE_MODE_TIMED => default zero (field_get field (extra t))
                    | CACHE_MODE_GENERIC => zero
                    end) (extra t)).

(** *** The list of tiers; each handler gives the configuration handed to [onChange]. *)

Definition default_condition (v : jstr) : TierConditionInput := mkCond v (js "<") (Some (VNum (num_of_Z 200000))).

Definition handleTierChange (config : option VisualConfig) (i : nat) (next : VisualTier) : VisualConfig :=
  mkConfig (<[i := normalizeVisualTier (partial_tier next)]> (tiers (normalizeVisualConfig config))).

Definition handleAddTier (config : option VisualConfig) : VisualConfig :=
  let ts := tiers (normalizeVisualConfig config) in
  let lastIndex := (length ts - 1)%nat in
  let ts :=
    match ts !! lastIndex with
    | Some t => match TierExpr.conditions t with
                | [] => <[lastIndex := normalizeVisualTier (partial_tier (with_conditions [default_condition (js "len")] t))]> ts
                | _ => ts
                end
    | None => ts
    end in
  mkConfig (ts ++ [normalizeVisualTier
    (mkPartialTier (Some (js "tier_" ++ digits (N.of_nat (length ts + 1)))) (Some []) (Some zero) (Some zero) None [])]).

Definition handleRemoveTier (config : option VisualConfig) (i : nat) : VisualConfig :=
  let ts := tiers (normalizeVisualConfig config) in
  mkConfig (match delete i ts with [] => ts | rest => rest end).

Definition handleAddCondition (config : option VisualConfig) (i : nat) : option VisualConfig :=
  let c := normalizeVisualConfig config in
  match tiers c !! i with
  | None => None
  | Some t =>
      if (2 <=? length (TierExpr.conditions t))%nat then config
      else
        let nextVar := if has (js "len") (map var (TierExpr.conditions t)) then js "c" else js "len" in
        Some (mkConfig (<[i := with_conditions (TierExpr.conditions t ++ [default_condition nextVar]) t]> (tiers c)))
  end.

(** ** Request rules *)

Import BillingExpr.

Definition handleSourceChange (src : jstr) (c : RequestCondition) : RequestCondition :=
  if src === SOURCE_TIME then CTime createEmptyTimeCondition
  else if src === SOURCE_HEADER then CParamHeader (mkParamHeader header (path createEmptyCondition) (ph_mode createEmptyCondition) (ph_value createEmptyCondition))
  else if src === SOURCE_PARAM then CParamHeader createEmptyCondition
  else c.

Definition handleRuleModeChange (m : jstr) (c : RequestCondition) : RequestCondition :=
  match c with
  | CTime t => CTime (mkTime (timeFunc t) (timezone t) m (t_value t) (rangeStart t) (rangeEnd t))
  | CParamHeader c => CParamHeader (mkParamHeader (source c) (path c) m (ph_value c))
  end.

Definition with_rows (cs : list RequestCondition) (g : RequestRuleGroup) : RequestRuleGroup :=
  mkGroup cs (multiplier g) (conditionText g) (matched g).
Definition handleRuleConditionChange (i : nat) (next : RequestCondition) (g : RequestRuleGroup) : RequestRuleGroup :=
  with_rows (<[i := next]> (BillingExpr.conditions g)) g.
Definition handleAddRuleCondition (timeMode : bool) (g : RequestRuleGroup) : RequestRuleGroup :=
  with_rows (BillingExpr.conditions g ++ [if timeMode then CTime createEmptyTimeCondition else CParamHeader createEmptyCondition]) g.
Definition handleRemoveRuleCondition (i : nat) (g : RequestRuleGroup) : RequestRuleGroup :=
  with_rows (delete i (BillingExpr.conditions g)) g.

(** ** Presets *)

Record Preset := mkPreset { preset_key : jstr; expr : jstr; requestRules : list RequestRuleGroup }.

Definition rule (c : RequestCondition) (mult : string) : RequestRuleGroup := mkGroup [c] (js mult) None None.
Definition weekday_is (d : string) : RequestCondition := CTime (mkTime weekday (js "Asia/Shanghai") MATCH_EQ (js d) [] []).
Definition service_tier (v : string) : RequestCondition := CParamHeader (mkParamHeader param (js "service_tier") MATCH_EQ (js v)).

Definition PRESETS : list Preset := [
  mkPreset (js "flat") (jq "tier('base', p * 2 + c * 4)") [];
  mkPreset (js "claude-opus") (jq "tier('base', p * 5 + c * 25 + cr * 0.5 + cc * 6.25 + cc1h * 10)") [];
  mkPreset (js "gpt-5.4")
    (jq "len <= 272000 ? tier('standard', p * 2.5 + c * 15 + cr * 0.25) : tier('long_context', p * 5 + c * 22.5 + cr * 0.5)") [];
  mkPreset (js "claude-sonnet")
    (jq "len <= 200000 ? tier('standard', p * 3 + c * 15 + cr * 0.3 + cc * 3.75 + cc1h * 6) : tier('long_context', p * 6 + c * 22.5 + cr * 0.6 + cc * 7.5 + cc1h * 12)") [];
  mkPreset (js "qwen3-max")
    (jq "len <= 32000 ? tier('short', p * 1.2 + c * 6 + cr * 0.24 + cc * 1.5) : len <= 128000 ? tier('mid', p * 2.4 + c * 12 + cr * 0.48 + cc * 3) : tier('long', p * 3 + c * 15 + cr * 0.6 + cc * 3.75)") [];
  mkPreset (js "glm-4.5-air")
    (jq "len < 32000 && c < 200 ? tier('short_output', p * 0.8 + c * 2 + cr * 0.16) : len < 32000 && c >= 200 ? tier('long_output', p * 0.8 + c * 6 + cr * 0.16) : tier('mid_context', p * 1.2 + c * 8 + cr * 0.24)") [];
  mkPreset (js "doubao-seed-1.8")
    (jq "len <= 32000 && c <= 200 ? tier('discount', p * 0.8 + c * 2 + cr * 0.16 + cc * 0.17) : len <= 32000 ? tier('short', p * 0.8 + c * 8 + cr * 0.16 + cc * 0.17) : len <= 128000 ? tier('mid', p * 1.2 + c * 16 + cr * 0.16 + cc * 0.17) : tier('long', p * 2.4 + c * 24 + cr * 0.16 + cc * 0.17)") [];
  mkPreset (js "gpt-image-1-mini") (jq "tier('base', p * 2 + c * 8 + img * 2.5)") [];
  mkPreset (js "gemini-2.5-flash") (jq "tier('base', p * 0.3 + c * 2.5 + cr * 0.03 + ai * 1.0)") [];
  mkPreset (js "gemini-3-pro-image") (jq "tier('base', p * 2 + c * 12 + img_o * 120)") [];
  mkPreset (js "qwen3-omni-flash") (jq "tier('base', p * 0.43 + c * 3.06 + img * 0.78 + ai * 3.81 + ao * 15.11)") [];
  mkPreset (js "claude-opus-fast") (jq "tier('base', p * 5 + c * 25 + cr * 0.5 + cc * 6.25 + cc1h * 10)")
    [rule (CParamHeader (mkParamHeader header (js "anthropic-beta") MATCH_CONTAINS (js "fast-mode-2026-02-01"))) "6"];
  mkPreset (js "gpt-5.4-tiers")
    (jq "len <= 272000 ? tier('standard', p * 2.5 + c * 15 + cr * 0.25) : tier('long_context', p * 5 + c * 22.5 + cr * 0.5)")
    [rule (service_tier "priority") "2"; rule (service_tier "flex") "0.5"];
  mkPreset (js "night-discount") (jq "tier('base', p * 3 + c * 15)")
    [rule (CTime (mkTime hour (js "Asia/Shanghai") MATCH_RANGE [] (js "21") (js "6"))) "0.5"];
  mkPreset (js "weekend-discount") (jq "tier('base', p * 3 + c * 15)") [rule (weekday_is "0") "0.8"; rule (weekday_is "6") "0.8"]
].

(** ** The editor *)

Inductive EditorMode := visual | raw.

Record Editor := mkEditor {
  editorMode : EditorMode;
  visualConfig : option VisualConfig;
  rawExpr : jstr;
  requestRuleGroups : list RequestRuleGroup;
  initRef : bool;
  seenProps : option (jstr * jstr);   (* the expressions at the last run of the effect that reads them *)
  seenName : option jstr;             (* the model name at the last run of the effect that watches it *)
  modelName : jstr;                   (* the properties, as the panel around the editor holds them *)
  billingExpr : jstr;
  requestRuleExpr : jstr;
}.

(** [tryParseRequestRuleExpr(expr) || []] *)
Definition groups_of (expr : jstr) : option (list RequestRuleGroup) := gs ← tryParseRequestRuleExpr expr; Some (default [] gs).

(** The first render. *)
Definition mount (name currentExpr currentRequestRuleExpr : jstr) : option Editor :=
  gs ← groups_of currentRequestRuleExpr;
  Some (mkEditor visual (tryParseVisualConfig (Some currentExpr)) (combineBillingExpr currentExpr currentRequestRuleExpr) gs
          false None None name currentExpr currentRequestRuleExpr).

Definition canUseVisualRules (e : Editor) : option bool :=
  if negb (truthy (requestRuleExpr e)) then Some true
  else gs ← tryParseRequestRuleExpr (requestRuleExpr e); Some (bool_decide (is_Some gs)).

Definition effectiveExpr (e : Editor) : option jstr :=
  match editorMode e with
  | visual => Some (generateExprFromVisualConfig (visualConfig e))
  | raw => fst <$> splitBillingExprAndRequestRules (rawExpr e)
  end.

(** *** The effects after a render; [r] is what was rendered, [e] the state so far. *)

Definition init_effect (r e : Editor) : option Editor :=
  if bool_decide (seenProps r = Some (billingExpr r, requestRuleExpr r)) then Some e
  else
    let seen := Some (billingExpr r, requestRuleExpr r) in
    if initRef e
    then Some (mkEditor (editorMode e) (visualConfig e) (rawExpr e) (requestRuleGroups e) true seen (seenName e) (modelName e)
                 (billingExpr e) (requestRuleExpr e))
    else
      gs ← groups_of (requestRuleExpr r);
      let parsedConfig := tryParseVisualConfig (Some (billingExpr r)) in
      let '(mode, config) :=
        match parsedConfig with
        | Some c => (visual, Some c)
        | None => if truthy (billingExpr r) then (raw, None) else (editorMode e, Some createDefaultVisualConfig)
        end in
      Some (mkEditor mode config (combineBillingExpr (billingExpr r) (requestRuleExpr r)) gs true seen (seenName e) (modelName e)
              (billingExpr e) (requestRuleExpr e)).

Definition name_effect (r e : Editor) : Editor :=
  if bool_decide (seenName r = Some (modelName r)) then e
  else mkEditor (editorMode e) (visualConfig e) (rawExpr e) (requestRuleGroups e) false (seenProps e) (Some (modelName r))
         (modelName e) (billingExpr e) (requestRuleExpr e).

Definition set_billing (x : jstr) (e : Editor) : Editor :=
  mkEditor (editorMode e) (visualConfig e) (rawExpr e) (requestRuleGroups e) (initRef e) (seenProps e) (seenName e) (modelName e) x
    (requestRuleExpr e).
Definition set_rules (x : jstr) (e : Editor) : Editor :=
  mkEditor (editorMode e) (visualConfig e) (rawExpr e) (requestRuleGroups e) (initRef e) (seenProps e) (seenName e) (modelName e)
    (billingExpr e) x.

(** Running this one again on unchanged values does nothing, so its dependencies need not be kept; likewise the next one. *)
Definition expr_effect (r e : Editor) : option Editor :=
  x ← effectiveExpr r; Some (if x === billingExpr r then e else set_billing x e).

Definition rules_effect (r e : Editor) : Editor :=
  match editorMode r with
  | raw => e
  | visual => let ruleExpr := buildRequestRuleExpr (requestRuleGroups r) in
              if ruleExpr === requestRuleExpr r then e else set_rules ruleExpr e
  end.

Definition effects (r : Editor) : option Editor :=
  e ← init_effect r r;
  e ← expr_effect r (name_effect r e);
  Some (rules_effect r e).

(** [n] renders with their effects. *)
Fixpoint renders (n : nat) (e : Editor) : option Editor :=
  match n with O => Some e | S n => e' ← effects e; renders n e' end.

(** *** Handlers *)

Definition set_visual (c : option VisualConfig) (e : Editor) : Editor :=
  mkEditor (editorMode e) c (rawExpr e) (requestRuleGroups e) (initRef e) (seenProps e) (seenName e) (modelName e) (billingExpr e)
    (requestRuleExpr e).
Definition set_raw (x : jstr) (e : Editor) : Editor :=
  mkEditor (editorMode e) (visualConfig e) x (requestRuleGroups e) (initRef e) (seenProps e) (seenName e) (modelName e)
    (billingExpr e) (requestRuleExpr e).
Definition set_groups (gs : list RequestRuleGroup) (e : Editor) : Editor :=
  mkEditor (editorMode e) (visualConfig e) (rawExpr e) gs (initRef e) (seenProps e) (seenName e) (modelName e) (billingExpr e)
    (requestRuleExpr e).
Definition set_mode (m : EditorMode) (e : Editor) : Editor :=
  mkEditor m (visualConfig e) (rawExpr e) (requestRuleGroups e) (initRef e) (seenProps e) (seenName e) (modelName e) (billingExpr e)
    (requestRuleExpr e).

Definition handleVisualChange (next : VisualConfig) (e : Editor) : Editor := set_visual (Some next) e.
Definition handleRuleGroupsChange (next : list RequestRuleGroup) (e : Editor) : Editor := set_groups next e.

Definition handleRawChange (v : jstr) (e : Editor) : option Editor :=
  '(_, ruleStr) ← splitBillingExprAndRequestRules v;
  Some (set_rules ruleStr (set_raw v e)).

Definition handleModeChange (next : EditorMode) (e : Editor) : option Editor :=
  match next with
  | visual =>
      '(base, ruleStr) ← splitBillingExprAndRequestRules (rawExpr e);
      gs ← groups_of ruleStr;
      let config := default createDefaultVisualConfig (tryParseVisualConfig (Some base)) in
      Some (set_mode visual (set_rules ruleStr (set_groups gs (set_visual (Some config) e))))
  | raw =>
      let x := generateExprFromVisualConfig (visualConfig e) in
      Some (set_mode raw (set_raw (or_else (combineBillingExpr x (buildRequestRuleExpr (requestRuleGroups e))) x) e))
  end.

Definition applyPreset (preset : Preset) (e : Editor) : Editor :=
  let ruleExpr := buildRequestRuleExpr (requestRules preset) in
  let combined := or_else (combineBillingExpr (expr preset) ruleExpr) (expr preset) in
  let parsed := tryParseVisualConfig (Some (expr preset)) in
  let mode := match parsed with Some _ => visual | None => raw end in
  set_rules ruleExpr (set_groups (requestRules preset) (set_mode mode (set_visual parsed (set_raw combined e)))).

End TieredEditor.
