(* ===== verification/TieredEditorFacts.v ===== *)
(** * What the editor of billing expressions does to the expressions it shows

    The editor hands on what it shows after every render, and re-reads what the
    panel holds whenever [initRef] is down.  The mounting of the editor itself
    takes [initRef] down again, after the first reading, so that the first change
    of the expressions is read back as if it had come from outside.

    - [opening_keeps_recognised]: an expression that the visual editor can show
      stays as it is, and so do its rules;
    - [visual_edit_is_handed_on]: an edit in the visual editor is what the panel
      then holds, the first one after opening included;
    - [preset_is_handed_on]: a preset gives its prices and rules to an editor
      that has read its expressions;
    - [opening_zeroes_unrecognised]: opening an expression the visual editor
      cannot show replaces it by a price of zero;
    - [opening_erases_unreadable_rules]: rules the visual editor cannot show are
      removed by opening them;
    - [first_preset_keeps_old_prices]: right after opening, a preset with rules
      sets the rules and leaves the old prices. *)

From S2P Require Import Prelude JsValue JsCollections Regex BillingExpr TierExpr TieredEditor.

Import TierExpr BillingExpr TieredEditor.

(** ** One render *)

(** The rules an editor shows. *)
Definition shown_rules (r : Editor) : jstr :=
  match editorMode r with visual => buildRequestRuleExpr (requestRuleGroups r) | raw => requestRuleExpr r end.

Lemma same_text (x y : jstr) : (x === y) = true → x = y.
Proof. by intros ?%bool_decide_eq_true. Qed.

(** The reading leaves the properties alone and notes what it has seen. *)
Lemma init_effect_props r e' :
  init_effect r r = Some e' →
  billingExpr e' = billingExpr r ∧ requestRuleExpr e' = requestRuleExpr r ∧ modelName e' = modelName r ∧ seenName e' = seenName r
  ∧ seenProps e' = Some (billingExpr r, requestRuleExpr r).
Proof.
  unfold init_effect. case_bool_decide; [by intros [= <-]|]. destruct (initRef r); [by intros [= <-]|].
  destruct (groups_of _); [|done]. cbn [mbind option_bind].
  destruct (tryParseVisualConfig _); [by intros [= <-]|]. destruct (truthy _); by intros [= <-].
Qed.

(** After the effects of a render the panel holds what was shown. *)
Lemma effects_eq r :
  effects r = (e ← init_effect r r; x ← effectiveExpr r; Some (set_rules (shown_rules r) (set_billing x (name_effect r e)))).
Proof.
  unfold effects. destruct (init_effect r r) as [e|] eqn:H; [|done].
  destruct (init_effect_props _ _ H) as (Hb & Hr & _). cbn [mbind option_bind]. unfold expr_effect.
  destruct (effectiveExpr r) as [x|]; [|done]. cbn [mbind option_bind]. f_equal.
  destruct (name_effect r e) as [m c w gs i sp sn n b rl] eqn:E.
  assert (b = billingExpr r ∧ rl = requestRuleExpr r) as [-> ->].
  { unfold name_effect in E. destruct e as [m1 c1 w1 g1 i1 sp1 sn1 n1 b1 rl1]. cbn [billingExpr requestRuleExpr] in Hb, Hr. subst b1 rl1.
    case_bool_decide; by inversion E. }
  unfold rules_effect, shown_rules, set_rules, set_billing.
  destruct (x === billingExpr r) eqn:Ex; [apply same_text in Ex as ->|]; destruct (editorMode r); try done;
    (destruct (buildRequestRuleExpr (requestRuleGroups r) === requestRuleExpr r) eqn:Er; [apply same_text in Er as ->|]); done.
Qed.

(** A render of an editor whose model name has been seen: [initRef] up. *)
Lemma render_read m c w gs sp n b rl x :
  effectiveExpr (mkEditor m c w gs true sp (Some n) n b rl) = Some x →
  effects (mkEditor m c w gs true sp (Some n) n b rl)
  = Some (mkEditor m c w gs true (Some (b, rl)) (Some n) n x (shown_rules (mkEditor m c w gs true sp (Some n) n b rl))).
Proof.
  intros Hx. rewrite effects_eq, Hx. unfold init_effect, name_effect; cbn [seenProps billingExpr requestRuleExpr initRef modelName seenName].
  rewrite (bool_decide_eq_true_2 (Some n = Some n)) by done.
  case_bool_decide as H; [rewrite H|]; reflexivity.
Qed.

(** The same with [initRef] down: nothing is read while the expressions stay. *)
Lemma render_same m c w gs n b rl x :
  effectiveExpr (mkEditor m c w gs false (Some (b, rl)) (Some n) n b rl) = Some x →
  effects (mkEditor m c w gs false (Some (b, rl)) (Some n) n b rl)
  = Some (mkEditor m c w gs false (Some (b, rl)) (Some n) n x (shown_rules (mkEditor m c w gs false (Some (b, rl)) (Some n) n b rl))).
Proof.
  intros Hx. rewrite effects_eq, Hx. unfold init_effect, name_effect; cbn [seenProps billingExpr requestRuleExpr initRef modelName seenName].
  rewrite !bool_decide_eq_true_2 by done. done.
Qed.

(** What a reading of the expressions leaves in the editor. *)
Definition read_mode (b : jstr) (m : EditorMode) : EditorMode :=
  match tryParseVisualConfig (Some b) with Some _ => visual | None => if truthy b then raw else m end.
Definition read_config (b : jstr) : option VisualConfig :=
  match tryParseVisualConfig (Some b) with
  | Some c => Some c
  | None => if truthy b then None else Some createDefaultVisualConfig
  end.

(** A reading, for a name that has been seen ([initRef] stays up) or not (it goes down again). *)
Lemma render_reads m c w gs gs' sp sn n b rl x :
  sp ≠ Some (b, rl) → groups_of rl = Some gs' →
  effectiveExpr (mkEditor m c w gs false sp sn n b rl) = Some x →
  effects (mkEditor m c w gs false sp sn n b rl)
  = Some (mkEditor (read_mode b m) (read_config b) (combineBillingExpr b rl) gs' (bool_decide (sn = Some n)) (Some (b, rl)) (Some n) n x
            (shown_rules (mkEditor m c w gs false sp sn n b rl))).
Proof.
  intros Hs Hg Hx. rewrite effects_eq, Hx. unfold init_effect, name_effect; cbn [seenProps billingExpr requestRuleExpr initRef modelName seenName].
  rewrite (bool_decide_eq_false_2 (sp = _)) by done. rewrite Hg. cbn [mbind option_bind]. unfold read_mode, read_config.
  destruct (tryParseVisualConfig _) as [c'|]; [|destruct (truthy b)];
    cbn [mbind option_bind editorMode visualConfig rawExpr requestRuleGroups seenProps seenName modelName billingExpr requestRuleExpr];
    case_bool_decide as H; try subst sn; done.
Qed.

(** ** States that stay *)

(** The effects change nothing any more. *)
Definition settled (e : Editor) : Prop := effects e = Some e.

Lemma settled_inv e :
  settled e →
  seenProps e = Some (billingExpr e, requestRuleExpr e) ∧ seenName e = Some (modelName e)
  ∧ effectiveExpr e = Some (billingExpr e) ∧ requestRuleExpr e = shown_rules e.
Proof.
  unfold settled. rewrite effects_eq. destruct (init_effect e e) as [e1|] eqn:Hi; [|done].
  destruct (effectiveExpr e) as [x|]; [|done]. cbn [mbind option_bind]. intros H%(inj Some).
  assert (Hx := f_equal billingExpr H). assert (Hr := f_equal requestRuleExpr H).
  assert (Hp := f_equal seenProps H). assert (Hn := f_equal seenName H). cbn in Hx, Hr, Hp, Hn.
  destruct (init_effect_props _ _ Hi) as (_ & _ & Hm & Hs & Hq).
  assert (Hn' : seenName e = Some (modelName e)).
  { rewrite <- Hn. unfold name_effect. case_bool_decide as E; [|done]. by rewrite Hs. }
  split_and!; [|done|by f_equal|done].
  rewrite <- Hp. unfold name_effect. by rewrite (bool_decide_eq_true_2 (seenName e = _)) by done.
Qed.

(** Conversely such a state stays, whichever way [initRef] stands. *)
Lemma settled_intro m c w gs i n b rl :
  effectiveExpr (mkEditor m c w gs i (Some (b, rl)) (Some n) n b rl) = Some b →
  shown_rules (mkEditor m c w gs i (Some (b, rl)) (Some n) n b rl) = rl →
  settled (mkEditor m c w gs i (Some (b, rl)) (Some n) n b rl).
Proof. intros Hx Hr. destruct i; unfold settled; [rewrite (render_read _ _ _ _ _ _ _ _ _ Hx)|rewrite (render_same _ _ _ _ _ _ _ _ Hx)]; by rewrite Hr. Qed.

Lemma renders_more k e e' j : renders k e = Some e' → settled e' → (k ≤ j)%nat → renders j e = Some e'.
Proof.
  revert e j. induction k as [|k IH]; intros e j H Hs Hle.
  - injection H as ->. clear Hle. induction j; [done|]. cbn [renders]. by rewrite Hs.
  - destruct j as [|j]; [lia|]. cbn [renders] in H |- *. destruct (effects e) as [e1|]; [|done]. cbn [mbind option_bind] in H |- *.
    apply IH; [done|done|lia].
Qed.

(** An editor with [initRef] up settles in two renders on what it shows. *)
Lemma read_settles m c w gs sp n b rl x :
  effectiveExpr (mkEditor m c w gs true sp (Some n) n b rl) = Some x →
  let r := shown_rules (mkEditor m c w gs true sp (Some n) n b rl) in
  let e' := mkEditor m c w gs true (Some (x, r)) (Some n) n x r in
  renders 2 (mkEditor m c w gs true sp (Some n) n b rl) = Some e' ∧ settled e'.
Proof.
  intros Hx r e'. assert (Hr : shown_rules e' = r) by (by destruct m).
  split; [|by apply settled_intro; [destruct m|]]. cbn [renders]. rewrite (render_read _ _ _ _ _ _ _ _ _ Hx). cbn [mbind option_bind].
  rewrite (render_read _ _ _ _ _ _ _ _ x) by (by destruct m). cbn [mbind option_bind]. by destruct m.
Qed.

(** ** Opening an expression *)

Section open.
Context (n X R : jstr) (gs : list RequestRuleGroup).
Hypothesis rules_read : groups_of R = Some gs.

Lemma mounted : mount n X R = Some (mkEditor visual (tryParseVisualConfig (Some X)) (combineBillingExpr X R) gs false None None n X R).
Proof. unfold mount. by rewrite rules_read. Qed.

(** The first render reads what is there and takes [initRef] down again. *)
Lemma first_render :
  (mount n X R ≫= effects)
  = Some (mkEditor (read_mode X visual) (read_config X) (combineBillingExpr X R) gs false (Some (X, R)) (Some n) n
            (generateExprFromVisualConfig (tryParseVisualConfig (Some X))) (buildRequestRuleExpr gs)).
Proof. rewrite mounted. cbn [mbind option_bind]. by eapply render_reads. Qed.
End open.

(** Opening a price that the visual editor can show, with rules it can show,
    changes neither: after the first render the panel holds the same two texts,
    the editor shows their configuration and rules, and nothing moves any more. *)
Theorem opening_keeps_recognised (n X R : jstr) (c : VisualConfig) (gs : list RequestRuleGroup) :
  tryParseVisualConfig (Some X) = Some c → generateExprFromVisualConfig (Some c) = X →
  tryParseRequestRuleExpr R = Some (Some gs) → buildRequestRuleExpr gs = R →
  ∃ e, (mount n X R ≫= effects) = Some e ∧ settled e ∧ billingExpr e = X ∧ requestRuleExpr e = R
       ∧ editorMode e = visual ∧ visualConfig e = Some c ∧ requestRuleGroups e = gs.
Proof.
  intros Hc HX Hg HR. assert (Hr : groups_of R = Some gs) by (unfold groups_of; by rewrite Hg).
  rewrite (first_render n X R gs Hr). unfold read_mode, read_config. rewrite Hc, HX, HR.
  eexists. split; [done|]. split; [|done]. apply settled_intro; [exact (f_equal Some HX)|exact HR].
Qed.

(** The price of nothing, which an editor without a configuration generates. *)
Definition zero_expr : jstr := js "p * 0 + c * 0".

(** [C30] Opening a price the visual editor cannot show loses it.  The editor
    starts in visual mode without a configuration and hands on the price of
    nothing before it switches to the text; as mounting has taken [initRef] down
    it then reads that price back.  After four renders the panel holds a price of
    zero for prompt and completion and the text field shows it, and so it stays;
    the rules are kept. *)
Theorem opening_zeroes_unrecognised (n X R base : jstr) (gs : list RequestRuleGroup) :
  X ≠ [] → X ≠ zero_expr → tryParseVisualConfig (Some X) = None →
  splitBillingExprAndRequestRules (combineBillingExpr X R) = Some (base, R) →
  tryParseRequestRuleExpr R = Some (Some gs) → buildRequestRuleExpr gs = R →
  splitBillingExprAndRequestRules (combineBillingExpr zero_expr R) = Some (zero_expr, R) →
  ∃ e, (mount n X R ≫= renders 4) = Some e ∧ settled e ∧ billingExpr e = zero_expr ∧ requestRuleExpr e = R
       ∧ editorMode e = raw ∧ rawExpr e = combineBillingExpr zero_expr R.
Proof.
  intros HX Hz Hc Hsplit Hg HR Hsplit0. assert (Hr : groups_of R = Some gs) by (unfold groups_of; by rewrite Hg).
  assert (Ht : truthy X = true) by (by destruct X). assert (Hn : tryParseVisualConfig (Some zero_expr) = None) by (by vm_compute).
  assert (H1 := first_render n X R gs Hr). unfold read_mode, read_config in H1. rewrite Hc, Ht, HR in H1.
  change (generateExprFromVisualConfig None) with zero_expr in H1.
  destruct (mount n X R) as [e0|] eqn:E0; [|done]. cbn [mbind option_bind] in H1 |- *.
  cbn [renders]. rewrite H1. cbn [mbind option_bind].
  assert (Hne : Some (X, R) ≠ Some (zero_expr, R)) by congruence.
  rewrite (render_reads _ _ _ _ gs _ _ _ _ _ base Hne Hr) by exact (f_equal (fmap fst) Hsplit). cbn [mbind option_bind].
  unfold read_mode, read_config. rewrite Hn, (bool_decide_eq_true_2 _ eq_refl).
  change (truthy zero_expr) with true. cbn [shown_rules editorMode requestRuleExpr].
  destruct (read_settles raw None (combineBillingExpr zero_expr R) gs (Some (zero_expr, R)) n base R zero_expr) as [H2 Hs];
    [exact (f_equal (fmap fst) Hsplit0)|].
  eexists. split; [exact H2|]. by split; [exact Hs|].
Qed.

Lemma no_rules_read : groups_of [] = Some [].
Proof. by vm_compute. Qed.

(** Opening a price with rules that the visual editor cannot show loses the
    rules, though the editor says they are too complex to be edited there: no
    group is shown for them and the text of no group is handed on.  The price
    is kept. *)
Theorem opening_erases_unreadable_rules (n X R : jstr) (c : VisualConfig) :
  tryParseVisualConfig (Some X) = Some c → generateExprFromVisualConfig (Some c) = X →
  tryParseRequestRuleExpr R = Some None → R ≠ [] →
  ∃ e, (mount n X R ≫= renders 2) = Some e ∧ settled e ∧ billingExpr e = X ∧ requestRuleExpr e = [] ∧ requestRuleGroups e = [].
Proof.
  intros Hc HX Hg HR. assert (Hr : groups_of R = Some []) by (unfold groups_of; by rewrite Hg).
  assert (H1 := first_render n X R [] Hr). unfold read_mode, read_config in H1. rewrite Hc, HX in H1.
  destruct (mount n X R) as [e0|]; [|done]. cbn [mbind option_bind renders] in H1 |- *. rewrite H1. cbn [mbind option_bind].
  change (buildRequestRuleExpr []) with ([] : jstr). assert (Hne : Some (X, R) ≠ Some (X, [])) by congruence.
  rewrite (render_reads _ _ _ _ [] _ _ _ _ _ X Hne no_rules_read) by exact (f_equal Some HX).
  cbn [mbind option_bind]. unfold read_mode, read_config. rewrite Hc.
  eexists. split; [done|]. split; [|done]. rewrite (bool_decide_eq_true_2 _ eq_refl). apply settled_intro; [exact (f_equal Some HX)|done].
Qed.

(** ** Edits and presets *)

(** Rules that read back as themselves. *)
Definition readable_rules (R : jstr) : Prop := ∃ gs, groups_of R = Some gs ∧ buildRequestRuleExpr gs = R.

(** With [initRef] down, a change of what is shown is read back once, and stays
    if the text shown is recognised and regenerated as it is. *)
Lemma read_back_settles c c' w gs sp n b R :
  sp ≠ Some (b, R) → b = generateExprFromVisualConfig (Some c) → tryParseVisualConfig (Some b) = Some c' → generateExprFromVisualConfig (Some c') = b →
  readable_rules R → buildRequestRuleExpr gs = R →
  ∃ e', effects (mkEditor visual (Some c) w gs false sp (Some n) n b R) = Some e' ∧ settled e' ∧ editorMode e' = visual
        ∧ billingExpr e' = b ∧ requestRuleExpr e' = R ∧ visualConfig e' = Some c' ∧ initRef e' = true.
Proof.
  intros Hs Hb Hc' Hb' (gs' & Hg & HR) Hgs.
  rewrite (render_reads _ _ _ _ gs' _ _ _ _ _ b Hs Hg) by exact (f_equal Some (eq_sym Hb)).
  unfold read_mode, read_config. rewrite Hc', (bool_decide_eq_true_2 _ eq_refl). unfold shown_rules; cbn [editorMode requestRuleGroups]. rewrite Hgs.
  eexists. split; [done|]. split; [|done]. apply settled_intro; [exact (f_equal Some Hb')|exact HR].
Qed.

(** [C29] An edit in the visual editor is what the panel holds: from any settled
    state in visual mode whose rules read back as themselves, whether or not the
    editor will read the text back once more, a new configuration whose text is
    recognised as one that generates the same text leads to a settled state in
    visual mode with exactly that text, and with the rules as they were. *)
Theorem visual_edit_is_handed_on (e : Editor) (c c' : VisualConfig) :
  settled e → editorMode e = visual → readable_rules (requestRuleExpr e) →
  tryParseVisualConfig (Some (generateExprFromVisualConfig (Some c))) = Some c' →
  generateExprFromVisualConfig (Some c') = generateExprFromVisualConfig (Some c) →
  ∃ e', renders 3 (handleVisualChange c e) = Some e' ∧ settled e' ∧ editorMode e' = visual
        ∧ billingExpr e' = generateExprFromVisualConfig (Some c) ∧ requestRuleExpr e' = requestRuleExpr e.
Proof.
  destruct e as [m c0 w gs i sp sn n b R]. intros He Hm HR Hc' Hgen.
  destruct (settled_inv _ He) as (Hp & Hn & _ & Hr). unfold shown_rules in Hr.
  cbn [editorMode requestRuleExpr seenProps seenName billingExpr modelName requestRuleGroups] in Hm, HR, Hp, Hn, Hr. subst m sp sn.
  unfold handleVisualChange, set_visual.
  cbn [editorMode rawExpr requestRuleGroups initRef seenProps seenName modelName billingExpr requestRuleExpr].
  set (B := generateExprFromVisualConfig (Some c)) in *. destruct i.
  - destruct (read_settles visual (Some c) w gs (Some (b, R)) n b R B eq_refl) as [H2 Hs].
    eexists. split; [exact (renders_more 2 _ _ 3 H2 Hs ltac:(lia))|]. split; [exact Hs|]. by split_and!.
  - assert (H1 := render_same visual (Some c) w gs n b R B eq_refl). unfold shown_rules in H1. cbn [editorMode requestRuleGroups] in H1.
    rewrite <- Hr in H1. destruct (decide (b = B)) as [->|Hne].
    + eexists. split; [apply (renders_more 0); [done| |lia]|]; [exact H1|]. split; [exact H1|done].
    + destruct (read_back_settles c c' w gs (Some (b, R)) n B R) as (e' & H2 & Hs & ?); try done; [congruence|].
      exists e'. split; [|by destruct_and?; split_and!].
      apply (renders_more 2); [|done|lia]. cbn [renders]. rewrite H1. cbn [mbind option_bind]. by rewrite H2.
Qed.

(** Every preset is recognised, is regenerated as a text of the same configuration,
    and its rules read back. *)
Definition preset_reads (p : Preset) : Prop :=
  ∃ c gs, tryParseVisualConfig (Some (expr p)) = Some c ∧ groups_of (buildRequestRuleExpr (requestRules p)) = Some gs
          ∧ tryParseVisualConfig (Some (generateExprFromVisualConfig (Some c))) = Some c
          ∧ buildRequestRuleExpr gs = buildRequestRuleExpr (requestRules p).

Lemma presets_read : Forall preset_reads PRESETS.
Proof.
  repeat constructor; (eexists _, _; split; [vm_compute; reflexivity|]; split; [vm_compute; reflexivity|]; split; vm_compute; reflexivity).
Qed.

(** A preset gives the panel its prices and its rules: from any settled
    state of an editor that does not read its texts again, applying one of the
    presets leads to a settled state in visual mode, whose price is recognised as
    the same tiers as that of the preset and whose rules are those of the preset. *)
Theorem preset_is_handed_on (e : Editor) (p : Preset) :
  settled e → initRef e = true → p ∈ PRESETS →
  ∃ e', renders 2 (applyPreset p e) = Some e' ∧ settled e' ∧ editorMode e' = visual
        ∧ tryParseVisualConfig (Some (billingExpr e')) = tryParseVisualConfig (Some (expr p))
        ∧ requestRuleGroups e' = requestRules p ∧ requestRuleExpr e' = buildRequestRuleExpr (requestRules p).
Proof.
  destruct e as [m c0 w gs i sp sn n b R]. intros He Hi Hp.
  destruct (proj1 (list.Forall_forall _ _) presets_read p Hp) as (c & gs' & Hc & Hg & Hback & Hb).
  destruct (settled_inv _ He) as (_ & Hn & _). cbn [seenName modelName initRef] in Hi, Hn. subst i sn.
  unfold applyPreset. rewrite Hc. unfold set_rules, set_groups, set_mode, set_visual, set_raw.
  cbn [editorMode visualConfig rawExpr requestRuleGroups initRef seenProps seenName modelName billingExpr requestRuleExpr].
  match goal with |- context [renders 2 (mkEditor _ _ ?w' _ _ _ _ _ _ ?R')] =>
    destruct (read_settles visual (Some c) w' (requestRules p) sp n b R' _ eq_refl) as [H2 Hs] end.
  eexists. split; [exact H2|]. split; [exact Hs|]. split_and!; [done|exact Hback|done|done].
Qed.

(** Right after opening, a preset does not set the prices.  In a settled
    visual editor that has yet to read its texts once more, as opening leaves it,
    applying a preset with other rules than those of the panel makes the editor
    read the old price back: the rules become those of the preset, the price stays
    as it was. *)
Theorem first_preset_keeps_old_prices (e : Editor) (p : Preset) (c0 : VisualConfig) :
  settled e → initRef e = false → tryParseVisualConfig (Some (billingExpr e)) = Some c0 →
  generateExprFromVisualConfig (Some c0) = billingExpr e →
  p ∈ PRESETS → requestRuleExpr e ≠ buildRequestRuleExpr (requestRules p) →
  ∃ e', renders 3 (applyPreset p e) = Some e' ∧ settled e' ∧ editorMode e' = visual
        ∧ billingExpr e' = billingExpr e ∧ requestRuleExpr e' = buildRequestRuleExpr (requestRules p).
Proof.
  destruct e as [m c1 w gs i sp sn n b R]. intros He Hi Hc0 Hb0 Hp HR.
  destruct (proj1 (list.Forall_forall _ _) presets_read p Hp) as (c & gs' & Hc & Hg & _ & Hb).
  destruct (settled_inv _ He) as (Hs & Hn & _).
  cbn [seenName seenProps modelName initRef billingExpr requestRuleExpr] in Hi, Hn, Hs, Hc0, Hb0, HR |- *. subst i sn sp.
  unfold applyPreset. rewrite Hc. unfold set_rules, set_groups, set_mode, set_visual, set_raw.
  cbn [editorMode visualConfig rawExpr requestRuleGroups initRef seenProps seenName modelName billingExpr requestRuleExpr].
  set (R' := buildRequestRuleExpr (requestRules p)) in *.
  assert (Hne : Some (b, R) ≠ Some (b, R')) by congruence.
  cbn [renders]. rewrite (render_reads visual (Some c) _ _ gs' _ _ _ _ _ _ Hne Hg eq_refl). cbn [mbind option_bind].
  unfold read_mode, read_config. rewrite Hc0, (bool_decide_eq_true_2 _ eq_refl).
  match goal with |- context [effects (mkEditor _ _ ?w' _ _ ?sp' _ _ ?b' ?R1)] =>
    destruct (read_settles visual (Some c0) w' gs' sp' n b' R1 _ eq_refl) as [H2 Hs] end.
  eexists. split; [exact H2|]. split; [exact Hs|]. split_and!; [done|exact Hb0|exact Hb].
Qed.

(** ** The theorems on concrete prices *)

Definition flat : jstr := jq "tier('base', p * 2 + c * 4)".
Definition flat_config : VisualConfig := default createDefaultVisualConfig (tryParseVisualConfig (Some flat)).
Definition vip : jstr := jq "(header('x-plan') == 'vip' ? 0.5 : 1)".
Definition vip_groups : list RequestRuleGroup := default [] (mjoin (tryParseRequestRuleExpr vip)).

Lemma opening_keeps_recognised_witness :
  ∃ e, (mount (js "gpt") flat vip ≫= effects) = Some e ∧ settled e ∧ billingExpr e = flat ∧ requestRuleExpr e = vip
       ∧ editorMode e = visual ∧ visualConfig e = Some flat_config ∧ requestRuleGroups e = vip_groups.
Proof. apply (opening_keeps_recognised (js "gpt") flat vip flat_config vip_groups); vm_compute; reflexivity. Defined.

(** A price with a surcharge, which the visual editor cannot show. *)
Definition surcharge : jstr := jq "tier('base', p * 2 + c * 4) + 100".

Lemma opening_zeroes_unrecognised_witness :
  ∃ e, (mount (js "gpt") surcharge vip ≫= renders 4) = Some e ∧ settled e ∧ billingExpr e = zero_expr ∧ requestRuleExpr e = vip
       ∧ editorMode e = raw ∧ rawExpr e = combineBillingExpr zero_expr vip.
Proof.
  apply (opening_zeroes_unrecognised (js "gpt") surcharge vip surcharge vip_groups);
    [discriminate|apply (bool_decide_unpack _); by vm_compute|vm_compute; reflexivity..].
Defined.

(** Rules with an alternative of conditions. *)
Definition either : jstr := jq "(header('x') == 'a' || header('x') == 'b' ? 2 : 1)".

Lemma opening_erases_unreadable_rules_witness :
  ∃ e, (mount (js "gpt") flat either ≫= renders 2) = Some e ∧ settled e ∧ billingExpr e = flat ∧ requestRuleExpr e = []
       ∧ requestRuleGroups e = [].
Proof. apply (opening_erases_unreadable_rules (js "gpt") flat either flat_config); [vm_compute; reflexivity..|discriminate]. Defined.

(** The editor as opening leaves it. *)
Definition opened_editor : Editor :=
  mkEditor visual (Some flat_config) (combineBillingExpr flat vip) vip_groups false (Some (flat, vip)) (Some (js "gpt")) (js "gpt") flat vip.

Lemma visual_edit_is_handed_on_witness :
  ∃ e', renders 3 (handleVisualChange (handleAddTier (Some flat_config)) opened_editor) = Some e' ∧ settled e' ∧ editorMode e' = visual
        ∧ billingExpr e' = generateExprFromVisualConfig (Some (handleAddTier (Some flat_config))) ∧ requestRuleExpr e' = vip.
Proof.
  apply (visual_edit_is_handed_on opened_editor (handleAddTier (Some flat_config)) (handleAddTier (Some flat_config)));
    [vm_compute; reflexivity|reflexivity|exists vip_groups; split; vm_compute; reflexivity|vm_compute; reflexivity..].
Defined.

Lemma preset_is_handed_on_witness :
  ∃ e', renders 2 (applyPreset (mkPreset (js "flat") flat []) (set_groups vip_groups (mkEditor visual (Some flat_config) flat vip_groups true
                     (Some (flat, vip)) (Some (js "gpt")) (js "gpt") flat vip))) = Some e'
        ∧ settled e' ∧ editorMode e' = visual
        ∧ tryParseVisualConfig (Some (billingExpr e')) = tryParseVisualConfig (Some flat)
        ∧ requestRuleGroups e' = [] ∧ requestRuleExpr e' = buildRequestRuleExpr [].
Proof. apply preset_is_handed_on; [vm_compute; reflexivity|reflexivity|left]. Defined.

Lemma first_preset_keeps_old_prices_witness :
  ∃ e' p, PRESETS !! 12%nat = Some p ∧ renders 3 (applyPreset p opened_editor) = Some e' ∧ settled e' ∧ editorMode e' = visual
          ∧ billingExpr e' = flat ∧ requestRuleExpr e' = buildRequestRuleExpr (requestRules p).
Proof.
  destruct (PRESETS !! 12%nat) as [p|] eqn:E; [|discriminate].
  destruct (first_preset_keeps_old_prices opened_editor p flat_config) as (e' & H);
    [vm_compute; reflexivity|reflexivity|vm_compute; reflexivity..|by eapply list_elem_of_lookup_2| |by exists e', p].
  injection E as <-. apply (bool_decide_unpack _). by vm_compute.
Defined.

