(* ===== verification/PriceSync.v ===== *)
(** * Taking over upstream prices

    Models [features/system-settings/models/upstream-ratio-sync-helpers.ts], the
    component of [upstream-ratio-sync.tsx] and the bulk selection of
    [upstream-ratio-sync-table.tsx].

    The server compares the prices of other installations with the local ones;
    the administrator selects, field by field or column by column, the values to
    take over, and the selection is written into the ten price texts of
    [ModelPricing].  A missing and a null upstream value are treated alike by the
    code and are [None] here.  The server's answers, the conversion to lower case
    and the translation function are parameters. *)

From stdpp Require Import sorting.
From S2P Require Import Prelude StableSort JsValue NumFacts JsCollections FloatError NumRounding NumberText Regex BillingExpr StringFacts JsonText TaskExpr ModelPricing.
Import BillingExpr TaskExpr ModelPricing.

Module PriceSync.

(** ** Fields *)

Inductive RatioType :=
| model_ratio | completion_ratio | cache_ratio | create_cache_ratio | image_ratio | audio_ratio
| audio_completion_ratio | model_price | billing_mode | billing_expr.
#[export] Instance RatioType_eq_dec : EqDecision RatioType.
Proof. solve_decision. Defined.

Definition ratio_text (ratioType : RatioType) : jstr :=
  match ratioType with
  | model_ratio => js "model_ratio" | completion_ratio => js "completion_ratio" | cache_ratio => js "cache_ratio"
  | create_cache_ratio => js "create_cache_ratio" | image_ratio => js "image_ratio" | audio_ratio => js "audio_ratio"
  | audio_completion_ratio => js "audio_completion_ratio" | model_price => js "model_price"
  | billing_mode => js "billing_mode" | billing_expr => js "billing_expr"
  end.

(** A number or a text; ["same"] stands for the local value. *)
Inductive SyncValue := SNum (n : jsnum) | SStr (s : jstr).

Definition mdelete {K V} `{EqDecision K} (k : K) (m : list (K * V)) : list (K * V) := filter (λ e, e.1 ≠ k) m.

Record RatioDifferenceEntry := mkDiff {
  current : option SyncValue; upstreams : list (jstr * option SyncValue); confidence : list (jstr * bool) }.

Definition RatioTypes := list (RatioType * RatioDifferenceEntry).
Definition DifferencesMap := list (jstr * RatioTypes).
Definition Resolution := list (RatioType * SyncValue).
Definition ResolutionsMap := list (jstr * Resolution).

Record ResolutionSelection := mkSel { sel_model : jstr; sel_type : RatioType; sel_value : SyncValue; sourceName : jstr }.
Definition ResolutionRemovalPlan := list (jstr * list RatioType).

Definition RATIO_SYNC_FIELDS : list RatioType :=
  [model_ratio; completion_ratio; cache_ratio; create_cache_ratio; image_ratio; audio_ratio; audio_completion_ratio].
Definition SYNC_FIELD_ORDER : list RatioType := RATIO_SYNC_FIELDS ++ [model_price; billing_mode; billing_expr].
Definition NUMERIC_SYNC_FIELDS : list RatioType := RATIO_SYNC_FIELDS ++ [model_price].

Definition RATIO_TYPE_OPTIONS : list (jstr * RatioType) :=
  [(js "Model ratio", model_ratio); (js "Completion ratio", completion_ratio); (js "Cache ratio", cache_ratio);
   (js "Create cache ratio", create_cache_ratio); (js "Image ratio", image_ratio); (js "Audio ratio", audio_ratio);
   (js "Audio completion ratio", audio_completion_ratio); (js "Fixed price", model_price);
   (js "Expression billing", billing_expr)].

Definition getSyncFieldLabel (t : jstr → jstr) (ratioType : RatioType) : jstr :=
  match list.head (filter (λ o, o.2 = ratioType) RATIO_TYPE_OPTIONS) with
  | Some (label, _) => t label
  | None => ratio_text ratioType
  end.

(** [filter] is a field, or [None] for all of them. *)
Definition getOrderedRatioTypes (ratioTypes : RatioTypes) (fieldFilter : option RatioType) : list RatioType :=
  let keys := ratioTypes.*1 in
  let ordered := filter (λ f, f ∈ keys) SYNC_FIELD_ORDER ++ filter (λ f, f ∉ SYNC_FIELD_ORDER) keys in
  match fieldFilter with None => ordered | Some k => filter (λ f, f = k) ordered end.

(** [ratioTypes[ratioType]?.upstreams?.[sourceName]] *)
Definition upstream_val (ratioTypes : RatioTypes) (ratioType : RatioType) (source : jstr) : option SyncValue :=
  d ← mget ratioType ratioTypes; mjoin (field_get source (upstreams d)).

Definition isSelectableUpstreamValue (value : option SyncValue) : bool :=
  match value with None => false | Some (SNum _) => true | Some (SStr s) => negb (s === js "same") end.

Definition getPreferredSyncField (ratioTypes : RatioTypes) (ratioType : RatioType) (source : jstr) : RatioType :=
  if negb (bool_decide (ratioType = billing_expr)) && isSelectableUpstreamValue (upstream_val ratioTypes billing_expr source)
  then billing_expr else ratioType.

Definition getVisibleRatioTypesForSource (ratioTypes : RatioTypes) (source : jstr) (fieldFilter : option RatioType)
    : list RatioType :=
  filter (λ rt, getPreferredSyncField ratioTypes rt source = rt) (getOrderedRatioTypes ratioTypes fieldFilter).

Definition getAlignedRatioTypes (ratioTypes : RatioTypes) (sources : list jstr) (fieldFilter : option RatioType)
    : list RatioType :=
  let ordered := getOrderedRatioTypes ratioTypes fieldFilter in
  match sources with
  | [] => ordered
  | _ =>
      let visible := concat (map (λ s, getVisibleRatioTypesForSource ratioTypes s fieldFilter) sources) in
      filter (λ rt, rt ∈ visible) ordered
  end.

Inductive BillingCategory := cat_price | cat_ratio | cat_tiered.
#[export] Instance BillingCategory_eq_dec : EqDecision BillingCategory.
Proof. solve_decision. Defined.

Definition getBillingCategory (ratioType : RatioType) : BillingCategory :=
  match ratioType with model_price => cat_price | billing_mode | billing_expr => cat_tiered | _ => cat_ratio end.

(** The names of the two presets, in code units, and their ids. *)
Definition OFFICIAL_CHANNEL_NAME : jstr := [23448; 26041; 20493; 29575; 39044; 35774]%N.
Definition OFFICIAL_CHANNEL_ID : Z := -100.
Definition MODELS_DEV_PRESET_NAME : jstr := js "models.dev " ++ [20215; 26684; 39044; 35774]%N.
Definition MODELS_DEV_PRESET_ID : Z := -101.

Definition getUpstreamDisplayName (source : jstr) : jstr :=
  let shown n id := n ++ js "(" ++ digits_Z id ++ js ")" in
  if source === shown OFFICIAL_CHANNEL_NAME OFFICIAL_CHANNEL_ID then OFFICIAL_CHANNEL_NAME
  else if source === shown MODELS_DEV_PRESET_NAME MODELS_DEV_PRESET_ID then MODELS_DEV_PRESET_NAME
  else source.

(** [Number(value)], [value === other] *)
Definition sync_number (v : SyncValue) : jsnum := match v with SNum n => n | SStr s => Number s end.
Definition sync_eqb (a b : SyncValue) : bool :=
  match a, b with SNum x, SNum y => num_eqb x y | SStr x, SStr y => x === y | _, _ => false end.

Definition isSelectedResolutionValue (resolutions : ResolutionsMap) (model : jstr) (ratioType : RatioType)
    (upstreamValue : option SyncValue) : bool :=
  match upstreamValue with
  | Some u =>
      isSelectableUpstreamValue (Some u)
      && match field_get model resolutions ≫= mget ratioType with
         | None => false
         | Some selected =>
             if has ratioType NUMERIC_SYNC_FIELDS
             then isFinite (sync_number selected) && isFinite (sync_number u) && num_eqb (sync_number selected) (sync_number u)
             else sync_eqb selected u
         end
  | None => false
  end.

(** ** Selecting *)

Definition resolveResolutionSelection (differences : DifferencesMap) (s : ResolutionSelection) : ResolutionSelection :=
  let modelDiffs := field_get (sel_model s) differences in
  let preferredType := getPreferredSyncField (default [] modelDiffs) (sel_type s) (sourceName s) in
  let preferredValue :=
    if decide (preferredType = sel_type s) then sel_value s
    else default (sel_value s) (md ← modelDiffs; upstream_val md preferredType (sourceName s)) in
  mkSel (sel_model s) preferredType preferredValue (sourceName s).

(** What a field of another category does to a selected one. *)
Definition excludes (category : BillingCategory) (rt : RatioType) : bool :=
  negb (bool_decide (category = cat_tiered)) && negb (bool_decide (getBillingCategory rt = cat_tiered))
  && negb (bool_decide (getBillingCategory rt = category)).

(** [newModelRes] after a selection. *)
Definition select_field (modelDiffs : option RatioTypes) (finalType : RatioType) (finalValue : SyncValue) (source : jstr)
    (res : Resolution) : Resolution :=
  let category := getBillingCategory finalType in
  let res1 := mset finalType finalValue (filter (λ e, excludes category e.1 = false) res) in
  match category, modelDiffs with
  | cat_tiered, Some md =>
      let modeVal := upstream_val md billing_mode source in
      let exprVal := upstream_val md billing_expr source in
      let res2 := match modeVal with
                  | Some v => if isSelectableUpstreamValue modeVal then mset billing_mode v res1
                              else if decide (finalType = billing_expr)
                                   then mset billing_mode (SStr (js "tiered_expr")) res1 else res1
                  | None => if decide (finalType = billing_expr)
                            then mset billing_mode (SStr (js "tiered_expr")) res1 else res1
                  end in
      match exprVal with
      | Some v => if isSelectableUpstreamValue exprVal then mset billing_expr v res2 else res2
      | None => res2
      end
  | _, _ => res1
  end.

Definition Drafts := list (jstr * Resolution).

Definition getDraftModelResolution (drafts : Drafts) (resolutions : ResolutionsMap) (model : jstr) : Resolution :=
  match mget model drafts with Some d => d | None => default [] (field_get model resolutions) end.

Definition applyResolutionSelectionToDraft (resolutions : ResolutionsMap) (differences : DifferencesMap)
    (drafts : Drafts) (s : ResolutionSelection) : Drafts :=
  let modelDiffs := field_get (sel_model s) differences in
  let preferredType := getPreferredSyncField (default [] modelDiffs) (sel_type s) (sourceName s) in
  let preferredValue :=
    if decide (preferredType = sel_type s) then sel_value s
    else default (sel_value s) (md ← modelDiffs; upstream_val md preferredType (sourceName s)) in
  mset (sel_model s)
    (select_field modelDiffs preferredType preferredValue (sourceName s)
       (getDraftModelResolution drafts resolutions (sel_model s))) drafts.

(** A model without fields is removed. *)
Definition store_draft (next : ResolutionsMap) (d : jstr * Resolution) : ResolutionsMap :=
  match d.2 with [] => obj_delete d.1 next | _ => obj_set d.1 d.2 next end.

Definition applyResolutionSelections (resolutions : ResolutionsMap) (differences : DifferencesMap)
    (selections : list ResolutionSelection) : ResolutionsMap :=
  match selections with
  | [] => resolutions
  | _ => foldl store_draft resolutions (foldl (applyResolutionSelectionToDraft resolutions differences) [] selections)
  end.

Definition applyResolutionSelection (resolutions : ResolutionsMap) (differences : DifferencesMap)
    (s : ResolutionSelection) : ResolutionsMap :=
  applyResolutionSelections resolutions differences [s].

(** The key of a selection in [effectiveByKey]. *)
Definition effective_key (s : ResolutionSelection) : jstr := sel_model s ++ [0%N] ++ ratio_text (sel_type s).

Definition add_effective (differences : DifferencesMap) (effectiveByKey : list (jstr * ResolutionSelection))
    (s : ResolutionSelection) : list (jstr * ResolutionSelection) :=
  let resolved := resolveResolutionSelection differences s in
  let category := getBillingCategory (sel_type resolved) in
  mset (effective_key resolved) resolved
    (filter (λ e, ¬ (sel_model e.2 = sel_model resolved ∧ excludes category (sel_type e.2) = true)) effectiveByKey).

Definition getEffectiveResolutionSelections (differences : DifferencesMap) (selections : list ResolutionSelection)
    : list ResolutionSelection :=
  (foldl (add_effective differences) [] selections).*2.

(** ** Unselecting *)

Definition remove_field (draft : Resolution) (ratioType : RatioType) : Resolution :=
  let d := mdelete ratioType draft in
  match ratioType with billing_expr => mdelete billing_mode d | billing_mode => mdelete billing_expr d | _ => d end.

Definition remove_fields (resolutions next : ResolutionsMap) (entry : jstr * list RatioType) : ResolutionsMap :=
  match field_get entry.1 resolutions with
  | None => next
  | Some current => store_draft next (entry.1, foldl remove_field current entry.2)
  end.

Definition applyResolutionRemovalPlan (resolutions : ResolutionsMap) (plan : ResolutionRemovalPlan) : ResolutionsMap :=
  foldl (remove_fields resolutions) resolutions plan.

(** [ratioTypes.add(ratioType)] in the plan. *)
Definition plan_add (plan : ResolutionRemovalPlan) (model : jstr) (ratioType : RatioType) : ResolutionRemovalPlan :=
  mupdate model (λ old, match old with
                        | Some l => if decide (ratioType ∈ l) then l else l ++ [ratioType]
                        | None => [ratioType]
                        end) plan.

Definition applyResolutionRemovals (resolutions : ResolutionsMap) (removals : list (jstr * RatioType)) : ResolutionsMap :=
  applyResolutionRemovalPlan resolutions (foldl (λ p '(m, rt), plan_add p m rt) [] removals).

Definition deleteResolutionField (resolutions : ResolutionsMap) (model : jstr) (ratioType : RatioType) : ResolutionsMap :=
  applyResolutionRemovals resolutions [(model, ratioType)].

(** ** The table *)

Record SyncRow := mkSyncRow { row_model : jstr; row_types : RatioTypes; billingConflict : bool }.

Definition dataSource (differences : DifferencesMap) : list SyncRow :=
  map (λ '(model, rts),
    mkSyncRow model rts (has model_price rts.*1 && existsb (λ rt, has rt rts.*1) RATIO_SYNC_FIELDS)) differences.

Definition filteredData (toLowerCase : jstr → jstr) (search : jstr) (fieldFilter : option RatioType)
    (differences : DifferencesMap) : list SyncRow :=
  let data := dataSource differences in
  let searched := if truthy (trim search)
                  then filter (λ r, includes (toLowerCase (row_model r)) (toLowerCase search) = true) data else data in
  match fieldFilter with
  | None => searched
  | Some f => filter (λ r, f ∈ (row_types r).*1) searched
  end.

Definition upstreamNames (fieldFilter : option RatioType) (rows : list SyncRow) : list jstr :=
  dedup (concat (map (λ r,
    concat (map (λ rt, from_option (λ d, (upstreams d).*1) [] (mget rt (row_types r)))
      (getOrderedRatioTypes (row_types r) fieldFilter))) rows)).

(** The values of one column that can be selected, in the order of the rows. *)
Definition row_selections (fieldFilter : option RatioType) (upstreamName : jstr) (r : SyncRow) : list ResolutionSelection :=
  omap (λ rt,
    v ← upstream_val (row_types r) rt upstreamName;
    if isSelectableUpstreamValue (Some v) then Some (mkSel (row_model r) rt v upstreamName) else None)
    (getAlignedRatioTypes (row_types r) [upstreamName] fieldFilter).

Definition column_selections (fieldFilter : option RatioType) (rows : list SyncRow) (upstreamName : jstr)
    : list ResolutionSelection :=
  concat (map (row_selections fieldFilter upstreamName) rows).

Record UpstreamBulkSelectState := mkBulk {
  displayName : jstr; bulk_selections : list ResolutionSelection; removalPlan : ResolutionRemovalPlan;
  selectableCount : nat; selectedCount : nat }.

Definition bulkSelectState (differences : DifferencesMap) (resolutions : ResolutionsMap) (fieldFilter : option RatioType)
    (rows : list SyncRow) (upstreamName : jstr) : UpstreamBulkSelectState :=
  let selections := column_selections fieldFilter rows upstreamName in
  let effectiveSelections := getEffectiveResolutionSelections differences selections in
  mkBulk (getUpstreamDisplayName upstreamName) effectiveSelections
    (foldl (λ p s, plan_add p (sel_model s) (sel_type s)) [] selections)
    (length effectiveSelections)
    (length (filter (λ s, isSelectedResolutionValue resolutions (sel_model s) (sel_type s) (Some (sel_value s)) = true)
               effectiveSelections)).

(** ** Writing *)

(** [optionKeyBySyncField] on the name of a field, which is ASCII. *)
Definition capitalize (word : jstr) : jstr :=
  match word with [] => [] | c :: r => (if (97 <=? c)%N && (c <=? 122)%N then (c - 32)%N else c) :: r end.
Definition optionKeyBySyncField (ratioType : jstr) : jstr :=
  if ratioType === js "billing_mode" then js "billing_setting.billing_mode"
  else if ratioType === js "billing_expr" then js "billing_setting.billing_expr"
  else join [] (map capitalize (split1 95 ratioType)).

Definition option_name (k : OptionKey) : jstr :=
  match k with
  | opt_num kPrice => js "ModelPrice" | opt_num kRatio => js "ModelRatio" | opt_num kCache => js "CacheRatio"
  | opt_num kCreateCache => js "CreateCacheRatio" | opt_num kCompletion => js "CompletionRatio"
  | opt_num kImage => js "ImageRatio" | opt_num kAudio => js "AudioRatio"
  | opt_num kAudioCompletion => js "AudioCompletionRatio"
  | opt_mode => js "billing_setting.billing_mode" | opt_expr => js "billing_setting.billing_expr"
  end.

(** The option a field is stored in. *)
Definition option_of (ratioType : RatioType) : OptionKey :=
  match ratioType with
  | model_ratio => opt_num kRatio | completion_ratio => opt_num kCompletion | cache_ratio => opt_num kCache
  | create_cache_ratio => opt_num kCreateCache | image_ratio => opt_num kImage | audio_ratio => opt_num kAudio
  | audio_completion_ratio => opt_num kAudioCompletion | model_price => opt_num kPrice
  | billing_mode => opt_mode | billing_expr => opt_expr
  end.

Lemma option_of_name rt : optionKeyBySyncField (ratio_text rt) = option_name (option_of rt).
Proof. destruct rt; vm_compute; reflexivity. Qed.

(** [None] when the text holds something other than an object. *)
Definition parseJsonRecord (raw : jstr) : option Fields :=
  match JSON_parse (or_else raw (js "{}")) with
  | Some (JObj fs) => Some fs
  | Some _ => None
  | None => Some []
  end.

Definition parsedRatios (modelRatios : Texts) : option Maps :=
  if forallb (λ k, bool_decide (is_Some (parseJsonRecord (modelRatios k)))) option_keys
  then Some (λ k, default [] (parseJsonRecord (modelRatios k))) else None.

Definition present (maps : Maps) (model : jstr) (rt : RatioType) : bool :=
  bool_decide (is_Some (field_get model (maps (option_of rt)))).

Definition getLocalBillingCategory (model : jstr) (currentRatios : Maps) : option BillingCategory :=
  if present currentRatios model model_price then Some cat_price
  else if existsb (present currentRatios model) RATIO_SYNC_FIELDS then Some cat_ratio
  else None.

Definition value_json (ratioType : RatioType) (v : SyncValue) : json :=
  if has ratioType NUMERIC_SYNC_FIELDS then JNum (sync_number v)
  else match v with SNum n => JNum n | SStr s => JStr s end.

Definition delete_at (model : jstr) (maps : Maps) (rt : RatioType) : Maps :=
  set_map (option_of rt) (obj_delete model (maps (option_of rt))) maps.

Definition write_field (model : jstr) (maps : Maps) (e : RatioType * SyncValue) : Maps :=
  set_map (option_of e.1) (obj_set model (value_json e.1 e.2) (maps (option_of e.1))) maps.

(** The body of the loop of [performSync]. *)
Definition sync_model (maps : Maps) (entry : jstr * Resolution) : Maps :=
  let '(model, ratios) := entry in
  let hasPrice := has model_price ratios.*1 in
  let hasRatio := existsb (λ rt, has rt RATIO_SYNC_FIELDS) ratios.*1 in
  let maps1 := if hasPrice then foldl (delete_at model) maps RATIO_SYNC_FIELDS else maps in
  let maps2 := if hasRatio then delete_at model maps1 model_price else maps1 in
  foldl (write_field model) maps2 ratios.

Definition finalRatios (currentRatios : Maps) (resolutions : ResolutionsMap) : Maps :=
  foldl sync_model currentRatios resolutions.

(** The keys of [finalRatios] in order. *)
Definition final_keys : list OptionKey :=
  map opt_num [kRatio; kCompletion; kCache; kCreateCache; kImage; kAudio; kAudioCompletion; kPrice] ++ [opt_mode; opt_expr].

Definition sync_updates (currentRatios : Maps) (resolutions : ResolutionsMap) : list (OptionKey * jstr) :=
  map (λ k, (k, JSON_stringify_2 (JObj (finalRatios currentRatios resolutions k)))) final_keys.

(** What the server does with one update: it stores it, refuses it in a reply
    that says [success: false], or the request fails. *)
Inductive Reply := accepted | refused | failed.

(** The loop over the updates: the options the server then holds and whether the
    loop ends without an exception. *)
Fixpoint sendUpdates (updates : list (OptionKey * jstr)) (replies : list Reply) (stored : Texts) : Texts * bool :=
  match updates, replies with
  | (k, v) :: us, r :: rs =>
      match r with
      | accepted => sendUpdates us rs (λ k', if decide (k' = k) then v else stored k')
      | refused => sendUpdates us rs stored
      | failed => (stored, false)
      end
  | _ :: _, [] => (stored, false)
  | [], _ => (stored, true)
  end.

Record ConflictItem := mkConflict { channel : jstr; conflict_model : jstr; conflict_current : jstr; newVal : jstr }.

Record SyncState := mkSync {
  differences : DifferencesMap; resolutions : ResolutionsMap; conflictItems : list ConflictItem; conflictDialogOpen : bool }.

(** The differences left after a sync. *)
Definition drop_field (model : jstr) (diffs : DifferencesMap) (rt : RatioType) : DifferencesMap :=
  match field_get model diffs with
  | Some md =>
      match mget rt md with
      | Some _ => match mdelete rt md with [] => obj_delete model diffs | md' => obj_set model md' diffs end
      | None => diffs
      end
  | None => diffs
  end.
Definition remaining_differences (diffs : DifferencesMap) (res : ResolutionsMap) : DifferencesMap :=
  foldl (λ ds '(model, ratios), foldl (drop_field model) ds ratios.*1) diffs res.

(** [performSync]: the server's options, the page and whether it succeeded. *)
Definition performSync (currentRatios : Maps) (replies : list Reply) (stored : Texts) (s : SyncState)
    : Texts * SyncState * bool :=
  let '(stored', ok) := sendUpdates (sync_updates currentRatios (resolutions s)) replies stored in
  (stored', if ok : bool
            then mkSync (remaining_differences (differences s) (resolutions s)) [] (conflictItems s) (conflictDialogOpen s)
            else s, ok).

Section page.
Context (t : jstr → jstr) (toLowerCase : jstr → jstr).

Definition sync_to_string (v : SyncValue) : jstr := match v with SNum n => num_to_string n | SStr s => s end.

Definition findSourceChannel (diffs : DifferencesMap) (model : jstr) (rt : RatioType) (value : SyncValue) : jstr :=
  match field_get model diffs ≫= mget rt with
  | None => js "Unknown"
  | Some d =>
      match list.head (filter (λ e, from_option (λ v, sync_eqb v value) false e.2 = true) (upstreams d)) with
      | Some (source, _) => source
      | None => js "Unknown"
      end
  end.

Definition newCategory (ratios : Resolution) : BillingCategory :=
  if has model_price ratios.*1 then cat_price
  else if existsb (λ rt, has rt ratios.*1) RATIO_SYNC_FIELDS then cat_ratio else cat_tiered.

Definition or_dash (v : option jstr) : jstr := default (js "-") v.

(** [x[model] ?? '-']: null counts as missing. *)
Definition local_text (maps : Maps) (rt : RatioType) (model : jstr) : option jstr :=
  match field_get model (maps (option_of rt)) with None | Some JNull => None | Some v => Some (json_to_string v) end.

Definition ratio_lines (ratio completion : option jstr) : jstr :=
  t (js "Model ratio") ++ js ": " ++ or_dash ratio ++ [10%N] ++ t (js "Completion ratio") ++ js ": " ++ or_dash completion.

Definition conflict_of (diffs : DifferencesMap) (currentRatios : Maps) (entry : jstr * Resolution) : option ConflictItem :=
  let '(model, ratios) := entry in
  let newCat := newCategory ratios in
  match getLocalBillingCategory model currentRatios with
  | None => None
  | Some localCat =>
      if bool_decide (newCat = cat_tiered) || bool_decide (localCat = newCat) then None
      else
        let chosen rt := sync_to_string <$> mget rt ratios in
        Some (mkConflict
          (join (js ", ") (dedup (map (λ '(rt, v), findSourceChannel diffs model rt v) ratios)))
          model
          (if bool_decide (localCat = cat_price)
           then t (js "Fixed price") ++ js ": "
                ++ from_option json_to_string [] (field_get model (currentRatios (opt_num kPrice)))
           else ratio_lines (local_text currentRatios model_ratio model) (local_text currentRatios completion_ratio model))
          (if bool_decide (newCat = cat_price)
           then t (js "Fixed price") ++ js ": " ++ default [] (chosen model_price)
           else ratio_lines (chosen model_ratio) (chosen completion_ratio)))
  end.

Definition conflicts (currentRatios : Maps) (s : SyncState) : list ConflictItem :=
  omap (conflict_of (differences s) currentRatios) (resolutions s).

Definition handleApplySync (currentRatios : Maps) (replies : list Reply) (stored : Texts) (s : SyncState)
    : Texts * SyncState * bool :=
  match conflicts currentRatios s with
  | [] => performSync currentRatios replies stored s
  | cs => (stored, mkSync (differences s) (resolutions s) cs true, false)
  end.

Definition handleConfirmConflict (currentRatios : Maps) (replies : list Reply) (stored : Texts) (s : SyncState)
    : Texts * SyncState * bool :=
  let '(stored', s', ok) := performSync currentRatios replies stored s in
  (stored', if ok : bool then mkSync (differences s') (resolutions s') (conflictItems s') false else s', ok).

(** ** The handlers of the page *)

Inductive Event :=
| fetched (diffs : DifferencesMap)
| selectValue (model : jstr) (rt : RatioType) (v : SyncValue) (source : jstr)
| unselectValue (model : jstr) (rt : RatioType)
| bulkSelect (search : jstr) (fieldFilter : option RatioType) (upstream : jstr)
| bulkUnselect (search : jstr) (fieldFilter : option RatioType) (upstream : jstr).

Definition setResolutions (res : ResolutionsMap) (s : SyncState) : SyncState :=
  mkSync (differences s) res (conflictItems s) (conflictDialogOpen s).

Definition bulk_state (s : SyncState) (search : jstr) (fieldFilter : option RatioType) (upstream : jstr)
    : UpstreamBulkSelectState :=
  bulkSelectState (differences s) (resolutions s) fieldFilter
    (filteredData toLowerCase search fieldFilter (differences s)) upstream.

Definition handle (s : SyncState) (e : Event) : SyncState :=
  match e with
  | fetched diffs => mkSync diffs [] (conflictItems s) (conflictDialogOpen s)
  | selectValue model rt v source =>
      setResolutions (applyResolutionSelection (resolutions s) (differences s) (mkSel model rt v source)) s
  | unselectValue model rt => setResolutions (deleteResolutionField (resolutions s) model rt) s
  | bulkSelect search f u =>
      setResolutions (applyResolutionSelections (resolutions s) (differences s) (bulk_selections (bulk_state s search f u))) s
  | bulkUnselect search f u =>
      setResolutions (applyResolutionRemovalPlan (resolutions s) (removalPlan (bulk_state s search f u))) s
  end.
End page.

(** ** The channels to compare with *)

Record UpstreamChannel := mkUpstream { up_id : Z; up_name : jstr; base_url : jstr; up_status : Z; up_type : option Z }.

Definition DEFAULT_ENDPOINT : jstr := js "/api/pricing".
Definition OFFICIAL_CHANNEL_ENDPOINT : jstr := js "/llm-metadata/api/newapi/ratio_config-v1-base.json".
Definition MODELS_DEV_PRESET_ENDPOINT : jstr := js "https://models.dev/api.json".
Definition OPENROUTER_ENDPOINT : jstr := js "openrouter".
Definition OPENROUTER_CHANNEL_TYPE : Z := 20.

Definition getDefaultEndpointForChannel (c : UpstreamChannel) : jstr :=
  if up_id c =? MODELS_DEV_PRESET_ID then MODELS_DEV_PRESET_ENDPOINT
  else if up_id c =? OFFICIAL_CHANNEL_ID then OFFICIAL_CHANNEL_ENDPOINT
  else if bool_decide (up_type c = Some OPENROUTER_CHANNEL_TYPE) then OPENROUTER_ENDPOINT
  else DEFAULT_ENDPOINT.

(** The effect that gives every listed channel an endpoint. *)
Definition fillEndpoints (channels : list UpstreamChannel) (endpoints : list (Z * jstr)) : list (Z * jstr) :=
  foldl (λ es c, if truthy (default [] (mget (up_id c) es)) then es
                 else mset (up_id c) (getDefaultEndpointForChannel c) es) endpoints channels.

Record UpstreamConfig := mkConfig { cfg_id : Z; cfg_name : jstr; cfg_base_url : jstr; endpoint : jstr }.

(** The request of [handleConfirmChannelSelection]; [None] for the warning that
    nothing is selected. *)
Definition handleConfirmChannelSelection (channels : list UpstreamChannel) (endpoints : list (Z * jstr))
    (selectedIds : list Z) : option (list UpstreamConfig) :=
  match filter (λ c, up_id c ∈ selectedIds) channels with
  | [] => None
  | cs => Some (map (λ c, mkConfig (up_id c) (up_name c) (base_url c)
                            (or_else (default [] (mget (up_id c) endpoints)) DEFAULT_ENDPOINT)) cs)
  end.

End PriceSync.
