(* ===== verification/PriceSyncFacts.v ===== *)
(** * Selected upstream prices are consistent and are what is stored

    The selection never mixes a fixed price with ratios, whatever is clicked; the
    header of a column shows what a click on it did; and a sync that the server
    accepts stores exactly the selection. *)

From stdpp Require Import sorting.
From S2P Require Import Prelude StableSort JsValue NumFacts JsCollections FloatError NumRounding NumberText Regex BillingExpr StringFacts JsonText TaskExpr TaskExprFacts ModelPricing PricingPanel ModelPricingFacts PriceSync.
Import BillingExpr TaskExpr ModelPricing PriceSync.

(** ** Records and maps *)

Lemma mget_filter {K V} `{EqDecision K} (P : K * V → Prop) `{∀ e, Decision (P e)} (Q : K → bool) k (m : list (K * V)) :
  (∀ e, P e ↔ Q e.1 = true) → mget k (filter P m) = if Q k then mget k m else None.
Proof.
  intros HP. induction m as [|[k1 v1] m IH]; [by destruct (Q k)|]. rewrite filter_cons.
  destruct (decide (P (k1, v1))) as [H1|H1]; rewrite HP in H1; cbn [fst] in H1; cbn [mget]; rewrite IH.
  - destruct (decide (k1 = k)) as [->|]; [by rewrite H1|done].
  - destruct (decide (k1 = k)) as [->|]; [|done]. by destruct (Q k).
Qed.

Lemma mget_mdelete {K V} `{EqDecision K} k k' (m : list (K * V)) :
  mget k (mdelete k' m) = if decide (k = k') then None else mget k m.
Proof.
  unfold mdelete. rewrite (mget_filter _ (λ x, negb (bool_decide (x = k')))).
  - case_bool_decide; [by rewrite decide_True|by rewrite decide_False].
  - intros e. rewrite negb_true_iff, bool_decide_eq_false. done.
Qed.

Lemma NoDup_fst_filter {K V} (P : K * V → Prop) `{∀ e, Decision (P e)} (m : list (K * V)) : NoDup m.*1 → NoDup (filter P m).*1.
Proof.
  induction m as [|e m IH]; [done|]. intros [He Hm]%list.NoDup_cons. rewrite filter_cons. destruct (decide (P e)); [|by apply IH].
  apply list.NoDup_cons. split; [|by apply IH]. intros (x & Hx & [_ Hin]%list_elem_of_filter)%list_elem_of_fmap.
  apply He. rewrite Hx. by apply list_elem_of_fmap_2.
Qed.

Lemma in_order_NoDup {A} (fs : list (jstr * A)) : ordered fs → NoDup fs.*1.
Proof.
  unfold ordered. induction 1 as [|k ks _ IH Hall]; constructor; [|done]. rewrite list.Forall_forall in Hall.
  intros Hk. apply Hall in Hk. revert Hk. by intros [? _].
Qed.

(** The fields selected for a model. *)
Definition chosen (R : ResolutionsMap) (m : jstr) : Resolution := default [] (field_get m R).

Lemma store_draft_chosen R m m' r : chosen (store_draft R (m', r)) m = if decide (m' = m) then r else chosen R m.
Proof.
  unfold store_draft, chosen. cbn [fst snd]. destruct r as [|e r].
  - rewrite field_get_delete. by destruct (decide _).
  - rewrite field_get_set. by destruct (decide _).
Qed.

Lemma store_drafts_chosen drafts R m : NoDup drafts.*1 →
  chosen (foldl store_draft R drafts) m = match mget m drafts with Some r => r | None => chosen R m end.
Proof.
  revert R. induction drafts as [|[m' r] drafts IH]; intros R; [done|]. intros [Hm Hd]%list.NoDup_cons.
  cbn [foldl mget]. rewrite IH, store_draft_chosen by done. destruct (decide (m' = m)) as [->|]; [|done].
  by rewrite (proj2 (mget_None m drafts)).
Qed.

(** ** A selection, model by model *)

(** What one selection does to the fields of its model. *)
Definition pick (D : DifferencesMap) (r : Resolution) (s : ResolutionSelection) : Resolution :=
  let s' := resolveResolutionSelection D s in
  select_field (field_get (sel_model s) D) (sel_type s') (sel_value s') (sourceName s) r.

Lemma draft_step R D drafts s :
  applyResolutionSelectionToDraft R D drafts s
  = mset (sel_model s) (pick D (getDraftModelResolution drafts R (sel_model s)) s) drafts.
Proof. done. Qed.

Lemma drafts_chosen R D sels drafts m :
  getDraftModelResolution (foldl (applyResolutionSelectionToDraft R D) drafts sels) R m
  = foldl (pick D) (getDraftModelResolution drafts R m) (filter (λ s, sel_model s = m) sels).
Proof.
  revert drafts. induction sels as [|s sels IH]; intros drafts; [done|]. cbn [foldl]. rewrite IH, draft_step, filter_cons.
  unfold getDraftModelResolution at 1. rewrite mget_mset. destruct (decide (sel_model s = m)) as [<-|]; done.
Qed.

Lemma drafts_NoDup R D sels drafts : NoDup drafts.*1 → NoDup (foldl (applyResolutionSelectionToDraft R D) drafts sels).*1.
Proof. revert drafts. induction sels as [|s sels IH]; intros drafts Hd; [done|]. apply IH. by apply mset_NoDup. Qed.

(** Selections act on each model by itself, in their order. *)
Lemma selections_chosen R D sels m :
  chosen (applyResolutionSelections R D sels) m = foldl (pick D) (chosen R m) (filter (λ s, sel_model s = m) sels).
Proof.
  unfold applyResolutionSelections. destruct sels as [|s sels]; [done|]. set (l := s :: sels).
  rewrite store_drafts_chosen by (apply drafts_NoDup; constructor).
  change (chosen R m) with (getDraftModelResolution [] R m) at 2. rewrite <-drafts_chosen. unfold getDraftModelResolution. done.
Qed.

(** ** Removals, model by model *)

Lemma removals_step R plan next m : NoDup plan.*1 → (∀ k, k ∈ plan.*1 → chosen next k = chosen R k) →
  chosen (foldl (remove_fields R) next plan) m
  = match mget m plan with Some rts => foldl remove_field (chosen R m) rts | None => chosen next m end.
Proof.
  assert (∀ rts, foldl remove_field [] rts = []) as Hnil.
  { induction rts as [|rt rts IH]; [done|]. cbn [foldl]. assert (remove_field [] rt = []) as -> by (by destruct rt). done. }
  revert next. induction plan as [|[k rts] plan IH]; intros next; [done|]. intros [Hk Hn]%list.NoDup_cons Hsame. cbn [foldl].
  assert (∀ m', chosen (remove_fields R next (k, rts)) m' = if decide (k = m') then foldl remove_field (chosen R k) rts else chosen next m') as Hone.
  { intros m'. unfold remove_fields. cbn [fst snd]. destruct (field_get k R) as [r|] eqn:E.
    - rewrite store_draft_chosen. unfold chosen at 2. by rewrite E.
    - destruct (decide (k = m')) as [<-|]; [|done]. rewrite (Hsame k) by (cbn; left). unfold chosen. by rewrite E, Hnil. }
  rewrite IH; [|done|].
  - cbn [mget]. rewrite Hone. destruct (decide (k = m)) as [->|Hne]; [|done]. by rewrite (proj2 (mget_None m plan)).
  - intros k' Hk'. rewrite Hone. destruct (decide (k = k')) as [->|]; [done|]. apply Hsame. cbn. by right.
Qed.

Lemma removals_chosen R plan m : NoDup plan.*1 →
  chosen (applyResolutionRemovalPlan R plan) m = foldl remove_field (chosen R m) (default [] (mget m plan)).
Proof. intros H. unfold applyResolutionRemovalPlan. rewrite removals_step by done. by destruct (mget m plan). Qed.

(** ** The fields after a selection *)

Definition kept (category : BillingCategory) (r : Resolution) : Resolution := filter (λ e, excludes category e.1 = false) r.

Lemma kept_get category r rt : mget rt (kept category r) = if excludes category rt then None else mget rt r.
Proof.
  unfold kept. etrans; [apply (mget_filter _ (λ rt, negb (excludes category rt)))|].
  - intros e. by destruct (excludes category e.1).
  - by destruct (excludes category rt).
Qed.

Lemma select_plain md ft fv src r rt : getBillingCategory ft ≠ cat_tiered →
  mget rt (select_field md ft fv src r)
  = if decide (ft = rt) then Some fv else if excludes (getBillingCategory ft) rt then None else mget rt r.
Proof.
  intros Hc. unfold select_field. destruct (getBillingCategory ft) eqn:E; [| |done];
    rewrite mget_mset; destruct (decide (ft = rt)); try done; apply (kept_get _ r rt).
Qed.

(** What a selection of an expression or of its mode writes. *)
Definition tiered_value (md : option RatioTypes) (ft : RatioType) (fv : SyncValue) (src : jstr) (rt : RatioType) : option SyncValue :=
  let own := if decide (ft = rt) then Some fv else None in
  match md, rt with
  | Some d, billing_expr =>
      let u := upstream_val d billing_expr src in if isSelectableUpstreamValue u then u else own
  | Some d, billing_mode =>
      let u := upstream_val d billing_mode src in
      if isSelectableUpstreamValue u then u
      else if decide (ft = billing_expr) then Some (SStr (js "tiered_expr")) else own
  | _, _ => own
  end.

Lemma select_tiered md ft fv src r rt : getBillingCategory ft = cat_tiered →
  mget rt (select_field md ft fv src r)
  = match tiered_value md ft fv src rt with Some v => Some v | None => mget rt r end.
Proof.
  intros Hc. unfold select_field. rewrite Hc.
  assert (∀ x, mget rt (mset ft fv x) = if decide (ft = rt) then Some fv else mget rt x) as H1 by (intros; apply mget_mset).
  assert (mget rt (kept cat_tiered r) = mget rt r) as H2 by apply (kept_get cat_tiered r rt). unfold kept in H2.
  destruct md as [d|]; [|cbn [tiered_value]; rewrite H1, H2; by destruct rt, (decide (ft = _))].
  unfold tiered_value. destruct (upstream_val d billing_mode src) as [vm|], (upstream_val d billing_expr src) as [ve|];
    change (isSelectableUpstreamValue None) with false; repeat (match goal with |- context [if isSelectableUpstreamValue ?x then _ else _] => destruct (isSelectableUpstreamValue x) end);
    destruct (decide (ft = billing_expr)) as [->|Hf];
    rewrite ?mget_mset, ?H2; destruct rt; try done; try (by destruct (decide _)); try (by destruct ft).
Qed.

(** ** Consistent selections *)

Record consistent (r : Resolution) : Prop := {
  one_key_each : NoDup r.*1;
  price_or_ratio rt : is_Some (mget model_price r) → rt ∈ RATIO_SYNC_FIELDS → mget rt r = None;
  expression_has_mode : is_Some (mget billing_expr r) → is_Some (mget billing_mode r) }.

Lemma ratio_category rt : rt ∈ RATIO_SYNC_FIELDS ↔ getBillingCategory rt = cat_ratio.
Proof. rewrite <-(bool_decide_eq_true (rt ∈ RATIO_SYNC_FIELDS)). by destruct rt; vm_compute. Qed.

Lemma select_NoDup md ft fv src r : NoDup r.*1 → NoDup (select_field md ft fv src r).*1.
Proof.
  intros Hr. unfold select_field.
  assert (NoDup (mset ft fv (filter (λ e, excludes (getBillingCategory ft) e.1 = false) r)).*1) as H1 by (apply mset_NoDup, NoDup_fst_filter, Hr).
  destruct (getBillingCategory ft); [done|done|]. destruct md as [d|]; [|done].
  repeat case_match; auto using mset_NoDup.
Qed.

Lemma select_consistent d ft fv src r :
  consistent r → consistent (select_field (Some d) ft fv src r).
Proof.
  intros [Hn Hp He]. split; [by apply select_NoDup| |].
  - intros rt Hs Hrt. pose proof Hrt as Hc. rewrite ratio_category in Hc. destruct (decide (getBillingCategory ft = cat_tiered)) as [Ht|Ht].
    + rewrite select_tiered in Hs |- * by done. 
      assert (∀ rt, getBillingCategory rt ≠ cat_tiered → tiered_value (Some d) ft fv src rt = None) as Hz.
      { intros rt' Hne. destruct rt', ft; done. }
      rewrite Hz in Hs |- * by (by rewrite ?Hc). by apply Hp.
    + rewrite select_plain in Hs |- * by done. destruct (decide (ft = rt)) as [->|Hne].
      * rewrite Hc in Hs. rewrite decide_False in Hs by (intros ->; done). by destruct Hs.
      * destruct (excludes _ rt) eqn:Ex; [done|]. destruct (decide (ft = model_price)) as [->|Hnp].
        -- unfold excludes in Ex. rewrite Hc in Ex. done.
        -- destruct (excludes _ model_price) eqn:Ey; [by destruct Hs|]. by apply Hp.
  - intros Hs. destruct (decide (getBillingCategory ft = cat_tiered)) as [Ht|Ht].
    + rewrite select_tiered in Hs |- * by done. revert Hs. unfold tiered_value.
      destruct (isSelectableUpstreamValue (upstream_val d billing_mode src)) eqn:Em.
      { destruct (upstream_val d billing_mode src); [by eexists|done]. }
      destruct (decide (ft = billing_expr)) as [->|Hf]; [by eexists|].
      destruct (decide (ft = billing_mode)) as [->|Hm]; [by eexists|]. by destruct ft.
    + rewrite select_plain in Hs |- * by done.
      assert (∀ rt, getBillingCategory rt = cat_tiered → ft ≠ rt ∧ excludes (getBillingCategory ft) rt = false) as Hk.
      { intros rt Hrt. split; [by intros ->|]. unfold excludes. rewrite Hrt. by destruct (getBillingCategory ft). }
      destruct (Hk billing_expr eq_refl) as [H1 H2], (Hk billing_mode eq_refl) as [H3 H4].
      rewrite decide_False, H2 in Hs by done. rewrite decide_False, H4 by done. by apply He.
Qed.

Lemma nil_consistent : consistent [].
Proof. split; [constructor|done|done]. Qed.

Lemma remove_consistent r rt : consistent r → consistent (remove_field r rt).
Proof.
  intros [Hn Hp He]. assert (∀ k, NoDup (mdelete k r).*1) as Hd by (intros k; by apply NoDup_fst_filter).
  split.
  - unfold remove_field. destruct rt; try apply Hd; by apply NoDup_fst_filter.
  - intros rt' Hs Hrt'. unfold remove_field in *. destruct rt; rewrite ?mget_mdelete in *; repeat case_decide; try done; by apply Hp.
  - intros Hs. unfold remove_field in *. destruct rt; rewrite ?mget_mdelete in *; repeat case_decide; try done; try (by destruct Hs); by apply He.
Qed.

(** ** The selection of the page *)

Record good (R : ResolutionsMap) : Prop := {
  good_order : ordered R;
  good_filled m : field_get m R ≠ Some [];
  good_each m : consistent (chosen R m) }.

Lemma store_draft_order R d : ordered R → ordered (store_draft R d).
Proof. intros HR. unfold store_draft. destruct d.2; [by apply filter_ordered|by apply obj_set_in_order]. Qed.

Lemma store_draft_filled R d m : field_get m R ≠ Some [] → field_get m (store_draft R d) ≠ Some [].
Proof.
  intros HR. unfold store_draft. destruct d.2 as [|e r]; rewrite ?field_get_delete, ?field_get_set; by destruct (decide _).
Qed.

Lemma store_drafts_ok drafts R : ordered R → (∀ m, field_get m R ≠ Some []) →
  ordered (foldl store_draft R drafts) ∧ ∀ m, field_get m (foldl store_draft R drafts) ≠ Some [].
Proof.
  revert R. induction drafts as [|d drafts IH]; intros R Ho Hf; [done|]. cbn [foldl].
  apply IH; [by apply store_draft_order|]. intros m. by apply store_draft_filled.
Qed.

Lemma selections_good R D sels :
  good R → (∀ s, s ∈ sels → is_Some (field_get (sel_model s) D)) → good (applyResolutionSelections R D sels).
Proof.
  intros HR HD. assert (∀ m, consistent (chosen (applyResolutionSelections R D sels) m)) as Hc.
  { intros m. rewrite selections_chosen.
    assert (∀ l r, (∀ s, s ∈ l → is_Some (field_get (sel_model s) D)) → consistent r → consistent (foldl (pick D) r l)) as H.
    { induction l as [|s l IH]; intros r Hl Hr; [done|]. cbn [foldl]. apply IH; [intros s' Hs'; apply Hl; by right|].
      destruct (Hl s) as [d Hd]; [left|]. unfold pick. rewrite Hd. by apply select_consistent. }
    apply H; [|apply HR]. intros s [_ Hs]%list_elem_of_filter. by apply HD. }
  unfold applyResolutionSelections in *. destruct sels as [|s sels]; [done|].
  destruct (store_drafts_ok (foldl (applyResolutionSelectionToDraft R D) [] (s :: sels)) R) as [Ho Hf]; [apply HR|apply HR|by split].
Qed.

Lemma removals_good R plan : good R → NoDup plan.*1 → good (applyResolutionRemovalPlan R plan).
Proof.
  intros HR Hp. assert (∀ m, consistent (chosen (applyResolutionRemovalPlan R plan) m)) as Hc.
  { intros m. rewrite removals_chosen by done. generalize (default [] (mget m plan)). intros rts.
    assert (consistent (chosen R m)) as Hm by apply HR. revert Hm. generalize (chosen R m).
    induction rts as [|rt rts IH]; intros r Hr; [done|]. apply IH. by apply remove_consistent. }
  assert (∀ next, ordered next → (∀ m, field_get m next ≠ Some []) →
    ordered (foldl (remove_fields R) next plan) ∧ ∀ m, field_get m (foldl (remove_fields R) next plan) ≠ Some []) as H.
  { clear. induction plan as [|e plan IH]; intros next Ho Hf; [done|]. cbn [foldl].
    apply IH; unfold remove_fields; destruct (field_get e.1 R); try done; [by apply store_draft_order|].
    intros m. by apply store_draft_filled. }
  destruct (H R) as [Ho Hf]; [apply HR|apply HR|by split].
Qed.

Lemma plan_adds_NoDup {A} (f : A → jstr) (g : A → RatioType) l plan :
  NoDup plan.*1 → NoDup (foldl (λ p s, plan_add p (f s) (g s)) plan l).*1.
Proof. revert plan. induction l as [|s l IH]; intros plan Hp; [done|]. apply IH. by apply mset_NoDup. Qed.

(** ** The selections of a column *)

Lemma mset_elem {K V} `{EqDecision K} (k : K) (v : V) m e : e ∈ mset k v m → e = (k, v) ∨ e ∈ m.
Proof.
  induction m as [|[k1 v1] m IH]; cbn [mset]; [rewrite list_elem_of_singleton; by left|].
  destruct (decide (k1 = k)) as [->|]; rewrite !elem_of_cons; [tauto|]. intros [->|H]; [by right; left|]. destruct (IH H); tauto.
Qed.

Lemma effective_elem D sels s : s ∈ getEffectiveResolutionSelections D sels → ∃ s0, s0 ∈ sels ∧ s = resolveResolutionSelection D s0.
Proof.
  unfold getEffectiveResolutionSelections. intros (e & -> & He)%list_elem_of_fmap.
  assert (∀ l acc, e ∈ foldl (add_effective D) acc l → e ∈ acc ∨ ∃ s0, s0 ∈ l ∧ e.2 = resolveResolutionSelection D s0) as H.
  { induction l as [|s1 l IH]; intros acc; [by left|]. cbn [foldl]. intros [Ha|(s0 & Hs & ->)]%IH.
    - unfold add_effective in Ha. apply mset_elem in Ha as [->|[_ Ha]%list_elem_of_filter]; [|by left].
      right. exists s1. split; [left|done].
    - right. exists s0. split; [by right|done]. }
  apply H in He as [?%elem_of_nil|?]; [done|done].
Qed.

Lemma row_of_data lower search f D r : r ∈ filteredData lower search f D → (row_model r, row_types r) ∈ D.
Proof.
  intros Hr. assert (r ∈ dataSource D) as ([m rts] & <- & Hin)%list_elem_of_In%in_map_iff.
  { revert Hr. unfold filteredData. destruct f as [f|], (truthy _); rewrite ?list_elem_of_filter; tauto. }
  by apply list_elem_of_In.
Qed.

Lemma row_selection_elem f u r s : s ∈ row_selections f u r →
  sel_model s = row_model r ∧ sourceName s = u ∧ upstream_val (row_types r) (sel_type s) u = Some (sel_value s)
  ∧ isSelectableUpstreamValue (Some (sel_value s)) = true ∧ getPreferredSyncField (row_types r) (sel_type s) u = sel_type s.
Proof.
  unfold row_selections. rewrite list_elem_of_omap. intros (rt & Hrt & Hs).
  destruct (upstream_val (row_types r) rt u) as [v|] eqn:Ev; [|done]. cbn [mbind option_bind] in Hs.
  destruct (isSelectableUpstreamValue (Some v)) eqn:Es; [|done]. apply (inj Some) in Hs. subst s. split_and!; try done.
  cbn [getAlignedRatioTypes] in Hrt. apply list_elem_of_filter in Hrt as [Hv _]. cbn [map concat] in Hv. rewrite app_nil_r in Hv.
  by apply list_elem_of_filter in Hv as [? _].
Qed.

(** A selection of the value that its source has. *)
Record honest (D : DifferencesMap) (u : jstr) (md : RatioTypes) (s : ResolutionSelection) : Prop := {
  honest_model : field_get (sel_model s) D = Some md;
  honest_source : sourceName s = u;
  honest_value : upstream_val md (sel_type s) u = Some (sel_value s);
  honest_usable : isSelectableUpstreamValue (Some (sel_value s)) = true;
  honest_preferred : getPreferredSyncField md (sel_type s) u = sel_type s }.

Lemma field_get_unique {A} (D : list (jstr * A)) k v : NoDup D.*1 → (k, v) ∈ D → field_get k D = Some v.
Proof.
  induction D as [|[k1 v1] D IH]; [by intros _ ?%elem_of_nil|]. intros [Hk HD]%list.NoDup_cons Hin. cbn [field_get].
  apply elem_of_cons in Hin as [[= -> ->]|Hin]; [by rewrite jeqb_refl|].
  rewrite jeqb_neq; [by apply IH|]. intros ->. apply Hk. by apply (list_elem_of_fmap_2 fst D (k, v)).
Qed.

Lemma column_honest lower search f D u s : NoDup D.*1 →
  s ∈ column_selections f (filteredData lower search f D) u → ∃ md, honest D u md s.
Proof.
  intros HD. unfold column_selections. intros (l & Hl & Hs)%list_elem_of_In%in_concat.
  apply in_map_iff in Hl as (r & <- & Hr%list_elem_of_In%row_of_data). apply list_elem_of_In, row_selection_elem in Hs as (Hm & Hsrc & Hv & Hu & Hp).
  exists (row_types r). split; [rewrite Hm; by apply field_get_unique|done|done|done|done].
Qed.

Lemma honest_resolves D u md s : honest D u md s → resolveResolutionSelection D s = s.
Proof.
  intros [Hm Hs Hv Hu Hp]. unfold resolveResolutionSelection. rewrite Hm, Hs. change (default [] (Some md)) with md. rewrite Hp, decide_True by done.
  destruct s; cbn in *. by subst.
Qed.

(** Selecting a value of the source makes it the chosen one, and later values of
    the same source and category leave it so. *)
Lemma pick_self D u md r s : honest D u md s → mget (sel_type s) (pick D r s) = Some (sel_value s).
Proof.
  intros H. unfold pick. rewrite (honest_resolves D u md s H). destruct H as [Hm Hs Hv Hu Hp]. rewrite Hm, Hs.
  destruct (decide (getBillingCategory (sel_type s) = cat_tiered)) as [Ht|Ht].
  - rewrite select_tiered by done. unfold tiered_value. destruct (sel_type s); try done; by rewrite Hv, Hu.
  - rewrite select_plain by done. by rewrite decide_True.
Qed.

Lemma pick_other D u md md' r s s' : honest D u md s → honest D u md' s' → sel_model s = sel_model s' →
  excludes (getBillingCategory (sel_type s')) (sel_type s) = false →
  mget (sel_type s) r = Some (sel_value s) → mget (sel_type s) (pick D r s') = Some (sel_value s).
Proof.
  intros H H' Em Hx Hr. unfold pick. rewrite (honest_resolves D u md' s' H'). destruct H as [Hm Hs Hv Hu Hp], H' as [Hm' Hs' Hv' Hu' Hp'].
  rewrite <-Em, Hm in *. apply (inj Some) in Hm'. subst md'. rewrite Hs'.
  destruct (decide (getBillingCategory (sel_type s') = cat_tiered)) as [Ht|Ht].
  - rewrite select_tiered by done. unfold tiered_value.
    destruct (sel_type s) eqn:Et; try (by destruct (sel_type s')); by rewrite Hv, Hu.
  - rewrite select_plain by done. destruct (decide (sel_type s' = sel_type s)) as [E|_]; [rewrite E in Hv'; congruence|by rewrite Hx].
Qed.

(** Two selections that can stand together. *)
Definition compatible (s s' : ResolutionSelection) : Prop :=
  sel_model s = sel_model s' → excludes (getBillingCategory (sel_type s')) (sel_type s) = false.

Lemma excludes_sym rt rt' : excludes (getBillingCategory rt) rt' = excludes (getBillingCategory rt') rt.
Proof. by destruct rt, rt'. Qed.

Lemma compatible_sym s s' : compatible s s' → compatible s' s.
Proof. intros H E. rewrite excludes_sym. by apply H. Qed.

(** Of two selections that cannot stand together the later one stays. *)
Lemma effective_compatible D sels s s' :
  s ∈ getEffectiveResolutionSelections D sels → s' ∈ getEffectiveResolutionSelections D sels → compatible s s'.
Proof.
  unfold getEffectiveResolutionSelections.
  assert (∀ l acc, (∀ a b, a ∈ acc.*2 → b ∈ acc.*2 → compatible a b) →
    ∀ a b, a ∈ (foldl (add_effective D) acc l).*2 → b ∈ (foldl (add_effective D) acc l).*2 → compatible a b) as H.
  { induction l as [|s1 l IH]; intros acc Hacc; [done|]. cbn [foldl]. apply IH. clear IH.
    assert (∀ a, a ∈ (add_effective D acc s1).*2 → a = resolveResolutionSelection D s1 ∨
      (a ∈ acc.*2 ∧ ¬ (sel_model a = sel_model (resolveResolutionSelection D s1)
         ∧ excludes (getBillingCategory (sel_type (resolveResolutionSelection D s1))) (sel_type a) = true))) as Hel.
    { intros a (e & -> & [->|[Hf Hin]%list_elem_of_filter]%mset_elem)%list_elem_of_fmap; [by left|]. right. split; [by apply list_elem_of_fmap_2|done]. }
    assert (∀ a, ¬ (sel_model a = sel_model (resolveResolutionSelection D s1)
         ∧ excludes (getBillingCategory (sel_type (resolveResolutionSelection D s1))) (sel_type a) = true) → compatible a (resolveResolutionSelection D s1)) as Hno.
    { intros a Hn E. destruct (excludes _ _) eqn:Ex; [|done]. by destruct Hn. }
    intros a b [->|[Ha Hna]]%Hel [->|[Hb Hnb]]%Hel.
    - intros _. unfold excludes. by destruct (sel_type _).
    - by apply compatible_sym, Hno.
    - by apply Hno.
    - by apply Hacc. }
  apply H. intros a b Ha. by apply elem_of_nil in Ha.
Qed.

Lemma picks_chosen D u l r : (∀ s, s ∈ l → ∃ md, honest D u md s) → (∀ s s', s ∈ l → s' ∈ l → sel_model s = sel_model s') →
  (∀ s s', s ∈ l → s' ∈ l → compatible s s') →
  ∀ s, s ∈ l → mget (sel_type s) (foldl (pick D) r l) = Some (sel_value s).
Proof.
  induction l as [|s1 l IH] using rev_ind; intros Hh Hm Hc s; [by intros ?%elem_of_nil|]. rewrite foldl_app. cbn [foldl].
  assert (s1 ∈ l ++ [s1]) as H1 by (apply elem_of_app; right; left). destruct (Hh s1 H1) as [md1 Hs1].
  intros [Hs|Hs%list_elem_of_singleton]%elem_of_app; [|subst s; by apply (pick_self D u md1)].
  assert (∀ x, x ∈ l → x ∈ l ++ [s1]) as Hsub by (intros x Hx; apply elem_of_app; by left).
  destruct (Hh s (Hsub s Hs)) as [md Hs']. apply (pick_other D u md md1); [done|done|apply Hm; auto|apply Hc; auto|].
  apply IH; auto.
Qed.

Lemma num_eqb_refl x : isFinite x = true → num_eqb x x = true.
Proof.
  destruct x as [| | |[] m e]; try done; intros _; unfold num_eqb, SFeqb, SFcompare; by rewrite Z.compare_refl, Pos.compare_cont_refl.
Qed.

(** A value that can be compared with the selected one. *)
Definition comparable (rt : RatioType) (v : SyncValue) : bool :=
  if has rt NUMERIC_SYNC_FIELDS then isFinite (sync_number v) else match v with SNum n => isFinite n | SStr _ => true end.

Lemma chosen_is_selected R s : comparable (sel_type s) (sel_value s) = true → isSelectableUpstreamValue (Some (sel_value s)) = true →
  mget (sel_type s) (chosen R (sel_model s)) = Some (sel_value s) →
  isSelectedResolutionValue R (sel_model s) (sel_type s) (Some (sel_value s)) = true.
Proof.
  unfold comparable, isSelectedResolutionValue, chosen. intros Hc -> Hm. cbn [andb].
  destruct (field_get (sel_model s) R) as [r|]; [|done]. cbn [mbind option_bind default from_option] in *. unfold id in Hm. rewrite Hm.
  destruct (has _ _); [by rewrite Hc, num_eqb_refl|]. destruct (sel_value s); cbn; [by apply num_eqb_refl|apply jeqb_refl].
Qed.

(** The checkbox of a column shows what a click on it did: after selecting
    all values of an upstream in the filtered table every value it offers counts
    as selected, whatever was selected before, even where the upstream offers a
    fixed price beside ratios or an expression. *)
Theorem bulk_select_selects_all lower s search f u :
  NoDup (differences s).*1 →
  (∀ m md rt v, field_get m (differences s) = Some md → upstream_val md rt u = Some v →
     isSelectableUpstreamValue (Some v) = true → comparable rt v = true) →
  let b := bulk_state lower (handle lower s (bulkSelect search f u)) search f u in
  selectedCount b = selectableCount b.
Proof.
  intros HD Hcomp b. unfold b, bulk_state, bulkSelectState. cbn [selectedCount selectableCount].
  set (s' := handle lower s (bulkSelect search f u)). change (differences s') with (differences s).
  set (sels := column_selections f (filteredData lower search f (differences s)) u).
  set (eff := getEffectiveResolutionSelections (differences s) sels).
  assert (∀ x, x ∈ eff → ∃ md, honest (differences s) u md x) as Hh.
  { intros x (x0 & H0 & ->)%effective_elem. apply column_honest in H0 as [md H0]; [|done]. exists md. by rewrite (honest_resolves _ u md). }
  assert (∀ x, x ∈ eff → isSelectedResolutionValue (resolutions s') (sel_model x) (sel_type x) (Some (sel_value x)) = true) as Hall.
  { intros x Hx. destruct (Hh x Hx) as [md Hx']. apply chosen_is_selected; [|apply Hx'|].
    - eapply Hcomp; apply Hx'.
    - change (resolutions s') with (applyResolutionSelections (resolutions s) (differences s) eff). rewrite selections_chosen.
      apply (picks_chosen _ u).
      + intros y [_ Hy]%list_elem_of_filter. by apply Hh.
      + intros y z [-> _]%list_elem_of_filter [-> _]%list_elem_of_filter. done.
      + intros y z [_ Hy]%list_elem_of_filter [_ Hz]%list_elem_of_filter. by apply (effective_compatible (differences s) sels).
      + by apply list_elem_of_filter. }
  f_equal. clearbody eff. clear -Hall. induction eff as [|x eff IH]; [done|].
  rewrite filter_cons, decide_True by (apply Hall; left). f_equal. apply IH. intros y Hy. apply Hall. by right.
Qed.

Lemma remove_field_get r rt : mget rt (remove_field r rt) = None.
Proof. unfold remove_field. destruct rt; rewrite ?mget_mdelete; by repeat case_decide. Qed.

Lemma remove_field_none r rt rt' : mget rt r = None → mget rt (remove_field r rt') = None.
Proof. intros H. unfold remove_field. destruct rt'; rewrite ?mget_mdelete; by repeat case_decide. Qed.

Lemma remove_fields_get rts r rt : rt ∈ rts → mget rt (foldl remove_field r rts) = None.
Proof.
  assert (∀ rts r, mget rt r = None → mget rt (foldl remove_field r rts) = None) as Hn.
  { clear. induction rts as [|rt' rts IH]; intros r H; [done|]. by apply IH, remove_field_none. }
  revert r. induction rts as [|rt' rts IH]; intros r Hrt; [by apply elem_of_nil in Hrt|]. cbn [foldl].
  apply elem_of_cons in Hrt as [->|Hrt]; [apply Hn, remove_field_get|by apply IH].
Qed.

Lemma plan_has_selection l plan m rt :
  (rt ∈ default [] (mget m plan)) ∨ (∃ s, s ∈ l ∧ sel_model s = m ∧ sel_type s = rt) →
  rt ∈ default [] (mget m (foldl (λ p s, plan_add p (sel_model s) (sel_type s)) plan l)).
Proof.
  revert plan. induction l as [|s l IH]; intros plan; [intros [H|(s & ?%elem_of_nil & _)]; done|]. intros H. cbn [foldl]. apply IH.
  unfold plan_add, mupdate. rewrite mget_mset. destruct H as [H|(s1 & [->|Hs]%elem_of_cons & Hm & Ht)]; [|left|right; by exists s1].
  - left. destruct (decide (sel_model s = m)) as [->|]; [|done]. destruct (mget m plan) as [old|]; cbn in *; [|by apply elem_of_nil in H].
    destruct (decide _); [done|]. apply elem_of_app. by left.
  - subst m rt. rewrite decide_True by done. destruct (mget (sel_model s) plan) as [old|]; cbn; [|left].
    destruct (decide _); [done|]. apply elem_of_app. right. left.
Qed.

(** Unselecting a column leaves none of its values selected. *)
Theorem bulk_unselect_clears lower s search f u :
  NoDup (differences s).*1 →
  selectedCount (bulk_state lower (handle lower s (bulkUnselect search f u)) search f u) = 0%nat.
Proof.
  intros HD. unfold bulk_state, bulkSelectState. cbn [selectedCount].
  set (s' := handle lower s (bulkUnselect search f u)). change (differences s') with (differences s).
  set (sels := column_selections f (filteredData lower search f (differences s)) u).
  assert (∀ x, x ∈ getEffectiveResolutionSelections (differences s) sels →
    isSelectedResolutionValue (resolutions s') (sel_model x) (sel_type x) (Some (sel_value x)) = false) as Hall.
  { intros x (x0 & H0 & ->)%effective_elem. destruct (column_honest _ _ _ _ _ _ HD H0) as [md Hx]. rewrite (honest_resolves _ u md) by done.
    assert (mget (sel_type x0) (chosen (resolutions s') (sel_model x0)) = None) as Hn.
    { change (resolutions s') with (applyResolutionRemovalPlan (resolutions s) (foldl (λ p s, plan_add p (sel_model s) (sel_type s)) [] sels)).
      rewrite removals_chosen by (apply plan_adds_NoDup; constructor). apply remove_fields_get, plan_has_selection. right. by exists x0. }
    unfold isSelectedResolutionValue, chosen in *. destruct (field_get (sel_model x0) (resolutions s')) as [r|]; cbn in *; [rewrite Hn|];
      apply andb_false_r. }
  destruct (filter _ _) as [|x l] eqn:E; [done|]. assert (x ∈ x :: l) as Hx by left. rewrite <-E in Hx.
  apply list_elem_of_filter in Hx as [H1 H2]. by rewrite Hall in H1.
Qed.

(** ** Every reachable selection is consistent *)

(** What the page offers: a fetched object has one entry per model, and a value
    is selected in the row of a model. *)
Definition offered (s : SyncState) (e : Event) : Prop :=
  match e with
  | fetched diffs => ordered diffs
  | selectValue m _ _ _ => is_Some (field_get m (differences s))
  | _ => True
  end.

Inductive reachable (lower : jstr → jstr) : SyncState → Prop :=
| reach_start : reachable lower (mkSync [] [] [] false)
| reach_event s e : reachable lower s → offered s e → reachable lower (handle lower s e)
| reach_apply t s maps replies stored : reachable lower s →
    reachable lower (handleApplySync t maps replies stored s).1.2
| reach_confirm s maps replies stored : reachable lower s →
    reachable lower (handleConfirmConflict maps replies stored s).1.2.

Lemma good_nil : good [].
Proof. split; [constructor|done|intros m; apply nil_consistent]. Qed.

Lemma drop_fields_ordered diffs R : ordered diffs → ordered (remaining_differences diffs R).
Proof.
  unfold remaining_differences. revert diffs. induction R as [|[m r] R IH]; intros diffs Hd; [done|]. apply IH. cbn [fst snd].
  generalize r.*1. intros rts. revert diffs Hd. induction rts as [|rt rts IHr]; intros diffs Hd; [done|]. apply IHr.
  unfold drop_field. destruct (field_get m diffs) as [md|]; [|done]. destruct (mget rt md); [|done].
  destruct (mdelete rt md); [by apply filter_ordered|by apply obj_set_in_order].
Qed.

Definition sound (s : SyncState) : Prop := ordered (differences s) ∧ good (resolutions s).

Lemma performSync_sound maps replies stored s : sound s → sound (performSync maps replies stored s).1.2.
Proof.
  intros [Hd Hg]. unfold performSync. destruct (sendUpdates _ _ _) as [stored' []]; [|done].
  split; [by apply drop_fields_ordered|apply good_nil].
Qed.

Lemma reachable_sound lower s : reachable lower s → sound s.
Proof.
  induction 1 as [|s e _ [Hd Hg] Ho|t s maps replies stored _ IH|s maps replies stored _ IH].
  - split; [constructor|apply good_nil].
  - destruct e as [diffs|m rt v src|m rt|search f u|search f u]; cbn [handle]; split; try done; cbn [setResolutions resolutions].
    + apply good_nil.
    + apply selections_good; [done|]. intros x ->%list_elem_of_singleton. done.
    + apply removals_good; [done|]. apply mset_NoDup. constructor.
    + apply selections_good; [done|]. intros x (x0 & H0 & ->)%effective_elem.
      destruct (column_honest _ _ _ _ _ _ (in_order_NoDup _ Hd) H0) as [md Hx]. rewrite (honest_resolves _ u md) by done. exists md. apply Hx.
    + apply removals_good; [done|]. apply plan_adds_NoDup. constructor.
  - unfold handleApplySync. destruct (conflicts t maps s); [by apply performSync_sound|done].
  - unfold handleConfirmConflict. pose proof (performSync_sound maps replies stored s IH) as Hp.
    destruct (performSync maps replies stored s) as [[stored' s'] []]; done.
Qed.

(** [C15] Whatever is fetched, selected, unselected, column by column or one by
    one, and applied: the selection of a model is never empty, never mixes the
    fixed price with ratios, names no field twice and never takes over an
    expression without its mode. *)
Theorem selection_never_mixes lower s m r :
  reachable lower s → field_get m (resolutions s) = Some r →
  r ≠ [] ∧ NoDup r.*1 ∧ (is_Some (mget model_price r) → ∀ rt, rt ∈ RATIO_SYNC_FIELDS → mget rt r = None)
  ∧ (is_Some (mget billing_expr r) → is_Some (mget billing_mode r)).
Proof.
  intros [_ [_ Hf He]]%reachable_sound Hr. specialize (Hf m). specialize (He m). unfold chosen in He. rewrite Hr in Hf, He.
  destruct He as [H1 H2 H3]. split; [by intros ->|]. split; [done|]. split; [by intros ? ?; apply H2|done].
Qed.

(** ** What a sync writes *)

#[local] Instance option_of_inj : Inj (=) (=) option_of.
Proof. by intros [] []. Qed.

Lemma option_of_surj K : ∃ rt, option_of rt = K.
Proof.
  destruct K as [[]| |]; [exists model_price|exists model_ratio|exists cache_ratio|exists create_cache_ratio
    |exists completion_ratio|exists image_ratio|exists audio_ratio|exists audio_completion_ratio|exists billing_mode|exists billing_expr]; done.
Qed.

Lemma delete_at_get m m' maps rts rt :
  field_get m' (foldl (delete_at m) maps rts (option_of rt))
  = if decide (m' = m ∧ rt ∈ rts) then None else field_get m' (maps (option_of rt)).
Proof.
  revert maps. induction rts as [|rt1 rts IH]; intros maps; cbn [foldl].
  { by rewrite decide_False by (by intros [_ ?%elem_of_nil]). }
  rewrite IH. destruct (decide (m' = m ∧ rt ∈ rts)) as [[-> Hin]|Hno].
  - by rewrite decide_True by (split; [done|by right]).
  - unfold delete_at, set_map. destruct (decide (option_of rt = option_of rt1)) as [E|E].
    + apply (inj option_of) in E as ->. rewrite field_get_delete. destruct (decide (m = m')) as [->|].
      * by rewrite decide_True by (split; [done|left]).
      * rewrite decide_False by naive_solver. done.
    + rewrite decide_False; [done|]. rewrite elem_of_cons. intros [? [->|?]]; [done|naive_solver].
Qed.

Lemma write_fields_get m m' maps r rt : NoDup r.*1 →
  field_get m' (foldl (write_field m) maps r (option_of rt))
  = if decide (m' = m) then match mget rt r with Some v => Some (value_json rt v) | None => field_get m (maps (option_of rt)) end
    else field_get m' (maps (option_of rt)).
Proof.
  revert maps. induction r as [|[rt1 v1] r IH]; intros maps; cbn [foldl mget].
  { intros _. by destruct (decide (m' = m)) as [->|]. }
  cbn [fmap list_fmap fst]. intros [Hn Hr]%list.NoDup_cons. rewrite IH by done. unfold write_field, set_map. cbn [fst snd].
  destruct (decide (option_of rt = option_of rt1)) as [E|E].
  - apply (inj option_of) in E as ->. rewrite !field_get_set, (proj2 (mget_None rt1 r)), (decide_True (P := rt1 = rt1)) by done.
    destruct (decide (m' = m)) as [->|Hne]; [by rewrite decide_True|by rewrite decide_False].
  - rewrite (decide_False (P := rt1 = rt)) by congruence. done.
Qed.

(** The fields that a selection drops. *)
Definition dropped (r : Resolution) (rt : RatioType) : bool :=
  has model_price r.*1 && has rt RATIO_SYNC_FIELDS
  || existsb (λ rt, has rt RATIO_SYNC_FIELDS) r.*1 && bool_decide (rt = model_price).

(** What a model's field is after the sync of a selection. *)
Definition synced_field (maps : Maps) (m : jstr) (r : Resolution) (rt : RatioType) : option json :=
  match mget rt r with
  | Some v => Some (value_json rt v)
  | None => if dropped r rt then None else field_get m (maps (option_of rt))
  end.

Lemma sync_model_get maps m r m' rt : NoDup r.*1 →
  field_get m' (sync_model maps (m, r) (option_of rt))
  = if decide (m' = m) then synced_field maps m r rt else field_get m' (maps (option_of rt)).
Proof.
  intros Hr. unfold sync_model, synced_field, dropped. rewrite write_fields_get by done.
  set (hp := has model_price r.*1). set (hr := existsb _ r.*1).
  assert (∀ m0, field_get m0 ((if hr then delete_at m (if hp then foldl (delete_at m) maps RATIO_SYNC_FIELDS else maps) model_price
      else if hp then foldl (delete_at m) maps RATIO_SYNC_FIELDS else maps) (option_of rt))
    = if decide (m0 = m) then if hp && has rt RATIO_SYNC_FIELDS || hr && bool_decide (rt = model_price) then None else field_get m (maps (option_of rt))
      else field_get m0 (maps (option_of rt))) as H.
  { intros m0.
    assert (field_get m0 ((if hp then foldl (delete_at m) maps RATIO_SYNC_FIELDS else maps) (option_of rt))
      = if decide (m0 = m) then if hp && has rt RATIO_SYNC_FIELDS then None else field_get m (maps (option_of rt)) else field_get m0 (maps (option_of rt))) as H1.
    { destruct hp; cbn [andb]; [|by destruct (decide (m0 = m)) as [->|]]. rewrite delete_at_get. unfold has.
      destruct (decide (m0 = m)) as [->|Hne]; [|by rewrite decide_False by naive_solver].
      case_bool_decide; [by rewrite decide_True|by rewrite decide_False by naive_solver]. }
    destruct hr; cbn [andb]; [|by rewrite orb_false_r].
    set (maps1 := if hp then _ else _) in *. change (delete_at m maps1 model_price) with (foldl (delete_at m) maps1 [model_price]).
    rewrite delete_at_get, H1. destruct (decide (m0 = m)) as [->|Hne]; [|by rewrite decide_False by naive_solver].
    case_bool_decide as Hrt; [rewrite decide_True by (subst; by split; [|left]); by rewrite orb_true_r|].
    rewrite decide_False by (intros [_ ?%list_elem_of_singleton]; done). by rewrite orb_false_r. }
  rewrite !H. destruct (decide (m' = m)) as [->|]; [|done]. by rewrite (decide_True (P := m = m)).
Qed.

Lemma final_get maps R m rt : NoDup R.*1 → (∀ m r, (m, r) ∈ R → NoDup r.*1) →
  field_get m (finalRatios maps R (option_of rt))
  = match field_get m R with Some r => synced_field maps m r rt | None => field_get m (maps (option_of rt)) end.
Proof.
  unfold finalRatios. revert maps. induction R as [|[m1 r1] R IH]; intros maps; [done|].
  cbn [fmap list_fmap fst]. intros [Hm HR]%list.NoDup_cons Hr. cbn [foldl field_get]. rewrite IH; [|done|intros; eapply Hr; by right].
  assert (NoDup r1.*1) as Hr1 by (apply (Hr m1); left).
  destruct (m1 === m) eqn:E.
  - apply jeqb_true in E as ->. assert (field_get m R = None) as ->.
    { destruct (field_get m R) as [r|] eqn:Er; [|done]. exfalso. apply Hm, field_get_keys. by eexists. }
    by rewrite sync_model_get, decide_True.
  - assert (m ≠ m1) as Hne by (intros ->; by rewrite jeqb_refl in E).
    assert (∀ rt, field_get m (sync_model maps (m1, r1) (option_of rt)) = field_get m (maps (option_of rt))) as Hsame.
    { intros rt'. by rewrite sync_model_get, decide_False. }
    rewrite Hsame. destruct (field_get m R) as [r|]; [|done]. unfold synced_field. by rewrite Hsame.
Qed.

(** Selections that JSON can hold: numbers that are finite, texts of code units. *)
Definition storable_selection (R : ResolutionsMap) : Prop :=
  ∀ m r, (m, r) ∈ R → units m ∧ ∀ rt v, (rt, v) ∈ r → storable (value_json rt v).

Lemma final_storable maps R : storable_maps maps → storable_selection R → storable_maps (finalRatios maps R).
Proof.
  unfold finalRatios. revert maps. induction R as [|[m r] R IH]; intros maps Hm HR; [done|]. cbn [foldl]. apply IH.
  2: { intros m' r' Hin. apply (HR m' r'). by right. }
  destruct (HR m r) as [Hu Hv]; [left|].
  assert (∀ maps rt, storable_maps maps → storable_maps (delete_at m maps rt)) as Hdel.
  { intros maps' rt H K. unfold delete_at, set_map. destruct (decide _); [apply storable_delete|]; apply H. }
  assert (∀ rts maps, storable_maps maps → storable_maps (foldl (delete_at m) maps rts)) as Hdels.
  { induction rts as [|rt rts IHr]; intros maps' H; [done|]. apply IHr. by apply Hdel. }
  assert (∀ l maps, (∀ rt v, (rt, v) ∈ l → storable (value_json rt v)) → storable_maps maps → storable_maps (foldl (write_field m) maps l)) as Hw.
  { induction l as [|[rt v] l IHl]; intros maps' Hl H; [done|]. apply IHl; [intros; apply Hl; by right|]. unfold write_field. cbn [fst snd].
    apply set_map_storable; [|done]. apply storable_set; [done|apply Hl; left|apply H]. }
  unfold sync_model. apply Hw; [done|]. destruct (existsb _ _), (has model_price _); auto.
Qed.

Definition all_accepted : list Reply := replicate 10 accepted.

Lemma accepted_updates maps R stored :
  let '(stored', ok) := sendUpdates (sync_updates maps R) all_accepted stored in
  ok = true ∧ ∀ k, stored' k = texts_of (finalRatios maps R) k.
Proof. cbn -[JSON_stringify_2]. split; [done|]. by intros [[]| |]. Qed.

Lemma dropped_price r rt : has model_price r.*1 = true → rt ∈ RATIO_SYNC_FIELDS → dropped r rt = true.
Proof. intros Hp Hrt. unfold dropped. rewrite Hp. unfold has. by rewrite bool_decide_true. Qed.

(** After a sync a model is not both priced and rated, if either was selected. *)
Lemma synced_unmixed maps m r : consistent r → newCategory r ≠ cat_tiered →
  synced_field maps m r model_price = None ∨ ∀ rt, rt ∈ RATIO_SYNC_FIELDS → synced_field maps m r rt = None.
Proof.
  intros [_ Hp _] Hc. unfold newCategory in Hc. destruct (has model_price r.*1) eqn:E.
  - right. intros rt Hrt. unfold synced_field. pose proof E as Ek. unfold has in E. apply bool_decide_eq_true in E.
    rewrite (Hp rt); [|by apply mget_is_Some|done]. by rewrite dropped_price.
  - left. unfold synced_field, dropped.
    destruct (mget model_price r) eqn:Em; [exfalso; unfold has in E; apply bool_decide_eq_false in E; apply E, mget_is_Some; by eexists|].
    destruct (existsb (λ rt, has rt RATIO_SYNC_FIELDS) r.*1) eqn:Er; [by rewrite orb_true_r|]. exfalso.
    destruct (existsb (λ rt, has rt r.*1) RATIO_SYNC_FIELDS) eqn:Er'; [|done].
    apply existsb_exists in Er' as (rt & Hin & Hrt). apply bool_decide_eq_true in Hrt.
    assert (existsb (λ rt, has rt RATIO_SYNC_FIELDS) r.*1 = true); [|congruence]. apply existsb_exists. exists rt.
    split; [by apply list_elem_of_In|]. apply bool_decide_eq_true. by apply list_elem_of_In.
Qed.

Lemma unmixed_snapshot maps m s :
  (field_get m (maps (opt_num kPrice)) = None ∨ ∀ rt, rt ∈ RATIO_SYNC_FIELDS → field_get m (maps (option_of rt)) = None) →
  model_snapshot maps m = Some s → hasConflict s = false.
Proof.
  intros H. unfold model_snapshot. destruct (is_tiered maps m).
  { destruct (splitBillingExprAndRequestRules _) as [[a b]|]; [|done]. cbn [mbind option_bind]. intros Hs. apply (inj Some) in Hs. by subst s. }
  intros Hs. apply (inj Some) in Hs. subst s. cbn [hasConflict]. destruct H as [H|H]; [by rewrite H|].
  apply andb_false_iff. right.
  assert (∀ rt, rt ∈ RATIO_SYNC_FIELDS → truthy (number_text_of (field_get m (maps (option_of rt)))) = false) as Hz by (intros rt Hrt; by rewrite H).
  cbn [ratio_keys existsb].
  assert (∀ rt, bool_decide (rt ∈ RATIO_SYNC_FIELDS) = true → truthy (number_text_of (field_get m (maps (option_of rt)))) = false) as Hb.
  { intros rt ?%bool_decide_eq_true. by apply Hz. }
  by rewrite (Hb model_ratio eq_refl : truthy (number_text_of (field_get m (maps (opt_num kRatio)))) = false),
    (Hb completion_ratio eq_refl : truthy (number_text_of (field_get m (maps (opt_num kCompletion)))) = false),
    (Hb cache_ratio eq_refl : truthy (number_text_of (field_get m (maps (opt_num kCache)))) = false),
    (Hb create_cache_ratio eq_refl : truthy (number_text_of (field_get m (maps (opt_num kCreateCache)))) = false),
    (Hb image_ratio eq_refl : truthy (number_text_of (field_get m (maps (opt_num kImage)))) = false),
    (Hb audio_ratio eq_refl : truthy (number_text_of (field_get m (maps (opt_num kAudio)))) = false),
    (Hb audio_completion_ratio eq_refl : truthy (number_text_of (field_get m (maps (opt_num kAudioCompletion)))) = false).
Qed.

(** The fields a selection takes away from a model: the ratios when a price is
    selected, the price when a ratio is. *)
Definition taken_away (r : Resolution) (rt : RatioType) : Prop :=
  (is_Some (mget model_price r) ∧ rt ∈ RATIO_SYNC_FIELDS) ∨
  (rt = model_price ∧ ∃ rt', rt' ∈ RATIO_SYNC_FIELDS ∧ is_Some (mget rt' r)).

Lemma dropped_spec r rt : dropped r rt = true ↔ taken_away r rt.
Proof.
  unfold dropped, taken_away, has. rewrite orb_true_iff, !andb_true_iff, !bool_decide_eq_true, existsb_exists, mget_is_Some.
  split; (intros [?|H]; [by left|right]).
  - destruct H as [(rt' & Hin & Hrt%bool_decide_eq_true) ->]. split; [done|]. exists rt'. split; [done|].
    by apply mget_is_Some, list_elem_of_In.
  - destruct H as (-> & rt' & Hrt & Hs%mget_is_Some). split; [|done]. exists rt'.
    split; [by apply list_elem_of_In|by apply bool_decide_eq_true].
Qed.

Lemma newCategory_numeric r rt : rt ∈ NUMERIC_SYNC_FIELDS → is_Some (mget rt r) → newCategory r ≠ cat_tiered.
Proof.
  intros Hin Hs%mget_is_Some. unfold newCategory, has. case_bool_decide; [done|].
  apply elem_of_app in Hin as [Hin|Hin]; [|apply list_elem_of_singleton in Hin as ->; done].
  assert (existsb (λ rt, bool_decide (rt ∈ r.*1)) RATIO_SYNC_FIELDS = true) as ->; [|done].
  apply existsb_exists. exists rt. split; [by apply list_elem_of_In|by apply bool_decide_eq_true].
Qed.

(** [C14] A sync that the server accepts stores exactly the selection: the price
    editor reads every selected field of a selected model back with the selected
    value; of the other fields of that model the ratios are removed when a price
    was selected, the price when a ratio was, and the rest is as before; every
    model without a selection is shown as before.  So a model for which a price
    or a ratio was selected is not shown with both, however its local prices
    were; one for which only the billing mode and expression were selected keeps
    its price and ratios, both if it had both.  Names, numbers and texts are
    ones JSON can hold. *)
Theorem accepted_sync_stores_selection lower s maps stored :
  reachable lower s → storable_maps maps → storable_selection (resolutions s) →
  ∃ stored' s' maps', performSync maps all_accepted stored s = (stored', s', true) ∧ parse_maps stored' = Some maps'
    ∧ resolutions s' = []
    ∧ (∀ m r rt v, field_get m (resolutions s) = Some r → mget rt r = Some v →
         field_get m (maps' (option_of rt)) = Some (value_json rt v))
    ∧ (∀ m r rt, field_get m (resolutions s) = Some r → mget rt r = None →
         (taken_away r rt → field_get m (maps' (option_of rt)) = None) ∧
         (¬ taken_away r rt → field_get m (maps' (option_of rt)) = field_get m (maps (option_of rt))))
    ∧ (∀ m r rt snap, field_get m (resolutions s) = Some r → rt ∈ NUMERIC_SYNC_FIELDS → is_Some (mget rt r) →
         model_snapshot maps' m = Some snap → hasConflict snap = false)
    ∧ (∀ m, field_get m (resolutions s) = None → model_snapshot maps' m ≡ model_snapshot maps m).
Proof.
  intros [_ [Ho Hf He]]%reachable_sound Hm HR. pose proof (accepted_updates maps (resolutions s) stored) as Hu. unfold performSync.
  destruct (sendUpdates _ _ _) as [stored' ok]. destruct Hu as [-> Hst].
  destruct (parse_written stored' (finalRatios maps (resolutions s)) Hst) as (maps' & Hp & Heq); [by apply final_storable|].
  assert (∀ m r, field_get m (resolutions s) = Some r → consistent r) as Hcons.
  { intros m r Hr. specialize (He m). unfold chosen in He. by rewrite Hr in He. }
  assert (∀ m rt, field_get m (maps' (option_of rt))
    = match field_get m (resolutions s) with Some r => synced_field maps m r rt | None => field_get m (maps (option_of rt)) end) as Hget.
  { intros m rt. rewrite Heq. pose proof (in_order_NoDup _ Ho) as Hnd. apply final_get; [done|].
    intros m' r Hin. apply (Hcons m'). by apply field_get_unique. }
  eexists stored', _, maps'. split_and!; [done|done|done| | | |].
  - intros m r rt v Hr Hv. rewrite Hget, Hr. unfold synced_field. by rewrite Hv.
  - intros m r rt Hr Hv. rewrite Hget, Hr. unfold synced_field. rewrite Hv, <- dropped_spec. by destruct (dropped r rt).
  - intros m r rt snap Hr Hrt Hs. pose proof (newCategory_numeric r rt Hrt Hs) as Hc. apply unmixed_snapshot.
    destruct (synced_unmixed maps m r (Hcons m r Hr) Hc) as [H|H]; [left|right].
    + change (opt_num kPrice) with (option_of model_price). by rewrite Hget, Hr.
    + intros rt' Hrt'. rewrite Hget, Hr. by apply H.
  - intros m Hr. apply model_snapshot_ext. intros K. destruct (option_of_surj K) as [rt <-]. by rewrite Hget, Hr.
Qed.

(** An update that the server refuses is reported as a success: the page
    clears the selection and its differences although the option keeps its old
    text. *)
Theorem refused_update_counts_as_success maps s stored k i :
  final_keys !! i = Some k →
  ∃ stored' s', performSync maps (<[i := refused]> all_accepted) stored s = (stored', s', true)
    ∧ stored' k = stored k ∧ resolutions s' = []
    ∧ differences s' = remaining_differences (differences s) (resolutions s).
Proof.
  intros Hk. unfold performSync.
  assert (∃ stored', sendUpdates (sync_updates maps (resolutions s)) (<[i := refused]> all_accepted) stored = (stored', true) ∧ stored' k = stored k) as (stored' & -> & Hs).
  { do 10 (destruct i as [|i]; [injection Hk as <-; by eexists|]). done. }
  by eexists stored', _.
Qed.

(** Whether a model has both a fixed price and ratios. *)
Definition locally_mixed (maps : Maps) (m : jstr) : bool :=
  present maps m model_price && existsb (present maps m) RATIO_SYNC_FIELDS.

(** Without a confirmation nothing is lost: if no conflict is reported, the
    sync keeps every stored field of every model that does not already mix a
    fixed price with ratios. *)
Theorem unconfirmed_sync_keeps_fields t lower s maps m rt :
  reachable lower s → conflicts t maps s = [] → locally_mixed maps m = false → present maps m rt = true →
  present (finalRatios maps (resolutions s)) m rt = true.
Proof.
  intros [_ [Ho _ He]]%reachable_sound Hc Hmix Hp. unfold present in *. apply bool_decide_eq_true in Hp. apply bool_decide_eq_true.
  pose proof (in_order_NoDup _ Ho) as Hnd. rewrite final_get; [|done|].
  2: { intros m' r Hin. specialize (He m'). unfold chosen in He. rewrite (field_get_unique _ _ _ Hnd Hin) in He. apply He. }
  destruct (field_get m (resolutions s)) as [r|] eqn:Er; [|done]. unfold synced_field.
  destruct (mget rt r) eqn:Emg; [by eexists|]. destruct (dropped r rt) eqn:Ed; [exfalso|done].
  assert (conflict_of t (differences s) maps (m, r) = None) as Hno.
  { destruct (conflict_of t (differences s) maps (m, r)) as [c|] eqn:Ec; [|done]. apply field_get_elem in Er.
    assert (c ∈ conflicts t maps s) as Hin by (apply list_elem_of_omap; by eexists). rewrite Hc in Hin. by apply elem_of_nil in Hin. }
  revert Hno. unfold conflict_of, getLocalBillingCategory, newCategory. unfold locally_mixed in Hmix.
  apply orb_true_iff in Ed as [[Hhp Hrt]%andb_true_iff|[Hhr ->%bool_decide_eq_true]%andb_true_iff].
  - apply bool_decide_eq_true in Hrt. assert (existsb (present maps m) RATIO_SYNC_FIELDS = true) as Hx.
    { apply existsb_exists. exists rt. split; [by apply list_elem_of_In|]. by apply bool_decide_eq_true. }
    rewrite Hx, andb_true_r in Hmix. by rewrite Hmix, Hx, Hhp.
  - assert (present maps m model_price = true) as Hpp by (by apply bool_decide_eq_true). rewrite Hpp.
    assert (has model_price r.*1 = false) as ->.
    { apply bool_decide_eq_false. intros Hin. apply mget_is_Some in Hin as [v Hv]. congruence. }
    assert (existsb (λ rt, has rt r.*1) RATIO_SYNC_FIELDS = true) as ->; [|done].
    apply existsb_exists in Hhr as (rt & Hin & Hrt%bool_decide_eq_true). apply existsb_exists. exists rt.
    split; [by apply list_elem_of_In|]. apply bool_decide_eq_true. by apply list_elem_of_In.
Qed.

(** ** Runs *)

Definition as_is : jstr → jstr := λ s, s.
Definition one_diff (v : SyncValue) : RatioDifferenceEntry := mkDiff None [(js "A", Some v); (js "B", Some (SStr (js "same")))] [].
Definition two_models : DifferencesMap :=
  [(js "gpt", [(model_ratio, one_diff (SNum (num_of_Z 2))); (completion_ratio, one_diff (SNum (num_of_Z 3)));
               (model_price, one_diff (SNum (num_of_dec false 1 (-1))))]);
   (js "o1", [(model_ratio, one_diff (SNum (num_of_Z 5))); (billing_expr, one_diff (SStr (js "p * 2")))])].

Definition compared : SyncState := handle as_is (mkSync [] [] [] false) (fetched two_models).
Definition picked : SyncState := handle as_is compared (bulkSelect [] None (js "A")).

Lemma compared_reachable : reachable as_is compared.
Proof. apply reach_event; [constructor|]. apply orderedb_true. vm_compute. reflexivity. Qed.
Lemma picked_reachable : reachable as_is picked.
Proof. apply reach_event; [apply compared_reachable|exact I]. Qed.

Lemma two_models_comparable m md rt v :
  field_get m two_models = Some md → upstream_val md rt (js "A") = Some v → comparable rt v = true.
Proof.
  intros Hmd%field_get_elem. apply elem_of_cons in Hmd as [[= -> ->]|[[= -> ->]|?%elem_of_nil]%elem_of_cons]; [| |done];
    intros Hv; destruct rt; vm_compute in Hv; try discriminate; apply (inj Some) in Hv; subst v; vm_compute; reflexivity.
Qed.

(** The whole column is selected: of the first model the price, which comes after
    its ratios, of the second the expression. *)
Lemma bulk_select_selects_all_witness :
  let b := bulk_state as_is picked [] None (js "A") in
  selectedCount b = selectableCount b ∧ selectableCount b = 2%nat
  ∧ (λ '(m, r), (m, r.*1)) <$> resolutions picked = [(js "gpt", [model_price]); (js "o1", [billing_expr; billing_mode])].
Proof.
  split; [|split; vm_compute; reflexivity].
  apply (bulk_select_selects_all as_is compared [] None (js "A")).
  - apply in_order_NoDup, (reachable_sound as_is), compared_reachable.
  - intros m md rt v Hm Hv _. by apply (two_models_comparable m md).
Defined.

Lemma bulk_unselect_clears_witness :
  selectedCount (bulk_state as_is (handle as_is picked (bulkUnselect [] None (js "A"))) [] None (js "A")) = 0%nat
  ∧ selectedCount (bulk_state as_is picked [] None (js "A")) = 2%nat.
Proof.
  split; [|vm_compute; reflexivity].
  apply (bulk_unselect_clears as_is picked [] None (js "A")), in_order_NoDup, (reachable_sound as_is), picked_reachable.
Defined.

Definition o1_choice : Resolution := [(billing_expr, SStr (js "p * 2")); (billing_mode, SStr (js "tiered_expr"))].

Lemma selection_never_mixes_witness :
  field_get (js "o1") (resolutions picked) = Some o1_choice ∧ is_Some (mget billing_mode o1_choice).
Proof.
  assert (field_get (js "o1") (resolutions picked) = Some o1_choice) as Hr by (vm_compute; reflexivity).
  destruct (selection_never_mixes as_is picked (js "o1") o1_choice picked_reachable Hr) as (_ & _ & _ & H).
  split; [exact Hr|]. apply H. by eexists.
Defined.

Lemma picked_storable : storable_selection (resolutions picked).
Proof.
  intros m r Hin. assert (resolutions picked = [(js "gpt", [(model_price, SNum (num_of_dec false 1 (-1)))]); (js "o1", o1_choice)]) as E
    by (vm_compute; reflexivity).
  rewrite E in Hin. apply elem_of_cons in Hin as [[= -> ->]|[[= -> ->]|?%elem_of_nil]%elem_of_cons]; [| |done].
  - split; [by repeat constructor|]. intros rt v [= -> ->]%list_elem_of_singleton. apply storableb_true. vm_compute. reflexivity.
  - split; [by repeat constructor|]. intros rt v [[= -> ->]|[= -> ->]%list_elem_of_singleton]%elem_of_cons;
      apply storableb_true; vm_compute; reflexivity.
Qed.

Lemma accepted_sync_stores_selection_witness :
  ∃ stored' s' maps', performSync shop_maps all_accepted shop picked = (stored', s', true) ∧ parse_maps stored' = Some maps'
    ∧ field_get (js "gpt") (maps' (opt_num kPrice)) = Some (JNum (num_of_dec false 1 (-1)))
    ∧ model_snapshot maps' (js "dall") ≡ model_snapshot shop_maps (js "dall").
Proof.
  destruct (accepted_sync_stores_selection as_is picked shop_maps shop picked_reachable shop_storable picked_storable)
    as (stored' & s' & maps' & H1 & H2 & _ & H3 & _ & _ & H4).
  exists stored', s', maps'. split; [exact H1|]. split; [exact H2|]. split.
  - change (opt_num kPrice) with (option_of model_price).
    change (JNum (num_of_dec false 1 (-1))) with (value_json model_price (SNum (num_of_dec false 1 (-1)))).
    apply (H3 (js "gpt") [(model_price, SNum (num_of_dec false 1 (-1)))] model_price); vm_compute; reflexivity.
  - apply H4. vm_compute. reflexivity.
Defined.

Lemma refused_update_counts_as_success_witness :
  ∃ stored' s', performSync shop_maps (<[7%nat := refused]> all_accepted) shop picked = (stored', s', true)
    ∧ stored' (opt_num kPrice) = shop (opt_num kPrice) ∧ resolutions s' = [].
Proof.
  destruct (refused_update_counts_as_success shop_maps picked shop (opt_num kPrice) 7%nat eq_refl) as (stored' & s' & H1 & H2 & H3 & _).
  exists stored', s'. split; [exact H1|]. split; [exact H2|exact H3].
Defined.

(** The ratios of one model are replaced by others; nothing has to be confirmed. *)
Definition rerated : SyncState := handle as_is compared (selectValue (js "gpt") model_ratio (SNum (num_of_Z 2)) (js "A")).

Lemma unconfirmed_sync_keeps_fields_witness :
  conflicts as_is shop_maps rerated = [] ∧ present (finalRatios shop_maps (resolutions rerated)) (js "gpt") completion_ratio = true.
Proof.
  assert (conflicts as_is shop_maps rerated = []) as Hc by (vm_compute; reflexivity). split; [exact Hc|].
  apply (unconfirmed_sync_keeps_fields as_is as_is rerated shop_maps (js "gpt") completion_ratio).
  - apply reach_event; [apply compared_reachable|]. vm_compute. by eexists.
  - exact Hc.
  - vm_compute. reflexivity.
  - vm_compute. reflexivity.
Defined.

(** A model that already mixes both loses its ratios to a selected price without
    a question. *)
Definition mixed_maps : Maps := λ k,
  match k with
  | opt_num kPrice => [(js "gpt", JNum (num_of_Z 1))] | opt_num kRatio => [(js "gpt", JNum (num_of_Z 2))] | _ => []
  end.
Example mixed_model_loses_ratios_unasked :
  let s := handle as_is compared (selectValue (js "gpt") model_price (SNum (num_of_Z 3)) (js "A")) in
  conflicts as_is mixed_maps s = [] ∧ present mixed_maps (js "gpt") model_ratio = true
  ∧ present (finalRatios mixed_maps (resolutions s)) (js "gpt") model_ratio = false.
Proof. vm_compute. done. Qed.
