(* ===== verification/DashboardFlow.v ===== *)
(** * The flow chart of the dashboard

    Models [features/dashboard/lib/flow.ts], the types it uses
    ([features/dashboard/types.ts]) and the choice of colors of
    [features/dashboard/lib/charts.ts]: rows of usage become paths through
    stages (user, token, model, ...), and the paths become the nodes and links
    of a Sankey chart, with filters, a limit on the nodes of a stage, masking
    and highlighting.

    The order of [localeCompare], the number format of [Intl] and the color
    schemes of the chart library are parameters.  The styles of the chart are
    left out. *)

From stdpp Require Import sorting.
From S2P Require Import Prelude StableSort JsValue JsCollections.

Module DashboardFlow.

(** ** Types *)

Inductive FlowMetric := metric_quota | metric_tokens | metric_requests.
Inductive FlowOverflowMode := aggregate | hide.
Inductive FlowRole := role_user | role_admin | role_root.
Inductive FlowNodeKind := kind_user | kind_node | kind_token | kind_group | kind_model | kind_channel.
#[export] Instance FlowNodeKind_eq_dec : EqDecision FlowNodeKind.
Proof. solve_decision. Defined.

Record FlowQuotaDataItem := mkItem {
  user_id : option jsnum; username : option jstr; node_name : option jstr; use_group : option jstr;
  token_id : option jsnum; token_name : option jstr; channel_id : option jsnum;
  channel_name : option jstr; model_name : option jstr;
  token_used : option jsnum; count : option jsnum; quota : option jsnum }.

Record FlowNodeFilter := mkFilter { filter_kind : FlowNodeKind; filter_id : jstr }.
Record FlowLinkSelection := mkSelection { sel_source : jstr; sel_target : jstr }.

Record FlowMetrics := mkMetrics { m_quota : jsnum; m_tokens : jsnum; m_requests : jsnum }.
Record FlowPathNode := mkPathNode { id : jstr; label : jstr; kind : FlowNodeKind }.
Record PreparedFlowPath := mkPrepared { path : list FlowPathNode; metrics : FlowMetrics }.
Record FlowNodeRank := mkRank { rank_node : FlowPathNode; rank_value : jsnum }.

Record DashboardFlowNode := mkNode {
  n_id : jstr; n_label : jstr; n_kind : FlowNodeKind; n_value : jsnum; n_requests : jsnum;
  n_quota : jsnum; n_tokens : jsnum; n_color : jstr; n_colorKey : jstr;
  n_highlighted : option bool; n_dimmed : option bool }.
Record DashboardFlowLink := mkLink {
  l_source : jstr; l_target : jstr; l_value : jsnum; l_requests : jsnum; l_quota : jsnum;
  l_tokens : jsnum; sourceLabel : jstr; targetLabel : jstr; l_color : jstr; linkColor : jstr;
  linkAlpha : jsnum; hoverColor : jstr; l_colorKey : jstr; share : jsnum;
  l_highlighted : option bool; l_dimmed : option bool }.
Record DashboardFlowGraph := mkGraph { nodes : list DashboardFlowNode; links : list DashboardFlowLink }.

Record FlowHighlightSets := mkHighlights { hl_nodes : list jstr; hl_links : list jstr }.
Record FlowSummary := mkSummary { s_quota : jsnum; s_tokens : jsnum; s_requests : jsnum }.
Record FlowUserFilterOption := mkUserOption {
  u_value : jstr; u_label : jstr; u_valueLabel : jstr; u_valueRaw : jsnum; u_color : jstr }.
Record FlowNodeFilterOption := mkNodeOption {
  o_kind : FlowNodeKind; o_value : jstr; o_label : jstr; o_valueLabel : jstr; o_valueRaw : jsnum;
  o_color : jstr }.
Record FlowFilterOptions := mkFilterOptions {
  users : list FlowUserFilterOption; node_options : list FlowNodeFilterOption }.
Record ProcessedFlowData := mkProcessed {
  summary : FlowSummary; flow : DashboardFlowGraph; filterOptions : FlowFilterOptions }.

Record FlowPathContext := mkContext { ctx_deletedTokenLabel : option (jsnum → jstr) }.
Record FlowGraphOptions := mkGraphOptions {
  g_topNodeLimit : option jsnum; g_overflowMode : option FlowOverflowMode;
  g_otherNodeLabel : option (FlowNodeKind → jstr); g_activeNode : option FlowNodeFilter;
  g_activeLink : option FlowLinkSelection; g_maskSensitive : bool }.
Record FlowBuildOptions := mkBuildOptions {
  role : option FlowRole; selectedUsers : option (list jstr);
  selectedNodes : option (list FlowNodeFilter); activeNode : option FlowNodeFilter;
  activeLink : option FlowLinkSelection; opt_colorPalette : option (list jstr);
  visibleStages : option (list FlowNodeKind); topNodeLimit : option jsnum;
  overflowMode : option FlowOverflowMode; maskSensitive : bool;
  deletedTokenLabel_ : option (jsnum → jstr); otherNodeLabel : option (FlowNodeKind → jstr) }.

(** ** Constants *)

Definition EMPTY_FLOW_PATH_CONTEXT : FlowPathContext := mkContext None.
Definition DEFAULT_FLOW_ROLE : FlowRole := role_user.
Definition DEFAULT_FLOW_OVERFLOW_MODE : FlowOverflowMode := aggregate.
Definition DEFAULT_FLOW_CHART_COLOR : jstr := js "#1664FF".
Definition FLOW_NODE_KINDS : list FlowNodeKind :=
  [kind_user; kind_node; kind_token; kind_group; kind_model; kind_channel].
Definition kind_text (k : FlowNodeKind) : jstr :=
  match k with
  | kind_user => js "user" | kind_node => js "node" | kind_token => js "token"
  | kind_group => js "group" | kind_model => js "model" | kind_channel => js "channel"
  end.
Definition OTHER_FLOW_NODE_IDS (k : FlowNodeKind) : jstr :=
  match k with
  | kind_user => js "user:__other__" | kind_node => js "node:__other__"
  | kind_token => js "token:__other__" | kind_group => js "group:__other__"
  | kind_model => js "model:__other__" | kind_channel => js "channel:__other__"
  end.
Definition DEFAULT_OTHER_FLOW_NODE_LABELS (k : FlowNodeKind) : jstr :=
  match k with
  | kind_user => js "Other users" | kind_node => js "Other nodes"
  | kind_token => js "Other tokens" | kind_group => js "Other groups"
  | kind_model => js "Other models" | kind_channel => js "Other channels"
  end.
Definition SENSITIVE_FLOW_KINDS : list FlowNodeKind :=
  [kind_user; kind_node; kind_token; kind_group; kind_channel].
Definition OTHER_FLOW_NODE_ID_SET : list jstr := map OTHER_FLOW_NODE_IDS FLOW_NODE_KINDS.

(** ** Rows and paths *)

Definition zero : jsnum := S754_zero false.

(** [numberValue] of a property that is a number or missing. *)
Definition numberValue (value : option jsnum) : jsnum :=
  match value with Some n => if isFinite n then n else zero | None => zero end.

(** [isFlowNodeKind], with the kind it recognizes. *)
Definition isFlowNodeKind (v : option json) : option FlowNodeKind :=
  match v with
  | Some (JStr s) => head (filter (λ k, kind_text k = s) FLOW_NODE_KINDS)
  | _ => None
  end.

Definition rowMetrics (row : FlowQuotaDataItem) : FlowMetrics :=
  mkMetrics (numberValue (quota row)) (numberValue (token_used row)) (numberValue (count row)).

Definition metricValue (m : FlowMetrics) (metric : FlowMetric) : jsnum :=
  match metric with
  | metric_requests => m_requests m | metric_tokens => m_tokens m | metric_quota => m_quota m
  end.

Definition positive (n : jsnum) : bool := num_ltb zero n.

Definition userNode (row : FlowQuotaDataItem) : FlowPathNode :=
  let userID := numberValue (user_id row) in
  mkPathNode
    (if positive userID then js "user:" ++ num_to_string userID
     else js "user:" ++ opt_or_else (username row) (js "unknown"))
    (opt_or_else (username row)
       (if positive userID then js "user-" ++ num_to_string userID else js "Unknown User"))
    kind_user.

Definition nodeNameNode (row : FlowQuotaDataItem) : FlowPathNode :=
  let nodeName := opt_or_else (node_name row) (js "default-node") in
  mkPathNode (js "node:" ++ nodeName) nodeName kind_node.

Definition deletedTokenLabel (tokenID : jsnum) (ctx : FlowPathContext) : jstr :=
  if num_leb tokenID zero then js "Unknown Token"
  else match ctx_deletedTokenLabel ctx with
       | Some f => f tokenID
       | None => js "token-" ++ num_to_string tokenID
       end.

Definition tokenNode (row : FlowQuotaDataItem) (ctx : FlowPathContext) : FlowPathNode :=
  let tokenID := numberValue (token_id row) in
  mkPathNode
    (if positive tokenID then js "token:" ++ num_to_string tokenID
     else js "token:" ++ opt_or_else (token_name row) (js "unknown"))
    (opt_or_else (token_name row) (deletedTokenLabel tokenID ctx)) kind_token.

Definition groupNode (row : FlowQuotaDataItem) : FlowPathNode :=
  let useGroup := opt_or_else (use_group row) (js "unknown") in
  mkPathNode (js "group:" ++ useGroup) useGroup kind_group.

Definition modelNode (row : FlowQuotaDataItem) : FlowPathNode :=
  mkPathNode (js "model:" ++ opt_or_else (model_name row) (js "unknown"))
    (opt_or_else (model_name row) (js "Unknown Model")) kind_model.

Definition channelNode (row : FlowQuotaDataItem) : FlowPathNode :=
  let channelID := numberValue (channel_id row) in
  mkPathNode
    (if positive channelID then js "channel:" ++ num_to_string channelID
     else js "channel:" ++ opt_or_else (channel_name row) (js "unknown"))
    (opt_or_else (channel_name row)
       (if positive channelID then js "channel-" ++ num_to_string channelID else js "Unknown"))
    kind_channel.

Definition NODE_BUILDERS (k : FlowNodeKind) (row : FlowQuotaDataItem) (ctx : FlowPathContext) : FlowPathNode :=
  match k with
  | kind_user => userNode row | kind_node => nodeNameNode row | kind_token => tokenNode row ctx
  | kind_group => groupNode row | kind_model => modelNode row | kind_channel => channelNode row
  end.

Definition ROLE_FLOW_STAGES (r : FlowRole) : list FlowNodeKind :=
  match r with
  | role_root => [kind_user; kind_node; kind_token; kind_group; kind_model; kind_channel]
  | role_admin => [kind_user; kind_group; kind_model; kind_channel]
  | role_user => [kind_token; kind_group; kind_model]
  end.
Definition MIN_FLOW_STAGES : nat := 2.
Definition getFlowStages (r : FlowRole) : list FlowNodeKind := ROLE_FLOW_STAGES r.

Definition resolveVisibleStages (r : FlowRole) (visible : option (list FlowNodeKind)) : list FlowNodeKind :=
  let stages := getFlowStages r in
  match visible with
  | None => stages
  | Some visible =>
      let filtered := filter (λ stage, has stage visible = true) stages in
      if (MIN_FLOW_STAGES <=? length filtered)%nat then filtered else stages
  end.

Definition flowPathForStages (row : FlowQuotaDataItem) (stages : list FlowNodeKind)
    (ctx : FlowPathContext) : list FlowPathNode :=
  map (λ stage, NODE_BUILDERS stage row ctx) stages.

(** ** Filters *)

Definition filterRows (rows : list FlowQuotaDataItem) (selected : option (list jstr)) : list FlowQuotaDataItem :=
  match default [] selected with
  | [] => rows
  | sel => filter (λ row, has (id (userNode row)) sel = true) rows
  end.

Definition nodeFilterKey (k : FlowNodeKind) (i : jstr) : jstr := kind_text k ++ [0%N] ++ i.

Definition normalizeSelectedNodeFilters (selected : option (list FlowNodeFilter))
    (stages : list FlowNodeKind) : list (FlowNodeKind * list jstr) :=
  foldl (λ filters f,
    if has (filter_kind f) stages
    then mupdate (filter_kind f) (λ old, let ids := default [] old in
           if has (filter_id f) ids then ids else ids ++ [filter_id f]) filters
    else filters) [] (default [] selected).

Definition pathMatchesNodeFilters (p : list FlowPathNode)
    (filters : list (FlowNodeKind * list jstr)) : bool :=
  forallb (λ '(k, selectedIds),
    let pathIds := map id (filter (λ n, kind n = k) p) in
    existsb (λ i, has i pathIds) selectedIds) filters.

Definition filterRowsByNodes (rows : list FlowQuotaDataItem) (selected : option (list FlowNodeFilter))
    (stages : list FlowNodeKind) (ctx : FlowPathContext) : list FlowQuotaDataItem :=
  match normalizeSelectedNodeFilters selected stages with
  | [] => rows
  | filters => filter (λ row, pathMatchesNodeFilters (flowPathForStages row stages ctx) filters = true) rows
  end.

Definition selectedNodeFiltersExceptKind (selected : option (list FlowNodeFilter)) (k : FlowNodeKind)
    : option (list FlowNodeFilter) :=
  match filter (λ f, filter_kind f ≠ k) (default [] selected) with
  | [] => None
  | filtered => Some filtered
  end.

Definition buildSummary (rows : list FlowQuotaDataItem) : FlowSummary :=
  foldl (λ s row, let m := rowMetrics row in
    mkSummary (num_add (s_quota s) (m_quota m)) (num_add (s_tokens s) (m_tokens m))
      (num_add (s_requests s) (m_requests m))) (mkSummary zero zero zero) rows.

Definition normalizeTopNodeLimit (limit : option jsnum) : option Z :=
  l ← limit; parsed ← num_floor l; if 0 <? parsed then Some parsed else None.

Definition otherFlowNode (k : FlowNodeKind) (labeler : option (FlowNodeKind → jstr)) : FlowPathNode :=
  mkPathNode (OTHER_FLOW_NODE_IDS k)
    (match labeler with Some f => f k | None => DEFAULT_OTHER_FLOW_NODE_LABELS k end) k.

(** *** Links *)

Definition pathLinkKey (source target : jstr) : jstr := source ++ [0%N] ++ target.
Definition linkStableKey (l : DashboardFlowLink) : jstr := pathLinkKey (l_source l) (l_target l).

(** The consecutive pairs of a path. *)
Fixpoint steps (p : list FlowPathNode) : list (FlowPathNode * FlowPathNode) :=
  match p with
  | a :: (b :: _) as rest => (a, b) :: steps rest
  | _ => []
  end.

Section chart.
(** [a.localeCompare(b)]; [Intl.NumberFormat(...).format]; the schemes of the
    chart library, each with the number of colors it is meant for. *)
Context (localeCompare : jstr → jstr → Z) (formatNumber : jsnum → jstr)
  (dataScheme : list (option Z * list (option jstr))).

(** ** Colors *)

Definition getDashboardChartColors (domainLength : Z) : list jstr :=
  let fits '(max, _) :=
    match max with Some m => (m =? 0) || (domainLength <=? m) | None => true end in
  let scheme := match find fits dataScheme with
                | Some s => s.2
                | None => from_option snd [] (list.last dataScheme)
                end in
  omap (λ color, color) scheme.

Definition colorAt (index : nat) (palette : option (list jstr)) : jstr :=
  let colors := match palette with
                | Some (c :: cs) => c :: cs
                | _ => getDashboardChartColors (Z.of_nat index + 1)
                end in
  match colors with
  | [] => DEFAULT_FLOW_CHART_COLOR
  | _ => default DEFAULT_FLOW_CHART_COLOR (colors !! (index mod length colors)%nat)
  end.

Definition colorPalette (colorCount : nat) (palette : option (list jstr)) : list jstr :=
  match palette with
  | Some (c :: cs) => c :: cs
  | _ => match getDashboardChartColors (Z.of_nat colorCount) with
         | [] => [DEFAULT_FLOW_CHART_COLOR]
         | colors => colors
         end
  end.

(** A hexadecimal digit of either case. *)
Definition hex_any (c : N) : option N :=
  match hex_value c with
  | Some n => Some n
  | None => if ((65 <=? c) && (c <=? 70))%N then Some (c - 55)%N else None
  end.

Definition alphaColor (color : jstr) (alpha : jsnum) : jstr * jsnum :=
  let normalized := trim color in
  let hex := if startsWith normalized (js "#") then drop 1 normalized else normalized in
  match mapM hex_any hex with
  | Some [a; b; c; d; e; f] =>
      let value := Z.of_N (((((a * 16 + b) * 16 + c) * 16 + d) * 16 + e) * 16 + f) in
      let red := Z.land (Z.shiftr value 16) 255 in
      let green := Z.land (Z.shiftr value 8) 255 in
      let blue := Z.land value 255 in
      (js "rgba(" ++ digits_Z red ++ js ", " ++ digits_Z green ++ js ", " ++ digits_Z blue ++ js ", "
       ++ toFixed 2 alpha ++ js ")", num_of_Z 1)
  | _ => (normalized, alpha)
  end.

Definition stableColorMap (keys : list jstr) (palette : option (list jstr)) : list (jstr * jstr) :=
  let uniqueKeys := dedup keys in
  let colors := colorPalette (length uniqueKeys) palette in
  imap (λ index key, (key, colorAt index (Some colors))) uniqueKeys.

(** ** Accumulating nodes and links *)

Definition addNode (pathNode : FlowPathNode) (m : FlowMetrics) (metric : FlowMetric)
    (color colorKey : jstr) (map : list (jstr * DashboardFlowNode)) : list (jstr * DashboardFlowNode) :=
  mupdate (id pathNode) (λ previous,
    let p := default (mkNode (id pathNode) (label pathNode) (kind pathNode) zero zero zero zero
                        color colorKey None None) previous in
    mkNode (n_id p) (n_label p) (n_kind p) (num_add (n_value p) (metricValue m metric))
      (num_add (n_requests p) (m_requests m)) (num_add (n_quota p) (m_quota m))
      (num_add (n_tokens p) (m_tokens m)) (n_color p) (n_colorKey p)
      (n_highlighted p) (n_dimmed p)) map.

Definition addLink (source target : FlowPathNode) (m : FlowMetrics) (metric : FlowMetric)
    (color colorKey : jstr) (map : list (jstr * DashboardFlowLink)) : list (jstr * DashboardFlowLink) :=
  mupdate (pathLinkKey (id source) (id target)) (λ previous,
    let p := default (mkLink (id source) (id target) zero zero zero zero (label source) (label target)
                        color color (num_of_Z 1) color colorKey zero None None) previous in
    mkLink (l_source p) (l_target p) (num_add (l_value p) (metricValue m metric))
      (num_add (l_requests p) (m_requests m)) (num_add (l_quota p) (m_quota m))
      (num_add (l_tokens p) (m_tokens m)) (sourceLabel p) (targetLabel p) (l_color p) (linkColor p)
      (linkAlpha p) (hoverColor p) (l_colorKey p) (share p) (l_highlighted p) (l_dimmed p)) map.

Definition with_display (l : DashboardFlowLink) (c : jstr) (alpha : jsnum) : DashboardFlowLink :=
  mkLink (l_source l) (l_target l) (l_value l) (l_requests l) (l_quota l) (l_tokens l)
    (sourceLabel l) (targetLabel l) (l_color l) c alpha (l_color l) (l_colorKey l) (share l)
    (l_highlighted l) (l_dimmed l).

(** The links of one source by value; the rank of a link is its place there. *)
Definition sourceLinks (ls : list DashboardFlowLink) (source : jstr) : list DashboardFlowLink :=
  sort_by (λ a b, then_by (num_sign (l_value b) (l_value a))
                    (localeCompare (linkStableKey a) (linkStableKey b)))
    (filter (λ l, l_source l = source) ls).

Definition link_alpha (count index : nat) : jsnum :=
  if (count =? 1)%nat then num_of_dec false 34 (-2)
  else num_add (num_of_dec false 24 (-2))
         (num_mul (num_div (num_of_Z (Z.of_nat index)) (num_of_Z (Z.max (Z.of_nat count - 1) 1)))
            (num_of_dec false 2 (-1))).

Definition assignLinkDisplayColors (ls : list DashboardFlowLink) : list DashboardFlowLink :=
  map (λ l,
    let sortedLinks := sourceLinks ls (l_source l) in
    match list_find (λ k, linkStableKey k = linkStableKey l) sortedLinks with
    | Some (index, _) =>
        let '(c, a) := alphaColor (l_color l) (link_alpha (length sortedLinks) index) in
        with_display l c a
    | None => l
    end) ls.

Definition byValueThenLabel (a b : DashboardFlowNode) : Z :=
  then_by (num_sign (n_value b) (n_value a)) (localeCompare (n_label a) (n_label b)).

(** [Number(flag)] of a flag that may be missing: missing flags have no number. *)
Definition flag_diff (a b : option bool) : Z :=
  match a, b with Some a, Some b => Z.b2z a - Z.b2z b | _, _ => 0 end.
Definition byLinkDrawPriority (a b : DashboardFlowLink) : Z :=
  then_by (flag_diff (l_dimmed a) (l_dimmed b))
    (then_by (flag_diff (l_highlighted b) (l_highlighted a))
       (then_by (num_sign (l_value b) (l_value a))
          (localeCompare (linkStableKey a) (linkStableKey b)))).

(** ** The limit on the nodes of a stage *)

Definition add_rank (value : jsnum) (totals : list (FlowNodeKind * list (jstr * FlowNodeRank)))
    (node : FlowPathNode) : list (FlowNodeKind * list (jstr * FlowNodeRank)) :=
  match mget (kind node) totals with
  | None => totals
  | Some stageTotals =>
      mset (kind node)
        (mupdate (id node) (λ current,
           let c := default (mkRank node zero) current in
           mkRank (rank_node c) (num_add (rank_value c) value)) stageTotals) totals
  end.

Definition rank_order (a b : FlowNodeRank) : Z :=
  then_by (num_sign (rank_value b) (rank_value a))
    (then_by (localeCompare (label (rank_node a)) (label (rank_node b)))
       (localeCompare (id (rank_node a)) (id (rank_node b)))).

Definition stage_totals (rows : list FlowQuotaDataItem) (metric : FlowMetric)
    (stages : list FlowNodeKind) (ctx : FlowPathContext)
    : list (FlowNodeKind * list (jstr * FlowNodeRank)) :=
  foldl (λ totals row,
    foldl (add_rank (metricValue (rowMetrics row) metric)) totals (flowPathForStages row stages ctx))
    (foldl (λ totals stage, mset stage [] totals) [] stages) rows.

Definition buildTopNodeSets (rows : list FlowQuotaDataItem) (metric : FlowMetric)
    (stages : list FlowNodeKind) (limit : option Z) (ctx : FlowPathContext)
    : option (list (FlowNodeKind * list jstr)) :=
  limit ← limit;
  Some (map (λ '(k, stageTotals),
          (k, map (λ r, id (rank_node r)) (take (Z.to_nat limit) (sort_by rank_order (stageTotals.*2)))))
        (stage_totals rows metric stages ctx)).

Definition isTopFlowNode (node : FlowPathNode) (topNodeSets : option (list (FlowNodeKind * list jstr))) : bool :=
  match topNodeSets ≫= mget (kind node) with
  | None => true
  | Some topNodes => has (id node) topNodes
  end.

Definition applyTopNodeLimit (p : list FlowPathNode) (topNodeSets : option (list (FlowNodeKind * list jstr)))
    (mode : FlowOverflowMode) (labeler : option (FlowNodeKind → jstr)) : option (list FlowPathNode) :=
  match topNodeSets with
  | None => Some p
  | Some _ =>
      if negb (existsb (λ n, negb (isTopFlowNode n topNodeSets)) p) then Some p
      else match mode with
           | hide => None
           | aggregate =>
               Some (map (λ n, if isTopFlowNode n topNodeSets then n else otherFlowNode (kind n) labeler) p)
           end
  end.

(** ** Highlights and masks *)

Definition pathContainsFlowNode (p : list FlowPathNode) (f : FlowNodeFilter) : bool :=
  existsb (λ n, bool_decide (kind n = filter_kind f) && (id n === filter_id f)) p.
Definition pathContainsFlowLink (p : list FlowPathNode) (l : FlowLinkSelection) : bool :=
  existsb (λ '(a, b), (id a === sel_source l) && (id b === sel_target l)) (steps p).

Definition buildFlowHighlightSets (prepared : list PreparedFlowPath) (active : option FlowNodeFilter)
    (link : option FlowLinkSelection) (stages : list FlowNodeKind) : option FlowHighlightSets :=
  let nodeActive := from_option (λ f, has (filter_kind f) stages) false active in
  if negb nodeActive && negb (bool_decide (is_Some link)) then None
  else
    let matchesPath p :=
      match link with
      | Some l => pathContainsFlowLink p l
      | None => from_option (pathContainsFlowNode p) false active
      end in
    let matching := filter (λ q, matchesPath (path q) = true) prepared in
    match dedup (concat (map (λ q, map id (path q)) matching)) with
    | [] => None
    | hn => Some (mkHighlights hn
              (dedup (concat (map (λ q, map (λ '(a, b), pathLinkKey (id a) (id b)) (steps (path q))) matching))))
    end.

Definition FLOW_MASK_TEXT : jstr := [8226; 8226; 8226; 8226]%N.
Definition maskFlowLabel (l : jstr) : jstr := match l with [] => l | _ => FLOW_MASK_TEXT end.

Definition with_label (n : DashboardFlowNode) (l : jstr) : DashboardFlowNode :=
  mkNode (n_id n) l (n_kind n) (n_value n) (n_requests n) (n_quota n) (n_tokens n) (n_color n)
    (n_colorKey n) (n_highlighted n) (n_dimmed n).
Definition with_labels (l : DashboardFlowLink) (a b : jstr) : DashboardFlowLink :=
  mkLink (l_source l) (l_target l) (l_value l) (l_requests l) (l_quota l) (l_tokens l) a b
    (l_color l) (linkColor l) (linkAlpha l) (hoverColor l) (l_colorKey l) (share l)
    (l_highlighted l) (l_dimmed l).

Definition is_masked (n : DashboardFlowNode) : bool :=
  has (n_kind n) SENSITIVE_FLOW_KINDS && negb (has (n_id n) OTHER_FLOW_NODE_ID_SET).

Definition maskFlowGraphLabels (ns : list (jstr * DashboardFlowNode)) (ls : list (jstr * DashboardFlowLink))
    : list (jstr * DashboardFlowNode) * list (jstr * DashboardFlowLink) :=
  let maskedById := foldl (λ acc n, if is_masked n then mset (n_id n) (maskFlowLabel (n_label n)) acc else acc)
                      [] (ns.*2) in
  (prod_map (λ k, k) (λ n, if is_masked n then with_label n (maskFlowLabel (n_label n)) else n) <$> ns,
   prod_map (λ k, k) (λ l, with_labels l (default (sourceLabel l) (mget (l_source l) maskedById))
                             (default (targetLabel l) (mget (l_target l) maskedById))) <$> ls).

Definition highlight_node (h : FlowHighlightSets) (n : DashboardFlowNode) : DashboardFlowNode :=
  let b := has (n_id n) (hl_nodes h) in
  mkNode (n_id n) (n_label n) (n_kind n) (n_value n) (n_requests n) (n_quota n) (n_tokens n)
    (n_color n) (n_colorKey n) (Some b) (Some (negb b)).
Definition highlight_link (h : FlowHighlightSets) (l : DashboardFlowLink) : DashboardFlowLink :=
  let b := has (linkStableKey l) (hl_links h) in
  mkLink (l_source l) (l_target l) (l_value l) (l_requests l) (l_quota l) (l_tokens l)
    (sourceLabel l) (targetLabel l) (l_color l) (linkColor l) (linkAlpha l) (hoverColor l)
    (l_colorKey l) (share l) (Some b) (Some (negb b)).

Definition applyFlowHighlights (ns : list DashboardFlowNode) (ls : list DashboardFlowLink)
    (sets : option FlowHighlightSets) : list DashboardFlowNode * list DashboardFlowLink :=
  match sets with
  | None => (ns, ls)
  | Some h => (map (highlight_node h) ns, map (highlight_link h) ls)
  end.

(** ** The graph *)

Definition preparePaths (rows : list FlowQuotaDataItem) (stages : list FlowNodeKind)
    (topNodeSets : option (list (FlowNodeKind * list jstr))) (mode : FlowOverflowMode)
    (labeler : option (FlowNodeKind → jstr)) (ctx : FlowPathContext) : list PreparedFlowPath :=
  omap (λ row, p ← applyTopNodeLimit (flowPathForStages row stages ctx) topNodeSets mode labeler;
               Some (mkPrepared p (rowMetrics row))) rows.

(** The ids of the first nodes. *)
Definition firstIds (prepared : list PreparedFlowPath) : list jstr :=
  filter_truthy (omap (λ q, id <$> head (path q)) prepared).

Definition rootColor (prepared : list PreparedFlowPath) (palette : option (list jstr)) (root : jstr) : jstr :=
  default (colorAt 0 palette) (mget root (stableColorMap (sort_by localeCompare (firstIds prepared)) palette)).

Definition addPath (metric : FlowMetric) (color_of : jstr → jstr)
    (acc : list (jstr * DashboardFlowNode) * list (jstr * DashboardFlowLink)) (q : PreparedFlowPath)
    : list (jstr * DashboardFlowNode) * list (jstr * DashboardFlowLink) :=
  match path q with
  | [] => acc
  | root :: _ =>
      let color := color_of (id root) in
      (foldl (λ ns n, addNode n (metrics q) metric color (id root) ns) acc.1 (path q),
       foldl (λ ls '(a, b), addLink a b (metrics q) metric color (id root) ls) acc.2 (steps (path q)))
  end.

Definition addPaths (metric : FlowMetric) (color_of : jstr → jstr) (prepared : list PreparedFlowPath)
    : list (jstr * DashboardFlowNode) * list (jstr * DashboardFlowLink) :=
  foldl (addPath metric color_of) ([], []) prepared.

Definition with_share (total : jsnum) (l : DashboardFlowLink) : DashboardFlowLink :=
  mkLink (l_source l) (l_target l) (l_value l) (l_requests l) (l_quota l) (l_tokens l)
    (sourceLabel l) (targetLabel l) (l_color l) (linkColor l) (linkAlpha l) (hoverColor l)
    (l_colorKey l) (if num_ltb zero total then num_div (l_value l) total else zero)
    (l_highlighted l) (l_dimmed l).

Definition firstTotal (prepared : list PreparedFlowPath) (ls : list DashboardFlowLink) : jsnum :=
  foldl (λ sum l, num_add sum (l_value l)) zero
    (filter (λ l, has (l_source l) (firstIds prepared) = true) ls).

Definition buildFlowGraph (rows : list FlowQuotaDataItem) (metric : FlowMetric) (r : FlowRole)
    (palette : option (list jstr)) (visible : option (list FlowNodeKind)) (ctx : FlowPathContext)
    (options : FlowGraphOptions) : DashboardFlowGraph :=
  let stages := resolveVisibleStages r visible in
  let topNodeSets := buildTopNodeSets rows metric stages (normalizeTopNodeLimit (g_topNodeLimit options)) ctx in
  let mode := default DEFAULT_FLOW_OVERFLOW_MODE (g_overflowMode options) in
  let prepared := preparePaths rows stages topNodeSets mode (g_otherNodeLabel options) ctx in
  let '(ns, ls) := addPaths metric (rootColor prepared palette) prepared in
  let '(ns, ls) := if g_maskSensitive options then maskFlowGraphLabels ns ls else (ns, ls) in
  let '(ns, ls) := applyFlowHighlights (ns.*2) (ls.*2)
                     (buildFlowHighlightSets prepared (g_activeNode options) (g_activeLink options) stages) in
  let flowLinks := sort_by (λ a b, then_by (localeCompare (l_source a) (l_source b))
                                     (localeCompare (l_target a) (l_target b))) ls in
  let total := firstTotal prepared flowLinks in
  mkGraph (sort_by byValueThenLabel ns) (assignLinkDisplayColors (map (with_share total) flowLinks)).

(** ** Filter options *)

Definition buildUserFilterOptions (rows : list FlowQuotaDataItem) (metric : FlowMetric)
    (palette : option (list jstr)) : list FlowUserFilterOption :=
  let colors := stableColorMap (sort_by localeCompare (map (λ row, id (userNode row)) rows)) palette in
  let users := foldl (λ users row,
    let user := userNode row in
    if negb (from_option num_truthy false (user_id row)) && negb (truthy_opt (username row)) then users
    else mupdate (id user) (λ current,
           let '(l, v, c) := default (label user, zero, default (colorAt 0 palette) (mget (id user) colors)) current in
           (l, num_add v (metricValue (rowMetrics row) metric), c)) users) [] rows in
  sort_by (λ a b, then_by (num_sign (u_valueRaw b) (u_valueRaw a)) (localeCompare (u_label a) (u_label b)))
    (map (λ '(value, (l, v, c)), mkUserOption value l (formatNumber v) v c) users).

(** The totals of one stage over the rows that the filters of the other stages
    leave. *)
Definition node_option_totals (rows : list FlowQuotaDataItem) (metric : FlowMetric) (stage : FlowNodeKind)
    (ctx : FlowPathContext) : list (jstr * FlowNodeRank) :=
  foldl (λ totals row,
    let node := NODE_BUILDERS stage row ctx in
    mupdate (nodeFilterKey (kind node) (id node)) (λ current,
      let c := default (mkRank node zero) current in
      mkRank (rank_node c) (num_add (rank_value c) (metricValue (rowMetrics row) metric))) totals) [] rows.

Definition stage_index (stages : list FlowNodeKind) (k : FlowNodeKind) : Z :=
  from_option (λ '(i, _), Z.of_nat i) 0 (list_find (k =.) stages).

Definition buildNodeFilterOptions (rows : list FlowQuotaDataItem) (metric : FlowMetric) (r : FlowRole)
    (visible : option (list FlowNodeKind)) (palette : option (list jstr)) (ctx : FlowPathContext)
    (selected : option (list FlowNodeFilter)) : list FlowNodeFilterOption :=
  let stages := resolveVisibleStages r visible in
  let colorIds := dedup (concat (map (λ row, map id (flowPathForStages row stages ctx)) rows)) in
  let colors := stableColorMap (sort_by localeCompare colorIds) palette in
  let options := concat (map (λ stage,
    let candidateRows := filterRowsByNodes rows (selectedNodeFiltersExceptKind selected stage) stages ctx in
    map (λ rank, mkNodeOption (kind (rank_node rank)) (id (rank_node rank)) (label (rank_node rank))
                   (formatNumber (rank_value rank)) (rank_value rank)
                   (default (colorAt 0 palette) (mget (id (rank_node rank)) colors)))
      ((node_option_totals candidateRows metric stage ctx).*2)) stages) in
  sort_by (λ a b,
    then_by (stage_index stages (o_kind a) - stage_index stages (o_kind b))
      (then_by (num_sign (o_valueRaw b) (o_valueRaw a))
         (then_by (localeCompare (o_label a) (o_label b)) (localeCompare (o_value a) (o_value b))))) options.

Definition buildFlowFilterOptions (rows : list FlowQuotaDataItem) (metric : FlowMetric)
    (palette : option (list jstr)) (r : FlowRole) (visible : option (list FlowNodeKind))
    (selected : option (list FlowNodeFilter)) : FlowFilterOptions :=
  mkFilterOptions (buildUserFilterOptions rows metric palette)
    (buildNodeFilterOptions rows metric r visible palette EMPTY_FLOW_PATH_CONTEXT selected).

Definition buildDashboardFlowData (rows : list FlowQuotaDataItem) (metric : FlowMetric)
    (options : FlowBuildOptions) : ProcessedFlowData :=
  let r := default DEFAULT_FLOW_ROLE (role options) in
  let palette := opt_colorPalette options in
  let ctx := mkContext (deletedTokenLabel_ options) in
  let stages := resolveVisibleStages r (visibleStages options) in
  let userFilteredRows := filterRows rows (selectedUsers options) in
  let filteredRows := filterRowsByNodes userFilteredRows (selectedNodes options) stages ctx in
  mkProcessed (buildSummary filteredRows)
    (buildFlowGraph filteredRows metric r palette (visibleStages options) ctx
       (mkGraphOptions (topNodeLimit options) (overflowMode options) (otherNodeLabel options)
          (activeNode options) (activeLink options) (maskSensitive options)))
    (mkFilterOptions (buildUserFilterOptions rows metric palette)
       (buildNodeFilterOptions userFilteredRows metric r (visibleStages options) palette ctx
          (selectedNodes options))).

(** ** Chart data *)

(** The drawn links of [buildFlowSankeySpec], each with its z-index. *)
Definition sankeyLinks (flow : DashboardFlowGraph) : list (DashboardFlowLink * Z) :=
  imap (λ index l,
    (l, if default false (l_highlighted l) then 1000000 + Z.of_nat index
        else if default false (l_dimmed l) then Z.of_nat index else 100000 + Z.of_nat index))
    (sort_by byLinkDrawPriority (filter (λ l, num_ltb zero (l_value l) = true) (links flow))).
End chart.

(** ** What the chart reports back *)

Definition recordValue (value : option json) : option json :=
  match value with Some (JArr l) => Some (JArr l) | Some (JObj o) => Some (JObj o) | _ => None end.

(** An element of an array at an index that is a number. *)
Definition array_at (items : list json) (depth : jsnum) : option json :=
  if isInteger depth && negb (num_ltb depth zero)
  then num_floor depth ≫= λ i, items !! Z.to_nat i else None.

Definition sankeyDatumSource (datum : json) : json :=
  match jget (js "datum") datum with
  | Some (JArr nested) =>
      let n := from_option Number_json S754_nan (jget (js "depth") datum) in
      let depth := if isFinite n then n else zero in
      match recordValue (array_at nested depth) with
      | Some v => v
      | None => default datum (recordValue (nested !! 0%nat))
      end
  | nested => default datum (recordValue nested)
  end.

Definition sankeyDatumValue (datum : json) (key : jstr) : option json :=
  match jget key datum with
  | Some v => Some v
  | None => jget key (sankeyDatumSource datum)
  end.
Definition sankeyDatumFlag (datum : json) (key : jstr) : bool :=
  match sankeyDatumValue datum key with Some (JBool true) => true | _ => false end.
Definition flowSankeyDatumValue (datum : option json) (key : jstr) : option json :=
  record ← recordValue datum; sankeyDatumValue record key.
Definition isSankeyLinkDatum (datum : json) : bool :=
  bool_decide (is_Some (sankeyDatumValue datum (js "source")))
  && bool_decide (is_Some (sankeyDatumValue datum (js "target"))).

Definition flowNodeFilterFromSankeyDatum (datum : option json) : option FlowNodeFilter :=
  record ← recordValue datum;
  if isSankeyLinkDatum record then None
  else
    k ← isFlowNodeKind (flowSankeyDatumValue (Some record) (js "kind"));
    match flowSankeyDatumValue (Some record) (js "key") with
    | Some (JStr s) => Some (mkFilter k s)
    | Some (JNum n) => Some (mkFilter k (num_to_string n))
    | _ => None
    end.

End DashboardFlow.
