(* ===== verification/DashboardFlowFacts.v ===== *)
(** * Properties of the flow chart

    Every node and link carries the sum of the rows that run through it; flow is
    conserved at every inner node and the first stage carries the whole total;
    the limit bounds the nodes of a stage; masking changes nothing but labels
    and leaves no sensitive label; the filters keep exactly the matching rows. *)

From stdpp Require Import sorting.
From S2P Require Import Prelude StableSort JsValue NumFacts JsCollections Regex BillingExpr StringFacts DashboardFlow.
Import DashboardFlow.

(** ** Sums *)

Fixpoint zsum {A} (f : A → Z) (l : list A) : Z :=
  match l with [] => 0 | x :: rest => f x + zsum f rest end.

Section sums.
Context {A B : Type}.
Implicit Types (f g : A → Z) (l : list A).

Lemma zsum_app f l l' : zsum f (l ++ l') = zsum f l + zsum f l'.
Proof. induction l as [|x l IH]; simpl; lia. Qed.

Lemma zsum_perm f l l' : l ≡ₚ l' → zsum f l = zsum f l'.
Proof. induction 1; simpl; lia. Qed.

Lemma zsum_ext f g l : (∀ x, x ∈ l → f x = g x) → zsum f l = zsum g l.
Proof.
  induction l as [|x l IH]; intros H; simpl; [done|]. rewrite (H x), IH; [done|set_solver|set_solver].
Qed.

Lemma zsum_filter f (P : A → Prop) `{!∀ x, Decision (P x)} l :
  zsum f (filter P l) = zsum (λ x, if decide (P x) then f x else 0) l.
Proof.
  induction l as [|x l IH]; [done|]. rewrite filter_cons. cbn [zsum]. destruct (decide (P x)); simpl; lia.
Qed.

Lemma zsum_swap (h : A → B → Z) l (k : list B) :
  zsum (λ x, zsum (h x) k) l = zsum (λ y, zsum (λ x, h x y) l) k.
Proof.
  induction l as [|x l IH]; simpl.
  - induction k as [|y k IHk]; simpl; lia.
  - rewrite IH. clear IH. induction k as [|y k IHk]; simpl; lia.
Qed.

Lemma zsum_nonneg f l : (∀ x, x ∈ l → 0 ≤ f x) → 0 ≤ zsum f l.
Proof.
  induction l as [|x l IH]; intros H; simpl; [done|]. pose proof (H x ltac:(set_solver)).
  pose proof (IH ltac:(set_solver)). lia.
Qed.

Lemma zsum_zero f l : (∀ x, x ∈ l → f x = 0) → zsum f l = 0.
Proof.
  induction l as [|x l IH]; intros H; simpl; [done|]. rewrite (H x), IH; [done|set_solver|set_solver].
Qed.

(** At most one element counts. *)
Lemma zsum_single f (x0 : A) l :
  NoDup l → x0 ∈ l → (∀ x, x ∈ l → x ≠ x0 → f x = 0) → zsum f l = f x0.
Proof.
  induction l as [|x l IH]; intros Hnd Hin H0; [by apply elem_of_nil in Hin|].
  apply list.NoDup_cons in Hnd as [Hx Hnd]. cbn [zsum]. apply elem_of_cons in Hin as [->|Hin].
  - rewrite zsum_zero; [lia|]. intros y Hy. apply H0; [set_solver|]. by intros ->.
  - rewrite (H0 x), IH; [lia|done|done|set_solver|set_solver|]. by intros ->.
Qed.

Lemma zsum_sublist f (P : A → Prop) `{!∀ x, Decision (P x)} l :
  (∀ x, x ∈ l → 0 ≤ f x) → zsum f (filter P l) ≤ zsum f l.
Proof.
  rewrite zsum_filter. induction l as [|x l IH]; intros Hf; cbn [zsum]; [done|].
  pose proof (Hf x ltac:(set_solver)). pose proof (IH ltac:(set_solver)). destruct (decide (P x)); lia.
Qed.
End sums.

Lemma zsum_map {A B} (g : A → B) (f : B → Z) l : zsum f (map g l) = zsum (λ x, f (g x)) l.
Proof. induction l as [|x l IH]; simpl; lia. Qed.

(** Adding integers up in doubles. *)
Lemma float_sum {A} (v : A → jsnum) (w : A → Z) l acc :
  (∀ x, x ∈ l → v x = num_of_Z (w x) ∧ 0 ≤ w x) → 0 ≤ acc → acc + zsum w l ≤ 2 ^ 53 →
  foldl (λ s x, num_add s (v x)) (num_of_Z acc) l = num_of_Z (acc + zsum w l).
Proof.
  revert acc. induction l as [|x l IH]; intros acc H Ha Hb; cbn [foldl zsum] in *; [by rewrite Z.add_0_r|].
  destruct (H x) as [Hv Hw]; [set_solver|].
  assert (0 ≤ zsum w l) by (apply zsum_nonneg; intros y Hy; apply H; set_solver).
  rewrite Hv, num_add_exact by lia. rewrite IH; [f_equal; lia|set_solver|lia|lia].
Qed.

(** ** Accumulated paths *)

Definition ids (q : PreparedFlowPath) : list jstr := map id (path q).
Definition step_keys (q : PreparedFlowPath) : list jstr :=
  map (λ '(a, b), pathLinkKey (id a) (id b)) (steps (path q)).

(** Paths as the chart builds them: no id twice, no NUL in an id. *)
Definition proper_path (q : PreparedFlowPath) : Prop :=
  NoDup (ids q) ∧ Forall (λ i, 0%N ∉ i) (ids q).

Definition node_value (i : jstr) (ns : list (jstr * DashboardFlowNode)) : jsnum :=
  from_option n_value zero (mget i ns).
Definition link_value (k : jstr) (ls : list (jstr * DashboardFlowLink)) : jsnum :=
  from_option l_value zero (mget k ls).

Lemma key_inj a b a' b' : 0%N ∉ a → 0%N ∉ a' → pathLinkKey a b = pathLinkKey a' b' → a = a' ∧ b = b'.
Proof.
  unfold pathLinkKey. cbn [app]. revert a'. induction a as [|c a IH]; intros [|c' a'] Ha Ha' Heq; cbn [app] in Heq.
  - by injection Heq as ->.
  - injection Heq as <- _. set_solver.
  - injection Heq as -> _. set_solver.
  - injection Heq as -> Heq. destruct (IH a') as [-> ->]; [set_solver|set_solver|done|done].
Qed.

Lemma steps_fst p : (λ s, id s.1) <$> steps p = removelast (map id p).
Proof.
  induction p as [|a [|b p] IH]; [done|done|].
  change (steps (a :: b :: p)) with ((a, b) :: steps (b :: p)). rewrite fmap_cons, IH. done.
Qed.
Lemma steps_snd p : (λ s, id s.2) <$> steps p = drop 1 (map id p).
Proof.
  induction p as [|a [|b p] IH]; [done|done|].
  change (steps (a :: b :: p)) with ((a, b) :: steps (b :: p)). rewrite fmap_cons, IH.
  cbn [map drop fst snd]. by rewrite drop_0.
Qed.

Lemma removelast_sublist {A} (l : list A) : removelast l `sublist_of` l.
Proof.
  induction l as [|x [|y l] IH]; [done|by apply sublist_cons|].
  change (removelast (x :: y :: l)) with (x :: removelast (y :: l)). by apply sublist_skip.
Qed.

Lemma step_elem p a b : (a, b) ∈ steps p → id a ∈ map id p ∧ id b ∈ map id p.
Proof.
  intros H. split.
  - apply (list_elem_of_fmap_2 (λ s, id s.1)) in H. rewrite steps_fst in H.
    eapply elem_of_submseteq; [exact H|]. apply sublist_submseteq, removelast_sublist.
  - apply (list_elem_of_fmap_2 (λ s, id s.2)) in H. rewrite steps_snd in H.
    rewrite <-(take_drop 1 (map id p)). set_solver.
Qed.

(** A step is determined by its source, or by its target. *)
Lemma step_source_unique p a b a' b' :
  NoDup (map id p) → (a, b) ∈ steps p → (a', b') ∈ steps p → id a = id a' → (a, b) = (a', b').
Proof.
  intros Hnd H H' Heq. apply list_elem_of_lookup in H as [i Hi], H' as [j Hj].
  assert (NoDup ((λ s, id s.1) <$> steps p)) as Hn.
  { rewrite steps_fst. eapply sublist_NoDup; [done|apply removelast_sublist]. }
  assert (i = j) as ->; [|congruence].
  eapply NoDup_lookup; [exact Hn|..]; rewrite list_lookup_fmap; [by rewrite Hi|rewrite Hj; cbn; congruence].
Qed.
Lemma step_target_unique p a b a' b' :
  NoDup (map id p) → (a, b) ∈ steps p → (a', b') ∈ steps p → id b = id b' → (a, b) = (a', b').
Proof.
  intros Hnd H H' Heq. apply list_elem_of_lookup in H as [i Hi], H' as [j Hj].
  assert (NoDup ((λ s, id s.2) <$> steps p)) as Hn.
  { rewrite steps_snd. rewrite <-(take_drop 1 (map id p)) in Hnd. by apply list.NoDup_app in Hnd as (_ & _ & ?). }
  assert (i = j) as ->; [|congruence].
  eapply NoDup_lookup; [exact Hn|..]; rewrite list_lookup_fmap; [by rewrite Hi|rewrite Hj; cbn; congruence].
Qed.

Lemma step_keys_NoDup q : proper_path q → NoDup (step_keys q).
Proof.
  intros [Hnd Hz]. unfold step_keys, ids in *. rewrite list.Forall_forall in Hz.
  apply NoDup_alt. intros i j k Hi Hj.
  rewrite list_lookup_fmap in Hi, Hj. apply fmap_Some in Hi as ([a b] & Hi & ->), Hj as ([a' b'] & Hj & Heq).
  pose proof (list_elem_of_lookup_2 _ _ _ Hi) as Ei. pose proof (list_elem_of_lookup_2 _ _ _ Hj) as Ej.
  apply key_inj in Heq as [Heq _]; [|apply Hz, (step_elem _ _ _ Ei)|apply Hz, (step_elem _ _ _ Ej)].
  assert ((a, b) = (a', b')) as E by by eapply step_source_unique.
  assert (NoDup (steps (path q))) as Hs.
  { apply (NoDup_fmap_1 (λ s, id s.1)). rewrite steps_fst. eapply sublist_NoDup; [done|apply removelast_sublist]. }
  eapply NoDup_lookup; [exact Hs|exact Hi|]. by rewrite E.
Qed.

(** *** One path *)

Lemma addNode_value i n m metric c ck ns :
  node_value i (addNode n m metric c ck ns)
  = if decide (id n = i) then num_add (node_value i ns) (metricValue m metric) else node_value i ns.
Proof.
  unfold node_value, addNode. rewrite mget_mupdate. destruct (decide (id n = i)) as [->|]; [|done].
  by destruct (mget i ns).
Qed.

Lemma addNodes_value i p m metric c ck ns :
  NoDup (map id p) →
  node_value i (foldl (λ ns n, addNode n m metric c ck ns) ns p)
  = if decide (i ∈ map id p) then num_add (node_value i ns) (metricValue m metric) else node_value i ns.
Proof.
  revert ns. induction p as [|n p IH]; intros ns Hnd; cbn [foldl map] in *.
  { by rewrite decide_False by (by intros ?%elem_of_nil). }
  apply list.NoDup_cons in Hnd as [Hn Hnd]. rewrite IH, addNode_value by done.
  destruct (decide (id n = i)) as [<-|Hne].
  - rewrite decide_False by done. by rewrite decide_True by set_solver.
  - destruct (decide (i ∈ map id p)) as [Hin|Hin]; [by rewrite decide_True by set_solver|].
    by rewrite decide_False by set_solver.
Qed.

Lemma addLink_value k a b m metric c ck ls :
  link_value k (addLink a b m metric c ck ls)
  = if decide (pathLinkKey (id a) (id b) = k) then num_add (link_value k ls) (metricValue m metric)
    else link_value k ls.
Proof.
  unfold link_value, addLink. rewrite mget_mupdate. destruct (decide _) as [<-|]; [|done].
  by destruct (mget _ ls).
Qed.

Lemma addLinks_value k st m metric c ck ls :
  NoDup (map (λ '(a, b), pathLinkKey (id a) (id b)) st) →
  link_value k (foldl (λ ls '(a, b), addLink a b m metric c ck ls) ls st)
  = if decide (k ∈ map (λ '(a, b), pathLinkKey (id a) (id b)) st)
    then num_add (link_value k ls) (metricValue m metric) else link_value k ls.
Proof.
  revert ls. induction st as [|[a b] st IH]; intros ls Hnd; cbn [foldl map] in *.
  { by rewrite decide_False by (by intros ?%elem_of_nil). }
  apply list.NoDup_cons in Hnd as [Hn Hnd]. rewrite IH, addLink_value by done.
  destruct (decide (pathLinkKey (id a) (id b) = k)) as [<-|Hne].
  - rewrite decide_False by done. by rewrite decide_True by set_solver.
  - destruct (decide (k ∈ map _ st)) as [Hin|Hin]; [by rewrite decide_True by set_solver|].
    by rewrite decide_False by set_solver.
Qed.

(** *** All paths *)

Section paths.
Context (metric : FlowMetric) (color_of : jstr → jstr).

Definition weight (q : PreparedFlowPath) : jsnum := metricValue (metrics q) metric.
Definition added (qs : list PreparedFlowPath) : jsnum := foldl (λ s q, num_add s (weight q)) zero qs.

Lemma addPaths_snoc qs q :
  addPaths metric color_of (qs ++ [q]) = addPath metric color_of (addPaths metric color_of qs) q.
Proof. unfold addPaths. by rewrite foldl_app. Qed.

Lemma added_snoc qs q : added (qs ++ [q]) = num_add (added qs) (weight q).
Proof. unfold added. by rewrite foldl_app. Qed.

Lemma addPath_values acc q i k :
  proper_path q →
  node_value i (addPath metric color_of acc q).1
  = (if decide (i ∈ ids q) then num_add (node_value i acc.1) (weight q) else node_value i acc.1) ∧
  link_value k (addPath metric color_of acc q).2
  = (if decide (k ∈ step_keys q) then num_add (link_value k acc.2) (weight q) else link_value k acc.2).
Proof.
  intros Hq. pose proof (step_keys_NoDup q Hq) as Hk. destruct Hq as [Hnd _].
  unfold addPath, ids, step_keys, weight in *. destruct (path q) as [|root p] eqn:Ep.
  - by rewrite !decide_False by (by intros ?%elem_of_nil).
  - cbn [fst snd]. by rewrite addNodes_value, addLinks_value.
Qed.

(** Every node carries the sum of the paths through it, every link the sum of
    the paths that take it; both in the order of the rows. *)
Lemma addPaths_values qs i k :
  Forall proper_path qs →
  node_value i (addPaths metric color_of qs).1 = added (filter (λ q, i ∈ ids q) qs) ∧
  link_value k (addPaths metric color_of qs).2 = added (filter (λ q, k ∈ step_keys q) qs).
Proof.
  induction qs as [|q qs IH] using rev_ind; [done|]. intros [Hqs [Hq _]%list.Forall_cons]%list.Forall_app.
  destruct (IH Hqs) as [IHn IHl]. rewrite addPaths_snoc.
  destruct (addPath_values (addPaths metric color_of qs) q i k Hq) as [-> ->].
  rewrite !list.filter_app, !filter_cons, !filter_nil. split.
  - destruct (decide (i ∈ ids q)); [by rewrite added_snoc, IHn|by rewrite app_nil_r].
  - destruct (decide (k ∈ step_keys q)); [by rewrite added_snoc, IHl|by rewrite app_nil_r].
Qed.
End paths.

(** *** The entries of the two maps *)

(** What a path adds, whatever its color. *)
Lemma addPath_maps metric color_of acc q :
  ∃ c ck, addPath metric color_of acc q
  = (foldl (λ ns n, addNode n (metrics q) metric c ck ns) acc.1 (path q),
     foldl (λ ls s, addLink s.1 s.2 (metrics q) metric c ck ls) acc.2 (steps (path q))).
Proof.
  unfold addPath. destruct (path q) as [|root p]; [exists [], []; by destruct acc|].
  exists (color_of (id root)), (id root). f_equal. generalize (acc.2). induction (steps (root :: p)) as [|[a b] st IH]; [done|].
  intros ls. cbn [foldl]. apply IH.
Qed.

Definition node_entry (qs : list PreparedFlowPath) (k : jstr) (n : DashboardFlowNode) : Prop :=
  n_id n = k ∧ ∃ q m, q ∈ qs ∧ m ∈ path q ∧ id m = k ∧ kind m = n_kind n ∧ label m = n_label n.
Definition link_entry (qs : list PreparedFlowPath) (k : jstr) (l : DashboardFlowLink) : Prop :=
  linkStableKey l = k ∧ ∃ q a b, q ∈ qs ∧ (a, b) ∈ steps (path q) ∧ l_source l = id a ∧ l_target l = id b.

Lemma exists_snoc {A} (P : A → Prop) l x :
  (∃ y, y ∈ l ∧ P y) ∨ P x ↔ ∃ y, y ∈ l ++ [x] ∧ P y.
Proof. setoid_rewrite elem_of_app. setoid_rewrite list_elem_of_singleton. naive_solver. Qed.

Lemma addPaths_entries metric color_of qs :
  let m := addPaths metric color_of qs in
  NoDup m.1.*1 ∧ NoDup m.2.*1 ∧
  (∀ k, k ∈ m.1.*1 ↔ ∃ q, q ∈ qs ∧ k ∈ ids q) ∧ (∀ k, k ∈ m.2.*1 ↔ ∃ q, q ∈ qs ∧ k ∈ step_keys q) ∧
  (∀ k n, mget k m.1 = Some n → node_entry qs k n) ∧ (∀ k l, mget k m.2 = Some l → link_entry qs k l).
Proof.
  cbv zeta. induction qs as [|q qs IH] using rev_ind.
  { cbn. split_and!; [constructor|constructor|set_solver..|done|done]. }
  destruct IH as (IH1 & IH2 & IH3 & IH4 & IH5 & IH6). rewrite addPaths_snoc.
  destruct (addPath_maps metric color_of (addPaths metric color_of qs) q) as (c & ck & ->). cbn [fst snd].
  unfold addNode, addLink. split_and!.
  - by apply updates_NoDup.
  - by apply (updates_NoDup (λ s : FlowPathNode * FlowPathNode, pathLinkKey (id s.1) (id s.2))).
  - intros k. rewrite updates_keys, IH3. apply (exists_snoc (λ q, k ∈ ids q)).
  - intros k. rewrite (updates_keys (λ s : FlowPathNode * FlowPathNode, pathLinkKey (id s.1) (id s.2))), IH4.
    assert (map (λ s : FlowPathNode * FlowPathNode, pathLinkKey (id s.1) (id s.2)) (steps (path q)) = step_keys q) as ->.
    { unfold step_keys. apply map_ext. by intros []. }
    apply (exists_snoc (λ q, k ∈ step_keys q)).
  - apply updates_inv.
    + intros n old Hn Hold. destruct old as [o|]; cbn [default from_option].
      * exact (Hold o eq_refl).
      * split; [done|]. exists q, n. split; [apply elem_of_app; right; by left|done].
    + intros k n (Hi & q' & m & Hq' & Hm & E)%IH5. split; [done|]. exists q', m. split; [apply elem_of_app; by left|exact (conj Hm E)].
  - apply (updates_inv (λ s : FlowPathNode * FlowPathNode, pathLinkKey (id s.1) (id s.2))).
    + intros [a b] old Hn Hold. destruct old as [o|]; cbn [default from_option fst snd] in *.
      * exact (Hold o eq_refl).
      * split; [done|]. exists q, a, b. split; [apply elem_of_app; right; by left|done].
    + intros k n (Hi & q' & a & b & Hq' & Hm & E)%IH6. split; [done|]. exists q', a, b. split; [apply elem_of_app; by left|exact (conj Hm E)].
Qed.

(** ** Conservation *)

Definition total_of (vs : list jsnum) : jsnum := foldl num_add zero vs.

(** The ids a path leaves, and the ids it arrives at. *)
Definition sources (q : PreparedFlowPath) : list jstr := (λ s, id s.1) <$> steps (path q).
Definition targets (q : PreparedFlowPath) : list jstr := (λ s, id s.2) <$> steps (path q).

Lemma step_key_elem q k :
  k ∈ step_keys q ↔ ∃ a b, (a, b) ∈ steps (path q) ∧ k = pathLinkKey (id a) (id b).
Proof.
  unfold step_keys. rewrite list_elem_of_fmap. split.
  - intros ([a b] & -> & H). by exists a, b.
  - intros (a & b & H & ->). by exists (a, b).
Qed.

Section conservation.
Context (metric : FlowMetric) (color_of : jstr → jstr) (qs : list PreparedFlowPath)
  (w : PreparedFlowPath → Z).
Context (Hproper : Forall proper_path qs)
  (Hw : ∀ q, q ∈ qs → weight metric q = num_of_Z (w q) ∧ 0 ≤ w q)
  (Hbound : zsum w qs ≤ 2 ^ 53).
Let ns := (addPaths metric color_of qs).1.
Let ls := (addPaths metric color_of qs).2.

Definition node_weight (i : jstr) : Z := zsum w (filter (λ q, i ∈ ids q) qs).
Definition link_weight (k : jstr) : Z := zsum w (filter (λ q, k ∈ step_keys q) qs).

Lemma part_bounds (P : PreparedFlowPath → Prop) `{!∀ q, Decision (P q)} :
  0 ≤ zsum w (filter P qs) ≤ 2 ^ 53.
Proof.
  split.
  - apply zsum_nonneg. intros q [_ Hq]%list_elem_of_filter. by apply Hw.
  - transitivity (zsum w qs); [|done]. apply zsum_sublist. intros q Hq. by apply Hw.
Qed.

Lemma added_part (P : PreparedFlowPath → Prop) `{!∀ q, Decision (P q)} :
  added metric (filter P qs) = num_of_Z (zsum w (filter P qs)).
Proof.
  pose proof (part_bounds P) as Hb. unfold added. change zero with (num_of_Z 0).
  rewrite (float_sum (weight metric) w); [done| |lia|lia].
  intros q [_ Hq]%list_elem_of_filter. by apply Hw.
Qed.

Lemma node_weight_value i n : mget i ns = Some n → n_value n = num_of_Z (node_weight i).
Proof.
  intros H. destruct (addPaths_values metric color_of qs i [] Hproper) as [Hv _].
  unfold node_value in Hv. fold ns in Hv. rewrite H in Hv. cbn [from_option] in Hv. rewrite Hv. apply added_part.
Qed.
Lemma link_weight_value k l : mget k ls = Some l → l_value l = num_of_Z (link_weight k).
Proof.
  intros H. destruct (addPaths_values metric color_of qs [] k Hproper) as [_ Hv].
  unfold link_value in Hv. fold ls in Hv. rewrite H in Hv. cbn [from_option] in Hv. rewrite Hv. apply added_part.
Qed.

(** The links as a list without repetitions, each with its key. *)
Lemma link_values : NoDup ls.*2 ∧ ∀ l, l ∈ ls.*2 → mget (linkStableKey l) ls = Some l.
Proof.
  destruct (addPaths_entries metric color_of qs) as (_ & Hnd & _ & _ & _ & He). fold ls in Hnd, He.
  apply keyed_values; [done|]. intros k l Hl. by apply (He k l).
Qed.
Lemma node_values : NoDup ns.*2 ∧ ∀ n, n ∈ ns.*2 → mget (n_id n) ns = Some n.
Proof.
  destruct (addPaths_entries metric color_of qs) as (Hnd & _ & _ & _ & He & _). fold ns in Hnd, He.
  apply keyed_values; [done|]. intros k n Hn. by apply (He k n).
Qed.

Lemma link_in l : l ∈ ls.*2 → mget (linkStableKey l) ls = Some l ∧ link_entry qs (linkStableKey l) l.
Proof.
  intros Hl. pose proof (proj2 link_values l Hl) as Hm. split; [done|]. by apply (addPaths_entries metric color_of qs).
Qed.

Lemma step_link q a b :
  q ∈ qs → (a, b) ∈ steps (path q) →
  ∃ l, l ∈ ls.*2 ∧ linkStableKey l = pathLinkKey (id a) (id b) ∧ l_source l = id a ∧ l_target l = id b.
Proof.
  intros Hq Hab. destruct (addPaths_entries metric color_of qs) as (_ & Hnd & _ & Hk & _ & He). fold ls in Hnd, Hk, He.
  assert (pathLinkKey (id a) (id b) ∈ ls.*1) as Hin.
  { apply Hk. exists q. split; [done|]. apply step_key_elem. by exists a, b. }
  apply mget_is_Some in Hin as [l Hl]. exists l. destruct (He _ _ Hl) as [Hkey (q' & a' & b' & Hq' & Hab' & Hs & Ht)].
  rewrite list.Forall_forall in Hproper. pose proof (Hproper q Hq) as [_ Hz]. pose proof (Hproper q' Hq') as [_ Hz'].
  rewrite list.Forall_forall in Hz, Hz'.
  unfold linkStableKey in Hkey. rewrite Hs, Ht in Hkey.
  pose proof (step_elem _ _ _ Hab) as [Ha _]. pose proof (step_elem _ _ _ Hab') as [Ha' _].
  apply key_inj in Hkey as [E1 E2]; [|by apply Hz'|by apply Hz].
  split_and!; [apply (mget_elem _ _ _ Hnd) in Hl; by apply (list_elem_of_fmap_2 snd) in Hl| |congruence|congruence].
  unfold linkStableKey. by rewrite Hs, Ht, E1, E2.
Qed.

(** A link and a path that takes it. *)
Lemma taken_step l q :
  l ∈ ls.*2 → q ∈ qs → linkStableKey l ∈ step_keys q →
  ∃ a b, (a, b) ∈ steps (path q) ∧ l_source l = id a ∧ l_target l = id b.
Proof.
  intros Hl Hq (a & b & Hab & Hk)%step_key_elem. exists a, b. split; [done|].
  destruct (link_in l Hl) as [_ [_ (q' & a' & b' & Hq' & Hab' & Hs & Ht)]].
  rewrite list.Forall_forall in Hproper. pose proof (Hproper q Hq) as [_ Hz]. pose proof (Hproper q' Hq') as [_ Hz'].
  rewrite list.Forall_forall in Hz, Hz'. unfold linkStableKey in Hk.
  pose proof (step_elem _ _ _ Hab) as [Ha _]. pose proof (step_elem _ _ _ Hab') as [Ha' _].
  apply key_inj in Hk as [E1 E2]; [done|rewrite Hs; by apply Hz'|by apply Hz].
Qed.

(** Double counting: if each path of a kind [E] takes exactly one of the links
    [F], and no other path takes one, those links together carry those paths. *)
Lemma end_weight (F : DashboardFlowLink → Prop) `{!∀ l, Decision (F l)}
    (E : PreparedFlowPath → Prop) `{!∀ q, Decision (E q)} :
  (∀ l q, l ∈ ls.*2 → q ∈ qs → linkStableKey l ∈ step_keys q → F l → E q) →
  (∀ q, q ∈ qs → E q → ∃ l, l ∈ ls.*2 ∧ linkStableKey l ∈ step_keys q ∧ F l) →
  (∀ l l' q, l ∈ ls.*2 → l' ∈ ls.*2 → q ∈ qs → linkStableKey l ∈ step_keys q →
     linkStableKey l' ∈ step_keys q → F l → F l' → l = l') →
  zsum (λ l, link_weight (linkStableKey l)) (filter F ls.*2) = zsum w (filter E qs).
Proof.
  intros H1 H2 H3. unfold link_weight.
  rewrite (zsum_ext _ (λ l, zsum (λ q, if decide (linkStableKey l ∈ step_keys q) then w q else 0) qs))
    by (intros l _; apply zsum_filter).
  rewrite zsum_swap, (zsum_filter w E). apply zsum_ext. intros q Hq. destruct (decide (E q)) as [Hi|Hi].
  - destruct (H2 q Hq Hi) as (l0 & Hl0 & Hk0 & He0).
    rewrite (zsum_single _ l0); [by rewrite decide_True| | |].
    + apply list.NoDup_filter, link_values.
    + by apply list_elem_of_filter.
    + intros l [He Hl]%list_elem_of_filter Hne. rewrite decide_False; [done|]. intros Hk.
      apply Hne. by apply (H3 l l0 q).
  - apply zsum_zero. intros l [He Hl]%list_elem_of_filter. rewrite decide_False; [done|]. intros Hk.
    apply Hi. by apply (H1 l q).
Qed.

Lemma link_of_step l l' :
  l ∈ ls.*2 → l' ∈ ls.*2 → l_source l = l_source l' → l_target l = l_target l' → l = l'.
Proof.
  intros Hl Hl' Hs Ht. destruct (link_in l Hl) as [E _], (link_in l' Hl') as [E' _].
  assert (linkStableKey l = linkStableKey l') as Hk by (unfold linkStableKey; congruence).
  rewrite Hk in E. congruence.
Qed.

Lemma out_weight i :
  zsum (λ l, link_weight (linkStableKey l)) (filter (λ l, l_source l = i) ls.*2)
  = zsum w (filter (λ q, i ∈ sources q) qs).
Proof.
  apply end_weight.
  - intros l q Hl Hq Hk <-. destruct (taken_step l q Hl Hq Hk) as (a & b & Hab & Hs & _).
    rewrite Hs. by apply (list_elem_of_fmap_2 (λ s : FlowPathNode * FlowPathNode, id s.1)) in Hab.
  - intros q Hq ([a b] & -> & Hab)%list_elem_of_fmap. destruct (step_link q a b Hq Hab) as (l & Hl & Hk & Hs & _).
    exists l. split_and!; [done| |done]. rewrite Hk. apply step_key_elem. by exists a, b.
  - intros l l' q Hl Hl' Hq Hk Hk' He He'.
    destruct (taken_step l q Hl Hq Hk) as (a & b & Hab & Hs & Ht).
    destruct (taken_step l' q Hl' Hq Hk') as (a' & b' & Hab' & Hs' & Ht').
    rewrite list.Forall_forall in Hproper. pose proof (Hproper q Hq) as [Hnd _].
    assert ((a, b) = (a', b')) as [= -> ->] by (eapply step_source_unique; [done..|congruence]).
    by apply link_of_step; congruence.
Qed.

Lemma in_weight i :
  zsum (λ l, link_weight (linkStableKey l)) (filter (λ l, l_target l = i) ls.*2)
  = zsum w (filter (λ q, i ∈ targets q) qs).
Proof.
  apply end_weight.
  - intros l q Hl Hq Hk <-. destruct (taken_step l q Hl Hq Hk) as (a & b & Hab & _ & Ht).
    rewrite Ht. by apply (list_elem_of_fmap_2 (λ s : FlowPathNode * FlowPathNode, id s.2)) in Hab.
  - intros q Hq ([a b] & -> & Hab)%list_elem_of_fmap. destruct (step_link q a b Hq Hab) as (l & Hl & Hk & _ & Ht).
    exists l. split_and!; [done| |done]. rewrite Hk. apply step_key_elem. by exists a, b.
  - intros l l' q Hl Hl' Hq Hk Hk' He He'.
    destruct (taken_step l q Hl Hq Hk) as (a & b & Hab & Hs & Ht).
    destruct (taken_step l' q Hl' Hq Hk') as (a' & b' & Hab' & Hs' & Ht').
    rewrite list.Forall_forall in Hproper. pose proof (Hproper q Hq) as [Hnd _].
    assert ((a, b) = (a', b')) as [= -> ->] by (eapply step_target_unique; [done..|congruence]).
    by apply link_of_step; congruence.
Qed.

(** The same for nodes: if each path runs through exactly one node [F]. *)
Lemma stage_weight (F : DashboardFlowNode → Prop) `{!∀ n, Decision (F n)} :
  (∀ q, q ∈ qs → ∃ n, n ∈ ns.*2 ∧ n_id n ∈ ids q ∧ F n) →
  (∀ n n' q, n ∈ ns.*2 → n' ∈ ns.*2 → q ∈ qs → n_id n ∈ ids q → n_id n' ∈ ids q → F n → F n' → n = n') →
  zsum (λ n, node_weight (n_id n)) (filter F ns.*2) = zsum w qs.
Proof.
  intros H2 H3. unfold node_weight.
  rewrite (zsum_ext _ (λ n, zsum (λ q, if decide (n_id n ∈ ids q) then w q else 0) qs))
    by (intros n _; apply zsum_filter).
  rewrite zsum_swap. apply zsum_ext. intros q Hq. destruct (H2 q Hq) as (n0 & Hn0 & Hi0 & HF0).
  rewrite (zsum_single _ n0); [by rewrite decide_True| | |].
  - apply list.NoDup_filter, node_values.
  - by apply list_elem_of_filter.
  - intros n [HF Hn]%list_elem_of_filter Hne. rewrite decide_False; [done|]. intros Hk.
    apply Hne. by apply (H3 n n0 q).
Qed.
End conservation.

Lemma whole_total {A} (v : A → jsnum) (z : A → Z) (l : list A) vs :
  vs ≡ₚ map v l → (∀ x, x ∈ l → v x = num_of_Z (z x) ∧ 0 ≤ z x) → zsum z l ≤ 2 ^ 53 →
  total_of vs = num_of_Z (zsum z l).
Proof.
  intros (l3 & -> & Hl3)%Permutation_map_inv Hz Hb. rewrite (zsum_perm z _ _ Hl3) in *.
  unfold total_of. change zero with (num_of_Z 0).
  assert (∀ s, foldl num_add s (map v l3) = foldl (λ s x, num_add s (v x)) s l3) as ->.
  { clear. induction l3 as [|x l3 IH]; intros s; [done|]. cbn [map foldl]. apply IH. }
  rewrite (float_sum v z); [done| |lia|lia]. intros x Hx. apply Hz. by rewrite Hl3.
Qed.

(** Filtering what only depends on a projection. *)
Lemma filter_shape {A B} (sh : A → B) (v : A → jsnum) (v' : B → jsnum) (F : A → Prop) (F' : B → Prop)
    `{!∀ x, Decision (F x), !∀ x, Decision (F' x)} l :
  (∀ x, v x = v' (sh x)) → (∀ x, F x ↔ F' (sh x)) → map v (filter F l) = map v' (filter F' (map sh l)).
Proof.
  intros Hv HF. induction l as [|x l IH]; [done|]. cbn [map]. rewrite !filter_cons.
  destruct (decide (F x)) as [Hx|Hx], (decide (F' (sh x))) as [Hx'|Hx']; cbn [map]; [by rewrite Hv, IH| | |done];
    rewrite HF in Hx; done.
Qed.

(** ** Paths through stages *)

Definition kind_prefix (k : FlowNodeKind) : jstr := kind_text k ++ js ":".

Lemma prefix_kind k k' i :
  startsWith i (kind_prefix k) = true → startsWith i (kind_prefix k') = true → k = k'.
Proof.
  intros [x ->]%startsWith_true [y Hy]%startsWith_true. by destruct k, k'.
Qed.

(** One node per stage, each with the prefix of its kind. *)
Definition staged (stages : list FlowNodeKind) (p : list FlowPathNode) : Prop :=
  map kind p = stages ∧ Forall (λ n, startsWith (id n) (kind_prefix (kind n)) = true) p.

Lemma staged_kind stages p n n' :
  staged stages p → n ∈ p → startsWith (id n') (kind_prefix (kind n')) = true → id n' = id n → kind n' = kind n.
Proof.
  intros [_ Hp] Hn Hn' Heq. rewrite list.Forall_forall in Hp. specialize (Hp n Hn). rewrite Heq in Hn'.
  by eapply prefix_kind.
Qed.

Lemma staged_ids stages p : NoDup stages → staged stages p → NoDup (map id p).
Proof.
  intros Hnd [Hk Hp]. rewrite <-Hk in Hnd. clear Hk. induction p as [|n p IH]; [constructor|].
  cbn [map] in *. apply list.NoDup_cons in Hnd as [Hn Hnd]. apply list.Forall_cons in Hp as [Hpn Hp].
  apply list.NoDup_cons. split; [|by apply IH]. intros (m & Hm & Hin)%list_elem_of_fmap.
  apply Hn. rewrite list.Forall_forall in Hp. specialize (Hp m Hin). rewrite <-Hm in Hp.
  rewrite (prefix_kind _ _ _ Hpn Hp). by apply list_elem_of_fmap_2.
Qed.

Lemma stages_proper r visible :
  NoDup (resolveVisibleStages r visible) ∧ (2 ≤ length (resolveVisibleStages r visible))%nat.
Proof.
  assert (NoDup (getFlowStages r) ∧ (2 ≤ length (getFlowStages r))%nat) as [Hn Hl].
  { split; [apply (bool_decide_unpack _); by destruct r; vm_compute|destruct r; cbn; lia]. }
  unfold resolveVisibleStages. destruct visible as [v|]; [|done].
  destruct (Nat.leb_spec MIN_FLOW_STAGES (length (filter (λ stage, has stage v = true) (getFlowStages r)))); [|done].
  split; [by apply list.NoDup_filter|done].
Qed.

Lemma step_elem_node p a b : (a, b) ∈ steps p → a ∈ p.
Proof.
  induction p as [|x [|y p] IH]; [by intros ?%elem_of_nil..|]. intros [[= -> ->]|H]%elem_of_cons; [by left|].
  right. by apply IH.
Qed.

(** A node of a path whose id starts another path of the same stages starts its
    own. *)
Lemma first_of_stage stages p p' a a0 b0 a' b' :
  staged stages p → staged stages p' → NoDup stages → a ∈ p →
  list.head (steps p) = Some (a0, b0) → list.head (steps p') = Some (a', b') → id a = id a' → id a = id a0.
Proof.
  intros [Hk Hp] [Hk' Hp'] Hnd Ha Hs Hs' E.
  destruct p as [|x [|y p]]; [done|done|]. apply (inj Some) in Hs as [= -> ->].
  destruct p' as [|x' [|y' p']]; [done|done|]. apply (inj Some) in Hs' as [= -> ->].
  rewrite list.Forall_forall in Hp, Hp'. specialize (Hp a Ha). specialize (Hp' a' ltac:(by left)).
  rewrite <-E in Hp'. pose proof (prefix_kind _ _ _ Hp Hp') as Hkk. clear Hp Hp'.
  rewrite <-Hk in Hk', Hnd. cbn [map] in Hk', Hnd. injection Hk' as Hk0 _ _.
  apply elem_of_cons in Ha as [->|Ha]; [done|]. apply list.NoDup_cons in Hnd as [[] _].
  rewrite <-Hk0, <-Hkk. by apply (list_elem_of_fmap_2 kind) in Ha.
Qed.

(** *** Ids of rows *)

Definition no_nul (s : option jstr) : bool := from_option (λ s, bool_decide (0%N ∉ s)) true s.
(** A row without NUL characters in its names. *)
Definition clean_row (row : FlowQuotaDataItem) : bool :=
  no_nul (username row) && no_nul (node_name row) && no_nul (use_group row) && no_nul (token_name row)
  && no_nul (channel_name row) && no_nul (model_name row).

Lemma no_nul_or s d : no_nul s = true → 0%N ∉ d → 0%N ∉ opt_or_else s d.
Proof.
  intros H Hd. unfold opt_or_else. destruct s as [s|]; [|done]. apply bool_decide_eq_true in H.
  unfold or_else. by destruct (truthy s).
Qed.

Lemma number_no_nul v : positive (numberValue v) = true → 0%N ∉ num_to_string (numberValue v).
Proof.
  intros Hp Hin. assert (price_word (num_to_string (numberValue v))) as Hw.
  { apply price_text. unfold numberValue in *. destruct v as [n|]; [|done]. destruct (isFinite n) eqn:E; [|done].
    rewrite E. by destruct n as [| | |[]]. }
  destruct (numeric_chars [] _ [] (price_word_numeric _ [] Hw)) as (Hc & _).
  rewrite list.Forall_forall in Hc. by apply Hc in Hin.
Qed.

Lemma builder_kind k row ctx : kind (NODE_BUILDERS k row ctx) = k.
Proof. by destruct k. Qed.

Lemma builder_prefix k row ctx : startsWith (id (NODE_BUILDERS k row ctx)) (kind_prefix k) = true.
Proof.
  destruct k; cbn [NODE_BUILDERS];
    unfold userNode, nodeNameNode, tokenNode, groupNode, modelNode, channelNode; cbn [id];
    try destruct (positive _); apply startsWith_app.
Qed.

Lemma builder_no_nul k row ctx : clean_row row = true → 0%N ∉ id (NODE_BUILDERS k row ctx).
Proof.
  unfold clean_row. rewrite !andb_true_iff. intros [[[[[H1 H2] H3] H4] H5] H6].
  destruct k; cbn [NODE_BUILDERS];
    unfold userNode, nodeNameNode, tokenNode, groupNode, modelNode, channelNode; cbn [id];
    try (destruct (positive _) eqn:E); rewrite not_elem_of_app; split;
    try (by apply number_no_nul); try (apply no_nul_or; [done|]); by apply (bool_decide_unpack _); vm_compute.
Qed.

Lemma other_prefix k f : startsWith (id (otherFlowNode k f)) (kind_prefix k) = true ∧ 0%N ∉ id (otherFlowNode k f).
Proof. destruct k; (split; [done|by apply (bool_decide_unpack _); vm_compute]). Qed.

(** *** Prepared paths *)

Lemma prepared_staged rows stages tops mode f ctx q :
  forallb clean_row rows = true → q ∈ preparePaths rows stages tops mode f ctx →
  staged stages (path q) ∧ Forall (λ i, 0%N ∉ i) (ids q) ∧ ∃ row, row ∈ rows ∧ metrics q = rowMetrics row.
Proof.
  intros Hc (row & Hrow & Hq)%list_elem_of_omap. rewrite forallb_forall in Hc.
  specialize (Hc row ltac:(by apply list_elem_of_In)).
  destruct (applyTopNodeLimit (flowPathForStages row stages ctx) tops mode f) as [p|] eqn:E; [|done].
  cbn in Hq. injection Hq as <-. unfold ids. cbn [path metrics].
  assert (staged stages p ∧ Forall (λ i, 0%N ∉ i) (map id p)) as [Hs Hz]; [|split_and!; eauto].
  assert (staged stages (flowPathForStages row stages ctx) ∧ Forall (λ i, 0%N ∉ i) (map id (flowPathForStages row stages ctx))) as [Hs Hz].
  { unfold flowPathForStages. split; [split|].
    - rewrite map_map. rewrite <-(map_id stages) at 2. apply map_ext. intros k. apply builder_kind.
    - apply Forall_map, list.Forall_forall. intros k _. rewrite builder_kind. apply builder_prefix.
    - rewrite map_map. apply Forall_map, list.Forall_forall. intros k _. by apply builder_no_nul. }
  unfold applyTopNodeLimit in E. destruct tops as [tops|]; [|by simplify_eq].
  destruct (negb _) in E; [by simplify_eq|]. destruct mode; [|done]. apply (inj Some) in E. subst p.
  destruct Hs as [Hk Hp]. split; [split|].
  - rewrite map_map. rewrite <-Hk at 2. apply map_ext. intros n. by destruct (isTopFlowNode n (Some tops)).
  - apply Forall_map. eapply list.Forall_impl; [exact Hp|]. intros n Hn. cbv beta.
    destruct (isTopFlowNode n (Some tops)); [done|]. apply other_prefix.
  - rewrite map_map. apply Forall_map, list.Forall_forall. intros n Hn. cbv beta.
    destruct (isTopFlowNode n (Some tops)); [|apply other_prefix].
    rewrite list.Forall_forall in Hz. by apply Hz, list_elem_of_fmap_2.
Qed.

Lemma prepared_proper rows stages tops mode f ctx :
  NoDup stages → forallb clean_row rows = true → Forall proper_path (preparePaths rows stages tops mode f ctx).
Proof.
  intros Hn Hc. apply list.Forall_forall. intros q Hq.
  destruct (prepared_staged _ _ _ _ _ _ _ Hc Hq) as (Hs & Hz & _). split; [by eapply staged_ids|done].
Qed.

(** *** Integer metrics *)

(** The integer a number is, if it is one. *)
Definition int_value (n : jsnum) : Z := default 0 (num_floor n).
Definition whole_number (n : jsnum) : bool :=
  bool_decide (n = num_of_Z (int_value n)) && (0 <=? int_value n).

Section values.
Context (metric : FlowMetric).
Definition row_value (row : FlowQuotaDataItem) : Z := int_value (metricValue (rowMetrics row) metric).
Definition path_value (q : PreparedFlowPath) : Z := int_value (weight metric q).

Lemma prepared_bound rows stages tops mode f ctx :
  (∀ row, row ∈ rows → 0 ≤ row_value row) →
  zsum path_value (preparePaths rows stages tops mode f ctx) ≤ zsum row_value rows.
Proof.
  induction rows as [|row rows IH]; intros Hw; [done|]. unfold preparePaths in *. cbn [omap list_omap zsum] in *.
  pose proof (Hw row ltac:(set_solver)). specialize (IH ltac:(set_solver)).
  destruct (applyTopNodeLimit _ _ _ _) as [p|]; cbn [mbind option_bind zsum]; [|lia].
  change (path_value (mkPrepared p (rowMetrics row))) with (row_value row). lia.
Qed.

(** Without a limit, or when it aggregates, every row is a path. *)
Lemma prepared_all rows stages tops mode f ctx :
  tops = None ∨ mode = aggregate →
  zsum path_value (preparePaths rows stages tops mode f ctx) = zsum row_value rows.
Proof.
  intros H. induction rows as [|row rows IH]; [done|]. unfold preparePaths in *. cbn [omap list_omap zsum] in *.
  assert (∃ p, applyTopNodeLimit (flowPathForStages row stages ctx) tops mode f = Some p) as [p ->].
  { unfold applyTopNodeLimit. destruct H as [->| ->]; [by eexists|]. destruct tops; [|by eexists].
    destruct (negb _); by eexists. }
  cbn [mbind option_bind zsum]. change (path_value (mkPrepared p (rowMetrics row))) with (row_value row). lia.
Qed.
End values.

(** ** The graph *)

(** What the later passes leave alone. *)
Definition nshape (n : DashboardFlowNode) : jstr * FlowNodeKind * jsnum := (n_id n, n_kind n, n_value n).
Definition lshape (l : DashboardFlowLink) : jstr * jstr * jsnum := (l_source l, l_target l, l_value l).

Section graph.
Context (localeCompare : jstr → jstr → Z) (dataScheme : list (option Z * list (option jstr))).
Context (rows : list FlowQuotaDataItem) (metric : FlowMetric) (r : FlowRole) (palette : option (list jstr))
  (visible : option (list FlowNodeKind)) (ctx : FlowPathContext) (options : FlowGraphOptions).
Let stages := resolveVisibleStages r visible.
Let tops := buildTopNodeSets localeCompare rows metric stages (normalizeTopNodeLimit (g_topNodeLimit options)) ctx.
Let mode := default DEFAULT_FLOW_OVERFLOW_MODE (g_overflowMode options).
Let prepared := preparePaths rows stages tops mode (g_otherNodeLabel options) ctx.
Let color_of := rootColor localeCompare dataScheme prepared palette.
Let g := buildFlowGraph localeCompare dataScheme rows metric r palette visible ctx options.

Lemma mask_shapes ns ls :
  map nshape (maskFlowGraphLabels ns ls).1.*2 = map nshape ns.*2 ∧
  map lshape (maskFlowGraphLabels ns ls).2.*2 = map lshape ls.*2.
Proof.
  unfold maskFlowGraphLabels. cbn [fst snd]. split.
  - induction ns as [|[k n] ns IH]; [done|]. rewrite !fmap_cons. cbn [map prod_map fst snd]. f_equal; [|done].
    by destruct (is_masked n).
  - generalize (foldl (λ acc n, if is_masked n then mset (n_id n) (maskFlowLabel (n_label n)) acc else acc) [] ns.*2).
    intros ms. induction ls as [|[k l] ls IH]; [done|]. rewrite !fmap_cons. cbn [map prod_map fst snd]. by f_equal.
Qed.

Lemma highlight_shapes ns ls h :
  map nshape (applyFlowHighlights ns ls h).1 = map nshape ns ∧
  map lshape (applyFlowHighlights ns ls h).2 = map lshape ls.
Proof. destruct h as [h|]; [|done]. cbn [applyFlowHighlights fst snd]. by rewrite !map_map. Qed.

Lemma display_shapes ls : map lshape (assignLinkDisplayColors localeCompare ls) = map lshape ls.
Proof.
  unfold assignLinkDisplayColors. rewrite map_map. apply map_ext. intros l.
  destruct (list_find _ _) as [[i k]|]; [|done]. by destruct (alphaColor _ _).
Qed.

Lemma graph_shapes :
  map nshape (nodes g) ≡ₚ map nshape (addPaths metric color_of prepared).1.*2 ∧
  map lshape (links g) ≡ₚ map lshape (addPaths metric color_of prepared).2.*2.
Proof.
  unfold g, buildFlowGraph. fold stages. fold tops. fold mode. fold prepared. fold color_of.
  destruct (addPaths metric color_of prepared) as [ns ls]. cbn [fst snd].
  destruct (if g_maskSensitive options then maskFlowGraphLabels ns ls else (ns, ls)) as [ns1 ls1] eqn:E1.
  assert (map nshape ns1.*2 = map nshape ns.*2 ∧ map lshape ls1.*2 = map lshape ls.*2) as [Hn1 Hl1].
  { destruct (g_maskSensitive options); [|by simplify_eq]. pose proof (mask_shapes ns ls) as H. by rewrite E1 in H. }
  destruct (applyFlowHighlights ns1.*2 ls1.*2 _) as [ns2 ls2] eqn:E2.
  pose proof (highlight_shapes ns1.*2 ls1.*2
    (buildFlowHighlightSets prepared (g_activeNode options) (g_activeLink options) stages)) as [Hn2 Hl2].
  rewrite E2 in Hn2, Hl2. cbn [fst snd nodes links] in *. split.
  - rewrite <-Hn1, <-Hn2. apply Permutation_map, sort_by_perm.
  - rewrite display_shapes, map_map, <-Hl1, <-Hl2. apply Permutation_map, sort_by_perm.
Qed.

(** Rows whose metric is a count, up to 2^53 in all, and whose names have no
    NUL. *)
Definition counted_rows : bool :=
  forallb (λ row, whole_number (metricValue (rowMetrics row) metric)) rows
  && forallb clean_row rows && (zsum (row_value metric) rows <=? 2 ^ 53).

Lemma counted_spec :
  counted_rows = true →
  (∀ row, row ∈ rows → metricValue (rowMetrics row) metric = num_of_Z (row_value metric row) ∧ 0 ≤ row_value metric row) ∧
  forallb clean_row rows = true ∧ zsum (row_value metric) rows ≤ 2 ^ 53.
Proof.
  unfold counted_rows. rewrite !andb_true_iff, forallb_forall. intros [[Hw Hc] Hb]. split_and!; [|done|lia].
  intros row Hrow%list_elem_of_In%Hw. apply andb_true_iff in Hrow as [Hn%bool_decide_eq_true Hp]. split; [done|].
  unfold row_value. lia.
Qed.

Lemma prepared_values :
  counted_rows = true →
  (∀ q, q ∈ prepared → weight metric q = num_of_Z (path_value metric q) ∧ 0 ≤ path_value metric q) ∧
  zsum (path_value metric) prepared ≤ 2 ^ 53.
Proof.
  intros (Hw & Hc & Hb)%counted_spec. split.
  - intros q Hq. destruct (prepared_staged _ _ _ _ _ _ _ Hc Hq) as (_ & _ & row & Hrow & Hm).
    unfold path_value, weight. rewrite Hm. by apply Hw.
  - etransitivity; [|exact Hb]. apply prepared_bound. intros row Hrow. by apply Hw.
Qed.

(** *** Conservation in the graph *)

Lemma graph_node n :
  n ∈ nodes g →
  ∃ n0, mget (n_id n) (addPaths metric color_of prepared).1 = Some n0 ∧ n_value n0 = n_value n ∧ n_kind n0 = n_kind n.
Proof.
  intros Hn. destruct graph_shapes as [Hp _].
  destruct (addPaths_entries metric color_of prepared) as (Hnd & _ & _ & _ & He & _).
  apply (list_elem_of_fmap_2 nshape) in Hn.
  assert (nshape n ∈ map nshape (addPaths metric color_of prepared).1.*2) as (n0 & Hs & Hn0)%list_elem_of_fmap
    by (by rewrite <-Hp).
  apply list_elem_of_fmap in Hn0 as ([k n1] & E & Hin). cbn in E. subst n1.
  apply (mget_elem _ _ _ Hnd) in Hin. destruct (He k n0 Hin) as [Hk _].
  unfold nshape in Hs. injection Hs as H1 H2 H3. exists n0. split_and!; congruence.
Qed.

(** The kind of a node is the kind its id is prefixed with. *)
Lemma graph_node_prefix n :
  forallb clean_row rows = true → n ∈ nodes g → startsWith (n_id n) (kind_prefix (n_kind n)) = true.
Proof.
  intros Hc Hn. destruct (graph_node n Hn) as (n0 & H0 & _ & Hk).
  destruct (addPaths_entries metric color_of prepared) as (_ & _ & _ & _ & He & _).
  destruct (He _ _ H0) as [_ (q & m & Hq & Hm & Hid & Hkm & _)].
  destruct (prepared_staged _ _ _ _ _ _ _ Hc Hq) as ([_ Hp] & _). rewrite list.Forall_forall in Hp.
  specialize (Hp m Hm). by rewrite Hid, Hkm, Hk in Hp.
Qed.

Lemma links_total (e : DashboardFlowLink → jstr) (f : jstr * jstr * jsnum → jstr) i (z : DashboardFlowLink → Z) :
  (∀ l, e l = f (lshape l)) →
  let ls := (addPaths metric color_of prepared).2 in
  (∀ l, l ∈ ls.*2 → l_value l = num_of_Z (z l) ∧ 0 ≤ z l) →
  zsum z (filter (λ l, e l = i) ls.*2) ≤ 2 ^ 53 →
  total_of (map l_value (filter (λ l, e l = i) (links g))) = num_of_Z (zsum z (filter (λ l, e l = i) ls.*2)).
Proof.
  intros He ls Hz Hb. apply (whole_total l_value); [| |done].
  - rewrite !(filter_shape lshape l_value snd (λ l, e l = i) (λ s, f s = i))
      by first [done|intros l; by rewrite He].
    apply Permutation_map, list.filter_Permutation, graph_shapes.
  - intros l [_ Hl]%list_elem_of_filter. by apply Hz.
Qed.

Lemma nodes_total k (z : DashboardFlowNode → Z) :
  let ns := (addPaths metric color_of prepared).1 in
  (∀ n, n ∈ ns.*2 → n_value n = num_of_Z (z n) ∧ 0 ≤ z n) →
  zsum z (filter (λ n, n_kind n = k) ns.*2) ≤ 2 ^ 53 →
  total_of (map n_value (filter (λ n, n_kind n = k) (nodes g))) = num_of_Z (zsum z (filter (λ n, n_kind n = k) ns.*2)).
Proof.
  intros ns Hz Hb. apply (whole_total n_value); [| |done].
  - rewrite !(filter_shape nshape n_value snd (λ n, n_kind n = k) (λ s, s.1.2 = k)) by done.
    apply Permutation_map, list.filter_Permutation, graph_shapes.
  - intros n [_ Hn]%list_elem_of_filter. by apply Hz.
Qed.

Lemma staged_source p i k :
  staged stages p → startsWith i (kind_prefix k) = true → list.last stages ≠ Some k →
  i ∈ map id p → i ∈ (λ s, id s.1) <$> steps p.
Proof.
  intros [Hk Hp] Hi Hl Hin. rewrite steps_fst. destruct p as [|x p _] using rev_ind; [done|].
  rewrite map_app in *. cbn [map] in *. rewrite removelast_last. apply elem_of_app in Hin as [?| ->%list_elem_of_singleton]; [done|].
  destruct Hl. rewrite <-Hk, list.last_snoc. f_equal. apply list.Forall_app in Hp as [_ [Hx _]%list.Forall_cons].
  by eapply prefix_kind.
Qed.

Lemma staged_target p i k :
  staged stages p → startsWith i (kind_prefix k) = true → list.head stages ≠ Some k →
  i ∈ map id p → i ∈ (λ s, id s.2) <$> steps p.
Proof.
  intros [Hk Hp] Hi Hl Hin. rewrite steps_snd. destruct p as [|x p]; [done|]. cbn [map drop] in *.
  apply elem_of_cons in Hin as [->|?]; [|by rewrite drop_0].
  destruct Hl. rewrite <-Hk. cbn [list.head]. f_equal. apply list.Forall_cons in Hp as [Hx _]. by eapply prefix_kind.
Qed.

(** [C39] Flow is conserved: for counts up to 2^53 in all, the links that leave
    a node add up to the value of the node, unless it is in the last stage, and
    so do the links that arrive at it, unless it is in the first; whatever the
    role, the visible stages, the limit, its mode, masking and highlighting. *)
Theorem flow_is_conserved n :
  counted_rows = true → n ∈ nodes g →
  (list.last stages ≠ Some (n_kind n) →
   total_of (map l_value (filter (λ l, l_source l = n_id n) (links g))) = n_value n) ∧
  (list.head stages ≠ Some (n_kind n) →
   total_of (map l_value (filter (λ l, l_target l = n_id n) (links g))) = n_value n).
Proof.
  intros Hcount Hn. destruct (counted_spec Hcount) as (_ & Hc & _).
  destruct (prepared_values Hcount) as [Hw Hb]. destruct (stages_proper r visible) as [Hnd _].
  pose proof (prepared_proper rows stages tops mode (g_otherNodeLabel options) ctx Hnd Hc) as Hpr. fold prepared in Hpr.
  destruct (graph_node n Hn) as (n0 & H0 & <- & _). pose proof (graph_node_prefix n Hc Hn) as Hpre.
  rewrite (node_weight_value metric color_of prepared (path_value metric) Hpr Hw Hb _ _ H0).
  assert (∀ l, l ∈ (addPaths metric color_of prepared).2.*2 →
    l_value l = num_of_Z (link_weight prepared (path_value metric) (linkStableKey l)) ∧
    0 ≤ link_weight prepared (path_value metric) (linkStableKey l)) as Hl.
  { intros l Hl. split; [|by apply (part_bounds metric)]. destruct (link_in metric color_of prepared l Hl) as [Hm _].
    by apply (link_weight_value metric color_of prepared (path_value metric)). }
  split; intros Hk.
  - pose proof (out_weight metric color_of prepared (path_value metric) Hpr (n_id n)) as Hsum.
    rewrite (links_total l_source (λ s, s.1.1) (n_id n)
      (λ l, link_weight prepared (path_value metric) (linkStableKey l))), Hsum;
      [|done|done|rewrite Hsum; by apply (part_bounds metric)].
    unfold node_weight. rewrite !zsum_filter. f_equal. apply zsum_ext. intros q Hq.
    destruct (prepared_staged _ _ _ _ _ _ _ Hc Hq) as (Hs & _).
    destruct (decide (n_id n ∈ sources q)) as [Hin|Hin], (decide (n_id n ∈ ids q)) as [Hin'|Hin']; try done.
    + destruct Hin'. apply list_elem_of_fmap in Hin as ([a b] & -> & Hab). by apply (step_elem _ a b).
    + destruct Hin. by eapply staged_source.
  - pose proof (in_weight metric color_of prepared (path_value metric) Hpr (n_id n)) as Hsum.
    rewrite (links_total l_target (λ s, s.1.2) (n_id n)
      (λ l, link_weight prepared (path_value metric) (linkStableKey l))), Hsum;
      [|done|done|rewrite Hsum; by apply (part_bounds metric)].
    unfold node_weight. rewrite !zsum_filter. f_equal. apply zsum_ext. intros q Hq.
    destruct (prepared_staged _ _ _ _ _ _ _ Hc Hq) as (Hs & _).
    destruct (decide (n_id n ∈ targets q)) as [Hin|Hin], (decide (n_id n ∈ ids q)) as [Hin'|Hin']; try done.
    + destruct Hin'. apply list_elem_of_fmap in Hin as ([a b] & -> & Hab). by apply (step_elem _ a b).
    + destruct Hin. by eapply staged_target.
Qed.

(** *** The total of a stage *)

Definition summary_value (s : FlowSummary) : jsnum :=
  match metric with
  | metric_requests => s_requests s | metric_tokens => s_tokens s | metric_quota => s_quota s
  end.

Lemma summary_eq : summary_value (buildSummary rows)
  = foldl (λ s row, num_add s (metricValue (rowMetrics row) metric)) zero rows.
Proof.
  unfold buildSummary. assert (zero = summary_value (mkSummary zero zero zero)) as Hz
    by (unfold summary_value; by destruct metric).
  rewrite Hz at 4. clear Hz. generalize (mkSummary zero zero zero).
  induction rows as [|row rs IH]; intros s; [done|].
  cbn [foldl]. rewrite IH. f_equal. unfold summary_value. by destruct metric.
Qed.

Lemma summary_whole : counted_rows = true → summary_value (buildSummary rows) = num_of_Z (zsum (row_value metric) rows).
Proof.
  intros (Hw & _ & Hb)%counted_spec. rewrite summary_eq. change zero with (num_of_Z 0).
  rewrite (float_sum _ (row_value metric)); [done|done|done|done].
Qed.

Lemma map_node_kind q k n :
  forallb clean_row rows = true → q ∈ prepared → mget (id n) (addPaths metric color_of prepared).1 = Some k →
  n ∈ path q → n_kind k = kind n.
Proof.
  intros Hc Hq Hk Hn. destruct (addPaths_entries metric color_of prepared) as (_ & _ & _ & _ & He & _).
  destruct (He _ _ Hk) as [_ (q' & m & Hq' & Hm & Hid & Hkm & _)]. rewrite <-Hkm.
  destruct (prepared_staged _ _ _ _ _ _ _ Hc Hq) as (Hs & _).
  destruct (prepared_staged _ _ _ _ _ _ _ Hc Hq') as ([_ Hp] & _). rewrite list.Forall_forall in Hp.
  by apply (staged_kind _ _ _ _ Hs Hn (Hp m Hm)).
Qed.

Lemma one_node_per_stage k :
  forallb clean_row rows = true → k ∈ stages →
  let ns := (addPaths metric color_of prepared).1 in
  (∀ q, q ∈ prepared → ∃ n, n ∈ ns.*2 ∧ n_id n ∈ ids q ∧ n_kind n = k) ∧
  (∀ n n' q, n ∈ ns.*2 → n' ∈ ns.*2 → q ∈ prepared → n_id n ∈ ids q → n_id n' ∈ ids q →
     n_kind n = k → n_kind n' = k → n = n').
Proof.
  intros Hc Hk ns. destruct (stages_proper r visible) as [Hnd _]. fold stages in Hnd.
  destruct (addPaths_entries metric color_of prepared) as (Hkeys & _ & Hin & _ & He & _). fold ns in Hkeys, Hin, He.
  destruct (node_values metric color_of prepared) as [_ Hval]. fold ns in Hval. split.
  - intros q Hq. destruct (prepared_staged _ _ _ _ _ _ _ Hc Hq) as ([Hks _] & _). fold stages in Hks.
    rewrite <-Hks in Hk. apply list_elem_of_fmap in Hk as (m & -> & Hm).
    assert (id m ∈ ns.*1) as [n Hn]%mget_is_Some.
    { apply Hin. exists q. split; [done|]. by apply list_elem_of_fmap_2. }
    exists n. destruct (He _ _ Hn) as [Hid _]. split_and!.
    + apply (mget_elem _ _ _ Hkeys) in Hn. by apply (list_elem_of_fmap_2 snd) in Hn.
    + rewrite Hid. by apply list_elem_of_fmap_2.
    + by eapply map_node_kind.
  - intros n n' q Hn Hn' Hq Hi Hi' Hkn Hkn'. apply Hval in Hn, Hn'.
    destruct (prepared_staged _ _ _ _ _ _ _ Hc Hq) as ([Hks _] & _). fold stages in Hks.
    apply list_elem_of_fmap in Hi as (m & Em & Hm), Hi' as (m' & Em' & Hm'). rewrite Em in Hn. rewrite Em' in Hn'.
    pose proof (map_node_kind q n m Hc Hq Hn Hm) as K. pose proof (map_node_kind q n' m' Hc Hq Hn' Hm') as K'.
    apply list_elem_of_lookup in Hm as [i Hm], Hm' as [j Hm'].
    assert (i = j) as ->.
    { rewrite <-Hks in Hnd. eapply NoDup_lookup; [exact Hnd|..]; rewrite list_lookup_fmap;
        [by rewrite Hm|rewrite Hm'; cbn; congruence]. }
    congruence.
Qed.

(** *** Shares *)

Lemma firstIds_spec i :
  forallb clean_row rows = true →
  (i ∈ firstIds prepared ↔ ∃ q a b, q ∈ prepared ∧ list.head (steps (path q)) = Some (a, b) ∧ i = id a).
Proof.
  intros Hc. destruct (stages_proper r visible) as [_ Hlen]. fold stages in Hlen.
  assert (∀ q, q ∈ prepared → ∃ a b p, path q = a :: b :: p ∧ id a ≠ []) as Hp.
  { intros q Hq. destruct (prepared_staged _ _ _ _ _ _ _ Hc Hq) as ([Hk Hpre] & _). fold stages in Hk.
    rewrite <-Hk, length_map in Hlen. destruct (path q) as [|a [|b p]]; cbn [length] in Hlen; [lia|lia|].
    exists a, b, p. split; [done|]. apply list.Forall_cons in Hpre as [[t ->]%startsWith_true _]. by destruct (kind a). }
  unfold firstIds, filter_truthy. rewrite list_elem_of_filter, list_elem_of_omap. split.
  - intros [_ (q & Hq & Hi)]. destruct (Hp q Hq) as (a & b & p & E & _). rewrite E in Hi. cbn in Hi.
    exists q, a, b. rewrite E. split_and!; [done|done|congruence].
  - intros (q & a & b & Hq & Hs & ->). destruct (Hp q Hq) as (a' & b' & p & E & Ht). rewrite E in Hs.
    cbn in Hs. apply (inj Some) in Hs as [= <- <-]. split; [done|]. exists q. rewrite E. done.
Qed.

Lemma first_weight :
  forallb clean_row rows = true →
  zsum (λ l, link_weight prepared (path_value metric) (linkStableKey l))
    (filter (λ l, has (l_source l) (firstIds prepared) = true) (addPaths metric color_of prepared).2.*2)
  = zsum (path_value metric) prepared.
Proof.
  intros Hc. destruct (stages_proper r visible) as [Hnd Hlen]. fold stages in Hnd, Hlen.
  pose proof (prepared_proper rows stages tops mode (g_otherNodeLabel options) ctx Hnd Hc) as Hpr. fold prepared in Hpr.
  assert (∀ q, q ∈ prepared → ∃ a b, list.head (steps (path q)) = Some (a, b)) as Hstep.
  { intros q Hq. destruct (prepared_staged _ _ _ _ _ _ _ Hc Hq) as ([Hk _] & _). fold stages in Hk.
    rewrite <-Hk, length_map in Hlen. destruct (path q) as [|a [|b p]]; cbn [length] in Hlen; [lia|lia|eauto]. }
  rewrite (end_weight metric color_of prepared (path_value metric) _ (λ _, True)).
  - rewrite zsum_filter. apply zsum_ext. intros q _. by rewrite decide_True.
  - done.
  - intros q Hq _. destruct (Hstep q Hq) as (a & b & Hs). pose proof (head_Some_elem_of _ _ Hs) as Hab.
    destruct (step_link metric color_of prepared Hpr q a b Hq Hab) as (l & Hl & Hk & Hls & _).
    exists l. split_and!; [done| |].
    + rewrite Hk. apply step_key_elem. eauto.
    + apply has_true, (firstIds_spec _ Hc). exists q, a, b. done.
  - assert (∀ q l, l ∈ (addPaths metric color_of prepared).2.*2 → q ∈ prepared →
      linkStableKey l ∈ step_keys q → has (l_source l) (firstIds prepared) = true →
      ∃ a b, list.head (steps (path q)) = Some (a, b) ∧ l_source l = id a ∧ l_target l = id b) as Hhead.
    { intros q l Hl Hq Hk (q' & a' & b' & Hq' & Hs' & E)%has_true%(firstIds_spec _ Hc).
      destruct (taken_step metric color_of prepared Hpr l q Hl Hq Hk) as (a & b & Hab & Hsa & Htb).
      destruct (Hstep q Hq) as (a0 & b0 & Hs0). exists a0, b0. split; [done|].
      assert ((a, b) = (a0, b0)) as [= <- <-]; [|done].
      destruct (prepared_staged _ _ _ _ _ _ _ Hc Hq) as (Hst & _ & _), (prepared_staged _ _ _ _ _ _ _ Hc Hq') as (Hst' & _ & _).
      rewrite list.Forall_forall in Hpr. destruct (Hpr q Hq) as [Hids _].
      apply (step_source_unique (path q)); [done|done|by apply head_Some_elem_of|].
      eapply first_of_stage; [exact Hst|exact Hst'|exact Hnd|by apply (step_elem_node _ a b)|exact Hs0|exact Hs'|congruence]. }
    intros l l' q Hl Hl' Hq Hk Hk' Hf Hf'.
    destruct (Hhead q l Hl Hq Hk Hf) as (a & b & Hs & ? & ?), (Hhead q l' Hl' Hq Hk' Hf') as (a' & b' & Hs' & ? & ?).
    rewrite Hs in Hs'. apply (inj Some) in Hs' as [= <- <-].
    apply (link_of_step metric color_of prepared); congruence.
Qed.
(** The nodes of a stage carry all paths. *)
Lemma stage_total k :
  counted_rows = true → k ∈ stages →
  total_of (map n_value (filter (λ n, n_kind n = k) (nodes g))) = num_of_Z (zsum (path_value metric) prepared).
Proof.
  intros Hcount Hk. destruct (counted_spec Hcount) as (_ & Hc & _).
  destruct (prepared_values Hcount) as [Hw Hb]. destruct (stages_proper r visible) as [Hnd _].
  pose proof (prepared_proper rows stages tops mode (g_otherNodeLabel options) ctx Hnd Hc) as Hpr. fold prepared in Hpr.
  destruct (one_node_per_stage k Hc Hk) as [H2 H3].
  pose proof (stage_weight metric color_of prepared (path_value metric) (λ n, n_kind n = k) H2 H3) as Hsum.
  rewrite <-Hsum. apply nodes_total.
  - intros n Hn. split; [|by apply (part_bounds metric)].
    by apply (node_weight_value metric color_of prepared (path_value metric)), (node_values metric color_of prepared).
  - by rewrite Hsum.
Qed.

Lemma display_share ls l :
  l ∈ assignLinkDisplayColors localeCompare ls → ∃ l0, l0 ∈ ls ∧ share l = share l0 ∧ lshape l = lshape l0.
Proof.
  unfold assignLinkDisplayColors. intros (l0 & -> & Hl0)%list_elem_of_fmap. exists l0. split; [done|].
  destruct (list_find _ _) as [[i k]|]; [|done]. by destruct (alphaColor _ _).
Qed.

(** The links of the graph, and the total their shares are of. *)
Lemma graph_links :
  ∃ fl, map lshape fl ≡ₚ map lshape (addPaths metric color_of prepared).2.*2 ∧
        links g = assignLinkDisplayColors localeCompare (map (with_share (firstTotal prepared fl)) fl).
Proof.
  unfold g, buildFlowGraph. fold stages. fold tops. fold mode. fold prepared. fold color_of.
  destruct (addPaths metric color_of prepared) as [ns ls]. cbn [fst snd].
  destruct (if g_maskSensitive options then maskFlowGraphLabels ns ls else (ns, ls)) as [ns1 ls1] eqn:E1.
  assert (map lshape ls1.*2 = map lshape ls.*2) as Hl1.
  { destruct (g_maskSensitive options); [|by simplify_eq]. pose proof (mask_shapes ns ls) as [_ H]. by rewrite E1 in H. }
  destruct (applyFlowHighlights ns1.*2 ls1.*2 _) as [ns2 ls2] eqn:E2.
  pose proof (highlight_shapes ns1.*2 ls1.*2
    (buildFlowHighlightSets prepared (g_activeNode options) (g_activeLink options) stages)) as [_ Hl2].
  rewrite E2 in Hl2. cbn [fst snd nodes links] in *. eexists. split; [|done].
  rewrite <-Hl1, <-Hl2. apply Permutation_map, sort_by_perm.
Qed.

Lemma first_total fl :
  counted_rows = true → map lshape fl ≡ₚ map lshape (addPaths metric color_of prepared).2.*2 →
  firstTotal prepared fl = num_of_Z (zsum (path_value metric) prepared).
Proof.
  intros Hcount Hfl. destruct (counted_spec Hcount) as (_ & Hc & _). destruct (prepared_values Hcount) as [Hw Hb].
  destruct (stages_proper r visible) as [Hnd _].
  pose proof (prepared_proper rows stages tops mode (g_otherNodeLabel options) ctx Hnd Hc) as Hpr. fold prepared in Hpr.
  pose proof (first_weight Hc) as Hsum. rewrite <-Hsum.
  transitivity (total_of (map l_value (filter (λ l, has (l_source l) (firstIds prepared) = true) fl))).
  { unfold firstTotal, total_of. generalize zero.
    induction (filter (λ l, has (l_source l) (firstIds prepared) = true) fl) as [|l rest IH]; intros s; [done|]. apply IH. }
  apply (whole_total l_value); [| |by rewrite Hsum].
  - rewrite !(filter_shape lshape l_value snd (λ l, has (l_source l) (firstIds prepared) = true)
      (λ s, has s.1.1 (firstIds prepared) = true)) by done.
    by apply Permutation_map, list.filter_Permutation.
  - intros l [_ Hl]%list_elem_of_filter. split; [|by apply (part_bounds metric)].
    by apply (link_weight_value metric color_of prepared (path_value metric)), (link_in metric color_of prepared).
Qed.

(** Without a limit on the nodes, or when it aggregates the rest, every
    stage of the chart carries the whole: for counts up to 2^53 in all, the
    values of the nodes of a stage add up to the total of the summary. *)
Theorem every_stage_carries_the_total k :
  counted_rows = true → k ∈ stages →
  normalizeTopNodeLimit (g_topNodeLimit options) = None ∨ mode = aggregate →
  total_of (map n_value (filter (λ n, n_kind n = k) (nodes g))) = summary_value (buildSummary rows).
Proof.
  intros Hcount Hk Hall. rewrite (summary_whole Hcount), (stage_total k Hcount Hk). f_equal.
  apply prepared_all. destruct Hall as [Hl|Hm]; [left|by right]. unfold tops, buildTopNodeSets. by rewrite Hl.
Qed.

(** The share of a link is its value over the total of any stage of the
    chart, or 0 when that is 0: also when nodes are hidden, shares are of what is
    shown. *)
Theorem shares_are_of_the_shown_total l k :
  counted_rows = true → l ∈ links g → k ∈ stages →
  let shown := total_of (map n_value (filter (λ n, n_kind n = k) (nodes g))) in
  share l = if positive shown then num_div (l_value l) shown else zero.
Proof.
  intros Hcount Hl Hk. cbv zeta. rewrite (stage_total k Hcount Hk).
  destruct graph_links as (fl & Hfl & E). rewrite E in Hl. apply display_share in Hl as (l0 & Hl0 & -> & Hsh).
  apply list_elem_of_fmap in Hl0 as (l1 & -> & _). unfold lshape in Hsh. injection Hsh as _ _ ->.
  unfold with_share. cbn [share l_value]. by rewrite (first_total fl Hcount Hfl).
Qed.
End graph.

(** ** A sample *)

(** An order of strings, by code unit. *)
Fixpoint code_unit_order (a b : jstr) : Z :=
  match a, b with
  | [], [] => 0
  | [], _ => -1
  | _, [] => 1
  | x :: a, y :: b => if (x <? y)%N then -1 else if (y <? x)%N then 1 else code_unit_order a b
  end.

Definition sample_row (u g m c : string) (requests : Z) : FlowQuotaDataItem :=
  mkItem None (Some (js u)) None (Some (js g)) None None None (Some (js c)) (Some (js m))
    None (Some (num_of_Z requests)) None.
Definition sample_rows : list FlowQuotaDataItem :=
  [sample_row "ann" "vip" "m1" "c1" 5; sample_row "bob" "vip" "m1" "c2" 3;
   sample_row "ann" "default" "m2" "c1" 2; sample_row "cat" "default" "m1" "c1" 1].
Definition sample_options (m : FlowOverflowMode) : FlowGraphOptions :=
  mkGraphOptions (Some (num_of_Z 1)) (Some m) None None None false.
Definition sample_graph (m : FlowOverflowMode) : DashboardFlowGraph :=
  buildFlowGraph code_unit_order [] sample_rows metric_requests role_admin None None
    EMPTY_FLOW_PATH_CONTEXT (sample_options m).

Lemma flow_is_conserved_witness :
  length (nodes (sample_graph aggregate)) = 8%nat ∧
  Forall (λ n, n_kind n = kind_group →
      total_of (map l_value (filter (λ l, l_source l = n_id n) (links (sample_graph aggregate)))) = n_value n
    ∧ total_of (map l_value (filter (λ l, l_target l = n_id n) (links (sample_graph aggregate)))) = n_value n)
    (nodes (sample_graph aggregate)).
Proof.
  split; [vm_compute; reflexivity|]. apply list.Forall_forall. intros n Hn Hk.
  destruct (flow_is_conserved code_unit_order [] sample_rows metric_requests role_admin None None
    EMPTY_FLOW_PATH_CONTEXT (sample_options aggregate) n) as [Ho Hi]; [vm_compute; reflexivity|exact Hn|].
  split; [apply Ho|apply Hi]; rewrite Hk; discriminate.
Defined.

Lemma every_stage_carries_the_total_witness :
  total_of (map n_value (filter (λ n, n_kind n = kind_channel) (nodes (sample_graph aggregate)))) = num_of_Z 11.
Proof.
  unfold sample_graph. rewrite (every_stage_carries_the_total code_unit_order [] sample_rows metric_requests role_admin None None
    EMPTY_FLOW_PATH_CONTEXT (sample_options aggregate) kind_channel);
    [vm_compute; reflexivity|vm_compute; reflexivity|by do 3 right; left|by right].
Defined.

(** Only the rows of ann in the group vip are shown; each link is all of them. *)
Lemma shares_are_of_the_shown_total_witness :
  length (links (sample_graph hide)) = 3%nat ∧
  Forall (λ l, share l = num_div (l_value l) (num_of_Z 5)) (links (sample_graph hide)).
Proof.
  split; [vm_compute; reflexivity|]. apply list.Forall_forall. intros l Hl.
  pose proof (shares_are_of_the_shown_total code_unit_order [] sample_rows metric_requests role_admin None None
    EMPTY_FLOW_PATH_CONTEXT (sample_options hide) l kind_user) as H.
  assert (total_of (map n_value (filter (λ n, n_kind n = kind_user) (nodes (sample_graph hide)))) = num_of_Z 5) as E
    by (vm_compute; reflexivity).
  cbv zeta in H. unfold sample_graph in E. rewrite E in H.
  apply H; [vm_compute; reflexivity|exact Hl|by left].
Defined.
