(* ===== verification/DashboardFlowViews.v ===== *)
(** * Filters, masks and limits of the flow chart

    The filters keep exactly the rows whose node is selected in every stage with
    a selection; masking leaves no sensitive label in nodes or links and changes
    nothing else; the limit bounds the nodes of a stage. *)

From stdpp Require Import sorting.
From S2P Require Import Prelude StableSort JsValue JsCollections DashboardFlow DashboardFlowFacts.
Import DashboardFlow.

(** ** Filters *)

Section filters.
Context (selected : option (list FlowNodeFilter)) (stages : list FlowNodeKind) (ctx : FlowPathContext).

Definition wanted (k : FlowNodeKind) : list jstr :=
  map filter_id (filter (λ f, filter_kind f = k) (default [] selected)).

(** A stage without a selection admits every row. *)
Definition selects (row : FlowQuotaDataItem) : bool :=
  forallb (λ k, bool_decide (wanted k = []) || has (id (NODE_BUILDERS k row ctx)) (wanted k)) stages.

Lemma normalize_keys :
  let m := normalizeSelectedNodeFilters selected stages in
  NoDup m.*1 ∧
  ∀ k, match mget k m with
       | Some ids => k ∈ stages ∧ wanted k ≠ [] ∧ ∀ i, i ∈ ids ↔ i ∈ wanted k
       | None => k ∈ stages → wanted k = []
       end.
Proof.
  unfold normalizeSelectedNodeFilters, wanted. cbv zeta.
  induction (default [] selected) as [|f sel IH] using rev_ind; [split; [constructor|done]|].
  rewrite foldl_app. cbn [foldl]. revert IH. cbv zeta. generalize (foldl (λ filters f,
    if has (filter_kind f) stages
    then mupdate (filter_kind f) (λ old,
           if has (filter_id f) (default [] old) then default [] old else default [] old ++ [filter_id f]) filters
    else filters) [] sel). intros m [Hnd Hm]. destruct (has (filter_kind f) stages) eqn:Eh.
  - apply has_true in Eh. split; [by apply mset_NoDup|]. intros k. rewrite mget_mupdate. specialize (Hm k).
    rewrite list.filter_app, filter_cons, filter_nil.
    destruct (decide (filter_kind f = k)) as [E|E]; [|by rewrite app_nil_r].
    rewrite map_app. cbn [map].
    split_and!; [by subst k|by intros [_ ?]%app_eq_nil|].
    assert (∀ i, i ∈ default [] (mget k m) ↔ i ∈ map filter_id (filter (λ f, filter_kind f = k) sel)) as Hi.
    { intros i. destruct (mget k m) as [ids|]; [apply Hm|]. rewrite Hm by (by subst k). done. }
    intros i. cbv zeta. rewrite elem_of_app, list_elem_of_singleton.
    destruct (has (filter_id f) (default [] (mget k m))) eqn:Ef.
    + apply has_true in Ef. rewrite <-Hi. split; [by left|]. by intros [?| ->].
    + by rewrite elem_of_app, list_elem_of_singleton, Hi.
  - assert (filter_kind f ∉ stages) as Hn by (intros Hin%has_true; congruence).
    split; [done|]. intros k. specialize (Hm k). rewrite list.filter_app, filter_cons, filter_nil.
    destruct (decide (filter_kind f = k)) as [E|E]; [|by rewrite app_nil_r].
    destruct (mget k m); [destruct Hm as [? _]; by subst k|]. intros ?. by subst k.
Qed.

Lemma stage_ids row k :
  k ∈ stages → ∀ i, i ∈ map id (filter (λ n, kind n = k) (flowPathForStages row stages ctx)) ↔ i = id (NODE_BUILDERS k row ctx).
Proof.
  intros Hk i. rewrite list_elem_of_fmap. unfold flowPathForStages. split.
  - intros (n & -> & [Hn (k' & -> & Hk')%list_elem_of_fmap]%list_elem_of_filter).
    rewrite builder_kind in Hn. by subst k'.
  - intros ->. exists (NODE_BUILDERS k row ctx). split; [done|]. apply list_elem_of_filter.
    split; [apply builder_kind|]. by apply (list_elem_of_fmap_2 (λ stage, NODE_BUILDERS stage row ctx)).
Qed.

Lemma match_spec row :
  pathMatchesNodeFilters (flowPathForStages row stages ctx) (normalizeSelectedNodeFilters selected stages) = selects row.
Proof.
  destruct normalize_keys as [Hnd Hm]. apply eq_true_iff_eq. unfold pathMatchesNodeFilters, selects.
  rewrite !forallb_forall. setoid_rewrite <-list_elem_of_In. split.
  - intros H k Hk. specialize (Hm k). apply orb_true_iff. destruct (mget k _) as [ids|] eqn:E.
    + right. destruct Hm as (_ & _ & Hi). apply (mget_elem _ _ _ Hnd) in E. apply H in E. cbn in E.
      apply existsb_exists in E as (i & Hin%list_elem_of_In & Hp%has_true).
      apply (stage_ids row k Hk) in Hp as ->. by apply has_true, Hi.
    + left. by apply bool_decide_eq_true, Hm.
  - intros H [k ids] Hin. apply (mget_elem _ _ _ Hnd) in Hin. specialize (Hm k). rewrite Hin in Hm.
    destruct Hm as (Hk & Hw & Hi). apply H in Hk as Hs. apply orb_true_iff in Hs as [E%bool_decide_eq_true|Hs%has_true]; [done|].
    apply existsb_exists. eexists. split; [by apply list_elem_of_In, Hi, Hs|]. by apply has_true, stage_ids.
Qed.

(** The node filters keep, in order, exactly the rows whose node is among
    the selected ones in every visible stage that has a selection; selections of
    stages that are not visible are ignored. *)
Theorem filterRowsByNodes_spec rows :
  filterRowsByNodes rows selected stages ctx = filter (λ row, selects row = true) rows.
Proof.
  unfold filterRowsByNodes. destruct (normalizeSelectedNodeFilters selected stages) as [|f fs] eqn:E.
  - induction rows as [|row rows IH]; [done|]. rewrite filter_cons, decide_True; [by f_equal|].
    by rewrite <-match_spec, E.
  - rewrite <-E. apply list_filter_iff. intros row. by rewrite match_spec.
Qed.
End filters.

(** ** Masks *)

Definition without_label (n : DashboardFlowNode) : DashboardFlowNode := with_label n [].
Definition without_labels (l : DashboardFlowLink) : DashboardFlowLink := with_labels l [] [].
Definition masked_text (s : jstr) : Prop := s = [] ∨ s = FLOW_MASK_TEXT.

Lemma maskFlowLabel_masked s : masked_text (maskFlowLabel s).
Proof. destruct s; [by left|by right]. Qed.

Section tables.
Context (ns : list (jstr * DashboardFlowNode)) (ls : list (jstr * DashboardFlowLink)).

Lemma mask_without :
  map without_label (maskFlowGraphLabels ns ls).1.*2 = map without_label ns.*2 ∧
  map without_labels (maskFlowGraphLabels ns ls).2.*2 = map without_labels ls.*2.
Proof.
  unfold maskFlowGraphLabels. cbn [fst snd]. split.
  - induction ns as [|[k n] rest IH]; [done|]. rewrite !fmap_cons. cbn [map prod_map fst snd]. f_equal; [|done].
    by destruct (is_masked n).
  - generalize (foldl (λ acc n, if is_masked n then mset (n_id n) (maskFlowLabel (n_label n)) acc else acc) [] ns.*2).
    intros ms. induction ls as [|[k l] rest IH]; [done|]. rewrite !fmap_cons. cbn [map prod_map fst snd]. by f_equal.
Qed.

(** The labels kept for the links. *)
Lemma masked_labels n0 :
  n0 ∈ ns.*2 → is_masked n0 = true →
  ∃ s, mget (n_id n0) (foldl (λ acc n, if is_masked n then mset (n_id n) (maskFlowLabel (n_label n)) acc else acc)
         [] ns.*2) = Some s ∧ masked_text s.
Proof.
  intros Hin Hm. induction (ns.*2) as [|n rest IH] using rev_ind; [by apply elem_of_nil in Hin|].
  rewrite foldl_app. cbn [foldl]. apply elem_of_app in Hin as [Hin| ->%list_elem_of_singleton].
  - destruct (IH Hin) as (s & Hs & Ht). destruct (is_masked n); [|eauto]. rewrite mget_mset.
    destruct (decide _); [|eauto]. eexists. split; [done|apply maskFlowLabel_masked].
  - rewrite Hm, mget_mset, decide_True by done. eexists. split; [done|apply maskFlowLabel_masked].
Qed.

Lemma mask_nodes n :
  n ∈ (maskFlowGraphLabels ns ls).1.*2 →
  ∃ n0, n0 ∈ ns.*2 ∧ n_id n = n_id n0 ∧ is_masked n = is_masked n0 ∧ (is_masked n = true → masked_text (n_label n)).
Proof.
  intros ([k n1] & -> & Hn)%list_elem_of_fmap. cbn [maskFlowGraphLabels fst snd] in Hn |- *.
  apply list_elem_of_fmap in Hn as ([k0 n0] & E & Hn). cbn [prod_map fst snd] in E. injection E as _ E.
  exists n0. split; [by apply (list_elem_of_fmap_2 snd) in Hn|]. subst n1.
  destruct (is_masked n0) eqn:Em; [|split_and!; [done|done|congruence]].
  split_and!; [done|done|]. intros _. apply maskFlowLabel_masked.
Qed.

Lemma mask_links l n0 :
  l ∈ (maskFlowGraphLabels ns ls).2.*2 → n0 ∈ ns.*2 → is_masked n0 = true →
  (l_source l = n_id n0 → masked_text (sourceLabel l)) ∧ (l_target l = n_id n0 → masked_text (targetLabel l)).
Proof.
  intros ([k l1] & -> & Hl)%list_elem_of_fmap Hn0 Hm. cbn [maskFlowGraphLabels fst snd] in Hl |- *.
  apply list_elem_of_fmap in Hl as ([k0 l0] & E & Hl). cbn [prod_map fst snd] in E. injection E as _ ->.
  destruct (masked_labels n0 Hn0 Hm) as (s & Hs & Ht). cbn [with_labels l_source l_target sourceLabel targetLabel].
  split; intros ->; by rewrite Hs.
Qed.
End tables.

Section mask.
Context (localeCompare : jstr → jstr → Z) (dataScheme : list (option Z * list (option jstr))).
Context (rows : list FlowQuotaDataItem) (metric : FlowMetric) (r : FlowRole) (palette : option (list jstr))
  (visible : option (list FlowNodeKind)) (ctx : FlowPathContext) (options : FlowGraphOptions).

Definition with_mask (b : bool) : FlowGraphOptions :=
  mkGraphOptions (g_topNodeLimit options) (g_overflowMode options) (g_otherNodeLabel options)
    (g_activeNode options) (g_activeLink options) b.
Definition graph_masked (b : bool) : DashboardFlowGraph :=
  buildFlowGraph localeCompare dataScheme rows metric r palette visible ctx (with_mask b).

Lemma find_map ls k :
  list_find (λ l, linkStableKey l = k) (map without_labels ls)
  = prod_map (λ i, i) without_labels <$> list_find (λ l, linkStableKey l = k) ls.
Proof.
  rewrite list_find_fmap. f_equal.
Qed.

Lemma display_without ls :
  map without_labels (assignLinkDisplayColors localeCompare ls)
  = assignLinkDisplayColors localeCompare (map without_labels ls).
Proof.
  unfold assignLinkDisplayColors. rewrite !map_map. apply map_ext. intros l.
  assert (sourceLinks localeCompare (map without_labels ls) (l_source (without_labels l))
          = map without_labels (sourceLinks localeCompare ls (l_source l))) as ->.
  { unfold sourceLinks. rewrite <-(sort_by_map without_labels (λ a b, then_by (num_sign (l_value b) (l_value a))
                    (localeCompare (linkStableKey a) (linkStableKey b)))) by done.
    f_equal. cbn [without_labels with_labels l_source].
    induction ls as [|l0 ls IH]; [done|]. cbn [map]. rewrite !filter_cons.
    change (l_source (without_labels l0)) with (l_source l0). rewrite IH. by destruct (decide _). }
  rewrite find_map, length_map.
  change (linkStableKey (without_labels l)) with (linkStableKey l).
  destruct (list_find _ (sourceLinks localeCompare ls (l_source l))) as [[i k]|]; [|done].
  cbn [fmap option_fmap option_map prod_map fst snd].
  change (l_color (without_labels l)) with (l_color l). by destruct (alphaColor _ _).
Qed.

Lemma total_without prepared ls : firstTotal prepared (map without_labels ls) = firstTotal prepared ls.
Proof.
  unfold firstTotal. generalize zero. induction ls as [|l ls IH]; intros z; [done|]. cbn [map]. rewrite !filter_cons.
  change (l_source (without_labels l)) with (l_source l). destruct (decide _); cbn [foldl]; apply IH.
Qed.

Lemma map_comm {A B C D} (f : A → B) (g : B → C) (g' : A → D) (f' : D → C) l :
  (∀ x, g (f x) = f' (g' x)) → map g (map f l) = map f' (map g' l).
Proof. intros H. rewrite !map_map. by apply map_ext. Qed.

Lemma links_without prepared ls ls' :
  map without_labels ls = map without_labels ls' →
  let fin := λ fl, assignLinkDisplayColors localeCompare (map (with_share (firstTotal prepared fl)) fl) in
  let srt := sort_by (λ a b, then_by (localeCompare (l_source a) (l_source b)) (localeCompare (l_target a) (l_target b))) in
  map without_labels (fin (srt ls)) = map without_labels (fin (srt ls')).
Proof.
  intros E. cbv beta zeta. rewrite !display_without. f_equal.
  assert (∀ t fl, map without_labels (map (with_share t) fl) = map (with_share t) (map without_labels fl)) as Hc
    by (intros; by apply map_comm).
  rewrite !Hc. rewrite <-(total_without prepared (sort_by _ ls)), <-(total_without prepared (sort_by _ ls')).
  rewrite <-!(sort_by_map without_labels (λ a b, then_by (localeCompare (l_source a) (l_source b))
    (localeCompare (l_target a) (l_target b)))) by done.
  by rewrite E.
Qed.

(** Masking changes nothing but labels: the masked and the unmasked chart
    have the same nodes up to order (ties are broken by label) and the same
    links in the same order, labels aside. *)
Theorem masking_changes_only_labels :
  map without_label (nodes (graph_masked true)) ≡ₚ map without_label (nodes (graph_masked false)) ∧
  map without_labels (links (graph_masked true)) = map without_labels (links (graph_masked false)).
Proof.
  unfold graph_masked, buildFlowGraph. cbn [with_mask g_topNodeLimit g_overflowMode g_otherNodeLabel g_activeNode g_activeLink g_maskSensitive].
  set (prepared := preparePaths _ _ _ _ _ _). set (h := buildFlowHighlightSets _ _ _ _).
  destruct (addPaths metric _ prepared) as [ns ls].
  pose proof (mask_without ns ls) as [Hn Hl]. destruct (maskFlowGraphLabels ns ls) as [ns' ls']. cbn [fst snd] in *.
  assert (map without_label (applyFlowHighlights ns'.*2 ls'.*2 h).1 = map without_label (applyFlowHighlights ns.*2 ls.*2 h).1
    ∧ map without_labels (applyFlowHighlights ns'.*2 ls'.*2 h).2 = map without_labels (applyFlowHighlights ns.*2 ls.*2 h).2) as [Hn' Hl'].
  { destruct h as [h|]; [|done]. cbn [applyFlowHighlights fst snd]. split.
    - rewrite !(map_comm (highlight_node h) without_label without_label (highlight_node h)) by done. by rewrite Hn.
    - rewrite !(map_comm (highlight_link h) without_labels without_labels (highlight_link h)) by done. by rewrite Hl. }
  destruct (applyFlowHighlights ns'.*2 ls'.*2 h) as [ns1' ls1'], (applyFlowHighlights ns.*2 ls.*2 h) as [ns1 ls1].
  cbn [fst snd nodes links] in *. split; [|by apply links_without].
  rewrite !sort_by_perm. by rewrite Hn'.
Qed.

(** What a reader sees of a node and of a link. *)
Definition node_text (n : DashboardFlowNode) : jstr * FlowNodeKind * jstr := (n_id n, n_kind n, n_label n).
Definition link_text (l : DashboardFlowLink) : jstr * jstr * jstr * jstr :=
  (l_source l, l_target l, sourceLabel l, targetLabel l).

Lemma highlight_texts ns ls h :
  map node_text (applyFlowHighlights ns ls h).1 = map node_text ns ∧
  map link_text (applyFlowHighlights ns ls h).2 = map link_text ls.
Proof. destruct h as [h|]; [|done]. cbn [applyFlowHighlights fst snd]. by rewrite !map_map. Qed.

Lemma display_texts ls : map link_text (assignLinkDisplayColors localeCompare ls) = map link_text ls.
Proof.
  unfold assignLinkDisplayColors. rewrite map_map. apply map_ext. intros l.
  destruct (list_find _ _) as [[i k]|]; [|done]. by destruct (alphaColor _ _).
Qed.

Lemma masked_texts :
  ∃ ns ls, map node_text (nodes (graph_masked true)) ≡ₚ map node_text (maskFlowGraphLabels ns ls).1.*2 ∧
           map link_text (links (graph_masked true)) ≡ₚ map link_text (maskFlowGraphLabels ns ls).2.*2.
Proof.
  unfold graph_masked, buildFlowGraph. cbn [with_mask g_topNodeLimit g_overflowMode g_otherNodeLabel g_activeNode g_activeLink g_maskSensitive].
  set (prepared := preparePaths _ _ _ _ _ _). set (h := buildFlowHighlightSets _ _ _ _).
  destruct (addPaths metric _ prepared) as [ns ls]. exists ns, ls.
  destruct (maskFlowGraphLabels ns ls) as [ns1 ls1]. cbn [fst snd].
  pose proof (highlight_texts ns1.*2 ls1.*2 h) as [Hn Hl].
  destruct (applyFlowHighlights ns1.*2 ls1.*2 h) as [ns2 ls2]. cbn [fst snd nodes links] in *. split.
  - rewrite <-Hn. apply Permutation_map, sort_by_perm.
  - rewrite display_texts, map_map, <-Hl. apply Permutation_map, sort_by_perm.
Qed.

(** Masking hides every sensitive name: in a masked chart the label of a
    user, node, token, group or channel is empty or the mask, and so is the
    label of it that a link carries; the collected rest of a stage keeps its
    label. *)
Theorem masking_hides_names n :
  n ∈ nodes (graph_masked true) → is_masked n = true →
  masked_text (n_label n) ∧
  ∀ l, l ∈ links (graph_masked true) →
    (l_source l = n_id n → masked_text (sourceLabel l)) ∧ (l_target l = n_id n → masked_text (targetLabel l)).
Proof.
  destruct masked_texts as (ns & ls & Hn & Hl). intros Hin Hm.
  apply (list_elem_of_fmap_2 node_text) in Hin. change (node_text <$> ?x) with (map node_text x) in Hin.
  rewrite Hn in Hin. apply list_elem_of_fmap in Hin as (n' & E & Hn'). unfold node_text in E. injection E as E1 E2 E3.
  assert (is_masked n' = true) as Hm' by (unfold is_masked in *; congruence).
  destruct (mask_nodes ns ls n' Hn') as (n0 & Hn0 & Hi & Hk & Ht). rewrite E1, E3, Hi. split; [auto|].
  intros l Hlin. apply (list_elem_of_fmap_2 link_text) in Hlin. change (link_text <$> ?x) with (map link_text x) in Hlin.
  rewrite Hl in Hlin. apply list_elem_of_fmap in Hlin as (l' & E & Hl'). unfold link_text in E. injection E as F1 F2 F3 F4.
  rewrite F1, F2, F3, F4. apply (mask_links ns ls l' n0 Hl' Hn0). congruence.
Qed.
End mask.

(** ** The limit *)

Section limit.
Context (localeCompare : jstr → jstr → Z) (dataScheme : list (option Z * list (option jstr))).
Context (rows : list FlowQuotaDataItem) (metric : FlowMetric) (r : FlowRole) (palette : option (list jstr))
  (visible : option (list FlowNodeKind)) (ctx : FlowPathContext) (options : FlowGraphOptions).
Let stages := resolveVisibleStages r visible.
Let mode := default DEFAULT_FLOW_OVERFLOW_MODE (g_overflowMode options).
Let g := buildFlowGraph localeCompare dataScheme rows metric r palette visible ctx options.

Lemma mset_fold_keys (l : list FlowNodeKind) (m : list (FlowNodeKind * list (jstr * FlowNodeRank))) k :
  k ∈ (foldl (λ totals stage, mset stage [] totals) m l).*1 ↔ k ∈ m.*1 ∨ k ∈ l.
Proof.
  revert m. induction l as [|x l IH]; intros m; cbn [foldl]; [set_solver|].
  rewrite IH, mset_elem_keys, elem_of_cons. tauto.
Qed.

Lemma add_rank_keys v t n k : k ∈ (add_rank v t n).*1 ↔ k ∈ t.*1.
Proof.
  unfold add_rank. destruct (mget (kind n) t) as [st|] eqn:E; [|done]. rewrite mset_elem_keys.
  split; [|by right]. intros [->|?]; [|done]. apply mget_is_Some. by eexists.
Qed.

Lemma stage_totals_keys k : k ∈ (stage_totals rows metric stages ctx).*1 ↔ k ∈ stages.
Proof.
  unfold stage_totals.
  transitivity (k ∈ (foldl (λ totals stage, mset stage [] totals)
    ([] : list (FlowNodeKind * list (jstr * FlowNodeRank))) stages).*1); [|rewrite mset_fold_keys; set_solver].
  generalize (foldl (λ totals stage, mset stage [] totals) ([] : list (FlowNodeKind * list (jstr * FlowNodeRank))) stages).
  induction rows as [|row rs IH]; intros t; cbn [foldl]; [done|]. rewrite IH. clear IH.
  revert t. induction (flowPathForStages row stages ctx) as [|n p IH]; intros t; cbn [foldl]; [done|].
  by rewrite IH, add_rank_keys.
Qed.

Lemma mget_map {K V W} `{EqDecision K} (f : K → V → W) (m : list (K * V)) k :
  mget k (map (λ '(k, v), (k, f k v)) m) = f k <$> mget k m.
Proof.
  induction m as [|[k0 v] m IH]; [done|]. cbn [map mget]. by destruct (decide (k0 = k)) as [->|].
Qed.

(** The kept ids of a stage are at most as many as the limit. *)
Lemma top_nodes lim k :
  k ∈ stages → ∃ tops top, buildTopNodeSets localeCompare rows metric stages (Some lim) ctx = Some tops ∧
    mget k tops = Some top ∧ (length top ≤ Z.to_nat lim)%nat.
Proof.
  intros Hk%stage_totals_keys%mget_is_Some. destruct Hk as [st Hst]. do 2 eexists. split; [done|].
  rewrite (mget_map (λ _ stageTotals, map (λ r, id (rank_node r))
    (take (Z.to_nat lim) (sort_by (rank_order localeCompare) (stageTotals.*2))))), Hst.
  split; [done|]. rewrite length_map, length_take. lia.
Qed.

Lemma prepared_top tops top k f q m :
  mget k tops = Some top → q ∈ preparePaths rows stages (Some tops) mode f ctx → m ∈ path q → kind m = k →
  id m ∈ top ∨ (mode = aggregate ∧ id m = OTHER_FLOW_NODE_IDS k).
Proof.
  intros Hk (row & Hrow & Hq)%list_elem_of_omap Hm Hkm.
  destruct (applyTopNodeLimit _ _ _ _) as [p|] eqn:E; [|done]. cbn in Hq. apply (inj Some) in Hq. subst q.
  cbn [path] in Hm. unfold applyTopNodeLimit in E.
  assert (∀ n, kind n = k → isTopFlowNode n (Some tops) = true → id n ∈ top) as Htop.
  { intros n Hn. unfold isTopFlowNode. cbn. rewrite Hn, Hk. by intros ?%has_true. }
  destruct (existsb _ _) eqn:Ex; cbn [negb] in E.
  - destruct mode; [|done]. apply (inj Some) in E. subst p. apply list_elem_of_fmap in Hm as (n & -> & Hn).
    destruct (isTopFlowNode n (Some tops)) eqn:Et; [left; by apply Htop|right]. cbn in Hkm. by subst k.
  - apply (inj Some) in E. subst p. left. apply Htop; [done|].
    destruct (isTopFlowNode m (Some tops)) eqn:Et; [done|]. rewrite <-Ex. apply existsb_exists.
    exists m. split; [by apply list_elem_of_In|]. by rewrite Et.
Qed.

(** The limit on the nodes of a stage holds: a stage shows at most that
    many nodes when the others are hidden, and one more, the collected rest,
    when they are aggregated. *)
Theorem node_limit_holds lim k :
  normalizeTopNodeLimit (g_topNodeLimit options) = Some lim → k ∈ stages →
  (length (filter (λ n, n_kind n = k) (nodes g)) ≤ Z.to_nat lim + match mode with aggregate => 1 | hide => 0 end)%nat.
Proof.
  intros Hlim Hk. destruct (top_nodes lim k Hk) as (tops & top & Ht & Hget & Hlen).
  destruct (graph_shapes localeCompare dataScheme rows metric r palette visible ctx options) as [Hp _].
  fold g stages mode in Hp. rewrite Hlim, Ht in Hp.
  set (prepared := preparePaths _ _ _ _ _ _) in Hp. set (color := rootColor _ _ _ _) in Hp.
  destruct (addPaths_entries metric color prepared) as (Hnd & _ & _ & _ & He & _).
  set (ns := (addPaths metric color prepared).1) in *.
  assert (length (filter (λ n, n_kind n = k) (nodes g)) = length (filter (λ n, n_kind n = k) ns.*2)) as ->.
  { rewrite <-(length_map n_value), <-(length_map n_value (filter _ ns.*2)).
    rewrite !(filter_shape nshape n_value snd (λ n, n_kind n = k) (λ s, s.1.2 = k)) by done.
    by rewrite !length_map, Hp. }
  destruct (keyed_values n_id ns Hnd ltac:(intros i n Hn; by apply (He i n))) as [Hval Hkey].
  transitivity (length (top ++ match mode with aggregate => [OTHER_FLOW_NODE_IDS k] | hide => [] end)).
  2: { rewrite length_app. destruct mode; cbn [length]; lia. }
  rewrite <-(length_map n_id). apply submseteq_length, NoDup_submseteq.
  - apply NoDup_fmap_2_strong; [|by apply list.NoDup_filter].
    intros a b [_ Ha%Hkey]%list_elem_of_filter [_ Hb%Hkey]%list_elem_of_filter E. rewrite E in Ha. congruence.
  - intros i (n & -> & [Hkn Hn%Hkey]%list_elem_of_filter)%list_elem_of_fmap.
    destruct (He _ _ Hn) as [_ (q & m & Hq & Hm & Hid & Hkm & _)].
    destruct (prepared_top tops top k _ q m Hget Hq Hm) as [Hin|[Hmode Hin]]; [congruence|..];
      apply elem_of_app; [left; congruence|right].
    rewrite Hmode, <-Hid, Hin. by left.
Qed.
End limit.

(** ** Samples *)

Lemma masking_hides_names_witness :
  Forall (λ n, is_masked n = true → masked_text (n_label n))
    (nodes (graph_masked code_unit_order [] sample_rows metric_requests role_admin None None
       EMPTY_FLOW_PATH_CONTEXT (sample_options aggregate) true)) ∧
  existsb is_masked (nodes (graph_masked code_unit_order [] sample_rows metric_requests role_admin None None
       EMPTY_FLOW_PATH_CONTEXT (sample_options aggregate) true)) = true.
Proof.
  split; [|vm_compute; reflexivity]. apply list.Forall_forall. intros n Hn Hm.
  apply (masking_hides_names code_unit_order [] sample_rows metric_requests role_admin None None
    EMPTY_FLOW_PATH_CONTEXT (sample_options aggregate) n Hn Hm).
Defined.

Lemma node_limit_holds_witness :
  (length (filter (λ n, n_kind n = kind_user) (nodes (sample_graph aggregate))) ≤ 2)%nat ∧
  (length (filter (λ n, n_kind n = kind_user) (nodes (sample_graph hide))) ≤ 1)%nat.
Proof.
  split.
  - apply (node_limit_holds code_unit_order [] sample_rows metric_requests role_admin None None
      EMPTY_FLOW_PATH_CONTEXT (sample_options aggregate) 1 kind_user); [reflexivity|by left].
  - apply (node_limit_holds code_unit_order [] sample_rows metric_requests role_admin None None
      EMPTY_FLOW_PATH_CONTEXT (sample_options hide) 1 kind_user); [reflexivity|by left].
Defined.

(** Ties between nodes are broken by the label, so masking can reorder them. *)
Example masking_can_reorder_nodes :
  let g b := graph_masked code_unit_order [] [sample_row "bob" "vip" "m1" "c1" 3; sample_row "ann" "vip" "m1" "c1" 3]
               metric_requests role_admin None (Some [kind_user; kind_model]) EMPTY_FLOW_PATH_CONTEXT
               (mkGraphOptions None None None None None false) b in
  map n_id (nodes (g false)) = [js "model:m1"; js "user:ann"; js "user:bob"] ∧
  map n_id (nodes (g true)) = [js "model:m1"; js "user:bob"; js "user:ann"].
Proof. vm_compute. done. Qed.
