(* ===== verification/Currency.v ===== *)
(** * Amounts and currencies

    Models [lib/currency.ts], the quota part of [lib/format.ts] and the currency
    part of [stores/system-config-store.ts]: the configuration of the displayed
    currency, the conversions between quota units, US dollars and the displayed
    amount, and their formatting.

    [Intl.NumberFormat] is a parameter.  Dates and times of [lib/format.ts] rest
    on dayjs and [Intl] and are left out. *)

From stdpp Require Import sorting.
From S2P Require Import Prelude StableSort JsValue JsCollections.

Module Currency.

(** ** The configuration *)

Inductive CurrencyDisplayType := USD | CNY | TOKENS | CUSTOM.
#[export] Instance CurrencyDisplayType_eq_dec : EqDecision CurrencyDisplayType.
Proof. solve_decision. Defined.

Record CurrencyConfig := mkCurrency {
  displayInCurrency : bool; quotaDisplayType : CurrencyDisplayType;
  quotaPerUnit : jsnum; usdExchangeRate : jsnum;
  customCurrencySymbol : jstr; customCurrencyExchangeRate : jsnum }.

Record SystemConfig := mkSystem {
  systemName : jstr; logo : jstr; footerHtml : option jstr; demoSiteEnabled : option bool;
  displayTokenStatEnabled : option bool; currency : CurrencyConfig }.
(** [Partial<SystemConfig>]: [None] is a missing property. *)
Record PartialSystem := mkPartialSystem {
  new_systemName : option jstr; new_logo : option jstr; new_footerHtml : option jstr;
  new_demoSiteEnabled : option bool; new_displayTokenStatEnabled : option bool;
  new_currency : option CurrencyConfig }.

Definition DEFAULT_CURRENCY_CONFIG : CurrencyConfig :=
  mkCurrency true USD (num_of_Z 500000) (num_of_Z 1) [164%N] (num_of_Z 1).

Definition with_new {A} (new old : option A) : option A :=
  match new with Some _ => new | None => old end.

(** [setConfig] of the store. *)
Definition setConfig (new : PartialSystem) (config : SystemConfig) : SystemConfig :=
  mkSystem (default (systemName config) (new_systemName new)) (default (logo config) (new_logo new))
    (with_new (new_footerHtml new) (footerHtml config))
    (with_new (new_demoSiteEnabled new) (demoSiteEnabled config))
    (with_new (new_displayTokenStatEnabled new) (displayTokenStatEnabled config))
    (default (currency config) (new_currency new)).

Definition DISPLAY_TYPE_VALUES : list (jstr * CurrencyDisplayType) :=
  [(js "USD", USD); (js "CNY", CNY); (js "TOKENS", TOKENS); (js "CUSTOM", CUSTOM)].

(** [isCurrencyDisplayType], with the type it recognizes. *)
Definition isCurrencyDisplayType (value : option json) : option CurrencyDisplayType :=
  match value with Some (JStr s) => field_get s DISPLAY_TYPE_VALUES | _ => None end.

Definition parseCurrencyDisplayType (value : option json) (fallback : CurrencyDisplayType)
    : CurrencyDisplayType :=
  default fallback (isCurrencyDisplayType value).

Definition zero : jsnum := S754_zero false.

(** [n && n > 0 ? n : fallback] *)
Definition positive_or (fallback n : jsnum) : jsnum :=
  if num_truthy n && num_ltb zero n then n else fallback.

Definition getConfig (stored : option CurrencyConfig) : CurrencyConfig :=
  let c := default DEFAULT_CURRENCY_CONFIG stored in
  mkCurrency (displayInCurrency c) (quotaDisplayType c)
    (positive_or (quotaPerUnit DEFAULT_CURRENCY_CONFIG) (quotaPerUnit c))
    (positive_or (usdExchangeRate DEFAULT_CURRENCY_CONFIG) (usdExchangeRate c))
    (or_else (trim (customCurrencySymbol c)) (customCurrencySymbol DEFAULT_CURRENCY_CONFIG))
    (positive_or (customCurrencyExchangeRate DEFAULT_CURRENCY_CONFIG) (customCurrencyExchangeRate c)).

(** ** What is displayed *)

Inductive DisplayMeta :=
| meta_currency (symbol currencyCode : jstr) (exchangeRate : jsnum)
| meta_custom (symbol : jstr) (exchangeRate : jsnum)
| meta_tokens (tokensPerUnit : jsnum).

Definition usd_meta : DisplayMeta := meta_currency (js "$") (js "USD") (num_of_Z 1).

Definition getDisplayMeta (config : CurrencyConfig) : DisplayMeta :=
  match quotaDisplayType config with
  | CNY => meta_currency [165%N] (js "CNY") (usdExchangeRate config)
  | CUSTOM => meta_custom (customCurrencySymbol config) (customCurrencyExchangeRate config)
  | TOKENS => meta_tokens (quotaPerUnit config)
  | USD => usd_meta
  end.

Definition getBillingDisplayMeta (config : CurrencyConfig) : DisplayMeta :=
  match getDisplayMeta config with meta_tokens _ => usd_meta | meta => meta end.

Definition getCurrencyDisplay (stored : option CurrencyConfig) : CurrencyConfig * DisplayMeta :=
  let config := getConfig stored in (config, getDisplayMeta config).

Definition getCurrencyLabel (stored : option CurrencyConfig) : jstr :=
  let '(config, meta) := getCurrencyDisplay stored in
  match meta with
  | meta_tokens _ => js "Tokens"
  | _ => match quotaDisplayType config with
         | CNY => js "CNY"
         | CUSTOM => match meta with meta_custom symbol _ => symbol | _ => js "Custom" end
         | _ => js "USD"
         end
  end.

Definition isCurrencyDisplayEnabled (stored : option CurrencyConfig) : bool :=
  match (getCurrencyDisplay stored).2 with meta_tokens _ => false | _ => true end.

(** ** Formatting *)

Record CurrencyFormatOptions := mkFormat {
  digitsLarge : option Z; digitsSmall : option Z; abbreviate : option bool;
  minimumNonZero : option jsnum; compact : option bool; showSymbol : option bool;
  locale : option jstr }.
Record ResolvedCurrencyFormatOptions := mkResolved {
  r_digitsLarge : Z; r_digitsSmall : Z; r_abbreviate : bool; r_minimumNonZero : jsnum;
  r_compact : bool; r_showSymbol : bool; r_locale : option jstr }.

Definition DEFAULT_FORMAT_OPTIONS : ResolvedCurrencyFormatOptions :=
  mkResolved 2 4 true zero false true None.

Definition mergeOptions (options : option CurrencyFormatOptions) : ResolvedCurrencyFormatOptions :=
  match options with
  | None => DEFAULT_FORMAT_OPTIONS
  | Some o =>
      mkResolved (default (r_digitsLarge DEFAULT_FORMAT_OPTIONS) (digitsLarge o))
        (default (r_digitsSmall DEFAULT_FORMAT_OPTIONS) (digitsSmall o))
        (default (r_abbreviate DEFAULT_FORMAT_OPTIONS) (abbreviate o))
        (default (r_minimumNonZero DEFAULT_FORMAT_OPTIONS) (minimumNonZero o))
        (default (r_compact DEFAULT_FORMAT_OPTIONS) (compact o))
        (default (r_showSymbol DEFAULT_FORMAT_OPTIONS) (showSymbol o))
        (with_new (locale o) (r_locale DEFAULT_FORMAT_OPTIONS))
  end.

(** [Math.abs] *)
Definition num_abs (n : jsnum) : jsnum := SFabs n.

Definition getFractionDigits (value : jsnum) (large small : Z) : Z :=
  if num_leb (num_of_Z 1) (num_abs value) then large else small.

Definition getCurrencyFractionDigits (value : jsnum) (options : option CurrencyFormatOptions) : Z :=
  let merged := mergeOptions options in
  getFractionDigits value (r_digitsLarge merged) (r_digitsSmall merged).

(** The text without the zeros at its start, and at its end. *)
Fixpoint skip_zeros (s : jstr) : jstr :=
  match s with [] => [] | c :: rest => if (c =? 48)%N then skip_zeros rest else s end.
Definition strip_zeros (s : jstr) : jstr := reverse (skip_zeros (reverse s)).

(** [str.replace(/(\.[0-9]*?)0+$/, '$1')]: at the first point that only digits
    follow, the last of them a zero. *)
Fixpoint strip_fraction (s : jstr) : jstr :=
  match s with
  | [] => []
  | c :: rest =>
      if (c =? 46)%N && forallb is_digit rest && bool_decide (list.last rest = Some 48%N)
      then c :: strip_zeros rest else c :: strip_fraction rest
  end.

(** [str.replace(/\.$/, '')] *)
Definition strip_point (s : jstr) : jstr :=
  if bool_decide (list.last s = Some 46%N) then removelast s else s.

Definition removeTrailingZeros (str : jstr) : jstr :=
  if bool_decide (46%N ∈ str) then strip_point (strip_fraction str) else str.

Definition formatNumberWithSuffix (value : jsnum) (large small : Z) (abbrev : bool) : jstr :=
  if abbrev && num_leb (num_of_Z 1000) (num_abs value)
  then removeTrailingZeros (toFixed 1 (num_div value (num_of_Z 1000))) ++ js "k"
  else removeTrailingZeros (toFixed (getFractionDigits value large small) value).

(** [Math.pow(10, -digits)] is the double nearest to the power. *)
Definition adjustForMinimum (value : jsnum) (digits : Z) (minimum : jsnum) : jsnum :=
  if num_eqb value zero then value
  else
    let threshold := if num_ltb zero minimum then minimum else num_of_dec false 1 (- digits) in
    let abs := num_abs value in
    if num_ltb zero abs && num_ltb abs threshold
    then (if num_ltb zero value then threshold else SFopp threshold)
    else value.

(** The options of [new Intl.NumberFormat(locale, ...)] the code passes. *)
Inductive IntlStyle := style_decimal | style_currency (code : jstr) | style_percent.
Record IntlOptions := mkIntl {
  i_locale : option jstr; i_style : IntlStyle; i_compact : bool;
  i_minimumFractionDigits : option Z; i_maximumFractionDigits : Z }.

Section format.
Context (intl : IntlOptions → jsnum → jstr) (stored : option CurrencyConfig).

Definition compact_tokens (l : option jstr) (value : jsnum) : jstr :=
  intl (mkIntl l style_decimal true None 1) value.

Definition formatCurrencyValue (value : jsnum) (o : ResolvedCurrencyFormatOptions) (meta : DisplayMeta) : jstr :=
  let digits := getFractionDigits value (r_digitsLarge o) (r_digitsSmall o) in
  let adjusted := adjustForMinimum value digits (r_minimumNonZero o) in
  let decimal := intl (mkIntl (r_locale o) style_decimal (r_compact o) (Some 0)
                   (if r_compact o then 1 else digits)) adjusted in
  match meta with
  | meta_tokens _ =>
      if r_compact o then compact_tokens (r_locale o) value
      else formatNumberWithSuffix value (r_digitsLarge o) (r_digitsSmall o) (r_abbreviate o)
  | meta_currency _ code _ =>
      if negb (r_showSymbol o) then decimal
      else intl (mkIntl (r_locale o) (style_currency code) (r_compact o) (Some 0)
                   (if r_compact o then 1 else digits)) adjusted
  | meta_custom symbol _ => if r_showSymbol o then symbol ++ js " " ++ decimal else decimal
  end.

Definition formatCurrencyFromUSD (amountUSD : option jsnum) (options : option CurrencyFormatOptions) : jstr :=
  match amountUSD with
  | None | Some S754_nan => js "-"
  | Some amount =>
      let '(config, meta) := getCurrencyDisplay stored in
      let merged := mergeOptions options in
      match meta with
      | meta_tokens _ =>
          let tokens := num_mul amount (quotaPerUnit config) in
          if r_compact merged then compact_tokens (r_locale merged) tokens
          else formatNumberWithSuffix tokens 0 (r_digitsSmall merged) (r_abbreviate merged)
      | meta_currency _ _ rate | meta_custom _ rate =>
          formatCurrencyValue (num_mul amount rate) merged meta
      end
  end.

Definition formatBillingCurrencyFromUSD (amountUSD : option jsnum) (options : option CurrencyFormatOptions) : jstr :=
  match amountUSD with
  | None | Some S754_nan => js "-"
  | Some amount =>
      let meta := getBillingDisplayMeta (getCurrencyDisplay stored).1 in
      let value := match meta with
                   | meta_currency _ _ rate | meta_custom _ rate => num_mul amount rate
                   | meta_tokens _ => amount
                   end in
      formatCurrencyValue value (mergeOptions options) meta
  end.

Definition formatQuotaWithCurrency (quota : option jsnum) (options : option CurrencyFormatOptions) : jstr :=
  match quota with
  | None | Some S754_nan => js "-"
  | Some q => formatCurrencyFromUSD (Some (num_div q (quotaPerUnit (getCurrencyDisplay stored).1))) options
  end.

Definition formatLocalCurrencyAmount (amount : option jsnum) (options : option CurrencyFormatOptions) : jstr :=
  match amount with
  | None | Some S754_nan => js "-"
  | Some amount =>
      formatCurrencyValue amount (mergeOptions options) (getBillingDisplayMeta (getCurrencyDisplay stored).1)
  end.

(** *** [lib/format.ts] *)

Definition formatNumber (value : option jsnum) (locales : option jstr) : jstr :=
  match value with
  | None | Some S754_nan => js "-"
  | Some v => intl (mkIntl locales style_decimal false None 2) v
  end.

Definition formatCompactNumber (value : option jsnum) (locales : option jstr) : jstr :=
  match value with
  | None | Some S754_nan => js "-"
  | Some v => intl (mkIntl locales style_decimal true None 1) v
  end.

Definition formatPercent (value : option jsnum) : jstr :=
  match value with
  | None | Some S754_nan => js "-"
  | Some v => intl (mkIntl None style_percent false None 2) (num_div v (num_of_Z 100))
  end.

Definition formatCurrencyUSD (value : option jsnum) : jstr := formatCurrencyFromUSD value None.

Definition formatQuota (quota : jsnum) : jstr :=
  formatQuotaWithCurrency (Some quota) (Some (mkFormat (Some 2) (Some 4) (Some true) None None None None)).

Definition formatLogQuota (quota : jsnum) : jstr :=
  formatQuotaWithCurrency (Some quota) (Some (mkFormat (Some 4) (Some 6) (Some false) None None None None)).
End format.

Definition formatTokens (tokens : jsnum) : jstr :=
  if num_eqb tokens zero then js "-"
  else if num_ltb tokens (num_of_Z 1000) then num_to_string tokens
  else if num_ltb tokens (num_of_Z 1000000)
  then toFixed 1 (num_div tokens (num_of_Z 1000)) ++ js "K"
  else toFixed 2 (num_div tokens (num_of_Z 1000000)) ++ js "M".

(** ** Quota units and displayed amounts *)

Section quota.
Context (stored : option CurrencyConfig).

Definition parseQuotaFromDollars (amount : jsnum) : jsnum :=
  if negb (isFinite amount) then zero
  else
    let '(config, meta) := getCurrencyDisplay stored in
    match meta with
    | meta_tokens _ => num_round amount
    | meta_currency _ _ rate | meta_custom _ rate =>
        let usdAmount := if num_ltb zero rate then num_div amount rate else amount in
        num_round (num_mul usdAmount (quotaPerUnit config))
    end.

Definition quotaUnitsToDisplayAmount (units per_unit : jsnum) (meta : DisplayMeta) : jsnum :=
  match meta with
  | meta_tokens _ => units
  | meta_currency _ _ rate | meta_custom _ rate => num_mul (num_div units per_unit) rate
  end.

Definition quotaUnitsToDollars (units : jsnum) : jsnum :=
  let '(config, meta) := getCurrencyDisplay stored in
  quotaUnitsToDisplayAmount units (quotaPerUnit config) meta.

Definition quotaUnitsToEditableAmount (units : jsnum) : jsnum :=
  let '(config, meta) := getCurrencyDisplay stored in
  let amount := quotaUnitsToDisplayAmount units (quotaPerUnit config) meta in
  match meta with
  | meta_tokens _ => num_round amount
  | _ => Number (toFixed (getCurrencyFractionDigits amount None) amount)
  end.

Definition getEditableQuotaStep : jsnum :=
  match (getCurrencyDisplay stored).2 with
  | meta_tokens _ => num_of_Z 1
  | _ => num_of_dec false 1 (- getCurrencyFractionDigits zero None)
  end.
End quota.

(** ** Colors of names *)

(** The 32-bit integer of a number. *)
Definition to_int32 (z : Z) : Z := (z + 2 ^ 31) mod 2 ^ 32 - 2 ^ 31.

Definition hash_step (hash : Z) (c : N) : Z :=
  to_int32 (Z.of_N c + (to_int32 (Z.shiftl hash 5) - hash)).

Definition string_hash (str : jstr) : Z := foldl hash_step 0 str.

(** Hue, saturation and lightness; [%] has the sign of its first operand. *)
Definition color_parts (hash : Z) : Z * Z * Z :=
  (Z.abs (Z.rem hash 360), 65 + Z.rem (Z.abs hash) 10, 55 + Z.rem (Z.abs (Z.shiftr hash 8)) 10).

Definition stringToColor (str : jstr) : jstr :=
  match str with
  | [] => js "gray"
  | _ => let '(hue, saturation, lightness) := color_parts (string_hash str) in
         js "hsl(" ++ digits_Z hue ++ js ", " ++ digits_Z saturation ++ js "%, "
         ++ digits_Z lightness ++ js "%)"
  end.

Example suffix_ex :
  map (λ '(v, b), formatNumberWithSuffix v 2 4 b)
    [(num_of_Z 5000000, true); (num_of_dec false 12345 (-1), true); (num_of_dec false 12345 (-1), false);
     (num_of_dec true 5 (-1), true); (num_of_Z 100, false)]
  = [js "5000k"; js "1.2k"; js "1234.5"; js "-0.5"; js "100"].
Proof. vm_compute. reflexivity. Qed.

Example color_ex : stringToColor (js "default") = js "hsl(345, 70%, 55%)".
Proof. vm_compute. reflexivity. Qed.

End Currency.
