(* ===== verification/Comparators.v ===== *)
(** * Comparators

    What [Array.sort] asks of a comparator, as a class; the comparators of the
    program are its instances.  A comparator need not be lawful everywhere: the
    difference of two numbers is not when one of them is NaN, so the laws hold
    for the elements of a predicate. *)

From stdpp Require Import sorting.
From S2P Require Import Prelude StableSort JsValue NumFacts JsCollections.

(** ** The order of numbers *)

Definition not_nan (x : jsnum) : bool := match x with S754_nan => false | _ => true end.

(** A number's place: its class, then its exponent, then its mantissa. *)
Definition place (x : jsnum) : Z * Z * Z :=
  match x with
  | S754_nan => (3, 0, 0)
  | S754_infinity true => (-2, 0, 0) | S754_infinity false => (2, 0, 0)
  | S754_zero _ => (0, 0, 0)
  | S754_finite true m e => (-1, -e, -Zpos m) | S754_finite false m e => (1, e, Zpos m)
  end.

Definition before (a b : Z * Z * Z) : Prop :=
  a.1.1 < b.1.1 ∨ a.1.1 = b.1.1 ∧ (a.1.2 < b.1.2 ∨ a.1.2 = b.1.2 ∧ a.2 < b.2).

Ltac place_cases := split; intros; first [done | lia | exfalso; lia].

Lemma num_ltb_place a b : not_nan a = true → not_nan b = true → num_ltb a b = true ↔ before (place a) (place b).
Proof.
  intros Ha Hb. unfold num_ltb, SFltb, SFcompare, before.
  destruct a as [[]|[]| |[] m e], b as [[]|[]| |[] m' e']; try done; cbn [place fst snd]; try (split; [done|lia]); try (split; [lia|done]).
  - rewrite !pos_compare_Z. destruct (Z.compare_spec e e') as [->|H|H]; cbv beta iota; [|place_cases|place_cases].
    destruct (Z.compare_spec (Zpos m) (Zpos m')); cbv beta iota; place_cases.
  - rewrite !pos_compare_Z. destruct (Z.compare_spec e e') as [->|H|H]; cbv beta iota; [|place_cases|place_cases].
    destruct (Z.compare_spec (Zpos m) (Zpos m')); cbv beta iota; place_cases.
Qed.

Lemma num_ltb_trans a b c : not_nan a = true → not_nan b = true → not_nan c = true →
  num_ltb a b = true → num_ltb b c = true → num_ltb a c = true.
Proof. intros Ha Hb Hc. rewrite !num_ltb_place by done. unfold before. lia. Qed.

(** [a <= b] as a negation: the only order that sorting uses. *)
Lemma num_ltb_total a b : num_ltb a b = false ∨ num_ltb b a = false.
Proof.
  destruct (not_nan a) eqn:Ha; [|destruct a; try done; by destruct b; left]. destruct (not_nan b) eqn:Hb; [|destruct b; try done; by destruct a; left].
  destruct (num_ltb a b) eqn:E; [right|by left]. destruct (num_ltb b a) eqn:E'; [|done].
  apply num_ltb_place in E; [|done|done]. apply num_ltb_place in E'; [|done|done]. unfold before in *. lia.
Qed.

Lemma num_ge_trans a b c : not_nan a = true → not_nan b = true → not_nan c = true →
  num_ltb a b = false → num_ltb b c = false → num_ltb a c = false.
Proof.
  intros Ha Hb Hc. rewrite <-!not_true_iff_false, !num_ltb_place by done. unfold before. lia.
Qed.

(** ** The laws of a comparator *)

Class Comparator {A} (P : A → Prop) (cmp : A → A → Z) : Prop := {
  cmp_total a b : P a → P b → cmp a b ≤ 0 ∨ cmp b a ≤ 0;
  cmp_trans a b c : P a → P b → P c → cmp a b ≤ 0 → cmp b c ≤ 0 → cmp a c ≤ 0 }.

#[export] Instance num_sign_comparator : Comparator (λ x, not_nan x = true) num_sign.
Proof.
  assert (∀ a b, num_sign a b ≤ 0 ↔ num_ltb b a = false) as H.
  { intros a b. unfold num_sign. destruct (num_ltb b a), (num_ltb a b); split; (done || lia). }
  split.
  - intros a b _ _. rewrite !H. destruct (num_ltb_total a b); tauto.
  - intros a b c Ha Hb Hc. rewrite !H. intros H1 H2. by apply (num_ge_trans c b a).
Qed.

(** Comparing by a key, and the other way round. *)
#[export] Instance on_comparator {A B} (f : A → B) (P : B → Prop) cmp :
  Comparator P cmp → Comparator (λ a, P (f a)) (λ a b, cmp (f a) (f b)).
Proof. intros [Ht Htr]. split; [intros a b; apply Ht|intros a b c; apply Htr]. Qed.

Lemma flip_comparator {A} (P : A → Prop) cmp : Comparator P cmp → Comparator P (λ a b, cmp b a).
Proof. intros [Ht Htr]. split; [intros a b Ha Hb; destruct (Ht a b); tauto|]. intros a b c Ha Hb Hc H1 H2. by apply (Htr c b a). Qed.

(** ** Sorting by a lawful comparator *)

Section sorting.
Context {A} (P : A → Prop) (cmp : A → A → Z) `{!Comparator P cmp}.

Lemma insert_sorted_by x l : P x → Forall P l → StronglySorted (cmp_le cmp) l → StronglySorted (cmp_le cmp) (sorted_insert (cmp_le cmp) x l).
Proof.
  intros Hx. induction l as [|y l IH]; [by repeat constructor|]. intros [Hy Hl]%list.Forall_cons [Hs Hall]%StronglySorted_inv.
  cbn [sorted_insert]. destruct (decide (cmp_le cmp x y)) as [Hle|Hle].
  - constructor; [by constructor|]. constructor; [done|]. rewrite list.Forall_forall in Hall, Hl |- *. intros z Hz.
    apply (cmp_trans x y z); auto. by apply Hall.
  - constructor; [by apply IH|]. rewrite list.Forall_forall in Hall |- *. intros z Hz. rewrite sorted_insert_perm in Hz.
    apply elem_of_cons in Hz as [->|Hz]; [|by apply Hall]. unfold cmp_le in *. destruct (cmp_total x y) as [?|?]; done.
Qed.

Lemma sort_by_sorted l : Forall P l → StronglySorted (cmp_le cmp) (sort_by cmp l).
Proof.
  unfold sort_by. induction l as [|x l IH]; [constructor|]. intros [Hx Hl]%list.Forall_cons. cbn [stable_sort].
  apply insert_sorted_by; [done| |by apply IH]. by rewrite stable_sort_perm.
Qed.
End sorting.
