(* ===== verification/SecureVerification.v ===== *)
(** * Verification before a sensitive action

    Models [features/auth/secure-verification/hooks/use-secure-verification.ts], the
    dialog around it ([components/secure-verification-dialog.tsx]), its check of the
    methods ([api.ts]) and [lib/secure-verification.ts]: an action that needs a
    proof opens a dialog, the user proves who they are for a scope, and the action
    runs with the proof.  Also the two files of the OAuth popups,
    [features/auth/lib/oauth-callback-mode.ts] and [oauth-bind-window.ts].

    The hook is a machine of events: what awaits a reply is kept with the values
    it has captured, handlers act on the state that was last drawn, and updaters
    act on the state that is held.  An action is a number; the server and the
    authenticator answer anything. *)

From S2P Require Import Prelude JsValue JsCollections.

Module SecureVerification.

(** ** Which errors ask for a proof *)

Definition verificationCodes : list jstr := [
  js "VERIFICATION_REQUIRED"; js "VERIFICATION_EXPIRED"; js "VERIFICATION_INVALID"; js "SECURITY_PROOF_REQUIRED";
  js "SECURITY_PROOF_EXPIRED"; js "SECURITY_PROOF_INVALID"; js "SECURITY_PROOF_SCOPE_MISMATCH"; js "SECURITY_PROOF_METHOD_MISMATCH"].

(** The status and the code of the response of an axios error. *)
Record AxiosError := mkAxiosError { err_status : option Z; err_code : option jstr; err_message : option jstr }.
Definition isVerificationRequiredError (e : option AxiosError) : bool :=
  match e with
  | Some e => bool_decide (err_status e = Some 403) && truthy_opt (err_code e) && has (default [] (err_code e)) verificationCodes
  | None => false
  end.
Definition extractVerificationMessage (e : AxiosError) : jstr := default (js "Secure verification is required") (err_message e).

(** ** Methods *)

Inductive VerificationMethod := twoFA | passkey.
#[export] Instance VerificationMethod_eq_dec : EqDecision VerificationMethod.
Proof. solve_decision. Defined.

Record VerificationMethods := mkMethods { has2FA : bool; hasPasskey : bool; passkeySupported : bool }.
Definition defaultMethods : VerificationMethods := mkMethods false false false.

(** The replies about the two methods: success and whether it is enabled; [None] if a request failed. *)
Definition checkVerificationMethods (replies : option (bool * bool * (bool * bool) * bool)) : VerificationMethods :=
  match replies with
  | Some (s2, e2, (sp, ep), supported) => mkMethods (s2 && e2) (sp && ep) supported
  | None => defaultMethods
  end.

Definition usable (m : VerificationMethod) (ms : VerificationMethods) : bool :=
  match m with twoFA => has2FA ms | passkey => hasPasskey ms && passkeySupported ms end.
Definition canUseMethod (ms : VerificationMethods) (m : VerificationMethod) : bool := usable m ms.
Definition recommendedMethod (ms : VerificationMethods) : option VerificationMethod :=
  if hasPasskey ms && passkeySupported ms then Some passkey else if has2FA ms then Some twoFA else None.

(** The method the dialog starts with. *)
Definition defaultMethod (preferred : option VerificationMethod) (ms : VerificationMethods) : option VerificationMethod :=
  let wanted := match preferred with Some m => if usable m ms then Some m else None | None => None end in
  match wanted with Some m => Some m | None => recommendedMethod ms end.

(** ** The hook *)

Inductive Scope := channel_key_read | passkey_register | passkey_delete.
#[export] Instance Scope_eq_dec : EqDecision Scope.
Proof. solve_decision. Defined.

Record StartOptions := mkStart { scope_of : Scope; preferredMethod : option VerificationMethod }.

Record State := mkState {
  method : option VerificationMethod; loading : bool; code : jstr; scope : option Scope; apiCall : option nat }.
Definition initialState : State := mkState None false [] None None.

(** A verification that runs: the proof is asked for, or the action runs with it. *)
Inductive Run := verifying (call : nat) (s : Scope) | calling (call : nat).

Inductive Effect :=
  | toast (key : jstr)
  | verified (m : VerificationMethod) (s : Scope) (c : jstr)   (* the call of [verify] *)
  | called (call : nat) (proof : option jstr).                 (* the action runs *)

Record World := mkWorld {
  methods : VerificationMethods;
  state : State;
  isOpen : bool;
  shown : State;                                (* the state of the last render, *)
  shownOpen : bool;                             (* whether it drew the dialog *)
  shownMethods : VerificationMethods;           (* and the methods it offered *)
  starting : list (nat * StartOptions);         (* actions whose methods are being asked for *)
  trying : list (nat * StartOptions);           (* actions that run without a proof *)
  runs : list (nat * Run);
  nextRun : nat;
  effects : list Effect;
}.

Definition set_state (s : State) (w : World) : World :=
  mkWorld (methods w) s (isOpen w) (shown w) (shownOpen w) (shownMethods w) (starting w) (trying w) (runs w) (nextRun w) (effects w).
Definition emit (e : Effect) (w : World) : World :=
  mkWorld (methods w) (state w) (isOpen w) (shown w) (shownOpen w) (shownMethods w) (starting w) (trying w) (runs w) (nextRun w) (effects w ++ [e]).
Definition set_loading (b : bool) (w : World) : World :=
  set_state (mkState (method (state w)) b (code (state w)) (scope (state w)) (apiCall (state w))) w.
Definition reset (w : World) : World :=
  mkWorld (methods w) initialState false (shown w) (shownOpen w) (shownMethods w) (starting w) (trying w) (runs w) (nextRun w) (effects w).
Definition set_runs (l : list (nat * Run)) (w : World) : World :=
  mkWorld (methods w) (state w) (isOpen w) (shown w) (shownOpen w) (shownMethods w) (starting w) (trying w) l (nextRun w) (effects w).

Definition set_waiting (l t : list (nat * StartOptions)) (w : World) : World :=
  mkWorld (methods w) (state w) (isOpen w) (shown w) (shownOpen w) (shownMethods w) l t (runs w) (nextRun w) (effects w).
Definition set_methods (ms : VerificationMethods) (w : World) : World :=
  mkWorld ms (state w) (isOpen w) (shown w) (shownOpen w) (shownMethods w) (starting w) (trying w) (runs w) (nextRun w) (effects w).
Definition open_with (s : State) (w : World) : World :=
  mkWorld (methods w) s true (shown w) (shownOpen w) (shownMethods w) (starting w) (trying w) (runs w) (nextRun w) (effects w).

(** [startVerification] up to the reply about the methods, and after it; [i] is its place among those that wait. *)
Definition startVerification (call : nat) (o : StartOptions) (w : World) : World :=
  set_waiting (starting w ++ [(call, o)]) (trying w) w.
Definition methodsArrived (ms : VerificationMethods) (i : nat) (w : World) : World :=
  match starting w !! i with
  | None => w
  | Some (call, o) =>
      let w := set_methods ms (set_waiting (delete i (starting w)) (trying w) w) in
      if negb (has2FA ms) && negb (hasPasskey ms)
      then emit (toast (js "Please enable Two-factor Authentication or Passkey before proceeding")) w
      else open_with (mkState (defaultMethod (preferredMethod o) ms) (loading (state w)) (code (state w)) (Some (scope_of o)) (Some call)) w
  end.

(** [withVerification]: the action is tried without a proof first. *)
Definition withVerification (call : nat) (o : StartOptions) (w : World) : World :=
  emit (called call None) (set_waiting (starting w) (trying w ++ [(call, o)]) w).
Definition triedWithout (i : nat) (failed : option AxiosError) (w : World) : World :=
  match trying w !! i with
  | None => w
  | Some (call, o) =>
      let w := set_waiting (starting w) (delete i (trying w)) w in
      match failed with
      | Some e => if isVerificationRequiredError (Some e)
                  then startVerification call o (emit (toast (extractVerificationMessage e)) w) else w
      | None => w
      end
  end.

(** [executeVerification], on the state last drawn, up to the request for the proof. *)
Definition executeVerification (m : option VerificationMethod) (c : option jstr) (w : World) : World :=
  match apiCall (shown w) with
  | None => emit (toast (js "Verification is not configured properly")) w
  | Some call =>
      match (match m with Some m => Some m | None => method (shown w) end) with
      | None => emit (toast (js "Select a verification method first")) w
      | Some m =>
          match scope (shown w) with
          | None => emit (toast (js "Verification scope is missing")) (set_loading false w)
          | Some s =>
              let w := set_loading true w in
              emit (verified m s (default (code (shown w)) c))
                (mkWorld (methods w) (state w) (isOpen w) (shown w) (shownOpen w) (shownMethods w) (starting w) (trying w) ((nextRun w, verifying call s) :: runs w)
                   (S (nextRun w)) (effects w))
          end
      end
  end.

Definition lookup_run (n : nat) (w : World) : option Run := snd <$> List.find (λ r, Nat.eqb (fst r) n) (runs w).
Definition drop_run (n : nat) (w : World) : World := set_runs (List.filter (λ r, negb (Nat.eqb (fst r) n)) (runs w)) w.

(** The proof, or the message of the exception. *)
Definition proofArrived (n : nat) (proof : jstr + jstr) (w : World) : World :=
  match lookup_run n w with
  | Some (verifying call s) =>
      match proof with
      | inl token => emit (called call (Some token)) (set_runs ((n, calling call) :: runs (drop_run n w)) w)
      | inr message => set_loading false (emit (toast message) (drop_run n w))
      end
  | _ => w
  end.

(** The end of the action. *)
Definition actionDone (autoReset : bool) (n : nat) (failed : option jstr) (w : World) : World :=
  match lookup_run n w with
  | Some (calling _) =>
      let w := drop_run n w in
      set_loading false (match failed with Some message => emit (toast message) w | None => if autoReset then reset w else w end)
  | _ => w
  end.

Definition setCode (c : jstr) (w : World) : World :=
  set_state (mkState (method (state w)) (loading (state w)) c (scope (state w)) (apiCall (state w))) w.
Definition switchMethod (m : VerificationMethod) (w : World) : World :=
  set_state (mkState (Some m) (loading (state w)) [] (scope (state w)) (apiCall (state w))) w.

(** ** The dialog *)

Definition availableTabs (ms : VerificationMethods) : list VerificationMethod :=
  (if has2FA ms then [twoFA] else []) ++ (if hasPasskey ms && passkeySupported ms then [passkey] else []).
Definition activeMethod (s : State) (ms : VerificationMethods) : option VerificationMethod :=
  match method s with Some m => Some m | None => head (availableTabs ms) end.
Definition verifyDisabled (s : State) (ms : VerificationMethods) : bool :=
  loading s || bool_decide (activeMethod s ms = Some twoFA) && (negb (truthy (trim (code s))) || (length (code s) <? 6)%nat).

Inductive Event :=
  | Render | Fetched (ms : VerificationMethods)           (* [fetchVerificationMethods] by itself *)
  | Start (call : nat) (o : StartOptions) | MethodsReply (i : nat) (ms : VerificationMethods)
  | Try (call : nat) (o : StartOptions) | Tried (i : nat) (failed : option AxiosError)
  | Verify | CancelButton | Dismiss                       (* [Dismiss]: the escape key or a click beside the dialog *)
  | Code (c : jstr) | Switch (m : VerificationMethod)
  | Proof (run : nat) (p : jstr + jstr) | Done (run : nat) (failed : option jstr).

Definition handle (autoReset : bool) (w : World) (e : Event) : World :=
  match e with
  | Render => mkWorld (methods w) (state w) (isOpen w) (state w) (isOpen w) (methods w) (starting w) (trying w) (runs w) (nextRun w) (effects w)
  | Fetched ms => set_methods ms w
  | Start call o => startVerification call o w
  | MethodsReply i ms => methodsArrived ms i w
  | Try call o => withVerification call o w
  | Tried i failed => triedWithout i failed w
  | Verify =>
      match activeMethod (shown w) (shownMethods w) with
      | Some m => if shownOpen w && negb (verifyDisabled (shown w) (shownMethods w)) && negb (bool_decide (availableTabs (shownMethods w) = []))
                  then executeVerification (Some m) (match m with twoFA => Some (code (shown w)) | passkey => None end) w else w
      | None => w
      end
  | CancelButton => if shownOpen w && negb (loading (shown w)) then reset w else w
  | Dismiss => if shownOpen w then reset w else w
  | Code c => setCode c w
  | Switch m => switchMethod m w
  | Proof n p => proofArrived n p w
  | Done n failed => actionDone autoReset n failed w
  end.

Definition start : World := mkWorld defaultMethods initialState false initialState false defaultMethods [] [] [] 0 [].
Definition run (autoReset : bool) (events : list Event) : World := fold_left (handle autoReset) events start.

End SecureVerification.

(** ** OAuth popups *)

Module OAuthPopup.

(** A session storage; one that is [broken] throws. *)
Record Storage := mkStorage { items : list (jstr * jstr); broken : bool }.
Definition OAUTH_BIND_FLOW_KEY_PREFIX : jstr := js "oauth_bind_flow:".
Definition flow_key (provider : jstr) : jstr := OAUTH_BIND_FLOW_KEY_PREFIX ++ provider.

(** The answer and the storage after it. *)
Definition markOAuthBindPopup (storage : option Storage) (provider st : jstr) : bool * option Storage :=
  match storage with
  | Some s =>
      if negb (truthy provider) || negb (truthy st) || broken s then (false, storage)
      else (true, Some (mkStorage (mset (flow_key provider) st (items s)) false))
  | None => (false, storage)
  end.

Inductive Mode := login | bind.
(** The opener, if there is one, by whether it is closed. *)
Definition resolveOAuthCallbackMode (provider st : jstr) (openerClosed : option bool) (storage : option Storage) : Mode :=
  match openerClosed, storage with
  | Some false, Some s =>
      if negb (truthy st) || broken s then login
      else if bool_decide (mget (flow_key provider) (items s) = Some st) then bind else login
  | _, _ => login
  end.

(** *** The reply of Telegram *)

Record TelegramSearch := mkTelegram { telegram_bind : option jstr; flow_token : option jstr; error_code : option jstr }.
Inductive TelegramBindCallback := result (flowToken : jstr) (success : bool) (c : option jstr) | invalid.
Definition parseTelegramBindCallback (s : TelegramSearch) : option TelegramBindCallback :=
  let says x := bool_decide (telegram_bind s = Some (js x)) in
  if negb (says "success"%string) && negb (says "error"%string) then None
  else match flow_token s with
       | Some t => if truthy t then Some (if says "success"%string then result t true None else result t false (error_code s)) else Some invalid
       | None => Some invalid
       end.
(** The message posted to the opener. *)
Definition postTelegramBindResult (c : option TelegramBindCallback) (openerClosed : option bool) : option TelegramBindCallback :=
  match c, openerClosed with Some (result t b x), Some false => Some (result t b x) | _, _ => None end.

(** *** Deadline and watcher

    [active] and whether the timer is still scheduled; the calls of the callback are counted. *)
Record Timer := mkTimer { active : bool; scheduled : bool; callbacks : nat }.
Definition startTimer : Timer := mkTimer true true 0.
(** [startOAuthBindResponseDeadline]: a timeout fires once. *)
Definition deadlineFires (t : Timer) : Timer :=
  if negb (scheduled t) then t else if active t then mkTimer false false (S (callbacks t)) else mkTimer false false (callbacks t).
(** [watchOAuthPopupClosed]: an interval fires again and again. *)
Definition watcherFires (closed : bool) (t : Timer) : Timer :=
  if negb (scheduled t) then t else if negb (active t) || negb closed then t else mkTimer false false (S (callbacks t)).
(** The function both return. *)
Definition stopTimer (t : Timer) : Timer := if active t then mkTimer false false (callbacks t) else t.
End OAuthPopup.
