(* ===== verification/SecureVerificationFacts.v ===== *)
(** * A proof goes to the action it was given for

    - [proofs_match_actions]: whatever the order of replies, renders and clicks, an
      action gets a proof only if the dialog asked for one for the scope with which
      that action was started;
    - [chosen_method_is_usable]: the method the dialog starts with can be used, and
      when there is none; [unsupported_passkey_opens_dialog] shows a dialog that
      cannot be completed;
    - [dismissed_verification_still_acts]: closing the dialog while the proof is on
      its way does not stop the action;
    - [bind_needs_mark], [watchers_call_once]: the OAuth popups. *)

From S2P Require Import Prelude JsValue JsCollections SecureVerification.
Import SecureVerification.

Section hook.
Context (autoReset : bool).

(** The action was started with this scope. *)
Definition started (evs : list Event) (call : nat) (s : Scope) : Prop :=
  ∃ o, scope_of o = s ∧ (Start call o ∈ evs ∨ Try call o ∈ evs).

Lemma started_more evs e call s : started evs call s → started (evs ++ [e]) call s.
Proof. intros (o & Hs & H). exists o. split; [done|]. rewrite !elem_of_app. tauto. Qed.

Definition bound_state (evs : list Event) (s : State) : Prop :=
  ∀ call, apiCall s = Some call → ∃ sc, scope s = Some sc ∧ started evs call sc.

Record Inv (evs : list Event) (w : World) : Prop := {
  inv_state : bound_state evs (state w);
  inv_shown : bound_state evs (shown w);
  inv_waiting : ∀ call o, (call, o) ∈ starting w ++ trying w → started evs call (scope_of o);
  inv_runs : ∀ n call s, (n, verifying call s) ∈ runs w → started evs call s ∧ ∃ m c, verified m s c ∈ effects w;
}.

Lemma bound_more evs e s : bound_state evs s → bound_state (evs ++ [e]) s.
Proof. intros H call (sc & Hs & Hc)%H. exists sc. split; [done|]. by apply started_more. Qed.

Lemma Inv_more evs e w : Inv evs w → Inv (evs ++ [e]) w.
Proof.
  intros [H1 H2 H3 H4]. split.
  - by apply bound_more.
  - by apply bound_more.
  - intros call o H%H3. by apply started_more.
  - intros n call s (Hs & Hv)%H4. split; [by apply started_more|done].
Qed.

(** Steps that keep the actions, their scopes and what runs, or forget some of them. *)
Record fewer (w w' : World) : Prop := {
  fw_state : apiCall (state w') = None ∨ apiCall (state w') = apiCall (state w) ∧ scope (state w') = scope (state w);
  fw_shown : shown w' = shown w;
  fw_waiting : ∀ x, x ∈ starting w' ++ trying w' → x ∈ starting w ++ trying w;
  fw_runs : ∀ n call s, (n, verifying call s) ∈ runs w' → (n, verifying call s) ∈ runs w;
  fw_effects : ∀ e, e ∈ effects w → e ∈ effects w';
}.

Lemma Inv_fewer evs w w' : fewer w w' → Inv evs w → Inv evs w'.
Proof.
  intros [F1 F2 F3 F4 F5] [H1 H2 H3 H4]. split.
  - intros call Hc. destruct F1 as [E|[E1 E2]]; [congruence|]. rewrite E1 in Hc. rewrite E2. by apply H1.
  - by rewrite F2.
  - intros call o Hx. by apply H3, F3.
  - intros n call s (Hs & m & c & Hv)%F4%H4. split; [done|]. exists m, c. by apply F5.
Qed.

Lemma fewer_refl w : fewer w w.
Proof. split; auto. Qed.
Lemma fewer_trans w1 w2 w3 : fewer w1 w2 → fewer w2 w3 → fewer w1 w3.
Proof.
  intros [A1 A2 A3 A4 A5] [B1 B2 B3 B4 B5]. split; try by eauto; try congruence.
  destruct B1 as [|[E1 E2]]; [by left|]. rewrite E1, E2. done.
Qed.
Lemma emit_fewer e w : fewer w (emit e w).
Proof. split; auto. intros x Hx. apply elem_of_app. by left. Qed.
Lemma set_loading_fewer b w : fewer w (set_loading b w).
Proof. split; auto. Qed.
Lemma reset_fewer w : fewer w (reset w).
Proof. split; auto. Qed.
Lemma filter_runs_fewer n w : fewer w (drop_run n w).
Proof. split; auto. cbn. intros m call s Hx. by apply list_elem_of_In, filter_In in Hx as [?%list_elem_of_In _]. Qed.

Lemma waiting_fewer l t w : (∀ x, x ∈ l ++ t → x ∈ starting w ++ trying w) → fewer w (set_waiting l t w).
Proof. split; auto. Qed.

Lemma delete_elem {A} i (l : list A) x : x ∈ delete i l → x ∈ l.
Proof. rewrite delete_take_drop, elem_of_app. intros [H|H]; [by apply (elem_of_take _ i l) in H as (j & Hj & _); eapply list_elem_of_lookup_2|].
  apply list_elem_of_lookup_1 in H as [j Hj]. rewrite lookup_drop in Hj. by eapply list_elem_of_lookup_2. Qed.

Lemma start_Inv evs call o w : started evs call (scope_of o) → Inv evs w → Inv evs (startVerification call o w).
Proof.
  intros Hs [H1 H2 H3 H4]. split; try done. cbn. intros c o'. rewrite !elem_of_app, list_elem_of_singleton.
  intros [[Hx|[= -> ->]]|Hx]; [|done|]; apply H3, elem_of_app; tauto.
Qed.

Lemma methods_Inv evs ms i w : Inv evs w → Inv evs (methodsArrived ms i w).
Proof.
  intros I. unfold methodsArrived. destruct (starting w !! i) as [[call o]|] eqn:E; [|done].
  set (w1 := set_methods _ _). assert (Inv evs w1) as I1.
  { apply (Inv_fewer evs w); [|done]. split; auto. cbn. intros x [Hx%delete_elem|Hx]%elem_of_app; apply elem_of_app; tauto. }
  destruct (_ && _); [by apply (Inv_fewer evs w1), I1; apply emit_fewer|]. destruct I1 as [_ H2 H3 H4]. split; try done.
  intros c [= <-]. exists (scope_of o). split; [done|]. apply (inv_waiting _ _ I). apply elem_of_app. left. by eapply list_elem_of_lookup_2.
Qed.

Lemma tried_Inv evs i failed w : Inv evs w → Inv evs (triedWithout i failed w).
Proof.
  intros I. unfold triedWithout. destruct (trying w !! i) as [[call o]|] eqn:E; [|done].
  set (w1 := set_waiting _ _ w). assert (Inv evs w1) as I1.
  { apply (Inv_fewer evs w); [|done]. apply waiting_fewer. intros x [Hx|Hx%delete_elem]%elem_of_app; apply elem_of_app; tauto. }
  destruct failed as [e|]; [|done]. destruct (isVerificationRequiredError _); [|done]. apply start_Inv; [|eapply Inv_fewer; [apply emit_fewer|done]].
  apply (inv_waiting _ _ I). apply elem_of_app. right. by eapply list_elem_of_lookup_2.
Qed.

Lemma execute_Inv evs m c w : Inv evs w → Inv evs (executeVerification m c w).
Proof.
  intros I. unfold executeVerification. destruct (apiCall (shown w)) as [call|] eqn:Ec; [|eapply Inv_fewer; [apply emit_fewer|done]].
  destruct (match m with Some m => _ | None => _ end) as [m'|]; [|eapply Inv_fewer; [apply emit_fewer|done]].
  destruct (scope (shown w)) as [s|] eqn:Es.
  2:{ eapply Inv_fewer; [eapply fewer_trans; [apply set_loading_fewer|apply emit_fewer]|done]. }
  pose proof (Inv_fewer evs _ _ (set_loading_fewer true w) I) as [H1 H2 H3 H4]. cbn zeta. split; try done. cbn. intros n call' s'.
  rewrite elem_of_cons. intros [[= -> -> ->]|Hx].
  - destruct (inv_shown _ _ I call Ec) as (sc & Hsc & Hst). rewrite Es in Hsc. injection Hsc as <-. split; [done|].
    do 2 eexists. apply elem_of_app. right. by apply list_elem_of_singleton.
  - destruct (H4 n call' s' Hx) as (Hst & m2 & c2 & Hv). split; [done|]. exists m2, c2. apply elem_of_app. by left.
Qed.

Lemma proof_fewer n p w : fewer w (proofArrived n p w).
Proof.
  unfold proofArrived. destruct (lookup_run n w) as [[call s|call]|]; try apply fewer_refl. destruct p as [token|message].
  - apply (fewer_trans w (drop_run n w)); [apply filter_runs_fewer|]. eapply fewer_trans; [|apply emit_fewer].
    split; auto. cbn. intros m c s'. rewrite elem_of_cons. by intros [[=]|?].
  - eapply fewer_trans; [apply (filter_runs_fewer n)|]. eapply fewer_trans; [apply emit_fewer|apply set_loading_fewer].
Qed.

Lemma done_fewer n failed w : fewer w (actionDone autoReset n failed w).
Proof.
  unfold actionDone. destruct (lookup_run n w) as [[call s|call]|]; try apply fewer_refl.
  eapply fewer_trans; [apply (filter_runs_fewer n)|]. eapply fewer_trans; [|apply set_loading_fewer].
  destruct failed; [apply emit_fewer|]. destruct autoReset; [apply reset_fewer|apply fewer_refl].
Qed.

Abbreviation run := (run autoReset).

Lemma hook_Inv_handle evs e w : Inv evs w → Inv (evs ++ [e]) (handle autoReset w e).
Proof.
  intros I0. assert (I := Inv_more evs e w I0). assert (∀ w', fewer w w' → Inv (evs ++ [e]) w') as Hf by (intros w' H; by eapply Inv_fewer).
  assert (e ∈ evs ++ [e]) as He by (apply elem_of_app; right; by apply list_elem_of_singleton).
  destruct e as [|ms|call o|i ms|call o|i failed| | | |c|m|n p|n failed]; unfold handle.
  - destruct I as [H1 H2 H3 H4]. by split.
  - apply Hf. split; auto.
  - apply start_Inv; [|done]. exists o. tauto.
  - by apply methods_Inv.
  - eapply Inv_fewer; [apply emit_fewer|]. destruct I as [H1 H2 H3 H4]. split; try done. cbn. intros c' o'.
    rewrite !elem_of_app, list_elem_of_singleton. intros [Hx|[Hx|[= -> ->]]]; [apply H3, elem_of_app; tauto..|]. exists o. tauto.
  - by apply tried_Inv.
  - destruct (activeMethod _ _) as [m|]; [|done]. destruct (_ && _); [by apply execute_Inv|done].
  - destruct (_ && _); [apply Hf, reset_fewer|done].
  - destruct (shownOpen w); [apply Hf, reset_fewer|done].
  - apply Hf. split; auto.
  - apply Hf. split; auto.
  - apply Hf, proof_fewer.
  - apply Hf, done_fewer.
Qed.

Lemma hook_run_snoc evs e : run (evs ++ [e]) = handle autoReset (run evs) e.
Proof. unfold SecureVerification.run. by rewrite fold_left_app. Qed.

Lemma hook_Inv_run evs : Inv evs (run evs).
Proof.
  induction evs as [|e evs IH] using rev_ind; [|rewrite hook_run_snoc; by apply hook_Inv_handle].
  split; try done; cbn; intros *; by intros ?%elem_of_nil.
Qed.

(** An action that gets a proof in a step. *)
Lemma called_step w e call token :
  called call (Some token) ∈ effects (handle autoReset w e) →
  called call (Some token) ∈ effects w ∨ ∃ n s, e = Proof n (inl token) ∧ (n, verifying call s) ∈ runs w.
Proof.
  set (x := called call (Some token)). intros Hx.
  assert (∀ w0 e0, e0 ≠ x → x ∈ effects (emit e0 w0) → x ∈ effects w0) as Hemit.
  { intros w0 e0 Hne [?|?%list_elem_of_singleton]%elem_of_app; [done|congruence]. }
  destruct e as [|ms|c o|i ms|c o|i failed| | | |c|m|n p|n failed]; unfold handle in Hx; try (by left).
  - left. unfold methodsArrived in Hx. destruct (starting w !! i) as [[c o]|]; [|done].
    destruct (_ && _); [by apply Hemit in Hx|done].
  - left. unfold withVerification in Hx. by apply Hemit in Hx.
  - left. unfold triedWithout in Hx. destruct (trying w !! i) as [[c o]|]; [|done]. destruct failed as [e|]; [|done].
    destruct (isVerificationRequiredError _); [|done]. unfold startVerification, set_waiting in Hx. cbn [effects] in Hx. by apply Hemit in Hx.
  - left. destruct (activeMethod _ _) as [m|]; [|done]. destruct (_ && _); [|done]. unfold executeVerification in Hx.
    destruct (apiCall (shown w)); [|by apply Hemit in Hx]. destruct (scope (shown w)); apply Hemit in Hx; done.
  - left. by destruct (_ && _).
  - left. by destruct (shownOpen w).
  - unfold proofArrived in Hx. destruct (lookup_run n w) as [[c s|c]|] eqn:E; try (by left). destruct p as [tk|message].
    + apply elem_of_app in Hx as [Hx|[= -> ->]%list_elem_of_singleton]; [by left|]. right. exists n, s. split; [done|].
      unfold lookup_run in E. destruct (List.find _ _) as [[n' r]|] eqn:F; [|done]. injection E as ->.
      apply find_some in F as [F Hn%Nat.eqb_eq]. cbn in Hn. subst n'. by apply list_elem_of_In.
    + left. unfold set_loading, set_state in Hx. cbn [effects] in Hx. by apply Hemit in Hx.
  - left. unfold actionDone in Hx. destruct (lookup_run n w) as [[c s|c]|]; try done.
    destruct failed as [message|]; [|by destruct autoReset]. unfold set_loading, set_state in Hx. cbn [effects] in Hx. by apply Hemit in Hx.
Qed.

(** [C5] A proof goes to the action it was given for.  Under every order of
    starts, replies, renders and clicks, an action that runs with a proof runs on
    the arrival of that proof, which the dialog had asked for, with a method and a
    code, for the very scope with which that action was started. *)
Theorem proofs_match_actions (evs : list Event) (call : nat) (token : jstr) :
  called call (Some token) ∈ effects (run evs) →
  ∃ before after n s, evs = before ++ Proof n (inl token) :: after ∧ (n, verifying call s) ∈ runs (run before)
    ∧ started before call s ∧ ∃ m c, verified m s c ∈ effects (run before).
Proof.
  induction evs as [|e evs IH] using rev_ind; [by intros ?%elem_of_nil|]. rewrite hook_run_snoc. intros [Hold|(n & s & -> & Hr)]%called_step.
  - destruct (IH Hold) as (b & a & n & s & -> & H). exists b, (a ++ [e]), n, s. split; [by rewrite <- app_assoc|done].
  - exists evs, [], n, s. split; [done|]. split; [done|]. by apply (inv_runs _ _ (hook_Inv_run evs) n call s).
Qed.

(** Closing the dialog with the escape key while the proof is on its way forgets the
    action in the dialog, but not in the run: when the proof arrives the action
    is carried out. *)
Theorem dismissed_verification_still_acts w n call s token :
  shownOpen w = true → lookup_run n w = Some (verifying call s) →
  called call (Some token) ∈ effects (handle autoReset (handle autoReset w Dismiss) (Proof n (inl token))).
Proof.
  intros Ho Hr. unfold handle. rewrite Ho. unfold proofArrived.
  change (lookup_run n (reset w)) with (lookup_run n w). rewrite Hr. apply elem_of_app. right. by apply list_elem_of_singleton.
Qed.

End hook.

(** ** Methods *)

(** The method the dialog starts with can be used; there is none only if none can be. *)
Theorem chosen_method_is_usable preferred ms :
  match defaultMethod preferred ms with
  | Some m => usable m ms = true ∧ (∀ p, preferred = Some p → usable p ms = true → m = p)
  | None => ∀ m, usable m ms = false
  end.
Proof.
  unfold defaultMethod, recommendedMethod. destruct ms as [a b c].
  destruct preferred as [[]|], a, b, c; cbn; split || intros []; try done; intros ? [= <-]; done.
Qed.

(** With a passkey that this device does not support and without a second factor the
    dialog opens, although nothing in it can be used. *)
Example unsupported_passkey_opens_dialog :
  let w := run true [Start 0 (mkStart passkey_delete None); MethodsReply 0 (mkMethods false true false); Render] in
  isOpen w = true ∧ availableTabs (methods w) = [] ∧ method (state w) = None.
Proof. by vm_compute. Qed.

Definition sample_flow : list Event :=
  [Start 7 (mkStart channel_key_read (Some twoFA)); MethodsReply 0 (mkMethods true true false); Render; Code (js "123456"); Render; Verify; Render;
   Proof 0 (inl (js "proof"))].

Lemma proofs_match_actions_witness :
  ∃ before after n s, sample_flow = before ++ Proof n (inl (js "proof")) :: after ∧ (n, verifying 7 s) ∈ runs (run true before)
    ∧ started before 7 s ∧ ∃ m c, verified m s c ∈ effects (run true before).
Proof. apply (proofs_match_actions true sample_flow 7 (js "proof")). apply list_elem_of_In. vm_compute. by right; left. Defined.

(** ** Popups *)

Import OAuthPopup.

(** A popup that was marked for binding an account is taken for one, with its state
    and by the window it was marked in; any other state is a login. *)
Theorem bind_needs_mark storage provider st st' storage' :
  markOAuthBindPopup storage provider st = (true, storage') →
  resolveOAuthCallbackMode provider st' (Some false) storage' = bind ↔ st' = st.
Proof.
  unfold markOAuthBindPopup, resolveOAuthCallbackMode. destruct storage as [s|]; [|done].
  destruct (negb (truthy provider) || negb (truthy st) || broken s) eqn:E; intros [= <-]. cbn [broken items].
  rewrite !orb_false_iff, !negb_false_iff in E. destruct E as [[_ Ht] _]. rewrite orb_false_r.
  rewrite mget_mset, decide_True by done. destruct (truthy st') eqn:Et; cbn [negb].
  - case_bool_decide as H; split; try done; congruence.
  - split; [done|congruence].
Qed.

(** Whatever fires and whenever they are stopped, the deadline and the watcher call
    back at most once, and not after they were stopped. *)
Inductive tick := deadline | watch (closed : bool) | stop.
Definition tick_handle (t : Timer) (k : tick) : Timer :=
  match k with deadline => deadlineFires t | watch c => watcherFires c t | stop => stopTimer t end.

Theorem watchers_call_once ticks :
  (callbacks (fold_left tick_handle ticks startTimer) ≤ 1)%nat
  ∧ ∀ more, callbacks (fold_left tick_handle more (stopTimer (fold_left tick_handle ticks startTimer)))
            = callbacks (fold_left tick_handle ticks startTimer).
Proof.
  assert (∀ l t, active t = false → callbacks (fold_left tick_handle l t) = callbacks t) as Hoff.
  { induction l as [|k l IH]; intros t Ha; [done|]. cbn [fold_left]. rewrite IH; destruct t as [a b c]; cbn in Ha; subst a; by destruct k, b. }
  assert (∀ l t, callbacks t = 0%nat → (callbacks (fold_left tick_handle l t) ≤ 1)%nat) as Hon.
  { induction l as [|k l IH]; intros t H0; [cbn; lia|]. cbn [fold_left]. destruct t as [[] [] c]; cbn in H0; subst c.
    - destruct k as [|[]|]; cbn; try (by apply IH); rewrite Hoff by done; cbn; lia.
    - destruct k as [|[]|]; cbn; by apply IH.
    - rewrite Hoff; [|by destruct k as [|[]|]]. destruct k as [|[]|]; cbn; lia.
    - rewrite Hoff; [|by destruct k as [|[]|]]. destruct k as [|[]|]; cbn; lia. }
  split; [by apply Hon|]. intros more. generalize (fold_left tick_handle ticks startTimer). intros t.
  assert (active (stopTimer t) = false ∧ callbacks (stopTimer t) = callbacks t) as [Ha Hc] by (by destruct t as [[] ? ?]).
  by rewrite (Hoff _ _ Ha).
Qed.
