(* ===== verification/D2SStore.v ===== *)
(** * The store of Desktop2Stereo

    Models [features/d2s/store.tsx] and [features/d2s/lib/checkout.ts]: a product
    is chosen, its price quoted by the server, shown, confirmed and paid.

    The page is what its hooks hold: the choices, the quote, the replies of the
    four queries and whether a quote or a payment is pending.  A click acts on the
    page that was last drawn, which may be older than the page held, and a request
    that was replaced by a later one still runs to its end.  A reply of the server
    is any value of the type the client declares for it; numbers are doubles.
    [crypto.randomUUID] is a parameter that gives the next identifier. *)

From S2P Require Import Prelude JsValue JsCollections.

Module D2SStore.

(** ** Data *)

Inductive Product := license | paid_revoke | offline_extension.
#[export] Instance Product_eq_dec : EqDecision Product.
Proof. solve_decision. Defined.

Definition product_id (p : Product) : jstr :=
  match p with license => js "license" | paid_revoke => js "paid_revoke" | offline_extension => js "offline_extension" end.

(** The payment methods with their names. *)
Definition D2S_PROVIDER_NAMES : list (jstr * jstr) := [
  (js "balance", js "Balance"); (js "alipay", js "Alipay"); (js "alipay_pc", js "Alipay (PC)"); (js "paymentfm", js "Payment FM");
  (js "wechat", js "WeChat"); (js "waffo", js "Waffo"); (js "waffo_pancake", js "Waffo Pancake"); (js "stripe", js "Stripe");
  (js "creem", js "Creem")].
Definition supportedProviders : list jstr := D2S_PROVIDER_NAMES.*1.

Record License := mkLicense { id : jstr; license_code : jstr; status : jstr; mode : jstr; device_hash : option jstr; expires_at : jsnum }.
Record Account := mkAccount { account_currency : jstr; available_minor : jsnum }.
Record StoreProduct := mkStoreProduct { product_of : Product; price_CNY : option jsnum; price_USD : option jsnum; starting_at : bool }.
Record CheckoutProviders := mkProviders { purchases_enabled : bool; provider_list : list jstr }.

(** [D2SResponse] *)
Record Response A := mkResponse { success : bool; data : option A; error_message : option jstr }.
Arguments mkResponse {A}. Arguments success {A}. Arguments data {A}. Arguments error_message {A}.
(** What awaiting a request gives: the body, or an exception with its message and, from axios, the code of the error in the body. *)
Inductive Reply A := Resolved (r : Response A) | Rejected (message : jstr) (code : option jstr).
Arguments Resolved {A}. Arguments Rejected {A}.

(** What [useQuery] holds. *)
Inductive QueryStatus := isPending | isError | isSuccess.
#[export] Instance QueryStatus_eq_dec : EqDecision QueryStatus.
Proof. solve_decision. Defined.
Record Query A := mkQuery { query_status : QueryStatus; query_data : option (Response A) }.
Arguments mkQuery {A}. Arguments query_status {A}. Arguments query_data {A}.

Record QuoteRequest := mkQuoteRequest { q_product : Product; q_provider : jstr; q_license : option jstr }.
Record D2SQuotedPurchase := mkQuoted {
  quoted : QuoteRequest; amountMinor : jsnum; currency_of : jstr; region : jstr; idempotencyKey : jstr }.

(** The reply to a preview. *)
Record Preview := mkPreview { p_product : jstr; p_provider : jstr; p_region : jstr; p_currency : jstr; p_amount_minor : jsnum }.

Record D2SOrderRequest := mkOrder {
  o_product : Product; o_license_id : option jstr; o_provider : jstr; o_balance_minor : jsnum;
  expected_amount_minor : jsnum; expected_currency : jstr; expected_region : jstr; o_idempotency_key : jstr }.

Record Checkout := mkCheckout {
  checkout_url : jstr; c_method : option jstr; c_params : option (list (jstr * jstr)); display_mode : option jstr; qr_pay_mode : option jstr }.

(** ** The page *)

Record Page := mkPage {
  checkedAt : jsnum;
  product : Product;
  licenseID : jstr;
  providerChoice : jstr;
  pendingQuote : option D2SQuotedPurchase;
  catalog : Query (list StoreProduct);
  licenses : Query (list License);
  checkoutProviders : Query CheckoutProviders;
  balance : Query (list Account);
  quotePending : bool;
  paymentPending : bool;
}.

Definition query_value {A} (q : Query A) : option A := query_data q ≫= data.

Definition enabled (p : Page) : bool :=
  match query_data (checkoutProviders p) with
  | Some r => success r && from_option purchases_enabled false (data r)
  | None => false
  end.

Definition alipay_first (a b : jstr) : Z :=
  (if b === js "alipay_pc" then 1 else 0) - (if a === js "alipay_pc" then 1 else 0).

Definition providers (p : Page) : list jstr :=
  let values := if enabled p then from_option provider_list [] (query_value (checkoutProviders p)) else [] in
  sort_by alipay_first (List.filter (λ v, has v supportedProviders) (dedup values)).

Definition provider (p : Page) : jstr :=
  if has (providerChoice p) (providers p) then providerChoice p else default [] (head (providers p)).

Definition accounts (p : Page) : list Account := default [] (query_value (balance p)).

Definition currency (p : Page) : jstr :=
  let c := if has (provider p) [js "stripe"; js "creem"; js "waffo_pancake"] then js "USD" else js "CNY" in
  match accounts p with
  | [a] => if (provider p === js "balance") && (account_currency a === js "USD") then js "USD" else c
  | _ => c
  end.

Definition eligible (p : Page) (l : License) : bool :=
  (status l === js "active") && negb (mode l === js "permanent")
  && (negb (num_truthy (expires_at l)) || num_ltb (checkedAt p) (expires_at l))
  && (negb (bool_decide (product p = paid_revoke)) || truthy (default [] (device_hash l))).
Definition eligibleLicenses (p : Page) : list License := List.filter (eligible p) (default [] (query_value (licenses p))).

Definition targetMissing (p : Page) : bool :=
  negb (bool_decide (product p = license)) && negb (existsb (λ l, id l === licenseID p) (eligibleLicenses p)).

Definition quote (p : Page) : option D2SQuotedPurchase :=
  q ← pendingQuote p;
  if bool_decide (q_product (quoted q) = product p) && (q_provider (quoted q) === provider p)
     && (bool_decide (product p = license) || bool_decide (q_license (quoted q) = Some (licenseID p)))
  then Some q else None.

Definition products (p : Page) : list StoreProduct := default [] (query_value (catalog p)).
Definition selectedProduct (p : Page) : option StoreProduct :=
  List.find (λ row, bool_decide (product_of row = product p)) (products p).
Definition catalogReady (p : Page) : bool :=
  bool_decide (query_status (catalog p) = isSuccess) && from_option success false (query_data (catalog p))
  && match products p with [] => false | _ => true end.

Definition busy (p : Page) : bool := quotePending p || paymentPending p.

Definition reviewDisabled (p : Page) : bool :=
  negb (enabled p) || negb (truthy (provider p)) || targetMissing p || negb (catalogReady p) || busy p
  || (provider p === js "balance") && negb (bool_decide (query_status (balance p) = isSuccess)).

(** [Number.isSafeInteger] *)
Definition isSafeInteger (n : jsnum) : bool :=
  isInteger n && num_leb n (num_of_Z 9007199254740991) && num_leb (num_of_Z (-9007199254740991)) n.

(** The amount in the summary: the quote, the price of the catalogue, or a dash. *)
Inductive Summary := exact (amount : jsnum) (cur : jstr) | estimate (amount : jsnum) (cur : jstr) | dash.
Definition summary (p : Page) : Summary :=
  match quote p with
  | Some q => exact (amountMinor q) (currency_of q)
  | None =>
      let estimated := selectedProduct p ≫= (λ row, if currency p === js "USD" then price_USD row else price_CNY row) in
      match estimated with
      | Some a => if isSafeInteger a && num_ltb (num_of_Z 0) a then estimate a (currency p) else dash
      | None => dash
      end
  end.

(** ** Requests and replies *)

(** The order for a confirmed quote. *)
Definition order_of (q : D2SQuotedPurchase) : D2SOrderRequest :=
  mkOrder (q_product (quoted q)) (q_license (quoted q)) (q_provider (quoted q))
    (if q_provider (quoted q) === js "balance" then amountMinor q else num_of_Z 0)
    (amountMinor q) (currency_of q) (region q) (idempotencyKey q).

(** The quote of a reply, for the accounts known when it was asked for, or the message of the exception. *)
Definition accept_quote (request : QuoteRequest) (known : list Account) (reply : Reply Preview) (uuid : jstr) : D2SQuotedPurchase + jstr :=
  match reply with
  | Rejected message _ => inr message
  | Resolved r =>
      match data r with
      | None => inr (js "quote unavailable")
      | Some d =>
          if negb (success r) || negb (p_product d === product_id (q_product request)) || negb (p_provider d === q_provider request)
             || negb (isSafeInteger (p_amount_minor d)) || num_leb (p_amount_minor d) (num_of_Z 0)
             || negb (has (p_currency d) [js "CNY"; js "USD"]) || negb (has (p_region d) [js "CN"; js "INTL"])
          then inr (js "quote unavailable")
          else
            let accepted := mkQuoted request (p_amount_minor d) (p_currency d) (p_region d) (js "d2s-" ++ uuid) in
            if q_provider request === js "balance" then
              match List.find (λ row, account_currency row === p_currency d) known with
              | Some account => if num_ltb (available_minor account) (p_amount_minor d) then inr (js "insufficient balance") else inl accepted
              | None => inr (js "insufficient balance")
              end
            else inl accepted
      end
  end.

Definition isD2SQuoteChanged {A} (reply : Reply A) : bool :=
  match reply with Rejected _ (Some code) => code === js "quote_changed" | _ => false end.

(** *** Handing over to the gateway *)

Record Form := mkForm { action : jstr; target : option jstr; inputs : list (jstr * jstr) }.
(** What [submitD2SCheckout] does: a form in a frame of its own, a form in the page, or leaving the page. *)
Inductive Submission := in_frame (f : Form) | in_page (f : Form) | redirect (url : jstr).

Definition submitD2SCheckout (frame : jstr) (c : Checkout) : Submission :=
  match c_params c with
  | Some params =>
      if bool_decide (c_method c = Some (js "POST")) then
        if bool_decide (display_mode c = Some (js "iframe"))
        then in_frame (mkForm (checkout_url c) (Some (js "d2s-alipay-" ++ frame)) params)
        else in_page (mkForm (checkout_url c) None params)
      else redirect (checkout_url c)
  | None => redirect (checkout_url c)
  end.

(** The button beside the frame: the same form in a new tab. *)
Definition fallback_form (f : Form) : Form := mkForm (action f) (Some (js "_blank")) (inputs f).

(** ** The machine *)

Inductive Effect := toast_error (key : jstr) | toast_success (key : jstr) | submitted (s : Submission) | invalidated.

(** A payment that runs: the order is being created, or its checkout. *)
Inductive PayRun := creating (q : D2SQuotedPurchase) | checking (q : D2SQuotedPurchase) (order_id : jstr).
Definition run_quote (r : PayRun) : D2SQuotedPurchase := match r with creating q | checking q _ => q end.

Record World := mkWorld {
  live : Page;                                        (* the page as the hooks hold it *)
  shown : Page;                                       (* the page of the last render *)
  quoteRuns : list (nat * (QuoteRequest * list Account));
  quoteCurrent : option nat;                          (* the request the hook looks at *)
  payRuns : list (nat * PayRun);
  payCurrent : option nat;
  nextRun : nat;
  issued : list D2SQuotedPurchase;                    (* every quote accepted so far, oldest first *)
  sent : list D2SOrderRequest;                        (* every order sent, oldest first *)
  checkouts : list jstr;                              (* every order a checkout was asked for *)
  effects : list Effect;
}.

Definition set_live (p : Page) (w : World) : World :=
  mkWorld p (shown w) (quoteRuns w) (quoteCurrent w) (payRuns w) (payCurrent w) (nextRun w) (issued w) (sent w) (checkouts w) (effects w).
Definition emit (e : Effect) (w : World) : World :=
  mkWorld (live w) (shown w) (quoteRuns w) (quoteCurrent w) (payRuns w) (payCurrent w) (nextRun w) (issued w) (sent w) (checkouts w)
    (effects w ++ [e]).

Definition with_choice (pr : Product) (l c : jstr) (q : option D2SQuotedPurchase) (p : Page) : Page :=
  mkPage (checkedAt p) pr l c q (catalog p) (licenses p) (checkoutProviders p) (balance p) (quotePending p) (paymentPending p).
Definition setPendingQuote (q : option D2SQuotedPurchase) (p : Page) : Page := with_choice (product p) (licenseID p) (providerChoice p) q p.
Definition with_pending (quoting paying : bool) (p : Page) : Page :=
  mkPage (checkedAt p) (product p) (licenseID p) (providerChoice p) (pendingQuote p) (catalog p) (licenses p) (checkoutProviders p)
    (balance p) quoting paying.

(** [quoteMutation.mutate], [payment.mutate] *)
Definition ask (request : QuoteRequest) (known : list Account) (w : World) : World :=
  mkWorld (with_pending true (paymentPending (live w)) (live w)) (shown w) ((nextRun w, (request, known)) :: quoteRuns w) (Some (nextRun w))
    (payRuns w) (payCurrent w) (S (nextRun w)) (issued w) (sent w) (checkouts w) (effects w).
Definition pay (q : D2SQuotedPurchase) (w : World) : World :=
  mkWorld (with_pending (quotePending (live w)) true (live w)) (shown w) (quoteRuns w) (quoteCurrent w)
    ((nextRun w, creating q) :: payRuns w) (Some (nextRun w)) (S (nextRun w)) (issued w) (sent w ++ [order_of q]) (checkouts w) (effects w).

(** The end of a run: it is forgotten, and no longer pending if it is the one the hook looks at. *)
Definition end_quote (run : nat) (w : World) : World :=
  mkWorld (with_pending (quotePending (live w) && negb (bool_decide (quoteCurrent w = Some run))) (paymentPending (live w)) (live w)) (shown w)
    (List.filter (λ r, negb (Nat.eqb (fst r) run)) (quoteRuns w)) (quoteCurrent w) (payRuns w) (payCurrent w) (nextRun w) (issued w)
    (sent w) (checkouts w) (effects w).
Definition end_payment (run : nat) (w : World) : World :=
  mkWorld (with_pending (quotePending (live w)) (paymentPending (live w) && negb (bool_decide (payCurrent w = Some run))) (live w)) (shown w)
    (quoteRuns w) (quoteCurrent w) (List.filter (λ r, negb (Nat.eqb (fst r) run)) (payRuns w)) (payCurrent w) (nextRun w) (issued w)
    (sent w) (checkouts w) (effects w).
Definition start_checkout (run : nat) (q : D2SQuotedPurchase) (order_id : jstr) (w : World) : World :=
  mkWorld (live w) (shown w) (quoteRuns w) (quoteCurrent w)
    (map (λ r, if Nat.eqb (fst r) run then (run, checking q order_id) else r) (payRuns w)) (payCurrent w) (nextRun w) (issued w)
    (sent w) (checkouts w ++ [order_id]) (effects w).

Definition issue (q : D2SQuotedPurchase) (w : World) : World :=
  mkWorld (setPendingQuote (Some q) (live w)) (shown w) (quoteRuns w) (quoteCurrent w) (payRuns w) (payCurrent w) (nextRun w)
    (issued w ++ [q]) (sent w) (checkouts w) (effects w).

Definition lookup_run {A} (run : nat) (l : list (nat * A)) : option A := snd <$> List.find (λ r, Nat.eqb (fst r) run) l.

Definition quoteFailed (message : jstr) (w : World) : World :=
  emit (toast_error (if message === js "insufficient balance" then js "Insufficient balance" else js "Unable to start checkout")) w.
Definition paymentFailed (changed : bool) (w : World) : World :=
  if changed
  then emit (toast_error (js "Price changed; review the latest quote before purchasing.")) (set_live (setPendingQuote None (live w)) w)
  else emit (toast_error (js "Unable to start checkout")) w.
Definition paymentDone (s : option Submission) (w : World) : World :=
  let w := emit (match s with Some s => submitted s | None => toast_success (js "License purchased") end) w in
  emit invalidated (set_live (setPendingQuote None (live w)) w).

Inductive Event :=
  | Render
  | Catalog (q : Query (list StoreProduct)) | Licenses (q : Query (list License))
  | Providers (q : Query CheckoutProviders) | Balance (q : Query (list Account))
  | SelectProduct (p : Product) | SelectLicense (l : jstr) | SelectProvider (v : jstr)
  | Click | Cancel
  | QuoteReply (run : nat) (r : Reply Preview)
  | OrderReply (run : nat) (r : Reply jstr)          (* the id of the order *)
  | CheckoutReply (run : nat) (r : Reply Checkout).

Section machine.
Context (randomUUID : nat → jstr) (frameUUID : jstr).

Definition reply_data (p : Page) (e : Event) : Page :=
  let '(mkPage t pr l c q ca li ch ba a b) := p in
  match e with
  | Catalog x => mkPage t pr l c q x li ch ba a b
  | Licenses x => mkPage t pr l c q ca x ch ba a b
  | Providers x => mkPage t pr l c q ca li x ba a b
  | Balance x => mkPage t pr l c q ca li ch x a b
  | _ => p
  end.

(** A control that is not drawn or is disabled does nothing; a reply is that of a request that runs. *)
Definition handle (w : World) (e : Event) : World :=
  let v := shown w in
  match e with
  | Render => mkWorld (live w) (live w) (quoteRuns w) (quoteCurrent w) (payRuns w) (payCurrent w) (nextRun w) (issued w) (sent w)
                (checkouts w) (effects w)
  | Catalog _ | Licenses _ | Providers _ | Balance _ => set_live (reply_data (live w) e) w
  | SelectProduct pr =>
      if catalogReady v && negb (busy v) && existsb (λ row, bool_decide (product_of row = pr)) (products v)
      then set_live (with_choice pr (licenseID (live w)) (providerChoice (live w)) None (live w)) w else w
  | SelectLicense l =>
      if negb (bool_decide (product v = license)) && negb (busy v) && bool_decide (query_status (licenses v) = isSuccess)
         && ((l === []) || existsb (λ x, id x === l) (eligibleLicenses v))
      then set_live (with_choice (product (live w)) l (providerChoice (live w)) None (live w)) w else w
  | SelectProvider c =>
      if negb (busy v) && has c (providers v)
      then set_live (with_choice (product (live w)) (licenseID (live w)) c None (live w)) w else w
  | Click =>
      if reviewDisabled v then w
      else match quote v with
           | Some q => pay q w
           | None => if truthy (provider v)
                     then ask (mkQuoteRequest (product v) (provider v)
                                 (if bool_decide (product v = license) then None else Some (licenseID v))) (accounts v) w
                     else w
           end
  | Cancel => if bool_decide (is_Some (quote v)) && negb (busy v) then set_live (setPendingQuote None (live w)) w else w
  | QuoteReply run r =>
      match lookup_run run (quoteRuns w) with
      | None => w
      | Some (request, known) =>
          end_quote run (match accept_quote request known r (randomUUID (length (issued w))) with
                         | inl q => issue q w
                         | inr message => quoteFailed message w
                         end)
      end
  | OrderReply run r =>
      match lookup_run run (payRuns w) with
      | Some (creating q) =>
          match r with
          | Resolved (mkResponse true (Some order_id) _) =>
              if q_provider (quoted q) === js "balance" then end_payment run (paymentDone None w) else start_checkout run q order_id w
          | _ => end_payment run (paymentFailed (isD2SQuoteChanged r) w)
          end
      | _ => w
      end
  | CheckoutReply run r =>
      match lookup_run run (payRuns w) with
      | Some (checking q _) =>
          end_payment run
            (match r with
             | Resolved (mkResponse true (Some c) _) =>
                 if truthy (checkout_url c) then paymentDone (Some (submitD2SCheckout frameUUID c)) w else paymentFailed false w
             | _ => paymentFailed (isD2SQuoteChanged r) w
             end)
      | _ => w
      end
  end.

Definition no_data {A} : Query A := mkQuery isPending None.
Definition start (now : jsnum) : World :=
  let p := mkPage now license [] [] None no_data no_data no_data no_data false false in
  mkWorld p p [] None [] None 0 [] [] [] [].

Definition run (now : jsnum) (events : list Event) : World := fold_left handle events (start now).
End machine.

End D2SStore.
