(* ===== verification/D2SStoreFacts.v ===== *)
(** * What the store orders is what was shown and confirmed

    For every sequence of replies, renders and clicks, with controls that act on
    the page last drawn:

    - [orders_are_confirmed]: an order is sent only by a click on a page that shows
      its exact amount, for the product, the licence and the payment method of that
      page;
    - [same_key_same_order]: two orders with the same key are the same order, so a
      repeated payment cannot be charged as another one;
    - [failed_payment]: what a failed payment leaves behind;
    - [offered_providers]: the payment methods offered. *)

From S2P Require Import Prelude StableSort JsValue JsCollections Comparators D2SStore.

From Stdlib Require Import Sorting.Sorted.

Import D2SStore.

Section machine.
Context (randomUUID : nat → jstr) (frameUUID : jstr).

Abbreviation handle := (handle randomUUID frameUUID).
Abbreviation run := (run randomUUID frameUUID).

(** ** Quotes *)

(** A service names a licence, a new licence does not. *)
Definition valid_request (r : QuoteRequest) : Prop := q_license r = None ↔ q_product r = license.

Record valid_quote (q : D2SQuotedPurchase) : Prop := {
  vq_request : valid_request (quoted q);
  vq_integer : isSafeInteger (amountMinor q) = true;
  vq_positive : num_leb (amountMinor q) (num_of_Z 0) = false;
  vq_currency : currency_of q ∈ [js "CNY"; js "USD"];
  vq_region : region q ∈ [js "CN"; js "INTL"];
}.

Lemma accepted_quote request known reply uuid q :
  valid_request request → accept_quote request known reply uuid = inl q →
  valid_quote q ∧ quoted q = request ∧ idempotencyKey q = js "d2s-" ++ uuid.
Proof.
  intros Hr. unfold accept_quote. destruct reply as [r|]; [|done]. destruct (data r) as [d|]; [|done].
  destruct (_ || _) eqn:E; [done|]. rewrite !orb_false_iff, !negb_false_iff, !has_true in E. destruct E as [[[[[[_ _] _] Hi] Hp] Hc] Hg].
  assert (∀ q', mkQuoted request (p_amount_minor d) (p_currency d) (p_region d) (js "d2s-" ++ uuid) = q' →
            valid_quote q' ∧ quoted q' = request ∧ idempotencyKey q' = js "d2s-" ++ uuid) as Hall by (intros q' <-; done).
  destruct (q_provider request === js "balance"); [|intros H%(inj inl)%Hall; exact H].
  destruct (List.find _ known) as [a|]; [|done]. destruct (num_ltb _ _); [done|]. intros H%(inj inl)%Hall; exact H.
Qed.

(** ** The invariant *)

Record Inv (w : World) : Prop := {
  inv_live : ∀ q, pendingQuote (live w) = Some q → q ∈ issued w;
  inv_shown : ∀ q, pendingQuote (shown w) = Some q → q ∈ issued w;
  inv_requests : ∀ n r known, (n, (r, known)) ∈ quoteRuns w → valid_request r;
  inv_issued : ∀ i q, issued w !! i = Some q → valid_quote q ∧ idempotencyKey q = js "d2s-" ++ randomUUID i;
  inv_sent : ∀ o, o ∈ sent w → ∃ q, q ∈ issued w ∧ o = order_of q;
}.

Lemma quote_pending p q : quote p = Some q → pendingQuote p = Some q.
Proof. unfold quote. destruct (pendingQuote p); [|done]. cbn [mbind option_bind]. by destruct (_ && _). Qed.

Lemma Inv_start now : Inv (start now).
Proof. split; cbn; try done; intros *; rewrite ?lookup_nil; by try intros ?%elem_of_nil. Qed.

Lemma lookup_run_elem {A} n (l : list (nat * A)) x : lookup_run n l = Some x → (n, x) ∈ l.
Proof.
  unfold lookup_run. destruct (List.find _ l) as [[m y]|] eqn:E; [|done]. cbn. intros [= ->].
  apply find_some in E as [E Hn%Nat.eqb_eq]. cbn in Hn. subst m. by apply list_elem_of_In.
Qed.

(** Changes of a world that keep every quote and order. *)
Record same_log (w w' : World) : Prop := {
  sl_pending : ∀ q, pendingQuote (live w') = Some q → pendingQuote (live w) = Some q;
  sl_shown : shown w' = shown w;
  sl_requests : ∀ x, x ∈ quoteRuns w' → x ∈ quoteRuns w;
  sl_issued : issued w' = issued w;
  sl_sent : sent w' = sent w;
}.

Lemma Inv_same_log w w' : same_log w w' → Inv w → Inv w'.
Proof.
  intros [H1 H2 H3 H4 H5] [I1 I2 I3 I4 I5]. split; rewrite ?H2, ?H4, ?H5; eauto.
Qed.

Lemma same_log_refl w : same_log w w.
Proof. by split. Qed.
Lemma same_log_trans w1 w2 w3 : same_log w1 w2 → same_log w2 w3 → same_log w1 w3.
Proof. intros [] []. split; try congruence; eauto. Qed.

Lemma emit_log e w : same_log w (emit e w).
Proof. by split. Qed.
Lemma end_quote_log n w : same_log w (end_quote n w).
Proof. split; cbn; try done. intros x Hx. by apply list_elem_of_In, filter_In in Hx as [?%list_elem_of_In _]. Qed.
Lemma end_payment_log n w : same_log w (end_payment n w).
Proof. by split. Qed.
Lemma start_checkout_log n q o w : same_log w (start_checkout n q o w).
Proof. by split. Qed.
Lemma set_live_log p w : (pendingQuote p = None ∨ pendingQuote p = pendingQuote (live w)) → same_log w (set_live p w).
Proof. split; cbn; try done. intros q. by destruct H as [-> | ->]. Qed.
Lemma quoteFailed_log m w : same_log w (quoteFailed m w).
Proof. apply emit_log. Qed.
Lemma paymentFailed_log b w : same_log w (paymentFailed b w).
Proof. unfold paymentFailed. destruct b; [|apply emit_log]. eapply same_log_trans; [|apply emit_log]. apply set_live_log. by left. Qed.
Lemma paymentDone_log s w : same_log w (paymentDone s w).
Proof.
  unfold paymentDone. set (w' := emit _ w). apply (same_log_trans w w'); [apply emit_log|].
  eapply same_log_trans; [|apply emit_log]. apply set_live_log. by left.
Qed.

(** What a step does to the quotes and orders: nothing, or one of three things. *)
Inductive logged (w : World) (e : Event) : World → Prop :=
  | log_same w' : same_log w w' → logged w e w'
  | log_render : e = Render → logged w e (handle w Render)
  | log_asked r known : valid_request r → logged w e (ask r known w)
  | log_issued n q w' : valid_quote q → idempotencyKey q = js "d2s-" ++ randomUUID (length (issued w)) → w' = end_quote n (issue q w) → logged w e w'
  | log_paid q : e = Click → reviewDisabled (shown w) = false → quote (shown w) = Some q → logged w e (pay q w).

Lemma handle_logged w e : Inv w → logged w e (handle w e).
Proof.
  intros I. destruct e as [|?|?|?|?|pr|l|c| | |n r|n r|n r]; try (by apply log_render); unfold D2SStore.handle.
  1-4: apply log_same, set_live_log; right; by destruct (live w).
  1-3: destruct (_ && _); apply log_same; [apply set_live_log; by left|apply same_log_refl].
  - destruct (reviewDisabled (shown w)) eqn:Hd; [apply log_same, same_log_refl|]. destruct (quote (shown w)) as [q|] eqn:Hq; [by apply log_paid|].
    destruct (truthy _); [|apply log_same, same_log_refl]. apply log_asked. unfold valid_request. cbn [q_license q_product]. by case_bool_decide.
  - destruct (_ && _); apply log_same; [apply set_live_log; by left|apply same_log_refl].
  - destruct (lookup_run n (quoteRuns w)) as [[request known]|] eqn:E; [|apply log_same, same_log_refl]. apply lookup_run_elem in E.
    destruct (accept_quote _ _ _ _) as [q|m] eqn:Ha.
    + apply accepted_quote in Ha as (Hv & _ & Hk); [|by eapply inv_requests]. by eapply log_issued.
    + apply log_same. eapply same_log_trans; [apply quoteFailed_log|apply end_quote_log].
  - destruct (lookup_run n (payRuns w)) as [[q|q o]|]; [|apply log_same, same_log_refl..]; apply log_same.
    assert (∀ b, same_log w (end_payment n (paymentFailed b w))) as Hf by (intros; eapply same_log_trans; [apply paymentFailed_log|apply end_payment_log]).
    destruct r as [[[] [o|] m]|m c]; try apply Hf. destruct (_ === _); [|apply start_checkout_log].
    eapply same_log_trans; [apply paymentDone_log|apply end_payment_log].
  - destruct (lookup_run n (payRuns w)) as [[q|q o]|]; [apply log_same, same_log_refl| |apply log_same, same_log_refl]; apply log_same.
    eapply same_log_trans; [|apply end_payment_log].
    destruct r as [[[] [c|] m]|m c]; try apply paymentFailed_log. destruct (truthy _); [apply paymentDone_log|apply paymentFailed_log].
Qed.

Lemma Inv_handle w e : Inv w → Inv (handle w e).
Proof.
  intros I. destruct (handle_logged w e I) as [w' Hl|He|r known Hr|n q w' Hv Hk ->|q He Hd Hq].
  - by eapply Inv_same_log.
  - destruct I as [I1 I2 I3 I4 I5]. by split.
  - destruct I as [I1 I2 I3 I4 I5]. split; try done. intros n r' known' [[= -> -> ->]|?]%elem_of_cons; [done|by eapply I3].
  - eapply Inv_same_log; [apply end_quote_log|]. destruct I as [I1 I2 I3 I4 I5]. split; cbn.
    + intros q' [= <-]. apply elem_of_app. right. by apply list_elem_of_singleton.
    + intros q' Hq'. apply elem_of_app. left. by apply I2.
    + done.
    + intros i q' [Hi|[Hi Hq']]%lookup_app_Some; [by apply I4|]. apply list_lookup_singleton_Some in Hq' as [Hi' <-].
      assert (i = length (issued w)) as -> by lia. done.
    + intros o (q' & Hq' & ->)%I5. exists q'. split; [|done]. apply elem_of_app. by left.
  - destruct I as [I1 I2 I3 I4 I5]. split; try done. intros o [Ho|Ho]%elem_of_app; [by apply I5|].
    apply list_elem_of_singleton in Ho as ->. exists q. split; [|done]. by apply I2, quote_pending.
Qed.

Lemma run_snoc now evs e : run now (evs ++ [e]) = handle (run now evs) e.
Proof. unfold D2SStore.run. by rewrite fold_left_app. Qed.

Lemma Inv_run now evs : Inv (run now evs).
Proof. induction evs as [|e evs IH] using rev_ind; [apply Inv_start|]. rewrite run_snoc. by apply Inv_handle. Qed.

(** ** Orders *)

(** A page on which a click confirms the order [o]. *)
Record confirms (v : Page) (o : D2SOrderRequest) : Prop := {
  cf_shown : summary v = exact (expected_amount_minor o) (expected_currency o);
  cf_ready : catalogReady v = true ∧ enabled v = true ∧ busy v = false;
  cf_product : o_product o = product v;
  cf_provider : o_provider o = provider v ∧ o_provider o ∈ providers v;
  cf_license : match o_license_id o with
               | None => product v = license
               | Some l => product v ≠ license ∧ l = licenseID v ∧ ∃ x, x ∈ eligibleLicenses v ∧ id x = l
               end;
  cf_amount : isSafeInteger (expected_amount_minor o) = true ∧ num_leb (expected_amount_minor o) (num_of_Z 0) = false;
  cf_balance : o_balance_minor o = if o_provider o === js "balance" then expected_amount_minor o else num_of_Z 0;
}.

Lemma provider_offered v : truthy (provider v) = true → provider v ∈ providers v.
Proof.
  unfold provider. destruct (has _ _) eqn:E; [by apply has_true in E|]. destruct (providers v) as [|x l]; [done|]. intros _. left.
Qed.

Lemma confirmed v q : reviewDisabled v = false → quote v = Some q → valid_quote q → confirms v (order_of q).
Proof.
  intros Hd Hq [Hr Hi Hp _ _]. unfold reviewDisabled in Hd. rewrite !orb_false_iff, !negb_false_iff in Hd.
  destruct Hd as [[[[[Hen Hpr] Ht] Hca] Hb] _]. assert (Hs := Hq). unfold quote in Hq.
  destruct (pendingQuote v) as [q'|]; [|done]. cbn [mbind option_bind] in Hq. destruct (_ && _) eqn:E; [|done].
  apply (inj Some) in Hq as ->. rewrite !andb_true_iff, orb_true_iff, !bool_decide_eq_true in E. destruct E as [[Eprod Eprov] El].
  apply bool_decide_eq_true in Eprov.
  split; unfold order_of; cbn [expected_amount_minor expected_currency o_product o_provider o_license_id o_balance_minor].
  - unfold summary. by rewrite Hs.
  - done.
  - done.
  - split; [done|]. rewrite Eprov. by apply provider_offered.
  - unfold valid_request in Hr. rewrite Eprod in Hr. destruct (q_license (quoted q)) as [l|]; [|by apply Hr].
    destruct (decide (product v = license)) as [Hl|Hl]; [by apply Hr in Hl|]. destruct El as [El|[= ->]]; [done|].
    split_and!; [done|done|]. unfold targetMissing in Ht. rewrite (bool_decide_eq_false_2 _ Hl) in Ht. cbn [negb andb] in Ht.
    apply negb_false_iff, existsb_exists in Ht as (x & Hx & Hid%bool_decide_eq_true). exists x. split; [by apply list_elem_of_In|done].
  - done.
  - done.
Qed.

(** [C2] Only what was shown and confirmed is ordered.  Whatever is chosen and
    clicked, whatever the server answers and in whatever order, every order that
    is sent was sent by a click on a page whose summary shows exactly its amount
    and currency; the product and the payment method are those of that page, a
    service is for the chosen licence, which that page offers as eligible, the
    amount is a positive integer, and the balance pays it all or nothing of it. *)
Theorem orders_are_confirmed (now : jsnum) (evs : list Event) (o : D2SOrderRequest) :
  o ∈ sent (run now evs) → ∃ before after, evs = before ++ Click :: after ∧ confirms (shown (run now before)) o.
Proof.
  induction evs as [|e evs IH] using rev_ind; [by intros ?%elem_of_nil|]. rewrite run_snoc.
  assert (I := Inv_run now evs). intros Ho.
  assert (o ∈ sent (run now evs) ∨ e = Click ∧ confirms (shown (run now evs)) o) as [Hold|[-> Hc]].
  { destruct (handle_logged _ e I) as [w' Hl|He|r known Hr|n q w' Hv Hk ->|q He Hd Hq]; try (by left).
    - left. by rewrite <- (sl_sent _ _ Hl).
    - apply elem_of_app in Ho as [Ho|Ho%list_elem_of_singleton]; [by left|]. right. subst o. split; [done|].
      apply (confirmed _ q Hd Hq). apply quote_pending, (inv_shown _ I) in Hq. apply list_elem_of_lookup_1 in Hq as [i Hi].
      by apply (inv_issued _ I) in Hi as [? _]. }
  - destruct (IH Hold) as (b & a & -> & Hc). exists b, (a ++ [e]). split; [by rewrite <- app_assoc|done].
  - exists evs, []. done.
Qed.

(** [C3] A key stands for one order: if no identifier is given out twice, two
    orders sent with the same key are the same order in every field, so the server
    can tell a repeated payment from a new one. *)
Theorem same_key_same_order (now : jsnum) (evs : list Event) (o1 o2 : D2SOrderRequest) :
  Inj (=) (=) randomUUID → o1 ∈ sent (run now evs) → o2 ∈ sent (run now evs) →
  o_idempotency_key o1 = o_idempotency_key o2 → o1 = o2.
Proof.
  intros Hinj H1 H2 Hk. assert (I := Inv_run now evs).
  destruct (inv_sent _ I _ H1) as (q1 & [i1 Hq1]%list_elem_of_lookup_1 & ->). destruct (inv_sent _ I _ H2) as (q2 & [i2 Hq2]%list_elem_of_lookup_1 & ->).
  destruct (inv_issued _ I _ _ Hq1) as [_ E1]. destruct (inv_issued _ I _ _ Hq2) as [_ E2].
  unfold order_of in Hk. cbn [o_idempotency_key] in Hk. rewrite E1, E2 in Hk. apply app_inv_head, Hinj in Hk as ->. congruence.
Qed.

(** ** Failures *)

Lemma quote_ext p p' :
  product p' = product p → licenseID p' = licenseID p → pendingQuote p' = pendingQuote p → provider p' = provider p → quote p' = quote p.
Proof. unfold quote. by intros -> -> -> ->. Qed.

(** The reply of the server that ends a payment without success. *)
Definition failing {A} (r : Reply A) : Prop :=
  match r with Resolved x => success x = false ∨ data x = None | Rejected _ _ => True end.

Lemma order_reply_failed w n q r :
  lookup_run n (payRuns w) = Some (creating q) → failing r →
  handle w (OrderReply n r) = end_payment n (paymentFailed (isD2SQuoteChanged r) w).
Proof. intros H Hf. unfold D2SStore.handle. rewrite H. destruct r as [[[] [o|] m]|m c]; try done. by destruct Hf. Qed.

(** What a failed payment leaves behind.  When the order the page waits for
    is refused or its request fails, no order is sent and nothing is pending any
    more.  If the price has changed the quote is gone, and the next click sends no
    order but asks for a price again; otherwise the quote is still shown and the
    next click, as soon as the button is enabled, sends the same order with the
    same key. *)
Theorem failed_payment (w : World) (n : nat) (q : D2SQuotedPurchase) (r : Reply jstr) :
  lookup_run n (payRuns w) = Some (creating q) → payCurrent w = Some n → quotePending (live w) = false →
  quote (live w) = Some q → failing r →
  let w' := handle (handle w (OrderReply n r)) Render in
  sent w' = sent w ∧ busy (shown w') = false
  ∧ if isD2SQuoteChanged r
    then quote (shown w') = None ∧ sent (handle w' Click) = sent w
    else quote (shown w') = Some q ∧ (reviewDisabled (shown w') = false → sent (handle w' Click) = sent w ++ [order_of q]).
Proof.
  intros Hn Hc Hp Hq Hf w'. unfold w'. rewrite (order_reply_failed w n q r Hn Hf). clear w'.
  assert (∀ b, let w1 := handle (end_payment n (paymentFailed b w)) Render in
             sent w1 = sent w ∧ busy (shown w1) = false ∧ quote (shown w1) = if b then None else Some q) as Hall.
  { intros b w1. split; [by destruct b|]. split.
    - unfold w1, busy. destruct b; cbn; rewrite Hp, Hc, bool_decide_eq_true_2 by done; cbn; by rewrite andb_false_r.
    - destruct b; [done|]. rewrite <- Hq. by apply quote_ext. }
  destruct (Hall (isD2SQuoteChanged r)) as (Hs & Hb & Hq'). split; [done|]. split; [done|].
  set (w1 := handle _ Render) in *. unfold D2SStore.handle at 1 2. destruct (isD2SQuoteChanged r); rewrite Hq'; (split; [done|]).
  - destruct (reviewDisabled _); [done|]. by destruct (truthy _).
  - intros ->. unfold pay. cbn [sent]. by rewrite Hs.
Qed.

End machine.

(** ** Payment methods *)

#[local] Instance alipay_first_comparator : Comparator (λ _, True) alipay_first.
Proof. split; intros *; unfold alipay_first; repeat destruct (_ === _); lia. Qed.

(** The payment methods offered are those of the server that the store
    knows, each once and none while purchases are closed; Alipay for computers,
    where it is offered, comes first, so it is the one preselected. *)
Theorem offered_providers (p : Page) :
  NoDup (providers p)
  ∧ (∀ v, v ∈ providers p ↔ enabled p = true ∧ v ∈ supportedProviders ∧ v ∈ from_option provider_list [] (query_value (checkoutProviders p)))
  ∧ (js "alipay_pc" ∈ providers p → head (providers p) = Some (js "alipay_pc")).
Proof.
  split_and!.
  - unfold providers, sort_by. rewrite stable_sort_perm. apply NoDup_ListNoDup, List.NoDup_filter, NoDup_ListNoDup, dedup_NoDup.
  - intros v. unfold providers. rewrite sort_by_perm. rewrite list_elem_of_In, filter_In, <- list_elem_of_In, has_true, dedup_elem.
    destruct (enabled p); [naive_solver|]. rewrite elem_of_nil. naive_solver.
  - assert (Hs : StronglySorted (cmp_le alipay_first) (providers p)) by (apply (sort_by_sorted (λ _, True)); [apply _|by apply list.Forall_forall]).
    destruct Hs as [|h t Hs Hall]; [by intros ?%elem_of_nil|]. intros [->|Ht]%elem_of_cons; [done|].
    rewrite list.Forall_forall in Hall. apply Hall in Ht. unfold cmp_le, alipay_first in Ht. rewrite (bool_decide_eq_true_2 _ eq_refl : (js "alipay_pc" === js "alipay_pc") = true) in Ht.
    destruct (h === js "alipay_pc") eqn:E; [apply bool_decide_eq_true in E as ->; done|lia].
Qed.

(** ** A purchase *)

Definition uuid (n : nat) : jstr := digits (N.of_nat n).
Definition ok {A} (x : A) : Response A := mkResponse true (Some x) None.
Definition prices : Query (list StoreProduct) :=
  mkQuery isSuccess (Some (ok [mkStoreProduct license (Some (num_of_Z 9900)) (Some (num_of_Z 2990)) false;
                               mkStoreProduct paid_revoke (Some (num_of_Z 1990)) (Some (num_of_Z 299)) true])).
Definition my_license : License := mkLicense (js "L1") (js "D2S-1") (js "active") (js "online") (Some (js "device")) (num_of_Z 0).
Definition opened_store : list Event :=
  [Catalog prices; Licenses (mkQuery isSuccess (Some (ok [my_license]))); Balance (mkQuery isSuccess (Some (ok [])));
   Providers (mkQuery isSuccess (Some (ok (mkProviders true [js "paypal"; js "stripe"; js "creem"])))); Render].
(** Revoking the licence with the second method; the first payment fails, the second is on its way. *)
Definition purchase : list Event :=
  opened_store ++ [SelectProduct paid_revoke; Render; SelectLicense (js "L1"); Render; SelectProvider (js "creem"); Render; Click;
    QuoteReply 0 (Resolved (ok (mkPreview (js "paid_revoke") (js "creem") (js "INTL") (js "USD") (num_of_Z 299)))); Render; Click; Render;
    OrderReply 1 (Rejected (js "Network Error") None); Render; Click].
Definition revoke_order : D2SOrderRequest :=
  mkOrder paid_revoke (Some (js "L1")) (js "creem") (num_of_Z 0) (num_of_Z 299) (js "USD") (js "INTL") (js "d2s-0").

Lemma orders_are_confirmed_witness :
  ∃ before after, purchase = before ++ Click :: after ∧ confirms (shown (run uuid (js "frame") (num_of_Z 1000) before)) revoke_order.
Proof.
  apply (orders_are_confirmed uuid (js "frame") (num_of_Z 1000) purchase revoke_order).
  apply list_elem_of_In. vm_compute. by left.
Defined.

#[local] Instance uuid_inj : Inj (=) (=) uuid.
Proof. intros a b H. apply (f_equal digits_value) in H. unfold uuid in H. rewrite !digits_value_digits in H. lia. Qed.

Lemma same_key_same_order_witness :
  sent (run uuid (js "frame") (num_of_Z 1000) purchase) = [revoke_order; revoke_order] ∧ revoke_order = revoke_order.
Proof.
  assert (H : sent (run uuid (js "frame") (num_of_Z 1000) purchase) = [revoke_order; revoke_order]) by (by vm_compute).
  split; [exact H|]. apply (same_key_same_order uuid (js "frame") (num_of_Z 1000) purchase revoke_order revoke_order uuid_inj);
    [rewrite H; by left|rewrite H; right; by left|reflexivity].
Defined.

(** The purchase while its first order is being created. *)
Definition ordering : World := run uuid (js "frame") (num_of_Z 1000) (take 15 purchase).

Lemma failed_payment_witness :
  let w' := handle uuid (js "frame") (handle uuid (js "frame") ordering (OrderReply 1 (Rejected [] (Some (js "quote_changed"))))) Render in
  sent w' = sent ordering ∧ busy (shown w') = false ∧ quote (shown w') = None ∧ sent (handle uuid (js "frame") w' Click) = sent ordering.
Proof.
  apply (failed_payment uuid (js "frame") ordering 1 (mkQuoted (mkQuoteRequest paid_revoke (js "creem") (Some (js "L1"))) (num_of_Z 299)
           (js "USD") (js "INTL") (js "d2s-0")) (Rejected [] (Some (js "quote_changed"))));
    [vm_compute; reflexivity..|exact I].
Defined.

