(* ===== verification/D2SAccount.v ===== *)
(** * Licences, refunds and support of Desktop2Stereo

    Models the pages of [features/d2s] around the store: the cards of the licences
    with the requests they send ([index.tsx], [components/license-card.tsx]), the
    form of withdrawals ([lib/withdrawal.ts], [components/withdrawal-request-form.tsx]),
    the forms of the administrator ([admin.tsx], [alipay-config-form.tsx],
    [access.ts]), the approval of a device ([routes/device.tsx]) and the floating
    button of the support ([support-floating-button.tsx]).

    A handler is a function of what is drawn; it gives the request that is sent,
    or none where its control is absent or disabled or the user declines. *)

From S2P Require Import Prelude JsValue JsCollections D2SStore.

(** ** Licences *)

Module D2SLicenses.
Import D2SStore.

Record D2SLicense := mkD2SLicense {
  l_id : jstr; l_status : jstr; l_mode : jstr; l_device_hash : option jstr; fingerprint_version : jsnum; offline_period_days : jsnum }.
Record D2SUnbindRequest := mkUnbind { u_license_id : jstr; u_status : jstr; created_at : jsnum }.

Inductive OfflineMode := online | offline.
Definition mode_id (m : OfflineMode) : jstr := match m with online => js "online" | offline => js "offline" end.

Inductive LicenseRequest :=
  | ChangeMode (license_id device : jstr) (m : OfflineMode) (offline_days : Z)
  | ConfirmPermanent (license_id device : jstr)
  | FreeRevoke (license_id device : jstr) (fingerprint : jsnum)
  | ManualUnbind (license_id reason : jstr).

(** The state of a card, from the licence it is mounted with. *)
Record Card := mkCard { offlineDays : Z; manualReason : jstr }.
Definition mountCard (l : D2SLicense) : Card :=
  mkCard (if num_eqb (offline_period_days l) (num_of_Z 14) then 14 else if num_eqb (offline_period_days l) (num_of_Z 30) then 30 else 7) [].
(** The choices of the selection. *)
Definition setOfflineDays (d : Z) (c : Card) : Card := if has d [7; 14; 30] then mkCard d (manualReason c) else c.
Definition setManualReason (s : jstr) (c : Card) : Card := mkCard (offlineDays c) s.

Definition device (l : D2SLicense) : jstr := default [] (l_device_hash l).
Definition bound (l : D2SLicense) : bool := truthy (device l).
Definition active (l : D2SLicense) : bool := l_status l === js "active".
Definition permanent (l : D2SLicense) : bool := l_mode l === js "permanent".

(** The newest request of a licence. *)
Definition newer_first (a b : D2SUnbindRequest) : Z := num_sign (created_at b) (created_at a).
Definition manualUnbindStatus (requests : list D2SUnbindRequest) (l : D2SLicense) : option jstr :=
  u_status <$> head (sort_by newer_first (List.filter (λ r, u_license_id r === l_id l) requests)).

(** What a click does: the request, and the card after it. *)
Inductive CardAction := modeButton (m : OfflineMode) | permanentButton | revokeButton | unbindButton.

Definition clickCard (l : D2SLicense) (actionPending : bool) (unbind : option jstr) (c : Card) (confirmed : bool) (a : CardAction)
  : option LicenseRequest * Card :=
  let bindingControls := active l && bound l && negb (permanent l) && negb actionPending in
  match a with
  | modeButton m => (if bindingControls then Some (ChangeMode (l_id l) (device l) m (offlineDays c)) else None, c)
  | permanentButton => (if bindingControls && confirmed then Some (ConfirmPermanent (l_id l) (device l)) else None, c)
  | revokeButton => (if bindingControls && confirmed then Some (FreeRevoke (l_id l) (device l) (fingerprint_version l)) else None, c)
  | unbindButton =>
      if active l && bound l && permanent l && negb actionPending && negb (bool_decide (unbind = Some (js "pending")))
         && truthy (trim (manualReason c))
      then (Some (ManualUnbind (l_id l) (trim (manualReason c))), mkCard (offlineDays c) [])
      else (None, c)
  end.

(** The figures above the cards. *)
Definition activeLicenses (ls : list D2SLicense) : nat := length (List.filter active ls).
Definition boundDevices (ls : list D2SLicense) : nat := length (dedup (map device (List.filter bound ls))).
End D2SLicenses.

(** ** Withdrawals *)

Module D2SWithdrawals.
Import D2SStore.

Record WithdrawalForm := mkWithdrawal { w_amount : jsnum; alipayAccount : jstr; realName : jstr }.

(** The schema: the values it gives, with the texts trimmed. *)
Definition checkWithdrawal (minWithdrawalMinor : jsnum) (f : WithdrawalForm) : option WithdrawalForm :=
  if isInteger (w_amount f) && num_leb minWithdrawalMinor (w_amount f) && truthy (trim (alipayAccount f)) && truthy (trim (realName f))
  then Some (mkWithdrawal (w_amount f) (trim (alipayAccount f)) (trim (realName f))) else None.

Definition minimum (configured : option jsnum) : jsnum := default (num_of_Z 5000) configured.
Definition defaultWithdrawal (configured : option jsnum) : WithdrawalForm := mkWithdrawal (minimum configured) [] [].
(** The button is disabled while a request runs or the balance is below the minimum. *)
Definition submitWithdrawal (availableMinor : jsnum) (configured : option jsnum) (submitting : bool) (f : WithdrawalForm) : option WithdrawalForm :=
  if submitting || num_ltb availableMinor (minimum configured) then None else checkWithdrawal (minimum configured) f.
End D2SWithdrawals.

(** ** Administration *)

Module D2SAdmin.
Import D2SStore.

(** [access.ts], with the two roles of [lib/roles.ts]. *)
Definition canAccessD2SAdmin (user : option (option Z)) : bool :=
  match user with Some (Some role) => has role [10; 100] | _ => false end.

Record Refund := mkRefund { refund_status : jstr; out_request_no : jstr }.
Record RefundInput := mkRefundInput { refund_amount_minor : jsnum; refund_reason : jstr; refund_key : jstr }.

(** The form of a refund of a paid order: an amount in yuan, sent in fen. *)
Definition hasPendingRefund (refunds : list Refund) : bool := existsb (λ r, refund_status r === js "pending") refunds.
Definition submitRefund (orderStatus : jstr) (running : bool) (refunds : list Refund) (amount reason : jstr) (confirmed : bool) (uuid : jstr)
  : option RefundInput :=
  if negb (orderStatus === js "paid") || running || hasPendingRefund refunds then None
  else
    let amountMinor := num_round (num_mul (Number amount) (num_of_Z 100)) in
    if negb (isSafeInteger amountMinor) || num_leb amountMinor (num_of_Z 0) then None
    else if confirmed then Some (mkRefundInput amountMinor (trim reason) (js "d2s-refund-" ++ uuid)) else None.

Definition closeOrder (orderStatus : jstr) (running confirmed : bool) : bool :=
  (orderStatus === js "pending") && negb running && confirmed.
Definition reconcileRefund (running : bool) (r : Refund) : option jstr :=
  if (refund_status r === js "pending") && negb running then Some (out_request_no r) else None.

(** The decision on a request that waits: the new status and the note. *)
Inductive ReviewKind := unbind | withdrawal.
Definition review (k : ReviewKind) (rowStatus note : jstr) (running approve : bool) : option (jstr * jstr) :=
  if (rowStatus === js "pending") && negb running
  then Some (if approve then match k with withdrawal => js "paid" | unbind => js "approved" end else js "rejected", note)
  else None.

Definition saveRegion (user_id : option Z) (region : jstr) (saving : bool) : option (Z * jstr) :=
  match user_id with
  | Some u => if negb (u =? 0) && truthy region && negb saving then Some (u, region) else None
  | None => None
  end.

Record SigningKey := mkKey { key_id : jstr; key_status : jstr; is_current : bool }.
Definition retireKey (k : SigningKey) (running confirmed : bool) : option jstr :=
  if negb (is_current k) && negb (key_status k === js "retired") && negb running && confirmed then Some (key_id k) else None.

(** The filters of orders and of payment events: typed, and in use. *)
Record Filters := mkFilters { typed : list (jstr * jstr); used : list (jstr * jstr) }.
Definition typeFilter (k v : jstr) (f : Filters) : Filters := mkFilters (obj_set k v (typed f)) (used f).
Definition applyFilters (f : Filters) : Filters := mkFilters (typed f) (map (λ '(k, v), (k, trim v)) (typed f)).
Definition clearFilters (f : Filters) : Filters :=
  let empty := map (λ '(k, _), (k, [])) (typed f) in mkFilters empty empty.

(** *** The configuration of Alipay *)

Record AlipaySettings := mkAlipaySettings {
  s_qr_pay_mode : jstr; s_channel_enabled : bool; s_app_id : jstr; s_seller_id : jstr; s_gateway_url : jstr; s_notify_url : jstr;
  s_return_url : jstr }.
Record AlipayForm := mkAlipayForm { settings : AlipaySettings; merchant_private_key : jstr; alipay_public_key : jstr }.

Definition openAlipay (config : option AlipaySettings) : AlipayForm :=
  mkAlipayForm
    (match config with
     | Some c => mkAlipaySettings (or_else (s_qr_pay_mode c) (js "4")) (s_channel_enabled c) (s_app_id c) (s_seller_id c)
                   (s_gateway_url c) (s_notify_url c) (s_return_url c)
     | None => mkAlipaySettings (js "4") false [] [] (js "https://openapi.alipay.com/gateway.do")
                 (js "https://d2s.site/api/v1/alipay/d2s/notify") (js "https://d2s.site/d2s")
     end) [] [].

(** What is sent; a key that was not typed is left out. *)
Record AlipayPayload := mkAlipayPayload { sent_settings : AlipaySettings; sent_private_key : option jstr; sent_public_key : option jstr }.
Definition typed_key (k : jstr) : option jstr := if truthy k then Some k else None.
Definition saveAlipay (busy : bool) (f : AlipayForm) : option AlipayPayload :=
  if busy then None else Some (mkAlipayPayload (settings f) (typed_key (merchant_private_key f)) (typed_key (alipay_public_key f))).
Definition savedAlipay (success : bool) (f : AlipayForm) : AlipayForm := if success then mkAlipayForm (settings f) [] [] else f.
End D2SAdmin.

(** ** The support button *)

Module D2SSupport.

(** Distances from the right and the bottom edge in whole pixels. *)
Record Position := mkPosition { right : Z; bottom : Z }.
Definition DEFAULT_POSITION : Position := mkPosition 16 96.

Definition clampPosition (p : Position) (maxRight maxBottom : Z) : Position :=
  mkPosition (Z.max 0 (Z.min (right p) maxRight)) (Z.max 0 (Z.min (bottom p) maxBottom)).

(** The window and the size of the button with its panel. *)
Record Viewport := mkViewport { innerWidth : Z; innerHeight : Z; containerWidth : Z; buttonHeight : Z }.
Definition clampToViewport (v : Viewport) (p : Position) : Position :=
  clampPosition p (Z.max 0 (innerWidth v - containerWidth v)) (Z.max 0 (innerHeight v - buttonHeight v)).

Record Drag := mkDrag { pointerId : Z; startX : Z; startY : Z; startPosition : Position; moved : bool }.
Record Button := mkButton {
  openPath : option jstr; position : Position; dragStart : option Drag; suppressClick : bool; stored : option Position }.

(** [stored] as it was left by an earlier visit, if it can be read. *)
Definition mountButton (v : Viewport) (s : option Position) : Button :=
  mkButton None (match s with Some p => clampPosition p (innerWidth v) (innerHeight v) | None => DEFAULT_POSITION end) None false s.

Definition updatePosition (p : Position) (b : Button) : Button := mkButton (openPath b) p (dragStart b) (suppressClick b) (stored b).
Definition savePosition (p : Position) (b : Button) : Button :=
  mkButton (openPath b) (position b) (dragStart b) (suppressClick b) (Some p).
Definition set_drag (d : option Drag) (b : Button) : Button := mkButton (openPath b) (position b) d (suppressClick b) (stored b).
Definition set_suppress (s : bool) (b : Button) : Button := mkButton (openPath b) (position b) (dragStart b) s (stored b).

Inductive Arrow := ArrowLeft | ArrowRight | ArrowUp | ArrowDown.

Definition handlePointerDown (primary : bool) (id x y : Z) (b : Button) : Button :=
  if primary then set_drag (Some (mkDrag id x y (position b) false)) b else b.

(** A move of less than four pixels is not a drag. *)
Definition handlePointerMove (v : Viewport) (id x y : Z) (b : Button) : Button :=
  match dragStart b with
  | Some d =>
      if negb (pointerId d =? id) then b
      else
        let deltaX := x - startX d in
        let deltaY := y - startY d in
        if negb (moved d) && (deltaX * deltaX + deltaY * deltaY <? 16) then b
        else updatePosition (clampToViewport v (mkPosition (right (startPosition d) - deltaX) (bottom (startPosition d) - deltaY)))
               (set_drag (Some (mkDrag (pointerId d) (startX d) (startY d) (startPosition d) true)) b)
  | None => b
  end.

Definition handlePointerUp (id : Z) (b : Button) : Button :=
  match dragStart b with
  | Some d =>
      if negb (pointerId d =? id) then b
      else set_drag None (if moved d then savePosition (position b) (set_suppress true b) else b)
  | None => b
  end.

Definition handlePointerCancel (id : Z) (b : Button) : Button :=
  match dragStart b with
  | Some d => if negb (pointerId d =? id) then b else set_drag None (updatePosition (startPosition d) b)
  | None => b
  end.

Definition arrow_move (a : Arrow) (p : Position) : Position :=
  match a with
  | ArrowLeft => mkPosition (right p + 16) (bottom p)
  | ArrowRight => mkPosition (right p - 16) (bottom p)
  | ArrowUp => mkPosition (right p) (bottom p - 16)
  | ArrowDown => mkPosition (right p) (bottom p + 16)
  end.
Definition handleKeyDown (v : Viewport) (a : Arrow) (b : Button) : Button :=
  let clamped := clampToViewport v (arrow_move a (position b)) in savePosition clamped (updatePosition clamped b).

Definition keepInViewport (v : Viewport) (b : Button) : Button := updatePosition (clampToViewport v (position b)) b.

Definition click (pathname : jstr) (b : Button) : Button :=
  if suppressClick b then set_suppress false b
  else mkButton (if bool_decide (openPath b = Some pathname) then None else Some pathname) (position b) (dragStart b) (suppressClick b) (stored b).
Definition isOpen (pathname : jstr) (b : Button) : bool := bool_decide (openPath b = Some pathname).

Inductive Event :=
  | PointerDown (primary : bool) (id x y : Z) | PointerMove (id x y : Z) | PointerUp (id : Z) | PointerCancel (id : Z)
  | KeyDown (a : Arrow) | Resize (v : Viewport) | Click (pathname : jstr)
  | Layout (v : Viewport).                                        (* the panel opens or closes: another width *)

(** The button in its window. *)
Definition handle (s : Viewport * Button) (e : Event) : Viewport * Button :=
  let '(v, b) := s in
  match e with
  | PointerDown primary id x y => (v, handlePointerDown primary id x y b)
  | PointerMove id x y => (v, handlePointerMove v id x y b)
  | PointerUp id => (v, handlePointerUp id b)
  | PointerCancel id => (v, handlePointerCancel id b)
  | KeyDown a => (v, handleKeyDown v a b)
  | Resize v' => (v', keepInViewport v' b)
  | Click pathname => (v, click pathname b)
  | Layout v' => (v', b)
  end.
Definition run (v : Viewport) (s : option Position) (events : list Event) : Viewport * Button := fold_left handle events (v, mountButton v s).
End D2SSupport.

(** ** Approving a device *)

Module D2SDevice.

Record Approval := mkApproval { userCode : jstr; approved : bool; pending : bool }.
(** The case tables of Unicode behind [toUpperCase] are a parameter. *)
Definition submit (toUpperCase : jstr → jstr) (a : Approval) : Approval * option jstr :=
  let normalized := toUpperCase (trim (userCode a)) in
  if negb (truthy normalized) || approved a || pending a then (a, None) else (mkApproval (userCode a) (approved a) true, Some normalized).
Definition answered (success : bool) (a : Approval) : Approval := mkApproval (userCode a) (approved a || success) false.
End D2SDevice.
