(* ===== verification/D2SAccountFacts.v ===== *)
(** * Refunds to the fen, licences, and the support button

    - [refund_is_exact]: an amount typed with up to two decimals is refunded to the
      fen, although it goes through a double and a multiplication;
    - [license_requests_allowed], [newest_unbind_decides]: which licences a request
      can be sent for;
    - [click_or_drag], [button_position]: dragging the support button does not open
      it, and where it can be; [arrow_up_moves_down] and [cancelled_drag_can_leave]
      show two flaws of it. *)

From Stdlib Require Import Sorting.Sorted.
From S2P Require Import Prelude StableSort JsValue NumFacts JsCollections Comparators FloatError NumRounding NumberText.
From S2P Require Import D2SStore D2SAccount.

(** ** Amounts *)

(** The exponent of the doubles around a fraction of moderate size. *)
Lemma position_exponent A B E mrs :
  0 < A → 0 < B → B ≤ A * 2 ^ 100 → A ≤ B * 2 ^ 100 → position A B E mrs → -160 ≤ E < 60 ∧ 2 ^ 52 ≤ shr_m mrs.
Proof.
  intros HA HB Hlow Hhigh [He Ht Hn Hl]. pose proof (at_loc_floor _ _ _ Hl) as [F1 F2]. destruct Hl as [HU [Hm0 _]].
  set (P := 2 ^ (E + 1074)) in *. assert (0 < P) by (apply Z.pow_pos_nonneg; lia). set (M0 := shr_m mrs) in *.
  assert (B * 2 ^ 974 ≤ A * 2 ^ 1074) as H2.
  { assert (2 ^ 1074 = 2 ^ 100 * 2 ^ 974) as -> by (by rewrite <-Z.pow_add_r). nia. }
  assert (-160 ≤ E) as HE.
  { destruct (Z.le_gt_cases (-160) E) as [|Hlt]; [done|exfalso]. assert (P ≤ 2 ^ 913) as HP by (apply Z.pow_le_mono_r; lia).
    assert (A * 2 ^ 1074 < 2 ^ 53 * (2 ^ 913 * B)) as H1 by nia.
    rewrite Z.mul_assoc, <-Z.pow_add_r in H1 by lia. assert (2 ^ (53 + 913) < 2 ^ 974) by (apply Z.pow_lt_mono_r; lia). nia. }
  destruct Hn as [|Hn]; [lia|]. split; [split; [done|]|done].
  destruct (Z.lt_ge_cases E 60) as [|Hge]; [done|exfalso]. assert (2 ^ 1134 ≤ P) as HP by (apply Z.pow_le_mono_r; lia).
  assert (2 ^ 52 * (2 ^ 1134 * B) ≤ A * 2 ^ 1074) as H1 by nia.
  assert (A * 2 ^ 1074 ≤ B * 2 ^ 100 * 2 ^ 1074) as H3 by nia. rewrite <-Z.mul_assoc, <-Z.pow_add_r in H3 by lia.
  rewrite Z.mul_assoc, <-Z.pow_add_r in H1 by lia. assert (2 ^ (100 + 1074) < 2 ^ (52 + 1134)) as Hlt by (apply Z.pow_lt_mono_r; lia).
  apply (Z.mul_lt_mono_pos_r B) in Hlt; [|done]. rewrite (Z.mul_comm B) in H3. lia.
Qed.

(** The double that a position rounds to, with its mantissa before it is packed. *)
Lemma finish_normal E mrs :
  -160 ≤ E < 60 → 2 ^ 52 ≤ shr_m mrs < 2 ^ 53 →
  let M := round_nearest_even (shr_m mrs) (loc_of_shr_record mrs) in
  normal (-160) 60 (finish false E mrs) (M * 2 ^ (E + scale_bits)).
Proof.
  intros HE HM M. assert (M = shr_m mrs ∨ M = shr_m mrs + 1) as Hch by apply round_choice.
  unfold finish. fold M. destruct (Z.eqb_spec M (2 ^ 53)) as [EM|EM].
  - change (2 ^ 52) with (Zpos 4503599627370496). unfold pack. rewrite (proj2 (Z.leb_le (E + 1) 971)) by lia.
    exists 4503599627370496%positive, (E + 1). split_and!; [done|done|lia|lia|]. unfold sv. rewrite EM.
    replace (E + 1 + scale_bits) with (1 + (E + scale_bits)) by lia. rewrite (pow_split 1) by (unfold scale_bits; lia). lia.
  - destruct M as [|m|] eqn:Em; [lia| |lia]. unfold pack. rewrite (proj2 (Z.leb_le E 971)) by lia.
    exists m, E. split_and!; [done| |lia|lia|done]. apply digits_bounds. change (53 - 1) with 52. lia.
Qed.

(** The double nearest to a fraction of moderate size is within one part of 2^52. *)
Lemma finish_close A B E mrs :
  0 < A → 0 < B → B ≤ A * 2 ^ 100 → A ≤ B * 2 ^ 100 → position A B E mrs →
  ∃ u, normal (-160) 60 (finish false E mrs) u ∧ within 1 (u * B) (A * scale).
Proof.
  intros HA HB Hlow Hhigh Hp. destruct (position_exponent A B E mrs HA HB Hlow Hhigh Hp) as [HE HM].
  pose proof (pos_top _ _ _ _ Hp) as Ht. eexists. split; [apply finish_normal; lia|].
  set (M := round_nearest_even _ _). assert (M = shr_m mrs ∨ M = shr_m mrs + 1) as Hch by apply round_choice.
  pose proof (at_loc_floor _ _ _ (pos_loc _ _ _ _ Hp)) as [F1 F2].
  set (U := 2 ^ (E + 1074) * B) in *. set (X := A * 2 ^ 1074) in *.
  assert (within 1 (M * U) X) as Hw by (unfold within, parts; destruct Hch as [-> | ->]; nia).
  apply (within_scale 1 _ _ (2 ^ 926)) in Hw; [|by apply Z.pow_nonneg].
  replace (M * 2 ^ (E + scale_bits) * B) with (M * U * 2 ^ 926); [replace (A * scale) with (X * 2 ^ 926); [done|]|].
  - unfold X, scale. rewrite <-Z.mul_assoc, <-Z.pow_add_r by lia. done.
  - unfold U. replace (E + scale_bits) with (E + 1074 + 926) by (unfold scale_bits; lia). rewrite (Z.pow_add_r 2 (E + 1074)) by lia. ring.
Qed.

(** A decimal with at most two places, times 100 and rounded, is its number of hundredths. *)
Lemma hundredths v e n :
  0 < v → -2 ≤ e ≤ 20 → n = v * 10 ^ (e + 2) → n ≤ 2 ^ 48 →
  num_round (num_mul (num_of_dec false (Z.to_N v) e) (num_of_Z 100)) = num_of_Z n.
Proof.
  intros Hv He Hn Hle. pose proof scale_pos as HS.
  assert (0 < 10 ^ (e + 2)) as Hp by (apply Z.pow_pos_nonneg; lia). assert (1 ≤ n) as H1 by nia.
  destruct (dec_position false v e Hv ltac:(lia)) as (E & mrs & Hpos & ->).
  set (A := dec_num v e) in *. set (B := dec_den e) in *. assert (0 < B) as HB by apply dec_den_pos.
  assert (100 * A = n * B) as HAB.
  { unfold A, B, dec_num, dec_den. subst n. destruct (Z.le_gt_cases 0 e).
    - rewrite Z.max_l, (Z.max_r (- e)), Z.pow_add_r by lia. change (10 ^ 2) with 100. lia.
    - rewrite Z.max_r, Z.max_l by lia. replace (v * 10 ^ (e + 2) * 10 ^ (- e)) with (v * (10 ^ (e + 2) * 10 ^ (- e))) by ring.
      rewrite <-Z.pow_add_r by lia. replace (e + 2 + - e) with 2 by lia. lia. }
  assert (B ≤ 100) as HB' by (unfold B, dec_den; transitivity (10 ^ 2); [apply Z.pow_le_mono_r; lia|done]).
  destruct (finish_close A B E mrs) as (u1 & N1 & W1); [nia|done|nia|nia|done|].
  destruct (mul_close _ _ _ _ _ _ _ _ N1 (integer_normal 100 ltac:(lia))) as (u2 & N2 & W2); [lia..|].
  pose proof (normal_pos _ _ _ _ N1 ltac:(unfold scale_bits; lia)) as P1. pose proof (normal_pos _ _ _ _ N2 ltac:(unfold scale_bits; lia)) as P2.
  assert (within 1 (u1 * 100) (n * scale)) as W1'.
  { apply (within_cancel 1 _ _ B HB). apply (within_scale 1 _ _ 100) in W1; [|lia].
    replace (u1 * 100 * B) with (u1 * B * 100) by ring. replace (n * scale * B) with (A * scale * 100); [done|].
    replace (A * scale * 100) with (100 * A * scale) by ring. rewrite HAB. ring. }
  assert (within 1 u2 (u1 * 100)) as W2'.
  { apply (within_cancel 1 _ _ scale HS). by replace (u1 * 100 * scale) with (u1 * (100 * scale)) by ring. }
  assert (within 3 u2 (n * scale)) as W by (apply (within_trans 1 1 (u1 * 100)); try lia; try nia; done).
  apply (round_near _ _ _ _ _ N2); [lia|lia|]. unfold within, parts in W. nia.
Qed.

Import D2SStore D2SLicenses D2SAdmin.

Lemma integer_safe n : 1 ≤ n ≤ 2 ^ 48 → isSafeInteger (num_of_Z n) = true ∧ num_leb (num_of_Z n) (num_of_Z 0) = false.
Proof.
  intros Hn. unfold isSafeInteger, num_leb, SFleb. rewrite (num_compare_exact n 9007199254740991), (num_compare_exact n 0) by lia.
  rewrite (proj2 (Z.compare_lt_iff n 9007199254740991)) by lia. rewrite (proj2 (Z.compare_gt_iff n 0)) by lia. split; [|done].
  destruct (normal_form n ltac:(lia)) as (M & E & HM & HE & Heq). rewrite (num_of_Z_normal n M E) by (done || lia).
  rewrite andb_true_r. apply andb_true_intro. split; [|by vm_compute].
  unfold isInteger. destruct (Z.leb_spec 0 E) as [|Hneg]; [done|]. apply Z.eqb_eq. unfold small in HE.
  assert (Zpos M = n * 2 ^ (- E)) as ->; [|apply Z.mod_mul; apply Z.pow_nonzero; lia].
  apply (Z.mul_cancel_r _ _ (2 ^ (E + 52))); [apply Z.pow_nonzero; lia|]. rewrite <-Heq, <-Z.mul_assoc, <-Z.pow_add_r by lia.
  f_equal. f_equal. lia.
Qed.

(** [C4] A refund is exact: an amount typed with at most two decimals, up to
    2^48 fen, is sent as its exact number of fen, although the text is read as a
    double, multiplied by 100 and rounded. *)
Theorem refund_is_exact (amount reason uuid : jstr) (v e : Z) (refunds : list Refund) :
  decimal_word amount (Z.to_N v) e → 0 < v → -2 ≤ e ≤ 20 → v * 10 ^ (e + 2) ≤ 2 ^ 48 → hasPendingRefund refunds = false →
  submitRefund (js "paid") false refunds amount reason true uuid
  = Some (mkRefundInput (num_of_Z (v * 10 ^ (e + 2))) (trim reason) (js "d2s-refund-" ++ uuid)).
Proof.
  intros Hw Hv He Hle Hr. unfold submitRefund. rewrite Hr. cbn [orb].
  change (negb (js "paid" === js "paid")) with false. cbn [orb].
  pose proof (Number_word amount (Z.to_N v) e false Hw) as HN. cbn [app] in HN. rewrite HN.
  rewrite (hundredths v e _ Hv He eq_refl Hle).
  destruct (integer_safe (v * 10 ^ (e + 2))) as [-> ->]; [|done].
  assert (0 < 10 ^ (e + 2)) by (apply Z.pow_pos_nonneg; lia). nia.
Qed.

Lemma refund_is_exact_witness :
  submitRefund (js "paid") false [mkRefund (js "completed") (js "R1")] (js "19.99") (js " broken ") true (js "7")
  = Some (mkRefundInput (num_of_Z (1999 * 10 ^ (-2 + 2))) (trim (js " broken ")) (js "d2s-refund-" ++ js "7")).
Proof.
  apply (refund_is_exact (js "19.99") (js " broken ") (js "7") 1999 (-2) [mkRefund (js "completed") (js "R1")]);
    [|lia|lia|vm_compute; discriminate|reflexivity].
  exists (js "19"), (js "99"), [], 0. split_and!; try done; by repeat constructor.
Defined.

(** ** Licences *)

(** What a request says about the licence it was sent for. *)
Definition allowed (l : D2SLicense) (unbind : option jstr) (c : Card) (confirmed : bool) (r : LicenseRequest) : Prop :=
  active l = true ∧ l_device_hash l ≠ None ∧
  match r with
  | ChangeMode i d m days => i = l_id l ∧ Some d = l_device_hash l ∧ permanent l = false ∧ days = offlineDays c
  | ConfirmPermanent i d => i = l_id l ∧ Some d = l_device_hash l ∧ permanent l = false ∧ confirmed = true
  | FreeRevoke i d f => i = l_id l ∧ Some d = l_device_hash l ∧ permanent l = false ∧ confirmed = true ∧ f = fingerprint_version l
  | ManualUnbind i reason => i = l_id l ∧ permanent l = true ∧ unbind ≠ Some (js "pending") ∧ reason = trim (manualReason c) ∧ reason ≠ []
  end.

Lemma bound_device l : bound l = true → l_device_hash l ≠ None ∧ Some (device l) = l_device_hash l.
Proof. unfold bound, device. by destruct (l_device_hash l). Qed.

(** A request concerns an active licence with a device, as drawn, and carries that
    device; binding for good and revoking are confirmed; only a permanent licence
    can ask to be unbound, with a reason and while no request of it waits. *)
Theorem license_requests_allowed l pending unbind c confirmed a r c' :
  clickCard l pending unbind c confirmed a = (Some r, c') → pending = false ∧ allowed l unbind c confirmed r.
Proof.
  unfold clickCard, allowed.
  destruct a; [destruct (_ && negb pending) eqn:E|destruct (_ && negb pending && confirmed) eqn:E..|destruct (_ && truthy _) eqn:E];
    intros [= <- <-]; rewrite ?andb_true_iff, ?negb_true_iff, ?bool_decide_eq_false in E; destruct_and?;
    (destruct (bound_device l) as [? ?]; [done|]); split_and!; try done.
  by destruct (trim (manualReason c)).
Qed.

(** The status beside a licence is that of its newest request. *)
Theorem newest_unbind_decides requests l s :
  Forall (λ r, not_nan (created_at r) = true) requests → manualUnbindStatus requests l = Some s →
  ∃ r, r ∈ requests ∧ u_license_id r = l_id l ∧ u_status r = s
    ∧ ∀ r', r' ∈ requests → u_license_id r' = l_id l → num_ltb (created_at r) (created_at r') = false.
Proof.
  intros Hnan. unfold manualUnbindStatus. set (own := List.filter _ requests).
  assert (∀ r, r ∈ own ↔ r ∈ requests ∧ u_license_id r = l_id l) as Hown.
  { intros r. unfold own. rewrite list_elem_of_In, filter_In, <-list_elem_of_In. unfold jeqb. by rewrite bool_decide_eq_true. }
  assert (Hs : StronglySorted (cmp_le newer_first) (sort_by newer_first own)).
  { apply (sort_by_sorted (λ r, not_nan (created_at r) = true)); [|rewrite list.Forall_forall in Hnan |- *; intros r [Hr _]%Hown; by apply Hnan].
    apply (flip_comparator _ (λ a b, num_sign (created_at a) (created_at b))).
    exact (on_comparator created_at (λ x, not_nan x = true) num_sign num_sign_comparator). }
  pose proof (sort_by_perm newer_first own) as Hp. destruct Hs as [|r t Hs Hall]; [done|]. cbn [head]. intros [= <-].
  destruct (proj1 (Hown r)) as [Hr Hid]; [rewrite <-Hp; left|]. exists r. split_and!; try done.
  intros r' Hr' Hid'. assert (r' ∈ r :: t) as [->|Hin]%elem_of_cons by (rewrite Hp; by apply Hown).
  - destruct (num_ltb_total (created_at r) (created_at r)); done.
  - rewrite list.Forall_forall in Hall. apply Hall in Hin. unfold cmp_le, newer_first, num_sign in Hin.
    destruct (num_ltb (created_at r) (created_at r')); [lia|done].
Qed.

(** ** The support button *)

Import D2SSupport.

Definition inside (v : Viewport) (p : Position) : Prop :=
  0 ≤ right p ≤ Z.max 0 (innerWidth v - containerWidth v) ∧ 0 ≤ bottom p ≤ Z.max 0 (innerHeight v - buttonHeight v).
Definition on_screen (p : Position) : Prop := 0 ≤ right p ∧ 0 ≤ bottom p.

Lemma clamp_inside v p : inside v (clampToViewport v p).
Proof. unfold inside, clampToViewport, clampPosition. cbn [right bottom]. lia. Qed.

Lemma inside_id v p : inside v p → clampToViewport v p = p.
Proof.
  unfold inside, clampToViewport, clampPosition. destruct p as [r b]. cbn [right bottom]. intros ([? ?] & ? & ?). f_equal; lia.
Qed.

(** A move of four pixels or more from where the pointer went down. *)
Definition far (x y : Z) (m : Z * Z) : bool := 16 <=? (fst m - x) * (fst m - x) + (snd m - y) * (snd m - y).
Definition dragged (v : Viewport) (p : Position) (x y : Z) (m : Z * Z) : Position :=
  clampToViewport v (mkPosition (right p - (fst m - x)) (bottom p - (snd m - y))).

Definition drag (v : Viewport) (id : Z) (moves : list (Z * Z)) (b : Button) : Button :=
  fold_left (λ b m, handlePointerMove v id (fst m) (snd m) b) moves b.

(** The button while the pointer is down, by the last move. *)
Lemma drag_state v b id x y moves m :
  drag v id (moves ++ [m]) (handlePointerDown true id x y b)
  = if existsb (far x y) (moves ++ [m])
    then mkButton (openPath b) (dragged v (position b) x y m) (Some (mkDrag id x y (position b) true)) (suppressClick b) (stored b)
    else handlePointerDown true id x y b.
Proof.
  revert m. induction moves as [|m0 moves IH] using rev_ind; intros m; unfold drag in *; rewrite fold_left_app, existsb_app; cbn [fold_left existsb].
  - cbn [app orb fold_left]. unfold handlePointerMove, handlePointerDown, far, set_drag. cbn [dragStart pointerId moved negb andb startX startY].
    rewrite Z.eqb_refl, orb_false_r. cbn [negb]. rewrite Z.leb_antisym. destruct (_ <? 16); done.
  - rewrite IH, orb_false_r. destruct (existsb (far x y) (moves ++ [m0])); cbn [orb].
    + unfold handlePointerMove. cbn [dragStart pointerId moved negb andb startX startY startPosition]. by rewrite Z.eqb_refl.
    + unfold handlePointerMove, handlePointerDown, far, set_drag. cbn [dragStart pointerId moved negb andb startX startY].
      rewrite Z.eqb_refl. cbn [negb]. rewrite Z.leb_antisym. destruct (_ <? 16); done.
Qed.

(** Dragging and clicking are told apart.  After the pointer went down on the
    button, moved and came up again, and the browser has sent the click: if some
    move went four pixels or more from the start, the panel is as it was, and the
    button stands, within the window, where the last move put it, and is stored
    there; otherwise the button has not moved and the panel has been opened or
    closed. *)
Theorem click_or_drag (v : Viewport) (b : Button) (id x y : Z) (moves : list (Z * Z)) (m : Z * Z) (path : jstr) :
  suppressClick b = false →
  let b' := click path (handlePointerUp id (drag v id (moves ++ [m]) (handlePointerDown true id x y b))) in
  suppressClick b' = false ∧ dragStart b' = None
  ∧ if existsb (far x y) (moves ++ [m])
    then openPath b' = openPath b ∧ stored b' = Some (position b') ∧ inside v (position b')
         ∧ position b' = dragged v (position b) x y m
    else position b' = position b ∧ stored b' = stored b ∧ isOpen path b' = negb (isOpen path b).
Proof.
  intros Hs b'. unfold b'. rewrite drag_state. destruct (existsb (far x y) (moves ++ [m])).
  - unfold handlePointerUp. cbn [dragStart pointerId moved]. rewrite Z.eqb_refl. cbn. split_and!; try done. apply clamp_inside.
  - unfold handlePointerUp, handlePointerDown, set_drag. cbn [dragStart pointerId moved]. rewrite Z.eqb_refl. cbn [negb].
    unfold click, isOpen. cbn [suppressClick openPath]. rewrite Hs. split_and!; try done. cbn [openPath].
    destruct (decide (openPath b = Some path)) as [Ho|Ho].
    + by rewrite !(bool_decide_eq_true_2 _ Ho), bool_decide_eq_false_2 by done.
    + by rewrite !(bool_decide_eq_false_2 _ Ho), bool_decide_eq_true_2 by done.
Qed.

Lemma click_or_drag_witness :
  let v := mkViewport 800 600 160 48 in
  let b' := click (js "/d2s") (handlePointerUp 1 (drag v 1 ([(101, 100)] ++ [(40, 40)]) (handlePointerDown true 1 100 100 (mountButton v None)))) in
  openPath b' = None ∧ position b' = mkPosition 76 156.
Proof.
  intros v b'. destruct (click_or_drag v (mountButton v None) 1 100 100 [(101, 100)] (40, 40) (js "/d2s") eq_refl) as (_ & _ & Ho & _ & _ & Hp).
  split; [exact Ho|]. etransitivity; [exact Hp|]. vm_compute. reflexivity.
Defined.

(** The button and the place a drag would put it back to. *)
Definition placed (b : Button) : Prop :=
  on_screen (position b) ∧ ∀ d, dragStart b = Some d → on_screen (startPosition d).

Lemma clamp_on_screen v p : on_screen (clampToViewport v p).
Proof. destruct (clamp_inside v p). unfold on_screen. lia. Qed.

Lemma move_placed v id x y b : placed b → placed (handlePointerMove v id x y b).
Proof.
  intros [Hp Hd]. unfold handlePointerMove. destruct (dragStart b) as [d|] eqn:E; [|by split; [|rewrite E]].
  destruct (negb (pointerId d =? id)); [by split; [|rewrite E]|]. destruct (_ && _); [by split; [|rewrite E]|].
  split; [apply clamp_on_screen|]. cbn. intros ? [= <-]. cbn. by apply Hd.
Qed.

Lemma up_placed id b : placed b → placed (handlePointerUp id b).
Proof.
  intros [Hp Hd]. unfold handlePointerUp. destruct (dragStart b) as [d|] eqn:E; [|by split; [|rewrite E]].
  destruct (negb (pointerId d =? id)); [by split; [|rewrite E]|]. by destruct (moved d).
Qed.

Lemma cancel_placed id b : placed b → placed (handlePointerCancel id b).
Proof.
  intros [Hp Hd]. unfold handlePointerCancel. destruct (dragStart b) as [d|] eqn:E; [|by split; [|rewrite E]].
  destruct (negb (pointerId d =? id)); [by split; [|rewrite E]|]. split; [by apply Hd|done].
Qed.

Lemma handle_placed v b e : placed b → placed (snd (handle (v, b) e)).
Proof.
  intros Hb. destruct e as [[] i x y|i x y|i|i|a|w|path|w]; cbn [handle snd]; try done.
  - destruct Hb as [Hp Hd]. split; [done|]. cbn. by intros ? [= <-].
  - by apply move_placed.
  - by apply up_placed.
  - by apply cancel_placed.
  - destruct Hb as [Hp Hd]. split; [apply clamp_on_screen|done].
  - destruct Hb as [Hp Hd]. split; [apply clamp_on_screen|done].
  - unfold click. destruct (suppressClick b); exact Hb.
Qed.

(** Wherever the button has been dragged, moved by keys and kept by the window, its
    distances from the right and the bottom edge are not negative. *)
Theorem button_position v s events : on_screen (position (snd (run v s events))).
Proof.
  enough (placed (snd (run v s events))) as [? _] by done. unfold run.
  assert (placed (mountButton v s)) as H0.
  { split; [|done]. unfold mountButton. cbn [position]. destruct s; unfold on_screen, clampPosition; cbn; lia. }
  generalize dependent (mountButton v s). revert v. induction events as [|e events IH]; intros v b Hb; [done|].
  cbn [fold_left]. pose proof (handle_placed v b e Hb) as H. destruct (handle (v, b) e) as [v' b']. by apply IH.
Qed.

(** The arrow keys move the button to the side they point to, except that up and
    down are exchanged: inside the window, up takes the button 16 pixels closer to
    the bottom edge. *)
Theorem arrow_up_moves_down v b :
  inside v (position b) → 16 ≤ bottom (position b) →
  bottom (position (handleKeyDown v ArrowUp b)) = bottom (position b) - 16.
Proof.
  intros [Hr Hb] H16. unfold handleKeyDown, arrow_move. rewrite inside_id; [done|]. split; cbn; lia.
Qed.

(** A drag that is cancelled after the window has become smaller puts the button
    back to a place outside of it. *)
Example cancelled_drag_can_leave :
  let '(v, b) := run (mkViewport 800 600 160 48) (Some (mkPosition 600 400))
    [PointerDown true 1 0 0; Resize (mkViewport 400 300 160 48); PointerCancel 1] in
  position b = mkPosition 600 400 ∧ ¬ inside v (position b).
Proof. split; [by vm_compute|]. intros [[_ H] _]. by vm_compute in H. Qed.

