(* ===== verification/Catalogue.v ===== *)
(** * The model catalogue

    Models the price pages of [features/pricing]: [lib/filters.ts],
    [lib/model-helpers.ts], [lib/price.ts], [lib/dynamic-price.ts],
    [lib/billing-mode.ts], [lib/task-matrix-display.ts], the filter state of
    [hooks/use-filters.ts] and the joining of vendors in
    [hooks/use-pricing-data.ts].

    The currency settings and [Intl.NumberFormat] are those of [Currency];
    [toLowerCase] and [localeCompare] are parameters.  The texts that describe a
    usage field, which are only passed on to be shown, are left out, as is
    [replaceModelInPath].  [None] where a function reads a billing expression is
    an exception of the reader. *)

From stdpp Require Import sorting.
From S2P Require Import Prelude StableSort JsValue NumFacts JsCollections FloatError NumRounding NumberText Regex BillingExpr StringFacts JsonText TaskExpr ModelPricing Currency.
Import BillingExpr TaskExpr.
Import Currency.

Module Catalogue.

(** ** Data *)

Inductive TokenUnit := unit_M | unit_K.
#[export] Instance TokenUnit_eq_dec : EqDecision TokenUnit.
Proof. solve_decision. Defined.
Inductive PriceType := p_input | p_output | p_cache | p_create_cache | p_image | p_audio_input | p_audio_output.
Inductive ViewMode := view_card | view_table.
#[export] Instance ViewMode_eq_dec : EqDecision ViewMode.
Proof. solve_decision. Defined.

Record PricingModel := mkModel {
  model_name : jstr; description : option jstr; vendor_id : option Z; vendor_name : option jstr;
  quota_type : Z; model_ratio : jsnum; completion_ratio : jsnum; model_price : option jsnum;
  cache_ratio : option jsnum; create_cache_ratio : option jsnum; image_ratio : option jsnum;
  audio_ratio : option jsnum; audio_completion_ratio : option jsnum;
  enable_groups : list jstr; tags : option jstr; supported_endpoint_types : option (list jstr);
  group_ratio : option (list (jstr * jsnum)); billing_mode : option jstr; billing_expr : option jstr;
  billing_usage_schema : option BillingUsageSchema; billing_usage_examples : option (list BillingUsageExample) }.

Definition FILTER_ALL : jstr := js "all".
Definition SORT_NAME : jstr := js "name".
Definition SORT_PRICE_LOW : jstr := js "price-low".
Definition SORT_PRICE_HIGH : jstr := js "price-high".
Definition QUOTA_TOKEN : jstr := js "token".
Definition QUOTA_TASK : jstr := js "task".
Definition TYPE_TOKEN : Z := 0.
Definition TYPE_REQUEST : Z := 1.
Definition EXCLUDED_GROUPS : list jstr := [[]; js "auto"].
Definition TOKEN_UNIT_DIVISORS (u : TokenUnit) : jsnum := match u with unit_M => num_of_Z 1 | unit_K => num_of_Z 1000 end.

Definition hasTaskUsageSchema (m : PricingModel) : bool :=
  match default [] (billing_usage_schema m) with [] => false | _ => true end.

(** ** Filters *)

Section filters.
Context (toLowerCase : jstr → jstr) (localeCompare : jstr → jstr → Z).

Definition text_has (lowerQuery : jstr) (s : option jstr) : bool :=
  match s with Some s => includes (toLowerCase s) lowerQuery | None => false end.

Definition filterBySearch (models : list PricingModel) (query : jstr) : list PricingModel :=
  if negb (truthy query) then models
  else
    let q := toLowerCase query in
    filter (λ m, text_has q (Some (model_name m)) || text_has q (description m) || text_has q (tags m)
                 || text_has q (vendor_name m) = true) models.

Definition filterByVendor (models : list PricingModel) (vendor : jstr) : list PricingModel :=
  if vendor === FILTER_ALL then models else filter (λ m, vendor_name m = Some vendor) models.

Definition filterByGroup (models : list PricingModel) (group : jstr) : list PricingModel :=
  if group === FILTER_ALL then models else filter (λ m, group ∈ enable_groups m) models.

Definition filterByQuotaType (models : list PricingModel) (quotaType : jstr) : list PricingModel :=
  if quotaType === FILTER_ALL then models
  else if quotaType === QUOTA_TASK then filter (λ m, hasTaskUsageSchema m = true) models
  else
    let targetType := if quotaType === QUOTA_TOKEN then TYPE_TOKEN else TYPE_REQUEST in
    filter (λ m, quota_type m = targetType ∧ hasTaskUsageSchema m = false) models.

Definition filterByEndpointType (models : list PricingModel) (endpointType : jstr) : list PricingModel :=
  if endpointType === FILTER_ALL then models
  else filter (λ m, endpointType ∈ default [] (supported_endpoint_types m)) models.

(** [tagsString.split(/[,;|\s]+/)], trimmed, without the empty ones. *)
Definition tag_separator (c : N) : bool := (c =? 44)%N || (c =? 59)%N || (c =? 124)%N || is_ws c.
Definition parseTags (tagsString : option jstr) : list jstr :=
  match tagsString with
  | None | Some [] => []
  | Some s => filter_truthy (map trim (split_re (Plus (Chr tag_separator)) s))
  end.

Definition model_tags (m : PricingModel) : list jstr := map toLowerCase (parseTags (tags m)).

Definition extractAllTags (models : list PricingModel) : list jstr :=
  sort_by localeCompare (dedup (concat (map model_tags models))).

Definition filterByTag (models : list PricingModel) (tag : jstr) : list PricingModel :=
  if tag === FILTER_ALL then models else filter (λ m, toLowerCase tag ∈ model_tags m) models.

Definition num_or_zero (n : option jsnum) : jsnum :=
  match n with Some n => if num_truthy n then n else zero | None => zero end.

Definition getModelPrice (m : PricingModel) : jsnum :=
  if quota_type m =? 0 then model_ratio m else num_or_zero (model_price m).

(** The comparator of a sort option; [None] leaves the order. *)
Definition sort_order (sortBy : jstr) : option (PricingModel → PricingModel → Z) :=
  if sortBy === SORT_NAME then Some (λ a b, localeCompare (model_name a) (model_name b))
  else if sortBy === SORT_PRICE_LOW then Some (λ a b, num_sign (getModelPrice a) (getModelPrice b))
  else if sortBy === SORT_PRICE_HIGH then Some (λ a b, num_sign (getModelPrice b) (getModelPrice a))
  else None.

Definition sortModels (models : list PricingModel) (sortBy : jstr) : list PricingModel :=
  match sort_order sortBy with Some cmp => sort_by cmp models | None => models end.

Record Filters := mkFilters {
  f_search : jstr; f_vendor : jstr; f_group : jstr; f_quotaType : jstr; f_endpointType : jstr; f_tag : jstr; f_sortBy : jstr }.

Definition filterAndSortModels (models : list PricingModel) (f : Filters) : list PricingModel :=
  let r1 := filterBySearch models (f_search f) in
  let r2 := filterByVendor r1 (f_vendor f) in
  let r3 := filterByGroup r2 (f_group f) in
  let r4 := filterByQuotaType r3 (f_quotaType f) in
  let r5 := filterByEndpointType r4 (f_endpointType f) in
  let r6 := filterByTag r5 (f_tag f) in
  sortModels r6 (f_sortBy f).

(** ** The state of the filters *)

Record FilterState := mkFilterState {
  search : option jstr; sort : option jstr; vendor : option jstr; group : option jstr; quotaType : option jstr;
  endpointType : option jstr; tag : option jstr; tokenUnit : option TokenUnit; view : option ViewMode;
  rechargePrice : option bool }.

Definition unless (d v : jstr) : option jstr := if v === d then None else Some v.

Definition setSearchInput (v : jstr) (s : FilterState) : FilterState :=
  mkFilterState (unless [] v) (sort s) (vendor s) (group s) (quotaType s) (endpointType s) (tag s) (tokenUnit s) (view s) (rechargePrice s).
Definition setSortBy (v : jstr) (s : FilterState) : FilterState :=
  mkFilterState (search s) (unless SORT_NAME v) (vendor s) (group s) (quotaType s) (endpointType s) (tag s) (tokenUnit s) (view s) (rechargePrice s).
Definition setVendorFilter (v : jstr) (s : FilterState) : FilterState :=
  mkFilterState (search s) (sort s) (unless FILTER_ALL v) (group s) (quotaType s) (endpointType s) (tag s) (tokenUnit s) (view s) (rechargePrice s).
Definition setGroupFilter (v : jstr) (s : FilterState) : FilterState :=
  mkFilterState (search s) (sort s) (vendor s) (unless FILTER_ALL v) (quotaType s) (endpointType s) (tag s) (tokenUnit s) (view s) (rechargePrice s).
Definition setQuotaTypeFilter (v : jstr) (s : FilterState) : FilterState :=
  mkFilterState (search s) (sort s) (vendor s) (group s) (unless FILTER_ALL v) (endpointType s) (tag s) (tokenUnit s) (view s) (rechargePrice s).
Definition setEndpointTypeFilter (v : jstr) (s : FilterState) : FilterState :=
  mkFilterState (search s) (sort s) (vendor s) (group s) (quotaType s) (unless FILTER_ALL v) (tag s) (tokenUnit s) (view s) (rechargePrice s).
Definition setTagFilter (v : jstr) (s : FilterState) : FilterState :=
  mkFilterState (search s) (sort s) (vendor s) (group s) (quotaType s) (endpointType s) (unless FILTER_ALL v) (tokenUnit s) (view s) (rechargePrice s).
Definition setTokenUnit (v : TokenUnit) (s : FilterState) : FilterState :=
  mkFilterState (search s) (sort s) (vendor s) (group s) (quotaType s) (endpointType s) (tag s)
    (if decide (v = unit_M) then None else Some v) (view s) (rechargePrice s).
Definition setViewMode (v : ViewMode) (s : FilterState) : FilterState :=
  mkFilterState (search s) (sort s) (vendor s) (group s) (quotaType s) (endpointType s) (tag s) (tokenUnit s)
    (if decide (v = view_card) then None else Some v) (rechargePrice s).
Definition setShowRechargePrice (v : bool) (s : FilterState) : FilterState :=
  mkFilterState (search s) (sort s) (vendor s) (group s) (quotaType s) (endpointType s) (tag s) (tokenUnit s) (view s)
    (if v then Some true else None).
Definition clearFilters (s : FilterState) : FilterState :=
  mkFilterState (search s) (sort s) None None None None None (tokenUnit s) (view s) (rechargePrice s).
Definition clearSearch (s : FilterState) : FilterState :=
  mkFilterState None (sort s) (vendor s) (group s) (quotaType s) (endpointType s) (tag s) (tokenUnit s) (view s) (rechargePrice s).

Definition searchInput (s : FilterState) : jstr := opt_or_else (search s) [].

(** The filters of a state with the debounced search text. *)
Definition active_filters (s : FilterState) (debouncedSearchInput : jstr) : Filters :=
  mkFilters debouncedSearchInput (opt_or_else (vendor s) FILTER_ALL) (opt_or_else (group s) FILTER_ALL)
    (opt_or_else (quotaType s) FILTER_ALL) (opt_or_else (endpointType s) FILTER_ALL) (opt_or_else (tag s) FILTER_ALL)
    (opt_or_else (sort s) SORT_NAME).

Definition filteredModels (models : list PricingModel) (s : FilterState) (debouncedSearchInput : jstr) : list PricingModel :=
  filterAndSortModels models (active_filters s debouncedSearchInput).

Definition activeFilterCount (s : FilterState) : nat :=
  let f := active_filters s [] in
  length (filter (λ v, v ≠ FILTER_ALL) [f_vendor f; f_group f; f_quotaType f; f_endpointType f; f_tag f]).
Definition hasActiveFilters (s : FilterState) : bool :=
  let f := active_filters s [] in
  existsb (λ v, negb (v === FILTER_ALL)) [f_vendor f; f_group f; f_quotaType f; f_endpointType f; f_tag f].
End filters.

(** ** Vendors and rates *)

Record PricingVendor := mkVendor { vendor_key : Z; vendor_title : jstr }.

(** The models with the names of their vendors and the ratios of the groups. *)
Definition pricing_models (data : list PricingModel) (vendors : list PricingVendor) (ratios : list (jstr * jsnum))
    : list PricingModel :=
  let vendorMap := foldl (λ m v, mset (vendor_key v) v m) [] vendors in
  map (λ m,
    let v := id ← vendor_id m; if id =? 0 then None else mget id vendorMap in
    mkModel (model_name m) (description m) (vendor_id m) (vendor_title <$> v) (quota_type m) (model_ratio m)
      (completion_ratio m) (model_price m) (cache_ratio m) (create_cache_ratio m) (image_ratio m) (audio_ratio m)
      (audio_completion_ratio m) (enable_groups m) (tags m) (supported_endpoint_types m) (Some ratios)
      (billing_mode m) (billing_expr m) (billing_usage_schema m) (billing_usage_examples m)) data.

(** ** Group ratios *)

Definition getAvailableGroups (m : PricingModel) (usableGroups : list jstr) : list jstr :=
  filter (λ g, g ∈ enable_groups m) (filter (λ g, g ∉ EXCLUDED_GROUPS) usableGroups).

Definition getConfiguredGroupRatio (groupRatio : list (jstr * jsnum)) (g : jstr) : jsnum :=
  match field_get g groupRatio with Some r => if isFinite r then r else num_of_Z 1 | None => num_of_Z 1 end.

(** The loop over the groups. *)
Definition min_ratio (groupRatio : list (jstr * jsnum)) (minRatio : jsnum) (g : jstr) : jsnum :=
  match field_get g groupRatio with
  | Some r => if isFinite r && num_ltb r minRatio then r else minRatio
  | None => minRatio
  end.

Definition getDisplayGroupRatio (m : PricingModel) (selectedGroup : option jstr) : jsnum :=
  let groupRatio := default [] (group_ratio m) in
  let best :=
    match enable_groups m with
    | [] => num_of_Z 1
    | groups =>
        let r := foldl (min_ratio groupRatio) (S754_infinity false) groups in
        if bool_decide (r = S754_infinity false) then num_of_Z 1 else r
    end in
  match selectedGroup with
  | Some g => if truthy g && negb (g === FILTER_ALL) && bool_decide (g ∈ enable_groups m)
              then getConfiguredGroupRatio groupRatio g else best
  | None => best
  end.

Definition isTokenBasedModel (m : PricingModel) : bool := quota_type m =? TYPE_TOKEN.

(** ** Token and request prices *)

Definition hasRatio (v : option jsnum) : bool := match v with Some n => isFinite n | None => false end.

Definition times_ratio (base : jsnum) (v : option jsnum) : jsnum :=
  match v with Some n => if isFinite n then num_mul base n else S754_nan | None => S754_nan end.

Definition calculateTokenPrice (m : PricingModel) (type : PriceType) (ratio : jsnum) : jsnum :=
  let base := num_mul (num_mul (model_ratio m) (num_of_Z 2)) ratio in
  match type with
  | p_input => base
  | p_output => num_mul base (completion_ratio m)
  | p_cache => times_ratio base (cache_ratio m)
  | p_create_cache => times_ratio base (create_cache_ratio m)
  | p_image => times_ratio base (image_ratio m)
  | p_audio_input => times_ratio base (audio_ratio m)
  | p_audio_output => if hasRatio (audio_ratio m) then times_ratio (times_ratio base (audio_ratio m)) (audio_completion_ratio m)
                      else S754_nan
  end.

Definition applyRechargeRate (price : jsnum) (showWithRecharge : bool) (priceRate usdExchangeRate : jsnum) : jsnum :=
  if showWithRecharge then num_div (num_mul price priceRate) usdExchangeRate else price.

(** The expression of [stripTrailingZeros]: a symbol without digits and dashes,
    digits with dashes and commas, an optional fraction, an optional k. *)
Definition number_char (c : N) : bool := (c =? 45)%N || is_digit c || (c =? 44)%N.
Definition price_re : re :=
  cats [Cap 1 (Star (Chr (λ c, negb (is_digit c || (c =? 45)%N))));
        Cap 2 (cats [Plus (Chr number_char); Opt (Str (js ".")); Star (Chr is_digit)]);
        Cap 3 (Opt (Str (js "k")))].

Definition stripTrailingZeros (formatted : jstr) : jstr :=
  match match_whole price_re formatted with
  | None => formatted
  | Some gs =>
      let cleanNumber := filter (λ c, c ≠ 44%N) (cap 2 gs) in
      let parsed := ModelPricing.parseFloat cleanNumber in
      match parsed with
      | S754_nan => formatted
      | _ =>
          let text := num_to_string parsed in
          let result := if includes text (js "e")
                        then replaceAll (Cat (Opt (Str (js "."))) (Cat (Plus (Str (js "0"))) Eol)) [] (toFixed 20 parsed)
                        else text in
          cap 1 gs ++ result ++ cap 3 gs
      end
  end.

Section prices.
Context (intl : IntlOptions → jsnum → jstr) (stored : option CurrencyConfig).

Definition price_options (small : Z) : option CurrencyFormatOptions :=
  Some (mkFormat (Some 4) (Some small) (Some false) None None None None).

Definition token_price_text (price : jsnum) (u : TokenUnit) (recharge : bool) (priceRate usdExchangeRate : jsnum) : jstr :=
  formatCurrencyFromUSD intl stored
    (Some (num_div (applyRechargeRate price recharge priceRate usdExchangeRate) (TOKEN_UNIT_DIVISORS u))) (price_options 6).

Definition formatPrice (m : PricingModel) (type : PriceType) (u : TokenUnit) (recharge : bool)
    (priceRate usdExchangeRate : jsnum) (selectedGroup : option jstr) : jstr :=
  if quota_type m =? TYPE_REQUEST then js "-"
  else token_price_text (calculateTokenPrice m type (getDisplayGroupRatio m selectedGroup)) u recharge priceRate usdExchangeRate.

Definition formatGroupPrice (m : PricingModel) (g : jstr) (type : PriceType) (u : TokenUnit) (recharge : bool)
    (priceRate usdExchangeRate : jsnum) (groupRatio : list (jstr * jsnum)) : jstr :=
  if quota_type m =? TYPE_REQUEST then js "-"
  else token_price_text (calculateTokenPrice m type (getConfiguredGroupRatio groupRatio g)) u recharge priceRate usdExchangeRate.

Definition request_price_text (m : PricingModel) (ratio : jsnum) (recharge : bool) (priceRate usdExchangeRate : jsnum) : jstr :=
  if negb (quota_type m =? TYPE_REQUEST) then js "-"
  else formatCurrencyFromUSD intl stored
         (Some (applyRechargeRate (num_mul (num_or_zero (model_price m)) ratio) recharge priceRate usdExchangeRate)) (price_options 4).

Definition formatFixedPrice (m : PricingModel) (g : jstr) (recharge : bool) (priceRate usdExchangeRate : jsnum)
    (groupRatio : list (jstr * jsnum)) : jstr :=
  request_price_text m (getConfiguredGroupRatio groupRatio g) recharge priceRate usdExchangeRate.

Definition formatRequestPrice (m : PricingModel) (recharge : bool) (priceRate usdExchangeRate : jsnum)
    (selectedGroup : option jstr) : jstr :=
  request_price_text m (getDisplayGroupRatio m selectedGroup) recharge priceRate usdExchangeRate.
End prices.

(** ** Dynamic prices *)

Inductive DynamicPricingTier := token_tier (t : ParsedTier) | task_tier (t : ParsedTaskTier).

Record DynamicPriceOptions := mkOptions {
  o_tokenUnit : TokenUnit; o_showRechargePrice : option bool; o_priceRate : option jsnum;
  o_usdExchangeRate : option jsnum; o_groupRatioMultiplier : option jsnum; o_usageSchema : option BillingUsageSchema }.

Inductive LabelKind := label_i18n | label_schema.
Inductive PriceUnit := pu_token | pu_usage (u : BillingUsageUnit) | pu_request.
#[export] Instance PriceUnit_eq_dec : EqDecision PriceUnit.
Proof. solve_decision. Defined.

Record DynamicPriceEntry := mkEntry {
  e_key : jstr; e_field : jstr; e_label : jstr; e_shortLabel : jstr; e_labelKind : LabelKind; e_value : jsnum;
  e_formatted : jstr; e_formattedRange : option jstr; e_unit : PriceUnit; e_variable : option BillingVar }.

Definition getTaskUsageQuantityUnitLabelKey (u : option BillingUsageUnit) : jstr :=
  match u with
  | Some unit_second => js "s" | Some unit_token => js "token (unit)" | Some unit_credit => js "credit" | _ => js "unit"
  end.
Definition getTaskUsagePriceUnitLabelKey (u : option BillingUsageUnit) : jstr :=
  match u with
  | Some unit_second => js "second" | Some unit_token => js "1M token" | Some unit_credit => js "credit" | _ => js "unit"
  end.
(** A usage entry in tokens has no variable; a chat entry has one. *)
Definition getDynamicPriceUnitLabelKey (e : DynamicPriceEntry) : option jstr :=
  match e_unit e with
  | pu_usage unit_second => Some (js "s")
  | pu_usage unit_count => Some (js "unit")
  | pu_usage unit_credit => Some (js "credit")
  | pu_usage unit_token | pu_token => match e_variable e with None => Some (js "1M token") | Some _ => None end
  | pu_request => Some (js "request")
  end.

Definition PRIMARY_DYNAMIC_FIELDS : list jstr := [js "inputPrice"; js "outputPrice"].

Definition isTieredMode (m : PricingModel) : bool := bool_decide (billing_mode m = Some (js "tiered_expr")).
Definition isDynamicPricingModel (m : PricingModel) : bool := isTieredMode m && truthy_opt (billing_expr m).
Definition isTaskUsagePricingModel (m : PricingModel) : bool := isTieredMode m && hasTaskUsageSchema m.
Definition isUnconfiguredTaskUsageModel (m : PricingModel) : bool :=
  negb (quota_type m =? 1) && hasTaskUsageSchema m && negb (isDynamicPricingModel m).

(** [getBillingModeLabelKey] *)
Inductive BillingModeLabelKey := label_task | label_dynamic | label_token | label_request.
#[export] Instance BillingModeLabelKey_eq_dec : EqDecision BillingModeLabelKey.
Proof. solve_decision. Defined.
Definition getBillingModeLabelKey (m : PricingModel) : BillingModeLabelKey :=
  if hasTaskUsageSchema m then label_task
  else if isDynamicPricingModel m then label_dynamic
  else if isTokenBasedModel m then label_token else label_request.

Section dynamic.
Context (intl : IntlOptions → jsnum → jstr) (stored : option CurrencyConfig) (locale_le : jstr → jstr → bool).

Definition getTaskPricingUnit (m : PricingModel) : option BillingUsageUnit :=
  e ← list.head (getTaskNumberFields locale_le (billing_usage_schema m)); unit_ e.2.

Definition dynamic_price_text (price : jsnum) (o : DynamicPriceOptions) : jstr :=
  formatBillingCurrencyFromUSD intl stored
    (Some (applyRechargeRate price (default false (o_showRechargePrice o)) (default (num_of_Z 1) (o_priceRate o))
             (default (num_of_Z 1) (o_usdExchangeRate o)))) (price_options 6).

Definition formatDynamicUnitPrice (value : jsnum) (o : DynamicPriceOptions) : jstr :=
  dynamic_price_text
    (num_div (num_mul value (default (num_of_Z 1) (o_groupRatioMultiplier o))) (TOKEN_UNIT_DIVISORS (o_tokenUnit o))) o.

Definition formatTaskUsageUnitPrice (value : jsnum) (o : DynamicPriceOptions) : jstr :=
  dynamic_price_text (num_mul value (default (num_of_Z 1) (o_groupRatioMultiplier o))) o.

(** [None]: the reader of the expression throws. *)
Definition getDynamicPricingTiers (m : PricingModel) : option (list DynamicPricingTier) :=
  if negb (isDynamicPricingModel m) then Some []
  else
    '(billingExpr, _) ← splitBillingExprAndRequestRules (default [] (billing_expr m));
    Some (if isTaskUsagePricingModel m
          then map task_tier (parseTaskTiersFromExpr billingExpr (billing_usage_schema m))
          else map token_tier (parseTiersFromExpr billingExpr)).

Definition hasDynamicRequestRules (m : PricingModel) : option bool :=
  if negb (isDynamicPricingModel m) then Some false
  else
    '(_, rules) ← splitBillingExprAndRequestRules (default [] (billing_expr m));
    groups ← tryParseRequestRuleExpr rules;
    Some (match groups with Some (_ :: _) => true | _ => false end).

(** A price that is shown. *)
Definition shown_price (v : option jsnum) : option jsnum :=
  match v with Some v => if isFinite v && negb (num_leb v zero) then Some v else None | None => None end.

Definition usage_entry (t : ParsedTaskTier) (o : DynamicPriceOptions) (e : jstr * BillingUsageFieldSchema) : option DynamicPriceEntry :=
  value ← shown_price (field_get e.1 (unitPrices t));
  u ← unit_ e.2;
  Some (mkEntry e.1 e.1 e.1 e.1 label_schema value (formatTaskUsageUnitPrice value o) None (pu_usage u) None).

Definition token_entry (t : ParsedTier) (o : DynamicPriceOptions) (v : BillingVar) : option DynamicPriceEntry :=
  f ← field v;
  value ← shown_price (field_get f (tier_prices t));
  Some (mkEntry (key v) f (var_label v) (shortLabel v) label_i18n value (formatDynamicUnitPrice value o) None pu_token (Some v)).

Definition is_primary (e : DynamicPriceEntry) : bool := bool_decide (e_field e ∈ PRIMARY_DYNAMIC_FIELDS).
Definition primary_first (a b : DynamicPriceEntry) : Z :=
  if Bool.eqb (is_primary a) (is_primary b) then 0 else if is_primary a then -1 else 1.

(** A task tier without a schema has none of the fields of a token tier. *)
Definition getDynamicPriceEntries (t : option DynamicPricingTier) (o : DynamicPriceOptions) : list DynamicPriceEntry :=
  match t with
  | None => []
  | Some (task_tier t) =>
      match o_usageSchema o with
      | Some schema =>
          omap (usage_entry t o) (getTaskNumberFields locale_le (Some schema))
          ++ (if num_ltb zero (constant t)
              then [mkEntry (js "constant") (js "constant") (js "Base charge") (js "Base") label_i18n (constant t)
                      (formatTaskUsageUnitPrice (constant t) o) None pu_request None] else [])
      | None => []
      end
  | Some (token_tier t) => sort_by primary_first (omap (token_entry t o) BILLING_PRICING_VARS)
  end.

(** [Math.min], [Math.max] of numbers that are not NaN. *)
Definition math_min (a b : jsnum) : jsnum := if num_ltb b a then b else a.
Definition math_max (a b : jsnum) : jsnum := if num_ltb a b then b else a.

Definition tier_price (f : jstr) (t : DynamicPricingTier) : option jsnum :=
  match t with task_tier t => shown_price (field_get f (unitPrices t)) | token_tier _ => None end.

Definition widen (f : jstr) (range : jsnum * jsnum) (t : DynamicPricingTier) : jsnum * jsnum :=
  match tier_price f t with Some v => (math_min range.1 v, math_max range.2 v) | None => range end.

(** The lowest and the highest price of a field. *)
Definition price_range (tiers : list DynamicPricingTier) (f : jstr) : option (jsnum * jsnum) :=
  let '(lo, hi) := foldl (widen f) (S754_infinity false, S754_infinity true) tiers in
  if isFinite lo && isFinite hi then Some (lo, hi) else None.

Definition with_range (tiers : list DynamicPricingTier) (numberFields : list jstr) (o : DynamicPriceOptions) (e : DynamicPriceEntry)
    : DynamicPriceEntry :=
  if bool_decide (e_field e ∈ numberFields) then
    match price_range tiers (e_field e) with
    | Some (lo, hi) =>
        if num_eqb lo hi then e
        else mkEntry (e_key e) (e_field e) (e_label e) (e_shortLabel e) (e_labelKind e) (e_value e) (e_formatted e)
               (Some (formatTaskUsageUnitPrice lo o ++ [8211%N] ++ formatTaskUsageUnitPrice hi o)) (e_unit e) (e_variable e)
    | None => e
    end
  else e.

Record DynamicPricingSummary := mkSummary {
  s_tiers : list DynamicPricingTier; s_tier : option DynamicPricingTier; s_tierCount : nat; s_hasRequestRules : bool;
  s_isSpecialExpression : bool; s_rawExpression : jstr; s_entries : list DynamicPriceEntry;
  s_primaryEntries : list DynamicPriceEntry; s_secondaryEntries : list DynamicPriceEntry; s_isTaskUsage : bool }.

Definition with_schema (o : DynamicPriceOptions) (schema : option BillingUsageSchema) : DynamicPriceOptions :=
  mkOptions (o_tokenUnit o) (o_showRechargePrice o) (o_priceRate o) (o_usdExchangeRate o) (o_groupRatioMultiplier o) schema.

(** The outer [None] is an exception, the inner one [null]. *)
Definition getDynamicPricingSummary (m : PricingModel) (o : DynamicPriceOptions) : option (option DynamicPricingSummary) :=
  if negb (isDynamicPricingModel m) then Some None
  else
    tiers ← getDynamicPricingTiers m;
    rules ← hasDynamicRequestRules m;
    let isTaskUsage := isTaskUsagePricingModel m in
    let tier := if isTaskUsage then list.last tiers else list.head tiers in
    let entries0 := getDynamicPriceEntries tier (with_schema o (billing_usage_schema m)) in
    let entries := if isTaskUsage
                   then map (with_range tiers (getTaskNumberFields locale_le (billing_usage_schema m)).*1 o) entries0
                   else entries0 in
    let rawExpression := default [] (billing_expr m) in
    let primary e := if isTaskUsage then negb (bool_decide (e_unit e = pu_request)) else is_primary e in
    Some (Some (mkSummary tiers tier (length tiers) rules
      (truthy (trim rawExpression) && match tiers with [] => true | _ => false end) rawExpression entries
      (filter (λ e, primary e = true) entries) (filter (λ e, primary e = false) entries) isTaskUsage)).

Record CardExamplePrice := mkCard { card_label : jstr; card_formatted : jstr }.

Definition getCardExamplePrice (m : PricingModel) (o : DynamicPriceOptions) : option (option CardExamplePrice) :=
  if negb (isTaskUsagePricingModel m) then Some None
  else
    match billing_usage_schema m, list.head (default [] (billing_usage_examples m)) with
    | Some schema, Some firstExample =>
        '(billingExpr, _) ← splitBillingExprAndRequestRules (default [] (billing_expr m));
        Some (config ← tryParseTaskVisualConfig locale_le (Some billingExpr) schema;
              result ← evaluateTaskVisualConfig config (facts firstExample) (Some schema);
              Some (mkCard (ex_label firstExample) (formatTaskUsageUnitPrice (total result) o)))
    | _, _ => Some None
    end.

(** [getTaskMatrixDisplayTiers] *)
Definition getTaskMatrixDisplayTiers (expression : option jstr) (schema : option BillingUsageSchema) : option (list ParsedTaskTier) :=
  schema' ← schema;
  match getTaskEnumFields locale_le schema with
  | [] => None
  | _ =>
      matrix ← tryParseTaskMatrixConfig locale_le expression schema';
      Some (map (λ row, mkTaskTier (taskMatrixRowLabel locale_le (combination row))
                  (map (λ e, mkTaskCond e.1 e.2) (sort_entries locale_le (combination row)))
                  (row_constant row) (row_prices row)) (rows matrix))
  end.
End dynamic.

End Catalogue.
