(* ===== verification/CatalogueFacts.v ===== *)
(** * What the model catalogue shows

    The list holds exactly the models that match every filter, in the chosen
    order; the billing types divide the models; every offered tag leads to a
    model; the ratio that is shown is the best of the enabled groups; the range
    of a task price covers every tier. *)

From stdpp Require Import sorting.
From S2P Require Import Prelude StableSort JsValue NumFacts JsCollections FloatError NumRounding NumberText Regex BillingExpr StringFacts JsonText TaskExpr ModelPricing Currency Comparators Catalogue.
Import BillingExpr TaskExpr.
Import Currency.
Import Catalogue.

(** A decision carried over an equivalence. *)
Definition dec_of_iff (P Q : Prop) (H : P ↔ Q) `{!Decision P} : Decision Q :=
  match decide P with left p => left (proj1 H p) | right np => right (λ q, np (proj2 H q)) end.

Section catalogue.
Context (toLowerCase : jstr → jstr).

(** ** The list *)

(** A model that every filter admits. *)
Record listed (f : Filters) (m : PricingModel) : Prop := {
  listed_search : f_search f ≠ [] → ∃ text, text ∈ [Some (model_name m); description m; tags m; vendor_name m]
    ∧ text_has toLowerCase (toLowerCase (f_search f)) text = true;
  listed_vendor : f_vendor f ≠ FILTER_ALL → vendor_name m = Some (f_vendor f);
  listed_group : f_group f ≠ FILTER_ALL → f_group f ∈ enable_groups m;
  listed_type : f_quotaType f ≠ FILTER_ALL →
    if hasTaskUsageSchema m then f_quotaType f = QUOTA_TASK
    else f_quotaType f ≠ QUOTA_TASK ∧ quota_type m = (if f_quotaType f === QUOTA_TOKEN then TYPE_TOKEN else TYPE_REQUEST);
  listed_endpoint : f_endpointType f ≠ FILTER_ALL → f_endpointType f ∈ default [] (supported_endpoint_types m);
  listed_tag : f_tag f ≠ FILTER_ALL → toLowerCase (f_tag f) ∈ model_tags toLowerCase m }.

(** The filters can be decided. *)
Lemma listed_iff f m : listed f m ↔
  (f_search f ≠ [] → Exists (λ text, text_has toLowerCase (toLowerCase (f_search f)) text = true)
                       [Some (model_name m); description m; tags m; vendor_name m])
  ∧ (f_vendor f ≠ FILTER_ALL → vendor_name m = Some (f_vendor f))
  ∧ (f_group f ≠ FILTER_ALL → f_group f ∈ enable_groups m)
  ∧ (f_quotaType f ≠ FILTER_ALL →
       if hasTaskUsageSchema m then f_quotaType f = QUOTA_TASK
       else f_quotaType f ≠ QUOTA_TASK ∧ quota_type m = (if f_quotaType f === QUOTA_TOKEN then TYPE_TOKEN else TYPE_REQUEST))
  ∧ (f_endpointType f ≠ FILTER_ALL → f_endpointType f ∈ default [] (supported_endpoint_types m))
  ∧ (f_tag f ≠ FILTER_ALL → toLowerCase (f_tag f) ∈ model_tags toLowerCase m).
Proof.
  rewrite list.Exists_exists. split; [by intros []|]. intros (? & ? & ? & ? & ? & ?). by split.
Qed.
#[export] Instance listed_dec f m : Decision (listed f m).
Proof.
  unshelve eapply (dec_of_iff _ _ (iff_sym (listed_iff f m))).
  destruct (hasTaskUsageSchema m); apply _.
Defined.

(** A filter that is switched off keeps everything. *)
Lemma unless_elem {A} (off : bool) (P : A → Prop) `{∀ x, Decision (P x)} (l : list A) x :
  x ∈ (if off then l else filter P l) ↔ x ∈ l ∧ (off = false → P x).
Proof. destruct off; [naive_solver|]. rewrite list_elem_of_filter. naive_solver. Qed.

Lemma unless_sublist {A} (off : bool) (P : A → Prop) `{∀ x, Decision (P x)} (l : list A) :
  (if off then l else filter P l) `sublist_of` l.
Proof. destruct off; [done|]. apply sublist_filter. Qed.

Lemma jeqb_false a b : (a === b) = false ↔ a ≠ b.
Proof. unfold jeqb. apply bool_decide_eq_false. Qed.

Lemma search_elem l q m : m ∈ filterBySearch toLowerCase l q ↔ m ∈ l ∧ (q ≠ [] → ∃ text,
  text ∈ [Some (model_name m); description m; tags m; vendor_name m] ∧ text_has toLowerCase (toLowerCase q) text = true).
Proof.
  unfold filterBySearch. rewrite unless_elem. apply and_iff_compat_l. destruct q as [|c q]; [by split|].
  cbn [truthy negb]. set (q' := toLowerCase (c :: q)). rewrite !orb_true_iff. split.
  - intros H _. destruct (H eq_refl) as [[[?|?]|?]|?]; eexists; (split; [|done]); rewrite !elem_of_cons; tauto.
  - intros H _. destruct (H ltac:(done)) as (t & Ht & Hh). rewrite !elem_of_cons in Ht. destruct Ht as [->|[->|[->|[->|?%elem_of_nil]]]]; tauto.
Qed.

Lemma quota_elem l q m : m ∈ filterByQuotaType l q ↔ m ∈ l ∧ (q ≠ FILTER_ALL →
  if hasTaskUsageSchema m then q = QUOTA_TASK
  else q ≠ QUOTA_TASK ∧ quota_type m = (if q === QUOTA_TOKEN then TYPE_TOKEN else TYPE_REQUEST)).
Proof.
  unfold filterByQuotaType. destruct (q === FILTER_ALL) eqn:Ea; [apply jeqb_true in Ea; naive_solver|]. apply jeqb_false in Ea.
  destruct (q === QUOTA_TASK) eqn:Et.
  - apply jeqb_true in Et as ->. rewrite list_elem_of_filter. destruct (hasTaskUsageSchema m); naive_solver.
  - apply jeqb_false in Et. rewrite list_elem_of_filter. destruct (hasTaskUsageSchema m); naive_solver.
Qed.

Lemma quota_sublist l q : filterByQuotaType l q `sublist_of` l.
Proof. unfold filterByQuotaType. destruct (_ === _); [done|]. destruct (_ === _); apply sublist_filter. Qed.

Lemma equal_off a b (P : Prop) : ((a === b) = false → P) ↔ (a ≠ b → P).
Proof. by rewrite jeqb_false. Qed.

(** The filters in the order of the code, without the sorting. *)
Definition filtered (models : list PricingModel) (f : Filters) : list PricingModel :=
  filterByTag toLowerCase (filterByEndpointType (filterByQuotaType (filterByGroup (filterByVendor
    (filterBySearch toLowerCase models (f_search f)) (f_vendor f)) (f_group f)) (f_quotaType f)) (f_endpointType f)) (f_tag f).

Lemma filtered_elem models f m : m ∈ filtered models f ↔ m ∈ models ∧ listed f m.
Proof.
  unfold filtered, filterByTag, filterByEndpointType, filterByGroup, filterByVendor.
  rewrite unless_elem, unless_elem, quota_elem, unless_elem, unless_elem, search_elem, !equal_off.
  split; [intros [[[[[[H1 H2] H3] H4] H5] H6] H7]; split; [done|by split]|intros [H1 [H2 H3 H4 H5 H6 H7]]; tauto].
Qed.

Lemma filtered_sublist models f : filtered models f `sublist_of` models.
Proof.
  unfold filtered, filterByTag, filterByEndpointType, filterByGroup, filterByVendor.
  etrans; [apply unless_sublist|]. etrans; [apply unless_sublist|]. etrans; [apply quota_sublist|].
  etrans; [apply unless_sublist|]. etrans; [apply unless_sublist|]. unfold filterBySearch. apply unless_sublist.
Qed.

(** The filters together are one filter, which keeps the order. *)
Lemma unless_app {A} (off : bool) (P : A → Prop) `{∀ x, Decision (P x)} (l k : list A) :
  (if off then l ++ k else filter P (l ++ k)) = (if off then l else filter P l) ++ (if off then k else filter P k).
Proof. destruct off; [done|]. apply list.filter_app. Qed.

Lemma filtered_app l k f : filtered (l ++ k) f = filtered l f ++ filtered k f.
Proof.
  unfold filtered, filterByTag, filterByEndpointType, filterByGroup, filterByVendor, filterBySearch.
  rewrite unless_app, unless_app, unless_app.
  assert (∀ l k q, filterByQuotaType (l ++ k) q = filterByQuotaType l q ++ filterByQuotaType k q) as ->.
  { intros l' k' q. unfold filterByQuotaType. destruct (q === FILTER_ALL); [done|].
    destruct (q === QUOTA_TASK); apply list.filter_app. }
  by rewrite unless_app, unless_app.
Qed.

Lemma filtered_filter models f : filtered models f = filter (listed f) models.
Proof.
  induction models as [|m models IH].
  { pose proof (filtered_sublist [] f) as H. by apply sublist_nil_r in H. }
  change (m :: models) with ([m] ++ models). rewrite filtered_app, list.filter_app, IH. f_equal.
  pose proof (filtered_sublist [m] f) as Hs. pose proof (filtered_elem [m] f m) as He.
  rewrite filter_cons, filter_nil. apply sublist_cons_r in Hs as [Hs|(l & Hl & Hs)]; apply sublist_nil_r in Hs.
  - rewrite Hs in *. rewrite decide_False; [done|]. intros Hm.
    apply (not_elem_of_nil m), He. split; [left|done].
  - rewrite Hl, Hs in *. rewrite decide_True; [done|]. apply He. left.
Qed.

(** What is promised of the order of names: the collation is a total preorder. *)
Context (localeCompare : jstr → jstr → Z) `{!Comparator (λ _ : jstr, True) localeCompare}.

Lemma sort_order_lawful sortBy cmp : sort_order localeCompare sortBy = Some cmp →
  Comparator (λ m, not_nan (getModelPrice m) = true) cmp.
Proof.
  unfold sort_order. destruct (_ === _); [|destruct (_ === _); [|destruct (_ === _); [|done]]]; intros E; apply (inj Some) in E; subst cmp.
  - split; [intros a b _ _; by apply cmp_total|intros a b c _ _ _; by apply cmp_trans].
  - apply (on_comparator getModelPrice (λ x, not_nan x = true) num_sign). apply _.
  - apply flip_comparator, (on_comparator getModelPrice (λ x, not_nan x = true) num_sign). apply _.
Qed.

(** [C35] The catalogue lists exactly the models that match every active filter,
    each as often as it is given: the list is a rearrangement of the given one
    filtered by the conditions of the filters, in the order given where no order
    is chosen, and sorted by name, or by price up or down, where one is.  Sorting
    asks that no given model has NaN as its price, and that the collation is a
    total preorder. *)
Theorem catalogue_lists_matching models s q :
  let f := active_filters s q in
  let shown := filteredModels toLowerCase localeCompare models s q in
  shown ≡ₚ filter (listed f) models
  ∧ match sort_order localeCompare (f_sortBy f) with
    | None => shown = filter (listed f) models
    | Some cmp => Forall (λ m, not_nan (getModelPrice m) = true) models → StronglySorted (cmp_le cmp) shown
    end.
Proof.
  intros f shown. assert (shown = sortModels localeCompare (filter (listed f) models) (f_sortBy f)) as ->.
  { by rewrite <- filtered_filter. }
  unfold sortModels. destruct (sort_order localeCompare (f_sortBy f)) as [cmp|] eqn:Hcmp; [|done].
  split; [apply sort_by_perm|]. intros Hall. apply (sort_by_sorted _ _ (Comparator0 := sort_order_lawful _ _ Hcmp)).
  rewrite list.Forall_forall in Hall |- *. intros m [_ Hm]%list_elem_of_filter. by apply Hall.
Qed.

(** ** Billing types *)

(** The three billing types divide the models of known type: every model is
    in exactly one of them, as often as in the whole list. *)
Theorem quota_types_divide models :
  Forall (λ m, quota_type m = TYPE_TOKEN ∨ quota_type m = TYPE_REQUEST) models →
  filterByQuotaType models QUOTA_TOKEN ++ filterByQuotaType models (js "request") ++ filterByQuotaType models QUOTA_TASK ≡ₚ models.
Proof.
  unfold filterByQuotaType. cbv [FILTER_ALL QUOTA_TOKEN QUOTA_TASK]. rewrite jeqb_refl, !jeqb_refl.
  rewrite !(jeqb_neq (js "token")), !(jeqb_neq (js "request")), !(jeqb_neq (js "task")) by done.
  induction 1 as [|m models Hm _ IH]; [done|]. rewrite !filter_cons.
  destruct (hasTaskUsageSchema m) eqn:Et.
  - rewrite !decide_False by naive_solver. rewrite decide_True by done. rewrite app_assoc, <-Permutation_middle, <-app_assoc. by constructor.
  - rewrite (decide_False (P := false = true)) by done. destruct Hm as [Hm|Hm]; rewrite Hm.
    + rewrite (decide_True (P := TYPE_TOKEN = TYPE_TOKEN ∧ false = false)) by done. rewrite decide_False by naive_solver. cbn [app]. by constructor.
    + rewrite decide_False by naive_solver. rewrite decide_True by done. cbn [app]. rewrite <-Permutation_middle. by constructor.
Qed.
End catalogue.

(** ** Tags *)

Section tags.
Context (toLowerCase : jstr → jstr) (localeCompare : jstr → jstr → Z).
(** Lower case is stable. *)
Context (Hlower : ∀ s, toLowerCase (toLowerCase s) = toLowerCase s).

Lemma extracted_tag models t : t ∈ extractAllTags toLowerCase localeCompare models ↔ ∃ m, m ∈ models ∧ t ∈ model_tags toLowerCase m.
Proof.
  unfold extractAllTags. rewrite sort_by_perm, dedup_elem, list_elem_of_In, in_concat. split.
  - intros (l & Hl & Ht). apply in_map_iff in Hl as (m & <- & Hm). exists m. split; by apply list_elem_of_In.
  - intros (m & Hm & Ht). exists (model_tags toLowerCase m). split; [|by apply list_elem_of_In]. apply in_map, list_elem_of_In, Hm.
Qed.

Lemma tag_lowered m t : t ∈ model_tags toLowerCase m → toLowerCase t = t.
Proof. unfold model_tags. intros (s & <- & _)%list_elem_of_In%in_map_iff. apply Hlower. Qed.

(** The tag filters are complete and none is dead: every tag of every model is
    offered, and choosing an offered tag, with the other filters cleared, lists
    exactly the models that carry it, of which there is at least one. *)
Theorem tags_are_live models s t :
  t ≠ [] → t ≠ FILTER_ALL → t ∈ extractAllTags toLowerCase localeCompare models →
  let shown := filteredModels toLowerCase localeCompare models (setTagFilter t (clearFilters s)) [] in
  shown ≠ [] ∧ (∀ m, m ∈ shown ↔ m ∈ models ∧ t ∈ model_tags toLowerCase m)
  ∧ ∀ m t', m ∈ models → t' ∈ model_tags toLowerCase m → t' ∈ extractAllTags toLowerCase localeCompare models.
Proof.
  intros Hne Hall Ht shown.
  assert (∀ m, m ∈ shown ↔ m ∈ models ∧ t ∈ model_tags toLowerCase m) as Hshown.
  { intros m. set (f := active_filters (setTagFilter t (clearFilters s)) []).
    assert (shown ≡ₚ filtered toLowerCase models f) as ->.
    { unfold shown, filteredModels, filterAndSortModels, sortModels. destruct (sort_order _ _); [apply sort_by_perm|done]. }
    assert (f_tag f = t) as Hf.
    { cbn [f active_filters f_tag setTagFilter clearFilters tag]. unfold unless, jeqb. rewrite bool_decide_eq_false_2 by done.
      cbn [opt_or_else]. unfold or_else. by rewrite truthy_ne. }
    apply extracted_tag in Ht as (m0 & _ & Ht0). rewrite filtered_elem. apply and_iff_compat_l. rewrite <-(tag_lowered m0 t Ht0), <-Hf at 1. split.
    - intros Hl. apply (listed_tag _ _ _ Hl). by rewrite Hf.
    - intros Hm. split; try (by intros []). by intros _. }
  split; [|split; [done|intros m t' Hm Ht'; apply extracted_tag; by exists m]].
  apply extracted_tag in Ht as (m & Hm & Htm). intros E. assert (m ∈ shown) as Hin by (by apply Hshown). rewrite E in Hin. by apply elem_of_nil in Hin.
Qed.
End tags.

(** ** The ratio that is shown *)

Lemma not_nan_finite x : isFinite x = true → not_nan x = true.
Proof. by destruct x. Qed.

(** What the loop over the groups has found so far. *)
Lemma min_ratio_spec ratios groups acc :
  (acc = S754_infinity false ∨ isFinite acc = true) →
  let r := foldl (min_ratio ratios) acc groups in
  (r = acc ∨ ∃ g, g ∈ groups ∧ field_get g ratios = Some r ∧ isFinite r = true)
  ∧ num_ltb acc r = false
  ∧ ∀ g x, g ∈ groups → field_get g ratios = Some x → isFinite x = true → num_ltb x r = false.
Proof.
  revert acc. induction groups as [|g groups IH]; intros acc Hacc; cbn [foldl].
  { split; [by left|]. split; [|by intros g x ?%elem_of_nil]. by destruct (num_ltb_total acc acc). }
  assert (∀ x, x = S754_infinity false ∨ isFinite x = true → not_nan x = true) as Hnn by (intros x [->|?]; [done|by apply not_nan_finite]).
  set (acc' := min_ratio ratios acc g).
  assert ((acc' = S754_infinity false ∨ isFinite acc' = true) ∧ num_ltb acc acc' = false
    ∧ (acc' = acc ∨ (field_get g ratios = Some acc' ∧ isFinite acc' = true))
    ∧ ∀ x, field_get g ratios = Some x → isFinite x = true → num_ltb x acc' = false) as (Ha & Hle & Hfrom & Hg).
  { unfold acc', min_ratio. destruct (field_get g ratios) as [x|]; [|split_and!; [done|by destruct (num_ltb_total acc acc)|by left|done]].
    destruct (isFinite x) eqn:Ex; cbn [andb]; [|split_and!; [done|by destruct (num_ltb_total acc acc)|by left|by intros ? [= ->]; rewrite Ex]].
    destruct (num_ltb x acc) eqn:El.
    - split_and!; [by right|by destruct (num_ltb_total x acc) as [|]; [congruence|]|by right|intros ? [= ->] _; by destruct (num_ltb_total x0 x0)].
    - split_and!; [done|by destruct (num_ltb_total acc acc)|by left|by intros ? [= <-] _]. }
  destruct (IH acc' Ha) as (H1 & H2 & H3). cbv zeta in *. set (r := foldl (min_ratio ratios) acc' groups) in *.
  assert (not_nan r = true) as Hr.
  { destruct H1 as [->|(? & _ & _ & ?)]; [by apply Hnn|by apply not_nan_finite]. }
  split_and!.
  - destruct H1 as [->|(g' & ? & ? & ?)]; [|right; exists g'; split_and!; [by right|done|done]].
    destruct Hfrom as [->|[? ?]]; [by left|]. right. exists g. split_and!; [left|done|done].
  - apply (num_ge_trans acc acc' r); auto.
  - intros g' x [->|Hin]%elem_of_cons Hx Hfx; [|by apply (H3 g')]. apply (num_ge_trans x acc' r); auto using not_nan_finite.
Qed.

(** Without a selected group the catalogue shows the best ratio: one that an
    enabled group has, and no enabled group has a smaller one; if none has a
    usable ratio, 1. *)
Theorem shown_ratio_is_best m :
  let r := getDisplayGroupRatio m None in
  let ratios := default [] (group_ratio m) in
  (∀ g x, g ∈ enable_groups m → field_get g ratios = Some x → isFinite x = true → num_ltb x r = false)
  ∧ ((∃ g, g ∈ enable_groups m ∧ field_get g ratios = Some r ∧ isFinite r = true)
     ∨ (r = num_of_Z 1 ∧ ∀ g x, g ∈ enable_groups m → field_get g ratios = Some x → isFinite x = false)).
Proof.
  intros r ratios. unfold r, getDisplayGroupRatio. fold ratios. destruct (enable_groups m) as [|g0 gs] eqn:Eg.
  { split; [by intros g x ?%elem_of_nil|]. right. split; [done|by intros g x ?%elem_of_nil]. }
  set (l := g0 :: gs). destruct (min_ratio_spec ratios l (S754_infinity false) (or_introl eq_refl)) as (H1 & _ & H3). cbv zeta in *.
  set (x := foldl (min_ratio ratios) (S754_infinity false) l) in *.
  assert (x = S754_infinity false → ∀ g y, g ∈ l → field_get g ratios = Some y → isFinite y = false) as Hnone.
  { intros Ex g y Hg Hy. destruct (isFinite y) eqn:Ey; [|done]. specialize (H3 g y Hg Hy Ey). rewrite Ex in H3. by destruct y as [[]| | |[]]. }
  case_bool_decide as Ex.
  - split; [|by right; split; [|apply Hnone]]. intros g y Hg Hy Hf. by rewrite (Hnone Ex g y Hg Hy) in Hf.
  - split; [done|]. left. by destruct H1.
Qed.

(** ** Ranges of task prices *)

Lemma shown_price_finite f t v : tier_price f t = Some v → isFinite v = true.
Proof.
  destruct t as [t|t]; [done|]. cbn [tier_price]. unfold shown_price. destruct (field_get f (unitPrices t)) as [x|]; [|done].
  destruct (isFinite x) eqn:E; [|done]. by destruct (negb _); cbn [andb]; intros [= <-].
Qed.

Lemma num_ltb_irrefl x : num_ltb x x = false.
Proof. by destruct (num_ltb_total x x). Qed.

Lemma math_min_spec a v : not_nan a = true → not_nan v = true →
  (math_min a v = a ∨ math_min a v = v) ∧ num_ltb a (math_min a v) = false ∧ num_ltb v (math_min a v) = false ∧ not_nan (math_min a v) = true.
Proof.
  intros Ha Hv. unfold math_min. destruct (num_ltb v a) eqn:E; split_and!; auto using num_ltb_irrefl.
  by destruct (num_ltb_total v a); [congruence|].
Qed.

Lemma math_max_spec b v : not_nan b = true → not_nan v = true →
  (math_max b v = b ∨ math_max b v = v) ∧ num_ltb (math_max b v) b = false ∧ num_ltb (math_max b v) v = false ∧ not_nan (math_max b v) = true.
Proof.
  intros Hb Hv. unfold math_max. destruct (num_ltb b v) eqn:E; split_and!; auto using num_ltb_irrefl.
  by destruct (num_ltb_total v b); [|congruence].
Qed.

(** The range found in the tiers so far, from a range that is no NaN. *)
Lemma widen_spec f l a b : not_nan a = true → not_nan b = true →
  let '(lo, hi) := foldl (widen f) (a, b) l in
  (lo = a ∨ ∃ t, t ∈ l ∧ tier_price f t = Some lo) ∧ (hi = b ∨ ∃ t, t ∈ l ∧ tier_price f t = Some hi)
  ∧ num_ltb a lo = false ∧ num_ltb hi b = false ∧ not_nan lo = true ∧ not_nan hi = true
  ∧ ∀ t v, t ∈ l → tier_price f t = Some v → num_ltb v lo = false ∧ num_ltb hi v = false.
Proof.
  revert a b. induction l as [|t l IH]; intros a b Ha Hb; cbn [foldl].
  { split_and!; auto using num_ltb_irrefl. by intros t v ?%elem_of_nil. }
  assert (∀ x y, (x = y ∨ ∃ t', t' ∈ l ∧ tier_price f t' = Some x) → x = y ∨ ∃ t', t' ∈ t :: l ∧ tier_price f t' = Some x) as Hmore.
  { intros x y [->|(t' & ? & ?)]; [by left|]. right. exists t'. split; [by right|done]. }
  unfold widen at 2. cbn [fst snd]. destruct (tier_price f t) as [v|] eqn:Ev.
  - pose proof (not_nan_finite v (shown_price_finite f t v Ev)) as Hv.
    destruct (math_min_spec a v Ha Hv) as (Ha' & Haa & Hva & Hna), (math_max_spec b v Hb Hv) as (Hb' & Hbb & Hvb & Hnb).
    specialize (IH (math_min a v) (math_max b v) Hna Hnb). destruct (foldl (widen f) _ l) as [lo hi].
    destruct IH as (I1 & I2 & I3 & I4 & I5 & I6 & I7). split_and!; try done.
    + destruct (Hmore _ _ I1) as [->|?]; [|by right]. destruct Ha' as [->| ->]; [by left|]. right. exists t. split; [left|done].
    + destruct (Hmore _ _ I2) as [->|?]; [|by right]. destruct Hb' as [->| ->]; [by left|]. right. exists t. split; [left|done].
    + by apply (num_ge_trans a (math_min a v) lo).
    + by apply (num_ge_trans hi (math_max b v) b).
    + intros t' v' [->|Ht']%elem_of_cons Hv'; [|by apply (I7 t')]. rewrite Ev in Hv'. apply (inj Some) in Hv'. subst v'.
      split; [by apply (num_ge_trans v (math_min a v) lo)|by apply (num_ge_trans hi (math_max b v) v)].
  - specialize (IH a b Ha Hb). destruct (foldl (widen f) (a, b) l) as [lo hi]. destruct IH as (I1 & I2 & I3 & I4 & I5 & I6 & I7).
    split_and!; auto. intros t' v' [->|Ht']%elem_of_cons Hv'; [congruence|by apply (I7 t')].
Qed.

(** The range of a task price covers the price of every tier and both ends are
    prices of a tier. *)
Theorem price_range_covers tiers f lo hi :
  price_range tiers f = Some (lo, hi) →
  (∃ t, t ∈ tiers ∧ tier_price f t = Some lo) ∧ (∃ t, t ∈ tiers ∧ tier_price f t = Some hi)
  ∧ ∀ t v, t ∈ tiers → tier_price f t = Some v → num_ltb v lo = false ∧ num_ltb hi v = false.
Proof.
  unfold price_range. pose proof (widen_spec f tiers (S754_infinity false) (S754_infinity true) eq_refl eq_refl) as H.
  destruct (foldl (widen f) _ tiers) as [lo1 hi1]. destruct H as (H1 & H2 & _ & _ & _ & _ & H7).
  destruct (isFinite lo1) eqn:E1; [|done]. destruct (isFinite hi1) eqn:E2; [|done]. cbn [andb]. intros [= <- <-].
  split; [by destruct H1 as [->|]|]. split; [by destruct H2 as [->|]|]. done.
Qed.

(** ** Runs *)

Definition no_change : jstr → jstr := λ s, s.
Definition by_length (a b : jstr) : Z := Z.of_nat (length a) - Z.of_nat (length b).
#[local] Instance by_length_comparator : Comparator (λ _ : jstr, True) by_length.
Proof. split; unfold by_length; lia. Qed.

Definition sample_model (name group tag : jstr) (type : Z) (ratio price : jsnum) : PricingModel :=
  mkModel name None None None type ratio (num_of_Z 3) (Some price) None None None None None [group; js "vip"] (Some tag) None
    (Some [(js "default", num_of_Z 1); (js "vip", num_of_dec false 8 (-1))]) None None None None.

Definition sample_models : list PricingModel :=
  [sample_model (js "large") (js "default") (js "chat, vision") 0 (num_of_Z 5) (num_of_Z 0);
   sample_model (js "tiny") (js "default") (js "chat") 0 (num_of_Z 1) (num_of_Z 0);
   sample_model (js "draw") (js "default") (js "image") 1 (num_of_Z 0) (num_of_Z 2)].

Definition by_price : FilterState := mkFilterState None (Some SORT_PRICE_LOW) None None None None (Some (js "chat")) None None None.

Lemma catalogue_lists_matching_witness :
  map model_name (filteredModels no_change by_length sample_models by_price []) = [js "tiny"; js "large"]
  ∧ StronglySorted (cmp_le (λ a b, num_sign (getModelPrice a) (getModelPrice b))) (filteredModels no_change by_length sample_models by_price []).
Proof.
  split; [vm_compute; reflexivity|].
  apply (catalogue_lists_matching no_change by_length sample_models by_price []). by repeat constructor.
Defined.

Lemma quota_types_divide_witness :
  filterByQuotaType sample_models QUOTA_TOKEN ++ filterByQuotaType sample_models (js "request") ++ filterByQuotaType sample_models QUOTA_TASK
    ≡ₚ sample_models
  ∧ map model_name (filterByQuotaType sample_models (js "request")) = [js "draw"].
Proof.
  split; [|vm_compute; reflexivity]. apply (quota_types_divide sample_models).
  repeat (constructor; [unfold TYPE_TOKEN, TYPE_REQUEST; cbn; tauto|]). constructor.
Defined.

Lemma tags_are_live_witness :
  ∀ m, m ∈ filteredModels no_change by_length sample_models (setTagFilter (js "vision") (clearFilters by_price)) []
    ↔ m ∈ sample_models ∧ js "vision" ∈ model_tags no_change m.
Proof.
  apply (tags_are_live no_change by_length (λ s, eq_refl) sample_models by_price (js "vision")); [done|done|].
  apply (bool_decide_unpack _). vm_compute. exact I.
Defined.

Definition two_tiers : list DynamicPricingTier :=
  [task_tier (mkTaskTier (js "hd") [] zero [(js "seconds", num_of_Z 4)]); task_tier (mkTaskTier (js "sd") [] zero [(js "seconds", num_of_Z 1)])].

Lemma price_range_covers_witness :
  ∃ lo hi, price_range two_tiers (js "seconds") = Some (lo, hi) ∧ num_ltb (num_of_Z 4) lo = false ∧ num_ltb hi (num_of_Z 4) = false.
Proof.
  exists (num_of_Z 1), (num_of_Z 4). assert (price_range two_tiers (js "seconds") = Some (num_of_Z 1, num_of_Z 4)) as H by (vm_compute; reflexivity).
  split; [exact H|]. destruct (price_range_covers two_tiers (js "seconds") _ _ H) as (_ & _ & Hall).
  apply (Hall (task_tier (mkTaskTier (js "hd") [] zero [(js "seconds", num_of_Z 4)]))); [left|]. vm_compute. reflexivity.
Defined.

(** The decimal comma of a locale is taken for a thousands separator: half a
    dollar, written as in Brazil, becomes fifty. *)
Example decimal_comma_is_dropped :
  map stripTrailingZeros [js "US$ 0,50"; js "$1,234.50"; js "$0.00000010"] = [js "US$ 50"; js "$1234.5"; js "$0.0000001"].
Proof. vm_compute. reflexivity. Qed.
