(* ===== verification/PlaygroundState.v ===== *)
(** * State of the playground page

    Models [features/playground/hooks/use-playground-state.ts],
    [hooks/use-playground-options.ts], [lib/state/playground-state-utils.ts] and
    [lib/parameters/playground-parameters.ts].

    A page is the state of the hook, its refs, the two timers, the updates React
    has queued and [localStorage].  An event is a call of an action of the hook,
    a render that runs the queued updaters, a timer, or the removal of the
    page.  React may run an updater at the call already; that is the schedule in
    which the render follows at once.  The zod schemas and the room left in
    [localStorage] are parameters. *)

From S2P Require Import Prelude JsValue JsCollections PlaygroundMessage PlaygroundStorage ModelPricing.
Import Types Payload Storage Options.

(** ** playground-parameters.ts *)
Module Parameters.

Inductive PlaygroundParameterKey :=
  Temperature | TopP | MaxTokens | FrequencyPenalty | PresencePenalty | Seed.
#[export] Instance parameter_key_eq_dec : EqDecision PlaygroundParameterKey.
Proof. solve_decision. Defined.

Inductive ValueType := slider | number.

Record PlaygroundParameterControl := mkControl {
  k_key : PlaygroundParameterKey; k_labelKey : jstr; k_descriptionKey : jstr;
  k_valueType : ValueType; k_min : jsnum; k_max : jsnum; k_step : jsnum;
}.

Definition tenth : jsnum := num_of_dec false 1 (-1).

Definition PLAYGROUND_PARAMETER_CONTROLS : list PlaygroundParameterControl := [
  mkControl Temperature (js "Temperature") (js "Controls randomness and creativity") slider
    tenth (num_of_Z 1) tenth;
  mkControl TopP (js "Top P") (js "Limits token selection to a probability mass") slider
    tenth (num_of_Z 1) tenth;
  mkControl FrequencyPenalty (js "Frequency Penalty") (js "Reduces repeated wording") slider
    (num_of_Z (-2)) (num_of_Z 2) tenth;
  mkControl PresencePenalty (js "Presence Penalty") (js "Encourages new topics") slider
    (num_of_Z (-2)) (num_of_Z 2) tenth;
  mkControl MaxTokens (js "Max Tokens") (js "Caps the response length") number
    (num_of_Z 0) (num_of_Z 200000) (num_of_Z 1);
  mkControl Seed (js "Seed") (js "Keeps compatible responses more repeatable") number
    (num_of_Z 0) (num_of_Z 2147483647) (num_of_Z 1)
].

Definition control_of (key : PlaygroundParameterKey) : option PlaygroundParameterControl :=
  List.find (λ c, bool_decide (k_key c = key)) PLAYGROUND_PARAMETER_CONTROLS.

(** [Math.min] of numbers that are not NaN, and [Math.trunc]. *)
Definition num_min (a b : jsnum) : jsnum := if num_ltb b a then b else a.
Definition num_trunc (n : jsnum) : jsnum :=
  match n with
  | S754_finite s m e =>
      if 0 <=? e then n
      else let z := Zpos m / 2 ^ (- e) in
           if z =? 0 then S754_zero s else num_of_Z (if s then - z else z)
  | _ => n
  end.
Definition isNaN (n : jsnum) : bool := match n with S754_nan => true | _ => false end.

(** A [string | number]. *)
Inductive ControlInput := Text (s : jstr) | Num (n : jsnum).

Definition decimals_of (step : jsnum) : Z :=
  match split1 46%N (num_to_string step) with
  | _ :: decimals :: _ => Z.max 0 (len decimals)
  | _ => 0
  end.

(** [None] stands for [null]. *)
Definition normalizeParameterNumberValue (key : PlaygroundParameterKey) (value : ControlInput) : option jsnum :=
  let unset := if bool_decide (key = Seed) then None else Some (num_of_Z 0) in
  if match value with Text [] => true | _ => false end then unset
  else
    let parsed := match value with Num n => n | Text s => ModelPricing.parseFloat s end in
    match control_of key with
    | None => unset
    | Some control =>
        if isNaN parsed then unset
        else
          let clamped := num_min (k_max control) (ModelPricing.num_max (k_min control) parsed) in
          if num_leb (num_of_Z 1) (k_step control) then Some (num_trunc clamped)
          else Some (Number (toFixed (decimals_of (k_step control)) clamped))
    end.

(** A value of the configuration: a text, a number or null, a flag. *)
Inductive ParameterValue := PText (s : jstr) | PNum (n : option jsnum) | PBool (b : bool).

Definition getParameterControlValueText (key : PlaygroundParameterKey) (value : ParameterValue) : jstr :=
  match value with
  | PNum None => if bool_decide (key = Seed) then js "Not set" else js "null"
  | PNum (Some n) => num_to_string n
  | PText s => s
  | PBool b => if b then js "true" else js "false"
  end.

End Parameters.

(** ** playground-state-utils.ts and use-playground-state.ts *)
Module PageState.
Import Parameters.

(** [Partial<PlaygroundConfig>] and [Partial<ParameterEnabled>]. *)
Record PartialConfig := mkPartial {
  c_model : option jstr; c_group : option jstr; c_temperature : option jsnum; c_top_p : option jsnum;
  c_max_tokens : option jsnum; c_frequency_penalty : option jsnum; c_presence_penalty : option jsnum;
  c_seed : option (option jsnum); c_stream : option bool;
}.
Record PartialEnabled := mkPartialEnabled {
  n_temperature : option bool; n_top_p : option bool; n_max_tokens : option bool;
  n_frequency_penalty : option bool; n_presence_penalty : option bool; n_seed : option bool;
}.

(** [{ ...config, ...saved }] *)
Definition spread_config (c : PlaygroundConfig) (saved : PartialConfig) : PlaygroundConfig :=
  mkPlaygroundConfig (default (model c) (c_model saved)) (default (group c) (c_group saved))
    (default (temperature c) (c_temperature saved)) (default (top_p c) (c_top_p saved))
    (default (max_tokens c) (c_max_tokens saved)) (default (frequency_penalty c) (c_frequency_penalty saved))
    (default (presence_penalty c) (c_presence_penalty saved)) (default (seed c) (c_seed saved))
    (default (stream c) (c_stream saved)).
Definition spread_enabled (e : ParameterEnabled) (saved : PartialEnabled) : ParameterEnabled :=
  mkEnabled (default (e_temperature e) (n_temperature saved)) (default (e_top_p e) (n_top_p saved))
    (default (e_max_tokens e) (n_max_tokens saved))
    (default (e_frequency_penalty e) (n_frequency_penalty saved))
    (default (e_presence_penalty e) (n_presence_penalty saved)) (default (e_seed e) (n_seed saved)).

(** The objects handed to the schemas and printed. *)
Definition seed_json (s : option jsnum) : json := match s with Some n => JNum n | None => JNull end.
Definition partial_json (c : PartialConfig) : json :=
  JObj (field "model" (JStr <$> c_model c) ++ field "group" (JStr <$> c_group c)
        ++ field "temperature" (JNum <$> c_temperature c) ++ field "top_p" (JNum <$> c_top_p c)
        ++ field "max_tokens" (JNum <$> c_max_tokens c)
        ++ field "frequency_penalty" (JNum <$> c_frequency_penalty c)
        ++ field "presence_penalty" (JNum <$> c_presence_penalty c)
        ++ field "seed" (seed_json <$> c_seed c) ++ field "stream" (JBool <$> c_stream c)).
Definition partial_enabled_json (e : PartialEnabled) : json :=
  JObj (field "temperature" (JBool <$> n_temperature e) ++ field "top_p" (JBool <$> n_top_p e)
        ++ field "max_tokens" (JBool <$> n_max_tokens e)
        ++ field "frequency_penalty" (JBool <$> n_frequency_penalty e)
        ++ field "presence_penalty" (JBool <$> n_presence_penalty e) ++ field "seed" (JBool <$> n_seed e)).
Definition whole_config (c : PlaygroundConfig) : PartialConfig :=
  mkPartial (Some (model c)) (Some (group c)) (Some (temperature c)) (Some (top_p c))
    (Some (max_tokens c)) (Some (frequency_penalty c)) (Some (presence_penalty c)) (Some (seed c))
    (Some (stream c)).
Definition whole_enabled (e : ParameterEnabled) : PartialEnabled :=
  mkPartialEnabled (Some (e_temperature e)) (Some (e_top_p e)) (Some (e_max_tokens e))
    (Some (e_frequency_penalty e)) (Some (e_presence_penalty e)) (Some (e_seed e)).

(** A key of [PlaygroundConfig] with a value of its type. *)
Inductive ConfigField :=
| FModel (v : jstr) | FGroup (v : jstr) | FStream (v : bool) | FSeed (v : option jsnum)
| FTemperature (v : jsnum) | FTopP (v : jsnum) | FMaxTokens (v : jsnum)
| FFrequencyPenalty (v : jsnum) | FPresencePenalty (v : jsnum).

(** [{ ...prev, [key]: value }] *)
Definition set_field (f : ConfigField) (c : PlaygroundConfig) : PlaygroundConfig :=
  let '(mkPlaygroundConfig m g te tp mt fp pp sd st) := c in
  match f with
  | FModel v => mkPlaygroundConfig v g te tp mt fp pp sd st
  | FGroup v => mkPlaygroundConfig m v te tp mt fp pp sd st
  | FTemperature v => mkPlaygroundConfig m g v tp mt fp pp sd st
  | FTopP v => mkPlaygroundConfig m g te v mt fp pp sd st
  | FMaxTokens v => mkPlaygroundConfig m g te tp v fp pp sd st
  | FFrequencyPenalty v => mkPlaygroundConfig m g te tp mt v pp sd st
  | FPresencePenalty v => mkPlaygroundConfig m g te tp mt fp v sd st
  | FSeed v => mkPlaygroundConfig m g te tp mt fp pp v st
  | FStream v => mkPlaygroundConfig m g te tp mt fp pp sd v
  end.
Definition set_enabled (k : PlaygroundParameterKey) (v : bool) (e : ParameterEnabled) : ParameterEnabled :=
  let '(mkEnabled te tp mt fp pp sd) := e in
  match k with
  | Temperature => mkEnabled v tp mt fp pp sd
  | TopP => mkEnabled te v mt fp pp sd
  | MaxTokens => mkEnabled te tp v fp pp sd
  | FrequencyPenalty => mkEnabled te tp mt v pp sd
  | PresencePenalty => mkEnabled te tp mt fp v sd
  | Seed => mkEnabled te tp mt fp pp v
  end.

(** What the parameter panel hands to [onConfigChange]. *)
Definition updateParameterConfig (key : PlaygroundParameterKey) (value : option jsnum) : ConfigField :=
  let v := default (num_of_Z 0) value in
  match key with
  | Seed => FSeed value
  | Temperature => FTemperature v
  | TopP => FTopP v
  | MaxTokens => FMaxTokens v
  | FrequencyPenalty => FFrequencyPenalty v
  | PresencePenalty => FPresencePenalty v
  end.

Inductive MessageStateUpdater := Replace (ms : list Message) | Apply (f : list Message → list Message).
Definition applyMessageStateUpdate (previousMessages : list Message) (updater : MessageStateUpdater)
    : list Message :=
  match updater with Apply f => f previousMessages | Replace ms => ms end.

(** Queued updates of the three state variables.  [SetMessages] is the pair of
    calls [setMessages] and [setIsLoadingMessages(false)] of the first effect.
    The option lists, which the hook only hands on, are set at once. *)
Inductive ConfigUpdate := SetConfig (c : PlaygroundConfig) | ChangeConfig (f : ConfigField).
Inductive EnabledUpdate := SetEnabled (e : ParameterEnabled) | ChangeEnabled (k : PlaygroundParameterKey) (v : bool).
Inductive MessagesUpdate := SetMessages (ms : list Message) | ChangeMessages (u : MessageStateUpdater).

Record page := mkPage {
  config : PlaygroundConfig; parameterEnabled : ParameterEnabled;
  messages : list Message; isLoadingMessages : bool;
  messagesSaveTimerRef : bool; latestMessagesRef : list Message; hasLoadedMessagesRef : bool;
  models : list jstr; groups : list jstr;
  cancelled : bool; load_timer : bool;
  config_queue : list ConfigUpdate; enabled_queue : list EnabledUpdate; messages_queue : list MessagesUpdate;
  local : store;
}.

Definition set_config c q s p :=
  mkPage c (parameterEnabled p) (messages p) (isLoadingMessages p) (messagesSaveTimerRef p)
    (latestMessagesRef p) (hasLoadedMessagesRef p) (models p) (groups p) (cancelled p) (load_timer p)
    q (enabled_queue p) (messages_queue p) s.
Definition set_parameters e q s p :=
  mkPage (config p) e (messages p) (isLoadingMessages p) (messagesSaveTimerRef p)
    (latestMessagesRef p) (hasLoadedMessagesRef p) (models p) (groups p) (cancelled p) (load_timer p)
    (config_queue p) q (messages_queue p) s.
Definition set_messages ms q p :=
  mkPage (config p) (parameterEnabled p) ms (isLoadingMessages p) (messagesSaveTimerRef p)
    (latestMessagesRef p) (hasLoadedMessagesRef p) (models p) (groups p) (cancelled p) (load_timer p)
    (config_queue p) (enabled_queue p) q (local p).
Definition set_loaded ms p :=
  mkPage (config p) (parameterEnabled p) ms false (messagesSaveTimerRef p)
    (latestMessagesRef p) (hasLoadedMessagesRef p) (models p) (groups p) (cancelled p) (load_timer p)
    (config_queue p) (enabled_queue p) [] (local p).
Definition set_latest ms timer p :=
  mkPage (config p) (parameterEnabled p) (messages p) (isLoadingMessages p) timer
    ms (hasLoadedMessagesRef p) (models p) (groups p) (cancelled p) (load_timer p)
    (config_queue p) (enabled_queue p) (messages_queue p) (local p).
Definition set_options ms gs p :=
  mkPage (config p) (parameterEnabled p) (messages p) (isLoadingMessages p) (messagesSaveTimerRef p)
    (latestMessagesRef p) (hasLoadedMessagesRef p) ms gs (cancelled p) (load_timer p)
    (config_queue p) (enabled_queue p) (messages_queue p) (local p).
Definition set_storage timer gone s p :=
  mkPage (config p) (parameterEnabled p) (messages p) (isLoadingMessages p) timer
    (latestMessagesRef p) (hasLoadedMessagesRef p) (models p) (groups p) gone (load_timer p)
    (config_queue p) (enabled_queue p) (messages_queue p) s.

Section hook.
Context (has_room : store → jstr → jstr → bool) (messagesSchema : json → option (list Message))
  (playgroundConfigSchema : json → option PartialConfig)
  (parameterEnabledSchema : json → option PartialEnabled) (t : jstr → jstr).

Definition save_config (c : PlaygroundConfig) (s : store) : store :=
  saveConfig has_room playgroundConfigSchema partial_json (partial_json (whole_config c)) s.
Definition save_parameters (e : ParameterEnabled) (s : store) : store :=
  saveParameterEnabled has_room parameterEnabledSchema partial_enabled_json
    (partial_enabled_json (whole_enabled e)) s.
Definition save_messages : list Message → store → store := saveMessages has_room messagesSchema.

Definition getInitialPlaygroundConfig (s : store) : PlaygroundConfig :=
  from_option (spread_config DEFAULT_CONFIG) DEFAULT_CONFIG (loadConfig playgroundConfigSchema s).
Definition getInitialParameterEnabled (s : store) : ParameterEnabled :=
  from_option (spread_enabled DEFAULT_PARAMETER_ENABLED) DEFAULT_PARAMETER_ENABLED
    (loadParameterEnabled parameterEnabledSchema s).

(** The page after the first render and its effects. *)
Definition mount (s : store) : page :=
  mkPage (getInitialPlaygroundConfig s) (getInitialParameterEnabled s) [] true false [] false [] []
    false true [] [] [] s.

Definition persistMessages (messagesToSave : list Message) (p : page) : page :=
  set_latest messagesToSave (if hasLoadedMessagesRef p then true else messagesSaveTimerRef p) p.

(** ** Actions: calls that queue an update *)

Definition updateConfig (f : ConfigField) (p : page) : page :=
  set_config (config p) (config_queue p ++ [ChangeConfig f]) (local p) p.
Definition updateParameterEnabled (k : PlaygroundParameterKey) (v : bool) (p : page) : page :=
  set_parameters (parameterEnabled p) (enabled_queue p ++ [ChangeEnabled k v]) (local p) p.
Definition updateMessages (u : MessageStateUpdater) (p : page) : page :=
  set_messages (messages p) (messages_queue p ++ [ChangeMessages u]) p.
Definition clearMessages (p : page) : page := updateMessages (Replace []) p.
Definition resetConfig (p : page) : page :=
  let p := set_config (config p) (config_queue p ++ [SetConfig DEFAULT_CONFIG]) (local p) p in
  let p := set_parameters (parameterEnabled p) (enabled_queue p ++ [SetEnabled DEFAULT_PARAMETER_ENABLED])
             (local p) p in
  let p := set_config (config p) (config_queue p) (save_config DEFAULT_CONFIG (local p)) p in
  set_parameters (parameterEnabled p) (enabled_queue p)
    (save_parameters DEFAULT_PARAMETER_ENABLED (local p)) p.

(** ** A render runs the queues of the state variables in the order in which
    the hook declares them *)

Definition run_config (p : page) (u : ConfigUpdate) : page :=
  match u with
  | SetConfig c => set_config c [] (local p) p
  | ChangeConfig f =>
      let updated := set_field f (config p) in
      set_config updated [] (save_config updated (local p)) p
  end.
Definition run_enabled (p : page) (u : EnabledUpdate) : page :=
  match u with
  | SetEnabled e => set_parameters e [] (local p) p
  | ChangeEnabled k v =>
      let updated := set_enabled k v (parameterEnabled p) in
      set_parameters updated [] (save_parameters updated (local p)) p
  end.
Definition run_messages (p : page) (u : MessagesUpdate) : page :=
  match u with
  | SetMessages ms => set_loaded ms p
  | ChangeMessages u =>
      let newMessages := applyMessageStateUpdate (messages p) u in
      set_messages newMessages [] (persistMessages newMessages p)
  end.
Definition render (p : page) : page :=
  let p := foldl run_config p (config_queue p) in
  let p := foldl run_enabled p (enabled_queue p) in
  foldl run_messages p (messages_queue p).

(** ** Timers and the removal of the page *)

(** The callback of the timer of the first effect. *)
Definition load_callback (now : Z) (p : page) : page :=
  let '(loaded, s) := loadMessages has_room messagesSchema t now (local p) in
  let loadedMessages := default [] loaded in
  if cancelled p
  then mkPage (config p) (parameterEnabled p) (messages p) (isLoadingMessages p) (messagesSaveTimerRef p)
         (latestMessagesRef p) (hasLoadedMessagesRef p) (models p) (groups p) true false
         (config_queue p) (enabled_queue p) (messages_queue p) s
  else mkPage (config p) (parameterEnabled p) (messages p) (isLoadingMessages p) (messagesSaveTimerRef p)
         loadedMessages true (models p) (groups p) false false
         (config_queue p) (enabled_queue p) (messages_queue p ++ [SetMessages loadedMessages]) s.

Definition save_callback (p : page) : page :=
  set_storage false (cancelled p) (save_messages (latestMessagesRef p) (local p)) p.

(** Both cleanups. *)
Definition unmount (p : page) : page :=
  if messagesSaveTimerRef p
  then set_storage false true (save_messages (latestMessagesRef p) (local p)) p
  else set_storage false true (local p) p.

(** ** use-playground-options.ts: the effects on loaded options *)

Definition models_effect (modelsData : list jstr) (p : page) : page :=
  let currentModel := model (config p) in
  let p := set_options modelsData (groups p) p in
  match getModelFallback modelsData currentModel with
  | Some ((_ :: _) as fallback) => updateConfig (FModel fallback) p
  | _ => if shouldClearModelForGroup modelsData currentModel then updateConfig (FModel []) p else p
  end.
Definition groups_effect (groupsData : list jstr) (p : page) : page :=
  let p' := set_options (models p) groupsData p in
  match getGroupFallback groupsData (group (config p)) with
  | Some ((_ :: _) as fallback) => updateConfig (FGroup fallback) p'
  | _ => p'
  end.

(** ** Events *)

Inductive event :=
| UpdateMessages (u : MessageStateUpdater) | ClearMessages | UpdateConfig (f : ConfigField)
| UpdateParameterEnabled (k : PlaygroundParameterKey) (v : bool) | ResetConfig
| ModelsLoaded (modelsData : list jstr) | GroupsLoaded (groupsData : list jstr)
| Render | LoadTimer (now : Z) | SaveTimer | Unmount.

Definition guarded (b : bool) (p : page) : option page := if b then Some p else None.

Definition has_updates (p : page) : bool :=
  negb (bool_decide (config_queue p = nil ∧ enabled_queue p = nil ∧ messages_queue p = nil)).

(** [None]: the event cannot happen. *)
Definition step (e : event) (p : page) : option page :=
  let mounted := negb (cancelled p) in
  match e with
  | UpdateMessages u => guarded mounted (updateMessages u p)
  | ClearMessages => guarded mounted (clearMessages p)
  | UpdateConfig f => guarded mounted (updateConfig f p)
  | UpdateParameterEnabled k v => guarded mounted (updateParameterEnabled k v p)
  | ResetConfig => guarded mounted (resetConfig p)
  | ModelsLoaded ms => guarded mounted (models_effect ms p)
  | GroupsLoaded gs => guarded mounted (groups_effect gs p)
  | Render => guarded (mounted && has_updates p) (render p)
  | LoadTimer now => guarded (load_timer p) (load_callback now p)
  | SaveTimer => guarded (messagesSaveTimerRef p) (save_callback p)
  | Unmount => guarded mounted (unmount p)
  end.

Fixpoint run (es : list event) (p : page) : option page :=
  match es with
  | [] => Some p
  | e :: es => p' ← step e p; run es p'
  end.

(** The events that happen without a further action of the user. *)
Definition settling (e : event) : bool :=
  match e with Render | LoadTimer _ | SaveTimer | Unmount => true | _ => false end.

End hook.
End PageState.
