(* ===== verification/PlaygroundStateFacts.v ===== *)
(** * Facts about the playground page

    The history reaches the storage under every schedule of renders, timers and
    the removal of the page; before it has been read nothing is written over
    it; the options settle after one correction; the parameter controls keep
    their bounds. *)

From S2P Require Import Prelude JsValue JsCollections NumFacts FloatError NumRounding NumberText PlaygroundMessage.
From S2P Require Import PlaygroundStorage PlaygroundStorageFacts StringFacts JsonText ModelPricing ModelPricingFacts Comparators PlaygroundState.
Import Types Payload Storage Options Parameters PageState.

Section page.
Context (has_room : store → jstr → jstr → bool) (messagesSchema : json → option (list Message))
  (playgroundConfigSchema : json → option PartialConfig)
  (parameterEnabledSchema : json → option PartialEnabled) (t : jstr → jstr).

Local Abbreviation save := (save_messages has_room messagesSchema).
Local Abbreviation step := (step has_room messagesSchema playgroundConfigSchema parameterEnabledSchema t).
Local Abbreviation run := (run has_room messagesSchema playgroundConfigSchema parameterEnabledSchema t).
Local Abbreviation render := (render has_room playgroundConfigSchema parameterEnabledSchema).
Local Abbreviation mount := (mount playgroundConfigSchema parameterEnabledSchema).

(** ** Saving *)

(** The text a history is stored as: its last hundred messages. *)
Definition history_text (ms : list Message) : jstr :=
  JSON_stringify (envelope (messages_json (drop (length ms - 100) ms))).

(** What the storage and the schema have to grant for [ms] to be saved: room,
    and that the last hundred messages are accepted as they are. *)
Definition can_be_saved (ms : list Message) : Prop :=
  (∀ s, has_room s KEY_MESSAGES (history_text ms) = true) ∧
  messagesSchema (messages_json (drop (length ms - 100) ms)) = Some (drop (length ms - 100) ms).

Lemma trimMessages_drop ms : trimMessages ms = drop (length ms - 100) ms.
Proof.
  unfold trimMessages, MAX_STORED_MESSAGES. case_bool_decide; [|done].
  by replace (length ms - 100)%nat with 0%nat by lia.
Qed.

Lemma save_stores ms s : can_be_saved ms → save ms s !! KEY_MESSAGES = Some (history_text ms).
Proof.
  intros [Hroom Hs]. unfold save_messages, saveMessages, writeStoredValue. rewrite trimMessages_drop, Hs.
  fold (history_text ms). rewrite Hroom. cbn [default from_option Datatypes.id]. apply lookup_insert_eq.
Qed.

Lemma save_with_other {A} (schema : json → option A) to_json k k' v s :
  k ≠ k' → save_with has_room schema to_json k v s !! k' = s !! k'.
Proof.
  intros Hk. unfold save_with, writeStoredValue. destruct (schema v) as [parsed|]; [|done].
  generalize (JSON_stringify (envelope (to_json parsed))). intros payload.
  destruct (has_room s k payload); [|done]. by apply lookup_insert_ne.
Qed.

(** ** What updates of the other state variables leave alone *)

Record same_history (p p' : page) : Prop := {
  same_messages : messages p' = messages p;
  same_timer : messagesSaveTimerRef p' = messagesSaveTimerRef p;
  same_latest : latestMessagesRef p' = latestMessagesRef p;
  same_loaded : hasLoadedMessagesRef p' = hasLoadedMessagesRef p;
  same_cancelled : cancelled p' = cancelled p;
  same_load : load_timer p' = load_timer p;
  same_queue : messages_queue p' = messages_queue p;
  same_stored : local p' !! KEY_MESSAGES = local p !! KEY_MESSAGES;
}.

#[local] Instance same_history_preorder : PreOrder same_history.
Proof.
  split; [by intros p|]. intros p q r [] []. split; congruence.
Qed.

Lemma run_config_same p u : same_history p (run_config has_room playgroundConfigSchema p u).
Proof. by destruct u; split; try done; apply save_with_other. Qed.
Lemma run_enabled_same p u : same_history p (run_enabled has_room parameterEnabledSchema p u).
Proof. by destruct u; split; try done; apply save_with_other. Qed.

Lemma foldl_same {U} (f : page → U → page) : (∀ p u, same_history p (f p u)) →
  ∀ us p, same_history p (foldl f p us).
Proof.
  intros Hf us. induction us as [|u us IH]; intros p; simpl; [done|].
  transitivity (f p u); [apply Hf|apply IH].
Qed.

(** The page between the first two queues and the messages. *)
Definition configured (p : page) : page :=
  let p := foldl (run_config has_room playgroundConfigSchema) p (config_queue p) in
  foldl (run_enabled has_room parameterEnabledSchema) p (enabled_queue p).

Lemma configured_same p : same_history p (configured p).
Proof.
  unfold configured. etrans; [exact (foldl_same _ run_config_same (config_queue p) p)|].
  exact (foldl_same _ run_enabled_same _ _).
Qed.

Lemma render_split p : render p = foldl run_messages (configured p) (messages_queue p).
Proof.
  unfold PageState.render. fold (configured p). by rewrite (same_queue _ _ (configured_same p)).
Qed.

(** ** The queue of the messages *)

Definition message_update (ms : list Message) (u : MessagesUpdate) : list Message :=
  match u with SetMessages x => x | ChangeMessages u => applyMessageStateUpdate ms u end.
Definition messages_after (q : list MessagesUpdate) (ms : list Message) : list Message :=
  foldl message_update ms q.

(** What a run of the messages keeps, whatever the updates are. *)
Lemma run_messages_kept q p : let p' := foldl run_messages p q in
  messages p' = messages_after q (messages p) ∧ hasLoadedMessagesRef p' = hasLoadedMessagesRef p ∧
  cancelled p' = cancelled p ∧ load_timer p' = load_timer p ∧ local p' = local p ∧
  config_queue p' = config_queue p ∧ enabled_queue p' = enabled_queue p ∧
  (hasLoadedMessagesRef p = false → messagesSaveTimerRef p' = messagesSaveTimerRef p).
Proof.
  revert p. induction q as [|u q IH]; intros p; simpl; [done|].
  destruct (IH (run_messages p u)) as (-> & -> & -> & -> & -> & -> & -> & Ht).
  destruct u as [ms|u]; simpl; split_and!; try done.
  intros Hl. simpl in Ht. rewrite Hl in Ht. exact (Ht eq_refl).
Qed.

Lemma run_messages_last q u p : let p' := foldl run_messages p (q ++ [ChangeMessages u]) in
  latestMessagesRef p' = messages p' ∧ messages_queue p' = [] ∧
  (hasLoadedMessagesRef p = true → messagesSaveTimerRef p' = true).
Proof.
  rewrite foldl_app. simpl. split_and!; try done.
  intros Hl. destruct (run_messages_kept q p) as (_ & -> & _). by rewrite Hl.
Qed.

(** Renders empty the other queues. *)
Lemma foldl_emptied {U V} (f : page → U → page) (g : page → list V) us p :
  (∀ p u, g (f p u) = []) → g p = [] → g (foldl f p us) = [].
Proof. revert p. induction us as [|u us IH]; intros p Hf Hp; simpl; auto. Qed.
Lemma foldl_kept {U V} (f : page → U → page) (g : page → V) us p :
  (∀ p u, g (f p u) = g p) → g (foldl f p us) = g p.
Proof. revert p. induction us as [|u us IH]; intros p Hf; simpl; [done|]. by rewrite IH. Qed.

Lemma configured_empty p : config_queue (configured p) = [] ∧ enabled_queue (configured p) = [].
Proof.
  unfold configured. set (p1 := foldl _ p (config_queue p)).
  assert (config_queue p1 = []) as H1.
  { subst p1. destruct (config_queue p) as [|u us] eqn:E; [done|]. simpl.
    apply foldl_emptied; by intros ? []||destruct u. }
  split.
  - rewrite foldl_kept; [done|]. by intros ? [].
  - destruct (enabled_queue p1) as [|u us] eqn:E; [done|]. simpl.
    apply foldl_emptied; by intros ? []||destruct u.
Qed.

(** ** Schedules *)

(** Every maximal sequence of settling events from here passes a page with [P]:
    none gets stuck or goes on for ever without reaching one. *)
Inductive eventually (P : page → Prop) : page → Prop :=
| eventually_now p : P p → eventually P p
| eventually_later p :
    (∃ e p', settling e = true ∧ step e p = Some p') →
    (∀ e p', settling e = true → step e p = Some p' → eventually P p') → eventually P p.

(** The page shows [ms] and the storage holds the text of their last hundred,
    or the page was removed before it rendered them. *)
Definition stored (ms : list Message) (p : page) : Prop :=
  messagesSaveTimerRef p = false ∧
  ((messages p = ms ∧ messages_queue p = [] ∧ local p !! KEY_MESSAGES = Some (history_text ms)) ∨
   (cancelled p = true ∧ messages_queue p ≠ [])).

Lemma settling_cases e p p' : settling e = true → step e p = Some p' →
  (cancelled p = false ∧ has_updates p = true ∧ p' = render p) ∨ load_timer p = true ∨
  (messagesSaveTimerRef p = true ∧ p' = save_callback has_room messagesSchema p) ∨
  (cancelled p = false ∧ p' = unmount has_room messagesSchema p).
Proof.
  destruct e; try done; intros _; unfold PageState.step, guarded;
    destruct (cancelled p), (has_updates p), (load_timer p), (messagesSaveTimerRef p) eqn:?;
    simpl; intros [= <-]; auto 6.
Qed.

(** A rendered page with a pending save. *)
Lemma rendered_stored ms p :
  cancelled p = false → load_timer p = false → has_updates p = false → messages_queue p = [] →
  messagesSaveTimerRef p = true → latestMessagesRef p = ms → messages p = ms → can_be_saved ms →
  eventually (stored ms) p.
Proof.
  intros Hc Hl Hu Hq Ht <- Hm Hsave. apply eventually_later.
  - exists SaveTimer. eexists. split; [done|]. unfold PageState.step. by rewrite Ht.
  - intros e p' He Hs. apply eventually_now.
    apply settling_cases in Hs as [(_ & ? & _)|[?|[[_ ->]|[_ ->]]]]; [congruence..| | |done].
    + split; [done|]. left. split_and!; [done..|]. by apply save_stores.
    + unfold unmount. rewrite Ht. split; [done|]. left. split_and!; [done..|]. by apply save_stores.
Qed.

Section queued.
Context (u : MessageStateUpdater) (q : list MessagesUpdate) (ms : list Message).
Local Abbreviation target := (messages_after (q ++ [ChangeMessages u]) ms).
Context (Hsave : can_be_saved target).

(** The page waits for a render of the update. *)
Definition waiting (p : page) : Prop :=
  cancelled p = false ∧ load_timer p = false ∧ hasLoadedMessagesRef p = true ∧
  messages p = ms ∧ messages_queue p = q ++ [ChangeMessages u].

Lemma waiting_renders p : waiting p → eventually (stored target) (render p).
Proof.
  intros (Hc & Hl & Hh & Hm & Hq). rewrite render_split, Hq.
  destruct (configured_same p) as [Hm' _ _ Hh' Hc' Hl' _ _], (configured_empty p) as [He1 He2].
  destruct (run_messages_kept (q ++ [ChangeMessages u]) (configured p)) as (K1 & K2 & K3 & K4 & K5 & K6 & K7 & _).
  destruct (run_messages_last q u (configured p)) as (L1 & L2 & L3).
  apply rendered_stored; rewrite ?L1, ?K1, ?K3, ?K4; try congruence || by rewrite Hm', Hm.
  - unfold has_updates. rewrite K6, K7, L2, He1, He2. by rewrite bool_decide_true.
  - apply L3. congruence.
Qed.

Lemma waiting_updates p : waiting p → has_updates p = true.
Proof.
  intros (_ & _ & _ & _ & Hq). unfold has_updates. rewrite bool_decide_false; [done|].
  rewrite Hq. intros (_ & _ & H). by destruct q.
Qed.

Lemma waiting_stored p : waiting p → eventually (stored target) p.
Proof.
  assert (∀ p, waiting p → ∃ e p', settling e = true ∧ step e p = Some p') as Hgo.
  { intros p' Hp'. exists Render, (render p'). split; [done|]. unfold PageState.step.
    rewrite (waiting_updates p' Hp'). by destruct Hp' as (-> & _). }
  assert (∀ p, waiting p → eventually (stored target) (unmount has_room messagesSchema p)) as Hgone.
  { intros p' (_ & _ & _ & _ & Hq). apply eventually_now. unfold unmount.
    destruct (messagesSaveTimerRef p'); (split; [done|]; right; split; [done|]); simpl; rewrite Hq; by destruct q. }
  assert (∀ p, waiting p → messagesSaveTimerRef p = false → eventually (stored target) p) as Hidle.
  { intros p' Hp' Ht. apply eventually_later; [by apply Hgo|]. intros e p'' He Hs.
    destruct (Hp') as (_ & Hl & _).
    apply settling_cases in Hs as [(_ & _ & ->)|[?|[[? _]|[_ ->]]]]; [|congruence|congruence| |done].
    - by apply waiting_renders.
    - by apply Hgone. }
  intros Hp. apply eventually_later; [by apply Hgo|]. intros e p' He Hs. destruct (Hp) as (_ & Hl & _).
  apply settling_cases in Hs as [(_ & _ & ->)|[?|[[_ ->]|[_ ->]]]]; [|congruence| | |done].
  - by apply waiting_renders.
  - by apply Hidle.
  - by apply Hgone.
Qed.
End queued.

(** ** Reachable pages *)

Lemma run_app es es' p : run (es ++ es') p = run es p ≫= run es'.
Proof. revert p. induction es as [|e es IH]; intros p; simpl; [done|]. destruct (step e p); simpl; auto. Qed.

(** An invariant of the page that each event keeps holds after every run. *)
Lemma run_invariant (I : page → Prop) (ok : event → Prop) :
  (∀ e p p', ok e → I p → step e p = Some p' → I p') →
  ∀ es p p', Forall ok es → I p → run es p = Some p' → I p'.
Proof.
  intros HI es. induction es as [|e es IH]; intros p p' Hok Hp; simpl; [by intros [= <-]|].
  apply Forall_cons_1 in Hok as [He Hok]. destruct (step e p) as [p1|] eqn:E; simpl; [|done].
  intros Hr. apply (IH p1 p'); [done| |done]. by apply (HI e p).
Qed.

Lemma render_kept p : let p' := render p in
  hasLoadedMessagesRef p' = hasLoadedMessagesRef p ∧ load_timer p' = load_timer p ∧
  local p' !! KEY_MESSAGES = local p !! KEY_MESSAGES ∧
  (hasLoadedMessagesRef p = false → messagesSaveTimerRef p' = messagesSaveTimerRef p).
Proof.
  cbv zeta. rewrite render_split. destruct (configured_same p) as [_ Ht _ Hh _ Hl _ Hs].
  destruct (run_messages_kept (messages_queue p) (configured p)) as (_ & -> & _ & -> & -> & _ & _ & K).
  split_and!; try done. intros Hf. rewrite K, Ht; congruence.
Qed.

(** What the calls of actions keep. *)
Lemma call_kept e p p' : settling e = false → step e p = Some p' →
  hasLoadedMessagesRef p' = hasLoadedMessagesRef p ∧ load_timer p' = load_timer p ∧
  messagesSaveTimerRef p' = messagesSaveTimerRef p ∧ local p' !! KEY_MESSAGES = local p !! KEY_MESSAGES.
Proof.
  intros He. destruct e; try done; unfold PageState.step, guarded; destruct (negb _); try done;
    intros [= <-]; try done.
  - unfold resetConfig. split_and!; try done. simpl. unfold save_parameters, saveParameterEnabled.
    rewrite save_with_other by done. by apply save_with_other.
  - unfold models_effect. by repeat case_match.
  - unfold groups_effect. by repeat case_match.
Qed.

Lemma loaded_once s es p : run es (mount s) = Some p → hasLoadedMessagesRef p = true → load_timer p = false.
Proof.
  intros Hr. refine (run_invariant (λ p, hasLoadedMessagesRef p = true → load_timer p = false) (λ _, True)
    _ es (mount s) p _ _ Hr); [|by apply Forall_true|done].
  clear. intros e p p' _ Hp Hs. destruct (settling e) eqn:He.
  - destruct e; try done; unfold PageState.step, guarded in Hs.
    + destruct (_ && _); [|done]. injection Hs as <-. by destruct (render_kept p) as (-> & -> & _).
    + destruct (load_timer p); [|done]. injection Hs as <-. unfold load_callback.
      destruct (loadMessages _ _ _ _ _). by destruct (cancelled p).
    + destruct (messagesSaveTimerRef p); [|done]. by injection Hs as <-.
    + destruct (negb _); [|done]. injection Hs as <-. unfold unmount. by destruct (messagesSaveTimerRef p).
  - by destruct (call_kept e p p' He Hs) as (-> & -> & _).
Qed.

(** [C13] Every change of the messages reaches the storage.  After an update on a
    page that has read its history, every schedule of renders, timers and the
    removal of the page comes to a point where no save is pending, the page shows
    the messages with that update and all queued ones, and [localStorage] holds
    the JSON text of the last hundred of them; the one exception is a page that is
    removed before React renders the update.  Conditions: the storage has room for
    that text, and the schema accepts those messages as they are; otherwise the
    save is given up and nothing is written. *)
Theorem history_reaches_storage s es p u :
  let ms := messages_after (messages_queue p ++ [ChangeMessages u]) (messages p) in
  run es (mount s) = Some p → hasLoadedMessagesRef p = true → cancelled p = false →
  can_be_saved ms →
  eventually (stored ms) (updateMessages u p).
Proof.
  intros ms Hr Hh Hc Hs. apply waiting_stored; [done|]. split_and!; try done. exact (loaded_once s es p Hr Hh).
Qed.

(** Until the history has been read nothing is written over it: whatever
    is done on the page, the stored messages are those it was opened with. *)
Theorem history_kept_until_loaded s es p :
  run es (mount s) = Some p → Forall (λ e, ∀ now, e ≠ LoadTimer now) es →
  local p !! KEY_MESSAGES = s !! KEY_MESSAGES.
Proof.
  intros Hr Hes.
  apply (run_invariant (λ p, hasLoadedMessagesRef p = false ∧ messagesSaveTimerRef p = false ∧
    local p !! KEY_MESSAGES = s !! KEY_MESSAGES) (λ e, ∀ now, e ≠ LoadTimer now)) in Hr as (_ & _ & ?); try done.
  clear. intros e p p' Hne (Hh & Ht & Hl) Hs. destruct (settling e) eqn:He.
  - destruct e; try done; unfold PageState.step, guarded in Hs.
    + destruct (_ && _); [|done]. injection Hs as <-. destruct (render_kept p) as (-> & _ & -> & ->); auto.
    + by destruct (Hne now).
    + by rewrite Ht in Hs.
    + destruct (negb _); [|done]. injection Hs as <-. unfold unmount. by rewrite Ht.
  - destruct (call_kept e p p' He Hs) as (-> & _ & -> & ->); auto.
Qed.

(** ** Options *)

Definition usable (models : list jstr) : Prop := Forall (λ m, m ≠ []) models.

Lemma render_config f p : config_queue p = [ChangeConfig f] →
  config (render p) = set_field f (config p).
Proof.
  intros Hq. rewrite render_split.
  assert (∀ us p, config (foldl run_messages p us) = config p) as Hm.
  { intros us q. apply (foldl_kept _ config). by intros ? []. }
  rewrite Hm. unfold configured. rewrite Hq. cbn [foldl].
  rewrite (foldl_kept _ config) by (by intros ? []). done.
Qed.
Lemma render_config_idle p : config_queue p = [] → config (render p) = config p.
Proof.
  intros Hq. rewrite render_split.
  rewrite (foldl_kept _ config) by (by intros ? []). unfold configured. rewrite Hq. cbn [foldl].
  by rewrite (foldl_kept _ config) by (by intros ? []).
Qed.
Lemma render_config_queue p : config_queue (render p) = [].
Proof.
  rewrite render_split. rewrite (foldl_kept _ config_queue) by (by intros ? []). apply configured_empty.
Qed.

(** What the effect asks for. *)
Definition chosen_model (data : list jstr) (current : jstr) : jstr :=
  if bool_decide (current ∈ data) then current else default [] (list.head data).

Lemma models_effect_queue data p : usable data → config_queue p = [] →
  config_queue (models_effect data p) =
    (if bool_decide (chosen_model data (model (config p)) = model (config p)) then []
     else [ChangeConfig (FModel (chosen_model data (model (config p))))]) ∧
  config (models_effect data p) = config p.
Proof.
  intros Hd Hq. unfold models_effect, chosen_model, getModelFallback, shouldClearModelForGroup.
  set (cur := model (config p)).
  destruct data as [|m data].
  - cbv beta iota delta [list.head default from_option id].
    rewrite (bool_decide_false (cur ∈ [])) by apply not_elem_of_nil.
    destruct (bool_decide_reflect ([] = cur)) as [<-|Hne]; [done|].
    destruct cur as [|c cur']; [done|]. unfold updateConfig. cbn. rewrite Hq. split; done.
  - destruct (bool_decide_reflect (cur ∈ m :: data)) as [Hin|Hout].
    + rewrite (bool_decide_true (cur = cur)) by done. simpl. by destruct (cur === []).
    + apply Forall_cons_1 in Hd as [Hm _]. destruct m as [|c m]; [done|]. simpl.
      rewrite bool_decide_false by (intros <-; apply Hout; left).
      unfold updateConfig. simpl. by rewrite Hq.
Qed.

(** The model settles at once: after the effect and the render it asks for, the
    model is one of the group's models (or empty, when the group has none), the
    one chosen before if the group has it, and the effect asks for nothing
    more. *)
Theorem model_choice_settles data p : usable data → config_queue p = [] →
  let p' := render (models_effect data p) in
  model (config p') = chosen_model data (model (config p)) ∧
  (data ≠ [] → model (config p') ∈ data) ∧
  (data = [] → model (config p') = []) ∧
  config_queue (models_effect data p') = [].
Proof.
  intros Hd Hq p'.
  assert (model (config p') = chosen_model data (model (config p))) as Hm.
  { destruct (models_effect_queue data p Hd Hq) as [Hq' Hc]. subst p'.
    destruct (bool_decide_reflect (chosen_model data (model (config p)) = model (config p))) as [E|_].
    - rewrite render_config_idle, Hc by done. by rewrite E.
    - rewrite (render_config _ _ Hq'), Hc. by destruct (config p). }
  assert (data ≠ [] → model (config p') ∈ data) as Hin.
  { intros Hne. rewrite Hm. unfold chosen_model. destruct (bool_decide_reflect (model (config p) ∈ data)); [done|].
    destruct data; [done|]. left. }
  assert (data = [] → model (config p') = []) as Hnil.
  { intros ->. rewrite Hm. unfold chosen_model. rewrite bool_decide_false by apply not_elem_of_nil. done. }
  split_and!; try done.
  destruct (models_effect_queue data p' Hd) as [-> _]; [by apply render_config_queue|].
  rewrite bool_decide_true; [done|]. unfold chosen_model. destruct data as [|m data]; [rewrite Hnil by done|].
  - by rewrite bool_decide_false by apply not_elem_of_nil.
  - by rewrite bool_decide_true by (by apply Hin).
Qed.

(** ** Settings *)

Lemma envelope_storable data : storable data → storable (envelope data).
Proof.
  intros Hd. apply storable_obj. split.
  - apply fromEntries_ordered, orderedb_true. vm_compute. done.
  - repeat constructor; try done; by apply unitsb_true || by apply readableb_true.
Qed.

(** What is saved under a key is what is loaded from it. *)
Lemma save_load {A} (schema : json → option A) to_json k v x s :
  (∀ s v, has_room s k v = true) → schema v = Some x → schema (to_json x) = Some x → storable (to_json x) →
  load_with schema k (save_with has_room schema to_json k v s) = Some x.
Proof.
  intros Hr Hv Hx Hs. unfold load_with, save_with, readStoredValue, writeStoredValue.
  rewrite Hv, Hr. cbv [from_option Datatypes.id]. rewrite lookup_insert_eq.
  assert (truthy (JSON_stringify (envelope (to_json x))) = true) as -> by done.
  unfold parse_saved. rewrite stringify_parse by (by apply envelope_storable). cbv [json_truthy].
  change (unwrapStoredValue (envelope (to_json x))) with (to_json x). done.
Qed.

(** Nothing after the configuration writes to its key. *)
Lemma render_saves_config f p : config_queue p = [ChangeConfig f] →
  local (render p) !! KEY_CONFIG =
    save_config has_room playgroundConfigSchema (set_field f (config p)) (local p) !! KEY_CONFIG.
Proof.
  intros Hq. rewrite render_split. destruct (run_messages_kept (messages_queue p) (configured p)) as (_ & _ & _ & _ & -> & _).
  unfold configured. rewrite Hq. cbn [foldl].
  rewrite (foldl_kept _ (λ p, local p !! KEY_CONFIG)); [done|].
  intros p' [e|k v]; [done|]. by apply save_with_other.
Qed.

Lemma load_config_agrees s s' : s !! KEY_CONFIG = s' !! KEY_CONFIG →
  loadConfig playgroundConfigSchema s = loadConfig playgroundConfigSchema s'.
Proof. intros E. unfold loadConfig, load_with, readStoredValue. by rewrite E. Qed.

Lemma spread_whole d c : spread_config d (whole_config c) = c.
Proof. by destruct c. Qed.

(** A changed setting survives: when the storage has room and the schema
    accepts the configuration, a page opened after the render of the change starts
    with exactly the configuration on the screen. *)
Theorem config_survives_reload f p : config_queue p = [] →
  let p' := render (updateConfig f p) in
  (∀ s v, has_room s KEY_CONFIG v = true) →
  playgroundConfigSchema (partial_json (whole_config (config p'))) = Some (whole_config (config p')) →
  storable (partial_json (whole_config (config p'))) →
  config p' = set_field f (config p) ∧ config (mount (local p')) = config p'.
Proof.
  intros Hq p' Hr Hs Hj. assert (config_queue (updateConfig f p) = [ChangeConfig f]) as Hq'.
  { simpl. by rewrite Hq. }
  assert (config p' = set_field f (config p)) as E by exact (render_config f (updateConfig f p) Hq').
  split; [done|]. cbn [config PageState.mount]. unfold getInitialPlaygroundConfig.
  rewrite (load_config_agrees _ (save_config has_room playgroundConfigSchema (config p') (local p))).
  - unfold loadConfig, save_config, saveConfig. rewrite (save_load _ _ _ _ (whole_config (config p'))) by done.
    apply spread_whole.
  - rewrite E. exact (render_saves_config f (updateConfig f p) Hq').
Qed.

End page.

(** ** Parameter controls *)

Lemma num_ge_place a b : not_nan a = true → not_nan b = true → num_ltb a b = false ↔ ¬ before (place a) (place b).
Proof. intros Ha Hb. by rewrite <-not_true_iff_false, num_ltb_place. Qed.

Ltac by_places :=
  repeat match goal with
         | H : num_ltb _ _ = true |- _ => apply num_ltb_place in H; [|done|done]
         | H : num_ltb _ _ = false |- _ => apply num_ge_place in H; [|done|done]
         | |- num_ltb _ _ = false => apply num_ge_place; [done|done|]
         end; unfold before in *; lia.

Lemma clamp_range lo hi x : is_double lo = true → is_double hi = true → is_double x = true →
  not_nan lo = true → not_nan hi = true → not_nan x = true → num_ltb hi lo = false →
  let y := num_min hi (ModelPricing.num_max lo x) in
  is_double y = true ∧ not_nan y = true ∧ num_ltb y lo = false ∧ num_ltb hi y = false.
Proof.
  intros Dl Dh Dx Nl Nh Nx Hlh. unfold num_min, ModelPricing.num_max.
  destruct (num_ltb lo x) eqn:E1; [destruct (num_ltb x hi) eqn:E2|destruct (num_ltb lo hi) eqn:E2];
    split_and!; try done; by_places.
Qed.

(** Below the canonical [M * 2^E]. *)
Lemma below_value m e M E : canonical m e → 2 ^ 52 ≤ M → E ≤ 0 → (e < E ∨ e = E ∧ Zpos m ≤ M) →
  Zpos m * 2 ^ (- E) ≤ M * 2 ^ (- e).
Proof.
  intros (_ & Hm & _) HM HE H. assert (0 < 2 ^ (- E)) by (apply pow_pos; lia).
  destruct H as [H|[-> H]]; [|nia].
  replace (- e) with (- E + (E - e - 1 + 1)) by lia. rewrite !Z.pow_add_r by lia.
  assert (0 < 2 ^ (E - e - 1)) by (apply pow_pos; lia). change (2 ^ 1) with 2.
  assert (Zpos m ≤ M * 2) by lia. assert (M * 2 ≤ M * 2 * 2 ^ (E - e - 1)) by nia. nia.
Qed.

Lemma fixed_tenths m e k : e < 0 → 0 ≤ k → Zpos m ≤ k * 2 ^ (- e) → 0 ≤ fixed_value 1 m e ≤ 10 * k.
Proof.
  intros He Hk Hm. unfold fixed_value. destruct (Z.leb_spec 0 e); [lia|].
  assert (0 < 2 ^ (- e)) by (apply pow_pos; lia). change (10 ^ 1) with 10. split.
  - apply Z.div_pos; lia.
  - apply Z.lt_succ_r, Z.div_lt_upper_bound; nia.
Qed.

(** A number between two constants, by its parts. *)
Lemma range_parts x L E M E' : not_nan x = true →
  num_ltb x (S754_finite true L E) = false → num_ltb (S754_finite false M E') x = false →
  match x with
  | S754_zero _ => True
  | S754_finite true m e => e < E ∨ e = E ∧ Zpos m ≤ Zpos L
  | S754_finite false m e => e < E' ∨ e = E' ∧ Zpos m ≤ Zpos M
  | _ => False
  end.
Proof.
  intros Hx Hl Hh. apply num_ge_place in Hl; [|done|done]. apply num_ge_place in Hh; [|done|done].
  unfold before in *. destruct x as [s|[]| |[] m e]; cbn [place fst snd] in *; try done; lia.
Qed.
Lemma positive_parts x lo M E : not_nan x = true → not_nan lo = true → lo = S754_zero false ∨ 1 ≤ (place lo).1.1 →
  num_ltb x lo = false → num_ltb (S754_finite false M E) x = false →
  match x with
  | S754_zero _ => lo = S754_zero false
  | S754_finite s m e => s = false ∧ (e < E ∨ e = E ∧ Zpos m ≤ Zpos M) ∧ ¬ before (1, e, Zpos m) (place lo)
  | _ => False
  end.
Proof.
  intros Hx Hlo Hp Hl Hh. apply num_ge_place in Hl; [|done|done]. apply num_ge_place in Hh; [|done|done].
  unfold before in *. destruct x as [s|[]| |[] m e]; cbn [place fst snd] in *; try done;
    destruct Hp as [->|Hp]; cbn [place fst snd] in *; try done; try lia; split_and!; try done; lia.
Qed.

(** The text of a number of tenths, as the slider keeps it. *)
Definition tenths (neg : bool) (n : Z) : jsnum := Number ((if neg then js "-" else []) ++ fixed_text 1 n).
Definition on_tenths (lo hi r : jsnum) : bool :=
  num_leb lo r && num_leb r hi &&
  existsb (λ n, bool_decide (r = num_of_dec false (Z.to_N n) (-1)) || bool_decide (r = num_of_dec true (Z.to_N n) (-1)))
    (seqZ 0 21).

Lemma tenths_penalty neg n : 0 ≤ n ≤ 20 → on_tenths (num_of_Z (-2)) (num_of_Z 2) (tenths neg n) = true.
Proof.
  assert (forallb (λ n, on_tenths (num_of_Z (-2)) (num_of_Z 2) (tenths true n)
    && on_tenths (num_of_Z (-2)) (num_of_Z 2) (tenths false n)) (seqZ 0 21) = true) as H by (vm_compute; done).
  intros Hn. rewrite forallb_Forall, list.Forall_forall in H. specialize (H n).
  rewrite elem_of_seqZ in H. destruct (andb_prop _ _ (H ltac:(lia))). by destruct neg.
Qed.
Lemma tenths_probability n : 1 ≤ n ≤ 10 → on_tenths tenth (num_of_Z 1) (tenths false n) = true.
Proof.
  assert (forallb (λ n, on_tenths tenth (num_of_Z 1) (tenths false n)) (seqZ 1 10) = true) as H by (vm_compute; done).
  intros Hn. rewrite forallb_Forall, list.Forall_forall in H. apply H. rewrite elem_of_seqZ. lia.
Qed.

Lemma toFixed_small s m e : e < 0 →
  Number (toFixed 1 (S754_finite s m e)) = tenths s (fixed_value 1 m e).
Proof.
  intros He. unfold toFixed. replace (num_ltb _ _) with true; [done|].
  symmetry. apply num_ltb_place; [done|done|].
  replace (place (num_of_dec false 1 21)) with (1, 17, 7629394531250000) by (vm_compute; done).
  unfold before. cbn [place fst snd]. lia.
Qed.

Lemma slider_penalty x : is_double x = true → not_nan x = true →
  num_ltb x (num_of_Z (-2)) = false → num_ltb (num_of_Z 2) x = false →
  on_tenths (num_of_Z (-2)) (num_of_Z 2) (Number (toFixed 1 x)) = true.
Proof.
  replace (num_of_Z (-2)) with (S754_finite true 4503599627370496 (-51)) by (vm_compute; done).
  replace (num_of_Z 2) with (S754_finite false 4503599627370496 (-51)) by (vm_compute; done).
  intros Hd Hn Hl Hh. pose proof (range_parts x _ _ _ _ Hn Hl Hh) as Hp.
  destruct x as [s|s| |s m e]; [by destruct s; vm_compute|done|done|].
  clear Hl Hh. assert (e < -51 ∨ e = -51 ∧ Zpos m ≤ 2 ^ 52) as Hb by (by destruct s). clear Hp.
  assert (0 ≤ fixed_value 1 m e ≤ 10 * 2) as Hf.
  { apply bounded_canonical in Hd. apply fixed_tenths; [lia|lia|].
    pose proof (below_value m e (2 ^ 52) (-51) Hd ltac:(lia) ltac:(lia) Hb). lia. }
  rewrite toFixed_small by (apply bounded_canonical in Hd; lia). by apply tenths_penalty.
Qed.

Lemma slider_probability x : is_double x = true → not_nan x = true →
  num_ltb x tenth = false → num_ltb (num_of_Z 1) x = false →
  on_tenths tenth (num_of_Z 1) (Number (toFixed 1 x)) = true.
Proof.
  assert (place tenth = (1, -56, 7205759403792794)) as Et by (vm_compute; done).
  intros Hd Hn Hl Hh. replace (num_of_Z 1) with (S754_finite false 4503599627370496 (-52)) in Hh by (vm_compute; done).
  pose proof (positive_parts x tenth _ _ Hn eq_refl ltac:(right; rewrite Et; simpl; lia) Hl Hh) as Hp.
  destruct x as [s|s| |s m e]; [done|done|done|]. destruct Hp as (-> & Hb & Ha). clear Hl Hh.
  rewrite Et in Ha. unfold before in Ha. cbn [fst snd] in Ha. apply bounded_canonical in Hd.
  assert (Zpos m ≤ 1 * 2 ^ (- e)) as Hm.
  { pose proof (below_value m e (2 ^ 52) (-52) Hd ltac:(lia) ltac:(lia) Hb). lia. }
  pose proof (fixed_tenths m e 1 ltac:(lia) ltac:(lia) Hm) as [_ Hf].
  rewrite toFixed_small by lia. apply tenths_probability. split; [|lia].
  unfold fixed_value. destruct (Z.leb_spec 0 e); [lia|]. change (10 ^ 1) with 10.
  assert (0 < 2 ^ (- e)) by (apply pow_pos; lia). apply Z.div_le_lower_bound; [lia|].
  destruct Hd as (_ & _ & Hd). destruct (decide (e = -56)) as [->|Hne]; [lia|].
  assert (2 ^ (- e) ≤ 2 ^ 55) by (apply Z.pow_le_mono_r; lia). lia.
Qed.

Lemma num_of_Z_zero : num_of_Z 0 = S754_zero false.
Proof. done. Qed.

(** A whole number between 0 and [hi]. *)
Definition whole (hi : Z) (r : jsnum) : Prop := ∃ z, 0 ≤ z ≤ hi ∧ (r = num_of_Z z ∨ z = 0 ∧ r = S754_zero true).

Lemma trunc_whole x hi M E : num_of_Z hi = S754_finite false M E → 0 ≤ hi → hi * 2 ^ (- E) = Zpos M → 2 ^ 52 ≤ Zpos M → E < 0 →
  is_double x = true → not_nan x = true → num_ltb x (num_of_Z 0) = false → num_ltb (num_of_Z hi) x = false →
  whole hi (num_trunc x).
Proof.
  intros Eh Hhi HM HM52 HE Hd Hn Hl Hh. rewrite Eh in Hh. clear Eh.
  pose proof (positive_parts x (num_of_Z 0) M E Hn eq_refl (or_introl eq_refl) Hl Hh) as Hp.
  destruct x as [s|s| |s m e]; [|done|done|].
  - exists 0. split; [lia|]. destruct s; [by right|by left].
  - destruct Hp as (-> & Hb & _). apply bounded_canonical in Hd. clear Hl Hh.
    pose proof (below_value m e (Zpos M) E Hd HM52 ltac:(lia) Hb) as Hv.
    assert (0 < 2 ^ (- E)) by (apply pow_pos; lia). assert (0 < 2 ^ (- e)) by (apply pow_pos; lia).
    assert (0 ≤ Zpos m / 2 ^ (- e) ≤ hi) as Hz.
    { split; [apply Z.div_pos; lia|]. apply Z.lt_succ_r, Z.div_lt_upper_bound; nia. }
    exists (Zpos m / 2 ^ (- e)). split; [done|]. left. unfold num_trunc.
    destruct (Z.leb_spec 0 e); [lia|]. by destruct (Z.eqb_spec (Zpos m / 2 ^ (- e)) 0) as [->|].
Qed.

Lemma whole_range hi r : 0 ≤ hi ≤ 2 ^ 53 → whole hi r → num_leb (num_of_Z 0) r = true ∧ num_leb r (num_of_Z hi) = true.
Proof.
  intros Hhi (z & Hz & [->|[-> ->]]).
  - unfold num_leb, SFleb. rewrite !num_compare_exact by lia.
    by destruct (Z.compare_spec 0 z), (Z.compare_spec z hi); try lia.
  - split; [done|]. change (S754_zero true) with (SFopp (num_of_Z 0)).
    transitivity (num_leb (num_of_Z 0) (num_of_Z hi)).
    + by destruct (num_of_Z hi).
    + unfold num_leb, SFleb. rewrite num_compare_exact by lia. by destruct (Z.compare_spec 0 hi); try lia.
Qed.

(** On the screen's grid: tenths for a slider, whole numbers for a number field. *)
Definition on_grid (control : PlaygroundParameterControl) (r : jsnum) : Prop :=
  num_leb (k_min control) r = true ∧ num_leb r (k_max control) = true ∧
  match k_valueType control with
  | slider => ∃ neg n, (n ≤ 20)%N ∧ r = num_of_dec neg n (-1)
  | number => ∃ z, 0 ≤ z ≤ 2147483647 ∧ (r = num_of_Z z ∨ z = 0 ∧ r = S754_zero true)
  end.

Lemma on_tenths_grid lo hi r : on_tenths lo hi r = true →
  num_leb lo r = true ∧ num_leb r hi = true ∧ ∃ neg n, (n ≤ 20)%N ∧ r = num_of_dec neg n (-1).
Proof.
  intros [[Hl Hh]%andb_true_iff Hx]%andb_true_iff. split_and!; [done..|].
  apply existsb_exists in Hx as (n & Hn & Hx). apply list_elem_of_In, elem_of_seqZ in Hn.
  apply orb_true_iff in Hx as [Hx%bool_decide_eq_true|Hx%bool_decide_eq_true].
  - exists false, (Z.to_N n). split; [lia|done].
  - exists true, (Z.to_N n). split; [lia|done].
Qed.

(** What does not denote a number. *)
Definition unreadable (value : ControlInput) : bool :=
  match value with Text [] => true | Text s => isNaN (ModelPricing.parseFloat s) | Num n => isNaN n end.

Definition input_number (value : ControlInput) : jsnum :=
  match value with Num n => n | Text s => ModelPricing.parseFloat s end.

(** The number the control is clamped to. *)
Definition clamped (c : PlaygroundParameterControl) (x : jsnum) : jsnum :=
  num_min (k_max c) (ModelPricing.num_max (k_min c) x).

Lemma normalize_readable key value c : control_of key = Some c → unreadable value = false →
  normalizeParameterNumberValue key value =
    Some (if num_leb (num_of_Z 1) (k_step c) then num_trunc (clamped c (input_number value))
          else Number (toFixed (decimals_of (k_step c)) (clamped c (input_number value)))).
Proof.
  intros Hc Hu. unfold normalizeParameterNumberValue, clamped, input_number. rewrite Hc.
  destruct value as [[|ch s]|n]; [done|..]; unfold unreadable in Hu; rewrite Hu; by destruct (num_leb _ _).
Qed.

Lemma normalize_unreadable key value : unreadable value = true →
  normalizeParameterNumberValue key value = if bool_decide (key = Seed) then None else Some (num_of_Z 0).
Proof.
  intros Hu. unfold normalizeParameterNumberValue. destruct (control_of key); [|by destruct (match value with Text [] => _ | _ => _ end)].
  destruct value as [[|ch s]|n]; [done|..]; unfold unreadable in Hu; by rewrite Hu.
Qed.

Lemma control_clamps key c x : control_of key = Some c → is_double x = true → isNaN x = false →
  is_double (clamped c x) = true ∧ not_nan (clamped c x) = true ∧
  num_ltb (clamped c x) (k_min c) = false ∧ num_ltb (k_max c) (clamped c x) = false.
Proof.
  intros Hc Hd Hx. assert (not_nan x = true) as Hn by (by destruct x).
  unfold control_of in Hc. apply find_some in Hc as [Hin _]. unfold PLAYGROUND_PARAMETER_CONTROLS in Hin.
  repeat destruct Hin as [<-|Hin]; try done; (apply clamp_range; [vm_compute; done|vm_compute; done|done|
    vm_compute; done|vm_compute; done|done|vm_compute; done]).
Qed.

(** Each control's value after clamping is on its grid. *)
Lemma control_grid key c x : control_of key = Some c → is_double x = true → isNaN x = false →
  on_grid c (if num_leb (num_of_Z 1) (k_step c) then num_trunc (clamped c x)
             else Number (toFixed (decimals_of (k_step c)) (clamped c x))).
Proof.
  intros Hc Hd Hx. pose proof (control_clamps key c x Hc Hd Hx) as (Cd & Cn & Cl & Ch).
  generalize dependent (clamped c x). intros y Cd Cn Cl Ch.
  assert (decimals_of tenth = 1) as E1 by (vm_compute; done).
  assert (num_leb (num_of_Z 1) tenth = false) as E2 by (vm_compute; done).
  unfold control_of in Hc. apply find_some in Hc as [Hin _]. unfold PLAYGROUND_PARAMETER_CONTROLS in Hin.
  destruct Hin as [<-|[<-|[<-|[<-|[<-|[<-|[]]]]]]]; unfold on_grid; cbn [k_step k_min k_max k_valueType] in *.
  1,2: rewrite E1, E2; apply on_tenths_grid, slider_probability; assumption.
  1,2: rewrite E1, E2; apply on_tenths_grid, slider_penalty; assumption.
  - assert (whole 200000 (num_trunc y)) as Hw.
    { apply (trunc_whole y 200000 6871947673600000 (-35)); [vm_compute; done..|exact Cd|exact Cn|exact Cl|exact Ch]. }
    replace (num_leb (num_of_Z 1) (num_of_Z 1)) with true by (vm_compute; done).
    destruct (whole_range 200000 _ ltac:(lia) Hw). split_and!; [assumption..|]. destruct Hw as (z & ? & ?). exists z. split; [lia|assumption].
  - assert (whole 2147483647 (num_trunc y)) as Hw.
    { apply (trunc_whole y 2147483647 9007199250546688 (-22)); [vm_compute; done..|exact Cd|exact Cn|exact Cl|exact Ch]. }
    replace (num_leb (num_of_Z 1) (num_of_Z 1)) with true by (vm_compute; done).
    destruct (whole_range 2147483647 _ ltac:(lia) Hw). split_and!; assumption.
Qed.

(** [C40] A parameter control never leaves its range: whatever text is typed or
    number is chosen, what reads as a number becomes a value between the minimum and
    the maximum of the control, a tenth for a slider and a whole number for a
    number field; anything else clears the seed and sets the other parameters
    to 0. *)
Theorem parameter_stays_in_range key value : (∀ n, value = Num n → is_double n = true) →
  ∃ control, control_of key = Some control ∧
  if unreadable value
  then normalizeParameterNumberValue key value = if bool_decide (key = Seed) then None else Some (num_of_Z 0)
  else ∃ r, normalizeParameterNumberValue key value = Some r ∧ on_grid control r.
Proof.
  intros Hv. assert (∃ c, control_of key = Some c) as [c Hc] by (destruct key; eexists; vm_compute; done).
  exists c. split; [done|]. destruct (unreadable value) eqn:Hu; [by apply normalize_unreadable|].
  rewrite (normalize_readable key value c Hc Hu). eexists. split; [done|]. apply (control_grid key); [done|..].
  - destruct value as [s|n]; [apply parseFloat_double|by apply Hv].
  - by destruct value as [[|ch s]|n].
Qed.

(** ** Instances *)

(** A reader of configurations: each field may be missing, none has another type. *)
Definition read_field {A} (k : string) (decode : json → option A) (fs : list (jstr * json)) : option (option A) :=
  match field_get (js k) fs with Some v => Some <$> decode v | None => Some None end.
Definition read_string (v : json) : option jstr := match v with JStr s => Some s | _ => None end.
Definition read_number (v : json) : option jsnum := match v with JNum n => Some n | _ => None end.
Definition read_flag (v : json) : option bool := match v with JBool b => Some b | _ => None end.
Definition read_nullable (v : json) : option (option jsnum) :=
  match v with JNull => Some None | _ => Some <$> read_number v end.
Definition demo_config_schema (v : json) : option PartialConfig :=
  match v with
  | JObj fs =>
      a ← read_field "model" read_string fs; b ← read_field "group" read_string fs;
      c ← read_field "temperature" read_number fs; d ← read_field "top_p" read_number fs;
      e ← read_field "max_tokens" read_number fs; f ← read_field "frequency_penalty" read_number fs;
      g ← read_field "presence_penalty" read_number fs; h ← read_field "seed" read_nullable fs;
      i ← read_field "stream" read_flag fs; Some (mkPartial a b c d e f g h i)
  | _ => None
  end.
Definition demo_enabled_schema (v : json) : option PartialEnabled := None.

Abbreviation demo_run := (run (λ _ _ _, true) demo_schema demo_config_schema demo_enabled_schema (λ s, s)).
Abbreviation demo_mount := (mount demo_config_schema demo_enabled_schema).
Definition demo_page : page := default (demo_mount ∅) (demo_run [LoadTimer 5; Render] (demo_mount demo_store)).

Lemma history_reaches_storage_witness :
  messages demo_page = [demo_message] ∧
  eventually (λ _ _ _, true) demo_schema demo_config_schema demo_enabled_schema (λ s, s)
    (stored [demo_message; demo_message])
    (updateMessages (Apply (λ ms, ms ++ [demo_message])) demo_page).
Proof.
  split; [vm_compute; done|].
  apply (history_reaches_storage (λ _ _ _, true) demo_schema demo_config_schema demo_enabled_schema (λ s, s)
    demo_store [LoadTimer 5; Render] demo_page (Apply (λ ms, ms ++ [demo_message]))); try (vm_compute; done).
Defined.

Lemma history_kept_until_loaded_witness :
  from_option (λ p, local p !! KEY_MESSAGES) None
    (demo_run [UpdateMessages (Replace []); Render; Unmount] (demo_mount demo_store)) = demo_store !! KEY_MESSAGES.
Proof.
  destruct (demo_run [UpdateMessages (Replace []); Render; Unmount] (demo_mount demo_store)) as [p|] eqn:E.
  - apply (history_kept_until_loaded (λ _ _ _, true) demo_schema demo_config_schema demo_enabled_schema (λ s, s)
      demo_store [UpdateMessages (Replace []); Render; Unmount] p E). by repeat constructor.
  - vm_compute in E. discriminate E.
Defined.

Lemma config_survives_reload_witness :
  let p' := render (λ _ _ _, true) demo_config_schema demo_enabled_schema
              (updateConfig (FModel (js "m")) (demo_mount ∅)) in
  model (config p') = js "m" ∧ config (demo_mount (local p')) = config p'.
Proof.
  split; [vm_compute; done|].
  apply (config_survives_reload (λ _ _ _, true) demo_config_schema demo_enabled_schema (FModel (js "m")) (demo_mount ∅)).
  - done.
  - done.
  - vm_compute. done.
  - apply storableb_true. vm_compute. done.
Defined.

Lemma parameter_stays_in_range_witness :
  unreadable (Text (js "12.9")) = false ∧
  ∃ control r, control_of MaxTokens = Some control ∧
    normalizeParameterNumberValue MaxTokens (Text (js "12.9")) = Some r ∧ on_grid control r.
Proof.
  split; [vm_compute; done|].
  destruct (parameter_stays_in_range MaxTokens (Text (js "12.9")) ltac:(done)) as (c & Hc & H).
  replace (unreadable (Text (js "12.9"))) with false in H by (vm_compute; done).
  destruct H as (r & Hr & Hg). by exists c, r.
Defined.

Lemma model_choice_settles_witness :
  let p' := render (λ _ _ _, true) demo_config_schema demo_enabled_schema
              (models_effect [js "a"; js "b"] (demo_mount ∅)) in
  model (config p') = js "a" ∧ config_queue (models_effect [js "a"; js "b"] p') = [].
Proof.
  split; [vm_compute; done|].
  apply (model_choice_settles (λ _ _ _, true) demo_config_schema demo_enabled_schema
    [js "a"; js "b"] (demo_mount ∅)); [by repeat constructor|done].
Defined.

(** A change made before the history is read is not kept: reading replaces it. *)
Example early_update_is_replaced :
  messages <$> demo_run [UpdateMessages (Apply (λ ms, ms ++ [demo_message; demo_message])); Render; LoadTimer 5; Render]
    (demo_mount demo_store) = Some [demo_message].
Proof. vm_compute. done. Qed.
