(* ===== verification/ChannelForm.v ===== *)
(** * The channel form

    Models [features/channels/lib/channel-form.ts]: the values of the form, what
    it reads from a channel, what it refuses, and the objects it sends to create
    or update a channel; and the printing of [lib/advanced-custom.ts].

    [channel.setting] and [channel.settings] are JSON texts; a field of them with a
    value of another type than the form declares is outside the model: the reader
    returns [None].  [toLowerCase] and the [URL] constructor are parameters.  An
    absent optional text, flag or number of the form is its empty value, which the
    code treats alike; [auto_ban] and [http2_connection_shards], where it does
    not, are optional. *)

From S2P Require Import Prelude JsValue NumberText JsonText AdvancedCustom ModelPricing.
Import AdvancedCustom.

(** ** Printing of an advanced custom configuration *)
Module AdvancedText.

Definition opt_field (k : string) (v : option json) : list (jstr * json) :=
  match v with Some x => [(js k, x)] | None => [] end.

Definition auth_json (a : AdvancedCustomRouteAuth) : json :=
  JObj (opt_field "type" (JStr <$> auth_type a) ++ opt_field "name" (JStr <$> auth_name a)
        ++ opt_field "value" (JStr <$> auth_value a)).
Definition route_json (r : AdvancedCustomRoute) : json :=
  JObj (opt_field "incoming_path" (JStr <$> incoming_path r)
        ++ opt_field "upstream_path" (JStr <$> upstream_path r)
        ++ opt_field "converter" (JStr <$> converter r)
        ++ opt_field "models" ((λ ms, JArr (map JStr ms)) <$> models r)
        ++ opt_field "auth" (auth_json <$> auth r)).
Definition config_json (c : AdvancedCustomConfig) : json :=
  JObj (opt_field "advanced_routes" ((λ rs, JArr (map route_json rs)) <$> advanced_routes c)).

Definition stringifyAdvancedCustomConfig (config : AdvancedCustomConfig) : jstr :=
  JSON_stringify_2 (config_json (normalizeAdvancedCustomConfig config)).

End AdvancedText.

(** ** types.ts and constants.ts *)
Module ChannelTypes.

Record ChannelInfo := mkInfo {
  is_multi_key : bool; multi_key_size : Z; multi_key_status_list : option (list (jstr * Z));
  multi_key_mode : jstr;
}.

Record Channel := mkChannel {
  id : Z; type : Z; key : jstr; openai_organization : option jstr; test_model : option jstr;
  status : Z; name : jstr; weight : option jsnum; created_time : jsnum; test_time : jsnum;
  response_time : jsnum; base_url : option jstr; other : jstr; balance : jsnum;
  balance_updated_time : jsnum; models : jstr; group : jstr; used_quota : jsnum;
  model_mapping : option jstr; status_code_mapping : option jstr; priority : option jsnum;
  auto_ban : option jsnum; other_info : jstr; tag : option jstr; setting : option jstr;
  param_override : option jstr; header_override : option jstr; remark : jstr;
  max_input_tokens : jsnum; channel_info : ChannelInfo; settings : jstr;
}.

Definition CHANNEL_TYPE_ADVANCED_CUSTOM : Z := 58.
Definition CHANNEL_TYPE_NEW_API : Z := 60.
Definition CHANNEL_TYPE_TASK_PLUGIN : Z := 61.
Definition STATUS_ENABLED : Z := 1.
Definition MODEL_FETCHABLE_TYPES : list Z :=
  [1; 4; 14; 17; 20; 23; 24; 25; 26; 27; 31; 34; 35; 40; 42; 43; 47; 48; 57; 58; 59; 60].
Definition FIELD_PASSTHROUGH_TYPES : list Z := [1; 14; 57; 58; 59; CHANNEL_TYPE_NEW_API].
Definition OPENAI_FIELD_PASSTHROUGH_TYPES : list Z := [1; 57; 58; 59; CHANNEL_TYPE_NEW_API].
Definition CLAUDE_FIELD_PASSTHROUGH_TYPES : list Z := [14; 58; 59; CHANNEL_TYPE_NEW_API].

Definition has_type (ty : Z) (types : list Z) : bool := existsb (Z.eqb ty) types.

End ChannelTypes.

Module ChannelForm.
Import AdvancedText.

Record ChannelFormValues := mkForm {
  f_name : jstr; f_type : Z; f_base_url : jstr; f_task_plugin_key : jstr; f_key : jstr;
  f_openai_organization : jstr; f_models : jstr; f_group : list jstr; f_model_mapping : jstr;
  f_priority : jsnum; f_weight : jsnum; f_test_model : jstr; f_auto_ban : option jsnum; f_status : Z;
  f_status_code_mapping : jstr; f_tag : jstr; f_remark : jstr; f_setting : jstr;
  f_param_override : jstr; f_header_override : jstr; f_settings : jstr; f_other : jstr;
  f_multi_key_mode : jstr; f_multi_key_type : jstr; f_batch_add_set_key_prefix_2_name : bool;
  f_key_mode : jstr;
  f_force_format : bool; f_thinking_to_content : bool; f_proxy : jstr; f_http_protocol : jstr;
  f_http2_connection_shards : option jsnum; f_pass_through_body_enabled : bool;
  f_system_prompt : jstr; f_system_prompt_override : bool;
  f_is_enterprise_account : bool; f_vertex_key_type : jstr; f_aws_key_type : jstr;
  f_azure_responses_version : jstr; f_allow_service_tier : bool; f_disable_store : bool;
  f_allow_safety_identifier : bool; f_allow_include_obfuscation : bool; f_allow_inference_geo : bool;
  f_allow_speed : bool; f_claude_beta_query : bool; f_disable_task_polling_sleep : bool;
  f_upstream_model_update_check_enabled : bool; f_upstream_model_update_auto_sync_enabled : bool;
  f_upstream_model_update_ignored_models : jstr; f_advanced_custom : jstr;
}.

Definition HTTP_PROTOCOL_AUTO : jstr := js "auto".
Definition HTTP_PROTOCOL_HTTP1 : jstr := js "http1".
Definition MAX_HTTP2_CONNECTION_SHARDS : Z := 8.

Definition CHANNEL_FORM_DEFAULT_VALUES : ChannelFormValues := {|
  f_name := []; f_type := 1; f_base_url := []; f_task_plugin_key := []; f_key := [];
  f_openai_organization := []; f_models := []; f_group := [js "default"]; f_model_mapping := [];
  f_priority := num_of_Z 0; f_weight := num_of_Z 0; f_test_model := []; f_auto_ban := Some (num_of_Z 1);
  f_status := ChannelTypes.STATUS_ENABLED; f_status_code_mapping := []; f_tag := []; f_remark := [];
  f_setting := []; f_param_override := []; f_header_override := []; f_settings := js "{}";
  f_other := []; f_multi_key_mode := js "single"; f_multi_key_type := js "random";
  f_batch_add_set_key_prefix_2_name := false; f_key_mode := js "append";
  f_force_format := false; f_thinking_to_content := false; f_proxy := [];
  f_http_protocol := HTTP_PROTOCOL_AUTO; f_http2_connection_shards := Some (num_of_Z 1);
  f_pass_through_body_enabled := false; f_system_prompt := []; f_system_prompt_override := false;
  f_is_enterprise_account := false; f_vertex_key_type := js "json"; f_aws_key_type := js "ak_sk";
  f_azure_responses_version := []; f_allow_service_tier := false; f_disable_store := false;
  f_allow_safety_identifier := false; f_allow_include_obfuscation := false;
  f_allow_inference_geo := false; f_allow_speed := false; f_claude_beta_query := false;
  f_disable_task_polling_sleep := false; f_upstream_model_update_check_enabled := false;
  f_upstream_model_update_auto_sync_enabled := false; f_upstream_model_update_ignored_models := [];
  f_advanced_custom := [];
|}.

(** ** Helpers *)

(** [models.split(',').map(trim).filter(m => m.length > 0)] *)
Definition parseGroups (groups : jstr) : list jstr :=
  if negb (truthy groups) then [] else filter_truthy (map trim (split1 44%N groups)).
Definition parseModels (models : jstr) : list jstr :=
  if negb (truthy models) then [] else filter_truthy (map trim (split1 44%N models)).
Definition formatGroups (groups : list jstr) : jstr := join (js ",") groups.
Definition formatModels (models : list jstr) : jstr := join (js ",") models.

Definition validateJSON (value : jstr) : bool :=
  if negb (truthy value) || (trim value === []) then true else bool_decide (is_Some (JSON_parse value)).
Definition validateModelMapping (value : jstr) : bool :=
  if negb (truthy value) || (trim value === []) then true else validateJSON value.

(** [str.replace] of the trailing slashes by nothing. *)
Fixpoint drop_slashes (s : jstr) : jstr :=
  match s with 47%N :: r => drop_slashes r | _ => s end.
Definition normalizeBaseUrl (value : jstr) : jstr := reverse (drop_slashes (reverse (trim value))).

Definition normalizeHttp2ConnectionShards (value : option jsnum) : jsnum :=
  match value with
  | None => num_of_Z 1
  | Some v =>
      if match v with S754_nan => true | _ => false end || num_eqb v (num_of_Z 0) then num_of_Z 1
      else if num_ltb v (num_of_Z 1) then num_of_Z 1
      else if num_ltb (num_of_Z MAX_HTTP2_CONNECTION_SHARDS) v then num_of_Z MAX_HTTP2_CONNECTION_SHARDS
      else v
  end.

(** [None]: [JSON.parse] throws; [Some None]: nothing to parse. *)
Definition parseOptionalJson (value : jstr) : option (option json) :=
  if negb (truthy (trim value)) then Some None else Some <$> JSON_parse value.

Definition isJsonObjectValue (v : json) : bool := match v with JObj _ => true | _ => false end.

(** The common shape of the checks: an exception refuses, no value is accepted. *)
Definition optional_json (P : json → bool) (value : jstr) : bool :=
  match parseOptionalJson value with
  | None => false
  | Some None => true
  | Some (Some parsed) => P parsed
  end.

Definition isOptionalJsonObject : jstr → bool := optional_json isJsonObjectValue.
Definition isOptionalModelMapping : jstr → bool :=
  optional_json (λ v, match v with
                      | JObj fs => forallb (λ '(_, x), match x with JStr _ => true | _ => false end) fs
                      | _ => false
                      end).

Definition is_http_code (n : jsnum) : bool :=
  isInteger n && num_leb (num_of_Z 100) n && num_leb n (num_of_Z 599).
Definition isOptionalStatusCodeMapping : jstr → bool :=
  optional_json (λ v, match v with
                      | JObj fs => forallb (λ '(from, to), is_http_code (Number from)
                                              && is_http_code (JsCollections.Number_json to)) fs
                      | _ => false
                      end).

Definition nonblank_field (k : string) (v : json) : bool :=
  match jget (js k) v with Some (JStr s) => truthy (trim s) | _ => false end.
Definition isCodexCredential : jstr → bool :=
  optional_json (λ v, isJsonObjectValue v && nonblank_field "access_token" v && nonblank_field "account_id" v).
Definition isVertexJsonKey : jstr → bool :=
  optional_json (λ v, match v with JArr l => forallb isJsonObjectValue l | _ => isJsonObjectValue v end).

Section form.
Context (toLowerCase : jstr → jstr).
(** [new URL(value)] for a proxy: protocol, host name and port, or nothing when it throws. *)
Context (proxy_URL : jstr → option (jstr * jstr * jstr)).
(** [new URL(value)] for a route. *)
Context (URL : jstr → option (jstr * jstr)).

Definition normalizeHttpProtocol (value : jstr) : jstr :=
  if toLowerCase (trim value) === HTTP_PROTOCOL_HTTP1 then HTTP_PROTOCOL_HTTP1 else HTTP_PROTOCOL_AUTO.

(** ** Checks of the form *)

Definition SUPPORTED_PROXY_PROTOCOLS : list jstr := [js "http:"; js "https:"; js "socks5:"; js "socks5h:"].

(** [s.search(/[/?#]/)] and the rest from there. *)
Fixpoint url_suffix (s : jstr) : option jstr :=
  match s with
  | [] => None
  | c :: r => if (c =? 47)%N || (c =? 63)%N || (c =? 35)%N then Some s else url_suffix r
  end.

Definition isOptionalProxyURL (value : jstr) : bool :=
  let trimmedValue := trim value in
  if negb (truthy trimmedValue) then true
  else match indexOf trimmedValue (js "://") with
       | None | Some O => false
       | Some i =>
           if match url_suffix (drop (i + 3) trimmedValue) with
              | Some suffix => negb (suffix === js "/")
              | None => false
              end
           then false
           else match proxy_URL trimmedValue with
                | Some (protocol, hostname, port) =>
                    bool_decide (protocol ∈ SUPPORTED_PROXY_PROTOCOLS) && truthy hostname
                    && negb (port === js "0")
                | None => false
                end
       end.

(** A field and the message shown at it. *)
Definition issue : Type := jstr * jstr.
Definition complain (b : bool) (path message : string) : list issue :=
  if b then [(js path, js message)] else [].

(** The checks of the single fields. *)
Definition field_issues (f : ChannelFormValues) : list issue :=
  complain (negb (truthy (f_name f))) "name" "Channel name is required"
  ++ complain (f_type f <? 0) "type" "Channel type is required"
  ++ complain (negb (truthy (f_models f))) "models" "Models are required"
  ++ complain (bool_decide (f_group f = [])) "group" "Group is required"
  ++ complain (negb (isOptionalModelMapping (f_model_mapping f))) "model_mapping"
       "Model mapping must be a JSON object with string values"
  ++ complain (negb (isOptionalStatusCodeMapping (f_status_code_mapping f))) "status_code_mapping"
       "Status code mapping must use valid HTTP status codes"
  ++ complain (255 <? Z.of_nat (length (f_remark f))) "remark" "Remark must be less than 255 characters"
  ++ complain (negb (isOptionalJsonObject (f_setting f))) "setting" "Invalid JSON format"
  ++ complain (negb (isOptionalJsonObject (f_param_override f))) "param_override" "Invalid JSON format"
  ++ complain (negb (isOptionalJsonObject (f_header_override f))) "header_override" "Invalid JSON format"
  ++ complain (negb (isOptionalJsonObject (f_settings f))) "settings" "Invalid JSON format"
  ++ complain (negb (isOptionalProxyURL (f_proxy f))) "proxy"
       "Proxy address must use HTTP, HTTPS, SOCKS5, or SOCKS5H and include a valid host".

Definition blank (s : jstr) : bool := negb (truthy (trim s)).
Definition not_single (mode : jstr) : bool := truthy mode && negb (mode === js "single").

(** The checks of an advanced custom channel; [None] is a configuration outside
    the declared types. *)
Definition advanced_issues (f : ChannelFormValues) : option (list issue) :=
  config ← parseAdvancedCustomConfig (Some (f_advanced_custom f));
  Some (match validateAdvancedCustomConfig URL config with
        | Some e => [(js "advanced_custom", message e)]
        | None => []
        end
        ++ complain (advancedCustomConfigUsesRelativeUpstreamPath config && blank (f_base_url f)) "base_url"
             "Base URL is required when an advanced route uses an upstream path"
        ++ complain (f_upstream_model_update_check_enabled f
                     && negb (hasValidAdvancedCustomModelListRoute URL config))
             "upstream_model_update_check_enabled"
             "OpenAI Models route is required to enable upstream model checks").

Definition codex_issues (f : ChannelFormValues) : list issue :=
  complain (not_single (f_multi_key_mode f)) "multi_key_mode" "Codex channels do not support batch creation"
  ++ complain (negb (blank (f_key f)) && negb (isCodexCredential (f_key f))) "key"
       "Codex credential must be a JSON object with access_token and account_id".

Definition shards_of (f : ChannelFormValues) : jsnum := default (num_of_Z 1) (f_http2_connection_shards f).

(** [superRefine] *)
Definition cross_issues (f : ChannelFormValues) : option (list issue) :=
  let ty := f_type f in
  advanced ← (if ty =? ChannelTypes.CHANNEL_TYPE_ADVANCED_CUSTOM then advanced_issues f else Some []);
  let protocol := normalizeHttpProtocol (f_http_protocol f) in
  let shards := shards_of f in
  Some (
    complain (ChannelTypes.has_type ty [3; 8; 36; 45; ChannelTypes.CHANNEL_TYPE_NEW_API; ChannelTypes.CHANNEL_TYPE_TASK_PLUGIN]
              && blank (f_base_url f))
      "base_url" "Base URL is required for this channel type"
    ++ complain ((ty =? ChannelTypes.CHANNEL_TYPE_TASK_PLUGIN) && blank (f_task_plugin_key f))
         "task_plugin_key" "Task plugin is required"
    ++ advanced
    ++ complain (ChannelTypes.has_type ty [3; 18; 21; 39; 41; 49] && blank (f_other f)) "other"
         "This channel type requires additional configuration"
    ++ (if ty =? 57 then codex_issues f else [])
    ++ complain ((ty =? 41) && (f_vertex_key_type f === js "json") && negb (blank (f_key f))
                 && negb (isVertexJsonKey (f_key f)))
         "key" "Vertex AI service account key must be valid JSON"
    ++ complain ((ty =? 41) && (f_vertex_key_type f === js "api_key") && not_single (f_multi_key_mode f))
         "multi_key_mode" "Vertex AI API Key mode does not support batch creation"
    ++ complain (num_ltb shards (num_of_Z 1) || num_ltb (num_of_Z MAX_HTTP2_CONNECTION_SHARDS) shards)
         "http2_connection_shards" "HTTP/2 connection shards must be between 1 and 8"
    ++ complain ((protocol === HTTP_PROTOCOL_HTTP1) && num_ltb (num_of_Z 1) shards)
         "http2_connection_shards" "HTTP/2 connection shards must be 1 when HTTP/1.1 is selected").

(** ** Reading a channel *)

Definition falsy (v : option json) : bool := match v with Some x => negb (json_truthy x) | None => true end.

(** [v || d], [v || false] and [v === true]; a truthy value of another type is
    outside the model. *)
Definition string_or (d : jstr) (v : option json) : option jstr :=
  if falsy v then Some d else match v with Some (JStr s) => Some s | _ => None end.
Definition flag_or_false (v : option json) : option bool :=
  if falsy v then Some false else match v with Some (JBool b) => Some b | _ => None end.
Definition is_true (v : option json) : bool := match v with Some (JBool b) => b | _ => false end.
Definition opt_number (v : option json) : option (option jsnum) :=
  match v with None | Some JNull => Some None | Some (JNum n) => Some (Some n) | Some _ => None end.

Record ExtraSettings := mkExtra {
  x_task_plugin_key : jstr; x_force_format : bool; x_thinking_to_content : bool; x_proxy : jstr;
  x_http_protocol : jstr; x_http2_connection_shards : jsnum; x_pass_through_body_enabled : bool;
  x_system_prompt : jstr; x_system_prompt_override : bool;
}.
Definition default_extra : ExtraSettings :=
  mkExtra [] false false [] HTTP_PROTOCOL_AUTO (num_of_Z 1) false [] false.

(** The fields of [channel.setting]. *)
Definition read_extra (parsed : json) : option ExtraSettings :=
  let get k := jget (js k) parsed in
  http_protocol ← string_or [] (get "http_protocol");
  http2_shards ← opt_number (get "http2_connection_shards");
  let protocol := normalizeHttpProtocol http_protocol in
  let shards := normalizeHttp2ConnectionShards http2_shards in
  task_plugin_key ← string_or [] (get "task_plugin_key");
  force_format ← flag_or_false (get "force_format");
  thinking_to_content ← flag_or_false (get "thinking_to_content");
  proxy ← string_or [] (get "proxy");
  pass_through ← flag_or_false (get "pass_through_body_enabled");
  system_prompt ← string_or [] (get "system_prompt");
  system_prompt_override ← flag_or_false (get "system_prompt_override");
  Some (mkExtra task_plugin_key force_format thinking_to_content proxy protocol
          (if protocol === HTTP_PROTOCOL_HTTP1 then num_of_Z 1 else shards)
          pass_through system_prompt system_prompt_override).

(** A text that is absent, does not parse, or is [null], whose fields cannot be
    read, leaves the defaults. *)
Definition read_text {A} (d : A) (read : json → option A) (text : jstr) : option A :=
  if negb (truthy text) then Some d
  else match JSON_parse text with
       | None | Some JNull => Some d
       | Some parsed => read parsed
       end.

Record OtherSettings := mkOther {
  o_vertex_key_type : jstr; o_azure_responses_version : jstr; o_openrouter_enterprise : bool;
  o_aws_key_type : jstr; o_allow_service_tier : bool; o_disable_store : bool;
  o_allow_safety_identifier : bool; o_allow_include_obfuscation : bool; o_allow_inference_geo : bool;
  o_allow_speed : bool; o_claude_beta_query : bool; o_disable_task_polling_sleep : bool;
  o_check_enabled : bool; o_auto_sync_enabled : bool; o_ignored_models : jstr; o_advanced_custom : jstr;
}.
Definition default_other : OtherSettings :=
  mkOther (js "json") [] false (js "ak_sk") false false false false false false false false false false [] [].

Definition read_ignored (v : option json) : option jstr :=
  match v with
  | Some (JArr l) => join (js ",") <$> mapM (λ x, match x with JStr s => Some s | _ => None end) l
  | _ => Some []
  end.
Definition read_advanced (v : option json) : option jstr :=
  if falsy v then Some []
  else match v with
       | Some (JObj fs) => stringifyAdvancedCustomConfig <$> config_of_json fs
       | _ => None
       end.

(** The fields of [channel.settings]. *)
Definition read_other (parsed : json) : option OtherSettings :=
  let get k := jget (js k) parsed in
  vertex_key_type ← string_or (js "json") (get "vertex_key_type");
  azure ← string_or [] (get "azure_responses_version");
  aws_key_type ← string_or (js "ak_sk") (get "aws_key_type");
  ignored ← read_ignored (get "upstream_model_update_ignored_models");
  advanced ← read_advanced (get "advanced_custom");
  Some (mkOther vertex_key_type azure (is_true (get "openrouter_enterprise")) aws_key_type
          (is_true (get "allow_service_tier")) (is_true (get "disable_store"))
          (is_true (get "allow_safety_identifier")) (is_true (get "allow_include_obfuscation"))
          (is_true (get "allow_inference_geo")) (is_true (get "allow_speed"))
          (is_true (get "claude_beta_query")) (is_true (get "disable_task_polling_sleep"))
          (is_true (get "upstream_model_update_check_enabled"))
          (is_true (get "upstream_model_update_auto_sync_enabled")) ignored advanced).

Definition num_or_zero (n : option jsnum) : jsnum :=
  match n with Some v => if num_truthy v then v else num_of_Z 0 | None => num_of_Z 0 end.
Definition or_text (s d : jstr) : jstr := if truthy s then s else d.

Definition transformChannelToFormDefaults (c : ChannelTypes.Channel) : option ChannelFormValues :=
  x ← read_text default_extra read_extra (default [] (ChannelTypes.setting c));
  o ← read_text default_other read_other (ChannelTypes.settings c);
  Some {|
    f_name := ChannelTypes.name c; f_type := ChannelTypes.type c; f_base_url := default [] (ChannelTypes.base_url c);
    f_task_plugin_key := x_task_plugin_key x; f_key := [];
    f_openai_organization := default [] (ChannelTypes.openai_organization c); f_models := ChannelTypes.models c;
    f_group := parseGroups (or_text (ChannelTypes.group c) (js "default"));
    f_model_mapping := default [] (ChannelTypes.model_mapping c);
    f_priority := num_or_zero (ChannelTypes.priority c); f_weight := num_or_zero (ChannelTypes.weight c);
    f_test_model := default [] (ChannelTypes.test_model c);
    f_auto_ban := Some (default (num_of_Z 1) (ChannelTypes.auto_ban c)); f_status := ChannelTypes.status c;
    f_status_code_mapping := default [] (ChannelTypes.status_code_mapping c);
    f_tag := default [] (ChannelTypes.tag c); f_remark := ChannelTypes.remark c;
    f_setting := default [] (ChannelTypes.setting c);
    f_param_override := default [] (ChannelTypes.param_override c);
    f_header_override := default [] (ChannelTypes.header_override c);
    f_settings := or_text (ChannelTypes.settings c) (js "{}"); f_other := ChannelTypes.other c;
    f_multi_key_mode := js "single";
    f_multi_key_type := or_text (ChannelTypes.multi_key_mode (ChannelTypes.channel_info c)) (js "random");
    f_batch_add_set_key_prefix_2_name := false; f_key_mode := js "append";
    f_force_format := x_force_format x; f_thinking_to_content := x_thinking_to_content x;
    f_proxy := x_proxy x; f_http_protocol := x_http_protocol x;
    f_http2_connection_shards := Some (x_http2_connection_shards x);
    f_pass_through_body_enabled := x_pass_through_body_enabled x; f_system_prompt := x_system_prompt x;
    f_system_prompt_override := x_system_prompt_override x;
    f_is_enterprise_account := o_openrouter_enterprise o; f_vertex_key_type := o_vertex_key_type o;
    f_aws_key_type := o_aws_key_type o; f_azure_responses_version := o_azure_responses_version o;
    f_allow_service_tier := o_allow_service_tier o; f_disable_store := o_disable_store o;
    f_allow_safety_identifier := o_allow_safety_identifier o;
    f_allow_include_obfuscation := o_allow_include_obfuscation o;
    f_allow_inference_geo := o_allow_inference_geo o; f_allow_speed := o_allow_speed o;
    f_claude_beta_query := o_claude_beta_query o;
    f_disable_task_polling_sleep := o_disable_task_polling_sleep o;
    f_upstream_model_update_check_enabled := o_check_enabled o;
    f_upstream_model_update_auto_sync_enabled := o_auto_sync_enabled o;
    f_upstream_model_update_ignored_models := o_ignored_models o; f_advanced_custom := o_advanced_custom o;
  |}.

(** ** Building the two JSON texts *)

Definition setting_fields (f : ChannelFormValues) : list (jstr * json) :=
  let protocol := normalizeHttpProtocol (f_http_protocol f) in
  let shards := if protocol === HTTP_PROTOCOL_HTTP1 then num_of_Z 1
                else normalizeHttp2ConnectionShards (f_http2_connection_shards f) in
  opt_field "task_plugin_key"
    (if f_type f =? ChannelTypes.CHANNEL_TYPE_TASK_PLUGIN then Some (JStr (trim (f_task_plugin_key f))) else None)
  ++ [(js "force_format", JBool (f_force_format f));
      (js "thinking_to_content", JBool (f_thinking_to_content f));
      (js "proxy", JStr (trim (f_proxy f)));
      (js "pass_through_body_enabled", JBool (f_pass_through_body_enabled f));
      (js "system_prompt", JStr (f_system_prompt f));
      (js "system_prompt_override", JBool (f_system_prompt_override f))]
  ++ (if protocol === HTTP_PROTOCOL_HTTP1 then [(js "http_protocol", JStr HTTP_PROTOCOL_HTTP1)]
      else if num_ltb (num_of_Z 1) shards then [(js "http2_connection_shards", JNum shards)] else []).
Definition buildSettingJSON (f : ChannelFormValues) : jstr := JSON_stringify (JObj (setting_fields f)).

(** [obj.k = v], or [delete obj.k] where [k] may be missing. *)
Definition put_if (b : bool) (k : string) (v : json) (obj : list (jstr * json)) : list (jstr * json) :=
  if b then obj_set (js k) v obj else ModelPricing.obj_delete (js k) obj.

Definition ignored_list (f : ChannelFormValues) : list jstr :=
  dedup (filter_truthy (map trim (split1 44%N (f_upstream_model_update_ignored_models f)))).

(** The block for types whose models can be fetched. *)
Definition put_upstream (f : ChannelFormValues) (obj : list (jstr * json)) : list (jstr * json) :=
  let check := f_upstream_model_update_check_enabled f in
  let obj := obj_set (js "upstream_model_update_check_enabled") (JBool check) obj in
  let obj := obj_set (js "upstream_model_update_auto_sync_enabled")
               (JBool (check && f_upstream_model_update_auto_sync_enabled f)) obj in
  let obj := obj_set (js "upstream_model_update_ignored_models") (JArr (map JStr (ignored_list f))) obj in
  let obj := if negb (match field_get (js "upstream_model_update_last_detected_models") obj with
                      | Some (JArr _) => true | _ => false end) || negb check
             then obj_set (js "upstream_model_update_last_detected_models") (JArr []) obj else obj in
  match field_get (js "upstream_model_update_last_check_time") obj with
  | Some (JNum _) => obj
  | _ => obj_set (js "upstream_model_update_last_check_time") (JNum (num_of_Z 0)) obj
  end.

Definition put_advanced (f : ChannelFormValues) (obj : list (jstr * json)) : option (list (jstr * json)) :=
  if f_type f =? ChannelTypes.CHANNEL_TYPE_ADVANCED_CUSTOM then
    config ← parseAdvancedCustomConfig (Some (f_advanced_custom f));
    Some (match config with Some c => obj_set (js "advanced_custom") (config_json c) obj | None => obj end)
  else Some (ModelPricing.obj_delete (js "advanced_custom") obj).

Definition settings_fields (f : ChannelFormValues) (obj : list (jstr * json)) : option (list (jstr * json)) :=
  let ty := f_type f in
  let openai := ChannelTypes.has_type ty ChannelTypes.OPENAI_FIELD_PASSTHROUGH_TYPES in
  let claude := ChannelTypes.has_type ty ChannelTypes.CLAUDE_FIELD_PASSTHROUGH_TYPES in
  let obj := put_if (ty =? 41) "vertex_key_type" (JStr (or_text (f_vertex_key_type f) (js "json"))) obj in
  let obj := put_if ((ty =? 3) && truthy (f_azure_responses_version f)) "azure_responses_version"
               (JStr (f_azure_responses_version f)) obj in
  let obj := put_if (ty =? 20) "openrouter_enterprise" (JBool (f_is_enterprise_account f)) obj in
  let obj := put_if (ty =? 33) "aws_key_type" (JStr (or_text (f_aws_key_type f) (js "ak_sk"))) obj in
  let obj := put_if (ChannelTypes.has_type ty ChannelTypes.FIELD_PASSTHROUGH_TYPES) "allow_service_tier"
               (JBool (f_allow_service_tier f)) obj in
  let obj := put_if openai "disable_store" (JBool (f_disable_store f)) obj in
  let obj := put_if openai "allow_safety_identifier" (JBool (f_allow_safety_identifier f)) obj in
  let obj := put_if openai "allow_include_obfuscation" (JBool (f_allow_include_obfuscation f)) obj in
  let obj := put_if (openai || claude) "allow_inference_geo" (JBool (f_allow_inference_geo f)) obj in
  let obj := put_if claude "allow_speed" (JBool (f_allow_speed f)) obj in
  let obj := put_if (ty =? 14) "claude_beta_query" (JBool (f_claude_beta_query f)) obj in
  let obj := obj_set (js "disable_task_polling_sleep") (JBool (f_disable_task_polling_sleep f)) obj in
  let obj := if ChannelTypes.has_type ty ChannelTypes.MODEL_FETCHABLE_TYPES then put_upstream f obj else obj in
  put_advanced f obj.

(** The object the settings start from; [None]: a value that is no object, on
    which the assignments that follow throw or are lost. *)
Definition existing_settings (f : ChannelFormValues) : option (list (jstr * json)) :=
  if negb (truthy (f_settings f)) || (f_settings f === js "{}") then Some []
  else match JSON_parse (f_settings f) with
       | None => Some []
       | Some (JObj fs) => Some fs
       | Some _ => None
       end.
Definition buildSettingsJSON (f : ChannelFormValues) : option jstr :=
  obj ← existing_settings f; fs ← settings_fields f obj; Some (JSON_stringify (JObj fs)).

(** ** Payloads *)

Definition or_null (s : jstr) : json := if truthy s then JStr s else JNull.
(** [channel[key] === ''] becomes [null]. *)
Definition clean (payload : list (jstr * json)) : list (jstr * json) :=
  map (λ '(k, v), (k, match v with JStr [] => JNull | _ => v end)) payload.

Record CreatePayload := mkCreate {
  cr_mode : jstr; cr_multi_key_mode : option jstr; cr_batch_prefix : option bool;
  cr_channel : list (jstr * json);
}.

Definition transformFormDataToCreatePayload (f : ChannelFormValues) : option CreatePayload :=
  settings ← buildSettingsJSON f;
  let mode := or_text (f_multi_key_mode f) (js "single") in
  let channel := clean [
    (js "name", JStr (f_name f)); (js "type", JNum (num_of_Z (f_type f)));
    (js "base_url", or_null (normalizeBaseUrl (f_base_url f))); (js "key", JStr (f_key f));
    (js "openai_organization", or_null (f_openai_organization f)); (js "models", JStr (f_models f));
    (js "group", JStr (formatGroups (f_group f))); (js "model_mapping", or_null (f_model_mapping f));
    (js "priority", if num_truthy (f_priority f) then JNum (f_priority f) else JNull);
    (js "weight", if num_truthy (f_weight f) then JNum (f_weight f) else JNull);
    (js "test_model", or_null (f_test_model f));
    (js "auto_ban", JNum (default (num_of_Z 1) (f_auto_ban f)));
    (js "status", JNum (num_of_Z (f_status f)));
    (js "status_code_mapping", or_null (f_status_code_mapping f)); (js "tag", or_null (f_tag f));
    (js "remark", JStr (f_remark f)); (js "setting", JStr (buildSettingJSON f));
    (js "param_override", or_null (f_param_override f));
    (js "header_override", or_null (f_header_override f));
    (js "settings", JStr settings); (js "other", JStr (f_other f))] in
  Some (mkCreate mode (if mode === js "multi_to_single" then Some (f_multi_key_type f) else None)
          (if mode === js "batch" then Some (f_batch_add_set_key_prefix_2_name f) else None) channel).

Definition transformFormDataToUpdatePayload (f : ChannelFormValues) (channelId : Z)
    : option (list (jstr * json)) :=
  settings ← buildSettingsJSON f;
  let payload := [
    (js "id", JNum (num_of_Z channelId));
    (js "name", JStr (f_name f)); (js "type", JNum (num_of_Z (f_type f)));
    (js "base_url", or_null (normalizeBaseUrl (f_base_url f)));
    (js "openai_organization", or_null (f_openai_organization f)); (js "models", JStr (f_models f));
    (js "group", JStr (formatGroups (f_group f))); (js "model_mapping", or_null (f_model_mapping f));
    (js "priority", JNum (f_priority f)); (js "weight", JNum (f_weight f));
    (js "test_model", or_null (f_test_model f));
    (js "auto_ban", JNum (default (num_of_Z 1) (f_auto_ban f)));
    (js "status_code_mapping", or_null (f_status_code_mapping f)); (js "tag", or_null (f_tag f));
    (js "remark", JStr (f_remark f)); (js "setting", JStr (buildSettingJSON f));
    (js "param_override", or_null (f_param_override f));
    (js "header_override", or_null (f_header_override f));
    (js "settings", JStr settings); (js "other", JStr (f_other f))] in
  let payload := if truthy (f_key f) && truthy (trim (f_key f)) then obj_set (js "key") (JStr (f_key f)) payload
                 else payload in
  let payload := clean payload in
  Some (foldl (λ obj '(k, v), obj_set (js k) (JStr v) obj) payload [
    ("base_url"%string, normalizeBaseUrl (f_base_url f)); ("openai_organization"%string, f_openai_organization f);
    ("test_model"%string, f_test_model f); ("tag"%string, f_tag f); ("remark"%string, f_remark f);
    ("model_mapping"%string, f_model_mapping f); ("status_code_mapping"%string, f_status_code_mapping f);
    ("param_override"%string, f_param_override f); ("header_override"%string, f_header_override f)]).

End form.
End ChannelForm.
