(* ===== verification/ChannelFormFacts.v ===== *)
(** * Facts about the channel form

    What the form writes into the two JSON texts of a channel reads back as the
    values that were chosen; settings the form does not know survive; a channel
    is sent with the key only if one was typed, and emptied fields are cleared;
    an accepted form has its transport settings stored as they are. *)

From S2P Require Import Prelude JsValue StringFacts NumberText JsonText AdvancedCustom AdvancedCustomFacts ModelPricing.
From S2P Require Import ModelPricingFacts Comparators ChannelForm.
Import AdvancedCustom AdvancedText ChannelForm.

(** ** Advanced custom configurations as text *)

Lemma mapM_printed {A B} (print : A → B) (read : B → option A) l :
  (∀ x, read (print x) = Some x) → mapM read (map print l) = Some l.
Proof. intros H. induction l as [|x l IH]; [done|]. cbn. by rewrite H; cbn; rewrite IH. Qed.

Lemma opt_string_field s : opt_string (JStr <$> s) = Some s.
Proof. by destruct s. Qed.
Lemma opt_strings_field ms : opt_strings ((λ ms, JArr (map JStr ms)) <$> ms) = Some ms.
Proof.
  destruct ms as [l|]; [|done]. cbn [opt_strings fmap option_fmap option_map]. by rewrite mapM_printed.
Qed.

(** Looking up one of the fields of a printed object. *)
Lemma field_get_opt k k' v rest :
  field_get (js k) (opt_field k' v ++ rest) =
    if js k' === js k then match v with Some x => Some x | None => field_get (js k) rest end
    else field_get (js k) rest.
Proof. by destruct v; cbn [opt_field app field_get]; destruct (js k' === js k). Qed.
Lemma field_get_opt_nil k k' v : field_get (js k) (opt_field k' v) = if js k' === js k then v else None.
Proof. by destruct v; cbn [opt_field app field_get]; destruct (js k' === js k). Qed.

Ltac known_keys :=
  repeat match goal with
         | |- context [js ?a === js ?b] =>
             let x := eval vm_compute in (js a === js b) in
             replace (js a === js b) with x by (vm_compute; reflexivity)
         end; cbv beta iota.

Ltac known_protocol :=
  replace (HTTP_PROTOCOL_HTTP1 === HTTP_PROTOCOL_HTTP1) with true by (vm_compute; reflexivity);
  replace (HTTP_PROTOCOL_AUTO === HTTP_PROTOCOL_HTTP1) with false by (vm_compute; reflexivity); cbv beta iota.

Lemma auth_json_reads a : auth_of_json (auth_json <$> a) = Some a.
Proof.
  destruct a as [[ty n x]|]; [|done]. cbn [fmap option_fmap option_map auth_json auth_of_json auth_type auth_name auth_value].
  rewrite !field_get_opt, !field_get_opt_nil. known_keys. by destruct ty, n, x.
Qed.

Lemma route_json_reads r : route_of_json (route_json r) = Some r.
Proof.
  destruct r as [i u c ms a]. unfold route_json, route_of_json. cbn [incoming_path upstream_path converter models auth].
  rewrite !field_get_opt, !field_get_opt_nil. known_keys.
  assert (∀ (v : option json), match v with Some x => Some x | None => None end = v) as E by (by intros []).
  assert (auth_of_json (auth_json <$> a) = Some a) as Ha by apply auth_json_reads.
  assert (opt_strings ((λ ms, JArr (map JStr ms)) <$> ms) = Some ms) as Hms by apply opt_strings_field.
  destruct i, u, c, ms, a; cbn [fmap option_fmap option_map] in *; cbn [opt_string mbind option_bind];
    rewrite ?Hms, ?Ha; cbn [mbind option_bind]; rewrite ?Ha; done.
Qed.

Lemma config_json_reads c : advanced_routes c ≠ None → ∃ fs, config_json c = JObj fs ∧ config_of_json fs = Some c.
Proof.
  destruct c as [[rs|]]; [|done]. intros _. eexists. split; [done|]. unfold config_of_json. 
  cbn [advanced_routes fmap option_fmap option_map]. rewrite field_get_opt_nil. known_keys.
  by rewrite mapM_printed by apply route_json_reads.
Qed.

(** ** The settings as one pass of independent actions *)

Inductive action := Keep | Put (v : json) | Drop.

Definition act_on (obj : list (jstr * json)) (ka : jstr * action) : list (jstr * json) :=
  match ka.2 with Keep => obj | Put v => obj_set ka.1 v obj | Drop => ModelPricing.obj_delete ka.1 obj end.

Lemma field_get_act obj k a k' :
  field_get k' (act_on obj (k, a)) =
    if decide (k = k') then match a with Keep => field_get k' obj | Put v => Some v | Drop => None end
    else field_get k' obj.
Proof.
  destruct a; cbn [act_on fst snd]; [by destruct (decide _)|apply field_get_set|apply field_get_delete].
Qed.

(** Each key is acted on once, so the actions do not disturb each other. *)
Lemma field_get_actions es obj k : NoDup es.*1 →
  field_get k (foldl act_on obj es) =
    match field_get k es with Some (Put v) => Some v | Some Drop => None | _ => field_get k obj end.
Proof.
  revert obj. induction es as [|[k' a] es IH]; intros obj Hnd; [done|]. cbn [foldl field_get].
  apply list.NoDup_cons in Hnd as [Hk Hnd]. rewrite IH by done. rewrite field_get_act.
  destruct (k' === k) eqn:E.
  - apply jeqb_true in E as ->. rewrite decide_True by done.
    destruct (field_get k es) eqn:Ek; [|by destruct a]. destruct Hk. apply field_get_keys. by eexists.
  - rewrite decide_False; [done|]. intros ->. by rewrite jeqb_refl in E.
Qed.

Definition put_or_drop (b : bool) (v : json) : action := if b then Put v else Drop.
Definition put_or_keep (b : bool) (v : json) : action := if b then Put v else Keep.

(** The keys the form writes or removes, whatever the type is. *)
Definition base_actions (f : ChannelFormValues) : list (jstr * action) :=
  let ty := f_type f in
  let openai := ChannelTypes.has_type ty ChannelTypes.OPENAI_FIELD_PASSTHROUGH_TYPES in
  let claude := ChannelTypes.has_type ty ChannelTypes.CLAUDE_FIELD_PASSTHROUGH_TYPES in [
    (js "vertex_key_type", put_or_drop (ty =? 41) (JStr (or_text (f_vertex_key_type f) (js "json"))));
    (js "azure_responses_version",
       put_or_drop ((ty =? 3) && truthy (f_azure_responses_version f)) (JStr (f_azure_responses_version f)));
    (js "openrouter_enterprise", put_or_drop (ty =? 20) (JBool (f_is_enterprise_account f)));
    (js "aws_key_type", put_or_drop (ty =? 33) (JStr (or_text (f_aws_key_type f) (js "ak_sk"))));
    (js "allow_service_tier", put_or_drop (ChannelTypes.has_type ty ChannelTypes.FIELD_PASSTHROUGH_TYPES)
                                (JBool (f_allow_service_tier f)));
    (js "disable_store", put_or_drop openai (JBool (f_disable_store f)));
    (js "allow_safety_identifier", put_or_drop openai (JBool (f_allow_safety_identifier f)));
    (js "allow_include_obfuscation", put_or_drop openai (JBool (f_allow_include_obfuscation f)));
    (js "allow_inference_geo", put_or_drop (openai || claude) (JBool (f_allow_inference_geo f)));
    (js "allow_speed", put_or_drop claude (JBool (f_allow_speed f)));
    (js "claude_beta_query", put_or_drop (ty =? 14) (JBool (f_claude_beta_query f)));
    (js "disable_task_polling_sleep", Put (JBool (f_disable_task_polling_sleep f)))].

Definition upstream_actions (f : ChannelFormValues) (obj : list (jstr * json)) : list (jstr * action) :=
  let fetchable := ChannelTypes.has_type (f_type f) ChannelTypes.MODEL_FETCHABLE_TYPES in
  let check := f_upstream_model_update_check_enabled f in [
    (js "upstream_model_update_check_enabled", put_or_keep fetchable (JBool check));
    (js "upstream_model_update_auto_sync_enabled",
       put_or_keep fetchable (JBool (check && f_upstream_model_update_auto_sync_enabled f)));
    (js "upstream_model_update_ignored_models", put_or_keep fetchable (JArr (map JStr (ignored_list f))));
    (js "upstream_model_update_last_detected_models",
       put_or_keep (fetchable && (negb (match field_get (js "upstream_model_update_last_detected_models") obj with
                                        | Some (JArr _) => true | _ => false end) || negb check)) (JArr []));
    (js "upstream_model_update_last_check_time",
       put_or_keep (fetchable && negb (match field_get (js "upstream_model_update_last_check_time") obj with
                                       | Some (JNum _) => true | _ => false end)) (JNum (num_of_Z 0)))].

Definition advanced_action (f : ChannelFormValues) : option action :=
  if f_type f =? ChannelTypes.CHANNEL_TYPE_ADVANCED_CUSTOM then
    config ← parseAdvancedCustomConfig (Some (f_advanced_custom f));
    Some (match config with Some c => Put (config_json c) | None => Keep end)
  else Some Drop.

Definition actions (f : ChannelFormValues) (obj : list (jstr * json)) (a : action) : list (jstr * action) :=
  base_actions f ++ upstream_actions f obj ++ [(js "advanced_custom", a)].

Definition managed_keys : list jstr := map js [
  "vertex_key_type"; "azure_responses_version"; "openrouter_enterprise"; "aws_key_type"; "allow_service_tier";
  "disable_store"; "allow_safety_identifier"; "allow_include_obfuscation"; "allow_inference_geo"; "allow_speed";
  "claude_beta_query"; "disable_task_polling_sleep"; "upstream_model_update_check_enabled";
  "upstream_model_update_auto_sync_enabled"; "upstream_model_update_ignored_models";
  "upstream_model_update_last_detected_models"; "upstream_model_update_last_check_time"; "advanced_custom"]%string.

Lemma actions_keys f obj a : (actions f obj a).*1 = managed_keys.
Proof. done. Qed.
Lemma managed_NoDup : NoDup managed_keys.
Proof. apply (bool_decide_unpack _). vm_compute. done. Qed.

Lemma put_if_act b k v obj : put_if b k v obj = act_on obj (js k, put_or_drop b v).
Proof. by destruct b. Qed.

Lemma upstream_acts f obj obj0 :
  (∀ k, k ∈ (upstream_actions f obj0).*1 → field_get k obj = field_get k obj0) →
  (if ChannelTypes.has_type (f_type f) ChannelTypes.MODEL_FETCHABLE_TYPES then put_upstream f obj else obj)
  = foldl act_on obj (upstream_actions f obj0).
Proof.
  intros Hsame. unfold upstream_actions at 1.
  assert (field_get (js "upstream_model_update_last_detected_models") obj0 =
          field_get (js "upstream_model_update_last_detected_models") obj) as ->.
  { symmetry. apply Hsame. vm_compute. set_solver. }
  assert (field_get (js "upstream_model_update_last_check_time") obj0 =
          field_get (js "upstream_model_update_last_check_time") obj) as ->.
  { symmetry. apply Hsame. vm_compute. set_solver. }
  destruct (ChannelTypes.has_type _ _); [|done]. unfold put_upstream. cbn [foldl act_on fst snd put_or_keep andb].
  rewrite !field_get_set. rewrite !decide_False by (vm_compute; done).
  destruct (_ || _); cbn [put_or_keep act_on fst snd]; rewrite ?field_get_set, ?decide_False by (vm_compute; done);
    by destruct (field_get (js "upstream_model_update_last_check_time") obj) as [[]|].
Qed.

Lemma settings_fields_actions f obj :
  settings_fields f obj = (λ a, foldl act_on obj (actions f obj a)) <$> advanced_action f.
Proof.
  unfold settings_fields, actions. cbv zeta. rewrite !put_if_act.
  set (base := obj_set (js "disable_task_polling_sleep") _ _).
  assert (base = foldl act_on obj (base_actions f)) as Eb by done.
  rewrite (upstream_acts f base obj).
  - unfold put_advanced, advanced_action. destruct (f_type f =? ChannelTypes.CHANNEL_TYPE_ADVANCED_CUSTOM).
    + destruct (parseAdvancedCustomConfig _) as [[c|]|]; [..|done]; cbn [mbind option_bind fmap option_fmap option_map];
        by rewrite Eb, !foldl_app.
    + cbn [fmap option_fmap option_map]. by rewrite Eb, !foldl_app.
  - intros k Hk. rewrite Eb, field_get_actions.
    + destruct (field_get k (base_actions f)) eqn:E; [|done]. exfalso.
      assert (k ∈ (base_actions f).*1) as Hb by (apply field_get_keys; by eexists).
      pose proof managed_NoDup as Hnd. rewrite <-(actions_keys f obj Keep) in Hnd. unfold actions in Hnd.
      rewrite fmap_app in Hnd. apply list.NoDup_app in Hnd as (_ & Hdis & _). apply (Hdis k Hb). rewrite fmap_app. apply elem_of_app. by left.
    + pose proof managed_NoDup as Hnd. rewrite <-(actions_keys f obj Keep) in Hnd. unfold actions in Hnd.
      rewrite fmap_app in Hnd. by apply list.NoDup_app in Hnd as (? & _).
Qed.

Lemma action_NoDup f obj a : NoDup (actions f obj a).*1.
Proof. rewrite actions_keys. apply managed_NoDup. Qed.

(** The outcome for one key. *)
Lemma settings_fields_get f obj fs k : settings_fields f obj = Some fs → ∃ a, advanced_action f = Some a ∧
  field_get k fs = match field_get k (actions f obj a) with
                   | Some (Put v) => Some v | Some Drop => None | _ => field_get k obj end.
Proof.
  rewrite settings_fields_actions. destruct (advanced_action f) as [a|]; [|done].
  cbn [fmap option_fmap option_map]. intros Hs. apply (inj Some) in Hs as <-. exists a. split; [done|].
  apply field_get_actions, action_NoDup.
Qed.

(** *** What reads back *)

Section readback.
Context (f : ChannelFormValues) (obj : list (jstr * json)).
Local Abbreviation ty := (f_type f).
Local Abbreviation openai := (ChannelTypes.has_type ty ChannelTypes.OPENAI_FIELD_PASSTHROUGH_TYPES).
Local Abbreviation claude := (ChannelTypes.has_type ty ChannelTypes.CLAUDE_FIELD_PASSTHROUGH_TYPES).
Local Abbreviation fetchable := (ChannelTypes.has_type ty ChannelTypes.MODEL_FETCHABLE_TYPES).

(** What the texts of the old settings say about fields the form leaves alone. *)
Definition old_flag (k : string) : bool := is_true (field_get (js k) obj).

(** The settings the form stands for: the values of the fields its type has, and
    the defaults of the others. *)
Definition chosen (ignored advanced : jstr) : OtherSettings := {|
  o_vertex_key_type := if ty =? 41 then or_text (f_vertex_key_type f) (js "json") else js "json";
  o_azure_responses_version := if ty =? 3 then f_azure_responses_version f else [];
  o_openrouter_enterprise := (ty =? 20) && f_is_enterprise_account f;
  o_aws_key_type := if ty =? 33 then or_text (f_aws_key_type f) (js "ak_sk") else js "ak_sk";
  o_allow_service_tier := ChannelTypes.has_type ty ChannelTypes.FIELD_PASSTHROUGH_TYPES && f_allow_service_tier f;
  o_disable_store := openai && f_disable_store f;
  o_allow_safety_identifier := openai && f_allow_safety_identifier f;
  o_allow_include_obfuscation := openai && f_allow_include_obfuscation f;
  o_allow_inference_geo := (openai || claude) && f_allow_inference_geo f;
  o_allow_speed := claude && f_allow_speed f;
  o_claude_beta_query := (ty =? 14) && f_claude_beta_query f;
  o_disable_task_polling_sleep := f_disable_task_polling_sleep f;
  o_check_enabled := if fetchable then f_upstream_model_update_check_enabled f
                     else old_flag "upstream_model_update_check_enabled";
  o_auto_sync_enabled :=
    if fetchable then f_upstream_model_update_check_enabled f && f_upstream_model_update_auto_sync_enabled f
    else old_flag "upstream_model_update_auto_sync_enabled";
  o_ignored_models := ignored; o_advanced_custom := advanced;
|}.

(** The ignored models and the advanced configuration it stands for. *)
Definition chosen_ignored : option jstr :=
  if fetchable then Some (join (js ",") (ignored_list f))
  else read_ignored (field_get (js "upstream_model_update_ignored_models") obj).
Definition chosen_advanced : option jstr :=
  if ty =? ChannelTypes.CHANNEL_TYPE_ADVANCED_CUSTOM then
    config ← parseAdvancedCustomConfig (Some (f_advanced_custom f));
    match config with
    | Some c => Some (stringifyAdvancedCustomConfig c)
    | None => read_advanced (field_get (js "advanced_custom") obj)
    end
  else Some [].
End readback.

Lemma or_text_or s d : truthy d = true → truthy (or_text s d) = true.
Proof. unfold or_text. by destruct (truthy s) eqn:E. Qed.

Lemma string_or_text d s : string_or d (Some (JStr s)) = Some (or_text s d).
Proof. unfold string_or, or_text, falsy. cbn [json_truthy]. by destruct (truthy s). Qed.
Lemma or_text_idem s d : truthy d = true → or_text (or_text s d) d = or_text s d.
Proof. intros Hd. unfold or_text. destruct (truthy s) eqn:E; [by rewrite E|by rewrite Hd]. Qed.

Lemma read_ignored_printed l : read_ignored (Some (JArr (map JStr l))) = Some (join (js ",") l).
Proof. cbn [read_ignored]. by rewrite mapM_printed. Qed.

Lemma read_advanced_printed c : advanced_routes c ≠ None →
  read_advanced (Some (config_json c)) = Some (stringifyAdvancedCustomConfig c).
Proof.
  intros Hc. destruct (config_json_reads c Hc) as (fs & -> & Hr). unfold read_advanced, falsy. cbn [json_truthy negb].
  by rewrite Hr.
Qed.

Lemma parsed_routes s c : parseAdvancedCustomConfig s = Some (Some c) → advanced_routes c ≠ None.
Proof.
  unfold parseAdvancedCustomConfig. destruct (negb _); [done|]. destruct (JSON_parse _) as [[]|]; try done.
  destruct (config_of_json _); [|done]. by intros [= <-].
Qed.

(** What an action leaves under its key. *)
Definition left_by (a : action) (old : option json) : option json :=
  match a with Put v => Some v | Drop => None | Keep => old end.
Lemma left_by_drop b v old : left_by (put_or_drop b v) old = if b then Some v else None.
Proof. by destruct b. Qed.
Lemma left_by_keep b v old : left_by (put_or_keep b v) old = if b then Some v else old.
Proof. by destruct b. Qed.

Lemma is_true_if (b c : bool) : is_true (if b then Some (JBool c) else None) = b && c.
Proof. by destruct b. Qed.
Lemma string_or_if (b : bool) s d : string_or d (if b then Some (JStr s) else None) = Some (if b then or_text s d else d).
Proof. destruct b; [apply string_or_text|done]. Qed.

Lemma settings_left f obj fs a k act : settings_fields f obj = Some fs → advanced_action f = Some a →
  field_get k (actions f obj a) = Some act → field_get k fs = left_by act (field_get k obj).
Proof.
  intros Hs Ha Hk. destruct (settings_fields_get f obj fs k Hs) as (a' & Ha' & ->).
  rewrite Ha in Ha'. apply (inj Some) in Ha' as <-. rewrite Hk. by destruct act.
Qed.

Lemma advanced_left f obj a advanced : advanced_action f = Some a → chosen_advanced f obj = Some advanced →
  read_advanced (left_by a (field_get (js "advanced_custom") obj)) = Some advanced.
Proof.
  unfold advanced_action, chosen_advanced. destruct (f_type f =? _); [|by intros [= <-] [= <-]].
  destruct (parseAdvancedCustomConfig _) as [[c|]|] eqn:E; cbn [mbind option_bind]; [|by intros [= <-]|done].
  intros Ha Hc. apply (inj Some) in Ha as <-. apply (inj Some) in Hc as <-. cbn [left_by].
  apply read_advanced_printed. by eapply parsed_routes.
Qed.

(** The fields of the saved settings. *)
Lemma settings_fields_read f obj fs ignored advanced :
  settings_fields f obj = Some fs →
  chosen_ignored f obj = Some ignored → chosen_advanced f obj = Some advanced →
  read_other (JObj fs) = Some (chosen f obj ignored advanced) ∧
  (∀ k, k ∉ managed_keys → field_get k fs = field_get k obj).
Proof.
  intros Hs Hi Ha. destruct (settings_fields_get f obj fs [] Hs) as (a & Haa & _). split.
  - assert (∀ k act, field_get (js k) (actions f obj a) = Some act →
      field_get (js k) fs = left_by act (field_get (js k) obj)) as Hk by (intros k act; by apply settings_left).
    unfold read_other. cbn [jget].
    rewrite (Hk "vertex_key_type" _ eq_refl), (Hk "azure_responses_version" _ eq_refl),
      (Hk "openrouter_enterprise" _ eq_refl), (Hk "aws_key_type" _ eq_refl), (Hk "allow_service_tier" _ eq_refl),
      (Hk "disable_store" _ eq_refl), (Hk "allow_safety_identifier" _ eq_refl),
      (Hk "allow_include_obfuscation" _ eq_refl), (Hk "allow_inference_geo" _ eq_refl), (Hk "allow_speed" _ eq_refl),
      (Hk "claude_beta_query" _ eq_refl), (Hk "disable_task_polling_sleep" _ eq_refl),
      (Hk "upstream_model_update_check_enabled" _ eq_refl), (Hk "upstream_model_update_auto_sync_enabled" _ eq_refl),
      (Hk "upstream_model_update_ignored_models" _ eq_refl), (Hk "advanced_custom" _ eq_refl).
    rewrite (advanced_left f obj a advanced Haa Ha), !left_by_drop, !left_by_keep, !is_true_if, !string_or_if.
    cbn [mbind option_bind].
    assert (read_ignored (if ChannelTypes.has_type (f_type f) ChannelTypes.MODEL_FETCHABLE_TYPES
      then Some (JArr (map JStr (ignored_list f))) else field_get (js "upstream_model_update_ignored_models") obj)
      = Some ignored) as ->.
    { unfold chosen_ignored in Hi. destruct (ChannelTypes.has_type _ _); [|done]. by rewrite read_ignored_printed. }
    cbn [mbind option_bind]. unfold chosen, old_flag. f_equal. f_equal.
    + destruct (_ =? 41); [|done]. by apply or_text_idem.
    + destruct (_ =? 3); [|done]. cbn [andb]. unfold or_text. by destruct (truthy (f_azure_responses_version f)) eqn:E; [|apply truthy_false in E].
    + destruct (_ =? 33); [|done]. by apply or_text_idem.
    + by destruct (ChannelTypes.has_type _ ChannelTypes.MODEL_FETCHABLE_TYPES).
    + by destruct (ChannelTypes.has_type _ ChannelTypes.MODEL_FETCHABLE_TYPES).
  - intros k Hk. destruct (settings_fields_get f obj fs k Hs) as (a' & _ & ->).
    destruct (field_get k (actions f obj a')) as [act|] eqn:E; [|done]. destruct Hk.
    rewrite <-(actions_keys f obj a'). apply field_get_keys. by eexists.
Qed.

(** ** Texts of code units *)

Lemma units_split1 c s w : w ∈ split1 c s → units s → units w.
Proof.
  intros Hw Hs. rewrite <-(join_split1 c s) in Hs. induction (split1 c s) as [|x l IH]; [by apply elem_of_nil in Hw|].
  destruct l as [|y l].
  - apply list_elem_of_singleton in Hw as ->. exact Hs.
  - rewrite join_cons in Hs by done. unfold units in *. rewrite !list.Forall_app in Hs.
    apply elem_of_cons in Hw as [->|Hw]; [tauto|]. apply IH; tauto.
Qed.
Lemma units_or_text s d : units s → units d → units (or_text s d).
Proof. unfold or_text. by destruct (truthy s). Qed.

Lemma ignored_units f : units (f_upstream_model_update_ignored_models f) → Forall units (ignored_list f).
Proof.
  intros Hu. apply list.Forall_forall. intros x Hx. unfold ignored_list in Hx. rewrite dedup_elem in Hx. unfold filter_truthy in Hx.
  apply list_elem_of_filter in Hx as [_ Hx]. apply list_elem_of_In, in_map_iff in Hx as (w & <- & Hw).
  apply units_trim, (units_split1 44%N (f_upstream_model_update_ignored_models f)); [|done]. by apply list_elem_of_In.
Qed.

(** ** The settings as text *)

(** Texts of code units only, and routes of such texts. *)
Record plain (f : ChannelFormValues) : Prop := {
  plain_vertex : units (f_vertex_key_type f);
  plain_azure : units (f_azure_responses_version f);
  plain_aws : units (f_aws_key_type f);
  plain_ignored : units (f_upstream_model_update_ignored_models f);
  plain_advanced c : parseAdvancedCustomConfig (Some (f_advanced_custom f)) = Some (Some c) → storable (config_json c);
}.

Definition storable_action (ka : jstr * action) : Prop :=
  units ka.1 ∧ match ka.2 with Put v => storable v | _ => True end.

Lemma foldl_storable es obj : Forall storable_action es → storable (JObj obj) → storable (JObj (foldl act_on obj es)).
Proof.
  revert obj. induction es as [|[k a] es IH]; intros obj Hes Ho; [done|].
  apply list.Forall_cons in Hes as [[Hk Ha] Hes]. cbn [foldl]. apply IH; [done|].
  destruct a; cbn [act_on fst snd] in *; [done|by apply storable_set|by apply storable_delete].
Qed.

Lemma storable_drop k b v : units k → storable v → storable_action (k, put_or_drop b v).
Proof. by destruct b. Qed.
Lemma storable_keep k b v : units k → storable v → storable_action (k, put_or_keep b v).
Proof. by destruct b. Qed.

Lemma managed_units : Forall units managed_keys.
Proof. repeat (constructor; [by apply unitsb_true; vm_compute|]). constructor. Qed.

Lemma storable_texts l : Forall units l → storable (JArr (map JStr l)).
Proof. intros H. apply storable_arr, Forall_map. exact H. Qed.

Lemma actions_storable f obj a : plain f → advanced_action f = Some a → Forall storable_action (actions f obj a).
Proof.
  intros [Hv Hz Hw Hi Hc] Ha. unfold actions, base_actions, upstream_actions. cbn [app].
  repeat (apply list.Forall_cons; split); [..|by apply list.Forall_nil].
  all: (first [apply storable_drop|apply storable_keep|split]; [apply unitsb_true; vm_compute; reflexivity|]); try exact I.
  - by apply units_or_text; [|apply unitsb_true].
  - exact Hz.
  - by apply units_or_text; [|apply unitsb_true].
  - by apply storable_texts, ignored_units.
  - split; [done|]. by apply readableb_true.
  - cbn [snd]. unfold advanced_action in Ha. destruct (f_type f =? _); [|by injection Ha as <-].
    destruct (parseAdvancedCustomConfig _) as [[c|]|] eqn:E; [|by injection Ha as <-|done].
    apply (inj Some) in Ha as <-. by apply Hc.
Qed.

Lemma settings_storable f obj fs : plain f → storable (JObj obj) → settings_fields f obj = Some fs → storable (JObj fs).
Proof.
  intros Hp Ho. rewrite settings_fields_actions. destruct (advanced_action f) as [a|] eqn:Ha; [|done].
  cbn [fmap option_fmap option_map]. intros Hs. apply (inj Some) in Hs as <-.
  apply foldl_storable; [by apply actions_storable|done].
Qed.

Lemma object_text fs : truthy (JSON_stringify (JObj fs)) = true.
Proof. done. Qed.

Lemma read_object {A} (d : A) (read : json → option A) fs : storable (JObj fs) →
  read_text d read (JSON_stringify (JObj fs)) = read (JObj fs).
Proof. intros Hs. unfold read_text. rewrite object_text, stringify_parse by done. done. Qed.

(** [C17] What the form saves in the settings of a channel reads back: opened
    again, the channel shows the chosen value of every field its type has (and the
    default of the others), the same ignored models without blanks and
    duplicates and the same routes; and every setting the form does not
    manage keeps its value. *)
Theorem saved_settings_read_back f obj text ignored advanced :
  existing_settings f = Some obj → storable (JObj obj) → plain f →
  chosen_ignored f obj = Some ignored → chosen_advanced f obj = Some advanced →
  buildSettingsJSON f = Some text →
  read_text default_other read_other text = Some (chosen f obj ignored advanced) ∧
  ∃ fs, JSON_parse text = Some (JObj fs) ∧ ∀ k, k ∉ managed_keys → field_get k fs = field_get k obj.
Proof.
  intros He Ho Hp Hi Ha. unfold buildSettingsJSON. rewrite He. cbn [mbind option_bind].
  destruct (settings_fields f obj) as [fs|] eqn:Hs; [|done]. cbn [mbind option_bind]. intros Ht. apply (inj Some) in Ht as <-.
  assert (storable (JObj fs)) as Hfs by (by eapply settings_storable).
  destruct (settings_fields_read f obj fs ignored advanced Hs Hi Ha) as [Hr Hk]. split.
  - by rewrite read_object.
  - exists fs. split; [by apply stringify_parse|done].
Qed.

(** ** The connection settings *)

Lemma shards_range s : let r := normalizeHttp2ConnectionShards s in
  not_nan r = true ∧ num_ltb r (num_of_Z 1) = false ∧ num_ltb (num_of_Z 8) r = false.
Proof.
  unfold normalizeHttp2ConnectionShards, MAX_HTTP2_CONNECTION_SHARDS. destruct s as [v|]; [|by vm_compute].
  destruct (match v with S754_nan => true | _ => false end) eqn:En; [by vm_compute|]. cbn [orb].
  destruct (num_eqb v _); [by vm_compute|]. destruct (num_ltb v (num_of_Z 1)) eqn:E1; [by vm_compute|].
  destruct (num_ltb (num_of_Z 8) v) eqn:E8; [by vm_compute|]. split_and!; [by destruct v|done|done].
Qed.

(** A number in the range is left alone. *)
Lemma shards_kept v : not_nan v = true → num_ltb v (num_of_Z 1) = false → num_ltb (num_of_Z 8) v = false →
  normalizeHttp2ConnectionShards (Some v) = v.
Proof.
  intros Hn H1 H8. unfold normalizeHttp2ConnectionShards, MAX_HTTP2_CONNECTION_SHARDS.
  destruct (match v with S754_nan => true | _ => false end) eqn:En; [by destruct v|]. cbn [orb].
  destruct (num_eqb v (num_of_Z 0)) eqn:E0; [|by rewrite H1, H8].
  destruct v as [s|[]| |[] m e]; try done; by destruct s.
Qed.
Lemma shards_idem s : normalizeHttp2ConnectionShards (Some (normalizeHttp2ConnectionShards s)) = normalizeHttp2ConnectionShards s.
Proof. destruct (shards_range s) as (? & ? & ?). by apply shards_kept. Qed.

Lemma num_one : num_of_Z 1 = S754_finite false 4503599627370496 (-52).
Proof. by vm_compute. Qed.
Lemma one_unique v : not_nan v = true → num_ltb v (num_of_Z 1) = false → num_ltb (num_of_Z 1) v = false → v = num_of_Z 1.
Proof.
  rewrite num_one. intros Hn H1 H2. rewrite <-not_true_iff_false, num_ltb_place in H1, H2 by done. unfold before in *.
  destruct v as [[]|[]| |[] m e]; cbn [place fst snd] in *; try lia.
  assert (e = -52) as -> by lia. f_equal. lia.
Qed.

Lemma shards_double s : (∀ v, s = Some v → is_double v = true) → is_double (normalizeHttp2ConnectionShards s) = true.
Proof.
  intros Hs. unfold normalizeHttp2ConnectionShards. destruct s as [v|]; [|by vm_compute].
  destruct (_ || _); [by vm_compute|]. destruct (num_ltb _ _); [by vm_compute|]. destruct (num_ltb _ _); [by vm_compute|]. by apply Hs.
Qed.

Lemma shards_storable s : (∀ v, s = Some v → is_double v = true) → storable (JNum (normalizeHttp2ConnectionShards s)).
Proof.
  intros Hs. destruct (shards_range s) as (Hn & H1 & H8). pose proof (shards_double s Hs) as Hd.
  set (r := normalizeHttp2ConnectionShards s) in *. split; [|split; [done|]].
  - destruct r as [|[]| |]; try done; by vm_compute in H8.
  - intros ->. by vm_compute in H1.
Qed.

Section connection.
Context (toLowerCase : jstr → jstr).
(** Lower case of the two texts the code compares and stores. *)
Context (lower_http1 : toLowerCase HTTP_PROTOCOL_HTTP1 = HTTP_PROTOCOL_HTTP1) (lower_nil : toLowerCase [] = []).
Context (f : ChannelFormValues).
Local Abbreviation protocol := (normalizeHttpProtocol toLowerCase (f_http_protocol f)).

Record plain_connection : Prop := {
  plain_plugin : units (f_task_plugin_key f); plain_proxy : units (f_proxy f); plain_prompt : units (f_system_prompt f);
  double_shards v : f_http2_connection_shards f = Some v → is_double v = true;
}.

(** The connection settings the form stands for. *)
Definition chosen_extra : ExtraSettings := {|
  x_task_plugin_key := if f_type f =? ChannelTypes.CHANNEL_TYPE_TASK_PLUGIN then trim (f_task_plugin_key f) else [];
  x_force_format := f_force_format f; x_thinking_to_content := f_thinking_to_content f;
  x_proxy := trim (f_proxy f); x_http_protocol := protocol;
  x_http2_connection_shards := if protocol === HTTP_PROTOCOL_HTTP1 then num_of_Z 1
                               else normalizeHttp2ConnectionShards (f_http2_connection_shards f);
  x_pass_through_body_enabled := f_pass_through_body_enabled f; x_system_prompt := f_system_prompt f;
  x_system_prompt_override := f_system_prompt_override f;
|}.

Lemma string_or_nil s : string_or [] (Some (JStr s)) = Some s.
Proof. rewrite string_or_text. unfold or_text. by destruct (truthy s) eqn:E; [|apply truthy_false in E as ->]. Qed.
Lemma flag_or_false_bool b : flag_or_false (Some (JBool b)) = Some b.
Proof. by destruct b. Qed.

Lemma protocol_cases : protocol = HTTP_PROTOCOL_HTTP1 ∨ protocol = HTTP_PROTOCOL_AUTO.
Proof. unfold normalizeHttpProtocol. destruct (_ === _); auto. Qed.
Lemma protocol_http1 : normalizeHttpProtocol toLowerCase HTTP_PROTOCOL_HTTP1 = HTTP_PROTOCOL_HTTP1.
Proof.
  unfold normalizeHttpProtocol. replace (trim HTTP_PROTOCOL_HTTP1) with HTTP_PROTOCOL_HTTP1 by (by vm_compute).
  by rewrite lower_http1, jeqb_refl.
Qed.
Lemma protocol_nil : normalizeHttpProtocol toLowerCase [] = HTTP_PROTOCOL_AUTO.
Proof. unfold normalizeHttpProtocol. by rewrite trim_nil, lower_nil. Qed.

(** The last field, if there is one. *)
Definition transport_field : list (jstr * json) :=
  if protocol === HTTP_PROTOCOL_HTTP1 then [(js "http_protocol", JStr HTTP_PROTOCOL_HTTP1)]
  else if num_ltb (num_of_Z 1) (normalizeHttp2ConnectionShards (f_http2_connection_shards f))
       then [(js "http2_connection_shards", JNum (normalizeHttp2ConnectionShards (f_http2_connection_shards f)))]
       else [].
Definition fixed_fields : list (jstr * json) :=
  [(js "force_format", JBool (f_force_format f)); (js "thinking_to_content", JBool (f_thinking_to_content f));
   (js "proxy", JStr (trim (f_proxy f))); (js "pass_through_body_enabled", JBool (f_pass_through_body_enabled f));
   (js "system_prompt", JStr (f_system_prompt f)); (js "system_prompt_override", JBool (f_system_prompt_override f))].
Definition plugin_field : option json :=
  if f_type f =? ChannelTypes.CHANNEL_TYPE_TASK_PLUGIN then Some (JStr (trim (f_task_plugin_key f))) else None.

Lemma setting_fields_parts :
  setting_fields toLowerCase f = opt_field "task_plugin_key" plugin_field ++ fixed_fields ++ transport_field.
Proof.
  unfold setting_fields, transport_field, fixed_fields, plugin_field. cbv zeta. f_equal. f_equal.
  by destruct (protocol === HTTP_PROTOCOL_HTTP1).
Qed.

Lemma setting_storable : plain_connection → storable (JObj (setting_fields toLowerCase f)).
Proof.
  intros [Ht Hp Hs Hd]. rewrite setting_fields_parts. apply storable_obj. split.
  - apply fromEntries_ordered, orderedb_true. unfold plugin_field, transport_field. rewrite !fmap_app.
    destruct (f_type f =? _); (destruct (protocol === HTTP_PROTOCOL_HTTP1); [|destruct (num_ltb _ _)]); vm_compute; done.
  - rewrite !list.Forall_app. split_and!.
    + unfold plugin_field. destruct (f_type f =? _); [|apply list.Forall_nil; exact I].
      apply list.Forall_singleton. split; [by apply unitsb_true; vm_compute|by apply units_trim].
    + unfold fixed_fields. repeat (apply list.Forall_cons; split); [..|by apply list.Forall_nil];
        (split; [by apply unitsb_true; vm_compute|]); first [exact I|by apply units_trim|exact Hs].
    + unfold transport_field. destruct (protocol === HTTP_PROTOCOL_HTTP1); [|destruct (num_ltb _ _)];
        [..|by apply list.Forall_nil]; apply list.Forall_singleton; (split; [by apply unitsb_true; vm_compute|]).
      * by apply unitsb_true; vm_compute.
      * by apply shards_storable.
Qed.

(** One of the fields before the last. *)
Lemma field_get_fixed k rest : field_get (js k) fixed_fields ≠ None →
  field_get (js k) (fixed_fields ++ rest) = field_get (js k) fixed_fields.
Proof.
  generalize fixed_fields. intros fs. induction fs as [|[k' v] fs IH]; [done|]. cbn [app field_get].
  destruct (k' === js k); [done|apply IH].
Qed.

Lemma read_transport : let fs := setting_fields toLowerCase f in
  ∃ p s, string_or [] (field_get (js "http_protocol") fs) = Some p ∧
         opt_number (field_get (js "http2_connection_shards") fs) = Some s ∧
         normalizeHttpProtocol toLowerCase p = protocol ∧
         (if protocol === HTTP_PROTOCOL_HTTP1 then num_of_Z 1 else normalizeHttp2ConnectionShards s)
         = x_http2_connection_shards chosen_extra.
Proof.
  cbv zeta. rewrite setting_fields_parts, !field_get_opt. known_keys.
  unfold fixed_fields. cbn [app field_get]. known_keys. unfold chosen_extra, transport_field. cbn [x_http2_connection_shards].
  destruct protocol_cases as [->| ->]; known_protocol.
  - exists HTTP_PROTOCOL_HTTP1, None. split_and!; try done. apply protocol_http1.
  - destruct (num_ltb (num_of_Z 1) _) eqn:E.
    + exists [], (Some (normalizeHttp2ConnectionShards (f_http2_connection_shards f))). split_and!; try done; [apply protocol_nil|].
      apply shards_idem.
    + exists [], None. split_and!; try done; [apply protocol_nil|]. symmetry.
      destruct (shards_range (f_http2_connection_shards f)) as (? & ? & ?). by apply one_unique.
Qed.

Lemma read_extra_setting : read_extra toLowerCase (JObj (setting_fields toLowerCase f)) = Some chosen_extra.
Proof.
  destruct read_transport as (p & s & Hp & Hs & Hn & Hx).
  unfold read_extra. cbn [jget]. rewrite Hp, Hs. cbn [mbind option_bind]. rewrite Hn, Hx.
  assert (∀ k v, js "task_plugin_key" === js k = false → field_get (js k) fixed_fields = Some v →
    field_get (js k) (setting_fields toLowerCase f) = Some v) as Hf.
  { intros k v Hk Hin. rewrite setting_fields_parts, field_get_opt, Hk, field_get_fixed; by rewrite Hin. }
  rewrite (Hf "force_format" _ eq_refl eq_refl), (Hf "thinking_to_content" _ eq_refl eq_refl), (Hf "proxy" _ eq_refl eq_refl),
    (Hf "pass_through_body_enabled" _ eq_refl eq_refl), (Hf "system_prompt" _ eq_refl eq_refl),
    (Hf "system_prompt_override" _ eq_refl eq_refl).
  rewrite setting_fields_parts, field_get_opt. known_keys.
  rewrite !flag_or_false_bool, !string_or_nil. cbn [mbind option_bind].
  assert (string_or [] match plugin_field with Some x => Some x
                       | None => field_get (js "task_plugin_key") (fixed_fields ++ transport_field) end
          = Some (x_task_plugin_key chosen_extra)) as ->; [|done].
  unfold plugin_field. cbn [chosen_extra x_task_plugin_key]. destruct (f_type f =? _); [apply string_or_nil|].
  unfold fixed_fields, transport_field. cbn [app field_get]. known_keys.
  destruct (protocol === HTTP_PROTOCOL_HTTP1); [|destruct (num_ltb _ _)]; cbn [field_get]; known_keys; done.
Qed.

(** A list of complaints is empty when none of them applies. *)
Lemma complain_nil b p m : complain b p m = [] → b = false.
Proof. by destruct b. Qed.

Lemma proxy_trimmed proxy_URL : isOptionalProxyURL proxy_URL (trim (f_proxy f)) = isOptionalProxyURL proxy_URL (f_proxy f).
Proof. unfold isOptionalProxyURL. by rewrite trim_idemp. Qed.

Lemma accepted_proxy proxy_URL : field_issues proxy_URL f = [] → isOptionalProxyURL proxy_URL (f_proxy f) = true.
Proof.
  unfold field_issues. intros H. repeat apply app_eq_nil in H as [_ H]. apply complain_nil in H. by destruct (isOptionalProxyURL _ _).
Qed.

Lemma accepted_shards URL : (∀ v, f_http2_connection_shards f = Some v → not_nan v = true) →
  cross_issues toLowerCase URL f = Some [] → x_http2_connection_shards chosen_extra = shards_of f.
Proof.
  unfold cross_issues. intros Hn H. apply bind_Some in H as (adv & _ & H). apply (inj Some) in H.
  do 7 apply app_eq_nil in H as [_ H]. apply app_eq_nil in H as [H1 H2].
  apply complain_nil, orb_false_iff in H1 as [H1 H8]. apply complain_nil in H2.
  cbn [chosen_extra x_http2_connection_shards]. destruct (protocol === HTTP_PROTOCOL_HTTP1).
  - symmetry. unfold shards_of in *. destruct (f_http2_connection_shards f) as [v|]; [|done].
    apply one_unique; [by apply Hn|exact H1|exact H2].
  - unfold shards_of in *. destruct (f_http2_connection_shards f) as [v|]; [|done].
    apply shards_kept; [by apply Hn|exact H1|exact H8].
Qed.

(** The connection settings read back: the text the form saves, opened again,
    gives the trimmed proxy and plugin, the flags and the prompt, the protocol and the
    number of connections; a form that was accepted keeps its number of
    connections as it is, and has one connection with HTTP/1.1. *)
Theorem saved_connection_reads_back proxy_URL URL :
  plain_connection → (∀ v, f_http2_connection_shards f = Some v → not_nan v = true) →
  read_text default_extra (read_extra toLowerCase) (buildSettingJSON toLowerCase f) = Some chosen_extra ∧
  (field_issues proxy_URL f = [] → cross_issues toLowerCase URL f = Some [] →
   x_http2_connection_shards chosen_extra = shards_of f ∧
   isOptionalProxyURL proxy_URL (x_proxy chosen_extra) = true).
Proof.
  intros Hp Hn. split.
  - unfold buildSettingJSON. rewrite read_object by (by apply setting_storable). apply read_extra_setting.
  - intros Hf Hc. split; [by eapply accepted_shards|]. cbn [chosen_extra x_proxy].
    rewrite proxy_trimmed. apply (accepted_proxy proxy_URL Hf).
Qed.
End connection.

(** ** The update that is sent *)

Definition cleaned (v : json) : json := match v with JStr [] => JNull | _ => v end.
Lemma field_get_clean k payload : field_get k (clean payload) = cleaned <$> field_get k payload.
Proof.
  induction payload as [|[k' v] payload IH]; [done|]. cbn [clean map field_get]. by destruct (k' === k).
Qed.

(** The fields whose empty value the server must see, with their values. *)
Definition clearable (f : ChannelFormValues) : list (string * jstr) :=
  [("base_url", normalizeBaseUrl (f_base_url f)); ("openai_organization", f_openai_organization f);
   ("test_model", f_test_model f); ("tag", f_tag f); ("remark", f_remark f);
   ("model_mapping", f_model_mapping f); ("status_code_mapping", f_status_code_mapping f);
   ("param_override", f_param_override f); ("header_override", f_header_override f)]%string.
Definition clearable_actions (f : ChannelFormValues) : list (jstr * action) :=
  map (λ '(k, v), (js k, Put (JStr v))) (clearable f).
Definition clearable_keys : list jstr := map js
  ["base_url"; "openai_organization"; "test_model"; "tag"; "remark"; "model_mapping"; "status_code_mapping";
   "param_override"; "header_override"]%string.
Lemma clearable_NoDup f : NoDup (clearable_actions f).*1.
Proof. change (NoDup clearable_keys). apply (bool_decide_unpack _). vm_compute. done. Qed.

Section update.
Context (toLowerCase : jstr → jstr) (f : ChannelFormValues) (channelId : Z).

(** [C18] The update of a channel: a key is sent only if one was typed, so saving
    never erases the stored key; the status is never sent; the nine optional
    texts are always sent, empty when they were emptied, so that they can be
    cleared; the two JSON texts are those the form builds. *)
Theorem update_payload_spec payload : transformFormDataToUpdatePayload toLowerCase f channelId = Some payload →
  field_get (js "key") payload = (if blank (f_key f) then None else Some (JStr (f_key f))) ∧
  field_get (js "status") payload = None ∧
  (∀ k v, (k, v) ∈ clearable f → field_get (js k) payload = Some (JStr v)) ∧
  field_get (js "setting") payload = Some (JStr (buildSettingJSON toLowerCase f)) ∧
  ∃ text, buildSettingsJSON f = Some text ∧ field_get (js "settings") payload = Some (JStr text).
Proof.
  unfold transformFormDataToUpdatePayload. intros H. apply bind_Some in H as (text & Ht & H). apply (inj Some) in H as <-.
  match goal with |- context [foldl _ ?p _] => set (base := p) end.
  change (foldl _ base _) with (foldl act_on base (clearable_actions f)).
  assert (∀ k, k ∉ clearable_keys → field_get k (foldl act_on base (clearable_actions f)) = field_get k base) as Hother.
  { intros k Hk. rewrite field_get_actions by apply clearable_NoDup.
    destruct (field_get k (clearable_actions f)) as [a|] eqn:E; [|done]. destruct Hk.
    change clearable_keys with (clearable_actions f).*1. apply field_get_keys. by eexists. }
  assert (∀ k, bool_decide (k ∉ clearable_keys) = true → field_get k (foldl act_on base (clearable_actions f)) = field_get k base)
    as Ho by (intros k Hk; apply Hother; by apply bool_decide_eq_true in Hk).
  split_and!.
  - rewrite Ho by (vm_compute; done). subst base. rewrite field_get_clean. unfold blank.
    destruct (truthy (trim (f_key f))) eqn:Ek.
    + assert (truthy (f_key f) = true) as -> by (by destruct (f_key f)). cbn [andb negb].
      rewrite field_get_set, decide_True by done. cbn [fmap option_fmap option_map cleaned]. by destruct (f_key f).
    + rewrite andb_false_r. cbn [negb]. done.
  - rewrite Ho by (vm_compute; done). subst base. rewrite field_get_clean. destruct (_ && _); [|done].
    by rewrite field_get_set, decide_False by done.
  - intros k v Hkv. rewrite field_get_actions by apply clearable_NoDup.
    unfold clearable in Hkv. repeat (apply elem_of_cons in Hkv as [[= -> ->]|Hkv]; [done|]). by apply elem_of_nil in Hkv.
  - rewrite Ho by (vm_compute; done). subst base. rewrite field_get_clean.
    destruct (_ && _); [rewrite field_get_set, decide_False by done|]; done.
  - exists text. split; [done|]. rewrite Ho by (vm_compute; done). subst base. rewrite field_get_clean.
    assert (cleaned (JStr text) = JStr text) as Ec.
    { unfold buildSettingsJSON in Ht. apply bind_Some in Ht as (obj & _ & Ht). apply bind_Some in Ht as (fs & _ & Ht).
      apply (inj Some) in Ht as <-. done. }
    transitivity (Some (cleaned (JStr text))); [|by rewrite Ec].
    destruct (_ && _); [rewrite field_get_set, decide_False by done|]; done.
Qed.
End update.

(** ** An instance *)

Definition demo_channel : ChannelTypes.Channel := {|
  ChannelTypes.id := 7; ChannelTypes.type := 1; ChannelTypes.key := []; ChannelTypes.openai_organization := None;
  ChannelTypes.test_model := None; ChannelTypes.status := 1; ChannelTypes.name := js "main";
  ChannelTypes.weight := None; ChannelTypes.created_time := num_of_Z 0; ChannelTypes.test_time := num_of_Z 0;
  ChannelTypes.response_time := num_of_Z 0; ChannelTypes.base_url := Some (js "https://x/"); ChannelTypes.other := [];
  ChannelTypes.balance := num_of_Z 0; ChannelTypes.balance_updated_time := num_of_Z 0;
  ChannelTypes.models := js "a,b"; ChannelTypes.group := js "default"; ChannelTypes.used_quota := num_of_Z 0;
  ChannelTypes.model_mapping := None; ChannelTypes.status_code_mapping := None; ChannelTypes.priority := None;
  ChannelTypes.auto_ban := None; ChannelTypes.other_info := []; ChannelTypes.tag := None;
  ChannelTypes.setting := Some (jq "{'http2_connection_shards':4,'proxy':' '}");
  ChannelTypes.param_override := None; ChannelTypes.header_override := None; ChannelTypes.remark := [];
  ChannelTypes.max_input_tokens := num_of_Z 0;
  ChannelTypes.channel_info := ChannelTypes.mkInfo false 0 None (js "random");
  ChannelTypes.settings := jq "{'custom':1,'disable_store':true,'aws_key_type':'api_key'}";
|}.
Definition demo_form : ChannelFormValues :=
  default CHANNEL_FORM_DEFAULT_VALUES (transformChannelToFormDefaults (λ s, s) demo_channel).
Definition demo_obj : list (jstr * json) := default [] (existing_settings demo_form).
Definition demo_text : jstr := default [] (buildSettingsJSON demo_form).

Lemma saved_settings_read_back_witness :
  demo_text = jq "{'custom':1,'disable_store':true,'allow_service_tier':false,'allow_safety_identifier':false,'allow_include_obfuscation':false,'allow_inference_geo':false,'disable_task_polling_sleep':false,'upstream_model_update_check_enabled':false,'upstream_model_update_auto_sync_enabled':false,'upstream_model_update_ignored_models':[],'upstream_model_update_last_detected_models':[],'upstream_model_update_last_check_time':0}" ∧
  read_text default_other read_other demo_text = Some (chosen demo_form demo_obj [] []).
Proof.
  split; [vm_compute; reflexivity|].
  apply (saved_settings_read_back demo_form demo_obj demo_text [] []).
  - vm_compute. reflexivity.
  - apply storableb_true. vm_compute. reflexivity.
  - split; try (apply unitsb_true; vm_compute; reflexivity). intros c Hc. vm_compute in Hc. discriminate Hc.
  - vm_compute. reflexivity.
  - vm_compute. reflexivity.
  - vm_compute. reflexivity.
Defined.

Lemma saved_connection_reads_back_witness :
  read_text default_extra (read_extra (λ s, s)) (buildSettingJSON (λ s, s) demo_form)
  = Some (chosen_extra (λ s, s) demo_form).
Proof.
  apply (saved_connection_reads_back (λ s, s) eq_refl eq_refl demo_form (λ _, None) (λ _, None)).
  - split; try (apply unitsb_true; vm_compute; reflexivity). intros v Hv. vm_compute in Hv. injection Hv as <-. vm_compute. reflexivity.
  - intros v Hv. vm_compute in Hv. injection Hv as <-. vm_compute. reflexivity.
Defined.

Lemma update_payload_spec_witness :
  field_get (js "key") (default [] (transformFormDataToUpdatePayload (λ s, s) demo_form 7)) = None.
Proof.
  apply (update_payload_spec (λ s, s) demo_form 7). vm_compute. reflexivity.
Defined.
