(* ===== verification/ChannelUtils.v ===== *)
(** * Channel utilities

    Models [features/channels/lib/channel-utils.ts], the tables of
    [features/channels/constants.ts] it uses and
    [features/channels/lib/channel-field-update.ts]: labels, keys, groups, the
    signs of trouble, the rows of the tag view, and the delayed update of a field.
    [localeCompare], the translation, the clock and the formats of [Intl] are
    parameters. *)

From stdpp Require Import sorting.
From S2P Require Import Prelude StableSort JsValue NumFacts JsCollections ChannelForm.

Module ChannelUtils.
Import ChannelTypes.

(** ** Tables *)

Definition CHANNEL_TYPES : list (Z * jstr) := [
  (0, js "Unknown"); (1, js "OpenAI"); (2, js "MjProxy"); (3, js "Azure"); (4, js "Ollama");
  (5, js "MjProxyPlus"); (7, js "OhMyGPT"); (8, js "Custom"); (14, js "Anthropic"); (15, js "Baidu");
  (16, js "Zhipu"); (17, js "Ali"); (18, js "Xunfei"); (19, js "360"); (20, js "OpenRouter");
  (22, js "FastGPT"); (23, js "Tencent"); (24, js "Gemini"); (25, js "Moonshot"); (26, js "Zhipu V4");
  (27, js "Perplexity"); (31, js "LingYiWanWu"); (33, js "AWS"); (34, js "Cohere"); (35, js "MiniMax");
  (36, js "SunoAPI"); (37, js "Dify"); (38, js "Jina"); (39, js "Cloudflare"); (40, js "SiliconFlow");
  (41, js "Vertex AI"); (42, js "Mistral"); (43, js "DeepSeek"); (44, js "MokaAI"); (45, js "VolcEngine");
  (46, js "Baidu V2"); (47, js "Xinference"); (48, js "xAI"); (49, js "Coze"); (50, js "Kling");
  (51, js "Jimeng"); (52, js "Vidu"); (53, js "Submodel"); (54, js "DoubaoVideo"); (55, js "Sora");
  (56, js "Replicate"); (57, js "ChatGPT Subscription (Codex)"); (58, js "Advanced Custom");
  (59, js "Sub2API"); (60, js "New API"); (61, js "Task Plugin")].

Definition CHANNEL_TYPE_DISPLAY_ORDER : list Z :=
  [1; 14; 33; 24; 43; 3; 41; 48; 60; 58; 61; 42; 34; 20; 4; 40; 27; 25; 17; 26; 15; 46; 23; 18; 45; 31; 35; 49; 19; 47; 37; 38; 39; 11; 8; 57; 59; 22; 21; 44; 2; 5; 36; 50; 51; 52; 53; 54; 55; 56].

Definition TYPE_TO_ICON : list (Z * jstr) := [
  (1, js "OpenAI"); (2, js "Midjourney"); (3, js "Azure"); (4, js "Ollama"); (5, js "Midjourney");
  (6, js "OpenAI"); (7, js "OpenAI"); (8, js "OpenAI"); (9, js "OpenAI"); (10, js "OpenAI");
  (11, js "Google"); (12, js "OpenAI"); (13, js "OpenAI"); (14, js "Claude"); (15, js "Baidu");
  (16, js "Zhipu"); (17, js "Qwen"); (18, js "Spark"); (19, js "Ai360"); (20, js "OpenRouter");
  (21, js "OpenAI"); (22, js "FastGPT"); (23, js "Hunyuan"); (24, js "Gemini"); (25, js "Moonshot");
  (26, js "Zhipu"); (27, js "Perplexity"); (31, js "Yi"); (33, js "Aws"); (34, js "Cohere");
  (35, js "Minimax"); (36, js "Suno"); (37, js "Dify"); (38, js "Jina"); (39, js "Cloudflare");
  (40, js "SiliconCloud"); (41, js "Gemini"); (42, js "Mistral"); (43, js "DeepSeek"); (44, js "OpenAI");
  (45, js "Volcengine"); (46, js "Baidu"); (47, js "Xinference"); (48, js "XAI"); (49, js "Coze");
  (50, js "Kling"); (51, js "Jimeng"); (52, js "Vidu"); (53, js "OpenAI"); (54, js "Doubao");
  (55, js "OpenAI"); (56, js "Replicate"); (58, js "NewAPI"); (59, js "Sub2API"); (60, js "NewAPI")].

Definition TYPE_TO_KEY_PROMPT : list (Z * jstr) := [
  (15, js "Format: APIKey|SecretKey"); (18, js "Format: APPID|APISecret|APIKey");
  (22, js "Format: APIKey-AppId, e.g., fastgpt-0sp2gtvfdgyi4k30jwlgwf1i-64f335d84283f05518e9e041");
  (23, js "Format: TokenHub API Key, or legacy AppId|SecretId|SecretKey"); (33, js "Format: Ak|Sk|Region");
  (50, js "Format: AccessKey|SecretKey (or just ApiKey if upstream is New API)");
  (51, js "Format: Access Key ID|Secret Access Key");
  (57, js "Paste Codex OAuth JSON credential (access_token / refresh_token / account_id)");
  (59, js "Enter API key for this channel"); (60, js "Enter API key for this channel")].

Definition table_get (t : list (Z * jstr)) (k : Z) : option jstr := snd <$> List.find (λ e, e.1 =? k) t.

Definition getChannelTypeLabel (type : Z) : jstr := default (js "Unknown") (table_get CHANNEL_TYPES type).
Definition getChannelTypeIcon (type : Z) : jstr := default (js "OpenAI") (table_get TYPE_TO_ICON type).
Definition getKeyPromptForType (type : Z) : jstr :=
  default (js "Enter API key for this channel") (table_get TYPE_TO_KEY_PROMPT type).

(** The types in display order, then those the order does not name. *)
Definition CHANNEL_TYPE_OPTIONS : list (Z * jstr) :=
  let ordered := omap (λ id, pair id <$> table_get CHANNEL_TYPES id) CHANNEL_TYPE_DISPLAY_ORDER in
  ordered ++ filter (λ e, e.1 ≠ 0 ∧ e.1 ∉ ordered.*1) CHANNEL_TYPES.
Definition channelTypeOptionsForTaskPluginBind (canBindTaskPlugin : bool) : list (Z * jstr) :=
  if canBindTaskPlugin then CHANNEL_TYPE_OPTIONS
  else filter (λ e, e.1 ≠ CHANNEL_TYPE_TASK_PLUGIN) CHANNEL_TYPE_OPTIONS.

(** ** Status *)

Record Badge := mkBadge { variant : jstr; label : jstr }.
Definition CHANNEL_STATUS_CONFIG (status : Z) : option Badge :=
  if status =? 0 then Some (mkBadge (js "neutral") (js "Unknown"))
  else if status =? 1 then Some (mkBadge (js "success") (js "Enabled"))
  else if status =? 2 then Some (mkBadge (js "danger") (js "Disabled"))
  else if status =? 3 then Some (mkBadge (js "warning") (js "Auto Disabled")) else None.
Definition getChannelStatusBadge (status : Z) : Badge :=
  default (mkBadge (js "neutral") (js "Unknown")) (CHANNEL_STATUS_CONFIG status).
Definition MULTI_KEY_STATUS_CONFIG (status : Z) : option Badge :=
  if status =? 1 then Some (mkBadge (js "success") (js "Enabled"))
  else if status =? 2 then Some (mkBadge (js "neutral") (js "Manual Disabled"))
  else if status =? 3 then Some (mkBadge (js "danger") (js "Auto Disabled")) else None.
Definition getMultiKeyStatusBadge (status : Z) : Badge :=
  default (mkBadge (js "success") (js "Enabled")) (MULTI_KEY_STATUS_CONFIG status).
Definition isChannelEnabled (c : Channel) : bool := status c =? 1.
Definition isMultiKeyChannel (c : Channel) : bool := is_multi_key (channel_info c).

(** ** Keys *)

(** [s.slice(0, n)] and [s.slice(-n)] *)
Definition slice_last (n : nat) (s : jstr) : jstr := drop (length s - n) s.
Definition key_lines (key : jstr) : list jstr := filter (λ k, trim k ≠ []) (split1 10%N key).
Definition formatChannelKey (key : jstr) (isMultiKey : bool) : jstr :=
  if negb (truthy key) then []
  else if isMultiKey then digits (N.of_nat (length (key_lines key))) ++ js " keys"
  else if bool_decide (length key ≤ 16)%nat then take 4 key ++ js "..." ++ slice_last 4 key
  else take 8 key ++ js "..." ++ slice_last 8 key.
Definition formatKeyPreview (key : jstr) (maxLength : nat) : jstr :=
  if negb (truthy key) then [] else if bool_decide (length key ≤ maxLength)%nat then key
  else take maxLength key ++ js "...".
Definition countKeys (key : jstr) : nat := if negb (truthy key) then 0%nat else length (key_lines key).

Record Deduplicated := mkDeduplicated {
  deduplicatedText : jstr; beforeCount : nat; afterCount : nat; removedCount : nat;
}.
(** The loop over the lines with its set. *)
Definition add_key (acc : list jstr) (line : jstr) : list jstr :=
  let trimmedLine := trim line in
  if truthy trimmedLine && negb (bool_decide (trimmedLine ∈ acc)) then acc ++ [trimmedLine] else acc.
Definition deduplicateKeys (keysText : jstr) : Deduplicated :=
  if negb (truthy keysText) || (trim keysText === []) then mkDeduplicated [] 0 0 0
  else
    let keyLines := split1 10%N keysText in
    let deduplicatedKeys := foldl add_key [] keyLines in
    mkDeduplicated (join [10%N] deduplicatedKeys) (length keyLines) (length deduplicatedKeys)
      (length keyLines - length deduplicatedKeys).

(** ** Models and groups *)

Definition parseModelsList (models : jstr) : list jstr := ChannelForm.parseModels models.
Definition formatModelsString (models : list jstr) : jstr := join (js ",") models.
Definition formatGroupsString (groups : list jstr) : jstr := join (js ",") groups.

Definition validateChannelSettings (settings : jstr) : bool := ChannelForm.validateJSON settings.
Definition validateChannelName (name : jstr) : bool := truthy (trim name).
Definition validateApiKey (key : jstr) : bool := truthy (trim key).
Definition validateModels (models : jstr) : bool := bool_decide (parseModelsList models ≠ []).

(** [JSON.parse], with the empty object for what does not parse. *)
Definition parseChannelSettings (settingStr : option jstr) : json :=
  let s := default [] settingStr in
  if negb (truthy s) then JObj [] else default (JObj []) (JSON_parse s).
Definition parseChannelOtherSettings (settingsStr : option jstr) : json :=
  let s := default [] settingsStr in
  if negb (truthy s) || (s === js "{}") then JObj [] else default (JObj []) (JSON_parse s).

Section locale.
Context (localeCompare : jstr → jstr → Z).
Definition group_order (a b : jstr) : Z :=
  if a === js "default" then -1 else if b === js "default" then 1 else localeCompare a b.
Definition parseGroupsList (groups : jstr) : list jstr := sort_by group_order (ChannelForm.parseGroups groups).
Definition validateGroups (groups : jstr) : bool := bool_decide (parseGroupsList groups ≠ []).
End locale.

(** ** Numbers *)

Definition getBalanceVariant (balance : jsnum) : jstr :=
  if num_eqb balance (num_of_Z 0) then js "neutral"
  else if num_ltb balance (num_of_Z 1) then js "danger"
  else if num_ltb balance (num_of_Z 10) then js "warning" else js "success".

Definition formatResponseTime (timeMs : jsnum) : jstr :=
  if num_eqb timeMs (num_of_Z 0) then js "Not tested"
  else if num_ltb timeMs (num_of_Z 1000) then num_to_string timeMs ++ js "ms"
  else toFixed 2 (num_div timeMs (num_of_Z 1000)) ++ js "s".

Definition getResponseTimeConfig (timeMs : jsnum) : Badge :=
  if num_eqb timeMs (num_of_Z 0) then mkBadge (js "neutral") (js "Not tested")
  else if num_leb timeMs (num_of_Z 500) then mkBadge (js "success") (js "Excellent")
  else if num_leb timeMs (num_of_Z 1000) then mkBadge (js "success") (js "Good")
  else if num_leb timeMs (num_of_Z 2000) then mkBadge (js "warning") (js "Fair")
  else mkBadge (js "danger") (js "Poor").

(** The value and the unit handed to [Intl.RelativeTimeFormat]; [now] is
    [Date.now() / 1000].  [None] is the text [Never]. *)
Definition relative_time (now timestamp : jsnum) : option (jsnum * jstr) :=
  if negb (num_truthy timestamp) then None
  else
    let diffSec := SFsub 53 1024 timestamp now in
    let absSec := SFabs diffSec in
    let in_units n := num_round (num_div diffSec (num_of_Z n)) in
    Some (if num_ltb absSec (num_of_Z 60) then (num_round diffSec, js "second")
          else if num_ltb absSec (num_of_Z 3600) then (in_units 60, js "minute")
          else if num_ltb absSec (num_of_Z 86400) then (in_units 3600, js "hour")
          else if num_ltb absSec (num_of_Z 2592000) then (in_units 86400, js "day")
          else if num_ltb absSec (num_of_Z 31536000) then (in_units 2592000, js "month")
          else (in_units 31536000, js "year")).

Definition getPriorityDisplay (priority : option jsnum) : jstr := from_option num_to_string (js "0") priority.
Definition getWeightDisplay (weight : option jsnum) : jstr := from_option num_to_string (js "0") weight.

(** ** Attention *)

Definition low_balance (c : Channel) : bool :=
  num_ltb (num_of_Z 0) (balance c) && num_ltb (balance c) (num_of_Z 1).
Definition all_keys_disabled (c : Channel) : bool :=
  let info := channel_info c in
  is_multi_key info &&
  match multi_key_status_list info with Some l => multi_key_size info <=? Z.of_nat (length l) | None => false end.

Definition channelNeedsAttention (c : Channel) : bool :=
  if status c =? 3 then true else if low_balance c then true else all_keys_disabled c.
Definition getAttentionReason (c : Channel) : option jstr :=
  if status c =? 3 then Some (js "Auto-disabled")
  else if low_balance c then Some (js "Low balance")
  else if all_keys_disabled c then Some (js "All keys disabled") else None.

(** ** The tag view *)

(** A row of the tag view.  Its key, id and name are its tag; its type, balance
    and times are 0, its models empty; the rest is the first channel's. *)
Record TagRow := mkRow {
  t_first : Channel; t_tag : jstr; t_status : option Z; t_group : jstr; t_used_quota : jsnum;
  t_response_time : jsnum; t_priority : option jsnum; t_weight : option jsnum; t_children : list Channel;
}.

Definition tag_of (c : Channel) : jstr := default [] (tag c).
Definition unset : option jsnum := Some (num_of_Z (-1)).
Definition new_row (c : Channel) : TagRow :=
  mkRow c (tag_of c) None [] (num_of_Z 0) (num_of_Z 0) unset unset [].

(** [a === b] on [number | null]. *)
Definition same_value (a b : option jsnum) : bool :=
  match a, b with Some x, Some y => num_eqb x y | None, None => true | _, _ => false end.
Definition merge_value (row child : option jsnum) : option jsnum :=
  if same_value row unset then child else if same_value row child then row else None.

Definition group_words (g : jstr) : list jstr := filter_truthy (split1 44%N g).
(** [existingGroups] is computed once, before the loop. *)
Definition merge_group (row child : jstr) : jstr :=
  if row === [] then child
  else
    let existingGroups := group_words row in
    foldl (λ acc g, if bool_decide (g ∈ existingGroups) then acc else acc ++ js "," ++ g) row (group_words child).

Definition merge_status (row : option Z) (child : Z) : option Z :=
  if child =? 1 then Some 1 else match row with None => Some child | Some _ => row end.

Definition merge (row : TagRow) (c : Channel) : TagRow :=
  let children := t_children row ++ [c] in
  let childCount := Z.of_nat (length children) in
  mkRow (t_first row) (t_tag row) (merge_status (t_status row) (status c)) (merge_group (t_group row) (group c))
    (num_add (t_used_quota row) (used_quota c))
    (num_div (num_add (num_mul (t_response_time row) (num_of_Z (childCount - 1))) (response_time c))
       (num_of_Z childCount))
    (merge_value (t_priority row) (priority c)) (merge_value (t_weight row) (weight c)) children.

(** The rows, which the map and the result share, in order of insertion. *)
Definition add_channel (rows : list TagRow) (c : Channel) : list TagRow :=
  let rows := if existsb (λ r, t_tag r === tag_of c) rows then rows else rows ++ [new_row c] in
  map (λ r, if t_tag r === tag_of c then merge r c else r) rows.
Definition aggregateChannelsByTag (channels : list Channel) : list TagRow := foldl add_channel [] channels.

(** A row of the table is a channel or a tag. *)
Definition getChannelTableRowId (row : Channel + TagRow) : jstr :=
  match row with
  | inr r => js "tag:" ++ t_tag r
  | inl c => js "channel:" ++ num_to_string (num_of_Z (id c))
  end.

End ChannelUtils.

(** ** channel-field-update.ts *)
Module FieldUpdate.

(** Timers are numbers that are never used again; [live] are those that can still
    fire, [updates] the values handed to [onUpdate]. *)
Record scheduler := mkScheduler {
  timeoutId : option nat; pendingValue : option jsnum; live : list nat; next_id : nat; updates : list jsnum;
}.
Definition start : scheduler := mkScheduler None None [] 0 [].

Definition clearPendingTimer (s : scheduler) : scheduler :=
  match timeoutId s with
  | None => s
  | Some i => mkScheduler None (pendingValue s) (filter (λ j, j ≠ i) (live s)) (next_id s) (updates s)
  end.
Definition commitPendingValue (s : scheduler) : scheduler :=
  let s := clearPendingTimer s in
  match pendingValue s with
  | None => s
  | Some v => mkScheduler (timeoutId s) None (live s) (next_id s) (updates s ++ [v])
  end.
Definition schedule (v : jsnum) (s : scheduler) : scheduler :=
  let s := clearPendingTimer s in
  mkScheduler (Some (next_id s)) (Some v) (next_id s :: live s) (S (next_id s)) (updates s).
Definition flush : scheduler → scheduler := commitPendingValue.
(** A timer that is due is removed and its callback runs. *)
Definition fire (i : nat) (s : scheduler) : option scheduler :=
  if bool_decide (i ∈ live s)
  then Some (commitPendingValue
               (mkScheduler (timeoutId s) (pendingValue s) (filter (λ j, j ≠ i) (live s)) (next_id s) (updates s)))
  else None.

Inductive event := Schedule (v : jsnum) | Flush | Fire (i : nat).
Definition step (e : event) (s : scheduler) : option scheduler :=
  match e with Schedule v => Some (schedule v s) | Flush => Some (flush s) | Fire i => fire i s end.
Fixpoint run (es : list event) (s : scheduler) : option scheduler :=
  match es with [] => Some s | e :: es => s' ← step e s; run es s' end.

End FieldUpdate.
