(* ===== verification/ChannelUtilsFacts.v ===== *)
(** * Facts about the channel utilities

    The tag view lists each tag once and sums up exactly its channels; removing
    duplicate keys keeps every key once, in order, and is idempotent; the
    default group comes first; the delayed update of a field hands on the
    last value of each burst, once. *)

From stdpp Require Import sorting.
From S2P Require Import Prelude StableSort JsValue NumFacts JsCollections Comparators ChannelForm ChannelUtils.
Import ChannelTypes ChannelUtils.

(** ** The tag view *)

(** The row of the channels of one tag. *)
Definition tag_row (cs : list Channel) : option TagRow :=
  match cs with [] => None | c :: _ => Some (foldl merge (new_row c) cs) end.
Definition tagged (t : jstr) (chs : list Channel) : list Channel := filter (λ c, tag_of c = t) chs.

Lemma tag_row_snoc cs r c : tag_row cs = Some r → tag_row (cs ++ [c]) = Some (merge r c).
Proof. destruct cs as [|c0 cs]; [done|]. intros [= <-]. cbn [tag_row app]. rewrite app_comm_cons, foldl_app. done. Qed.

Lemma foldl_merge_tag cs r : t_tag (foldl merge r cs) = t_tag r.
Proof. revert r. induction cs as [|c cs IH]; intros r; [done|]. cbn [foldl]. by rewrite IH. Qed.

Lemma dedup_snoc {A} `{EqDecision A} (l : list A) x : dedup (l ++ [x]) = if bool_decide (x ∈ l) then dedup l else dedup l ++ [x].
Proof.
  unfold dedup. assert (∀ seen, dedup_go seen (l ++ [x]) =
    if bool_decide (x ∈ l ∨ x ∈ seen) then dedup_go seen l else dedup_go seen l ++ [x]) as Hgo.
  { induction l as [|y l IH]; intros seen; cbn [app dedup_go].
    - destruct (decide (x ∈ seen)); case_bool_decide; try done; exfalso; set_solver.
    - destruct (decide (y ∈ seen)); rewrite IH; repeat case_bool_decide; try done; exfalso; set_solver. }
  rewrite Hgo. repeat case_bool_decide; try done; exfalso; set_solver.
Qed.

Lemma existsb_tag rows t : existsb (λ r, t_tag r === t) rows = bool_decide (t ∈ map t_tag rows).
Proof.
  apply eq_bool_prop_intro. rewrite bool_decide_spec. rewrite Is_true_true, existsb_exists, list_elem_of_In, in_map_iff.
  split; intros (r & H1 & H2); exists r; split; try done; by apply jeqb_true.
Qed.

(** What the view promises of its rows. *)
Definition summed (chs : list Channel) (rows : list TagRow) : Prop :=
  map t_tag rows = dedup (map tag_of chs) ∧ ∀ r, r ∈ rows → tag_row (tagged (t_tag r) chs) = Some r.

Lemma tagged_snoc t chs c : tagged t (chs ++ [c]) = if decide (tag_of c = t) then tagged t chs ++ [c] else tagged t chs.
Proof. unfold tagged. rewrite list.filter_app, filter_cons. by destruct (decide _); [|rewrite app_nil_r]. Qed.

Lemma summed_add chs rows c : summed chs rows → summed (chs ++ [c]) (add_channel rows c).
Proof.
  intros [Ht Hr]. unfold add_channel. rewrite existsb_tag, Ht.
  assert (bool_decide (tag_of c ∈ dedup (map tag_of chs)) = bool_decide (tag_of c ∈ map tag_of chs)) as ->.
  { apply bool_decide_ext. apply dedup_elem. }
  set (rows' := if bool_decide (tag_of c ∈ map tag_of chs) then rows else rows ++ [new_row c]).
  assert (∀ r, r ∈ rows' → tag_row (tagged (t_tag r) (chs ++ [c])) = Some (if t_tag r === tag_of c then merge r c else r)) as Hrows.
  { intros r Hin. rewrite tagged_snoc. subst rows'.
    destruct (bool_decide_reflect (tag_of c ∈ map tag_of chs)) as [Hc|Hc].
    - destruct (decide (tag_of c = t_tag r)) as [E|E].
      + rewrite <-E, jeqb_refl. apply tag_row_snoc. rewrite E. by apply Hr.
      + rewrite jeqb_neq by congruence. by apply Hr.
    - apply elem_of_app in Hin as [Hin|Hin%list_elem_of_singleton].
      + assert (tag_of c ≠ t_tag r) as E.
        { intros E. apply Hc. rewrite E. apply dedup_elem. rewrite <-Ht. apply list_elem_of_In, in_map, list_elem_of_In, Hin. }
        rewrite decide_False, jeqb_neq by congruence. by apply Hr.
      + subst r. cbn [new_row t_tag]. rewrite decide_True, jeqb_refl by done.
        assert (tagged (tag_of c) chs = []) as ->; [|done].
        unfold tagged. apply filter_absent, list.Forall_forall. intros x Hx Hxc. apply Hc. rewrite <-Hxc. by apply list_elem_of_In, in_map, list_elem_of_In. }
  split.
  - rewrite (map_app tag_of), (dedup_snoc (map tag_of chs) (tag_of c)).
    assert (map t_tag (map (λ r, if t_tag r === tag_of c then merge r c else r) rows') = map t_tag rows') as ->.
    { rewrite map_map. apply map_ext. intros r. by destruct (_ === _). }
    subst rows'. case_bool_decide; [done|]. by rewrite map_app, Ht.
  - intros r Hin. apply list_elem_of_In, in_map_iff in Hin as (r0 & <- & Hin). apply list_elem_of_In in Hin.
    assert (t_tag (if t_tag r0 === tag_of c then merge r0 c else r0) = t_tag r0) as -> by (by destruct (_ === _)).
    by apply Hrows.
Qed.

Lemma aggregate_summed chs : summed chs (aggregateChannelsByTag chs).
Proof.
  induction chs as [|c chs IH] using rev_ind.
  - split; [done|]. by intros r ?%elem_of_nil.
  - unfold aggregateChannelsByTag. rewrite foldl_app. by apply summed_add.
Qed.

(** *** The sums of one row *)

Lemma foldl_merge_fields cs r : let r' := foldl merge r cs in
  t_children r' = t_children r ++ cs ∧
  t_used_quota r' = foldl num_add (t_used_quota r) (map used_quota cs) ∧
  t_status r' = foldl merge_status (t_status r) (map status cs) ∧
  t_priority r' = foldl merge_value (t_priority r) (map priority cs) ∧
  t_weight r' = foldl merge_value (t_weight r) (map weight cs) ∧
  t_group r' = foldl merge_group (t_group r) (map group cs).
Proof.
  revert r. induction cs as [|c cs IH]; intros r; cbn [foldl map].
  - by rewrite app_nil_r.
  - destruct (IH (merge r c)) as (-> & -> & -> & -> & -> & ->). split_and!; try done. cbn [merge t_children]. by rewrite <-app_assoc.
Qed.

Lemma merge_status_spec s ss : foldl merge_status (Some s) ss = Some (if existsb (λ x, x =? 1) ss then 1 else s).
Proof.
  revert s. induction ss as [|x ss IH]; intros s; [done|]. cbn [foldl existsb]. unfold merge_status at 2.
  destruct (Z.eqb_spec x 1); cbn [orb]; rewrite IH; [|done]. by destruct (existsb _ ss).
Qed.
Lemma merge_status_first s ss : foldl merge_status None (s :: ss) = Some (if existsb (λ x, x =? 1) (s :: ss) then 1 else s).
Proof.
  cbn [foldl existsb]. unfold merge_status at 2. destruct (Z.eqb_spec s 1) as [->|]; cbn [orb]; rewrite merge_status_spec; [|done].
  by destruct (existsb _ ss).
Qed.

Lemma existsb_map {A B} (f : A → B) P l : existsb P (map f l) = existsb (λ x, P (f x)) l.
Proof. induction l as [|x l IH]; [done|]. cbn [map existsb]. by rewrite IH. Qed.

(** The value all children share, if they do. *)
Definition common (v : option jsnum) (vs : list (option jsnum)) : option jsnum :=
  if forallb (same_value v) vs then v else None.

Lemma merge_value_null vs : foldl merge_value None vs = None.
Proof. induction vs as [|v vs IH]; [done|]. cbn [foldl]. by destruct v. Qed.
Lemma merge_value_spec v vs : same_value v unset = false → foldl merge_value v vs = common v vs.
Proof.
  intros Hv. unfold common. induction vs as [|x vs IH]; [done|]. cbn [foldl forallb]. unfold merge_value at 2.
  rewrite Hv. destruct (same_value v x); [done|]. cbn [andb]. apply merge_value_null.
Qed.
Lemma merge_value_first v vs : same_value v unset = false → foldl merge_value unset (v :: vs) = common v vs.
Proof.
  intros Hv. cbn [foldl]. unfold merge_value at 2.
  replace (same_value unset unset) with true by (vm_compute; done). by apply merge_value_spec.
Qed.

(** The tag view: it has one row for each tag, in the order in which the tags
    first occur; a row holds exactly the channels of its tag, in order, and the
    sum of their quotas; it is enabled if one of them is, and has the status of
    the first otherwise; its priority and weight are the common value of its
    channels, or empty when they differ (as long as none of them is -1, the
    mark of a fresh row). *)
Theorem tag_rows_sum_up chs : let rows := aggregateChannelsByTag chs in
  map t_tag rows = dedup (map tag_of chs) ∧
  ∀ r, r ∈ rows → ∃ c cs, t_children r = c :: cs ∧ c :: cs = filter (λ c, tag_of c = t_tag r) chs ∧
    t_used_quota r = foldl num_add (num_of_Z 0) (map used_quota (c :: cs)) ∧
    t_status r = Some (if existsb (λ c, status c =? 1) (c :: cs) then 1 else status c) ∧
    (same_value (priority c) unset = false → t_priority r = common (priority c) (map priority cs)) ∧
    (same_value (weight c) unset = false → t_weight r = common (weight c) (map weight cs)).
Proof.
  intros rows. destruct (aggregate_summed chs) as [Ht Hr]. split; [exact Ht|]. intros r Hin. specialize (Hr r Hin).
  unfold tagged in Hr. destruct (filter (λ c, tag_of c = t_tag r) chs) as [|c cs] eqn:E; [done|].
  cbn [tag_row] in Hr. apply (inj Some) in Hr. exists c, cs.
  destruct (foldl_merge_fields (c :: cs) (new_row c)) as (Kc & Kq & Ks & Kp & Kw & _). rewrite Hr in *.
  split_and!; [exact Kc|done|exact Kq|..].
  - rewrite Ks. cbn [new_row t_status map]. rewrite merge_status_first. change (status c :: map status cs) with (map status (c :: cs)).
    by rewrite existsb_map.
  - intros Hp. rewrite Kp. cbn [new_row t_priority map]. by apply merge_value_first.
  - intros Hw. rewrite Kw. cbn [new_row t_weight map]. by apply merge_value_first.
Qed.

(** The mark of a fresh row is also a priority a channel can have: such a channel is
    forgotten. *)
Example negative_priority_is_forgotten :
  let c p := {| id := 1; type := 1; key := []; openai_organization := None; test_model := None; status := 1; name := [];
    weight := None; created_time := num_of_Z 0; test_time := num_of_Z 0; response_time := num_of_Z 0; base_url := None;
    other := []; balance := num_of_Z 0; balance_updated_time := num_of_Z 0; models := []; group := js "a,b";
    used_quota := num_of_Z 0; model_mapping := None; status_code_mapping := None; priority := Some (num_of_Z p);
    auto_ban := None; other_info := []; tag := Some (js "t"); setting := None; param_override := None;
    header_override := None; remark := []; max_input_tokens := num_of_Z 0;
    channel_info := mkInfo false 0 None (js "random"); settings := js "{}" |} in
  map t_priority (aggregateChannelsByTag [c (-1); c 5]) = [Some (num_of_Z 5)] ∧
  map t_priority (aggregateChannelsByTag [c 5; c (-1)]) = [None].
Proof. vm_compute. done. Qed.

(** A group that a later channel names twice is listed twice. *)
Example repeated_group_is_listed_twice : merge_group (js "a") (js "b,b") = js "a,b,b".
Proof. vm_compute. done. Qed.

Lemma join_append sep ws g : ws ≠ [] → join sep (ws ++ [g]) = join sep ws ++ sep ++ g.
Proof.
  induction ws as [|w ws IH]; [done|]. intros _. destruct ws as [|w' ws]; [done|].
  change ((w :: w' :: ws) ++ [g]) with (w :: ((w' :: ws) ++ [g])).
  rewrite !(join_cons sep w) by done. rewrite IH by done. by rewrite <-!app_assoc.
Qed.

(** Groups that are not repeated in a channel are listed once. *)
Lemma groups_listed_once row child : row ≠ [] → NoDup (group_words row) → NoDup (group_words child) →
  NoDup (group_words (merge_group row child)) ∧
  ∀ g, g ∈ group_words (merge_group row child) ↔ g ∈ group_words row ∨ g ∈ group_words child.
Proof.
  intros Hr Hn Hc. unfold merge_group. rewrite jeqb_neq by done.
  set (ex := group_words row).
  assert (∀ gs acc, Forall (λ g, g ≠ [] ∧ 44%N ∉ g) gs →
    group_words (foldl (λ acc g, if bool_decide (g ∈ ex) then acc else acc ++ js "," ++ g) acc gs)
    = group_words acc ++ filter (λ g, g ∉ ex) gs) as Hw.
  { induction gs as [|g gs IH]; intros acc Hgs; cbn [foldl]; [by rewrite app_nil_r|].
    apply list.Forall_cons in Hgs as [[Hg H44] Hgs]. rewrite IH by done. rewrite filter_cons.
    destruct (bool_decide_reflect (g ∈ ex)) as [Hin|Hout].
    - by rewrite decide_False by (intros ?; contradiction).
    - rewrite decide_True by done.
      transitivity ((group_words acc ++ [g]) ++ filter (λ g, g ∉ ex) gs); [|by rewrite <-app_assoc].
      f_equal. unfold group_words, filter_truthy.
      assert (split1 44%N (acc ++ js "," ++ g) = split1 44%N acc ++ [g]) as ->.
      { rewrite <-(split1_join 44%N (split1 44%N acc ++ [g])).
        - rewrite join_append by apply split1_nonempty. by rewrite join_split1.
        - by destruct (split1 44%N acc).
        - apply list.Forall_app. split; [|by apply list.Forall_singleton]. apply list.Forall_forall. intros w. apply split1_no_sep. }
      rewrite list.filter_app, filter_cons, decide_True by done. done. }
  rewrite Hw.
  - split.
    + apply list.NoDup_app. split_and!; [done| |by apply list.NoDup_filter]. intros g Hg. rewrite list_elem_of_filter. tauto.
    + intros g. rewrite elem_of_app, list_elem_of_filter. subst ex. destruct (decide (g ∈ group_words row)); tauto.
  - unfold group_words, filter_truthy. apply list.Forall_forall. intros g [? ?]%list_elem_of_filter. split; [done|]. by eapply split1_no_sep.
Qed.

(** ** Attention *)

Lemma attention_has_reason c : channelNeedsAttention c = bool_decide (is_Some (getAttentionReason c)).
Proof.
  unfold channelNeedsAttention, getAttentionReason. destruct (_ =? _); [done|]. destruct (low_balance c); [done|].
  by destruct (all_keys_disabled c).
Qed.

(** ** Keys *)

Lemma add_keys lines : foldl add_key [] lines = dedup (filter_truthy (map trim lines)).
Proof.
  induction lines as [|line lines IH] using rev_ind; [done|].
  rewrite foldl_app, IH, map_app. cbn [foldl map]. unfold filter_truthy. rewrite list.filter_app. fold (filter_truthy (map trim lines)).
  unfold add_key. destruct (truthy (trim line)) eqn:E.
  - apply truthy_true in E. rewrite (filter_cons_True (λ s, s ≠ [])), list.filter_nil by done. rewrite dedup_snoc. cbn [andb].
    assert (bool_decide (trim line ∈ dedup (filter_truthy (map trim lines))) = bool_decide (trim line ∈ filter_truthy (map trim lines))) as ->.
    { apply bool_decide_ext, dedup_elem. }
    by destruct (bool_decide _).
  - apply truthy_false in E. rewrite E. cbn [andb]. rewrite filter_cons, decide_False, list.filter_nil by (by intros []). by rewrite app_nil_r.
Qed.

(** The keys of a text: its lines without surrounding blanks and without the blank ones. *)
Definition keys_of (text : jstr) : list jstr := filter_truthy (map trim (split1 10%N text)).

Lemma trim_nil_lines s : trim s = [] → keys_of s = [].
Proof.
  intros Hs. unfold keys_of, filter_truthy. apply filter_absent, list.Forall_forall. intros w Hw Hne. apply Hne.
  apply list_elem_of_In, in_map_iff in Hw as (l & <- & Hl). apply list_elem_of_In in Hl.
  assert (Forall (λ c, is_ws c = true) s) as Hws.
  { destruct (trim_infix s) as (a & b & E & Ha & Hb). rewrite Hs in E. rewrite E. apply list.Forall_app. by split. }
  assert (Forall (λ c, is_ws c = true) l) as Hwl.
  { clear -Hl Hws. rewrite <-(join_split1 10%N s) in Hws. induction (split1 10%N s) as [|x xs IH]; [by apply elem_of_nil in Hl|].
    destruct xs as [|y xs]; [by apply list_elem_of_singleton in Hl as ->|].
    rewrite join_cons in Hws by done. rewrite !list.Forall_app in Hws. apply elem_of_cons in Hl as [->|Hl]; [tauto|]. apply IH; tauto. }
  clear -Hwl. unfold trim. assert (trim_start l = []) as ->; [|done].
  induction Hwl as [|c l Hc _ IH]; [done|]. cbn [trim_start]. by rewrite Hc.
Qed.

Lemma deduplicated_text s : deduplicatedText (deduplicateKeys s) = join [10%N] (dedup (keys_of s)) ∧
  afterCount (deduplicateKeys s) = length (dedup (keys_of s)).
Proof.
  unfold deduplicateKeys. destruct (negb (truthy s) || (trim s === [])) eqn:E.
  - assert (trim s = []) as Ht.
    { apply orb_true_iff in E as [E|E]; [|by apply jeqb_true in E]. apply negb_true_iff, truthy_false in E as ->. done. }
    by rewrite trim_nil_lines.
  - cbn [deduplicatedText afterCount]. by rewrite add_keys.
Qed.

Lemma key_no_newline s k : k ∈ keys_of s → 10%N ∉ k ∧ trim k = k ∧ k ≠ [].
Proof.
  unfold keys_of, filter_truthy. intros [Hne Hk]%list_elem_of_filter.
  apply list_elem_of_In, in_map_iff in Hk as (l & <- & Hl). apply list_elem_of_In, split1_no_sep in Hl.
  split_and!; [|apply trim_idemp|done]. intros Hin. apply Hl. destruct (trim_infix l) as (a & b & E' & _). rewrite E'. set_solver.
Qed.

(** The keys of printed keys. *)
Lemma keys_of_join ks : Forall (λ k, 10%N ∉ k ∧ trim k = k ∧ k ≠ []) ks → keys_of (join [10%N] ks) = ks.
Proof.
  intros Hf. destruct ks as [|k ks]; [done|]. unfold keys_of. rewrite split1_join; [|done|].
  - induction Hf as [|k' ks' (_ & Hk & Hne) _ IH]; [done|]. cbn [map]. rewrite Hk. unfold filter_truthy in *.
    by rewrite filter_cons_True, IH by done.
  - eapply list.Forall_impl; [exact Hf|]. by intros x (? & _).
Qed.

Lemma dedup_shorter {A} `{EqDecision A} (l : list A) : (length (dedup l) ≤ length l)%nat.
Proof.
  unfold dedup. generalize (@nil A). induction l as [|x l IH]; intros seen; [done|]. cbn [dedup_go length].
  destruct (decide _); [specialize (IH seen)|specialize (IH (x :: seen)); cbn [length]]; lia.
Qed.
Lemma filter_truthy_shorter l : (length (filter_truthy l) ≤ length l)%nat.
Proof. unfold filter_truthy. induction l as [|x l IH]; [done|]. rewrite filter_cons. destruct (decide _); cbn [length]; lia. Qed.

(** Removing duplicate keys: the text that replaces the keys holds each of
    them once, in order and without blanks around it; no key is lost and none is
    invented; doing it again changes nothing. *)
Theorem deduplicated_keys s :
  let d := deduplicateKeys s in
  keys_of (deduplicatedText d) = dedup (keys_of s) ∧ NoDup (keys_of (deduplicatedText d)) ∧
  (∀ k, k ∈ keys_of (deduplicatedText d) ↔ k ∈ keys_of s) ∧
  afterCount d = length (dedup (keys_of s)) ∧ (beforeCount d = afterCount d + removedCount d)%nat ∧
  deduplicatedText (deduplicateKeys (deduplicatedText d)) = deduplicatedText d.
Proof.
  intros d. destruct (deduplicated_text s) as [Et Ea]. fold d in Et, Ea.
  assert (keys_of (deduplicatedText d) = dedup (keys_of s)) as Hk.
  { rewrite Et. apply keys_of_join, list.Forall_forall. intros k. rewrite dedup_elem. apply key_no_newline. }
  split_and!; [exact Hk| | |exact Ea| |].
  - rewrite Hk. apply dedup_NoDup.
  - intros k. rewrite Hk. apply dedup_elem.
  - subst d. unfold deduplicateKeys. destruct (_ || _); [done|]. cbn [beforeCount afterCount removedCount]. rewrite add_keys.
    pose proof (dedup_shorter (filter_truthy (map trim (split1 10%N s)))) as H1.
    pose proof (filter_truthy_shorter (map trim (split1 10%N s))) as H2. rewrite length_map in H2. lia.
  - destruct (deduplicated_text (deduplicatedText d)) as [-> _]. rewrite Hk, Et.
    by rewrite (dedup_id (dedup _)) by apply dedup_NoDup.
Qed.

(** A short key is shown in full. *)
Example short_key_is_shown : formatChannelKey (js "sk-12345") false = js "sk-1...2345".
Proof. vm_compute. done. Qed.

(** ** Groups *)

Section groups.
Context (localeCompare : jstr → jstr → Z).
Context (locale_total : ∀ a b, localeCompare a b ≤ 0 ∨ localeCompare b a ≤ 0)
  (locale_trans : ∀ a b c, localeCompare a b ≤ 0 → localeCompare b c ≤ 0 → localeCompare a c ≤ 0).

#[local] Instance group_comparator : Comparator (λ _, True) (group_order localeCompare).
Proof.
  split; unfold group_order.
  - intros a b _ _. destruct (a === js "default"), (b === js "default"); try lia. apply locale_total.
  - intros a b c _ _ _. destruct (a === js "default"), (b === js "default"), (c === js "default"); try lia. apply locale_trans.
Qed.

(** The groups of a channel are shown in order, all of them, with the default
    group first. *)
Theorem default_group_first groups :
  parseGroupsList localeCompare groups ≡ₚ ChannelForm.parseGroups groups ∧
  (js "default" ∈ ChannelForm.parseGroups groups →
   list.head (parseGroupsList localeCompare groups) = Some (js "default")).
Proof.
  unfold parseGroupsList. set (l := ChannelForm.parseGroups groups).
  assert (sort_by (group_order localeCompare) l ≡ₚ l) as Hp by apply sort_by_perm. split; [exact Hp|].
  intros Hin. pose proof (sort_by_sorted (λ _, True) (group_order localeCompare) l ltac:(by apply list.Forall_true)) as Hs.
  rewrite <-Hp in Hin. destruct (sort_by _ l) as [|g gs]; [by apply elem_of_nil in Hin|].
  apply elem_of_cons in Hin as [<-|Hin]; [done|]. apply StronglySorted_inv in Hs as [_ Hs].
  rewrite list.Forall_forall in Hs. specialize (Hs _ Hin). unfold cmp_le, group_order in Hs.
  destruct (g === js "default") eqn:E; [by apply jeqb_true in E as ->|].
  exfalso. revert Hs. rewrite jeqb_refl. lia.
Qed.
End groups.

(** ** The delayed update of a field *)

Section scheduler.
Import FieldUpdate.

(** The specification: what is pending, and what has been handed on. *)
Record promise := mkPromise { waiting : option jsnum; handed : list jsnum }.
Definition obey (e : event) (p : promise) : promise :=
  match e with
  | Schedule v => mkPromise (Some v) (handed p)
  | Flush | Fire _ => mkPromise None (handed p ++ match waiting p with Some v => [v] | None => [] end)
  end.

(** One timer can fire, the one of the pending value; a value waits exactly as long as its
    timer. *)
Definition scheduler_inv (s : scheduler) : Prop :=
  live s = match timeoutId s with Some i => [i] | None => [] end ∧
  (is_Some (timeoutId s) ↔ is_Some (pendingValue s)) ∧ Forall (λ i, i < next_id s)%nat (live s).

Definition kept (s : scheduler) : promise := mkPromise (pendingValue s) (updates s).

Lemma clear_live s : scheduler_inv s →
  timeoutId (clearPendingTimer s) = None ∧ live (clearPendingTimer s) = [] ∧
  pendingValue (clearPendingTimer s) = pendingValue s ∧ updates (clearPendingTimer s) = updates s ∧
  next_id (clearPendingTimer s) = next_id s.
Proof.
  intros (Hl & _). unfold clearPendingTimer. destruct (timeoutId s) as [i|] eqn:E; [|by rewrite Hl].
  cbn [timeoutId live pendingValue updates next_id]. split_and!; try done. rewrite Hl. rewrite filter_cons, decide_False by tauto. done.
Qed.

Lemma commit_obeys s : scheduler_inv s →
  scheduler_inv (commitPendingValue s) ∧ kept (commitPendingValue s) = obey Flush (kept s).
Proof.
  intros Hs. destruct (clear_live s Hs) as (Ht & Hl & Hp & Hu & Hn). unfold commitPendingValue. rewrite Hp.
  destruct (pendingValue s) as [v|] eqn:Ev; unfold scheduler_inv, kept; cbn [timeoutId live pendingValue updates next_id obey waiting handed].
  - rewrite Ht, Hl, Hu, Ev. split; [|done]. split_and!; [done|by split; intros []|constructor].
  - rewrite Ht, Hl, Hp, Hu, Ev, app_nil_r. split; [|done]. split_and!; [done|by split; intros []|constructor].
Qed.

Lemma step_obeys e s s' : scheduler_inv s → step e s = Some s' → scheduler_inv s' ∧ kept s' = obey e (kept s).
Proof.
  intros Hs. destruct e as [v| |i]; cbn [step].
  - intros [= <-]. destruct (clear_live s Hs) as (Ht & Hl & _ & Hu & Hn). unfold schedule, scheduler_inv, kept.
    cbn [timeoutId live pendingValue updates next_id obey handed]. rewrite Hl, Hu, Hn. split; [|done].
    split_and!; [done|by split; intros _; eexists|]. apply list.Forall_singleton. lia.
  - intros [= <-]. by apply commit_obeys.
  - unfold fire. destruct (bool_decide_reflect (i ∈ live s)) as [Hi|]; [|done]. intros H. apply (inj Some) in H as <-.
    destruct (Hs) as (Hl & Hp & Hn). destruct (timeoutId s) as [j|] eqn:Ej; [|rewrite Hl in Hi; by apply elem_of_nil in Hi].
    assert (i = j) as -> by (rewrite Hl in Hi; by apply list_elem_of_singleton in Hi).
    assert (∀ l, commitPendingValue (mkScheduler (Some j) (pendingValue s) (filter (λ k, k ≠ j) l) (next_id s) (updates s))
            = commitPendingValue (mkScheduler (Some j) (pendingValue s) l (next_id s) (updates s))) as Hf.
    { intros l. unfold commitPendingValue, clearPendingTimer. cbn [timeoutId pendingValue live next_id updates].
      by rewrite list_filter_filter_l by tauto. }
    rewrite Hf. assert (mkScheduler (Some j) (pendingValue s) (live s) (next_id s) (updates s) = s) as ->.
    { destruct s. cbn in Ej |- *. by rewrite Ej. }
    by apply commit_obeys.
Qed.

(** [C34] The delayed update of a priority or weight keeps its promise: under every
    order of entries, flushes and timers, the values handed on are exactly the last
    ones entered before each flush or timer, once each; at most the timer of the
    pending value can fire, and a flush leaves nothing pending. *)
Theorem scheduler_hands_on_last_values es s : run es start = Some s →
  kept s = foldl (λ p e, obey e p) (mkPromise None []) es ∧ scheduler_inv s.
Proof.
  assert (∀ es s0 p, scheduler_inv s0 → kept s0 = p → run es s0 = Some s →
    kept s = foldl (λ p e, obey e p) p es ∧ scheduler_inv s) as Hrun.
  { clear es. induction es as [|e es IH]; intros s0 p Hi Hk; cbn [run foldl].
    - intros H. apply (inj Some) in H as <-. done.
    - destruct (step e s0) as [s1|] eqn:E; cbn [mbind option_bind]; [|done].
      destruct (step_obeys e s0 s1 Hi E) as [Hi1 Hk1]. apply IH; [done|]. by rewrite Hk1, Hk. }
  apply Hrun; [|done]. unfold scheduler_inv. cbn. split_and!; [done|by split; intros []|constructor].
Qed.

Lemma scheduler_hands_on_last_values_witness :
  let es := [Schedule (num_of_Z 1); Schedule (num_of_Z 2); Fire 1%nat; Schedule (num_of_Z 3); Flush] in
  updates (default start (run es start)) = [num_of_Z 2; num_of_Z 3] ∧
  kept (default start (run es start)) = foldl (λ p e, obey e p) (mkPromise None []) es.
Proof.
  split; [vm_compute; reflexivity|].
  apply (scheduler_hands_on_last_values [Schedule (num_of_Z 1); Schedule (num_of_Z 2); Fire 1%nat; Schedule (num_of_Z 3); Flush]).
  vm_compute. reflexivity.
Defined.
End scheduler.
