(* ===== verification/AdvancedCustomEditor.v ===== *)
(** * The editor of advanced custom routes

    Models [features/channels/components/dialogs/advanced-custom-editor-dialog.tsx]:
    the routes of a channel as rows with keys, grouped by incoming path, and the
    handlers that add, change, move and repair them, the tabs, the JSON text,
    the templates and saving.

    Every handler runs on the state of the last render.  [None] is a thrown
    exception, or a text with a field of another type than declared.  Messages
    are kept untranslated; the [URL] constructor is a parameter. *)

From S2P Require Import Prelude JsValue JsCollections AdvancedCustom ChannelForm.

Module RouteEditor.
Import AdvancedCustom AdvancedText.

(** ** Rows and groups *)

Record AdvancedCustomRouteRow := mkRow { row_route : AdvancedCustomRoute; routeKey : jstr; row_index : nat }.
Record AdvancedCustomRouteGroup := mkGroup { group_path : jstr; routeRows : list AdvancedCustomRouteRow }.

Definition getRouteIncomingPath (r : AdvancedCustomRoute) : jstr := trimmed (incoming_path r).
Definition row_path (row : AdvancedCustomRouteRow) : jstr := getRouteIncomingPath (row_route row).
Definition isCatchAllRoute (r : AdvancedCustomRoute) : bool :=
  match models r with None | Some [] => true | Some _ => false end.

Definition getRouteConverterLabel (r : AdvancedCustomRoute) : jstr :=
  let converter := opt_or_else (converter r) conv_none in
  opt_or_else (triggerLabel <$> List.find (λ o, conv_value o === converter) ADVANCED_CUSTOM_CONVERTER_OPTIONS) converter.

Definition getRouteConverters (routes : list AdvancedCustomRoute) : list (jstr * jstr) :=
  foldl (λ converters route,
    let converter := opt_or_else (converter route) conv_none in
    match mget converter converters with
    | Some _ => converters
    | None => mset converter (getRouteConverterLabel route) converters
    end) [] routes.

(** Rows by path, in the order in which the paths occur. *)
Definition rowsByPath (rows : list AdvancedCustomRouteRow) : list (jstr * list AdvancedCustomRouteRow) :=
  foldl (λ groups row, mupdate (row_path row) (λ group, default [] group ++ [row]) groups) [] rows.

Definition buildRouteGroups (rows : list AdvancedCustomRouteRow) : list AdvancedCustomRouteGroup :=
  map (λ '(path, rows), mkGroup path rows) (rowsByPath rows).

(** ** State *)

Inductive tab := forwarding | models_tab | balance | json_tab.

Record Editor := mkEditor {
  config : AdvancedCustomConfig;
  routeKeys : list jstr;
  routeKeyCounter : N;
  activeTab : tab;
  jsonText : jstr;
  jsonError : jstr;
  templateKey : jstr;
  templateConfirmOpen : bool;
  expandedRouteGroups : gset jstr;
  saved : list jstr;   (* the texts handed to [onSave], the last one first *)
  is_open : bool;
}.

Definition with_config (c : AdvancedCustomConfig) (e : Editor) : Editor :=
  mkEditor c (routeKeys e) (routeKeyCounter e) (activeTab e) (jsonText e) (jsonError e) (templateKey e)
    (templateConfirmOpen e) (expandedRouteGroups e) (saved e) (is_open e).
Definition with_keys (keys : list jstr) (counter : N) (e : Editor) : Editor :=
  mkEditor (config e) keys counter (activeTab e) (jsonText e) (jsonError e) (templateKey e)
    (templateConfirmOpen e) (expandedRouteGroups e) (saved e) (is_open e).
Definition with_tab (t : tab) (e : Editor) : Editor :=
  mkEditor (config e) (routeKeys e) (routeKeyCounter e) t (jsonText e) (jsonError e) (templateKey e)
    (templateConfirmOpen e) (expandedRouteGroups e) (saved e) (is_open e).
Definition with_json (text error : jstr) (e : Editor) : Editor :=
  mkEditor (config e) (routeKeys e) (routeKeyCounter e) (activeTab e) text error (templateKey e)
    (templateConfirmOpen e) (expandedRouteGroups e) (saved e) (is_open e).
Definition with_template (key : jstr) (confirm : bool) (e : Editor) : Editor :=
  mkEditor (config e) (routeKeys e) (routeKeyCounter e) (activeTab e) (jsonText e) (jsonError e) key confirm
    (expandedRouteGroups e) (saved e) (is_open e).
Definition with_expanded (groups : gset jstr) (e : Editor) : Editor :=
  mkEditor (config e) (routeKeys e) (routeKeyCounter e) (activeTab e) (jsonText e) (jsonError e) (templateKey e)
    (templateConfirmOpen e) groups (saved e) (is_open e).
(** [onSave(text)] and [onOpenChange(false)] *)
Definition hand_on (text : jstr) (e : Editor) : Editor :=
  mkEditor (config e) (routeKeys e) (routeKeyCounter e) (activeTab e) (jsonText e) (jsonError e) (templateKey e)
    (templateConfirmOpen e) (expandedRouteGroups e) (text :: saved e) false.

(** *** What a render computes from it *)

Definition normalizedConfig (e : Editor) : AdvancedCustomConfig := normalizeAdvancedCustomConfig (config e).
Definition routes (e : Editor) : list AdvancedCustomRoute := default [] (advanced_routes (normalizedConfig e)).

Definition row_of (keys : list jstr) (index : nat) (r : AdvancedCustomRoute) : AdvancedCustomRouteRow :=
  mkRow r
    (opt_or_else (keys !! index) (opt_or_else (incoming_path r) (opt_or_else (upstream_path r)
       (opt_or_else (converter r) (js "advanced-custom-route"))))) index.
Definition allRouteRows (e : Editor) : list AdvancedCustomRouteRow := imap (row_of (routeKeys e)) (routes e).
Definition forwardingRows (e : Editor) : list AdvancedCustomRouteRow :=
  List.filter (λ row, negb (isAdvancedCustomManagementPath (row_path row))) (allRouteRows e).
Definition routeGroups (e : Editor) : list AdvancedCustomRouteGroup := buildRouteGroups (forwardingRows e).
Definition usedIncomingPaths (e : Editor) : list jstr := map group_path (routeGroups e).
Definition availableIncomingPathOptions (e : Editor) : list PathOption :=
  List.filter (λ o, negb (isAdvancedCustomManagementPath (path_value o)) && negb (has (path_value o) (usedIncomingPaths e)))
    ADVANCED_CUSTOM_INCOMING_PATH_OPTIONS.

Definition catchAllOrderErrorMessage : jstr := js "Catch-all route must be last for the same incoming path".

Definition modelListRoute (e : Editor) : option AdvancedCustomRoute :=
  getAdvancedCustomManagementRoute (normalizedConfig e) ADVANCED_CUSTOM_MODEL_LIST_PATH.
Definition balanceRoute (e : Editor) : option AdvancedCustomRoute :=
  getAdvancedCustomManagementRoute (normalizedConfig e) ADVANCED_CUSTOM_BALANCE_PATH.

Definition selectedTemplate (e : Editor) : option TemplateOption :=
  match List.find (λ o, t_value o === templateKey e) ADVANCED_CUSTOM_TEMPLATE_OPTIONS with
  | Some o => Some o
  | None => head ADVANCED_CUSTOM_TEMPLATE_OPTIONS
  end.

(** ** Keys *)

Definition route_key (n : N) : jstr := js "advanced-custom-route-" ++ digits n.
(** [createRouteKeys(count)] from a counter: the keys and the next counter. *)
Definition createRouteKeys (count : nat) (counter : N) : list jstr * N :=
  (map (λ i, route_key (counter + N.of_nat i + 1)) (seq 0 count), (counter + N.of_nat count)%N).
Definition fresh_keys (count : nat) (e : Editor) : Editor :=
  let '(keys, counter) := createRouteKeys count (routeKeyCounter e) in with_keys keys counter e.
(** [setRouteKeys((current) => [...current, createRouteKey()])] *)
Definition append_key (e : Editor) : Editor :=
  with_keys (routeKeys e ++ [route_key (routeKeyCounter e + 1)]) (routeKeyCounter e + 1)%N e.

(** ** Opening *)

Definition read_value (value : option jstr) : option AdvancedCustomConfig :=
  parsed ← parseAdvancedCustomConfig value; Some (default createAdvancedCustomConfig parsed).

(** The first render, with the dialog closed. *)
Definition mount (value : option jstr) : option Editor :=
  initialConfig ← read_value value;
  Some (mkEditor initialConfig
    (imap (λ i _, js "advanced-custom-route-initial-" ++ digits (N.of_nat i)) (normalized_routes initialConfig)) 0%N
    forwarding (stringifyAdvancedCustomConfig initialConfig) []
    (opt_or_else (t_value <$> head ADVANCED_CUSTOM_TEMPLATE_OPTIONS) []) false ∅ [] false).

(** The effect that runs when the dialog opens. *)
Definition open_dialog (value : option jstr) (e : Editor) : option Editor :=
  parsed ← read_value value;
  let normalized := normalizeAdvancedCustomConfig parsed in
  let firstForwardingPath :=
    List.find (λ path, negb (isAdvancedCustomManagementPath path))
      (map getRouteIncomingPath (default [] (advanced_routes normalized))) in
  let e := with_config normalized e in
  let e := fresh_keys (length (default [] (advanced_routes normalized))) e in
  let e := with_tab forwarding (with_json (stringifyAdvancedCustomConfig normalized) [] e) in
  let e := with_template (templateKey e) false e in
  let e := with_expanded (match firstForwardingPath with
                          | Some path => if truthy path then {[ path ]} else ∅
                          | None => ∅
                          end) e in
  Some (mkEditor (config e) (routeKeys e) (routeKeyCounter e) (activeTab e) (jsonText e) (jsonError e) (templateKey e)
          (templateConfirmOpen e) (expandedRouteGroups e) (saved e) true).

(** ** Changes to routes *)

(** The partial routes that the row editors hand to [updateRoute]. *)
Inductive patch :=
| PatchModels (ms : list jstr) | PatchUpstream (path : jstr) | PatchAuth (a : option AdvancedCustomRouteAuth)
| PatchConverter (conv incoming upstream : jstr) (a : option AdvancedCustomRouteAuth).

Definition patched (p : patch) (r : AdvancedCustomRoute) : AdvancedCustomRoute :=
  let '(mkRoute i u c ms a) := r in
  match p with
  | PatchModels ms => mkRoute i u c (Some ms) a
  | PatchUpstream path => mkRoute i (Some path) c ms a
  | PatchAuth a => mkRoute i u c ms a
  | PatchConverter conv incoming upstream a => mkRoute (Some incoming) (Some upstream) (Some conv) ms a
  end.

(** An index right after the last route adds one; behind it the list has a hole, at which the next render throws. *)
Definition updateRoute (index : nat) (p : patch) (e : Editor) : option Editor :=
  let nextRoutes := routes e in
  match nextRoutes !! index with
  | Some r => Some (with_config (mkConfig (Some (<[index := patched p r]> nextRoutes))) e)
  | None =>
      if (index =? length nextRoutes)%nat
      then Some (with_config (mkConfig (Some (nextRoutes ++ [patched p (mkRoute None None None None None)]))) e)
      else None
  end.

Definition replaceRoutes (nextRoutes : list AdvancedCustomRoute) (nextRouteKeys : list jstr) (e : Editor) : Editor :=
  with_keys nextRouteKeys (routeKeyCounter e) (with_config (mkConfig (Some nextRoutes)) e).

Definition new_route (path : jstr) : AdvancedCustomRoute :=
  let r := createAdvancedCustomRoute in mkRoute (Some path) (Some path) (converter r) (models r) (auth r).

Definition append_route (path : jstr) (e : Editor) : Editor :=
  let e := append_key (with_config (mkConfig (Some (routes e ++ [new_route path]))) e) in
  with_expanded ({[ path ]} ∪ expandedRouteGroups e) e.

Definition addRoute (incomingPath : option jstr) (e : Editor) : Editor :=
  match incomingPath with
  | None => e
  | Some path => if negb (truthy path) || has path (usedIncomingPaths e) then e else append_route path e
  end.

Definition addRouteForIncomingPath (incomingPath : jstr) (e : Editor) : Editor :=
  append_route (or_else incomingPath (js "/v1/chat/completions")) e.

(** [list.filter((_, i) => i !== index)] *)
Definition removeRoute (index : nat) (e : Editor) : Editor :=
  with_keys (delete index (routeKeys e)) (routeKeyCounter e) (with_config (mkConfig (Some (delete index (routes e)))) e).

Definition moved_to_path (path : jstr) (r : AdvancedCustomRoute) : AdvancedCustomRoute :=
  if path === ADVANCED_CUSTOM_MODEL_LIST_PATH
  then mkRoute (Some path) (Some ADVANCED_CUSTOM_MODEL_LIST_PATH) (Some conv_none) (Some []) (auth r)
  else let conv := opt_or_else (converter r) conv_none in
       mkRoute (Some path) (upstream_path r)
         (Some (if isAdvancedCustomIncomingPathAllowed path conv then conv else conv_none)) (models r) (auth r).

Definition updateGroupIncomingPath (group : AdvancedCustomRouteGroup) (nextIncomingPath : option jstr) (e : Editor) : Editor :=
  let resolvedIncomingPath := opt_or_else nextIncomingPath (js "/v1/chat/completions") in
  let groupRouteIndexes := map row_index (routeRows group) in
  let nextRoutes := imap (λ i r, if has i groupRouteIndexes then moved_to_path resolvedIncomingPath r else r) (routes e) in
  let e := replaceRoutes nextRoutes (map routeKey (allRouteRows e)) e in
  with_expanded ({[ resolvedIncomingPath ]} ∪ expandedRouteGroups e ∖ {[ group_path group ]}) e.

(** *** Moving routes *)

Definition swap {A} (i j : nat) (l : list A) : list A :=
  match l !! i, l !! j with Some x, Some y => <[j := x]> (<[i := y]> l) | _, _ => l end.

Definition swapRoutes (fromIndex toIndex : nat) (e : Editor) : Editor :=
  if (fromIndex =? toIndex)%nat then e
  else replaceRoutes (swap fromIndex toIndex (routes e)) (swap fromIndex toIndex (map routeKey (allRouteRows e))) e.

(** [list.at(i)] counts from the end when [i] is negative. *)
Definition at_ {A} (i : Z) (l : list A) : option A :=
  let k := if i <? 0 then Z.of_nat (length l) + i else i in if k <? 0 then None else l !! Z.to_nat k.

Definition samePathIndexes (path : jstr) (rs : list AdvancedCustomRoute) : list nat :=
  map fst (List.filter (λ '(_, r), getRouteIncomingPath r === path) (imap pair rs)).

(** [direction] is 1 or -1; [indexOf] finds the index itself. *)
Definition moveRouteWithinGroup (index : nat) (direction : Z) (e : Editor) : option Editor :=
  r ← routes e !! index;
  let indexes := samePathIndexes (getRouteIncomingPath r) (routes e) in
  let position := from_option (λ '(i, _), Z.of_nat i) (-1) (list_find (λ i, i = index) indexes) in
  Some (match at_ (position + direction) indexes with
        | None => e
        | Some nextIndex => swapRoutes index nextIndex e
        end).

(** [list.splice(from, 1)] and [list.splice(to, 0, x)] *)
Definition move {A} (from to : nat) (l : list A) : list A :=
  match l !! from with
  | None => l
  | Some x => take to (delete from l) ++ x :: drop to (delete from l)
  end.

Definition moveRouteToGroupEnd (index : nat) (e : Editor) : option Editor :=
  r ← routes e !! index;
  let lastSamePathIndex := list.last (samePathIndexes (getRouteIncomingPath r) (routes e)) in
  Some (match lastSamePathIndex with
        | None => e
        | Some lastIndex =>
            if (index =? lastIndex)%nat then e
            else replaceRoutes (move index lastIndex (routes e)) (move index lastIndex (map routeKey (allRouteRows e))) e
        end).

(** *** Repairing the order *)

Definition orderedRows (rows : list AdvancedCustomRouteRow) : list AdvancedCustomRouteRow :=
  List.filter (λ row, negb (isCatchAllRoute (row_route row))) rows
  ++ List.filter (λ row, isCatchAllRoute (row_route row)) rows.

(** Every row takes the next one of the queue of its path. *)
Fixpoint shift_rows (rows : list AdvancedCustomRouteRow) (queues : list (jstr * list AdvancedCustomRouteRow))
    : list AdvancedCustomRouteRow :=
  match rows with
  | [] => []
  | row :: rest =>
      match mget (row_path row) queues with
      | Some (next :: queue) => next :: shift_rows rest (mset (row_path row) queue queues)
      | _ => row :: shift_rows rest queues
      end
  end.

(** The forwarding rows take the next row of a list, the others stay. *)
Fixpoint refill {A} (pick : AdvancedCustomRouteRow → A → A) (current : list (jstr * A)) (next : list AdvancedCustomRouteRow)
    : list A :=
  match current with
  | [] => []
  | (path, x) :: rest =>
      if isAdvancedCustomManagementPath path then x :: refill pick rest next
      else match next with
           | [] => x :: refill pick rest []
           | row :: next => pick row x :: refill pick rest next
           end
  end.

Definition fixCatchAllOrder (e : Editor) : Editor :=
  let orderedRowsByPath := map (λ '(path, rows), (path, orderedRows rows)) (rowsByPath (forwardingRows e)) in
  let nextRows := shift_rows (forwardingRows e) orderedRowsByPath in
  replaceRoutes
    (refill (λ row _, row_route row) (map (λ r, (getRouteIncomingPath r, r)) (routes e)) nextRows)
    (refill (λ row key, or_else (routeKey row) key) (map (λ row, (row_path row, routeKey row)) (allRouteRows e)) nextRows) e.

(** ** The fields of a row *)

Definition row_incoming_path (r : AdvancedCustomRoute) : jstr :=
  opt_or_else (incoming_path r) (getDefaultAdvancedCustomIncomingPath (opt_or_else (converter r) conv_none)).
Definition modelsInputValue (r : AdvancedCustomRoute) : jstr := from_option (join (js ", ")) [] (models r).

Definition setConverter (r : AdvancedCustomRoute) (nextConverter : jstr) : patch :=
  let incomingPath := row_incoming_path r in
  let nextIncomingPath :=
    if isAdvancedCustomIncomingPathAllowed incomingPath nextConverter then incomingPath
    else getDefaultAdvancedCustomIncomingPath nextConverter in
  let defaults := getAdvancedCustomConverterDefaults nextConverter nextIncomingPath in
  PatchConverter nextConverter nextIncomingPath (default_upstream_path defaults) (default_auth defaults).

Definition setAuthMode (r : AdvancedCustomRoute) (mode : jstr) : patch := PatchAuth (buildAdvancedCustomAuth mode (auth r)).
Definition setModelsInput (value : jstr) : patch := PatchModels (if value === [] then [] else split1 44%N value).
Definition normalizeModelsInput (value : jstr) : patch := PatchModels (parseAdvancedCustomRouteModels value).

Inductive auth_field := name_field | value_field.
(** The new authentication, or nothing where there is none to change. *)
Definition edit_auth (field : auth_field) (value : jstr) (a : option AdvancedCustomRouteAuth) : option AdvancedCustomRouteAuth :=
  match a with
  | Some a =>
      if bool_decide (auth_type a = Some (js "none")) then None
      else Some (match field with
                 | name_field => mkAuth (auth_type a) (Some value) (Some (default [] (auth_value a)))
                 | value_field => mkAuth (auth_type a) (Some (default [] (auth_name a))) (Some value)
                 end)
  | None => None
  end.
Definition updateAuth (index : nat) (field : auth_field) (value : jstr) (e : Editor) : option Editor :=
  r ← routes e !! index;
  match edit_auth field value (auth r) with
  | Some a => updateRoute index (PatchAuth (Some a)) e
  | None => Some e
  end.

(** What the fields of a row hand to [updateRoute]. *)
Inductive row_edit :=
| TypeModels (v : jstr) | LeaveModels (v : jstr) | TypeUpstream (v : jstr) | ChooseConverter (conv : jstr) | ChooseAuth (mode : jstr)
| TypeAuth (field : auth_field) (v : jstr).

Definition edit_row (index : nat) (change : row_edit) (e : Editor) : option Editor :=
  r ← routes e !! index;
  match change with
  | TypeModels v => updateRoute index (setModelsInput v) e
  | LeaveModels v => updateRoute index (normalizeModelsInput v) e
  | TypeUpstream v => updateRoute index (PatchUpstream v) e
  | ChooseConverter conv => updateRoute index (setConverter r conv) e
  | ChooseAuth mode => updateRoute index (setAuthMode r mode) e
  | TypeAuth field v => updateAuth index field v e
  end.

(** *** Management routes *)

Definition changeManagementRoute (path : jstr) (route : option AdvancedCustomRoute) (e : Editor) : Editor :=
  with_config (replaceAdvancedCustomManagementRoute (config e) path route) e.

Inductive management_edit :=
| AddManagement | DeleteManagement | ManagementUpstream (path : jstr) | ManagementAuthMode (mode : jstr)
| ManagementAuth (field : auth_field) (value : jstr).

(** The buttons and fields of [ManagementRouteEditor]. *)
Definition manage (path : jstr) (m : management_edit) (e : Editor) : Editor :=
  match getAdvancedCustomManagementRoute (normalizedConfig e) path, m with
  | None, AddManagement => changeManagementRoute path (Some (createAdvancedCustomManagementRoute path)) e
  | Some r, DeleteManagement => changeManagementRoute path None e
  | Some r, ManagementUpstream u => changeManagementRoute path (Some (patched (PatchUpstream u) r)) e
  | Some r, ManagementAuthMode mode => changeManagementRoute path (Some (patched (setAuthMode r mode) r)) e
  | Some r, ManagementAuth field value =>
      match edit_auth field value (auth r) with
      | Some a => changeManagementRoute path (Some (patched (PatchAuth (Some a)) r)) e
      | None => e
      end
  | _, _ => e
  end.

(** ** Groups on the screen *)

Definition setGroupExpanded (path : jstr) (expanded : bool) (e : Editor) : Editor :=
  with_expanded (if expanded then {[ path ]} ∪ expandedRouteGroups e else expandedRouteGroups e ∖ {[ path ]}) e.
Definition collapseAll (e : Editor) : Editor := with_expanded ∅ e.
Definition expandAll (e : Editor) : Editor := with_expanded (list_to_set (usedIncomingPaths e)) e.

(** ** Templates *)

Definition selectTemplate (nextTemplateKey : jstr) (e : Editor) : Editor :=
  let template := default all_protocols (List.find (λ o, t_value o === nextTemplateKey) ADVANCED_CUSTOM_TEMPLATE_OPTIONS) in
  with_template (t_value template) true e.

Definition applySelectedTemplate (e : Editor) : Editor :=
  match selectedTemplate e with
  | None => e
  | Some template =>
      let templateRoutes :=
        map (λ r, mkRoute (incoming_path r) (upstream_path r) (converter r) (Some []) (auth r))
          (default [] (advanced_routes (t_config template))) in
      let normalized := replaceAdvancedCustomForwardingRoutes (normalizedConfig e) templateRoutes in
      let e := fresh_keys (length (default [] (advanced_routes normalized))) (with_config normalized e) in
      let e := with_json (stringifyAdvancedCustomConfig normalized) [] e in
      with_template (templateKey e) false (with_expanded (list_to_set (map getRouteIncomingPath templateRoutes)) e)
  end.

Definition handleJsonChange (nextValue : jstr) (e : Editor) : Editor :=
  with_json nextValue (if truthy (jsonError e) then [] else jsonError e) e.

(** ** Validation, tabs and saving *)

Section checked.
Context (URL : jstr → option (jstr * jstr)).

Definition validationError (e : Editor) : option AdvancedCustomValidationError :=
  validateAdvancedCustomConfig URL (Some (normalizedConfig e)).
Definition canFixCatchAllOrder (e : Editor) : bool :=
  bool_decide (message <$> validationError e = Some catchAllOrderErrorMessage).

(** The configuration of the text, or nothing, and the error that is shown. *)
Definition parseJsonEditorConfig (e : Editor) : option (option AdvancedCustomConfig * Editor) :=
  parsed ← parseAdvancedCustomConfig (Some (jsonText e));
  Some (match parsed with
        | None => (None, with_json (jsonText e) (js "Invalid JSON") e)
        | Some c =>
            match validateAdvancedCustomConfig URL (Some c) with
            | Some error => (None, with_json (jsonText e) (message error) e)
            | None => (Some c, with_json (jsonText e) [] e)
            end
        end).

(** There are no other tabs. *)
Definition switchTab (nextTab : tab) (e : Editor) : option Editor :=
  match activeTab e with
  | json_tab =>
      '(parsed, e) ← parseJsonEditorConfig e;
      Some (match parsed with
            | None => e
            | Some parsed =>
                let normalized := normalizeAdvancedCustomConfig parsed in
                with_tab nextTab (fresh_keys (length (default [] (advanced_routes normalized))) (with_config normalized e))
            end)
  | _ =>
      Some (with_tab nextTab
              (match nextTab with
               | json_tab => with_json (stringifyAdvancedCustomConfig (normalizedConfig e)) [] e
               | _ => e
               end))
  end.

Definition saveConfig (e : Editor) : option Editor :=
  match activeTab e with
  | json_tab =>
      '(parsed, e) ← parseJsonEditorConfig e;
      Some (match parsed with None => e | Some parsed => hand_on (stringifyAdvancedCustomConfig parsed) e end)
  | _ =>
      Some (match validationError e with
            | Some _ => e
            | None => hand_on (stringifyAdvancedCustomConfig (normalizedConfig e)) e
            end)
  end.

(** ** Everything that can happen to the dialog *)

Inductive event :=
| Open (value : option jstr) | EditRow (index : nat) (change : row_edit) | AddRoute (path : option jstr) | AddSplit (path : jstr)
| RemoveRoute (index : nat) | GroupPath (group : AdvancedCustomRouteGroup) (path : option jstr)
| MoveRoute (index : nat) (direction : Z) | MoveToEnd (index : nat) | FixOrder | Manage (path : jstr) (m : management_edit)
| SetExpanded (path : jstr) (expanded : bool) | CollapseAll | ExpandAll | SelectTemplate (key : jstr) | ApplyTemplate
| TypeJson (text : jstr) | SwitchTab (t : tab) | Save.

Definition handle (ev : event) (e : Editor) : option Editor :=
  match ev with
  | Open value => open_dialog value e
  | EditRow index change => edit_row index change e
  | AddRoute path => Some (addRoute path e)
  | AddSplit path => Some (addRouteForIncomingPath path e)
  | RemoveRoute index => Some (removeRoute index e)
  | GroupPath group path => Some (updateGroupIncomingPath group path e)
  | MoveRoute index direction => moveRouteWithinGroup index direction e
  | MoveToEnd index => moveRouteToGroupEnd index e
  | FixOrder => Some (fixCatchAllOrder e)
  | Manage path m => Some (manage path m e)
  | SetExpanded path expanded => Some (setGroupExpanded path expanded e)
  | CollapseAll => Some (collapseAll e)
  | ExpandAll => Some (expandAll e)
  | SelectTemplate key => Some (selectTemplate key e)
  | ApplyTemplate => Some (applySelectedTemplate e)
  | TypeJson text => Some (handleJsonChange text e)
  | SwitchTab t => switchTab t e
  | Save => saveConfig e
  end.
End checked.

End RouteEditor.
