(* ===== verification/AdvancedCustomEditorFacts.v ===== *)
(** * Facts about the editor of advanced custom routes

    Repairing the order keeps routes and keys together, moves only routes of the
    same incoming path and succeeds whenever any order of the routes is valid;
    what is saved is valid and reads back; what happens to typed model rules. *)

From stdpp Require Import sorting.
From S2P Require Import Prelude JsValue JsCollections StringFacts NumberText JsonText JsonParsed AdvancedCustom.
From S2P Require Import AdvancedCustomFacts ChannelForm ChannelFormFacts AdvancedCustomEditor.
Import AdvancedCustom AdvancedText RouteEditor.

(** ** Lists by key *)

Section keyed.
Context {A : Type} (key : A → jstr).

Definition at_key (p : jstr) (l : list A) : list A := filter (λ x, key x = p) l.

Lemma at_key_cons p x l : at_key p (x :: l) = if decide (key x = p) then x :: at_key p l else at_key p l.
Proof. unfold at_key. by rewrite filter_cons. Qed.

(** Lists that agree up to order at every key agree up to order. *)
Lemma keyed_perm l k : (∀ p, at_key p l ≡ₚ at_key p k) → l ≡ₚ k.
Proof.
  revert k. induction l as [|x l IH]; intros k H.
  - destruct k as [|y k]; [done|]. specialize (H (key y)). rewrite at_key_cons, decide_True in H by done.
    by apply Permutation_nil_cons in H.
  - assert (x ∈ k) as [k' Hk]%elem_of_Permutation.
    { assert (x ∈ at_key (key x) k) as [_ Hx]%list_elem_of_filter; [|done].
      rewrite <-(H (key x)), at_key_cons, decide_True by done. left. }
    rewrite Hk. constructor. apply IH. intros p. specialize (H p). unfold at_key in H. rewrite Hk in H.
    fold (at_key p (x :: l)) (at_key p (x :: k')) in H. rewrite !at_key_cons in H.
    destruct (decide (key x = p)); [by apply Permutation_cons_inv in H|done].
Qed.
End keyed.

(** ** The order of rows *)

Lemma bool_filter {A} (P : A → bool) l : List.filter P l = filter (λ x, P x = true) l.
Proof. induction l as [|x l IH]; [done|]. cbn [List.filter]. rewrite filter_cons, IH. by destruct (P x). Qed.

Lemma filter_split {A} (P : A → bool) l : List.filter (λ x, negb (P x)) l ++ List.filter P l ≡ₚ l.
Proof.
  induction l as [|x l IH]; [done|]. cbn [List.filter]. destruct (P x); cbn [negb app]; [|by rewrite IH].
  by rewrite <-Permutation_middle, IH.
Qed.

Lemma rows_by_path rows p :
  mget p (rowsByPath rows) = match at_key row_path p rows with [] => None | l => Some l end.
Proof.
  unfold rowsByPath. induction rows as [|row rows IH] using rev_ind; [done|].
  rewrite foldl_app. cbn [foldl]. rewrite mget_mupdate, IH. unfold at_key. rewrite list.filter_app, filter_cons, filter_nil.
  destruct (decide (row_path row = p)); [|by rewrite app_nil_r].
  by destruct (filter _ rows).
Qed.

Lemma mget_map_values {A B} (f : A → B) (m : list (jstr * A)) p : mget p (map (λ '(k, v), (k, f v)) m) = f <$> mget p m.
Proof. induction m as [|[k v] m IH]; [done|]. cbn [map mget]. by destruct (decide (k = p)). Qed.

(** Rows that take the queues of their paths: at every path they become the queue. *)
Lemma shift_rows_spec rows queues :
  (∀ p, let q := default [] (mget p queues) in length q = length (at_key row_path p rows) ∧ Forall (λ r, row_path r = p) q) →
  map row_path (shift_rows rows queues) = map row_path rows
  ∧ ∀ p, at_key row_path p (shift_rows rows queues) = default [] (mget p queues).
Proof.
  revert queues. induction rows as [|row rows IH]; intros queues H; cbn [shift_rows map].
  - split; [done|]. intros p. destruct (H p) as [Hl _]. symmetry. by apply length_zero_iff_nil.
  - destruct (H (row_path row)) as [Hl Hq]. rewrite at_key_cons, decide_True in Hl by done.
    destruct (mget (row_path row) queues) as [[|next queue]|] eqn:E; [done| |done]. cbn [default] in Hl, Hq.
    apply list.Forall_cons in Hq as [Hn Hq]. destruct (IH (mset (row_path row) queue queues)) as [IH1 IH2].
    { intros p. cbn zeta. rewrite mget_mset. destruct (H p) as [Hp1 Hp2]. rewrite at_key_cons in Hp1.
      destruct (decide (row_path row = p)) as [<-|]; [|done]. split; [by apply Nat.succ_inj|done]. }
    cbn [map]. rewrite IH1, Hn. split; [done|]. intros p. rewrite at_key_cons, Hn, IH2, mget_mset.
    destruct (decide (row_path row = p)) as [<-|]; [|done]. by rewrite E.
Qed.

Definition is_forwarding (row : AdvancedCustomRouteRow) : bool := negb (isAdvancedCustomManagementPath (row_path row)).

(** The rows after a repair, and where they stand. *)
Definition repaired (rows : list AdvancedCustomRouteRow) : list AdvancedCustomRouteRow :=
  shift_rows rows (map (λ '(path, rows), (path, orderedRows rows)) (rowsByPath rows)).

Lemma ordered_perm rows : orderedRows rows ≡ₚ rows.
Proof.
  apply (filter_split (λ row, isCatchAllRoute (row_route row))).
Qed.

Lemma repaired_spec rows :
  map row_path (repaired rows) = map row_path rows
  ∧ ∀ p, at_key row_path p (repaired rows) = orderedRows (at_key row_path p rows).
Proof.
  assert (∀ p, default [] (mget p (map (λ '(path, rows), (path, orderedRows rows)) (rowsByPath rows)))
               = orderedRows (at_key row_path p rows)) as Hq.
  { intros p. rewrite mget_map_values, rows_by_path. by destruct (at_key row_path p rows). }
  destruct (shift_rows_spec rows (map (λ '(path, rows), (path, orderedRows rows)) (rowsByPath rows))) as [H1 H2].
  { intros p. rewrite Hq. cbn zeta. rewrite ordered_perm. split; [done|].
    unfold at_key. apply list.Forall_forall. by intros r [Hr _]%list_elem_of_filter. }
  split; [done|]. intros p. by rewrite <-Hq.
Qed.

Lemma repaired_perm rows : repaired rows ≡ₚ rows.
Proof. apply (keyed_perm row_path). intros p. by rewrite (proj2 (repaired_spec rows)), ordered_perm. Qed.

(** ** Putting rows back *)

Definition merged (rows next : list AdvancedCustomRouteRow) : list AdvancedCustomRouteRow :=
  refill (λ row _, row) (map (λ row, (row_path row, row)) rows) next.

Lemma refill_map {A} (pick : AdvancedCustomRouteRow → A → A) (f : AdvancedCustomRouteRow → A) rows next :
  Forall (λ row, ∀ x, pick row x = f row) next →
  refill pick (map (λ row, (row_path row, f row)) rows) next = map f (merged rows next).
Proof.
  unfold merged. revert next. induction rows as [|row rows IH]; intros next H; [done|]. cbn [map refill].
  destruct (isAdvancedCustomManagementPath (row_path row)); [cbn [map]; by rewrite IH|].
  destruct next as [|n next]; cbn [map]; [by rewrite IH|].
  apply list.Forall_cons in H as [Hn H]. by rewrite IH, Hn.
Qed.

Lemma merged_spec rows next :
  map row_path next = map row_path (List.filter is_forwarding rows) →
  map row_path (merged rows next) = map row_path rows
  ∧ List.filter is_forwarding (merged rows next) = next
  ∧ List.filter (λ row, negb (is_forwarding row)) (merged rows next) = List.filter (λ row, negb (is_forwarding row)) rows.
Proof.
  unfold merged. revert next. induction rows as [|row rows IH]; intros next H; cbn [map refill List.filter] in *.
  { by destruct next. }
  assert (is_forwarding row = negb (isAdvancedCustomManagementPath (row_path row))) as Hf by done.
  destruct (isAdvancedCustomManagementPath (row_path row)) eqn:E; cbn [negb] in Hf; rewrite Hf in H |- *; cbn [negb map List.filter] in *.
  - destruct (IH next H) as (H1 & H2 & H3). rewrite Hf. cbn [negb]. by rewrite H1, H2, H3.
  - destruct next as [|n next]; [done|]. cbn [map] in H. injection H as Hn H.
    destruct (IH next H) as (H1 & H2 & H3). cbn [map List.filter].
    assert (is_forwarding n = true) as Hfn by (unfold is_forwarding; by rewrite Hn, E).
    rewrite Hfn. cbn [negb]. by rewrite H1, H2, H3, Hn.
Qed.

Lemma at_key_filter (P : AdvancedCustomRouteRow → bool) p rows :
  (∀ row, row_path row = p → P row = true) → at_key row_path p (List.filter P rows) = at_key row_path p rows.
Proof.
  intros H. induction rows as [|row rows IH]; [done|]. cbn [List.filter]. rewrite at_key_cons.
  destruct (decide (row_path row = p)) as [Hp|Hp].
  - by rewrite (H row Hp), at_key_cons, decide_True, IH.
  - destruct (P row); [by rewrite at_key_cons, decide_False, IH|done].
Qed.

(** What a repair makes of all rows. *)
Definition repaired_rows (rows : list AdvancedCustomRouteRow) : list AdvancedCustomRouteRow :=
  merged rows (repaired (List.filter is_forwarding rows)).

Lemma repaired_rows_spec rows :
  map row_path (repaired_rows rows) = map row_path rows
  ∧ ∀ p, at_key row_path p (repaired_rows rows)
         = if isAdvancedCustomManagementPath p then at_key row_path p rows else orderedRows (at_key row_path p rows).
Proof.
  destruct (repaired_spec (List.filter is_forwarding rows)) as [Hp Hk].
  destruct (merged_spec rows _ Hp) as (H1 & H2 & H3). split; [done|]. intros p. unfold repaired_rows.
  destruct (isAdvancedCustomManagementPath p) eqn:E.
  - rewrite <-(at_key_filter (λ row, negb (is_forwarding row)) p (merged rows _)), H3, at_key_filter;
      [done|intros row <-; unfold is_forwarding; by rewrite E..].
  - rewrite <-(at_key_filter is_forwarding p (merged rows _)), H2, Hk, at_key_filter;
      [done|intros row <-; unfold is_forwarding; by rewrite E..].
Qed.

Lemma repaired_rows_perm rows : repaired_rows rows ≡ₚ rows.
Proof.
  apply (keyed_perm row_path). intros p. rewrite (proj2 (repaired_rows_spec rows)).
  destruct (isAdvancedCustomManagementPath p); [done|apply ordered_perm].
Qed.

(** ** The rows of the editor *)

Lemma row_of_key keys i r : routeKey (row_of keys i r) ≠ [].
Proof.
  assert (∀ a b, b ≠ [] → opt_or_else a b ≠ []) as H by (intros [[|x a]|] b Hb; by cbn).
  unfold row_of. cbn [routeKey]. by do 4 apply H.
Qed.

Lemma all_rows_map {B} (f : AdvancedCustomRouteRow → B) (g : AdvancedCustomRoute → B) e :
  (∀ keys i r, f (row_of keys i r) = g r) → map f (allRouteRows e) = map g (routes e).
Proof.
  intros H. unfold allRouteRows. change (f <$> imap (row_of (routeKeys e)) (routes e) = g <$> routes e).
  rewrite fmap_imap, <-imap_const. apply imap_ext. intros i r _. by apply H.
Qed.

(** The state after a repair. *)
Lemma fix_order_state e :
  fixCatchAllOrder e =
    replaceRoutes (map row_route (repaired_rows (allRouteRows e))) (map routeKey (repaired_rows (allRouteRows e))) e.
Proof.
  unfold fixCatchAllOrder. cbn zeta.
  change (forwardingRows e) with (List.filter is_forwarding (allRouteRows e)).
  fold (repaired (List.filter is_forwarding (allRouteRows e))). f_equal.
  - rewrite <-(all_rows_map (λ row, (row_path row, row_route row)) (λ r, (getRouteIncomingPath r, r))) by done.
    apply (refill_map (λ row _, row_route row) row_route). by apply list.Forall_forall.
  - apply (refill_map (λ row key, or_else (routeKey row) key) routeKey).
    rewrite repaired_perm. apply list.Forall_forall. intros row Hr x.
    apply list_elem_of_In, filter_In in Hr as [Hr%list_elem_of_In _]. apply elem_of_lookup_imap in Hr as (i & r & -> & _).
    unfold or_else. by rewrite (proj2 (truthy_true _) (row_of_key _ _ _)).
Qed.

Lemma routes_with l e : Forall (λ r, normalizeAdvancedCustomRoute r = r) l → routes (with_config (mkConfig (Some l)) e) = l.
Proof.
  intros H. change (map normalizeAdvancedCustomRoute l = l).
  induction H as [|r l Hr _ IH]; [done|]. cbn [map]. by rewrite Hr, IH.
Qed.

Lemma routes_normalized e : Forall (λ r, normalizeAdvancedCustomRoute r = r) (routes e).
Proof. apply list.Forall_forall. intros r Hr. apply list_elem_of_In, in_map_iff in Hr as (r' & <- & _). apply normalize_route_idem. Qed.

Definition specific (r : AdvancedCustomRoute) : bool := negb (isCatchAllRoute r).

Lemma ordered_routes rows :
  map row_route (orderedRows rows)
  = List.filter specific (map row_route rows) ++ List.filter isCatchAllRoute (map row_route rows).
Proof.
  unfold orderedRows. rewrite map_app. f_equal.
  - induction rows as [|row rows IH]; [done|]. cbn [List.filter map]. unfold specific at 1.
    destruct (isCatchAllRoute (row_route row)); cbn [negb map]; by rewrite IH.
  - induction rows as [|row rows IH]; [done|]. cbn [List.filter map].
    destruct (isCatchAllRoute (row_route row)); cbn [map]; by rewrite IH.
Qed.

Lemma at_path_routes p rows : at_key route_path p (map row_route rows) = map row_route (at_key row_path p rows).
Proof.
  induction rows as [|row rows IH]; [done|]. cbn [map]. rewrite !at_key_cons, IH.
  change (route_path (row_route row)) with (row_path row). by destruct (decide (row_path row = p)).
Qed.

(** The routes of a repaired editor: the paths stand where they stood, and at each forwarding path the
    catch-all routes follow the others. *)
Lemma fixed_routes e : let e' := fixCatchAllOrder e in
  routes e' ≡ₚ routes e ∧ map route_path (routes e') = map route_path (routes e)
  ∧ ∀ p, at_key route_path p (routes e')
         = if isAdvancedCustomManagementPath p then at_key route_path p (routes e)
           else List.filter specific (at_key route_path p (routes e)) ++ List.filter isCatchAllRoute (at_key route_path p (routes e)).
Proof.
  cbn zeta. destruct (repaired_rows_spec (allRouteRows e)) as [Hp Hk].
  assert (map row_route (allRouteRows e) = routes e) as Hr by (rewrite (all_rows_map row_route id); [apply map_id|done]).
  assert (map row_route (repaired_rows (allRouteRows e)) ≡ₚ routes e) as Hperm.
  { rewrite <-Hr. apply Permutation_map, repaired_rows_perm. }
  assert (routes (fixCatchAllOrder e) = map row_route (repaired_rows (allRouteRows e))) as ->.
  { rewrite fix_order_state. apply routes_with. rewrite Hperm. apply routes_normalized. }
  split; [done|]. split.
  - rewrite <-Hr, !map_map. exact Hp.
  - intros p. rewrite at_path_routes, Hk, <-Hr, at_path_routes.
    destruct (isAdvancedCustomManagementPath p); [done|apply ordered_routes].
Qed.

(** ** Valid orders *)

Lemma sorted_lookup {A} (R : A → A → Prop) l :
  StronglySorted R l ↔ ∀ i j x y, (i < j)%nat → l !! i = Some x → l !! j = Some y → R x y.
Proof.
  split.
  - intros H. induction H as [|z l _ IH Hz]; intros i j x y Hij Hi Hj; [done|].
    destruct i as [|i], j as [|j]; [lia| |lia|].
    + cbn in Hi, Hj. simplify_eq. rewrite list.Forall_forall in Hz. apply Hz. by eapply list_elem_of_lookup_2.
    + apply (IH i j); [lia|done|done].
  - induction l as [|z l IH]; intros H; constructor.
    + apply IH. intros i j x y Hij. apply (H (S i) (S j)). lia.
    + apply list.Forall_forall. intros y [j Hj]%list_elem_of_lookup. by apply (H 0%nat (S j)); [lia|..].
Qed.

Lemma sorted_symmetric {A} (R : A → A → Prop) l k :
  (∀ x y, R x y → R y x) → l ≡ₚ k → StronglySorted R l → StronglySorted R k.
Proof.
  intros Hs Hp. induction Hp as [|x l k Hp IH|x y l|l k m _ IH1 _ IH2]; intros H.
  - done.
  - apply StronglySorted_inv in H as [H Hx]. constructor; [by apply IH|by rewrite <-Hp].
  - apply StronglySorted_inv in H as [[H Hx]%StronglySorted_inv Hy]. apply list.Forall_cons in Hy as [Hyx Hy].
    constructor; [by constructor|]. constructor; [by apply Hs|done].
  - by apply IH2, IH1.
Qed.

(** Within a path, an order is right if no two routes share a rule and only the last one is a catch-all. *)
Definition apart (q r : AdvancedCustomRoute) : Prop := ∀ m, m ∈ route_models q → m ∉ route_models r.

Lemma compatible_apart l p :
  StronglySorted compatible (at_key route_path p l) →
  StronglySorted apart (at_key route_path p l)
  ∧ (length (filter (λ r, route_models r = []) (at_key route_path p l)) ≤ 1)%nat.
Proof.
  assert (Forall (λ r, route_path r = p) (at_key route_path p l)) as Hp.
  { apply list.Forall_forall. by intros r [? _]%list_elem_of_filter. }
  revert Hp. generalize (at_key route_path p l) as k. intros k Hp H. induction H as [|q k _ IH Hq]; [split; [constructor|cbn; lia]|].
  apply list.Forall_cons in Hp as [Hqp Hp]. destruct (IH Hp) as [IH1 IH2].
  assert (Forall (λ r, route_models q ≠ [] ∧ apart q r) k) as Hqk.
  { apply list.Forall_forall. intros r Hr. rewrite list.Forall_forall in Hq, Hp. apply (Hq r Hr). by rewrite Hqp, (Hp r Hr). }
  split.
  - constructor; [done|]. eapply list.Forall_impl; [exact Hqk|]. by intros r [_ ?].
  - rewrite filter_cons. destruct (decide (route_models q = [])) as [E|]; [|done].
    destruct Hqk as [|r k [Hn _] _]; [cbn; lia|done].
Qed.

Lemma catch_all_models r : normalizeAdvancedCustomRoute r = r → isCatchAllRoute r = true ↔ route_models r = [].
Proof.
  intros <-. rewrite normalized_models. unfold isCatchAllRoute, normalizeAdvancedCustomRoute, route_models. cbn [models].
  by destruct (normalizeAdvancedCustomRouteModels (models r)).
Qed.

Lemma list_filter_iff' {A} (P Q : A → Prop) `{∀ x, Decision (P x), ∀ x, Decision (Q x)} l :
  Forall (λ x, P x ↔ Q x) l → filter P l = filter Q l.
Proof.
  induction 1 as [|x l Hx _ IH]; [done|]. rewrite !filter_cons, IH. by destruct (decide (P x)), (decide (Q x)); try tauto.
Qed.

(** Any order with the catch-all routes last is right if some order is. *)
Lemma ordered_compatible l k p :
  Forall (λ r, normalizeAdvancedCustomRoute r = r) l → l ≡ₚ k → StronglySorted compatible (at_key route_path p k) →
  StronglySorted compatible (List.filter specific (at_key route_path p l) ++ List.filter isCatchAllRoute (at_key route_path p l)).
Proof.
  intros Hn Hp [Ha Hc]%compatible_apart. assert (at_key route_path p l ≡ₚ at_key route_path p k) as Hk by (unfold at_key; by rewrite Hp).
  rewrite <-Hk in Hc. apply (sorted_symmetric apart _ (at_key route_path p l)) in Ha; [|intros x y H m Hy Hx; by apply (H m)|done].
  revert Ha Hc. assert (Forall (λ r, normalizeAdvancedCustomRoute r = r) (at_key route_path p l)) as Hl.
  { apply list.Forall_forall. intros r [_ Hr]%list_elem_of_filter. rewrite list.Forall_forall in Hn. by apply Hn. }
  revert Hl. generalize (at_key route_path p l) as K. clear. intros K Hn Ha Hc.
  assert (List.filter isCatchAllRoute K = filter (λ r, route_models r = []) K) as Hcatch.
  { rewrite bool_filter. apply list_filter_iff'. eapply list.Forall_impl; [exact Hn|]. intros r. apply catch_all_models. }
  apply (sorted_symmetric apart _ (List.filter specific K ++ List.filter isCatchAllRoute K)) in Ha;
    [|intros x y H m Hy Hx; by apply (H m)|symmetry; apply filter_split].
  apply sorted_lookup. intros i j q r Hij Hi Hj _. split; [|by eapply sorted_lookup in Ha].
  intros Hq. rewrite Hcatch in *.
  apply lookup_app_Some in Hi as [Hi|[Hlen Hi]].
  - apply list_elem_of_lookup_2, list_elem_of_In, filter_In in Hi as [Hi Hs].
    rewrite list.Forall_forall in Hn. apply list_elem_of_In, Hn, catch_all_models in Hi. unfold specific in Hs.
    by rewrite (proj2 Hi Hq) in Hs.
  - apply lookup_app_Some in Hj as [Hj%lookup_lt_Some|[_ Hj%lookup_lt_Some]]; lia.
Qed.

Lemma sorted_by_path l : StronglySorted compatible l ↔ ∀ p, StronglySorted compatible (at_key route_path p l).
Proof.
  split.
  - intros H p. induction H as [|r l _ IH Hr]; [constructor|]. rewrite at_key_cons. destruct (decide _); [|done].
    constructor; [done|]. apply list.Forall_forall. intros x [_ Hx]%list_elem_of_filter. rewrite list.Forall_forall in Hr. by apply Hr.
  - induction l as [|r l IH]; intros H; constructor.
    + apply IH. intros p. specialize (H p). rewrite at_key_cons in H.
      destruct (decide (route_path r = p)); [by apply StronglySorted_inv in H as [? _]|done].
    + apply list.Forall_forall. intros x Hx Hp. specialize (H (route_path r)). rewrite at_key_cons, decide_True in H by done.
      apply StronglySorted_inv in H as [_ H]. rewrite list.Forall_forall in H. apply H; [|done].
      apply list_elem_of_filter. by rewrite Hp.
Qed.

Section repair.
Context (URL : jstr → option (jstr * jstr)).

Lemma fixed_valid e l : l ≡ₚ routes e → ValidRoutes URL l → ValidRoutes URL (routes (fixCatchAllOrder e)).
Proof.
  intros Hp [Hv Hc%sorted_lookup]. destruct (fixed_routes e) as (Hperm & _ & Hat). split.
  - by rewrite Hperm, <-Hp.
  - apply sorted_lookup, sorted_by_path. intros p. rewrite Hat. rewrite sorted_by_path in Hc. specialize (Hc p).
    destruct (isAdvancedCustomManagementPath p) eqn:Em.
    + assert (at_key route_path p l ≡ₚ at_key route_path p (routes e)) as Hk by (unfold at_key; by rewrite Hp).
      assert (length (at_key route_path p l) ≤ 1)%nat as Hl.
      { apply compatible_apart in Hc as [_ Hc]. rewrite filter_everything in Hc; [done|].
        apply list.Forall_forall. intros r [Hr Hrl]%list_elem_of_filter. rewrite list.Forall_forall in Hv.
        apply (vr_management URL _ (Hv r Hrl)). unfold is_management. by rewrite Hr. }
      rewrite Hk in Hl. destruct (at_key route_path p (routes e)) as [|r [|]]; [constructor|repeat constructor|cbn in Hl; lia].
    + by apply (ordered_compatible _ l); [apply routes_normalized| |].
Qed.

(** ** The error that offers a repair *)

Lemma check_models_message index ms seen known : check_models index ms seen known ≠ inl catchAllOrderErrorMessage.
Proof.
  revert seen known. induction ms as [|m ms IH]; intros seen known; cbn [check_models]; [done|].
  destruct (match getAdvancedCustomModelRuleKind m with exact_rule => false | regex_rule => _ end);
    [apply (bool_decide_unpack _); by vm_compute|].
  destruct (bool_decide (m ∈ seen)); [apply (bool_decide_unpack _); by vm_compute|].
  destruct (bool_decide (is_Some (known !! m))); [apply (bool_decide_unpack _); by vm_compute|apply IH].
Qed.

Lemma auth_message a : validateRouteAuth a ≠ Some catchAllOrderErrorMessage.
Proof.
  destruct a as [a|]; [|done]. cbn [validateRouteAuth].
  repeat match goal with |- (if ?b then _ else _) ≠ _ => destruct b end; done || apply (bool_decide_unpack _); by vm_compute.
Qed.

Definition left_or_nil {B} (x : jstr + B) : jstr := match x with inl e => e | inr _ => [] end.

(** The message is another one. *)
Ltac other_message H :=
  apply (f_equal left_or_nil) in H; exfalso; revert H; cbn [left_or_nil]; apply (bool_decide_unpack _); by vm_compute.

Lemma management_message index i u c ms st :
  check_management index i u c ms st ≠ inl catchAllOrderErrorMessage.
Proof.
  unfold check_management. cbn zeta. destruct (negb (isAdvancedCustomManagementPath i)); [done|].
  destruct (i === ADVANCED_CUSTOM_MODEL_LIST_PATH);
    repeat match goal with |- (if ?b then _ else _) ≠ _ => destruct b end; try done; intros H; other_message H.
Qed.

Lemma order_message_route index r ps st :
  knows ps st → validate_route URL index r st = inl catchAllOrderErrorMessage →
  is_management r = false ∧ route_models r ≠ [] ∧ ∃ q, q ∈ ps ∧ route_path q = route_path r ∧ route_models q = [].
Proof.
  intros K H. unfold validate_route in H. cbn zeta in H. fold (route_models r) in H. fold (route_converter r) in H.
  destruct (negb (truthy (route_path r))); [other_message H|].
  destruct (negb (startsWith (route_path r) (js "/"))); [other_message H|].
  destruct (includes (route_path r) (js "?")); [other_message H|].
  pose proof (check_management_spec URL index r ps st K) as Hm.
  destruct (check_management _ _ _ _ _ _) as [e|st1] eqn:Ec.
  { destruct (management_message index (route_path r) (getAdvancedCustomRouteUpstreamPath r) (route_converter r) (route_models r) st).
    rewrite Ec. apply (f_equal left_or_nil) in H. cbn [left_or_nil] in H. by subst e. }
  destruct Hm as (Hman & Hby & _). rewrite Hby in H.
  destruct (k_paths _ _ K (route_path r)) as [Kc _]. unfold state_of in Kc. unfold validateAdvancedCustomRouteModels in H.
  cbn zeta in H. destruct (catchAllIndex (default (mkPathState None ∅) (routeModelsByPath st !! route_path r))) as [c|] eqn:Ecatch.
  - assert (route_models r ≠ []) as Hne by (intros Hm; rewrite Hm in H; other_message H).
    split_and!; [|done|by apply Kc].
    destruct (is_management r) eqn:Em; [|done]. by destruct (Hman eq_refl) as [[? _] _].
  - exfalso. destruct (match route_models r with [] => _ | _ => _ end) as [e|byPath] eqn:Ev.
    { apply (f_equal left_or_nil) in H. cbn [left_or_nil] in H. subst e. destruct (route_models r) as [|m ms]; [done|].
      destruct (check_models index (m :: ms) [] _) as [e|known] eqn:Ecm; [|done].
      apply (check_models_message index (m :: ms) [] (path_models (default (mkPathState None ∅) (routeModelsByPath st !! route_path r)))).
      rewrite Ecm. apply (f_equal left_or_nil) in Ev. by cbn in Ev; subst e. }
    repeat match type of H with (if ?b then _ else _) = _ => destruct b; [other_message H|] end.
    destruct (validateRouteAuth (auth r)) as [e|] eqn:Ea; [|done]. apply (auth_message (auth r)). rewrite Ea.
    apply (f_equal left_or_nil) in H. cbn [left_or_nil] in H. by subst e.
Qed.

Lemma order_message_routes rest ps st e :
  ValidRoutes URL ps → knows ps st → validate_routes URL (length ps) rest st = Some e → message e = catchAllOrderErrorMessage →
  ∃ l1 r l2 q, rest = l1 ++ r :: l2 ∧ q ∈ ps ++ l1 ∧ route_path q = route_path r ∧ route_models q = []
               ∧ is_management r = false ∧ route_models r ≠ [].
Proof.
  revert ps st. induction rest as [|r rest IH]; intros ps st V K H Hmsg; [done|]. cbn [validate_routes] in H.
  pose proof (validate_route_spec URL (length ps) r ps st (proj1 V) K) as Hr.
  destruct (validate_route URL (length ps) r st) as [m|st'] eqn:Ev.
  - apply (inj Some) in H as <-. cbn [message] in Hmsg. subst m.
    destruct (order_message_route _ _ _ _ K Ev) as (Hm & Hne & q & Hq & Hp & Hqm).
    exists [], r, rest, q. rewrite app_nil_r. by split_and!.
  - destruct Hr as (Hv & Hc & Hk). destruct (IH (ps ++ [r]) st') as (l1 & r' & l2 & q & -> & Hq & H').
    + by apply ValidRoutes_snoc.
    + done.
    + by rewrite length_app, Nat.add_1_r.
    + done.
    + exists (r :: l1), r', l2, q. split; [done|]. by rewrite <-app_assoc in Hq.
Qed.

Lemma catch_alls_last l :
  StronglySorted (λ x y, isCatchAllRoute x = true → isCatchAllRoute y = true)
    (List.filter specific l ++ List.filter isCatchAllRoute l).
Proof.
  assert (∀ k, Forall (λ r, isCatchAllRoute r = true) k ∨ Forall (λ r, isCatchAllRoute r = false) k →
            StronglySorted (λ x y, isCatchAllRoute x = true → isCatchAllRoute y = true) k) as Hk.
  { intros k H. induction k as [|r k IH]; constructor.
    - apply IH. destruct H as [H|H]; apply list.Forall_cons in H as [_ H]; [by left|by right].
    - destruct H as [H|H]; apply list.Forall_cons in H as [Hr H]; (eapply list.Forall_impl; [exact H|]); intros y Hy; [done|congruence]. }
  apply StronglySorted_app_2.
  - by intros x y _ [_ Hy]%list_elem_of_In%filter_In.
  - apply Hk. right. apply list.Forall_forall. intros r [_ Hr]%list_elem_of_In%filter_In. by apply negb_true_iff.
  - apply Hk. left. apply list.Forall_forall. by intros r [_ Hr]%list_elem_of_In%filter_In.
Qed.

(** After a repair the error that offers one is gone. *)
Lemma fixed_message e : canFixCatchAllOrder URL (fixCatchAllOrder e) = false.
Proof.
  apply bool_decide_eq_false. intros (err & He & Hmsg)%fmap_Some. destruct (fixed_routes e) as (_ & _ & Hat).
  unfold validationError, validateAdvancedCustomConfig, normalizedConfig in He. rewrite normalized_routes_idem in He.
  change (normalized_routes (config (fixCatchAllOrder e))) with (routes (fixCatchAllOrder e)) in He.
  revert He Hat. generalize (routes_normalized (fixCatchAllOrder e)). generalize (routes (fixCatchAllOrder e)) as rs.
  intros rs Hn He Hat. destruct rs as [|r0 rs0] eqn:Ers.
  { apply (inj Some) in He as <-. cbn [message] in Hmsg. revert Hmsg. apply (bool_decide_unpack _). by vm_compute. }
  rewrite <-Ers in *. destruct (order_message_routes rs [] (mkState ∅ None None) err) as (l1 & r & l2 & q & Hrs & Hq & Hp & Hqm & Hm & Hrm).
  { split; [constructor|]. intros i j x y _ Hi. by rewrite lookup_nil in Hi. }
  { apply knows_nil. }
  { done. }
  { done. }
  specialize (Hat (route_path r)). unfold is_management in Hm. rewrite Hm in Hat. cbn [app] in Hq.
  assert (StronglySorted (λ x y, isCatchAllRoute x = true → isCatchAllRoute y = true) (at_key route_path (route_path r) rs)) as Hs.
  { rewrite Hat. apply catch_alls_last. }
  unfold at_key in Hs. rewrite Hrs, list.filter_app in Hs. rewrite list.Forall_forall in Hn.
  assert (isCatchAllRoute q = true) as Hcq.
  { apply catch_all_models; [|done]. apply Hn. rewrite Hrs. set_solver. }
  apply Hrm, catch_all_models; [apply Hn; rewrite Hrs; set_solver|].
  refine (StronglySorted_app_1_elem_of _ _ _ q r Hs _ _ Hcq).
  - by apply list_elem_of_filter.
  - rewrite filter_cons, decide_True by done. left.
Qed.

End repair.

Lemma zip_rows e : zip (routes e) (map routeKey (allRouteRows e)) = map (λ row, (row_route row, routeKey row)) (allRouteRows e).
Proof.
  replace (routes e) with (map row_route (allRouteRows e)) by (rewrite (all_rows_map row_route id); [apply map_id|done]).
  induction (allRouteRows e) as [|row rows IH]; [done|]. cbn [map zip_with]. by rewrite IH.
Qed.

Lemma fixed_rows e :
  map (λ row, (row_route row, routeKey row)) (allRouteRows (fixCatchAllOrder e))
  = map (λ row, (row_route row, routeKey row)) (repaired_rows (allRouteRows e)).
Proof.
  set (rows := repaired_rows (allRouteRows e)).
  assert (Forall (λ row, normalizeAdvancedCustomRoute (row_route row) = row_route row ∧ routeKey row ≠ []) rows) as Hrows.
  { unfold rows. rewrite repaired_rows_perm. apply list.Forall_forall. intros row (i & r & -> & Hr)%elem_of_lookup_imap.
    split; [|apply row_of_key]. cbn [row_route row_of]. pose proof (routes_normalized e) as Hn.
    rewrite list.Forall_forall in Hn. apply Hn. by eapply list_elem_of_lookup_2. }
  assert (allRouteRows (fixCatchAllOrder e) = imap (row_of (map routeKey rows)) (map row_route rows)) as ->.
  { rewrite fix_order_state. fold rows. unfold allRouteRows, replaceRoutes. f_equal.
    apply routes_with, List.Forall_map. eapply list.Forall_impl; [exact Hrows|]. by intros row [? _]. }
  apply list_eq. intros i. rewrite !list_lookup_fmap, list_lookup_imap, list_lookup_fmap.
  destruct (rows !! i) as [row|] eqn:Ei; [|done]. cbn [fmap option_fmap option_map]. f_equal. unfold row_of. cbn [row_route routeKey].
  f_equal. rewrite list_lookup_fmap, Ei. cbn [fmap option_fmap option_map opt_or_else]. unfold or_else.
  rewrite list.Forall_forall in Hrows. destruct (Hrows row) as [_ Hk]; [by eapply list_elem_of_lookup_2|].
  by rewrite (proj2 (truthy_true _) Hk).
Qed.

(** [C7] Repairing the order of the routes: every route keeps its key, the
    incoming paths and the management routes stay where they stand, the
    catch-all routes of a path follow its other routes, both in their order,
    the error that offers the repair is gone, and if there is any order of
    the routes that is valid, the repaired one is. *)
Theorem fix_order_repairs URL e : let e' := fixCatchAllOrder e in
  zip (routes e') (map routeKey (allRouteRows e')) ≡ₚ zip (routes e) (map routeKey (allRouteRows e))
  ∧ map route_path (routes e') = map route_path (routes e)
  ∧ (∀ p, at_key route_path p (routes e')
          = if isAdvancedCustomManagementPath p then at_key route_path p (routes e)
            else List.filter specific (at_key route_path p (routes e)) ++ List.filter isCatchAllRoute (at_key route_path p (routes e)))
  ∧ canFixCatchAllOrder URL e' = false
  ∧ ((∃ l, l ≡ₚ routes e ∧ validateAdvancedCustomConfig URL (Some (mkConfig (Some l))) = None) → validationError URL e' = None).
Proof.
  cbn zeta. destruct (fixed_routes e) as (Hp & Hpath & Hat). split_and!; [|done|done|apply fixed_message|].
  - by rewrite !zip_rows, fixed_rows, repaired_rows_perm.
  - intros (l & Hl & Hv%accepts_valid). apply accepts_valid.
    assert (normalized_routes (mkConfig (Some l)) = l) as Hnl by (apply (routes_with l e); rewrite Hl; apply routes_normalized).
    destruct Hv as [Hne Hv Hc]. rewrite Hnl in *.
    destruct (fixed_valid URL e l Hl (conj Hv Hc)) as [Hv' Hc'].
    split; unfold normalizedConfig; rewrite normalized_routes_idem; [|done..].
    change (routes (fixCatchAllOrder e) ≠ []). intros E. rewrite E in Hp. apply Permutation_nil in Hp. rewrite Hp in Hl.
    symmetry in Hl. by apply Permutation_nil in Hl.
Qed.

(** ** Typing model rules *)

Lemma split_trailing c s : split1 c (s ++ [c]) = split1 c s ++ [[]].
Proof.
  induction s as [|x s IH]; cbn [app split1]; [by rewrite N.eqb_refl|]. rewrite IH.
  destruct (x =? c)%N; [done|]. destruct (split1 c s) eqn:E; [by apply split1_nonempty in E|done].
Qed.

(** The rules of a text, as the next render has them. *)
Definition rules_of_text (v : jstr) : list jstr := filter_truthy (map trim (split1 44%N v)).

Lemma typed_rules v :
  normalizeAdvancedCustomRouteModels (Some (if v === [] then [] else split1 44%N v)) = rules_of_text v.
Proof. destruct (v === []) eqn:E; [|done]. apply jeqb_true in E as ->. by vm_compute. Qed.

Lemma rules_trailing_comma v : rules_of_text (v ++ js ",") = rules_of_text v.
Proof.
  unfold rules_of_text. change (js ",") with [44%N]. rewrite split_trailing, map_app. unfold filter_truthy.
  rewrite list.filter_app. cbn [map]. rewrite (filter_cons_False _ (trim [])) by (intros H; by apply H). by rewrite filter_nil, app_nil_r.
Qed.

Lemma updated_routes e i p r :
  routes e !! i = Some r →
  ∃ e', updateRoute i p e = Some e' ∧ routes e' = <[i := normalizeAdvancedCustomRoute (patched p r)]> (routes e).
Proof.
  intros H. unfold updateRoute. rewrite H. eexists. split; [done|].
  change (normalizeAdvancedCustomRoute <$> <[i := patched p r]> (routes e)
          = <[i := normalizeAdvancedCustomRoute (patched p r)]> (routes e)).
  rewrite list_fmap_insert. f_equal. apply (routes_with _ e), routes_normalized.
Qed.

(** A comma that is typed at the end of the model rules of a route is lost:
    the field shows the rules of the normalized routes, so after the comma it
    shows, and holds, what it held before, and the next character continues the
    last rule instead of starting a new one. *)
Theorem typed_comma_is_lost e i v :
  (i < length (routes e))%nat →
  ∃ e1 e2, updateRoute i (setModelsInput v) e = Some e1 ∧ updateRoute i (setModelsInput (v ++ js ",")) e = Some e2
    ∧ routes e2 = routes e1
    ∧ modelsInputValue <$> routes e1 !! i = Some (join (js ", ") (rules_of_text v)).
Proof.
  intros [r Hr]%lookup_lt_is_Some_2.
  destruct (updated_routes e i (setModelsInput v) r Hr) as (e1 & H1 & R1).
  destruct (updated_routes e i (setModelsInput (v ++ js ",")) r Hr) as (e2 & H2 & R2).
  assert (∀ w, normalizeAdvancedCustomRoute (patched (setModelsInput w) r)
               = mkRoute (incoming_path (normalizeAdvancedCustomRoute r)) (upstream_path (normalizeAdvancedCustomRoute r))
                   (converter (normalizeAdvancedCustomRoute r)) (match rules_of_text w with [] => None | ms => Some ms end)
                   (auth (normalizeAdvancedCustomRoute r))) as Hw.
  { intros w. destruct r as [a b c ms d]. unfold normalizeAdvancedCustomRoute, setModelsInput. cbn zeta.
    cbn [patched models]. rewrite typed_rules. by destruct (rules_of_text w). }
  exists e1, e2. split_and!; [done|done| |].
  - by rewrite R1, R2, !Hw, rules_trailing_comma.
  - rewrite R1, list_lookup_insert_eq, Hw by by eapply lookup_lt_Some. cbn [fmap option_fmap option_map]. f_equal.
    unfold modelsInputValue. cbn [models]. by destruct (rules_of_text v).
Qed.

(** An editor with one route, which has no model rules. *)
Definition one_route : Editor :=
  mkEditor createAdvancedCustomConfig [js "advanced-custom-route-1"] 1%N forwarding [] [] (js "all_protocols") false ∅ [] true.

Lemma typed_comma_is_lost_witness :
  (0 < length (routes one_route))%nat
  ∧ ∃ e1 e2, updateRoute 0 (setModelsInput (js "gpt-4")) one_route = Some e1
      ∧ updateRoute 0 (setModelsInput (js "gpt-4" ++ js ",")) one_route = Some e2
      ∧ routes e2 = routes e1
      ∧ modelsInputValue <$> routes e1 !! 0%nat = Some (join (js ", ") (rules_of_text (js "gpt-4"))).
Proof. split; [vm_compute; lia|]. apply (typed_comma_is_lost one_route 0 (js "gpt-4")). vm_compute. lia. Defined.

(** Typing key by key: every event hands on the text of the field with one more character. *)
Definition type_key (i : nat) (e : Editor) (c : N) : Editor :=
  default e (updateRoute i (setModelsInput (default [] (modelsInputValue <$> routes e !! i) ++ [c])) e).

Example typed_rules_run_together :
  modelsInputValue <$> routes (foldl (type_key 0) one_route (js "gpt-4,o3")) !! 0%nat = Some (js "gpt-4o3")
  ∧ modelsInputValue <$> routes (default one_route (updateRoute 0 (setModelsInput (js "gpt-4,o3")) one_route)) !! 0%nat
    = Some (js "gpt-4, o3").
Proof. by vm_compute. Qed.

(** ** Keys of rows *)

(** The keys do not follow the management routes: after both have been added, two routes added to a group are drawn with
    the same key. *)
Example added_routes_share_a_key :
  let e := manage ADVANCED_CUSTOM_BALANCE_PATH AddManagement (manage ADVANCED_CUSTOM_MODEL_LIST_PATH AddManagement one_route) in
  let e := addRouteForIncomingPath openAIChatPath (addRouteForIncomingPath openAIChatPath e) in
  map (λ g, (group_path g, map routeKey (routeRows g))) (routeGroups e)
  = [(openAIChatPath, [js "advanced-custom-route-1"; openAIChatPath; openAIChatPath])].
Proof. by vm_compute. Qed.

(** Moving the first route of a group up is disabled: [at(-1)] would swap it with the last one. *)
Example moving_up_wraps_around :
  let e := addRouteForIncomingPath openAIChatPath one_route in
  map routeKey ∘ allRouteRows <$> moveRouteWithinGroup 0 (-1) e = Some [js "advanced-custom-route-2"; js "advanced-custom-route-1"].
Proof. by vm_compute. Qed.
