(* ===== verification/AdvancedCustomEditorReach.v ===== *)
(** * What the editor of advanced custom routes hands on

    In every state that the dialog can reach, every text it has saved reads back
    as a valid configuration. *)

From S2P Require Import Prelude JsValue JsCollections StringFacts NumberText JsonText JsonParsed AdvancedCustom.
From S2P Require Import AdvancedCustomFacts ModelPricingFacts ChannelForm ChannelFormFacts AdvancedCustomEditor AdvancedCustomEditorFacts.
Import AdvancedCustom AdvancedText RouteEditor.

(** ** Configurations of 16-bit strings *)

Definition opt_units (s : option jstr) : Prop := from_option units True s.
Definition plain_auth (a : AdvancedCustomRouteAuth) : Prop := opt_units (auth_type a) ∧ opt_units (auth_name a) ∧ opt_units (auth_value a).
Definition plain_route (r : AdvancedCustomRoute) : Prop :=
  opt_units (incoming_path r) ∧ opt_units (upstream_path r) ∧ opt_units (converter r)
  ∧ from_option (Forall units) True (models r) ∧ from_option plain_auth True (auth r).
Definition plain_config (c : AdvancedCustomConfig) : Prop := Forall plain_route (default [] (advanced_routes c)).

Lemma units_nil : units [].
Proof. constructor. Qed.
Lemma opt_units_default s : opt_units s → units (default [] s).
Proof. destruct s; [done|]. intros _. apply units_nil. Qed.
Lemma units_or s d : opt_units s → units d → units (opt_or_else s d).
Proof. destruct s as [s|]; [|done]. cbn. unfold or_else. by destruct (truthy s). Qed.
#[local] Hint Resolve units_nil units_js units_trim opt_units_default units_or : plain.

Lemma units_split c s : units s → Forall units (split1 c s).
Proof.
  intros H. induction s as [|x s IH]; cbn [split1]; [repeat constructor|]. apply list.Forall_cons in H as [Hx H].
  specialize (IH H). destruct (x =? c)%N; [by constructor; [constructor|]|].
  destruct (split1 c s) as [|w ws]; [by repeat constructor|]. apply list.Forall_cons in IH as [Hw Hws].
  constructor; [by constructor|done].
Qed.

Lemma units_rules l : Forall units l → Forall units (filter_truthy (map trim l)).
Proof.
  intros H. apply list.Forall_forall. intros s [_ Hs]%list_elem_of_filter. apply list_elem_of_In, in_map_iff in Hs as (x & <- & Hx).
  rewrite list.Forall_forall in H. apply units_trim, H. by apply list_elem_of_In.
Qed.

Lemma plain_normalize r : plain_route r → plain_route (normalizeAdvancedCustomRoute r).
Proof.
  intros (Hi & Hu & Hc & Hm & Ha). unfold plain_route, normalizeAdvancedCustomRoute. cbn zeta.
  cbn [incoming_path upstream_path converter models auth]. split_and!.
  - by apply opt_units_default.
  - by apply units_trim, opt_units_default.
  - by apply units_or; [|apply units_js].
  - destruct (models r) as [l|]; [|done]. cbn [normalizeAdvancedCustomRouteModels]. cbn in Hm. apply units_rules in Hm.
    by destruct (filter_truthy (map trim l)).
  - destruct (auth r) as [a|]; [|done]. destruct Ha as (H1 & H2 & H3). cbn. split_and!; [done|by apply opt_units_default..].
Qed.

Lemma plain_routes e : plain_config (config e) → Forall plain_route (routes e).
Proof.
  intros H. change (Forall plain_route (map normalizeAdvancedCustomRoute (default [] (advanced_routes (config e))))).
  apply List.Forall_map. eapply list.Forall_impl; [exact H|]. apply plain_normalize.
Qed.

(** ** Reading and printing them *)

Lemma tidy_field k fs v : tidy (JObj fs) → field_get k fs = Some v → tidy v.
Proof.
  intros [_ H]%tidy_obj Hg. apply field_get_elem in Hg. rewrite list.Forall_forall in H. by apply (H (k, v)).
Qed.

Lemma read_string k fs s : tidy (JObj fs) → opt_string (field_get k fs) = Some s → opt_units s.
Proof.
  intros Ht H. destruct (field_get k fs) as [v|] eqn:E; cbn in H; [|by simplify_eq].
  apply (tidy_field _ _ _ Ht) in E. destruct v; by simplify_eq.
Qed.

Lemma read_auth k fs a : tidy (JObj fs) → auth_of_json (field_get k fs) = Some a → from_option plain_auth True a.
Proof.
  intros Ht H. destruct (field_get k fs) as [v|] eqn:E; [|by cbn in H; simplify_eq]. apply (tidy_field _ _ _ Ht) in E.
  destruct v; cbn [auth_of_json] in H; try by simplify_eq.
  apply bind_Some in H as (ty & Hty & (n & Hn & (x & Hx & H)%bind_Some)%bind_Some). simplify_eq.
  cbn. split_and!; by eapply read_string.
Qed.

Lemma read_route v r : tidy v → route_of_json v = Some r → plain_route r.
Proof.
  intros Ht H. destruct v as [| | | | |fs]; try done. cbn [route_of_json] in H.
  apply bind_Some in H as (i & Hi & H). apply bind_Some in H as (u & Hu & H). apply bind_Some in H as (c & Hc & H).
  apply bind_Some in H as (ms & Hms & H). apply bind_Some in H as (a & Ha & H). simplify_eq.
  split_and!; [by eapply read_string..| |by eapply read_auth].
  cbn [models]. destruct (field_get (js "models") fs) as [v|] eqn:E; [|by cbn in Hms; simplify_eq]. apply (tidy_field _ _ _ Ht) in E.
  destruct v; cbn [opt_strings] in Hms; try by simplify_eq.
  apply fmap_Some in Hms as (l' & Hl & ->). cbn. apply mapM_Some in Hl. rewrite tidy_arr in E. clear -Hl E.
  induction Hl as [|x s l l' Hx _ IH]; [constructor|]. apply list.Forall_cons in E as [Hxt E].
  constructor; [destruct x; by simplify_eq|by apply IH].
Qed.

(** A text whose value, if it has one, is tidy. *)
Definition reads_tidy (text : jstr) : Prop := ∀ v, JSON_parse text = Some v → tidy v.

Lemma reads_units text : units text → reads_tidy text.
Proof. intros H v. by apply parsed_tidy. Qed.

Lemma parsed_plain text c : reads_tidy text → parseAdvancedCustomConfig (Some text) = Some (Some c) → plain_config c.
Proof.
  intros Hv Hp. unfold parseAdvancedCustomConfig in Hp. destruct (negb _); [done|].
  change (default [] (Some text)) with text in Hp.
  destruct (JSON_parse text) as [v|] eqn:E; [|done]. apply Hv in E. destruct v as [| | | | |fs]; try done.
  apply bind_Some in Hp as (c' & Hc & Hp). do 2 apply (inj Some) in Hp. subst c.
  apply List.Forall_map. unfold config_of_json in Hc.
  destruct (field_get (js "advanced_routes") fs) as [v|] eqn:Ef; [|by simplify_eq; constructor].
  apply (tidy_field _ _ _ E) in Ef. destruct v; try (simplify_eq; constructor).
  apply fmap_Some in Hc as (rs & Hrs & ->). cbn. apply mapM_Some in Hrs. rewrite tidy_arr in Ef. clear -Hrs Ef.
  induction Hrs as [|x r l l' Hx _ IH]; [constructor|]. apply list.Forall_cons in Ef as [Hxt Ef].
  constructor; [by eapply plain_normalize, read_route|by apply IH].
Qed.

Lemma read_config value c : opt_units value → read_value value = Some c → plain_config c.
Proof.
  intros Hv H. apply bind_Some in H as (parsed & Hp & H). apply (inj Some) in H as <-.
  assert (plain_config createAdvancedCustomConfig) as Hd by (repeat constructor; cbn; apply units_js).
  destruct parsed as [c|]; [|done]. destruct value as [text|]; [|done]. apply (parsed_plain text); [by apply reads_units|done].
Qed.

Lemma storable_opt k v : from_option storable True v → Forall (λ e, units e.1 ∧ storable e.2) (opt_field k v).
Proof. destruct v as [v|]; [|constructor]. cbn. intros H. constructor; [|constructor]. split; [apply units_js|done]. Qed.

Lemma storable_strings (s : option jstr) : opt_units s → from_option storable True (JStr <$> s).
Proof. by destruct s. Qed.

Lemma storable_auth a : plain_auth a → storable (auth_json a).
Proof.
  intros (H1 & H2 & H3). unfold auth_json. apply storable_obj. split.
  - generalize (JStr <$> auth_type a) as x, (JStr <$> auth_name a) as y, (JStr <$> auth_value a) as z.
    by intros [] [] []; vm_compute.
  - rewrite !list.Forall_app. split_and!; by apply storable_opt, storable_strings.
Qed.

Lemma storable_route r : plain_route r → storable (route_json r).
Proof.
  intros (Hi & Hu & Hc & Hm & Ha). unfold route_json. apply storable_obj. split.
  - generalize (JStr <$> incoming_path r) as a, (JStr <$> upstream_path r) as b, (JStr <$> converter r) as c,
      ((λ ms, JArr (map JStr ms)) <$> models r) as d, (auth_json <$> auth r) as x.
    by intros [] [] [] [] []; vm_compute.
  - rewrite !list.Forall_app. split_and!; apply storable_opt; try by apply storable_strings.
    + destruct (models r) as [l|]; [|done]. cbn [fmap option_fmap option_map from_option]. apply storable_arr, List.Forall_map.
      eapply list.Forall_impl; [exact Hm|done].
    + destruct (auth r) as [a|]; [|done]. by apply storable_auth.
Qed.

Lemma storable_config c : plain_config c → storable (config_json c).
Proof.
  intros H. unfold config_json. apply storable_obj. split.
  - generalize ((λ rs, JArr (map route_json rs)) <$> advanced_routes c) as a. by intros []; vm_compute.
  - apply storable_opt. unfold plain_config in H. destruct (advanced_routes c) as [l|]; [|done].
    cbn [fmap option_fmap option_map from_option default] in *. apply storable_arr, List.Forall_map.
    eapply list.Forall_impl; [exact H|]. apply storable_route.
Qed.

Lemma normalize_config_idem c :
  normalizeAdvancedCustomConfig (normalizeAdvancedCustomConfig c) = normalizeAdvancedCustomConfig c.
Proof.
  change (mkConfig (Some (map normalizeAdvancedCustomRoute (map normalizeAdvancedCustomRoute (default [] (advanced_routes c)))))
          = mkConfig (Some (map normalizeAdvancedCustomRoute (default [] (advanced_routes c))))).
  rewrite map_map. do 2 f_equal. apply map_ext, normalize_route_idem.
Qed.

(** A printed configuration reads back, normalized. *)
Lemma printed_config_reads c :
  plain_config c → parseAdvancedCustomConfig (Some (stringifyAdvancedCustomConfig c)) = Some (Some (normalizeAdvancedCustomConfig c)).
Proof.
  intros H. set (n := normalizeAdvancedCustomConfig c).
  assert (storable (config_json n)) as Hs.
  { apply storable_config. apply List.Forall_map. eapply list.Forall_impl; [exact H|]. apply plain_normalize. }
  destruct (config_json_reads n) as (fs & Hj & Hr); [done|].
  unfold parseAdvancedCustomConfig, stringifyAdvancedCustomConfig. fold n. rewrite Hj in Hs |- *.
  assert (trim (JSON_stringify_2 (JObj fs)) = JSON_stringify_2 (JObj fs)) as Ht by by apply printed_trim.
  rewrite trimmed_Some, Ht. change (default [] (Some (JSON_stringify_2 (JObj fs)))) with (JSON_stringify_2 (JObj fs)).
  rewrite stringify_2_parse by done.
  assert (truthy (JSON_stringify_2 (JObj fs)) = true) as ->.
  { unfold JSON_stringify_2. cbn [JSON_print]. unfold block. by destruct (map _ fs). }
  cbn [negb]. rewrite Hr. cbn [mbind option_bind]. unfold n. by rewrite normalize_config_idem.
Qed.

(** ** Handlers keep them *)

Definition plain_edit (change : row_edit) : Prop :=
  match change with
  | TypeModels v | LeaveModels v | TypeUpstream v | ChooseConverter v | TypeAuth _ v => units v
  | ChooseAuth _ => True
  end.
Definition plain_management (m : management_edit) : Prop :=
  match m with ManagementUpstream v | ManagementAuth _ v => units v | _ => True end.
(** What is typed and chosen is made of 16-bit strings. *)
Definition plain_event (ev : event) : Prop :=
  match ev with
  | Open value => opt_units value
  | EditRow _ change => plain_edit change
  | AddRoute path | GroupPath _ path => opt_units path
  | AddSplit path | TypeJson path => units path
  | Manage path m => units path ∧ plain_management m
  | _ => True
  end.

Lemma plain_mk ty n v : opt_units ty → opt_units n → opt_units v → plain_auth (mkAuth ty n v).
Proof. intros. unfold plain_auth. by split_and!. Qed.

Lemma plain_auth_mode mode a : from_option plain_auth True a → from_option plain_auth True (buildAdvancedCustomAuth mode a).
Proof.
  intros H. unfold buildAdvancedCustomAuth. cbn zeta.
  assert (opt_units (a ≫= auth_name) ∧ opt_units (a ≫= auth_value)) as [Hn Hv] by (destruct a; [by destruct H as (? & ? & ?)|done]).
  destruct (mode === js "default"); [done|]. destruct (mode === js "none"); [by apply plain_mk; [apply units_js|..]|].
  destruct (mode === js "header"); (apply plain_mk; [apply units_js|apply units_or; [done|apply units_js]..]).
Qed.

Lemma plain_edit_auth field v a a' : units v → from_option plain_auth True a → edit_auth field v a = Some a' → plain_auth a'.
Proof.
  intros Hv Ha H. destruct a as [a|]; [|done]. cbn [edit_auth] in H. destruct (bool_decide _); [done|]. destruct Ha as (H1 & H2 & H3).
  destruct field; simplify_eq; split_and!; cbn; try done; by apply opt_units_default.
Qed.

Definition plain_patch (p : patch) : Prop :=
  match p with
  | PatchModels ms => Forall units ms
  | PatchUpstream path => units path
  | PatchAuth a => from_option plain_auth True a
  | PatchConverter conv incoming upstream a => units conv ∧ units incoming ∧ units upstream ∧ from_option plain_auth True a
  end.

Lemma plain_patched p r : plain_patch p → plain_route r → plain_route (patched p r).
Proof. destruct r. intros Hp (H1 & H2 & H3 & H4 & H5). destruct p; cbn in *; destruct_and?; by split_and!. Qed.

Lemma plain_insert i p rs r : Forall plain_route rs → rs !! i = Some r → plain_patch p → Forall plain_route (<[i := patched p r]> rs).
Proof.
  intros H Hr Hp. apply Forall_insert; [done|]. apply plain_patched; [done|]. rewrite list.Forall_forall in H. apply H.
  by eapply list_elem_of_lookup_2.
Qed.

(** The paths and authentications of the source itself. *)
Lemma source_auth path : plain_auth (getAdvancedCustomNativeAuth path).
Proof.
  unfold getAdvancedCustomNativeAuth.
  destruct (path === claudeMessagesPath); [apply plain_mk; apply units_js|].
  destruct (_ || _); apply plain_mk; apply units_js.
Qed.

Lemma source_path conv : units (getDefaultAdvancedCustomIncomingPath conv).
Proof.
  unfold getDefaultAdvancedCustomIncomingPath. apply units_or; [|apply units_js].
  destruct (head (getAdvancedCustomIncomingPathOptions conv)) as [o|] eqn:E; [|done]. cbn [fmap option_fmap option_map].
  apply head_Some_elem_of, list_elem_of_In, filter_In in E as [E _].
  assert (Forall (λ o, units (path_value o)) ADVANCED_CUSTOM_INCOMING_PATH_OPTIONS) as H by (repeat constructor; apply units_js).
  rewrite list.Forall_forall in H. by apply H, list_elem_of_In.
Qed.

Lemma plain_converter_defaults conv incoming : units incoming →
  units (default_upstream_path (getAdvancedCustomConverterDefaults conv incoming))
  ∧ from_option plain_auth True (default_auth (getAdvancedCustomConverterDefaults conv incoming)).
Proof.
  intros H. unfold getAdvancedCustomConverterDefaults. cbn zeta.
  set (n := or_else (trim incoming) (getDefaultAdvancedCustomIncomingPath conv)).
  assert (units n) as Hn by (apply (units_or (Some (trim incoming))); [by apply units_trim|apply source_path]).
  assert (units (or_else n openAIChatPath)) as Hn' by (apply (units_or (Some n)); [done|apply units_js]).
  repeat match goal with |- context [if ?b then _ else _] => destruct b end;
    (split; [done || apply units_js|apply source_auth || (apply plain_mk; apply units_js)]).
Qed.

Lemma plain_set_converter r conv : plain_route r → units conv → plain_patch (setConverter r conv).
Proof.
  intros (Hi & _) Hc. unfold setConverter. cbn zeta.
  assert (units (row_incoming_path r)) as Hp by (apply units_or; [done|apply source_path]).
  set (next := if isAdvancedCustomIncomingPathAllowed _ _ then _ else _).
  assert (units next) as Hn by (unfold next; destruct (isAdvancedCustomIncomingPathAllowed _ _); [done|apply source_path]).
  destruct (plain_converter_defaults conv next Hn) as [Hu Ha]. by split_and!.
Qed.

Lemma stringified_tidy c : plain_config c → reads_tidy (stringifyAdvancedCustomConfig c).
Proof.
  intros H v Hv. unfold stringifyAdvancedCustomConfig in Hv. 
  assert (storable (config_json (normalizeAdvancedCustomConfig c))) as Hs.
  { apply storable_config, List.Forall_map. eapply list.Forall_impl; [exact H|]. apply plain_normalize. }
  rewrite stringify_2_parse in Hv by done. apply (inj Some) in Hv as <-. by apply storable_tidy.
Qed.

Section reach.
Context (URL : jstr → option (jstr * jstr)).

Definition valid_text (text : jstr) : Prop :=
  ∃ c, parseAdvancedCustomConfig (Some text) = Some (Some c) ∧ validateAdvancedCustomConfig URL (Some c) = None.

Record sound (e : Editor) : Prop := {
  sound_config : plain_config (config e);
  sound_json : reads_tidy (jsonText e);
  sound_saved : Forall valid_text (saved e);
}.

(** Changes of the routes only. *)
Lemma sound_routes e e' : sound e → Forall plain_route (default [] (advanced_routes (config e'))) →
  jsonText e' = jsonText e → saved e' = saved e → sound e'.
Proof. intros [Hc Hj Hs] H E1 E2. split; [done|by rewrite E1|by rewrite E2]. Qed.

Lemma sound_update i p e e' : sound e → plain_patch p → updateRoute i p e = Some e' → sound e'.
Proof.
  intros Hs Hp H. pose proof (plain_routes e (sound_config e Hs)) as Hr. unfold updateRoute in H.
  destruct (routes e !! i) as [r|] eqn:E.
  - apply (inj Some) in H as <-. eapply sound_routes; [done| |done|done]. by apply plain_insert.
  - destruct (i =? length (routes e))%nat; [|done]. apply (inj Some) in H as <-. eapply sound_routes; [done| |done|done].
    apply list.Forall_app. split; [done|]. constructor; [|constructor]. by apply plain_patched.
Qed.

Lemma sound_edit i change e e' : sound e → plain_edit change → edit_row i change e = Some e' → sound e'.
Proof.
  intros Hs Hp H. apply bind_Some in H as (r & Hr & H).
  assert (plain_route r) as Hplain.
  { pose proof (plain_routes e (sound_config e Hs)) as Hall. rewrite list.Forall_forall in Hall. apply Hall.
    by eapply list_elem_of_lookup_2. }
  destruct change as [v|v|v|conv|mode|field v]; cbn [plain_edit] in Hp.
  - eapply sound_update; [done| |exact H]. cbn. destruct (v === []); [constructor|by apply units_split].
  - eapply sound_update; [done| |exact H]. cbn. unfold parseAdvancedCustomRouteModels. apply list.Forall_forall.
    intros s Hin. rewrite dedup_elem in Hin. apply (units_split 44%N), units_rules in Hp. rewrite list.Forall_forall in Hp. exact (Hp s Hin).
  - by eapply sound_update; [done| |exact H].
  - eapply sound_update; [done| |exact H]. by apply plain_set_converter.
  - eapply sound_update; [done| |exact H]. apply plain_auth_mode, Hplain.
  - unfold updateAuth in H. rewrite Hr in H. cbn [mbind option_bind] in H.
    destruct (edit_auth field v (auth r)) as [a|] eqn:Ea; [|by apply (inj Some) in H as <-].
    eapply sound_update; [done| |exact H]. refine (plain_edit_auth field v (auth r) a Hp _ Ea). apply Hplain.
Qed.

Lemma plain_new path : units path → plain_route (new_route path).
Proof. intros H. unfold plain_route, new_route. cbn zeta. cbn [incoming_path upstream_path converter models auth]. split_and!; done || apply units_js. Qed.

Lemma sound_append path e : sound e → units path → sound (append_route path e).
Proof.
  intros Hs Hp. eapply sound_routes; [done| |done|done]. apply list.Forall_app.
  split; [by apply plain_routes, Hs|]. constructor; [by apply plain_new|constructor].
Qed.

(** Replacing the routes by others made of them. *)
Lemma sound_replace rs keys e : sound e → Forall plain_route rs → sound (replaceRoutes rs keys e).
Proof. intros Hs H. by eapply sound_routes. Qed.

Lemma Forall_swap {A} (P : A → Prop) i j l : Forall P l → Forall P (swap i j l).
Proof.
  intros H. unfold swap. destruct (l !! i) eqn:Ei, (l !! j) eqn:Ej; try done. rewrite list.Forall_forall in H.
  repeat apply Forall_insert; try (apply H; by eapply list_elem_of_lookup_2). by apply list.Forall_forall.
Qed.

Lemma Forall_delete' {A} (P : A → Prop) i l : Forall P l → Forall P (delete i l).
Proof.
  intros H. apply list.Forall_forall. intros x Hx. rewrite list.Forall_forall in H. apply H. by eapply elem_of_submseteq, submseteq_delete.
Qed.

Lemma Forall_move {A} (P : A → Prop) i j l : Forall P l → Forall P (move i j l).
Proof.
  intros H. unfold move. destruct (l !! i) as [x|] eqn:E; [|done]. pose proof (Forall_delete' P i l H) as Hd.
  apply list.Forall_app. split; [by apply Forall_take|]. constructor; [|by apply Forall_drop].
  rewrite list.Forall_forall in H. apply H. by eapply list_elem_of_lookup_2.
Qed.

Lemma plain_moved path r : units path → plain_route r → plain_route (moved_to_path path r).
Proof.
  intros Hp (H1 & H2 & H3 & H4 & H5). unfold moved_to_path. destruct (path === ADVANCED_CUSTOM_MODEL_LIST_PATH).
  - unfold plain_route. cbn [incoming_path upstream_path converter models auth]. split_and!; [done|apply units_js|apply units_js|constructor|done].
  - unfold plain_route. cbn zeta. cbn [incoming_path upstream_path converter models auth]. split_and!; [done|done| |done|done].
    destruct (isAdvancedCustomIncomingPathAllowed _ _); [apply units_or; [done|]|]; apply units_js.
Qed.

Lemma sound_manage path m e : sound e → units path → plain_management m → sound (manage path m e).
Proof.
  intros Hs Hp Hm. pose proof (plain_routes e (sound_config e Hs)) as Hall.
  assert (∀ r, plain_route r → plain_route (management_route path r)) as Hman.
  { intros r (H1 & H2 & H3 & H4 & H5). unfold plain_route, management_route. cbn [incoming_path upstream_path converter models auth].
    split_and!; [done|by apply opt_units_default|apply units_js|constructor|done]. }
  assert (∀ route, from_option plain_route True route → sound (changeManagementRoute path route e)) as Hchange.
  { intros route Hr. eapply sound_routes; [done| |done|done].
    change (normalized_routes (config e)) with (routes e) in *.
    unfold changeManagementRoute, replaceAdvancedCustomManagementRoute. cbn [config with_config advanced_routes default from_option].
    change (normalized_routes (config e)) with (routes e).
    destruct route as [r|], (find_index (has_path path) (routes e)) as [k|]; cbn [default from_option].
    - apply Forall_insert; [done|by apply Hman].
    - apply list.Forall_app. split; [done|]. constructor; [by apply Hman|constructor].
    - apply list.Forall_app. split; [by apply Forall_take|by apply Forall_drop].
    - done. }
  unfold manage. destruct (getAdvancedCustomManagementRoute (normalizedConfig e) path) as [r|] eqn:Er.
  2:{ destruct m; try done. apply Hchange. unfold createAdvancedCustomManagementRoute. cbn [from_option]. unfold plain_route.
      cbn [incoming_path upstream_path converter models auth]. split_and!; [done|done|apply units_js|constructor|done]. }
  assert (plain_route r) as Hr.
  { unfold getAdvancedCustomManagementRoute in Er. apply find_some in Er as [Hin _].
    unfold normalizedConfig in Hin. rewrite normalized_routes_idem in Hin. rewrite list.Forall_forall in Hall. by apply Hall, list_elem_of_In. }
  destruct m as [| |u|mode|field v]; try done.
  - by apply Hchange.
  - apply Hchange. by apply (plain_patched (PatchUpstream u)).
  - apply Hchange, (plain_patched (setAuthMode r mode)); [|done]. apply plain_auth_mode, Hr.
  - destruct (edit_auth field v (auth r)) as [a|] eqn:Ea; [|done]. apply Hchange, (plain_patched (PatchAuth (Some a))); [|done].
    refine (plain_edit_auth field v (auth r) a Hm _ Ea). apply Hr.
Qed.

Lemma plain_some l : Forall plain_route l → plain_config (mkConfig (Some l)).
Proof. done. Qed.

Lemma plain_templates : Forall (λ t, plain_config (t_config t)) ADVANCED_CUSTOM_TEMPLATE_OPTIONS.
Proof.
  assert (∀ a p, plain_auth a → plain_route (native_route a (js p))) as Hn.
  { intros a p Ha. unfold plain_route, native_route. cbn [incoming_path upstream_path converter models auth].
    split_and!; done || apply units_js. }
  assert (plain_auth bearerHeaderAuth ∧ plain_auth apiKeyHeaderAuth ∧ plain_auth geminiQueryAuth) as (? & ? & ?).
  { split_and!; apply plain_mk; apply units_js. }
  repeat constructor; by apply Hn.
Qed.

Lemma sound_template e : sound e → sound (applySelectedTemplate e).
Proof.
  intros Hs. unfold applySelectedTemplate. destruct (selectedTemplate e) as [t|] eqn:Et; [|done].
  assert (plain_config (t_config t)) as Ht.
  { pose proof plain_templates as Hall. rewrite list.Forall_forall in Hall. apply Hall. unfold selectedTemplate in Et.
    destruct (List.find _ _) as [o|] eqn:Ef; [apply (inj Some) in Et as <-; apply find_some in Ef as [Ef _]; by apply list_elem_of_In|].
    by apply head_Some_elem_of. }
  cbn zeta. set (normalized := replaceAdvancedCustomForwardingRoutes _ _).
  assert (plain_config normalized) as Hn.
  { assert (Forall plain_route (normalized_routes (normalizedConfig e))) as Hall.
    { unfold normalizedConfig. rewrite normalized_routes_idem. by apply plain_routes, Hs. }
    set (tr := map _ _) in normalized. assert (Forall plain_route tr) as Htr.
    { apply List.Forall_map. eapply list.Forall_impl; [exact Ht|]. intros r (H1 & H2 & H3 & H4 & H5).
      unfold plain_route. cbn [incoming_path upstream_path converter models auth]. split_and!; try done. constructor. }
    assert (∀ l, Forall plain_route l → Forall plain_route (List.filter is_management l)) as Hf.
    { intros l H. apply list.Forall_forall. intros r Hr. apply list_elem_of_In, filter_In in Hr as [Hr _].
      rewrite list.Forall_forall in H. by apply H, list_elem_of_In. }
    unfold normalized, replaceAdvancedCustomForwardingRoutes.
    destruct (find_index _ _); apply plain_some; rewrite ?list.Forall_app;
      split_and!; try done; apply Hf; [by apply Forall_take|by apply Forall_drop|done]. }
  split; [exact Hn|exact (stringified_tidy _ Hn)|exact (sound_saved e Hs)].
Qed.

Lemma sound_open value e e' : sound e → opt_units value → open_dialog value e = Some e' → sound e'.
Proof.
  intros Hs Hv H. apply bind_Some in H as (c & Hc & H). apply (inj Some) in H as <-.
  assert (plain_config (normalizeAdvancedCustomConfig c)) as Hn.
  { apply List.Forall_map. eapply list.Forall_impl; [by eapply read_config|]. apply plain_normalize. }
  split; [exact Hn|exact (stringified_tidy _ Hn)|exact (sound_saved e Hs)].
Qed.

(** A configuration that passes validation is handed on as a valid text. *)
Lemma valid_stringified c : plain_config c → validateAdvancedCustomConfig URL (Some c) = None → valid_text (stringifyAdvancedCustomConfig c).
Proof.
  intros Hp Hv. eexists. split; [by apply printed_config_reads|].
  unfold validateAdvancedCustomConfig in Hv |- *. by rewrite normalized_routes_idem.
Qed.

Lemma parsed_editor e parsed e' : sound e → parseJsonEditorConfig URL e = Some (parsed, e') →
  sound e' ∧ ∀ c, parsed = Some c → plain_config c ∧ validateAdvancedCustomConfig URL (Some c) = None.
Proof.
  intros [Hc Hj Hs] H. apply bind_Some in H as (p & Hp & H).
  destruct p as [c|]; [destruct (validateAdvancedCustomConfig URL (Some c)) eqn:Ev|];
    apply (inj Some) in H; simplify_eq; (split; [by split|]); intros c' E; [done| |done].
  simplify_eq. split; [by eapply parsed_plain|done].
Qed.

Lemma sound_tab t e e' : sound e → switchTab URL t e = Some e' → sound e'.
Proof.
  intros Hs H. unfold switchTab in H.
  assert (∀ e1, sound e1 → sound (with_tab t e1)) as Ht by (intros e1 []; by split).
  destruct (activeTab e).
  1-3: apply (inj Some) in H as <-; apply Ht; destruct t; try done; split; [apply Hs| |apply Hs];
       cbn [jsonText with_json]; apply stringified_tidy, List.Forall_map; eapply list.Forall_impl; [apply Hs|apply plain_normalize].
  apply bind_Some in H as ([parsed e1] & Hp & H). apply (inj Some) in H as <-.
  destruct (parsed_editor _ _ _ Hs Hp) as [H1 H2]. destruct parsed as [c|]; [|done]. apply Ht.
  split; [|exact (sound_json e1 H1)|exact (sound_saved e1 H1)].
  apply List.Forall_map. eapply list.Forall_impl; [by apply H2|]. apply plain_normalize.
Qed.

Lemma sound_save e e' : sound e → saveConfig URL e = Some e' → sound e'.
Proof.
  intros Hs H. unfold saveConfig in H.
  assert (∀ e1 c, sound e1 → plain_config c → validateAdvancedCustomConfig URL (Some c) = None →
            sound (hand_on (stringifyAdvancedCustomConfig c) e1)) as Hh.
  { intros e1 c [Hc Hj Hsv] Hp Hv. split; [done|done|]. constructor; [by apply valid_stringified|done]. }
  destruct (activeTab e).
  1-3: apply (inj Some) in H as <-; destruct (validationError URL e) eqn:Ev; [done|]; apply Hh; [done| |done];
       apply List.Forall_map; eapply list.Forall_impl; [apply Hs|apply plain_normalize].
  apply bind_Some in H as ([parsed e1] & Hp & H). apply (inj Some) in H as <-.
  destruct (parsed_editor _ _ _ Hs Hp) as [H1 H2]. destruct parsed as [c|]; [|done].
  by apply Hh; [|apply H2..].
Qed.

Lemma sound_handle ev e e' : sound e → plain_event ev → handle URL ev e = Some e' → sound e'.
Proof.
  intros Hs Hp H. pose proof (plain_routes e (sound_config e Hs)) as Hall.
  destruct ev as [value|i change|path|path|i|group path|i dir|i| |path m|path b| | |key| |text|t|]; cbn [handle plain_event] in *;
    try (apply (inj Some) in H as <-).
  - by eapply sound_open.
  - by eapply sound_edit.
  - destruct path as [path|]; [|done]. cbn [addRoute]. destruct (_ || _); [done|]. by apply sound_append.
  - apply sound_append; [done|]. by apply (units_or (Some path)), units_js.
  - eapply sound_routes; [done| |done|done]. by apply Forall_delete'.
  - eapply sound_routes; [done| |done|done]. apply list.Forall_forall. intros r Hr.
    apply elem_of_lookup_imap in Hr as (k & r' & -> & Hr'). rewrite list.Forall_forall in Hall.
    assert (plain_route r') as Hr by (apply Hall; by eapply list_elem_of_lookup_2).
    destruct (has k _); [|done]. apply plain_moved; [|done]. apply units_or; [done|apply units_js].
  - apply bind_Some in H as (r & _ & H). apply (inj Some) in H as <-.
    destruct (at_ _ _) as [k|]; [|done]. unfold swapRoutes. destruct (i =? k)%nat; [done|]. by apply sound_replace, Forall_swap.
  - apply bind_Some in H as (r & _ & H). apply (inj Some) in H as <-.
    destruct (list.last _) as [k|]; [|done]. destruct (i =? k)%nat; [done|]. by apply sound_replace, Forall_move.
  - eapply sound_routes; [done| |by rewrite fix_order_state..].
    rewrite fix_order_state. change (Forall plain_route (map row_route (repaired_rows (allRouteRows e)))).
    rewrite repaired_rows_perm, (all_rows_map row_route id) by done. by rewrite map_id.
  - destruct Hp; by apply sound_manage.
  - by destruct Hs.
  - by destruct Hs.
  - by destruct Hs.
  - by destruct Hs.
  - by apply sound_template.
  - destruct Hs. split; [done|by apply reads_units|done].
  - by eapply sound_tab.
  - by eapply sound_save.
Qed.

(** The dialog is drawn first with some value, and then things happen to it. *)
Definition reachable (e : Editor) : Prop :=
  ∃ value e0, opt_units value ∧ mount value = Some e0 ∧ rtc (λ a b, ∃ ev, plain_event ev ∧ handle URL ev a = Some b) e0 e.

(** [C8] Whatever is opened, typed, chosen, moved, filled in and switched in the
    editor of advanced custom routes, every text it has handed to the channel
    form reads back as a configuration that validation accepts. *)
Theorem saved_routes_are_valid e : reachable e → Forall valid_text (saved e).
Proof.
  intros (value & e0 & Hv & Hm & Hsteps). apply sound_saved.
  apply bind_Some in Hm as (c & Hc & Hm). apply (read_config _ _ Hv) in Hc.
  assert (sound e0) as Hs.
  { apply (inj Some) in Hm as <-. split; [done|by apply stringified_tidy|constructor]. }
  clear Hm. induction Hsteps as [|a b d (ev & Hp & Hh) _ IH]; [done|]. apply IH. by eapply sound_handle.
Qed.
End reach.

Lemma saved_routes_are_valid_witness :
  let e := default one_route (mount None ≫= saveConfig no_URL) in saved e ≠ [] ∧ Forall (valid_text no_URL) (saved e).
Proof.
  cbn zeta. split; [by vm_compute|]. apply saved_routes_are_valid.
  exists None, (default one_route (mount None)). split_and!; [exact I|vm_compute; reflexivity|].
  apply rtc_once. exists Save. split; [exact I|]. vm_compute. reflexivity.
Defined.
