(* ===== verification/TableUrlState.v ===== *)
(** * Table state in the URL

    Models [hooks/use-table-url-state.ts]: the filters and the page of a table live
    in the search parameters of the URL, the page size also in [localStorage].

    The search is a finite map: a parameter set to [undefined] is one that is
    absent.  Numbers in it are integers.  [navigate] sets the search that the
    given function computes, on top of the history or in place of its last
    entry. *)

From S2P Require Import Prelude.

Module TableUrlState.

(** [unknown] values: those the code looks into, and the others. *)
Inductive value := Num (n : Z) | Str (s : jstr) | Arr (l : list value) | Other.
Abbreviation SearchRecord := (gmap jstr value).

(** *** [localStorage] *)

Definition PAGE_SIZE_STORAGE_KEY : jstr := js "page-size".

(** [parseInt(s, 10)] *)
Fixpoint leading_digits (s : jstr) : jstr :=
  match s with c :: r => if is_digit c then c :: leading_digits r else [] | [] => [] end.
Definition parseInt (s : jstr) : option Z :=
  let t := trim_start s in
  let '(sign, t) := match t with
                    | c :: r => if (c =? 43)%N then (1, r) else if (c =? 45)%N then (-1, r) else (1, t)
                    | [] => (1, t)
                    end in
  match leading_digits t with [] => None | ds => Some (sign * Z.of_N (digits_value ds)) end.

(** [None] for [stored] also stands for a storage that cannot be read. *)
Definition getStoredPageSize (stored : option jstr) : option Z :=
  n ← parseInt (default [] stored); if 0 <? n then Some n else None.
Definition String_of (n : Z) : jstr := if n <? 0 then 45%N :: digits (Z.to_N (- n)) else digits (Z.to_N n).
Definition setStoredPageSize (can_store : bool) (size : Z) (stored : option jstr) : option jstr :=
  if can_store then Some (String_of size) else stored.

(** *** Configuration *)

Inductive FilterType := string_filter | array_filter.
Record ColumnFilterConfig := mkColumn {
  columnId : jstr; searchKey : jstr; (** absent counts as [array] *) type : option FilterType;
  serialize : value → option value; deserialize : option value → option value;
}.

Record Params := mkParams {
  pageKey : jstr; pageSizeKey : jstr; defaultPage : Z; defaultPageSize : Z;
  globalFilterKey : jstr; globalFilterEnabled : bool; trimGlobal : bool;
  columnFiltersCfg : list ColumnFilterConfig;
}.
(** The defaults of the parameters a table leaves out. *)
Definition with_columns (cfg : list ColumnFilterConfig) : Params :=
  mkParams (js "page") (js "pageSize") 1 20 (js "filter") true true cfg.

Record PaginationState := mkPagination { pageIndex : Z; pageSize : Z }.
Definition ColumnFiltersState : Type := list (jstr * value).

(** A filter value worth keeping: a string that is not blank, an array that is not empty. *)
Definition proper (ty : option FilterType) (v : value) : bool :=
  match ty, v with
  | Some string_filter, Str s => negb (trim s === [])
  | (Some array_filter | None), Arr (_ :: _) => true
  | _, _ => false
  end.

Definition column_filter (search : SearchRecord) (cfg : ColumnFilterConfig) : option (jstr * value) :=
  match deserialize cfg (search !! searchKey cfg) with
  | Some v => if proper (type cfg) v then Some (columnId cfg, v) else None
  | None => None
  end.
Definition initialColumnFilters (p : Params) (search : SearchRecord) : ColumnFiltersState :=
  omap (column_filter search) (columnFiltersCfg p).

(** *** The hook *)

Record table := mkTable {
  search : SearchRecord; history : list SearchRecord;
  columnFilters : ColumnFiltersState; globalFilter : option jstr; stored : option jstr;
}.

Definition set_search s h t := mkTable s h (columnFilters t) (globalFilter t) (stored t).
Definition set_columns f t := mkTable (search t) (history t) f (globalFilter t) (stored t).
Definition set_global g t := mkTable (search t) (history t) (columnFilters t) (Some g) (stored t).
Definition set_stored s t := mkTable (search t) (history t) (columnFilters t) (globalFilter t) s.

Section hook.
Context (p : Params) (can_store : bool).

Definition page_of (s : SearchRecord) : Z :=
  match s !! pageKey p with Some (Num n) => n | _ => defaultPage p end.

Definition pagination (t : table) : PaginationState :=
  let pageNum := page_of (search t) in
  let pageSizeNum := match search t !! pageSizeKey p with
                     | Some (Num n) => n
                     | _ => default (defaultPageSize p) (getStoredPageSize (stored t))
                     end in
  mkPagination (Z.max 0 (pageNum - 1)) pageSizeNum.

Definition initialGlobalFilter (s : SearchRecord) : option jstr :=
  if globalFilterEnabled p
  then Some (match s !! globalFilterKey p with Some (Str g) => g | _ => [] end) else None.

Definition mount (s : SearchRecord) (stored : option jstr) : table :=
  mkTable s [] (initialColumnFilters p s) (initialGlobalFilter s) stored.

(** [{ ...prev, [k]: v }], one key. *)
Definition assign (k : jstr) (v : option value) (s : SearchRecord) : SearchRecord :=
  match v with Some x => <[k := x]> s | None => delete k s end.

Definition navigate (replace : bool) (f : SearchRecord → SearchRecord) (t : table) : table :=
  set_search (f (search t)) (if replace then history t else search t :: history t) t.

Definition onPaginationChange (updater : PaginationState → PaginationState) (t : table) : table :=
  let current := pagination t in
  let next := updater current in
  let nextPage := pageIndex next + 1 in
  let nextPageSize := pageSize next in
  let t := if nextPageSize =? pageSize current then t
           else set_stored (setStoredPageSize can_store nextPageSize (stored t)) t in
  navigate false (λ prev, assign (pageSizeKey p) (Some (Num nextPageSize))
    (assign (pageKey p) (if nextPage <=? defaultPage p then None else Some (Num nextPage)) prev)) t.

(** Offered only when the global filter is enabled. *)
Definition onGlobalFilterChange (updater : jstr → jstr) (t : table) : option table :=
  if globalFilterEnabled p then
    let next := updater (default [] (globalFilter t)) in
    let v := if trimGlobal p then trim next else next in
    Some (navigate false (λ prev, assign (globalFilterKey p) (if truthy v then Some (Str v) else None)
            (assign (pageKey p) None prev)) (set_global v t))
  else None.

(** The value of one column in the patch. *)
Definition patch_value (next : ColumnFiltersState) (cfg : ColumnFilterConfig) : option value :=
  match List.find (λ f, f.1 === columnId cfg) next with
  | Some (_, v) => if proper (type cfg) v then serialize cfg v else None
  | None => None
  end.
Definition patch (next : ColumnFiltersState) (s : SearchRecord) : SearchRecord :=
  foldl (λ s cfg, assign (searchKey cfg) (patch_value next cfg) s) s (columnFiltersCfg p).

Definition onColumnFiltersChange (updater : ColumnFiltersState → ColumnFiltersState) (t : table) : table :=
  let next := updater (columnFilters t) in
  navigate false (λ prev, patch next (assign (pageKey p) None prev)) (set_columns next t).

Inductive ResetTo := first | last.
Definition ensurePageInRange (pageCount : Z) (resetTo : ResetTo) (t : table) : table :=
  let pageNum := page_of (search t) in
  if (0 <? pageCount) && (pageCount <? pageNum)
  then navigate true (assign (pageKey p) (match resetTo with last => Some (Num pageCount) | first => None end)) t
  else t.

(** The effect that runs when the search has changed. *)
Definition sync (t : table) : table := set_columns (initialColumnFilters p (search t)) t.

(** The browser's back button. *)
Definition back (t : table) : table :=
  match history t with s :: h => set_search s h t | [] => t end.

(** What the hook returns as the global filter. *)
Definition shownGlobalFilter (t : table) : option jstr :=
  if globalFilterEnabled p then Some (default [] (globalFilter t)) else None.

End hook.
End TableUrlState.
