(* ===== verification/TableUrlStateFacts.v ===== *)
(** * Facts about the table state in the URL

    A page and filters written to the URL are read back from it; a page out of
    range is corrected once; the page size is remembered. *)

From S2P Require Import Prelude TableUrlState.
Import TableUrlState.

(** ** Page sizes *)

Lemma leading_digits_all s : Forall (λ c, is_digit c = true) s → leading_digits s = s.
Proof. induction 1 as [|c s Hc _ IH]; [done|]. cbn [leading_digits]. by rewrite Hc, IH. Qed.

Lemma parseInt_printed n : parseInt (digits n) = Some (Z.of_N n).
Proof.
  pose proof (digits_digits n) as Hd. pose proof (digits_nonempty n) as Hne. unfold parseInt.
  destruct (digits n) as [|c ds] eqn:E; [done|].
  assert (is_digit c = true) as Hc by (by apply list.Forall_cons in Hd as [? _]).
  rewrite trim_start_fix by (intros c' t [= <- _]; by apply digit_not_ws).
  unfold is_digit in Hc. apply andb_true_iff in Hc as [H1%N.leb_le H2%N.leb_le].
  destruct (N.eqb_spec c 43); [lia|]. destruct (N.eqb_spec c 45); [lia|].
  rewrite leading_digits_all by done. rewrite <-E, digits_value_digits. f_equal. lia.
Qed.

Lemma stored_size_read n : 0 < n → getStoredPageSize (Some (String_of n)) = Some n.
Proof.
  intros Hn. unfold getStoredPageSize, String_of. destruct (Z.ltb_spec n 0); [lia|]. cbn [default from_option id].
  rewrite parseInt_printed. cbn [mbind option_bind]. rewrite Z2N.id by lia. by destruct (Z.ltb_spec 0 n); [|lia].
Qed.

(** ** One key of the search *)

Lemma lookup_assign k v s k' : assign k v s !! k' = if decide (k = k') then v else s !! k'.
Proof.
  unfold assign. destruct v as [x|], (decide (k = k')) as [->|Hne].
  - by rewrite lookup_insert_eq.
  - by rewrite lookup_insert_ne.
  - by rewrite lookup_delete_eq.
  - by rewrite lookup_delete_ne.
Qed.

Section table.
Context (p : Params) (can_store : bool).

(** ** Pages *)

(** A page that is chosen is the page that is shown: with the first page as the
    default, the page index and the page size written to the URL read back
    unchanged, and a changed page size is what a table without one in its URL
    starts with. *)
Theorem pagination_round_trip updater t :
  defaultPage p = 1 → pageKey p ≠ pageSizeKey p →
  let next := updater (pagination p t) in
  0 ≤ pageIndex next → 0 < pageSize next →
  let t' := onPaginationChange p can_store updater t in
  pagination p t' = next ∧
  (pageSize next ≠ pageSize (pagination p t) → can_store = true → ∀ s, s !! pageSizeKey p = None →
     pageSize (pagination p (mount p s (stored t'))) = pageSize next).
Proof.
  intros Hd Hk next Hi Hs t'. split.
  - subst t'. unfold onPaginationChange. fold next. match goal with |- context [navigate false _ ?x] => generalize x; intros t1 end.
    unfold pagination, navigate, page_of. cbn [search set_search].
    rewrite !lookup_assign. rewrite decide_False, decide_True, decide_True by congruence.
    rewrite Hd. destruct (Z.leb_spec (pageIndex next + 1) 1).
    + destruct next as [i s]. cbn [pageIndex pageSize] in *. f_equal; lia.
    + destruct next as [i s]. cbn [pageIndex pageSize] in *. f_equal; lia.
  - intros Hne Hc s Hsk. subst t'. unfold onPaginationChange. fold next.
    destruct (Z.eqb_spec (pageSize next) (pageSize (pagination p t))); [done|].
    unfold pagination at 1, mount, navigate. cbn [search set_search stored set_stored pageSize].
    rewrite Hsk. unfold setStoredPageSize. rewrite Hc. by rewrite stored_size_read.
Qed.

(** A page out of range is corrected, once: afterwards the page is in range (the
    first or the last one) and the correction does nothing more. *)
Theorem page_correction_settles pageCount resetTo t : defaultPage p = 1 → 0 < pageCount →
  let t' := ensurePageInRange p pageCount resetTo t in
  page_of p (search t') ≤ pageCount ∧ ensurePageInRange p pageCount resetTo t' = t' ∧
  length (history t') = length (history t) ∧
  (page_of p (search t) ≤ pageCount → t' = t).
Proof.
  intros Hd Hc t'. assert (page_of p (search t') ≤ pageCount) as Hin.
  { subst t'. unfold ensurePageInRange. destruct (Z.ltb_spec 0 pageCount); [|lia]. cbn [andb].
    destruct (Z.ltb_spec pageCount (page_of p (search t))); [|lia].
    unfold page_of, navigate. cbn [search set_search]. rewrite lookup_assign, decide_True by done.
    destruct resetTo; lia. }
  assert (∀ t0, page_of p (search t0) ≤ pageCount → ensurePageInRange p pageCount resetTo t0 = t0) as Hok.
  { intros t0 H0. unfold ensurePageInRange. destruct (Z.ltb_spec pageCount (page_of p (search t0))); [lia|].
    by rewrite andb_false_r. }
  split_and!; [done|by apply Hok| |by apply Hok].
  subst t'. unfold ensurePageInRange. by destruct (_ && _).
Qed.

(** ** Filters *)

Definition cfgs : list ColumnFilterConfig := columnFiltersCfg p.

(** The filters a list of filters stands for: those of configured columns with a value worth
    keeping, in the order of the configuration. *)
Definition canonical (next : ColumnFiltersState) : ColumnFiltersState :=
  omap (λ cfg, match List.find (λ f, f.1 === columnId cfg) next with
               | Some (_, v) => if proper (type cfg) v then Some (columnId cfg, v) else None
               | None => None
               end) cfgs.

(** The columns have search keys of their own, and what they serialize reads back. *)
Record lawful : Prop := {
  keys_distinct : NoDup (map searchKey cfgs);
  page_key_apart : pageKey p ∉ map searchKey cfgs;
  absent_reads cfg : cfg ∈ cfgs → ∀ v, deserialize cfg None = Some v → proper (type cfg) v = false;
  serialized_reads cfg v : cfg ∈ cfgs → proper (type cfg) v = true → deserialize cfg (serialize cfg v) = Some v;
}.

Lemma patch_lookup_other next l s k : k ∉ map searchKey l →
  foldl (λ s cfg, assign (searchKey cfg) (patch_value next cfg) s) s l !! k = s !! k.
Proof.
  revert s. induction l as [|cfg l IH]; intros s Hk; [done|]. cbn [foldl]. cbn [map] in Hk.
  rewrite not_elem_of_cons in Hk. destruct Hk as [Hk1 Hk2]. rewrite IH by done. by rewrite lookup_assign, decide_False by congruence.
Qed.
Lemma patch_lookup next l s cfg : NoDup (map searchKey l) → cfg ∈ l →
  foldl (λ s cfg, assign (searchKey cfg) (patch_value next cfg) s) s l !! searchKey cfg = patch_value next cfg.
Proof.
  revert s. induction l as [|c l IH]; intros s Hnd Hin; [by apply elem_of_nil in Hin|]. cbn [foldl].
  cbn [map] in Hnd. apply list.NoDup_cons in Hnd as [Hc Hnd]. apply elem_of_cons in Hin as [->|Hin]; [|by apply IH].
  rewrite patch_lookup_other by done. by rewrite lookup_assign, decide_True.
Qed.

Lemma omap_agree {A B} (f g : A → option B) (l : list A) : (∀ x, x ∈ l → f x = g x) → omap f l = omap g l.
Proof.
  intros H. induction l as [|x l IH]; [done|]. cbn. rewrite (H x) by left. rewrite IH; [done|]. intros y Hy. apply H. by right.
Qed.

(** Column filters survive the URL: after a change the table, read again from the
    URL, shows exactly the chosen filters of its columns, on the first page; a
    further reading changes nothing. *)
Theorem column_filters_round_trip updater t : lawful →
  let t' := onColumnFiltersChange p updater t in
  columnFilters (sync p t') = canonical (updater (columnFilters t)) ∧
  page_of p (search t') = defaultPage p ∧ sync p (sync p t') = sync p t'.
Proof.
  intros [Hnd Hp Ha Hs] t'. split_and!; [| |done].
  - subst t'. unfold onColumnFiltersChange, navigate, sync, initialColumnFilters, canonical. cbn [search columnFilters set_columns set_search].
    apply omap_agree. intros cfg Hin. unfold column_filter, patch. rewrite patch_lookup by done.
    unfold patch_value. destruct (List.find _ _) as [[k v]|].
    + destruct (proper (type cfg) v) eqn:Ev; [by rewrite Hs, Ev by done|].
      destruct (deserialize cfg None) as [w|] eqn:Ew; [|done]. by rewrite (Ha cfg Hin w Ew).
    + destruct (deserialize cfg None) as [w|] eqn:Ew; [|done]. by rewrite (Ha cfg Hin w Ew).
  - subst t'. unfold onColumnFiltersChange, navigate, page_of. cbn [search set_search set_columns].
    unfold patch. rewrite patch_lookup_other by done. by rewrite lookup_assign, decide_True.
Qed.
End table.

(** ** Instances *)

Definition plain_column (id key : string) (ty : FilterType) : ColumnFilterConfig :=
  mkColumn (js id) (js key) (Some ty) Some (λ v, v).
Definition users_table : Params := with_columns
  [plain_column "status" "status" array_filter; plain_column "role" "role" array_filter;
   plain_column "group" "group" string_filter].

Lemma users_lawful : lawful users_table.
Proof.
  split.
  - apply (bool_decide_unpack _). vm_compute. done.
  - apply (bool_decide_unpack _). vm_compute. done.
  - intros cfg Hin v. unfold cfgs in Hin. cbn in Hin. repeat (apply elem_of_cons in Hin as [->|Hin]; [done|]). by apply elem_of_nil in Hin.
  - intros cfg v Hin. unfold cfgs in Hin. cbn in Hin. repeat (apply elem_of_cons in Hin as [->|Hin]; [done|]). by apply elem_of_nil in Hin.
Qed.

Definition demo_filters : ColumnFiltersState := [(js "group", Str (js "vip")); (js "status", Arr [Num 1]); (js "x", Other)].

Lemma column_filters_round_trip_witness :
  columnFilters (sync users_table (onColumnFiltersChange users_table (λ _, demo_filters) (mount users_table ∅ None)))
  = [(js "status", Arr [Num 1]); (js "group", Str (js "vip"))].
Proof.
  etrans; [apply (column_filters_round_trip users_table (λ _, demo_filters) (mount users_table ∅ None) users_lawful)|].
  vm_compute. reflexivity.
Defined.

Lemma pagination_round_trip_witness :
  pagination users_table (onPaginationChange users_table true (λ _, mkPagination 3 50) (mount users_table ∅ None))
  = mkPagination 3 50.
Proof.
  apply (pagination_round_trip users_table true (λ _, mkPagination 3 50) (mount users_table ∅ None)); vm_compute; done.
Defined.

Lemma page_correction_settles_witness :
  let t' := ensurePageInRange users_table 2 last (mount users_table {[ js "page" := Num 9 ]} None) in
  page_of users_table (search t') = 2 ∧ ensurePageInRange users_table 2 last t' = t'.
Proof.
  split; [vm_compute; reflexivity|].
  apply (page_correction_settles users_table 2 last (mount users_table {[ js "page" := Num 9 ]} None)); vm_compute; done.
Defined.

(** The global filter does not follow the URL: after going back, the table still
    shows the filter that was typed, while the URL has none. *)
Example global_filter_ignores_back :
  let t := from_option (λ t, sync users_table (back (sync users_table t))) (mount users_table ∅ None)
             (onGlobalFilterChange users_table (λ _, js "ann") (mount users_table ∅ None)) in
  search t !! js "filter" = None ∧ shownGlobalFilter users_table t = Some (js "ann").
Proof. vm_compute. done. Qed.

(** A column without a type is an array column, although the declaration offers the
    missing type with the strings. *)
Example untyped_column_is_an_array :
  initialColumnFilters (with_columns [mkColumn (js "name") (js "name") None Some (λ v, v)])
    {[ js "name" := Str (js "ann") ]} = [].
Proof. vm_compute. done. Qed.
