(* ===== verification/Navigation.v ===== *)
(** * Navigation: which links a visitor sees, which routes open

    Models [hooks/use-sidebar-config.ts], [hooks/use-sidebar-view.ts],
    [hooks/use-sidebar-data.ts], [hooks/use-top-nav-links.ts],
    [lib/nav-modules.ts], [lib/admin-permissions.ts], [features/d2s/access.ts], the
    guards of the routes [/pricing], [/pricing/$modelId], [/rankings] and
    [/playground], and the destinations of [components/command-menu.tsx].

    Objects that come from the server are JSON values; [None] is [undefined] (or
    [null] where the code treats both alike).  Members of [Object.prototype] as
    section, module, resource or URL names are outside the model.  Icons and
    badges are left out; [t] translates. *)

From S2P Require Import Prelude JsValue JsCollections AuthSession.

Module Navigation.
Import AuthStore.

Abbreviation object := (list (jstr * json)).

(** [v === true], [v === false] *)
Definition is_true (v : option json) : bool := match v with Some (JBool b) => b | _ => false end.
Definition is_false (v : option json) : bool := match v with Some (JBool b) => negb b | _ => false end.
(** [Boolean(v)] where [v] may be [undefined] *)
Definition opt_truthy (v : option json) : bool := from_option json_truthy false v.

(** ** The sidebar's modules *)

Definition switched_on (modules : list string) : json := JObj (map (λ k, (js k, JBool true)) modules).

Definition DEFAULT_SIDEBAR_MODULES : object :=
  [ (js "chat", switched_on ["enabled"; "playground"; "chat"]);
    (js "console", switched_on ["enabled"; "detail"; "token"; "log"; "midjourney"; "task"]);
    (js "personal", switched_on ["enabled"; "topup"; "personal"; "support"; "store"]);
    (js "admin", switched_on ["enabled"; "channel"; "models"; "redemption"; "user"; "setting"; "subscription"]) ].

Definition fill_module (section : object) (entry : jstr * json) : object :=
  match field_get entry.1 section with Some _ => section | None => obj_set entry.1 entry.2 section end.

Definition merge_section (merged : object) (entry : jstr * json) : object :=
  let '(sectionKey, defaultSection) := entry in
  let existingSection := field_get sectionKey merged in
  if negb (opt_truthy existingSection) then obj_set sectionKey defaultSection merged
  else
    let section := spread (own_fields defaultSection) (from_option own_fields [] existingSection) in
    obj_set sectionKey (JObj (foldl fill_module section (own_fields defaultSection))) merged.

Definition mergeWithDefaultSidebarModules (config : object) : object :=
  foldl merge_section config DEFAULT_SIDEBAR_MODULES.

Definition URL_TO_CONFIG_MAP : list (jstr * (jstr * jstr)) :=
  map (λ '(url, section, module), (js url, (js section, js module)))
    [ ("/playground", "chat", "playground");
      ("/dashboard", "console", "detail");
      ("/dashboard/overview", "console", "detail");
      ("/dashboard/models", "console", "detail");
      ("/dashboard/users", "console", "detail");
      ("/keys", "console", "token");
      ("/usage-logs", "console", "log");
      ("/usage-logs/common", "console", "log");
      ("/usage-logs/drawing", "console", "midjourney");
      ("/usage-logs/task", "console", "task");
      ("/wallet", "personal", "topup");
      ("/profile", "personal", "personal");
      ("/d2s/store", "personal", "store");
      ("/d2s/support-tickets", "personal", "support");
      ("/channels", "admin", "channel");
      ("/models", "admin", "models");
      ("/models/metadata", "admin", "models");
      ("/models/deployments", "admin", "models");
      ("/users", "admin", "user");
      ("/redemption-codes", "admin", "redemption");
      ("/subscriptions", "admin", "subscription");
      ("/system-settings", "admin", "setting");
      ("/system-settings/site", "admin", "setting") ]%string.

(** A string is read as JSON ([None] where that throws), anything else is taken as it is. *)
Definition decoded (value : json) : option json :=
  match value with JStr s => JSON_parse s | v => Some v end.
Definition is_blank (value : json) : bool :=
  negb (json_truthy value) || match value with JStr s => trim s === [] | _ => false end.

Definition parseSidebarConfig (value : option json) : object :=
  match value with
  | None => DEFAULT_SIDEBAR_MODULES
  | Some value =>
      if is_blank value then DEFAULT_SIDEBAR_MODULES
      else match decoded value with
           | Some parsed =>
               if negb (json_truthy parsed) || negb (typeof_object parsed) || isArray parsed
               then DEFAULT_SIDEBAR_MODULES
               else mergeWithDefaultSidebarModules (own_fields parsed)
           | None => DEFAULT_SIDEBAR_MODULES
           end
  end.

Definition parseUserSidebarConfig (value : option json) : option json :=
  match value with
  | None => None
  | Some value =>
      if is_blank value then None
      else match decoded value with
           | Some parsed => if negb (json_truthy parsed) || negb (typeof_object parsed) then None else Some parsed
           | None => None
           end
  end.

(** The two layers, for the section and the module a URL stands for. *)
Definition admin_allows (adminConfig : object) (section module : jstr) : bool :=
  let adminSection := field_get section adminConfig in
  opt_truthy adminSection && opt_truthy (jget_opt (js "enabled") adminSection)
  && is_true (jget_opt module adminSection).

Definition user_allows (userConfig : option json) (section module : jstr) : bool :=
  match userConfig with
  | None => true
  | Some config =>
      let userSection := jget section config in
      if negb (opt_truthy userSection) then true
      else if is_false (jget_opt (js "enabled") userSection) then false
      else negb (is_false (jget_opt module userSection))
  end.

Definition isSidebarModuleEnabledForConfig (url : jstr) (adminConfig : object) (userConfig : option json) : bool :=
  match field_get url URL_TO_CONFIG_MAP with
  | None => true
  | Some (section, module) =>
      if negb (admin_allows adminConfig section module) then false
      else user_allows userConfig section module
  end.

(** ** Navigation items *)

Record BaseNavItem := mkBase {
  title : jstr;
  activeUrls : option (list jstr);
  configUrls : option (list jstr);
  requiredRole : option jsnum;
  requiredRoles : option (list jsnum);
}.

Inductive NavItem :=
| NavLink (base : BaseNavItem) (url : jstr)
| NavCollapsible (base : BaseNavItem) (items : list (BaseNavItem * jstr))
| NavChatPresets (base : BaseNavItem).

Definition base_of (item : NavItem) : BaseNavItem :=
  match item with NavLink b _ | NavCollapsible b _ | NavChatPresets b => b end.

Record NavGroup := mkGroup { group_id : option jstr; group_title : jstr; group_items : list NavItem }.

Section Config.
Context (adminConfig : object) (userConfig : option json).

Definition url_enabled (url : jstr) : bool := isSidebarModuleEnabledForConfig url adminConfig userConfig.

Definition isNavItemVisible (item : NavItem) : bool :=
  match item with
  | NavChatPresets _ =>
      if negb (admin_allows adminConfig (js "chat") (js "chat")) then false
      else user_allows userConfig (js "chat") (js "chat")
  | NavLink base url =>
      if truthy url then existsb url_enabled (default [url] (configUrls base)) else true
  | NavCollapsible _ items => existsb (λ sub, url_enabled sub.2) items
  end.

Definition filter_sub_items (item : NavItem) : NavItem :=
  match item with
  | NavCollapsible base items => NavCollapsible base (List.filter (λ sub, url_enabled sub.2) items)
  | item => item
  end.

Definition filterNavItems (items : list NavItem) : list NavItem :=
  List.filter isNavItemVisible (map filter_sub_items items).

Definition filterSidebarNavGroupsByConfig (navGroups : list NavGroup) : list NavGroup :=
  List.filter (λ g, (0 <? length (group_items g))%nat)
    (map (λ g, mkGroup (group_id g) (group_title g) (filterNavItems (group_items g))) navGroups).
End Config.

(** The administrator's layer from the status, the user's from the account. *)
Definition status_config (status : option json) : object :=
  parseSidebarConfig (jget_opt (js "SidebarModulesAdmin") status).
Definition account_config (user : option AuthUser) : option json :=
  let account := user_object <$> user in
  if is_false (jget_opt (js "sidebar_settings") (jget_opt (js "permissions") account)) then None
  else parseUserSidebarConfig (jget_opt (js "sidebar_modules") account).

Definition useSidebarConfig (status : option json) (user : option AuthUser) (navGroups : list NavGroup)
  : list NavGroup :=
  filterSidebarNavGroupsByConfig (status_config status) (account_config user) navGroups.

Definition useIsSidebarModuleVisible (status : option json) (user : option AuthUser) (url : jstr) : bool :=
  isSidebarModuleEnabledForConfig url (status_config status) (account_config user).

(** ** Roles *)

Definition ROLE_GUEST : jsnum := num_of_Z 0.
Definition ROLE_ADMIN : jsnum := num_of_Z 10.
Definition ROLE_SUPER_ADMIN : jsnum := num_of_Z 100.
Definition D2S_ADMIN_ROLES : list jsnum := [ROLE_ADMIN; ROLE_SUPER_ADMIN].

Definition canAccessD2SAdmin (user : option AuthUser) : bool :=
  match user with Some u => existsb (num_eqb (role u)) D2S_ADMIN_ROLES | None => false end.

Definition role_allows (r : jsnum) (item : NavItem) : bool :=
  from_option (existsb (num_eqb r)) true (requiredRoles (base_of item))
  && from_option (λ least, num_leb least r) true (requiredRole (base_of item)).

Definition filterSidebarNavGroupsByRole (navGroups : list NavGroup) (userRole : option jsnum) : list NavGroup :=
  let r := default ROLE_GUEST userRole in
  let isAdmin := num_leb ROLE_ADMIN r in
  map (λ g,
    let items := List.filter (role_allows r) (group_items g) in
    if (length items =? length (group_items g))%nat then g else mkGroup (group_id g) (group_title g) items)
    (List.filter (λ g, if bool_decide (group_id g = Some (js "admin")) then isAdmin else true) navGroups).

(** ** The root navigation *)

Section Data.
Context (t : jstr → jstr).

Definition link (name url : string) : NavItem := NavLink (mkBase (t (js name)) None None None None) (js url).

Definition useSidebarData : list NavGroup :=
  [ mkGroup (Some (js "chat")) (t (js "Chat"))
      [ link "Playground" "/playground"; NavChatPresets (mkBase (t (js "Chat")) None None None None) ];
    mkGroup (Some (js "general")) (t (js "General"))
      [ link "Overview" "/dashboard/overview"; link "Dashboard" "/dashboard/models"; link "API Keys" "/keys";
        link "Usage Logs" "/usage-logs/common";
        NavLink (mkBase (t (js "Task Logs")) (Some [js "/usage-logs/drawing"])
                   (Some [js "/usage-logs/drawing"; js "/usage-logs/task"]) None None) (js "/usage-logs/task") ];
    mkGroup (Some (js "personal")) (t (js "Personal"))
      [ link "Store" "/d2s/store"; link "Wallet" "/wallet"; link "Authorization management" "/d2s";
        link "My support tickets" "/d2s/support-tickets"; link "Profile" "/profile" ];
    mkGroup (Some (js "admin")) (t (js "Admin"))
      [ link "Channels" "/channels"; link "Models" "/models/metadata"; link "Users" "/users";
        link "Redemption Codes" "/redemption-codes"; link "Subscriptions" "/subscriptions";
        NavLink (mkBase (t (js "Authorization management")) None None (Some ROLE_ADMIN) (Some D2S_ADMIN_ROLES))
          (js "/d2s-admin");
        NavLink (mkBase (t (js "System Info")) None None (Some ROLE_SUPER_ADMIN) None) (js "/system-info");
        NavLink (mkBase (t (js "Task Plugins")) None None (Some ROLE_SUPER_ADMIN) None) (js "/task-plugins");
        NavLink (mkBase (t (js "System Settings")) (Some [js "/system-settings"]) None None None)
          (js "/system-settings/site") ] ].

(** [rootNavGroups] of [useSidebarView]. *)
Definition rootNavGroups (status : option json) (user : option AuthUser) : list NavGroup :=
  filterSidebarNavGroupsByRole (useSidebarConfig status user useSidebarData) (role <$> user).
End Data.

(** The destinations the command menu offers for a list of groups.  The item of
    the chat presets has neither [url] nor [items]: the menu skips it. *)
Definition item_destinations (item : NavItem) : list jstr :=
  match item with
  | NavLink _ url => if truthy url then [url] else []
  | NavCollapsible _ items => items.*2
  | NavChatPresets _ => []
  end.
Definition destinations (groups : list NavGroup) : list jstr :=
  concat (map (λ g, concat (map item_destinations (group_items g))) groups).

(** ** Modules of the page header *)

Record ModuleAccess := mkAccess { enabled : bool; requireAuth : bool }.
Inductive nav_value := NavBool (b : bool) | NavAccess (a : ModuleAccess).
Abbreviation HeaderNavModules := (list (jstr * nav_value)).
Inductive HeaderNavModule := rankings | pricing.
Definition module_name (m : HeaderNavModule) : jstr :=
  match m with rankings => js "rankings" | pricing => js "pricing" end.

Definition DEFAULT_HEADER_NAV_MODULES : HeaderNavModules :=
  [ (js "home", NavBool true); (js "console", NavBool true);
    (js "pricing", NavAccess (mkAccess true false)); (js "rankings", NavAccess (mkAccess true false));
    (js "docs", NavBool true); (js "about", NavBool true) ].
Definition DEFAULTS (m : HeaderNavModule) : ModuleAccess := mkAccess true false.

(** [normalized] is compared with ASCII words only: no other letter has one of
    theirs as its lower case. *)
Definition lower_ascii (s : jstr) : jstr :=
  map (λ c, if ((65 <=? c) && (c <=? 90))%N then (c + 32)%N else c) s.
Definition read_word (s : jstr) : option bool :=
  let normalized := lower_ascii (trim s) in
  if (normalized === js "true") || (normalized === js "1") then Some true
  else if (normalized === js "false") || (normalized === js "0") then Some false
  else None.

Definition parseHeaderNavBoolean (raw : option json) (fallback : bool) : bool :=
  match raw with
  | Some (JBool b) => b
  | Some (JNum n) => if num_eqb n (num_of_Z 1) then true else if num_eqb n (num_of_Z 0) then false else fallback
  | Some (JStr s) => default fallback (read_word s)
  | _ => fallback
  end.

Definition parseAccess (raw : json) (fallback : ModuleAccess) : ModuleAccess :=
  match raw with
  | JBool _ | JNum _ | JStr _ => mkAccess (parseHeaderNavBoolean (Some raw) (enabled fallback)) (requireAuth fallback)
  | JArr _ | JObj _ =>
      mkAccess (parseHeaderNavBoolean (jget (js "enabled") raw) (enabled fallback))
               (parseHeaderNavBoolean (jget (js "requireAuth") raw) (requireAuth fallback))
  | JNull => fallback
  end.

Definition parseHeaderNavRecord (raw : option json) : option json :=
  match raw with
  | None => None
  | Some raw =>
      if negb (json_truthy raw) || (trim (json_to_string raw) === []) then None
      else if typeof_object raw then Some raw
      else JSON_parse (json_to_string raw)
  end.

Definition access_of (m : HeaderNavModule) (modules : HeaderNavModules) : ModuleAccess :=
  match field_get (module_name m) modules with Some (NavAccess a) => a | _ => DEFAULTS m end.

(** [object[key] = value]: through [__proto__] a value that is no object sets nothing. *)
Definition set_member {A} (k : jstr) (v : A) (fields : list (jstr * A)) : list (jstr * A) :=
  if k === js "__proto__" then fields else obj_set k v fields.

Definition parse_member (result : HeaderNavModules) (entry : jstr * json) : HeaderNavModules :=
  let '(key, value) := entry in
  if key === js "pricing" then obj_set key (NavAccess (parseAccess value (access_of pricing result))) result
  else if key === js "rankings" then obj_set key (NavAccess (parseAccess value (access_of rankings result))) result
  else
    let fallback := match field_get key result with Some (NavBool b) => Some b | _ => None end in
    if bool_decide (is_Some fallback) || match value with JBool _ | JNum _ | JStr _ => true | _ => false end
    then set_member key (NavBool (parseHeaderNavBoolean (Some value) (default true fallback))) result
    else result.

Definition parseHeaderNavModules (raw : option json) : HeaderNavModules :=
  match parseHeaderNavRecord raw with
  | Some parsed => if json_truthy parsed then foldl parse_member DEFAULT_HEADER_NAV_MODULES (own_fields parsed)
                   else DEFAULT_HEADER_NAV_MODULES
  | None => DEFAULT_HEADER_NAV_MODULES
  end.

Definition parseHeaderNavModulesFromStatus (status : option json) : HeaderNavModules :=
  parseHeaderNavModules (jget_opt (js "HeaderNavModules") status).

Definition getModuleAccessFromStatus (status : option json) (m : HeaderNavModule) : ModuleAccess :=
  access_of m (parseHeaderNavModulesFromStatus status).

(** *** The cached status, [localStorage]'s item [status]

    [can_store] says whether [setItem] succeeds. *)
Definition getCachedStatus (item : option jstr) : option json :=
  raw ← item; if truthy raw then JSON_parse raw else None.

Definition cacheStatus (can_store : bool) (status : option json) (item : option jstr) : option jstr :=
  match status with
  | Some v => if json_truthy v && can_store then Some (JSON_stringify v) else item
  | None => item
  end.

Definition getModuleAccess (item : option jstr) (m : HeaderNavModule) : ModuleAccess :=
  getModuleAccessFromStatus (getCachedStatus item) m.

(** [response] is what [getStatus] resolves to; [None] where it rejects. *)
Definition getFreshModuleAccess (can_store : bool) (response : option (option json)) (m : HeaderNavModule)
    (item : option jstr) : ModuleAccess * option jstr :=
  match response with
  | Some status => (getModuleAccessFromStatus status m, cacheStatus can_store status item)
  | None => (mkAccess false true, item)
  end.

(** The guard of [/playground]. *)
Definition isSidebarModuleEnabled (item : option jstr) (section module : jstr) : bool :=
  match getCachedStatus item with
  | None => true
  | Some status =>
      if negb (json_truthy status) then true
      else match jget (js "SidebarModulesAdmin") status with
           | None => true
           | Some raw =>
               if negb (json_truthy raw) || (trim (json_to_string raw) === []) then true
               else match JSON_parse (json_to_string raw) with
                    | None | Some JNull => true
                    | Some parsed =>
                        match jget section parsed with
                        | None => true
                        | Some sectionConfig =>
                            if negb (json_truthy sectionConfig) then true
                            else if negb (is_true (jget (js "enabled") sectionConfig)) then false
                            else is_true (jget module sectionConfig)
                        end
                    end
           end
  end.

(** *** Route guards *)

Inductive Outcome := Proceed | Redirect (to : jstr) (back : option jstr).

(** [beforeLoad] of [/pricing], [/pricing/$modelId] and [/rankings]. *)
Definition module_guard (can_store : bool) (response : option (option json)) (m : HeaderNavModule)
    (user : option AuthUser) (href : jstr) (item : option jstr) : Outcome * option jstr :=
  let '(access, item) := getFreshModuleAccess can_store response m item in
  (if negb (enabled access) then Redirect (js "/") None
   else if requireAuth access
        then match user with None => Redirect (js "/sign-in") (Some href) | Some _ => Proceed end
        else Proceed, item).

Definition playground_guard (item : option jstr) : Outcome :=
  if negb (isSidebarModuleEnabled item (js "chat") (js "playground")) then Redirect (js "/dashboard") None
  else Proceed.

(** ** Links of the page header *)

Record TopNavLink := mkTop { top_title : jstr; top_href : json; requiresAuth : option bool; external : option bool }.

Section Links.
Context (t : jstr → jstr).

Definition shown_unless_off (name : string) (modules : HeaderNavModules) (links : list TopNavLink) : list TopNavLink :=
  match field_get (js name) modules with Some (NavBool false) => [] | _ => links end.

Definition access_link (m : HeaderNavModule) (name url : string) (isAuthed : bool) (modules : HeaderNavModules)
  : list TopNavLink :=
  match field_get (module_name m) modules with
  | Some (NavAccess a) =>
      if enabled a then [mkTop (t (js name)) (JStr (js url)) (Some (requireAuth a && negb isAuthed)) None] else []
  | _ => []
  end.

Definition useTopNavLinks (status : option json) (user : option AuthUser) : list TopNavLink :=
  let modules := parseHeaderNavModulesFromStatus status in
  let docsLink := jget_opt (js "docs_link") status in
  let isAuthed := bool_decide (is_Some user) in
  let plain name url := mkTop (t (js name)) (JStr (js url)) None None in
  shown_unless_off "home" modules [plain "Home" "/"%string]
  ++ shown_unless_off "console" modules [plain "Console" "/dashboard"%string]
  ++ access_link pricing "Model Square" "/pricing" isAuthed modules
  ++ access_link rankings "Rankings" "/rankings" isAuthed modules
  ++ shown_unless_off "docs" modules
       [match docsLink with
        | Some v => if json_truthy v then mkTop (t (js "Docs")) v None (Some true) else plain "Docs" "/docs"%string
        | None => plain "Docs" "/docs"%string
        end]
  ++ shown_unless_off "about" modules [plain "About" "/about"%string].
End Links.

(** ** Permissions of administrators *)

Abbreviation AdminPermissionMatrix := (list (jstr * list (jstr * bool))).

Record PermissionResourceDef := mkResource { resource : jstr; actions : list jstr }.
Record PermissionRoleDef := mkRole { role_key : jstr; superuser : bool; grants : AdminPermissionMatrix }.
Record PermissionCatalog := mkCatalog { resources : list PermissionResourceDef; roles : list PermissionRoleDef }.

Definition ADMIN_ROLE_KEY : jstr := js "admin".

Definition hasPermission (user : option AuthUser) (resource action : jstr) : bool :=
  match user with
  | None => false
  | Some u =>
      if num_eqb (role u) ROLE_SUPER_ADMIN then true
      else is_true (jget_opt action (jget_opt resource
             (jget_opt (js "admin_permissions") (jget (js "permissions") (user_object u)))))
  end.

Definition roleGrants (catalog : PermissionCatalog) (roleKey : jstr) : AdminPermissionMatrix :=
  from_option grants [] (List.find (λ r, role_key r === roleKey) (roles catalog)).

Definition granted (m : AdminPermissionMatrix) (resource action : jstr) : option bool :=
  field_get resource m ≫= field_get action.

Definition normalizeAdminPermissions (value : option AdminPermissionMatrix) (catalog : PermissionCatalog)
  : AdminPermissionMatrix :=
  let baseline := roleGrants catalog ADMIN_ROLE_KEY in
  foldl (λ normalized r,
    obj_set (resource r)
      (foldl (λ row action,
         obj_set action
           (match value ≫= λ v, granted v (resource r) action with
            | Some b => b
            | None => default false (granted baseline (resource r) action)
            end) row) [] (actions r)) normalized) [] (resources catalog).

End Navigation.
