(* ===== verification/NavigationSettings.v ===== *)
(** * Settings of the navigation

    Models [features/system-settings/maintenance/config.ts] with the two forms that
    edit it ([header-navigation-section.tsx], [sidebar-modules-section.tsx], built by
    [site/section-registry.tsx]), and the user's own switches
    ([features/profile/components/sidebar-modules-card.tsx]).

    Members of [Object.prototype] as section or module names are outside the
    model, as are names with a dot, which the form library reads as a path. *)

From S2P Require Import Prelude JsValue JsCollections AuthSession Navigation.

Module NavigationSettings.
Import AuthStore Navigation.

(** ** Reading and printing the options *)

Abbreviation SidebarSectionConfig := (list (jstr * bool)).
Abbreviation SidebarModulesAdminConfig := (list (jstr * SidebarSectionConfig)).

Definition HEADER_NAV_DEFAULT : HeaderNavModules :=
  [ (js "home", NavBool true); (js "console", NavBool true);
    (js "pricing", NavAccess (mkAccess true false)); (js "rankings", NavAccess (mkAccess true false));
    (js "docs", NavBool true); (js "about", NavBool true) ].

Definition all_on (modules : list string) : SidebarSectionConfig := map (λ k, (js k, true)) modules.
Definition SIDEBAR_MODULES_DEFAULT : SidebarModulesAdminConfig :=
  [ (js "chat", all_on ["enabled"; "playground"; "chat"]);
    (js "console", all_on ["enabled"; "detail"; "token"; "log"; "midjourney"; "task"]);
    (js "personal", all_on ["enabled"; "topup"; "personal"]);
    (js "admin", all_on ["enabled"; "channel"; "models"; "redemption"; "user"; "setting"; "subscription"]) ].

Definition toBoolean (value : option json) (fallback : bool) : bool :=
  match value with
  | Some (JBool b) => b
  | Some (JNum n) => num_eqb n (num_of_Z 1)
  | Some (JStr s) => default fallback (read_word s)
  | _ => fallback
  end.

Definition parseAccessModule (raw : json) (fallback : ModuleAccess) : ModuleAccess :=
  match raw with
  | JBool _ | JNum _ | JStr _ => mkAccess (toBoolean (Some raw) (enabled fallback)) (requireAuth fallback)
  | JArr _ | JObj _ =>
      mkAccess (toBoolean (jget (js "enabled") raw) (enabled fallback))
               (toBoolean (jget (js "requireAuth") raw) (requireAuth fallback))
  | JNull => fallback
  end.

(** [Boolean(base[key])]: the members every object inherits are functions. *)
Definition object_members : list jstr :=
  map js ["constructor"; "__defineGetter__"; "__defineSetter__"; "hasOwnProperty"; "__lookupGetter__";
          "__lookupSetter__"; "isPrototypeOf"; "propertyIsEnumerable"; "toString"; "valueOf"; "__proto__";
          "toLocaleString"]%string.
Definition base_value (base : HeaderNavModules) (key : jstr) : bool :=
  match field_get key base with
  | Some (NavBool b) => b
  | Some (NavAccess _) => true
  | None => bool_decide (key ∈ object_members)
  end.

Definition edit_member (base result : HeaderNavModules) (entry : jstr * json) : HeaderNavModules :=
  let '(key, raw) := entry in
  if key === js "pricing" then obj_set key (NavAccess (parseAccessModule raw (access_of pricing base))) result
  else if key === js "rankings" then obj_set key (NavAccess (parseAccessModule raw (access_of rankings base))) result
  else match raw with
       | JBool b => set_member key (NavBool b) result
       | JStr _ | JNum _ => set_member key (NavBool (toBoolean (Some raw) (base_value base key))) result
       | _ => result
       end.

Definition parseHeaderNavModules (value : option jstr) : HeaderNavModules :=
  let base := HEADER_NAV_DEFAULT in
  match value with
  | None => base
  | Some value =>
      if negb (truthy value) then base
      else match JSON_parse value with
           | None | Some JNull => base
           | Some parsed => foldl (edit_member base) base (own_fields parsed)
           end
  end.

Definition nav_json (v : nav_value) : json :=
  match v with
  | NavBool b => JBool b
  | NavAccess a => JObj [(js "enabled", JBool (enabled a)); (js "requireAuth", JBool (requireAuth a))]
  end.
Definition header_json (config : HeaderNavModules) : json := JObj (map (λ '(k, v), (k, nav_json v)) config).
Definition serializeHeaderNavModules (config : HeaderNavModules) : jstr := JSON_stringify (header_json config).

(** *** The sidebar's option *)

Definition read_module (defaultSection : SidebarSectionConfig) (sectionConfig : SidebarSectionConfig)
    (entry : jstr * json) : SidebarSectionConfig :=
  let '(moduleKey, moduleValue) := entry in
  if moduleKey === js "enabled" then sectionConfig
  else obj_set moduleKey (toBoolean (Some moduleValue) (default true (field_get moduleKey defaultSection))) sectionConfig.

Definition read_section (defaults : SidebarModulesAdminConfig) (result : SidebarModulesAdminConfig)
    (entry : jstr * json) : SidebarModulesAdminConfig :=
  let '(sectionKey, raw) := entry in
  if negb (json_truthy raw) || negb (typeof_object raw) then result
  else
    let defaultSection := default [(js "enabled", true)] (field_get sectionKey defaults) in
    let sectionConfig :=
      [(js "enabled", toBoolean (jget (js "enabled") raw) (default true (field_get (js "enabled") defaultSection)))] in
    obj_set sectionKey (foldl (read_module defaultSection) sectionConfig (own_fields raw)) result.

Definition fill_missing (section : SidebarSectionConfig) (entry : jstr * bool) : SidebarSectionConfig :=
  match field_get entry.1 section with Some _ => section | None => obj_set entry.1 entry.2 section end.

Definition fill_section (result : SidebarModulesAdminConfig) (entry : jstr * SidebarSectionConfig)
  : SidebarModulesAdminConfig :=
  let '(sectionKey, config) := entry in
  match field_get sectionKey result with
  | None => obj_set sectionKey config result
  | Some section => obj_set sectionKey (foldl fill_missing section config) result
  end.

Definition parseSidebarModulesAdmin (value : option jstr) : SidebarModulesAdminConfig :=
  let defaults := SIDEBAR_MODULES_DEFAULT in
  match value with
  | None => defaults
  | Some value =>
      if negb (truthy value) || (trim value === []) then defaults
      else match JSON_parse value with
           | None | Some JNull => defaults
           | Some parsed => foldl fill_section (foldl (read_section defaults) [] (own_fields parsed)) defaults
           end
  end.

Definition section_json (section : SidebarSectionConfig) : json := JObj (map (λ '(k, b), (k, JBool b)) section).
Definition sidebar_json (config : SidebarModulesAdminConfig) : json :=
  JObj (map (λ '(k, section), (k, section_json section)) config).
Definition serializeSidebarModulesAdmin (config : SidebarModulesAdminConfig) : jstr :=
  JSON_stringify (sidebar_json config).

(** ** The administrator's forms

    [onSubmit] gives the text sent as the option's new value, if any. *)

Module HeaderForm.
Record HeaderNavFormValues := mkValues {
  home : bool; console : bool; pricingEnabled : bool; pricingRequireAuth : bool;
  rankingsEnabled : bool; rankingsRequireAuth : bool; docs : bool; about : bool;
}.

Definition plain_value (config : HeaderNavModules) (name : string) : bool :=
  match field_get (js name) config with Some (NavBool b) => b | Some (NavAccess _) | None => true end.

Definition toFormValues (config : HeaderNavModules) : HeaderNavFormValues :=
  let p := access_of pricing config in
  let r := access_of rankings config in
  mkValues (plain_value config "home") (plain_value config "console") (enabled p) (requireAuth p)
           (enabled r) (requireAuth r) (plain_value config "docs") (plain_value config "about").

Definition payload (config : HeaderNavModules) (v : HeaderNavFormValues) : HeaderNavModules :=
  spread config
    [ (js "home", NavBool (home v)); (js "console", NavBool (console v)); (js "docs", NavBool (docs v));
      (js "about", NavBool (about v)); (js "pricing", NavAccess (mkAccess (pricingEnabled v) (pricingRequireAuth v)));
      (js "rankings", NavAccess (mkAccess (rankingsEnabled v) (rankingsRequireAuth v))) ].

Definition onSubmit (config : HeaderNavModules) (initialSerialized : jstr) (v : HeaderNavFormValues) : option jstr :=
  let serialized := serializeHeaderNavModules (payload config v) in
  if serialized === initialSerialized then None else Some serialized.

(** The section as the settings page builds it from the stored option. *)
Definition submit (stored : option jstr) (v : HeaderNavFormValues) : option jstr :=
  let config := parseHeaderNavModules stored in onSubmit config (serializeHeaderNavModules config) v.
End HeaderForm.

Module SidebarForm.
(** The switch [section.module]. *)
Definition change (section module : jstr) (b : bool) (values : SidebarModulesAdminConfig) : SidebarModulesAdminConfig :=
  obj_set section (obj_set module b (default [] (field_get section values))) values.

Definition resetToDefault : SidebarModulesAdminConfig := SIDEBAR_MODULES_DEFAULT.

Definition onSubmitModules (initialSerialized : jstr) (values : SidebarModulesAdminConfig) : option jstr :=
  let serialized := serializeSidebarModulesAdmin values in
  if serialized === initialSerialized then None else Some serialized.

Definition submitModules (stored : option jstr) (values : SidebarModulesAdminConfig) : option jstr :=
  onSubmitModules (serializeSidebarModulesAdmin (parseSidebarModulesAdmin stored)) values.
End SidebarForm.

(** ** The user's own switches *)

Module UserCard.
Record SectionDef := mkSection { key : jstr; modules : list jstr }.

Definition sectionDefs : list SectionDef :=
  [ mkSection (js "chat") [js "playground"; js "chat"];
    mkSection (js "console") [js "detail"; js "token"; js "log"; js "midjourney"; js "task"];
    mkSection (js "personal") [js "topup"; js "personal"] ].

Definition visible_section (adminSidebarConfig : object) (section : SectionDef) : option SectionDef :=
  let adminSection := field_get (key section) adminSidebarConfig in
  if negb (opt_truthy (jget_opt (js "enabled") adminSection)) then None
  else match List.filter (λ m, is_true (jget_opt m adminSection)) (modules section) with
       | [] => None
       | ms => Some (mkSection (key section) ms)
       end.

Definition visibleSectionDefs (status : option json) : list SectionDef :=
  omap (visible_section (status_config status)) sectionDefs.

Definition defaults : object :=
  foldl (λ config sec,
    obj_set (key sec)
      (JObj (foldl (λ s m, obj_set m (JBool true) s) [(js "enabled", JBool true)] (modules sec))) config)
    [] sectionDefs.

(** The answer of [/api/user/self]: its [sidebar_modules] where it succeeded
    ([None] inside: [success] is false or the field is empty), [None] where the request failed. *)
Definition loadConfig (answer : option (option json)) (config : object) : option object :=
  match answer with
  | None => Some config
  | Some raw =>
      match raw with
      | Some v =>
          if json_truthy v
          then match decoded v with
               | Some (JObj fields) => Some fields
               | Some _ => None
               | None => Some config
               end
          else Some defaults
      | None => Some defaults
      end
  end.

Definition toggle (sectionKey moduleKey : jstr) (val : bool) (prev : object) : object :=
  obj_set sectionKey
    (JObj (obj_set moduleKey (JBool val) (from_option own_fields [] (field_get sectionKey prev)))) prev.
Definition toggleSection (sectionKey : jstr) : bool → object → object := toggle sectionKey (js "enabled").
Definition toggleModule (sectionKey moduleKey : jstr) : bool → object → object := toggle sectionKey moduleKey.
Definition handleReset : object := defaults.

(** What the switches show. *)
Definition section_checked (config : object) (sectionKey : jstr) : bool :=
  negb (is_false (jget_opt (js "enabled") (field_get sectionKey config))).
Definition module_checked (config : object) (sectionKey moduleKey : jstr) : bool :=
  negb (is_false (jget_opt moduleKey (field_get sectionKey config))).

Inductive Answer := Saved | Refused | Failed.

Definition with_sidebar_modules (u : AuthUser) (text : jstr) : AuthUser :=
  mkUser (user_id u) (username u) (role u)
    (JObj (obj_set (js "sidebar_modules") (JStr text) (own_fields (user_object u)))).

(** [currentUser] is the account when the button was pressed. *)
Definition handleSave (config : object) (currentUser : option AuthUser) (answer : Answer) (store : AuthState)
  : AuthState :=
  match answer, currentUser with
  | Saved, Some u => setUser (Some (with_sidebar_modules u (JSON_stringify (JObj config)))) store
  | _, _ => store
  end.
End UserCard.

End NavigationSettings.
