(* ===== verification/NavigationFacts.v ===== *)
(** * Facts about the navigation

    What the root view of the sidebar and the command menu offer, for every
    status, account and role; that the header's links and the guards of the
    routes they lead to decide alike; that the guard of the playground never
    opens a page the sidebar hides; that the permission editor's matrix is
    complete. *)

From Stdlib Require Import ZifyN ZifyBool.
From stdpp Require Import sorting.
From S2P Require Import Prelude StableSort JsValue JsCollections JsonText JsonParsed StringFacts AuthSession Navigation.
Import AuthStore Navigation.

(** ** Lookups in spread objects *)

Lemma spread_missing {A} k (a b : list (jstr * A)) : k ∉ b.*1 → field_get k (spread a b) = field_get k a.
Proof.
  unfold spread. revert a. induction b as [|[k' v] b IH]; intros a Hk; [done|]. cbn [foldl].
  cbn [fmap list_fmap fst] in Hk. apply not_elem_of_cons in Hk as [Hne Hk].
  rewrite IH by done. rewrite field_get_obj_set, jeqb_neq by done. done.
Qed.

Lemma field_get_missing {A} k (fs : list (jstr * A)) : field_get k fs = None ↔ k ∉ fs.*1.
Proof.
  induction fs as [|[k' v] fs IH]; cbn [field_get fmap list_fmap fst]; [split; [by intros _ ?%elem_of_nil|done]|].
  rewrite not_elem_of_cons. destruct (bool_decide_reflect (k' = k)) as [->|Hne].
  - rewrite jeqb_refl. split; [done|by intros []].
  - rewrite jeqb_neq by done. rewrite IH. naive_solver.
Qed.

Lemma spread_get {A} k (a b : list (jstr * A)) : NoDup b.*1 →
  field_get k (spread a b) = match field_get k b with Some v => Some v | None => field_get k a end.
Proof.
  unfold spread. revert a. induction b as [|[k' v] b IH]; intros a Hn; [done|]. cbn [foldl fmap list_fmap fst] in *.
  apply list.NoDup_cons in Hn as [Hk Hn]. rewrite IH by done. cbn [field_get].
  destruct (bool_decide_reflect (k' = k)) as [->|Hne].
  - rewrite jeqb_refl. rewrite (proj2 (field_get_missing k b)) by done. by rewrite field_get_obj_set, jeqb_refl.
  - rewrite (jeqb_neq k' k) by done. destruct (field_get k b); [done|]. by rewrite field_get_obj_set, jeqb_neq.
Qed.

(** A name that is no number: the indices of an array or a string do not hide it. *)
Definition word (k : jstr) : Prop := forallb is_digit k = false.

Lemma indexed_words k l : word k → k ∉ (indexed l).*1.
Proof.
  unfold word, indexed. intros Hk (e & -> & He)%list_elem_of_fmap.
  apply elem_of_lookup_imap in He as (i & v & -> & _). cbn [fst] in Hk.
  assert (forallb is_digit (digits (N.of_nat i)) = true) as Hd; [|congruence].
  apply forallb_Forall, digits_digits.
Qed.

(** Names found in a spread value, and by [v.k], are the same. *)
Lemma spread_own k a v : word k → tidy v →
  field_get k (spread a (own_fields v)) = match jget k v with Some x => Some x | None => field_get k a end.
Proof.
  intros Hk Hv. destruct v as [| | |s|l|fs]; cbn [own_fields jget]; try done.
  - by apply spread_missing, indexed_words.
  - by apply spread_missing, indexed_words.
  - apply spread_get, ordered_nodup. by apply tidy_obj in Hv as [? _].
Qed.

(** ** The administrator's layer *)

Lemma fill_module_present section l : (∀ k, k ∈ l.*1 → is_Some (field_get k section)) → foldl fill_module section l = section.
Proof.
  induction l as [|[k v] l IH]; intros H; [done|]. cbn [foldl]. unfold fill_module at 2. cbn [fst].
  destruct (H k) as [x ->]; [left|]. apply IH. intros k' Hk'. apply H. by right.
Qed.

Definition merged_section (defaultSection : json) (existing : option json) : json :=
  if negb (opt_truthy existing) then defaultSection
  else JObj (foldl fill_module (spread (own_fields defaultSection) (from_option own_fields [] existing)) (own_fields defaultSection)).

Lemma merge_section_get k c s d :
  field_get k (merge_section c (s, d)) = if s === k then Some (merged_section d (field_get s c)) else field_get k c.
Proof.
  unfold merge_section, merged_section. destruct (negb _); by rewrite field_get_obj_set.
Qed.

Lemma merge_get k c D : NoDup D.*1 →
  field_get k (foldl merge_section c D)
  = match field_get k D with Some d => Some (merged_section d (field_get k c)) | None => field_get k c end.
Proof.
  revert c. induction D as [|[s d] D IH]; intros c Hn; [done|]. cbn [foldl fmap list_fmap fst] in *.
  apply list.NoDup_cons in Hn as [Hs Hn]. rewrite IH by done. cbn [field_get]. rewrite merge_section_get.
  destruct (bool_decide_reflect (s = k)) as [->|Hne].
  - rewrite jeqb_refl. by rewrite (proj2 (field_get_missing k D)).
  - by rewrite (jeqb_neq s k).
Qed.

(** A module of a section that has both: the configuration's value, else the default. *)
Lemma merged_module k ds e : word k → tidy e → json_truthy e = true →
  jget k (merged_section (JObj ds) (Some e)) = match jget k e with Some v => Some v | None => field_get k ds end.
Proof.
  intros Hk He Ht. unfold merged_section. cbn [opt_truthy from_option]. rewrite Ht. cbn [negb own_fields].
  rewrite fill_module_present; [by apply spread_own|].
  intros k' Hk'. destruct (decide (k' ∈ (own_fields e).*1)) as [Hin|Hout].
  - unfold spread. clear -Hin. revert ds. induction (own_fields e) as [|[k v] l IH] using rev_ind; intros ds; [by apply elem_of_nil in Hin|].
    rewrite foldl_app. cbn [foldl]. rewrite field_get_obj_set. destruct (bool_decide_reflect (k = k')) as [->|Hne]; [rewrite jeqb_refl; eauto|].
    rewrite jeqb_neq by done. apply IH. rewrite fmap_app, elem_of_app in Hin. destruct Hin as [?|Hin]; [done|].
    cbn in Hin. apply list_elem_of_singleton in Hin. by subst.
  - rewrite spread_missing by done. destruct (field_get k' ds) eqn:E; [eauto|]. by apply field_get_missing in E.
Qed.

(** The sections and modules that URLs stand for are all on by default. *)
Definition known (section module : jstr) : Prop :=
  word module ∧ ∃ ds, field_get section DEFAULT_SIDEBAR_MODULES = Some (JObj ds)
                      ∧ field_get (js "enabled") ds = Some (JBool true) ∧ field_get module ds = Some (JBool true).

Lemma mapped_known url section module : field_get url URL_TO_CONFIG_MAP = Some (section, module) → known section module.
Proof.
  intros H%field_get_elem.
  assert (Forall (λ e : jstr * (jstr * jstr), known e.2.1 e.2.2) URL_TO_CONFIG_MAP) as Hall.
  { unfold URL_TO_CONFIG_MAP. cbn [map].
    repeat (apply list.Forall_cons; split; [split; [by vm_compute|eexists; split; [by vm_compute|split; by vm_compute]]|]).
    constructor. }
  rewrite list.Forall_forall in Hall. exact (Hall _ H).
Qed.

Lemma defaults_distinct : NoDup DEFAULT_SIDEBAR_MODULES.*1.
Proof. by apply (bool_decide_unpack _); vm_compute. Qed.

Lemma default_allows section module : known section module → admin_allows DEFAULT_SIDEBAR_MODULES section module = true.
Proof.
  intros (_ & ds & Hs & He & Hm). unfold admin_allows. rewrite Hs. cbn [opt_truthy from_option jget_opt mbind option_bind jget json_truthy].
  by rewrite He, Hm.
Qed.

(** The administrator's layer after the merge, read off the configuration. *)
Lemma merged_allows config section module : known section module → Forall (λ e, tidy e.2) config →
  admin_allows (mergeWithDefaultSidebarModules config) section module
  = match field_get section config with
    | None => true
    | Some e => if json_truthy e
                then match jget (js "enabled") e with Some v => json_truthy v | None => true end
                     && match jget module e with Some v => is_true (Some v) | None => true end
                else true
    end.
Proof.
  intros Hk Hc. pose proof (default_allows _ _ Hk) as Hd. destruct Hk as (Hw & ds & Hs & He & Hm).
  unfold admin_allows in Hd |- *. rewrite Hs in Hd. unfold mergeWithDefaultSidebarModules.
  rewrite merge_get, Hs by apply defaults_distinct.
  destruct (field_get section config) as [e|] eqn:E; [|exact Hd].
  destruct (json_truthy e) eqn:Ht; [|unfold merged_section; cbn [opt_truthy from_option]; by rewrite Ht].
  assert (tidy e) as Htidy.
  { rewrite list.Forall_forall in Hc. apply field_get_elem in E. exact (Hc _ E). }
  cbn [jget_opt mbind option_bind]. rewrite !merged_module by done. rewrite He, Hm.
  unfold merged_section at 1. cbn [opt_truthy from_option]. rewrite Ht. cbn [negb json_truthy andb].
  destruct (jget (js "enabled") e), (jget module e); done.
Qed.

(** ** The guard of the playground and the sidebar *)

(** What the guard decides once the option's text has been read. *)
Definition guard_reads (parsed : json) (section module : jstr) : bool :=
  match jget section parsed with
  | None => true
  | Some e => if negb (json_truthy e) then true
              else if negb (is_true (jget (js "enabled") e)) then false else is_true (jget module e)
  end.

Lemma guard_within_merge config section module : known section module → Forall (λ e, tidy e.2) config →
  guard_reads (JObj config) section module = true →
  admin_allows (mergeWithDefaultSidebarModules config) section module = true.
Proof.
  intros Hk Hc. rewrite merged_allows by done. unfold guard_reads. cbn [jget].
  destruct (field_get section config) as [e|]; [|done]. destruct (json_truthy e); [|done]. cbn [negb].
  destruct (jget (js "enabled") e) as [[| [] | | | |]|]; try done. cbn [is_true negb json_truthy].
  by destruct (jget module e) as [[| [] | | | |]|].
Qed.

(** The guard on the option's text. *)
Lemma guard_of_text item status text section module :
  getCachedStatus item = Some status → jget (js "SidebarModulesAdmin") status = Some (JStr text) →
  isSidebarModuleEnabled item section module
  = if trim text === [] then true
    else match JSON_parse text with None => true | Some parsed => guard_reads parsed section module end.
Proof.
  intros Hi Ho. unfold isSidebarModuleEnabled. rewrite Hi.
  assert (json_truthy status = true) as -> by by destruct status.
  cbn [negb]. rewrite Ho. cbn [json_truthy json_to_string]. destruct text as [|c text]; [done|]. cbn [truthy negb orb].
  destruct (_ === _); [done|]. by destruct (JSON_parse (c :: text)) as [[]|].
Qed.

(** The sidebar's configuration on the option's text. *)
Lemma config_of_text status text :
  jget (js "SidebarModulesAdmin") status = Some (JStr text) →
  status_config (Some status)
  = if trim text === [] then DEFAULT_SIDEBAR_MODULES
    else match JSON_parse text with
         | Some (JObj fs) => mergeWithDefaultSidebarModules fs
         | _ => DEFAULT_SIDEBAR_MODULES
         end.
Proof.
  intros Ho. unfold status_config, parseSidebarConfig. cbn [jget_opt mbind option_bind]. rewrite Ho.
  unfold is_blank. cbn [json_truthy decoded]. destruct text as [|c text]; [done|]. cbn [truthy negb orb].
  destruct (_ === _); [done|]. destruct (JSON_parse (c :: text)) as [[| [] |n|s|l|fs]|]; try done.
  - by destruct (negb _).
  - by destruct (negb _).
Qed.

Lemma tidy_fields fs : tidy (JObj fs) → Forall (λ e, tidy e.2) fs.
Proof. rewrite tidy_obj. intros [_ H]. by eapply list.Forall_impl; [exact H|intros e []]. Qed.

Lemma cached_tidy item text status : item = Some text → units text → getCachedStatus item = Some status → tidy status.
Proof. intros -> Hu H. unfold getCachedStatus in H. cbn in H. destruct (truthy text); [|done]. by eapply parsed_tidy. Qed.

Lemma tidy_get k v x : tidy v → jget k v = Some x → tidy x.
Proof.
  destruct v as [| | | | |fs]; try done. intros H%tidy_fields Hx%field_get_elem.
  rewrite list.Forall_forall in H. exact (H _ Hx).
Qed.

(** Whenever the cached status holds the sidebar option as text, a page
    whose guard lets the visitor in is one the administrator's layer of the
    sidebar shows: for every URL of the map, whatever the text, the guard never
    opens what the sidebar hides for everyone. *)
Theorem guard_never_wider item status option_text url section module :
  units item → getCachedStatus (Some item) = Some status →
  jget (js "SidebarModulesAdmin") status = Some (JStr option_text) →
  field_get url URL_TO_CONFIG_MAP = Some (section, module) →
  isSidebarModuleEnabled (Some item) section module = true →
  useIsSidebarModuleVisible (Some status) None url = true.
Proof.
  intros Hu Hi Ho Hurl. pose proof (mapped_known _ _ _ Hurl) as Hk.
  assert (units option_text) as Ht.
  { apply (tidy_get _ _ _ (cached_tidy _ _ _ eq_refl Hu Hi)) in Ho. exact Ho. }
  rewrite (guard_of_text _ _ _ _ _ Hi Ho). unfold useIsSidebarModuleVisible, isSidebarModuleEnabledForConfig.
  rewrite Hurl, (config_of_text _ _ Ho). pose proof (default_allows _ _ Hk) as Hd.
  destruct (_ === _); [by rewrite Hd|]. destruct (JSON_parse option_text) as [parsed|] eqn:Hp; [|by rewrite Hd].
  destruct parsed as [| | | | |fs]; try by rewrite Hd. intros Hg. rewrite (guard_within_merge fs); [done|done| |done].
  eapply tidy_fields, parsed_tidy; done.
Qed.

Definition guarded_status : jstr := jq "{'SidebarModulesAdmin':'{\'chat\':{\'enabled\':true,\'playground\':true}}'}".

Lemma guard_never_wider_witness :
  useIsSidebarModuleVisible (getCachedStatus (Some guarded_status)) None (js "/playground") = true.
Proof.
  assert (∃ st, getCachedStatus (Some guarded_status) = Some st) as [st Hst] by (eexists; by vm_compute).
  rewrite Hst.
  eapply (guard_never_wider guarded_status st); [by apply unitsb_true; vm_compute|exact Hst| | |].
  - vm_compute in Hst. apply (inj Some) in Hst as <-. by vm_compute.
  - by vm_compute.
  - by vm_compute.
Defined.

(** Where the text leaves a module or the section's own switch out, the guard
    turns the visitor away from a page that the sidebar links to. *)
Example guard_stricter_than_sidebar :
  let item := jq "{'SidebarModulesAdmin':'{\'chat\':{\'playground\':true}}'}" in
  playground_guard (Some item) = Redirect (js "/dashboard") None
  ∧ useIsSidebarModuleVisible (getCachedStatus (Some item)) None (js "/playground") = true.
Proof. by vm_compute. Qed.

(** Where the status holds the option as an object, the sidebar follows it and
    the guard lets everyone in. *)
Example guard_ignores_objects :
  let item := jq "{'SidebarModulesAdmin':{'chat':{'enabled':false}}}" in
  playground_guard (Some item) = Proceed
  ∧ useIsSidebarModuleVisible (getCachedStatus (Some item)) None (js "/playground") = false.
Proof. by vm_compute. Qed.

(** ** What the sidebar and the command menu offer *)

Lemma in_list_filter {A} (f : A → bool) l x : x ∈ List.filter f l ↔ x ∈ l ∧ f x = true.
Proof. by rewrite list_elem_of_In, filter_In, <-list_elem_of_In. Qed.

Lemma in_concat_map {A B} (f : A → list B) l x : x ∈ concat (map f l) ↔ ∃ a, a ∈ l ∧ x ∈ f a.
Proof.
  induction l as [|a l IH]; cbn [map concat]; [split; [by intros ?%elem_of_nil|by intros (? & ?%elem_of_nil & _)]|].
  rewrite elem_of_app, IH. split.
  - intros [?|(b & ? & ?)]; [exists a; split; [left|done]|exists b; split; [by right|done]].
  - intros (b & [->|?]%elem_of_cons & ?); [by left|right; eauto].
Qed.

(** [i] is an item of one of the groups. *)
Definition item_in (groups : list NavGroup) (i : NavItem) : Prop := ∃ g, g ∈ groups ∧ i ∈ group_items g.

(** What a component draws from the items of its groups. *)
Lemma in_drawn {D} (f : NavItem → list D) x groups :
  x ∈ concat (map (λ g, concat (map f (group_items g))) groups) ↔ ∃ i, item_in groups i ∧ x ∈ f i.
Proof. rewrite in_concat_map. setoid_rewrite in_concat_map. unfold item_in. naive_solver. Qed.

Lemma filter_keeps_all {A} (f : A → bool) l : (length (List.filter f l) =? length l)%nat = true → List.filter f l = l.
Proof.
  induction l as [|x l IH]; [done|]. cbn [List.filter]. destruct (f x); cbn [length].
  - intros H. f_equal. by apply IH.
  - intros H. exfalso. pose proof (filter_length_le f l). apply Nat.eqb_eq in H. lia.
Qed.

Definition sees_group (r : jsnum) (g : NavGroup) : bool :=
  if bool_decide (group_id g = Some (js "admin")) then num_leb ROLE_ADMIN r else true.

Lemma in_role_filter i groups r :
  item_in (filterSidebarNavGroupsByRole groups r) i
  ↔ ∃ g, g ∈ groups ∧ sees_group (default ROLE_GUEST r) g = true ∧ i ∈ group_items g
         ∧ role_allows (default ROLE_GUEST r) i = true.
Proof.
  unfold item_in, filterSidebarNavGroupsByRole.
  assert (∀ g, group_items (let items := List.filter (role_allows (default ROLE_GUEST r)) (group_items g) in
                 if (length items =? length (group_items g))%nat then g else mkGroup (group_id g) (group_title g) items)
               = List.filter (role_allows (default ROLE_GUEST r)) (group_items g)) as Hg.
  { intros g. cbv zeta. destruct (_ =? _)%nat eqn:E; [|done]. symmetry. by apply filter_keeps_all. }
  split.
  - intros (g' & Hg' & Hi). apply list_elem_of_fmap in Hg' as (g & -> & [Hin Hs]%in_list_filter).
    rewrite Hg in Hi. apply in_list_filter in Hi as [Hi Hr]. eauto 10.
  - intros (g & Hin & Hs & Hi & Hr). eexists _. split.
    + apply list_elem_of_fmap. exists g. split; [reflexivity|]. by apply in_list_filter.
    + rewrite Hg. by apply in_list_filter.
Qed.

Lemma in_config_filter g' a u groups :
  g' ∈ filterSidebarNavGroupsByConfig a u groups
  ↔ ∃ g, g ∈ groups ∧ g' = mkGroup (group_id g) (group_title g) (filterNavItems a u (group_items g))
         ∧ filterNavItems a u (group_items g) ≠ [].
Proof.
  unfold filterSidebarNavGroupsByConfig. rewrite in_list_filter. split.
  - intros [(g & -> & Hg)%list_elem_of_fmap Hl]. exists g. split_and!; [done..|]. cbn [group_items] in Hl. intros E. by rewrite E in Hl.
  - intros (g & Hg & -> & Hne). split; [apply list_elem_of_fmap; eauto|]. cbn [group_items].
    destruct (filterNavItems a u (group_items g)) as [|i l]; done.
Qed.

(** An item of the navigation is offered where the group is open to the role,
    the role may see the item, and the two layers of the configuration leave it
    visible. *)
Lemma offered_iff a u groups r i' :
  item_in (filterSidebarNavGroupsByRole (filterSidebarNavGroupsByConfig a u groups) r) i'
  ↔ ∃ g i, g ∈ groups ∧ i ∈ group_items g ∧ sees_group (default ROLE_GUEST r) g = true
           ∧ role_allows (default ROLE_GUEST r) i = true
           ∧ isNavItemVisible a u (filter_sub_items a u i) = true ∧ i' = filter_sub_items a u i.
Proof.
  rewrite in_role_filter. split.
  - intros (g' & Hg & Hs & Hi & Hr). apply in_config_filter in Hg as (g & Hg & -> & _).
    cbn [group_items] in Hi. apply in_list_filter in Hi as [Hi Hv]. apply list_elem_of_fmap in Hi as (i & -> & Hi).
    exists g, i. split_and!; try done. by destruct i.
  - intros (g & i & Hg & Hi & Hs & Hr & Hv & ->).
    assert (filter_sub_items a u i ∈ filterNavItems a u (group_items g)) as Hin.
    { apply in_list_filter. split; [|done]. apply list_elem_of_fmap. eauto. }
    eexists _. split; [apply in_config_filter; exists g; split_and!; [done|reflexivity|]|].
    { intros E. rewrite E in Hin. by apply elem_of_nil in Hin. }
    split_and!; [done|done|]. by destruct i.
Qed.

(** For the entries of the root navigation, which are links: *)
Definition entry_urls (base : BaseNavItem) (url : jstr) : list jstr := default [url] (configUrls base).

Definition root_entries (t : jstr → jstr) : list (bool * BaseNavItem * jstr) :=
  omap (λ '(g, i), match i with
                   | NavLink base url => Some (bool_decide (group_id g = Some (js "admin")), base, url)
                   | _ => None
                   end)
    (concat (map (λ g, map (pair g) (group_items g)) (useSidebarData t))).

(** The URL of every entry, the URLs that switch it on, and the roles it is for. *)
Inductive audience := everyone | administrators | d2s_administrators | super_administrators.

Definition admitted (who : audience) (r : jsnum) : bool :=
  match who with
  | everyone => true
  | administrators => num_leb ROLE_ADMIN r
  | d2s_administrators => num_leb ROLE_ADMIN r && existsb (num_eqb r) D2S_ADMIN_ROLES
  | super_administrators => num_leb ROLE_ADMIN r && num_leb ROLE_SUPER_ADMIN r
  end.

Definition site_map : list (string * list string * audience) :=
  [ ("/playground", ["/playground"], everyone);
    ("/dashboard/overview", ["/dashboard/overview"], everyone);
    ("/dashboard/models", ["/dashboard/models"], everyone);
    ("/keys", ["/keys"], everyone);
    ("/usage-logs/common", ["/usage-logs/common"], everyone);
    ("/usage-logs/task", ["/usage-logs/drawing"; "/usage-logs/task"], everyone);
    ("/d2s/store", ["/d2s/store"], everyone);
    ("/wallet", ["/wallet"], everyone);
    ("/d2s", ["/d2s"], everyone);
    ("/d2s/support-tickets", ["/d2s/support-tickets"], everyone);
    ("/profile", ["/profile"], everyone);
    ("/channels", ["/channels"], administrators);
    ("/models/metadata", ["/models/metadata"], administrators);
    ("/users", ["/users"], administrators);
    ("/redemption-codes", ["/redemption-codes"], administrators);
    ("/subscriptions", ["/subscriptions"], administrators);
    ("/d2s-admin", ["/d2s-admin"], d2s_administrators);
    ("/system-info", ["/system-info"], super_administrators);
    ("/task-plugins", ["/task-plugins"], super_administrators);
    ("/system-settings/site", ["/system-settings/site"], administrators) ]%string.

Lemma exists_pairwise {A B} (P : A → Prop) (Q : B → Prop) l k :
  Forall2 (λ a b, P a ↔ Q b) l k → (∃ a, a ∈ l ∧ P a) ↔ (∃ b, b ∈ k ∧ Q b).
Proof.
  induction 1 as [|a b l k Hab _ IH]; [split; intros (? & ?%elem_of_nil & _); done|].
  setoid_rewrite elem_of_cons. naive_solver.
Qed.

Definition entry_offered (a : object) (u : option json) (r : jsnum) (e : bool * BaseNavItem * jstr) : bool :=
  let '(for_admin, base, url) := e in
  (if for_admin then num_leb ROLE_ADMIN r else true) && role_allows r (NavLink base url)
  && existsb (url_enabled a u) (entry_urls base url).

Definition plain_item (i : NavItem) : Prop :=
  match i with NavLink _ url => truthy url = true | NavChatPresets _ => True | NavCollapsible _ _ => False end.

Lemma root_items_plain t : Forall (λ g, Forall plain_item (group_items g)) (useSidebarData t).
Proof. unfold useSidebarData. repeat constructor. Qed.

Lemma root_entry_iff t for_admin base url :
  (for_admin, base, url) ∈ root_entries t
  ↔ ∃ g, g ∈ useSidebarData t ∧ NavLink base url ∈ group_items g ∧ for_admin = bool_decide (group_id g = Some (js "admin")).
Proof.
  unfold root_entries. rewrite list_elem_of_omap. split.
  - intros ([g i] & Hin & Hi). apply in_concat_map in Hin as (g' & Hg & Hi'). apply list_elem_of_fmap in Hi' as (i' & ? & Hi').
    simplify_eq. destruct i'; simplify_eq. eauto.
  - intros (g & Hg & Hi & ->). exists (g, NavLink base url). split; [|done]. apply in_concat_map. exists g.
    split; [done|]. by apply list_elem_of_fmap_2.
Qed.

(** The links of the root navigation. *)
Lemma root_links t a u r url :
  (∃ base, item_in (filterSidebarNavGroupsByRole (filterSidebarNavGroupsByConfig a u (useSidebarData t)) r) (NavLink base url))
  ↔ ∃ e, e ∈ root_entries t ∧ url = e.2 ∧ entry_offered a u (default ROLE_GUEST r) e = true.
Proof.
  setoid_rewrite offered_iff. pose proof (root_items_plain t) as Hp. rewrite list.Forall_forall in Hp. split.
  - intros (base & g & i & Hg & Hi & Hs & Hr & Hv & Hx). specialize (Hp _ Hg).
    rewrite list.Forall_forall in Hp. specialize (Hp _ Hi). destruct i as [base' url'| |]; try done.
    cbn [filter_sub_items] in *. injection Hx as -> ->. cbn [isNavItemVisible plain_item] in Hv, Hp. rewrite Hp in Hv.
    exists (bool_decide (group_id g = Some (js "admin")), base', url').
    split; [by apply root_entry_iff; eauto|]. split; [done|]. unfold entry_offered. rewrite !andb_true_iff. done.
  - intros ([[for_admin base] url'] & He & -> & Ho). apply root_entry_iff in He as (g & Hg & Hi & ->).
    specialize (Hp _ Hg). rewrite list.Forall_forall in Hp. specialize (Hp _ Hi). cbn [plain_item] in Hp.
    unfold entry_offered in Ho. rewrite !andb_true_iff in Ho. destruct Ho as [[Hs Hr] Hv].
    exists base, g, (NavLink base url'). cbn [filter_sub_items isNavItemVisible]. rewrite Hp. by split_and!.
Qed.

(** Its chat presets: one item, open to every role. *)
Lemma root_presets t a u r :
  (∃ base, item_in (filterSidebarNavGroupsByRole (filterSidebarNavGroupsByConfig a u (useSidebarData t)) r) (NavChatPresets base))
  ↔ admin_allows a (js "chat") (js "chat") && user_allows u (js "chat") (js "chat") = true.
Proof.
  setoid_rewrite offered_iff. split.
  - intros (base & g & i & _ & _ & _ & _ & Hv & Hx). destruct i as [| |b]; try done. cbn [filter_sub_items isNavItemVisible] in Hv.
    by destruct (admin_allows a (js "chat") (js "chat")).
  - intros [Ha Hu]%andb_true_iff. eexists _, _, (NavChatPresets _).
    split; [left|]. split; [right; left|]. split_and!; [done|done| |reflexivity].
    cbn [filter_sub_items isNavItemVisible]. by rewrite Ha, Hu.
Qed.

(** It has no collapsible items. *)
Lemma root_collapsible t a u r base items :
  ¬ item_in (filterSidebarNavGroupsByRole (filterSidebarNavGroupsByConfig a u (useSidebarData t)) r) (NavCollapsible base items).
Proof.
  rewrite offered_iff. intros (g & i & Hg & Hi & _ & _ & _ & Hx). pose proof (root_items_plain t) as Hp.
  rewrite list.Forall_forall in Hp. specialize (Hp _ Hg). rewrite list.Forall_forall in Hp. specialize (Hp _ Hi). by destruct i.
Qed.

Definition matches (e : bool * BaseNavItem * jstr) (m : string * list string * audience) : Prop :=
  e.2 = js m.1.1 ∧ entry_urls e.1.2 e.2 = map js m.1.2
  ∧ ∀ r, (if e.1.1 then num_leb ROLE_ADMIN r else true) && role_allows r (NavLink e.1.2 e.2) = admitted m.2 r.

Lemma matches_plain e m : e = (match m.2 with everyone => false | _ => true end, e.1.2, js m.1.1) →
  entry_urls e.1.2 e.2 = map js m.1.2 →
  match m.2 with
  | everyone | administrators => requiredRoles e.1.2 = None ∧ requiredRole e.1.2 = None
  | d2s_administrators => requiredRoles e.1.2 = Some D2S_ADMIN_ROLES ∧ requiredRole e.1.2 = Some ROLE_ADMIN
  | super_administrators => requiredRoles e.1.2 = None ∧ requiredRole e.1.2 = Some ROLE_SUPER_ADMIN
  end → matches e m.
Proof.
  destruct e as [[for_admin base] url], m as [[u urls] who]. cbn [fst snd]. intros He Hu Hr.
  injection He as -> ->. split; [done|]. split; [done|]. intros r. cbn [fst snd]. unfold role_allows. cbn [base_of].
  destruct who, Hr as [-> ->]; cbn [from_option admitted andb]; rewrite ?andb_true_r; try done.
  rewrite andb_assoc, (andb_comm (num_leb ROLE_ADMIN r && _)), andb_assoc. by destruct (num_leb ROLE_ADMIN r).
Qed.

Lemma root_entries_match t : Forall2 matches (root_entries t) site_map.
Proof.
  unfold root_entries, useSidebarData, site_map.
  repeat (apply list.Forall2_cons; split; [by apply matches_plain|]). apply list.Forall2_nil. done.
Qed.

(** An entry of the site map is a link of the root navigation exactly where one
    of the URLs that switch it on is left visible by both the administrator and
    the user, and the role belongs to the entry's audience. *)
Lemma root_site_map t status user url :
  (∃ base, item_in (rootNavGroups t status user) (NavLink base url))
  ↔ ∃ e, e ∈ site_map ∧ url = js e.1.1
         ∧ existsb (λ u, useIsSidebarModuleVisible status user (js u)) e.1.2 = true
         ∧ admitted e.2 (default ROLE_GUEST (role <$> user)) = true.
Proof.
  unfold rootNavGroups, useSidebarConfig. rewrite root_links. apply exists_pairwise.
  eapply list.Forall2_impl; [apply root_entries_match|]. intros [[for_admin base] x] [[u urls] who] (Hx & Hu & Hr).
  cbn [fst snd] in *. unfold entry_offered. rewrite Hu, Hr, Hx, andb_true_iff. unfold useIsSidebarModuleVisible.
  assert (existsb (url_enabled (status_config status) (account_config user)) (map js urls)
          = existsb (λ u, isSidebarModuleEnabledForConfig (js u) (status_config status) (account_config user)) urls) as ->.
  { clear. induction urls as [|v urls IH]; [done|]. cbn [map existsb]. by rewrite IH. }
  tauto.
Qed.

(** ** The user's layer *)

Lemma enabled_narrows url a u : isSidebarModuleEnabledForConfig url a u = true → isSidebarModuleEnabledForConfig url a None = true.
Proof.
  unfold isSidebarModuleEnabledForConfig. destruct (field_get _ _) as [[section module]|]; [|done].
  by destruct (admin_allows a section module).
Qed.

Lemma filter_sublist {A} (f g : A → bool) l : (∀ x, f x = true → g x = true) → List.filter f l `sublist_of` List.filter g l.
Proof.
  intros Hfg. induction l as [|x l IH]; [done|]. cbn [List.filter]. destruct (f x) eqn:E.
  - rewrite (Hfg x E). by apply sublist_skip.
  - destruct (g x); [by apply sublist_cons|done].
Qed.

Lemma existsb_narrows {A} (f g : A → bool) l : (∀ x, f x = true → g x = true) → existsb f l = true → existsb g l = true.
Proof.
  intros Hfg. induction l as [|x l IH]; [done|]. cbn [existsb]. rewrite !orb_true_iff. naive_solver.
Qed.

Lemma visible_narrows a u i : isNavItemVisible a u (filter_sub_items a u i) = true →
  isNavItemVisible a None (filter_sub_items a None i) = true.
Proof.
  destruct i as [base url|base items|base]; cbn [filter_sub_items isNavItemVisible].
  - destruct (truthy url); [|done]. apply existsb_narrows. intros x. apply enabled_narrows.
  - rewrite !existsb_exists. intros (x & [Hx He]%filter_In & _). apply enabled_narrows in He.
    exists x. split; [apply filter_In|]; done.
  - by destruct (negb (admin_allows a (js "chat") (js "chat"))).
Qed.

Lemma item_destinations_narrow a u i :
  item_destinations (filter_sub_items a u i) `sublist_of` item_destinations (filter_sub_items a None i).
Proof.
  destruct i as [base url|base items|base]; cbn [filter_sub_items item_destinations]; [done| |done].
  assert (List.filter (λ sub : BaseNavItem * jstr, url_enabled a u sub.2) items
          `sublist_of` List.filter (λ sub, url_enabled a None sub.2) items) as H.
  { apply filter_sublist. intros x. apply enabled_narrows. }
  induction H; cbn [fmap list_fmap]; by constructor.
Qed.

Lemma items_narrow a u items :
  concat (map item_destinations (filterNavItems a u items))
  `sublist_of` concat (map item_destinations (filterNavItems a None items)).
Proof.
  unfold filterNavItems. induction items as [|i items IH]; [done|]. cbn [map List.filter].
  destruct (isNavItemVisible a u (filter_sub_items a u i)) eqn:E.
  - rewrite (visible_narrows _ _ _ E). cbn [map concat]. apply sublist_app; [apply item_destinations_narrow|done].
  - destruct (isNavItemVisible a None (filter_sub_items a None i)); [|done]. cbn [map concat]. by apply sublist_inserts_l.
Qed.

Lemma destinations_by_config a u groups :
  destinations (filterSidebarNavGroupsByConfig a u groups)
  = concat (map (λ g, concat (map item_destinations (filterNavItems a u (group_items g)))) groups).
Proof.
  unfold destinations, filterSidebarNavGroupsByConfig. induction groups as [|g groups IH]; [done|].
  cbn [map List.filter group_items]. destruct (filterNavItems a u (group_items g)) as [|i l] eqn:E; cbn [length Nat.ltb Nat.leb map concat].
  - exact IH.
  - f_equal. exact IH.
Qed.

(** The user's own configuration only narrows: whatever it holds, what
    remains of any navigation (collapsible entries included) is a part, in
    order, of what remains without it. *)
Theorem user_layer_only_narrows a u groups :
  destinations (filterSidebarNavGroupsByConfig a u groups)
  `sublist_of` destinations (filterSidebarNavGroupsByConfig a None groups).
Proof.
  rewrite !destinations_by_config. induction groups as [|g groups IH]; [done|]. cbn [map concat].
  apply sublist_app; [apply items_narrow|done].
Qed.

(** ** The header's links and the guards of their routes *)

Lemma parse_member_access m l modules : (∃ a, field_get (module_name m) modules = Some (NavAccess a)) →
  ∃ a, field_get (module_name m) (foldl parse_member modules l) = Some (NavAccess a).
Proof.
  revert modules. induction l as [|[k v] l IH]; intros modules [a Ha]; [eauto|]. cbn [foldl]. apply IH.
  unfold parse_member.
  destruct (bool_decide_reflect (k = js "pricing")) as [->|Hp]; [|rewrite (jeqb_neq k (js "pricing")) by done].
  { rewrite jeqb_refl, field_get_obj_set. destruct (_ === _); eauto. }
  destruct (bool_decide_reflect (k = js "rankings")) as [->|Hr]; [|rewrite (jeqb_neq k (js "rankings")) by done].
  { rewrite jeqb_refl, field_get_obj_set. destruct (_ === _); eauto. }
  destruct (_ || _); [|eauto]. unfold set_member. destruct (_ === _); [eauto|]. rewrite field_get_obj_set, jeqb_neq; [eauto|].
  by destruct m.
Qed.

Lemma header_access m raw : ∃ a, field_get (module_name m) (parseHeaderNavModules raw) = Some (NavAccess a)
                                 ∧ access_of m (parseHeaderNavModules raw) = a.
Proof.
  assert (∃ a, field_get (module_name m) (parseHeaderNavModules raw) = Some (NavAccess a)) as [a Ha].
  { assert (∃ a, field_get (module_name m) DEFAULT_HEADER_NAV_MODULES = Some (NavAccess a)) as Hd by (destruct m; by eexists).
    unfold parseHeaderNavModules. destruct (parseHeaderNavRecord raw) as [v|]; [|done].
    destruct (json_truthy v); [by apply parse_member_access|done]. }
  exists a. split; [done|]. unfold access_of. by rewrite Ha.
Qed.

Definition module_url (m : HeaderNavModule) : jstr := match m with pricing => js "/pricing" | rankings => js "/rankings" end.

(** A link of the header that stands for a module with its own access rule. *)
Definition module_link (links : list TopNavLink) (m : HeaderNavModule) (needs_sign_in : bool) : Prop :=
  ∃ l, l ∈ links ∧ top_href l = JStr (module_url m) ∧ requiresAuth l = Some needs_sign_in.

Lemma not_off_link name modules l m b : requiresAuth l = None → ¬ module_link (shown_unless_off name modules [l]) m b.
Proof.
  intros Hl (l' & Hin & _ & Hb). unfold shown_unless_off in Hin.
  assert (l' = l) as -> by (destruct (field_get _ _) as [[[]|]|]; rewrite ?elem_of_nil, ?list_elem_of_singleton in Hin; done).
  congruence.
Qed.

Lemma module_link_app l1 l2 m b : module_link (l1 ++ l2) m b ↔ module_link l1 m b ∨ module_link l2 m b.
Proof. unfold module_link. setoid_rewrite elem_of_app. naive_solver. Qed.

Lemma access_link_iff t m m' name authed modules b a : field_get (module_name m') modules = Some (NavAccess a) →
  module_link (access_link t m' name (match m' with pricing => "/pricing" | rankings => "/rankings" end)%string authed modules) m b
  ↔ m = m' ∧ enabled a = true ∧ b = requireAuth a && negb authed.
Proof.
  intros Ha. unfold access_link. rewrite Ha. unfold module_link. destruct (enabled a).
  - setoid_rewrite list_elem_of_singleton. split.
    + intros (l & -> & Hh & Hb). cbn [top_href requiresAuth] in *. destruct m, m'; by simplify_eq.
    + intros (-> & _ & ->). eexists. split; [done|]. by destruct m'.
  - split; [by intros (l & ?%elem_of_nil & _)|naive_solver].
Qed.

Lemma header_links t status user m b :
  module_link (useTopNavLinks t status user) m b
  ↔ let a := getModuleAccessFromStatus status m in enabled a = true ∧ b = requireAuth a && negb (bool_decide (is_Some user)).
Proof.
  unfold useTopNavLinks. cbv zeta. rewrite !module_link_app.
  unfold getModuleAccessFromStatus, parseHeaderNavModulesFromStatus.
  destruct (header_access pricing (jget_opt (js "HeaderNavModules") status)) as (p & Hp & Ep).
  destruct (header_access rankings (jget_opt (js "HeaderNavModules") status)) as (r & Hr & Er).
  rewrite (access_link_iff t m pricing _ _ _ b p Hp), (access_link_iff t m rankings _ _ _ b r Hr).
  split.
  - intros [H|[H|[H|[H|[H|H]]]]].
    + by apply not_off_link in H.
    + by apply not_off_link in H.
    + destruct H as [-> H]. by rewrite Ep.
    + destruct H as [-> H]. by rewrite Er.
    + apply not_off_link in H; [done|]. destruct (jget_opt (js "docs_link") status) as [v|]; [|done]. by destruct (json_truthy v).
    + by apply not_off_link in H.
  - intros H. destruct m; [rewrite Er in H|rewrite Ep in H]; naive_solver.
Qed.

(** [C20] The header and the guards decide alike: on the same status, the route
    of a module opens exactly where the header links to it without asking for a
    sign-in, it sends the visitor to the sign-in page (and back) exactly where
    the link asks for one, and home exactly where there is no link.  Where the
    status cannot be had, the route is closed and the cache is left alone. *)
Theorem header_agrees_with_guard t can_store status m user href item :
  let outcome := (module_guard can_store (Some status) m user href item).1 in
  let links := useTopNavLinks t status user in
  (outcome = Proceed ↔ module_link links m false)
  ∧ (outcome = Redirect (js "/sign-in") (Some href) ↔ module_link links m true)
  ∧ (outcome = Redirect (js "/") None ↔ ∀ b, ¬ module_link links m b)
  ∧ module_guard can_store None m user href item = (Redirect (js "/") None, item).
Proof.
  cbv zeta. unfold module_guard, getFreshModuleAccess. cbn [fst]. setoid_rewrite header_links. cbv zeta.
  destruct (getModuleAccessFromStatus status m) as [[] []], user as [u|]; cbn [enabled requireAuth negb fst];
    repeat split; try naive_solver; try (intros H; specialize (H false) || specialize (H true); naive_solver);
    try (intros H; exfalso; apply (H true); done); try (intros H; exfalso; apply (H false); done).
Qed.

(** ** The permission editor *)

Section Matrix.
Context (catalog : PermissionCatalog).

(** The value the editor shows for an action. *)
Definition cell (value : option AdminPermissionMatrix) (r a : jstr) : bool :=
  match value ≫= λ v, granted v r a with
  | Some b => b
  | None => default false (granted (roleGrants catalog ADMIN_ROLE_KEY) r a)
  end.

Definition row (value : option AdminPermissionMatrix) (r : PermissionResourceDef) : list (jstr * bool) :=
  foldl (λ row action, obj_set action (cell value (resource r) action) row) [] (actions r).

Lemma row_get_from value r acts acc a :
  field_get a (foldl (λ row action, obj_set action (cell value r action) row) acc acts)
  = if bool_decide (a ∈ acts) then Some (cell value r a) else field_get a acc.
Proof.
  revert acc. induction acts as [|x acts IH]; intros acc; [done|]. cbn [foldl]. rewrite IH, field_get_obj_set.
  destruct (bool_decide_reflect (a ∈ acts)) as [Hin|Hout].
  - by rewrite bool_decide_true by (by right).
  - destruct (bool_decide_reflect (x = a)) as [->|Hne].
    + by rewrite jeqb_refl, bool_decide_true by left.
    + rewrite jeqb_neq by done. rewrite bool_decide_false; [done|]. by intros [->|?]%elem_of_cons.
Qed.

Lemma row_get value r a : field_get a (row value r) = if bool_decide (a ∈ actions r) then Some (cell value (resource r) a) else None.
Proof. apply row_get_from. Qed.

(** Rows do not depend on the order in which cells were known. *)
Lemma row_cells value value' r : (∀ a, a ∈ actions r → cell value (resource r) a = cell value' (resource r) a) → row value r = row value' r.
Proof.
  unfold row. generalize (@nil (jstr * bool)). induction (actions r) as [|a l IH]; intros acc H; [done|]. cbn [foldl].
  rewrite (H a) by left. apply IH. intros b Hb. apply H. by right.
Qed.

(** The resource named [r] that the catalogue lists last. *)
Definition last_resource (r : jstr) (defs : list PermissionResourceDef) : option PermissionResourceDef :=
  foldl (λ found d, if resource d === r then Some d else found) None defs.

Lemma last_resource_elem r defs d : last_resource r defs = Some d → d ∈ defs ∧ resource d = r.
Proof.
  unfold last_resource. induction defs as [|x defs IH] using rev_ind; [done|]. rewrite foldl_app. cbn [foldl].
  destruct (resource x === r) eqn:E.
  - intros H. simplify_eq. split; [apply elem_of_app; right; left|by apply jeqb_true].
  - intros [? ?]%IH. split; [apply elem_of_app; by left|done].
Qed.

Definition matrix (value : option AdminPermissionMatrix) (defs : list PermissionResourceDef) : AdminPermissionMatrix :=
  foldl (λ m d, obj_set (resource d) (row value d) m) [] defs.

Lemma matrix_snoc value defs d : matrix value (defs ++ [d]) = obj_set (resource d) (row value d) (matrix value defs).
Proof. unfold matrix. by rewrite foldl_app. Qed.

Lemma matrix_get value defs r : field_get r (matrix value defs) = row value <$> last_resource r defs.
Proof.
  induction defs as [|d defs IH] using rev_ind; [done|]. rewrite matrix_snoc, field_get_obj_set, IH.
  unfold last_resource. rewrite foldl_app. cbn [foldl]. by destruct (resource d === r).
Qed.

Lemma normalize_matrix value : normalizeAdminPermissions value catalog = matrix value (resources catalog).
Proof. done. Qed.

(** The permission editor starts from a full matrix: for every resource and
    action of the catalogue, and for nothing else, the account's own value, else
    the administrator role's baseline, else [false].  A matrix the editor has
    filled in is read back as it is. *)
Theorem permission_matrix_complete value r a :
  let filled := normalizeAdminPermissions value catalog in
  granted filled r a
  = (d ← last_resource r (resources catalog); if bool_decide (a ∈ actions d) then Some (cell value r a) else None)
  ∧ granted (normalizeAdminPermissions (Some filled) catalog) r a = granted filled r a.
Proof.
  cbv zeta. rewrite !normalize_matrix.
  assert (∀ v, granted (matrix v (resources catalog)) r a
               = (d ← last_resource r (resources catalog); if bool_decide (a ∈ actions d) then Some (cell v r a) else None)) as H.
  { intros v. unfold granted. rewrite matrix_get. destruct (last_resource r (resources catalog)) as [d|] eqn:E; [|done].
    cbn [fmap option_fmap option_map mbind option_bind]. rewrite row_get. by destruct (last_resource_elem _ _ _ E) as [_ ->]. }
  split; [apply H|]. rewrite (H (Some _)). destruct (granted (matrix value (resources catalog)) r a) as [b|] eqn:G;
    rewrite (H value) in G; destruct (last_resource r (resources catalog)) as [d|]; try done;
    cbn [mbind option_bind] in *; destruct (bool_decide (a ∈ actions d)) eqn:Ha; try done.
  apply (inj Some) in G. f_equal. unfold cell at 1. cbn [mbind option_bind]. by rewrite H.
Qed.
End Matrix.
