(* ===== verification/NavigationViews.v ===== *)
(** * The views of the sidebar and the chat presets

    Models [components/layout/lib/sidebar-view-registry.ts], the nested view of
    [components/layout/config/system-settings.config.ts] with the section
    registries it lists, [useSidebarView], what [app-sidebar.tsx],
    [sidebar-view-header.tsx], [nav-group.tsx] and [chat-presets-item.tsx] offer to
    go to, and the chat presets of [features/chat/lib/chat-links.ts] and
    [features/chat/hooks/use-chat-presets.ts].  The server address and the keys of
    the chat links are left out: they decide where an external link leads, not
    whether it is offered. *)

From S2P Require Import Prelude JsValue JsCollections AuthSession Navigation.
Import AuthStore Navigation.

(** ** chat-links.ts and use-chat-presets.ts *)
Module ChatLinks.

Inductive ChatLinkType := web | custom_protocol | fluent.
#[export] Instance link_type_eq_dec : EqDecision ChatLinkType.
Proof. solve_decision. Defined.

Record ChatPreset := mkPreset { id : jstr; name : jstr; url : jstr; type : ChatLinkType }.

(** [/^https?:\/\//i] and [toLowerCase]: no letter outside ASCII is folded to
    one of the letters compared. *)
Definition detectChatLinkType (url : jstr) : ChatLinkType :=
  let lower := lower_ascii url in
  if startsWith lower (js "http://") || startsWith lower (js "https://") then web
  else if startsWith lower (js "fluent") then fluent
  else custom_protocol.

(** The callback of [map]; [None] is [null], which the filter removes. *)
Definition chat_entry (index : nat) (entry : json) : option ChatPreset :=
  match entry with
  | JObj [(name, JStr value)] =>
      let url := trim value in
      if negb (truthy url) then None
      else Some (mkPreset (digits (N.of_nat index)) name url (detectChatLinkType url))
  | _ => None
  end.

Definition parseChatConfig (raw : option json) : list ChatPreset :=
  match raw ≫= decoded with
  | Some (JArr entries) => omap (λ e, e) (imap chat_entry entries)
  | _ => []
  end.

(** [a ?? b] *)
Definition nullish_or (a b : option json) : option json :=
  match a with None | Some JNull => b | _ => a end.

Definition getStoredStatusChats (item : option jstr) : option json :=
  let parsed := getCachedStatus item in
  nullish_or (jget_opt (js "chats") parsed) (jget_opt (js "Chats") parsed).

Definition extractChats (status : option json) (item : option jstr) : option json :=
  let data := jget_opt (js "data") status in
  nullish_or
    (nullish_or (jget_opt (js "Chats") status)
      (nullish_or (jget_opt (js "chats") status)
        (nullish_or (jget_opt (js "Chats") data) (jget_opt (js "chats") data))))
    (getStoredStatusChats item).

Definition useChatPresets (status : option json) (item : option jstr) : list ChatPreset :=
  parseChatConfig (extractChats status item).

End ChatLinks.
Import ChatLinks.

(** ** Section registries

    A registry holds the identifiers and title keys of the array of sections
    above it in its file; what a section builds is left out. *)
Module Sections.

Inductive UrlStyle := query | path.
Record SectionRegistryConfig := mkRegistry {
  sections : list (jstr * jstr);      (* id and title key *)
  defaultSection : jstr;
  basePath : jstr;
  urlStyle : UrlStyle;
}.

(** The titles and URLs of the sections. *)
Definition getSectionNavItems (t : jstr → jstr) (config : SectionRegistryConfig) : list (BaseNavItem * jstr) :=
  map (λ '(id, titleKey),
    (mkBase (t titleKey) None None None None,
     match urlStyle config with
     | path => basePath config ++ js "/" ++ id
     | query => basePath config ++ js "?section=" ++ id
     end)) (sections config).

Definition registry (basePath defaultSection : string) (sections : list (string * string)) : SectionRegistryConfig :=
  mkRegistry (map (λ '(id, titleKey), (js id, js titleKey)) sections) (js defaultSection) (js basePath) path.

Definition siteRegistry : SectionRegistryConfig :=
  registry "/system-settings/site" "system-info"
    [ ("system-info", "System Information");
      ("notice", "System Notice");
      ("header-navigation", "Header navigation");
      ("sidebar-modules", "Sidebar modules") ]%string.
Definition authRegistry : SectionRegistryConfig :=
  registry "/system-settings/auth" "basic-auth"
    [ ("basic-auth", "Basic Authentication");
      ("oauth", "OAuth Integrations");
      ("passkey", "Passkey Authentication");
      ("bot-protection", "Bot Protection");
      ("custom-oauth", "Custom OAuth") ]%string.
Definition billingRegistry : SectionRegistryConfig :=
  registry "/system-settings/billing" "quota"
    [ ("quota", "Quota Settings");
      ("currency", "Currency & Display");
      ("model-pricing", "Model Pricing");
      ("group-pricing", "Group Pricing");
      ("payment", "Payment Gateway");
      ("checkin", "Check-in Rewards") ]%string.
Definition modelsRegistry : SectionRegistryConfig :=
  registry "/system-settings/models" "global"
    [ ("global", "Global Model Configuration");
      ("routing-reliability", "Routing Reliability");
      ("gemini", "Gemini");
      ("claude", "Claude");
      ("grok", "Grok");
      ("channel-affinity", "Channel Affinity");
      ("model-deployment", "Model Deployment") ]%string.
Definition securityRegistry : SectionRegistryConfig :=
  registry "/system-settings/security" "rate-limit"
    [ ("rate-limit", "Rate Limiting");
      ("sensitive-words", "Sensitive Words");
      ("ssrf", "SSRF Protection");
      ("token-limits", "Token Limits") ]%string.
Definition contentRegistry : SectionRegistryConfig :=
  registry "/system-settings/content" "dashboard"
    [ ("dashboard", "Data Dashboard");
      ("announcements", "Announcements");
      ("api-info", "API Addresses");
      ("faq", "FAQ");
      ("uptime-kuma", "Uptime Kuma");
      ("chat", "Chat Presets");
      ("drawing", "Drawing") ]%string.
Definition operationsRegistry : SectionRegistryConfig :=
  registry "/system-settings/operations" "behavior"
    [ ("behavior", "System Behavior");
      ("alerts", "Monitoring & Alerts");
      ("email", "SMTP Email");
      ("tencent-ses", "Email delivery");
      ("worker", "Worker Proxy");
      ("logs", "Log Maintenance");
      ("performance", "Performance");
      ("update-checker", "System maintenance") ]%string.

End Sections.
Import Sections.

(** ** The registry of views and the resolved view *)
Module Views.

Record SidebarView := mkView {
  view_id : jstr;
  pathPattern : jstr → bool;
  parent_to : jstr;
  parent_label : jstr;
  getNavGroups : (jstr → jstr) → list NavGroup;
}.

Definition collapsible (title : jstr) (items : list (BaseNavItem * jstr)) : NavItem :=
  NavCollapsible (mkBase title None None None None) items.

Definition getSystemSettingsNavGroups (t : jstr → jstr) : list NavGroup :=
  [ mkGroup (Some (js "system-administration")) (t (js "System Administration"))
      [ collapsible (t (js "Site & Branding")) (getSectionNavItems t siteRegistry);
        collapsible (t (js "Authentication")) (getSectionNavItems t authRegistry);
        collapsible (t (js "Billing & Payment")) (getSectionNavItems t billingRegistry);
        collapsible (t (js "Models & Routing")) (getSectionNavItems t modelsRegistry);
        collapsible (t (js "Security & Limits")) (getSectionNavItems t securityRegistry);
        collapsible (t (js "Console Content")) (getSectionNavItems t contentRegistry);
        collapsible (t (js "Operations")) (getSectionNavItems t operationsRegistry) ] ].

(** [/^\/system-settings(\/|$)/] *)
Definition system_settings_path (pathname : jstr) : bool :=
  startsWith pathname (js "/system-settings")
  && match drop (length (js "/system-settings")) pathname with [] => true | c :: _ => (c =? 47)%N end.

Definition SYSTEM_SETTINGS_VIEW : SidebarView :=
  mkView (js "system-settings") system_settings_path (js "/dashboard/overview") (js "Back to Dashboard")
    getSystemSettingsNavGroups.

Definition SIDEBAR_VIEWS : list SidebarView := [SYSTEM_SETTINGS_VIEW].

Definition resolveSidebarView (pathname : jstr) : option SidebarView :=
  List.find (λ v, pathPattern v pathname) SIDEBAR_VIEWS.

Definition ROOT_VIEW_KEY : jstr := js "__root".

Record ResolvedSidebarView := mkResolved { key : jstr; view : option SidebarView; navGroups : list NavGroup }.

Definition useSidebarView (t : jstr → jstr) (pathname : jstr) (status : option json) (user : option AuthUser)
    : ResolvedSidebarView :=
  match resolveSidebarView pathname with
  | Some view => mkResolved (view_id view) (Some view) (getNavGroups view t)
  | None => mkResolved ROOT_VIEW_KEY None (rootNavGroups t status user)
  end.

(** ** What can be gone to *)

(** A route of the application, or a link that opens another program or site. *)
Inductive Destination := Route (to : jstr) | External (template : jstr).

(** [ChatPresetsItem]: the presets it lists, and where each leads. *)
Definition visiblePresets (chatPresets : list ChatPreset) : list ChatPreset :=
  List.filter (λ p, negb (bool_decide (type p = fluent))) chatPresets.
Definition preset_destination (p : ChatPreset) : Destination :=
  match type p with
  | web => Route (js "/chat/" ++ id p)
  | _ => External (url p)
  end.

(** An item of [NavGroup]. *)
Definition sidebar_item (chatPresets : list ChatPreset) (item : NavItem) : list Destination :=
  match item with
  | NavChatPresets _ => map preset_destination (visiblePresets chatPresets)
  | NavLink _ url => [Route url]
  | NavCollapsible _ items => map Route items.*2
  end.

(** The sidebar: the way back of a nested view, then the groups. *)
Definition AppSidebar (chatPresets : list ChatPreset) (resolved : ResolvedSidebarView) : list Destination :=
  from_option (λ v, [Route (parent_to v)]) [] (view resolved)
  ++ concat (map (λ g, concat (map (sidebar_item chatPresets) (group_items g))) (navGroups resolved)).

(** The command menu, without the commands of the theme. *)
Definition CommandMenu (resolved : ResolvedSidebarView) : list Destination :=
  map Route (destinations (navGroups resolved)).

End Views.
