(* ===== verification/NavigationViewsFacts.v ===== *)
(** * Facts about the views of the sidebar

    Where the sidebar and the command menu lead, for every path, status, stored
    status, account and role. *)

From S2P Require Import Prelude JsValue JsCollections StringFacts AuthSession Navigation NavigationFacts NavigationViews.
Import AuthStore Navigation ChatLinks Sections Views.

(** The pages of the system settings. *)
Definition settings_pages : list string :=
  [ "/system-settings/site/system-info"; "/system-settings/site/notice"; "/system-settings/site/header-navigation";
    "/system-settings/site/sidebar-modules"; "/system-settings/auth/basic-auth"; "/system-settings/auth/oauth";
    "/system-settings/auth/passkey"; "/system-settings/auth/bot-protection"; "/system-settings/auth/custom-oauth";
    "/system-settings/billing/quota"; "/system-settings/billing/currency"; "/system-settings/billing/model-pricing";
    "/system-settings/billing/group-pricing"; "/system-settings/billing/payment"; "/system-settings/billing/checkin";
    "/system-settings/models/global"; "/system-settings/models/routing-reliability"; "/system-settings/models/gemini";
    "/system-settings/models/claude"; "/system-settings/models/grok"; "/system-settings/models/channel-affinity";
    "/system-settings/models/model-deployment"; "/system-settings/security/rate-limit"; "/system-settings/security/sensitive-words";
    "/system-settings/security/ssrf"; "/system-settings/security/token-limits"; "/system-settings/content/dashboard";
    "/system-settings/content/announcements"; "/system-settings/content/api-info"; "/system-settings/content/faq";
    "/system-settings/content/uptime-kuma"; "/system-settings/content/chat"; "/system-settings/content/drawing";
    "/system-settings/operations/behavior"; "/system-settings/operations/alerts"; "/system-settings/operations/email";
    "/system-settings/operations/tencent-ses"; "/system-settings/operations/worker"; "/system-settings/operations/logs";
    "/system-settings/operations/performance"; "/system-settings/operations/update-checker" ]%string.

(** A path of the system settings. *)
Definition in_settings (pathname : jstr) : bool :=
  (pathname === js "/system-settings") || startsWith pathname (js "/system-settings/").

Lemma system_settings_path_spec pathname : system_settings_path pathname = in_settings pathname.
Proof.
  unfold system_settings_path, in_settings. apply eq_iff_eq_true. rewrite andb_true_iff, orb_true_iff. split.
  - intros [[k ->]%startsWith_true H]. rewrite drop_app_length in H. destruct k as [|c k].
    + left. rewrite app_nil_r. apply jeqb_refl.
    + right. apply N.eqb_eq in H as ->. apply startsWith_true. by exists k.
  - intros [H|[k ->]%startsWith_true].
    + apply jeqb_true in H as ->. by vm_compute.
    + split; [apply startsWith_true; by exists (47%N :: k)|].
      change (js "/system-settings/" ++ k) with (js "/system-settings" ++ 47%N :: k). by rewrite drop_app_length.
Qed.

Lemma resolved_settings t pathname status user : in_settings pathname = true →
  useSidebarView t pathname status user
  = mkResolved (js "system-settings") (Some SYSTEM_SETTINGS_VIEW) (getSystemSettingsNavGroups t).
Proof.
  intros H. unfold useSidebarView, resolveSidebarView, SIDEBAR_VIEWS. cbn [List.find pathPattern SYSTEM_SETTINGS_VIEW].
  by rewrite system_settings_path_spec, H.
Qed.
Lemma resolved_root t pathname status user : in_settings pathname = false →
  useSidebarView t pathname status user = mkResolved ROOT_VIEW_KEY None (rootNavGroups t status user).
Proof.
  intros H. unfold useSidebarView, resolveSidebarView, SIDEBAR_VIEWS. cbn [List.find pathPattern SYSTEM_SETTINGS_VIEW].
  by rewrite system_settings_path_spec, H.
Qed.

(** The titles are translated, the URLs are not. *)
Lemma settings_destinations t : destinations (getSystemSettingsNavGroups t) = map js settings_pages.
Proof. vm_compute. reflexivity. Qed.
Lemma settings_sidebar t presets :
  concat (map (λ g, concat (map (sidebar_item presets) (group_items g))) (getSystemSettingsNavGroups t))
  = map (λ u, Route (js u)) settings_pages.
Proof. vm_compute. reflexivity. Qed.

Lemma in_map_js {D} (f : jstr → D) (us : list string) d :
  d ∈ map (λ u, f (js u)) us ↔ ∃ u, u ∈ us ∧ d = f (js u).
Proof. change (map ?g us) with (g <$> us). rewrite list_elem_of_fmap. naive_solver. Qed.

(** An item of the root navigation as the two components draw it. *)
Lemma root_sidebar t status user presets d :
  d ∈ concat (map (λ g, concat (map (sidebar_item presets) (group_items g))) (rootNavGroups t status user))
  ↔ (∃ base url, item_in (rootNavGroups t status user) (NavLink base url) ∧ d = Route url)
    ∨ (∃ base, item_in (rootNavGroups t status user) (NavChatPresets base))
      ∧ ∃ p, p ∈ presets ∧ type p ≠ fluent ∧ d = preset_destination p.
Proof.
  rewrite in_drawn. split.
  - intros (i & Hi & Hd). destruct i as [base url|base items|base]; cbn [sidebar_item] in Hd.
    + left. exists base, url. by apply list_elem_of_singleton in Hd as ->.
    + by apply root_collapsible in Hi.
    + right. split; [by eexists|]. apply list_elem_of_fmap in Hd as (p & -> & [Hp Ht]%in_list_filter).
      exists p. split_and!; [done| |done]. apply negb_true_iff, bool_decide_eq_false in Ht. done.
  - intros [(base & url & Hi & ->)|[[base Hi] (p & Hp & Ht & ->)]].
    + exists (NavLink base url). split; [done|]. by apply list_elem_of_singleton.
    + exists (NavChatPresets base). split; [done|]. apply list_elem_of_fmap. exists p. split; [done|].
      apply in_list_filter. split; [done|]. by rewrite bool_decide_eq_false_2.
Qed.

Lemma root_menu t status user url :
  url ∈ destinations (rootNavGroups t status user)
  ↔ ∃ base, item_in (rootNavGroups t status user) (NavLink base url).
Proof.
  unfold destinations. rewrite in_drawn. split.
  - intros (i & Hi & Hd). destruct i as [base u|base items|base]; cbn [item_destinations] in Hd.
    + destruct (truthy u); [|by apply elem_of_nil in Hd]. apply list_elem_of_singleton in Hd as ->. by exists base.
    + by apply root_collapsible in Hi.
    + by apply elem_of_nil in Hd.
  - intros [base Hi]. exists (NavLink base url). split; [done|]. cbn [item_destinations].
    pose proof (proj1 (root_site_map t status user url) (ex_intro _ base Hi)) as (e & He & -> & _).
    replace (truthy (js e.1.1)) with true; [by apply list_elem_of_singleton|].
    revert He. unfold site_map. intros He. repeat (apply elem_of_cons in He as [->|He]; [reflexivity|]). by apply elem_of_nil in He.
Qed.

(** An entry of the site map that the account may see. *)
Definition open_entry (status : option json) (user : option AuthUser) (url : jstr) : Prop :=
  ∃ e, e ∈ site_map ∧ url = js e.1.1
       ∧ existsb (λ u, useIsSidebarModuleVisible status user (js u)) e.1.2 = true
       ∧ admitted e.2 (default ROLE_GUEST (role <$> user)) = true.

(** The chat module is left on by the administrator and by the user. *)
Definition chat_open (status : option json) (user : option AuthUser) : bool :=
  admin_allows (status_config status) (js "chat") (js "chat")
  && user_allows (account_config user) (js "chat") (js "chat").

(** [C19] Where the sidebar and the command menu lead, for every path, status,
    cached status, account and role.  Inside the system settings: the sidebar to
    the way back and the pages of the settings, the menu to those pages.
    Elsewhere: both to an entry of the site map exactly where one of the URLs
    that switch it on is left visible by both the administrator and the user, and
    the role belongs to the entry's audience; the sidebar also to each chat
    preset that is not a "fluent" link, a web preset to its page and another as an
    external link, exactly where both leave the chat module on.  Neither leads
    anywhere else; in particular no link of the administration is offered outside
    the settings without the role. *)
Theorem offered_destinations t pathname status item user d :
  let resolved := useSidebarView t pathname status user in
  let presets := useChatPresets status item in
  (d ∈ AppSidebar presets resolved ↔
     if in_settings pathname
     then ∃ u, u ∈ ("/dashboard/overview"%string :: settings_pages) ∧ d = Route (js u)
     else (∃ url, open_entry status user url ∧ d = Route url)
          ∨ chat_open status user = true ∧ ∃ p, p ∈ presets ∧ type p ≠ fluent ∧ d = preset_destination p)
  ∧ (d ∈ CommandMenu resolved ↔
     if in_settings pathname then ∃ u, u ∈ settings_pages ∧ d = Route (js u)
     else ∃ url, open_entry status user url ∧ d = Route url).
Proof.
  intros resolved presets. subst resolved. unfold AppSidebar, CommandMenu.
  destruct (in_settings pathname) eqn:E; [rewrite resolved_settings by done|rewrite resolved_root by done]; cbn [view navGroups from_option].
  - rewrite settings_sidebar, settings_destinations. split.
    + change ([Route (parent_to SYSTEM_SETTINGS_VIEW)] ++ map (λ u, Route (js u)) settings_pages)
        with (map (λ u, Route (js u)) ("/dashboard/overview"%string :: settings_pages)). apply (in_map_js Route).
    + rewrite map_map. apply (in_map_js Route).
  - rewrite app_nil_l, root_sidebar.
    assert ((∃ base, item_in (rootNavGroups t status user) (NavChatPresets base)) ↔ chat_open status user = true) as ->
      by apply root_presets. split.
    + setoid_rewrite <- (root_site_map t status user). naive_solver.
    + change (map Route ?l) with (Route <$> l). rewrite list_elem_of_fmap. setoid_rewrite root_menu.
      setoid_rewrite root_site_map. unfold open_entry. naive_solver.
Qed.

(** A configured list of chats: a web page, a "fluent" link, which is not
    listed, and a link to another program. *)
Example preset_destinations :
  let chats := jq "[{'A':' https://a '},{'B':'Fluent://b'},{'C':'cherry://c'},{}]" in
  map preset_destination (visiblePresets (useChatPresets (Some (JObj [(js "Chats", JStr chats)])) None))
  = [Route (js "/chat/0"); External (js "cherry://c")].
Proof. vm_compute. reflexivity. Qed.
