(* ===== verification/NavigationSettingsFacts.v ===== *)
(** * Facts about the settings of the navigation

    What an administrator saves is what the header, the sidebar and the guards
    then do; what a user's switches show is what the user's sidebar does. *)

From Stdlib Require Import ZifyN ZifyBool.
From stdpp Require Import sorting.
From S2P Require Import Prelude StableSort JsValue JsCollections JsonText JsonParsed StringFacts AuthSession Navigation NavigationSettings NavigationFacts.
Import AuthStore Navigation NavigationSettings.

(** ** Objects that can be printed *)

Definition named {A} (good : A → Prop) (fs : list (jstr * A)) : Prop :=
  ordered fs ∧ Forall (λ e, units e.1 ∧ good e.2) fs.

Lemma named_set {A} (good : A → Prop) k v fs : units k → good v → named good fs → named good (obj_set k v fs).
Proof.
  intros Hk Hv [Ho Hf]. split; [by apply obj_set_in_order|]. rewrite list.Forall_forall in Hf |- *.
  intros e [->|He]%obj_set_elem; [done|by apply Hf].
Qed.



Lemma map_keys {A B} (f : A → B) (fs : list (jstr * A)) : (map (λ '(k, v), (k, f v)) fs).*1 = fs.*1.
Proof. induction fs as [|[k v] fs IH]; [done|]. cbn [map fmap list_fmap fst]. by f_equal. Qed.


Lemma named_storable {A} (good : A → Prop) (f : A → json) fs :
  (∀ v, good v → storable (f v)) → named good fs → storable (JObj (map (λ '(k, v), (k, f v)) fs)).
Proof.
  intros Hf [Ho Hs]. apply storable_obj. rewrite <-fromEntries_ordered. split.
  - unfold ordered. by rewrite map_keys.
  - rewrite List.Forall_map. eapply list.Forall_impl; [exact Hs|]. intros [k v] [Hk Hv]. split; [done|by apply Hf].
Qed.

Lemma digits_units n : units (digits n).
Proof.
  eapply list.Forall_impl; [apply digits_digits|]. cbv beta. intros c H. unfold is_digit in H. lia.
Qed.

Lemma own_fields_tidy v : tidy v → Forall (λ e, units e.1 ∧ tidy e.2) (own_fields v).
Proof.
  assert (∀ l, Forall tidy l → Forall (λ e, units e.1 ∧ tidy e.2) (indexed l)) as Hi.
  { intros l Hl. apply list.Forall_forall. intros e He. apply elem_of_lookup_imap in He as (i & x & -> & Hx).
    split; [apply digits_units|]. rewrite list.Forall_forall in Hl. by eapply Hl, list_elem_of_lookup_2. }
  destruct v as [| | |s|l|fs]; intros H; cbn [own_fields]; try by constructor.
  - apply Hi. apply List.Forall_map. eapply list.Forall_impl; [exact H|]. intros c Hc. by apply list.Forall_singleton.
  - by apply Hi, tidy_arr.
  - by apply tidy_obj in H as [_ ?].
Qed.

(** The printed text of an object is not blank. *)
Lemma printed_object fs : ∃ r, JSON_stringify (JObj fs) = 123%N :: r.
Proof. by eexists. Qed.
Lemma object_text_trim fs : trim (JSON_stringify (JObj fs)) ≠ [].
Proof.
  destruct (printed_object fs) as [r ->]. unfold trim. rewrite trim_start_fix by (by intros c t [= <- _]).
  by destruct (trim_end_head (123%N :: r) 123%N r) as [t' ->].
Qed.
Lemma object_text_shown fs : is_blank (JStr (JSON_stringify (JObj fs))) = false.
Proof.
  unfold is_blank. destruct (printed_object fs) as [r E]. cbn [json_truthy]. rewrite jeqb_neq by apply object_text_trim.
  by rewrite E.
Qed.

(** ** The sidebar's form *)









(** *** Every section and module of the defaults has a switch *)








(** *** What the administrator does in the form *)

Inductive edit := Switch (section module : jstr) (b : bool) | Reset.
Definition apply_edit (values : SidebarModulesAdminConfig) (e : edit) : SidebarModulesAdminConfig :=
  match e with Switch s m b => SidebarForm.change s m b values | Reset => SidebarForm.resetToDefault end.
Definition edited (stored : option jstr) (edits : list edit) : SidebarModulesAdminConfig :=
  foldl apply_edit (parseSidebarModulesAdmin stored) edits.





Definition switch (values : SidebarModulesAdminConfig) (s m : jstr) : bool :=
  default false (field_get s values ≫= field_get m).









(** A stored switch of the store that a reset drops: the sidebar shows the store
    although a guard that asked for it would refuse. *)
Example reset_drops_store_switch :
  let stored := Some (jq "{'personal':{'enabled':true,'store':false}}") in
  let text := serializeSidebarModulesAdmin (edited stored [Reset]) in
  let status := JObj [(js "SidebarModulesAdmin", JStr text)] in
  switch (edited stored []) (js "personal") (js "store") = false
  ∧ isSidebarModuleEnabled (Some (JSON_stringify status)) (js "personal") (js "store") = false
  ∧ admin_allows (status_config (Some status)) (js "personal") (js "store") = true.
Proof. vm_compute. done. Qed.

(** ** The header's form *)

Definition shaped (k : jstr) (v : nav_value) : Prop :=
  k ≠ js "__proto__" ∧
  match v with
  | NavAccess _ => k = js "pricing" ∨ k = js "rankings"
  | NavBool _ => k ≠ js "pricing" ∧ k ≠ js "rankings"
  end.

(** A header configuration: each field has its shape, none of the six is missing. *)
Definition proper (config : HeaderNavModules) : Prop :=
  named (λ _, True) config ∧ Forall (λ e, shaped e.1 e.2) config
  ∧ ∀ k, is_Some (field_get k HEADER_NAV_DEFAULT) → is_Some (field_get k config).

Lemma proper_set k v config : units k → shaped k v → proper config → proper (obj_set k v config).
Proof.
  intros Hk Hv (Hn & Hs & Hd). split_and!.
  - by apply named_set.
  - rewrite list.Forall_forall in Hs |- *. intros e [->|He]%obj_set_elem; [done|by apply Hs].
  - intros k' Hk'. rewrite field_get_obj_set. destruct (_ === _); [eauto|by apply Hd].
Qed.

Lemma proper_default : proper HEADER_NAV_DEFAULT.
Proof.
  split_and!; [|by repeat constructor|done]. split; [by apply orderedb_true; vm_compute|].
  repeat (apply list.Forall_cons; split; [split; [apply units_js|done]|]). constructor.
Qed.

Lemma edit_member_proper config e : units e.1 → proper config → proper (edit_member HEADER_NAV_DEFAULT config e).
Proof.
  destruct e as [k raw]. cbn [fst]. intros Hk Hc. unfold edit_member.
  destruct (bool_decide_reflect (k = js "pricing")) as [->|Hp]; [|rewrite (jeqb_neq k (js "pricing")) by done].
  { rewrite jeqb_refl. apply proper_set; [done|by split; [|left]|done]. }
  destruct (bool_decide_reflect (k = js "rankings")) as [->|Hr]; [|rewrite (jeqb_neq k (js "rankings")) by done].
  { rewrite jeqb_refl. apply proper_set; [done|by split; [|right]|done]. }
  assert (∀ b, proper (set_member k (NavBool b) config)) as Hset.
  { intros b. unfold set_member. destruct (k === js "__proto__") eqn:E; [done|].
    apply proper_set; [done| |done]. split; [|done]. intros ->. by rewrite jeqb_refl in E. }
  destruct raw; done.
Qed.

Lemma parse_header_proper stored : from_option units True stored → proper (parseHeaderNavModules stored).
Proof.
  intros Hu. unfold parseHeaderNavModules. destruct stored as [text|]; [|apply proper_default].
  destruct (negb _); [apply proper_default|]. destruct (JSON_parse text) as [v|] eqn:E; [|apply proper_default].
  apply parsed_tidy in E; [|done]. apply own_fields_tidy in E.
  assert (proper (foldl (edit_member HEADER_NAV_DEFAULT) HEADER_NAV_DEFAULT (own_fields v))) as H;
    [|by destruct v; try exact H; apply proper_default].
  pose proof proper_default as Hd. revert Hd. generalize HEADER_NAV_DEFAULT at 1 3. induction E as [|e l [He _] _ IH]; intros c Hc; [done|].
  cbn [foldl]. apply IH. by apply edit_member_proper.
Qed.

Lemma payload_proper config v : proper config → proper (HeaderForm.payload config v).
Proof.
  intros Hc. unfold HeaderForm.payload, spread. cbn [foldl].
  repeat (apply proper_set; [apply units_js|first [by split; [|left]|by split; [|right]|done]|]). done.
Qed.

Lemma header_storable config : proper config → storable (header_json config).
Proof. intros (Hn & _ & _). revert Hn. apply named_storable. intros [b|[[] []]] _; by apply storableb_true; vm_compute. Qed.

(** Reading a printed field gives it back, in the site and in the form. *)
Lemma parse_member_printed result k v : shaped k v → parse_member result (k, nav_json v) = obj_set k v result.
Proof.
  intros [Hp Hs]. unfold parse_member. destruct v as [b|[en req]]; cbn [nav_json].
  - destruct Hs as [H1 H2]. rewrite (jeqb_neq k (js "pricing")), (jeqb_neq k (js "rankings")) by done.
    rewrite orb_true_r. cbn [parseHeaderNavBoolean]. unfold set_member. by rewrite jeqb_neq.
  - destruct Hs as [->| ->]; rewrite jeqb_refl; [done|]. by rewrite jeqb_neq.
Qed.

Lemma edit_member_printed result k v : shaped k v → edit_member HEADER_NAV_DEFAULT result (k, nav_json v) = obj_set k v result.
Proof.
  intros [Hp Hs]. unfold edit_member. destruct v as [b|[en req]]; cbn [nav_json].
  - destruct Hs as [H1 H2]. rewrite (jeqb_neq k (js "pricing")), (jeqb_neq k (js "rankings")) by done.
    unfold set_member. by rewrite jeqb_neq.
  - destruct Hs as [->| ->]; rewrite jeqb_refl; [done|]. by rewrite jeqb_neq.
Qed.

Lemma printed_fold step base config : (∀ result k v, shaped k v → step result (k, nav_json v) = obj_set k v result) →
  Forall (λ e, shaped e.1 e.2) config →
  foldl step base (map (λ '(k, v), (k, nav_json v)) config) = spread base config.
Proof.
  intros Hstep Hs. unfold spread. revert base. induction Hs as [|[k v] config Hk _ IH]; intros base; [done|].
  cbn [map foldl]. by rewrite Hstep.
Qed.

Lemma read_back config k : proper config → field_get k (spread HEADER_NAV_DEFAULT config) = field_get k config.
Proof.
  intros ([Ho _] & _ & Hd). rewrite spread_get by by apply ordered_nodup.
  destruct (field_get k config) eqn:E; [done|]. destruct (field_get k HEADER_NAV_DEFAULT) eqn:E'; [|done].
  destruct (Hd k) as [v Hv]; [eauto|]. congruence.
Qed.

Lemma site_reads config k : proper config →
  field_get k (Navigation.parseHeaderNavModules (Some (JStr (serializeHeaderNavModules config)))) = field_get k config.
Proof.
  intros Hc. rewrite <-(read_back config k) by done. unfold Navigation.parseHeaderNavModules, parseHeaderNavRecord, serializeHeaderNavModules.
  pose proof (header_storable _ Hc) as Hs. unfold header_json in Hs |- *. cbn [json_to_string typeof_object].
  pose proof (object_text_shown (map (λ '(k, v), (k, nav_json v)) config)) as Hb. unfold is_blank in Hb. rewrite Hb.
  rewrite stringify_parse by done. cbn [json_truthy own_fields].
  by rewrite (printed_fold parse_member _ _ parse_member_printed) by apply Hc.
Qed.

Lemma form_reads config k : proper config →
  field_get k (parseHeaderNavModules (Some (serializeHeaderNavModules config))) = field_get k config.
Proof.
  intros Hc. rewrite <-(read_back config k) by done. unfold parseHeaderNavModules, serializeHeaderNavModules.
  pose proof (header_storable _ Hc) as Hs. unfold header_json in Hs |- *. cbv zeta.
  rewrite (proj2 (truthy_true _)) by (by destruct (printed_object (map (λ '(k, v), (k, nav_json v)) config)) as [r ->]). cbn [negb].
  rewrite stringify_parse by done. cbn [own_fields].
  by rewrite (printed_fold (edit_member HEADER_NAV_DEFAULT) _ _ edit_member_printed) by apply Hc.
Qed.

Lemma form_values_of config config' : (∀ k, field_get k config = field_get k config') →
  HeaderForm.toFormValues config = HeaderForm.toFormValues config'.
Proof. intros H. unfold HeaderForm.toFormValues, HeaderForm.plain_value, access_of. by rewrite !H. Qed.

Lemma payload_values config v : HeaderForm.toFormValues (HeaderForm.payload config v) = v.
Proof.
  unfold HeaderForm.toFormValues, HeaderForm.plain_value, access_of, HeaderForm.payload, spread. cbn [foldl].
  rewrite !field_get_obj_set. by destruct v.
Qed.

(** What the administrator saves in the header's form is what the site
    reads: from the text that is sent, the site's own parser and the form's give
    the values the form had, whatever option was stored before; and the guards
    of the two guarded routes follow the four access switches. *)
Theorem saved_header_reads_back stored v text status :
  from_option units True stored → HeaderForm.submit stored v = Some text →
  jget_opt (js "HeaderNavModules") status = Some (JStr text) →
  HeaderForm.toFormValues (parseHeaderNavModulesFromStatus status) = v
  ∧ HeaderForm.toFormValues (parseHeaderNavModules (Some text)) = v
  ∧ getModuleAccessFromStatus status pricing = mkAccess (HeaderForm.pricingEnabled v) (HeaderForm.pricingRequireAuth v)
  ∧ getModuleAccessFromStatus status rankings = mkAccess (HeaderForm.rankingsEnabled v) (HeaderForm.rankingsRequireAuth v).
Proof.
  intros Hu Hsub Hst. pose proof (payload_proper _ v (parse_header_proper _ Hu)) as Hp.
  assert (text = serializeHeaderNavModules (HeaderForm.payload (parseHeaderNavModules stored) v)) as ->.
  { unfold HeaderForm.submit, HeaderForm.onSubmit in Hsub. destruct (_ === _); [done|]. by apply (inj Some) in Hsub as <-. }
  assert (HeaderForm.toFormValues (parseHeaderNavModulesFromStatus status) = v) as Hv.
  { unfold parseHeaderNavModulesFromStatus. rewrite Hst. rewrite <-(payload_values (parseHeaderNavModules stored) v) at 2.
    apply form_values_of. intros k. by apply site_reads. }
  split; [done|]. split.
  { rewrite <-(payload_values (parseHeaderNavModules stored) v) at 2. apply form_values_of. intros k. by apply form_reads. }
  unfold getModuleAccessFromStatus. rewrite <-Hv. unfold HeaderForm.toFormValues. cbn.
  by destruct (access_of pricing _), (access_of rankings _).
Qed.

Definition example_header : HeaderForm.HeaderNavFormValues :=
  HeaderForm.mkValues true true true true false false true true.

Lemma saved_header_reads_back_witness :
  ∃ text, HeaderForm.submit (Some (jq "{'home':'1','extra':true}")) example_header = Some text
          ∧ getModuleAccessFromStatus (Some (JObj [(js "HeaderNavModules", JStr text)])) pricing = mkAccess true true.
Proof.
  assert (∃ text, HeaderForm.submit (Some (jq "{'home':'1','extra':true}")) example_header = Some text) as [text Ht] by (eexists; by vm_compute).
  exists text. split; [exact Ht|].
  eapply (saved_header_reads_back (Some (jq "{'home':'1','extra':true}")) example_header text); [|exact Ht|].
  - by apply unitsb_true; vm_compute.
  - cbn [jget_opt mbind option_bind jget field_get]. by rewrite jeqb_refl.
Defined.

(** ** The user's switches *)

Lemma user_allows_checked config section module :
  user_allows (Some (JObj config)) section module
  = UserCard.section_checked config section && UserCard.module_checked config section module.
Proof.
  unfold user_allows, UserCard.section_checked, UserCard.module_checked. cbn [jget].
  destruct (field_get section config) as [e|]; [|done]. cbn [jget_opt mbind option_bind opt_truthy from_option].
  destruct (json_truthy e) eqn:E; cbn [negb]; [|by destruct e].
  by destruct (is_false (jget (js "enabled") e)).
Qed.

(** After the user has saved the card, the sidebar shows a page exactly
    where the administrator allows it and the card's switches of its section and
    of the module are on, for every configuration the card may hold, as long as
    the account may configure its sidebar at all. *)
Theorem saved_switches_decide config u fields store status url section module :
  storable (JObj config) → user_object u = JObj fields →
  is_false (jget_opt (js "sidebar_settings") (field_get (js "permissions") fields)) = false →
  field_get url URL_TO_CONFIG_MAP = Some (section, module) →
  useIsSidebarModuleVisible status (user (UserCard.handleSave config (Some u) UserCard.Saved store)) url
  = admin_allows (status_config status) section module
    && (UserCard.section_checked config section && UserCard.module_checked config section module).
Proof.
  intros Hs Hu Hp Hurl. cbn [UserCard.handleSave user setUser]. unfold useIsSidebarModuleVisible, isSidebarModuleEnabledForConfig.
  rewrite Hurl.
  assert (account_config (Some (UserCard.with_sidebar_modules u (JSON_stringify (JObj config)))) = Some (JObj config)) as ->.
  { unfold account_config, UserCard.with_sidebar_modules. rewrite Hu. cbn [fmap option_fmap option_map user_object own_fields].
    unfold jget_opt at 2 3. cbn [mbind option_bind jget]. rewrite !field_get_obj_set. rewrite jeqb_refl, jeqb_neq by done.
    rewrite Hp. unfold parseUserSidebarConfig. rewrite object_text_shown. cbn [decoded].
    by rewrite stringify_parse. }
  rewrite user_allows_checked. by destruct (admin_allows _ _ _).
Qed.

Lemma saved_switches_decide_witness :
  let config := UserCard.toggleModule (js "console") (js "token") false UserCard.defaults in
  let u := mkUser (num_of_Z 7) (js "ann") (num_of_Z 1) (JObj [(js "id", JNum (num_of_Z 7))]) in
  useIsSidebarModuleVisible None (user (UserCard.handleSave config (Some u) UserCard.Saved initial)) (js "/keys") = false.
Proof.
  cbv zeta.
  rewrite (saved_switches_decide _ _ [(js "id", JNum (num_of_Z 7))] _ _ _ (js "console") (js "token")).
  - by vm_compute.
  - by apply storableb_true; vm_compute.
  - done.
  - by vm_compute.
  - by vm_compute.
Defined.

(** A switch of the card sets its own position and leaves every other switch alone. *)
Theorem toggle_sets_one_switch section key b config s m : word m →
  UserCard.module_checked (UserCard.toggle section key b config) s m
  = if (section === s) && (key === m) then b else UserCard.module_checked config s m.
Proof.
  intros Hm. unfold UserCard.module_checked, UserCard.toggle. rewrite field_get_obj_set.
  destruct (bool_decide_reflect (section = s)) as [->|Hne]; [|by rewrite jeqb_neq].
  rewrite jeqb_refl. cbn [andb jget_opt mbind option_bind jget]. rewrite field_get_obj_set.
  destruct (key === m); [by destruct b|].
  destruct (field_get s config) as [e|]; [|done]. cbn [from_option mbind option_bind].
  destruct e as [| | |str|l|fs]; try done; cbn [own_fields jget];
    by rewrite (proj2 (field_get_missing _ _)) by by apply indexed_words.
Qed.

(** The card offers a switch exactly for the modules that the administrator's layer allows. *)
Theorem card_offers_allowed status d : d ∈ UserCard.visibleSectionDefs status →
  ∃ full, full ∈ UserCard.sectionDefs ∧ UserCard.key d = UserCard.key full
          ∧ ∀ m, m ∈ UserCard.modules d ↔ m ∈ UserCard.modules full ∧ admin_allows (status_config status) (UserCard.key d) m = true.
Proof.
  unfold UserCard.visibleSectionDefs. intros (full & Hf & H)%list_elem_of_omap. exists full. split; [done|].
  unfold UserCard.visible_section in H. destruct (opt_truthy (jget_opt (js "enabled") _)) eqn:E; [|done]. cbn [negb] in H.
  destruct (List.filter _ _) as [|m0 ms] eqn:El; [done|]. apply (inj Some) in H as <-. cbn [UserCard.key UserCard.modules].
  split; [done|]. intros m. rewrite <-El, in_list_filter. unfold admin_allows. rewrite E, andb_true_r.
  assert (opt_truthy (field_get (UserCard.key full) (status_config status)) = true) as ->; [|done].
  destruct (field_get _ _) as [e|]; [|done]. by destruct e.
Qed.
