(* ===== verification/ParamOverride.v ===== *)
(** * The editor of parameter overrides

    Models [features/channels/components/dialogs/param-override-editor-dialog.tsx]:
    the rules that rewrite the requests of a channel, as text and as the
    operations, conditions and drafts the dialog edits.

    Every rule gets an identifier from a counter and the clock, [clock n] being
    the time at which the [n]-th is made.  A computation that makes identifiers
    takes the counter and returns it; [None] is a thrown exception.  Messages are
    values; translations are taken not to be empty.  The labels, placeholders and
    colours of the fields are left out. *)

From S2P Require Import Prelude JsValue JsCollections JsonText.

Module ParamOverride.

(** ** Making identifiers *)

Definition M (A : Type) : Type := N → option (A * N).
#[global] Instance M_ret : MRet M := λ A x n, Some (x, n).
#[global] Instance M_bind : MBind M := λ A B f m n, '(x, n') ← m n; f x n'.
Definition throw {A} : M A := λ _, None.

(** ** Constants *)

Definition OPERATION_MODE_VALUES : list jstr :=
  map js ["set"; "delete"; "append"; "prepend"; "copy"; "move"; "replace"; "regex_replace"; "trim_prefix";
          "trim_suffix"; "ensure_prefix"; "ensure_suffix"; "trim_space"; "to_lower"; "to_upper"; "return_error";
          "prune_objects"; "pass_headers"; "sync_fields"; "set_header"; "delete_header"; "copy_header";
          "move_header"]%string.
Definition CONDITION_MODE_VALUES : list jstr :=
  map js ["full"; "prefix"; "suffix"; "contains"; "gt"; "gte"; "lt"; "lte"]%string.

Record Meta := mkMeta {
  m_path : bool; pathOptional : bool; m_value : bool; m_from : bool; m_to : bool; keepOrigin : bool; pathAlias : bool;
}.
(** The letters name the fields that are on: path, optional path, value, from, to, keep origin, alias. *)
Definition meta (fields : string) : Meta :=
  let on c := bool_decide (c ∈ js fields) in
  mkMeta (on 112%N) (on 111%N) (on 118%N) (on 102%N) (on 116%N) (on 107%N) (on 97%N).

Definition MODE_META : list (jstr * Meta) :=
  map (λ '(k, m), (js k, meta m))
    [ ("delete", "p"); ("set", "pvk"); ("append", "pvk"); ("prepend", "pvk"); ("copy", "ft"); ("move", "ft");
      ("replace", "pf"); ("regex_replace", "pf"); ("trim_prefix", "pv"); ("trim_suffix", "pv");
      ("ensure_prefix", "pv"); ("ensure_suffix", "pv"); ("trim_space", "p"); ("to_lower", "p"); ("to_upper", "p");
      ("return_error", "v"); ("prune_objects", "ov"); ("pass_headers", "vk"); ("sync_fields", "ft");
      ("set_header", "pvk"); ("delete_header", "p"); ("copy_header", "ftka"); ("move_header", "ftka") ]%string.
Definition meta_of (mode : jstr) : Meta := default (meta "pvk") (field_get mode MODE_META).

Definition VALUE_REQUIRED_MODES : list jstr :=
  map js ["trim_prefix"; "trim_suffix"; "ensure_prefix"; "ensure_suffix"; "set_header"; "return_error";
          "prune_objects"; "pass_headers"]%string.
Definition FROM_REQUIRED_MODES : list jstr :=
  map js ["copy"; "move"; "replace"; "regex_replace"; "copy_header"; "move_header"; "sync_fields"]%string.
Definition TO_REQUIRED_MODES : list jstr :=
  map js ["copy"; "move"; "copy_header"; "move_header"; "sync_fields"]%string.

(** ** Rules *)

Record ParamOverrideCondition := mkCondition {
  c_id : jstr; c_path : jstr; c_mode : jstr; c_value_text : jstr; c_invert : bool; c_pass_missing_key : bool;
}.
(** [PruneRule] has the same fields. *)
Abbreviation PruneRule := ParamOverrideCondition.

Record ParamOverrideOperation := mkOperation {
  o_id : jstr; description : jstr; o_path : jstr; o_mode : jstr; o_from : jstr; o_to : jstr; value_text : jstr;
  keep_origin : bool; logic : jstr; conditions : list ParamOverrideCondition;
}.

(** *** Values as text *)

Definition toValueText (value : option json) : jstr :=
  match value with None => [] | Some (JStr s) => s | Some v => JSON_stringify v end.

Definition parseLooseValue (valueText : jstr) : json :=
  let raw := trim valueText in
  if negb (truthy raw) then JStr [] else default (JStr raw) (JSON_parse raw).

Definition verifyJSON (text : jstr) : bool := bool_decide (is_Some (JSON_parse text)).

(** [typeof v === 'string' ? v : ''], and membership of an unknown value in a set of strings. *)
Definition string_or_empty (v : option json) : jstr := match v with Some (JStr s) => s | _ => [] end.
Definition one_of (values : list jstr) (v : option json) (fallback : jstr) : jstr :=
  match v with Some (JStr s) => if bool_decide (s ∈ values) then s else fallback | _ => fallback end.
Definition is_true (v : option json) : bool := match v with Some (JBool true) => true | _ => false end.
Definition is_false (v : option json) : bool := match v with Some (JBool false) => true | _ => false end.
(** [String(v || d)] *)
Definition text_or (v : option json) (d : jstr) : jstr :=
  match v with Some v => if json_truthy v then json_to_string v else d | None => d end.
(** Compared with ASCII words only, of which no other letter is the upper or lower case. *)
Definition upper_ascii (s : jstr) : jstr := map (λ c, if ((97 <=? c) && (c <=? 122))%N then (c - 32)%N else c) s.
Definition lower_ascii (s : jstr) : jstr := map (λ c, if ((65 <=? c) && (c <=? 90))%N then (c + 32)%N else c) s.

Section Ids.
Context (clock : N → N).

Definition nextLocalId : M jstr := λ n,
  Some (js "po_" ++ digits (clock n) ++ js "_" ++ digits n, (n + 1)%N).

(** Properties of [null] cannot be read; those of any other value without them are [undefined]. *)
Definition readable_value (v : json) : M unit := match v with JNull => throw | _ => mret () end.

Definition normalizeCondition (condition : json) : M ParamOverrideCondition :=
  id ← nextLocalId;
  readable_value condition;;
  mret (mkCondition id (string_or_empty (jget (js "path") condition))
    (one_of CONDITION_MODE_VALUES (jget (js "mode") condition) (js "full"))
    (toValueText (jget (js "value") condition))
    (is_true (jget (js "invert") condition)) (is_true (jget (js "pass_missing_key") condition))).

Definition createDefaultCondition : M ParamOverrideCondition := normalizeCondition (JObj []).

Definition normalizeOperation (operation : json) : M ParamOverrideOperation :=
  id ← nextLocalId;
  readable_value operation;;
  conditions ← match jget (js "conditions") operation with
               | Some (JArr items) => mapM normalizeCondition items
               | _ => mret []
               end;
  mret (mkOperation id (string_or_empty (jget (js "description") operation))
    (string_or_empty (jget (js "path") operation))
    (one_of OPERATION_MODE_VALUES (jget (js "mode") operation) (js "set"))
    (string_or_empty (jget (js "from") operation)) (string_or_empty (jget (js "to") operation))
    (toValueText (jget (js "value") operation)) (is_true (jget (js "keep_origin") operation))
    (if upper_ascii (text_or (jget (js "logic") operation) (js "OR")) === js "AND" then js "AND" else js "OR")
    conditions).

Definition createDefaultOperation : M ParamOverrideOperation := normalizeOperation (JObj [(js "mode", JStr (js "set"))]).

Definition normalizePruneRule (rule : json) : M PruneRule := normalizeCondition rule.

(** *** Moving and recognizing rules *)

Inductive position := before | after.

Definition findIndex (id : jstr) (ops : list ParamOverrideOperation) : option nat :=
  fst <$> list_find (λ o, o_id o = id) ops.

Definition reorderOperations (ops : list ParamOverrideOperation) (sourceId targetId : jstr) (pos : position)
  : list ParamOverrideOperation :=
  if negb (truthy sourceId) || negb (truthy targetId) || (sourceId === targetId) then ops
  else match findIndex sourceId ops ≫= λ i, ops !! i ≫= λ moved, Some (delete i ops, moved) with
       | None => ops
       | Some (next, moved) =>
           match findIndex targetId next with
           | None => ops
           | Some i => let insertIdx := match pos with after => S i | before => i end in
                       take insertIdx next ++ moved :: drop insertIdx next
           end
       end.

Definition condition_filled (c : ParamOverrideCondition) : bool :=
  truthy (trim (c_path c)) || truthy (trim (c_value_text c)) || negb (c_mode c === js "full")
  || c_invert c || c_pass_missing_key c.

Definition isOperationBlank (o : ParamOverrideOperation) : bool :=
  (o_mode o === js "set") && negb (truthy (trim (o_path o))) && negb (truthy (trim (o_from o)))
  && negb (truthy (trim (o_to o))) && (trim (value_text o) === []) && negb (keep_origin o)
  && negb (existsb condition_filled (conditions o)).

(** *** [sync_fields] *)

Record SyncTarget := mkTarget { t_type : jstr; t_key : jstr }.

Definition parseSyncTargetSpec (spec : jstr) : SyncTarget :=
  let raw := trim spec in
  if negb (truthy raw) then mkTarget (js "json") []
  else match indexOf raw (js ":") with
       | None => mkTarget (js "json") raw
       | Some idx =>
           let prefix := lower_ascii (trim (take idx raw)) in
           let key := trim (drop (S idx) raw) in
           if prefix === js "header" then mkTarget (js "header") key else mkTarget (js "json") key
       end.

Definition buildSyncTargetSpec (type key : jstr) : jstr :=
  let normalizedType := if type === js "header" then js "header" else js "json" in
  let normalizedKey := trim key in
  if negb (truthy normalizedKey) then [] else normalizedType ++ js ":" ++ normalizedKey.

(** *** [return_error] *)

Record ReturnErrorDraft := mkReturn {
  message : jstr; statusCode : jsnum; code : jstr; r_type : jstr; skipRetry : bool; r_simpleMode : bool;
}.

Definition status_or_400 (n : jsnum) : jsnum :=
  if isInteger n && num_leb (num_of_Z 100) n && num_leb n (num_of_Z 599) then n else num_of_Z 400.

Definition parseReturnErrorDraft (valueText : jstr) : ReturnErrorDraft :=
  let raw := trim valueText in
  if negb (truthy raw) then mkReturn [] (num_of_Z 400) [] [] true true
  else match JSON_parse raw with
       | Some (JObj parsed) =>
           let get k := field_get (js k) parsed in
           let statusRaw := match get "status_code"%string with Some v => Some v | None => get "status"%string end in
           let statusValue := from_option Number_json S754_nan statusRaw in
           mkReturn (trim (text_or (get "message"%string) (text_or (get "msg"%string) []))) (status_or_400 statusValue)
             (trim (text_or (get "code"%string) [])) (trim (text_or (get "type"%string) []))
             (negb (is_false (get "skip_retry"%string))) false
       | _ => mkReturn raw (num_of_Z 400) [] [] true true
       end.

(** A field that is left out unless it holds. *)
Definition put_if (b : bool) (k : string) (v : json) (payload : list (jstr * json)) : list (jstr * json) :=
  if b then obj_set (js k) v payload else payload.

Definition buildReturnErrorValueText (draft : ReturnErrorDraft) : jstr :=
  let message := trim (message draft) in
  if r_simpleMode draft then message
  else
    let code := trim (code draft) in
    let type := trim (r_type draft) in
    let payload := [(js "message", JStr message); (js "status_code", JNum (status_or_400 (statusCode draft)))] in
    let payload := put_if (truthy code) "code" (JStr code) payload in
    let payload := put_if (truthy type) "type" (JStr type) payload in
    JSON_stringify (JObj (put_if (negb (skipRetry draft)) "skip_retry" (JBool false) payload)).

(** *** [prune_objects] *)

Record PruneObjectsDraft := mkPrune {
  simpleMode : bool; typeText : jstr; p_logic : jstr; recursive : bool; rules : list PruneRule;
}.

(** The rules of an object of paths and values. *)
Definition rules_of_object (fields : list (jstr * json)) : M (list PruneRule) :=
  mapM (λ '(path, value),
    normalizePruneRule (JObj [(js "path", JStr path); (js "mode", JStr (js "full")); (js "value", value)])) fields.

Definition parsePruneObjectsDraft (valueText : jstr) : M PruneObjectsDraft :=
  let raw := trim valueText in
  let plain text := mkPrune true text (js "AND") true [] in
  if negb (truthy raw) then mret (plain [])
  else match JSON_parse raw with
       | None => mret (plain raw)
       | Some (JStr s) => mret (plain (trim s))
       | Some (JObj parsed) =>
           let get k := field_get (js k) parsed in
           where_rules ← match get "where"%string with Some (JObj fs) => rules_of_object fs | _ => mret [] end;
           condition_rules ← match get "conditions"%string with
                             | Some (JArr items) =>
                                 mapM normalizePruneRule (List.filter (λ v, json_truthy v && typeof_object v) items)
                             | Some (JObj fs) => rules_of_object fs
                             | _ => mret []
                             end;
           let typeText := match get "type"%string with None => [] | Some v => trim (json_to_string v) end in
           let logic := if upper_ascii (text_or (get "logic"%string) (js "AND")) === js "OR" then js "OR" else js "AND" in
           let hasAdvancedFields :=
             bool_decide (is_Some (get "logic"%string)) || bool_decide (is_Some (get "recursive"%string))
             || bool_decide (is_Some (get "where"%string)) || bool_decide (is_Some (get "conditions"%string)) in
           mret (mkPrune (negb hasAdvancedFields) typeText logic (negb (is_false (get "recursive"%string)))
                   (where_rules ++ condition_rules))
       | Some v => mret (plain (trim (match v with JNull => [] | _ => json_to_string v end)))
       end.

Definition rule_payload (rule : PruneRule) : json :=
  let valueRaw := trim (c_value_text rule) in
  let payload := [(js "path", JStr (trim (c_path rule)));
                  (js "mode", JStr (if bool_decide (c_mode rule ∈ CONDITION_MODE_VALUES) then c_mode rule else js "full"))] in
  let payload := put_if (truthy valueRaw) "value" (parseLooseValue valueRaw) payload in
  let payload := put_if (c_invert rule) "invert" (JBool true) payload in
  JObj (put_if (c_pass_missing_key rule) "pass_missing_key" (JBool true) payload).

Definition buildPruneObjectsValueText (draft : PruneObjectsDraft) : jstr :=
  let typeText := trim (typeText draft) in
  if simpleMode draft then typeText
  else
    let payload := put_if (truthy typeText) "type" (JStr typeText) [] in
    let payload := put_if (upper_ascii (or_else (p_logic draft) (js "AND")) === js "OR") "logic" (JStr (js "OR")) payload in
    let payload := put_if (negb (recursive draft)) "recursive" (JBool false) payload in
    let conditions := map rule_payload (List.filter (λ r, truthy (trim (c_path r))) (rules draft)) in
    let payload := put_if (0 <? length conditions)%nat "conditions" (JArr conditions) payload in
    if negb (truthy typeText) && (length conditions =? 0)%nat
    then JSON_stringify (JObj [(js "logic", JStr (js "AND"))])
    else JSON_stringify (JObj payload).

(** *** [pass_headers] *)

Definition header_names (items : list json) : list jstr :=
  filter_truthy (map (λ i, trim (match i with JNull => [] | _ => json_to_string i end)) items).

Definition parsePassHeaderNames (rawValue : json) : list jstr :=
  match rawValue with
  | JArr items => header_names items
  | JObj fields =>
      match field_get (js "headers") fields with
      | Some (JArr items) => header_names items
      | _ => match field_get (js "header") fields with Some v => header_names [v] | None => [] end
      end
  | JStr s => filter_truthy (map trim (split1 44%N s))
  | _ => []
  end.

(** ** Validation *)

Definition buildConditionPayload (c : ParamOverrideCondition) : option json :=
  let path := trim (c_path c) in
  if negb (truthy path) then None
  else
    let payload := [(js "path", JStr path); (js "mode", JStr (or_else (c_mode c) (js "full")));
                    (js "value", parseLooseValue (c_value_text c))] in
    let payload := put_if (c_invert c) "invert" (JBool true) payload in
    Some (JObj (put_if (c_pass_missing_key c) "pass_missing_key" (JBool true) payload)).

Inductive problem :=
| MissingTargetPath | MissingSourceField | MissingTargetField | MissingValue | ReturnErrorNeedsMessage
| PruneNeedsConditions | HeadersMissing | HeadersInvalid.

Definition mode_of (o : ParamOverrideOperation) : jstr := or_else (o_mode o) (js "set").
Definition needs (modes : list jstr) (mode : jstr) : bool := bool_decide (mode ∈ modes).

(** The body of the loop: the first thing wrong with a rule. *)
Definition check_operation (o : ParamOverrideOperation) : option problem :=
  let mode := mode_of o in
  let meta := meta_of mode in
  let pathValue := trim (o_path o) in
  let aliased := pathAlias meta && truthy pathValue in
  let raw := trim (value_text o) in
  if m_path meta && negb (truthy pathValue) then Some MissingTargetPath
  else if needs FROM_REQUIRED_MODES mode && negb (truthy (trim (o_from o))) && negb aliased then Some MissingSourceField
  else if needs TO_REQUIRED_MODES mode && negb (truthy (trim (o_to o))) && negb aliased then Some MissingTargetField
  else if needs VALUE_REQUIRED_MODES mode && (raw === []) then Some MissingValue
  else if (mode === js "return_error")
          && match JSON_parse raw with
             | Some (JObj parsed) => negb (truthy (trim (text_or (field_get (js "message") parsed) [])))
             | _ => false
             end
       then Some ReturnErrorNeedsMessage
  else if (mode === js "prune_objects") && negb (truthy raw) then Some PruneNeedsConditions
  else if (mode === js "pass_headers") && negb (truthy raw) then Some HeadersMissing
  else if (mode === js "pass_headers") && (length (parsePassHeaderNames (parseLooseValue raw)) =? 0)%nat
       then Some HeadersInvalid
  else None.

(** The line of the first rule that has something wrong, from 1. *)
Fixpoint validate_from (line : nat) (ops : list ParamOverrideOperation) : option (nat * problem) :=
  match ops with
  | [] => None
  | o :: rest => match check_operation o with Some p => Some (line, p) | None => validate_from (S line) rest end
  end.
Definition validateOperations (ops : list ParamOverrideOperation) : option (nat * problem) := validate_from 1 ops.

(** ** Text to rules and back *)

(** [payload[k]] as a condition. *)
Definition has_text (k : string) (payload : list (jstr * json)) : bool :=
  match field_get (js k) payload with Some v => json_truthy v | None => false end.

(** What the mode uses, without the conditions. *)
Definition operation_fields (o : ParamOverrideOperation) : list (jstr * json) :=
  let mode := mode_of o in
  let meta := meta_of mode in
  let descriptionValue := trim (description o) in
  let pathValue := trim (o_path o) in
  let fromValue := trim (o_from o) in
  let toValue := trim (o_to o) in
  let payload := [(js "mode", JStr mode)] in
  let payload := put_if (truthy descriptionValue) "description" (JStr descriptionValue) payload in
  let payload := put_if (m_path meta) "path" (JStr pathValue) payload in
  let payload := put_if (pathOptional meta && truthy pathValue) "path" (JStr pathValue) payload in
  let payload := put_if (m_value meta) "value" (parseLooseValue (value_text o)) payload in
  let payload := put_if (keepOrigin meta && keep_origin o) "keep_origin" (JBool true) payload in
  let payload := put_if (m_from meta) "from" (JStr fromValue) payload in
  let payload := put_if (negb (m_to meta) && truthy toValue) "to" (JStr toValue) payload in
  let payload := put_if (m_to meta) "to" (JStr toValue) payload in
  let payload := put_if (pathAlias meta && negb (has_text "from"%string payload) && truthy pathValue) "from" (JStr pathValue) payload in
  put_if (pathAlias meta && negb (has_text "to"%string payload) && truthy pathValue) "to" (JStr pathValue) payload.

Definition operation_payload (o : ParamOverrideOperation) : json :=
  let payload := operation_fields o in
  let conditions := omap buildConditionPayload (conditions o) in
  if (0 <? length conditions)%nat
  then JObj (obj_set (js "logic") (JStr (if logic o === js "AND" then js "AND" else js "OR"))
               (obj_set (js "conditions") (JArr conditions) payload))
  else JObj payload.

Definition operations_text (ops : list json) : jstr := JSON_stringify_2 (JObj [(js "operations", JArr ops)]).

(** [inr] is the message of the exception. *)
Definition buildOperationsJson (source : list ParamOverrideOperation) (validate : bool) : jstr + (nat * problem) :=
  let filteredOps := List.filter (λ o, negb (isOperationBlank o)) source in
  if (length filteredOps =? 0)%nat then inl []
  else match if validate then validateOperations filteredOps else None with
       | Some error => inr error
       | None => inl (operations_text (map operation_payload filteredOps))
       end.

Inductive edit_mode := visual | json_mode.
Inductive visual_mode := operations_mode | legacy.

(** What is shown under the text. *)
Inductive note := no_note | invalid_json | format_error | rejected (line : nat) (p : problem) | not_json | not_object.

Record EditorState := mkEditor {
  editMode : edit_mode; visualMode : visual_mode; legacyValue : jstr; operations : list ParamOverrideOperation;
  jsonText : jstr; jsonError : note;
}.

(** The operations of a list, or a blank one. *)
Definition operations_of (items : list json) : M (list ParamOverrideOperation) :=
  match items with [] => (o ← createDefaultOperation; mret [o]) | _ => mapM normalizeOperation items end.

Definition parseInitialState (rawValue : jstr) : M EditorState :=
  let trimmed := trim rawValue in
  if negb (truthy trimmed) then o ← createDefaultOperation; mret (mkEditor visual operations_mode [] [o] [] no_note)
  else match JSON_parse trimmed with
       | None => o ← createDefaultOperation; mret (mkEditor json_mode operations_mode [] [o] rawValue invalid_json)
       | Some parsed =>
           let pretty := JSON_stringify_2 parsed in
           match parsed with
           | JObj fields =>
               match field_get (js "operations") fields with
               | Some (JArr items) =>
                   ops ← operations_of items; mret (mkEditor visual operations_mode [] ops pretty no_note)
               | _ => o ← createDefaultOperation; mret (mkEditor visual legacy pretty [o] pretty no_note)
               end
           | _ => o ← createDefaultOperation; mret (mkEditor json_mode operations_mode [] [o] pretty no_note)
           end
       end.
End Ids.

(** ** The dialog *)

Module Dialog.

(** *** Templates *)

Definition obj (fields : list (string * json)) : json := JObj (map (λ '(k, v), (js k, v)) fields).
Definition str (s : string) : json := JStr (js s).
Definition condition_json (path mode value : string) : json :=
  obj [("path", str path); ("mode", str mode); ("value", str value)]%string.

Definition LEGACY_TEMPLATE : json := obj [("temperature", JNum (num_of_Z 0)); ("max_tokens", JNum (num_of_Z 1000))]%string.

Definition OPERATION_TEMPLATE : list json :=
  [ obj [ ("description", str "Set default temperature for openai/* models."); ("path", str "temperature");
          ("mode", str "set"); ("value", JNum (num_of_dec false 7 (-1)));
          ("conditions", JArr [condition_json "model" "prefix" "openai/"]); ("logic", str "AND") ]%string ].

Definition HEADER_PASSTHROUGH_TEMPLATE : list json :=
  [ obj [ ("description", str "Pass through X-Request-Id header to upstream."); ("mode", str "pass_headers");
          ("value", JArr [str "X-Request-Id"]); ("keep_origin", JBool true) ]%string ].

Definition GEMINI_IMAGE_4K_TEMPLATE : list json :=
  [ obj [ ("description", str "Set imageSize to 4K when model contains gemini/image and ends with 4k."); ("mode", str "set");
          ("path", str "generationConfig.imageConfig.imageSize"); ("value", str "4K");
          ("conditions", JArr [ condition_json "original_model" "contains" "gemini";
                                condition_json "original_model" "contains" "image";
                                condition_json "original_model" "suffix" "4k" ]);
          ("logic", str "AND") ]%string ].

Definition CODEX_CLI_HEADER_PASSTHROUGH_HEADERS : list string :=
  [ "Originator"; "Session_id"; "Thread_id"; "Session-Id"; "Thread-Id"; "X-Client-Request-Id"; "User-Agent";
    "X-Codex-Beta-Features"; "X-Codex-Turn-State"; "X-Codex-Turn-Metadata"; "X-Codex-Window-Id";
    "X-Codex-Parent-Thread-Id"; "X-OpenAI-Subagent"; "X-OpenAI-Memgen-Request";
    "X-ResponsesAPI-Include-Timing-Metrics"; "X-OpenAI-Internal-Codex-Responses-Lite" ]%string.

Definition CLAUDE_CLI_HEADER_PASSTHROUGH_HEADERS : list string :=
  [ "X-Stainless-Arch"; "X-Stainless-Lang"; "X-Stainless-Os"; "X-Stainless-Package-Version"; "X-Stainless-Retry-Count";
    "X-Stainless-Runtime"; "X-Stainless-Runtime-Version"; "X-Stainless-Timeout"; "User-Agent"; "X-App";
    "Anthropic-Beta"; "Anthropic-Dangerous-Direct-Browser-Access"; "Anthropic-Version" ]%string.

Definition buildPassHeadersTemplate (headers : list string) : list json :=
  [ obj [("mode", str "pass_headers"); ("value", JArr (map str headers)); ("keep_origin", JBool true)]%string ].

Definition kept (token : string) : string * json := (token, str token).
Definition dropped (token : string) : string * json := (token, JNull).

Definition AWS_BEDROCK_ANTHROPIC_COMPAT_TEMPLATE : list json :=
  [ obj [ ("description", str "Normalize anthropic-beta header tokens for Bedrock compatibility."); ("mode", str "set_header");
          ("path", str "anthropic-beta");
          ("value", obj
             [ ("advanced-tool-use-2025-11-20", str "tool-search-tool-2025-10-19"); dropped "bash_20241022";
               dropped "bash_20250124"; dropped "code-execution-2025-08-25"; kept "compact-2026-01-12";
               kept "computer-use-2025-01-24"; kept "computer-use-2025-11-24"; kept "context-1m-2025-08-07";
               kept "context-management-2025-06-27"; dropped "effort-2025-11-24"; dropped "fast-mode-2026-02-01";
               dropped "files-api-2025-04-14"; dropped "fine-grained-tool-streaming-2025-05-14";
               kept "interleaved-thinking-2025-05-14"; dropped "mcp-client-2025-11-20"; dropped "mcp-client-2025-04-04";
               dropped "mcp-servers-2025-12-04"; dropped "output-128k-2025-02-19"; dropped "structured-output-2024-03-01";
               dropped "prompt-caching-scope-2026-01-05"; dropped "skills-2025-10-02";
               dropped "structured-outputs-2025-11-13"; dropped "text_editor_20241022"; dropped "text_editor_20250124";
               dropped "token-efficient-tools-2025-02-19"; kept "tool-search-tool-2025-10-19";
               dropped "web-fetch-2025-09-10"; dropped "web-search-2025-03-05"; dropped "oauth-2025-04-20" ]%string) ]%string;
    obj [ ("description", str "Remove all tools[*].custom.input_examples before upstream relay."); ("mode", str "delete");
          ("path", str "tools.*.custom.input_examples") ]%string ].

Inductive preset_payload := LegacyPayload (payload : json) | OperationsPayload (items : list json).

Definition TEMPLATE_PRESET_CONFIG : list (jstr * preset_payload) :=
  [ (js "operations_default", OperationsPayload OPERATION_TEMPLATE);
    (js "legacy_default", LegacyPayload LEGACY_TEMPLATE);
    (js "pass_headers_auth", OperationsPayload HEADER_PASSTHROUGH_TEMPLATE);
    (js "gemini_image_4k", OperationsPayload GEMINI_IMAGE_4K_TEMPLATE);
    (js "claude_cli_headers_passthrough",
       OperationsPayload (buildPassHeadersTemplate CLAUDE_CLI_HEADER_PASSTHROUGH_HEADERS));
    (js "codex_cli_headers_passthrough",
       OperationsPayload (buildPassHeadersTemplate CODEX_CLI_HEADER_PASSTHROUGH_HEADERS));
    (js "aws_bedrock_anthropic_beta_override", OperationsPayload AWS_BEDROCK_ANTHROPIC_COMPAT_TEMPLATE) ].

(** *** State *)

Record Dialog := mkDialog {
  editor : EditorState;
  selectedOperationId : jstr;
  templatePresetKey : jstr;
  draggedOperationId : jstr;
  dragOverOperationId : jstr;
  dragOverPosition : position;
  saved : list jstr;   (* the values handed to [onSave], the last one first *)
  is_open : bool;
}.

Definition set_editor (e : EditorState) (d : Dialog) : Dialog :=
  mkDialog e (selectedOperationId d) (templatePresetKey d) (draggedOperationId d) (dragOverOperationId d)
    (dragOverPosition d) (saved d) (is_open d).
Definition select (id : jstr) (d : Dialog) : Dialog :=
  mkDialog (editor d) id (templatePresetKey d) (draggedOperationId d) (dragOverOperationId d) (dragOverPosition d)
    (saved d) (is_open d).
Definition choose_preset (key : jstr) (d : Dialog) : Dialog :=
  mkDialog (editor d) (selectedOperationId d) key (draggedOperationId d) (dragOverOperationId d) (dragOverPosition d)
    (saved d) (is_open d).
Definition set_drag (dragged over : jstr) (pos : position) (d : Dialog) : Dialog :=
  mkDialog (editor d) (selectedOperationId d) (templatePresetKey d) dragged over pos (saved d) (is_open d).

Definition set_operations (ops : list ParamOverrideOperation) (d : Dialog) : Dialog :=
  let e := editor d in
  set_editor (mkEditor (editMode e) (visualMode e) (legacyValue e) ops (jsonText e) (jsonError e)) d.
Definition ops (d : Dialog) : list ParamOverrideOperation := operations (editor d).

(** *** Changes to rules *)

Inductive patch :=
| SetMode (v : jstr) | SetPath (v : jstr) | SetDescription (v : jstr) | SetValueText (v : jstr) | SetKeepOrigin (b : bool)
| SetFrom (v : jstr) | SetTo (v : jstr) | SetLogic (v : jstr).

Definition patched (p : patch) (o : ParamOverrideOperation) : ParamOverrideOperation :=
  let '(mkOperation id de pa mo fr to va ke lo co) := o in
  match p with
  | SetMode v => mkOperation id de pa v fr to va ke lo co
  | SetPath v => mkOperation id de v mo fr to va ke lo co
  | SetDescription v => mkOperation id v pa mo fr to va ke lo co
  | SetValueText v => mkOperation id de pa mo fr to v ke lo co
  | SetKeepOrigin b => mkOperation id de pa mo fr to va b lo co
  | SetFrom v => mkOperation id de pa mo v to va ke lo co
  | SetTo v => mkOperation id de pa mo fr v va ke lo co
  | SetLogic v => mkOperation id de pa mo fr to va ke v co
  end.

Inductive condition_patch :=
| ConditionPath (v : jstr) | ConditionMode (v : jstr) | ConditionValue (v : jstr) | ConditionInvert (b : bool)
| ConditionPassMissing (b : bool).

Definition patched_condition (p : condition_patch) (c : ParamOverrideCondition) : ParamOverrideCondition :=
  let '(mkCondition id pa mo va i m) := c in
  match p with
  | ConditionPath v => mkCondition id v mo va i m
  | ConditionMode v => mkCondition id pa v va i m
  | ConditionValue v => mkCondition id pa mo v i m
  | ConditionInvert b => mkCondition id pa mo va b m
  | ConditionPassMissing b => mkCondition id pa mo va i b
  end.

Definition with_conditions (cs : list ParamOverrideCondition) (o : ParamOverrideOperation) : ParamOverrideOperation :=
  mkOperation (o_id o) (description o) (o_path o) (o_mode o) (o_from o) (o_to o) (value_text o) (keep_origin o) (logic o) cs.

(** [prev.map((o) => o.id === id ? f(o) : o)] *)
Definition map_operation (id : jstr) (f : ParamOverrideOperation → ParamOverrideOperation)
    (l : list ParamOverrideOperation) : list ParamOverrideOperation :=
  map (λ o, if o_id o === id then f o else o) l.

Definition updateOperation (id : jstr) (p : patch) (d : Dialog) : Dialog :=
  set_operations (map_operation id (patched p) (ops d)) d.

Definition updateCondition (id conditionId : jstr) (p : condition_patch) (d : Dialog) : Dialog :=
  set_operations (map_operation id (λ o,
    with_conditions (map (λ c, if c_id c === conditionId then patched_condition p c else c) (conditions o)) o) (ops d)) d.

Definition removeCondition (id conditionId : jstr) (d : Dialog) : Dialog :=
  set_operations (map_operation id (λ o,
    with_conditions (List.filter (λ c, negb (c_id c === conditionId)) (conditions o)) o) (ops d)) d.

Section Handlers.
Context (clock : N → N).
Let normalizeOperation := normalizeOperation clock.
Let createDefaultOperation := createDefaultOperation clock.

(** The effect that runs when the dialog opens. *)
Definition open_dialog (value : jstr) (d : Dialog) : M Dialog :=
  state ← parseInitialState clock value;
  let preset := match visualMode state with legacy => js "legacy_default" | operations_mode => js "operations_default" end in
  mret (mkDialog state (from_option o_id [] (head (operations state))) preset [] [] before (saved d) true).

(** The effect that keeps the selection valid. *)
Definition keep_selection (d : Dialog) : Dialog :=
  match ops d with
  | [] => select [] d
  | o :: _ => if existsb (λ x, o_id x === selectedOperationId d) (ops d) then d else select (o_id o) d
  end.

Definition addOperation (d : Dialog) : M Dialog :=
  created ← createDefaultOperation;
  mret (select (o_id created) (set_operations (ops d ++ [created]) d)).

Definition operation_json (o : ParamOverrideOperation) : json :=
  obj [ ("description", JStr (description o)); ("path", JStr (o_path o)); ("mode", JStr (o_mode o));
        ("value", parseLooseValue (value_text o)); ("keep_origin", JBool (keep_origin o)); ("from", JStr (o_from o));
        ("to", JStr (o_to o)); ("logic", JStr (logic o));
        ("conditions", JArr (map (λ c, obj [ ("path", JStr (c_path c)); ("mode", JStr (c_mode c));
                                             ("value", parseLooseValue (c_value_text c)); ("invert", JBool (c_invert c));
                                             ("pass_missing_key", JBool (c_pass_missing_key c)) ]%string)
                               (conditions o))) ]%string.

(** [ran] says whether React ran the state update at once, so that the handler sees the new identifier. *)
Definition duplicateOperation (ran : bool) (id : jstr) (d : Dialog) : M Dialog :=
  match findIndex id (ops d) ≫= λ i, (λ o, (i, o)) <$> ops d !! i with
  | None => mret d
  | Some (i, source) =>
      cloned ← normalizeOperation (operation_json source);
      let d := set_operations (take (S i) (ops d) ++ cloned :: drop (S i) (ops d)) d in
      mret (if ran then select (o_id cloned) d else d)
  end.

Definition removeOperation (id : jstr) (d : Dialog) : M Dialog :=
  if (length (ops d) <=? 1)%nat then o ← createDefaultOperation; mret (set_operations [o] d)
  else mret (set_operations (List.filter (λ o, negb (o_id o === id)) (ops d)) d).

Definition addCondition (id : jstr) (d : Dialog) : M Dialog :=
  created ← createDefaultCondition clock;
  mret (set_operations (map_operation id (λ o, with_conditions (conditions o ++ [created]) o) (ops d)) d).

(** *** Drafts *)

Inductive return_patch :=
| ReturnMessage (v : jstr) | ReturnSimple (b : bool) | ReturnStatus (n : jsnum) | ReturnCode (v : jstr) | ReturnType (v : jstr)
| ReturnSkipRetry (b : bool) | ReturnPreset (status : jsnum) (code type : jstr).

Definition patched_return (p : return_patch) (r : ReturnErrorDraft) : ReturnErrorDraft :=
  let '(mkReturn me st co ty sk si) := r in
  match p with
  | ReturnMessage v => mkReturn v st co ty sk si
  | ReturnSimple b => mkReturn me st co ty sk b
  | ReturnStatus n => mkReturn me n co ty sk si
  | ReturnCode v => mkReturn me st v ty sk si
  | ReturnType v => mkReturn me st co v sk si
  | ReturnSkipRetry b => mkReturn me st co ty b si
  | ReturnPreset n c t => mkReturn me n c t sk si
  end.

Definition updateReturnErrorDraft (id : jstr) (p : return_patch) (d : Dialog) : Dialog :=
  set_operations (map_operation id (λ o,
    patched (SetValueText (buildReturnErrorValueText (patched_return p (parseReturnErrorDraft (value_text o))))) o) (ops d)) d.

(** An update of the draft may make identifiers itself. *)
Definition updatePruneObjectsDraft (id : jstr) (updater : PruneObjectsDraft → M PruneObjectsDraft) (d : Dialog) : M Dialog :=
  l ← mapM (λ o,
        if o_id o === id
        then draft ← parsePruneObjectsDraft clock (value_text o);
             nextDraft ← updater draft;
             mret (patched (SetValueText (buildPruneObjectsValueText nextDraft)) o)
        else mret o) (ops d);
  mret (set_operations l d).

Inductive prune_patch := PruneSimple (b : bool) | PruneType (v : jstr) | PruneLogic (v : jstr) | PruneRecursive (b : bool).
Definition patched_prune (p : prune_patch) (draft : PruneObjectsDraft) : PruneObjectsDraft :=
  let '(mkPrune si ty lo re ru) := draft in
  match p with
  | PruneSimple b => mkPrune b ty lo re ru
  | PruneType v => mkPrune si v lo re ru
  | PruneLogic v => mkPrune si ty v re ru
  | PruneRecursive b => mkPrune si ty lo b ru
  end.
Definition with_rules (l : list PruneRule) (draft : PruneObjectsDraft) : PruneObjectsDraft :=
  mkPrune (simpleMode draft) (typeText draft) (p_logic draft) (recursive draft) l.

Definition patchPruneObjectsDraft (id : jstr) (p : prune_patch) (d : Dialog) : M Dialog :=
  updatePruneObjectsDraft id (λ draft, mret (patched_prune p draft)) d.

Definition addPruneRule (id : jstr) (d : Dialog) : M Dialog :=
  updatePruneObjectsDraft id (λ draft,
    rule ← normalizePruneRule clock (JObj []);
    mret (patched_prune (PruneSimple false) (with_rules (rules draft ++ [rule]) draft))) d.

Definition updatePruneRule (id ruleId : jstr) (p : condition_patch) (d : Dialog) : M Dialog :=
  updatePruneObjectsDraft id (λ draft,
    mret (with_rules (map (λ r, if c_id r === ruleId then patched_condition p r else r) (rules draft)) draft)) d.

Definition removePruneRule (id ruleId : jstr) (d : Dialog) : M Dialog :=
  updatePruneObjectsDraft id (λ draft,
    mret (with_rules (List.filter (λ r, negb (c_id r === ruleId)) (rules draft)) draft)) d.

(** The draft of the selected rule, as it is drawn. *)
Definition pruneObjectsDraft (d : Dialog) : M (option PruneObjectsDraft) :=
  match list_find (λ o, o_id o = selectedOperationId d) (ops d) with
  | Some (_, o) => if o_mode o === js "prune_objects"
                   then draft ← parsePruneObjectsDraft clock (value_text o); mret (Some draft)
                   else mret None
  | None => mret None
  end.

(** *** Dragging *)

Definition resetDragState (d : Dialog) : Dialog := set_drag [] [] before d.
Definition handleDragStart (id : jstr) (d : Dialog) : Dialog :=
  select id (set_drag id (dragOverOperationId d) (dragOverPosition d) d).
(** [lower] says that the pointer is in the lower half of the entry. *)
Definition handleDragOver (id : jstr) (lower : bool) (d : Dialog) : Dialog :=
  if negb (truthy (draggedOperationId d)) || (draggedOperationId d === id) then d
  else set_drag (draggedOperationId d) id (if lower then after else before) d.
(** [transferred] is the text the drag carries. *)
Definition handleDrop (id transferred : jstr) (d : Dialog) : Dialog :=
  let sourceId := or_else (draggedOperationId d) transferred in
  let pos := if dragOverOperationId d === id then dragOverPosition d else before in
  resetDragState
    (if truthy sourceId && truthy id && negb (sourceId === id)
     then select sourceId (set_operations (reorderOperations (ops d) sourceId id pos) d)
     else d).

(** *** Modes *)

Definition buildVisualJson (e : EditorState) : jstr + note :=
  match visualMode e with
  | legacy =>
      let trimmed := trim (legacyValue e) in
      if negb (truthy trimmed) then inl []
      else match JSON_parse trimmed with
           | None => inr not_json
           | Some parsed => match parsed with JObj _ => inl (JSON_stringify_2 parsed) | _ => inr not_object end
           end
  | operations_mode =>
      match buildOperationsJson (operations e) true with inl text => inl text | inr (line, p) => inr (rejected line p) end
  end.

Definition switchToJsonMode (d : Dialog) : Dialog :=
  let e := editor d in
  match editMode e with
  | json_mode => d
  | visual =>
      let '(text, problem) :=
        match buildVisualJson e with
        | inl text => (text, no_note)
        | inr problem =>
            (match visualMode e with
             | legacy => legacyValue e
             | operations_mode => match buildOperationsJson (operations e) false with inl text => text | inr _ => [] end
             end, problem)
        end in
      set_editor (mkEditor json_mode (visualMode e) (legacyValue e) (operations e) text problem) d
  end.

Definition switchToVisualMode (d : Dialog) : M Dialog :=
  let e := editor d in
  match editMode e with
  | visual => mret d
  | json_mode =>
      let trimmed := trim (jsonText e) in
      if negb (truthy trimmed) then
        fallback ← createDefaultOperation;
        mret (select (o_id fallback) (set_editor (mkEditor visual operations_mode [] [fallback] (jsonText e) no_note) d))
      else match JSON_parse trimmed with
           | None => mret d
           | Some (JObj fields) =>
               match field_get (js "operations") fields with
               | Some (JArr items) =>
                   nextOps ← operations_of clock items;
                   mret (choose_preset (js "operations_default")
                     (select (from_option o_id [] (head nextOps))
                       (set_editor (mkEditor visual operations_mode [] nextOps (jsonText e) no_note) d)))
               | _ =>
                   fallback ← createDefaultOperation;
                   mret (choose_preset (js "legacy_default")
                     (select (o_id fallback)
                       (set_editor (mkEditor visual legacy (JSON_stringify_2 (JObj fields)) [fallback] (jsonText e) no_note) d)))
               end
           | Some _ => mret d
           end
  end.

Definition legacy_text (text : jstr) (d : Dialog) : M Dialog :=
  o ← createDefaultOperation; mret (set_editor (mkEditor visual legacy text [o] text no_note) d).

Definition fillTemplate (append : bool) (d : Dialog) : M Dialog :=
  let e := editor d in
  match default (OperationsPayload OPERATION_TEMPLATE) (field_get (templatePresetKey d) TEMPLATE_PRESET_CONFIG) with
  | LegacyPayload payload =>
      if append && match visualMode e with legacy => true | operations_mode => false end then
        let trimmed := trim (legacyValue e) in
        match if truthy trimmed then JSON_parse trimmed else Some (JObj []) with
        | None => mret d
        | Some current => legacy_text (JSON_stringify_2 (JObj (spread (own_fields payload) (own_fields current)))) d
        end
      else legacy_text (JSON_stringify_2 payload) d
  | OperationsPayload items =>
      if append then
        appended ← mapM normalizeOperation items;
        let existing := match visualMode e with
                        | operations_mode => List.filter (λ o, negb (isOperationBlank o)) (operations e)
                        | legacy => []
                        end in
        let nextOps := existing ++ appended in
        mret (select (from_option o_id [] (head nextOps))
                (set_editor (mkEditor visual operations_mode [] nextOps [] no_note) d))
      else
        nextOps ← operations_of clock items;
        mret (select (from_option o_id [] (head nextOps))
                (set_editor (mkEditor visual operations_mode (legacyValue e) nextOps (operations_text items) no_note) d))
  end.

Definition resetEditorState (d : Dialog) : M Dialog :=
  fallback ← createDefaultOperation;
  mret (choose_preset (js "operations_default")
    (select (o_id fallback) (set_editor (mkEditor visual operations_mode [] [fallback] [] no_note) d))).

Definition handleJsonChange (nextValue : jstr) (d : Dialog) : Dialog :=
  let e := editor d in
  let trimmed := trim nextValue in
  let error := if negb (truthy trimmed) || verifyJSON trimmed then no_note else format_error in
  set_editor (mkEditor (editMode e) (visualMode e) (legacyValue e) (operations e) nextValue error) d.

(** The text field of the legacy format. *)
Definition setLegacyValue (v : jstr) (d : Dialog) : Dialog :=
  let e := editor d in
  set_editor (mkEditor (editMode e) (visualMode e) v (operations e) (jsonText e) (jsonError e)) d.

(** *** Saving *)

Definition save_result (e : EditorState) : jstr + note :=
  match editMode e with
  | json_mode =>
      let trimmed := trim (jsonText e) in
      if negb (truthy trimmed) then inl []
      else match JSON_parse trimmed with None => inr not_json | Some v => inl (JSON_stringify_2 v) end
  | visual => buildVisualJson e
  end.

Definition handleSave (d : Dialog) : Dialog :=
  match save_result (editor d) with
  | inl result => mkDialog (editor d) (selectedOperationId d) (templatePresetKey d) (draggedOperationId d)
                    (dragOverOperationId d) (dragOverPosition d) (result :: saved d) false
  | inr _ => d
  end.
End Handlers.
End Dialog.

End ParamOverride.
