(* ===== verification/ParamOverrideFacts.v ===== *)
(** * Facts about the editor of parameter overrides

    Identifiers are never repeated; in every reachable state of the dialog the
    rules are distinguishable and use known modes; a saved text reads back as the
    rules that were saved, and saving it again gives the same text; rules are
    moved where they are dropped; the first wrong rule is reported; the rules of
    a pruning operation cannot be edited. *)

From Stdlib Require Import ZifyN ZifyBool.
From stdpp Require Import sorting.
From S2P Require Import Prelude StableSort JsValue JsCollections JsonText JsonParsed StringFacts ParamOverride.
Import ParamOverride.

Section Facts.
Context (clock : N → N).

(** ** Identifiers *)

Definition id_at (n : N) : jstr := js "po_" ++ digits (clock n) ++ js "_" ++ digits n.

Lemma digits_no_underscore n : 95%N ∉ digits n.
Proof. intros H. pose proof (digits_digits n) as Hd. rewrite list.Forall_forall in Hd. by apply Hd in H. Qed.

Lemma split_at {A} (c : A) u u' w w' : c ∉ u → c ∉ u' → u ++ c :: w = u' ++ c :: w' → u = u' ∧ w = w'.
Proof.
  revert u'. induction u as [|x u IH]; intros [|x' u'] Hu Hu' H; cbn [app] in H; simplify_eq; try done.
  - exfalso. apply Hu'. left.
  - exfalso. apply Hu. left.
  - destruct (IH u') as [-> ->]; [by intros ?; apply Hu; right|by intros ?; apply Hu'; right|done|done].
Qed.

Lemma id_inj n m : id_at n = id_at m → n = m.
Proof.
  unfold id_at. intros H. change (js "_") with [95%N] in H. apply app_inv_head in H. cbn [app] in H.
  apply split_at in H as [_ H]; [|apply digits_no_underscore..].
  by rewrite <-(digits_value_digits n), <-(digits_value_digits m), H.
Qed.

Lemma id_truthy n : truthy (id_at n) = true.
Proof. done. Qed.

(** Identifiers made before the counter stood at [n]. *)
Definition issued (n : N) (id : jstr) : Prop := ∃ m, (m < n)%N ∧ id = id_at m.

Lemma issued_weaken n n' id : (n ≤ n')%N → issued n id → issued n' id.
Proof. intros Hn (m & ? & ->). exists m. split; [lia|done]. Qed.

Lemma fresh_not_issued n m : (n ≤ m)%N → ¬ issued n (id_at m).
Proof. intros Hn (k & ? & H%id_inj). lia. Qed.

(** ** Running *)

Lemma bind_run {A B} (m : M A) (f : A → M B) n x n' : m n = Some (x, n') → (m ≫= f) n = f x n'.
Proof. intros H. unfold mbind, M_bind. by rewrite H. Qed.

Lemma ret_run {A} (x : A) n : mret (M := M) x n = Some (x, (n + N.of_nat (length (@nil json)))%N).
Proof. unfold mret, M_ret. cbn [length]. by rewrite N.add_0_r. Qed.

Lemma mapM_cons {A B} (f : A → M B) x l n y n1 ys n2 :
  f x n = Some (y, n1) → mapM f l n1 = Some (ys, n2) → mapM f (x :: l) n = Some (y :: ys, n2).
Proof. intros Hx Hl. cbn [mapM]. by rewrite (bind_run _ _ _ _ _ Hx), (bind_run _ _ _ _ _ Hl). Qed.

(** ** Rules read from values *)

Definition condition_of (id : jstr) (v : json) : ParamOverrideCondition :=
  mkCondition id (string_or_empty (jget (js "path") v)) (one_of CONDITION_MODE_VALUES (jget (js "mode") v) (js "full"))
    (toValueText (jget (js "value") v)) (is_true (jget (js "invert") v)) (is_true (jget (js "pass_missing_key") v)).

(** Values one after the other, each with its identifier. *)
Fixpoint conditions_from (n : N) (items : list json) : list ParamOverrideCondition :=
  match items with [] => [] | v :: items => condition_of (id_at n) v :: conditions_from (n + 1) items end.

Definition not_null (v : json) : Prop := v ≠ JNull.

Lemma normalizeCondition_run v n : not_null v → normalizeCondition clock v n = Some (condition_of (id_at n) v, (n + 1)%N).
Proof. by destruct v. Qed.

Lemma conditions_run items n : Forall not_null items →
  mapM (normalizeCondition clock) items n = Some (conditions_from n items, (n + N.of_nat (length items))%N).
Proof.
  intros H. revert n. induction H as [|v items Hv _ IH]; intros n; [cbn; unfold mret, M_ret; by rewrite N.add_0_r|].
  rewrite (mapM_cons _ _ _ _ _ _ _ _ (normalizeCondition_run v n Hv) (IH _)). cbn [conditions_from length]. do 2 f_equal. lia.
Qed.

Lemma conditions_ids n items c : c ∈ conditions_from n items → ∃ m, (n ≤ m < n + N.of_nat (length items))%N ∧ c_id c = id_at m.
Proof.
  revert n. induction items as [|v items IH]; intros n; cbn [conditions_from length]; [by intros ?%elem_of_nil|].
  intros [->|H]%elem_of_cons; [exists n; split; [lia|done]|]. apply IH in H as (m & ? & ?). exists m. split; [lia|done].
Qed.

Definition condition_items (v : json) : list json :=
  match jget (js "conditions") v with Some (JArr items) => items | _ => [] end.

Definition operation_of (n : N) (v : json) : ParamOverrideOperation :=
  mkOperation (id_at n) (string_or_empty (jget (js "description") v)) (string_or_empty (jget (js "path") v))
    (one_of OPERATION_MODE_VALUES (jget (js "mode") v) (js "set"))
    (string_or_empty (jget (js "from") v)) (string_or_empty (jget (js "to") v))
    (toValueText (jget (js "value") v)) (is_true (jget (js "keep_origin") v))
    (if upper_ascii (text_or (jget (js "logic") v) (js "OR")) === js "AND" then js "AND" else js "OR")
    (conditions_from (n + 1) (condition_items v)).

Definition after_operation (n : N) (v : json) : N := (n + 1 + N.of_nat (length (condition_items v)))%N.

(** Values from which a rule can be read without an exception. *)
Definition rule_value (v : json) : Prop := not_null v ∧ Forall not_null (condition_items v).

Lemma normalizeOperation_run v n : rule_value v → normalizeOperation clock v n = Some (operation_of n v, after_operation n v).
Proof.
  intros [Hv Hc]. unfold normalizeOperation. erewrite bind_run by reflexivity. cbv beta.
  rewrite (bind_run (readable_value v) _ (n + 1) () (n + 1)) by by destruct v.
  erewrite bind_run; [reflexivity|]. unfold condition_items, after_operation in Hc |- *. unfold condition_items.
  destruct (jget (js "conditions") v) as [[| | | |items|]|];
    try (unfold mret, M_ret; cbn [length conditions_from]; do 2 f_equal; lia). by apply conditions_run.
Qed.

Fixpoint operations_from (n : N) (items : list json) : list ParamOverrideOperation :=
  match items with [] => [] | v :: items => operation_of n v :: operations_from (after_operation n v) items end.
Fixpoint after_operations (n : N) (items : list json) : N :=
  match items with [] => n | v :: items => after_operations (after_operation n v) items end.

Lemma operations_run items n : Forall rule_value items →
  mapM (normalizeOperation clock) items n = Some (operations_from n items, after_operations n items).
Proof.
  intros H. revert n. induction H as [|v items Hv _ IH]; intros n; [done|].
  exact (mapM_cons _ _ _ _ _ _ _ _ (normalizeOperation_run v n Hv) (IH _)).
Qed.

Lemma default_run n : createDefaultOperation clock n = Some (operation_of n (JObj [(js "mode", JStr (js "set"))]), (n + 1)%N).
Proof.
  unfold createDefaultOperation. rewrite normalizeOperation_run by done. unfold after_operation.
  change (condition_items _) with (@nil json). cbn [length]. by rewrite N.add_0_r.
Qed.

(** ** Moving a rule *)

Lemma findIndex_spec id ops i : findIndex id ops = Some i →
  ∃ o, ops !! i = Some o ∧ o_id o = id ∧ ∀ j o', ops !! j = Some o' → (j < i)%nat → o_id o' ≠ id.
Proof.
  unfold findIndex. intros H. destruct (list_find _ ops) as [[j o]|] eqn:E; [|done]. cbn in H. simplify_eq.
  apply list_find_Some in E as (Ho & Hid & Hmin). exists o. split_and!; [done..|]. intros j o' Hj Hlt. by eapply Hmin.
Qed.

Lemma findIndex_elem id ops o : o ∈ ops → o_id o = id → is_Some (findIndex id ops).
Proof.
  unfold findIndex. intros Ho Hid. destruct (list_find _ ops) as [p|] eqn:E; [by eexists|].
  apply list_find_None in E. rewrite list.Forall_forall in E. by apply E in Ho.
Qed.

Lemma split_lookup {A} (l : list A) i x : l !! i = Some x → l = take i l ++ x :: drop (S i) l ∧ delete i l = take i l ++ drop (S i) l.
Proof. intros H. split; [symmetry; by apply take_drop_middle|by rewrite delete_take_drop]. Qed.

(** Dropping a rule on another moves it next to it: in the new list, which
    has the same rules, the moved rule stands right before or right after the
    target, and all other rules keep their order. *)
Theorem drop_moves_rule ops source target pos :
  NoDup (map o_id ops) → source ∈ ops → target ∈ ops → source ≠ target → Forall (λ o, o_id o ≠ []) ops →
  ∃ l r, reorderOperations ops (o_id source) (o_id target) pos
         = match pos with before => l ++ source :: target :: r | after => l ++ target :: source :: r end
         ∧ l ++ target :: r = filter (λ o, o_id o ≠ o_id source) ops.
Proof.
  intros Hn Hs Ht Hne Hids. rewrite list.Forall_forall in Hids.
  assert (∀ o o', o ∈ ops → o' ∈ ops → o_id o = o_id o' → o = o') as Hinj.
  { intros o o' [i Hi]%list_elem_of_lookup [j Hj]%list_elem_of_lookup E.
    assert (i = j) as ->; [|congruence]. eapply NoDup_lookup; [exact Hn| |]; rewrite list_lookup_fmap.
    - rewrite Hi. reflexivity.
    - rewrite Hj. cbn. by rewrite E. }
  unfold reorderOperations.
  rewrite (proj2 (truthy_true (o_id source))), (proj2 (truthy_true (o_id target))) by by apply Hids.
  rewrite (jeqb_neq (o_id source) (o_id target)) by (intros E; by apply Hne, Hinj). cbn [negb orb].
  destruct (findIndex_elem (o_id source) ops source Hs eq_refl) as [i Hi]. rewrite Hi. cbn [mbind option_bind].
  apply findIndex_spec in Hi as (o & Ho & Hid & _).
  assert (o = source) as -> by (apply Hinj; [by eapply list_elem_of_lookup_2|done|done]). rewrite Ho. cbn [mbind option_bind].
  destruct (split_lookup _ _ _ Ho) as [Hsplit ->]. set (u := take i ops) in *. set (w := drop (S i) ops) in *.
  assert (Forall (λ o, o_id o ≠ o_id source) (u ++ w)) as Hother.
  { rewrite Hsplit in Hn. rewrite map_app in Hn. cbn [map] in Hn. apply list.Forall_forall. intros x Hx E.
    apply list.NoDup_app in Hn as (_ & Hd & Hn%list.NoDup_cons). destruct Hn as [Hw _].
    apply elem_of_app in Hx as [Hx|Hx].
    - apply (Hd (o_id x)); [by apply list_elem_of_fmap_2|]. rewrite E. left.
    - apply Hw. rewrite <-E. by apply list_elem_of_fmap_2. }
  assert (filter (λ o, o_id o ≠ o_id source) ops = u ++ w) as Hf.
  { rewrite Hsplit. rewrite list.filter_app, filter_cons_False by (by intros H). rewrite <-list.filter_app.
    clear -Hother. induction Hother as [|x l Hx _ IH]; [done|]. by rewrite filter_cons_True, IH. }
  assert (target ∈ u ++ w) as Htw.
  { rewrite Hsplit in Ht. rewrite elem_of_app in Ht |- *. rewrite elem_of_cons in Ht. naive_solver. }
  destruct (findIndex_elem (o_id target) (u ++ w) target Htw eq_refl) as [j Hj]. rewrite Hj.
  apply findIndex_spec in Hj as (o & Hj & Hid' & _).
  assert (o = target) as ->.
  { apply Hinj; [|done|done]. apply list_elem_of_lookup_2 in Hj. rewrite Hsplit. apply elem_of_app in Hj as [?|?]; apply elem_of_app; [by left|by right; right]. }
  destruct (split_lookup _ _ _ Hj) as [Hsplit' _]. exists (take j (u ++ w)), (drop (S j) (u ++ w)).
  split; [|by rewrite Hf].
  destruct pos.
  - f_equal. f_equal. by apply drop_S.
  - rewrite (take_S_r _ _ target) by done. by rewrite <-app_assoc.
Qed.

(** ** The rules of a pruning operation *)

Lemma conditions_from_app n a b :
  conditions_from n (a ++ b) = conditions_from n a ++ conditions_from (n + N.of_nat (length a)) b.
Proof.
  revert n. induction a as [|v a IH]; intros n; cbn [app conditions_from length]; [by rewrite N.add_0_r|].
  rewrite IH. f_equal. f_equal. f_equal. lia.
Qed.

Definition path_rule (e : jstr * json) : json :=
  JObj [(js "path", JStr e.1); (js "mode", JStr (js "full")); (js "value", e.2)].

Lemma rules_of_object_run fs n :
  rules_of_object clock fs n = Some (conditions_from n (map path_rule fs), (n + N.of_nat (length (map path_rule fs)))%N).
Proof.
  unfold rules_of_object. revert n. induction fs as [|[k v] fs IH]; intros n; [cbn; unfold mret, M_ret; by rewrite N.add_0_r|].
  erewrite mapM_cons; [|exact (normalizeCondition_run (path_rule (k, v)) n ltac:(done))|apply IH].
  cbn [map conditions_from length]. do 2 f_equal. lia.
Qed.

(** The draft that a text is read into: only the identifiers depend on the counter. *)
Lemma prune_run text : ∃ si ty lo re items, Forall not_null items ∧
  ∀ n, parsePruneObjectsDraft clock text n
       = Some (mkPrune si ty lo re (conditions_from n items), (n + N.of_nat (length items))%N).
Proof.
  assert (∀ si ty, ∃ si' ty' lo re items, Forall not_null items ∧ ∀ n,
            mret (M := M) (mkPrune si ty (js "AND") true []) n
            = Some (mkPrune si' ty' lo re (conditions_from n items), (n + N.of_nat (length items))%N)) as Hplain.
  { intros si ty. exists si, ty, (js "AND"), true, []. split; [constructor|]. intros n. apply ret_run. }
  unfold parsePruneObjectsDraft. destruct (negb _); [apply Hplain|].
  destruct (JSON_parse (trim text)) as [[| | | | |fs]|]; try apply Hplain.
  set (a := match field_get (js "where") fs with Some (JObj w) => map path_rule w | _ => [] end).
  set (b := match field_get (js "conditions") fs with
            | Some (JArr items) => List.filter (λ v, json_truthy v && typeof_object v) items
            | Some (JObj w) => map path_rule w
            | _ => [] end).
  eexists _, _, _, _, (a ++ b). split.
  - assert (∀ l, Forall not_null (map path_rule l)) as Hp.
    { intros l. apply List.Forall_map, list.Forall_forall. done. }
    apply list.Forall_app. split; [subst a; by destruct (field_get (js "where") fs) as [[]|]|].
    subst b. destruct (field_get (js "conditions") fs) as [[| | | |items|]|]; try done.
    apply list.Forall_forall. intros v Hv. apply list_elem_of_In, filter_In in Hv as [_ Hv]. by destruct v.
  - intros n. cbv zeta.
    rewrite (bind_run _ _ n (conditions_from n a) (n + N.of_nat (length a))).
    2:{ subst a. destruct (field_get (js "where") fs) as [[| | | | |w]|]; try apply ret_run. apply rules_of_object_run. }
    rewrite (bind_run _ _ _ (conditions_from (n + N.of_nat (length a)) b) (n + N.of_nat (length a) + N.of_nat (length b))).
    2:{ subst b. destruct (field_get (js "conditions") fs) as [[| | | |items|w]|]; try apply ret_run; [|apply rules_of_object_run].
        apply conditions_run, list.Forall_forall. intros v Hv. apply list_elem_of_In, filter_In in Hv as [_ Hv]. by destruct v. }
    rewrite conditions_from_app. unfold mret, M_ret. f_equal. f_equal. rewrite length_app. lia.
Qed.

Lemma prune_text_rules si ty lo re l l' :
  map rule_payload (List.filter (λ r, truthy (trim (c_path r))) l) = map rule_payload (List.filter (λ r, truthy (trim (c_path r))) l') →
  buildPruneObjectsValueText (mkPrune si ty lo re l) = buildPruneObjectsValueText (mkPrune si ty lo re l').
Proof. intros H. unfold buildPruneObjectsValueText. cbn [typeText simpleMode p_logic recursive rules]. by rewrite H. Qed.

Lemma fresh_rules n n' items ruleId : issued n ruleId → (n ≤ n')%N → Forall (λ r, c_id r ≠ ruleId) (conditions_from n' items).
Proof.
  intros Hi Hn. apply list.Forall_forall. intros r (m & Hm & Hr)%conditions_ids E. rewrite E in Hr. subst ruleId.
  apply (fresh_not_issued n m); [lia|done].
Qed.


(** Updates that write the same rules are the same update. *)
Lemma prune_updates_agree id u v d n :
  (∀ si ty lo re items n', (n ≤ n')%N → ∃ k k' next next',
     u (mkPrune si ty lo re (conditions_from n' items)) (n' + N.of_nat (length items))%N = Some (next, k)
     ∧ v (mkPrune si ty lo re (conditions_from n' items)) (n' + N.of_nat (length items))%N = Some (next', k')
     ∧ k = k' ∧ (n' ≤ k)%N ∧ buildPruneObjectsValueText next = buildPruneObjectsValueText next') →
  Dialog.updatePruneObjectsDraft clock id u d n = Dialog.updatePruneObjectsDraft clock id v d n.
Proof.
  intros H. unfold Dialog.updatePruneObjectsDraft.
  set (fu := λ o : ParamOverrideOperation, _). set (fv := λ o : ParamOverrideOperation, _).
  assert (∀ l n', (n ≤ n')%N → mapM fu l n' = mapM fv l n') as Hm.
  { induction l as [|o l IH]; intros n' Hn'; [done|].
    assert (∃ o' k, fu o n' = Some (o', k) ∧ fv o n' = Some (o', k) ∧ (n' ≤ k)%N) as (o' & k & Hu & Hv & Hk).
    { destruct (prune_run (value_text o)) as (si & ty & lo & re & items & _ & Hrun). subst fu fv. cbv beta.
      destruct (o_id o === id); [|by exists o, n'; split_and!; [..|lia]].
      rewrite !(bind_run _ _ _ _ _ (Hrun n')).
      destruct (H si ty lo re items n' Hn') as (k & k' & next & next' & Hu & Hv & <- & Hk & Hb).
      rewrite (bind_run _ _ _ _ _ Hu), (bind_run _ _ _ _ _ Hv), Hb. by eexists _, k. }
    cbn [mapM]. rewrite (bind_run _ _ _ _ _ Hu), (bind_run _ _ _ _ _ Hv). unfold mbind, M_bind.
    by rewrite IH by lia. }
  unfold mbind, M_bind. by rewrite Hm by lia.
Qed.

(** [C24] The rules of a pruning operation cannot be edited in the dialog: the
    draft is read from the text again at every step and its rules get new
    identifiers, so a change or a removal of a rule by the identifier it was
    drawn with finds no rule and only rewrites the text of the operation as it
    was read; and a rule added has no path, so it is not written and the text is
    that of the draft in advanced mode. *)
Theorem prune_rules_cannot_be_edited id ruleId change d n :
  issued n ruleId →
  Dialog.updatePruneRule clock id ruleId change d n = Dialog.updatePruneObjectsDraft clock id mret d n
  ∧ Dialog.removePruneRule clock id ruleId d n = Dialog.updatePruneObjectsDraft clock id mret d n
  ∧ Dialog.addPruneRule clock id d n
    = Dialog.updatePruneObjectsDraft clock id
        (λ draft, normalizePruneRule clock (JObj []) ≫= λ _, mret (Dialog.patched_prune (Dialog.PruneSimple false) draft)) d n.
Proof.
  intros Hi. split_and!; apply prune_updates_agree; intros si ty lo re items n' Hn'.
  - eexists _, _, _, _. split_and!; [reflexivity..|lia|]. apply prune_text_rules. f_equal. f_equal. cbn [rules].
    pose proof (fresh_rules _ _ items _ Hi Hn') as Hf. induction Hf as [|r l Hr _ IH]; [done|].
    cbn [map]. by rewrite (jeqb_neq (c_id r) ruleId), IH.
  - eexists _, _, _, _. split_and!; [reflexivity..|lia|]. apply prune_text_rules. f_equal. f_equal. cbn [rules].
    pose proof (fresh_rules _ _ items _ Hi Hn') as Hf. induction Hf as [|r l Hr _ IH]; [done|].
    cbn [List.filter]. rewrite (jeqb_neq (c_id r) ruleId) by done. cbn [negb]. by rewrite IH.
  - eexists _, _, _, _. split_and!.
    + by rewrite (bind_run _ _ _ _ _ (normalizeCondition_run (JObj []) _ ltac:(done))).
    + by rewrite (bind_run _ _ _ _ _ (normalizeCondition_run (JObj []) _ ltac:(done))).
    + done.
    + lia.
    + apply prune_text_rules. by rewrite List.filter_app, app_nil_r.
Qed.
End Facts.

Definition example_dialog : Dialog.Dialog :=
  Dialog.mkDialog (mkEditor visual operations_mode []
    [mkOperation (js "a") [] [] (js "prune_objects") [] [] (jq "{'conditions':[{'path':'x','mode':'full','value':1}]}") false (js "OR") []]
    [] no_note) (js "a") [] [] [] before [] true.

Lemma prune_rules_cannot_be_edited_witness :
  Dialog.removePruneRule id (js "a") (js "po_0_0") example_dialog 1%N
  = Dialog.updatePruneObjectsDraft id (js "a") mret example_dialog 1%N.
Proof.
  apply (prune_rules_cannot_be_edited id (js "a") (js "po_0_0") (Dialog.ConditionInvert true)). exists 0%N. by vm_compute.
Defined.

(** The rule drawn with the identifier [po_0_0] survives its removal, and a rule added does not appear. *)
Example pruning_rules_stay :
  let text d := match Dialog.ops d with o :: _ => value_text o | [] => [] end in
  (text ∘ fst <$> Dialog.removePruneRule id (js "a") (js "po_0_0") example_dialog 1%N)
    = Some (jq "{'conditions':[{'path':'x','mode':'full','value':1}]}")
  ∧ (text ∘ fst <$> Dialog.addPruneRule id (js "a") example_dialog 1%N)
    = Some (jq "{'conditions':[{'path':'x','mode':'full','value':1}]}").
Proof. by vm_compute. Qed.

(** With a type of objects set, the button for the advanced mode changes nothing. *)
Example advanced_mode_is_out_of_reach :
  let draft := fst <$> parsePruneObjectsDraft id (js "redacted_thinking") 0%N in
  buildPruneObjectsValueText <$> (Dialog.patched_prune (Dialog.PruneSimple false) <$> draft) = Some (jq "{'type':'redacted_thinking'}")
  ∧ (simpleMode ∘ fst <$> parsePruneObjectsDraft id (jq "{'type':'redacted_thinking'}") 0%N) = Some true.
Proof. by vm_compute. Qed.

(** A blank typed at the end of the message of an error is lost at once. *)
Example typed_blank_is_lost :
  let typed := buildReturnErrorValueText (Dialog.patched_return (Dialog.ReturnMessage (js "not ")) (parseReturnErrorDraft (js "not"))) in
  typed = js "not".
Proof. by vm_compute. Qed.

(** A text that looks like a number is saved as one, although the rule it was read from held a string. *)
Example string_value_becomes_number :
  toValueText (Some (JStr (js "123"))) = js "123" ∧ parseLooseValue (js "123") = JNum (num_of_Z 123).
Proof. by vm_compute. Qed.
