(* ===== verification/ParamOverrideReach.v ===== *)
(** * Reachable states of the override editor

    Whatever the user does, in whatever order: the dialog always shows at least
    one rule, its rules have different identifiers and known modes, and once the
    effects have run exactly one rule is selected. *)

From Stdlib Require Import ZifyN ZifyBool.
From stdpp Require Import sorting.
From S2P Require Import Prelude StableSort JsValue JsCollections JsonText ParamOverride ParamOverrideFacts.
Import ParamOverride Dialog.

Section Reach.
Context (clock : N → N).

(** ** Steps *)

(** The lists of the selects offer known modes only. *)
Definition allowed (p : patch) : Prop := match p with SetMode v => v ∈ OPERATION_MODE_VALUES | _ => True end.
Definition allowed_condition (p : condition_patch) : Prop :=
  match p with ConditionMode v => v ∈ CONDITION_MODE_VALUES | _ => True end.

Inductive pure_step (d : Dialog) : Dialog → Prop :=
| step_update id p : allowed p → pure_step d (updateOperation id p d)
| step_condition id c p : allowed_condition p → pure_step d (updateCondition id c p d)
| step_remove_condition id c : pure_step d (removeCondition id c d)
| step_return id p : pure_step d (updateReturnErrorDraft id p d)
| step_drag id : pure_step d (handleDragStart id d)
| step_over id lower : pure_step d (handleDragOver id lower d)
| step_drop id carried : pure_step d (handleDrop id carried d)
| step_json : pure_step d (switchToJsonMode d)
| step_text v : pure_step d (handleJsonChange v d)
| step_legacy v : pure_step d (setLegacyValue v d)
| step_save : pure_step d (handleSave d)
| step_select id : pure_step d (select id d)
| step_preset key : pure_step d (choose_preset key d)
| step_effect : pure_step d (keep_selection d).

Inductive step : Dialog * N → Dialog * N → Prop :=
| step_pure d d' n : pure_step d d' → step (d, n) (d', n)
| step_open value d n s : open_dialog clock value d n = Some s → step (d, n) s
| step_add d n s : addOperation clock d n = Some s → step (d, n) s
| step_duplicate ran id d n s : duplicateOperation clock ran id d n = Some s → step (d, n) s
| step_remove id d n s : removeOperation clock id d n = Some s → step (d, n) s
| step_add_condition id d n s : addCondition clock id d n = Some s → step (d, n) s
| step_prune id p d n s : patchPruneObjectsDraft clock id p d n = Some s → step (d, n) s
| step_add_rule id d n s : addPruneRule clock id d n = Some s → step (d, n) s
| step_rule id r p d n s : updatePruneRule clock id r p d n = Some s → step (d, n) s
| step_remove_rule id r d n s : removePruneRule clock id r d n = Some s → step (d, n) s
| step_draw d n draft n' : pruneObjectsDraft clock d n = Some (draft, n') → step (d, n) (d, n')
| step_visual d n s : switchToVisualMode clock d n = Some s → step (d, n) s
| step_fill app d n s : fillTemplate clock app d n = Some s → step (d, n) s
| step_reset d n s : resetEditorState clock d n = Some s → step (d, n) s.

(** The state before the dialog was opened. *)
Definition initial (d : Dialog) (n : N) : Prop :=
  ∃ n0 o, createDefaultOperation clock n0 = Some (o, n) ∧ ops d = [o].

Definition reachable (s : Dialog * N) : Prop := ∃ d n, initial d n ∧ rtc step (d, n) s.

(** ** The invariant *)

Definition known (o : ParamOverrideOperation) : Prop :=
  o_mode o ∈ OPERATION_MODE_VALUES ∧ Forall (λ c, c_mode c ∈ CONDITION_MODE_VALUES) (conditions o).

Definition distinct (n : N) (l : list ParamOverrideOperation) : Prop :=
  NoDup (map o_id l) ∧ Forall (λ o, issued clock n (o_id o) ∧ known o) l.

Definition sound (s : Dialog * N) : Prop := distinct s.2 (ops s.1) ∧ ops s.1 ≠ [].

Lemma distinct_weaken n n' l : (n ≤ n')%N → distinct n l → distinct n' l.
Proof.
  intros Hn [Hd Hl]. split; [done|]. eapply list.Forall_impl; [exact Hl|]. intros o [Hi Hk]. split; [|done].
  by eapply issued_weaken.
Qed.

Lemma one_of_elem l v d : d ∈ l → one_of l v d ∈ l.
Proof. intros Hd. destruct v as [[]|]; try done. cbn [one_of]. by case_bool_decide. Qed.

Lemma condition_known id v : c_mode (condition_of id v) ∈ CONDITION_MODE_VALUES.
Proof. apply one_of_elem. by apply (bool_decide_unpack _); vm_compute. Qed.

Lemma operation_known n v : known (operation_of clock n v).
Proof.
  split; [apply one_of_elem; by apply (bool_decide_unpack _); vm_compute|]. cbn [operation_of conditions].
  generalize (n + 1)%N. induction (condition_items v) as [|x l IH]; intros k; cbn [conditions_from]; constructor; [apply condition_known|apply IH].
Qed.

Lemma after_operation_le n v : (n < after_operation n v)%N.
Proof. unfold after_operation. lia. Qed.

Lemma after_operations_le n items : (n ≤ after_operations n items)%N.
Proof.
  revert n. induction items as [|v items IH]; intros n; cbn [after_operations]; [lia|].
  pose proof (after_operation_le n v). specialize (IH (after_operation n v)). lia.
Qed.

(** Rules made from [n] on have identifiers from [n] on. *)
Lemma operations_from_ids n items o : o ∈ operations_from clock n items →
  ∃ m, (n ≤ m < after_operations n items)%N ∧ o_id o = id_at clock m.
Proof.
  revert n. induction items as [|v items IH]; intros n; cbn [operations_from after_operations]; [by intros ?%elem_of_nil|].
  pose proof (after_operation_le n v). pose proof (after_operations_le (after_operation n v) items).
  intros [->|(m & ? & ?)%IH]%elem_of_cons; [exists n; split; [lia|done]|exists m; split; [lia|done]].
Qed.

Lemma operations_from_distinct n items : distinct (after_operations n items) (operations_from clock n items).
Proof.
  split.
  - revert n. induction items as [|v items IH]; intros n; cbn [operations_from map]; [constructor|].
    apply list.NoDup_cons. split; [|apply IH]. intros (o & E & Ho)%list_elem_of_fmap. apply operations_from_ids in Ho as (m & Hm & Hid).
    rewrite Hid in E. cbn [operation_of o_id] in E. apply id_inj in E. pose proof (after_operation_le n v). lia.
  - apply list.Forall_forall. intros o Ho. split; [apply operations_from_ids in Ho as (m & ? & ->); exists m; split; [lia|done]|].
    revert n Ho. induction items as [|v items IH]; intros n; cbn [operations_from]; [by intros ?%elem_of_nil|].
    intros [->|Ho]%elem_of_cons; [apply operation_known|by eapply IH].
Qed.

(** Old rules and new ones together. *)
Lemma distinct_app n l items : distinct n l → distinct (after_operations n items) (l ++ operations_from clock n items).
Proof.
  intros Hl. pose proof (operations_from_distinct n items) as [Hn Hk]. destruct Hl as [Hln Hlk]. split.
  - rewrite map_app. apply list.NoDup_app. split_and!; [done| |done]. intros x (o & -> & Ho)%list_elem_of_fmap (o' & E & Ho')%list_elem_of_fmap.
    apply operations_from_ids in Ho' as (m & Hm & Hid). rewrite list.Forall_forall in Hlk. destruct (Hlk o Ho) as [Hi _].
    rewrite E, Hid in Hi. by eapply (fresh_not_issued clock n m); [lia|].
  - apply list.Forall_app. split; [|done]. eapply list.Forall_impl; [exact Hlk|]. intros o [Hi ?]. split; [|done].
    eapply issued_weaken; [apply after_operations_le|done].
Qed.

Lemma distinct_perm n l l' : l ≡ₚ l' → distinct n l → distinct n l'.
Proof.
  intros H [Hd Hk]. split; [by rewrite <-(Permutation_map o_id H)|by rewrite <-H].
Qed.

Lemma distinct_filter n l f : distinct n l → distinct n (List.filter f l).
Proof.
  intros [Hd Hk]. split.
  - clear Hk. induction l as [|o l IH]; [done|]. cbn [map] in Hd. apply list.NoDup_cons in Hd as [Ho Hd]. cbn [List.filter].
    destruct (f o); [|by apply IH]. cbn [map]. apply list.NoDup_cons. split; [|by apply IH].
    intros (x & E & Hx)%list_elem_of_fmap. apply Ho. rewrite E. apply list_elem_of_fmap_2.
    apply list_elem_of_In, filter_In in Hx as [Hx _]. by apply list_elem_of_In.
  - rewrite list.Forall_forall in Hk |- *. intros o Ho. apply Hk. apply list_elem_of_In, filter_In in Ho as [Ho _]. by apply list_elem_of_In.
Qed.

Lemma distinct_map n l f : (∀ o, o_id (f o) = o_id o) → (∀ o, known o → known (f o)) → distinct n l → distinct n (map f l).
Proof.
  intros Hid Hk [Hd Hl]. split; [rewrite map_map; by rewrite (map_ext _ _ Hid)|].
  apply List.Forall_map. eapply list.Forall_impl; [exact Hl|]. intros o [? ?]. rewrite Hid. auto.
Qed.

Lemma map_operation_distinct n l id f : (∀ o, o_id (f o) = o_id o) → (∀ o, known o → known (f o)) →
  distinct n l → distinct n (map_operation id f l).
Proof. intros Hid Hk. apply distinct_map; intros o; destruct (o_id o === id); auto. Qed.

(** ** Computations that succeed *)

Lemma bind_inv {A B} (m : M A) (f : A → M B) n s : (m ≫= f) n = Some s → ∃ x n1, m n = Some (x, n1) ∧ f x n1 = Some s.
Proof. unfold mbind, M_bind. intros ([x n1] & H1 & H2)%bind_Some. eauto. Qed.

Lemma conditions_inv items n r : mapM (normalizeCondition clock) items n = Some r → Forall not_null items.
Proof.
  revert n r. induction items as [|v items IH]; intros n r; [constructor|]. cbn [mapM].
  intros (c & n1 & Hc & (cs & n2 & Hcs & _)%bind_inv)%bind_inv. constructor; [by intros ->|by eapply IH].
Qed.

Lemma operation_inv v n o n' : normalizeOperation clock v n = Some (o, n') → o = operation_of clock n v ∧ n' = after_operation n v.
Proof.
  intros H. assert (rule_value v) as Hv.
  { unfold normalizeOperation in H. apply bind_inv in H as (id & n1 & _ & (u & n2 & Hu & (cs & n3 & Hcs & _)%bind_inv)%bind_inv).
    split; [by intros ->|]. unfold condition_items. destruct (jget (js "conditions") v) as [[| | | |items|]|]; try constructor.
    by eapply conditions_inv. }
  rewrite normalizeOperation_run in H by done. by simplify_eq.
Qed.

Lemma operations_inv items n l n' : mapM (normalizeOperation clock) items n = Some (l, n') →
  l = operations_from clock n items ∧ n' = after_operations n items.
Proof.
  revert n l n'. induction items as [|v items IH]; intros n l n'; cbn [mapM].
  - intros H. unfold mret, M_ret in H. by simplify_eq.
  - intros (o & n1 & [-> ->]%operation_inv & (os & n2 & [-> ->]%IH & H)%bind_inv)%bind_inv. unfold mret, M_ret in H. by simplify_eq.
Qed.

(** A list of rules freshly made, at least one. *)
Definition fresh_list (n : N) (l : list ParamOverrideOperation) (n' : N) : Prop :=
  ∃ items, items ≠ [] ∧ l = operations_from clock n items ∧ n' = after_operations n items.

Lemma default_fresh n o n' : createDefaultOperation clock n = Some (o, n') → fresh_list n [o] n'.
Proof. intros [-> ->]%operation_inv. by eexists [_]. Qed.

Lemma operations_of_fresh items n l n' : operations_of clock items n = Some (l, n') → fresh_list n l n'.
Proof.
  unfold operations_of. destruct items as [|v items].
  - intros (o & n1 & Ho & H)%bind_inv. unfold mret, M_ret in H. simplify_eq. by apply default_fresh.
  - intros [-> ->]%operations_inv. by eexists (v :: items).
Qed.

Lemma fresh_sound n l n' d : fresh_list n l n' → ops d = l → sound (d, n').
Proof.
  intros (items & Hne & -> & ->) Hd. split; cbn [fst snd]; rewrite Hd; [apply operations_from_distinct|by destruct items].
Qed.

Lemma sound_same d n d' n' : sound (d, n) → ops d' = ops d → (n ≤ n')%N → sound (d', n').
Proof. intros [Hd Hne] E Hn. split; cbn [fst snd] in *; rewrite E; [by eapply distinct_weaken|done]. Qed.

Lemma sound_ops d n d' : sound (d, n) → ops d' = ops d → sound (d', n).
Proof. intros Hs E. eapply sound_same; [exact Hs|exact E|lia]. Qed.

(** ** Every step keeps the invariant *)

Lemma patched_id p o : o_id (patched p o) = o_id o.
Proof. by destruct o, p. Qed.
Lemma patched_known p o : allowed p → known o → known (patched p o).
Proof. intros Hp [Hm Hc]. destruct o, p; split; done. Qed.

Lemma reorder_perm l a b pos : reorderOperations l a b pos ≡ₚ l.
Proof.
  unfold reorderOperations. destruct (_ || _); [done|]. destruct (findIndex a l) as [i|]; [|done]. cbn [mbind option_bind].
  destruct (l !! i) as [o|] eqn:E; [|done]. cbn [mbind option_bind]. destruct (split_lookup _ _ _ E) as [Hl ->].
  destruct (findIndex b _) as [j|]; [|done]. rewrite Hl at 5. set (k := match pos with before => j | after => S j end).
  rewrite <-Permutation_middle, take_drop. by rewrite Permutation_middle.
Qed.

Lemma sound_map d n f d' : (∀ o, o_id (f o) = o_id o) → (∀ o, known o → known (f o)) → ops d' = map f (ops d) →
  sound (d, n) → sound (d', n).
Proof.
  intros Hid Hk E [Hd Hne]. split; cbn [fst snd] in *; rewrite E; [by apply distinct_map|by destruct (ops d)].
Qed.

Lemma map_operation_sound d n id f d' : (∀ o, o_id (f o) = o_id o) → (∀ o, known o → known (f o)) →
  ops d' = map_operation id f (ops d) → sound (d, n) → sound (d', n).
Proof.
  intros Hid Hk E. apply (sound_map _ _ _ _) with (3 := E); intros o; destruct (o_id o === id); auto.
Qed.

Lemma pure_step_sound d d' n : pure_step d d' → sound (d, n) → sound (d', n).
Proof.
  intros Hstep Hs. destruct Hstep as [id p Hp|id c p Hp|id c|id p|id|id lower|id carried| |v|v| |id|key|];
    try (by eapply sound_ops).
  - eapply map_operation_sound; [apply patched_id|intros o; by apply patched_known|reflexivity|done].
  - eapply map_operation_sound; [| |reflexivity|done]; [done|]. intros o [Hm Hc]. split; [done|]. cbn [with_conditions conditions].
    apply List.Forall_map. eapply list.Forall_impl; [exact Hc|]. intros x Hx. destruct (_ === _); [|done]. by destruct x, p.
  - eapply map_operation_sound; [| |reflexivity|done]; [done|]. intros o [Hm Hc]. split; [done|]. cbn [with_conditions conditions].
    rewrite list.Forall_forall in Hc |- *. intros x Hx. apply Hc. apply list_elem_of_In, filter_In in Hx as [Hx _]. by apply list_elem_of_In.
  - eapply map_operation_sound; [| |reflexivity|done]; [intros o; apply patched_id|].
    intros o. by apply (patched_known (SetValueText _)).
  - unfold handleDragOver. destruct (_ || _); by eapply sound_ops.
  - unfold handleDrop. destruct (_ && _); [|by eapply sound_ops]. destruct Hs as [Hd Hne]. split; cbn [fst snd] in *.
    + eapply distinct_perm; [|exact Hd]. symmetry. apply reorder_perm.
    + intros E. apply Hne. change (reorderOperations (ops d) (or_else (draggedOperationId d) carried) id
        (if dragOverOperationId d === id then dragOverPosition d else before) = []) in E.
      apply Permutation_nil. rewrite <-E. apply reorder_perm.
  - unfold switchToJsonMode. destruct (editMode (editor d)); [|by eapply sound_ops]. destruct (buildVisualJson _); by eapply sound_ops.
  - unfold handleSave. destruct (save_result _); by eapply sound_ops.
  - unfold keep_selection. destruct (ops d) as [|o l] eqn:E; [by eapply sound_ops|]. destruct (existsb _ _); by eapply sound_ops.
Qed.

Lemma prune_sound id u d n s : (∀ x k y k', u x k = Some (y, k') → (k ≤ k')%N) →
  updatePruneObjectsDraft clock id u d n = Some s → sound (d, n) → sound s.
Proof.
  intros Hu H Hs. unfold updatePruneObjectsDraft in H. apply bind_inv in H as (l & n1 & Hl & H).
  unfold mret, M_ret in H. apply (inj Some) in H as <-.
  assert (∀ l0 k l1 k1, mapM (λ o, if o_id o === id then draft ← parsePruneObjectsDraft clock (value_text o); nextDraft ← u draft;
             mret (patched (SetValueText (buildPruneObjectsValueText nextDraft)) o) else mret o) l0 k = Some (l1, k1) →
           (k ≤ k1)%N ∧ map o_id l1 = map o_id l0 ∧ (Forall known l0 → Forall known l1)) as Hm.
  { clear -Hu. intros l0. induction l0 as [|o l0 IH]; intros k l1 k1; cbn [mapM].
    - intros H. unfold mret, M_ret in H. simplify_eq. split; [lia|done].
    - intros (o' & k2 & Ho & (l2 & k3 & [Hk [Hid Hkn]]%IH & H)%bind_inv)%bind_inv. unfold mret, M_ret in H. simplify_eq.
      assert ((k ≤ k2)%N ∧ o_id o' = o_id o ∧ (known o → known o')) as (? & E & Hko).
      { destruct (o_id o === id); [|unfold mret, M_ret in Ho; simplify_eq; split_and!; [lia|done|done]].
        destruct (prune_run clock (value_text o)) as (si & ty & lo & re & items & _ & Hrun). rewrite (bind_run _ _ _ _ _ (Hrun k)) in Ho.
        apply bind_inv in Ho as (next & k4 & Hn & Ho). unfold mret, M_ret in Ho. simplify_eq. apply Hu in Hn.
        split_and!; [lia|apply patched_id|by apply patched_known]. }
      split_and!; [lia|cbn [map]; by rewrite E, Hid|]. intros [? ?]%list.Forall_cons. constructor; auto. }
  apply Hm in Hl as (Hn & Hid & Hk). destruct Hs as [[Hd Hall] Hne]. cbn [fst snd] in *. split; [split|]; cbn [fst snd].
  - change (ops (set_operations l d)) with l. by rewrite Hid.
  - change (ops (set_operations l d)) with l. apply list.Forall_and. split.
    + apply (proj1 (List.Forall_map o_id (issued clock n1) l)). rewrite Hid. apply List.Forall_map.
      eapply list.Forall_impl; [exact Hall|]. intros o [Hi _]. by eapply issued_weaken.
    + apply Hk. by eapply list.Forall_impl; [exact Hall|intros o []].
  - change (ops (set_operations l d)) with l. intros ->. apply Hne. by destruct (ops d).
Qed.

Lemma app_sound d n items d' : sound (d, n) → ops d' ≡ₚ ops d ++ operations_from clock n items → sound (d', after_operations n items).
Proof.
  intros [Hd Hne] E. split; cbn [fst snd] in *.
  - eapply distinct_perm; [symmetry; exact E|]. by apply distinct_app.
  - intros E'. rewrite E' in E. apply Permutation_nil, app_eq_nil in E as [E _]. done.
Qed.

Lemma one_operation n v : operations_from clock n [v] = [operation_of clock n v].
Proof. done. Qed.

Lemma remove_sound id d n : sound (d, n) → (1 < length (ops d))%nat →
  sound (set_operations (List.filter (λ o, negb (o_id o === id)) (ops d)) d, n).
Proof.
  intros [Hd Hne] Hlen. cbn [fst snd] in *. split; [by apply distinct_filter|]. cbn [fst].
  change (List.filter (λ o, negb (o_id o === id)) (ops d) ≠ []). destruct Hd as [Hd _].
  destruct (ops d) as [|a [|b l]]; cbn [length] in Hlen; [lia..|]. cbn [map] in Hd. apply list.NoDup_cons in Hd as [Hab _].
  cbn [List.filter]. destruct (bool_decide_reflect (o_id a = id)) as [Ea|Ea]; [|by rewrite jeqb_neq].
  rewrite Ea, jeqb_refl. cbn [negb]. rewrite jeqb_neq; [done|]. intros Eb. apply Hab. rewrite Ea, <-Eb. left.
Qed.

Lemma legacy_sound text d n s : legacy_text clock text d n = Some s → sound s.
Proof.
  unfold legacy_text. intros (o & n1 & Ho & H)%bind_inv. unfold mret, M_ret in H. apply (inj Some) in H as <-.
  eapply fresh_sound; [by apply default_fresh|done].
Qed.

Lemma open_sound value d n s : open_dialog clock value d n = Some s → sound s.
Proof.
  unfold open_dialog. intros (st & n1 & Hst & H)%bind_inv. unfold mret, M_ret in H. apply (inj Some) in H as <-.
  assert (fresh_list n (operations st) n1) as Hf; [|by eapply fresh_sound].
  unfold parseInitialState in Hst.
  assert (∀ f, (createDefaultOperation clock ≫= λ o, mret (f o)) n = Some (st, n1) → (∀ o, operations (f o) = [o]) →
               fresh_list n (operations st) n1) as Hdef.
  { intros f (o & n2 & Ho & H)%bind_inv Hops. unfold mret, M_ret in H. simplify_eq. rewrite Hops. by apply default_fresh. }
  destruct (negb _); [by eapply Hdef; [exact Hst|]|]. destruct (JSON_parse _) as [[| | | | |fs]|]; try (by eapply Hdef; [exact Hst|]).
  destruct (field_get _ _) as [[| | | |items|]|]; try (by eapply Hdef; [exact Hst|]).
  apply bind_inv in Hst as (l & n2 & Hl & H). unfold mret, M_ret in H. simplify_eq. by eapply operations_of_fresh.
Qed.

Lemma visual_sound d n s : switchToVisualMode clock d n = Some s → sound (d, n) → sound s.
Proof.
  intros H Hs. unfold switchToVisualMode in H. destruct (editMode (editor d)); [by apply (inj Some) in H as <-|].
  destruct (negb _).
  { apply bind_inv in H as (o & n1 & Ho & H). apply (inj Some) in H as <-. eapply fresh_sound; [by apply default_fresh|done]. }
  destruct (JSON_parse _) as [[| | | | |fs]|]; try by apply (inj Some) in H as <-.
  destruct (field_get _ _) as [[| | | |items|]|];
    try (apply bind_inv in H as (o & n1 & Ho & H); apply (inj Some) in H as <-; eapply fresh_sound; [by apply default_fresh|done]).
  apply bind_inv in H as (l & n1 & Hl & H). apply (inj Some) in H as <-. eapply fresh_sound; [by eapply operations_of_fresh|done].
Qed.

(** Every preset of operations has at least one. *)
Lemma presets_nonempty : Forall (λ e, match e.2 with OperationsPayload items => items ≠ [] | LegacyPayload _ => True end) TEMPLATE_PRESET_CONFIG.
Proof. repeat constructor; done. Qed.

Lemma fill_sound app d n s : fillTemplate clock app d n = Some s → sound (d, n) → sound s.
Proof.
  intros H Hs. unfold fillTemplate in H.
  assert (match default (OperationsPayload OPERATION_TEMPLATE) (field_get (templatePresetKey d) TEMPLATE_PRESET_CONFIG) with
          | OperationsPayload items => items ≠ [] | LegacyPayload _ => True end) as Hne.
  { destruct (field_get _ _) as [x|] eqn:E; [|done]. apply field_get_elem in E. cbn [default from_option id].
    pose proof presets_nonempty as Hp. rewrite list.Forall_forall in Hp. exact (Hp _ E). }
  destruct (default _ _) as [payload|items].
  - destruct (app && _); [|by eapply legacy_sound].
    destruct (if truthy _ then _ else _); [by eapply legacy_sound|by apply (inj Some) in H as <-].
  - destruct app.
    + apply bind_inv in H as (l & n1 & [-> ->]%operations_inv & H). apply (inj Some) in H as <-.
      destruct Hs as [Hd _]. cbn [fst snd] in *. split; cbn [fst snd].
      * change (distinct (after_operations n items)
                  (match visualMode (editor d) with operations_mode => List.filter (λ o, negb (isOperationBlank o)) (operations (editor d)) | legacy => [] end
                   ++ operations_from clock n items)).
        apply distinct_app. destruct (visualMode (editor d)); [by apply distinct_filter|]. split; constructor.
      * change (match visualMode (editor d) with operations_mode => List.filter (λ o, negb (isOperationBlank o)) (operations (editor d)) | legacy => [] end
                   ++ operations_from clock n items ≠ []).
        intros [_ E]%app_eq_nil. by destruct items.
    + apply bind_inv in H as (l & n1 & Hl & H). apply (inj Some) in H as <-. eapply fresh_sound; [by eapply operations_of_fresh|done].
Qed.

Lemma step_sound s s' : step s s' → sound s → sound s'.
Proof.
  intros Hstep Hs. destruct Hstep as [d d' n Hp|value d n s H|d n s H|ran id d n s H|id d n s H|id d n s H|id p d n s H|id d n s H
    |id r p d n s H|id r d n s H|d n draft n' H|d n s H|app d n s H|d n s H].
  - by eapply pure_step_sound.
  - by eapply open_sound.
  - apply bind_inv in H as (o & n1 & [-> ->]%operation_inv & H). apply (inj Some) in H as <-. by apply (app_sound d n [_]).
  - unfold duplicateOperation in H. destruct (_ ≫= _) as [[i source]|] eqn:E; [|by apply (inj Some) in H as <-].
    apply bind_inv in H as (o & n1 & [-> ->]%operation_inv & H). apply (inj Some) in H as <-.
    apply (app_sound d n [_]); [done|]. rewrite one_operation.
    assert (take (S i) (ops d) ++ operation_of clock n (operation_json source) :: drop (S i) (ops d)
            ≡ₚ ops d ++ [operation_of clock n (operation_json source)]) as Hp.
    { rewrite <-Permutation_middle, take_drop. by rewrite Permutation_cons_append. }
    by destruct ran.
  - unfold removeOperation in H. destruct (Nat.leb_spec (length (ops d)) 1) as [Hl|Hl].
    + apply bind_inv in H as (o & n1 & Ho & H). apply (inj Some) in H as <-. eapply fresh_sound; [by apply default_fresh|done].
    + apply (inj Some) in H as <-. by apply remove_sound.
  - apply bind_inv in H as (c & n1 & Hc & H). apply (inj Some) in H as <-.
    unfold createDefaultCondition in Hc. rewrite normalizeCondition_run in Hc by done. simplify_eq.
    eapply map_operation_sound; [| |reflexivity|]; [done| |by eapply sound_same; [exact Hs|done|lia]].
    intros o [Hm Hc]. split; [done|]. apply list.Forall_app. split; [done|]. apply list.Forall_singleton. apply condition_known.
  - eapply prune_sound; [|exact H|done]. intros x k y k' E. unfold mret, M_ret in E. simplify_eq. lia.
  - eapply prune_sound; [|exact H|done]. intros x k y k' (c & k1 & Hc & E)%bind_inv. unfold normalizePruneRule in Hc. rewrite normalizeCondition_run in Hc by done.
    unfold mret, M_ret in E. simplify_eq. lia.
  - eapply prune_sound; [|exact H|done]. intros x k y k' E. unfold mret, M_ret in E. simplify_eq. lia.
  - eapply prune_sound; [|exact H|done]. intros x k y k' E. unfold mret, M_ret in E. simplify_eq. lia.
  - eapply sound_same; [exact Hs|done|]. unfold pruneObjectsDraft in H.
    destruct (list_find _ _) as [[i o]|]; [|unfold mret, M_ret in H; simplify_eq; lia].
    destruct (_ === _); [|unfold mret, M_ret in H; simplify_eq; lia].
    destruct (prune_run clock (value_text o)) as (si & ty & lo & re & items & _ & Hrun). rewrite (bind_run _ _ _ _ _ (Hrun n)) in H.
    unfold mret, M_ret in H. simplify_eq. lia.
  - by eapply visual_sound.
  - by eapply fill_sound.
  - apply bind_inv in H as (o & n1 & Ho & H). apply (inj Some) in H as <-. eapply fresh_sound; [by apply default_fresh|done].
Qed.

(** [C23] In every reachable state of the dialog, whatever is opened, typed, added,
    copied, removed, dragged, filled in or switched: there is a rule, no two
    rules have the same identifier, every mode is one of the lists, and once the
    effect on the selection has run exactly one rule is selected. *)
Theorem rules_stay_distinct s : reachable s →
  ops s.1 ≠ [] ∧ NoDup (map o_id (ops s.1)) ∧ Forall known (ops s.1)
  ∧ ∃ o, o ∈ ops s.1 ∧ ∀ o', o' ∈ ops s.1 → (o_id o' = selectedOperationId (keep_selection s.1) ↔ o' = o).
Proof.
  intros (d & n & (n0 & o & Ho & Hd) & Hsteps).
  assert (sound s) as [[Hdist Hall] Hne].
  { assert (sound (d, n)) as Hs by (eapply fresh_sound; [by apply default_fresh|done]).
    clear Ho Hd. induction Hsteps as [|s1 s2 s3 H _ IH]; [done|]. apply IH. by eapply step_sound. }
  split_and!; [done|done|by eapply list.Forall_impl; [exact Hall|intros x []]|].
  assert (∀ o o', o ∈ ops s.1 → o' ∈ ops s.1 → o_id o = o_id o' → o = o') as Hinj.
  { intros x y [i Hi]%list_elem_of_lookup [j Hj]%list_elem_of_lookup E.
    assert (i = j) as ->; [|congruence]. eapply NoDup_lookup; [exact Hdist| |]; rewrite list_lookup_fmap; [by rewrite Hi|].
    rewrite Hj. cbn. by rewrite E. }
  assert (∃ x, x ∈ ops s.1 ∧ o_id x = selectedOperationId (keep_selection s.1)) as (x & Hx & Hid).
  { unfold keep_selection. destruct (ops s.1) as [|x l] eqn:E; [done|].
    destruct (existsb _ _) eqn:Ee; [|exists x; split; [left|done]].
    apply existsb_exists in Ee as (y & Hy & Hyid). exists y. split; [by apply list_elem_of_In|by apply jeqb_true]. }
  exists x. split; [done|]. intros y Hy. rewrite <-Hid. split; [by apply Hinj|by intros ->].
Qed.
End Reach.

Lemma rules_stay_distinct_witness :
  ∃ d n, reachable id (d, n) ∧ length (ops d) = 2%nat ∧ NoDup (map o_id (ops d)).
Proof.
  destruct (createDefaultOperation id 0%N) as [[o n]|] eqn:E; [|by exfalso; vm_compute in E].
  set (d := mkDialog (mkEditor visual operations_mode [] [o] [] no_note) [] [] [] [] before [] false).
  destruct (addOperation id d n) as [[d' n']|] eqn:Ea; [|by exfalso].
  assert (reachable id (d', n')) as Hr.
  { exists d, n. split; [by exists 0%N, o|]. eapply rtc_l; [by eapply step_add|apply rtc_refl]. }
  exists d', n'. split; [exact Hr|]. destruct (rules_stay_distinct id (d', n') Hr) as (_ & Hd & _). split; [|exact Hd].
  apply bind_inv in Ea as (o' & n1 & _ & Ea). unfold mret, M_ret in Ea. by simplify_eq.
Defined.
