(* ===== verification/ParamOverrideRoundTrip.v ===== *)
(** * Saved parameter overrides read back

    The text that the visual editor saves is read back as the rules it was made
    from, without what their modes do not use; saved again, it is the same text.
    Values are typed as text: the theorem asks that no value is a quoted JSON
    string, which would be read back without its quotes. *)

From Stdlib Require Import ZifyN ZifyBool.
From stdpp Require Import sorting.
From S2P Require Import Prelude StableSort JsValue JsCollections JsonText JsonParsed StringFacts ParamOverride ParamOverrideFacts.
Import ParamOverride.

(** ** Values as text *)

(** A value that keeps its meaning when it is shown as text again. *)
Definition steady (text : jstr) : Prop :=
  match JSON_parse (trim text) with
  | Some (JStr _) => False
  | Some v => storable v
  | None => units (trim text)
  end.

Definition again (text : jstr) : jstr := toValueText (Some (parseLooseValue text)).

Lemma parse_empty : JSON_parse [] = None.
Proof. done. Qed.

Lemma loose_cases text : steady text →
  (JSON_parse (trim text) = None ∧ parseLooseValue text = JStr (trim text) ∧ again text = trim text ∧ units (trim text))
  ∨ ∃ v, JSON_parse (trim text) = Some v ∧ parseLooseValue text = v ∧ again text = JSON_stringify v ∧ storable v ∧ trim text ≠ [].
Proof.
  intros Hs. unfold steady, again, parseLooseValue in *. destruct (truthy (trim text)) eqn:Et; cbn [negb] in *.
  - apply truthy_true in Et. destruct (JSON_parse (trim text)) as [v|]; [right|left; done]. exists v. by destruct v.
  - apply truthy_false in Et. rewrite Et in *. left. by rewrite parse_empty in *.
Qed.

Lemma steady_storable text : steady text → storable (parseLooseValue text).
Proof. intros [(_ & -> & _ & H)|(v & _ & -> & _ & H & _)]%loose_cases; done. Qed.

Lemma printed_value_trim v : storable v → trim (JSON_stringify v) = JSON_stringify v.
Proof. rewrite <-print_compact. apply printed_trim. Qed.

Lemma printed_value_nonempty v : storable v → JSON_stringify v ≠ [].
Proof. intros Hv. rewrite <-print_compact. by destruct (print_head [] [] v Hv) as (c & t & -> & _). Qed.

(** Shown and read again, a steady value is the same. *)
Lemma again_steady text : steady text →
  trim (again text) = again text ∧ JSON_parse (again text) = JSON_parse (trim text)
  ∧ (truthy (again text) = truthy (trim text)) ∧ parseLooseValue (again text) = parseLooseValue text.
Proof.
  intros [(Hp & Hl & -> & Hu)|(v & Hp & Hl & -> & Hv & Hne)]%loose_cases.
  - rewrite Hl. split_and!; [apply trim_idemp|done|done|]. unfold parseLooseValue. rewrite trim_idemp, Hp.
    destruct (truthy (trim text)) eqn:E; [done|]. by apply truthy_false in E as ->.
  - assert (JSON_parse (JSON_stringify v) = Some v) as Hr by by apply stringify_parse.
    split_and!; [by apply printed_value_trim|by rewrite Hr| |].
    + rewrite (proj2 (truthy_true _)) by by apply printed_value_nonempty. symmetry. by apply truthy_true.
    + unfold parseLooseValue at 1. rewrite printed_value_trim by done. rewrite (proj2 (truthy_true _)) by by apply printed_value_nonempty.
      cbn [negb]. by rewrite Hr.
Qed.

(** ** Rules without their identifiers *)

Definition erase_condition (c : ParamOverrideCondition) : ParamOverrideCondition :=
  mkCondition [] (c_path c) (c_mode c) (c_value_text c) (c_invert c) (c_pass_missing_key c).
Definition erase (o : ParamOverrideOperation) : ParamOverrideOperation :=
  mkOperation [] (description o) (o_path o) (o_mode o) (o_from o) (o_to o) (value_text o) (keep_origin o) (logic o)
    (map erase_condition (conditions o)).

Lemma blank_erase o : isOperationBlank (erase o) = isOperationBlank o.
Proof.
  unfold isOperationBlank. cbn [erase o_mode o_path o_from o_to value_text keep_origin conditions].
  assert (existsb condition_filled (map erase_condition (conditions o)) = existsb condition_filled (conditions o)) as ->; [|done].
  induction (conditions o) as [|c cs IH]; [done|]. cbn [map existsb]. by rewrite IH.
Qed.

Lemma payload_erase o : operation_payload (erase o) = operation_payload o.
Proof.
  unfold operation_payload, operation_fields, mode_of. cbn [erase o_mode o_path o_from o_to value_text keep_origin conditions description logic].
  assert (omap buildConditionPayload (map erase_condition (conditions o)) = omap buildConditionPayload (conditions o)) as ->; [|done].
  induction (conditions o) as [|c cs IH]; [done|]. cbn [map omap list_omap]. by rewrite IH.
Qed.

Lemma check_erase o : check_operation (erase o) = check_operation o.
Proof. done. Qed.

(** ** What a save keeps *)

Definition settled_condition (c : ParamOverrideCondition) : option ParamOverrideCondition :=
  if truthy (trim (c_path c))
  then Some (mkCondition [] (trim (c_path c)) (c_mode c) (again (c_value_text c)) (c_invert c) (c_pass_missing_key c))
  else None.

Definition settled (o : ParamOverrideOperation) : ParamOverrideOperation :=
  let m := meta_of (o_mode o) in
  let path := trim (o_path o) in
  let aliased text := if pathAlias m && negb (truthy text) then path else text in
  let cs := omap settled_condition (conditions o) in
  mkOperation [] (trim (description o)) (if m_path m || pathOptional m then path else []) (o_mode o)
    (if m_from m then aliased (trim (o_from o)) else []) (aliased (trim (o_to o)))
    (if m_value m then again (value_text o) else []) (keepOrigin m && keep_origin o)
    (match cs with [] => js "OR" | _ => if logic o === js "AND" then js "AND" else js "OR" end) cs.

(** Rules as the editor holds them: modes from the lists, texts of 16-bit units, steady values. *)
Definition good_condition (c : ParamOverrideCondition) : Prop :=
  c_mode c ∈ CONDITION_MODE_VALUES ∧ units (c_path c) ∧ steady (c_value_text c).
Definition good (o : ParamOverrideOperation) : Prop :=
  o_mode o ∈ OPERATION_MODE_VALUES ∧ units (description o) ∧ units (o_path o) ∧ units (o_from o) ∧ units (o_to o)
  ∧ steady (value_text o) ∧ Forall good_condition (conditions o).

Lemma field_get_put_if k b k' v p : field_get k (put_if b k' v p) = if b && (js k' === k) then Some v else field_get k p.
Proof. unfold put_if. destruct b; [|done]. by rewrite field_get_obj_set. Qed.

(** Comparisons of names are computed. *)
Ltac names :=
  repeat match goal with
  | |- context [js ?a === js ?b] => let r := eval vm_compute in (js a === js b) in change (js a === js b) with r
  end; rewrite ?andb_false_r, ?andb_true_r; cbn [andb orb negb].

Lemma or_else_mode (m d : jstr) (l : list jstr) : m ∈ l → forallb truthy l = true → or_else m d = m.
Proof.
  intros Hm Hl. unfold or_else. rewrite forallb_forall in Hl. rewrite list_elem_of_In in Hm. by rewrite (Hl m Hm).
Qed.

Lemma condition_mode m : m ∈ CONDITION_MODE_VALUES → or_else m (js "full") = m ∧ one_of CONDITION_MODE_VALUES (Some (JStr m)) (js "full") = m.
Proof. intros Hm. split; [by eapply or_else_mode; [exact Hm|]|]. cbn [one_of]. by rewrite bool_decide_true. Qed.

Lemma operation_mode m : m ∈ OPERATION_MODE_VALUES → or_else m (js "set") = m ∧ one_of OPERATION_MODE_VALUES (Some (JStr m)) (js "set") = m.
Proof. intros Hm. split; [by eapply or_else_mode; [exact Hm|]|]. cbn [one_of]. by rewrite bool_decide_true. Qed.

(** *** Conditions *)

Lemma condition_reads c : good_condition c →
  (condition_of [] <$> buildConditionPayload c) = settled_condition c.
Proof.
  intros (Hm & _ & Hs). unfold buildConditionPayload, settled_condition. destruct (truthy (trim (c_path c))); [|done].
  cbn [negb]. destruct (condition_mode _ Hm) as [-> Hone]. cbn [fmap option_fmap option_map]. f_equal. unfold condition_of. cbn [jget].
  rewrite !field_get_put_if. cbn [field_get]. names.
  destruct (c_invert c), (c_pass_missing_key c); cbn [string_or_empty is_true]; by rewrite Hone.
Qed.

Lemma conditions_read cs : Forall good_condition cs →
  map (condition_of []) (omap buildConditionPayload cs) = omap settled_condition cs.
Proof.
  induction 1 as [|c cs Hc _ IH]; [done|]. cbn [omap list_omap]. rewrite <-(condition_reads c Hc).
  destruct (buildConditionPayload c); cbn [fmap option_fmap option_map map]; by rewrite IH.
Qed.

Lemma condition_payload_again c : good_condition c → (settled_condition c ≫= buildConditionPayload) = buildConditionPayload c.
Proof.
  intros (_ & _ & Hs). unfold settled_condition, buildConditionPayload. destruct (truthy (trim (c_path c))) eqn:E; [|done].
  cbn [mbind option_bind c_path c_mode c_value_text c_invert c_pass_missing_key negb]. rewrite trim_idemp, E. cbn [negb].
  by destruct (again_steady _ Hs) as (_ & _ & _ & ->).
Qed.

Lemma conditions_payload_again cs : Forall good_condition cs →
  omap buildConditionPayload (omap settled_condition cs) = omap buildConditionPayload cs.
Proof.
  induction 1 as [|c cs Hc _ IH]; [done|]. cbn [omap list_omap]. rewrite <-(condition_payload_again c Hc).
  destruct (settled_condition c) as [c'|] eqn:E; cbn [mbind option_bind omap list_omap]; [by rewrite IH|done].
Qed.

(** *** Operations *)

Definition alias_sound (m : Meta) : bool :=
  implb (pathAlias m) (m_from m && m_to m && negb (m_path m) && negb (pathOptional m)).

Lemma mode_alias mode : mode ∈ OPERATION_MODE_VALUES → alias_sound (meta_of mode) = true.
Proof.
  intros Hm. assert (forallb (λ m, alias_sound (meta_of m)) OPERATION_MODE_VALUES = true) as H by by vm_compute.
  rewrite forallb_forall in H. apply H. by apply list_elem_of_In.
Qed.

Section Read.
Context (o : ParamOverrideOperation) (Ho : good o).
Let m : Meta := meta_of (o_mode o).

Lemma good_mode : mode_of o = o_mode o.
Proof. by apply operation_mode, Ho. Qed.

(** The texts written for the source and the target. *)
Definition source_text : jstr := if pathAlias m && negb (truthy (trim (o_from o))) then trim (o_path o) else trim (o_from o).
Definition target_text : jstr := if pathAlias m && negb (truthy (trim (o_to o))) then trim (o_path o) else trim (o_to o).

Lemma truthy_or_nil s : truthy s = false → s = [].
Proof. apply truthy_false. Qed.


Ltac read_field :=
  pose proof (mode_alias _ (proj1 Ho)) as Ha; fold m in Ha; unfold alias_sound in Ha;
  unfold operation_fields; rewrite good_mode; fold m; unfold has_text; rewrite !field_get_put_if; cbn [field_get]; names;
  unfold source_text, target_text.

Lemma get_mode : field_get (js "mode") (operation_fields o) = Some (JStr (o_mode o)).
Proof. by read_field. Qed.
Lemma get_description : string_or_empty (field_get (js "description") (operation_fields o)) = trim (description o).
Proof. read_field. by destruct (trim (description o)). Qed.
Lemma get_path : string_or_empty (field_get (js "path") (operation_fields o)) = if m_path m || pathOptional m then trim (o_path o) else [].
Proof. read_field. by destruct (m_path m), (pathOptional m), (trim (o_path o)). Qed.
Lemma get_value : toValueText (field_get (js "value") (operation_fields o)) = if m_value m then again (value_text o) else [].
Proof. read_field. by destruct (m_value m). Qed.
Lemma get_keep : is_true (field_get (js "keep_origin") (operation_fields o)) = keepOrigin m && keep_origin o.
Proof. read_field. by destruct (keepOrigin m), (keep_origin o). Qed.
Lemma get_from : string_or_empty (field_get (js "from") (operation_fields o)) = if m_from m then source_text else [].
Proof.
  read_field. destruct (m_from m), (pathAlias m), (m_to m); cbn [andb negb implb] in *; try done;
    destruct (trim (o_from o)), (trim (o_path o)); done.
Qed.
Lemma get_to : string_or_empty (field_get (js "to") (operation_fields o)) = target_text.
Proof.
  read_field. destruct (m_from m), (pathAlias m), (m_to m); cbn [andb negb implb] in *; try done;
    destruct (trim (o_to o)), (trim (o_path o)); done.
Qed.
Lemma get_conditions : field_get (js "conditions") (operation_fields o) = None.
Proof. by read_field. Qed.
Lemma get_logic : field_get (js "logic") (operation_fields o) = None.
Proof. by read_field. Qed.

Lemma payload_get k : js k ≠ js "logic" → js k ≠ js "conditions" → jget (js k) (operation_payload o) = field_get (js k) (operation_fields o).
Proof.
  intros H1 H2. unfold operation_payload. destruct (_ <? _)%nat; [|done]. cbn [jget].
  by rewrite !field_get_obj_set, !jeqb_neq by done.
Qed.

Lemma payload_conditions : condition_items (operation_payload o) = omap buildConditionPayload (conditions o).
Proof.
  unfold condition_items, operation_payload. destruct (omap _ _) as [|c cs]; cbn [length Nat.ltb Nat.leb jget].
  - by rewrite get_conditions.
  - rewrite !field_get_obj_set. names. done.
Qed.

Lemma payload_logic : (if upper_ascii (text_or (jget (js "logic") (operation_payload o)) (js "OR")) === js "AND" then js "AND" else js "OR")
  = match omap settled_condition (conditions o) with [] => js "OR" | _ => if logic o === js "AND" then js "AND" else js "OR" end.
Proof.
  assert (Forall good_condition (conditions o)) as Hc by apply Ho. rewrite <-(conditions_read _ Hc).
  unfold operation_payload. destruct (omap _ _) as [|c cs]; cbn [length Nat.ltb Nat.leb jget map].
  - by rewrite get_logic.
  - rewrite !field_get_obj_set. names. by destruct (logic o === js "AND").
Qed.

Lemma erase_conditions clock n items : map erase_condition (conditions_from clock n items) = map (condition_of []) items.
Proof. revert n. induction items as [|v items IH]; intros n; [done|]. cbn [conditions_from map]. by rewrite IH. Qed.

(** A saved rule read back. *)
Lemma operation_reads clock n : erase (operation_of clock n (operation_payload o)) = settled o.
Proof.
  unfold operation_of, erase, settled. cbn [description o_path o_mode o_from o_to value_text keep_origin logic conditions].
  rewrite erase_conditions, payload_conditions, conditions_read, payload_logic by apply Ho.
  rewrite !payload_get by (by vm_compute). rewrite get_description, get_path, get_mode, get_from, get_to, get_value, get_keep.
  destruct (operation_mode _ (proj1 Ho)) as [_ ->]. fold m. unfold source_text, target_text. done.
Qed.
End Read.

(** ** Saving again *)

Section Again.
Context (o : ParamOverrideOperation) (Ho : good o).
Let m : Meta := meta_of (o_mode o).

(** What the rule writes, from the texts without blanks around them. *)
Definition fields_of_texts (d p f t : jstr) (v : json) (keep : bool) : list (jstr * json) :=
  let payload := [(js "mode", JStr (o_mode o))] in
  let payload := put_if (truthy d) "description" (JStr d) payload in
  let payload := put_if (m_path m) "path" (JStr p) payload in
  let payload := put_if (pathOptional m && truthy p) "path" (JStr p) payload in
  let payload := put_if (m_value m) "value" v payload in
  let payload := put_if (keepOrigin m && keep) "keep_origin" (JBool true) payload in
  let payload := put_if (m_from m) "from" (JStr f) payload in
  let payload := put_if (negb (m_to m) && truthy t) "to" (JStr t) payload in
  let payload := put_if (m_to m) "to" (JStr t) payload in
  let payload := put_if (pathAlias m && negb (has_text "from" payload) && truthy p) "from" (JStr p) payload in
  put_if (pathAlias m && negb (has_text "to" payload) && truthy p) "to" (JStr p) payload.

Lemma fields_texts : operation_fields o
  = fields_of_texts (trim (description o)) (trim (o_path o)) (trim (o_from o)) (trim (o_to o)) (parseLooseValue (value_text o)) (keep_origin o).
Proof. unfold operation_fields. by rewrite (good_mode o Ho). Qed.

(** With the aliases filled in from the path, the path is not used any more. *)
Lemma aliases_filled d p f t v keep : pathAlias m = true →
  fields_of_texts d [] (if truthy f then f else p) (if truthy t then t else p) v keep = fields_of_texts d p f t v keep.
Proof.
  intros E. pose proof (mode_alias _ (proj1 Ho)) as Ha. fold m in Ha. unfold alias_sound in Ha. rewrite E in Ha.
  unfold fields_of_texts. rewrite E.
  destruct (m_from m), (m_to m), (m_path m), (pathOptional m); try done. cbn [andb negb implb].
  unfold has_text. rewrite !field_get_put_if. cbn [field_get]. names.
  destruct f as [|f0 f], t as [|t0 t], p as [|p0 p]; cbn [truthy json_truthy negb andb];
    destruct (truthy d), (m_value m), (keepOrigin m && keep); by vm_compute.
Qed.

Lemma settled_fields : operation_fields (settled o) = operation_fields o.
Proof.
  rewrite fields_texts. unfold operation_fields. change (mode_of (settled o)) with (mode_of o). rewrite (good_mode o Ho).
  change (fields_of_texts (trim (description (settled o))) (trim (o_path (settled o))) (trim (o_from (settled o))) (trim (o_to (settled o)))
            (parseLooseValue (value_text (settled o))) (keep_origin (settled o))
          = fields_of_texts (trim (description o)) (trim (o_path o)) (trim (o_from o)) (trim (o_to o)) (parseLooseValue (value_text o)) (keep_origin o)).
  unfold settled. cbn [description o_path o_from o_to value_text keep_origin]. fold m. rewrite trim_idemp.
  destruct (again_steady (value_text o)) as (_ & _ & _ & Hv); [apply Ho|].
  pose proof (mode_alias _ (proj1 Ho)) as Ha. fold m in Ha. unfold alias_sound in Ha.
  transitivity (fields_of_texts (trim (description o)) (trim (if m_path m || pathOptional m then trim (o_path o) else []))
     (trim (if m_from m then (if pathAlias m && negb (truthy (trim (o_from o))) then trim (o_path o) else trim (o_from o)) else []))
     (trim (if pathAlias m && negb (truthy (trim (o_to o))) then trim (o_path o) else trim (o_to o)))
     (parseLooseValue (value_text o)) (keep_origin o)).
  { unfold fields_of_texts. destruct (m_value m), (keepOrigin m); cbn [andb]; by rewrite ?Hv. }
  destruct (pathAlias m) eqn:E.
  - rewrite <-(aliases_filled _ (trim (o_path o)) (trim (o_from o)) (trim (o_to o)) _ _ E).
    destruct (m_from m), (m_to m), (m_path m), (pathOptional m); try done. cbn [andb orb].
    destruct (truthy (trim (o_from o))), (truthy (trim (o_to o))); cbn [negb]; by rewrite ?trim_idemp, ?trim_nil.
  - cbn [andb]. unfold fields_of_texts. rewrite E.
    destruct (m_from m), (m_path m) eqn:Ep, (pathOptional m); cbn [orb andb]; by rewrite ?trim_idemp, ?trim_nil.
Qed.

Lemma settled_payload : operation_payload (settled o) = operation_payload o.
Proof.
  unfold operation_payload. rewrite settled_fields.
  change (conditions (settled o)) with (omap settled_condition (conditions o)). rewrite conditions_payload_again by apply Ho.
  destruct (omap buildConditionPayload (conditions o)) as [|c cs] eqn:E; [done|]. cbn [length Nat.ltb Nat.leb].
  assert (logic (settled o) = if logic o === js "AND" then js "AND" else js "OR") as ->.
  { unfold settled. cbn [logic]. rewrite <-(conditions_read (conditions o)) by apply Ho. by rewrite E. }
  destruct (logic o === js "AND"); names; done.
Qed.
End Again.

(** Modes that need a source or a value have the field. *)
Definition needs_sound (mode : jstr) : bool :=
  let m := meta_of mode in
  implb (needs FROM_REQUIRED_MODES mode) (m_from m)
  && implb (needs VALUE_REQUIRED_MODES mode || (mode === js "return_error") || (mode === js "prune_objects") || (mode === js "pass_headers"))
       (m_value m)
  && implb (mode === js "set") (m_path m).

Lemma mode_needs mode : mode ∈ OPERATION_MODE_VALUES → needs_sound mode = true.
Proof.
  intros Hm. assert (forallb needs_sound OPERATION_MODE_VALUES = true) as H by by vm_compute.
  rewrite forallb_forall in H. apply H. by apply list_elem_of_In.
Qed.

Lemma first_false {A} (b : bool) (x : A) (y : option A) : (if b then Some x else y) = None → b = false ∧ y = None.
Proof. by destruct b. Qed.

Section Valid.
Context (o : ParamOverrideOperation) (Ho : good o) (Hc : check_operation o = None).
Let m : Meta := meta_of (o_mode o).

Lemma settled_valid : check_operation (settled o) = None.
Proof.
  pose proof (mode_needs _ (proj1 Ho)) as Hneeds. pose proof (mode_alias _ (proj1 Ho)) as Ha. fold m in Ha.
  unfold needs_sound in Hneeds. fold m in Hneeds. unfold alias_sound in Ha.
  destruct (again_steady (value_text o)) as (Hv1 & Hv2 & Hv3 & Hv4); [apply Ho|].
  revert Hc. unfold check_operation. change (mode_of (settled o)) with (mode_of o). rewrite (good_mode o Ho). fold m.
  intros [H1 [H2 [H3 [H4 [H5 [H6 [H7 [H8 _]%first_false]%first_false]%first_false]%first_false]%first_false]%first_false]%first_false]%first_false.
  assert (m_path m && negb (truthy (trim (o_path (settled o)))) = false) as ->.
  { unfold settled. cbn [o_path]. fold m. destruct (m_path m); [|done]. cbn [orb]. by rewrite trim_idemp. }
  assert (needs FROM_REQUIRED_MODES (o_mode o) && negb (truthy (trim (o_from (settled o))))
          && negb (pathAlias m && truthy (trim (o_path (settled o)))) = false) as ->.
  { unfold settled. cbn [o_from]. fold m. destruct (needs FROM_REQUIRED_MODES (o_mode o)); [|done]. cbn [implb andb] in *.
    destruct (m_from m); [|done].
    destruct (pathAlias m), (truthy (trim (o_from o))) eqn:E; cbn [andb negb] in *; rewrite ?trim_idemp, ?E; try done.
    apply negb_false_iff in H2. by rewrite H2. }
  assert (needs TO_REQUIRED_MODES (o_mode o) && negb (truthy (trim (o_to (settled o))))
          && negb (pathAlias m && truthy (trim (o_path (settled o)))) = false) as ->.
  { unfold settled. cbn [o_to]. fold m. destruct (needs TO_REQUIRED_MODES (o_mode o)); [|done]. cbn [andb] in *.
    destruct (pathAlias m), (truthy (trim (o_to o))) eqn:E; cbn [andb negb] in *; rewrite ?trim_idemp, ?E; try done.
    apply negb_false_iff in H3. by rewrite H3. }
  assert (value_text (settled o) = if m_value m then again (value_text o) else []) as -> by done.
  destruct (m_value m).
  - rewrite Hv1, Hv2, Hv4. rewrite Hv3.
    assert ((again (value_text o) === []) = (trim (value_text o) === [])) as ->.
    { destruct (again (value_text o)), (trim (value_text o)); done. }
    assert (parseLooseValue (trim (value_text o)) = parseLooseValue (value_text o)) as Hl.
    { unfold parseLooseValue. by rewrite trim_idemp. }
    rewrite Hl in H8. by rewrite H4, H5, H6, H7, H8.
  - rewrite trim_nil. cbn [truthy]. destruct (needs VALUE_REQUIRED_MODES (o_mode o)), (o_mode o === js "return_error"),
      (o_mode o === js "prune_objects"), (o_mode o === js "pass_headers"); cbn [orb implb andb] in *; try done;
      by rewrite ?andb_false_r in Hneeds.
Qed.

Lemma settled_not_blank : isOperationBlank o = false → isOperationBlank (settled o) = false.
Proof.
  intros _. pose proof (mode_needs _ (proj1 Ho)) as Hneeds. unfold needs_sound in Hneeds. fold m in Hneeds.
  unfold isOperationBlank. change (o_mode (settled o)) with (o_mode o).
  destruct (o_mode o === js "set"); [|done]. cbn [andb implb] in *. rewrite !andb_true_iff in Hneeds. destruct Hneeds as [_ Hp].
  revert Hc. unfold check_operation. rewrite (good_mode o Ho). fold m. intros [H1 _]%first_false.
  assert (o_path (settled o) = trim (o_path o)) as -> by (unfold settled; cbn [o_path]; fold m; by rewrite Hp).
  rewrite Hp in H1. cbn [andb] in H1. by rewrite trim_idemp, H1.
Qed.
End Valid.

(** ** Printing *)

Lemma storable_put_if b k v p : storable (JObj p) → storable v → storable (JObj (put_if b k v p)).
Proof. intros Hp Hv. unfold put_if. destruct b; [|done]. apply storable_set; [apply units_js|done|done]. Qed.

Lemma storable_start k v : storable v → storable (JObj [(js k, v)]).
Proof. intros Hv. apply (storable_set (js k) v []); [apply units_js|done|by apply storable_obj]. Qed.

Lemma listed_units l x : x ∈ l → forallb unitsb l = true → units x.
Proof. intros Hx Hl. rewrite forallb_forall in Hl. apply unitsb_true, Hl. by apply list_elem_of_In. Qed.

Lemma storable_condition c v : good_condition c → buildConditionPayload c = Some v → storable v.
Proof.
  intros (Hm & Hp & Hs). unfold buildConditionPayload. destruct (negb _); [done|]. intros H. apply (inj Some) in H as <-.
  do 2 (apply storable_put_if; [|done]). destruct (condition_mode _ Hm) as [-> _].
  apply storable_obj. rewrite <-fromEntries_ordered. split; [by apply orderedb_true; vm_compute|].
  repeat (apply list.Forall_cons; split; [split; [apply units_js|]|]); [by apply units_trim| |by apply steady_storable|constructor].
  exact (listed_units _ _ Hm eq_refl).
Qed.

Lemma storable_conditions cs : Forall good_condition cs → Forall storable (omap buildConditionPayload cs).
Proof.
  intros Hc. apply list.Forall_forall. intros v (c & Hin & Hv)%list_elem_of_omap. rewrite list.Forall_forall in Hc.
  by eapply storable_condition; [apply Hc|].
Qed.

Lemma storable_operation o : good o → storable (operation_payload o).
Proof.
  intros Ho. assert (storable (JObj (operation_fields o))) as Hf.
  { unfold operation_fields. destruct Ho as (Hm & Hd & Hp & Hfr & Ht & Hv & _).
    do 5 (apply storable_put_if; [|by apply units_trim]). apply storable_put_if; [|done].
    apply storable_put_if; [|by apply steady_storable]. do 3 (apply storable_put_if; [|by apply units_trim]).
    apply storable_start. rewrite (proj1 (operation_mode _ Hm) : mode_of o = o_mode o). exact (listed_units _ _ Hm eq_refl). }
  unfold operation_payload. destruct (_ <? _)%nat; [|done].
  apply storable_set; [apply units_js|by destruct (logic o === js "AND"); apply units_js|].
  apply storable_set; [apply units_js|by apply storable_arr, storable_conditions, Ho|done].
Qed.

(** ** The dialog *)

Definition kept_rules (ops : list ParamOverrideOperation) : list ParamOverrideOperation :=
  List.filter (λ o, negb (isOperationBlank o)) ops.

Lemma validate_none line ops : validate_from line ops = None ↔ Forall (λ o, check_operation o = None) ops.
Proof.
  revert line. induction ops as [|o ops IH]; intros line; [split; [constructor|done]|]. cbn [validate_from].
  rewrite list.Forall_cons. destruct (check_operation o); [split; [done|by intros []]|]. rewrite IH. tauto.
Qed.

Lemma build_spec ops text : buildOperationsJson ops true = inl text → truthy text = true →
  Forall (λ o, check_operation o = None) (kept_rules ops) ∧ kept_rules ops ≠ []
  ∧ text = operations_text (map operation_payload (kept_rules ops)).
Proof.
  unfold buildOperationsJson. fold (kept_rules ops). destruct (kept_rules ops) as [|o l]; cbn [length Nat.eqb]; [by intros [= <-]|].
  destruct (validateOperations (o :: l)) eqn:E; [done|]. intros [= <-] _. split; [|done]. by apply (validate_none 1).
Qed.

Lemma cons_eq {A} (x y : A) l k : x :: l = y :: k → x = y ∧ l = k.
Proof. intros H. by injection H. Qed.

(** Building again from the rules that were read. *)
Lemma build_settled read kept : map erase read = map settled kept → kept ≠ [] → Forall good kept →
  Forall (λ o, check_operation o = None) kept → Forall (λ o, isOperationBlank o = false) kept →
  buildOperationsJson read true = inl (operations_text (map operation_payload kept)).
Proof.
  intros Hread Hne Hg Hv Hb.
  assert (kept_rules read = read ∧ Forall (λ o, check_operation o = None) read ∧ map operation_payload read = map operation_payload kept)
    as (Hk & Hc & Hp).
  { clear Hne. revert kept Hread Hg Hv Hb. induction read as [|r read IH]; intros [|o kept] Hread Hg Hv Hb; try done.
    cbn [map] in Hread. apply cons_eq in Hread as [Hr Hread].
    apply list.Forall_cons in Hg as [Hg Hg'], Hv as [Hv Hv'], Hb as [Hb Hb'].
    destruct (IH kept Hread Hg' Hv' Hb') as (Hk & Hc & Hp). unfold kept_rules in *. cbn [List.filter map].
    rewrite <-(blank_erase r), <-(payload_erase r), Hr, (settled_not_blank o Hg Hv Hb), (settled_payload o Hg), Hk, Hp. cbn [negb].
    split_and!; [done| |done]. constructor; [|done]. rewrite <-check_erase, Hr. by apply settled_valid. }
  unfold buildOperationsJson. fold (kept_rules read). rewrite Hk. destruct read as [|r read]; [by destruct kept|].
  cbn [length Nat.eqb]. unfold validateOperations. rewrite (proj2 (validate_none 1 _) Hc). by rewrite Hp.
Qed.

Lemma payload_rule_value o : good o → rule_value (operation_payload o).
Proof.
  intros Ho. split; [unfold operation_payload; by destruct (_ <? _)%nat|]. rewrite (payload_conditions o Ho).
  apply list.Forall_forall. intros v (c & _ & Hv)%list_elem_of_omap. unfold buildConditionPayload in Hv.
  destruct (negb _); [done|]. by apply (inj Some) in Hv as <-.
Qed.

Lemma erase_operations clock n os : Forall good os →
  map erase (operations_from clock n (map operation_payload os)) = map settled os.
Proof.
  intros H. revert n. induction H as [|o os Ho _ IH]; intros n; [done|]. cbn [map operations_from].
  by rewrite (operation_reads o Ho), IH.
Qed.

Lemma operations_text_read items : items ≠ [] → Forall storable items →
  trim (operations_text items) = operations_text items ∧ truthy (operations_text items) = true
  ∧ JSON_parse (operations_text items) = Some (JObj [(js "operations", JArr items)]).
Proof.
  intros Hne Hs. assert (storable (JObj [(js "operations", JArr items)])) as H by by apply storable_start, storable_arr.
  unfold operations_text. split_and!; [by apply printed_trim| |by apply stringify_2_parse].
  apply truthy_true. unfold JSON_stringify_2. by destruct (print_head (js "  ") [] _ H) as (c & t & -> & _).
Qed.

Lemma operations_of_run clock items n : items ≠ [] → Forall rule_value items →
  operations_of clock items n = Some (operations_from clock n items, after_operations n items).
Proof. intros Hne H. unfold operations_of. destruct items; [done|]. by apply operations_run. Qed.

(** [C22] What the visual editor saves reads back: opened again, the saved text
    shows one rule for every rule that was not blank, in order, with the texts
    without blanks around them, the fields that its mode uses, the aliases
    filled in, the conditions that have a path and the values as they are shown;
    and saving it again gives the same text. Conditions: modes from the lists,
    texts of 16-bit units, and no value whose text is a quoted JSON string,
    which would be shown without its quotes and then read as what it spells. *)
Theorem saved_rules_read_back clock e text d n :
  editMode e = visual → visualMode e = operations_mode → Forall good (operations e) →
  Dialog.save_result e = inl text → truthy text = true →
  ∃ d' n', Dialog.open_dialog clock text d n = Some (d', n')
    ∧ map erase (Dialog.ops d') = map settled (kept_rules (operations e))
    ∧ Dialog.save_result (Dialog.editor d') = inl text.
Proof.
  intros Hv Ho Hg Hs Ht. unfold Dialog.save_result in Hs. rewrite Hv in Hs. unfold Dialog.buildVisualJson in Hs. rewrite Ho in Hs.
  destruct (buildOperationsJson (operations e) true) as [text'|[line p]] eqn:Hb; [|done]. simplify_eq.
  apply build_spec in Hb as (Hc & Hne & ->); [|done].
  assert (Forall good (kept_rules (operations e)) ∧ Forall (λ o, isOperationBlank o = false) (kept_rules (operations e))) as [Hg' Hnb].
  { split; apply list.Forall_forall; intros o Hin; apply list_elem_of_In, filter_In in Hin as [Hin Hb].
    - rewrite list.Forall_forall in Hg. apply Hg. by apply list_elem_of_In.
    - by apply negb_true_iff. }
  revert Hc Hne Hg' Hnb Ht. generalize (kept_rules (operations e)). intros kept Hc Hne Hg' Hnb Ht.
  set (items := map operation_payload kept) in *.
  assert (items ≠ []) as Hi by (by destruct kept).
  assert (Forall storable items ∧ Forall rule_value items) as [Hst Hr].
  { split; apply List.Forall_map; (eapply list.Forall_impl; [exact Hg'|]); [apply storable_operation|apply payload_rule_value]. }
  destruct (operations_text_read items Hi Hst) as (Htrim & _ & Hparse).
  assert (parseInitialState clock (operations_text items) n
          = Some (mkEditor visual operations_mode [] (operations_from clock n items) (operations_text items) no_note,
                  after_operations n items)) as Hinit.
  { unfold parseInitialState. rewrite Htrim, Ht. cbn [negb]. rewrite Hparse. cbn [field_get]. rewrite jeqb_refl.
    by rewrite (bind_run _ _ _ _ _ (operations_of_run clock items n Hi Hr)). }
  unfold Dialog.open_dialog. rewrite (bind_run _ _ _ _ _ Hinit). eexists _, _. split; [reflexivity|].
  unfold Dialog.ops. cbn [Dialog.editor operations]. split; [by apply erase_operations|].
  unfold Dialog.save_result, Dialog.buildVisualJson. cbn [editMode visualMode operations].
  subst items. by rewrite (build_settled _ kept (erase_operations clock n kept Hg') Hne Hg' Hc Hnb).
Qed.

Definition example_rule : ParamOverrideOperation :=
  mkOperation (js "x") (js " Pin the temperature ") (js "temperature") (js "set") [] [] (js "0.7") true (js "AND")
    [mkCondition (js "y") (js "model ") (js "prefix") (js "openai/") false true; mkCondition (js "z") [] (js "full") [] false false].

Lemma saved_rules_read_back_witness :
  ∃ text d' n', Dialog.save_result (mkEditor visual operations_mode [] [example_rule] [] no_note) = inl text
    ∧ Dialog.open_dialog id text example_dialog 0%N = Some (d', n') ∧ Dialog.save_result (Dialog.editor d') = inl text.
Proof.
  assert (∃ text, Dialog.save_result (mkEditor visual operations_mode [] [example_rule] [] no_note) = inl text ∧ truthy text = true)
    as (text & Hs & Ht) by (eexists; split; by vm_compute).
  destruct (saved_rules_read_back id (mkEditor visual operations_mode [] [example_rule] [] no_note) text example_dialog 0%N)
    as (d' & n' & H1 & _ & H2); [done|done| |exact Hs|exact Ht|by exists text, d', n'].
  apply list.Forall_singleton. split_and!; [by apply (bool_decide_unpack _); vm_compute|by apply unitsb_true; vm_compute..| |].
  - by apply storableb_true; vm_compute.
  - repeat (apply list.Forall_cons; split; [split_and!; [by apply (bool_decide_unpack _); vm_compute|by apply unitsb_true; vm_compute|by apply unitsb_true; vm_compute]|]).
    constructor.
Defined.

(** ** The first wrong rule *)

Lemma validate_some line ops l p : validate_from line ops = Some (l, p) ↔
  ∃ pre o post, ops = pre ++ o :: post ∧ Forall (λ o, check_operation o = None) pre ∧ check_operation o = Some p
                ∧ l = (line + length pre)%nat.
Proof.
  revert line. induction ops as [|o ops IH]; intros line; cbn [validate_from].
  { split; [done|]. by intros ([] & ? & ? & ? & _). }
  destruct (check_operation o) as [q|] eqn:E.
  - split.
    + intros [= <- <-]. exists [], o, ops. split_and!; [done|constructor|done|]. cbn [length]. lia.
    + intros ([|x pre] & o' & post & Heq & Hpre & Ho & ->); cbn [app] in Heq.
      * apply cons_eq in Heq as [<- _]. rewrite E in Ho. simplify_eq. cbn [length]. do 2 f_equal. lia.
      * apply cons_eq in Heq as [<- _]. apply list.Forall_cons in Hpre as [Hx _]. congruence.
  - rewrite IH. split.
    + intros (pre & o' & post & -> & Hpre & Ho & ->). exists (o :: pre), o', post. split_and!; [done|by constructor|done|]. cbn [length]. lia.
    + intros ([|x pre] & o' & post & Heq & Hpre & Ho & ->); cbn [app] in Heq; apply cons_eq in Heq as [<- ->]; [congruence|].
      apply list.Forall_cons in Hpre as [_ Hpre]. exists pre, o', post. split_and!; [done..|]. cbn [length]. lia.
Qed.

(** The editor refuses to build a text exactly if a rule that is not blank is
    wrong, and then reports the first one, what is wrong with it and its number
    among the rules that are not blank. *)
Theorem first_wrong_rule_reported ops line p :
  buildOperationsJson ops true = inr (line, p)
  ↔ ∃ pre o post, kept_rules ops = pre ++ o :: post ∧ Forall (λ o, check_operation o = None) pre
                  ∧ check_operation o = Some p ∧ line = S (length pre).
Proof.
  unfold buildOperationsJson. fold (kept_rules ops).
  assert (validateOperations (kept_rules ops) = Some (line, p) ↔ ∃ pre o post, kept_rules ops = pre ++ o :: post
            ∧ Forall (λ o, check_operation o = None) pre ∧ check_operation o = Some p ∧ line = S (length pre)) as <- by apply validate_some.
  destruct (kept_rules ops) as [|o l]; [done|]. cbn [length Nat.eqb].
  destruct (validateOperations (o :: l)) as [[line' p']|]; [|done]. naive_solver.
Qed.

(** Blank rules are shown with a number too: the second rule is reported as rule 1. *)
Example blank_rules_are_not_counted :
  let blank := mkOperation (js "a") [] [] (js "set") [] [] [] false (js "OR") [] in
  let wrong := mkOperation (js "b") [] [] (js "delete") [] [] [] false (js "OR") [] in
  buildOperationsJson [blank; wrong] true = inr (1%nat, MissingTargetPath).
Proof. by vm_compute. Qed.
