(* ===== verification/QuotaForms.v ===== *)
(** * Forms with quotas

    Models [features/keys/lib/api-key-form.ts],
    [features/redemption-codes/lib/redemption-form.ts] and
    [features/subscriptions/lib/plan-form.ts]: the values a form shows for a
    stored object and the payload it sends back.

    A time is a number of seconds, or of milliseconds in a [Date]; both are
    integers that doubles hold exactly.  Of the schemas, which rest on zod, the
    refinement of the API key form is modelled. *)

From stdpp Require Import sorting.
From S2P Require Import Prelude StableSort JsValue JsCollections Currency.
Import Currency.

(** [s || ''] of a string that may be missing. *)
Definition text_or_empty (s : option jstr) : jstr := default [] s.

(** [n || d] *)
Definition num_or (d : jsnum) (n : option jsnum) : jsnum :=
  match n with Some n => if num_truthy n then n else d | None => d end.

(** ** API keys *)

Module ApiKeyForm.

Definition DEFAULT_GROUP : jstr := [].

(** The fields of a stored key that the form reads. *)
Record ApiKey := mkApiKey {
  key_name : jstr; remain_quota : jsnum; expired_time : Z; unlimited_quota : bool;
  model_limits_enabled : bool; model_limits : option jstr; allow_ips : option jstr;
  key_group : option jstr; auto_groups : option (list jstr); cross_group_retry : bool }.

Inductive AutoGroupsMode := mode_inherit | mode_custom.
#[export] Instance AutoGroupsMode_eq_dec : EqDecision AutoGroupsMode.
Proof. solve_decision. Defined.

(** A date is its time value. *)
Record ApiKeyFormValues := mkValues {
  f_name : jstr; f_remain_quota_dollars : option jsnum; f_expired_time : option Z;
  f_unlimited_quota : bool; f_model_limits : list jstr; f_allow_ips : option jstr;
  f_group : option jstr; f_auto_groups_mode : AutoGroupsMode; f_auto_groups : list jstr;
  f_cross_group_retry : option bool; f_tokenCount : option jsnum }.

Record ApiKeyFormData := mkData {
  d_name : jstr; d_remain_quota : jsnum; d_expired_time : Z; d_unlimited_quota : bool;
  d_model_limits_enabled : bool; d_model_limits : jstr; d_allow_ips : jstr; d_group : jstr;
  d_auto_groups : list jstr; d_cross_group_retry : bool }.

Definition API_KEY_FORM_DEFAULT_VALUES : ApiKeyFormValues :=
  mkValues [] (Some (num_of_Z 10)) None true [] (Some []) (Some DEFAULT_GROUP) mode_inherit []
    (Some true) (Some (num_of_Z 1)).

Definition getApiKeyFormDefaultValues (defaultUseAutoGroup : bool) : ApiKeyFormValues :=
  mkValues [] (Some (num_of_Z 10)) None true [] (Some [])
    (Some (if defaultUseAutoGroup then js "auto" else DEFAULT_GROUP)) mode_inherit []
    (Some defaultUseAutoGroup) (Some (num_of_Z 1)).

(** *** Validation *)

Inductive Issue := select_one | select_at_most (max : Z) | no_duplicates | quota_not_negative.

Definition auto_limit (maxAutoGroups : Z) : Z := if 0 <? maxAutoGroups then maxAutoGroups else 5.

Definition is_auto (group : option jstr) : bool := default [] group === js "auto".

(** [superRefine] of [getApiKeyFormSchema]. *)
Definition getApiKeyFormSchema (maxAutoGroups : Z) (data : ApiKeyFormValues) : list Issue :=
  (if is_auto (f_group data)
   then (if bool_decide (f_auto_groups_mode data = mode_custom) && bool_decide (f_auto_groups data = [])
         then [select_one] else [])
        ++ (if auto_limit maxAutoGroups <? Z.of_nat (length (f_auto_groups data))
            then [select_at_most (auto_limit maxAutoGroups)] else [])
        ++ (if bool_decide (length (dedup (f_auto_groups data)) = length (f_auto_groups data))
            then [] else [no_duplicates])
   else [])
  ++ (if f_unlimited_quota data then []
      else match f_remain_quota_dollars data with
           | None => [quota_not_negative]
           | Some n => if num_ltb n zero then [quota_not_negative] else []
           end).

(** *** Between key and form *)

Section config.
Context (stored : option CurrencyConfig).

Definition transformFormDataToPayload (data : ApiKeyFormValues) : ApiKeyFormData :=
  mkData (f_name data)
    (if f_unlimited_quota data then zero
     else parseQuotaFromDollars stored (num_or zero (f_remain_quota_dollars data)))
    (match f_expired_time data with Some ms => ms / 1000 | None => -1 end)
    (f_unlimited_quota data)
    (negb (bool_decide (f_model_limits data = [])))
    (join (js ",") (f_model_limits data))
    (text_or_empty (f_allow_ips data)) (text_or_empty (f_group data))
    (if is_auto (f_group data) && bool_decide (f_auto_groups_mode data = mode_custom)
     then f_auto_groups data else [])
    (if is_auto (f_group data) then default false (f_cross_group_retry data) else false).

Definition transformApiKeyToFormDefaults (apiKey : ApiKey) (availableAutoGroups : list jstr)
    (maxAutoGroups : Z) : ApiKeyFormValues :=
  let storedAutoGroups := default [] (auto_groups apiKey) in
  let groups := take (Z.to_nat (Z.max 0 maxAutoGroups))
                  (filter (λ g, has g availableAutoGroups = true) storedAutoGroups) in
  mkValues (key_name apiKey)
    (Some (if unlimited_quota apiKey then zero else quotaUnitsToDollars stored (remain_quota apiKey)))
    (if 0 <? expired_time apiKey then Some (expired_time apiKey * 1000) else None)
    (unlimited_quota apiKey)
    (match model_limits apiKey with
     | None | Some [] => []
     | Some s => filter_truthy (split1 44 s)
     end)
    (Some (text_or_empty (allow_ips apiKey)))
    (Some (or_else (default [] (key_group apiKey)) DEFAULT_GROUP))
    (match storedAutoGroups with [] => mode_inherit | _ => mode_custom end)
    groups (Some (cross_group_retry apiKey)) (Some (num_of_Z 1)).
End config.
End ApiKeyForm.

(** ** Redemption codes *)

Module RedemptionForm.

(** The fields of a stored code that the form reads. *)
Record Redemption := mkRedemption { red_name : jstr; red_quota : jsnum; red_expired_time : Z }.
Record RedemptionFormValues := mkRedValues {
  rf_name : jstr; quota_dollars : jsnum; rf_expired_time : option Z; rf_count : option jsnum }.
Record RedemptionFormData := mkRedData {
  rd_name : jstr; rd_quota : jsnum; rd_expired_time : Z; rd_count : jsnum }.

Definition REDEMPTION_FORM_DEFAULT_VALUES : RedemptionFormValues :=
  mkRedValues [] (num_of_Z 10) None (Some (num_of_Z 1)).

Section config.
Context (stored : option CurrencyConfig).

Definition redemptionToPayload (data : RedemptionFormValues) : RedemptionFormData :=
  mkRedData (rf_name data) (parseQuotaFromDollars stored (quota_dollars data))
    (match rf_expired_time data with Some ms => ms / 1000 | None => 0 end)
    (num_or (num_of_Z 1) (rf_count data)).

Definition transformRedemptionToFormDefaults (redemption : Redemption) : RedemptionFormValues :=
  mkRedValues (red_name redemption) (quotaUnitsToEditableAmount stored (red_quota redemption))
    (if 0 <? red_expired_time redemption then Some (red_expired_time redemption * 1000) else None)
    (Some (num_of_Z 1)).

(** [onSubmit] of the drawer in update mode: the quota of the form counts only
    if its field was edited. *)
Definition submitUpdate (loaded : Redemption) (dirty : bool) (data : RedemptionFormValues) : RedemptionFormData :=
  let base := redemptionToPayload data in
  mkRedData (rd_name base) (if dirty then rd_quota base else red_quota loaded) (rd_expired_time base) (rd_count base).
End config.
End RedemptionForm.

(** ** Subscription plans *)

Module PlanForm.

Inductive DurationUnit := unit_year | unit_month | unit_day | unit_hour | unit_custom.
Inductive ResetPeriod := reset_never | reset_daily | reset_weekly | reset_monthly | reset_custom.
#[export] Instance ResetPeriod_eq_dec : EqDecision ResetPeriod.
Proof. solve_decision. Defined.

(** The fields of a stored plan, less its id; form values and payload have the
    same ones. *)
Record SubscriptionPlan := mkPlan {
  title : jstr; subtitle : option jstr; price_amount : jsnum; currency_code : jstr;
  duration_unit : DurationUnit; duration_value : jsnum; custom_seconds : option jsnum;
  quota_reset_period : ResetPeriod; quota_reset_custom_seconds : option jsnum; enabled : bool;
  sort_order : jsnum; allow_balance_pay : option bool; allow_wallet_overflow : option bool;
  max_purchase_per_user : jsnum; total_amount : jsnum; upgrade_group : option jstr;
  downgrade_group : option jstr; stripe_price_id : option jstr; creem_product_id : option jstr;
  waffo_pancake_product_id : option jstr }.

Definition PLAN_FORM_DEFAULTS : SubscriptionPlan :=
  mkPlan [] (Some []) zero [] unit_month (num_of_Z 1) (Some zero) reset_never (Some zero) true zero
    (Some true) (Some true) zero zero (Some []) (Some []) (Some []) (Some []) (Some []).

Section config.
Context (stored : option CurrencyConfig).

Definition some_text (s : option jstr) : option jstr := Some (text_or_empty s).

(** The form values; they have no currency, which is empty here. *)
Definition planToFormValues (plan : SubscriptionPlan) : SubscriptionPlan :=
  mkPlan (title plan) (some_text (subtitle plan)) (num_or zero (Some (price_amount plan))) []
    (duration_unit plan) (num_or (num_of_Z 1) (Some (duration_value plan)))
    (Some (num_or zero (custom_seconds plan))) (quota_reset_period plan)
    (Some (num_or zero (quota_reset_custom_seconds plan))) (enabled plan)
    (num_or zero (Some (sort_order plan))) (Some (default true (allow_balance_pay plan)))
    (Some (default true (allow_wallet_overflow plan))) (num_or zero (Some (max_purchase_per_user plan)))
    (quotaUnitsToDollars stored (num_or zero (Some (total_amount plan))))
    (some_text (upgrade_group plan)) (some_text (downgrade_group plan)) (some_text (stripe_price_id plan))
    (some_text (creem_product_id plan)) (some_text (waffo_pancake_product_id plan)).

Definition formValuesToPlanPayload (values : SubscriptionPlan) : SubscriptionPlan :=
  mkPlan (title values) (subtitle values) (num_or zero (Some (price_amount values))) (js "USD")
    (duration_unit values) (num_or zero (Some (duration_value values)))
    (Some (num_or zero (custom_seconds values))) (quota_reset_period values)
    (Some (if bool_decide (quota_reset_period values = reset_custom)
           then num_or zero (quota_reset_custom_seconds values) else zero))
    (enabled values) (num_or zero (Some (sort_order values))) (allow_balance_pay values)
    (allow_wallet_overflow values) (num_or zero (Some (max_purchase_per_user values)))
    (parseQuotaFromDollars stored (num_or zero (Some (total_amount values))))
    (some_text (upgrade_group values)) (some_text (downgrade_group values))
    (stripe_price_id values) (creem_product_id values) (waffo_pancake_product_id values).
End config.
End PlanForm.
