(* ===== verification/QuotaFormsFacts.v ===== *)
(** * Quotas through the forms

    A quota shown in the displayed currency and read back is the quota, although
    both directions round to doubles; so an edit that changes nothing keeps an
    API key and a plan.  With this, the bounds of the configuration and of the
    colors of names. *)

From stdpp Require Import sorting.
From S2P Require Import Prelude StableSort JsValue NumFacts JsCollections FloatError Currency QuotaForms.
Import Currency.

(** ** Quota units, to the displayed amount and back *)

(** A positive normal double between 2^-98 and 2^203. *)
Definition moderate (x : jsnum) : bool :=
  match x with
  | S754_finite false m e => (Zpos (digits2_pos m) =? 53) && (-150 <=? e) && (e <=? 150)
  | _ => false
  end.

Definition moderate_config (stored : option CurrencyConfig) : bool :=
  let c := getConfig stored in
  moderate (quotaPerUnit c) && moderate (usdExchangeRate c) && moderate (customCurrencyExchangeRate c).

Lemma moderate_normal x : moderate x = true → ∃ v, normal (-150) 150 x v.
Proof.
  destruct x as [|[]| |[] m e]; unfold moderate; try done. intros [[Hd%Z.eqb_eq He]%andb_prop He']%andb_prop.
  exists (sv m e), m, e. split_and!; [done|done|lia..|done].
Qed.

Lemma num_1_moderate : moderate (num_of_Z 1) = true.
Proof. reflexivity. Qed.

Lemma moderate_positive x : moderate x = true → num_ltb zero x = true.
Proof. by destruct x as [|[]| |[] m e]. Qed.

Lemma normal_finite lo hi x v : normal lo hi x v → isFinite x = true ∧ num_truthy x = true.
Proof. intros (m & e & -> & _). done. Qed.

Lemma zero_amount q r : moderate q = true → moderate r = true →
  num_mul (num_div zero q) r = zero ∧ num_mul (num_div zero r) q = zero.
Proof. destruct q as [|[]| |[] m e], r as [|[]| |[] m' e']; done. Qed.

(** The amount of a positive quota. *)
Lemma amount_normal n q r : 1 ≤ n ≤ 2 ^ 48 → moderate q = true → moderate r = true →
  ∃ lo hi v, normal lo hi (num_mul (num_div (num_of_Z n) q) r) v.
Proof.
  intros Hn [vq Hq]%moderate_normal [vr Hr]%moderate_normal.
  destruct (div_close _ _ _ _ _ _ _ _ (integer_normal n ltac:(lia)) Hq) as (u1 & N1 & _); [lia..|].
  destruct (mul_close _ _ _ _ _ _ _ _ N1 Hr) as (u2 & N2 & _); [lia..|]. eauto.
Qed.

Lemma convert_back n q r : 0 ≤ n ≤ 2 ^ 48 → moderate q = true → moderate r = true →
  let amount := num_mul (num_div (num_of_Z n) q) r in
  isFinite amount = true ∧ num_or zero (Some amount) = amount
  ∧ num_round (num_mul (num_div amount r) q) = num_of_Z n.
Proof.
  intros Hn Hq Hr. destruct (decide (n = 0)) as [->|Hne].
  - change (num_of_Z 0) with zero. destruct (zero_amount q r Hq Hr) as [Ha Hb]. cbv zeta.
    by rewrite Ha, Hb.
  - destruct (amount_normal n q r ltac:(lia) Hq Hr) as (lo & hi & v & Hv).
    destruct (normal_finite _ _ _ _ Hv) as [Hf Ht]. split_and!; [done| |].
    + unfold num_or. by rewrite Ht.
    + apply moderate_normal in Hq as [vq Hq]. apply moderate_normal in Hr as [vr Hr].
      apply (convert_and_back n q r vq vr); [lia|done..].
Qed.

(** An integer is finite and its own rounding. *)
Lemma integer_rounds n : 0 ≤ n ≤ 2 ^ 48 →
  isFinite (num_of_Z n) = true ∧ num_or zero (Some (num_of_Z n)) = num_of_Z n ∧ num_round (num_of_Z n) = num_of_Z n.
Proof.
  intros Hn. destruct (decide (n = 0)) as [->|Hne]; [done|].
  pose proof (integer_normal n ltac:(lia)) as Hv. destruct (normal_finite _ _ _ _ Hv) as [Hf Ht].
  split_and!; [done|unfold num_or; by rewrite Ht|].
  apply (round_near _ _ _ _ _ Hv); [lia..|]. pose proof scale_pos. rewrite Z.sub_diag. simpl. lia.
Qed.

Section units.
Context (stored : option CurrencyConfig) (n : Z).
Context (Hconfig : moderate_config stored = true) (Hn : 0 ≤ n ≤ 2 ^ 48).

Lemma units_amount :
  let amount := quotaUnitsToDollars stored (num_of_Z n) in
  isFinite amount = true ∧ num_or zero (Some amount) = amount
  ∧ parseQuotaFromDollars stored amount = num_of_Z n.
Proof.
  unfold moderate_config in Hconfig. apply andb_prop in Hconfig as [[Hq Hu]%andb_prop Hc].
  unfold parseQuotaFromDollars, quotaUnitsToDollars, getCurrencyDisplay, getDisplayMeta, usd_meta.
  destruct (quotaDisplayType (getConfig stored)); cbn [quotaUnitsToDisplayAmount].
  - destruct (convert_back n _ _ Hn Hq num_1_moderate) as (Hf & Ho & Hb). cbv zeta.
    rewrite Hf. cbn [negb]. by rewrite (moderate_positive _ num_1_moderate).
  - destruct (convert_back n _ _ Hn Hq Hu) as (Hf & Ho & Hb). cbv zeta.
    rewrite Hf. cbn [negb]. by rewrite (moderate_positive _ Hu).
  - destruct (integer_rounds n Hn) as (Hf & Ho & Hr). cbv zeta. by rewrite Hf.
  - destruct (convert_back n _ _ Hn Hq Hc) as (Hf & Ho & Hb). cbv zeta.
    rewrite Hf. cbn [negb]. by rewrite (moderate_positive _ Hc).
Qed.
End units.

(** [C33] A quota of at most 2^48 units, shown as an amount of the displayed
    currency and read back, is the same number of units: the four roundings of
    the way there and back never add up to half a unit, whatever the exchange
    rates, as long as they are between 2^-98 and 2^203. *)
Theorem quota_round_trip stored n :
  moderate_config stored = true → 0 ≤ n ≤ 2 ^ 48 →
  parseQuotaFromDollars stored (quotaUnitsToDollars stored (num_of_Z n)) = num_of_Z n.
Proof. intros Hc Hn. apply (units_amount stored n Hc Hn). Qed.

(** Units per dollar and rate of a configuration in use. *)
Definition cny_config : CurrencyConfig :=
  mkCurrency true CNY (num_of_Z 500000) (num_of_dec false 73 (-1)) [] (num_of_Z 1).

Lemma quota_round_trip_witness :
  parseQuotaFromDollars (Some cny_config) (quotaUnitsToDollars (Some cny_config) (num_of_Z 1234567)) = num_of_Z 1234567.
Proof. apply quota_round_trip; [vm_compute; reflexivity|lia]. Defined.

(** The amount of the editable field has two or four decimals: it is not the
    quota any more, and saving it would change the quota.  The drawer of the
    redemption codes keeps the loaded quota unless the field was edited. *)
Example editable_amount_is_rounded :
  parseQuotaFromDollars None (quotaUnitsToEditableAmount None (num_of_Z 1234567)) = num_of_Z 1235000.
Proof. vm_compute. reflexivity. Qed.

(** ** Editing an API key *)

Module KeyEdit.
Import ApiKeyForm.

(** The payload that stores what the key already holds. *)
Definition stored_payload (k : ApiKey) : ApiKeyFormData :=
  mkData (key_name k) (if unlimited_quota k then zero else remain_quota k) (expired_time k) (unlimited_quota k)
    (model_limits_enabled k) (default [] (model_limits k)) (default [] (allow_ips k)) (default [] (key_group k))
    (default [] (auto_groups k)) (cross_group_retry k).

Definition model_pieces (k : ApiKey) : list jstr := split1 44 (default [] (model_limits k)).

(** A key whose settings the form can show: a time of expiry that is a valid
    date or -1, models separated by single commas and enabled, groups of the
    automatic choice only on keys that use it, available and not too many. *)
Record editable (k : ApiKey) (available : list jstr) (maxAutoGroups : Z) : Prop := {
  ed_quota : unlimited_quota k = false → ∃ n, 0 ≤ n ≤ 2 ^ 48 ∧ remain_quota k = num_of_Z n;
  ed_expiry : expired_time k = -1 ∨ 0 < expired_time k ≤ 8640000000000;
  ed_models : model_limits_enabled k = truthy (default [] (model_limits k))
              ∧ (model_limits_enabled k = true → [] ∉ model_pieces k);
  ed_groups : is_auto (key_group k) = true →
              default [] (auto_groups k) ⊆ available ∧ Z.of_nat (length (default [] (auto_groups k))) ≤ maxAutoGroups;
  ed_manual : is_auto (key_group k) = false → default [] (auto_groups k) = [] ∧ cross_group_retry k = false }.

Lemma all_truthy (l : list jstr) : [] ∉ l → filter_truthy l = l.
Proof.
  unfold filter_truthy. induction l as [|w l IH]; [done|]. intros Hni.
  rewrite filter_cons_True by (intros ->; apply Hni; left). by rewrite IH by (intros ?; apply Hni; by right).
Qed.

Lemma shown_models k : model_limits_enabled k = truthy (default [] (model_limits k)) →
  (model_limits_enabled k = true → [] ∉ model_pieces k) →
  let shown := match model_limits k with None | Some [] => [] | Some s => filter_truthy (split1 44 s) end in
  negb (bool_decide (shown = [])) = model_limits_enabled k ∧ join (js ",") shown = default [] (model_limits k).
Proof.
  intros He Hp. unfold model_pieces in *. destruct (model_limits k) as [[|c s]|]; cbn [default from_option] in *; unfold id in *; [by rewrite He| |by rewrite He].
  assert (model_limits_enabled k = true) as Ht by (by rewrite He). cbv zeta. rewrite (all_truthy _ (Hp Ht)). split.
  - rewrite Ht. apply negb_true_iff, bool_decide_eq_false. apply split1_nonempty.
  - change (js ",") with [44%N]. apply join_split1.
Qed.

Lemma kept_groups (l available : list jstr) m : l ⊆ available → Z.of_nat (length l) ≤ m →
  take (Z.to_nat (Z.max 0 m)) (filter (λ g, has g available = true) l) = l.
Proof.
  intros Hsub Hlen. assert (filter (λ g, has g available = true) l = l) as ->.
  { clear Hlen. induction l as [|g l IH]; [done|]. rewrite filter_cons_True.
    - f_equal. apply IH. intros x Hx. apply Hsub. by right.
    - apply has_true, Hsub. left. }
  apply take_ge. lia.
Qed.

Lemma group_shown (g : option jstr) : or_else (default [] g) DEFAULT_GROUP = default [] g.
Proof. by destruct g as [[]|]. Qed.

(** Opening an API key in the edit form and saving it unchanged sends what
    the key holds: the name, the quota to the unit in whatever currency is
    displayed, the time of expiry, the models, addresses, group and groups of
    the automatic choice. *)
Theorem key_edit_keeps_settings stored k available maxAutoGroups :
  moderate_config stored = true → editable k available maxAutoGroups →
  transformFormDataToPayload stored (transformApiKeyToFormDefaults stored k available maxAutoGroups)
  = stored_payload k.
Proof.
  intros Hc [Hq Hx [Hm Hp] Hg Hman].
  unfold transformFormDataToPayload, transformApiKeyToFormDefaults, stored_payload.
  cbn [f_name f_remain_quota_dollars f_expired_time f_unlimited_quota f_model_limits f_allow_ips f_group
       f_auto_groups_mode f_auto_groups f_cross_group_retry default from_option].
  destruct (shown_models k Hm Hp) as [Hen Hjoin]. cbv zeta in Hen, Hjoin. rewrite Hen, Hjoin, group_shown.
  unfold is_auto in *. cbn [default from_option] in *. unfold text_or_empty. cbn [default from_option].
  change (id (default [] (key_group k))) with (default [] (key_group k)). f_equal.
  - destruct (unlimited_quota k); [done|]. destruct (Hq eq_refl) as (n & Hn & ->).
    destruct (units_amount stored n Hc Hn) as (_ & Ho & Hb). by rewrite Ho.
  - destruct Hx as [Hx|Hx]; [by rewrite Hx|]. rewrite (proj2 (Z.ltb_lt _ _)) by lia. by rewrite Z.div_mul.
  - destruct (default [] (key_group k) === js "auto").
    + destruct (Hg eq_refl) as [Hsub Hlen]. rewrite kept_groups by done.
      by destruct (auto_groups k) as [[]|].
    + by destruct (Hman eq_refl) as [-> _].
  - destruct (default [] (key_group k) === js "auto"); [done|]. by destruct (Hman eq_refl) as [_ ->].
Qed.

Definition sample_key : ApiKey :=
  mkApiKey (js "team") (num_of_Z 333333) 1767225599 false true (Some (js "gpt-4o,o3")) None
    (Some (js "auto")) (Some [js "vip"; js "free"]) true.

Lemma sample_editable : editable sample_key [js "free"; js "vip"] 5.
Proof.
  split.
  - intros _. exists 333333. split; [lia|done].
  - right. cbn. lia.
  - split; [done|]. intros _. by apply (bool_decide_unpack _); vm_compute.
  - intros _. split; [|cbn; lia]. intros x Hx. unfold sample_key in Hx. cbn [auto_groups default from_option] in Hx.
    apply elem_of_cons in Hx as [->|Hx]; [right; left|]. apply list_elem_of_singleton in Hx as ->. left.
  - by intros ?.
Qed.

Lemma key_edit_keeps_settings_witness :
  transformFormDataToPayload (Some cny_config)
    (transformApiKeyToFormDefaults (Some cny_config) sample_key [js "free"; js "vip"] 5)
  = stored_payload sample_key.
Proof. apply key_edit_keeps_settings; [vm_compute; reflexivity|exact sample_editable]. Defined.

(** A key with stored models whose limit is switched off comes back from an
    unchanged edit with the limit on. *)
Example edit_enables_model_limits :
  let k := mkApiKey (js "k") zero (-1) true false (Some (js "o3")) None None None false in
  d_model_limits_enabled (transformFormDataToPayload None (transformApiKeyToFormDefaults None k [] 5)) = true.
Proof. vm_compute. reflexivity. Qed.

End KeyEdit.

(** ** Editing a plan *)

Module PlanEdit.
Import PlanForm.

Definition save (stored : option CurrencyConfig) (plan : SubscriptionPlan) : SubscriptionPlan :=
  formValuesToPlanPayload stored (planToFormValues stored plan).

Lemma num_or_twice d n : num_truthy d = true ∨ d = zero → num_or d (Some (num_or d n)) = num_or d n.
Proof.
  intros Hd. assert (num_or d (Some d) = d) as Hdd by (unfold num_or; destruct Hd as [-> | ->]; done).
  destruct n as [n|]; [|done]. unfold num_or at 2 3. destruct (num_truthy n) eqn:E; [|done].
  unfold num_or. by rewrite E.
Qed.

Lemma num_or_kept d n : num_truthy d = true → num_or zero (Some (num_or d (Some n))) = num_or d (Some n).
Proof. intros Hd. unfold num_or. destruct (num_truthy n) eqn:E; [by rewrite E|by rewrite Hd]. Qed.

Lemma save_amount stored n : moderate_config stored = true → 0 ≤ n ≤ 2 ^ 48 →
  parseQuotaFromDollars stored
    (num_or zero (Some (quotaUnitsToDollars stored (num_or zero (Some (num_of_Z n)))))) = num_of_Z n.
Proof.
  intros Hc Hn. destruct (integer_rounds n Hn) as (_ & -> & _).
  by destruct (units_amount stored n Hc Hn) as (_ & -> & ->).
Qed.

(** Saving a subscription plan from an unchanged form is idempotent and
    keeps its amount to the unit: the first save may replace missing texts by
    empty ones, a duration of 0 by 1, the currency by USD and the seconds of a
    reset that is not custom by 0; every later one changes nothing. *)
Theorem plan_edit_is_idempotent stored plan n :
  moderate_config stored = true → total_amount plan = num_of_Z n → 0 ≤ n ≤ 2 ^ 48 →
  save stored (save stored plan) = save stored plan ∧ total_amount (save stored plan) = total_amount plan.
Proof.
  intros Hc Ht Hn. assert (total_amount (save stored plan) = num_of_Z n) as Hs.
  { unfold save, formValuesToPlanPayload, planToFormValues. cbn [total_amount]. rewrite Ht. by apply save_amount. }
  split; [|by rewrite Hs, Ht]. unfold save, formValuesToPlanPayload, planToFormValues.
  cbn [title subtitle price_amount duration_unit duration_value custom_seconds quota_reset_period
       quota_reset_custom_seconds enabled sort_order allow_balance_pay allow_wallet_overflow max_purchase_per_user
       total_amount upgrade_group downgrade_group stripe_price_id creem_product_id waffo_pancake_product_id].
  rewrite Ht, !(save_amount stored n Hc Hn).
  rewrite !(num_or_kept (num_of_Z 1)) by done. unfold some_text, text_or_empty. cbn [default from_option].
  rewrite !(num_or_twice zero) by (by right). f_equal; try done.
  1: by rewrite (num_or_twice (num_of_Z 1)) by (by left).
  destruct (bool_decide _); [by rewrite (num_or_twice zero) by (by right)|done].
Qed.

Definition sample_plan : SubscriptionPlan :=
  mkPlan (js "Pro") None (num_of_dec false 999 (-2)) (js "EUR") unit_month zero None reset_daily
    (Some (num_of_Z 60)) true (num_of_Z 1) None (Some false) zero (num_of_Z 777777) None (Some (js "free")) None None None.

Lemma plan_edit_is_idempotent_witness :
  save (Some cny_config) (save (Some cny_config) sample_plan) = save (Some cny_config) sample_plan
  ∧ total_amount (save (Some cny_config) sample_plan) = num_of_Z 777777.
Proof. apply (plan_edit_is_idempotent (Some cny_config) sample_plan 777777); [vm_compute; reflexivity|reflexivity|lia]. Defined.

End PlanEdit.

(** ** The configuration *)

Lemma positive_or_positive fallback n : num_ltb zero fallback = true → num_ltb zero (positive_or fallback n) = true.
Proof. intros Hf. unfold positive_or. by destruct (num_truthy n), (num_ltb zero n) eqn:E. Qed.

Lemma positive_or_kept fallback n : num_ltb zero n = true → positive_or fallback n = n.
Proof. unfold positive_or. intros Hn. rewrite Hn. by destruct n as [|[]| |[]]. Qed.

(** Whatever the store holds, the configuration the displays work with has
    positive units per dollar and positive rates, so no conversion divides by
    zero or changes a sign, and a currency symbol; normalizing it again changes
    nothing. *)
Theorem config_is_usable stored :
  let c := getConfig stored in
  num_ltb zero (quotaPerUnit c) = true ∧ num_ltb zero (usdExchangeRate c) = true
  ∧ num_ltb zero (customCurrencyExchangeRate c) = true ∧ customCurrencySymbol c ≠ []
  ∧ getConfig (Some c) = c.
Proof.
  unfold getConfig. set (c := default DEFAULT_CURRENCY_CONFIG stored). cbv zeta.
  cbn [quotaPerUnit usdExchangeRate customCurrencyExchangeRate customCurrencySymbol displayInCurrency quotaDisplayType].
  split_and!; [by apply positive_or_positive..| |].
  - by destruct (trim (customCurrencySymbol c)).
  - cbn [default from_option id quotaPerUnit usdExchangeRate customCurrencyExchangeRate customCurrencySymbol
         displayInCurrency quotaDisplayType].
    rewrite !(positive_or_kept _ (positive_or _ _)) by (by apply positive_or_positive).
    f_equal. destruct (trim (customCurrencySymbol c)) as [|x s] eqn:E; [done|].
    change (or_else (x :: s) (customCurrencySymbol DEFAULT_CURRENCY_CONFIG)) with (x :: s). by rewrite <-E, trim_idemp, E.
Qed.

Definition with_type (t : CurrencyDisplayType) (c : CurrencyConfig) : CurrencyConfig :=
  mkCurrency (displayInCurrency c) t (quotaPerUnit c) (usdExchangeRate c) (customCurrencySymbol c)
    (customCurrencyExchangeRate c).

(** Prices and payments are never shown in tokens: where the display is in
    tokens, the billing formats write what they write for US dollars. *)
Theorem billing_is_in_money intl c amount options :
  formatBillingCurrencyFromUSD intl (Some (with_type TOKENS c)) amount options
  = formatBillingCurrencyFromUSD intl (Some (with_type USD c)) amount options
  ∧ formatLocalCurrencyAmount intl (Some (with_type TOKENS c)) amount options
    = formatLocalCurrencyAmount intl (Some (with_type USD c)) amount options.
Proof. by destruct amount as [[]|]. Qed.

(** The examples of the source's comments for tokens and for a currency of one's
    own: the code writes 5000k, and a space after the symbol. *)
Example tokens_are_abbreviated intl :
  formatCurrencyFromUSD intl (Some (with_type TOKENS DEFAULT_CURRENCY_CONFIG)) (Some (num_of_Z 10)) None = js "5000k".
Proof. vm_compute. reflexivity. Qed.

Example custom_symbol_has_a_space intl :
  let c := mkCurrency true CUSTOM (num_of_Z 500000) (num_of_Z 1) (js "E") (num_of_dec false 9 (-1)) in
  formatCurrencyFromUSD intl (Some c) (Some (num_of_Z 10)) None
  = js "E " ++ intl (mkIntl None style_decimal false (Some 0) 2) (num_of_Z 9).
Proof. vm_compute. reflexivity. Qed.

(** ** Colors *)

Lemma to_int32_bounds z : - 2 ^ 31 ≤ to_int32 z < 2 ^ 31.
Proof. unfold to_int32. pose proof (Z.mod_pos_bound (z + 2 ^ 31) (2 ^ 32) eq_refl). lia. Qed.

Lemma hash_bounds str h : - 2 ^ 31 ≤ h < 2 ^ 31 → - 2 ^ 31 ≤ foldl hash_step h str < 2 ^ 31.
Proof. revert h. induction str as [|c str IH]; intros h Hh; [done|]. apply IH, to_int32_bounds. Qed.

Lemma rem_range a b : 0 < b → 0 ≤ Z.rem (Z.abs a) b < b.
Proof. intros Hb. apply Z.rem_bound_pos; lia. Qed.

(** The hash behind the color of a name stays a 32-bit integer, and every
    name but the empty one gets a color [hsl(h, s%, l%)] with a hue below 360, a
    saturation of 65 to 74 and a lightness of 55 to 64 percent, negative hashes
    included. *)
Theorem color_is_in_range str :
  - 2 ^ 31 ≤ string_hash str < 2 ^ 31
  ∧ (str = [] ∧ stringToColor str = js "gray"
     ∨ ∃ h s l, 0 ≤ h < 360 ∧ 65 ≤ s < 75 ∧ 55 ≤ l < 65
         ∧ stringToColor str = js "hsl(" ++ digits_Z h ++ js ", " ++ digits_Z s ++ js "%, " ++ digits_Z l ++ js "%)").
Proof.
  split; [by apply hash_bounds|]. destruct str as [|c str]; [by left|]. right.
  set (H := string_hash (c :: str)).
  pose proof (rem_range H 10 eq_refl). pose proof (rem_range (Z.shiftr H 8) 10 eq_refl).
  exists (Z.abs (Z.rem H 360)), (65 + Z.rem (Z.abs H) 10), (55 + Z.rem (Z.abs (Z.shiftr H 8)) 10).
  split_and!; try lia; [|done]. rewrite <-Z.rem_abs by lia. apply (rem_range H 360 eq_refl).
Qed.
